(* ===== verification/_CoqProject ===== *)
-Q . S2P
Prelude.v
Errno.v
Utf8.v
Time.v
TimeProps.v
Stat.v
SockAddr.v
Host.v
DescTable.v
DescTableInv.v
DescTableSpec.v
DescTableProps.v
Object.v
File.v
Tcp.v
Udp.v
Vtable.v
FdOps.v
FdProps.v
Nocwd.v
NocwdProps.v
FileProps.v
Memory.v
Preopens.v
PreopensProps.v
Cwd.v
Posix.v
PosixProps.v
Wasip3.v
Stream3.v
Stream3Inv.v
Stream3Spec.v
Stream3Props.v
Dirent1.v
Dirent1Props.v
Dirent2.v
Dirent2Props.v
Sockets.v
Poll.v
Resources.v
ResourceInv.v
ResourceObj.v
ResourceTcp.v
ResourceUdp.v
ResourceIo.v
ResourceWorld.v
ResourceFs.v
ResourcePoll.v
ResourcePath.v
ResourceProps.v
PollProps.v
Emmalloc.v
EmmallocInv.v
EmmallocBits.v
EmmallocState.v
EmmallocOps.v
EmmallocSteps.v
EmmallocClaim.v
EmmallocAlloc.v
EmmallocSearch.v
EmmallocFree.v
EmmallocCalls.v
EmmallocProps.v
Calendar.v
CalendarProps.v
Multibyte.v
MultibyteProps.v
WideProps.v
Qsort.v
QsortArray.v
QsortHeap.v
QsortWords.v
QsortSift.v
QsortProps.v
Pipe.v
PipeHost.v
PipeSpec.v
PipeInv.v
PipeProps.v
PipeFd.v
