(* ===== verification/Prelude.v ===== *)
(** * A verification development for wasi-libc

    wasi-libc is the C library of WebAssembly programs on WASI. Its top half is
    musl; its bottom half implements POSIX file descriptors, paths, time and
    streams over the imports of a WASI host, in three versions (wasip1, wasip2,
    wasip3) chosen at compile time. This development models the bottom half,
    for wasip2 where nothing else is said, the allocator emmalloc and some
    routines of musl, and proves what makes them correct.

    ** The program and the files that model it

    Every definition carries the name of the C function it translates; helpers
    stand for a loop or a block of it. Paths are under
    src/libc-bottom-half/ where they do not start with src/.

    - Prelude: machine integers, the state monad [M S A] with the ways a process
      stops ([Trap], [Undef], [Exit], [Fuel]), its rules of symbolic execution
      ([wp]), [errno] and the allocator ([Libc]), C strings.
    - Errno: headers/public/__errno_values.h, host error codes,
      cloudlibc/src/common/errors.h.
    - Utf8: [validate_utf8] and [wasi_string_from_c] of sources/file_utils.c.
    - Time, TimeProps: cloudlibc/src/common/time.h for the three versions and
      the clock and sleep functions of cloudlibc/src/libc/time and unistd.
    - Stat: cloudlibc/src/libc/sys/stat/stat_impl.h, sources/__wasilibc_dt.c.
    - Host: the imports of wasip2 as a type of calls; the host is a function of
      the calls made so far.
    - DescTable: sources/descriptor_table.c, a slab of slots over a heap of
      reference-counted objects. DescTableInv has its invariant, DescTableSpec
      an abstract table (a finite map from descriptors to objects) which the
      code refines, DescTableProps the theorems.
    - File, FdOps: sources/file.c, sources/wasip2_stdio.c, the wasip2 loops of
      sources/file_utils.c and the calls on descriptors (read, write, lseek,
      fstat, fcntl, ioctl, dup, ...). FdProps has the rules of safe calls,
      FileProps the refinement of files. Object and Vtable: what the objects
      behind descriptors share, and the choice of a slot by the kind of object.
    - SockAddr, Tcp, Udp, Sockets: sources/sockets_utils.c, tcp.c, udp.c and the
      socket calls (socket.c, bind.c, connect.c, ...).
    - Poll, PollProps: sources/ppoll.c, poll, select and pselect.
    - Resources: the documented rules of the host on handles, as a function on
      the log of calls. ResourceInv, ResourceObj, ResourceTcp, ResourceUdp,
      ResourceIo, ResourceWorld (sockets, streams and the table), ResourceFs
      (calls relative to a descriptor), ResourcePoll, ResourcePath (preopens,
      paths and the current directory) show that each part of the library keeps
      them, ResourceProps has the theorems on whole programs.
    - Nocwd, NocwdProps: the calls relative to a directory descriptor
      (cloudlibc/src/libc: openat, fstatat, linkat, ...).
    - Preopens, PreopensProps, Memory: sources/preopens.c for wasip1 and wasip2.
    - Cwd, Posix, PosixProps: sources/chdir.c, getcwd.c, posix.c, at_fdcwd.c,
      truncate.c: paths resolved against preopens and the current directory.
    - Wasip3, Stream3, Stream3Inv, Stream3Spec, Stream3Props: the asynchronous
      streams of wasip3 (sources/file_utils.c, wasip3_block_on.c) over the
      rules of the component model.
    - Dirent1, Dirent1Props: the directory streams of wasip1
      (cloudlibc/src/libc/dirent) over the bytes the host writes.
    - Dirent2, Dirent2Props: the directory streams of wasip2, which take one
      entry at a time, with opendir and closedir.
    - Pipe, PipeFd: sources/pipe.c (wasip3), whose threads wait for each other
      through a stream of the component model. PipeHost has the rules of that
      stream, PipeSpec the queue and the schedules of threads, PipeInv the
      invariant, PipeProps the theorems.
    - Emmalloc: src/emmalloc/emmalloc.c on a memory of bytes, sources/sbrk.c and
      reallocarray.c. EmmallocInv, EmmallocBits, EmmallocState, EmmallocOps,
      EmmallocSteps, EmmallocClaim, EmmallocAlloc, EmmallocSearch, EmmallocFree
      and EmmallocCalls build its invariant function by function, EmmallocProps
      has the theorems.
    - Calendar, CalendarProps: src/libc-top-half/musl/src/time (gmtime_r,
      timegm and what they call).
    - Multibyte, MultibyteProps, WideProps: src/libc-top-half/musl/src/multibyte.
    - Qsort: qsort and bsearch of src/libc-top-half/musl/src/stdlib. QsortArray
      has arrays in memory, QsortHeap the forest of Leonardo heaps, QsortWords
      the two-word bit set that encodes it, QsortSift the functions that
      restore it, QsortProps the theorems.

    ** What the theorems show

    - Descriptors (DescTableProps): from every reachable state every operation
      returns; an object lives exactly as long as a descriptor or a caller
      refers to it; each operation does what its contract says on every branch.
    - Files (FileProps): reads and seeks, and writes and seeks, through lazily
      opened host streams refine a file with one position, without [O_APPEND] and
      [SEEK_END]; a failed write is followed by failing ones until a seek.
    - Calls (NocwdProps, PosixProps): every call returns whatever the host and
      the allocator answer, and gives back the references it takes; flags and
      paths reach the host as they should.
    - Paths (PreopensProps, PosixProps): the longest matching prefix is found;
      start-up registers the preopens of the host; chdir and getcwd agree.
    - Streams of wasip3 (Stream3Props): no byte is lost, repeated or reordered,
      the component model's rules are obeyed, calls return, non-blocking calls
      do not wait, closing flushes.
    - Conversions (Utf8, TimeProps, Stat): UTF-8 validation is exact, times
      convert without loss within their range and saturate outside it.
    - Directory streams (Dirent1Props): readdir returns every entry once and in
      order, whatever the sizes of names and buffer; telldir and seekdir agree
      for cookies of 32 bits. The wasip2 streams (Dirent2Props) refine a list
      with a position and return with any host.
    - Whole programs (ResourceProps): from start-up a program makes any calls on
      files, paths, descriptors, sockets and the poll family, but for directory
      streams, [truncate] and [__wasilibc_reset_preopens]. The host is never asked
      something its rules forbid, as long as no poll is made that nothing can end
      ([poll_nothing] shows the rule it breaks); calls return when ready pollables
      tell the truth, but for two answers of the host on which the code aborts and
      an exit when memory runs out while the preopens are entered; and every
      handle is given back once every descriptor is closed. [preopen_dropped_twice]
      shows a rule that is broken when memory runs out there. PollProps says what
      poll and select report.
    - Pipes (PipeProps, PipeFd): with one thread at each end a pipe is a bounded
      queue under every schedule, no wake-up is lost, and pipe2 opens both
      descriptors or none. A second reader of an end breaks the rules of the host
      in the states [second_reader_traps] names.
    - Allocation (EmmallocProps): emmalloc refines a map of disjoint blocks that
      keep their contents; free regions are merged and listed by size. This is for
      sizes up to 2^31 - 2^17, alignments up to 2^20 and a memory that leaves room
      below 2^32; [malloc_huge_traps] and [calloc_overflows] are beyond them.
    - musl (CalendarProps, MultibyteProps, WideProps, QsortProps): the calendar
      is the Gregorian one and inverts; the decoders and encoders are UTF-8;
      qsort sorts and bsearch finds.

    Theorems named in a finding of the manifest show behaviour that the code
    does not intend.

    ** Assumptions, bounds and fuel

    The host is a parameter; what is assumed of its answers is in the classes
    [HostLaws] (Host), [ResourceLaws] (Resources), [PreopenLaws] (ResourcePath),
    [ReadLaws] and [WriteLaws] (FileProps; a stream that failed is closed),
    [Host3Laws] (Wasip3) and [HostULaws] (PipeHost), each with an instance; the
    theorem that calls return assumes [Prompt] and [Tolerable] (Resources). An
    allocation may fail at any time: the state carries the list of answers of
    the allocator. Assertions are enabled and the program has one thread, so
    that locks do nothing; the threads of the pipes are cooperative and change
    only where a call waits. A descriptor table has at most 2^26 slots and a
    host at most 2^20 preopens in the theorems on programs. The theorems on
    qsort are for arrays of less than 2^31 bytes; those on mbsrtowcs let its
    fast loop read whole aligned words; emmalloc's count of leading zeros is 64
    for zero. Loops that are not structural take fuel computed from the state
    (the length of a table or a buffer, 32 doublings of a 32-bit size) or given
    as an argument; the theorems prove that the calls return, so that the fuel
    suffices. A loop that repeats a call after waiting for the host takes the
    number of rounds; one is enough when the host tells the truth about what is
    ready ([calls_return]), and without that [Fuel] can be its end.

    ** Not modelled

    - Generated bindings and one-line wrappers of an import (sources/wasip2.c,
      wasip3.c, __wasilibc_real.c), and code the linker or the compiler
      provides (crt objects, thread-local storage): nothing to prove but the
      call itself. The copies of arguments and environment at start-up.
    - Floating point (complex-builtins.c, math, clocks); dlmalloc and musl-fts,
      third-party code; threads with locks and futexes; the emulation of signals
      and of mmap.
    - Of components that are modelled: the wasip1 and wasip3 branches that the
      list above does not name, among them polling for wasip3 and with it the
      registration of pipes and streams; directory streams of wasip3; scandirat;
      name lookup and the table of services; mbsnrtowcs and wcsnrtombs.
    - musl, the top half, outside the routines named above.

    These could be modelled in the same way; they were left for their smaller
    share of the behaviour that is particular to this library.

 *)

From stdpp Require Export base tactics list list_numbers numbers gmap strings option.
From Stdlib Require Export ZArith Lia.

Global Open Scope Z_scope.

Create HintDb libc.

(** ** Machine integers

    wasm32: [int], [unsigned], [size_t] and pointers have 32 bits, [off_t],
    [time_t] and the WASI timestamps have 64. A value is kept as the integer
    it denotes; every operation of the source that can wrap is written with
    the wrap of its width. *)

Definition u32 (z : Z) : Z := z mod 2 ^ 32.
Definition u64 (z : Z) : Z := z mod 2 ^ 64.
Definition i32 (z : Z) : Z := (z + 2 ^ 31) mod 2 ^ 32 - 2 ^ 31.
Definition i64 (z : Z) : Z := (z + 2 ^ 63) mod 2 ^ 64 - 2 ^ 63.

Definition UINT64_MAX : Z := 2 ^ 64 - 1.
Definition INT64_MAX : Z := 2 ^ 63 - 1.

Lemma u32_small z : 0 <= z < 2 ^ 32 -> u32 z = z.
Proof. apply Z.mod_small. Qed.

Lemma u32_range z : 0 <= u32 z < 2 ^ 32.
Proof. apply Z.mod_pos_bound. lia. Qed.

Lemma u64_small z : 0 <= z < 2 ^ 64 -> u64 z = z.
Proof. apply Z.mod_small. Qed.

Lemma i32_small z : - 2 ^ 31 <= z < 2 ^ 31 -> i32 z = z.
Proof. intros. unfold i32. rewrite Z.mod_small; lia. Qed.

Lemma u32_i32 z : u32 (i32 z) = u32 z.
Proof. unfold u32, i32. rewrite Zminus_mod_idemp_l. f_equal. lia. Qed.

Lemma i64_small z : - 2 ^ 63 <= z < 2 ^ 63 -> i64 z = z.
Proof. intros. unfold i64. rewrite Z.mod_small; lia. Qed.

(** [flags & mask], as a condition. *)
Definition has (flags mask : Z) : bool := negb (Z.land flags mask =? 0).

Lemma has_bit f k : 0 <= k -> has f (Z.shiftl 1 k) = Z.testbit f k.
Proof.
  intros Hk. unfold has. rewrite Z.shiftl_1_l. destruct (Z.testbit f k) eqn:E.
  - apply negb_true_iff, Z.eqb_neq. intros H. apply (f_equal (fun z => Z.testbit z k)) in H.
    rewrite Z.land_spec, E, Z.pow2_bits_true, Z.bits_0 in H by done. done.
  - apply negb_false_iff, Z.eqb_eq, Z.bits_inj'. intros n Hn.
    rewrite Z.land_spec, Z.bits_0. destruct (decide (n = k)) as [->|Hne]; [by rewrite E|].
    rewrite Z.pow2_bits_false by done. by rewrite andb_false_r.
Qed.

(** ** Outcomes and the state monad

    A call returns a value in a new state, or the process stops: at
    [__builtin_trap], [abort] or a failed [assert] ([Trap]), at an access the
    C language leaves undefined ([Undef]: a dangling pointer), at [_Exit], or
    because a loop of the model used up its fuel ([Fuel]). *)

Inductive stop := Trap | Undef | Exit (code : Z) | Fuel.

Inductive outcome (S A : Type) :=
| Done (a : A) (s : S)
| Stop (r : stop) (s : S).
Arguments Done {S A} a s.
Arguments Stop {S A} r s.

Definition M (S A : Type) : Type := S -> outcome S A.

Global Instance M_ret S : MRet (M S) := fun A (a : A) s => Done a s.

Global Instance M_bind S : MBind (M S) := fun A B (f : A -> M S B) (m : M S A) s =>
  match m s with
  | Done a s' => f a s'
  | Stop r s' => Stop r s'
  end.

Definition get {S} : M S S := fun s => Done s s.
Definition gets {S A} (f : S -> A) : M S A := fun s => Done (f s) s.
Definition modify {S} (f : S -> S) : M S unit := fun s => Done tt (f s).
Definition halt {S A} (r : stop) : M S A := fun s => Stop r s.

(** [assert(b)], in a build without [NDEBUG]. *)
Definition assert_ {S} (b : bool) : M S unit := if b then mret tt else halt Trap.

(** A pointer that the C code dereferences. *)
Definition deref {S A} (o : option A) : M S A :=
  match o with Some a => mret a | None => halt Undef end.

(** Runs a computation on a part of the state. *)
Definition zoom {S T A} (rd : S -> T) (wr : T -> S -> S) (m : M T A) : M S A := fun s =>
  match m (rd s) with
  | Done a t => Done a (wr t s)
  | Stop r t => Stop r (wr t s)
  end.

(** [wp m Q s]: from [s] the call [m] returns, and [Q] holds of the value and
    the state it returns. Every way of stopping is excluded. *)
Definition wp {S A} (m : M S A) (Q : A -> S -> Prop) (s : S) : Prop :=
  match m s with Done a s' => Q a s' | Stop _ _ => False end.

Section wp_rules.
Context {S : Type}.

Lemma wp_ret {A} (a : A) (Q : A -> S -> Prop) s : Q a s -> wp (mret a) Q s.
Proof. done. Qed.

Lemma wp_bind {A B} (m : M S A) (f : A -> M S B) (Q : B -> S -> Prop) s :
  wp m (fun a s' => wp (f a) Q s') s -> wp (m ≫= f) Q s.
Proof. unfold wp, mbind, M_bind. by destruct (m s). Qed.

Lemma wp_mono {A} (m : M S A) (P Q : A -> S -> Prop) s :
  wp m P s -> (forall a s', P a s' -> Q a s') -> wp m Q s.
Proof. unfold wp. destruct (m s); naive_solver. Qed.

Lemma wp_done {A} (m : M S A) (Q : A -> S -> Prop) s :
  wp m Q s <-> exists a s', m s = Done a s' /\ Q a s'.
Proof.
  unfold wp. destruct (m s) as [a s'|r s']; split; [by eauto| |done|].
  - by intros (? & ? & [= -> ->] & ?).
  - by intros (? & ? & [=] & ?).
Qed.

Lemma wp_and {A} (m : M S A) (P Q : A -> S -> Prop) s :
  wp m P s -> wp m Q s -> wp m (fun a s' => P a s' /\ Q a s') s.
Proof. unfold wp. destruct (m s); naive_solver. Qed.

Lemma wp_gets {A} (f : S -> A) (Q : A -> S -> Prop) s : Q (f s) s -> wp (gets f) Q s.
Proof. done. Qed.

Lemma wp_modify (f : S -> S) (Q : unit -> S -> Prop) s : Q tt (f s) -> wp (modify f) Q s.
Proof. done. Qed.

Lemma wp_assert (b : bool) (Q : unit -> S -> Prop) s : b = true -> Q tt s -> wp (assert_ b) Q s.
Proof. by intros ->. Qed.

Lemma wp_deref {A} (o : option A) a (Q : A -> S -> Prop) s : o = Some a -> Q a s -> wp (deref o) Q s.
Proof. by intros ->. Qed.

Lemma bind_done {A B} (m : M S A) (f : A -> M S B) s a s' :
  m s = Done a s' -> (m ≫= f) s = f a s'.
Proof. unfold mbind, M_bind. by intros ->. Qed.

Lemma bind_stop {A B} (m : M S A) (f : A -> M S B) s r s' :
  m s = Stop r s' -> (m ≫= f) s = Stop r s'.
Proof. unfold mbind, M_bind. by intros ->. Qed.

Lemma wp_if {A} (b : bool) (m1 m2 : M S A) (Q : A -> S -> Prop) s :
  (b = true -> wp m1 Q s) -> (b = false -> wp m2 Q s) -> wp (if b then m1 else m2) Q s.
Proof. destruct b; auto. Qed.
End wp_rules.

Lemma wp_zoom {S T A} (rd : S -> T) (wr : T -> S -> S) (m : M T A) Q (s : S) :
  wp m (fun a t => Q a (wr t s)) (rd s) -> wp (zoom rd wr m) Q s.
Proof. unfold wp, zoom. by destruct (m (rd s)). Qed.

(** [m] returns from every state: it never stops. *)
Definition returns {S A} (m : M S A) : Prop := forall s, exists a s', m s = Done a s'.

Section returns_rules.
Context {S : Type}.

Lemma returns_ret {A} (a : A) : returns (mret a : M S A).
Proof. intros s. by exists a, s. Qed.

Lemma returns_bind {A B} (m : M S A) (f : A -> M S B) : returns m -> (forall a, returns (f a)) -> returns (m ≫= f).
Proof. intros Hm Hf s. destruct (Hm s) as (a & s' & Hs). rewrite (bind_done _ _ _ _ _ Hs). apply Hf. Qed.

Lemma returns_gets {A} (f : S -> A) : returns (gets f).
Proof. intros s. by eexists _, _. Qed.

Lemma returns_modify (f : S -> S) : returns (modify f).
Proof. intros s. by eexists _, _. Qed.

Lemma returns_if {A} (b : bool) (m1 m2 : M S A) : returns m1 -> returns m2 -> returns (if b then m1 else m2).
Proof. by destruct b. Qed.
End returns_rules.

(** One step of symbolic execution of a [wp] goal. *)
Ltac wp_step :=
  lazymatch goal with
  | |- wp (_ ≫= _) _ _ => apply wp_bind
  | |- wp (mret _) _ _ => apply wp_ret
  | |- wp (gets _) _ _ => apply wp_gets
  | |- wp get _ _ => apply (wp_gets id)
  | |- wp (modify _) _ _ => apply wp_modify
  | |- wp (zoom _ _ _) _ _ => apply wp_zoom
  | |- wp (if _ then _ else _) _ _ => apply wp_if; intros
  end; cbv beta.
Ltac wp_steps := repeat wp_step.

(** Decides the tests of a goal by arithmetic. *)
Ltac decide_ifs :=
  repeat match goal with |- context [if ?b then _ else _] =>
    first [replace b with true by lia | replace b with false by lia] end.

(** ** What every component needs from the C run-time

    The state of a component carries [errno] and the sequence of answers the
    allocator gives: whether the next [malloc], [calloc], [realloc] or
    [strdup] succeeds. *)

Class Libc (S : Type) := {
  errno : S -> Z;
  with_errno : Z -> S -> S;
  take_alloc : S -> bool * S;
}.

Class LibcLaws (S : Type) `{Libc S} := {
  errno_with_errno e (s : S) : errno (with_errno e s) = e;
  errno_take_alloc (s : S) : errno (take_alloc s).2 = errno s;
}.

Definition set_errno {St} `{Libc St} (e : Z) : M St unit := modify (with_errno e).
Definition alloc_ok {St} `{Libc St} : M St bool := fun s => let (b, s') := take_alloc s in Done b s'.

(** [errno = e; return v;] *)
Definition fail_with {St} `{Libc St} {A} (e : Z) (v : A) : M St A := set_errno e ;; mret v.

Lemma wp_set_errno {St} `{Libc St} e (Q : unit -> St -> Prop) s :
  Q tt (with_errno e s) -> wp (set_errno e) Q s.
Proof. done. Qed.

Lemma wp_fail_with {St} `{Libc St} {A} e (v : A) (Q : A -> St -> Prop) s :
  Q v (with_errno e s) -> wp (fail_with e v) Q s.
Proof. done. Qed.

Lemma returns_fail_with {St} `{Libc St} {A} e (v : A) : returns (fail_with e v : M St A).
Proof. intros s. by eexists _, _. Qed.

Lemma returns_set_errno {St} `{Libc St} e : returns (set_errno e : M St unit).
Proof. intros s. by eexists _, _. Qed.

Global Hint Resolve returns_ret returns_bind returns_gets returns_modify returns_if returns_fail_with returns_set_errno : libc.

Lemma wp_alloc_ok {St} `{Libc St} (Q : bool -> St -> Prop) s :
  (forall b s', take_alloc s = (b, s') -> Q b s') -> wp alloc_ok Q s.
Proof. unfold wp, alloc_ok. destruct (take_alloc s); auto. Qed.

(** The run-time state on its own. *)
Record env := Env { env_errno : Z; env_allocs : list bool }.

Global Instance env_libc : Libc env := {
  errno := env_errno;
  with_errno e s := Env e (env_allocs s);
  take_alloc s := match env_allocs s with
                  | [] => (true, s)
                  | b :: rest => (b, Env (env_errno s) rest)
                  end;
}.

Global Instance env_libc_laws : LibcLaws env.
Proof. split; [done|]. by intros [e [|b rest]]. Qed.

(** ** C strings and byte buffers

    A byte is an integer between 0 and 255. A C string is the list of its
    bytes before the terminating zero. *)

Abbreviation cstr := (list Z).

Definition SLASH : Z := 47.
Definition DOT : Z := 46.

Definition is_byte (z : Z) : Prop := 0 <= z < 256.
Definition wf_cstr (s : cstr) : Prop := Forall (fun z => 0 < z < 256) s.

(** [s[i]] for [i <= strlen(s)]. *)
Definition at_ (s : cstr) (i : nat) : Z := default 0 (s !! i).

Definition strlen (s : cstr) : Z := Z.of_nat (length s).

Lemma strlen_nonneg s : (strlen s <? 0) = false.
Proof. unfold strlen. apply Z.ltb_ge. lia. Qed.

Definition streq (a b : cstr) : bool := bool_decide (a = b).

(** The bytes of a string literal. *)
Fixpoint lit (s : string) : cstr :=
  match s with
  | EmptyString => []
  | String c s' => Z.of_nat (Ascii.nat_of_ascii c) :: lit s'
  end.

(** Drops the leading bytes equal to [c]: [while ( *p == c) p++]. *)
Fixpoint skip (c : Z) (s : cstr) : cstr :=
  match s with
  | [] => []
  | x :: s' => if x =? c then skip c s' else s
  end.

Lemma skip_app_replicate c n s : skip c (replicate n c ++ s) = skip c s.
Proof. induction n; simpl; [done|]. by rewrite Z.eqb_refl. Qed.

Lemma skip_spec c s : exists n, s = replicate n c ++ skip c s.
Proof.
  induction s as [|x s [n IH]]; simpl; [by exists 0%nat|].
  destruct (Z.eqb_spec x c) as [->|]; [|by exists 0%nat].
  exists (Datatypes.S n). simpl. by f_equal.
Qed.

Lemma skip_head c s : at_ (skip c s) 0 = c -> c = 0.
Proof.
  induction s as [|x s IH]; simpl; [done|].
  destruct (Z.eqb_spec x c) as [->|Hne]; [done|].
  unfold at_; simpl. intros; done.
Qed.

Lemma skip_idem c s : skip c (skip c s) = skip c s.
Proof.
  induction s as [|x s IH]; simpl; [done|].
  destruct (x =? c) eqn:E; [done|]. simpl. by rewrite E.
Qed.

Lemma wf_cstr_skip c s : wf_cstr s -> wf_cstr (skip c s).
Proof. induction 1; simpl; [constructor|]. case_match; [done|]. by constructor. Qed.

Global Hint Resolve skip_idem wf_cstr_skip : libc.

(** ** Little-endian integers *)

Fixpoint le_bytes (n : nat) (z : Z) : list Z :=
  match n with O => [] | S n' => z mod 256 :: le_bytes n' (z / 256) end.
Fixpoint le_value (l : list Z) : Z := match l with [] => 0 | b :: l' => b + 256 * le_value l' end.

Lemma length_le_bytes n z : length (le_bytes n z) = n.
Proof. revert z. induction n as [|n IH]; intros z; simpl; [done|]. by rewrite IH. Qed.

Lemma le_value_bytes n z : 0 <= z < 256 ^ Z.of_nat n -> le_value (le_bytes n z) = z.
Proof.
  revert z. induction n as [|n IH]; intros z Hz; [simpl in *; lia|].
  cbn [le_bytes le_value]. rewrite IH.
  - pose proof (Z_div_mod_eq_full z 256). lia.
  - rewrite Nat2Z.inj_succ, Z.pow_succ_r in Hz by lia. split; [apply Z.div_pos; lia|apply Z.div_lt_upper_bound; lia].
Qed.

Definition byte (b : Z) : Prop := 0 <= b < 256.

Lemma le_bytes_value l : Forall byte l -> le_bytes (length l) (le_value l) = l.
Proof.
  induction 1 as [|b l Hb _ IH]; cbn [length le_value le_bytes]; [done|]. unfold byte in Hb.
  rewrite (Z.mul_comm 256), Z_mod_plus_full, Z.mod_small, Z_div_plus_full, Z.div_small by lia. by rewrite Z.add_0_l, IH.
Qed.

Lemma le_bytes_range n z : Forall byte (le_bytes n z).
Proof. revert z. induction n as [|n IH]; intros z; constructor; [apply Z.mod_pos_bound; lia|apply IH]. Qed.

Lemma le_value_range l : Forall byte l -> 0 <= le_value l < 256 ^ Z.of_nat (length l).
Proof.
  induction 1 as [|b l Hb _ IH]; cbn [length le_value]; [done|]. unfold byte in Hb. rewrite Nat2Z.inj_succ, Z.pow_succ_r by lia. lia.
Qed.
