(* ===== verification/Errno.v ===== *)
(** * Error numbers and the translation of WASI filesystem errors

    The values of [errno] (headers/public/__errno_values.h) and
    [translate_error] (cloudlibc/src/common/errors.h), the function every
    wasip2 and wasip3 file operation sends a host error through. *)

From S2P Require Import Prelude.

(** ** [errno] values *)

Definition E2BIG : Z := 1.
Definition EACCES : Z := 2.
Definition EADDRINUSE : Z := 3.
Definition EADDRNOTAVAIL : Z := 4.
Definition EAFNOSUPPORT : Z := 5.
Definition EAGAIN : Z := 6.
Definition EALREADY : Z := 7.
Definition EBADF : Z := 8.
Definition EBADMSG : Z := 9.
Definition EBUSY : Z := 10.
Definition ECANCELED : Z := 11.
Definition ECHILD : Z := 12.
Definition ECONNABORTED : Z := 13.
Definition ECONNREFUSED : Z := 14.
Definition ECONNRESET : Z := 15.
Definition EDEADLK : Z := 16.
Definition EDESTADDRREQ : Z := 17.
Definition EDOM : Z := 18.
Definition EDQUOT : Z := 19.
Definition EEXIST : Z := 20.
Definition EFAULT : Z := 21.
Definition EFBIG : Z := 22.
Definition EHOSTUNREACH : Z := 23.
Definition EIDRM : Z := 24.
Definition EILSEQ : Z := 25.
Definition EINPROGRESS : Z := 26.
Definition EINTR : Z := 27.
Definition EINVAL : Z := 28.
Definition EIO : Z := 29.
Definition EISCONN : Z := 30.
Definition EISDIR : Z := 31.
Definition ELOOP : Z := 32.
Definition EMFILE : Z := 33.
Definition EMLINK : Z := 34.
Definition EMSGSIZE : Z := 35.
Definition EMULTIHOP : Z := 36.
Definition ENAMETOOLONG : Z := 37.
Definition ENETDOWN : Z := 38.
Definition ENETRESET : Z := 39.
Definition ENETUNREACH : Z := 40.
Definition ENFILE : Z := 41.
Definition ENOBUFS : Z := 42.
Definition ENODEV : Z := 43.
Definition ENOENT : Z := 44.
Definition ENOEXEC : Z := 45.
Definition ENOLCK : Z := 46.
Definition ENOLINK : Z := 47.
Definition ENOMEM : Z := 48.
Definition ENOMSG : Z := 49.
Definition ENOPROTOOPT : Z := 50.
Definition ENOSPC : Z := 51.
Definition ENOSYS : Z := 52.
Definition ENOTCONN : Z := 53.
Definition ENOTDIR : Z := 54.
Definition ENOTEMPTY : Z := 55.
Definition ENOTRECOVERABLE : Z := 56.
Definition ENOTSOCK : Z := 57.
Definition ENOTSUP : Z := 58.
Definition ENOTTY : Z := 59.
Definition ENXIO : Z := 60.
Definition EOVERFLOW : Z := 61.
Definition EOWNERDEAD : Z := 62.
Definition EPERM : Z := 63.
Definition EPIPE : Z := 64.
Definition EPROTO : Z := 65.
Definition EPROTONOSUPPORT : Z := 66.
Definition EPROTOTYPE : Z := 67.
Definition ERANGE : Z := 68.
Definition EROFS : Z := 69.
Definition ESPIPE : Z := 70.
Definition ESRCH : Z := 71.
Definition ESTALE : Z := 72.
Definition ETIMEDOUT : Z := 73.
Definition ETXTBSY : Z := 74.
Definition EXDEV : Z := 75.
Definition ENOTCAPABLE : Z := 76.
Definition EOPNOTSUPP : Z := ENOTSUP.
Definition EWOULDBLOCK : Z := EAGAIN.

(** ** [filesystem_error_code_t]

    The case numbers the two WIT packages assign; wasip3 has no [would-block]
    and adds [other]. *)

Module P2.
Definition ERROR_CODE_ACCESS : Z := 0.
Definition ERROR_CODE_WOULD_BLOCK : Z := 1.
Definition ERROR_CODE_ALREADY : Z := 2.
Definition ERROR_CODE_BAD_DESCRIPTOR : Z := 3.
Definition ERROR_CODE_BUSY : Z := 4.
Definition ERROR_CODE_DEADLOCK : Z := 5.
Definition ERROR_CODE_QUOTA : Z := 6.
Definition ERROR_CODE_EXIST : Z := 7.
Definition ERROR_CODE_FILE_TOO_LARGE : Z := 8.
Definition ERROR_CODE_ILLEGAL_BYTE_SEQUENCE : Z := 9.
Definition ERROR_CODE_IN_PROGRESS : Z := 10.
Definition ERROR_CODE_INTERRUPTED : Z := 11.
Definition ERROR_CODE_INVALID : Z := 12.
Definition ERROR_CODE_IO : Z := 13.
Definition ERROR_CODE_IS_DIRECTORY : Z := 14.
Definition ERROR_CODE_LOOP : Z := 15.
Definition ERROR_CODE_TOO_MANY_LINKS : Z := 16.
Definition ERROR_CODE_MESSAGE_SIZE : Z := 17.
Definition ERROR_CODE_NAME_TOO_LONG : Z := 18.
Definition ERROR_CODE_NO_DEVICE : Z := 19.
Definition ERROR_CODE_NO_ENTRY : Z := 20.
Definition ERROR_CODE_NO_LOCK : Z := 21.
Definition ERROR_CODE_INSUFFICIENT_MEMORY : Z := 22.
Definition ERROR_CODE_INSUFFICIENT_SPACE : Z := 23.
Definition ERROR_CODE_NOT_DIRECTORY : Z := 24.
Definition ERROR_CODE_NOT_EMPTY : Z := 25.
Definition ERROR_CODE_NOT_RECOVERABLE : Z := 26.
Definition ERROR_CODE_UNSUPPORTED : Z := 27.
Definition ERROR_CODE_NO_TTY : Z := 28.
Definition ERROR_CODE_NO_SUCH_DEVICE : Z := 29.
Definition ERROR_CODE_OVERFLOW : Z := 30.
Definition ERROR_CODE_NOT_PERMITTED : Z := 31.
Definition ERROR_CODE_PIPE : Z := 32.
Definition ERROR_CODE_READ_ONLY : Z := 33.
Definition ERROR_CODE_INVALID_SEEK : Z := 34.
Definition ERROR_CODE_TEXT_FILE_BUSY : Z := 35.
Definition ERROR_CODE_CROSS_DEVICE : Z := 36.

(** The [case] labels of [translate_error] with the [errno] each sets. *)
Definition error_cases : list (Z * Z) :=
  [(ERROR_CODE_ACCESS, EACCES);
   (ERROR_CODE_WOULD_BLOCK, EAGAIN);
   (ERROR_CODE_ALREADY, EALREADY);
   (ERROR_CODE_BAD_DESCRIPTOR, EBADF);
   (ERROR_CODE_BUSY, EBUSY);
   (ERROR_CODE_DEADLOCK, EDEADLK);
   (ERROR_CODE_QUOTA, EDQUOT);
   (ERROR_CODE_EXIST, EEXIST);
   (ERROR_CODE_FILE_TOO_LARGE, EFBIG);
   (ERROR_CODE_ILLEGAL_BYTE_SEQUENCE, EILSEQ);
   (ERROR_CODE_IN_PROGRESS, EINPROGRESS);
   (ERROR_CODE_INTERRUPTED, EINTR);
   (ERROR_CODE_INVALID, EINVAL);
   (ERROR_CODE_IO, EIO);
   (ERROR_CODE_IS_DIRECTORY, EISDIR);
   (ERROR_CODE_LOOP, ELOOP);
   (ERROR_CODE_TOO_MANY_LINKS, EMLINK);
   (ERROR_CODE_MESSAGE_SIZE, EMSGSIZE);
   (ERROR_CODE_NAME_TOO_LONG, ENAMETOOLONG);
   (ERROR_CODE_NO_DEVICE, ENODEV);
   (ERROR_CODE_NO_ENTRY, ENOENT);
   (ERROR_CODE_NO_LOCK, ENOLCK);
   (ERROR_CODE_INSUFFICIENT_MEMORY, ENOMEM);
   (ERROR_CODE_INSUFFICIENT_SPACE, ENOSPC);
   (ERROR_CODE_NOT_DIRECTORY, ENOTDIR);
   (ERROR_CODE_NOT_EMPTY, ENOTEMPTY);
   (ERROR_CODE_NOT_RECOVERABLE, ENOTRECOVERABLE);
   (ERROR_CODE_UNSUPPORTED, ENOTSUP);
   (ERROR_CODE_NO_TTY, ENOTTY);
   (ERROR_CODE_NO_SUCH_DEVICE, ENXIO);
   (ERROR_CODE_OVERFLOW, EOVERFLOW);
   (ERROR_CODE_NOT_PERMITTED, EPERM);
   (ERROR_CODE_PIPE, EPIPE);
   (ERROR_CODE_READ_ONLY, EROFS);
   (ERROR_CODE_INVALID_SEEK, ESPIPE);
   (ERROR_CODE_TEXT_FILE_BUSY, ETXTBSY);
   (ERROR_CODE_CROSS_DEVICE, EXDEV)].
End P2.

Module P3.
Definition ERROR_CODE_ACCESS : Z := 0.
Definition ERROR_CODE_ALREADY : Z := 1.
Definition ERROR_CODE_BAD_DESCRIPTOR : Z := 2.
Definition ERROR_CODE_BUSY : Z := 3.
Definition ERROR_CODE_DEADLOCK : Z := 4.
Definition ERROR_CODE_QUOTA : Z := 5.
Definition ERROR_CODE_EXIST : Z := 6.
Definition ERROR_CODE_FILE_TOO_LARGE : Z := 7.
Definition ERROR_CODE_ILLEGAL_BYTE_SEQUENCE : Z := 8.
Definition ERROR_CODE_IN_PROGRESS : Z := 9.
Definition ERROR_CODE_INTERRUPTED : Z := 10.
Definition ERROR_CODE_INVALID : Z := 11.
Definition ERROR_CODE_IO : Z := 12.
Definition ERROR_CODE_IS_DIRECTORY : Z := 13.
Definition ERROR_CODE_LOOP : Z := 14.
Definition ERROR_CODE_TOO_MANY_LINKS : Z := 15.
Definition ERROR_CODE_MESSAGE_SIZE : Z := 16.
Definition ERROR_CODE_NAME_TOO_LONG : Z := 17.
Definition ERROR_CODE_NO_DEVICE : Z := 18.
Definition ERROR_CODE_NO_ENTRY : Z := 19.
Definition ERROR_CODE_NO_LOCK : Z := 20.
Definition ERROR_CODE_INSUFFICIENT_MEMORY : Z := 21.
Definition ERROR_CODE_INSUFFICIENT_SPACE : Z := 22.
Definition ERROR_CODE_NOT_DIRECTORY : Z := 23.
Definition ERROR_CODE_NOT_EMPTY : Z := 24.
Definition ERROR_CODE_NOT_RECOVERABLE : Z := 25.
Definition ERROR_CODE_UNSUPPORTED : Z := 26.
Definition ERROR_CODE_NO_TTY : Z := 27.
Definition ERROR_CODE_NO_SUCH_DEVICE : Z := 28.
Definition ERROR_CODE_OVERFLOW : Z := 29.
Definition ERROR_CODE_NOT_PERMITTED : Z := 30.
Definition ERROR_CODE_PIPE : Z := 31.
Definition ERROR_CODE_READ_ONLY : Z := 32.
Definition ERROR_CODE_INVALID_SEEK : Z := 33.
Definition ERROR_CODE_TEXT_FILE_BUSY : Z := 34.
Definition ERROR_CODE_CROSS_DEVICE : Z := 35.
Definition ERROR_CODE_OTHER : Z := 36.

(** The [case] labels of [translate_error] with the [errno] each sets. *)
Definition error_cases : list (Z * Z) :=
  [(ERROR_CODE_ACCESS, EACCES);
   (ERROR_CODE_ALREADY, EALREADY);
   (ERROR_CODE_BAD_DESCRIPTOR, EBADF);
   (ERROR_CODE_BUSY, EBUSY);
   (ERROR_CODE_DEADLOCK, EDEADLK);
   (ERROR_CODE_QUOTA, EDQUOT);
   (ERROR_CODE_EXIST, EEXIST);
   (ERROR_CODE_FILE_TOO_LARGE, EFBIG);
   (ERROR_CODE_ILLEGAL_BYTE_SEQUENCE, EILSEQ);
   (ERROR_CODE_IN_PROGRESS, EINPROGRESS);
   (ERROR_CODE_INTERRUPTED, EINTR);
   (ERROR_CODE_INVALID, EINVAL);
   (ERROR_CODE_IO, EIO);
   (ERROR_CODE_IS_DIRECTORY, EISDIR);
   (ERROR_CODE_LOOP, ELOOP);
   (ERROR_CODE_TOO_MANY_LINKS, EMLINK);
   (ERROR_CODE_MESSAGE_SIZE, EMSGSIZE);
   (ERROR_CODE_NAME_TOO_LONG, ENAMETOOLONG);
   (ERROR_CODE_NO_DEVICE, ENODEV);
   (ERROR_CODE_NO_ENTRY, ENOENT);
   (ERROR_CODE_NO_LOCK, ENOLCK);
   (ERROR_CODE_INSUFFICIENT_MEMORY, ENOMEM);
   (ERROR_CODE_INSUFFICIENT_SPACE, ENOSPC);
   (ERROR_CODE_NOT_DIRECTORY, ENOTDIR);
   (ERROR_CODE_NOT_EMPTY, ENOTEMPTY);
   (ERROR_CODE_NOT_RECOVERABLE, ENOTRECOVERABLE);
   (ERROR_CODE_UNSUPPORTED, ENOTSUP);
   (ERROR_CODE_NO_TTY, ENOTTY);
   (ERROR_CODE_NO_SUCH_DEVICE, ENXIO);
   (ERROR_CODE_OVERFLOW, EOVERFLOW);
   (ERROR_CODE_NOT_PERMITTED, EPERM);
   (ERROR_CODE_PIPE, EPIPE);
   (ERROR_CODE_READ_ONLY, EROFS);
   (ERROR_CODE_INVALID_SEEK, ESPIPE);
   (ERROR_CODE_TEXT_FILE_BUSY, ETXTBSY);
   (ERROR_CODE_CROSS_DEVICE, EXDEV);
   (ERROR_CODE_OTHER, EIO)].
End P3.

(** The [switch]: the first matching label, or the [default] that aborts. *)
Fixpoint switch_errno (cases : list (Z * Z)) (tag : Z) : option Z :=
  match cases with
  | [] => None
  | (label, e) :: rest => if tag =? label then Some e else switch_errno rest tag
  end.

Section translate.
Context {St : Type} `{Libc St}.

(** wasip2: an error is its case number. *)
Definition translate_error_p2 (error : Z) : M St unit :=
  match switch_errno P2.error_cases error with
  | Some e => set_errno e
  | None => halt Trap
  end.

(** wasip3: an error is a tag with, for [other], an optional message; the
    message is freed and the option cleared. Returns the error as left behind. *)
Record error_p3 := ErrorP3 { error_tag : Z; error_other : option cstr }.

Definition translate_error_p3 (error : error_p3) : M St error_p3 :=
  match switch_errno P3.error_cases (error_tag error) with
  | Some e =>
      set_errno e ;;
      mret (if error_tag error =? P3.ERROR_CODE_OTHER
            then ErrorP3 (error_tag error) None else error)
  | None => halt Trap
  end.
End translate.

Lemma switch_errno_total (cases : list (Z * Z)) n :
  forallb (fun k => match switch_errno cases (Z.of_nat k) with
                    | Some e => 0 <? e | None => false end) (seq 0 n) = true ->
  forall tag, 0 <= tag < Z.of_nat n -> exists e, switch_errno cases tag = Some e /\ 0 < e.
Proof.
  intros Hall tag Htag.
  rewrite forallb_forall in Hall. specialize (Hall (Z.to_nat tag)).
  rewrite Z2Nat.id in Hall by lia.
  assert (In (Z.to_nat tag) (seq 0 n)) as Hin by (apply in_seq; lia).
  specialize (Hall Hin). destruct (switch_errno cases tag) as [e|]; [|done].
  exists e. split; [done|lia].
Qed.

Lemma error_cases_p2_total tag :
  0 <= tag <= 36 -> exists e, switch_errno P2.error_cases tag = Some e /\ 0 < e.
Proof. intros. apply (switch_errno_total _ 37); [by vm_compute|lia]. Qed.

Lemma error_cases_p3_total tag :
  0 <= tag <= 36 -> exists e, switch_errno P3.error_cases tag = Some e /\ 0 < e.
Proof. intros. apply (switch_errno_total _ 37); [by vm_compute|lia]. Qed.
