(* ===== verification/Utf8.v ===== *)
(** * Path strings: UTF-8 validation

    [validate_utf8] and [wasi_string_from_c] of sources/file_utils.c: every
    path a wasip2 or wasip3 program passes to the filesystem goes through
    them. The reads of the C string are checked reads: the byte after the
    last one is the terminating zero and nothing may be read behind it. *)

From S2P Require Import Prelude Errno.

(** ** The code *)

(** [ptr[i]]; [None] behind the terminating zero. *)
Definition byte_at (s : cstr) (i : nat) : option Z := (s ++ [0]) !! i.

Section code.
Context {St : Type}.

(** [a && f(ptr[i])], with C's short circuit. *)
Definition and_byte (a : bool) (s : cstr) (i : nat) (f : Z -> bool) : M St bool :=
  if a then c ← deref (byte_at s i); mret (f c) else mret false.

(** The [if]/[else if] chain on the lead byte: the length of the sequence, or
    [None] where the code returns -1. *)
Definition codepoint_size (s : cstr) (i : nat) (c : Z) : M St (option nat) :=
  if Z.land c 0xE0 =? 0xC0 then
    mret (if c <=? 0xC1 then None else Some 2%nat)
  else if Z.land c 0xF0 =? 0xE0 then
    overlong ← and_byte (c =? 0xE0) s (S i) (fun p => Z.land p 0x20 =? 0);
    if (overlong : bool) then mret None else
    surrogate ← and_byte (c =? 0xED) s (S i) (fun p => 0xA0 <=? p);
    if (surrogate : bool) then mret None else mret (Some 3%nat)
  else if Z.land c 0xF8 =? 0xF0 then
    overlong ← and_byte (c =? 0xF0) s (S i) (fun p => Z.land p 0x30 =? 0);
    if (overlong : bool) then mret None else
    beyond ← and_byte (c =? 0xF4) s (S i) (fun p => 0x90 <=? p);
    if (beyond : bool) then mret None else
    mret (if 0xF4 <? c then None else Some 4%nat)
  else mret None.

(** [for (j = 1; j < codepoint_size; j++)]: are the next [n] bytes from [i]
    continuation bytes? *)
Fixpoint continuation (s : cstr) (i n : nat) : M St bool :=
  match n with
  | O => mret true
  | S n' =>
      c ← deref (byte_at s i);
      if Z.land c 0xC0 =? 0x80 then continuation s (S i) n' else mret false
  end.

(** The [while (1)] loop. Each turn advances [i] by at least one, so
    [strlen(s) + 1] turns are enough. *)
Fixpoint validate_loop (fuel : nat) (s : cstr) (i : nat) : M St Z :=
  match fuel with
  | O => halt Fuel
  | S fuel' =>
      c ← deref (byte_at s i);
      if c =? 0 then mret (i32 (Z.of_nat i))
      else if c <=? 0x7F then validate_loop fuel' s (S i)
      else
        size ← codepoint_size s i c;
        match (size : option nat) with
        | None => mret (-1)
        | Some n =>
            ok ← continuation s (S i) (n - 1);
            if (ok : bool) then validate_loop fuel' s (i + n) else mret (-1)
        end
  end.

Definition validate_utf8 (s : cstr) : M St Z := validate_loop (S (length s)) s 0.

(** Fills in [out] (pointer and length into the same bytes) on success. *)
Definition wasi_string_from_c `{Libc St} (s : cstr) : M St (Z * option cstr) :=
  len ← validate_utf8 s;
  if len <? 0 then fail_with EILSEQ (-1, None)
  else mret (0, Some (take (Z.to_nat len) s)).
End code.

(** ** What it should compute

    The Unicode definition: a string is well-formed when it is a sequence of
    encoded scalar values. *)

Definition scalar (cp : Z) : Prop := 0 < cp < 0xD800 \/ 0xE000 <= cp <= 0x10FFFF.

Definition encode (cp : Z) : list Z :=
  if cp <? 0x80 then [cp]
  else if cp <? 0x800 then [0xC0 + cp / 64; 0x80 + cp mod 64]
  else if cp <? 0x10000 then
    [0xE0 + cp / 4096; 0x80 + cp / 64 mod 64; 0x80 + cp mod 64]
  else
    [0xF0 + cp / 262144; 0x80 + cp / 4096 mod 64; 0x80 + cp / 64 mod 64; 0x80 + cp mod 64].

Definition utf8 (s : cstr) : Prop :=
  exists cps, Forall scalar cps /\ s = concat (map encode cps).

(** ** The byte tests *)

Lemma forall_byte (P : Z -> bool) :
  forallb (fun n => P (Z.of_nat n)) (seq 0 256) = true -> forall c, 0 <= c < 256 -> P c = true.
Proof.
  intros Hall c Hc. rewrite forallb_forall in Hall.
  rewrite <- (Z2Nat.id c) by lia. apply Hall, in_seq. lia.
Qed.

(** Decides a boolean statement about one byte by trying all of them. *)
Ltac by_bytes c :=
  match goal with |- ?l = true =>
    match eval pattern c in l with ?f _ => apply (forall_byte f); [by vm_compute|done] end
  end.

Lemma lead2 c : 0 <= c < 256 -> (Z.land c 0xE0 =? 0xC0) = ((0xC0 <=? c) && (c <? 0xE0)).
Proof. intros. apply Bool.eqb_prop. by_bytes c. Qed.
Lemma lead3 c : 0 <= c < 256 -> (Z.land c 0xF0 =? 0xE0) = ((0xE0 <=? c) && (c <? 0xF0)).
Proof. intros. apply Bool.eqb_prop. by_bytes c. Qed.
Lemma lead4 c : 0 <= c < 256 -> (Z.land c 0xF8 =? 0xF0) = ((0xF0 <=? c) && (c <? 0xF8)).
Proof. intros. apply Bool.eqb_prop. by_bytes c. Qed.
Lemma cont_byte c : 0 <= c < 256 -> (Z.land c 0xC0 =? 0x80) = ((0x80 <=? c) && (c <? 0xC0)).
Proof. intros. apply Bool.eqb_prop. by_bytes c. Qed.
Lemma bit5_clear c : 0 <= c < 256 -> 0x80 <= c < 0xC0 -> (Z.land c 0x20 =? 0) = (c <? 0xA0).
Proof.
  intros Hc Hcont. apply Bool.eqb_prop.
  assert (implb ((0x80 <=? c) && (c <? 0xC0)) (Bool.eqb (Z.land c 0x20 =? 0) (c <? 0xA0)) = true) as H
    by by_bytes c.
  by replace ((0x80 <=? c) && (c <? 0xC0)) with true in H by lia.
Qed.
Lemma bits45_clear c : 0 <= c < 256 -> 0x80 <= c < 0xC0 -> (Z.land c 0x30 =? 0) = (c <? 0x90).
Proof.
  intros Hc Hcont. apply Bool.eqb_prop.
  assert (implb ((0x80 <=? c) && (c <? 0xC0)) (Bool.eqb (Z.land c 0x30 =? 0) (c <? 0x90)) = true) as H
    by by_bytes c.
  by replace ((0x80 <=? c) && (c <? 0xC0)) with true in H by lia.
Qed.

(** ** One sequence, as a function of the bytes from the lead byte on *)

(** The continuation test on the bytes that follow. *)
Fixpoint conts (t : cstr) (n : nat) {struct n} : bool :=
  match n with
  | O => true
  | S n' => match t with
            | [] => false
            | c :: t' => (0x80 <=? c) && (c <? 0xC0) && conts t' n'
            end
  end.

(** The length of the well-formed sequence at the head of [c :: t], if there is one. *)
Definition seq_len (c : Z) (t : cstr) : option nat :=
  if c <=? 0x7F then Some 1%nat
  else if (0xC2 <=? c) && (c <? 0xE0) then
    if conts t 1 then Some 2%nat else None
  else if (0xE0 <=? c) && (c <? 0xF0) then
    if ((c =? 0xE0) && (at_ t 0 <? 0xA0)) || ((c =? 0xED) && (0xA0 <=? at_ t 0)) then None
    else if conts t 2 then Some 3%nat else None
  else if (0xF0 <=? c) && (c <=? 0xF4) then
    if ((c =? 0xF0) && (at_ t 0 <? 0x90)) || ((c =? 0xF4) && (0x90 <=? at_ t 0)) then None
    else if conts t 3 then Some 4%nat else None
  else None.

Section refine.
Context {St : Type}.
Implicit Types st : St.

Lemma byte_at_app pre (t : cstr) k : byte_at (pre ++ t) (length pre + k) = (t ++ [0]) !! k.
Proof. unfold byte_at. rewrite <- app_assoc, lookup_app_r by lia. f_equal. lia. Qed.

Lemma byte_at_next pre c (t : cstr) : byte_at (pre ++ c :: t) (S (length pre)) = Some (at_ t 0).
Proof. replace (S (length pre)) with (length pre + 1)%nat by lia. rewrite byte_at_app. by destruct t. Qed.

Lemma at_0_byte (t : cstr) : wf_cstr t -> 0 <= at_ t 0 < 256.
Proof. intros Ht. destruct Ht; unfold at_; simpl; lia. Qed.

Lemma conts_head (t : cstr) n : ~ (0x80 <= at_ t 0 < 0xC0) -> conts t (S n) = false.
Proof. destruct t as [|c t]; [done|]. unfold at_; simpl. intros. by replace ((_ <=? c) && _) with false by lia. Qed.

Lemma and_byte_next a pre c (t : cstr) f st :
  and_byte a (pre ++ c :: t) (S (length pre)) f st = Done (a && f (at_ t 0)) st.
Proof. unfold and_byte. rewrite byte_at_next. by destruct a. Qed.

Lemma continuation_conts n pre (t : cstr) st :
  wf_cstr t -> continuation (pre ++ t) (length pre) n st = Done (conts t n) st.
Proof.
  revert pre t. induction n as [|n IH]; intros pre t Ht; simpl; [done|].
  assert (byte_at (pre ++ t) (length pre) = Some (at_ t 0)) as Hrd.
  { rewrite <- (Nat.add_0_r (length pre)), byte_at_app. by destruct t. }
  rewrite Hrd. simpl. unfold mbind, M_bind; simpl.
  rewrite cont_byte by (by apply at_0_byte).
  destruct t as [|c t]; [done|]. unfold at_; simpl. inversion Ht; subst.
  destruct ((128 <=? c) && (c <? 192)); [|done]. simpl.
  specialize (IH (pre ++ [c]) t). rewrite <- app_assoc, length_app in IH. simpl in IH.
  rewrite Nat.add_1_r in IH. auto.
Qed.

(** The body of the loop at a lead byte above 0x7F: the reads stay inside the
    string, and it goes on behind exactly the sequences [seq_len] accepts. *)
Lemma sequence_body (K : nat -> M St Z) pre c (t : cstr) st :
  wf_cstr (c :: t) -> 0x7F < c ->
  (size ← codepoint_size (pre ++ c :: t) (length pre) c;
   match (size : option nat) with
   | None => mret (-1)
   | Some n =>
       ok ← continuation (pre ++ c :: t) (S (length pre)) (n - 1);
       if (ok : bool) then K n else mret (-1)
   end) st
  = match seq_len c t with Some n => K n st | None => Done (-1) st end.
Proof.
  intros Hwf Hc. inversion Hwf as [|? ? Hcb Ht]; subst.
  assert (forall n, continuation (pre ++ c :: t) (S (length pre)) n st = Done (conts t n) st) as Hcont.
  { intros n. pose proof (continuation_conts n (pre ++ [c]) t st Ht) as H.
    rewrite <- app_assoc, length_app, Nat.add_1_r in H. exact H. }
  pose proof (at_0_byte t Ht) as Hp.
  unfold codepoint_size, seq_len. rewrite lead2, lead3, lead4 by lia.
  replace (c <=? 127) with false by lia.
  unfold mbind, M_bind, mret, M_ret.
  destruct (Z.ltb_spec c 0xC0).
  { replace (192 <=? c) with false by lia. replace (194 <=? c) with false by lia.
    replace (224 <=? c) with false by lia. by replace (240 <=? c) with false by lia. }
  destruct (Z.ltb_spec c 0xE0).
  { replace ((192 <=? c) && true) with true by lia.
    destruct (Z.leb_spec c 0xC1).
    { replace (194 <=? c) with false by lia. replace (224 <=? c) with false by lia.
      by replace (240 <=? c) with false by lia. }
    replace ((194 <=? c) && true) with true by lia.
    change (2 - 1)%nat with 1%nat. rewrite Hcont. by destruct (conts t 1). }
  replace ((192 <=? c) && false) with false by lia.
  replace ((194 <=? c) && false) with false by lia.
  destruct (Z.ltb_spec c 0xF0).
  { replace ((224 <=? c) && true) with true by lia.
    rewrite and_byte_next.
    destruct (decide (0x80 <= at_ t 0 < 0xC0)) as [Hin|Hout].
    - rewrite bit5_clear by lia.
      destruct ((c =? 224) && (at_ t 0 <? 160)); [done|]. rewrite and_byte_next.
      destruct ((c =? 237) && (160 <=? at_ t 0)); [done|]. cbv beta iota.
      change (3 - 1)%nat with 2%nat. rewrite Hcont. by destruct (conts t 2).
    - rewrite (conts_head t 1) by done.
      destruct ((c =? 224) && (Z.land (at_ t 0) 32 =? 0)); [by repeat case_match|].
      rewrite and_byte_next. destruct ((c =? 237) && (160 <=? at_ t 0)); [by repeat case_match|].
      cbv beta iota. change (3 - 1)%nat with 2%nat. rewrite Hcont, (conts_head t 1) by done.
      by repeat case_match. }
  replace ((224 <=? c) && false) with false by lia.
  destruct (Z.ltb_spec c 0xF8);
    [|by replace ((240 <=? c) && false) with false by lia; replace (c <=? 244) with false by lia; rewrite andb_false_r].
  replace ((240 <=? c) && true) with true by lia.
  rewrite and_byte_next.
  destruct (Z.ltb_spec 244 c).
  { replace (c <=? 244) with false by lia. rewrite andb_false_r.
    destruct ((c =? 240) && _); [done|]. rewrite and_byte_next. by destruct ((c =? 244) && _). }
  replace ((240 <=? c) && (c <=? 244)) with true by lia.
  destruct (decide (0x80 <= at_ t 0 < 0xC0)) as [Hin|Hout].
  - rewrite bits45_clear by lia.
    destruct ((c =? 240) && (at_ t 0 <? 144)); [done|]. rewrite and_byte_next.
    destruct ((c =? 244) && (144 <=? at_ t 0)); [done|]. cbv beta iota.
    change (4 - 1)%nat with 3%nat. rewrite Hcont. by destruct (conts t 3).
  - rewrite (conts_head t 2) by done.
    destruct ((c =? 240) && (Z.land (at_ t 0) 48 =? 0)); [by repeat case_match|].
    rewrite and_byte_next. destruct ((c =? 244) && (144 <=? at_ t 0)); [by repeat case_match|].
    cbv beta iota. change (4 - 1)%nat with 3%nat. rewrite Hcont, (conts_head t 2) by done.
    by repeat case_match.
Qed.
End refine.

(** ** [seq_len] accepts exactly the encoded scalar values *)

(** The bytes a valid sequence is made of. *)
Lemma conts_cons (t : cstr) n : conts t (S n) = true -> exists d t', t = d :: t' /\ 0x80 <= d < 0xC0 /\ conts t' n = true.
Proof. destruct t as [|d t]; [done|]. simpl. intros [Hd Ht]%andb_prop. exists d, t. repeat split; [lia..|done]. Qed.

Lemma encode_2 c d : 0xC2 <= c < 0xE0 -> 0x80 <= d < 0xC0 ->
  exists cp, scalar cp /\ encode cp = [c; d].
Proof.
  intros. set (cp := (c - 0xC0) * 64 + (d - 0x80)). exists cp.
  split; [unfold scalar; lia|]. unfold encode.
  replace (cp <? 128) with false by lia. replace (cp <? 2048) with true by lia.
  repeat f_equal; subst cp; Z.div_mod_to_equations; lia.
Qed.

Lemma encode_3 c d e : 0xE0 <= c < 0xF0 -> 0x80 <= d < 0xC0 -> 0x80 <= e < 0xC0 ->
  (c = 0xE0 -> 0xA0 <= d) -> (c = 0xED -> d < 0xA0) ->
  exists cp, scalar cp /\ encode cp = [c; d; e].
Proof.
  intros. set (cp := (c - 0xE0) * 4096 + (d - 0x80) * 64 + (e - 0x80)). exists cp.
  split; [unfold scalar; lia|]. unfold encode.
  replace (cp <? 128) with false by lia. replace (cp <? 2048) with false by lia.
  replace (cp <? 65536) with true by lia.
  assert (cp / 64 = (c - 0xE0) * 64 + (d - 0x80)) as -> by (subst cp; Z.div_mod_to_equations; lia).
  repeat f_equal; subst cp; Z.div_mod_to_equations; lia.
Qed.

Lemma encode_4 c d e f : 0xF0 <= c <= 0xF4 -> 0x80 <= d < 0xC0 -> 0x80 <= e < 0xC0 -> 0x80 <= f < 0xC0 ->
  (c = 0xF0 -> 0x90 <= d) -> (c = 0xF4 -> d < 0x90) ->
  exists cp, scalar cp /\ encode cp = [c; d; e; f].
Proof.
  intros. set (cp := (c - 0xF0) * 262144 + (d - 0x80) * 4096 + (e - 0x80) * 64 + (f - 0x80)). exists cp.
  split; [unfold scalar; lia|]. unfold encode.
  replace (cp <? 128) with false by lia. replace (cp <? 2048) with false by lia.
  replace (cp <? 65536) with false by lia.
  assert (cp / 64 = (c - 0xF0) * 4096 + (d - 0x80) * 64 + (e - 0x80)) as -> by (subst cp; Z.div_mod_to_equations; lia).
  assert (cp / 4096 = (c - 0xF0) * 64 + (d - 0x80)) as -> by (subst cp; Z.div_mod_to_equations; lia).
  repeat f_equal; subst cp; Z.div_mod_to_equations; lia.
Qed.

Lemma seq_len_sound c (t : cstr) n :
  wf_cstr (c :: t) -> seq_len c t = Some n ->
  exists cp t', scalar cp /\ c :: t = encode cp ++ t' /\ length (encode cp) = n.
Proof.
  intros Hwf Hs. inversion Hwf as [|? ? Hc Ht]; subst. unfold seq_len in Hs.
  repeat match type of Hs with context [if ?b then _ else _] => destruct b eqn:?; simplify_eq end;
    repeat match goal with H : conts _ (S _) = true |- _ =>
             apply conts_cons in H as (? & ? & -> & ? & H) end;
    unfold at_ in *; simpl in *.
  - exists c, t. unfold encode. replace (c <? 128) with true by lia. split; [unfold scalar; lia|done].
  - match goal with |- context [c :: ?d :: _] =>
      destruct (encode_2 c d) as (cp & ? & E); [lia..|] end. exists cp. eexists. by rewrite E.
  - match goal with |- context [c :: ?d :: ?e :: _] =>
      destruct (encode_3 c d e) as (cp & ? & E); [lia..|] end. exists cp. eexists. by rewrite E.
  - match goal with |- context [c :: ?d :: ?e :: ?f :: _] =>
      destruct (encode_4 c d e f) as (cp & ? & E); [lia..|] end. exists cp. eexists. by rewrite E.
Qed.

Lemma seq_len_complete cp (t : cstr) :
  scalar cp -> exists c t', encode cp ++ t = c :: t' /\ 0 < c < 256 /\ seq_len c t' = Some (length (encode cp)).
Proof.
  intros Hcp. unfold encode.
  destruct (Z.ltb_spec cp 128); [|destruct (Z.ltb_spec cp 2048); [|destruct (Z.ltb_spec cp 65536)]];
    simpl; do 2 eexists; (split; [reflexivity|]).
  - split; [unfold scalar in *; lia|]. unfold seq_len. by replace (cp <=? 127) with true by lia.
  - assert (2 <= cp / 64 < 32) by (Z.div_mod_to_equations; lia).
    assert (0 <= cp mod 64 < 64) by (apply Z.mod_pos_bound; lia).
    split; [lia|]. unfold seq_len, conts.
    by decide_ifs.
  - assert (0 <= cp mod 64 < 64) by (apply Z.mod_pos_bound; lia).
    assert (0 <= cp / 64 mod 64 < 64) by (apply Z.mod_pos_bound; lia).
    assert (0 <= cp / 4096 < 16) by (Z.div_mod_to_equations; lia).
    assert (cp / 4096 = 0 -> 32 <= cp / 64 mod 64) by (Z.div_mod_to_equations; lia).
    assert (cp / 4096 = 13 -> cp / 64 mod 64 < 32) by (unfold scalar in Hcp; Z.div_mod_to_equations; lia).
    split; [lia|]. unfold seq_len, conts, at_; simpl.
    by decide_ifs.
  - assert (0 <= cp mod 64 < 64) by (apply Z.mod_pos_bound; lia).
    assert (0 <= cp / 64 mod 64 < 64) by (apply Z.mod_pos_bound; lia).
    assert (0 <= cp / 4096 mod 64 < 64) by (apply Z.mod_pos_bound; lia).
    assert (0 <= cp / 262144 <= 4) by (unfold scalar in Hcp; Z.div_mod_to_equations; lia).
    assert (cp / 262144 = 0 -> 16 <= cp / 4096 mod 64) by (Z.div_mod_to_equations; lia).
    assert (cp / 262144 = 4 -> cp / 4096 mod 64 < 16) by (unfold scalar in Hcp; Z.div_mod_to_equations; lia).
    split; [lia|]. unfold seq_len, conts, at_; simpl.
    by decide_ifs.
Qed.

Lemma encode_nonempty cp : scalar cp -> exists c t, encode cp = c :: t.
Proof. intros H. destruct (seq_len_complete cp [] H) as (c & t & E & _). rewrite app_nil_r in E. eauto. Qed.

(** A string is well-formed when its head is a sequence and the rest is well-formed. *)
Lemma utf8_cons c (t : cstr) :
  wf_cstr (c :: t) ->
  utf8 (c :: t) <-> exists n, seq_len c t = Some n /\ utf8 (drop n (c :: t)).
Proof.
  intros Hwf. split.
  - intros ([|cp cps] & Hsc & E); [done|]. inversion Hsc; subst. simpl in E.
    destruct (seq_len_complete cp (concat (map encode cps))) as (c' & t' & E' & _ & Hl); [done|].
    rewrite <- E in E'. injection E' as <- <-. exists (length (encode cp)). split; [done|].
    rewrite E, drop_app_length. by exists cps.
  - intros (n & Hn & cps & Hsc & E).
    destruct (seq_len_sound c t n Hwf Hn) as (cp & t' & ? & Ecp & <-).
    rewrite Ecp, drop_app_length in E. exists (cp :: cps). split; [by constructor|].
    by rewrite Ecp, E.
Qed.

Lemma wf_cstr_drop n s : wf_cstr s -> wf_cstr (drop n s).
Proof. apply Forall_drop. Qed.

Lemma seq_len_bound c (t : cstr) n : wf_cstr (c :: t) -> seq_len c t = Some n -> (0 < n <= length (c :: t))%nat.
Proof.
  intros Hwf (cp & t' & Hcp & -> & <-)%seq_len_sound; [|done].
  rewrite length_app. destruct (encode_nonempty cp Hcp) as (? & ? & ->). simpl. lia.
Qed.

(** One turn of the loop on a non-empty rest. *)
Lemma validate_loop_turn {St} fuel pre c (t : cstr) (st : St) :
  wf_cstr (c :: t) ->
  validate_loop (S fuel) (pre ++ c :: t) (length pre) st =
  match seq_len c t with
  | Some n => validate_loop fuel (pre ++ c :: t) (length pre + n) st
  | None => Done (-1) st
  end.
Proof.
  intros Hwf. inversion Hwf as [|? ? Hc Ht]; subst. cbn [validate_loop].
  assert (byte_at (pre ++ c :: t) (length pre) = Some c) as ->.
  { rewrite <- (Nat.add_0_r (length pre)). by rewrite byte_at_app. }
  unfold deref, mbind at 1, M_bind at 1, mret at 1, M_ret at 1.
  replace (c =? 0) with false by lia.
  destruct (Z.leb_spec c 0x7F).
  - unfold seq_len. replace (c <=? 127) with true by lia. by rewrite Nat.add_1_r.
  - apply (sequence_body (fun n => validate_loop fuel (pre ++ c :: t) (length pre + n))); [done|lia].
Qed.

Lemma validate_loop_correct {St} fuel pre (t : cstr) (st : St) :
  wf_cstr t -> (length t < fuel)%nat ->
  exists r, validate_loop fuel (pre ++ t) (length pre) st = Done r st /\
    (utf8 t /\ r = i32 (strlen (pre ++ t)) \/ ~ utf8 t /\ r = -1).
Proof.
  revert pre t. induction fuel as [|fuel IH]; intros pre t Hwf Hf; [lia|].
  destruct t as [|c t].
  - exists (i32 (strlen pre)). rewrite app_nil_r. split.
    + cbn [validate_loop]. unfold byte_at. by rewrite lookup_app_r, Nat.sub_diag by lia.
    + left. split; [by exists []|done].
  - rewrite validate_loop_turn by done. pose proof (utf8_cons c t Hwf) as Hu.
    destruct (seq_len c t) as [n|] eqn:En.
    2: { exists (-1). split; [done|]. right. split; [|done]. rewrite Hu. by intros (? & [=] & _). }
    pose proof (seq_len_bound c t n Hwf En) as Hn.
    destruct (IH (pre ++ take n (c :: t)) (drop n (c :: t))) as (r & Hr & Hcase).
    { by apply wf_cstr_drop. } { rewrite length_drop. lia. }
    rewrite <- app_assoc, take_drop, length_app, length_take_le in Hr by lia.
    exists r. split; [done|]. rewrite <- app_assoc, take_drop in Hcase.
    rewrite Hu. destruct Hcase as [[Hd ->]|[Hd ->]]; [left|right]; (split; [|done]).
    + by exists n.
    + by intros (n' & [= <-] & ?).
Qed.

(** C27: [validate_utf8] returns the length of the string when it is the UTF-8
    encoding of a sequence of Unicode scalar values (no overlong forms, no
    surrogates, nothing above U+10FFFF) and -1 otherwise; it always returns,
    reads nothing behind the terminating zero and changes nothing. *)
Theorem validate_utf8_correct {St} (s : cstr) (st : St) :
  wf_cstr s -> strlen s < 2 ^ 31 ->
  exists r, validate_utf8 s st = Done r st /\
    (utf8 s /\ r = strlen s \/ ~ utf8 s /\ r = -1).
Proof.
  intros Hwf Hlen. destruct (validate_loop_correct (S (length s)) [] s st Hwf) as (r & Hr & Hcase); [lia|].
  exists r. split; [done|]. simpl in Hcase. rewrite i32_small in Hcase; [done|unfold strlen in *; lia].
Qed.

Lemma validate_utf8_correct_witness :
  exists r, validate_utf8 (lit "/tmp" ++ [0xC3; 0xA9; 0xF0; 0x9F; 0x98; 0x80]) tt = Done r tt /\
    (utf8 (lit "/tmp" ++ [0xC3; 0xA9; 0xF0; 0x9F; 0x98; 0x80]) /\ r = 10 \/
     ~ utf8 (lit "/tmp" ++ [0xC3; 0xA9; 0xF0; 0x9F; 0x98; 0x80]) /\ r = -1).
Proof.
  apply (validate_utf8_correct (lit "/tmp" ++ [0xC3; 0xA9; 0xF0; 0x9F; 0x98; 0x80]) tt).
  - repeat constructor.
  - vm_compute. reflexivity.
Defined.

Lemma wasi_string_from_c_cases {St} `{Libc St} (s : cstr) (st : St) :
  wf_cstr s -> strlen s < 2 ^ 31 ->
  utf8 s /\ wasi_string_from_c s st = Done (0, Some s) st \/
  ~ utf8 s /\ wasi_string_from_c s st = Done (-1, None) (with_errno EILSEQ st).
Proof.
  intros Hwf Hlen. unfold wasi_string_from_c, validate_utf8, mbind, M_bind.
  destruct (validate_loop_correct (S (length s)) [] s st Hwf) as (r & Hr & Hcase); [lia|].
  change (length []) with 0%nat in Hr. change ([] ++ s) with s in Hr, Hcase. rewrite Hr.
  rewrite i32_small in Hcase by (unfold strlen in *; lia).
  destruct Hcase as [[Hu ->]|[Hu ->]]; [left|right]; (split; [done|]); [|done].
  rewrite strlen_nonneg. unfold strlen. by rewrite Nat2Z.id, firstn_all.
Qed.

(** [wasi_string_from_c] hands a well-formed string to the host byte for
    byte and refuses every other string with [EILSEQ]. *)
Theorem wasi_string_from_c_correct {St} `{Libc St} (s : cstr) (st : St) :
  wf_cstr s -> strlen s < 2 ^ 31 ->
  (utf8 s -> wasi_string_from_c s st = Done (0, Some s) st) /\
  (~ utf8 s -> wasi_string_from_c s st = Done (-1, None) (with_errno EILSEQ st)).
Proof. intros Hwf Hlen. destruct (wasi_string_from_c_cases s st Hwf Hlen) as [[? ?]|[? ?]]; split; done. Qed.

Lemma wasi_string_from_c_correct_witness :
  (utf8 [0xC0; 0x80] -> wasi_string_from_c [0xC0; 0x80] (Env 0 []) = Done (0, Some [0xC0; 0x80]) (Env 0 [])) /\
  (~ utf8 [0xC0; 0x80] -> wasi_string_from_c [0xC0; 0x80] (Env 0 []) = Done (-1, None) (with_errno EILSEQ (Env 0 []))).
Proof.
  apply (wasi_string_from_c_correct [0xC0; 0x80] (Env 0 [])).
  - repeat constructor.
  - vm_compute. reflexivity.
Defined.
