(* ===== verification/Time.v ===== *)
(** * Time: conversions and sleeping

    cloudlibc/src/common/time.h, cloudlibc/src/libc/time/*.c,
    cloudlibc/src/libc/unistd/{sleep,usleep}.c and
    cloudlibc/src/libc/sys/time/gettimeofday.c. A definition whose body
    differs between the WASI versions is given once per version, with the
    version as its suffix. [tv_sec] has 64 bits and is signed, [tv_nsec] is a
    32-bit [long]; a wasip1 timestamp and a monotonic instant are unsigned
    64-bit counts of nanoseconds. A function that returns false gives [None]. *)

From S2P Require Import Prelude Errno.

Definition NSEC_PER_SEC : Z := 1000000000.
Definition USEC_PER_SEC : Z := 1000000.

Record timespec := Timespec { tv_sec : Z; tv_nsec : Z }.
Record timeval := Timeval { tval_sec : Z; tv_usec : Z }.

(** [wall_clock_datetime_t] (unsigned seconds) and [filesystem_instant_t]
    (signed seconds). *)
Record datetime := Datetime { seconds : Z; nanoseconds : Z }.

(** [__builtin_mul_overflow(a, b, &r)] and [__builtin_add_overflow] with an
    unsigned 64-bit [r]: the flag and the value stored. *)
Definition mul_overflow (a b : Z) : bool * Z := (negb ((0 <=? a * b) && (a * b <? 2 ^ 64)), u64 (a * b)).
Definition add_overflow (a b : Z) : bool * Z := (negb ((0 <=? a + b) && (a + b <? 2 ^ 64)), u64 (a + b)).

(** [mul_overflow(sec, unit, &r) || add_overflow(r, frac, &r)] *)
Definition mul_add_overflow (sec unit frac : Z) : bool * Z :=
  let (o1, r1) := mul_overflow sec unit in
  if o1 then (true, r1) else add_overflow r1 frac.

Definition bad_nsec (ts : timespec) : bool := (tv_nsec ts <? 0) || (NSEC_PER_SEC <=? tv_nsec ts).

(** ** To timestamps *)

Definition timespec_to_timestamp_exact_p1 (ts : timespec) : option Z :=
  if bad_nsec ts then None else
  if tv_sec ts <? 0 then None else
  let (o, r) := mul_add_overflow (tv_sec ts) NSEC_PER_SEC (tv_nsec ts) in
  if o then None else Some r.

Definition timespec_to_timestamp_exact_p2 (ts : timespec) : option datetime :=
  if bad_nsec ts then None else
  if tv_sec ts <? 0 then None else
  Some (Datetime (u64 (tv_sec ts)) (u32 (tv_nsec ts))).

Definition timespec_to_timestamp_exact_p3 (ts : timespec) : option datetime :=
  if bad_nsec ts then None else
  Some (Datetime (tv_sec ts) (u32 (tv_nsec ts))).

Definition timespec_to_timestamp_clamp_p1 (ts : timespec) : option Z :=
  if bad_nsec ts then None else
  if tv_sec ts <? 0 then Some 0 else
  let (o, r) := mul_add_overflow (tv_sec ts) NSEC_PER_SEC (tv_nsec ts) in
  Some (if o then UINT64_MAX else r).

Definition timespec_to_timestamp_clamp_p2 (ts : timespec) : option datetime :=
  if bad_nsec ts then None else
  if tv_sec ts <? 0 then Some (Datetime 0 0) else
  Some (Datetime (u64 (tv_sec ts)) (u32 (tv_nsec ts))).

Definition timespec_to_timestamp_clamp_p3 (ts : timespec) : option datetime :=
  if bad_nsec ts then None else
  Some (Datetime (tv_sec ts) (u32 (tv_nsec ts))).

Definition timespec_to_instant_clamp (ts : timespec) : option Z :=
  if bad_nsec ts then None else
  if tv_sec ts <? 0 then Some 0 else
  let (o, r) := mul_add_overflow (tv_sec ts) NSEC_PER_SEC (tv_nsec ts) in
  Some (if o then UINT64_MAX else r).

Definition timeval_to_duration (tv : timeval) : option Z :=
  if (tv_usec tv <? 0) || (USEC_PER_SEC <=? tv_usec tv) then None else
  if tval_sec tv <? 0 then Some 0 else
  let (o, r) := mul_add_overflow (tval_sec tv) NSEC_PER_SEC (tv_usec tv * 1000) in
  Some (if o then UINT64_MAX else r).

(** ** From timestamps *)

Definition timestamp_to_timespec_p1 (t : Z) : timespec :=
  Timespec (i64 (t / NSEC_PER_SEC)) (i32 (t mod NSEC_PER_SEC)).

Definition timestamp_to_timeval_p1 (t : Z) : timeval :=
  let ts := timestamp_to_timespec_p1 t in
  Timeval (tv_sec ts) (Z.quot (tv_nsec ts) 1000).

Definition timestamp_to_timespec_p2 (t : datetime) : timespec :=
  if INT64_MAX <? seconds t then Timespec INT64_MAX (NSEC_PER_SEC - 1) else
  Timespec (i64 (seconds t)) (i32 (nanoseconds t)).

Definition timestamp_to_timespec_p3 (t : datetime) : timespec :=
  Timespec (i64 (seconds t)) (i32 (nanoseconds t)).

Definition timestamp_to_timeval_p2 (t : datetime) : timeval :=
  if INT64_MAX <? seconds t then Timeval INT64_MAX (USEC_PER_SEC - 1) else
  Timeval (i64 (seconds t)) (nanoseconds t / 1000).

Definition timestamp_to_timeval_p3 (t : datetime) : timeval :=
  Timeval (i64 (seconds t)) (nanoseconds t / 1000).

Definition instant_to_timespec (ns : Z) : timespec :=
  Timespec (i64 (ns / NSEC_PER_SEC)) (i32 (ns mod NSEC_PER_SEC)).

Definition instant_to_timeval (ns : Z) : timeval :=
  Timeval (i64 (ns / NSEC_PER_SEC)) (ns mod NSEC_PER_SEC / 1000).

Definition duration_to_timeval (ns : Z) : timeval :=
  Timeval (i64 (ns / NSEC_PER_SEC)) (ns mod NSEC_PER_SEC / 1000).

(** ** The clocks

    What the host's clocks answer at the time of the call. *)

Definition CLOCKID_REALTIME : Z := 0.
Definition CLOCKID_MONOTONIC : Z := 1.
Definition TIMER_ABSTIME : Z := 1.

Record clocks := Clocks {
  monotonic_now : Z;
  wall_now : datetime;
  monotonic_resolution : Z;
  wall_resolution : datetime;
}.

Definition clock_gettime_p2 (c : clocks) (id : Z) : M env (Z * option timespec) :=
  if id =? CLOCKID_MONOTONIC then mret (0, Some (instant_to_timespec (monotonic_now c)))
  else if id =? CLOCKID_REALTIME then mret (0, Some (timestamp_to_timespec_p2 (wall_now c)))
  else fail_with EINVAL (-1, None).

Definition clock_getres_p2 (c : clocks) (id : Z) : M env (Z * option timespec) :=
  if id =? CLOCKID_REALTIME then mret (0, Some (timestamp_to_timespec_p2 (wall_resolution c)))
  else if id =? CLOCKID_MONOTONIC then mret (0, Some (instant_to_timespec (monotonic_resolution c)))
  else fail_with EINVAL (-1, None).

Definition gettimeofday_p2 (c : clocks) : timeval := timestamp_to_timeval_p2 (wall_now c).

(** [time]: the unsigned 64-bit product and sum of wasip2, the signed ones of wasip3. *)
Definition time_p2 (c : clocks) : Z :=
  i64 (u64 (u64 (seconds (wall_now c) * NSEC_PER_SEC) + nanoseconds (wall_now c)) / NSEC_PER_SEC).

Definition time_p3 (c : clocks) : Z :=
  Z.quot (i64 (i64 (seconds (wall_now c) * NSEC_PER_SEC) + nanoseconds (wall_now c))) NSEC_PER_SEC.

(** ** Sleeping *)

(** What is asked of the host: to block until an instant of the monotonic
    clock or for a duration. *)
Inductive sleep_call := SubscribeInstant (t : Z) | SubscribeDuration (d : Z).

(** The time that remains until [at'], given the time now. *)
Definition relative_to (at' now : timespec) : timespec :=
  let sec := i64 (tv_sec at' - tv_sec now) in
  let nsec := i32 (tv_nsec at' - tv_nsec now) in
  let '(sec, nsec) := if nsec <? 0 then (i64 (sec - 1), i32 (nsec + 1000000000)) else (sec, nsec) in
  if sec <? 0 then Timespec 0 0 else Timespec sec nsec.

Definition saturating_duration (ts : timespec) : Z :=
  let (o, r) := mul_add_overflow (u64 (tv_sec ts)) NSEC_PER_SEC (u64 (tv_nsec ts)) in
  if o then UINT64_MAX else r.

(** [clock_nanosleep] returns the error number; the second component is the
    host call it blocks in, if it gets that far. *)
Definition clock_nanosleep (c : clocks) (id flags : Z) (rqtp : timespec) : M env (Z * option sleep_call) :=
  if negb (Z.land flags (Z.lnot TIMER_ABSTIME) =? 0) then mret (EINVAL, None) else
  if (1000000000 <=? tv_nsec rqtp) || (tv_nsec rqtp <? 0) || (tv_sec rqtp <? 0) then mret (EINVAL, None) else
  let block (at' : timespec) (flags : Z) : M env (Z * option sleep_call) :=
    let duration := saturating_duration at' in
    mret (0, Some (if negb (Z.land flags TIMER_ABSTIME =? 0) then SubscribeInstant duration else SubscribeDuration duration)) in
  if negb (id =? CLOCKID_MONOTONIC) && negb (Z.land flags TIMER_ABSTIME =? 0) then
    prev_errno ← gets errno;
    r ← clock_gettime_p2 c id;
    match r with
    | (0, Some now) =>
        v ← block (relative_to rqtp now) (Z.land flags (Z.lnot TIMER_ABSTIME));
        set_errno prev_errno ;; mret v
    | _ => e ← gets errno; set_errno prev_errno ;; mret (e, None)
    end
  else block rqtp flags.

Definition nanosleep (c : clocks) (rqtp : timespec) : M env (Z * option sleep_call) :=
  r ← clock_nanosleep c CLOCKID_MONOTONIC 0 rqtp;
  if negb (fst r =? 0) then fail_with (fst r) (-1, snd r) else mret (0, snd r).

Definition sleep (c : clocks) (seconds : Z) : M env (Z * option sleep_call) :=
  r ← clock_nanosleep c CLOCKID_MONOTONIC 0 (Timespec seconds 0);
  if negb (fst r =? 0) then mret (seconds, snd r) else mret (0, snd r).

Definition usleep (c : clocks) (useconds : Z) : M env (Z * option sleep_call) :=
  r ← clock_nanosleep c CLOCKID_MONOTONIC 0 (Timespec (useconds / 1000000) (i32 (useconds mod 1000000 * 1000)));
  if negb (fst r =? 0) then fail_with (fst r) (-1, snd r) else mret (0, snd r).
