(* ===== verification/TimeProps.v ===== *)
(** * Time: theorems

    The conversions of common/time.h saturate or round trip at their widths,
    and the sleeping functions ask the host for the right duration. *)

From S2P Require Import Prelude Errno Time.

(** The number of nanoseconds a [timespec] denotes. *)
Definition total (ts : timespec) : Z := tv_sec ts * NSEC_PER_SEC + tv_nsec ts.

(** A value of the C type with its nanoseconds in range. *)
Definition valid_ts (ts : timespec) : Prop := - 2 ^ 63 <= tv_sec ts < 2 ^ 63 /\ 0 <= tv_nsec ts < NSEC_PER_SEC.

(** Brings a count into the range of an unsigned 64-bit integer. *)
Definition saturate (n : Z) : Z := Z.max 0 (Z.min UINT64_MAX n).

Lemma bad_nsec_false ts : valid_ts ts -> bad_nsec ts = false.
Proof. intros [_ ?]. unfold bad_nsec. lia. Qed.

Lemma mul_add_overflow_spec sec unit frac :
  0 <= sec -> 0 <= unit -> 0 <= frac ->
  let n := sec * unit + frac in
  exists r, mul_add_overflow sec unit frac = (negb (n <? 2 ^ 64), r) /\ (n < 2 ^ 64 -> r = n).
Proof.
  intros ? ? ? n. assert (0 <= sec * unit) by (by apply Z.mul_nonneg_nonneg).
  unfold mul_add_overflow, mul_overflow. destruct (Z.leb_spec 0 (sec * unit)); [|lia].
  destruct (Z.ltb_spec (sec * unit) (2 ^ 64)); cbn [andb negb].
  - unfold add_overflow. rewrite (u64_small (sec * unit)) by lia. fold n.
    destruct (Z.leb_spec 0 n); [|lia]. cbn [andb]. eexists. split; [done|]. intros. apply u64_small. lia.
  - destruct (Z.ltb_spec n (2 ^ 64)); [lia|]. eexists. split; [done|lia].
Qed.

Lemma saturating sec frac :
  0 <= sec -> 0 <= frac ->
  (let (o, r) := mul_add_overflow sec NSEC_PER_SEC frac in if o then UINT64_MAX else r) =
  saturate (sec * NSEC_PER_SEC + frac).
Proof.
  intros Hs Hf. destruct (mul_add_overflow_spec sec NSEC_PER_SEC frac Hs ltac:(done) Hf) as (r & -> & Hv).
  unfold saturate, UINT64_MAX, NSEC_PER_SEC in *. destruct (Z.ltb_spec (sec * 1000000000 + frac) (2 ^ 64)); cbn [negb]; [|lia].
  rewrite Hv by done. lia.
Qed.

Lemma split_ns t : 0 <= t < 2 ^ 64 ->
  i64 (t / NSEC_PER_SEC) = t / NSEC_PER_SEC /\ i32 (t mod NSEC_PER_SEC) = t mod NSEC_PER_SEC /\
  0 <= t / NSEC_PER_SEC < 2 ^ 63 /\ 0 <= t mod NSEC_PER_SEC < NSEC_PER_SEC /\
  t / NSEC_PER_SEC * NSEC_PER_SEC + t mod NSEC_PER_SEC = t.
Proof.
  intros Ht. unfold NSEC_PER_SEC. pose proof (Z.div_mod t 1000000000 ltac:(lia)).
  pose proof (Z.mod_pos_bound t 1000000000 ltac:(lia)).
  assert (0 <= t / 1000000000 < 2 ^ 63) by lia.
  rewrite i64_small, i32_small by lia. lia.
Qed.

(** A nanosecond field in range, which every conversion tests. *)
Definition normal (ts : timespec) : Prop := 0 <= tv_nsec ts < NSEC_PER_SEC.

Lemma bad_nsec_spec ts : bad_nsec ts = false <-> normal ts.
Proof. unfold bad_nsec, normal. lia. Qed.

Lemma exact_p1_spec ts t :
  timespec_to_timestamp_exact_p1 ts = Some t <-> normal ts /\ 0 <= tv_sec ts /\ total ts < 2 ^ 64 /\ t = total ts.
Proof.
  unfold timespec_to_timestamp_exact_p1. pose proof (bad_nsec_spec ts) as Hb. destruct (bad_nsec ts); [naive_solver|].
  assert (normal ts) as Hn by tauto. destruct (Z.ltb_spec (tv_sec ts) 0) as [|Hs]; [naive_solver lia|].
  destruct (mul_add_overflow_spec (tv_sec ts) NSEC_PER_SEC (tv_nsec ts)) as (r & -> & Hr); [done|done|apply Hn|].
  fold (total ts) in *. destruct (Z.ltb_spec (total ts) (2 ^ 64)); cbn [negb]; [rewrite Hr by done|]; naive_solver lia.
Qed.

Lemma clamp_spec ts t :
  (timespec_to_timestamp_clamp_p1 ts = Some t <-> normal ts /\ t = saturate (total ts)) /\
  (timespec_to_instant_clamp ts = Some t <-> normal ts /\ t = saturate (total ts)).
Proof.
  unfold timespec_to_timestamp_clamp_p1, timespec_to_instant_clamp. pose proof (bad_nsec_spec ts) as Hb.
  destruct (bad_nsec ts); [naive_solver|]. assert (normal ts) as Hn by tauto.
  destruct (Z.ltb_spec (tv_sec ts) 0) as [Hneg|Hpos].
  - replace (saturate (total ts)) with 0 by (unfold saturate, total, UINT64_MAX, NSEC_PER_SEC, normal, NSEC_PER_SEC in *; lia). naive_solver.
  - pose proof (saturating (tv_sec ts) (tv_nsec ts) Hpos (proj1 Hn)) as Hs. fold (total ts) in Hs.
    destruct (mul_add_overflow _ _ _). rewrite Hs. naive_solver.
Qed.

(** C38: The conversions of a [timespec], for all values of its fields. A
    nanosecond field out of range is always refused. The exact conversion
    succeeds on wasip1 exactly for the times whose nanosecond count is not
    negative and fits in 64 bits, and gives that count; on wasip2 exactly for the
    times since the epoch and on wasip3 for all of them, and gives the same
    seconds and nanoseconds. The clamping conversions of wasip1 and of instants
    give the nanosecond count brought into the range of 64 bits. *)
Theorem timespec_to_timestamp_exact_correct ts :
  - 2 ^ 63 <= tv_sec ts < 2 ^ 63 -> - 2 ^ 31 <= tv_nsec ts < 2 ^ 31 ->
  (forall t, timespec_to_timestamp_exact_p1 ts = Some t <-> normal ts /\ 0 <= tv_sec ts /\ total ts < 2 ^ 64 /\ t = total ts) /\
  (forall d, timespec_to_timestamp_exact_p2 ts = Some d <->
     normal ts /\ 0 <= tv_sec ts /\ seconds d = tv_sec ts /\ nanoseconds d = tv_nsec ts) /\
  (forall d, timespec_to_timestamp_exact_p3 ts = Some d <-> normal ts /\ seconds d = tv_sec ts /\ nanoseconds d = tv_nsec ts) /\
  (forall t, timespec_to_timestamp_clamp_p1 ts = Some t <-> normal ts /\ t = saturate (total ts)) /\
  (forall t, timespec_to_instant_clamp ts = Some t <-> normal ts /\ t = saturate (total ts)).
Proof.
  intros Hs Hn. split; [intros t; apply exact_p1_spec|].
  split; [|split; [|split; intros t; apply clamp_spec]]; intros [a b]; cbn [seconds nanoseconds];
    unfold timespec_to_timestamp_exact_p2, timespec_to_timestamp_exact_p3; pose proof (bad_nsec_spec ts) as Hb; (destruct (bad_nsec ts); [naive_solver|]);
    assert (normal ts) as Hno by tauto; pose proof Hno as [Hlo _]; rewrite (u32_small (tv_nsec ts)) by lia.
  - destruct (Z.ltb_spec (tv_sec ts) 0); [naive_solver lia|]. rewrite u64_small by lia. naive_solver.
  - naive_solver.
Qed.

(** Round trips. A 64-bit nanosecond count survives the conversion to a
    [timespec] and back, as a wasip1 timestamp and as a monotonic instant; a
    duration survives the conversion to a [timeval] up to the microsecond it
    lies in. *)
Theorem timestamp_round_trip t :
  0 <= t < 2 ^ 64 ->
  timespec_to_timestamp_exact_p1 (timestamp_to_timespec_p1 t) = Some t /\
  timespec_to_instant_clamp (instant_to_timespec t) = Some t /\
  timeval_to_duration (duration_to_timeval t) = Some (t - t mod 1000).
Proof.
  intros Ht. destruct (split_ns t Ht) as (E1 & E2 & Hs & Hn & Hsum).
  unfold timestamp_to_timespec_p1, instant_to_timespec, duration_to_timeval. rewrite E1, E2.
  unfold timespec_to_timestamp_exact_p1, timespec_to_instant_clamp, bad_nsec; simpl.
  destruct (Z.ltb_spec (t mod NSEC_PER_SEC) 0); [lia|]. destruct (Z.leb_spec NSEC_PER_SEC (t mod NSEC_PER_SEC)); [lia|].
  destruct (Z.ltb_spec (t / NSEC_PER_SEC) 0); [lia|]. cbn [orb].
  destruct (mul_add_overflow_spec (t / NSEC_PER_SEC) NSEC_PER_SEC (t mod NSEC_PER_SEC)) as (r & -> & Hr); [done || lia..|].
  rewrite Hsum in *. destruct (Z.ltb_spec t (2 ^ 64)); [|lia]. cbn [negb]. rewrite Hr by done.
  split; [done|]. split; [done|]. unfold timeval_to_duration; simpl.
  assert (0 <= t mod NSEC_PER_SEC / 1000 < USEC_PER_SEC) 
    by (split; [apply Z.div_pos; lia|apply Z.div_lt_upper_bound; [lia|exact (proj2 Hn)]]).
  destruct (Z.ltb_spec (t mod NSEC_PER_SEC / 1000) 0); [lia|].
  destruct (Z.leb_spec USEC_PER_SEC (t mod NSEC_PER_SEC / 1000)); [lia|]. cbn [orb].
  destruct (Z.ltb_spec (t / NSEC_PER_SEC) 0); [lia|].
  pose proof (saturating (t / NSEC_PER_SEC) (t mod NSEC_PER_SEC / 1000 * 1000) ltac:(lia) ltac:(lia)) as Hsat.
  destruct (mul_add_overflow _ _ _). rewrite Hsat. f_equal.
  assert (t mod 1000 = t mod NSEC_PER_SEC mod 1000) as ->
    by (symmetry; apply Z.mod_mod_divide; by exists 1000000).
  pose proof (Z.div_mod (t mod NSEC_PER_SEC) 1000 ltac:(lia)). pose proof (Z.mod_pos_bound (t mod NSEC_PER_SEC) 1000 ltac:(lia)).
  assert (0 <= t / NSEC_PER_SEC * NSEC_PER_SEC) by (apply Z.mul_nonneg_nonneg; lia).
  set (q := t / NSEC_PER_SEC * NSEC_PER_SEC) in *. set (m := t mod NSEC_PER_SEC) in *.
  unfold saturate, UINT64_MAX. lia.
Qed.

(** On wasip2 and wasip3 a host timestamp with in-range nanoseconds
    survives the conversion to a [timespec] and back; on wasip2, whose seconds
    are unsigned, a timestamp too late for [time_t] becomes the last
    representable time instead of a negative one. *)
Theorem datetime_round_trip d :
  0 <= seconds d < 2 ^ 64 -> 0 <= nanoseconds d < NSEC_PER_SEC ->
  (seconds d <= INT64_MAX ->
     timespec_to_timestamp_exact_p2 (timestamp_to_timespec_p2 d) = Some d /\
     timespec_to_timestamp_exact_p3 (timestamp_to_timespec_p3 d) = Some d) /\
  (INT64_MAX < seconds d -> total (timestamp_to_timespec_p2 d) = 2 ^ 63 * NSEC_PER_SEC - 1).
Proof.
  intros Hs Hn. destruct d as [s n]; simpl in *. unfold INT64_MAX. split.
  - intros Hle. unfold timestamp_to_timespec_p2, timestamp_to_timespec_p3, INT64_MAX; simpl.
    destruct (Z.ltb_spec (2 ^ 63 - 1) s); [lia|]. unfold NSEC_PER_SEC in Hn. rewrite i64_small, i32_small by lia.
    unfold timespec_to_timestamp_exact_p2, timespec_to_timestamp_exact_p3, bad_nsec, NSEC_PER_SEC; simpl.
    destruct (Z.ltb_spec n 0); [lia|]. destruct (Z.leb_spec 1000000000 n); [lia|]. destruct (Z.ltb_spec s 0); [lia|].
    cbn [orb]. by rewrite u64_small, u32_small by lia.
  - intros Hgt. unfold timestamp_to_timespec_p2, INT64_MAX; simpl. destruct (Z.ltb_spec (2 ^ 63 - 1) s); [|lia]. done.
Qed.

Lemma saturating_duration_spec ts :
  valid_ts ts -> 0 <= tv_sec ts -> saturating_duration ts = saturate (total ts).
Proof.
  intros [Hs Hn] Hp. unfold NSEC_PER_SEC in Hn. unfold saturating_duration.
  rewrite !u64_small by lia. apply saturating; lia.
Qed.

Lemma relative_to_spec a n :
  valid_ts a -> valid_ts n -> 0 <= tv_sec a -> 0 <= tv_sec n ->
  valid_ts (relative_to a n) /\ 0 <= tv_sec (relative_to a n) /\
  saturate (total (relative_to a n)) = saturate (total a - total n).
Proof.
  intros [Has Han] [Hns Hnn] Hap Hnp. unfold valid_ts, relative_to, saturate, total, UINT64_MAX, NSEC_PER_SEC in *.
  rewrite (i64_small (tv_sec a - tv_sec n)), (i32_small (tv_nsec a - tv_nsec n)) by lia.
  destruct (Z.ltb_spec (tv_nsec a - tv_nsec n) 0) as [Hlt|Hge]; simpl.
  - rewrite i64_small, i32_small by lia. destruct (Z.ltb_spec (tv_sec a - tv_sec n - 1) 0); simpl; lia.
  - destruct (Z.ltb_spec (tv_sec a - tv_sec n) 0); simpl; lia.
Qed.

(** [clock_nanosleep] for a valid request: a relative sleep blocks for the
    requested duration whatever the clock, an absolute sleep on the monotonic
    clock until the requested instant, and an absolute sleep on the real-time
    clock for the time that remains until then, 0 when it has passed;
    durations that do not fit in 64 bits saturate. [errno] is preserved. *)
Theorem clock_nanosleep_blocks c id flags rqtp v :
  valid_ts rqtp -> 0 <= tv_sec rqtp -> flags = 0 \/ flags = TIMER_ABSTIME ->
  id = CLOCKID_REALTIME \/ id = CLOCKID_MONOTONIC ->
  0 <= seconds (wall_now c) < 2 ^ 64 -> 0 <= nanoseconds (wall_now c) < NSEC_PER_SEC ->
  clock_nanosleep c id flags rqtp v =
  Done (0, Some (if flags =? 0 then SubscribeDuration (saturate (total rqtp))
                 else if id =? CLOCKID_MONOTONIC then SubscribeInstant (saturate (total rqtp))
                 else SubscribeDuration (saturate (total rqtp - total (timestamp_to_timespec_p2 (wall_now c)))))) v.
Proof.
  intros Hv Hp Hf Hid Hws Hwn. unfold clock_nanosleep.
  pose proof (bad_nsec_false rqtp Hv) as Hb. unfold bad_nsec in Hb.
  assert ((1000000000 <=? tv_nsec rqtp) || (tv_nsec rqtp <? 0) || (tv_sec rqtp <? 0) = false) as ->.
  { destruct Hv as [_ ?]. unfold NSEC_PER_SEC in *. lia. }
  destruct Hf as [-> | ->].
  { rewrite (saturating_duration_spec rqtp Hv Hp). destruct Hid as [-> | ->]; done. }
  destruct Hid as [-> | ->]; simpl; [|by rewrite (saturating_duration_spec rqtp Hv Hp)].
  set (now := timestamp_to_timespec_p2 (wall_now c)).
  assert (valid_ts now /\ 0 <= tv_sec now) as [Hvn Hpn].
  { unfold now, timestamp_to_timespec_p2, valid_ts, INT64_MAX, NSEC_PER_SEC in *.
    destruct (Z.ltb_spec (2 ^ 63 - 1) (seconds (wall_now c))); simpl; [lia|]. rewrite i64_small, i32_small; lia. }
  destruct (relative_to_spec rqtp now Hv Hvn Hp Hpn) as (Hvr & Hpr & Hrel).
  unfold mbind, M_bind, gets, set_errno, modify; simpl. fold now.
  rewrite (saturating_duration_spec _ Hvr Hpr), Hrel. by destruct v.
Qed.

(** [clock_nanosleep] rejects a request without blocking and without
    touching [errno]: it returns [EINVAL] for unknown flags, for a nanosecond
    count out of range, for a negative time, and for an absolute sleep on a
    clock that does not exist. *)
Theorem clock_nanosleep_rejects c id flags rqtp v :
  ~ (0 <= tv_nsec rqtp < NSEC_PER_SEC /\ 0 <= tv_sec rqtp) \/ Z.land flags (Z.lnot TIMER_ABSTIME) <> 0 \/
  (flags = TIMER_ABSTIME /\ id <> CLOCKID_REALTIME /\ id <> CLOCKID_MONOTONIC) ->
  clock_nanosleep c id flags rqtp v = Done (EINVAL, None) v.
Proof.
  intros Hbad. unfold clock_nanosleep.
  destruct (Z.eqb_spec (Z.land flags (Z.lnot TIMER_ABSTIME)) 0) as [Hf|]; cbn [negb]; [|done].
  destruct (((1000000000 <=? tv_nsec rqtp) || (tv_nsec rqtp <? 0)) || (tv_sec rqtp <? 0)) eqn:Hr; [done|].
  destruct Hbad as [Hbad|[?|(-> & H0 & H1)]]; [unfold NSEC_PER_SEC in *; lia|done|].
  destruct (Z.eqb_spec id CLOCKID_MONOTONIC) as [|]; [done|].
  unfold mbind, M_bind, gets, clock_gettime_p2. destruct (Z.eqb_spec id CLOCKID_MONOTONIC); [done|].
  destruct (Z.eqb_spec id CLOCKID_REALTIME); [done|]. by destruct v.
Qed.

(** [time] on wasip2 returns the seconds of the wall clock as long as the
    nanosecond count of the time fits in 64 bits (until the year 2554). *)
Theorem time_p2_correct c :
  0 <= seconds (wall_now c) <= 18446744072 -> 0 <= nanoseconds (wall_now c) < NSEC_PER_SEC ->
  time_p2 c = seconds (wall_now c).
Proof.
  intros Hs Hn. unfold time_p2, NSEC_PER_SEC in *. rewrite (u64_small (seconds _ * _)), u64_small by lia.
  rewrite Z.div_add_l, Z.div_small, Z.add_0_r, i64_small by lia. done.
Qed.

(** Outside that range [time] disagrees with [clock_gettime] on the same
    clock: on wasip2 in the year 2554 it falls back to 1970, and on wasip3 half
    a second before the epoch it says 0 where [clock_gettime] says -1. *)
Example time_disagrees :
  (let c := Clocks 0 (Datetime 18446744074 0) 1 (Datetime 0 1) in
   time_p2 c = 0 /\ tv_sec (timestamp_to_timespec_p2 (wall_now c)) = 18446744074) /\
  (let c := Clocks 0 (Datetime (-1) 500000000) 1 (Datetime 0 1) in
   time_p3 c = 0 /\ tv_sec (timestamp_to_timespec_p3 (wall_now c)) = -1).
Proof. vm_compute. done. Qed.

(** ** Concrete times *)

Lemma timespec_to_timestamp_exact_correct_witness :
  timespec_to_timestamp_exact_p1 (Timespec 18446744073 709551615) = Some UINT64_MAX /\
  timespec_to_timestamp_exact_p3 (Timespec (-1) 5) = Some (Datetime (-1) 5).
Proof.
  split.
  - destruct (timespec_to_timestamp_exact_correct (Timespec 18446744073 709551615)) as (E & _); [cbn; lia..|].
    apply E. unfold normal, total, NSEC_PER_SEC, UINT64_MAX; cbn [tv_sec tv_nsec seconds nanoseconds]; lia.
  - destruct (timespec_to_timestamp_exact_correct (Timespec (-1) 5)) as (_ & _ & E & _); [cbn; lia..|].
    apply E. unfold normal, total, NSEC_PER_SEC, UINT64_MAX; cbn [tv_sec tv_nsec seconds nanoseconds]; lia.
Defined.

Lemma timestamp_round_trip_witness :
  timespec_to_timestamp_exact_p1 (timestamp_to_timespec_p1 1234567890123456789) = Some 1234567890123456789.
Proof. apply (timestamp_round_trip 1234567890123456789). lia. Defined.

Lemma datetime_round_trip_witness :
  timespec_to_timestamp_exact_p2 (timestamp_to_timespec_p2 (Datetime 1700000000 5)) = Some (Datetime 1700000000 5).
Proof.
  destruct (datetime_round_trip (Datetime 1700000000 5)) as [Hle _];
    [simpl; lia|unfold NSEC_PER_SEC; simpl; lia|]. apply Hle. unfold INT64_MAX; simpl; lia.
Defined.

Definition demo_clocks : clocks := Clocks 5 (Datetime 1700000000 0) 1 (Datetime 0 1).

Lemma clock_nanosleep_blocks_witness :
  clock_nanosleep demo_clocks CLOCKID_REALTIME TIMER_ABSTIME (Timespec 1700000002 500000000) (Env 0 []) =
  Done (0, Some (SubscribeDuration 2500000000)) (Env 0 []).
Proof.
  rewrite (clock_nanosleep_blocks demo_clocks CLOCKID_REALTIME TIMER_ABSTIME (Timespec 1700000002 500000000) (Env 0 []));
    [reflexivity|..]; unfold valid_ts, NSEC_PER_SEC; simpl; (lia || auto).
Defined.

Lemma clock_nanosleep_rejects_witness :
  clock_nanosleep demo_clocks 7 TIMER_ABSTIME (Timespec 1 0) (Env 0 []) = Done (EINVAL, None) (Env 0 []).
Proof. apply (clock_nanosleep_rejects demo_clocks 7 TIMER_ABSTIME (Timespec 1 0) (Env 0 [])). right; right. done. Defined.

Lemma time_p2_correct_witness : time_p2 demo_clocks = 1700000000.
Proof. apply (time_p2_correct demo_clocks); unfold NSEC_PER_SEC; simpl; lia. Defined.
