(* ===== verification/Stat.v ===== *)
(** * File metadata

    cloudlibc/src/libc/sys/stat/stat_impl.h: the conversion of the host's
    metadata to [struct stat], and of the times given to [utimensat] and
    [futimens] to what the host is told; the file type constants of
    headers/public/__mode_t.h and sources/__wasilibc_dt.c. *)

From S2P Require Import Prelude Errno Time TimeProps.

(** ** File types *)

Definition S_IFBLK : Z := 0x6000.
Definition S_IFCHR : Z := 0x2000.
Definition S_IFDIR : Z := 0x4000.
Definition S_IFLNK : Z := 0xa000.
Definition S_IFREG : Z := 0x8000.
Definition S_IFSOCK : Z := 0xc000.
Definition S_IFIFO : Z := 0x1000.

Definition S_IFMT : Z :=
  Z.lor (Z.lor (Z.lor (Z.lor (Z.lor (Z.lor S_IFBLK S_IFCHR) S_IFDIR) S_IFIFO) S_IFLNK) S_IFREG) S_IFSOCK.

Definition S_ISDIR (m : Z) : bool := Z.land m S_IFMT =? S_IFDIR.

(** [__wasi_filetype_t] of wasip1. *)
Inductive wasi_filetype := FILETYPE_UNKNOWN | FILETYPE_BLOCK_DEVICE | FILETYPE_CHARACTER_DEVICE | FILETYPE_DIRECTORY
  | FILETYPE_REGULAR_FILE | FILETYPE_SOCKET_DGRAM | FILETYPE_SOCKET_STREAM | FILETYPE_SYMBOLIC_LINK.

(** The cases of [filesystem_descriptor_type_t] of wasip2 ([UNKNOWN]) and wasip3 ([OTHER]). *)
Inductive filetype := UNKNOWN | BLOCK_DEVICE | CHARACTER_DEVICE | DIRECTORY | FIFO | SYMBOLIC_LINK
  | REGULAR_FILE | SOCKET | OTHER.

Global Instance filetype_eq_dec : EqDecision filetype.
Proof. solve_decision. Defined.

(** ** Directory entry types *)

Definition DT_UNKNOWN : Z := 0.
Definition DT_BLK : Z := 1.
Definition DT_CHR : Z := 2.
Definition DT_DIR : Z := 3.
Definition DT_REG : Z := 4.
Definition DT_FIFO : Z := 6.
Definition DT_LNK : Z := 7.
Definition DT_SOCK : Z := 20.

Definition __wasilibc_iftodt (x : Z) : Z :=
  if x =? S_IFDIR then DT_DIR else
  if x =? S_IFCHR then DT_CHR else
  if x =? S_IFBLK then DT_BLK else
  if x =? S_IFREG then DT_REG else
  if x =? S_IFIFO then DT_FIFO else
  if x =? S_IFLNK then DT_LNK else
  if x =? S_IFSOCK then DT_SOCK else DT_UNKNOWN.

Definition __wasilibc_dttoif (x : Z) : Z :=
  if x =? DT_DIR then S_IFDIR else
  if x =? DT_CHR then S_IFCHR else
  if x =? DT_BLK then S_IFBLK else
  if x =? DT_REG then S_IFREG else
  if x =? DT_FIFO then S_IFIFO else
  if x =? DT_LNK then S_IFLNK else
  if x =? DT_SOCK then S_IFSOCK else S_IFSOCK.

(** ** struct stat *)

Record stat := Stat {
  st_dev : Z;
  st_ino : Z;
  st_nlink : Z;
  st_mode : Z;
  st_size : Z;
  st_atim : timespec;
  st_mtim : timespec;
  st_ctim : timespec;
}.

(** [__wasi_filestat_t] *)
Record filestat := Filestat {
  fst_dev : Z;
  fst_ino : Z;
  fst_filetype : wasi_filetype;
  fst_nlink : Z;
  fst_size : Z;
  fst_atim : Z;
  fst_mtim : Z;
  fst_ctim : Z;
}.

Definition mode_p1 (t : wasi_filetype) : Z :=
  match t with
  | FILETYPE_BLOCK_DEVICE => 0
  | FILETYPE_CHARACTER_DEVICE => S_IFCHR
  | FILETYPE_DIRECTORY => S_IFDIR
  | FILETYPE_REGULAR_FILE => S_IFREG
  | FILETYPE_SOCKET_DGRAM | FILETYPE_SOCKET_STREAM => S_IFSOCK
  | FILETYPE_SYMBOLIC_LINK => S_IFLNK
  | FILETYPE_UNKNOWN => 0
  end.

Definition to_public_stat_p1 (s : filestat) : stat :=
  Stat (fst_dev s) (fst_ino s) (fst_nlink s) (mode_p1 (fst_filetype s)) (i64 (fst_size s))
    (timestamp_to_timespec_p1 (fst_atim s)) (timestamp_to_timespec_p1 (fst_mtim s)) (timestamp_to_timespec_p1 (fst_ctim s)).

(** [filesystem_descriptor_stat_t] *)
Record descriptor_stat := DescriptorStat {
  d_type : filetype;
  link_count : Z;
  d_size : Z;
  data_access_timestamp : option datetime;
  data_modification_timestamp : option datetime;
  status_change_timestamp : option datetime;
}.

Definition mode_p2 (t : filetype) : Z :=
  match t with
  | BLOCK_DEVICE => S_IFBLK
  | CHARACTER_DEVICE => S_IFCHR
  | DIRECTORY => S_IFDIR
  | REGULAR_FILE => S_IFREG
  | SOCKET => S_IFSOCK
  | SYMBOLIC_LINK => S_IFLNK
  | _ => 0
  end.

(** [lower] is the low half of the host's metadata hash. *)
Definition to_public_stat_p2 (lower : Z) (s : descriptor_stat) : stat :=
  let zero := Datetime 0 0 in
  Stat 1 lower (link_count s) (mode_p2 (d_type s)) (i64 (d_size s))
    (timestamp_to_timespec_p2 (default zero (data_access_timestamp s)))
    (timestamp_to_timespec_p2 (default zero (data_modification_timestamp s)))
    (timestamp_to_timespec_p2 (default zero (status_change_timestamp s))).

(** ** utimensat and futimens *)

Definition UTIME_NOW : Z := -1.
Definition UTIME_OMIT : Z := -2.

Definition FSTFLAGS_ATIM : Z := Z.shiftl 1 0.
Definition FSTFLAGS_ATIM_NOW : Z := Z.shiftl 1 1.
Definition FSTFLAGS_MTIM : Z := Z.shiftl 1 2.
Definition FSTFLAGS_MTIM_NOW : Z := Z.shiftl 1 3.

(** One of the two [switch] statements of the wasip1 version: the timestamp
    and the flag it adds. *)
Definition utimens_one_p1 (t : timespec) (now set : Z) : option (Z * Z) :=
  if tv_nsec t =? UTIME_NOW then Some (0, now) else
  if tv_nsec t =? UTIME_OMIT then Some (0, 0) else
  match timespec_to_timestamp_exact_p1 t with
  | Some ts => Some (ts, set)
  | None => None
  end.

(** [times] is [None] for a null pointer; gives [st_atim], [st_mtim] and the flags. *)
Definition utimens_get_timestamps_p1 (times : option (timespec * timespec)) : option (Z * Z * Z) :=
  match times with
  | None => Some (0, 0, Z.lor FSTFLAGS_ATIM_NOW FSTFLAGS_MTIM_NOW)
  | Some (t0, t1) =>
      match utimens_one_p1 t0 FSTFLAGS_ATIM_NOW FSTFLAGS_ATIM with
      | None => None
      | Some (a, f0) =>
          match utimens_one_p1 t1 FSTFLAGS_MTIM_NOW FSTFLAGS_MTIM with
          | None => None
          | Some (m, f1) => Some (a, m, Z.lor (Z.lor 0 f0) f1)
          end
      end
  end.

(** [filesystem_new_timestamp_t] *)
Inductive new_timestamp := NO_CHANGE | NOW | TIMESTAMP (t : datetime).

Definition utimens_get_timestamp (t : timespec) : option new_timestamp :=
  if tv_nsec t =? UTIME_NOW then Some NOW else
  if tv_nsec t =? UTIME_OMIT then Some NO_CHANGE else
  match timespec_to_timestamp_exact_p2 t with
  | Some d => Some (TIMESTAMP d)
  | None => None
  end.

Definition utimens_get_timestamps_p2 (times : option (timespec * timespec)) : option (new_timestamp * new_timestamp) :=
  match times with
  | None => Some (NOW, NOW)
  | Some (t0, t1) =>
      match utimens_get_timestamp t0 with
      | None => None
      | Some a => match utimens_get_timestamp t1 with None => None | Some m => Some (a, m) end
      end
  end.

(** ** Theorems *)

(** What the wasip1 host is told about one timestamp, read off the flags: its
    [now] bit, its [set] bit and the value. [None] when both bits are set,
    which the host rejects. *)
Definition decode_p1 (flags now set ts : Z) : option (option Z) :=
  let n := negb (Z.land flags now =? 0) in
  let s := negb (Z.land flags set =? 0) in
  if n && s then None else
  if n then Some (Some (-1)) else if s then Some (Some ts) else Some None.

(** The same reading of the request of wasip2. *)
Definition decode_p2 (r : new_timestamp) : option Z :=
  match r with
  | NO_CHANGE => None
  | NOW => Some (-1)
  | TIMESTAMP d => Some (seconds d * NSEC_PER_SEC + nanoseconds d)
  end.

(** What the caller of [utimensat] wants for one time: leave it ([None]), set
    it to now ([Some (-1)]) or set it to a count of nanoseconds. *)
Definition wanted (t : timespec) : option Z :=
  if tv_nsec t =? UTIME_NOW then Some (-1) else
  if tv_nsec t =? UTIME_OMIT then None else Some (total t).

(** Times that cannot be set: on wasip2 those with invalid nanoseconds or
    before the epoch, on wasip1 those that overflow as well. *)
Definition unsettable_p2 (t : timespec) : bool :=
  negb (tv_nsec t =? UTIME_NOW) && negb (tv_nsec t =? UTIME_OMIT) && (bad_nsec t || (tv_sec t <? 0)).
Definition unsettable_p1 (t : timespec) : bool :=
  unsettable_p2 t || (negb (tv_nsec t =? UTIME_NOW) && negb (tv_nsec t =? UTIME_OMIT) && (2 ^ 64 <=? total t)).

Definition in_c_range (t : timespec) : Prop := - 2 ^ 63 <= tv_sec t < 2 ^ 63 /\ - 2 ^ 31 <= tv_nsec t < 2 ^ 31.

Lemma utimens_get_timestamp_spec t :
  in_c_range t ->
  if unsettable_p2 t then utimens_get_timestamp t = None
  else exists r, utimens_get_timestamp t = Some r /\ decode_p2 r = wanted t.
Proof.
  intros [Hs Hn]. unfold unsettable_p2, utimens_get_timestamp, wanted, timespec_to_timestamp_exact_p2.
  destruct (tv_nsec t =? UTIME_NOW); [cbn [negb andb orb]; by eauto|]. destruct (tv_nsec t =? UTIME_OMIT); [cbn [negb andb orb]; by eauto|]. cbn [negb andb].
  destruct (bad_nsec t) eqn:Hb; [done|]. destruct (Z.ltb_spec (tv_sec t) 0); [done|]. cbn [orb].
  eexists. split; [done|]. simpl. unfold bad_nsec in Hb. by rewrite u64_small, u32_small by lia.
Qed.

Lemma utimens_one_p1_spec t now set :
  in_c_range t ->
  if unsettable_p1 t then utimens_one_p1 t now set = None
  else exists ts f, utimens_one_p1 t now set = Some (ts, f) /\
    ((f = now /\ wanted t = Some (-1)) \/ (f = 0 /\ wanted t = None) \/ (f = set /\ wanted t = Some ts)).
Proof.
  intros [Hs Hn]. unfold unsettable_p1, unsettable_p2, utimens_one_p1, wanted.
  destruct (tv_nsec t =? UTIME_NOW); [cbn [negb andb orb]; by eauto 10|]. destruct (tv_nsec t =? UTIME_OMIT); [cbn [negb andb orb]; by eauto 10|]. cbn [negb andb].
  unfold timespec_to_timestamp_exact_p1. destruct (bad_nsec t) eqn:Hb; [done|].
  destruct (Z.ltb_spec (tv_sec t) 0); [done|]. cbn [orb]. unfold bad_nsec in Hb.
  destruct (mul_add_overflow_spec (tv_sec t) NSEC_PER_SEC (tv_nsec t)) as (r & -> & Hr); [done || lia..|].
  fold (total t) in *. destruct (Z.leb_spec (2 ^ 64) (total t)), (Z.ltb_spec (total t) (2 ^ 64)); try lia; cbn [negb]; [done|].
  eexists _, _. split; [done|]. rewrite Hr by done. by eauto.
Qed.

(** The times given to [utimensat] and [futimens] reach the host as the
    caller means them, on wasip1 (flags and nanosecond counts) and on wasip2
    and wasip3 (variants) alike: for each of the two times "now", "leave it",
    or the exact time; the call is rejected exactly when a time that is to be
    set has invalid nanoseconds, lies before the epoch, or (wasip1) does not
    fit in 64 bits. *)
Theorem utimens_correct t0 t1 :
  in_c_range t0 -> in_c_range t1 ->
  (if unsettable_p1 t0 || unsettable_p1 t1 then utimens_get_timestamps_p1 (Some (t0, t1)) = None
   else exists a m f, utimens_get_timestamps_p1 (Some (t0, t1)) = Some (a, m, f) /\
     decode_p1 f FSTFLAGS_ATIM_NOW FSTFLAGS_ATIM a = Some (wanted t0) /\
     decode_p1 f FSTFLAGS_MTIM_NOW FSTFLAGS_MTIM m = Some (wanted t1)) /\
  (if unsettable_p2 t0 || unsettable_p2 t1 then utimens_get_timestamps_p2 (Some (t0, t1)) = None
   else exists a m, utimens_get_timestamps_p2 (Some (t0, t1)) = Some (a, m) /\
     decode_p2 a = wanted t0 /\ decode_p2 m = wanted t1).
Proof.
  intros H0 H1. split.
  - pose proof (utimens_one_p1_spec t0 FSTFLAGS_ATIM_NOW FSTFLAGS_ATIM H0) as S0.
    pose proof (utimens_one_p1_spec t1 FSTFLAGS_MTIM_NOW FSTFLAGS_MTIM H1) as S1. unfold utimens_get_timestamps_p1.
    destruct (unsettable_p1 t0); [by rewrite S0|]. destruct S0 as (a & f0 & -> & C0).
    destruct (unsettable_p1 t1); [by rewrite S1|]. destruct S1 as (m & f1 & -> & C1). cbn [orb].
    exists a, m, (Z.lor (Z.lor 0 f0) f1). split; [done|].
    destruct C0 as [[-> ->]|[[-> ->]|[-> ->]]], C1 as [[-> ->]|[[-> ->]|[-> ->]]]; done.
  - pose proof (utimens_get_timestamp_spec t0 H0) as S0. pose proof (utimens_get_timestamp_spec t1 H1) as S1.
    unfold utimens_get_timestamps_p2. destruct (unsettable_p2 t0); [by rewrite S0|]. destruct S0 as (a & -> & ?).
    destruct (unsettable_p2 t1); [by rewrite S1|]. destruct S1 as (m & -> & ?). cbn [orb]. exists a, m. done.
Qed.

Lemma utimens_correct_witness :
  exists a m, utimens_get_timestamps_p2 (Some (Timespec 5 7, Timespec 0 UTIME_OMIT)) = Some (a, m) /\
    decode_p2 a = Some 5000000007 /\ decode_p2 m = None.
Proof. apply (utimens_correct (Timespec 5 7) (Timespec 0 UTIME_OMIT)); split; simpl; unfold UTIME_OMIT; lia. Defined.

(** The file type survives the conversion to [st_mode] on wasip2: two
    host types that have a mode give different ones, a directory is exactly
    what [S_ISDIR] recognises, and [IFTODT]/[DTTOIF] are inverse on the modes
    and on the directory entry types. *)
Theorem file_types_distinct :
  (forall t t', mode_p2 t <> 0 -> mode_p2 t = mode_p2 t' -> t = t') /\
  (forall t, S_ISDIR (mode_p2 t) = true <-> t = DIRECTORY) /\
  (forall t, mode_p2 t <> 0 -> __wasilibc_dttoif (__wasilibc_iftodt (mode_p2 t)) = mode_p2 t) /\
  Forall (fun d => __wasilibc_iftodt (__wasilibc_dttoif d) = d)
    [DT_BLK; DT_CHR; DT_DIR; DT_REG; DT_FIFO; DT_LNK; DT_SOCK].
Proof.
  split_and!.
  - intros [] []; done.
  - intros []; done.
  - intros []; done.
  - by repeat constructor.
Qed.

(** On wasip1 a block device has no type in [st_mode]: the conversion
    leaves it 0, so [S_ISBLK] is false for it, where wasip2 gives [S_IFBLK]. On
    wasip2 a pipe has no type in [st_mode] although [S_IFIFO] exists. *)
Example missing_file_types :
  mode_p1 FILETYPE_BLOCK_DEVICE = 0 /\ mode_p2 BLOCK_DEVICE = S_IFBLK /\
  (Z.land (mode_p1 FILETYPE_BLOCK_DEVICE) S_IFMT =? S_IFBLK) = false /\
  mode_p2 FIFO = 0.
Proof. done. Qed.
