(* ===== verification/SockAddr.v ===== *)
(** * Socket addresses, errors and options

    sources/sockets_utils.c without the table of services, for wasip2: the
    errors of the network, the conversion between [struct sockaddr] and the
    addresses of WASI, and the timeouts of sockets. The memory behind a
    [struct sockaddr] is the list of its bytes. *)

From S2P Require Import Prelude Errno Time TimeProps.

(** ** Constants *)

Definition AF_INET : Z := 1.
Definition AF_INET6 : Z := 2.

Definition NETWORK_ERROR_CODE_UNKNOWN : Z := 0.
Definition NETWORK_ERROR_CODE_ACCESS_DENIED : Z := 1.
Definition NETWORK_ERROR_CODE_NOT_SUPPORTED : Z := 2.
Definition NETWORK_ERROR_CODE_INVALID_ARGUMENT : Z := 3.
Definition NETWORK_ERROR_CODE_OUT_OF_MEMORY : Z := 4.
Definition NETWORK_ERROR_CODE_TIMEOUT : Z := 5.
Definition NETWORK_ERROR_CODE_CONCURRENCY_CONFLICT : Z := 6.
Definition NETWORK_ERROR_CODE_NOT_IN_PROGRESS : Z := 7.
Definition NETWORK_ERROR_CODE_WOULD_BLOCK : Z := 8.
Definition NETWORK_ERROR_CODE_INVALID_STATE : Z := 9.
Definition NETWORK_ERROR_CODE_NEW_SOCKET_LIMIT : Z := 10.
Definition NETWORK_ERROR_CODE_ADDRESS_NOT_BINDABLE : Z := 11.
Definition NETWORK_ERROR_CODE_ADDRESS_IN_USE : Z := 12.
Definition NETWORK_ERROR_CODE_REMOTE_UNREACHABLE : Z := 13.
Definition NETWORK_ERROR_CODE_CONNECTION_REFUSED : Z := 14.
Definition NETWORK_ERROR_CODE_CONNECTION_RESET : Z := 15.
Definition NETWORK_ERROR_CODE_CONNECTION_ABORTED : Z := 16.
Definition NETWORK_ERROR_CODE_DATAGRAM_TOO_LARGE : Z := 17.
Definition NETWORK_ERROR_CODE_NAME_UNRESOLVABLE : Z := 18.
Definition NETWORK_ERROR_CODE_TEMPORARY_RESOLVER_FAILURE : Z := 19.
Definition NETWORK_ERROR_CODE_PERMANENT_RESOLVER_FAILURE : Z := 20.

Inductive ip_address_family := IPV4 | IPV6.

(** [network_ip_socket_address_t]; the address of four bytes or eight groups *)
Inductive ip_socket_address :=
| Ipv4SocketAddress (port : Z) (address : list Z)
| Ipv6SocketAddress (port flow_info : Z) (address : list Z) (scope_id : Z).

(** [struct sockaddr] and its kinds: [sa_family] at 0; [sin_port] at 2,
    [s_addr] at 4; [sin6_port] at 2, [sin6_flowinfo] at 4, [s6_addr] at 8,
    [sin6_scope_id] at 24. They are aligned to 16 bytes. *)
Definition sizeof_sockaddr : Z := 16.
Definition sizeof_sockaddr_in : Z := 16.
Definition sizeof_sockaddr_in6 : Z := 32.

(** The [n] bytes at [i], as an integer. *)
Definition field (i n : nat) (mem : list Z) : Z := le_value (take n (drop i mem)).

(** [ntohs] and [htons]: wasm is little-endian. *)
Definition swap16 (x : Z) : Z := Z.lor (Z.land (Z.shiftl x 8) 0xFFFF) (Z.shiftr x 8).

Section code.
Context {St : Type} `{Libc St}.

(** ** Errors *)

Definition __wasilibc_map_socket_error (e : Z) : M St Z :=
  if e =? NETWORK_ERROR_CODE_ACCESS_DENIED then mret EACCES else
  if e =? NETWORK_ERROR_CODE_NOT_SUPPORTED then mret EOPNOTSUPP else
  if e =? NETWORK_ERROR_CODE_INVALID_ARGUMENT then mret EINVAL else
  if e =? NETWORK_ERROR_CODE_OUT_OF_MEMORY then mret ENOMEM else
  if e =? NETWORK_ERROR_CODE_TIMEOUT then mret ETIMEDOUT else
  if e =? NETWORK_ERROR_CODE_CONCURRENCY_CONFLICT then mret EALREADY else
  if e =? NETWORK_ERROR_CODE_WOULD_BLOCK then mret EWOULDBLOCK else
  if e =? NETWORK_ERROR_CODE_NEW_SOCKET_LIMIT then mret EMFILE else
  if e =? NETWORK_ERROR_CODE_ADDRESS_NOT_BINDABLE then mret EADDRNOTAVAIL else
  if e =? NETWORK_ERROR_CODE_ADDRESS_IN_USE then mret EADDRINUSE else
  if e =? NETWORK_ERROR_CODE_REMOTE_UNREACHABLE then mret EHOSTUNREACH else
  if e =? NETWORK_ERROR_CODE_CONNECTION_REFUSED then mret ECONNREFUSED else
  if e =? NETWORK_ERROR_CODE_CONNECTION_RESET then mret ECONNRESET else
  if e =? NETWORK_ERROR_CODE_CONNECTION_ABORTED then mret ECONNABORTED else
  if e =? NETWORK_ERROR_CODE_DATAGRAM_TOO_LARGE then mret EMSGSIZE else
  if (e =? NETWORK_ERROR_CODE_INVALID_STATE) || (e =? NETWORK_ERROR_CODE_NOT_IN_PROGRESS) then mret ENOTCONN else
  if (e =? NETWORK_ERROR_CODE_NAME_UNRESOLVABLE) || (e =? NETWORK_ERROR_CODE_TEMPORARY_RESOLVER_FAILURE)
     || (e =? NETWORK_ERROR_CODE_PERMANENT_RESOLVER_FAILURE) then halt Trap else
  mret EOPNOTSUPP.

Definition __wasilibc_socket_error_to_errno (e : Z) : M St Z :=
  n ← __wasilibc_map_socket_error e;
  fail_with n (-1).

(** ** Addresses *)

(** [None] stands for the result [-1]. The pointer is [None] when it is NULL;
    otherwise [len] bytes can be read behind it. *)
Definition __wasilibc_sockaddr_to_wasi (expected_family : ip_address_family) (address : option (list Z)) (len : Z) :
    M St (option ip_socket_address) :=
  match address with
  | None => fail_with EINVAL None
  | Some mem =>
      if len <? sizeof_sockaddr then fail_with EINVAL None else
      match expected_family with
      | IPV4 =>
          if negb (field 0 2 mem =? AF_INET) then fail_with EAFNOSUPPORT None else
          if len <? sizeof_sockaddr_in then fail_with EINVAL None else
          let ip := field 4 4 mem in
          let port := field 2 2 mem in
          mret (Some (Ipv4SocketAddress (swap16 port)
            [Z.land ip 0xFF; Z.land (Z.shiftr ip 8) 0xFF; Z.land (Z.shiftr ip 16) 0xFF; Z.shiftr ip 24]))
      | IPV6 =>
          if negb (field 0 2 mem =? AF_INET6) then fail_with EAFNOSUPPORT None else
          if len <? sizeof_sockaddr_in6 then fail_with EINVAL None else
          let ip i := field (8 + i) 1 mem in
          let group i := Z.lor (Z.shiftl (ip (2 * i)%nat) 8) (ip (2 * i + 1)%nat) in
          mret (Some (Ipv6SocketAddress (swap16 (field 2 2 mem)) (field 4 4 mem) (group <$> seq 0 8) (field 24 4 mem)))
      end
  end.

(** [output_sockaddr_t]: the pointers are those of the caller. *)
Inductive output_sockaddr := OUTPUT_SOCKADDR_NULL | OUTPUT_SOCKADDR_V4 | OUTPUT_SOCKADDR_V6.

(** [addr] tells whether the pointer is not NULL, [addrlen] what is behind the
    pointer to the length. *)
Definition __wasilibc_sockaddr_validate (expected_family : ip_address_family) (addr : bool) (addrlen : option Z) :
    M St (option output_sockaddr) :=
  match addr, addrlen with
  | false, None => mret (Some OUTPUT_SOCKADDR_NULL)
  | true, Some addrlen =>
      match expected_family with
      | IPV4 => if addrlen <? sizeof_sockaddr_in then fail_with EINVAL None else mret (Some OUTPUT_SOCKADDR_V4)
      | IPV6 => if addrlen <? sizeof_sockaddr_in6 then fail_with EINVAL None else mret (Some OUTPUT_SOCKADDR_V6)
      end
  | _, _ => fail_with EINVAL None
  end.

(** What is stored at [*addr] and [*addrlen]. *)
Definition __wasilibc_wasi_to_sockaddr (input : ip_socket_address) (output : output_sockaddr) : M St (list Z * Z) :=
  match input, output with
  | Ipv4SocketAddress port ip, OUTPUT_SOCKADDR_V4 =>
      let f i := nth i ip 0 in
      let s_addr := Z.lor (Z.lor (Z.lor (f 0%nat) (Z.shiftl (f 1%nat) 8)) (Z.shiftl (f 2%nat) 16)) (Z.shiftl (f 3%nat) 24) in
      mret (le_bytes 2 AF_INET ++ le_bytes 2 (swap16 port) ++ le_bytes 4 s_addr ++ replicate 8 0, sizeof_sockaddr_in)
  | Ipv6SocketAddress port flow_info ip scope_id, OUTPUT_SOCKADDR_V6 =>
      mret (le_bytes 2 AF_INET6 ++ le_bytes 2 (swap16 port) ++ le_bytes 4 flow_info ++
            (ip ≫= fun g => [Z.shiftr g 8; Z.land g 0xFF]) ++ le_bytes 4 scope_id ++ replicate 4 0, sizeof_sockaddr_in6)
  | _, _ => halt Trap
  end.

(** ** Timeouts *)

Definition sizeof_timeval : Z := 16.

(** The bytes of a [struct timeval]. *)
Definition timeval_bytes (tv : timeval) : list Z := le_bytes 8 (tval_sec tv) ++ le_bytes 8 (tv_usec tv).

(** What is stored at [*optval] (as many bytes as [*optlen] allows) and at
    [*optlen]. *)
Definition __wasilibc_getsockopt_timeout (timeout optlen : Z) : list Z * Z :=
  let tv := duration_to_timeval timeout in
  (take (Z.to_nat (if optlen <? sizeof_timeval then optlen else sizeof_timeval)) (timeval_bytes tv), sizeof_timeval).

(** The new timeout, [None] being the result [-1]. *)
Definition __wasilibc_setsockopt_timeout (optval : list Z) (optlen : Z) : M St (option Z) :=
  if optlen <? sizeof_timeval then fail_with EINVAL None else
  let tv := Timeval (i64 (field 0 8 optval)) (i64 (field 8 8 optval)) in
  match timeval_to_duration tv with
  | Some d => mret (Some d)
  | None => fail_with EINVAL None
  end.

Definition __wasilibc_wasi_family_to_libc (f : ip_address_family) : Z :=
  match f with IPV4 => AF_INET | IPV6 => AF_INET6 end.

Definition __wasilibc_unspecified_addr (f : ip_address_family) : ip_socket_address :=
  match f with
  | IPV4 => Ipv4SocketAddress 0 [0; 0; 0; 0]
  | IPV6 => Ipv6SocketAddress 0 0 [0; 0; 0; 0; 0; 0; 0; 0] 0
  end.
End code.

(** ** Theorems *)

(** Putting together and taking apart groups of bits. *)
Lemma lor_shiftl a b n : 0 <= n -> 0 <= b < 2 ^ n -> Z.lor (Z.shiftl a n) b = a * 2 ^ n + b.
Proof.
  intros Hn Hb. assert (Z.land (Z.shiftl a n) b = 0) as Hl.
  { apply Z.bits_inj'. intros i Hi. rewrite Z.land_spec, Z.bits_0. destruct (Z.lt_ge_cases i n).
    - by rewrite Z.shiftl_spec_low by lia.
    - rewrite <- (Z.mod_small b (2 ^ n)), Z.mod_pow2_bits_high by lia. apply andb_false_r. }
  pose proof (Z.add_lor_land (Z.shiftl a n) b) as Hs. rewrite Hl, Z.add_0_r in Hs. by rewrite Hs, Z.shiftl_mul_pow2.
Qed.

Lemma land_255 a : Z.land a 0xFF = a mod 256.
Proof. exact (Z.land_ones a 8 ltac:(lia)). Qed.

Lemma swap16_eq x : 0 <= x < 2 ^ 16 -> swap16 x = x mod 256 * 256 + x / 256.
Proof.
  intros Hx. unfold swap16. change 0xFFFF with (Z.ones 16). rewrite Z.land_ones, Z.shiftl_mul_pow2, Z.shiftr_div_pow2 by lia.
  replace (x * 2 ^ 8 mod 2 ^ 16) with (Z.shiftl (x mod 256) 8).
  - rewrite lor_shiftl; [done|lia|]. split; [apply Z.div_pos; lia|]. apply Z.div_lt_upper_bound; lia.
  - rewrite Z.shiftl_mul_pow2 by lia. change (2 ^ 16) with (256 * 2 ^ 8). by rewrite Zmult_mod_distr_r by lia.
Qed.

Lemma swap16_swap16 x : 0 <= x < 2 ^ 16 -> swap16 (swap16 x) = x /\ 0 <= swap16 x < 2 ^ 16.
Proof.
  intros Hx. assert (0 <= swap16 x < 2 ^ 16) as Hr by (rewrite swap16_eq by lia; Z.div_mod_to_equations; lia).
  split; [|done]. rewrite swap16_eq by done. rewrite swap16_eq by lia. Z.div_mod_to_equations. lia.
Qed.

(** An address of the host: every number fits its field. *)
Definition wf_address (a : ip_socket_address) : Prop :=
  match a with
  | Ipv4SocketAddress port ip => 0 <= port < 2 ^ 16 /\ length ip = 4%nat /\ Forall byte ip
  | Ipv6SocketAddress port flow ip scope =>
      0 <= port < 2 ^ 16 /\ 0 <= flow < 2 ^ 32 /\ length ip = 8%nat /\ Forall (fun g => 0 <= g < 2 ^ 16) ip /\ 0 <= scope < 2 ^ 32
  end.

Definition family_of (a : ip_socket_address) : ip_address_family :=
  match a with Ipv4SocketAddress _ _ => IPV4 | Ipv6SocketAddress _ _ _ _ => IPV6 end.

Lemma field_here n l1 l2 : length l1 = n -> field 0 n (l1 ++ l2) = le_value l1.
Proof. intros <-. unfold field. by rewrite drop_0, take_app_length. Qed.

Lemma field_later i n l1 l2 : field (length l1 + i) n (l1 ++ l2) = field i n l2.
Proof. unfold field. by rewrite drop_app_add'. Qed.

Lemma field_le i n l1 z l2 : length l1 = i -> 0 <= z < 256 ^ Z.of_nat n -> field i n (l1 ++ le_bytes n z ++ l2) = z.
Proof.
  intros <- Hz. rewrite <- (Nat.add_0_r (length l1)), field_later, field_here by apply length_le_bytes. by apply le_value_bytes.
Qed.

Lemma v4_octets a b c d :
  byte a -> byte b -> byte c -> byte d ->
  let ip := Z.lor (Z.lor (Z.lor a (Z.shiftl b 8)) (Z.shiftl c 16)) (Z.shiftl d 24) in
  0 <= ip < 2 ^ 32 /\ [Z.land ip 0xFF; Z.land (Z.shiftr ip 8) 0xFF; Z.land (Z.shiftr ip 16) 0xFF; Z.shiftr ip 24] = [a; b; c; d].
Proof.
  intros Ha Hb Hc Hd ip. unfold byte in *. assert (ip = a + b * 2 ^ 8 + c * 2 ^ 16 + d * 2 ^ 24) as ->.
  { unfold ip. rewrite (Z.lor_comm a), lor_shiftl by lia. rewrite (Z.lor_comm _ (Z.shiftl c 16)), lor_shiftl by lia.
    rewrite (Z.lor_comm _ (Z.shiftl d 24)), lor_shiftl by lia. lia. }
  rewrite !land_255, !Z.shiftr_div_pow2 by lia. split; [lia|]. repeat f_equal; Z.div_mod_to_equations; lia.
Qed.

Lemma v6_groups ip :
  Forall (fun g => 0 <= g < 2 ^ 16) ip ->
  forall i g, ip !! i = Some g ->
    let mem := ip ≫= fun g => [Z.shiftr g 8; Z.land g 0xFF] in
    Z.lor (Z.shiftl (field (2 * i) 1 mem) 8) (field (2 * i + 1) 1 mem) = g.
Proof.
  induction 1 as [|g' ip Hg _ IH]; intros i g Hi; cbn zeta; [done|]. destruct i as [|i].
  - injection Hi as ->. cbn -[Z.land Z.shiftr Z.shiftl Z.lor Z.mul Z.add]. rewrite !Z.mul_0_r, !Z.add_0_r, land_255, Z.shiftr_div_pow2 by lia.
    rewrite lor_shiftl by (try apply Z.mod_pos_bound; lia). Z.div_mod_to_equations. lia.
  - replace (2 * S i)%nat with (2 + 2 * i)%nat by lia. replace (2 + 2 * i + 1)%nat with (2 + (2 * i + 1))%nat by lia.
    rewrite bind_cons. set (l := [Z.shiftr g' 8; Z.land g' 0xFF]).
    change (2 + 2 * i)%nat with (length l + 2 * i)%nat. change (2 + (2 * i + 1))%nat with (length l + (2 * i + 1))%nat.
    rewrite !field_later. by apply IH.
Qed.

Lemma bind_length (ip : list Z) : length (ip ≫= fun g => [Z.shiftr g 8; Z.land g 0xFF]) = (2 * length ip)%nat.
Proof. induction ip as [|g ip IH]; [done|]. rewrite bind_cons, length_app, IH. cbn [length]. lia. Qed.

(** The groups of a [sin6_addr] within the whole structure. *)
Lemma v6_mem ip l1 l2 :
  length l1 = 8%nat -> length ip = 8%nat -> Forall (fun g => 0 <= g < 2 ^ 16) ip ->
  let mem := l1 ++ (ip ≫= fun g => [Z.shiftr g 8; Z.land g 0xFF]) ++ l2 in
  (fun i => Z.lor (Z.shiftl (field (8 + 2 * i) 1 mem) 8) (field (8 + (2 * i + 1)) 1 mem)) <$> seq 0 8 = ip.
Proof.
  intros H1 Hl Hip mem. apply list_eq_same_length with 8%nat; [done|done|]. intros i x y Hi Hx Hy.
  rewrite list_lookup_fmap, lookup_seq_lt in Hx by lia. apply (inj Some) in Hx. subst x. rewrite Nat.add_0_l.
  rewrite <- (v6_groups ip Hip i y Hy). unfold mem.
  assert (forall j, (j < 16)%nat -> field (8 + j) 1 (l1 ++ (ip ≫= fun g => [Z.shiftr g 8; Z.land g 0xFF]) ++ l2) =
    field j 1 (ip ≫= fun g => [Z.shiftr g 8; Z.land g 0xFF])) as Hf.
  { intros j Hj. rewrite <- H1, field_later. unfold field. rewrite drop_app_le by (rewrite bind_length; lia).
    rewrite take_app_le; [done|]. rewrite length_drop, bind_length. lia. }
  by rewrite !Hf by lia.
Qed.

(** C26: An address of the host stored in a [struct sockaddr] of its family and
    read back is the address, for both families; so ports and addresses are in
    the byte order of the network. *)
Theorem sockaddr_round_trip {St} `{Libc St} a (s : St) :
  wf_address a ->
  exists mem len, __wasilibc_wasi_to_sockaddr a (match family_of a with IPV4 => OUTPUT_SOCKADDR_V4 | IPV6 => OUTPUT_SOCKADDR_V6 end) s =
    Done (mem, len) s /\ Z.of_nat (length mem) = len /\
    __wasilibc_sockaddr_to_wasi (family_of a) (Some mem) len s = Done (Some a) s.
Proof.
  destruct a as [port ip|port flow ip scope]; cbn [wf_address family_of].
  - intros (Hp & Hl & Hip). destruct ip as [|a [|b [|c [|d [|]]]]]; try done. destruct (swap16_swap16 port Hp) as [Hs Hr].
    rewrite !list.Forall_cons in Hip. destruct Hip as (Ha & Hb & Hc & Hd & _). destruct (v4_octets a b c d Ha Hb Hc Hd) as [Hi Hm].
    set (ip := Z.lor _ _) in Hi, Hm. eexists _, _. split; [done|]. split; [done|]. unfold __wasilibc_sockaddr_to_wasi.
    cbn [nth]. fold ip. rewrite (field_le 2 2 (le_bytes 2 AF_INET)), app_assoc, (field_le 4 4) by done. by rewrite Hs, Hm.
  - intros (Hp & Hf & Hl & Hip & Hsc). destruct (swap16_swap16 port Hp) as [Hs Hr]. eexists _, _. split; [done|].
    assert (length (ip ≫= fun g => [Z.shiftr g 8; Z.land g 0xFF]) = 16%nat) as H16 by (rewrite bind_length; lia). split.
    { rewrite !length_app, H16, !length_le_bytes. done. }
    unfold __wasilibc_sockaddr_to_wasi.
    rewrite (field_le 2 2 (le_bytes 2 AF_INET6)), Hs by done.
    rewrite (app_assoc (le_bytes 2 AF_INET6)), (field_le 4 4) by done. rewrite (app_assoc (_ ++ _) (le_bytes 4 flow)).
    rewrite (v6_mem ip) by done. rewrite (app_assoc (_ ++ _) (_ ≫= _)), (field_le 24 4); [done| |done].
    rewrite !length_app, H16, !length_le_bytes. done.
Qed.

Lemma sockaddr_round_trip_witness :
  exists mem len, __wasilibc_wasi_to_sockaddr (Ipv4SocketAddress 8080 [127; 0; 0; 1]) OUTPUT_SOCKADDR_V4 (Env 0 []) = Done (mem, len) (Env 0 []) /\
    Z.of_nat (length mem) = len /\
    __wasilibc_sockaddr_to_wasi IPV4 (Some mem) len (Env 0 []) = Done (Some (Ipv4SocketAddress 8080 [127; 0; 0; 1])) (Env 0 []).
Proof.
  apply (sockaddr_round_trip (Ipv4SocketAddress 8080 [127; 0; 0; 1]) (Env 0 [])).
  split; [lia|]. split; [reflexivity|]. repeat constructor; lia.
Defined.

(** Every error of a socket has a number; only those of the resolver stop the
    program. *)
Lemma map_socket_error_total {St} `{Libc St} e (s : St) :
  0 <= e <= 17 -> exists n, __wasilibc_map_socket_error e s = Done n s /\ 0 < n.
Proof.
  intros He. assert (e ∈ seqZ 0 18) as Hin by (apply elem_of_seqZ; lia). revert Hin. vm_compute seqZ. set_unfold.
  intros Hin. destruct_or! Hin; subst; try done; by eexists.
Qed.

(** A timeout set with [setsockopt] is read back by [getsockopt] unchanged, when
    it fits 64 bits of nanoseconds. *)
Theorem socket_timeout_round_trip {St} `{Libc St} tv (s : St) :
  0 <= tval_sec tv -> 0 <= tv_usec tv < 10 ^ 6 -> tval_sec tv * 10 ^ 9 + tv_usec tv * 1000 < 2 ^ 63 ->
  exists d, __wasilibc_setsockopt_timeout (timeval_bytes tv) sizeof_timeval s = Done (Some d) s /\
    __wasilibc_getsockopt_timeout d sizeof_timeval = (timeval_bytes tv, sizeof_timeval).
Proof.
  destruct tv as [sec usec]. cbn [tval_sec tv_usec]. intros Hs Hu Hd. exists (sec * 10 ^ 9 + usec * 1000).
  unfold __wasilibc_setsockopt_timeout, timeval_bytes. cbn [tval_sec tv_usec].
  rewrite <- (app_nil_r (le_bytes 8 usec)), (field_le 8 8) by (try done; change (256 ^ Z.of_nat 8) with (2 ^ 64); lia).
  rewrite field_here, le_value_bytes by (try apply length_le_bytes; change (256 ^ Z.of_nat 8) with (2 ^ 64); lia).
  rewrite !i64_small, app_nil_r by lia. split.
  - unfold timeval_to_duration. cbn [tval_sec tv_usec]. unfold USEC_PER_SEC.
    destruct (mul_add_overflow_spec sec NSEC_PER_SEC (usec * 1000)) as (r & -> & Hr); [lia|done|lia|].
    rewrite Hr by (unfold NSEC_PER_SEC; lia). unfold NSEC_PER_SEC. rewrite (proj2 (Z.ltb_lt _ (2 ^ 64))) by lia.
    rewrite (proj2 (Z.ltb_ge usec 0)), (proj2 (Z.leb_gt _ usec)), (proj2 (Z.ltb_ge sec 0)) by lia. done.
  - unfold __wasilibc_getsockopt_timeout, duration_to_timeval, NSEC_PER_SEC.
    replace ((sec * 10 ^ 9 + usec * 1000) / 1000000000) with sec by (Z.div_mod_to_equations; lia).
    replace ((sec * 10 ^ 9 + usec * 1000) mod 1000000000 / 1000) with usec by (Z.div_mod_to_equations; lia).
    rewrite i64_small by lia. by rewrite take_ge.
Qed.

Lemma socket_timeout_round_trip_witness :
  exists d, __wasilibc_setsockopt_timeout (timeval_bytes (Timeval 2 500000)) sizeof_timeval (Env 0 []) = Done (Some d) (Env 0 []) /\
    __wasilibc_getsockopt_timeout d sizeof_timeval = (timeval_bytes (Timeval 2 500000), sizeof_timeval).
Proof. apply (socket_timeout_round_trip (Timeval 2 500000) (Env 0 [])); cbn; lia. Defined.
