(* ===== verification/Host.v ===== *)
(** * The host

    The WASI imports that the wasip2 code calls (headers/public/wasi/
    __generated_wasip2.h, implemented by the host outside the repository).
    [hostcall R] is an import called with its arguments, [R] what it answers;
    a [bool f(..., &out, &err)] answers [inl out] or [inr err]. The host is a
    parameter: a function from the calls made so far and the present call to
    its answer. Handles are numbers, 0 meaning none. *)

From S2P Require Import Prelude Errno Time Stat SockAddr.

(** [streams_stream_error_t]; the handle is a [wasi:io/error]. *)
Inductive stream_error := STREAM_ERROR_CLOSED | LAST_OPERATION_FAILED (error : Z).

(** The options of a socket the host has functions for. *)
Inductive socket_option := KEEP_ALIVE_ENABLED | KEEP_ALIVE_IDLE_TIME | KEEP_ALIVE_INTERVAL | KEEP_ALIVE_COUNT | HOP_LIMIT
  | RECEIVE_BUFFER_SIZE | SEND_BUFFER_SIZE.

Inductive hostcall : Set -> Type :=
(* wasi:io *)
| poll_pollable_drop_own (h : Z) : hostcall unit
| poll_pollable_block (h : Z) : hostcall unit
| poll_poll (hs : list Z) : hostcall (list Z)
| monotonic_clock_subscribe_duration (d : Z) : hostcall Z
| streams_input_stream_drop_own (h : Z) : hostcall unit
| streams_output_stream_drop_own (h : Z) : hostcall unit
| streams_input_stream_read (h len : Z) : hostcall (list Z + stream_error)
| streams_input_stream_subscribe (h : Z) : hostcall Z
| streams_output_stream_check_write (h : Z) : hostcall (Z + stream_error)
| streams_output_stream_write (h : Z) (bytes : list Z) : hostcall (unit + stream_error)
| streams_output_stream_blocking_flush (h : Z) : hostcall (unit + stream_error)
| streams_output_stream_subscribe (h : Z) : hostcall Z
| io_error_drop_own (h : Z) : hostcall unit
| filesystem_error_code (h : Z) : hostcall (option Z)
(* wasi:cli *)
| stdin_get_stdin : hostcall Z
| stdout_get_stdout : hostcall Z
| stderr_get_stderr : hostcall Z
| terminal_get (fd : Z) : hostcall (option Z)
| terminal_drop_own (h : Z) : hostcall unit
(* wasi:filesystem *)
| filesystem_preopens_get_directories : hostcall (list (Z * cstr))
| descriptor_drop_own (h : Z) : hostcall unit
| descriptor_read_via_stream (h offset : Z) : hostcall (Z + Z)
| descriptor_write_via_stream (h offset : Z) : hostcall (Z + Z)
| descriptor_append_via_stream (h : Z) : hostcall (Z + Z)
| descriptor_advise (h offset len advice : Z) : hostcall (unit + Z)
| descriptor_sync (h : Z) : hostcall (unit + Z)
| descriptor_sync_data (h : Z) : hostcall (unit + Z)
| descriptor_get_flags (h : Z) : hostcall (Z + Z)
| descriptor_set_size (h len : Z) : hostcall (unit + Z)
| descriptor_set_times (h : Z) (atim mtim : new_timestamp) : hostcall (unit + Z)
| descriptor_read (h len offset : Z) : hostcall (list Z * bool + Z)
| descriptor_write (h : Z) (bytes : list Z) (offset : Z) : hostcall (Z + Z)
| descriptor_stat_ (h : Z) : hostcall (descriptor_stat + Z)
| descriptor_metadata_hash (h : Z) : hostcall (Z + Z)
| descriptor_stat_at (h flags : Z) (path : cstr) : hostcall (descriptor_stat + Z)
| descriptor_metadata_hash_at (h flags : Z) (path : cstr) : hostcall (Z + Z)
| descriptor_set_times_at (h flags : Z) (path : cstr) (atim mtim : new_timestamp) : hostcall (unit + Z)
| descriptor_create_directory_at (h : Z) (path : cstr) : hostcall (unit + Z)
| descriptor_link_at (h flags : Z) (path : cstr) (h2 : Z) (path2 : cstr) : hostcall (unit + Z)
| descriptor_open_at (h path_flags : Z) (path : cstr) (open_flags flags : Z) : hostcall (Z + Z)
| descriptor_readlink_at (h : Z) (path : cstr) : hostcall (cstr + Z)
| descriptor_remove_directory_at (h : Z) (path : cstr) : hostcall (unit + Z)
| descriptor_rename_at (h : Z) (path : cstr) (h2 : Z) (path2 : cstr) : hostcall (unit + Z)
| descriptor_symlink_at (h : Z) (path1 path2 : cstr) : hostcall (unit + Z)
| descriptor_unlink_file_at (h : Z) (path : cstr) : hostcall (unit + Z)
| descriptor_read_directory (h : Z) : hostcall (Z + Z)
| directory_entry_stream_read_directory_entry (h : Z) : hostcall (option (filetype * cstr) + Z)
| directory_entry_stream_drop_own (h : Z) : hostcall unit
(* wasi:sockets *)
| instance_network : hostcall Z
| create_tcp_socket (f : ip_address_family) : hostcall (Z + Z)
| tcp_start_bind (h network : Z) (a : ip_socket_address) : hostcall (unit + Z)
| tcp_finish_bind (h : Z) : hostcall (unit + Z)
| tcp_start_connect (h network : Z) (a : ip_socket_address) : hostcall (unit + Z)
| tcp_finish_connect (h : Z) : hostcall (Z * Z + Z)
| tcp_start_listen (h : Z) : hostcall (unit + Z)
| tcp_finish_listen (h : Z) : hostcall (unit + Z)
| tcp_accept (h : Z) : hostcall (Z * Z * Z + Z)
| tcp_local_address (h : Z) : hostcall (ip_socket_address + Z)
| tcp_remote_address (h : Z) : hostcall (ip_socket_address + Z)
| tcp_is_listening (h : Z) : hostcall bool
| tcp_set_listen_backlog_size (h value : Z) : hostcall (unit + Z)
| tcp_get_option (o : socket_option) (h : Z) : hostcall (Z + Z)
| tcp_set_option (o : socket_option) (h value : Z) : hostcall (unit + Z)
| tcp_subscribe (h : Z) : hostcall Z
| tcp_shutdown (h how : Z) : hostcall (unit + Z)
| tcp_socket_drop_own (h : Z) : hostcall unit
| create_udp_socket (f : ip_address_family) : hostcall (Z + Z)
| udp_start_bind (h network : Z) (a : ip_socket_address) : hostcall (unit + Z)
| udp_finish_bind (h : Z) : hostcall (unit + Z)
| udp_stream (h : Z) (remote : option ip_socket_address) : hostcall (Z * Z + Z)
| udp_local_address (h : Z) : hostcall (ip_socket_address + Z)
| udp_remote_address (h : Z) : hostcall (ip_socket_address + Z)
| udp_get_option (o : socket_option) (h : Z) : hostcall (Z + Z)
| udp_set_option (o : socket_option) (h value : Z) : hostcall (unit + Z)
| udp_subscribe (h : Z) : hostcall Z
| udp_socket_drop_own (h : Z) : hostcall unit
| incoming_datagram_stream_receive (h max : Z) : hostcall (list (list Z * ip_socket_address) + Z)
| incoming_datagram_stream_subscribe (h : Z) : hostcall Z
| incoming_datagram_stream_drop_own (h : Z) : hostcall unit
| outgoing_datagram_stream_check_send (h : Z) : hostcall (Z + Z)
| outgoing_datagram_stream_send (h : Z) (datagrams : list (list Z * option ip_socket_address)) : hostcall (Z + Z)
| outgoing_datagram_stream_subscribe (h : Z) : hostcall Z
| outgoing_datagram_stream_drop_own (h : Z) : hostcall unit.

Inductive event := Ev (R : Set) (c : hostcall R).
Arguments Ev {R} c.

Class Host := host : forall R : Set, list event -> hostcall R -> R.

(** States that record the calls made to the host. *)
Class Logged (S : Type) := {
  history : S -> list event;
  log : event -> S -> S;
}.

Definition ask `{Host} {St} `{Logged St} {R : Set} (c : hostcall R) : M St R :=
  fun s => Done (host R (history s) c) (log (Ev c) s).

(** The error code in an answer. *)
Definition sum_error {A} (r : A + Z) : option Z := match r with inl _ => None | inr e => Some e end.

Definition reply_error {R : Set} (c : hostcall R) : R -> option Z :=
  match c in hostcall R return R -> option Z with
  | filesystem_error_code _ => id
  | descriptor_read_via_stream _ _ => sum_error
  | descriptor_write_via_stream _ _ => sum_error
  | descriptor_append_via_stream _ => sum_error
  | descriptor_advise _ _ _ _ => sum_error
  | descriptor_sync _ => sum_error
  | descriptor_sync_data _ => sum_error
  | descriptor_get_flags _ => sum_error
  | descriptor_set_size _ _ => sum_error
  | descriptor_set_times _ _ _ => sum_error
  | descriptor_read _ _ _ => sum_error
  | descriptor_write _ _ _ => sum_error
  | descriptor_stat_ _ => sum_error
  | descriptor_metadata_hash _ => sum_error
  | descriptor_stat_at _ _ _ => sum_error
  | descriptor_metadata_hash_at _ _ _ => sum_error
  | descriptor_set_times_at _ _ _ _ _ => sum_error
  | descriptor_create_directory_at _ _ => sum_error
  | descriptor_link_at _ _ _ _ _ => sum_error
  | descriptor_open_at _ _ _ _ _ => sum_error
  | descriptor_readlink_at _ _ => sum_error
  | descriptor_remove_directory_at _ _ => sum_error
  | descriptor_rename_at _ _ _ _ => sum_error
  | descriptor_symlink_at _ _ _ => sum_error
  | descriptor_unlink_file_at _ _ => sum_error
  | descriptor_read_directory _ => sum_error
  | directory_entry_stream_read_directory_entry _ => sum_error
  | _ => fun _ => None
  end.

(** What the code relies on: an error code is a case of the [error-code]
    enumeration, handles are not 0, and a read respects its length. *)
Class HostLaws `{Host} : Prop := {
  host_error_code (R : Set) h (c : hostcall R) e : reply_error c (host R h c) = Some e -> 0 <= e <= 36;
  (* a handle is never 0 *)
  host_open_handle h d f p o fl x : host _ h (descriptor_open_at d f p o fl) = inl x -> x <> 0;
  host_preopen_handle h l : host _ h filesystem_preopens_get_directories = l -> Forall (fun d => fst d <> 0) l;
  (* a read gives at most the bytes asked for *)
  host_read_length h st n bytes : host _ h (streams_input_stream_read st n) = inl bytes -> strlen bytes <= Z.max 0 n;
}.

(** The error code in an answer of wasi:sockets. *)
Definition reply_net_error {R : Set} (c : hostcall R) : R -> option Z :=
  match c in hostcall R return R -> option Z with
  | create_tcp_socket _ => sum_error
  | tcp_start_bind _ _ _ => sum_error
  | tcp_finish_bind _ => sum_error
  | tcp_start_connect _ _ _ => sum_error
  | tcp_finish_connect _ => sum_error
  | tcp_start_listen _ => sum_error
  | tcp_finish_listen _ => sum_error
  | tcp_accept _ => sum_error
  | tcp_local_address _ => sum_error
  | tcp_remote_address _ => sum_error
  | tcp_set_listen_backlog_size _ _ => sum_error
  | tcp_get_option _ _ => sum_error
  | tcp_set_option _ _ _ => sum_error
  | tcp_shutdown _ _ => sum_error
  | create_udp_socket _ => sum_error
  | udp_start_bind _ _ _ => sum_error
  | udp_finish_bind _ => sum_error
  | udp_stream _ _ => sum_error
  | udp_local_address _ => sum_error
  | udp_remote_address _ => sum_error
  | udp_get_option _ _ => sum_error
  | udp_set_option _ _ _ => sum_error
  | incoming_datagram_stream_receive _ _ => sum_error
  | outgoing_datagram_stream_check_send _ => sum_error
  | outgoing_datagram_stream_send _ _ => sum_error
  | _ => fun _ => None
  end.

(** ** A host for concrete runs

    One file of ten bytes, the byte at position [i] being [i]; streams over it
    are numbered by the call that opened them. Everything else succeeds with
    nothing. *)

Definition demo_size : Z := 10.

(** The position of every input stream after the calls so far. *)
Fixpoint demo_positions (h : list event) (n : Z) (acc : list (Z * Z)) : list (Z * Z) :=
  match h with
  | [] => acc
  | Ev c :: rest =>
      demo_positions rest (n + 1)
        match c with
        | descriptor_read_via_stream _ off => (100 + n, off) :: acc
        | streams_input_stream_read st len =>
            (fun '(k, p) => (k, if k =? st then p + Z.max 0 (Z.min len (demo_size - p)) else p)) <$> acc
        | _ => acc
        end
  end.

Fixpoint assoc (k : Z) (l : list (Z * Z)) : Z :=
  match l with [] => 0 | (k', v) :: rest => if k' =? k then v else assoc k rest end.

Definition demo_bytes (p n : Z) : list Z := seqZ p (Z.max 0 (Z.min n (demo_size - p))).

Definition demo_stat : descriptor_stat := DescriptorStat REGULAR_FILE 1 demo_size None None None.

#[local] Instance demo_host : Host := fun R h c =>
  match c in hostcall R return R with
  | streams_input_stream_read st n =>
      let p := assoc st (demo_positions h 0 []) in
      if (0 <? n) && (demo_size <=? p) then inr STREAM_ERROR_CLOSED else inl (demo_bytes p n)
  | streams_output_stream_check_write _ => inl 4096
  | streams_output_stream_write _ _ | streams_output_stream_blocking_flush _ => inl tt
  | poll_poll _ => [0]
  | poll_pollable_drop_own _ | poll_pollable_block _ | streams_input_stream_drop_own _
  | streams_output_stream_drop_own _ | io_error_drop_own _ | terminal_drop_own _ | descriptor_drop_own _
  | directory_entry_stream_drop_own _ | tcp_socket_drop_own _ | udp_socket_drop_own _ | incoming_datagram_stream_drop_own _
  | outgoing_datagram_stream_drop_own _ => tt
  | monotonic_clock_subscribe_duration _ | streams_input_stream_subscribe _ | streams_output_stream_subscribe _
  | stdin_get_stdin | stdout_get_stdout | stderr_get_stderr | instance_network | tcp_subscribe _
  | udp_subscribe _ | incoming_datagram_stream_subscribe _ | outgoing_datagram_stream_subscribe _ => 200 + Z.of_nat (length h)
  | filesystem_error_code _ => None
  | terminal_get _ => None
  | filesystem_preopens_get_directories => [(3, lit "/"); (4, lit "/tmp")]
  | descriptor_read_via_stream _ _ | descriptor_write_via_stream _ _ | descriptor_append_via_stream _
  | descriptor_read_directory _ | descriptor_open_at _ _ _ _ _ => inl (100 + Z.of_nat (length h))
  | descriptor_get_flags _ => inl 3
  | descriptor_read _ n off => inl (demo_bytes off n, true)
  | descriptor_write _ bytes _ => inl (strlen bytes)
  | descriptor_stat_ _ | descriptor_stat_at _ _ _ => inl demo_stat
  | descriptor_metadata_hash _ => inl 77
  | descriptor_metadata_hash_at _ flags _ => inl (if flags =? 0 then 76 else 77)
  | descriptor_readlink_at _ _ => inl (lit "target")
  | directory_entry_stream_read_directory_entry _ => inl None
  | descriptor_advise _ _ _ _ | descriptor_sync _ | descriptor_sync_data _ | descriptor_set_size _ _
  | descriptor_set_times _ _ _ | descriptor_set_times_at _ _ _ _ _ | descriptor_create_directory_at _ _
  | descriptor_link_at _ _ _ _ _ | descriptor_remove_directory_at _ _ | descriptor_rename_at _ _ _ _
  | descriptor_symlink_at _ _ _ | descriptor_unlink_file_at _ _ | tcp_start_bind _ _ _ | tcp_finish_bind _ | tcp_start_connect _ _ _
  | tcp_start_listen _ | tcp_finish_listen _ | tcp_set_listen_backlog_size _ _ | tcp_set_option _ _ _ | tcp_shutdown _ _
  | udp_start_bind _ _ _ | udp_finish_bind _ | udp_set_option _ _ _ => inl tt
  | create_tcp_socket _ | create_udp_socket _ => inl (300 + Z.of_nat (length h))
  | tcp_finish_connect _ | udp_stream _ _ => inl (300 + Z.of_nat (length h), 400 + Z.of_nat (length h))
  | tcp_accept _ => inl (500 + Z.of_nat (length h), 300 + Z.of_nat (length h), 400 + Z.of_nat (length h))
  | tcp_local_address _ | tcp_remote_address _ | udp_local_address _ | udp_remote_address _ => inl (Ipv4SocketAddress 80 [127; 0; 0; 1])
  | tcp_is_listening _ => existsb (fun e => match e with Ev (tcp_finish_listen _) => true | _ => false end) h
  | tcp_get_option _ _ | udp_get_option _ _ | outgoing_datagram_stream_check_send _ | outgoing_datagram_stream_send _ _ => inl 1
  | incoming_datagram_stream_receive _ _ => inl [([1; 2; 3], Ipv4SocketAddress 53 [127; 0; 0; 1])]
  end.

Lemma demo_host_laws : @HostLaws demo_host.
Proof.
  split.
  - intros R h c e. by destruct c.
  - intros h d f p o fl x. unfold host, demo_host. intros [= <-]. lia.
  - intros h l. unfold host, demo_host. intros <-. by repeat constructor.
  - intros h st n bytes. unfold host, demo_host. destruct (_ && _); [done|]. intros [= <-]. unfold strlen, demo_bytes. rewrite length_seqZ. lia.
Qed.
