(* ===== verification/DescTable.v ===== *)
(** * The descriptor table

    sources/descriptor_table.c with the reference counting of
    headers/private/wasi/descriptor_table.h and the registration of the
    standard streams (sources/wasip2_stdio.c): the mapping from integer file
    descriptors to reference-counted objects that every wasip2 and wasip3
    descriptor goes through.

    [entries] is the malloc'd array, [heap] the malloc'd objects the entries
    point to. An object is reached through its pointer ([loc]); a pointer to
    an object that was freed is not in [heap], and using it is [Undef]. The
    locks of the source protect the table between threads; the model is one
    thread, in which they are free. Assertions are enabled. *)

From S2P Require Import Prelude Errno.

Abbreviation loc := nat (only parsing).

(** What the table needs of the objects stored in it: what [calloc] and the
    initialisation in [stdio_add] store, and the [free] slot of the vtable,
    which makes host calls of type [E] and may change [errno]. *)
Class Vtable (O E : Type) := {
  stdio_new : Z -> O;
  vtable_free : O -> env -> list E * env;
}.

(** ** State *)

Record descriptor_table_item_t := Item { occupied : bool; entry : loc }.
Add Printing Constructor descriptor_table_item_t.

(** An object with its [descriptor_refcnt_t]. *)
Record object (O : Type) := Object { cnt : Z; body : O }.
Arguments Object {O} cnt body.
Arguments cnt {O} _.
Arguments body {O} _.

Record dtable (O E : Type) := Dtable {
  dt_env : env;
  entries : list descriptor_table_item_t;
  len : Z;
  next_fd : Z;
  stdio_initialized : bool;
  live_descriptors : Z;
  heap : gmap nat (object O);
  brk : loc;           (* the next pointer [calloc] returns *)
  calls : list E;      (* host calls made by destructors *)
}.
Arguments Dtable {O E} dt_env entries len next_fd stdio_initialized live_descriptors heap brk calls.
Arguments dt_env {O E} _.
Arguments entries {O E} _.
Arguments len {O E} _.
Arguments next_fd {O E} _.
Arguments stdio_initialized {O E} _.
Arguments live_descriptors {O E} _.
Arguments heap {O E} _.
Arguments brk {O E} _.
Arguments calls {O E} _.

Section setters.
Context {O E : Type}.
Implicit Types s : dtable O E.
Definition set_env v s : dtable O E := Dtable v (entries s) (len s) (next_fd s) (stdio_initialized s) (live_descriptors s) (heap s) (brk s) (calls s).
Definition set_entries v s : dtable O E := Dtable (dt_env s) v (len s) (next_fd s) (stdio_initialized s) (live_descriptors s) (heap s) (brk s) (calls s).
Definition set_len v s : dtable O E := Dtable (dt_env s) (entries s) v (next_fd s) (stdio_initialized s) (live_descriptors s) (heap s) (brk s) (calls s).
Definition set_next_fd v s : dtable O E := Dtable (dt_env s) (entries s) (len s) v (stdio_initialized s) (live_descriptors s) (heap s) (brk s) (calls s).
Definition set_stdio_initialized v s : dtable O E := Dtable (dt_env s) (entries s) (len s) (next_fd s) v (live_descriptors s) (heap s) (brk s) (calls s).
Definition set_live v s : dtable O E := Dtable (dt_env s) (entries s) (len s) (next_fd s) (stdio_initialized s) v (heap s) (brk s) (calls s).
Definition set_heap v s : dtable O E := Dtable (dt_env s) (entries s) (len s) (next_fd s) (stdio_initialized s) (live_descriptors s) v (brk s) (calls s).
Definition set_brk v s : dtable O E := Dtable (dt_env s) (entries s) (len s) (next_fd s) (stdio_initialized s) (live_descriptors s) (heap s) v (calls s).
Definition set_calls v s : dtable O E := Dtable (dt_env s) (entries s) (len s) (next_fd s) (stdio_initialized s) (live_descriptors s) (heap s) (brk s) v.
End setters.

Global Instance dtable_libc O E : Libc (dtable O E) := {
  errno s := env_errno (dt_env s);
  with_errno e s := set_env (with_errno e (dt_env s)) s;
  take_alloc s := let (b, v) := take_alloc (dt_env s) in (b, set_env v s);
}.

Global Instance dtable_libc_laws O E : LibcLaws (dtable O E).
Proof. split; [done|]. by intros [[? [|? ?]] ? ? ? ? ? ? ? ?]. Qed.

(** [descriptor_table_t global_table = {0}], no object allocated. *)
Definition init_table {O E} (v : env) : dtable O E := Dtable v [] 0 0 false 0 ∅ 1%nat [].

Definition MINSIZE : Z := 8.
Definition MAX_DESCRIPTOR : Z := Z.shiftl 1 20.
(** [sizeof(descriptor_table_item_t)]: a [bool] and two pointers. *)
Definition ITEM_SIZE : Z := 12.

Section code.
Context {O E : Type} `{Vtable O E}.
Abbreviation MT := (M (dtable O E)).

(** ** Reference counts *)

Definition load (l : loc) : MT (object O) := h ← gets heap; deref (h !! l).
Definition store (l : loc) (o : object O) : MT unit := modify (fun s => set_heap (<[l := o]> (heap s)) s).

Definition live_descriptors_inc : MT unit := modify (fun s => set_live (u32 (live_descriptors s + 1)) s).
Definition live_descriptors_dec : MT unit :=
  n ← gets live_descriptors; assert_ (0 <? n) ;; modify (set_live (n - 1)).

Definition __wasilibc_descriptor_deallocate (e : loc) : MT unit :=
  o ← load e;
  assert_ (cnt o =? 0) ;;
  saved_errno ← gets errno;
  modify (fun s =>
    let (ops, v) := vtable_free (body o) (dt_env s) in
    set_heap (delete e (heap s)) (set_calls (calls s ++ ops) (set_env v s))) ;;
  set_errno saved_errno ;;
  live_descriptors_dec.

Definition descriptor_table_entry_inc (e : loc) : MT unit :=
  o ← load e;
  assert_ (0 <? cnt o) ;;
  store e (Object (u32 (cnt o + 1)) (body o)).

Definition descriptor_table_entry_dec (e : loc) : MT unit :=
  o ← load e;
  assert_ (0 <? cnt o) ;;
  store e (Object (cnt o - 1) (body o)) ;;
  if cnt o - 1 =? 0 then __wasilibc_descriptor_deallocate e else mret tt.

(** ** The slab *)

(** [while (new_len < needed) new_len *= 2]; after 32 doublings the value is
    0 and the loop would not end. *)
Fixpoint double_until (fuel : nat) (new_len needed : Z) : MT Z :=
  if new_len <? needed then
    match fuel with
    | 0%nat => halt Fuel
    | S fuel' => double_until fuel' (u32 (new_len * 2)) needed
    end
  else mret new_len.

Definition table_grow (needed : Z) : MT Z :=
  s ← get;
  if needed <=? len s then mret 0 else
  new_len ← double_until 32 (if len s =? 0 then MINSIZE else len s) needed;
  ok ← alloc_ok;
  if negb ok then fail_with ENOMEM (-1) else
  (* the bytes [realloc] was asked for hold the entries [memset] clears *)
  if negb (u32 (new_len * ITEM_SIZE) =? new_len * ITEM_SIZE) then halt Undef else
  modify (fun s => set_len new_len
    (set_entries (entries s ++ replicate (Z.to_nat (new_len - len s)) (Item false 0)) s)) ;;
  mret 0.

Definition slot (i : Z) : MT descriptor_table_item_t := l ← gets entries; deref (l !! Z.to_nat i).
Definition set_slot (i : Z) (it : descriptor_table_item_t) : MT unit :=
  modify (fun s => set_entries (<[Z.to_nat i := it]> (entries s)) s).

(** [while (fd < len && entries[fd].occupied) fd++] *)
Fixpoint skip_occupied (fuel : nat) (fd : Z) : MT Z :=
  n ← gets len;
  if fd <? n then
    it ← slot fd;
    if occupied it then
      match fuel with
      | 0%nat => halt Fuel
      | S fuel' => skip_occupied fuel' (fd + 1)
      end
    else mret fd
  else mret fd.

Definition table_allocate (e : loc) : MT Z :=
  s ← get;
  fd ← skip_occupied (length (entries s)) (next_fd s);
  rc ← (if fd =? len s then table_grow (len s + 1) else mret 0);
  if rc <? 0 then mret (-1) else
  slot fd ;;
  set_slot fd (Item true e) ;;
  modify (set_next_fd (fd + 1)) ;;
  mret fd.

Definition table_lookup (fd : Z) : MT (option loc) :=
  n ← gets len;
  if (fd <? 0) || (n <=? fd) then fail_with EBADF None else
  it ← slot fd;
  if negb (occupied it) then fail_with EBADF None else mret (Some (entry it)).

Definition table_remove (fd : Z) : MT (Z * loc) :=
  n ← gets len;
  if (fd <? 0) || (n <=? fd) then fail_with EBADF (-1, 0%nat) else
  it ← slot fd;
  if negb (occupied it) then fail_with EBADF (-1, 0%nat) else
  set_slot fd (Item false (entry it)) ;;
  modify (fun s => if fd <? next_fd s then set_next_fd fd s else s) ;;
  mret (0, entry it).

(** The loop of [clear], from index [i] on. *)
Fixpoint clear_loop (items : list descriptor_table_item_t) : MT unit :=
  match items with
  | [] => mret tt
  | it :: rest => (if occupied it then descriptor_table_entry_dec (entry it) else mret tt) ;; clear_loop rest
  end.

Definition clear : MT unit :=
  l ← gets entries;
  clear_loop l ;;
  modify (fun s => set_len 0 (set_next_fd 0 (set_entries [] s))).

(** ** The table's interface *)

Definition descriptor_table_insert_entry (e : loc) : MT Z :=
  o ← load e;
  assert_ (0 <? cnt o) ;;
  fd ← table_allocate e;
  if fd <? 0 then descriptor_table_entry_dec e ;; mret (-1) else mret fd.

(** [descriptor_table_insert]; the first call initialises the standard
    streams, which calls [descriptor_table_insert] again. [init] is that
    initialisation: [init_stdio] below, and nothing inside it, where
    [stdio_initialized] is already set. *)
Definition insert_with (init : MT Z) (e : loc) : MT Z :=
  o ← load e;
  assert_ (cnt o =? 0) ;;
  store e (Object 1 (body o)) ;;
  live_descriptors_inc ;;
  b ← gets stdio_initialized;
  rc ← (if (b : bool) then mret 0 else init);
  if rc <? 0 then descriptor_table_entry_dec e ;; mret (-1) else
  descriptor_table_insert_entry e.

(** [calloc] of an object whose fields are then set to [o]; the count is 0. *)
Definition new_object (o : O) : MT loc :=
  l ← gets brk;
  modify (fun s => set_brk (S l) (set_heap (<[l := Object 0 o]> (heap s)) s)) ;;
  mret l.

Definition stdio_add (insert : loc -> MT Z) (fd : Z) : MT Z :=
  ok ← alloc_ok;
  if negb ok then fail_with ENOMEM (-1) else
  e ← new_object (stdio_new fd);
  insert e.

Definition __wasilibc_init_stdio (insert : loc -> MT Z) : MT Z :=
  r0 ← stdio_add insert 0;
  if r0 <? 0 then mret (-1) else
  r1 ← stdio_add insert 1;
  if r1 <? 0 then mret (-1) else
  r2 ← stdio_add insert 2;
  if r2 <? 0 then mret (-1) else mret 0.

Definition init_stdio : MT Z :=
  modify (set_stdio_initialized true) ;;
  __wasilibc_init_stdio (insert_with (halt Fuel)).

Definition descriptor_table_insert (e : loc) : MT Z := insert_with init_stdio e.

(** [if (!stdio_initialized && init_stdio() < 0) return bad; rest] *)
Definition with_stdio {A} (bad : A) (rest : MT A) : MT A :=
  b ← gets stdio_initialized;
  rc ← (if (b : bool) then mret 0 else init_stdio);
  if rc <? 0 then mret bad else rest.

Definition descriptor_table_get (fd : Z) : MT (Z * option loc) :=
  with_stdio (-1, None) (
    p ← table_lookup fd;
    match (p : option loc) with
    | None => mret (-1, None)
    | Some e => descriptor_table_entry_inc e ;; mret (0, Some e)
    end).

Inductive dup_op_t := DUP_OP_DUP | DUP_OP_DUP2 | DUP_OP_DUP3 | DUP_OP_DUPFD.

(** The code of [case DUP_OP_DUP3], which [DUP_OP_DUP2] falls through to. *)
Definition dup3_case (fd : Z) (e : loc) (arg : Z) : MT Z :=
  if fd =? arg then fail_with EINVAL (-1) else
  if (arg <? 0) || (MAX_DESCRIPTOR <=? arg) then fail_with EBADF (-1) else
  rc ← table_grow (arg + 1);
  if rc <? 0 then mret (-1) else
  it ← slot arg;
  descriptor_table_entry_inc e ;;
  (if occupied it then
     set_slot arg (Item true e) ;; descriptor_table_entry_dec (entry it)
   else set_slot arg (Item true e)) ;;
  mret arg.

Definition dupfd_case (e : loc) (arg : Z) : MT Z :=
  if (arg <? 0) || (MAX_DESCRIPTOR <=? arg) then fail_with EINVAL (-1) else
  s ← get;
  minfd ← skip_occupied (length (entries s)) (Z.max arg (next_fd s));
  rc ← table_grow (minfd + 1);
  if rc <? 0 then mret (-1) else
  descriptor_table_entry_inc e ;;
  slot minfd ;;
  set_slot minfd (Item true e) ;;
  mret minfd.

Definition descriptor_table_dup (fd : Z) (op : dup_op_t) (arg : Z) : MT Z :=
  with_stdio (-1) (
    p ← table_lookup fd;
    match (p : option loc) with
    | None => mret (-1)
    | Some e =>
        match op with
        | DUP_OP_DUP => descriptor_table_entry_inc e ;; descriptor_table_insert_entry e
        | DUP_OP_DUP2 => if fd =? arg then mret arg else dup3_case fd e arg
        | DUP_OP_DUP3 => dup3_case fd e arg
        | DUP_OP_DUPFD => dupfd_case e arg
        end
    end).

Definition descriptor_table_remove (fd : Z) : MT Z :=
  with_stdio (-1) (
    r ← table_remove fd;
    let '(rc, e) := r in
    if rc <? 0 then mret (-1) else descriptor_table_entry_dec e ;; mret 0).

Definition descriptor_table_clear : MT unit :=
  clear ;; modify (set_stdio_initialized false).

(** The loop of [__wasilibc_assert_no_descriptor_leaks]: closes everything
    but the standard streams; returns how many of those are open. *)
Fixpoint leak_loop (i : Z) (n : nat) (stdio_open : Z) : MT Z :=
  match n with
  | 0%nat => mret stdio_open
  | S n' =>
      it ← slot i;
      if occupied it then
        if i <? 3 then leak_loop (i + 1) n' (stdio_open + 1)
        else
          rc ← descriptor_table_remove i;
          assert_ (rc =? 0) ;;
          leak_loop (i + 1) n' stdio_open
      else leak_loop (i + 1) n' stdio_open
  end.

Definition __wasilibc_assert_no_descriptor_leaks : MT unit :=
  b ← gets stdio_initialized;
  if negb b then n ← gets live_descriptors; assert_ (n =? 0) else
  n ← gets len;
  stdio_open ← leak_loop 0 (Z.to_nat n) 0;
  live ← gets live_descriptors;
  if live =? stdio_open then mret tt else halt Trap.
End code.
