(* ===== verification/DescTableInv.v ===== *)
(** * The descriptor table: invariant

    The reference-count invariant of DescTable, the meaning of the slab as a
    map from descriptors to objects, and for each internal routine the state
    it leaves: these are the lemmas the properties of DescTableSpec use. *)

From S2P Require Import Prelude Errno DescTable.

(** ** Counting references *)

Definition ref1 (it : descriptor_table_item_t) (l : loc) : Z :=
  if occupied it && (entry it =? l)%nat then 1 else 0.

(** The number of occupied slots that point to [l]. *)
Fixpoint refs (items : list descriptor_table_item_t) (l : loc) : Z :=
  match items with
  | [] => 0
  | it :: rest => ref1 it l + refs rest l
  end.

(** The number of strong references to [l] the callers hold. *)
Fixpoint holds (held : list loc) (l : loc) : Z :=
  match held with
  | [] => 0
  | x :: rest => (if (x =? l)%nat then 1 else 0) + holds rest l
  end.

Lemma ref1_range it l : 0 <= ref1 it l <= 1.
Proof. unfold ref1. case_match; lia. Qed.

Lemma refs_range items l : 0 <= refs items l <= Z.of_nat (length items).
Proof. induction items as [|it items IH]; simpl; [lia|]. pose proof (ref1_range it l). lia. Qed.

Lemma holds_range held l : 0 <= holds held l <= Z.of_nat (length held).
Proof. induction held as [|x held IH]; simpl; [lia|]. case_match; lia. Qed.

Lemma refs_app a b l : refs (a ++ b) l = refs a l + refs b l.
Proof. induction a; simpl; lia. Qed.

Lemma refs_free n e l : refs (replicate n (Item false e)) l = 0.
Proof. induction n; simpl; [done|]. unfold ref1 at 1. simpl. lia. Qed.

Lemma refs_insert items i it it' l :
  items !! i = Some it -> refs (<[i := it']> items) l = refs items l - ref1 it l + ref1 it' l.
Proof.
  revert i. induction items as [|x items IH]; intros [|i] Hi; simplify_eq/=; [lia|].
  rewrite (IH i) by done. lia.
Qed.

Lemma refs_occupied items i it : items !! i = Some it -> occupied it = true -> 0 < refs items (entry it).
Proof.
  intros Hi Ho. pose proof (refs_insert items i it (Item false 0) (entry it) Hi) as Hr.
  pose proof (refs_range (<[i := Item false 0]> items) (entry it)).
  unfold ref1 in Hr. rewrite Ho, Nat.eqb_refl in Hr. simpl in Hr. lia.
Qed.

Lemma refs_elem items l : 0 < refs items l -> exists i it, items !! i = Some it /\ occupied it = true /\ entry it = l.
Proof.
  induction items as [|x items IH]; simpl; [lia|]. intros Hr.
  destruct (decide (0 < refs items l)) as [Hp|Hn].
  - destruct (IH Hp) as (i & it & ? & ? & ?). by exists (S i), it.
  - exists 0%nat, x. pose proof (refs_range items l). unfold ref1 in Hr.
    destruct (occupied x); [|simpl in Hr; lia]. destruct (Nat.eqb_spec (entry x) l); [done|simpl in Hr; lia].
Qed.

(** Pointers that are referenced from somewhere: the occupied slots and the callers. *)
Definition roots (items : list descriptor_table_item_t) (held : list loc) : list loc :=
  map entry (filter (fun it => occupied it = true) items) ++ held.

Lemma length_roots items held : (length (roots items held) <= length items + length held)%nat.
Proof. unfold roots. rewrite length_app, length_map. pose proof (length_filter (fun it => occupied it = true) items). lia. Qed.

Lemma elem_of_roots items held l : 0 < refs items l + holds held l -> l ∈ roots items held.
Proof.
  unfold roots. intros Hp. rewrite elem_of_app.
  destruct (decide (0 < refs items l)) as [(i & it & Hi & Ho & <-)%refs_elem|Hn].
  - left. apply list_elem_of_In, in_map, list_elem_of_In, list_elem_of_filter.
    split; [done|]. apply list_elem_of_lookup. eauto.
  - right. assert (0 < holds held l) as Hh by lia. clear -Hh.
    induction held as [|x held IH]; simpl in *; [lia|].
    destruct (Nat.eqb_spec x l) as [->|]; [by left|right; apply IH; lia].
Qed.

(** ** The invariant

    [WF held] relates the fields of the table while the callers hold the
    strong references [held]: the array has [len] entries; everything below
    the hint is occupied; the count of an object is the number of slots and
    callers that refer to it, an object nobody refers to is not allocated,
    and an object somebody refers to is; [live_descriptors] is the number of
    allocated objects. *)
Record WF {O} (held : list loc) (items : list descriptor_table_item_t) (n nx live : Z)
    (h : gmap nat (object O)) (b : loc) : Prop := mkWF {
  wf_len : Z.of_nat (length items) = n;
  wf_next : 0 <= nx <= n;
  wf_below : forall i it, (i < Z.to_nat nx)%nat -> items !! i = Some it -> occupied it = true;
  wf_cnt : forall l o, h !! l = Some o -> cnt o = refs items l + holds held l /\ 0 < cnt o;
  wf_dom : forall l, 0 < refs items l + holds held l -> is_Some (h !! l);
  wf_live : live = Z.of_nat (size h);
  wf_brk : forall l, (b <= l)%nat -> h !! l = None;
}.

Definition wf {O E} (held : list loc) (s : dtable O E) : Prop :=
  WF held (entries s) (len s) (next_fd s) (live_descriptors s) (heap s) (brk s).

(** The sizes at which nothing of width 32 wraps. *)
Definition small {O E} (held : list loc) (s : dtable O E) : Prop :=
  len s <= 2 ^ 27 /\ Z.of_nat (length held) <= 2 ^ 30.

Lemma size_heap_roots {O} held items n nx live (h : gmap nat (object O)) b :
  WF held items n nx live h b -> (size h <= length (roots items held))%nat.
Proof.
  intros W. rewrite <- size_dom. unfold size, set_size; simpl.
  apply NoDup_incl_length; [apply NoDup_ListNoDup, NoDup_elements|].
  intros l Hl%list_elem_of_In. apply elem_of_elements, elem_of_dom in Hl as [o Ho].
  apply list_elem_of_In, elem_of_roots. destruct (wf_cnt _ _ _ _ _ _ _ W l o Ho). lia.
Qed.

(** ** The open descriptors *)

Fixpoint fd_map_from (i : Z) (items : list descriptor_table_item_t) : gmap Z nat :=
  match items with
  | [] => ∅
  | it :: rest =>
      if occupied it then <[i := entry it]> (fd_map_from (i + 1) rest) else fd_map_from (i + 1) rest
  end.

(** What the table means: the open descriptors and the objects they refer to. *)
Definition open_fds {O E} (s : dtable O E) : gmap Z nat := fd_map_from 0 (entries s).

Definition slot_entry (o : option descriptor_table_item_t) : option nat :=
  match o with Some it => if occupied it then Some (entry it) else None | None => None end.

Lemma lookup_fd_map_from i items k :
  fd_map_from i items !! k = if k <? i then None else slot_entry (items !! Z.to_nat (k - i)).
Proof.
  revert i. induction items as [|it items IH]; intros i; simpl.
  { rewrite lookup_empty. by case_match. }
  destruct (Z.ltb_spec k i) as [Hlt|Hge].
  - case_match; rewrite ?lookup_insert_ne, IH by lia; by replace (k <? i + 1) with true by lia.
  - destruct (decide (k = i)) as [->|Hne].
    + rewrite Z.sub_diag; simpl. case_match; rewrite ?lookup_insert_eq; [done|].
      rewrite IH. by replace (i <? i + 1) with true by lia.
    + replace (Z.to_nat (k - i)) with (S (Z.to_nat (k - (i + 1)))) by lia. simpl.
      case_match; rewrite ?lookup_insert_ne, IH by lia; by replace (k <? i + 1) with false by lia.
Qed.

Lemma lookup_open_fds {O E} (s : dtable O E) k :
  open_fds s !! k = if k <? 0 then None else slot_entry (entries s !! Z.to_nat k).
Proof. unfold open_fds. rewrite lookup_fd_map_from. by rewrite Z.sub_0_r. Qed.

Lemma open_fds_set_slot items i it :
  0 <= i < Z.of_nat (length items) ->
  fd_map_from 0 (<[Z.to_nat i := it]> items) =
  if occupied it then <[i := entry it]> (fd_map_from 0 items) else delete i (fd_map_from 0 items).
Proof.
  intros Hi. apply map_eq. intros k. rewrite lookup_fd_map_from, Z.sub_0_r.
  destruct (decide (k = i)) as [->|Hne].
  - replace (i <? 0) with false by lia. rewrite list_lookup_insert_eq by lia. simpl.
    case_match; by rewrite ?lookup_insert_eq, ?lookup_delete_eq.
  - transitivity (fd_map_from 0 items !! k).
    + rewrite lookup_fd_map_from, Z.sub_0_r. destruct (Z.ltb_spec k 0); [done|].
      by rewrite list_lookup_insert_ne by lia.
    + case_match; by rewrite ?lookup_insert_ne, ?lookup_delete_ne.
Qed.

Lemma fd_map_from_free i items n e : fd_map_from i (items ++ replicate n (Item false e)) = fd_map_from i items.
Proof.
  revert i. induction items as [|it items IH]; intros i; simpl; [|by rewrite IH].
  revert i. induction n; intros i; simpl; auto.
Qed.

Section proofs.
Context {O E : Type} `{Vtable O E}.
Implicit Types s : dtable O E.

(** ** Counting up and down *)

Definition fits (held : list loc) s : Prop := len s + Z.of_nat (length held) < 2 ^ 31.

Lemma small_fits held s : small held s -> fits held s.
Proof. unfold small, fits. lia. Qed.

Lemma WF_cnt_range held items n nx live (h : gmap nat (object O)) b l o :
  WF held items n nx live h b -> n + Z.of_nat (length held) < 2 ^ 31 -> h !! l = Some o -> 0 < cnt o < 2 ^ 31.
Proof.
  intros W Hf Ho. destruct (wf_cnt _ _ _ _ _ _ _ W l o Ho) as [Hc Hp]. split; [done|].
  pose proof (refs_range items l). pose proof (holds_range held l).
  pose proof (wf_len _ _ _ _ _ _ _ W). lia.
Qed.

Lemma WF_live_range held items n nx live (h : gmap nat (object O)) b :
  WF held items n nx live h b -> n + Z.of_nat (length held) < 2 ^ 31 -> 0 <= live < 2 ^ 31.
Proof.
  intros W Hf. pose proof (size_heap_roots _ _ _ _ _ _ _ W) as Hs.
  pose proof (length_roots items held). pose proof (wf_live _ _ _ _ _ _ _ W) as ->.
  pose proof (wf_len _ _ _ _ _ _ _ W). lia.
Qed.

Lemma wf_cnt_range held s l o : wf held s -> fits held s -> heap s !! l = Some o -> 0 < cnt o < 2 ^ 31.
Proof. apply WF_cnt_range. Qed.

Lemma wf_live_range held s : wf held s -> fits held s -> 0 <= live_descriptors s < 2 ^ 31.
Proof. apply WF_live_range. Qed.

Lemma entry_inc_spec held s l o :
  wf held s -> fits held s -> heap s !! l = Some o ->
  let s' := set_heap (<[l := Object (cnt o + 1) (body o)]> (heap s)) s in
  descriptor_table_entry_inc l s = Done tt s' /\ wf (l :: held) s'.
Proof.
  intros W Hf Ho s'. pose proof (wf_cnt_range held s l o W Hf Ho) as Hc. split.
  - unfold descriptor_table_entry_inc, load, store, mbind, M_bind, gets; simpl. rewrite Ho. simpl.
    replace (0 <? cnt o) with true by lia. simpl. unfold modify. by rewrite u32_small by lia.
  - destruct W as [? ? ? Wc Wd ? Wb]. constructor; simpl; try done.
    + intros l' o'. rewrite lookup_insert. destruct (decide (l = l')) as [<-|Hne].
      * intros [= <-]. simpl. rewrite Nat.eqb_refl. destruct (Wc l o Ho). lia.
      * intros Ho'. destruct (Nat.eqb_spec l l'); [done|]. destruct (Wc l' o' Ho'). lia.
    + intros l' Hp. rewrite lookup_insert. destruct (decide (l = l')) as [<-|Hne]; [done|].
      apply Wd. destruct (Nat.eqb_spec l l'); [done|lia].
    + rewrite map_size_insert_Some; [done|by rewrite Ho].
    + intros l' Hl'. rewrite lookup_insert_ne; [by apply Wb|]. intros ->. rewrite Wb in Ho; done.
Qed.

(** The state after dropping one reference to [l]: the count goes down, or the
    destructor runs and the object is gone. [errno] is restored around the
    destructor. *)
Definition release (l : loc) s : dtable O E :=
  match heap s !! l with
  | Some o =>
      if cnt o =? 1 then
        let (ops, v) := vtable_free (body o) (dt_env s) in
        set_live (live_descriptors s - 1)
          (set_env (with_errno (errno s) v) (set_calls (calls s ++ ops) (set_heap (delete l (heap s)) s)))
      else set_heap (<[l := Object (cnt o - 1) (body o)]> (heap s)) s
  | None => s
  end.

Lemma release_frame l s :
  entries (release l s) = entries s /\ len (release l s) = len s /\ next_fd (release l s) = next_fd s /\
  stdio_initialized (release l s) = stdio_initialized s /\ errno (release l s) = errno s /\
  brk (release l s) = brk s /\ open_fds (release l s) = open_fds s.
Proof.
  unfold release. case_match; [|done]. case_match; [|done].
  by destruct (vtable_free _ _) as [ops v].
Qed.

(** An object a caller holds a reference to is allocated. *)
Lemma WF_held held items n nx live (h : gmap nat (object O)) b l :
  WF (l :: held) items n nx live h b -> exists o, h !! l = Some o.
Proof.
  intros W. apply (wf_dom _ _ _ _ _ _ _ W). simpl. rewrite Nat.eqb_refl.
  pose proof (refs_range items l). pose proof (holds_range held l). lia.
Qed.

(** Dropping a reference, whatever array the references are counted in. *)
Lemma dec_release_items held items n nx s l :
  WF (l :: held) items n nx (live_descriptors s) (heap s) (brk s) ->
  n + Z.of_nat (length (l :: held)) < 2 ^ 31 ->
  descriptor_table_entry_dec l s = Done tt (release l s).
Proof.
  intros W Hf. destruct (WF_held _ _ _ _ _ _ _ _ W) as [o Ho].
  pose proof (WF_cnt_range _ _ _ _ _ _ _ l o W Hf Ho) as Hc. pose proof (WF_live_range _ _ _ _ _ _ _ W Hf) as Hl.
  assert (0 < live_descriptors s) as Hlive.
  { pose proof (wf_live _ _ _ _ _ _ _ W) as Hlv. destruct (decide (size (heap s) = 0%nat)) as [Hz|]; [|lia].
    apply map_size_empty_inv in Hz. by rewrite Hz in Ho. }
  unfold descriptor_table_entry_dec, release, load, store, mbind, M_bind, gets; simpl.
  rewrite Ho. simpl. replace (0 <? cnt o) with true by lia. simpl.
  destruct (Z.eqb_spec (cnt o) 1) as [E1|Ne].
  - rewrite E1. simpl. unfold __wasilibc_descriptor_deallocate, load, mbind, M_bind, gets, modify; simpl.
    rewrite lookup_insert_eq. simpl. destruct (vtable_free (body o) (dt_env s)) as [ops v] eqn:Ev. simpl.
    unfold live_descriptors_dec, mbind, M_bind, gets; simpl. replace (0 <? live_descriptors s) with true by lia.
    simpl. unfold modify. rewrite delete_insert_eq. done.
  - replace (cnt o - 1 =? 0) with false by lia. done.
Qed.

Lemma release_items held items n nx s l :
  WF (l :: held) items n nx (live_descriptors s) (heap s) (brk s) ->
  WF held items n nx (live_descriptors (release l s)) (heap (release l s)) (brk (release l s)).
Proof.
  intros W. destruct (WF_held _ _ _ _ _ _ _ _ W) as [o Ho].
  unfold release. rewrite Ho. destruct W as [? ? ? Wc Wd Wl Wb].
  destruct (Wc l o Ho) as [Hc Hpos]. simpl in Hc. rewrite Nat.eqb_refl in Hc.
  destruct (Z.eqb_spec (cnt o) 1) as [E1|Ne].
  - destruct (vtable_free (body o) (dt_env s)) as [ops v]. constructor; simpl; try done.
    + intros l' o'. rewrite lookup_delete. case_decide; [done|]. intros Ho'. destruct (Wc l' o' Ho') as [Hc' ?].
      simpl in Hc'. destruct (Nat.eqb_spec l l'); [done|lia].
    + intros l' Hp. rewrite lookup_delete. case_decide; [subst; lia|]. apply Wd. simpl.
      destruct (Nat.eqb_spec l l'); [done|lia].
    + rewrite Wl, map_size_delete, Ho. assert (size (heap s) <> 0%nat); [|lia].
      intros Hz%map_size_empty_inv. by rewrite Hz in Ho.
    + intros l' Hl'. rewrite lookup_delete. case_decide; [done|]. by apply Wb.
  - constructor; simpl; try done.
    + intros l' o'. rewrite lookup_insert. destruct (decide (l = l')) as [<-|Hne].
      * intros [= <-]. simpl. lia.
      * intros Ho'. destruct (Wc l' o' Ho') as [Hc' ?]. simpl in Hc'. destruct (Nat.eqb_spec l l'); [done|lia].
    + intros l' Hp. rewrite lookup_insert. case_decide; [done|]. apply Wd. simpl.
      destruct (Nat.eqb_spec l l'); [done|lia].
    + rewrite map_size_insert_Some; [done|by rewrite Ho].
    + intros l' Hl'. rewrite lookup_insert_ne; [by apply Wb|]. intros ->. rewrite Wb in Ho; done.
Qed.

Lemma entry_dec_release held s l :
  wf (l :: held) s -> fits (l :: held) s -> descriptor_table_entry_dec l s = Done tt (release l s).
Proof. apply dec_release_items. Qed.

Lemma wf_release held s l : wf (l :: held) s -> wf held (release l s).
Proof.
  intros W. unfold wf. destruct (release_frame l s) as (-> & -> & -> & _).
  by apply release_items.
Qed.

(** ** Growing and searching the slab *)

Lemma double_until_spec fuel n needed s :
  0 < n <= 2 ^ 29 -> needed <= 2 ^ 28 -> needed <= n * 2 ^ Z.of_nat fuel ->
  exists r, double_until fuel n needed s = Done r s /\ needed <= r /\ n <= r /\ (r = n \/ r < 2 * needed).
Proof.
  revert n. induction fuel as [|fuel IH]; intros n Hn Hb Hf; cbn [double_until].
  - destruct (Z.ltb_spec n needed); [simpl in Hf; lia|]. exists n. repeat split; [lia..|by left].
  - destruct (Z.ltb_spec n needed); [|exists n; repeat split; [lia..|by left]].
    rewrite u32_small by lia. destruct (IH (n * 2)) as (r & -> & ? & ? & ?); [lia|lia| |].
    { rewrite Nat2Z.inj_succ, Z.pow_succ_r in Hf by lia. lia. }
    exists r. repeat split; lia.
Qed.

Lemma alloc_ok_table s : exists b v, alloc_ok s = Done b (set_env v s) /\ env_errno v = errno s.
Proof.
  unfold alloc_ok; simpl. pose proof (errno_take_alloc (dt_env s)) as He.
  destruct (env_allocs (dt_env s)) as [|b rest]; [exists true, (dt_env s)|by exists b, (Env (env_errno (dt_env s)) rest)].
  by destruct s.
Qed.

(** What growing leaves alone. *)
Definition grow_frame s s' : Prop :=
  heap s' = heap s /\ brk s' = brk s /\ live_descriptors s' = live_descriptors s /\ calls s' = calls s /\
  next_fd s' = next_fd s /\ stdio_initialized s' = stdio_initialized s /\ open_fds s' = open_fds s.

Lemma table_grow_spec held s needed :
  wf held s -> len s <= 2 ^ 27 -> 0 < needed <= 2 ^ 27 + 1 ->
  exists rc s', table_grow needed s = Done rc s' /\ wf held s' /\ grow_frame s s' /\
    len s <= len s' <= Z.max (len s) (2 * needed + 8) /\
    (rc = 0 /\ needed <= len s' /\ errno s' = errno s /\
       (exists k, entries s' = entries s ++ replicate k (Item false 0))
     \/ rc = -1 /\ len s < needed /\ errno s' = ENOMEM /\ entries s' = entries s /\ len s' = len s).
Proof.
  intros W Hlen Hn. pose proof (wf_len _ _ _ _ _ _ _ W) as Wl. pose proof (wf_next _ _ _ _ _ _ _ W) as Wn.
  unfold table_grow, get, mbind, M_bind. destruct (Z.leb_spec needed (len s)).
  { exists 0, s. unfold grow_frame. split_and!; try done; try lia. left. split_and!; try done.
    exists 0%nat. by rewrite app_nil_r. }
  set (n0 := if len s =? 0 then MINSIZE else len s).
  assert (0 < n0 <= 2 ^ 28 /\ n0 <= len s + 8 /\ len s <= n0) as (Hn0 & Hn1 & Hn2)
    by (subst n0; unfold MINSIZE; case_match; lia).
  destruct (double_until_spec 32 n0 needed s) as (r & -> & ? & ? & ?); [lia|lia| |].
  { change (Z.of_nat 32) with 32. lia. }
  destruct (alloc_ok_table s) as (b & v & -> & Hv). destruct b; simpl.
  - unfold ITEM_SIZE. rewrite u32_small, Z.eqb_refl by lia. simpl.
    exists 0. eexists. split; [reflexivity|]. unfold grow_frame; simpl. split_and!; try done; try lia.
    + destruct W as [? ? Wb Wc Wd ? ?]. constructor; simpl; try done.
      * rewrite length_app, length_replicate. lia.
      * lia.
      * intros i it Hi. rewrite lookup_app_l; [by apply Wb|lia].
      * intros l o Ho. rewrite refs_app, refs_free. destruct (Wc l o Ho). lia.
      * intros l. rewrite refs_app, refs_free, Z.add_0_r. apply Wd.
    + unfold open_fds; simpl. apply fd_map_from_free.
    + left. split_and!; try done. by eauto.
  - exists (-1). eexists. split; [reflexivity|]. unfold grow_frame; simpl. split_and!; try done; try lia.
    right. done.
Qed.

Lemma skip_occupied_spec fuel fd s :
  len s = Z.of_nat (length (entries s)) -> 0 <= fd <= len s \/ len s <= fd -> (length (entries s) - Z.to_nat fd <= fuel)%nat ->
  0 <= fd ->
  exists r, skip_occupied fuel fd s = Done r s /\ fd <= r /\ r <= Z.max fd (len s) /\
    (forall j, fd <= j < r -> is_Some (open_fds s !! j)) /\ open_fds s !! r = None.
Proof.
  intros Hl _ Hf Hfd. revert fd Hf Hfd. induction fuel as [|fuel IH]; intros fd Hf Hfd; cbn [skip_occupied];
    unfold gets, mbind, M_bind; destruct (Z.ltb_spec fd (len s)) as [Hlt|Hge]; try lia.
  1, 3: exists fd; split_and!; [done|lia|lia|lia|];
    rewrite lookup_open_fds; replace (fd <? 0) with false by lia;
    by rewrite lookup_ge_None_2 by lia.
  destruct (lookup_lt_is_Some_2 (entries s) (Z.to_nat fd)) as [it Hit]; [lia|].
  unfold slot, gets, mbind, M_bind. rewrite Hit. simpl.
  destruct (occupied it) eqn:Ho.
  - destruct (IH (fd + 1)) as (r & -> & ? & ? & Hall & ?); [lia|lia|].
    exists r. split_and!; [done|lia|lia| |done]. intros j Hj. destruct (decide (j = fd)) as [->|]; [|apply Hall; lia].
    rewrite lookup_open_fds. replace (fd <? 0) with false by lia. rewrite Hit. simpl. by rewrite Ho.
  - exists fd. split_and!; [done|lia|lia|lia|]. rewrite lookup_open_fds. replace (fd <? 0) with false by lia.
    rewrite Hit. simpl. by rewrite Ho.
Qed.

Lemma slot_spec s i it : entries s !! Z.to_nat i = Some it -> slot i s = Done it s.
Proof. intros Hi. unfold slot, gets, mbind, M_bind. by rewrite Hi. Qed.

(** Filling the free slot [fd] hands the reference [e] over to the table. *)
Lemma wf_fill held s e fd it nx :
  wf (e :: held) s -> entries s !! Z.to_nat fd = Some it -> occupied it = false -> 0 <= fd ->
  (nx = next_fd s \/ nx = fd + 1 /\ next_fd s <= fd /\ (forall j, next_fd s <= j < fd -> is_Some (open_fds s !! j))) ->
  wf held (set_next_fd nx (set_entries (<[Z.to_nat fd := Item true e]> (entries s)) s)).
Proof.
  intros W Hit Ho Hfd Hnx. pose proof (lookup_lt_Some _ _ _ Hit) as Hlt. destruct W as [Wl Wn Wb Wc Wd ? ?].
  assert (forall l, refs (<[Z.to_nat fd := Item true e]> (entries s)) l + holds held l =
                    refs (entries s) l + holds (e :: held) l) as Hrefs.
  { intros l. rewrite (refs_insert _ _ it) by done. unfold ref1. rewrite Ho. simpl. lia. }
  constructor; simpl; try done.
  - by rewrite length_insert.
  - destruct Hnx as [->|(-> & ? & _)]; lia.
  - intros i it' Hi. rewrite list_lookup_insert. case_decide as Hd; [intros; simplify_eq; done|].
    intros Hit'. destruct Hnx as [->|(-> & ? & Hall)]; [by eapply Wb|].
    destruct (decide (i < Z.to_nat (next_fd s))%nat); [by eapply Wb|].
    destruct (Hall (Z.of_nat i)) as [e' He]; [lia|]. rewrite lookup_open_fds in He.
    replace (Z.of_nat i <? 0) with false in He by (symmetry; apply Z.ltb_ge; lia).
    rewrite Nat2Z.id, Hit' in He. simpl in He. by destruct (occupied it').
  - intros l o Ho'. destruct (Wc l o Ho'). rewrite Hrefs. done.
  - intros l. rewrite Hrefs. apply Wd.
Qed.

Lemma open_free_slot s fd : 0 <= fd < Z.of_nat (length (entries s)) -> open_fds s !! fd = None ->
  exists it, entries s !! Z.to_nat fd = Some it /\ occupied it = false.
Proof.
  intros Hfd Hnone. destruct (lookup_lt_is_Some_2 (entries s) (Z.to_nat fd)) as [it Hit]; [lia|].
  exists it. split; [done|]. rewrite lookup_open_fds in Hnone. replace (fd <? 0) with false in Hnone by lia.
  rewrite Hit in Hnone. simpl in Hnone. by destruct (occupied it).
Qed.

Lemma wf_below_open held s j : wf held s -> 0 <= j < next_fd s -> is_Some (open_fds s !! j).
Proof.
  intros W Hj. pose proof (wf_len _ _ _ _ _ _ _ W). pose proof (wf_next _ _ _ _ _ _ _ W).
  destruct (lookup_lt_is_Some_2 (entries s) (Z.to_nat j)) as [it Hit]; [lia|].
  rewrite lookup_open_fds. replace (j <? 0) with false by lia. rewrite Hit. simpl.
  rewrite (wf_below _ _ _ _ _ _ _ W (Z.to_nat j) it); [done|lia|done].
Qed.

(** [table_allocate] puts the entry in the lowest free slot, or fails with
    [ENOMEM] and leaves the table as it is. *)
Lemma table_allocate_spec held s e :
  wf (e :: held) s -> len s <= 2 ^ 27 ->
  exists fd s', table_allocate e s = Done fd s' /\ heap s' = heap s /\ brk s' = brk s /\ calls s' = calls s /\
    stdio_initialized s' = stdio_initialized s /\ len s' <= Z.max (len s) (2 * Z.min fd (len s) + 10) /\
    (0 <= fd /\ open_fds s !! fd = None /\ (forall j, 0 <= j < fd -> is_Some (open_fds s !! j)) /\
       open_fds s' = <[fd := e]> (open_fds s) /\ errno s' = errno s /\ wf held s'
     \/ fd = -1 /\ errno s' = ENOMEM /\ open_fds s' = open_fds s /\ len s' = len s /\ wf (e :: held) s').
Proof.
  intros W Hlen. pose proof (wf_len _ _ _ _ _ _ _ W) as Wl. pose proof (wf_next _ _ _ _ _ _ _ W) as Wn.
  unfold table_allocate, get. unfold mbind at 1, M_bind at 1.
  destruct (skip_occupied_spec (length (entries s)) (next_fd s) s) as (fd & Hskip & ? & ? & Hall & Hnone); [lia..|].
  rewrite (bind_done _ _ _ _ _ Hskip).
  assert (forall j, 0 <= j < fd -> is_Some (open_fds s !! j)) as Hlow.
  { intros j Hj. destruct (decide (j < next_fd s)); [eapply wf_below_open; [done|lia]|apply Hall; lia]. }
  assert (exists rc s1, (if fd =? len s then table_grow (len s + 1) else mret 0) s = Done rc s1 /\
      wf (e :: held) s1 /\ grow_frame s s1 /\ len s1 <= Z.max (len s) (2 * Z.min fd (len s) + 10) /\
      (rc = 0 /\ errno s1 = errno s /\ fd < len s1 \/ rc = -1 /\ errno s1 = ENOMEM /\ len s1 = len s))
    as (rc & s1 & Hgrow & W1 & Hfr & Hl1 & Hrc).
  { destruct (Z.eqb_spec fd (len s)).
    - destruct (table_grow_spec (e :: held) s (len s + 1)) as (rc & s1 & ? & ? & ? & ? & Hc); [done|lia|lia|].
      exists rc, s1. split_and!; try done; [lia|]. destruct Hc as [(? & ? & ? & _)|(? & ? & ? & ? & ?)]; [left|right]; split_and!; done || lia.
    - exists 0, s. unfold grow_frame. split_and!; try done; [lia|]. left. split_and!; done || lia. }
  rewrite (bind_done _ _ _ _ _ Hgrow). destruct Hfr as (Hh & Hb & _ & Hcl & Hnf & Hst & Hof).
  destruct Hrc as [(-> & He1 & Hfd)|(-> & He1 & Hle)]; simpl.
  - rewrite <- Hof in Hnone. pose proof (wf_len _ _ _ _ _ _ _ W1).
    destruct (open_free_slot s1 fd) as (it & Hit & Ho); [lia|done|].
    rewrite (bind_done _ _ _ _ _ (slot_spec _ _ _ Hit)).
    exists fd. eexists. split; [reflexivity|]. simpl. split_and!; try done. left. split_and!; try done; try lia.
    + by rewrite <- Hof.
    + unfold open_fds; simpl. rewrite open_fds_set_slot by lia. simpl. f_equal. exact Hof.
    + eapply (wf_fill held s1 e fd it (fd + 1)); [done|done|done|lia|]. right. rewrite Hnf. split_and!; [done|lia|].
      intros j Hj. rewrite Hof. apply Hall. lia.
  - exists (-1), s1. split_and!; try done; [lia|]. right. done.
Qed.

Lemma load_spec s l o : heap s !! l = Some o -> load l s = Done o s.
Proof. intros Ho. unfold load, gets, mbind, M_bind. by rewrite Ho. Qed.

(** ** Inserting *)

(** [e] was allocated and filled in by the caller and is not yet in the table. *)
Definition pending (held : list loc) (e : loc) (o : O) s : Prop :=
  heap s !! e = Some (Object 0 o) /\ (e < brk s)%nat /\
  wf held (set_heap (delete e (heap s)) s).

Lemma pending_new held s o :
  wf held s ->
  let s' := set_brk (S (brk s)) (set_heap (<[brk s := Object 0 o]> (heap s)) s) in
  new_object o s = Done (brk s) s' /\ pending held (brk s) o s'.
Proof.
  intros W s'. split; [done|]. unfold pending; simpl. split_and!; [by rewrite lookup_insert_eq|lia|].
  pose proof (wf_brk _ _ _ _ _ _ _ W (brk s) (Nat.le_refl _)) as Hb.
  unfold wf; simpl. rewrite delete_insert_id by done.
  destruct W as [? ? ? ? ? ? Wb]. constructor; try done. intros l Hl. apply Wb. lia.
Qed.

(** The first lines of [descriptor_table_insert]: the caller holds a reference. *)
Definition adopt (e : loc) (o : O) s : dtable O E :=
  set_live (live_descriptors s + 1) (set_heap (<[e := Object 1 o]> (heap s)) s).

Lemma wf_adopt held e o s : pending held e o s -> wf (e :: held) (adopt e o s).
Proof.
  intros (Ho & Hb & W). destruct W as [? ? ? Wc Wd Wl Wb]. simpl in *.
  assert (refs (entries s) e + holds held e = 0) as Hz.
  { pose proof (refs_range (entries s) e). pose proof (holds_range held e).
    destruct (decide (0 < refs (entries s) e + holds held e)) as [Hp%Wd|]; [|lia].
    rewrite lookup_delete_eq in Hp. by destruct Hp. }
  constructor; simpl; try done.
  - intros l o'. rewrite lookup_insert. destruct (decide (e = l)) as [<-|Hne].
    + intros [= <-]. simpl. rewrite Nat.eqb_refl. lia.
    + intros Ho'. destruct (Nat.eqb_spec e l); [done|].
      destruct (Wc l o'); [by rewrite lookup_delete_ne|]. lia.
  - intros l Hp. rewrite lookup_insert. destruct (decide (e = l)) as [<-|Hne]; [done|].
    destruct (Nat.eqb_spec e l); [done|]. destruct (Wd l) as [o' Ho']; [lia|].
    rewrite lookup_delete_ne in Ho' by done. eauto.
  - rewrite Wl, map_size_insert, map_size_delete, Ho. simpl.
    assert (size (heap s) <> 0%nat); [|lia]. intros Hs%map_size_empty_inv. by rewrite Hs in Ho.
  - intros l Hl. rewrite lookup_insert_ne by lia. specialize (Wb l Hl).
    by rewrite lookup_delete_ne in Wb by lia.
Qed.

Lemma insert_with_start held init e o s :
  pending held e o s -> fits held s ->
  insert_with init e s =
    (b ← gets stdio_initialized;
     rc ← (if (b : bool) then mret 0 else init);
     if rc <? 0 then descriptor_table_entry_dec e ;; mret (-1) else
     descriptor_table_insert_entry e) (adopt e o s).
Proof.
  intros (Ho & Hb & W) Hf. pose proof (wf_live_range _ _ W Hf) as Hl. simpl in Hl.
  unfold insert_with at 1, load, store, live_descriptors_inc, gets, modify, mbind, M_bind.
  rewrite Ho. simpl. rewrite u32_small by lia. done.
Qed.

(** [descriptor_table_insert_entry] consumes one reference to [e]: it moves to
    the lowest free slot, or is dropped. *)
Lemma insert_entry_spec held s e :
  wf (e :: held) s -> len s <= 2 ^ 27 -> fits (e :: held) s ->
  exists fd s', descriptor_table_insert_entry e s = Done fd s' /\ wf held s' /\ brk s' = brk s /\
    stdio_initialized s' = stdio_initialized s /\ len s' <= Z.max (len s) (2 * Z.min fd (len s) + 10) /\
    (0 <= fd /\ open_fds s !! fd = None /\ (forall j, 0 <= j < fd -> is_Some (open_fds s !! j)) /\
       open_fds s' = <[fd := e]> (open_fds s) /\ errno s' = errno s /\ heap s' = heap s /\ calls s' = calls s
     \/ fd = -1 /\ errno s' = ENOMEM /\ open_fds s' = open_fds s /\
       exists v, let s1 := set_env v s in heap s' = heap (release e s1) /\ calls s' = calls (release e s1)).
Proof.
  intros W Hlen Hf. destruct (WF_held _ _ _ _ _ _ _ _ W) as [o Ho].
  pose proof (wf_cnt_range _ s e o W Hf Ho) as Hc.
  destruct (table_allocate_spec held s e W Hlen) as (fd & s1 & Ha & Hh & Hb & Hcl & Hst & Hl & Hcase).
  unfold descriptor_table_insert_entry. rewrite (bind_done _ _ _ _ _ (load_spec _ _ _ Ho)).
  assert (assert_ (0 <? cnt o) s = Done tt s) as Has by (by replace (0 <? cnt o) with true by lia).
  rewrite (bind_done _ _ _ _ _ Has), (bind_done _ _ _ _ _ Ha).
  destruct Hcase as [(? & ? & ? & ? & ? & ?)|(-> & He & Hof & Hle & W1)].
  - replace (fd <? 0) with false by lia. exists fd, s1. split_and!; try done. by left.
  - simpl. assert (fits (e :: held) s1) as Hf1 by (unfold fits in *; simpl in *; lia).
    rewrite (bind_done _ _ _ _ _ (entry_dec_release held s1 e W1 Hf1)).
    destruct (release_frame e s1) as (? & Hle' & ? & Hst' & He' & Hb' & Hof').
    exists (-1), (release e s1). split_and!; try done; try congruence.
    + by apply wf_release.
    + right. split_and!; [done|exact (eq_trans He' He)|congruence|]. exists (dt_env s1). unfold release; simpl. rewrite Hh, Hcl.
      destruct (heap s !! e); [|done]. case_match; [|done]. by destruct (vtable_free _ _).
Qed.

(** The reference [e] the caller holds was the only one. *)
Lemma release_sole e o s : heap s !! e = Some (Object 1 o) -> heap (release e s) = delete e (heap s).
Proof. intros Ho. unfold release. rewrite Ho. simpl. by destruct (vtable_free _ _). Qed.

(** A complete insertion once the standard streams are set up. *)
Lemma insert_spec held init s e o :
  pending held e o s -> stdio_initialized s = true -> len s <= 2 ^ 27 -> fits (e :: held) s ->
  exists fd s', insert_with init e s = Done fd s' /\ wf held s' /\ brk s' = brk s /\
    stdio_initialized s' = true /\ len s' <= Z.max (len s) (2 * Z.min fd (len s) + 10) /\
    (0 <= fd /\ open_fds s !! fd = None /\ (forall j, 0 <= j < fd -> is_Some (open_fds s !! j)) /\
       open_fds s' = <[fd := e]> (open_fds s) /\ errno s' = errno s /\ heap s' = <[e := Object 1 o]> (heap s)
       /\ calls s' = calls s
     \/ fd = -1 /\ errno s' = ENOMEM /\ open_fds s' = open_fds s /\ heap s' = delete e (heap s) /\
       exists v, calls s' = calls s ++ (vtable_free o v).1).
Proof.
  intros Hp Hst Hlen Hf. assert (fits held s) as Hf' by (unfold fits in *; simpl in *; lia).
  rewrite (insert_with_start held init e o s Hp Hf'). unfold gets. unfold mbind at 1 2, M_bind at 1 2.
  simpl. rewrite Hst. simpl.
  destruct (insert_entry_spec held (adopt e o s) e) as (fd & s' & -> & W' & Hb & Hst' & Hl & Hcase);
    [by apply wf_adopt|done|done|].
  exists fd, s'. split_and!; try done; [by rewrite Hst'|].
  destruct Hcase as [?|(-> & ? & ? & v & Hh & Hcl)]; [by left|right].
  split_and!; try done.
  - rewrite Hh, (release_sole e o); simpl; [by rewrite delete_insert_eq|by rewrite lookup_insert_eq].
  - exists v. rewrite Hcl. unfold release; simpl. rewrite lookup_insert_eq. simpl. by destruct (vtable_free o v).
Qed.

(** ** The standard streams *)

Lemma stdio_add_spec held init s fd :
  wf held s -> stdio_initialized s = true -> len s <= 2 ^ 27 -> fits (0%nat :: held) s ->
  exists r s', stdio_add (insert_with init) fd s = Done r s' /\ wf held s' /\ stdio_initialized s' = true /\
    len s' <= Z.max (len s) (2 * Z.min r (len s) + 10) /\ heap s ⊆ heap s' /\
    (0 <= r /\ open_fds s !! r = None /\ (forall j, 0 <= j < r -> is_Some (open_fds s !! j)) /\ errno s' = errno s /\
       open_fds s' = <[r := brk s]> (open_fds s) /\ brk s' = S (brk s) /\
       heap s' = <[brk s := Object 1 (stdio_new fd)]> (heap s)
     \/ r = -1 /\ errno s' = ENOMEM /\ open_fds s' = open_fds s).
Proof.
  intros W Hst Hlen Hf. unfold stdio_add. destruct (alloc_ok_table s) as (b & v & Ha & Hv).
  rewrite (bind_done _ _ _ _ _ Ha). destruct b; simpl.
  2: { exists (-1). eexists. split; [reflexivity|]. split_and!; try done; [simpl; lia|by right]. }
  destruct (pending_new held (set_env v s) (stdio_new fd) W) as [Hn Hp].
  rewrite (bind_done _ _ _ _ _ Hn). simpl in Hp.
  pose proof (wf_brk _ _ _ _ _ _ _ W (brk s) (Nat.le_refl _)) as Hfresh.
  destruct (insert_spec held init _ _ _ Hp) as (r & s' & Hins & W' & Hb & ? & ? & Hcase); [done..|].
  exists r, s'. split; [exact Hins|]. split_and!; try done.
  - destruct Hcase as [(? & ? & ? & ? & ? & -> & ?)|(? & ? & ? & -> & ?)]; simpl.
    + rewrite insert_insert_eq. by apply insert_subseteq.
    + by rewrite delete_insert_id.
  - destruct Hcase as [(? & ? & ? & ? & He & -> & ?)|(? & ? & ? & ? & ?)]; [left|by right].
    split_and!; try done. + etrans; [exact He|exact Hv]. + simpl. by rewrite insert_insert_eq.
Qed.

(** The lowest free descriptor when exactly 0, ..., k-1 are open. *)
Lemma lowest_is m r k :
  (forall j, is_Some (m !! j) <-> 0 <= j < k) -> 0 <= r -> (m : gmap Z nat) !! r = None ->
  (forall j, 0 <= j < r -> is_Some (m !! j)) -> 0 <= k -> r = k.
Proof.
  intros Hm Hr Hn Hl Hk. destruct (Z.lt_trichotomy r k) as [?|[?|?]]; [|done|].
  - destruct (proj2 (Hm r)) as [? Hs]; [lia|congruence].
  - pose proof (proj1 (Hm k) (Hl k ltac:(lia))). lia.
Qed.

Lemma init_stdio_spec held s :
  wf held s -> entries s = [] -> Z.of_nat (length held) <= 2 ^ 30 + 1 ->
  exists rc s', init_stdio s = Done rc s' /\ wf held s' /\ stdio_initialized s' = true /\ len s' <= 100 /\
    heap s ⊆ heap s' /\
    (rc = 0 /\ errno s' = errno s /\ open_fds s' = {[0 := brk s; 1 := S (brk s); 2 := S (S (brk s))]} /\
       (forall k : nat, (k < 3)%nat -> heap s' !! (brk s + k)%nat = Some (Object 1 (stdio_new (Z.of_nat k))))
     \/ rc = -1 /\ errno s' = ENOMEM).
Proof.
  intros W He Hh. unfold init_stdio, __wasilibc_init_stdio.
  assert (len s = 0) as Hl by (pose proof (wf_len _ _ _ _ _ _ _ W) as Hw; rewrite He in Hw; simpl in Hw; lia).
  rewrite (bind_done (modify _) _ s tt (set_stdio_initialized true s)) by done.
  set (s0 := set_stdio_initialized true s).
  assert (open_fds s0 = ∅) as Ho0 by (unfold open_fds; simpl; by rewrite He).
  destruct (stdio_add_spec held (halt Fuel) s0 0) as (r0 & s1 & Hadd0 & W1 & St1 & L1 & Sub1 & C1);
    [done|done|simpl; lia|unfold fits; simpl; lia|].
  rewrite (bind_done _ _ _ _ _ Hadd0). simpl in L1.
  destruct C1 as [(? & ? & Hlow & E1 & O1 & B1 & Hp1)|(-> & ? & ?)].
  2: { exists (-1), s1. split_and!; [done..|lia|done|by right]. }
  replace r0 with 0 in * by (symmetry; eapply (lowest_is ∅ r0 0); [|done|done|by rewrite <- Ho0|lia];
    intros j; rewrite lookup_empty; split; [by intros []|lia]). simpl.
  destruct (stdio_add_spec held (halt Fuel) s1 1) as (r1 & s2 & Hadd1 & W2 & St2 & L2 & Sub2 & C2);
    [done|done|lia|unfold fits; simpl; lia|].
  rewrite (bind_done _ _ _ _ _ Hadd1).
  destruct C2 as [(? & Hn2 & Hlow2 & E2 & O2 & B2 & Hp2)|(-> & ? & ?)].
  2: { exists (-1), s2. split_and!; [done..|lia|by etrans|by right]. }
  rewrite O1, Ho0 in Hn2, Hlow2.
  replace r1 with 1 in * by (symmetry; eapply (lowest_is _ r1 1); [|done|exact Hn2|exact Hlow2|lia];
    intros j; rewrite lookup_insert; case_decide; rewrite ?lookup_empty; split; try lia; [done|by intros []]). simpl.
  destruct (stdio_add_spec held (halt Fuel) s2 2) as (r2 & s3 & Hadd2 & W3 & St3 & L3 & Sub3 & C3);
    [done|done|lia|unfold fits; simpl; lia|].
  rewrite (bind_done _ _ _ _ _ Hadd2).
  destruct C3 as [(? & Hn3 & Hlow3 & E3 & O3 & B3 & Hp3)|(-> & ? & ?)].
  2: { exists (-1), s3. split_and!; [done..|lia|do 2 (etrans; [done|]); done|by right]. }
  rewrite O2, O1, Ho0 in Hn3, Hlow3.
  replace r2 with 2 in * by (symmetry; eapply (lowest_is _ r2 2); [|done|exact Hn3|exact Hlow3|lia];
    intros j; rewrite !lookup_insert; repeat case_decide; rewrite ?lookup_empty; split; try lia; try done; by intros []).
  exists 0, s3. split_and!; [done..|lia|do 2 (etrans; [done|]); done|].
  left. split_and!; [done|exact (eq_trans E3 (eq_trans E2 E1))| |].
  - rewrite O3, O2, O1, Ho0, B2, B1. simpl. apply map_eq. intros j. rewrite !lookup_insert, lookup_singleton, lookup_empty.
    repeat case_decide; subst; done || lia.
  - intros k Hk. rewrite Hp3, Hp2, Hp1, B2, B1. simpl. rewrite !lookup_insert.
    destruct k as [|[|[|k]]]; [| | |lia]; repeat case_decide; try lia; try done.
Qed.

(** A table nobody has used yet is empty. *)
Definition inv (held : list loc) s : Prop := wf held s /\ (stdio_initialized s = false -> entries s = []).

(** Entering any operation: the standard streams are there, or setting them
    up failed and the operation reports it. *)
Lemma with_stdio_spec {A} held s (bad : A) (rest : M (dtable O E) A) :
  inv held s -> Z.of_nat (length held) <= 2 ^ 30 + 1 ->
  exists s1, wf held s1 /\ stdio_initialized s1 = true /\ heap s ⊆ heap s1 /\ len s1 <= Z.max (len s) 100 /\
    (stdio_initialized s = true -> s1 = s) /\
    (with_stdio bad rest s = rest s1 \/
     with_stdio bad rest s = Done bad s1 /\ stdio_initialized s = false /\ errno s1 = ENOMEM).
Proof.
  intros [W He] Hh. destruct (stdio_initialized s) eqn:Es.
  - exists s. split_and!; try done; [lia|]. left. unfold with_stdio, gets, mbind, M_bind. by rewrite Es.
  - destruct (init_stdio_spec held s W (He eq_refl) Hh) as (rc & s1 & Hi & ? & ? & ? & ? & Hc).
    assert (with_stdio bad rest s = (if rc <? 0 then mret bad else rest) s1) as ->.
    { unfold with_stdio, gets, mbind, M_bind. rewrite Es. by rewrite Hi. }
    exists s1. split_and!; try done; [lia|].
    destruct Hc as [(-> & ?)|(-> & ?)]; [by left|by right].
Qed.

(** ** Lookup, removal, duplication and clearing once the streams are set up *)

Lemma wf_slot held s fd : wf held s -> 0 <= fd < len s -> exists it, entries s !! Z.to_nat fd = Some it.
Proof.
  intros W Hfd. pose proof (wf_len _ _ _ _ _ _ _ W).
  destruct (lookup_lt_is_Some_2 (entries s) (Z.to_nat fd)) as [it Hit]; [lia|eauto].
Qed.

Lemma open_out_of_range held s fd : wf held s -> fd < 0 \/ len s <= fd -> open_fds s !! fd = None.
Proof.
  intros W Hfd. pose proof (wf_len _ _ _ _ _ _ _ W). rewrite lookup_open_fds.
  destruct (Z.ltb_spec fd 0); [done|]. by rewrite lookup_ge_None_2 by lia.
Qed.

Lemma open_slot s fd it : 0 <= fd -> entries s !! Z.to_nat fd = Some it ->
  open_fds s !! fd = if occupied it then Some (entry it) else None.
Proof. intros Hfd Hit. rewrite lookup_open_fds, Hit. by replace (fd <? 0) with false by lia. Qed.

Lemma table_lookup_spec held s fd :
  wf held s ->
  table_lookup fd s = match open_fds s !! fd with
                      | Some e => Done (Some e) s
                      | None => Done None (with_errno EBADF s)
                      end.
Proof.
  intros W. unfold table_lookup. rewrite (bind_done (gets len) _ s (len s) s) by done.
  destruct ((fd <? 0) || (len s <=? fd)) eqn:Er.
  - by rewrite (open_out_of_range held) by (done || lia).
  - destruct (wf_slot held s fd W) as [it Hit]; [lia|].
    rewrite (bind_done _ _ _ _ _ (slot_spec _ _ _ Hit)), (open_slot s fd it) by (done || lia).
    by destruct (occupied it).
Qed.

Lemma open_heap held s fd e : wf held s -> open_fds s !! fd = Some e -> exists o, heap s !! e = Some o.
Proof.
  intros W He. rewrite lookup_open_fds in He. destruct (fd <? 0); [done|].
  destruct (entries s !! Z.to_nat fd) as [it|] eqn:Hit; [|done]. simpl in He.
  destruct (occupied it) eqn:Ho; [|done]. injection He as <-.
  apply (wf_dom _ _ _ _ _ _ _ W). pose proof (refs_occupied _ _ _ Hit Ho).
  pose proof (holds_range held (entry it)). lia.
Qed.

Lemma table_remove_spec held s fd :
  wf held s ->
  match open_fds s !! fd with
  | Some e => exists s', table_remove fd s = Done (0, e) s' /\ wf (e :: held) s' /\
      open_fds s' = delete fd (open_fds s) /\ heap s' = heap s /\ dt_env s' = dt_env s /\ len s' = len s /\
      calls s' = calls s /\ stdio_initialized s' = stdio_initialized s
  | None => table_remove fd s = Done (-1, 0%nat) (with_errno EBADF s)
  end.
Proof.
  intros W. unfold table_remove. rewrite (bind_done (gets len) _ s (len s) s) by done.
  destruct ((fd <? 0) || (len s <=? fd)) eqn:Er.
  { by rewrite (open_out_of_range held) by (done || lia). }
  destruct (wf_slot held s fd W) as [it Hit]; [lia|].
  rewrite (bind_done _ _ _ _ _ (slot_spec _ _ _ Hit)), (open_slot s fd it) by (done || lia).
  destruct (occupied it) eqn:Ho; simpl; [|done]. eexists. split; [reflexivity|]. simpl.
  pose proof (wf_len _ _ _ _ _ _ _ W) as Wl.
  split; [|destruct (fd <? next_fd s); split_and!; try done; unfold open_fds; simpl;
           by rewrite open_fds_set_slot by lia].
  assert (forall l, refs (<[Z.to_nat fd := Item false (entry it)]> (entries s)) l + holds (entry it :: held) l =
                    refs (entries s) l + holds held l) as Hrefs.
  { intros l. rewrite (refs_insert _ _ it) by done. unfold ref1. rewrite Ho. simpl. case_match; lia. }
  destruct W as [_ Wn Wb Wc Wd ? ?].
  assert (forall nx, 0 <= nx <= len s -> (nx <= fd) -> nx <= next_fd s \/ nx = next_fd s ->
    WF (entry it :: held) (<[Z.to_nat fd := Item false (entry it)]> (entries s)) (len s) nx (live_descriptors s) (heap s) (brk s)) as Hwf.
  { intros nx Hnx Hle Hnn. constructor; try done.
    - by rewrite length_insert.
    - intros i it' Hi. rewrite list_lookup_insert_ne by lia. apply Wb. lia.
    - intros l o Ho'. destruct (Wc l o Ho'). rewrite Hrefs. done.
    - intros l. rewrite Hrefs. apply Wd. }
  unfold wf; simpl. destruct (Z.ltb_spec fd (next_fd s)); simpl; apply Hwf; lia.
Qed.

(** Overwriting an occupied slot: the table takes over [e] and the caller gets
    the reference of the previous entry. *)
Lemma wf_replace held s e i it :
  wf (e :: held) s -> entries s !! i = Some it -> occupied it = true ->
  wf (entry it :: held) (set_entries (<[i := Item true e]> (entries s)) s).
Proof.
  intros W Hit Ho. destruct W as [? ? Wb Wc Wd ? ?].
  assert (forall l, refs (<[i := Item true e]> (entries s)) l + holds (entry it :: held) l =
                    refs (entries s) l + holds (e :: held) l) as Hrefs.
  { intros l. rewrite (refs_insert _ _ it) by done. unfold ref1. rewrite Ho. simpl.
    destruct (entry it =? l)%nat, (e =? l)%nat; lia. }
  constructor; simpl; try done.
  - by rewrite length_insert.
  - intros k it' Hk. rewrite list_lookup_insert. case_decide; [intros; simplify_eq; done|by apply Wb].
  - intros l o Ho'. destruct (Wc l o Ho'). rewrite Hrefs. done.
  - intros l. rewrite Hrefs. apply Wd.
Qed.

(** The objects, without their counts. *)
Definition bodies s : gmap nat O := body <$> heap s.

Lemma bodies_insert (h : gmap nat (object O)) l o c : h !! l = Some o -> body <$> <[l := Object c (body o)]> h = body <$> h.
Proof.
  intros Ho. rewrite fmap_insert. simpl. apply insert_id. by rewrite lookup_fmap, Ho.
Qed.

Lemma release_bodies held s l : wf (l :: held) s ->
  bodies (release l s) = if bool_decide (0 < refs (entries s) l + holds held l) then bodies s else delete l (bodies s).
Proof.
  intros W. destruct (WF_held _ _ _ _ _ _ _ _ W) as [o Ho]. destruct (wf_cnt _ _ _ _ _ _ _ W l o Ho) as [Hc _].
  simpl in Hc. rewrite Nat.eqb_refl in Hc. unfold release, bodies. rewrite Ho.
  destruct (Z.eqb_spec (cnt o) 1).
  - destruct (vtable_free _ _). rewrite bool_decide_false by lia. simpl. by rewrite fmap_delete.
  - rewrite bool_decide_true; [simpl; by apply bodies_insert|].
    pose proof (refs_range (entries s) l). pose proof (holds_range held l). lia.
Qed.

Lemma holds_perm held held' l : held ≡ₚ held' -> holds held l = holds held' l.
Proof. induction 1; simpl; lia. Qed.

Lemma wf_perm held held' s : held ≡ₚ held' -> wf held s -> wf held' s.
Proof.
  intros Hp [? ? ? Wc Wd ? ?]. constructor; try done.
  - intros l o Ho. rewrite <- (holds_perm held held' l Hp). by apply Wc.
  - intros l. rewrite <- (holds_perm held held' l Hp). apply Wd.
Qed.
End proofs.
