(* ===== verification/DescTableSpec.v ===== *)
(** * The descriptor table: properties

    The table implements a finite map from descriptors to objects in which an
    object lives exactly as long as a descriptor or a caller refers to it.
    [open_fds] is that map and [bodies] the objects; [held] lists the strong
    references the callers have obtained and not yet dropped. *)

From S2P Require Import Prelude Errno DescTable DescTableInv.

(** ** Reachable states

    The operations of the table, as its clients use them. *)

Inductive action (O : Type) :=
| ANew (o : O)                              (* calloc, then descriptor_table_insert *)
| AGet (fd : Z)
| APut (l : loc)                            (* descriptor_table_entry_dec of a held reference *)
| ADup (fd : Z) (op : dup_op_t) (arg : Z)
| ARemove (fd : Z)
| AClear.
Arguments ANew {O} o.
Arguments AGet {O} fd.
Arguments APut {O} l.
Arguments ADup {O} fd op arg.
Arguments ARemove {O} fd.
Arguments AClear {O}.

Fixpoint drop1 (l : loc) (held : list loc) : list loc :=
  match held with
  | [] => []
  | x :: rest => if (x =? l)%nat then rest else x :: drop1 l rest
  end.

Lemma drop1_perm l held : l ∈ held -> held ≡ₚ l :: drop1 l held.
Proof.
  induction held as [|x held IH]; simpl; [by intros ?%elem_of_nil|].
  destruct (Nat.eqb_spec x l) as [->|Hne]; [done|].
  intros [->|Hin]%elem_of_cons; [done|]. rewrite (IH Hin) at 1. by constructor.
Qed.

Section spec.
Context {O E : Type} `{Vtable O E}.
Implicit Types s : dtable O E.

(** Runs an action; returns the references the callers hold afterwards. *)
Definition run (a : action O) (held : list loc) : M (dtable O E) (list loc) :=
  match a with
  | ANew o => e ← new_object o; descriptor_table_insert e ;; mret held
  | AGet fd => r ← descriptor_table_get fd; mret (match snd r with Some e => e :: held | None => held end)
  | APut l => descriptor_table_entry_dec l ;; mret (drop1 l held)
  | ADup fd op arg => descriptor_table_dup fd op arg ;; mret held
  | ARemove fd => descriptor_table_remove fd ;; mret held
  | AClear => descriptor_table_clear ;; mret held
  end.

(** A reference can be dropped only by who holds it. *)
Definition enabled (a : action O) (held : list loc) : Prop :=
  match a with APut l => l ∈ held | _ => True end.

Inductive reachable (v : env) : list loc -> dtable O E -> Prop :=
| reach_init : reachable v [] (init_table v)
| reach_step held s a held' s' :
    reachable v held s -> enabled a held -> small held s -> run a held s = Done held' s' ->
    reachable v held' s'.

(** ** Each operation on an initialised table *)

Lemma dup3_spec held s fd e arg :
  wf held s -> small held s -> open_fds s !! fd = Some e ->
  exists r s', dup3_case fd e arg s = Done r s' /\ wf held s' /\ stdio_initialized s' = stdio_initialized s /\
    bodies s' ⊆ bodies s /\ len s' <= 2 * len s + 2 ^ 22 /\
    (fd = arg /\ r = -1 /\ errno s' = EINVAL /\ open_fds s' = open_fds s
     \/ fd <> arg /\ ~ (0 <= arg < MAX_DESCRIPTOR) /\ r = -1 /\ errno s' = EBADF /\ open_fds s' = open_fds s
     \/ fd <> arg /\ 0 <= arg < MAX_DESCRIPTOR /\ r = -1 /\ errno s' = ENOMEM /\ open_fds s' = open_fds s
     \/ fd <> arg /\ 0 <= arg < MAX_DESCRIPTOR /\ r = arg /\ errno s' = errno s /\
        open_fds s' = <[arg := e]> (open_fds s)).
Proof.
  intros W Hs He. pose proof (wf_len _ _ _ _ _ _ _ W) as Wl0. unfold dup3_case. destruct (Z.eqb_spec fd arg) as [->|Hne].
  { eexists _, _. split; [reflexivity|]. split_and!; try done; [simpl; lia|]. left. done. }
  destruct ((arg <? 0) || (MAX_DESCRIPTOR <=? arg)) eqn:Er.
  { eexists _, _. split; [reflexivity|]. split_and!; try done; [simpl; lia|]. right; left. split_and!; try done. lia. }
  change MAX_DESCRIPTOR with (2 ^ 20) in *. destruct Hs as [Hs1 Hs2].
  destruct (table_grow_spec held s (arg + 1)) as (rc & s1 & Hg & W1 & Hfr & Hl & Hc); [done|lia|lia|].
  rewrite (bind_done _ _ _ _ _ Hg). destruct Hfr as (Hh & Hb & Hlv & Hcl & Hnf & Hst & Hof).
  destruct Hc as [(-> & Hge & He1 & k & Hent)|(-> & ? & He1 & Hent & Hlen)]; simpl.
  2: { exists (-1), s1. split_and!; try done; [unfold bodies; by rewrite Hh|lia|].
       right; right; left. split_and!; done || lia. }
  pose proof (wf_len _ _ _ _ _ _ _ W1) as Wl1.
  destruct (wf_slot held s1 arg W1) as [it Hit]; [lia|].
  rewrite (bind_done _ _ _ _ _ (slot_spec _ _ _ Hit)).
  destruct (open_heap held s fd e W He) as [o Ho]. rewrite <- Hh in Ho.
  destruct (entry_inc_spec held s1 e o W1) as [Hinc Winc]; [unfold fits; lia|done|].
  rewrite (bind_done _ _ _ _ _ Hinc). clear Hinc. set (s2 := set_heap _ s1) in *.
  assert (bodies s2 = bodies s) as Hbod.
  { unfold bodies; simpl. rewrite bodies_insert by done. by rewrite Hh. }
  destruct (occupied it) eqn:Hocc.
  - set (s3 := set_entries (<[Z.to_nat arg := Item true e]> (entries s2)) s2).
    assert (wf (entry it :: held) s3) as W3 by (apply wf_replace; done).
    assert (fits (entry it :: held) s3) as F3 by (unfold fits; simpl; lia).
    assert ((set_slot arg (Item true e) ;; descriptor_table_entry_dec (entry it)) s2 = Done tt (release (entry it) s3)) as Hbody.
    { rewrite (bind_done (set_slot arg (Item true e)) _ s2 tt s3) by done. by apply (entry_dec_release held). }
    rewrite (bind_done _ _ _ _ _ Hbody). destruct (release_frame (entry it) s3) as (_ & Hlr & _ & Hst' & He' & _ & Hof').
    exists arg, (release (entry it) s3). split_and!; [done|by apply wf_release|by rewrite Hst'| |rewrite Hlr; simpl; lia|].
    + rewrite (release_bodies held) by done. rewrite <- Hbod.
      case_bool_decide; [done|apply delete_subseteq].
    + do 3 right. split_and!; [done|lia|lia|done|exact (eq_trans He' He1)|]. rewrite Hof'. unfold open_fds; simpl.
      rewrite open_fds_set_slot by lia. simpl. f_equal. exact Hof.
  - rewrite (bind_done (set_slot arg (Item true e)) _ s2 tt (set_entries (<[Z.to_nat arg := Item true e]> (entries s2)) s2)) by done.
    eexists arg, _. split; [reflexivity|]. split_and!; [| done | by rewrite <- Hbod |simpl; lia|].
    + pose proof (wf_fill held s2 e arg it (next_fd s2) Winc Hit Hocc) as Hfill. apply Hfill; [lia|by left].
    + do 3 right. split_and!; [done|lia|lia|done|exact He1|]. unfold open_fds; simpl.
      rewrite open_fds_set_slot by lia. simpl. f_equal. exact Hof.
Qed.

Lemma dupfd_spec held s fd e arg :
  wf held s -> small held s -> open_fds s !! fd = Some e ->
  exists r s', dupfd_case e arg s = Done r s' /\ wf held s' /\ stdio_initialized s' = stdio_initialized s /\
    bodies s' ⊆ bodies s /\ len s' <= 2 * len s + 2 ^ 22 /\
    (~ (0 <= arg < MAX_DESCRIPTOR) /\ r = -1 /\ errno s' = EINVAL /\ open_fds s' = open_fds s
     \/ 0 <= arg < MAX_DESCRIPTOR /\ r = -1 /\ errno s' = ENOMEM /\ open_fds s' = open_fds s
     \/ 0 <= arg < MAX_DESCRIPTOR /\ arg <= r /\ open_fds s !! r = None /\
        (forall j, arg <= j < r -> is_Some (open_fds s !! j)) /\ errno s' = errno s /\
        open_fds s' = <[r := e]> (open_fds s)).
Proof.
  intros W Hs He. pose proof (wf_len _ _ _ _ _ _ _ W) as Wl0. unfold dupfd_case.
  destruct ((arg <? 0) || (MAX_DESCRIPTOR <=? arg)) eqn:Er.
  { eexists _, _. split; [reflexivity|]. split_and!; try done; [simpl; lia|]. left. split_and!; try done. lia. }
  change MAX_DESCRIPTOR with (2 ^ 20) in *. destruct Hs as [Hs1 Hs2].
  pose proof (wf_len _ _ _ _ _ _ _ W) as Wl. pose proof (wf_next _ _ _ _ _ _ _ W) as Wn.
  rewrite (bind_done get _ s s s) by done.
  destruct (skip_occupied_spec (length (entries s)) (Z.max arg (next_fd s)) s) as (fd' & Hskip & ? & ? & Hall & Hnone); [lia..|].
  rewrite (bind_done _ _ _ _ _ Hskip).
  assert (forall j, arg <= j < fd' -> is_Some (open_fds s !! j)) as Hlow.
  { intros j Hj. destruct (decide (j < next_fd s)); [eapply wf_below_open; [done|lia]|apply Hall; lia]. }
  destruct (table_grow_spec held s (fd' + 1)) as (rc & s1 & Hg & W1 & Hfr & Hl & Hc); [done|lia|lia|].
  rewrite (bind_done _ _ _ _ _ Hg). destruct Hfr as (Hh & Hb & Hlv & Hcl & Hnf & Hst & Hof).
  destruct Hc as [(-> & Hge & He1 & k & Hent)|(-> & ? & He1 & Hent & Hlen)]; simpl.
  2: { exists (-1), s1. split_and!; try done; [unfold bodies; by rewrite Hh|lia|].
       right; left. split_and!; done || lia. }
  pose proof (wf_len _ _ _ _ _ _ _ W1) as Wl1.
  destruct (open_heap held s fd e W He) as [o Ho]. rewrite <- Hh in Ho.
  destruct (entry_inc_spec held s1 e o W1) as [Hinc Winc]; [unfold fits; lia|done|].
  rewrite (bind_done _ _ _ _ _ Hinc). clear Hinc. set (s2 := set_heap _ s1) in *.
  rewrite <- Hof in Hnone. destruct (open_free_slot s1 fd') as (it & Hit & Hocc); [lia|done|].
  rewrite (bind_done (slot fd') _ s2 it s2) by (by apply slot_spec).
  rewrite (bind_done (set_slot fd' (Item true e)) _ s2 tt (set_entries (<[Z.to_nat fd' := Item true e]> (entries s2)) s2)) by done.
  eexists fd', _. split; [reflexivity|]. split_and!; [|done| |simpl; lia|].
  - pose proof (wf_fill held s2 e fd' it (next_fd s2) Winc Hit Hocc) as Hfill. apply Hfill; [lia|by left].
  - unfold bodies; simpl. rewrite bodies_insert by done. by rewrite Hh.
  - do 2 right. split_and!; [lia|lia|lia|by rewrite <- Hof|done|exact He1|]. unfold open_fds; simpl.
    rewrite open_fds_set_slot by lia. simpl. f_equal. exact Hof.
Qed.

Lemma dup_insert_spec held s fd e :
  wf held s -> small held s -> open_fds s !! fd = Some e ->
  exists r s', (descriptor_table_entry_inc e ;; descriptor_table_insert_entry e) s = Done r s' /\
    wf held s' /\ stdio_initialized s' = stdio_initialized s /\ bodies s' ⊆ bodies s /\ len s' <= 2 * len s + 2 ^ 22 /\
    (r = -1 /\ errno s' = ENOMEM /\ open_fds s' = open_fds s
     \/ 0 <= r /\ open_fds s !! r = None /\ (forall j, 0 <= j < r -> is_Some (open_fds s !! j)) /\
        errno s' = errno s /\ open_fds s' = <[r := e]> (open_fds s)).
Proof.
  intros W [Hs1 Hs2] He. destruct (open_heap held s fd e W He) as [o Ho].
  destruct (entry_inc_spec held s e o W) as [Hinc Winc]; [unfold fits; lia|done|].
  rewrite (bind_done _ _ _ _ _ Hinc). clear Hinc. set (s2 := set_heap _ s) in *.
  assert (bodies s2 = bodies s) as Hbod by (unfold bodies; simpl; by rewrite bodies_insert).
  destruct (insert_entry_spec held s2 e Winc) as (r & s' & -> & W' & _ & ? & Hlen & Hc);
    [simpl; lia|unfold fits; simpl; lia|].
  pose proof (wf_len _ _ _ _ _ _ _ W). simpl in Hlen. exists r, s'. split_and!; try done; [|lia|].
  - rewrite <- Hbod. destruct Hc as [(? & ? & ? & ? & ? & Hh & ?)|(? & ? & ? & v & Hh & ?)]; unfold bodies; rewrite Hh; [done|].
    change (body <$> heap (release e (set_env v s2))) with (bodies (release e (set_env v s2))).
    rewrite (release_bodies held) by done. case_bool_decide; [done|apply delete_subseteq].
  - destruct Hc as [(? & ? & ? & ? & ? & ? & ?)|(? & ? & ? & ?)]; [right|left]; split_and!; done.
Qed.

Lemma remove_spec held s fd :
  wf held s -> small held s -> stdio_initialized s = true ->
  match open_fds s !! fd with
  | None => descriptor_table_remove fd s = Done (-1) (with_errno EBADF s)
  | Some e => exists s' o, heap s !! e = Some o /\ descriptor_table_remove fd s = Done 0 s' /\ wf held s' /\
      stdio_initialized s' = true /\ errno s' = errno s /\ open_fds s' = delete fd (open_fds s) /\ len s' = len s /\
      if cnt o =? 1
      then bodies s' = delete e (bodies s) /\ calls s' = calls s ++ (vtable_free (body o) (dt_env s)).1
      else bodies s' = bodies s /\ calls s' = calls s
  end.
Proof.
  intros W [Hs1 Hs2] Hst. unfold descriptor_table_remove, with_stdio.
  rewrite (bind_done (gets stdio_initialized) _ s (stdio_initialized s) s) by done. rewrite Hst.
  rewrite (bind_done (mret 0) _ s 0 s) by done. simpl.
  pose proof (table_remove_spec held s fd W) as Hr. destruct (open_fds s !! fd) as [e|] eqn:Ee.
  - destruct Hr as (s1 & Hr & W1 & Hof & Hh & Henv & Hl & Hcl & Hst1). rewrite (bind_done _ _ _ _ _ Hr). simpl.
    assert (fits (e :: held) s1) as F1 by (unfold fits; simpl; lia).
    rewrite (bind_done _ _ _ _ _ (entry_dec_release held s1 e W1 F1)).
    destruct (open_heap held s fd e W Ee) as [o Ho].
    destruct (release_frame e s1) as (_ & Hl' & _ & Hst' & He' & _ & Hof').
    exists (release e s1), o. split_and!; [done|done|by apply wf_release|by rewrite Hst', Hst1| |congruence|congruence|].
    + etrans; [exact He'|]. unfold errno; simpl. by rewrite Henv.
    + unfold release, bodies. rewrite Hh, Ho, Henv. destruct (Z.eqb_spec (cnt o) 1).
      * destruct (vtable_free _ _) as [ops v]; simpl. by rewrite fmap_delete, Hcl.
      * simpl. by rewrite bodies_insert, Hcl.
  - rewrite (bind_done _ _ _ _ _ Hr). done.
Qed.

Lemma get_spec held s fd :
  wf held s -> small held s -> stdio_initialized s = true ->
  match open_fds s !! fd with
  | None => descriptor_table_get fd s = Done (-1, None) (with_errno EBADF s)
  | Some e => exists s', descriptor_table_get fd s = Done (0, Some e) s' /\ wf (e :: held) s' /\
      stdio_initialized s' = true /\ errno s' = errno s /\ open_fds s' = open_fds s /\ bodies s' = bodies s /\
      len s' = len s /\ calls s' = calls s /\ dt_env s' = dt_env s
  end.
Proof.
  intros W [Hs1 Hs2] Hst. unfold descriptor_table_get, with_stdio.
  rewrite (bind_done (gets stdio_initialized) _ s (stdio_initialized s) s) by done. rewrite Hst.
  rewrite (bind_done (mret 0) _ s 0 s) by done. simpl.
  pose proof (table_lookup_spec held s fd W) as Hl. destruct (open_fds s !! fd) as [e|] eqn:Ee;
    rewrite (bind_done _ _ _ _ _ Hl); [|done].
  destruct (open_heap held s fd e W Ee) as [o Ho].
  destruct (entry_inc_spec held s e o W) as [Hinc Winc]; [unfold fits; lia|done|].
  rewrite (bind_done _ _ _ _ _ Hinc). eexists. split; [reflexivity|]. split_and!; try done.
  unfold bodies; simpl. by rewrite bodies_insert.
Qed.

(** ** Clearing *)

Lemma release_bodies_sub l s : bodies (release l s) ⊆ bodies s.
Proof.
  unfold release, bodies. destruct (heap s !! l) as [o|] eqn:Ho; [|done]. case_match.
  - destruct (vtable_free _ _); simpl. rewrite fmap_delete. apply delete_subseteq.
  - simpl. by rewrite bodies_insert.
Qed.

(** The references of a slot pass to whoever empties it. *)
Lemma WF_uncons held it rest n nx live (h : gmap nat (object O)) b :
  WF held (it :: rest) n nx live h b ->
  WF (if occupied it then entry it :: held else held) rest (n - 1) 0 live h b.
Proof.
  intros [Wl Wn Wb Wc Wd ? ?]. simpl in Wl.
  assert (forall l, refs rest l + holds (if occupied it then entry it :: held else held) l =
                    refs (it :: rest) l + holds held l) as Hr.
  { intros l. simpl. unfold ref1. destruct (occupied it); simpl; lia. }
  constructor; try done; [lia|lia|intros; lia| |].
  - intros l o Ho. rewrite Hr. by apply Wc.
  - intros l. rewrite Hr. apply Wd.
Qed.

Lemma clear_loop_spec items : forall held n nx s,
  WF held items n nx (live_descriptors s) (heap s) (brk s) -> n + Z.of_nat (length held) < 2 ^ 31 ->
  exists s', clear_loop items s = Done tt s' /\
    WF held [] 0 0 (live_descriptors s') (heap s') (brk s') /\ bodies s' ⊆ bodies s /\ errno s' = errno s.
Proof.
  induction items as [|it items IH]; intros held n nx s W Hn; cbn [clear_loop].
  { exists s. split_and!; try done. destruct W as [Wl Wn ? ? ? ? ?]. simpl in Wl. by constructor. }
  pose proof (wf_len _ _ _ _ _ _ _ W) as Wl. simpl in Wl.
  pose proof (WF_uncons _ _ _ _ _ _ _ _ W) as W'. destruct (occupied it).
  - rewrite (bind_done _ _ _ _ _ (dec_release_items held items (n - 1) 0 s (entry it) W' ltac:(simpl; lia))).
    pose proof (release_items _ _ _ _ _ _ W') as W''.
    destruct (IH held _ _ _ W'') as (s' & -> & ? & ? & He); [lia|].
    exists s'. split_and!; try done; [by etrans; [|apply release_bodies_sub]|].
    etrans; [exact He|]. apply release_frame.
  - rewrite (bind_done (mret tt) _ s tt s) by done. apply (IH held _ _ _ W'). lia.
Qed.

Lemma clear_spec held s :
  inv held s -> small held s ->
  exists s', descriptor_table_clear s = Done tt s' /\ inv held s' /\ open_fds s' = ∅ /\ errno s' = errno s /\
    stdio_initialized s' = false /\ bodies s' ⊆ bodies s.
Proof.
  intros [W _] [Hs1 Hs2].
  destruct (clear_loop_spec (entries s) held (len s) (next_fd s) s W) as (s' & Hc & W' & ? & ?); [lia|].
  unfold descriptor_table_clear, clear. exists (set_stdio_initialized false (set_len 0 (set_next_fd 0 (set_entries [] s')))).
  split_and!; try done.
  unfold mbind, M_bind, gets. by rewrite Hc.
Qed.

(** ** Inserting, on a fresh table as well *)

Lemma first_insert_spec held s o :
  inv held s -> small held s -> stdio_initialized s = false ->
  exists r s', (e ← new_object o; descriptor_table_insert e) s = Done r s' /\ wf held s' /\
    stdio_initialized s' = true /\ len s' <= 2 ^ 10 /\
    (r = 3 /\ errno s' = errno s /\ dom (open_fds s') = {[0; 1; 2; 3]} /\
       (forall fd o', (fd, o') ∈ [(0, stdio_new 0); (1, stdio_new 1); (2, stdio_new 2); (3, o)] ->
          exists l, open_fds s' !! fd = Some l /\ bodies s' !! l = Some o')
     \/ r = -1 /\ errno s' = ENOMEM /\ heap s' !! brk s = None).
Proof.
  intros [W He] [Hs1 Hs2] Hst. specialize (He Hst).
  destruct (pending_new held s o W) as [Hn Hp]. simpl in Hp. set (s0 := set_brk _ _) in Hn, Hp.
  rewrite (bind_done _ _ _ _ _ Hn). set (e := brk s) in *.
  unfold descriptor_table_insert. rewrite (insert_with_start held init_stdio e o s0 Hp) by (unfold fits; simpl; lia).
  rewrite (bind_done (gets stdio_initialized) _ _ false _) by (unfold gets; simpl; by rewrite Hst).
  pose proof (wf_adopt held e o s0 Hp) as Wa.
  destruct (init_stdio_spec (e :: held) (adopt e o s0) Wa) as (rc & s1 & Hi & W1 & St1 & L1 & Sub & Hc);
    [exact He|simpl; lia|].
  rewrite (bind_done _ _ _ _ _ Hi).
  assert (fits (e :: held) s1) as F1 by (unfold fits; simpl; lia).
  assert (heap s1 !! e = Some (Object 1 o)) as He1.
  { eapply lookup_weaken; [|exact Sub]. simpl. by rewrite lookup_insert_eq. }
  destruct Hc as [(-> & E1 & Hof & Hbod)|(-> & E1)]; simpl.
  2: { rewrite (bind_done _ _ _ _ _ (entry_dec_release held s1 e W1 F1)).
       destruct (release_frame e s1) as (_ & Hlr & _ & Hst' & He' & _).
       exists (-1), (release e s1). split_and!; [done|by apply wf_release|by rewrite Hst'|rewrite Hlr; lia|].
       right. split; [done|]. split; [exact (eq_trans He' E1)|]. rewrite (release_sole e o) by done. apply lookup_delete_eq. }
  destruct (insert_entry_spec held s1 e W1) as (r & s' & -> & W' & _ & St' & Hlen & Hc); [lia|done|].
  exists r, s'. split_and!; [done|done|by rewrite St'|lia|].
  destruct Hc as [(Hr & Hn1 & Hlow & Hof' & E' & Hh & _)|(-> & E' & _ & v & Hh & _)]; [left|right].
  2: { split; [done|]. split; [exact E'|]. rewrite Hh, (release_sole e o) by done. apply lookup_delete_eq. }
  replace r with 3 in *.
  2: { symmetry. eapply (lowest_is (open_fds s1) r 3); [|done|done|done|lia]. intros j. rewrite Hof.
       rewrite <- elem_of_dom, !dom_insert_L, dom_singleton_L. set_unfold. lia. }
  split_and!; [done|exact (eq_trans E' E1)| |].
  { rewrite Hof', Hof, !dom_insert_L, dom_singleton_L. set_solver. }
  intros fd o' Hin. rewrite Hof', Hof. unfold bodies. rewrite Hh.
  pose proof (Hbod 0%nat ltac:(lia)) as B0. pose proof (Hbod 1%nat ltac:(lia)) as B1.
  pose proof (Hbod 2%nat ltac:(lia)) as B2. simpl in B0, B1, B2.
  rewrite Nat.add_0_r in B0. rewrite Nat.add_1_r in B1. replace (e + 2)%nat with (S (S e)) in B2 by lia.
  assert (forall (m : gmap Z nat) l c, m !! fd = Some l -> heap s1 !! l = Some (Object c o') ->
            exists l', m !! fd = Some l' /\ (body <$> heap s1) !! l' = Some o') as Hpick.
  { intros m l c Hm Hl. exists l. split; [done|]. by rewrite lookup_fmap, Hl. }
  set_unfold in Hin. destruct Hin as [[= -> ->]|[[= -> ->]|[[= -> ->]|[[= -> ->]|[]]]]];
    (eapply Hpick; [|done]); by simplify_map_eq.
Qed.
End spec.
