(* ===== verification/DescTableProps.v ===== *)
(** * The descriptor table: theorems

    The properties of the descriptor table, from the specifications of its
    operations: safety of every reachable state, the lifetime of objects, the
    functional behaviour of each operation, and the leak check at exit. *)

From S2P Require Import Prelude Errno DescTable DescTableInv DescTableSpec.

Section props.
Context {O E : Type} `{Vtable O E}.
Implicit Types s : dtable O E.

Lemma with_stdio_ready {A} (bad : A) (rest : M (dtable O E) A) s :
  stdio_initialized s = true -> with_stdio bad rest s = rest s.
Proof. intros Hst. unfold with_stdio, gets, mbind, M_bind. by rewrite Hst. Qed.

(** An operation that starts with the standard streams runs on a table that
    has them, or gives up. *)
Lemma enter {A} held s (bad : A) (rest : M (dtable O E) A) (k : A -> M (dtable O E) (list loc)) :
  inv held s -> small held s -> k bad = mret held ->
  (forall s1, inv held s1 -> small held s1 -> stdio_initialized s1 = true ->
     exists held' s', (with_stdio bad rest ≫= k) s1 = Done held' s' /\ inv held' s') ->
  exists held' s', (with_stdio bad rest ≫= k) s = Done held' s' /\ inv held' s'.
Proof.
  intros Hi [Hs1 Hs2] Hk Hrest.
  destruct (with_stdio_spec held s bad rest Hi) as (s1 & W1 & St1 & _ & L1 & _ & Hc); [lia|].
  assert (inv held s1) as Hi1 by (split; [done|by rewrite St1]).
  destruct Hc as [Heq|(Heq & _)].
  - destruct (Hrest s1) as (held' & s' & Hr & ?); [done|split; lia|done|]. exists held', s'. split; [|done].
    rewrite <- Hr. unfold mbind, M_bind. by rewrite Heq, with_stdio_ready.
  - exists held, s1. split; [|done]. by rewrite (bind_done _ _ _ _ _ Heq), Hk.
Qed.

Lemma inv_ready held s : wf held s -> stdio_initialized s = true -> inv held s.
Proof. intros W Hst. split; [done|]. by rewrite Hst. Qed.

Lemma wf_init v : wf [] (init_table v : dtable O E).
Proof. constructor; simpl; done || lia. Qed.

Lemma dup_spec held s fd op arg :
  wf held s -> small held s -> stdio_initialized s = true ->
  exists r s', descriptor_table_dup fd op arg s = Done r s' /\ wf held s' /\ stdio_initialized s' = true /\
    bodies s' ⊆ bodies s /\ len s' <= 2 * len s + 2 ^ 22 /\
    match open_fds s !! fd with
    | None => r = -1 /\ errno s' = EBADF /\ open_fds s' = open_fds s
    | Some e =>
        r = -1 /\ open_fds s' = open_fds s /\
          (errno s' = ENOMEM \/ op = DUP_OP_DUPFD /\ errno s' = EINVAL /\ ~ 0 <= arg < MAX_DESCRIPTOR
           \/ op = DUP_OP_DUP3 /\ errno s' = EINVAL /\ fd = arg
           \/ op ∈ [DUP_OP_DUP2; DUP_OP_DUP3] /\ errno s' = EBADF /\ ~ 0 <= arg < MAX_DESCRIPTOR)
        \/ errno s' = errno s /\ open_fds s' = <[r := e]> (open_fds s) /\
          match op with
          | DUP_OP_DUP2 | DUP_OP_DUP3 => r = arg
          | DUP_OP_DUP | DUP_OP_DUPFD =>
              let low := if op is DUP_OP_DUPFD then arg else 0 in
              low <= r /\ open_fds s !! r = None /\ forall j, low <= j < r -> is_Some (open_fds s !! j)
          end
    end.
Proof.
  intros W Hs Hst. pose proof (wf_len _ _ _ _ _ _ _ W). unfold descriptor_table_dup. rewrite with_stdio_ready by done.
  pose proof (table_lookup_spec held s fd W) as Hl. destruct (open_fds s !! fd) as [e|] eqn:Ee;
    rewrite (bind_done _ _ _ _ _ Hl).
  2: { eexists _, _. split; [reflexivity|]. split_and!; try done. simpl. lia. }
  destruct op.
  - destruct (dup_insert_spec held s fd e W Hs Ee) as (r & s' & -> & ? & Hst' & ? & ? & Hc).
    exists r, s'. rewrite Hst'. split_and!; try done. destruct Hc as [(? & ? & ?)|(? & ? & ? & ? & ?)]; [left|right]; auto.
  - destruct (Z.eqb_spec fd arg) as [<-|Hne].
    { exists fd, s. split_and!; try done; [lia|]. right. by rewrite insert_id. }
    destruct (dup3_spec held s fd e arg W Hs Ee) as (r & s' & -> & ? & Hst' & ? & ? & Hc).
    exists r, s'. rewrite Hst'. split_and!; try done. set_unfold. naive_solver.
  - destruct (dup3_spec held s fd e arg W Hs Ee) as (r & s' & -> & ? & Hst' & ? & ? & Hc).
    exists r, s'. rewrite Hst'. split_and!; try done. set_unfold. naive_solver.
  - destruct (dupfd_spec held s fd e arg W Hs Ee) as (r & s' & -> & ? & Hst' & ? & ? & Hc).
    exists r, s'. rewrite Hst'. split_and!; try done. naive_solver.
Qed.

(** ** Every reachable state *)

Lemma step_ok a held s :
  inv held s -> small held s -> enabled a held ->
  exists held' s', run a held s = Done held' s' /\ inv held' s'.
Proof.
  intros Hi Hs He. destruct a as [o|fd|l|fd op arg|fd|]; simpl in *.
  - destruct (stdio_initialized s) eqn:Hst.
    + destruct (pending_new held s o (proj1 Hi)) as [Hn Hp]. rewrite (bind_done _ _ _ _ _ Hn). destruct Hs.
      edestruct (insert_spec held init_stdio) as (r & s' & Hins & ? & _ & ? & _); [exact Hp|done|done|unfold fits; simpl; lia|].
      unfold descriptor_table_insert. rewrite (bind_done _ _ _ _ _ Hins). eexists _, _. split; [done|]. by apply inv_ready.
    + destruct (first_insert_spec held s o Hi Hs Hst) as (r & s' & Hins & ? & ? & _).
      exists held, s'. split; [|by apply inv_ready]. revert Hins. unfold mbind, M_bind.
      destruct (new_object o s) as [e s1|]; [|done]. destruct (descriptor_table_insert e s1); [|done]. by intros [= -> ->].
  - apply (enter held); try done. intros s1 Hi1 Hs1 Hst1.
    pose proof (get_spec held s1 fd (proj1 Hi1) Hs1 Hst1) as Hg.
    destruct (open_fds s1 !! fd); [destruct Hg as (s' & Hg & ? & ? & _)|]; rewrite (bind_done _ _ _ _ _ Hg); eexists _, _;
      (split; [reflexivity|]); [by apply inv_ready|exact Hi1].
  - destruct Hs. pose proof (drop1_perm l held He) as Hperm. destruct Hi as [W Hi].
    pose proof (wf_perm _ _ _ Hperm W) as W'.
    assert (length held = S (length (drop1 l held))) as Hlen by (by rewrite Hperm at 1).
    rewrite (bind_done _ _ _ _ _ (entry_dec_release (drop1 l held) s l W' ltac:(unfold fits; simpl; lia))).
    eexists _, _. split; [reflexivity|]. split; [by apply wf_release|].
    destruct (release_frame l s) as (-> & _ & _ & -> & _). done.
  - apply (enter held); try done. intros s1 Hi1 Hs1 Hst1.
    destruct (dup_spec held s1 fd op arg (proj1 Hi1) Hs1 Hst1) as (r & s' & Hg & ? & ? & _).
    rewrite (bind_done _ _ _ _ _ Hg). eexists _, _. split; [reflexivity|]. by apply inv_ready.
  - apply (enter held); try done. intros s1 Hi1 Hs1 Hst1.
    pose proof (remove_spec held s1 fd (proj1 Hi1) Hs1 Hst1) as Hg.
    destruct (open_fds s1 !! fd); [destruct Hg as (s' & o & _ & Hg & ? & ? & _)|]; rewrite (bind_done _ _ _ _ _ Hg); eexists _, _;
      (split; [reflexivity|]); [by apply inv_ready|exact Hi1].
  - destruct (clear_spec held s Hi Hs) as (s' & Hc & ? & _). rewrite (bind_done _ _ _ _ _ Hc). by eexists _, _.
Qed.

Lemma reachable_inv v held s : reachable v held s -> inv held s.
Proof.
  induction 1 as [|held s a held' s' Hr IH He Hs Hrun].
  - split; [apply wf_init|done].
  - destruct (step_ok a held s IH Hs He) as (held'' & s'' & Hrun' & ?). congruence.
Qed.

Lemma wf_objects held s l :
  wf held s -> is_Some (heap s !! l) <-> (exists fd, open_fds s !! fd = Some l) \/ l ∈ held.
Proof.
  intros W. split.
  - intros [o Ho]. destruct (wf_cnt _ _ _ _ _ _ _ W l o Ho) as [Hc Hp].
    pose proof (elem_of_roots (entries s) held l ltac:(lia)) as Hin. unfold roots in Hin.
    apply elem_of_app in Hin as [Hin|]; [left|by right].
    apply list_elem_of_In, in_map_iff in Hin as (it & <- & Hin%list_elem_of_In).
    apply list_elem_of_filter in Hin as [Hocc [i Hit]%list_elem_of_lookup].
    exists (Z.of_nat i). rewrite (open_slot s (Z.of_nat i) it) by (lia || by rewrite Nat2Z.id). by rewrite Hocc.
  - intros [[fd Hfd]|Hin]; [destruct (open_heap held s fd l W Hfd); eauto|].
    apply (wf_dom _ _ _ _ _ _ _ W). rewrite (holds_perm _ _ l (drop1_perm l held Hin)). simpl. rewrite Nat.eqb_refl.
    pose proof (refs_range (entries s) l). pose proof (holds_range (drop1 l held) l). lia.
Qed.

(** ** The leak check *)

(** The open descriptors among [i], ..., [i+n-1] that are standard streams. *)
Definition stdio_fds (m : gmap Z nat) (i : Z) (n : nat) : list Z :=
  filter (fun fd => fd < 3 /\ is_Some (m !! fd)) (seqZ i (Z.of_nat n)).

Lemma stdio_fds_ext m m' i n :
  (forall fd, i <= fd -> m !! fd = m' !! fd) -> stdio_fds m i n = stdio_fds m' i n.
Proof.
  intros Hm. unfold stdio_fds. assert (Forall (fun fd => i <= fd) (seqZ i (Z.of_nat n))) as Hall.
  { apply Forall_forall. intros fd Hfd%list_elem_of_In%elem_of_seqZ. lia. }
  induction Hall as [|fd l Hfd Hl IH]; [done|]. rewrite !filter_cons, IH, (Hm fd Hfd). done.
Qed.

Lemma leak_range i fd n : fd <> i ->
  (3 <=? fd) && (i + 1 <=? fd) && (fd <? i + 1 + Z.of_nat n) = (3 <=? fd) && (i <=? fd) && (fd <? i + Z.of_nat (S n)).
Proof.
  intros. replace (i + Z.of_nat (S n)) with (i + 1 + Z.of_nat n) by lia.
  by destruct (Z.leb_spec (i + 1) fd), (Z.leb_spec i fd); try lia.
Qed.

Lemma leak_loop_spec held n : forall i s acc,
  wf held s -> small held s -> stdio_initialized s = true -> 0 <= i -> i + Z.of_nat n <= len s ->
  exists s', leak_loop i n acc s = Done (acc + Z.of_nat (length (stdio_fds (open_fds s) i n))) s' /\
    wf held s' /\ len s' = len s /\ stdio_initialized s' = true /\
    forall fd, open_fds s' !! fd = if (3 <=? fd) && (i <=? fd) && (fd <? i + Z.of_nat n) then None else open_fds s !! fd.
Proof.
  induction n as [|n IH]; intros i s acc W Hs Hst Hi Hn; cbn [leak_loop].
  { exists s. replace (acc + _) with acc by (unfold stdio_fds; simpl; lia). split_and!; try done.
    intros fd. replace (i + Z.of_nat 0) with i by lia.
    by replace ((3 <=? fd) && (i <=? fd) && (fd <? i)) with false by lia. }
  destruct (wf_slot held s i W) as [it Hit]; [lia|]. rewrite (bind_done _ _ _ _ _ (slot_spec _ _ _ Hit)).
  pose proof (open_slot s i it Hi Hit) as Hopen.
  assert (forall m, length (stdio_fds m i (S n)) =
    ((if bool_decide (i < 3 /\ is_Some (m !! i))%Z then 1 else 0) + length (stdio_fds m (i + 1) n))%nat) as Hcount.
  { intros m. unfold stdio_fds. rewrite seqZ_cons by lia. replace (Z.pred (Z.of_nat (S n))) with (Z.of_nat n) by lia.
    rewrite filter_cons. case_decide; [rewrite bool_decide_eq_true_2 by done|rewrite bool_decide_eq_false_2 by done];
      by rewrite <- ?Z.add_1_r. }
  rewrite Hcount. destruct (occupied it).
  - destruct (Z.ltb_spec i 3).
    + rewrite bool_decide_eq_true_2 by (split; [done|rewrite Hopen; eauto]).
      destruct (IH (i + 1) s (acc + 1) W Hs Hst) as (s' & -> & ? & ? & ? & Hof); [lia|lia|].
      exists s'. split_and!; try done; [f_equal; lia|]. intros fd. rewrite Hof.
      destruct (decide (fd = i)) as [->|]; [by decide_ifs|]. by rewrite leak_range.
    + rewrite bool_decide_eq_false_2 by lia.
      pose proof (remove_spec held s i W Hs Hst) as Hr. rewrite Hopen in Hr.
      destruct Hr as (s1 & o & _ & Hr & W1 & St1 & _ & Hof1 & Hl1 & _).
      rewrite (bind_done _ _ _ _ _ Hr). rewrite (bind_done (assert_ (0 =? 0)) _ s1 tt s1) by done.
      destruct (IH (i + 1) s1 acc W1) as (s' & -> & ? & ? & ? & Hof); [split; destruct Hs; lia|done|lia|lia|].
      exists s'. split_and!; try done || congruence.
      * rewrite (stdio_fds_ext (open_fds s1) (open_fds s)); [done|]. intros fd Hfd. by rewrite Hof1, lookup_delete_ne by lia.
      * intros fd. rewrite Hof, Hof1. destruct (decide (fd = i)) as [->|].
        -- rewrite lookup_delete_eq. rewrite (proj2 (Z.leb_le 3 i)), (proj2 (Z.leb_le i i)) by lia.
           rewrite (proj2 (Z.ltb_lt i (i + Z.of_nat (S n)))) by lia. by destruct (_ && _).
        -- by rewrite lookup_delete_ne, leak_range by done.
  - rewrite bool_decide_eq_false_2 by (rewrite Hopen; intros [_ [? ?]]; done).
    destruct (IH (i + 1) s acc W Hs Hst) as (s' & -> & ? & ? & ? & Hof); [lia|lia|].
    exists s'. split_and!; try done. intros fd. rewrite Hof.
    destruct (decide (fd = i)) as [->|]; [rewrite Hopen; by destruct (_ && _), (_ && _)|]. by rewrite leak_range.
Qed.

(** The descriptors below 3 refer to different objects. *)
Definition stdio_distinct (m : gmap Z nat) : Prop :=
  forall i j l, i < 3 -> j < 3 -> m !! i = Some l -> m !! j = Some l -> i = j.

Lemma live_stdio s n :
  wf [] s -> (forall fd, 3 <= fd -> open_fds s !! fd = None) -> stdio_distinct (open_fds s) -> len s <= Z.of_nat n ->
  live_descriptors s = Z.of_nat (length (stdio_fds (open_fds s) 0 n)).
Proof.
  intros W Hhigh Hinj Hn. rewrite (wf_live _ _ _ _ _ _ _ W). f_equal.
  set (fds := stdio_fds (open_fds s) 0 n). set (obj fd := default 0%nat (open_fds s !! fd)).
  assert (forall fd, fd ∈ fds <-> is_Some (open_fds s !! fd)) as Hfds.
  { intros fd. unfold fds, stdio_fds. rewrite list_elem_of_filter, elem_of_seqZ. split; [tauto|]. intros Hfd.
    destruct (decide (fd < 3)) as [|Hge]; [|rewrite Hhigh in Hfd by lia; by destruct Hfd].
    destruct (decide (0 <= fd < len s)); [split_and!; done || lia|].
    rewrite (open_out_of_range [] s fd W) in Hfd by lia. by destruct Hfd. }
  assert (NoDup (obj <$> fds)) as Hnd.
  { apply NoDup_fmap_2_strong; [|apply list_relations.list.NoDup_filter, NoDup_seqZ]. intros i j [l Hi]%Hfds [l' Hj]%Hfds.
    unfold obj. rewrite Hi, Hj. simpl. intros <-. apply (Hinj i j l); try done.
    - destruct (decide (i < 3)); [done|]. rewrite Hhigh in Hi by lia. done.
    - destruct (decide (j < 3)); [done|]. rewrite Hhigh in Hj by lia. done. }
  assert (dom (heap s) = list_to_set (obj <$> fds)) as Hdom.
  { apply set_eq. intros l. rewrite elem_of_dom, elem_of_list_to_set, list_elem_of_fmap.
    rewrite (wf_objects [] s l W). split.
    - intros [[fd Hfd]|Hin]; [|by apply elem_of_nil in Hin]. exists fd. unfold obj. rewrite Hfds, Hfd. eauto.
    - intros (fd & -> & [l' Hl]%Hfds). left. exists fd. unfold obj. by rewrite Hl. }
  rewrite <- (size_dom (D := gset nat)), Hdom, size_list_to_set by done. apply length_fmap.
Qed.

Lemma no_leaks_spec s :
  inv [] s -> small [] s -> stdio_distinct (open_fds s) ->
  exists s', __wasilibc_assert_no_descriptor_leaks s = Done tt s' /\
    forall fd, open_fds s' !! fd = if 3 <=? fd then None else open_fds s !! fd.
Proof.
  intros [W He] Hs Hinj. unfold __wasilibc_assert_no_descriptor_leaks.
  rewrite (bind_done (gets stdio_initialized) _ s (stdio_initialized s) s) by done.
  destruct (stdio_initialized s) eqn:Hst; simpl.
  - rewrite (bind_done (gets len) _ s (len s) s) by done.
    pose proof (wf_len _ _ _ _ _ _ _ W) as Wl. set (n := Z.to_nat (len s)) in *.
    destruct (leak_loop_spec [] n 0 s 0 W Hs Hst) as (s' & Hloop & W' & Hl' & Hst' & Hof); [lia|lia|].
    assert (forall fd, open_fds s' !! fd = if 3 <=? fd then None else open_fds s !! fd) as Hof'.
    { intros fd. rewrite Hof, Z.add_0_l. destruct (Z.leb_spec 3 fd); [|done]. destruct (Z.leb_spec 0 fd); [|lia]. cbn [andb].
      destruct (Z.ltb_spec fd (Z.of_nat n)); [done|]. apply (open_out_of_range [] s); [done|lia]. }
    rewrite (bind_done _ _ _ _ _ Hloop). exists s'. split; [|done].
    rewrite (bind_done (gets live_descriptors) _ s' (live_descriptors s') s') by done.
    assert (stdio_fds (open_fds s) 0 n = stdio_fds (open_fds s') 0 n) as ->.
    { unfold stdio_fds. apply list_filter_iff. intros fd. rewrite Hof'.
      destruct (Z.leb_spec 3 fd); [lia|done]. }
    rewrite (live_stdio s' n W'); [by rewrite Z.eqb_refl| | |lia].
    + intros fd Hfd. rewrite Hof'. by decide_ifs.
    + intros i j l Hi Hj. rewrite !Hof'. decide_ifs. by apply Hinj.
  - exists s. pose proof (wf_live _ _ _ _ _ _ _ W) as Hl. specialize (He eq_refl).
    assert (heap s = ∅) as Hh.
    { apply map_eq. intros l. rewrite lookup_empty. destruct (heap s !! l) as [o|] eqn:Ho; [|done].
      destruct (wf_cnt _ _ _ _ _ _ _ W l o Ho) as [Hc Hp]. rewrite He in Hc. simpl in Hc. lia. }
    rewrite (bind_done (gets live_descriptors) _ s 0 s) by (unfold gets; by rewrite Hl, Hh).
    split; [done|]. intros fd. unfold open_fds. rewrite He. simpl. rewrite lookup_empty. by case_match.
Qed.

(** ** The theorems *)

(** C1: Safety of the descriptor table. From every state the operations can
    reach, whatever the allocator answers, every operation of the table
    returns: no assertion fails, no freed object is touched, and the loops
    terminate. The state it returns is reachable again, so this covers every
    interleaving of inserts, lookups, drops, duplications, removals and
    clears. The table is bounded by 2^27 slots, where 32-bit sizes do not wrap. *)
Theorem descriptor_table_safe v held s a :
  reachable v held s -> small held s -> enabled a held ->
  exists held' s', run a held s = Done held' s' /\ reachable v held' s'.
Proof.
  intros Hr Hs He. destruct (step_ok a held s (reachable_inv _ _ _ Hr) Hs He) as (held' & s' & Hrun & _).
  exists held', s'. split; [done|]. by eapply reach_step.
Qed.

(** C2: Object lifetime. In every reachable state an object is allocated
    exactly when an open descriptor refers to it or a caller still holds a
    reference to it, its reference count is positive, and [live_descriptors]
    is the number of allocated objects. *)
Theorem descriptor_table_lifetime v held s :
  reachable v held s ->
  (forall l, is_Some (heap s !! l) <-> (exists fd, open_fds s !! fd = Some l) \/ l ∈ held) /\
  (forall l o, heap s !! l = Some o -> 0 < cnt o) /\
  live_descriptors s = Z.of_nat (size (heap s)).
Proof.
  intros [W _]%reachable_inv. split_and!.
  - intros l. by apply wf_objects.
  - intros l o Ho. apply (wf_cnt _ _ _ _ _ _ _ W l o Ho).
  - apply (wf_live _ _ _ _ _ _ _ W).
Qed.

(** [descriptor_table_insert] of a new object returns the lowest
    descriptor that was not open and makes it refer to the object; every other
    descriptor and object stays as it was. When memory runs out it returns -1
    with [ENOMEM], the object is destroyed through its vtable, and the open
    descriptors and the other objects are unchanged. *)
Theorem descriptor_table_insert_lowest v held s o :
  reachable v held s -> small held s -> stdio_initialized s = true ->
  exists l r s', new_object o s = Done l (set_brk (S l) (set_heap (<[l := Object 0 o]> (heap s)) s)) /\
    (e ← new_object o; descriptor_table_insert e) s = Done r s' /\
    (0 <= r /\ open_fds s !! r = None /\ (forall j, 0 <= j < r -> is_Some (open_fds s !! j)) /\
       open_fds s' = <[r := l]> (open_fds s) /\ bodies s' = <[l := o]> (bodies s) /\ errno s' = errno s
     \/ r = -1 /\ errno s' = ENOMEM /\ open_fds s' = open_fds s /\ bodies s' = bodies s /\
        exists w, calls s' = calls s ++ (vtable_free o w).1).
Proof.
  intros [W _]%reachable_inv [Hs1 Hs2] Hst. destruct (pending_new held s o W) as [Hn Hp].
  edestruct (insert_spec held init_stdio) as (r & s' & Hins & _ & _ & _ & _ & Hc);
    [exact Hp|done|done|unfold fits; simpl; lia|].
  exists (brk s), r, s'. split; [done|]. split; [by rewrite (bind_done _ _ _ _ _ Hn)|].
  pose proof (wf_brk _ _ _ _ _ _ _ W (brk s) (Nat.le_refl _)) as Hfresh.
  destruct Hc as [(? & ? & ? & Ho & He & Hh & ?)|(? & He & Ho & Hh & Hc)]; [left|right]; simpl in *;
    unfold bodies; rewrite Hh; split_and!; try done.
  - by rewrite insert_insert_eq, fmap_insert.
  - by rewrite delete_insert_id.
Qed.

(** First use. Inserting into a table that nobody has used opens the
    standard streams first: on success the new object is descriptor 3, and 0,
    1, 2 are stdin, stdout and stderr; nothing else is open. *)
Theorem descriptor_table_first_insert v held s o :
  reachable v held s -> small held s -> stdio_initialized s = false ->
  exists r s', (e ← new_object o; descriptor_table_insert e) s = Done r s' /\
    (r = 3 /\ errno s' = errno s /\ dom (open_fds s') = {[0; 1; 2; 3]} /\
       (forall fd o', (fd, o') ∈ [(0, stdio_new 0); (1, stdio_new 1); (2, stdio_new 2); (3, o)] ->
          exists l, open_fds s' !! fd = Some l /\ bodies s' !! l = Some o')
     \/ r = -1 /\ errno s' = ENOMEM).
Proof.
  intros Hi%reachable_inv Hs Hst.
  destruct (first_insert_spec held s o Hi Hs Hst) as (r & s' & ? & _ & _ & _ & Hc). exists r, s'. split; [done|]. destruct Hc as [?|(? & ? & _)]; auto.
Qed.

(** [descriptor_table_get] returns the object of an open descriptor and
    gives the caller a reference to it, changing nothing else; for any other
    number it returns -1 with [EBADF]. *)
Theorem descriptor_table_get_correct v held s fd :
  reachable v held s -> small held s -> stdio_initialized s = true ->
  match open_fds s !! fd with
  | None => descriptor_table_get fd s = Done (-1, None) (with_errno EBADF s)
  | Some e => exists s', descriptor_table_get fd s = Done (0, Some e) s' /\ reachable v (e :: held) s' /\
      errno s' = errno s /\ open_fds s' = open_fds s /\ bodies s' = bodies s
  end.
Proof.
  intros Hr Hs Hst. pose proof (proj1 (reachable_inv _ _ _ Hr)) as W. pose proof (get_spec held s fd W Hs Hst) as Hg.
  destruct (open_fds s !! fd) as [e|]; [|done]. destruct Hg as (s' & Hg & _ & _ & ? & ? & ? & _).
  exists s'. split_and!; try done. eapply (reach_step v held s (AGet fd)); [done|done|done|].
  simpl. by rewrite (bind_done _ _ _ _ _ Hg).
Qed.

(** [descriptor_table_dup] on every branch: [dup] takes the lowest free
    descriptor, [F_DUPFD] the lowest free one not below its argument, [dup2]
    and [dup3] exactly the target; afterwards the new descriptor refers to the
    same object and no other descriptor changes. On an error (EBADF for a
    closed descriptor or a target out of range, EINVAL for [dup3] onto itself
    or an [F_DUPFD] minimum out of range, ENOMEM) no descriptor changes. *)
Theorem descriptor_table_dup_correct v held s fd op arg :
  reachable v held s -> small held s -> stdio_initialized s = true ->
  exists r s', descriptor_table_dup fd op arg s = Done r s' /\ bodies s' ⊆ bodies s /\
    match open_fds s !! fd with
    | None => r = -1 /\ errno s' = EBADF /\ open_fds s' = open_fds s
    | Some e =>
        r = -1 /\ open_fds s' = open_fds s /\
          (errno s' = ENOMEM \/ op = DUP_OP_DUPFD /\ errno s' = EINVAL /\ ~ 0 <= arg < MAX_DESCRIPTOR
           \/ op = DUP_OP_DUP3 /\ errno s' = EINVAL /\ fd = arg
           \/ op ∈ [DUP_OP_DUP2; DUP_OP_DUP3] /\ errno s' = EBADF /\ ~ 0 <= arg < MAX_DESCRIPTOR)
        \/ errno s' = errno s /\ open_fds s' = <[r := e]> (open_fds s) /\
          match op with
          | DUP_OP_DUP2 | DUP_OP_DUP3 => r = arg
          | DUP_OP_DUP | DUP_OP_DUPFD =>
              let low := if op is DUP_OP_DUPFD then arg else 0 in
              low <= r /\ open_fds s !! r = None /\ forall j, low <= j < r -> is_Some (open_fds s !! j)
          end
    end.
Proof.
  intros [W _]%reachable_inv Hs Hst.
  destruct (dup_spec held s fd op arg W Hs Hst) as (r & s' & ? & _ & _ & ? & _ & ?). eauto.
Qed.

(** [descriptor_table_remove] (close) closes exactly the given descriptor.
    When it held the last reference the object is destroyed: its vtable's
    [free] runs once, with the effects recorded in [calls]; otherwise no
    object is touched. [errno] is preserved. A descriptor that is not open
    gives -1 with [EBADF]. *)
Theorem descriptor_table_remove_correct v held s fd :
  reachable v held s -> small held s -> stdio_initialized s = true ->
  match open_fds s !! fd with
  | None => descriptor_table_remove fd s = Done (-1) (with_errno EBADF s)
  | Some e => exists s' o, heap s !! e = Some o /\ descriptor_table_remove fd s = Done 0 s' /\
      errno s' = errno s /\ open_fds s' = delete fd (open_fds s) /\
      if cnt o =? 1
      then bodies s' = delete e (bodies s) /\ calls s' = calls s ++ (vtable_free (body o) (dt_env s)).1
      else bodies s' = bodies s /\ calls s' = calls s
  end.
Proof.
  intros [W _]%reachable_inv Hs Hst. pose proof (remove_spec held s fd W Hs Hst) as Hr.
  destruct (open_fds s !! fd) as [e|]; [|done]. destruct Hr as (s' & o & ? & ? & _ & _ & ? & ? & _ & ?).
  exists s', o. by split_and!.
Qed.

(** [descriptor_table_clear] closes every descriptor; when no caller holds
    a reference every object is destroyed and the count of live descriptors is
    zero. The table is then as unused as at the start: the next operation sets
    up the standard streams again. *)
Theorem descriptor_table_clear_correct v s :
  reachable v [] s -> small [] s ->
  exists s', descriptor_table_clear s = Done tt s' /\ open_fds s' = ∅ /\ heap s' = ∅ /\
    live_descriptors s' = 0 /\ stdio_initialized s' = false /\ errno s' = errno s.
Proof.
  intros Hi%reachable_inv Hs. destruct (clear_spec [] s Hi Hs) as (s' & ? & [W _] & Ho & ? & ? & _).
  assert (heap s' = ∅) as Hh.
  { apply map_eq. intros l. rewrite lookup_empty. apply eq_None_not_Some. intros Hl.
    apply (wf_objects [] s' l W) in Hl as [[fd Hfd]|Hin]; [by rewrite Ho in Hfd|by apply elem_of_nil in Hin]. }
  exists s'. split_and!; try done. rewrite (wf_live _ _ _ _ _ _ _ W), Hh. done.
Qed.

(** The leak check at exit. When every reference has been dropped and the
    standard streams that are open are different objects,
    [__wasilibc_assert_no_descriptor_leaks] returns: it closes every
    descriptor from 3 on and finds exactly the standard streams alive. *)
Theorem no_descriptor_leaks v s :
  reachable v [] s -> small [] s -> stdio_distinct (open_fds s) ->
  exists s', __wasilibc_assert_no_descriptor_leaks s = Done tt s' /\
    forall fd, open_fds s' !! fd = if 3 <=? fd then None else open_fds s !! fd.
Proof. intros Hi%reachable_inv. by apply no_leaks_spec. Qed.
End props.

(** ** Concrete runs

    Objects are numbers, destroying one records its number. *)

#[local] Instance demo_vtable : Vtable Z Z := {
  stdio_new fd := 1000 + fd;
  vtable_free o v := ([o], v);
}.

#[local] Instance enabled_dec (a : action Z) held : Decision (enabled a held).
Proof. destruct a; simpl; apply _. Defined.

Fixpoint exec (acts : list (action Z)) (held : list loc) (s : dtable Z Z) : option (list loc * dtable Z Z) :=
  match acts with
  | [] => Some (held, s)
  | a :: rest =>
      if bool_decide (enabled a held) && (len s <=? 2 ^ 27) && (Z.of_nat (length held) <=? 2 ^ 30) then
        match run a held s with Done held' s' => exec rest held' s' | Stop _ _ => None end
      else None
  end.

Lemma exec_reachable v acts : forall held s held' s',
  reachable v held s -> exec acts held s = Some (held', s') -> reachable v held' s'.
Proof.
  induction acts as [|a acts IH]; intros held s held' s' Hr; simpl; [by intros [= <- <-]|].
  destruct (bool_decide_reflect (enabled a held)); [|done].
  destruct (Z.leb_spec (len s) (2 ^ 27)); [|done].
  destruct (Z.leb_spec (Z.of_nat (length held)) (2 ^ 30)); [|done].
  cbn [andb]. destruct (run a held s) as [held1 s1|] eqn:Hrun; [|done]. intros Hx.
  eapply IH; [|exact Hx]. by eapply reach_step.
Qed.

Definition demo_env : env := Env 0 [].

Definition demo (acts : list (action Z)) : list loc * dtable Z Z :=
  default ([], init_table demo_env) (exec acts [] (init_table demo_env)).

Lemma demo_reachable acts : reachable demo_env (demo acts).1 (demo acts).2.
Proof.
  unfold demo. destruct (exec acts _ _) as [[held s]|] eqn:He; simpl; [|apply reach_init].
  by eapply exec_reachable; [apply reach_init|].
Qed.

Lemma demo_reachable_nil acts : (demo acts).1 = [] -> reachable demo_env [] (demo acts).2.
Proof. intros <-. apply demo_reachable. Qed.

Ltac run_demo :=
  lazymatch goal with
  | |- reachable _ [] _ => apply demo_reachable_nil; vm_compute; reflexivity
  | |- reachable _ _ _ => apply demo_reachable
  | |- small _ _ => split; vm_compute; discriminate
  | |- _ => vm_compute; reflexivity
  end.

(** A file opened as 3, looked up, duplicated to 4 and closed once. *)
Definition demo_acts : list (action Z) := [ANew 7; AGet 3; ADup 3 DUP_OP_DUP 0; ARemove 3].

Lemma descriptor_table_safe_witness :
  exists held' s', run (APut 1%nat) (demo demo_acts).1 (demo demo_acts).2 = Done held' s' /\
    reachable demo_env held' s'.
Proof.
  apply (descriptor_table_safe demo_env); [run_demo..|]. vm_compute. by left.
Defined.

Lemma descriptor_table_lifetime_witness :
  live_descriptors (demo demo_acts).2 = Z.of_nat (size (heap (demo demo_acts).2)) /\
  live_descriptors (demo demo_acts).2 = 4.
Proof. split; [apply (descriptor_table_lifetime demo_env (demo demo_acts).1); run_demo|run_demo]. Defined.

Lemma descriptor_table_insert_lowest_witness :
  exists r s', (e ← new_object 8; descriptor_table_insert e) (demo demo_acts).2 = Done r s' /\ r = 3.
Proof.
  destruct (descriptor_table_insert_lowest demo_env (demo demo_acts).1 (demo demo_acts).2 8) as (l & r & s' & Hl & Hr & Hc);
    [run_demo..|]. exists r, s'. split; [exact Hr|]. vm_compute in Hr. by injection Hr.
Defined.

Lemma descriptor_table_first_insert_witness :
  exists r s', (e ← new_object 7; descriptor_table_insert e) (init_table demo_env) = Done r s' /\ r = 3.
Proof.
  destruct (descriptor_table_first_insert demo_env [] (init_table demo_env) 7) as (r & s' & Hr & Hc);
    [apply reach_init|run_demo..|]. exists r, s'. split; [exact Hr|]. vm_compute in Hr. by injection Hr.
Defined.

Lemma descriptor_table_get_correct_witness :
  exists s', descriptor_table_get 4 (demo demo_acts).2 = Done (0, Some 1%nat) s'.
Proof.
  pose proof (descriptor_table_get_correct demo_env (demo demo_acts).1 (demo demo_acts).2 4
    ltac:(run_demo) ltac:(run_demo) ltac:(run_demo)) as Hg.
  replace (open_fds (demo demo_acts).2 !! 4) with (Some 1%nat) in Hg by (vm_compute; reflexivity).
  destruct Hg as (s' & Hg & _). by exists s'.
Defined.

Lemma descriptor_table_dup_correct_witness :
  exists r s', descriptor_table_dup 4 DUP_OP_DUP2 1 (demo demo_acts).2 = Done r s' /\ r = 1.
Proof.
  destruct (descriptor_table_dup_correct demo_env (demo demo_acts).1 (demo demo_acts).2 4 DUP_OP_DUP2 1)
    as (r & s' & Hr & Hc); [run_demo..|]. exists r, s'. split; [exact Hr|]. vm_compute in Hr. by injection Hr.
Defined.

Lemma descriptor_table_remove_correct_witness :
  exists s', descriptor_table_remove 4 (demo demo_acts).2 = Done 0 s'.
Proof.
  pose proof (descriptor_table_remove_correct demo_env (demo demo_acts).1 (demo demo_acts).2 4
    ltac:(run_demo) ltac:(run_demo) ltac:(run_demo)) as Hg.
  replace (open_fds (demo demo_acts).2 !! 4) with (Some 1%nat) in Hg by (vm_compute; reflexivity).
  destruct Hg as (s' & o & _ & Hg & _). by exists s'.
Defined.

Lemma descriptor_table_clear_correct_witness :
  exists s', descriptor_table_clear (demo [ANew 7; ANew 8]).2 = Done tt s' /\ heap s' = ∅.
Proof.
  destruct (descriptor_table_clear_correct demo_env (demo [ANew 7; ANew 8]).2) as (s' & Hc & _ & Hh & _);
    [run_demo..|]. exists s'. split; [exact Hc|exact Hh].
Defined.

Lemma no_descriptor_leaks_witness :
  exists s', __wasilibc_assert_no_descriptor_leaks (demo [ANew 7; ANew 8]).2 = Done tt s'.
Proof.
  destruct (no_descriptor_leaks demo_env (demo [ANew 7; ANew 8]).2) as (s' & Hc & _); [run_demo|run_demo| |exists s'; exact Hc].
  intros i j l Hi Hj. replace (open_fds (demo [ANew 7; ANew 8]).2) with
    ({[0 := 2%nat; 1 := 3%nat; 2 := 4%nat; 3 := 1%nat; 4 := 5%nat]} : gmap Z nat) by (vm_compute; reflexivity).
  rewrite !lookup_insert_Some, !lookup_singleton_Some. lia.
Defined.

(** When setting up the standard streams fails, the table is marked
    initialised all the same: with an allocator that refuses once, the first
    insertion returns -1 with [ENOMEM] and the next one hands an ordinary
    object out as descriptor 0, in the place of stdin. *)
Example failed_stdio_gives_fd_0 :
  exists s1 s2, (e ← new_object 7; descriptor_table_insert e) (init_table (Env 0 [false])) = Done (-1) s1 /\
    errno s1 = ENOMEM /\ stdio_initialized s1 = true /\
    (e ← new_object 8; descriptor_table_insert e) s1 = Done 0 s2 /\ bodies s2 = {[2%nat := 8]}.
Proof. eexists _, _. split; [vm_compute; reflexivity|]. split_and!; vm_compute; reflexivity. Qed.

(** The leak check counts open standard descriptors and live objects, so a
    program that redirected one stream to another ([dup2(1, 2)]) and leaked
    nothing is stopped by the check's trap at exit. *)
Example leak_check_rejects_redirected_stderr :
  exists s1 s2, descriptor_table_dup 1 DUP_OP_DUP2 2 (init_table demo_env) = Done 2 s1 /\
    open_fds s1 = {[0 := 1%nat; 1 := 2%nat; 2 := 2%nat]} /\ dom (heap s1) = {[1; 2]}%nat /\
    __wasilibc_assert_no_descriptor_leaks s1 = Stop Trap s2.
Proof. eexists _, _. split; [vm_compute; reflexivity|]. split_and!; vm_compute; reflexivity. Qed.
