(* ===== verification/Object.v ===== *)
(** * Objects behind descriptors

    What the objects have in common: an operation of an object (a slot of its
    vtable, headers/private/wasi/descriptor_table.h) runs on the object itself,
    the run-time state and the log of host calls ([octx]). *)

From S2P Require Import Prelude Errno Time Stat Host DescTable.

(** An object under operation. *)
Record octx (T : Type) := Octx { self : T; octx_env : env; octx_log : list event }.
Arguments Octx {T} self octx_env octx_log.
Arguments self {T} _.
Arguments octx_env {T} _.
Arguments octx_log {T} _.

Global Instance octx_libc T : Libc (octx T) := {
  errno s := env_errno (octx_env s);
  with_errno e s := Octx (self s) (with_errno e (octx_env s)) (octx_log s);
  take_alloc s := let (b, v) := take_alloc (octx_env s) in (b, Octx (self s) v (octx_log s));
}.

Global Instance octx_logged T : Logged (octx T) := {
  history := octx_log;
  log e s := Octx (self s) (octx_env s) (octx_log s ++ [e]);
}.

Definition update {T} (f : T -> T) : M (octx T) unit :=
  modify (fun s => Octx (f (self s)) (octx_env s) (octx_log s)).

(** [if (h != 0) drop(h)] *)
Definition drop_if (h : Z) (e : event) : list event := if negb (h =? 0) then [e] else [].

(** The parts of [wasi_read_t] and [wasi_write_t] that are not pointers into
    the object: the stream, whether it has an offset, blocking, timeout. *)
Record wasi_io := Io { io_stream : Z; io_has_offset : bool; io_blocking : bool; io_timeout : Z }.

Section code.
Context `{Host}.

Definition __wasilibc_pollable_block_on {St} `{Libc St} `{Logged St} (pollable timeout : Z) : M St Z :=
  if timeout =? 0 then ask (poll_pollable_block pollable) ;; mret 0 else
  timeout_pollable ← ask (monotonic_clock_subscribe_duration timeout);
  ret ← ask (poll_poll [pollable; timeout_pollable]);
  ask (poll_pollable_drop_own timeout_pollable) ;;
  if existsb (Z.eqb 0) ret then mret 0 else fail_with EWOULDBLOCK (-1).
End code.
