(* ===== verification/File.v ===== *)
(** * Files and standard streams

    sources/file.c and sources/wasip2_stdio.c in their wasip2 configuration:
    the objects behind descriptors and the slots of their vtables.
    Locks do not exist on wasip2, which has no threads. *)

From S2P Require Import Prelude Errno Time Stat Host DescTable Object.

(** ** Constants *)

Definition O_APPEND : Z := 0x0001.
Definition O_DSYNC : Z := 0x0002.
Definition O_NONBLOCK : Z := 0x0004.
Definition O_RSYNC : Z := 0x0008.
Definition O_SYNC : Z := 0x0010.
Definition O_CREAT : Z := Z.shiftl 0x0001 12.
Definition O_DIRECTORY : Z := Z.shiftl 0x0002 12.
Definition O_EXCL : Z := Z.shiftl 0x0004 12.
Definition O_TRUNC : Z := Z.shiftl 0x0008 12.
Definition O_NOFOLLOW : Z := 0x01000000.
Definition O_EXEC : Z := 0x02000000.
Definition O_RDONLY : Z := 0x04000000.
Definition O_SEARCH : Z := 0x08000000.
Definition O_WRONLY : Z := 0x10000000.
Definition O_CLOEXEC : Z := 0.
Definition O_RDWR : Z := Z.lor O_RDONLY O_WRONLY.
Definition O_ACCMODE : Z := Z.lor (Z.lor O_EXEC O_RDWR) O_SEARCH.

Definition SEEK_SET : Z := 0.
Definition SEEK_CUR : Z := 1.
Definition SEEK_END : Z := 2.

Definition DESCRIPTOR_FLAGS_READ : Z := Z.shiftl 1 0.
Definition DESCRIPTOR_FLAGS_WRITE : Z := Z.shiftl 1 1.

(** ** Objects *)

Record file_t := File {
  file_handle : Z;
  offset : Z;
  oflag : Z;
  read_stream : Z;
  write_stream : Z;
  read_pollable : Z;
  write_pollable : Z;
}.

Record stdio_t := Stdio {
  fd : Z;
  input : Z;
  output : Z;
  input_pollable : Z;
  output_pollable : Z;
  nonblocking : bool;
}.

(** ** Destructors *)

(** The calls [file_close_streams] makes, in its order. *)
Definition file_close_streams_calls (f : file_t) : list event :=
  drop_if (read_pollable f) (Ev (poll_pollable_drop_own (read_pollable f))) ++
  drop_if (write_pollable f) (Ev (poll_pollable_drop_own (write_pollable f))) ++
  drop_if (read_stream f) (Ev (streams_input_stream_drop_own (read_stream f))) ++
  drop_if (write_stream f) (Ev (streams_output_stream_drop_own (write_stream f))).

Definition file_close_streams : M (octx file_t) unit :=
  modify (fun s => let f := self s in
    Octx (File (file_handle f) (offset f) (oflag f) 0 0 0 0) (octx_env s) (octx_log s ++ file_close_streams_calls f)).

Definition file_free_calls (f : file_t) : list event :=
  file_close_streams_calls f ++ [Ev (descriptor_drop_own (file_handle f))].

Definition stdio_free_calls (s : stdio_t) : list event :=
  drop_if (input_pollable s) (Ev (poll_pollable_drop_own (input_pollable s))) ++
  drop_if (output_pollable s) (Ev (poll_pollable_drop_own (output_pollable s))) ++
  drop_if (input s) (Ev (streams_input_stream_drop_own (input s))) ++
  drop_if (output s) (Ev (streams_output_stream_drop_own (output s))).

(** ** Vtable slots *)

Section code.
Context `{Host}.

Definition set_read_stream (h : Z) (f : file_t) : file_t :=
  File (file_handle f) (offset f) (oflag f) h (write_stream f) (read_pollable f) (write_pollable f).
Definition set_write_stream (h : Z) (f : file_t) : file_t :=
  File (file_handle f) (offset f) (oflag f) (read_stream f) h (read_pollable f) (write_pollable f).
Definition set_offset (o : Z) (f : file_t) : file_t :=
  File (file_handle f) o (oflag f) (read_stream f) (write_stream f) (read_pollable f) (write_pollable f).
Definition set_oflag (o : Z) (f : file_t) : file_t :=
  File (file_handle f) (offset f) o (read_stream f) (write_stream f) (read_pollable f) (write_pollable f).

Definition file_get_read_stream : M (octx file_t) (Z * option wasi_io) :=
  f ← gets self;
  rc ← (if read_stream f =? 0 then
          r ← ask (descriptor_read_via_stream (file_handle f) (u64 (offset f)));
          match r with
          | inl h => update (set_read_stream h) ;; mret 0
          | inr e => translate_error_p2 e ;; mret (-1)
          end
        else mret 0);
  if rc <? 0 then mret (-1, None) else
  f ← gets self;
  mret (0, Some (Io (read_stream f) true true 0)).

Definition file_get_write_stream : M (octx file_t) (Z * option wasi_io) :=
  f ← gets self;
  rc ← (if write_stream f =? 0 then
          r ← (if has (oflag f) O_APPEND then ask (descriptor_append_via_stream (file_handle f))
               else ask (descriptor_write_via_stream (file_handle f) (u64 (offset f))));
          match r with
          | inl h => update (set_write_stream h) ;; mret 0
          | inr e => translate_error_p2 e ;; mret (-1)
          end
        else mret 0);
  if rc <? 0 then mret (-1, None) else
  f ← gets self;
  mret (0, Some (Io (write_stream f) true true 0)).

Definition file_fstat : M (octx file_t) (Z * option stat) :=
  f ← gets self;
  m ← ask (descriptor_metadata_hash (file_handle f));
  match m with
  | inr e => translate_error_p2 e ;; mret (-1, None)
  | inl metadata =>
      st ← ask (descriptor_stat_ (file_handle f));
      match st with
      | inr e => translate_error_p2 e ;; mret (-1, None)
      | inl internal_stat => mret (0, Some (to_public_stat_p2 metadata internal_stat))
      end
  end.

Definition file_seek_end : M (octx file_t) Z :=
  f ← gets self;
  st ← ask (descriptor_stat_ (file_handle f));
  match st with
  | inr e => translate_error_p2 e ;; mret (-1)
  | inl st => update (set_offset (i64 (d_size st))) ;; mret 0
  end.

(** The end of [file_seek], with the position the [switch] computed. *)
Definition file_seek_to (result : Z) : M (octx file_t) Z :=
  if result <? 0 then fail_with EINVAL (-1) else
  f ← gets self;
  (if negb (result =? offset f) then file_close_streams ;; update (set_offset result) else mret tt) ;;
  gets (fun s => offset (self s)).

Definition file_seek (off whence : Z) : M (octx file_t) Z :=
  f ← gets self;
  rc ← (if has (oflag f) O_APPEND then file_seek_end else mret 0);
  if rc <? 0 then mret (-1) else
  if whence =? SEEK_SET then file_seek_to off else
  if whence =? SEEK_CUR then
    f ← gets self; file_seek_to (i64 (offset f + off))
  else if whence =? SEEK_END then
    rc ← (if negb (has (oflag f) O_APPEND) then file_seek_end else mret 0);
    if rc <? 0 then mret (-1) else
    f ← gets self; file_seek_to (i64 (offset f + off))
  else fail_with EINVAL (-1).

Definition file_set_blocking (blocking : bool) : M (octx file_t) Z :=
  update (fun f => set_oflag (if blocking then Z.land (oflag f) (Z.lnot O_NONBLOCK) else Z.lor (oflag f) O_NONBLOCK) f) ;;
  mret 0.

Definition file_fcntl_getfl : M (octx file_t) Z :=
  f ← gets self;
  r ← ask (descriptor_get_flags (file_handle f));
  match r with
  | inr e => translate_error_p2 e ;; mret (-1)
  | inl flags =>
      let oflags := Z.land (oflag f) (Z.lor O_NONBLOCK O_APPEND) in
      mret (Z.lor oflags
        (if has flags DESCRIPTOR_FLAGS_READ then
           if has flags DESCRIPTOR_FLAGS_WRITE then O_RDWR else O_RDONLY
         else if has flags DESCRIPTOR_FLAGS_WRITE then O_WRONLY else O_SEARCH))
  end.

Definition file_fcntl_setfl (flags : Z) : M (octx file_t) Z :=
  let flags := Z.land flags (Z.lor O_NONBLOCK O_APPEND) in
  update (fun f => set_oflag (Z.lor (Z.land (oflag f) (Z.lnot (Z.lor O_NONBLOCK O_APPEND))) flags) f) ;;
  mret 0.

(** *** Standard streams *)

Definition set_input (h : Z) (s : stdio_t) : stdio_t :=
  Stdio (fd s) h (output s) (input_pollable s) (output_pollable s) (nonblocking s).
Definition set_output (h : Z) (s : stdio_t) : stdio_t :=
  Stdio (fd s) (input s) h (input_pollable s) (output_pollable s) (nonblocking s).
Definition set_nonblocking (b : bool) (s : stdio_t) : stdio_t :=
  Stdio (fd s) (input s) (output s) (input_pollable s) (output_pollable s) b.

Definition stdio_get_read_stream : M (octx stdio_t) (Z * option wasi_io) :=
  s ← gets self;
  if negb (fd s =? 0) then fail_with EOPNOTSUPP (-1, None) else
  (if input s =? 0 then h ← ask stdin_get_stdin; update (set_input h) else mret tt) ;;
  s ← gets self;
  mret (0, Some (Io (input s) false (negb (nonblocking s)) 0)).

Definition stdio_get_write_stream : M (octx stdio_t) (Z * option wasi_io) :=
  s ← gets self;
  rc ← (if output s =? 0 then
          if fd s =? 1 then h ← ask stdout_get_stdout; update (set_output h) ;; mret 0
          else if fd s =? 2 then h ← ask stderr_get_stderr; update (set_output h) ;; mret 0
          else fail_with EOPNOTSUPP (-1)
        else mret 0);
  if rc <? 0 then mret (-1, None) else
  s ← gets self;
  mret (0, Some (Io (output s) false (negb (nonblocking s)) 0)).

Definition zero_stat : stat := Stat 0 0 0 0 0 (Timespec 0 0) (Timespec 0 0) (Timespec 0 0).

Definition stdio_fstat : M (octx stdio_t) (Z * option stat) := mret (0, Some zero_stat).

Definition stdio_fcntl_getfl : M (octx stdio_t) Z :=
  s ← gets self;
  let flags := if nonblocking s then O_NONBLOCK else 0 in
  mret (Z.lor (if fd s =? 0 then O_RDONLY else O_WRONLY) flags).

Definition stdio_fcntl_setfl (flags : Z) : M (octx stdio_t) Z :=
  update (set_nonblocking (has flags O_NONBLOCK)) ;; mret 0.

Definition stdio_set_blocking (blocking : bool) : M (octx stdio_t) Z :=
  update (set_nonblocking (negb blocking)) ;; mret 0.

Definition stdio_isatty : M (octx stdio_t) Z :=
  s ← gets self;
  t ← (if (0 <=? fd s) && (fd s <=? 2) then ask (terminal_get (fd s)) else mret None);
  match t with
  | Some term => ask (terminal_drop_own term) ;; mret 1
  | None => fail_with ENOTTY 0
  end.
End code.
