(* ===== verification/Tcp.v ===== *)
(** * TCP sockets

    sources/tcp.c for wasip2: the state machine behind a TCP socket and the
    slots of [tcp_vtable]. A call that the host cannot finish at once is
    repeated after blocking on the pollable of the socket, when the socket is
    blocking; [fuel] bounds how often. *)

From S2P Require Import Prelude Errno Time Stat SockAddr Host DescTable Object File.

(** ** Constants *)

Definition SHUT_RD : Z := 1.
Definition SHUT_WR : Z := 2.
Definition SHUT_RDWR : Z := Z.lor SHUT_RD SHUT_WR.
Definition MSG_DONTWAIT : Z := 0x0040.
Definition MSG_NOSIGNAL : Z := 0x4000.
Definition SOCK_DGRAM : Z := 5.
Definition SOCK_STREAM : Z := 6.
Definition SOCK_NONBLOCK : Z := 0x00004000.
Definition SOCK_CLOEXEC : Z := 0x00002000.
Definition IPPROTO_TCP : Z := 6.
Definition SOL_SOCKET : Z := 0x7fffffff.
Definition SOL_IP : Z := 0.
Definition SOL_TCP : Z := 6.
Definition SOL_IPV6 : Z := 41.
Definition SO_REUSEADDR : Z := 2.
Definition SO_TYPE : Z := 3.
Definition SO_ERROR : Z := 4.
Definition SO_SNDBUF : Z := 7.
Definition SO_RCVBUF : Z := 8.
Definition SO_KEEPALIVE : Z := 9.
Definition SO_ACCEPTCONN : Z := 30.
Definition SO_PROTOCOL : Z := 38.
Definition SO_DOMAIN : Z := 39.
Definition SO_RCVTIMEO : Z := 66.
Definition SO_SNDTIMEO : Z := 67.
Definition IP_TTL : Z := 2.
Definition IPV6_UNICAST_HOPS : Z := 16.
Definition IPV6_V6ONLY : Z := 26.
Definition TCP_NODELAY : Z := 1.
Definition TCP_KEEPIDLE : Z := 4.
Definition TCP_KEEPINTVL : Z := 5.
Definition TCP_KEEPCNT : Z := 6.
Definition TCP_SHUTDOWN_TYPE_RECEIVE : Z := 0.
Definition TCP_SHUTDOWN_TYPE_SEND : Z := 1.
Definition TCP_SHUTDOWN_TYPE_BOTH : Z := 2.
Definition NS_PER_S : Z := 1000000000.
Definition INT_MAX : Z := 2 ^ 31 - 1.
Definition UINT8_MAX : Z := 255.
Definition sizeof_int : Z := 4.

(** ** The object *)

Record connected_t := Connected {
  tcp_input : Z;
  tcp_input_pollable : Z;
  tcp_output : Z;
  tcp_output_pollable : Z;
}.

Inductive tcp_socket_state :=
| TCP_SOCKET_STATE_UNBOUND
| TCP_SOCKET_STATE_BOUND
| TCP_SOCKET_STATE_CONNECTING
| TCP_SOCKET_STATE_CONNECTED (connected : connected_t)
| TCP_SOCKET_STATE_CONNECT_FAILED (error_code : Z)
| TCP_SOCKET_STATE_LISTENING.

Record tcp_socket_t := Tcp {
  tcp_socket : Z;
  tcp_state : tcp_socket_state;
  socket_pollable : Z;
  blocking : bool;
  fake_nodelay : bool;
  fake_reuseaddr : bool;
  family : ip_address_family;
  send_timeout : Z;
  recv_timeout : Z;
}.

Definition set_tcp_state (st : tcp_socket_state) (t : tcp_socket_t) : tcp_socket_t :=
  Tcp (tcp_socket t) st (socket_pollable t) (blocking t) (fake_nodelay t) (fake_reuseaddr t) (family t) (send_timeout t) (recv_timeout t).
Definition set_socket_pollable (h : Z) (t : tcp_socket_t) : tcp_socket_t :=
  Tcp (tcp_socket t) (tcp_state t) h (blocking t) (fake_nodelay t) (fake_reuseaddr t) (family t) (send_timeout t) (recv_timeout t).
Definition set_tcp_blocking (b : bool) (t : tcp_socket_t) : tcp_socket_t :=
  Tcp (tcp_socket t) (tcp_state t) (socket_pollable t) b (fake_nodelay t) (fake_reuseaddr t) (family t) (send_timeout t) (recv_timeout t).
Definition set_fake_nodelay (b : bool) (t : tcp_socket_t) : tcp_socket_t :=
  Tcp (tcp_socket t) (tcp_state t) (socket_pollable t) (blocking t) b (fake_reuseaddr t) (family t) (send_timeout t) (recv_timeout t).
Definition set_fake_reuseaddr (b : bool) (t : tcp_socket_t) : tcp_socket_t :=
  Tcp (tcp_socket t) (tcp_state t) (socket_pollable t) (blocking t) (fake_nodelay t) b (family t) (send_timeout t) (recv_timeout t).
Definition set_timeouts (send recv : Z) (t : tcp_socket_t) : tcp_socket_t :=
  Tcp (tcp_socket t) (tcp_state t) (socket_pollable t) (blocking t) (fake_nodelay t) (fake_reuseaddr t) (family t) send recv.

(** The pollables of the streams of a connected socket. *)
Definition input_pollable_of (t : tcp_socket_t) : Z :=
  match tcp_state t with TCP_SOCKET_STATE_CONNECTED c => tcp_input_pollable c | _ => 0 end.
Definition output_pollable_of (t : tcp_socket_t) : Z :=
  match tcp_state t with TCP_SOCKET_STATE_CONNECTED c => tcp_output_pollable c | _ => 0 end.
Definition set_input_pollable (h : Z) (t : tcp_socket_t) : tcp_socket_t :=
  match tcp_state t with
  | TCP_SOCKET_STATE_CONNECTED c => set_tcp_state (TCP_SOCKET_STATE_CONNECTED (Connected (tcp_input c) h (tcp_output c) (tcp_output_pollable c))) t
  | _ => t
  end.
Definition set_output_pollable (h : Z) (t : tcp_socket_t) : tcp_socket_t :=
  match tcp_state t with
  | TCP_SOCKET_STATE_CONNECTED c => set_tcp_state (TCP_SOCKET_STATE_CONNECTED (Connected (tcp_input c) (tcp_input_pollable c) (tcp_output c) h)) t
  | _ => t
  end.

(** The object [tcp_add] makes. *)
Definition new_tcp (socket : Z) (f : ip_address_family) (b : bool) : tcp_socket_t :=
  Tcp socket TCP_SOCKET_STATE_UNBOUND 0 b false false f 0 0.

(** [state.connected] cleared, then the streams stored. *)
Definition connected_state (input output : Z) : tcp_socket_state := TCP_SOCKET_STATE_CONNECTED (Connected input 0 output 0).

(** The calls of [tcp_free], in its order. *)
Definition tcp_free_calls (t : tcp_socket_t) : list event :=
  match tcp_state t with
  | TCP_SOCKET_STATE_CONNECTED c =>
      drop_if (tcp_input_pollable c) (Ev (poll_pollable_drop_own (tcp_input_pollable c))) ++
      drop_if (tcp_output_pollable c) (Ev (poll_pollable_drop_own (tcp_output_pollable c))) ++
      [Ev (streams_input_stream_drop_own (tcp_input c)); Ev (streams_output_stream_drop_own (tcp_output c))]
  | _ => []
  end ++
  drop_if (socket_pollable t) (Ev (poll_pollable_drop_own (socket_pollable t))) ++
  [Ev (tcp_socket_drop_own (tcp_socket t))].

Section code.
Context `{Host}.

(** [__wasi_sockets_utils__borrow_network]: the static [global_network] is the
    answer to the first call of [instance_network], which nothing else calls. *)
Fixpoint global_network (past rest : list event) : option Z :=
  match rest with
  | [] => None
  | Ev c :: rest' =>
      match c in hostcall R return (list event -> hostcall R -> R) -> option Z with
      | instance_network => fun answer => Some (answer past instance_network)
      | _ => fun _ => global_network (past ++ [Ev c]) rest'
      end (host _)
  end.

Definition borrow_network {St} `{Logged St} : M St Z :=
  h ← gets history;
  match global_network [] h with
  | Some n => mret n
  | None => ask instance_network
  end.

(** ** Slots *)

Abbreviation MS := (M (octx tcp_socket_t)).

Definition tcp_get_read_stream : MS (Z * option wasi_io) :=
  t ← gets self;
  match tcp_state t with
  | TCP_SOCKET_STATE_CONNECTED c => mret (0, Some (Io (tcp_input c) false (blocking t) (recv_timeout t)))
  | _ => fail_with ENOTCONN (-1, None)
  end.

Definition tcp_get_write_stream : MS (Z * option wasi_io) :=
  t ← gets self;
  match tcp_state t with
  | TCP_SOCKET_STATE_CONNECTED c => mret (0, Some (Io (tcp_output c) false (blocking t) (send_timeout t)))
  | _ => fail_with ENOTCONN (-1, None)
  end.

Definition tcp_set_blocking (b : bool) : MS Z := update (set_tcp_blocking b) ;; mret 0.

Definition tcp_fstat : MS (Z * option stat) :=
  mret (0, Some (Stat 0 0 0 S_IFSOCK 0 (Timespec 0 0) (Timespec 0 0) (Timespec 0 0))).

Definition tcp_pollable : MS Z :=
  t ← gets self;
  (if socket_pollable t =? 0 then h ← ask (tcp_subscribe (tcp_socket t)); update (set_socket_pollable h) else mret tt) ;;
  gets (fun s => socket_pollable (self s)).

Definition tcp_handle_error (error : Z) : MS Z :=
  t ← gets self;
  if (error =? NETWORK_ERROR_CODE_WOULD_BLOCK) && blocking t then
    p ← tcp_pollable; ask (poll_pollable_block p) ;; mret 0
  else __wasilibc_socket_error_to_errno error.

(** [while (!call(..., &error)) if (tcp_handle_error(socket, &error) < 0) return -1;]
    the error it gave up with is [inr]. *)
Fixpoint tcp_repeat {A : Set} (fuel : nat) (call : hostcall (A + Z)) : MS (A + Z) :=
  r ← ask call;
  match r with
  | inl a => mret (inl a)
  | inr error =>
      rc ← tcp_handle_error error;
      if rc <? 0 then mret (inr error) else
      match fuel with O => halt Fuel | S fuel' => tcp_repeat fuel' call end
  end.

(** [if (!call(..., &error)) return __wasilibc_socket_error_to_errno(&error);] *)
Definition or_fail {A B : Type} (r : A + Z) (bad : B) (k : A -> MS B) : MS B :=
  match r with
  | inl a => k a
  | inr error => __wasilibc_socket_error_to_errno error ;; mret bad
  end.

Definition tcp_do_bind (fuel : nat) (address : ip_socket_address) : MS Z :=
  t ← gets self;
  match tcp_state t with
  | TCP_SOCKET_STATE_UNBOUND =>
      network ← borrow_network;
      r ← ask (tcp_start_bind (tcp_socket t) network address);
      or_fail r (-1) (fun _ =>
        r ← tcp_repeat fuel (tcp_finish_bind (tcp_socket t));
        match r with
        | inr _ => mret (-1)
        | inl _ => update (set_tcp_state TCP_SOCKET_STATE_BOUND) ;; mret 0
        end)
  | _ => fail_with EINVAL (-1)
  end.

Definition tcp_bind (fuel : nat) (addr : option (list Z)) (addrlen : Z) : MS Z :=
  t ← gets self;
  local_address ← __wasilibc_sockaddr_to_wasi (family t) addr addrlen;
  match local_address with
  | None => mret (-1)
  | Some a => tcp_do_bind fuel a
  end.

(** The part of [tcp_connect] after the checks. *)
Definition tcp_do_connect (fuel : nat) (remote_address : ip_socket_address) : MS Z :=
  t ← gets self;
  network ← borrow_network;
  r ← ask (tcp_start_connect (tcp_socket t) network remote_address);
  or_fail r (-1) (fun _ =>
    update (set_tcp_state TCP_SOCKET_STATE_CONNECTING) ;;
    r ← tcp_repeat fuel (tcp_finish_connect (tcp_socket t));
    match r with
    | inr error =>
        if error =? NETWORK_ERROR_CODE_WOULD_BLOCK then fail_with EINPROGRESS (-1)
        else update (set_tcp_state (TCP_SOCKET_STATE_CONNECT_FAILED error)) ;; mret (-1)
    | inl (input, output) => update (set_tcp_state (connected_state input output)) ;; mret 0
    end).

Definition tcp_connect (fuel : nat) (addr : option (list Z)) (addrlen : Z) : MS Z :=
  t ← gets self;
  remote_address ← __wasilibc_sockaddr_to_wasi (family t) addr addrlen;
  match remote_address with
  | None => mret (-1)
  | Some a =>
      match tcp_state t with
      | TCP_SOCKET_STATE_UNBOUND | TCP_SOCKET_STATE_BOUND => tcp_do_connect fuel a
      | TCP_SOCKET_STATE_CONNECTING => fail_with EALREADY (-1)
      | TCP_SOCKET_STATE_CONNECTED _ => fail_with EISCONN (-1)
      | TCP_SOCKET_STATE_CONNECT_FAILED _ | TCP_SOCKET_STATE_LISTENING => fail_with EOPNOTSUPP (-1)
      end
  end.

(** What is stored behind the pointers of the caller is the second component. *)
Definition tcp_address (call : hostcall (ip_socket_address + Z)) (output_addr : output_sockaddr) : MS (Z * option (list Z * Z)) :=
  r ← ask call;
  or_fail r (-1, None) (fun result =>
    out ← __wasilibc_wasi_to_sockaddr result output_addr; mret (0, Some out)).

Definition tcp_getsockname (addr : bool) (addrlen : option Z) : MS (Z * option (list Z * Z)) :=
  t ← gets self;
  o ← __wasilibc_sockaddr_validate (family t) addr addrlen;
  match o with
  | None => mret (-1, None)
  | Some OUTPUT_SOCKADDR_NULL => fail_with EINVAL (-1, None)
  | Some output_addr =>
      match tcp_state t with
      | TCP_SOCKET_STATE_UNBOUND => fail_with EINVAL (-1, None)
      | _ => tcp_address (tcp_local_address (tcp_socket t)) output_addr
      end
  end.

Definition tcp_getpeername (addr : bool) (addrlen : option Z) : MS (Z * option (list Z * Z)) :=
  t ← gets self;
  o ← __wasilibc_sockaddr_validate (family t) addr addrlen;
  match o with
  | None => mret (-1, None)
  | Some OUTPUT_SOCKADDR_NULL => fail_with EINVAL (-1, None)
  | Some output_addr =>
      match tcp_state t with
      | TCP_SOCKET_STATE_CONNECTED _ => tcp_address (tcp_remote_address (tcp_socket t)) output_addr
      | _ => fail_with ENOTCONN (-1, None)
      end
  end.

(** The part of [tcp_listen] after the [switch]. *)
Definition tcp_do_listen (fuel : nat) (backlog : Z) : MS Z :=
  t ← gets self;
  r ← ask (tcp_set_listen_backlog_size (tcp_socket t) backlog);
  or_fail r (-1) (fun _ =>
    match tcp_state t with
    | TCP_SOCKET_STATE_LISTENING => mret 0
    | _ =>
        r ← ask (tcp_start_listen (tcp_socket t));
        or_fail r (-1) (fun _ =>
          r ← tcp_repeat fuel (tcp_finish_listen (tcp_socket t));
          match r with
          | inr _ => mret (-1)
          | inl _ => update (set_tcp_state TCP_SOCKET_STATE_LISTENING) ;; mret 0
          end)
    end).

Definition tcp_listen (fuel : nat) (backlog : Z) : MS Z :=
  let backlog := if backlog <? 1 then 1 else backlog in
  t ← gets self;
  match tcp_state t with
  | TCP_SOCKET_STATE_UNBOUND =>
      rc ← tcp_do_bind fuel (__wasilibc_unspecified_addr (family t));
      if rc <? 0 then mret (-1) else
      t ← gets self;
      match tcp_state t with
      | TCP_SOCKET_STATE_BOUND => tcp_do_listen fuel backlog
      | _ => halt Trap
      end
  | TCP_SOCKET_STATE_BOUND | TCP_SOCKET_STATE_LISTENING => tcp_do_listen fuel backlog
  | _ => fail_with EINVAL (-1)
  end.

(** The part of [tcp_accept4] before a new object is made: the socket and the
    streams of the client. *)
Definition tcp_accept_client (fuel : nat) (addr : bool) (addrlen : option Z) : MS (option (output_sockaddr * (Z * Z * Z))) :=
  t ← gets self;
  o ← __wasilibc_sockaddr_validate (family t) addr addrlen;
  match o with
  | None => mret None
  | Some output_addr =>
      match tcp_state t with
      | TCP_SOCKET_STATE_LISTENING =>
          r ← tcp_repeat fuel (tcp_accept (tcp_socket t));
          match r with
          | inr _ => mret None
          | inl client_and_io => mret (Some (output_addr, client_and_io))
          end
      | _ => fail_with EINVAL None
      end
  end.

Definition tcp_shutdown_ (posix_how : Z) : MS Z :=
  t ← gets self;
  match tcp_state t with
  | TCP_SOCKET_STATE_CONNECTED _ =>
      let send wasi_how := r ← ask (tcp_shutdown (tcp_socket t) wasi_how); or_fail r (-1) (fun _ => mret 0) in
      if posix_how =? SHUT_RD then send TCP_SHUTDOWN_TYPE_RECEIVE else
      if posix_how =? SHUT_WR then send TCP_SHUTDOWN_TYPE_SEND else
      if posix_how =? SHUT_RDWR then send TCP_SHUTDOWN_TYPE_BOTH else
      fail_with EINVAL (-1)
  | _ => fail_with ENOTCONN (-1)
  end.

Definition tcp_fcntl_getfl : MS Z :=
  t ← gets self;
  mret (if negb (blocking t) then O_NONBLOCK else 0).

Definition tcp_fcntl_setfl (flags : Z) : MS Z :=
  update (set_tcp_blocking (negb (has flags O_NONBLOCK))) ;; mret 0.

(** ** Options *)

(** The integer copied out: [memcpy(optval, &value, ...); *optlen = sizeof(int)] *)
Definition int_option (value optlen : Z) : Z * option (list Z * Z) :=
  (0, Some (take (Z.to_nat (if optlen <? sizeof_int then optlen else sizeof_int)) (le_bytes 4 (u32 value)), sizeof_int)).

Definition clamp_int (x : Z) : Z := if INT_MAX <? x then INT_MAX else x.

(** Nanoseconds in seconds, never 0. *)
Definition seconds_option (ns : Z) : Z :=
  let s := ns / NS_PER_S in
  clamp_int (if s =? 0 then 1 else s).

Definition get_option (o : socket_option) (t : tcp_socket_t) (optlen : Z) (f : Z -> Z) : MS (Z * option (list Z * Z)) :=
  r ← ask (tcp_get_option o (tcp_socket t));
  or_fail r (-1, None) (fun v => mret (int_option (f v) optlen)).

Definition tcp_getsockopt_socket (t : tcp_socket_t) (optname optlen : Z) : MS (Z * option (list Z * Z)) :=
  if optname =? SO_TYPE then mret (int_option SOCK_STREAM optlen) else
  if optname =? SO_PROTOCOL then mret (int_option IPPROTO_TCP optlen) else
  if optname =? SO_DOMAIN then mret (int_option (__wasilibc_wasi_family_to_libc (family t)) optlen) else
  if optname =? SO_ERROR then
    match tcp_state t with
    | TCP_SOCKET_STATE_CONNECT_FAILED error_code => v ← __wasilibc_map_socket_error error_code; mret (int_option v optlen)
    | TCP_SOCKET_STATE_CONNECTING => mret (int_option EINPROGRESS optlen)
    | _ => mret (int_option 0 optlen)
    end
  else if optname =? SO_ACCEPTCONN then
    let is_listening := match tcp_state t with TCP_SOCKET_STATE_LISTENING => true | _ => false end in
    l ← ask (tcp_is_listening (tcp_socket t));
    if xorb is_listening l then halt Trap else mret (int_option (if is_listening then 1 else 0) optlen)
  else if optname =? SO_KEEPALIVE then get_option KEEP_ALIVE_ENABLED t optlen id
  else if optname =? SO_RCVBUF then get_option RECEIVE_BUFFER_SIZE t optlen clamp_int
  else if optname =? SO_SNDBUF then get_option SEND_BUFFER_SIZE t optlen clamp_int
  else if optname =? SO_REUSEADDR then mret (int_option (if fake_reuseaddr t then 1 else 0) optlen)
  else if optname =? SO_RCVTIMEO then mret (0, Some (__wasilibc_getsockopt_timeout (recv_timeout t) optlen))
  else if optname =? SO_SNDTIMEO then mret (0, Some (__wasilibc_getsockopt_timeout (send_timeout t) optlen))
  else fail_with ENOPROTOOPT (-1, None).

Definition is_ipv6 (f : ip_address_family) : bool := match f with IPV6 => true | IPV4 => false end.

Definition tcp_getsockopt (level optname optlen : Z) : MS (Z * option (list Z * Z)) :=
  t ← gets self;
  if level =? SOL_SOCKET then tcp_getsockopt_socket t optname optlen else
  if level =? SOL_IP then
    if optname =? IP_TTL then
      if is_ipv6 (family t) then fail_with EAFNOSUPPORT (-1, None) else get_option HOP_LIMIT t optlen id
    else fail_with ENOPROTOOPT (-1, None)
  else if level =? SOL_IPV6 then
    if optname =? IPV6_UNICAST_HOPS then
      if negb (is_ipv6 (family t)) then fail_with EAFNOSUPPORT (-1, None) else get_option HOP_LIMIT t optlen id
    else if optname =? IPV6_V6ONLY then
      if negb (is_ipv6 (family t)) then fail_with EAFNOSUPPORT (-1, None) else mret (int_option 1 optlen)
    else fail_with ENOPROTOOPT (-1, None)
  else if level =? SOL_TCP then
    if optname =? TCP_NODELAY then mret (int_option (if fake_nodelay t then 1 else 0) optlen) else
    if optname =? TCP_KEEPIDLE then get_option KEEP_ALIVE_IDLE_TIME t optlen seconds_option else
    if optname =? TCP_KEEPINTVL then get_option KEEP_ALIVE_INTERVAL t optlen seconds_option else
    if optname =? TCP_KEEPCNT then get_option KEEP_ALIVE_COUNT t optlen clamp_int else
    fail_with ENOPROTOOPT (-1, None)
  else fail_with ENOPROTOOPT (-1, None).

Definition set_option (o : socket_option) (t : tcp_socket_t) (v : Z) : MS Z :=
  r ← ask (tcp_set_option o (tcp_socket t) v); or_fail r (-1) (fun _ => mret 0).

Definition set_hop_limit (t : tcp_socket_t) (intval : Z) : MS Z :=
  if (intval <? 0) || (UINT8_MAX <? intval) then fail_with EINVAL (-1) else set_option HOP_LIMIT t intval.

Definition tcp_setsockopt_socket (t : tcp_socket_t) (optname : Z) (optval : list Z) (optlen intval : Z) : MS Z :=
  if optname =? SO_KEEPALIVE then set_option KEEP_ALIVE_ENABLED t (if intval =? 0 then 0 else 1) else
  if optname =? SO_RCVBUF then set_option RECEIVE_BUFFER_SIZE t (u64 intval) else
  if optname =? SO_SNDBUF then set_option SEND_BUFFER_SIZE t (u64 intval) else
  if optname =? SO_REUSEADDR then update (set_fake_reuseaddr (negb (intval =? 0))) ;; mret 0 else
  if optname =? SO_RCVTIMEO then
    d ← __wasilibc_setsockopt_timeout optval optlen;
    match d with None => mret (-1) | Some d => update (fun t => set_timeouts (send_timeout t) d t) ;; mret 0 end
  else if optname =? SO_SNDTIMEO then
    d ← __wasilibc_setsockopt_timeout optval optlen;
    match d with None => mret (-1) | Some d => update (fun t => set_timeouts d (recv_timeout t) t) ;; mret 0 end
  else fail_with ENOPROTOOPT (-1).

Definition tcp_setsockopt (level optname : Z) (optval : list Z) (optlen : Z) : MS Z :=
  t ← gets self;
  if optlen <? sizeof_int then fail_with EINVAL (-1) else
  let intval := i32 (field 0 4 optval) in
  if level =? SOL_SOCKET then tcp_setsockopt_socket t optname optval optlen intval else
  if level =? SOL_IP then
    if optname =? IP_TTL then
      if is_ipv6 (family t) then fail_with EAFNOSUPPORT (-1) else set_hop_limit t intval
    else fail_with ENOPROTOOPT (-1)
  else if level =? SOL_IPV6 then
    if optname =? IPV6_UNICAST_HOPS then
      if negb (is_ipv6 (family t)) then fail_with EAFNOSUPPORT (-1) else set_hop_limit t intval
    else if optname =? IPV6_V6ONLY then
      if negb (is_ipv6 (family t)) then fail_with EAFNOSUPPORT (-1) else
      if intval =? 0 then fail_with EOPNOTSUPP (-1) else mret 0
    else fail_with ENOPROTOOPT (-1)
  else if level =? SOL_TCP then
    if optname =? TCP_NODELAY then update (set_fake_nodelay (negb (intval =? 0))) ;; mret 0 else
    if optname =? TCP_KEEPIDLE then set_option KEEP_ALIVE_IDLE_TIME t (u64 (intval * NS_PER_S)) else
    if optname =? TCP_KEEPINTVL then set_option KEEP_ALIVE_INTERVAL t (u64 (intval * NS_PER_S)) else
    if optname =? TCP_KEEPCNT then set_option KEEP_ALIVE_COUNT t (u32 intval) else
    fail_with ENOPROTOOPT (-1)
  else fail_with ENOPROTOOPT (-1).
End code.
