(* ===== verification/Udp.v ===== *)
(** * UDP sockets

    sources/udp.c for wasip2: a socket is bound, and its datagram streams are
    made when they are first needed or when the socket is connected. *)

From S2P Require Import Prelude Errno Time Stat SockAddr Host DescTable Object File Tcp.

Definition MSG_TRUNC : Z := 0x0020.
Definition IPPROTO_UDP : Z := 17.
Definition AF_UNSPEC : Z := 0.

Record udp_socket_streams_t := Streams {
  incoming : Z;
  incoming_pollable : Z;
  outgoing : Z;
  outgoing_pollable : Z;
}.

Inductive udp_socket_state :=
| UDP_SOCKET_STATE_UNBOUND
| UDP_SOCKET_STATE_BOUND_NOSTREAMS
| UDP_SOCKET_STATE_BOUND_STREAMING (streams : udp_socket_streams_t)
| UDP_SOCKET_STATE_CONNECTED (streams : udp_socket_streams_t).

Record udp_socket_t := Udp {
  udp_socket : Z;
  udp_socket_pollable : Z;
  udp_blocking : bool;
  udp_family : ip_address_family;
  udp_state : udp_socket_state;
  udp_send_timeout : Z;
  udp_recv_timeout : Z;
}.

Definition set_udp_state (st : udp_socket_state) (u : udp_socket_t) : udp_socket_t :=
  Udp (udp_socket u) (udp_socket_pollable u) (udp_blocking u) (udp_family u) st (udp_send_timeout u) (udp_recv_timeout u).
Definition set_udp_pollable (h : Z) (u : udp_socket_t) : udp_socket_t :=
  Udp (udp_socket u) h (udp_blocking u) (udp_family u) (udp_state u) (udp_send_timeout u) (udp_recv_timeout u).
Definition set_udp_blocking (b : bool) (u : udp_socket_t) : udp_socket_t :=
  Udp (udp_socket u) (udp_socket_pollable u) b (udp_family u) (udp_state u) (udp_send_timeout u) (udp_recv_timeout u).
Definition set_udp_timeouts (send recv : Z) (u : udp_socket_t) : udp_socket_t :=
  Udp (udp_socket u) (udp_socket_pollable u) (udp_blocking u) (udp_family u) (udp_state u) send recv.

Definition new_udp (socket : Z) (f : ip_address_family) (b : bool) : udp_socket_t :=
  Udp socket 0 b f UDP_SOCKET_STATE_UNBOUND 0 0.

Definition udp_streams (u : udp_socket_t) : option udp_socket_streams_t :=
  match udp_state u with
  | UDP_SOCKET_STATE_BOUND_STREAMING st | UDP_SOCKET_STATE_CONNECTED st => Some st
  | _ => None
  end.

(** The streams of a socket replaced, in the state it is in. *)
Definition set_streams (st : udp_socket_streams_t) (u : udp_socket_t) : udp_socket_t :=
  match udp_state u with
  | UDP_SOCKET_STATE_BOUND_STREAMING _ => set_udp_state (UDP_SOCKET_STATE_BOUND_STREAMING st) u
  | UDP_SOCKET_STATE_CONNECTED _ => set_udp_state (UDP_SOCKET_STATE_CONNECTED st) u
  | _ => u
  end.

(** The calls of [udp_close_streams], in its order. *)
Definition udp_close_streams_calls (st : udp_socket_streams_t) : list event :=
  drop_if (incoming_pollable st) (Ev (poll_pollable_drop_own (incoming_pollable st))) ++
  [Ev (incoming_datagram_stream_drop_own (incoming st))] ++
  drop_if (outgoing_pollable st) (Ev (poll_pollable_drop_own (outgoing_pollable st))) ++
  [Ev (outgoing_datagram_stream_drop_own (outgoing st))].

Definition udp_free_calls (u : udp_socket_t) : list event :=
  match udp_streams u with Some st => udp_close_streams_calls st | None => [] end ++
  drop_if (udp_socket_pollable u) (Ev (poll_pollable_drop_own (udp_socket_pollable u))) ++
  [Ev (udp_socket_drop_own (udp_socket u))].

Section code.
Context `{Host}.

Abbreviation MU := (M (octx udp_socket_t)).

(** [if (!call(..., &error)) return __wasilibc_socket_error_to_errno(&error);] *)
Definition udp_or_fail {A B : Type} (r : A + Z) (bad : B) (k : A -> MU B) : MU B :=
  match r with
  | inl a => k a
  | inr error => __wasilibc_socket_error_to_errno error ;; mret bad
  end.

(** The [Trap] is the [abort] at its start. *)
Definition udp_create_streams (remote_address : option ip_socket_address) : MU Z :=
  u ← gets self;
  match udp_state u with
  | UDP_SOCKET_STATE_BOUND_NOSTREAMS =>
      r ← ask (udp_stream (udp_socket u) remote_address);
      udp_or_fail r (-1) (fun io =>
        let st := Streams (fst io) 0 (snd io) 0 in
        update (set_udp_state (match remote_address with
          | Some _ => UDP_SOCKET_STATE_CONNECTED st
          | None => UDP_SOCKET_STATE_BOUND_STREAMING st
          end)) ;;
        mret 0)
  | _ => halt Trap
  end.

(** [udp_close_streams]; the caller changes the state of the socket. *)
Definition udp_close_streams (st : udp_socket_streams_t) : MU unit :=
  modify (fun s => Octx (self s) (octx_env s) (octx_log s ++ udp_close_streams_calls st)).

Definition udp_set_blocking (b : bool) : MU Z := update (set_udp_blocking b) ;; mret 0.

Definition udp_fstat : MU (Z * option stat) :=
  mret (0, Some (Stat 0 0 0 S_IFSOCK 0 (Timespec 0 0) (Timespec 0 0) (Timespec 0 0))).

Definition udp_pollable : MU Z :=
  u ← gets self;
  (if udp_socket_pollable u =? 0 then h ← ask (udp_subscribe (udp_socket u)); update (set_udp_pollable h) else mret tt) ;;
  gets (fun s => udp_socket_pollable (self s)).

(** The pollables of the streams [st], which are those of the socket. *)
Definition udp_incoming_pollable (st : udp_socket_streams_t) : MU udp_socket_streams_t :=
  if incoming_pollable st =? 0 then
    h ← ask (incoming_datagram_stream_subscribe (incoming st));
    let st := Streams (incoming st) h (outgoing st) (outgoing_pollable st) in
    update (set_streams st) ;; mret st
  else mret st.

Definition udp_outgoing_pollable (st : udp_socket_streams_t) : MU udp_socket_streams_t :=
  if outgoing_pollable st =? 0 then
    h ← ask (outgoing_datagram_stream_subscribe (outgoing st));
    let st := Streams (incoming st) (incoming_pollable st) (outgoing st) h in
    update (set_streams st) ;; mret st
  else mret st.

Definition udp_handle_error (error : Z) : MU Z :=
  u ← gets self;
  if (error =? NETWORK_ERROR_CODE_WOULD_BLOCK) && udp_blocking u then
    p ← udp_pollable; ask (poll_pollable_block p) ;; mret 0
  else __wasilibc_socket_error_to_errno error.

(** [while (!finish_bind(&error)) if (udp_handle_error(socket, &error) < 0) return -1;] *)
Fixpoint udp_finish_bind_loop (fuel : nat) (socket : Z) : MU bool :=
  r ← ask (udp_finish_bind socket);
  match r with
  | inl _ => mret true
  | inr error =>
      rc ← udp_handle_error error;
      if rc <? 0 then mret false else
      match fuel with O => halt Fuel | S fuel' => udp_finish_bind_loop fuel' socket end
  end.

Definition udp_do_bind (fuel : nat) (address : ip_socket_address) : MU Z :=
  u ← gets self;
  match udp_state u with
  | UDP_SOCKET_STATE_UNBOUND =>
      network ← borrow_network;
      r ← ask (udp_start_bind (udp_socket u) network address);
      udp_or_fail r (-1) (fun _ =>
        ok ← udp_finish_bind_loop fuel (udp_socket u);
        if negb ok then mret (-1) else
        update (set_udp_state UDP_SOCKET_STATE_BOUND_NOSTREAMS) ;; mret 0)
  | _ => fail_with EINVAL (-1)
  end.

Definition udp_bind (fuel : nat) (addr : option (list Z)) (addrlen : Z) : MU Z :=
  u ← gets self;
  local_address ← __wasilibc_sockaddr_to_wasi (udp_family u) addr addrlen;
  match local_address with
  | None => mret (-1)
  | Some a => udp_do_bind fuel a
  end.

(** The part of [udp_connect] after the address. *)
Definition udp_do_connect (fuel : nat) (remote_address : option ip_socket_address) : MU Z :=
  u ← gets self;
  rc ← match udp_state u with
       | UDP_SOCKET_STATE_UNBOUND => udp_do_bind fuel (__wasilibc_unspecified_addr (udp_family u))
       | _ => mret 0
       end;
  if rc <? 0 then mret (-1) else
  u ← gets self;
  match udp_streams u with
  | Some st => udp_close_streams st ;; update (set_udp_state UDP_SOCKET_STATE_BOUND_NOSTREAMS)
  | None => mret tt
  end ;;
  udp_create_streams remote_address.

Definition udp_connect (fuel : nat) (addr : option (list Z)) (addrlen : Z) : MU Z :=
  match addr with
  | None => fail_with EINVAL (-1)
  | Some mem =>
      if addrlen <? sizeof_sockaddr then fail_with EINVAL (-1) else
      if field 0 2 mem =? AF_UNSPEC then udp_do_connect fuel None else
      u ← gets self;
      remote_address ← __wasilibc_sockaddr_to_wasi (udp_family u) addr addrlen;
      match remote_address with
      | None => mret (-1)
      | Some a => udp_do_connect fuel (Some a)
      end
  end.

Definition udp_address (call : hostcall (ip_socket_address + Z)) (output_addr : output_sockaddr) : MU (Z * option (list Z * Z)) :=
  r ← ask call;
  udp_or_fail r (-1, None) (fun result =>
    out ← __wasilibc_wasi_to_sockaddr result output_addr; mret (0, Some out)).

Definition udp_getsockname (addr : bool) (addrlen : option Z) : MU (Z * option (list Z * Z)) :=
  u ← gets self;
  o ← __wasilibc_sockaddr_validate (udp_family u) addr addrlen;
  match o with
  | None => mret (-1, None)
  | Some OUTPUT_SOCKADDR_NULL => fail_with EINVAL (-1, None)
  | Some output_addr =>
      match udp_state u with
      | UDP_SOCKET_STATE_UNBOUND => fail_with EINVAL (-1, None)
      | _ => udp_address (udp_local_address (udp_socket u)) output_addr
      end
  end.

Definition udp_getpeername (addr : bool) (addrlen : option Z) : MU (Z * option (list Z * Z)) :=
  u ← gets self;
  o ← __wasilibc_sockaddr_validate (udp_family u) addr addrlen;
  match o with
  | None => mret (-1, None)
  | Some OUTPUT_SOCKADDR_NULL => fail_with EINVAL (-1, None)
  | Some output_addr =>
      match udp_state u with
      | UDP_SOCKET_STATE_CONNECTED _ => udp_address (udp_remote_address (udp_socket u)) output_addr
      | _ => fail_with ENOTCONN (-1, None)
      end
  end.

(** ** Datagrams *)

(** What a call stored: the bytes of the buffer, and the address. *)
Definition received : Type := Z * list Z * option (list Z * Z).

(** The loop of [udp_recvfrom]. *)
Fixpoint udp_recv_loop (fuel : nat) (st : udp_socket_streams_t) (length_ : Z) (output_addr : output_sockaddr)
    (return_real_size should_block : bool) (timeout : Z) : MU received :=
  r ← ask (incoming_datagram_stream_receive (incoming st) 1);
  udp_or_fail r (-1, [], None) (fun datagrams =>
    match datagrams with
    | (data, remote_address) :: _ =>
        let datagram_size := strlen data in
        let bytes_to_copy := if datagram_size <? length_ then datagram_size else length_ in
        out ← match output_addr with
              | OUTPUT_SOCKADDR_NULL => mret None
              | _ => o ← __wasilibc_wasi_to_sockaddr remote_address output_addr; mret (Some o)
              end;
        mret (if return_real_size then datagram_size else bytes_to_copy, take (Z.to_nat bytes_to_copy) data, out)
    | [] =>
        if negb should_block then fail_with EWOULDBLOCK (-1, [], None) else
        st ← udp_incoming_pollable st;
        rc ← __wasilibc_pollable_block_on (incoming_pollable st) timeout;
        if rc <? 0 then mret (-1, [], None) else
        match fuel with
        | O => halt Fuel
        | S fuel' => udp_recv_loop fuel' st length_ output_addr return_real_size should_block timeout
        end
    end).

Definition udp_recvfrom (fuel : nat) (length_ flags : Z) (addr : bool) (addrlen : option Z) : MU received :=
  if negb (Z.land flags (Z.lor MSG_DONTWAIT MSG_TRUNC) =? flags) then fail_with EOPNOTSUPP (-1, [], None) else
  u ← gets self;
  o ← __wasilibc_sockaddr_validate (udp_family u) addr addrlen;
  match o with
  | None => mret (-1, [], None)
  | Some output_addr =>
      rc ← match udp_state u with UDP_SOCKET_STATE_BOUND_NOSTREAMS => udp_create_streams None | _ => mret 0 end;
      if rc <? 0 then mret (-1, [], None) else
      u ← gets self;
      match udp_streams u with
      | None => fail_with EINVAL (-1, [], None)
      | Some st =>
          udp_recv_loop fuel st length_ output_addr (has flags MSG_TRUNC) (udp_blocking u && negb (has flags MSG_DONTWAIT))
            (udp_recv_timeout u)
      end
  end.

(** The loop of [udp_sendto]. *)
Fixpoint udp_send_loop (fuel : nat) (st : udp_socket_streams_t) (buffer : list Z) (remote_address : option ip_socket_address)
    (should_block : bool) (timeout : Z) : MU Z :=
  r ← ask (outgoing_datagram_stream_check_send (outgoing st));
  udp_or_fail r (-1) (fun allowed =>
    let wait : MU Z :=
      if negb should_block then fail_with EWOULDBLOCK (-1) else
      st ← udp_outgoing_pollable st;
      rc ← __wasilibc_pollable_block_on (outgoing_pollable st) timeout;
      if rc <? 0 then mret (-1) else
      match fuel with
      | O => halt Fuel
      | S fuel' => udp_send_loop fuel' st buffer remote_address should_block timeout
      end in
    if negb (allowed =? 0) then
      r ← ask (outgoing_datagram_stream_send (outgoing st) [(buffer, remote_address)]);
      udp_or_fail r (-1) (fun datagrams_sent =>
        if negb (datagrams_sent =? 0) && negb (datagrams_sent =? 1) then halt Trap else
        if datagrams_sent =? 1 then mret (strlen buffer) else wait)
    else wait).

(** The part of [udp_sendto] after the address. *)
Definition udp_do_send (fuel : nat) (buffer : list Z) (flags : Z) (remote_address : option ip_socket_address) : MU Z :=
  u ← gets self;
  rc ← match udp_state u with
       | UDP_SOCKET_STATE_UNBOUND => udp_do_bind fuel (__wasilibc_unspecified_addr (udp_family u))
       | _ => mret 0
       end;
  if rc <? 0 then mret (-1) else
  u ← gets self;
  rc ← match udp_state u with UDP_SOCKET_STATE_BOUND_NOSTREAMS => udp_create_streams None | _ => mret 0 end;
  if rc <? 0 then mret (-1) else
  u ← gets self;
  match udp_streams u with
  | None => fail_with EINVAL (-1)
  | Some st =>
      udp_send_loop fuel st buffer remote_address (udp_blocking u && negb (has flags MSG_DONTWAIT)) (udp_send_timeout u)
  end.

Definition is_udp_connected (u : udp_socket_t) : bool :=
  match udp_state u with UDP_SOCKET_STATE_CONNECTED _ => true | _ => false end.

Definition udp_sendto (fuel : nat) (buffer : list Z) (flags : Z) (addr : option (list Z)) (addrlen : Z) : MU Z :=
  if negb (Z.land flags MSG_DONTWAIT =? flags) then fail_with EOPNOTSUPP (-1) else
  u ← gets self;
  match addr with
  | Some _ =>
      if is_udp_connected u then fail_with EISCONN (-1) else
      remote_address ← __wasilibc_sockaddr_to_wasi (udp_family u) addr addrlen;
      match remote_address with
      | None => mret (-1)
      | Some a => udp_do_send fuel buffer flags (Some a)
      end
  | None =>
      if negb (addrlen =? 0) then fail_with EINVAL (-1) else
      if negb (is_udp_connected u) then fail_with EDESTADDRREQ (-1) else
      udp_do_send fuel buffer flags None
  end.

(** ** Options *)

(** [if (result > INT_MAX) abort();] *)
Definition udp_buffer_size (o : socket_option) (u : udp_socket_t) (optlen : Z) : MU (Z * option (list Z * Z)) :=
  r ← ask (udp_get_option o (udp_socket u));
  udp_or_fail r (-1, None) (fun result =>
    if INT_MAX <? result then halt Trap else mret (int_option result optlen)).

Definition udp_hop_limit (u : udp_socket_t) (optlen : Z) : MU (Z * option (list Z * Z)) :=
  r ← ask (udp_get_option HOP_LIMIT (udp_socket u));
  udp_or_fail r (-1, None) (fun result => mret (int_option result optlen)).

Definition udp_getsockopt (level optname optlen : Z) : MU (Z * option (list Z * Z)) :=
  u ← gets self;
  if level =? SOL_SOCKET then
    if optname =? SO_TYPE then mret (int_option SOCK_DGRAM optlen) else
    if optname =? SO_PROTOCOL then mret (int_option IPPROTO_UDP optlen) else
    if optname =? SO_DOMAIN then mret (int_option (__wasilibc_wasi_family_to_libc (udp_family u)) optlen) else
    if optname =? SO_ERROR then mret (int_option 0 optlen) else
    if optname =? SO_RCVBUF then udp_buffer_size RECEIVE_BUFFER_SIZE u optlen else
    if optname =? SO_SNDBUF then udp_buffer_size SEND_BUFFER_SIZE u optlen else
    if optname =? SO_RCVTIMEO then mret (0, Some (__wasilibc_getsockopt_timeout (udp_recv_timeout u) optlen)) else
    if optname =? SO_SNDTIMEO then mret (0, Some (__wasilibc_getsockopt_timeout (udp_send_timeout u) optlen)) else
    fail_with ENOPROTOOPT (-1, None)
  else if level =? SOL_IP then
    if optname =? IP_TTL then
      if is_ipv6 (udp_family u) then fail_with EAFNOSUPPORT (-1, None) else udp_hop_limit u optlen
    else fail_with ENOPROTOOPT (-1, None)
  else if level =? SOL_IPV6 then
    if optname =? IPV6_UNICAST_HOPS then
      if negb (is_ipv6 (udp_family u)) then fail_with EAFNOSUPPORT (-1, None) else udp_hop_limit u optlen
    else if optname =? IPV6_V6ONLY then
      if negb (is_ipv6 (udp_family u)) then fail_with EAFNOSUPPORT (-1, None) else mret (int_option 1 optlen)
    else fail_with ENOPROTOOPT (-1, None)
  else fail_with ENOPROTOOPT (-1, None).

Definition udp_set (o : socket_option) (u : udp_socket_t) (v : Z) : MU Z :=
  r ← ask (udp_set_option o (udp_socket u) v); udp_or_fail r (-1) (fun _ => mret 0).

Definition udp_set_hop_limit (u : udp_socket_t) (intval : Z) : MU Z :=
  if (intval <? 0) || (UINT8_MAX <? intval) then fail_with EINVAL (-1) else udp_set HOP_LIMIT u intval.

Definition udp_setsockopt (level optname : Z) (optval : list Z) (optlen : Z) : MU Z :=
  u ← gets self;
  if optlen <? sizeof_int then fail_with EINVAL (-1) else
  let intval := i32 (field 0 4 optval) in
  if level =? SOL_SOCKET then
    if optname =? SO_RCVBUF then udp_set RECEIVE_BUFFER_SIZE u (u64 intval) else
    if optname =? SO_SNDBUF then udp_set SEND_BUFFER_SIZE u (u64 intval) else
    if optname =? SO_RCVTIMEO then
      d ← __wasilibc_setsockopt_timeout optval optlen;
      match d with None => mret (-1) | Some d => update (fun u => set_udp_timeouts (udp_send_timeout u) d u) ;; mret 0 end
    else if optname =? SO_SNDTIMEO then
      d ← __wasilibc_setsockopt_timeout optval optlen;
      match d with None => mret (-1) | Some d => update (fun u => set_udp_timeouts d (udp_recv_timeout u) u) ;; mret 0 end
    else fail_with ENOPROTOOPT (-1)
  else if level =? SOL_IP then
    if optname =? IP_TTL then
      if is_ipv6 (udp_family u) then fail_with EAFNOSUPPORT (-1) else udp_set_hop_limit u intval
    else fail_with ENOPROTOOPT (-1)
  else if level =? SOL_IPV6 then
    if optname =? IPV6_UNICAST_HOPS then
      if negb (is_ipv6 (udp_family u)) then fail_with EAFNOSUPPORT (-1) else udp_set_hop_limit u intval
    else if optname =? IPV6_V6ONLY then
      if negb (is_ipv6 (udp_family u)) then fail_with EAFNOSUPPORT (-1) else
      if intval =? 0 then fail_with EOPNOTSUPP (-1) else mret 0
    else fail_with ENOPROTOOPT (-1)
  else fail_with ENOPROTOOPT (-1).

Definition udp_fcntl_getfl : MU Z :=
  u ← gets self;
  mret (if negb (udp_blocking u) then O_NONBLOCK else 0).

Definition udp_fcntl_setfl (flags : Z) : MU Z :=
  update (set_udp_blocking (negb (has flags O_NONBLOCK))) ;; mret 0.
End code.
