(* ===== verification/Vtable.v ===== *)
(** * The objects behind descriptors and their vtables

    A descriptor refers to a file, a standard stream or a socket; the slots of
    [file_vtable], [stdio_vtable], [tcp_vtable] and [udp_vtable] are chosen by the kind of
    the object. A slot that is NULL in the source is [None]. *)

From S2P Require Import Prelude Errno Time Stat Host SockAddr DescTable Object File Tcp Udp.

Inductive descriptor := DFile (f : file_t) | DStdio (s : stdio_t) | DTcp (t : tcp_socket_t)
  | DUdp (u : udp_socket_t).

(** Runs an operation of an object of one kind. *)
Definition as_object {T A} (wrap : T -> descriptor) (t : T) (m : M (octx T) A) : M (octx descriptor) A := fun s =>
  match m (Octx t (octx_env s) (octx_log s)) with
  | Done a s' => Done a (Octx (wrap (self s')) (octx_env s') (octx_log s'))
  | Stop r s' => Stop r (Octx (wrap (self s')) (octx_env s') (octx_log s'))
  end.

Abbreviation as_file := (as_object DFile).
Abbreviation as_stdio := (as_object DStdio).
Abbreviation as_tcp := (as_object DTcp).
Abbreviation as_udp := (as_object DUdp).

Global Instance descriptor_vtable : Vtable descriptor event := {
  stdio_new n := DStdio (Stdio n 0 0 0 0 false);
  vtable_free o v := (match o with DFile f => file_free_calls f | DStdio s => stdio_free_calls s | DTcp t => tcp_free_calls t
    | DUdp u => udp_free_calls u end, v);
}.

Section code.
Context `{Host}.

(** *** The vtables: [file_vtable] and [stdio_vtable] *)

(** [udp_vtable] has no such slots; without [recvfrom] and [sendto] the callers
    would fail with [EOPNOTSUPP]. *)
Definition get_read_stream (o : descriptor) : M (octx descriptor) (Z * option wasi_io) :=
  match o with DFile f => as_file f file_get_read_stream | DStdio s => as_stdio s stdio_get_read_stream | DTcp t => as_tcp t tcp_get_read_stream
  | DUdp _ => fail_with EOPNOTSUPP (-1, None) end.

Definition get_write_stream (o : descriptor) : M (octx descriptor) (Z * option wasi_io) :=
  match o with DFile f => as_file f file_get_write_stream | DStdio s => as_stdio s stdio_get_write_stream | DTcp t => as_tcp t tcp_get_write_stream
  | DUdp _ => fail_with EOPNOTSUPP (-1, None) end.

Definition vt_set_blocking (o : descriptor) (b : bool) : M (octx descriptor) Z :=
  match o with DFile f => as_file f (file_set_blocking b) | DStdio s => as_stdio s (stdio_set_blocking b) | DTcp t => as_tcp t (tcp_set_blocking b)
  | DUdp u => as_udp u (udp_set_blocking b) end.

Definition vt_fstat (o : descriptor) : M (octx descriptor) (Z * option stat) :=
  match o with DFile f => as_file f file_fstat | DStdio s => as_stdio s stdio_fstat | DTcp t => as_tcp t tcp_fstat
  | DUdp u => as_udp u udp_fstat end.

Definition vt_fcntl_getfl (o : descriptor) : M (octx descriptor) Z :=
  match o with DFile f => as_file f file_fcntl_getfl | DStdio s => as_stdio s stdio_fcntl_getfl | DTcp t => as_tcp t tcp_fcntl_getfl
  | DUdp u => as_udp u udp_fcntl_getfl end.

Definition vt_fcntl_setfl (o : descriptor) (flags : Z) : M (octx descriptor) Z :=
  match o with DFile f => as_file f (file_fcntl_setfl flags) | DStdio s => as_stdio s (stdio_fcntl_setfl flags) | DTcp t => as_tcp t (tcp_fcntl_setfl flags)
  | DUdp u => as_udp u (udp_fcntl_setfl flags) end.

(** [get_file]: the handle to borrow. *)
Definition get_file (o : descriptor) : option Z :=
  match o with DFile f => Some (file_handle f) | _ => None end.

Definition vt_seek (o : descriptor) : option (Z -> Z -> M (octx descriptor) Z) :=
  match o with DFile f => Some (fun off whence => as_file f (file_seek off whence)) | _ => None end.

Definition vt_isatty (o : descriptor) : option (M (octx descriptor) Z) :=
  match o with DStdio s => Some (as_stdio s stdio_isatty) | _ => None end.
End code.
