(* ===== verification/FdOps.v ===== *)
(** * Descriptor-level operations

    The functions of the C library that look a descriptor up in the table and
    run a slot of its vtable (wasip2): read, write, lseek, fcntl, dup, close,
    fstat, isatty, __wasilibc_tell, readv and writev, with the blocking loops
    of sources/file_utils.c they end in, and the registration of files
    (__wasilibc_add_file). *)

From S2P Require Import Prelude Errno Utf8 Time Stat SockAddr Host DescTable Object File Tcp Udp Vtable.

Abbreviation world := (dtable descriptor event).

Global Instance world_logged : Logged world := {
  history := calls;
  log e s := set_calls (calls s ++ [e]) s;
}.

Section code.
Context `{Host}.

(** ** Stream input and output *)

Definition __wasilibc_set_stream_errno {St} `{Libc St} `{Logged St} (error : Z) : M St unit :=
  c ← ask (filesystem_error_code error);
  match c with
  | Some code => translate_error_p2 code
  | None => set_errno EIO
  end ;;
  ask (io_error_drop_own error).

Definition wasip2_handle_read_error {St} `{Libc St} `{Logged St} (error : stream_error) : M St Z :=
  match error with
  | STREAM_ERROR_CLOSED => mret 0
  | LAST_OPERATION_FAILED e => __wasilibc_set_stream_errno e ;; mret (-1)
  end.

Definition wasip2_handle_write_error {St} `{Libc St} `{Logged St} (error : stream_error) : M St Z :=
  match error with
  | STREAM_ERROR_CLOSED => fail_with EPIPE (-1)
  | LAST_OPERATION_FAILED e => __wasilibc_set_stream_errno e ;; mret (-1)
  end.

(** [*read->pollable] and [*read->offset]: fields of the object. *)
Definition get_read_pollable (o : descriptor) : Z :=
  match o with DFile f => read_pollable f | DStdio s => input_pollable s | DTcp t => input_pollable_of t | DUdp _ => 0 end.
Definition set_read_pollable (h : Z) (o : descriptor) : descriptor :=
  match o with
  | DFile f => DFile (File (file_handle f) (offset f) (oflag f) (read_stream f) (write_stream f) h (write_pollable f))
  | DStdio s => DStdio (Stdio (fd s) (input s) (output s) h (output_pollable s) (nonblocking s))
  | DTcp t => DTcp (set_input_pollable h t)
  | DUdp _ => o
  end.
Definition get_write_pollable (o : descriptor) : Z :=
  match o with DFile f => write_pollable f | DStdio s => output_pollable s | DTcp t => output_pollable_of t | DUdp _ => 0 end.
Definition set_write_pollable (h : Z) (o : descriptor) : descriptor :=
  match o with
  | DFile f => DFile (File (file_handle f) (offset f) (oflag f) (read_stream f) (write_stream f) (read_pollable f) h)
  | DStdio s => DStdio (Stdio (fd s) (input s) (output s) (input_pollable s) h (nonblocking s))
  | DTcp t => DTcp (set_output_pollable h t)
  | DUdp _ => o
  end.

Definition advance_offset (n : Z) (o : descriptor) : descriptor :=
  match o with DFile f => DFile (set_offset (i64 (offset f + n)) f) | _ => o end.

(** The loop of [__wasilibc_read_without_offset_update]; [fuel] bounds how
    often a blocking read finds the stream empty again. Returns the result and
    the bytes stored in the buffer. *)
Fixpoint read_loop (fuel : nat) (r : wasi_io) (length_ : Z) : M (octx descriptor) (Z * list Z) :=
  res ← ask (streams_input_stream_read (io_stream r) length_);
  match res with
  | inr error => v ← wasip2_handle_read_error error; mret (v, [])
  | inl bytes =>
      if length_ =? 0 then mret (0, []) else
      if negb (strlen bytes =? 0) then mret (strlen bytes, bytes) else
      if negb (io_blocking r) then fail_with EWOULDBLOCK (-1, []) else
      o ← gets self;
      (if get_read_pollable o =? 0 then
         h ← ask (streams_input_stream_subscribe (io_stream r)); update (set_read_pollable h)
       else mret tt) ;;
      p ← gets (fun s => get_read_pollable (self s));
      rc ← __wasilibc_pollable_block_on p (io_timeout r);
      if rc <? 0 then mret (-1, []) else
      match fuel with 0%nat => halt Fuel | S fuel' => read_loop fuel' r length_ end
  end.

Definition __wasilibc_read (fuel : nat) (r : wasi_io) (length_ : Z) : M (octx descriptor) (Z * list Z) :=
  res ← read_loop fuel r length_;
  (if (0 <? fst res) && io_has_offset r then update (advance_offset (fst res)) else mret tt) ;;
  mret res.

Fixpoint write_loop (fuel : nat) (w : wasi_io) (buffer : list Z) : M (octx descriptor) Z :=
  res ← ask (streams_output_stream_check_write (io_stream w));
  match res with
  | inr error => wasip2_handle_write_error error
  | inl count =>
      if negb (count =? 0) then
        let count := Z.min count (strlen buffer) in
        r ← ask (streams_output_stream_write (io_stream w) (take (Z.to_nat count) buffer));
        match r with
        | inr error => wasip2_handle_write_error error
        | inl _ =>
            if io_blocking w then
              r ← ask (streams_output_stream_blocking_flush (io_stream w));
              match r with
              | inr error => wasip2_handle_write_error error
              | inl _ => mret count
              end
            else mret count
        end
      else if negb (io_blocking w) then fail_with EWOULDBLOCK (-1) else
        o ← gets self;
        (if get_write_pollable o =? 0 then
           h ← ask (streams_output_stream_subscribe (io_stream w)); update (set_write_pollable h)
         else mret tt) ;;
        p ← gets (fun s => get_write_pollable (self s));
        rc ← __wasilibc_pollable_block_on p (io_timeout w);
        if rc <? 0 then mret (-1) else
        match fuel with 0%nat => halt Fuel | S fuel' => write_loop fuel' w buffer end
  end.

Definition __wasilibc_write (fuel : nat) (w : wasi_io) (buffer : list Z) : M (octx descriptor) Z :=
  assert_ (negb (io_stream w =? 0)) ;;
  result ← write_loop fuel w buffer;
  (if (0 <? result) && io_has_offset w then update (advance_offset result) else mret tt) ;;
  mret result.

(** ** Going through the table *)

(** Runs a slot of the object at [e]. *)
Definition on_object {A} (e : loc) (m : descriptor -> M (octx descriptor) A) : M world A :=
  o ← load e;
  s ← get;
  match m (body o) (Octx (body o) (dt_env s) (calls s)) with
  | Done a c =>
      modify (fun s => set_heap (<[e := Object (cnt o) (self c)]> (heap s)) (set_env (octx_env c) (set_calls (octx_log c) s))) ;;
      mret a
  | Stop r c => modify (fun s => set_env (octx_env c) (set_calls (octx_log c) s)) ;; halt r
  end.

(** [if (descriptor_table_get(fd, &entry) < 0) return bad;
     defer descriptor_table_entry_dec(entry); body] *)
Definition with_entry {A} (fd : Z) (bad : A) (k : loc -> M world A) : M world A :=
  r ← descriptor_table_get fd;
  match snd r with
  | None => mret bad
  | Some e => a ← k e; descriptor_table_entry_dec e ;; mret a
  end.

(** [fd_to_file_handle] with the [defer] of its callers. *)
Definition with_file_handle {A} (fd : Z) (bad : A) (k : Z -> M world A) : M world A :=
  r ← descriptor_table_get fd;
  match snd r with
  | None => mret bad
  | Some e =>
      o ← load e;
      match get_file (body o) with
      | None => descriptor_table_entry_dec e ;; fail_with EINVAL bad
      | Some h => a ← k h; descriptor_table_entry_dec e ;; mret a
      end
  end.

(** What [read] and [write] do with the object; one without streams receives or
    sends a datagram. *)
Definition read_object (fuel : nat) (nbyte : Z) (o : descriptor) : M (octx descriptor) (Z * list Z) :=
  match o with
  | DUdp u => as_udp u (r ← udp_recvfrom fuel nbyte 0 false None; mret (r.1.1, r.1.2))
  | _ =>
      r ← get_read_stream o;
      match snd r with
      | None => mret (-1, [])
      | Some io => __wasilibc_read fuel io nbyte
      end
  end.

Definition write_object (fuel : nat) (buf : list Z) (o : descriptor) : M (octx descriptor) Z :=
  match o with
  | DUdp u => as_udp u (udp_sendto fuel buf 0 None 0)
  | _ =>
      r ← get_write_stream o;
      match snd r with
      | None => mret (-1)
      | Some io => __wasilibc_write fuel io buf
      end
  end.

Definition read (fuel : nat) (fildes nbyte : Z) : M world (Z * list Z) :=
  with_entry fildes (-1, []) (fun e => on_object e (read_object fuel nbyte)).

Definition write (fuel : nat) (fildes : Z) (buf : list Z) : M world Z :=
  with_entry fildes (-1) (fun e => on_object e (write_object fuel buf)).

(** The first buffer that is not empty. *)
Fixpoint skip_empty (lens : list Z) : Z :=
  match lens with
  | [] => 0
  | n :: rest => if negb (n =? 0) then n else skip_empty rest
  end.

Fixpoint skip_empty_buffers (bufs : list (list Z)) : list Z :=
  match bufs with
  | [] => []
  | b :: rest => if negb (strlen b =? 0) then b else skip_empty_buffers rest
  end.

Definition readv (fuel : nat) (fildes : Z) (iov : list Z) (iovcnt : Z) : M world (Z * list Z) :=
  if iovcnt <? 0 then fail_with EINVAL (-1, []) else
  read fuel fildes (skip_empty (take (Z.to_nat iovcnt) iov)).

Definition writev (fuel : nat) (fildes : Z) (iov : list (list Z)) (iovcnt : Z) : M world Z :=
  if iovcnt <? 0 then fail_with EINVAL (-1) else
  write fuel fildes (skip_empty_buffers (take (Z.to_nat iovcnt) iov)).

(** [__lseek] *)
Definition lseek (fildes off whence : Z) : M world Z :=
  with_entry fildes (-1) (fun e =>
    o ← load e;
    match vt_seek (body o) with
    | None => fail_with ESPIPE (-1)
    | Some seek => on_object e (fun _ => seek off whence)
    end).

Definition __wasilibc_tell (fildes : Z) : M world Z :=
  with_entry fildes (-1) (fun e =>
    o ← load e;
    match vt_seek (body o) with
    | None => fail_with ESPIPE (-1)
    | Some seek => on_object e (fun _ => seek 0 SEEK_CUR)
    end).

Definition fstat (fildes : Z) : M world (Z * option stat) :=
  with_entry fildes (-1, None) (fun e => on_object e vt_fstat).

Definition isatty (fd : Z) : M world Z :=
  with_entry fd 0 (fun e =>
    o ← load e;
    match vt_isatty (body o) with
    | None => fail_with ENOTTY 0
    | Some m => on_object e (fun _ => m)
    end).

Definition dup (fd : Z) : M world Z := descriptor_table_dup fd DUP_OP_DUP 0.
Definition dup2 (fd newfd : Z) : M world Z := descriptor_table_dup fd DUP_OP_DUP2 newfd.
Definition __dup3 (fd newfd flags : Z) : M world Z :=
  if has flags (Z.lnot O_CLOEXEC) then fail_with EINVAL (-1) else descriptor_table_dup fd DUP_OP_DUP3 newfd.

Definition F_GETFD : Z := 1.
Definition F_SETFD : Z := 2.
Definition F_GETFL : Z := 3.
Definition F_SETFL : Z := 4.
Definition F_DUPFD : Z := 5.
Definition F_DUPFD_CLOEXEC : Z := 6.
Definition F_GETLK : Z := 7.
Definition F_SETLK : Z := 8.
Definition F_SETLKW : Z := 9.
Definition FD_CLOEXEC : Z := 1.

Definition fcntl (fildes cmd arg : Z) : M world Z :=
  with_entry fildes (-1) (fun e =>
    if cmd =? F_GETFD then mret FD_CLOEXEC else
    if cmd =? F_SETFD then mret 0 else
    if cmd =? F_GETFL then on_object e vt_fcntl_getfl else
    if cmd =? F_SETFL then on_object e (fun o => vt_fcntl_setfl o arg) else
    if (cmd =? F_DUPFD) || (cmd =? F_DUPFD_CLOEXEC) then descriptor_table_dup fildes DUP_OP_DUPFD arg else
    if (cmd =? F_GETLK) || (cmd =? F_SETLK) || (cmd =? F_SETLKW) then fail_with ENOTSUP (-1) else
    fail_with EINVAL (-1)).

Definition FIONREAD : Z := 1.
Definition FIONBIO : Z := 2.

(** [arg] is the int the third argument points to. Every vtable has the slot. *)
Definition ioctl (fildes request arg : Z) : M world Z :=
  if request =? FIONREAD then fail_with ENOTSUP (-1) else
  if request =? FIONBIO then with_entry fildes (-1) (fun e => on_object e (fun o => vt_set_blocking o (arg =? 0))) else
  fail_with EINVAL (-1).

(** [__wasilibc_add_file] *)
Definition __wasilibc_add_file (file_handle oflag : Z) : M world Z :=
  ok ← alloc_ok;
  if negb ok then
    ask (descriptor_drop_own file_handle) ;; fail_with ENOMEM (-1)
  else
    assert_ (negb (file_handle =? 0)) ;;
    e ← new_object (DFile (File file_handle 0 oflag 0 0 0 0));
    descriptor_table_insert e.
End code.
