(* ===== verification/FdProps.v ===== *)
(** * Descriptor-level operations: theorems

    Every operation that goes through the table gives back the reference it
    takes and leaves the table well formed; seeking, the status flags and the
    registration of files behave as documented, with the exceptions the
    counterexamples at the end show. *)

From S2P Require Import Prelude Errno Utf8 Time Stat Host DescTable DescTableInv DescTableSpec DescTableProps Object File Tcp Udp Vtable FdOps.

(** ** Running a slot of an object *)

Section frame.
Context `{Host}.
Implicit Types s : world.

Lemma wf_set_body held s e o b :
  wf held s -> heap s !! e = Some o -> wf held (set_heap (<[e := Object (cnt o) b]> (heap s)) s).
Proof.
  intros [? ? ? Wc Wd Wl Wb] Ho. constructor; simpl; try done.
  - intros l o'. rewrite lookup_insert. case_decide as Hd; [|apply Wc].
    intros [= <-]. simpl. subst. by apply Wc.
  - intros l Hl. rewrite lookup_insert. case_decide; [done|by apply Wd].
  - rewrite Wl. by rewrite map_size_insert_Some by eauto.
  - intros l Hl. rewrite lookup_insert. case_decide; [|by apply Wb]. subst. by rewrite Wb in Ho.
Qed.

(** The state after a slot of [e] ran and left [c]. *)
Definition after (e : loc) (o : object descriptor) (c : octx descriptor) s : world :=
  set_heap (<[e := Object (cnt o) (self c)]> (heap s)) (set_env (octx_env c) (set_calls (octx_log c) s)).

Lemma on_object_spec {A} e o (m : descriptor -> M (octx descriptor) A) s a c :
  heap s !! e = Some o -> m (body o) (Octx (body o) (dt_env s) (calls s)) = Done a c ->
  on_object e m s = Done a (after e o c s).
Proof.
  intros Ho Hm. unfold on_object. rewrite (bind_done _ _ _ _ _ (load_spec s e o Ho)).
  rewrite (bind_done get _ s s s) by done. by rewrite Hm.
Qed.

Lemma wf_after held e o c s : wf held s -> heap s !! e = Some o -> wf held (after e o c s).
Proof. intros W Ho. exact (wf_set_body held s e o (self c) W Ho). Qed.

(** Whether an operation may enlarge the table, and the sizes before and after. *)
Class Growth := growth : bool.

Definition grown {g : Growth} (l l' : Z) : Prop := if g then l' <= 2 ^ 28 else l' <= Z.max l 100.

(** [m] returns on every well-formed table with at most [n] references held,
    gives back every reference it takes, and leaves the table well formed. *)
Definition safe {g : Growth} (n : Z) {A} (m : M world A) : Prop :=
  forall held s, inv held s -> len s <= 2 ^ 26 -> Z.of_nat (length held) <= n ->
    exists a s', m s = Done a s' /\ inv held s' /\ grown (len s) (len s') /\
      (stdio_initialized s = true -> stdio_initialized s' = true).

(** What the code between [descriptor_table_get] and [descriptor_table_entry_dec] has to do. *)
Definition safe_with {g : Growth} (n : Z) {A} (k : loc -> M world A) : Prop :=
  forall held e s, wf (e :: held) s -> len s <= 2 ^ 26 -> Z.of_nat (length held) <= n -> stdio_initialized s = true ->
    exists a s', k e s = Done a s' /\ wf (e :: held) s' /\ stdio_initialized s' = true /\ grown (len s) (len s').

Lemma grown_same {g : Growth} l : l <= 2 ^ 26 -> grown l l.
Proof. unfold grown. destruct g; lia. Qed.

Lemma grown_trans {g : Growth} l l1 l' : l1 <= Z.max l 100 -> grown l1 l' -> grown l l'.
Proof. unfold grown. destruct g; lia. Qed.

Lemma grown_bound {g : Growth} l l' : l <= 2 ^ 26 -> grown l l' -> l' <= 2 ^ 28.
Proof. unfold grown. destruct g; lia. Qed.

Lemma grown_max {g : Growth} l l' : l <= 2 ^ 26 -> l' <= Z.max l 100 -> grown l l'.
Proof. unfold grown. destruct g; lia. Qed.

Context {g : Growth}.

(** [descriptor_table_get], on a fresh table as well. *)
Lemma get_ready held s fd :
  inv held s -> len s <= 2 ^ 26 -> Z.of_nat (length held) <= 2 ^ 30 ->
  exists r s1, descriptor_table_get fd s = Done r s1 /\ stdio_initialized s1 = true /\ len s1 <= Z.max (len s) 100 /\
    wf (match snd r with None => held | Some e => e :: held end) s1.
Proof.
  intros Hi Hl Hh.
  destruct (with_stdio_spec held s (-1, None) (p ← table_lookup fd;
    match (p : option loc) with
    | None => mret (-1, None)
    | Some e => descriptor_table_entry_inc e ;; mret (0, Some e)
    end) Hi) as (s1 & W1 & St1 & _ & L1 & _ & Hc); [lia|].
  assert (small held s1) as Hs1 by (split; lia).
  unfold descriptor_table_get. destruct Hc as [Heq|(Heq & _)].
  - rewrite Heq. pose proof (get_spec held s1 fd W1 Hs1 St1) as Hg. unfold descriptor_table_get in Hg.
    rewrite with_stdio_ready in Hg by done. destruct (open_fds s1 !! fd) as [e|].
    + destruct Hg as (s2 & Hg & W2 & St2 & _ & _ & _ & L2 & _). exists (0, Some e), s2.
      split; [done|]. split; [done|]. split; [lia|done].
    + eexists (-1, None), _. split; [exact Hg|]. split; [done|]. split; [simpl; lia|exact W1].
  - exists (-1, None), s1. split; [done|]. split; [done|]. split; [lia|done].
Qed.

(** The deferred [descriptor_table_entry_dec]. *)
Lemma dec_ready held s e :
  wf (e :: held) s -> len s <= 2 ^ 28 -> Z.of_nat (length held) <= 2 ^ 30 -> stdio_initialized s = true ->
  exists s', descriptor_table_entry_dec e s = Done tt s' /\ inv held s' /\ stdio_initialized s' = true /\ len s' = len s.
Proof.
  intros W Hl Hh Hst. exists (release e s). destruct (release_frame e s) as (_ & Hl' & _ & Hst' & _).
  split; [|split; [apply inv_ready; [by apply wf_release|congruence]|split; [congruence|done]]].
  apply (entry_dec_release held); [done|]. unfold fits; simpl. lia.
Qed.

Lemma with_entry_safe {A} n fd (bad : A) k : n <= 2 ^ 30 -> safe_with n k -> safe n (with_entry fd bad k).
Proof.
  intros Hn Hk held s Hi Hl Hh.
  destruct (get_ready held s fd Hi Hl ltac:(lia)) as (r & s1 & Hg & St1 & L1 & W1).
  unfold with_entry. rewrite (bind_done _ _ _ _ _ Hg). destruct (snd r) as [e|].
  - destruct (Hk held e s1 W1 ltac:(lia) Hh St1) as (a & s2 & Hk2 & W2 & St2 & L2).
    assert (len s2 <= 2 ^ 28) as L2' by (eapply grown_bound; [|exact L2]; lia).
    rewrite (bind_done _ _ _ _ _ Hk2). destruct (dec_ready held s2 e W2 L2' ltac:(lia) St2) as (s3 & Hd & Hi3 & St3 & L3).
    rewrite (bind_done _ _ _ _ _ Hd). eexists _, s3. split; [reflexivity|]. split; [done|].
    split; [rewrite L3; by eapply grown_trans|done].
  - eexists _, s1. split; [reflexivity|]. split; [by apply inv_ready|]. split; [by apply grown_max|done].
Qed.

Lemma with_file_handle_safe {A} n fd (bad : A) (k : Z -> M world A) :
  n <= 2 ^ 30 -> (forall h, safe_with n (fun _ => k h)) -> safe n (with_file_handle fd bad k).
Proof.
  intros Hn Hk held s Hi Hl Hh.
  destruct (get_ready held s fd Hi Hl ltac:(lia)) as (r & s1 & Hg & St1 & L1 & W1).
  unfold with_file_handle. rewrite (bind_done _ _ _ _ _ Hg). destruct (snd r) as [e|].
  2: { eexists _, s1. split; [reflexivity|]. split; [by apply inv_ready|]. split; [by apply grown_max|done]. }
  destruct (WF_held _ _ _ _ _ _ _ _ W1) as [o Ho].
  rewrite (bind_done _ _ _ _ _ (load_spec s1 e o Ho)). destruct (get_file (body o)) as [h|].
  - destruct (Hk h held e s1 W1 ltac:(lia) Hh St1) as (a & s2 & Hk2 & W2 & St2 & L2).
    assert (len s2 <= 2 ^ 28) as L2' by (eapply grown_bound; [|exact L2]; lia).
    rewrite (bind_done _ _ _ _ _ Hk2). destruct (dec_ready held s2 e W2 L2' ltac:(lia) St2) as (s3 & Hd & Hi3 & St3 & L3).
    rewrite (bind_done _ _ _ _ _ Hd). eexists _, s3. split; [reflexivity|]. split; [done|].
    split; [rewrite L3; by eapply grown_trans|done].
  - destruct (dec_ready held s1 e W1 ltac:(lia) ltac:(lia) St1) as (s3 & Hd & Hi3 & St3 & L3).
    rewrite (bind_done _ _ _ _ _ Hd). eexists _, _. split; [reflexivity|]. split; [exact Hi3|].
    split; [apply grown_max; simpl; lia|done].
Qed.

(** A slot that returns makes the code around it safe. *)
Lemma on_object_safe {A} n (m : descriptor -> M (octx descriptor) A) :
  (forall o, returns (m o)) -> safe_with n (fun e => on_object e m).
Proof.
  intros Hm held e s W Hl Hh Hst. destruct (WF_held _ _ _ _ _ _ _ _ W) as [o Ho].
  destruct (Hm (body o) (Octx (body o) (dt_env s) (calls s))) as (a & c & Hc).
  exists a, (after e o c s). split; [by apply on_object_spec|]. split; [by apply wf_after|].
  split; [done|]. by apply grown_same.
Qed.

(** An operation on the table is safe while an entry is held. *)
Lemma safe_safe_with {A} n (m : M world A) : safe (n + 1) m -> safe_with n (fun _ => m).
Proof.
  intros Hm held e s W Hl Hh Hst. destruct (Hm (e :: held) s) as (a & s' & Hms & [W' _] & L' & St');
    [by apply inv_ready|done|rewrite length_cons; lia|]. exists a, s'. split_and!; auto.
Qed.
End frame.

(** ** What a call returns *)

(** Whatever [m] returns satisfies [P]. *)
Definition yields {St A} (m : M St A) (P : A -> Prop) : Prop := forall s a s', m s = Done a s' -> P a.

Lemma yields_ret {St A} (a : A) (P : A -> Prop) : P a -> yields (mret a : M St A) P.
Proof. by intros Hp s b s' [= <- <-]. Qed.

Lemma yields_bind {St A B} (m : M St A) (f : A -> M St B) (R : A -> Prop) P :
  yields m R -> (forall a, R a -> yields (f a) P) -> yields (m ≫= f) P.
Proof.
  intros Hm Hf s b s'. unfold mbind, M_bind. destruct (m s) as [a s1|] eqn:Ea; [|done]. apply Hf. by eapply Hm.
Qed.

Lemma yields_after {St A B} (m : M St A) (f : A -> M St B) P : (forall a, yields (f a) P) -> yields (m ≫= f) P.
Proof. intros Hf. by apply (yields_bind _ _ (fun _ => True)). Qed.

Lemma yields_with_file_handle `{Host} {A} fd (bad : A) k P :
  P bad -> (forall h, yields (k h) P) -> yields (with_file_handle fd bad k) P.
Proof.
  intros Hb Hk. unfold with_file_handle. apply yields_after. intros [r [e|]]; simpl; [|by apply yields_ret].
  apply yields_after. intros o. destruct (get_file (body o)) as [h|].
  - apply (yields_bind _ _ P); [apply Hk|]. intros a Ha. apply yields_after. intros _. by apply yields_ret.
  - unfold fail_with. do 2 (apply yields_after; intros _). by apply yields_ret.
Qed.

Lemma translate_done e :
  0 <= e <= 36 -> exists n, forall {St} `{Libc St} (s : St), translate_error_p2 e s = Done tt (with_errno n s).
Proof. intros He. unfold translate_error_p2. destruct (error_cases_p2_total e He) as (n & -> & _). by exists n. Qed.

(** ** Slots return *)

Section returns.
Context `{HostLaws}.

Lemma returns_ask {St} `{Logged St} {R : Set} (c : hostcall R) : returns (ask c : M St R).
Proof. intros s. by eexists _, _. Qed.

Lemma returns_translate {St} `{Libc St} e : 0 <= e <= 36 -> returns (translate_error_p2 e : M St unit).
Proof.
  intros He s. destruct (translate_done e He) as (n & ->). by eexists _, _.
Qed.

(** After a call that can fail, the error code is one that can be translated. *)
Lemma returns_ask_sum {St A} {B : Set} `{Logged St} (c : hostcall (B + Z)) (f : B + Z -> M St A) :
  (forall r, reply_error c r = sum_error r) ->
  (forall b, returns (f (inl b))) -> (forall e, 0 <= e <= 36 -> returns (f (inr e))) -> returns (ask c ≫= f).
Proof.
  intros He Hl Hr s. rewrite (bind_done (ask c) f s (host _ (history s) c) (log (Ev c) s)) by done.
  destruct (host _ (history s) c) as [b|e] eqn:Hc; [apply Hl|apply Hr].
  eapply (host_error_code _ (history s) c). by rewrite He, Hc.
Qed.

Lemma returns_as_object {T A} wrap (t : T) (m : M (octx T) A) : returns m -> returns (as_object wrap t m).
Proof.
  intros Hm s. unfold as_object. destruct (Hm (Octx t (octx_env s) (octx_log s))) as (a & c & ->). by eexists _, _.
Qed.
End returns.

Global Hint Resolve returns_ask returns_translate returns_as_object : libc.

Ltac returns_step :=
  match goal with
  | |- returns (ask _ ≫= _) => apply returns_ask_sum; [reflexivity|intros..]
  | |- returns ((if ?b then _ else _) ≫= _) => destruct b
  | |- returns (_ ≫= _) => apply returns_bind; [|intros]
  | |- returns (as_object _ _ _) => apply returns_as_object
  | |- returns (if _ then _ else _) => apply returns_if
  | |- returns (match ?x with _ => _ end) => destruct x
  | |- returns _ => solve [eauto with libc]
  end.
Ltac returns_tac := repeat returns_step; eauto with libc.

Section slots.
Context `{HostLaws}.

Lemma file_close_streams_returns : returns file_close_streams.
Proof. apply returns_modify. Qed.

Lemma update_returns {T} (f : T -> T) : returns (update f).
Proof. apply returns_modify. Qed.
Hint Resolve file_close_streams_returns update_returns : libc.

Lemma file_seek_end_returns : returns file_seek_end.
Proof. unfold file_seek_end. returns_tac. Qed.
Hint Resolve file_seek_end_returns : libc.

Lemma file_seek_to_returns r : returns (file_seek_to r).
Proof. unfold file_seek_to. returns_tac. Qed.
Hint Resolve file_seek_to_returns : libc.

Lemma file_seek_returns off whence : returns (file_seek off whence).
Proof. unfold file_seek. returns_tac. Qed.

Lemma vt_fstat_returns o : returns (vt_fstat o).
Proof. unfold vt_fstat, file_fstat, stdio_fstat, tcp_fstat, udp_fstat. returns_tac. Qed.

Lemma vt_fcntl_getfl_returns o : returns (vt_fcntl_getfl o).
Proof. unfold vt_fcntl_getfl, file_fcntl_getfl, stdio_fcntl_getfl, tcp_fcntl_getfl, udp_fcntl_getfl. returns_tac. Qed.

Lemma vt_fcntl_setfl_returns o flags : returns (vt_fcntl_setfl o flags).
Proof. unfold vt_fcntl_setfl, file_fcntl_setfl, stdio_fcntl_setfl, tcp_fcntl_setfl, udp_fcntl_setfl. returns_tac. Qed.

Lemma stdio_isatty_returns : returns stdio_isatty.
Proof. unfold stdio_isatty. returns_tac. Qed.

Lemma get_read_stream_returns o : returns (get_read_stream o).
Proof. unfold get_read_stream, file_get_read_stream, stdio_get_read_stream, tcp_get_read_stream. returns_tac. Qed.

Lemma get_write_stream_returns o : returns (get_write_stream o).
Proof. unfold get_write_stream, file_get_write_stream, stdio_get_write_stream, tcp_get_write_stream. returns_tac. Qed.
End slots.

(** Operations that may insert. *)
Global Instance grows : Growth := true.
(** Operations that do not. *)
Definition steady : Growth := false.

(** ** Table operations are safe *)

Section table.
Context `{HostLaws}.
Implicit Types s : world.

Lemma dup_safe n fd op arg : n <= 2 ^ 30 -> safe n (descriptor_table_dup fd op arg : M world Z).
Proof.
  intros Hn held s Hi Hl Hh. unfold descriptor_table_dup.
  match goal with |- exists a s', with_stdio ?b ?r s = _ /\ _ =>
    destruct (with_stdio_spec held s b r Hi) as (s1 & W1 & St1 & _ & L1 & _ & Hc) end; [lia|].
  destruct Hc as [Heq|(Heq & _)]; rewrite Heq.
  - destruct (dup_spec held s1 fd op arg W1) as (r & s' & Hd & W' & St' & _ & L' & _); [split; lia|done|].
    unfold descriptor_table_dup in Hd. rewrite with_stdio_ready in Hd by done.
    exists r, s'. split; [done|]. split; [by apply inv_ready|]. split; [unfold grown, grows; lia|done].
  - eexists _, s1. split; [reflexivity|]. split; [by apply inv_ready|]. split; [unfold grown, grows; lia|done].
Qed.

Lemma insert_safe n o : n <= 2 ^ 30 -> safe n (e ← new_object o; descriptor_table_insert e : M world Z).
Proof.
  intros Hn held s Hi Hl Hh. destruct (stdio_initialized s) eqn:Hst.
  - destruct (pending_new held s o (proj1 Hi)) as [Hnew Hp]. rewrite (bind_done _ _ _ _ _ Hnew).
    edestruct (insert_spec held init_stdio) as (r & s' & Hins & W' & _ & St' & L' & _);
      [exact Hp|done|simpl; lia|unfold fits; simpl; lia|].
    exists r, s'. split; [done|]. split; [by apply inv_ready|]. simpl in L'. split; [unfold grown, grows; lia|done].
  - destruct (first_insert_spec held s o Hi) as (r & s' & Hins & W' & St' & L' & _); [split; lia|done|].
    exists r, s'. split; [done|]. split; [by apply inv_ready|]. split; [unfold grown, grows; lia|done].
Qed.
End table.

(** Registering a file: the lowest free descriptor, or the handle dropped once. *)
Lemma add_file_spec `{Host} held (s : world) h flags :
  wf held s -> len s <= 2 ^ 27 -> Z.of_nat (length held) <= 2 ^ 30 -> stdio_initialized s = true -> h <> 0 ->
  exists r s', __wasilibc_add_file h flags s = Done r s' /\ wf held s' /\ stdio_initialized s' = true /\
    len s' <= Z.max (len s) (2 * Z.min r (len s) + 10) /\
    (0 <= r /\ open_fds s !! r = None /\ (forall j, 0 <= j < r -> is_Some (open_fds s !! j)) /\ errno s' = errno s /\
       bodies s !! brk s = None /\ open_fds s' = <[r := brk s]> (open_fds s) /\
       bodies s' = <[brk s := DFile (File h 0 flags 0 0 0 0)]> (bodies s) /\ calls s' = calls s
     \/ r = -1 /\ errno s' = ENOMEM /\ open_fds s' = open_fds s /\ bodies s' = bodies s /\
        calls s' = calls s ++ [Ev (descriptor_drop_own h)]).
Proof.
  intros W Hl Hh Hst Hne. pose proof (wf_len _ _ _ _ _ _ _ W). unfold __wasilibc_add_file.
  destruct (alloc_ok_table s) as (b & v & Ha & Hv). rewrite (bind_done _ _ _ _ _ Ha). destruct b; simpl.
  2: { eexists (-1), _. split; [reflexivity|]. split; [exact W|]. split; [done|]. split; [simpl; lia|].
       right. by split_and!. }
  destruct (Z.eqb_spec h 0); [done|]. simpl.
  rewrite (bind_done (mret tt) _ (set_env v s) tt (set_env v s)) by done.
  pose proof (wf_brk _ _ _ _ _ _ _ W (brk s) (Nat.le_refl _)) as Hfresh.
  destruct (pending_new held (set_env v s) (DFile (File h 0 flags 0 0 0 0)) W) as [Hn Hp].
  rewrite (bind_done _ _ _ _ _ Hn).
  edestruct (insert_spec held init_stdio) as (r & s' & Hins & W' & _ & St' & L' & Hc);
    [exact Hp|done|simpl; lia|unfold fits; simpl; lia|].
  exists r, s'. split; [exact Hins|]. split; [done|]. split; [done|]. split; [simpl in L'; lia|].
  destruct Hc as [(? & Hnone & Hlow & Ho & He & Hhp & Hcl)|(? & He & Ho & Hhp & w & Hcl)]; [left|right]; unfold bodies in *;
    simpl in *; rewrite Hhp; split_and!; try done.
  - exact (eq_trans He Hv).
  - by rewrite lookup_fmap, Hfresh.
  - by rewrite insert_insert_eq, fmap_insert.
  - by rewrite delete_insert_id.
Qed.

(** ** Code that only calls the host and sets errno *)

Section quiet.
Context `{HostLaws}.
Implicit Types s : world.

(** [m] returns and touches nothing but the run-time state and the log. *)
Definition quiet {A} (m : M world A) : Prop := forall s, exists a v l, m s = Done a (set_env v (set_calls l s)).

Lemma quiet_intro {A} (m : M world A) :
  (forall s, exists a v l, m s = Done a (set_env v (set_calls l s))) -> quiet m.
Proof. done. Qed.

Lemma quiet_ret {A} (a : A) : quiet (mret a).
Proof. intros s. exists a, (dt_env s), (calls s). by destruct s. Qed.

Lemma quiet_fail {A} e (a : A) : quiet (fail_with e a).
Proof. intros s. exists a. by eexists _, (calls s). Qed.

Lemma quiet_gets_errno : quiet (gets errno).
Proof. intros s. exists (errno s), (dt_env s), (calls s). by destruct s. Qed.

Lemma quiet_ask {R : Set} (c : hostcall R) : quiet (ask c).
Proof. intros s. exists (host _ (history s) c), (dt_env s), (calls s ++ [Ev c]). by destruct s. Qed.

Lemma quiet_translate e : 0 <= e <= 36 -> quiet (translate_error_p2 e).
Proof.
  intros He s. destruct (translate_done e He) as (n & ->).
  exists tt. by eexists _, (calls s).
Qed.

Lemma quiet_bind {A B} (m : M world A) (f : A -> M world B) : quiet m -> (forall a, quiet (f a)) -> quiet (m ≫= f).
Proof.
  intros Hm Hf s. destruct (Hm s) as (a & v & l & Hs). rewrite (bind_done _ _ _ _ _ Hs).
  destruct (Hf a (set_env v (set_calls l s))) as (b & v' & l' & ->). by exists b, v', l'.
Qed.

Context {g : Growth}.

Lemma safe_quiet_bind {A B} n (m : M world A) (f : A -> M world B) :
  quiet m -> (forall a, safe n (f a)) -> safe n (m ≫= f).
Proof.
  intros Hm Hf held s Hi Hl Hh. destruct (Hm s) as (a & v & l & Hs). rewrite (bind_done _ _ _ _ _ Hs).
  apply (Hf a held (set_env v (set_calls l s))); done.
Qed.

Lemma safe_quiet {A} n (m : M world A) : quiet m -> safe n m.
Proof.
  intros Hm held s Hi Hl Hh. destruct (Hm s) as (a & v & l & Hs). eexists _, _. split; [exact Hs|].
  split; [exact Hi|]. split; [by apply grown_same|done].
Qed.

Lemma safe_ask_sum {A} {B : Set} n (c : hostcall (B + Z)) (f : B + Z -> M world A) :
  (forall r, reply_error c r = sum_error r) ->
  (forall b, safe n (f (inl b))) -> (forall e, 0 <= e <= 36 -> safe n (f (inr e))) -> safe n (ask c ≫= f).
Proof.
  intros He Hl Hr held s Hi Hlen Hh. rewrite (bind_done (ask c) f s (host _ (history s) c) (log (Ev c) s)) by done.
  destruct (host _ (history s) c) as [b|e] eqn:Hc.
  - exact (Hl b held (log (Ev c) s) Hi Hlen Hh).
  - refine (Hr e _ held (log (Ev c) s) Hi Hlen Hh). apply (host_error_code _ (history s) c). by rewrite He, Hc.
Qed.

Lemma safe_translate {A} n e (f : unit -> M world A) :
  0 <= e <= 36 -> (forall u, safe n (f u)) -> safe n (translate_error_p2 e ≫= f).
Proof. intros He. apply safe_quiet_bind. by apply quiet_translate. Qed.

Lemma quiet_string path : wf_cstr path -> strlen path < 2 ^ 31 -> quiet (wasi_string_from_c path).
Proof.
  intros Hw Hl s. destruct (wasi_string_from_c_cases path s Hw Hl) as [[_ ->]|[_ ->]].
  - eexists _, (dt_env s), (calls s). by destruct s.
  - by eexists _, _, (calls s).
Qed.

Lemma safe_alloc {A} n (f : bool -> M world A) : (forall b, safe n (f b)) -> safe n (alloc_ok ≫= f).
Proof.
  apply safe_quiet_bind. intros s. destruct (alloc_ok_table s) as (b & v & Ha & _). exists b, v, (calls s).
  rewrite Ha. by destruct s.
Qed.

End quiet.

(** The handle the host gives for a new object is never 0. *)
Lemma add_file_safe `{HostLaws} n h flags : n <= 2 ^ 30 -> h <> 0 -> safe n (__wasilibc_add_file h flags).
Proof.
  intros Hn Hh. apply safe_alloc. intros b. destruct b; simpl.
  - destruct (Z.eqb_spec h 0); [done|]. simpl.
    apply safe_quiet_bind; [apply quiet_ret|]. intros []. by apply insert_safe.
  - apply safe_quiet_bind; [apply quiet_ask|]. intros []. apply safe_quiet, quiet_fail.
Qed.

Global Hint Resolve quiet_ret quiet_fail quiet_gets_errno quiet_ask quiet_string dup_safe : libc.

Ltac safe_step :=
  match goal with
  | |- safe _ (with_file_handle _ _ _) => apply with_file_handle_safe; [lia|intros; apply safe_safe_with]
  | |- safe _ (with_entry _ _ _) => apply with_entry_safe; [lia|]
  | |- safe_with _ (fun e => on_object e _) => apply on_object_safe; intros
  | |- safe _ (ask _ ≫= _) => apply safe_ask_sum; [reflexivity|intros..]
  | |- safe _ (translate_error_p2 _ ≫= _) => apply safe_translate; [done|intros]
  | |- safe _ (_ ≫= _) => apply safe_quiet_bind; [solve [eauto with libc]|intros]
  | |- safe _ (if ?b then _ else _) => destruct b
  | |- safe _ (match ?x with _ => _ end) => destruct x
  | |- safe _ _ => solve [apply safe_quiet; eauto with libc | apply dup_safe; lia]
  end.
Ltac safe_tac := repeat safe_step.

(** ** The operations on a descriptor are safe *)

Section fd_ops.
Context `{HostLaws} {g : Growth}.

(** A slot chosen by looking at the object. *)
Lemma safe_with_load {A} n (k : object descriptor -> loc -> M world A) :
  (forall o, safe_with n (k o)) -> safe_with n (fun e => o ← load e; k o e).
Proof.
  intros Hk held e s W Hl Hh Hst. destruct (WF_held _ _ _ _ _ _ _ _ W) as [o Ho].
  rewrite (bind_done _ _ _ _ _ (load_spec s e o Ho)). by apply (Hk o held e s).
Qed.

Lemma quiet_safe_with {A} n (m : M world A) : quiet m -> safe_with n (fun _ => m).
Proof. intros Hm. apply safe_safe_with. by apply safe_quiet. Qed.

Lemma lseek_safe n fd off whence : n <= 2 ^ 30 -> safe n (lseek fd off whence).
Proof.
  intros Hn. unfold lseek. apply with_entry_safe; [lia|]. apply safe_with_load. intros [c [f| | |]]; simpl; [|apply quiet_safe_with, quiet_fail..].
  apply on_object_safe. intros _. apply returns_as_object, file_seek_returns.
Qed.

Lemma tell_safe n fd : n <= 2 ^ 30 -> safe n (__wasilibc_tell fd).
Proof.
  intros Hn. unfold __wasilibc_tell. apply with_entry_safe; [lia|]. apply safe_with_load. intros [c [f| | |]]; simpl; [|apply quiet_safe_with, quiet_fail..].
  apply on_object_safe. intros _. apply returns_as_object, file_seek_returns.
Qed.

Lemma isatty_safe n fd : n <= 2 ^ 30 -> safe n (isatty fd).
Proof.
  intros Hn. unfold isatty. apply with_entry_safe; [lia|]. apply safe_with_load. intros [c [|st| |]]; simpl; [apply quiet_safe_with, quiet_fail| |apply quiet_safe_with, quiet_fail..].
  apply on_object_safe. intros _. apply returns_as_object, stdio_isatty_returns.
Qed.

Lemma fstat_safe n fd : n <= 2 ^ 30 -> safe n (fstat fd).
Proof. intros Hn. unfold fstat. apply with_entry_safe; [lia|]. apply on_object_safe, vt_fstat_returns. Qed.

End fd_ops.

Lemma fcntl_safe `{HostLaws} n fd cmd arg : n < 2 ^ 30 -> safe n (fcntl fd cmd arg).
Proof.
  intros Hn. unfold fcntl. apply with_entry_safe; [lia|]. do 2 (case_match; [apply quiet_safe_with, quiet_ret|]).
  case_match; [apply on_object_safe, vt_fcntl_getfl_returns|].
  case_match; [apply on_object_safe; intros; apply vt_fcntl_setfl_returns|].
  apply safe_safe_with. safe_tac.
Qed.
