(* ===== verification/Nocwd.v ===== *)
(** * File system calls relative to a directory descriptor

    The wasip2 versions of the functions that the path layer ends in: a
    directory descriptor and a path relative to it (cloudlibc/src/libc/fcntl/
    openat.c, sys/stat/*.c, unistd/*at.c, stdio/renameat.c, sources/
    __wasilibc_{rmdirat,unlinkat}.c), and those on an open file (ftruncate,
    fsync, fdatasync, futimens, pread, pwrite, posix_fadvise). Each takes the
    host handle out of the descriptor, converts the path, calls the host and
    translates its error code. *)

From S2P Require Import Prelude Errno Utf8 Time Stat SockAddr Host DescTable Object File Tcp Udp Vtable FdOps.

Definition AT_EACCESS : Z := 0x0.
Definition AT_SYMLINK_NOFOLLOW : Z := 0x1.
Definition AT_SYMLINK_FOLLOW : Z := 0x2.
Definition AT_REMOVEDIR : Z := 0x4.
Definition AT_EMPTY_PATH : Z := 0x8.
Definition AT_FDCWD : Z := -2.

Definition F_OK : Z := 0.
Definition X_OK : Z := 1.
Definition W_OK : Z := 2.
Definition R_OK : Z := 4.

Definition PATH_FLAGS_SYMLINK_FOLLOW : Z := Z.shiftl 1 0.
Definition OPEN_FLAGS_CREATE : Z := Z.shiftl 1 0.
Definition OPEN_FLAGS_DIRECTORY : Z := Z.shiftl 1 1.
Definition OPEN_FLAGS_EXCLUSIVE : Z := Z.shiftl 1 2.
Definition OPEN_FLAGS_TRUNCATE : Z := Z.shiftl 1 3.
Definition DESCRIPTOR_FLAGS_FILE_INTEGRITY_SYNC : Z := Z.shiftl 1 2.
Definition DESCRIPTOR_FLAGS_DATA_INTEGRITY_SYNC : Z := Z.shiftl 1 3.
Definition DESCRIPTOR_FLAGS_REQUESTED_WRITE_SYNC : Z := Z.shiftl 1 4.
Definition DESCRIPTOR_FLAGS_MUTATE_DIRECTORY : Z := Z.shiftl 1 5.

(** [if (test) flags |= bit] *)
Definition add_if (test : bool) (bit flags : Z) : Z := if test then Z.lor flags bit else flags.

Section code.
Context `{Host}.

(** [if (!ok) { translate_error(&error); return -1; } return 0;] *)
Definition or_errno (r : unit + Z) : M world Z :=
  match r with
  | inl _ => mret 0
  | inr e => translate_error_p2 e ;; mret (-1)
  end.

(** [if (wasi_string_from_c(path, &out) < 0) return bad; k(out)] *)
Definition with_wasi_string {A} (path : cstr) (bad : A) (k : cstr -> M world A) : M world A :=
  r ← wasi_string_from_c path;
  match snd r with
  | None => mret bad
  | Some out => k out
  end.

(** ** openat *)

Definition openat_open_flags (oflag : Z) : Z :=
  add_if (has oflag O_TRUNC) OPEN_FLAGS_TRUNCATE
    (add_if (has oflag O_EXCL) OPEN_FLAGS_EXCLUSIVE
      (add_if (has oflag O_DIRECTORY) OPEN_FLAGS_DIRECTORY
        (add_if (has oflag O_CREAT) OPEN_FLAGS_CREATE 0))).

(** The [switch] on the access mode; [None] where it sets [EINVAL]. *)
Definition openat_access_flags (oflag : Z) : option Z :=
  let mode := Z.land oflag O_ACCMODE in
  if (mode =? O_RDONLY) || (mode =? O_RDWR) || (mode =? O_WRONLY) then
    Some (add_if (has oflag O_WRONLY) (Z.lor DESCRIPTOR_FLAGS_WRITE DESCRIPTOR_FLAGS_MUTATE_DIRECTORY)
      (add_if (has oflag O_RDONLY) DESCRIPTOR_FLAGS_READ 0))
  else if (mode =? O_EXEC) || (mode =? O_SEARCH) then Some 0
  else None.

Definition openat_sync_flags (oflag fs_flags : Z) : Z :=
  add_if (has oflag O_RSYNC) DESCRIPTOR_FLAGS_REQUESTED_WRITE_SYNC
    (add_if (has oflag O_DSYNC) DESCRIPTOR_FLAGS_DATA_INTEGRITY_SYNC
      (add_if (has oflag O_SYNC) DESCRIPTOR_FLAGS_FILE_INTEGRITY_SYNC fs_flags)).

Definition __wasilibc_nocwd_openat_nomode (fd : Z) (path : cstr) (oflag : Z) : M world Z :=
  let lookup_flags := add_if (negb (has oflag O_NOFOLLOW)) PATH_FLAGS_SYMLINK_FOLLOW 0 in
  let open_flags := openat_open_flags oflag in
  match openat_access_flags oflag with
  | None => fail_with EINVAL (-1)
  | Some access =>
      let fs_flags := openat_sync_flags oflag access in
      with_file_handle fd (-1) (fun file_handle =>
        with_wasi_string path (-1) (fun wasi_path =>
          r ← ask (descriptor_open_at file_handle lookup_flags wasi_path open_flags fs_flags);
          match r with
          | inr e => translate_error_p2 e ;; mret (-1)
          | inl new_handle => __wasilibc_add_file new_handle oflag
          end))
  end.

(** ** Metadata *)

(** The flags of the metadata-hash call, as the code computes them. *)
Definition fstatat_hash_flags (flag : Z) : Z :=
  if negb (Z.lor flag AT_SYMLINK_NOFOLLOW =? 0) then 0 else PATH_FLAGS_SYMLINK_FOLLOW.

Definition __wasilibc_nocwd_fstatat (fd : Z) (path : cstr) (flag : Z) : M world (Z * option stat) :=
  if at_ path 0 =? 0 then
    if has flag AT_EMPTY_PATH then fstat fd else fail_with ENOENT (-1, None)
  else
  with_file_handle fd (-1, None) (fun file_handle =>
    with_wasi_string path (-1, None) (fun wasi_path =>
      m ← ask (descriptor_metadata_hash_at file_handle (fstatat_hash_flags flag) wasi_path);
      match m with
      | inr e => translate_error_p2 e ;; mret (-1, None)
      | inl metadata =>
          let lookup_flags := add_if (negb (has flag AT_SYMLINK_NOFOLLOW)) PATH_FLAGS_SYMLINK_FOLLOW 0 in
          st ← ask (descriptor_stat_at file_handle lookup_flags wasi_path);
          match st with
          | inr e => translate_error_p2 e ;; mret (-1, None)
          | inl internal_stat => mret (0, Some (to_public_stat_p2 metadata internal_stat))
          end
      end)).

Definition futimens (fd : Z) (times : option (timespec * timespec)) : M world Z :=
  with_file_handle fd (-1) (fun file_handle =>
    match utimens_get_timestamps_p2 times with
    | None => fail_with EINVAL (-1)
    | Some (atim, mtim) => r ← ask (descriptor_set_times file_handle atim mtim); or_errno r
    end).

Definition __wasilibc_nocwd_utimensat (fd : Z) (path : cstr) (times : option (timespec * timespec)) (flag : Z) : M world Z :=
  with_file_handle fd (-1) (fun file_handle =>
    match utimens_get_timestamps_p2 times with
    | None => fail_with EINVAL (-1)
    | Some (atim, mtim) =>
        let lookup_flags := add_if (negb (has flag AT_SYMLINK_NOFOLLOW)) PATH_FLAGS_SYMLINK_FOLLOW 0 in
        with_wasi_string path (-1) (fun wasi_path =>
          r ← ask (descriptor_set_times_at file_handle lookup_flags wasi_path atim mtim); or_errno r)
    end).

Definition __wasilibc_nocwd_faccessat (fd : Z) (path : cstr) (amode flag : Z) : M world Z :=
  if has amode (Z.lnot (Z.lor (Z.lor (Z.lor F_OK R_OK) W_OK) X_OK)) || has flag (Z.lnot AT_EACCESS)
  then fail_with EINVAL (-1) else
  with_file_handle fd (-1) (fun file_handle =>
    with_wasi_string path (-1) (fun wasi_path =>
      st ← ask (descriptor_stat_at file_handle PATH_FLAGS_SYMLINK_FOLLOW wasi_path);
      match st with
      | inr e => translate_error_p2 e ;; mret (-1)
      | inl _ =>
          if negb (amode =? 0) then
            r ← ask (descriptor_get_flags file_handle);
            match r with
            | inr e => translate_error_p2 e ;; mret (-1)
            | inl directory_flags =>
                let has_rights :=
                  negb (has amode R_OK && negb (has directory_flags DESCRIPTOR_FLAGS_READ)) &&
                  negb (has amode W_OK && negb (has directory_flags DESCRIPTOR_FLAGS_MUTATE_DIRECTORY)) in
                if negb has_rights then fail_with EACCES (-1) else mret 0
            end
          else mret 0
      end)).

(** ** Directory entries *)

Definition __wasilibc_nocwd_mkdirat_nomode (fd : Z) (path : cstr) : M world Z :=
  with_file_handle fd (-1) (fun file_handle =>
    with_wasi_string path (-1) (fun path2 =>
      r ← ask (descriptor_create_directory_at file_handle path2); or_errno r)).

Definition __wasilibc_nocwd_linkat (fd1 : Z) (path1 : cstr) (fd2 : Z) (path2 : cstr) (flag : Z) : M world Z :=
  with_file_handle fd1 (-1) (fun file_handle1 =>
    with_file_handle fd2 (-1) (fun file_handle2 =>
      with_wasi_string path1 (-1) (fun path1_wasi =>
        with_wasi_string path2 (-1) (fun path2_wasi =>
          let flags := add_if (has flag AT_SYMLINK_FOLLOW) PATH_FLAGS_SYMLINK_FOLLOW 0 in
          r ← ask (descriptor_link_at file_handle1 flags path1_wasi file_handle2 path2_wasi); or_errno r)))).

(** Returns the count and the bytes stored in the buffer of size [bufsize]. *)
Definition __wasilibc_nocwd_readlinkat (fd : Z) (path : cstr) (bufsize : Z) : M world (Z * cstr) :=
  with_file_handle fd (-1, []) (fun file_handle =>
    with_wasi_string path (-1, []) (fun wasi_path =>
      r ← ask (descriptor_readlink_at file_handle wasi_path);
      match r with
      | inr e => translate_error_p2 e ;; mret (-1, [])
      | inl link_source =>
          let bufused := if bufsize <? strlen link_source then bufsize else strlen link_source in
          mret (bufused, take (Z.to_nat bufused) link_source)
      end)).

Definition __wasilibc_nocwd_renameat (oldfd : Z) (old : cstr) (newfd : Z) (new : cstr) : M world Z :=
  with_file_handle oldfd (-1) (fun old_file_handle =>
    with_file_handle newfd (-1) (fun new_file_handle =>
      with_wasi_string old (-1) (fun old_path =>
        with_wasi_string new (-1) (fun new_path =>
          r ← ask (descriptor_rename_at old_file_handle old_path new_file_handle new_path); or_errno r)))).

Definition __wasilibc_nocwd_symlinkat (path1 : cstr) (fd : Z) (path2 : cstr) : M world Z :=
  with_file_handle fd (-1) (fun file_handle =>
    with_wasi_string path1 (-1) (fun path1_wasi =>
      with_wasi_string path2 (-1) (fun path2_wasi =>
        r ← ask (descriptor_symlink_at file_handle path1_wasi path2_wasi); or_errno r))).

Definition __wasilibc_nocwd___wasilibc_rmdirat (fd : Z) (path : cstr) : M world Z :=
  with_file_handle fd (-1) (fun file_handle =>
    with_wasi_string path (-1) (fun wasi_path =>
      r ← ask (descriptor_remove_directory_at file_handle wasi_path); or_errno r)).

Definition __wasilibc_nocwd___wasilibc_unlinkat (fd : Z) (path : cstr) : M world Z :=
  with_file_handle fd (-1) (fun file =>
    with_wasi_string path (-1) (fun wasi_path =>
      r ← ask (descriptor_unlink_file_at file wasi_path); or_errno r)).

(** ** Open files *)

Definition ftruncate (fildes length_ : Z) : M world Z :=
  if length_ <? 0 then fail_with EINVAL (-1) else
  with_file_handle fildes (-1) (fun file_handle =>
    r ← ask (descriptor_set_size file_handle length_); or_errno r).

Definition fsync (fildes : Z) : M world Z :=
  with_file_handle fildes (-1) (fun file_handle => r ← ask (descriptor_sync file_handle); or_errno r).

Definition fdatasync (fildes : Z) : M world Z :=
  with_file_handle fildes (-1) (fun file_handle => r ← ask (descriptor_sync_data file_handle); or_errno r).

Definition pread (fildes nbyte offset : Z) : M world (Z * list Z) :=
  if offset <? 0 then fail_with EINVAL (-1, []) else
  with_file_handle fildes (-1, []) (fun file_handle =>
    r ← ask (descriptor_read file_handle nbyte offset);
    match r with
    | inr e => translate_error_p2 e ;; mret (-1, [])
    | inl (bytes, _) => mret (strlen bytes, bytes)
    end).

Definition pwrite (fildes : Z) (buf : list Z) (offset : Z) : M world Z :=
  if offset <? 0 then fail_with EINVAL (-1) else
  with_file_handle fildes (-1) (fun file_handle =>
    r ← ask (descriptor_write file_handle buf offset);
    match r with
    | inr e => translate_error_p2 e ;; mret (-1)
    | inl bytes_written => mret (i32 bytes_written)
    end).

Definition preadv (fildes : Z) (iov : list Z) (iovcnt offset : Z) : M world (Z * list Z) :=
  if (iovcnt <? 0) || (offset <? 0) then fail_with EINVAL (-1, []) else
  pread fildes (skip_empty (take (Z.to_nat iovcnt) iov)) offset.

Definition pwritev (fildes : Z) (iov : list (list Z)) (iovcnt offset : Z) : M world Z :=
  if (iovcnt <? 0) || (offset <? 0) then fail_with EINVAL (-1) else
  pwrite fildes (skip_empty_buffers (take (Z.to_nat iovcnt) iov)) offset.

(** The cases of [filesystem_advice_t]. *)
Definition ADVICE_NORMAL : Z := 0.
Definition ADVICE_SEQUENTIAL : Z := 1.
Definition ADVICE_RANDOM : Z := 2.
Definition ADVICE_WILL_NEED : Z := 3.
Definition ADVICE_DONT_NEED : Z := 4.
Definition ADVICE_NO_REUSE : Z := 5.

(** The [switch] of [posix_fadvise]. *)
Definition fs_advice (advice : Z) : option Z :=
  if advice =? 0 then Some ADVICE_NORMAL else
  if advice =? 1 then Some ADVICE_SEQUENTIAL else
  if advice =? 2 then Some ADVICE_RANDOM else
  if advice =? 5 then Some ADVICE_NO_REUSE else
  if advice =? 3 then Some ADVICE_WILL_NEED else
  if advice =? 4 then Some ADVICE_DONT_NEED else None.

Definition posix_fadvise (fd offset len advice : Z) : M world Z :=
  if (offset <? 0) || (len <? 0) then mret EINVAL else
  with_file_handle fd EBADF (fun file_handle =>
    if file_handle =? 0 then fail_with EBADF EBADF else
    match fs_advice advice with
    | None => fail_with EINVAL EINVAL
    | Some a =>
        r ← ask (descriptor_advise file_handle offset len a);
        match r with
        | inr e => translate_error_p2 e ;; gets errno
        | inl _ => mret 0
        end
    end).
End code.
