(* ===== verification/NocwdProps.v ===== *)
(** * File system calls: theorems

    Every call returns, balances the references it takes and leaves the table
    well formed, whatever the host answers; opening translates the flags; the
    counterexample shows the flags [fstatat] passes for the inode number. *)

From S2P Require Import Prelude Errno Utf8 Time Stat Host DescTable DescTableInv DescTableSpec DescTableProps.
From S2P Require Import Object File Tcp Udp Vtable FdOps FdProps Nocwd.

(** A C string the caller may pass. *)
Definition good_path (p : cstr) : Prop := wf_cstr p /\ strlen p < 2 ^ 31.

Section safety.
Context `{HostLaws} {g : Growth}.
Implicit Types s : world.

Lemma with_wasi_string_safe {A} n path (bad : A) k :
  good_path path -> (forall p, safe n (k p)) -> safe n (with_wasi_string path bad k).
Proof.
  intros [Hw Hl] Hk. unfold with_wasi_string. apply safe_quiet_bind; [by apply quiet_string|].
  intros [r [p|]]; simpl; [apply Hk|apply safe_quiet, quiet_ret].
Qed.

Lemma or_errno_safe n (c : hostcall (unit + Z)) :
  (forall r, reply_error c r = sum_error r) -> safe n (r ← ask c; or_errno r).
Proof.
  intros Hc. apply safe_ask_sum; [done|intros; simpl; safe_tac|].
  intros e He. simpl. apply safe_translate; [done|intros; safe_tac].
Qed.
End safety.

Ltac nocwd_tac :=
  repeat first
    [ apply with_file_handle_safe; [lia|intros; apply safe_safe_with]
    | apply with_wasi_string_safe; [done|intros]
    | apply or_errno_safe; reflexivity
    | safe_step ].

(** A call of one of the functions of this layer; the results are dropped. *)
Inductive fs_call :=
| Openat (fd : Z) (path : cstr) (oflag : Z)
| Fstatat (fd : Z) (path : cstr) (flag : Z)
| Faccessat (fd : Z) (path : cstr) (amode flag : Z)
| Utimensat (fd : Z) (path : cstr) (times : option (timespec * timespec)) (flag : Z)
| Futimens (fd : Z) (times : option (timespec * timespec))
| Mkdirat (fd : Z) (path : cstr)
| Linkat (fd1 : Z) (path1 : cstr) (fd2 : Z) (path2 : cstr) (flag : Z)
| Readlinkat (fd : Z) (path : cstr) (bufsize : Z)
| Renameat (fd1 : Z) (path1 : cstr) (fd2 : Z) (path2 : cstr)
| Symlinkat (path1 : cstr) (fd : Z) (path2 : cstr)
| Rmdirat (fd : Z) (path : cstr)
| Unlinkat (fd : Z) (path : cstr)
| Ftruncate (fd length : Z)
| Fsync (fd : Z)
| Fdatasync (fd : Z)
| Pread (fd nbyte offset : Z)
| Pwrite (fd : Z) (buf : list Z) (offset : Z)
| Fadvise (fd offset len advice : Z)
| Lseek (fd off whence : Z)
| Tell (fd : Z)
| Fstat (fd : Z)
| Isatty (fd : Z)
| Fcntl (fd cmd arg : Z)
| Dup (fd : Z)
| Dup2 (fd newfd : Z)
| Dup3 (fd newfd flags : Z).

Definition paths (c : fs_call) : list cstr :=
  match c with
  | Openat _ p _ | Fstatat _ p _ | Faccessat _ p _ _ | Utimensat _ p _ _ | Mkdirat _ p | Readlinkat _ p _
  | Rmdirat _ p | Unlinkat _ p => [p]
  | Linkat _ p _ q _ | Renameat _ p _ q | Symlinkat p _ q => [p; q]
  | _ => []
  end.

Section calls.
Context `{Host}.

Definition ignore {A} (m : M world A) : M world unit := m ;; mret tt.

Definition perform (c : fs_call) : M world unit :=
  match c with
  | Openat fd p o => ignore (__wasilibc_nocwd_openat_nomode fd p o)
  | Fstatat fd p f => ignore (__wasilibc_nocwd_fstatat fd p f)
  | Faccessat fd p a f => ignore (__wasilibc_nocwd_faccessat fd p a f)
  | Utimensat fd p t f => ignore (__wasilibc_nocwd_utimensat fd p t f)
  | Futimens fd t => ignore (futimens fd t)
  | Mkdirat fd p => ignore (__wasilibc_nocwd_mkdirat_nomode fd p)
  | Linkat fd p fd2 q f => ignore (__wasilibc_nocwd_linkat fd p fd2 q f)
  | Readlinkat fd p n => ignore (__wasilibc_nocwd_readlinkat fd p n)
  | Renameat fd p fd2 q => ignore (__wasilibc_nocwd_renameat fd p fd2 q)
  | Symlinkat p fd q => ignore (__wasilibc_nocwd_symlinkat p fd q)
  | Rmdirat fd p => ignore (__wasilibc_nocwd___wasilibc_rmdirat fd p)
  | Unlinkat fd p => ignore (__wasilibc_nocwd___wasilibc_unlinkat fd p)
  | Ftruncate fd n => ignore (ftruncate fd n)
  | Fsync fd => ignore (fsync fd)
  | Fdatasync fd => ignore (fdatasync fd)
  | Pread fd n o => ignore (pread fd n o)
  | Pwrite fd b o => ignore (pwrite fd b o)
  | Fadvise fd o n a => ignore (posix_fadvise fd o n a)
  | Lseek fd o w => ignore (lseek fd o w)
  | Tell fd => ignore (__wasilibc_tell fd)
  | Fstat fd => ignore (fstat fd)
  | Isatty fd => ignore (isatty fd)
  | Fcntl fd c a => ignore (fcntl fd c a)
  | Dup fd => ignore (dup fd)
  | Dup2 fd n => ignore (dup2 fd n)
  | Dup3 fd n f => ignore (__dup3 fd n f)
  end.
End calls.

Section theorems.
Context `{HostLaws}.
Implicit Types s : world.

Lemma ignore_safe {A} n (m : M world A) : safe n m -> safe n (ignore m).
Proof.
  intros Hm held s Hi Hl Hh. destruct (Hm held s Hi Hl Hh) as (a & s' & Hs & ?). exists tt, s'.
  split; [|done]. unfold ignore. by rewrite (bind_done _ _ _ _ _ Hs).
Qed.

Lemma openat_safe n fd path oflag : n < 2 ^ 30 -> good_path path -> safe n (__wasilibc_nocwd_openat_nomode fd path oflag).
Proof.
  intros Hn Hp. unfold __wasilibc_nocwd_openat_nomode. destruct (openat_access_flags oflag); [|safe_tac].
  apply with_file_handle_safe; [lia|intros h; apply safe_safe_with]. apply with_wasi_string_safe; [done|intros p].
  intros held s Hi Hl Hh. match goal with |- context [ask ?c] => set (call := c) end.
  rewrite (bind_done (ask call) _ s (host _ (history s) call) (log (Ev call) s)) by done.
  destruct (host _ (history s) call) as [x|e] eqn:Hc.
  - refine (add_file_safe (n + 1) x oflag _ _ held (log (Ev call) s) Hi Hl Hh); [lia|]. by eapply host_open_handle.
  - refine (safe_translate (n + 1) e _ _ _ held (log (Ev call) s) Hi Hl Hh); [|intros; safe_tac].
    apply (host_error_code _ (history s) call). by rewrite Hc.
Qed.

Lemma perform_safe n c : n < 2 ^ 30 - 1 -> Forall good_path (paths c) -> safe n (perform c).
Proof.
  intros Hn Hp. destruct c; simpl in Hp; repeat (apply Forall_cons_1 in Hp as [? Hp]); simpl; apply ignore_safe.
  - apply openat_safe; [lia|done].
  - unfold __wasilibc_nocwd_fstatat. case_match; [case_match; [apply fstat_safe; lia|safe_tac]|]. nocwd_tac.
  - unfold __wasilibc_nocwd_faccessat. nocwd_tac.
  - unfold __wasilibc_nocwd_utimensat. nocwd_tac.
  - unfold futimens. nocwd_tac.
  - unfold __wasilibc_nocwd_mkdirat_nomode. nocwd_tac.
  - unfold __wasilibc_nocwd_linkat. nocwd_tac.
  - unfold __wasilibc_nocwd_readlinkat. nocwd_tac.
  - unfold __wasilibc_nocwd_renameat. nocwd_tac.
  - unfold __wasilibc_nocwd_symlinkat. nocwd_tac.
  - unfold __wasilibc_nocwd___wasilibc_rmdirat. nocwd_tac.
  - unfold __wasilibc_nocwd___wasilibc_unlinkat. nocwd_tac.
  - unfold ftruncate. nocwd_tac.
  - unfold fsync. nocwd_tac.
  - unfold fdatasync. nocwd_tac.
  - unfold pread. nocwd_tac.
  - unfold pwrite. nocwd_tac.
  - unfold posix_fadvise. nocwd_tac.
  - apply lseek_safe; lia.
  - apply tell_safe; lia.
  - apply fstat_safe; lia.
  - apply isatty_safe; lia.
  - apply fcntl_safe; lia.
  - apply dup_safe; lia.
  - apply dup_safe; lia.
  - unfold __dup3. safe_tac.
Qed.
End theorems.

(** C19: Every file system call relative to a descriptor, and every call on an
    open descriptor, returns whatever the host answers and whatever the
    allocator refuses: no assertion fails, no error code is left untranslated,
    nothing freed is touched. The call gives back every reference it took, on
    its error paths as well: the table is well formed with the same references
    held, so that each object's count is again the number of descriptors and
    callers that refer to it. *)
Theorem fs_call_safe `{HostLaws} c held (s : world) :
  inv held s -> len s <= 2 ^ 26 -> Z.of_nat (length held) <= 2 ^ 29 -> Forall good_path (paths c) ->
  exists s', perform c s = Done tt s' /\ inv held s'.
Proof.
  intros Hi Hl Hh Hp. destruct (perform_safe (2 ^ 29) c ltac:(lia) Hp held s Hi Hl Hh) as ([] & s' & Hs & Hi' & _).
  eauto.
Qed.

Lemma ask_answer `{Host} {R : Set} (c : hostcall R) (s : world) r :
  host R (calls s) c = r -> ask c s = Done r (set_calls (calls s ++ [Ev c]) s).
Proof. by intros <-. Qed.

(** Dropping a reference to an object that a descriptor still refers to. *)
Lemma dec_shared `{Host} held (s : world) fd e :
  wf (e :: held) s -> len s <= 2 ^ 28 -> Z.of_nat (length held) <= 2 ^ 30 -> open_fds s !! fd = Some e ->
  exists s', descriptor_table_entry_dec e s = Done tt s' /\ wf held s' /\ open_fds s' = open_fds s /\
    bodies s' = bodies s /\ calls s' = calls s /\ errno s' = errno s /\ stdio_initialized s' = stdio_initialized s /\
    len s' = len s /\ dt_env s' = dt_env s.
Proof.
  intros W Hl Hh Hfd. destruct (open_heap _ s fd e W Hfd) as [o Ho].
  assert (fits (e :: held) s) as F by (unfold fits; simpl; lia).
  rewrite lookup_open_fds in Hfd. destruct (Z.ltb_spec fd 0); [done|].
  destruct (entries s !! Z.to_nat fd) as [it|] eqn:Hit; [|done]. simpl in Hfd. destruct (occupied it) eqn:Hocc; [|done].
  injection Hfd as <-. pose proof (refs_occupied _ _ _ Hit Hocc) as Hr. pose proof (holds_range held (entry it)).
  destruct (wf_cnt _ _ _ _ _ _ _ W _ o Ho) as [Hc _]. simpl in Hc. rewrite Nat.eqb_refl in Hc.
  destruct (release_frame (entry it) s) as (_ & ? & _ & ? & ? & _ & ?).
  exists (release (entry it) s). split; [by apply (entry_dec_release held)|]. split; [by apply wf_release|].
  split; [done|]. split; [rewrite (release_bodies held) by done; by rewrite bool_decide_eq_true_2 by lia|].
  unfold release in *. rewrite Ho in *. by destruct (Z.eqb_spec (cnt o) 1); [lia|].
Qed.

(** The access mode determines the rights. *)
Lemma openat_access_cases oflag :
  match openat_access_flags oflag with
  | Some fs => (Z.land oflag O_ACCMODE, fs) ∈ [(O_RDONLY, 1); (O_RDWR, 35); (O_WRONLY, 34); (O_EXEC, 0); (O_SEARCH, 0)]
  | None => Z.land oflag O_ACCMODE ∉ [O_RDONLY; O_WRONLY; O_RDWR; O_EXEC; O_SEARCH]
  end.
Proof.
  unfold openat_access_flags. set (mode := Z.land oflag O_ACCMODE).
  assert (has oflag O_RDONLY = has mode O_RDONLY /\ has oflag O_WRONLY = has mode O_WRONLY) as [-> ->].
  { unfold mode, has. by rewrite <- !Z.land_assoc. }
  destruct (Z.eqb_spec mode O_RDONLY) as [->|]; [set_unfold; vm_compute; auto|].
  destruct (Z.eqb_spec mode O_RDWR) as [->|]; [set_unfold; vm_compute; auto|].
  destruct (Z.eqb_spec mode O_WRONLY) as [->|]; [set_unfold; vm_compute; auto|].
  destruct (Z.eqb_spec mode O_EXEC) as [->|]; [set_unfold; vm_compute; auto 10|].
  destruct (Z.eqb_spec mode O_SEARCH) as [->|]; [set_unfold; vm_compute; auto 10|].
  simpl. set_unfold. tauto.
Qed.

(** [openat] tells the host what the flags ask for: each creation flag and
    each synchronisation flag is passed on exactly when it is set, reading and
    writing follow the access mode (writing includes changing a directory),
    and an access mode that is none of the five is refused. *)
Theorem openat_flags_correct oflag :
  (has (openat_open_flags oflag) OPEN_FLAGS_CREATE = has oflag O_CREAT /\
   has (openat_open_flags oflag) OPEN_FLAGS_DIRECTORY = has oflag O_DIRECTORY /\
   has (openat_open_flags oflag) OPEN_FLAGS_EXCLUSIVE = has oflag O_EXCL /\
   has (openat_open_flags oflag) OPEN_FLAGS_TRUNCATE = has oflag O_TRUNC) /\
  match openat_access_flags oflag with
  | Some fs =>
      Z.land oflag O_ACCMODE ∈ [O_RDONLY; O_WRONLY; O_RDWR; O_EXEC; O_SEARCH] /\
      has fs DESCRIPTOR_FLAGS_READ = bool_decide (Z.land oflag O_ACCMODE ∈ [O_RDONLY; O_RDWR]) /\
      has fs DESCRIPTOR_FLAGS_WRITE = bool_decide (Z.land oflag O_ACCMODE ∈ [O_WRONLY; O_RDWR]) /\
      has fs DESCRIPTOR_FLAGS_MUTATE_DIRECTORY = has fs DESCRIPTOR_FLAGS_WRITE /\
      has (openat_sync_flags oflag fs) DESCRIPTOR_FLAGS_FILE_INTEGRITY_SYNC = has oflag O_SYNC /\
      has (openat_sync_flags oflag fs) DESCRIPTOR_FLAGS_DATA_INTEGRITY_SYNC = has oflag O_DSYNC /\
      has (openat_sync_flags oflag fs) DESCRIPTOR_FLAGS_REQUESTED_WRITE_SYNC = has oflag O_RSYNC
  | None => Z.land oflag O_ACCMODE ∉ [O_RDONLY; O_WRONLY; O_RDWR; O_EXEC; O_SEARCH]
  end.
Proof.
  split.
  { unfold openat_open_flags. destruct (has oflag O_CREAT), (has oflag O_DIRECTORY), (has oflag O_EXCL), (has oflag O_TRUNC);
      by vm_compute. }
  pose proof (openat_access_cases oflag) as Hc. destruct (openat_access_flags oflag) as [fs|]; [|done].
  unfold openat_sync_flags. set_unfold in Hc.
  destruct (has oflag O_SYNC), (has oflag O_DSYNC), (has oflag O_RSYNC);
    destruct Hc as [[= -> ->]|[[= -> ->]|[[= -> ->]|[[= -> ->]|[[= -> ->]|[]]]]]]; vm_compute; split_and!; (done || set_solver).
Qed.

(** C24: [openat] on an open directory with a valid path: the host is asked to
    open it once; when it gives a handle, the call returns the lowest free
    descriptor, which then refers to a new file object with that handle, the
    given flags and offset 0, and nothing else changes; when memory runs out
    the call fails with [ENOMEM], every descriptor stays as it was, and the
    handle is dropped exactly once. *)
Theorem openat_correct `{HostLaws} held (s : world) fd e f path oflag access x :
  wf held s -> len s <= 2 ^ 26 -> Z.of_nat (length held) <= 2 ^ 29 -> stdio_initialized s = true ->
  open_fds s !! fd = Some e -> bodies s !! e = Some (DFile f) -> good_path path -> utf8 path ->
  openat_access_flags oflag = Some access ->
  let call := descriptor_open_at (file_handle f) (add_if (negb (has oflag O_NOFOLLOW)) PATH_FLAGS_SYMLINK_FOLLOW 0) path
                (openat_open_flags oflag) (openat_sync_flags oflag access) in
  host _ (calls s) call = inl x ->
  exists r s', __wasilibc_nocwd_openat_nomode fd path oflag s = Done r s' /\ wf held s' /\
    (0 <= r /\ open_fds s !! r = None /\ (forall j, 0 <= j < r -> is_Some (open_fds s !! j)) /\ errno s' = errno s /\
       (exists l, open_fds s' = <[r := l]> (open_fds s) /\ bodies s' = <[l := DFile (File x 0 oflag 0 0 0 0)]> (bodies s)) /\
       calls s' = calls s ++ [Ev call]
     \/ r = -1 /\ errno s' = ENOMEM /\ open_fds s' = open_fds s /\ bodies s' = bodies s /\
        calls s' = calls s ++ [Ev call; Ev (descriptor_drop_own x)]).
Proof.
  intros W Hl Hh Hst Hfd He [Hw Hlen] Hu Ha call Hx. unfold __wasilibc_nocwd_openat_nomode. rewrite Ha.
  pose proof (get_spec held s fd W ltac:(split; lia) Hst) as Hg. rewrite Hfd in Hg.
  destruct Hg as (s1 & Hg & W1 & St1 & E1 & O1 & B1 & L1 & C1 & V1).
  unfold with_file_handle. rewrite (bind_done _ _ _ _ _ Hg). simpl.
  rewrite <- B1 in He. unfold bodies in He. rewrite lookup_fmap in He.
  destruct (heap s1 !! e) as [o|] eqn:Ho; [|done]. simpl in He. injection He as He.
  rewrite (bind_done _ _ _ _ _ (load_spec s1 e o Ho)), He. simpl.
  match goal with |- context [ (with_wasi_string path (-1) ?k) ] =>
    assert (with_wasi_string path (-1) k s1 = k path s1) as Hstr end.
  { unfold with_wasi_string. destruct (wasi_string_from_c_cases path s1 Hw Hlen) as [[_ Hs]|[? _]]; [|done].
    by rewrite (bind_done _ _ _ _ _ Hs). }
  set (s2 := set_calls (calls s1 ++ [Ev call]) s1).
  destruct (add_file_spec (e :: held) s2 x oflag) as (r & s3 & Hadd & W3 & St3 & L3 & Hc);
    [done|simpl; lia|simpl; lia|done|by eapply host_open_handle|].
  rewrite (bind_done (with_wasi_string path (-1) _) _ s1 r s3).
  2: { rewrite Hstr. fold call. rewrite (bind_done (ask call) _ s1 (inl x) s2) by (apply ask_answer; by rewrite C1). exact Hadd. }
  assert (open_fds s3 !! fd = Some e) as Hfd3.
  { rewrite <- O1 in Hfd. destruct Hc as [(_ & Hn & _ & _ & _ & -> & _)|(_ & _ & -> & _)]; [|done].
    rewrite lookup_insert_ne; [done|]. intros ->. change (open_fds s2) with (open_fds s1) in Hn. congruence. }
  destruct (dec_shared held s3 fd e W3) as (s4 & Hd & W4 & O4 & B4 & C4 & E4 & _); [simpl in L3; lia|lia|done|].
  rewrite (bind_done _ _ _ _ _ Hd). exists r, s4. split; [done|]. split; [done|]. rewrite O4, B4, C4, <- O1, <- B1, <- C1.
  simpl in E1, E4. rewrite E4, <- E1.
  change (open_fds s2) with (open_fds s1) in Hc. change (bodies s2) with (bodies s1) in Hc.
  destruct Hc as [(? & ? & ? & ? & ? & ? & ? & ?)|(? & ? & ? & ? & Hcl)]; [left|right]; split_and!; try done; [by eexists|].
  rewrite Hcl. simpl. by rewrite <- app_assoc.
Qed.

(** ** Concrete runs *)

(** A process whose descriptor 3 is the directory the host opened as 50. *)
Definition demo_world : world :=
  Eval vm_compute in
  match (__wasilibc_add_file (H := demo_host) 50 0) (init_table (Env 0 [])) with Done _ s => s | Stop _ s => s end.

Lemma demo_world_inv : inv [] demo_world.
Proof.
  pose (HL := demo_host_laws).
  destruct (add_file_safe (H := demo_host) 0 50 0 ltac:(lia) ltac:(lia) [] (init_table (Env 0 []))) as (r & s' & Hs & Hi & _);
    [by split; [apply wf_init|]|vm_compute; discriminate|vm_compute; discriminate|].
  vm_compute in Hs. injection Hs as _ <-. exact Hi.
Qed.

Lemma fs_call_safe_witness : exists s', perform (H := demo_host) (Renameat 3 (lit "a") 3 (lit "b")) demo_world = Done tt s' /\ inv [] s'.
Proof.
  apply (fs_call_safe (H := demo_host) (H0 := demo_host_laws)).
  - exact demo_world_inv.
  - vm_compute; discriminate.
  - simpl; lia.
  - repeat constructor; vm_compute; done || (repeat constructor; discriminate).
Defined.

Lemma openat_correct_witness :
  exists r s', __wasilibc_nocwd_openat_nomode (H := demo_host) 3 (lit "a") O_RDWR demo_world = Done r s' /\ r = 4.
Proof.
  destruct (openat_correct (H := demo_host) (H0 := demo_host_laws) [] demo_world 3 1%nat (File 50 0 0 0 0 0 0) (lit "a") O_RDWR
    (DESCRIPTOR_FLAGS_READ + DESCRIPTOR_FLAGS_WRITE + DESCRIPTOR_FLAGS_MUTATE_DIRECTORY) 100) as (r & s' & Hr & _ & Hc).
  - apply demo_world_inv.
  - vm_compute; discriminate.
  - simpl; lia.
  - reflexivity.
  - vm_compute; reflexivity.
  - vm_compute; reflexivity.
  - split; vm_compute; [repeat constructor; discriminate|reflexivity].
  - exists [97]. split; [repeat constructor; lia|reflexivity].
  - vm_compute; reflexivity.
  - vm_compute; reflexivity.
  - exists r, s'. split; [exact Hr|]. vm_compute in Hr. by injection Hr.
Defined.

(** The flags [fstatat] passes to the host when it asks for the identity of
    the file never include following symbolic links, whatever the caller
    passed: the code tests [flag | AT_SYMLINK_NOFOLLOW]. So the attributes are
    those of the file a link points to, but the inode number that of the link:
    on a host where the two hashes are 77 and 76, the result has 76. *)
Theorem fstatat_inode_of_link :
  (forall flag, fstatat_hash_flags flag = 0) /\
  exists st s', __wasilibc_nocwd_fstatat (H := demo_host) 3 (lit "a") 0 demo_world = Done (0, Some st) s' /\ st_ino st = 76 /\
    calls s' = calls demo_world ++
      [Ev (descriptor_metadata_hash_at 50 0 (lit "a")); Ev (descriptor_stat_at 50 PATH_FLAGS_SYMLINK_FOLLOW (lit "a"))].
Proof.
  split.
  - intros flag. unfold fstatat_hash_flags. destruct (Z.eqb_spec (Z.lor flag AT_SYMLINK_NOFOLLOW) 0) as [E|]; [|done].
    by apply Z.lor_eq_0_iff in E as [_ ?].
  - eexists _, _. split; [vm_compute; reflexivity|]. split; vm_compute; reflexivity.
Qed.
