(* ===== verification/FileProps.v ===== *)
(** * Files: theorems

    Files opened with wasip2 read and write through host streams that are
    opened when first used and dropped by a seek. The theorems relate the
    object to a file with one position: reads and writes happen where the
    position is, whatever sequence of calls came before, and every call
    returns. The counterexamples are sequences outside that guarantee. *)

From S2P Require Import Prelude Errno Utf8 Time Stat Host DescTable DescTableInv DescTableSpec DescTableProps.
From S2P Require Import Object File Tcp Udp Vtable FdOps FdProps.

(** ** What the host's streams refer to

    Computed from the calls made and the host's answers to them: for an open
    input stream the file it reads and the position of its next byte, the same
    for output streams, and for a pollable the stream it was made for. *)
Record resources := Resources {
  in_streams : gmap Z (Z * Z);
  out_streams : gmap Z (Z * Z);
  in_pollables : gmap Z Z;
  out_pollables : gmap Z Z;
}.

Section resources.
Context `{Host}.

Definition advance (n : Z) (x : Z * Z) : Z * Z := (fst x, snd x + n).

Definition resource_step {R : Set} (c : hostcall R) (r : resources) : R -> resources :=
  let '(Resources ins outs ips ops) := r in
  match c in hostcall R return R -> resources with
  | descriptor_read_via_stream d off => fun a =>
      match a with inl st => Resources (<[st := (d, off)]> ins) outs ips ops | inr _ => r end
  | descriptor_write_via_stream d off => fun a =>
      match a with inl st => Resources ins (<[st := (d, off)]> outs) ips ops | inr _ => r end
  | streams_input_stream_read st _ => fun a =>
      match a with inl bytes => Resources (alter (advance (strlen bytes)) st ins) outs ips ops | inr _ => r end
  | streams_output_stream_write st bytes => fun a =>
      match a with inl _ => Resources ins (alter (advance (strlen bytes)) st outs) ips ops | inr _ => r end
  | streams_input_stream_subscribe st => fun p => Resources ins outs (<[p := st]> ips) ops
  | streams_output_stream_subscribe st => fun p => Resources ins outs ips (<[p := st]> ops)
  | streams_input_stream_drop_own st => fun _ => Resources (delete st ins) outs ips ops
  | streams_output_stream_drop_own st => fun _ => Resources ins (delete st outs) ips ops
  | poll_pollable_drop_own p => fun _ => Resources ins outs (delete p ips) (delete p ops)
  | _ => fun _ => r
  end.

Fixpoint resources_from (past rest : list event) (r : resources) : resources :=
  match rest with
  | [] => r
  | @Ev R c :: rest' => resources_from (past ++ [Ev c]) rest' (resource_step c r (host R past c))
  end.

Definition resources_of (h : list event) : resources := resources_from [] h (Resources ∅ ∅ ∅ ∅).

Lemma resources_from_app past h1 h2 r :
  resources_from past (h1 ++ h2) r = resources_from (past ++ h1) h2 (resources_from past h1 r).
Proof.
  revert past r. induction h1 as [|[R c] h1 IH]; intros past r; simpl; [by rewrite app_nil_r|].
  by rewrite IH, <- app_assoc.
Qed.

Lemma resources_snoc h {R : Set} (c : hostcall R) :
  resources_of (h ++ [Ev c]) = resource_step c (resources_of h) (host R h c).
Proof. unfold resources_of. by rewrite resources_from_app. Qed.
(** The writes the host accepted, in order: the file, the position in it and
    the bytes. *)
Definition write_entry (res : resources) {R : Set} (c : hostcall R) : R -> list (Z * Z * list Z) :=
  match c in hostcall R return R -> list (Z * Z * list Z) with
  | streams_output_stream_write st bytes => fun a =>
      match a, out_streams res !! st with inl _, Some (d, p) => [(d, p, bytes)] | _, _ => [] end
  | _ => fun _ => []
  end.

Fixpoint written_from (past rest : list event) : list (Z * Z * list Z) :=
  match rest with
  | [] => []
  | @Ev R c :: rest' => write_entry (resources_of past) c (host R past c) ++ written_from (past ++ [Ev c]) rest'
  end.

Definition written (h : list event) : list (Z * Z * list Z) := written_from [] h.

Lemma written_from_app past h1 h2 : written_from past (h1 ++ h2) = written_from past h1 ++ written_from (past ++ h1) h2.
Proof.
  revert past. induction h1 as [|[R c] h1 IH]; intros past; simpl; [by rewrite app_nil_r|].
  by rewrite IH, <- !app_assoc.
Qed.

Lemma written_snoc h {R : Set} (c : hostcall R) :
  written (h ++ [Ev c]) = written h ++ write_entry (resources_of h) c (host R h c).
Proof. unfold written. rewrite written_from_app. simpl. by rewrite app_nil_r. Qed.

(** The output streams with which an operation has failed, and that were not
    dropped since. *)
Definition fail_step {R : Set} (c : hostcall R) (b : gset Z) : R -> gset Z :=
  match c in hostcall R return R -> gset Z with
  | streams_output_stream_check_write st => fun a => match a with inl _ => b | inr _ => {[st]} ∪ b end
  | streams_output_stream_write st _ => fun a => match a with inl _ => b | inr _ => {[st]} ∪ b end
  | streams_output_stream_blocking_flush st => fun a => match a with inl _ => b | inr _ => {[st]} ∪ b end
  | streams_output_stream_drop_own st => fun _ => b ∖ {[st]}
  | _ => fun _ => b
  end.

Fixpoint failed_from (past rest : list event) (b : gset Z) : gset Z :=
  match rest with
  | [] => b
  | @Ev R c :: rest' => failed_from (past ++ [Ev c]) rest' (fail_step c b (host R past c))
  end.

Definition failed (h : list event) : gset Z := failed_from [] h ∅.

Lemma failed_from_app past h1 h2 b : failed_from past (h1 ++ h2) b = failed_from (past ++ h1) h2 (failed_from past h1 b).
Proof. revert past b. induction h1 as [|[R c] h1 IH]; intros past b; simpl; [by rewrite app_nil_r|]. by rewrite IH, <- app_assoc. Qed.

Lemma failed_snoc h {R : Set} (c : hostcall R) : failed (h ++ [Ev c]) = fail_step c (failed h) (host R h c).
Proof. unfold failed. by rewrite failed_from_app. Qed.
End resources.

(** What the code relies on when it reads: a stream gives the bytes of its file
    from its position on, reports the end only at the end, and has bytes, or an
    end or error to report, once a pollable made for it is ready; handles are
    not 0. [content d] is the data of the file behind the handle [d]. *)
Class ReadLaws `{Host} (content : Z -> list Z) : Prop := {
  read_stream_handle h d off st : host _ h (descriptor_read_via_stream d off) = inl st -> st <> 0;
  read_content h st d p n bytes :
    in_streams (resources_of h) !! st = Some (d, p) -> 0 <= p -> host _ h (streams_input_stream_read st n) = inl bytes ->
    bytes `prefix_of` drop (Z.to_nat p) (content d);
  read_closed h st d p n :
    in_streams (resources_of h) !! st = Some (d, p) -> 0 <= p ->
    host _ h (streams_input_stream_read st n) = inr STREAM_ERROR_CLOSED -> strlen (content d) <= p;
  read_ready h st p n :
    in_pollables (resources_of h) !! p = Some st -> 0 < n ->
    host _ (h ++ [Ev (poll_pollable_block p)]) (streams_input_stream_read st n) <> inl [];
}.

(** ** A file with one position *)

Inductive file_op := OpRead (nbyte : Z) | OpSeekSet (off : Z) | OpSeekCur (off : Z).

Inductive posix_step (data : list Z) (pos : Z) : file_op -> Z * list Z -> Z -> Prop :=
| posix_read n bytes :
    bytes `prefix_of` drop (Z.to_nat pos) data -> strlen bytes <= n ->
    (bytes = [] -> n = 0 \/ strlen data <= pos) ->
    posix_step data pos (OpRead n) (strlen bytes, bytes) (pos + strlen bytes)
| posix_read_error n : posix_step data pos (OpRead n) (-1, []) pos
| posix_seek_set off : 0 <= off -> posix_step data pos (OpSeekSet off) (off, []) off
| posix_seek_set_error off : off < 0 -> posix_step data pos (OpSeekSet off) (-1, []) pos
| posix_seek_cur off : 0 <= pos + off -> posix_step data pos (OpSeekCur off) (pos + off, []) (pos + off)
| posix_seek_cur_error off : pos + off < 0 -> posix_step data pos (OpSeekCur off) (-1, []) pos.

Inductive posix_steps (data : list Z) (pos : Z) : list file_op -> list (Z * list Z) -> Z -> Prop :=
| posix_done : posix_steps data pos [] [] pos
| posix_next op ops r rs pos1 pos2 :
    posix_step data pos op r pos1 -> posix_steps data pos1 ops rs pos2 ->
    posix_steps data pos (op :: ops) (r :: rs) pos2.

(** The code, on the object of the descriptor. *)
Section code.
Context `{Host}.

Definition run_op (fuel : nat) (op : file_op) : M (octx descriptor) (Z * list Z) :=
  o ← gets self;
  match op with
  | OpRead n => read_object fuel n o
  | OpSeekSet off => match vt_seek o with Some seek => r ← seek off SEEK_SET; mret (r, []) | None => fail_with ESPIPE (-1, []) end
  | OpSeekCur off => match vt_seek o with Some seek => r ← seek off SEEK_CUR; mret (r, []) | None => fail_with ESPIPE (-1, []) end
  end.

Fixpoint run_ops (fuel : nat) (ops : list file_op) : M (octx descriptor) (list (Z * list Z)) :=
  match ops with
  | [] => mret []
  | op :: rest => r ← run_op fuel op; rs ← run_ops fuel rest; mret (r :: rs)
  end.
End code.

(** Arguments the C types allow, and how far a call can move the position. *)
Definition op_fits (op : file_op) : Prop :=
  match op with OpRead n => 0 <= n < 2 ^ 31 | OpSeekSet off | OpSeekCur off => -2 ^ 63 <= off < 2 ^ 63 end.

Definition op_span (op : file_op) : Z :=
  match op with OpRead _ => 0 | OpSeekSet off | OpSeekCur off => Z.max 0 off end.

Fixpoint span (ops : list file_op) : Z := match ops with [] => 0 | op :: rest => op_span op + span rest end.

Section streams.
Context `{HostLaws}.

(** Calls that leave the streams alone. *)
Definition unrelated {R : Set} (c : hostcall R) : Prop := forall r a, resource_step c r a = r.

Lemma resources_unrelated h {R : Set} (c : hostcall R) : unrelated c -> resources_of (h ++ [Ev c]) = resources_of h.
Proof. intros Hc. rewrite resources_snoc. apply Hc. Qed.

Lemma stream_errno_spec {T} e (o : T) v h :
  exists v' h', __wasilibc_set_stream_errno e (Octx o v h) = Done tt (Octx o v' h') /\
    resources_of h' = resources_of h /\ written h' = written h /\ failed h' = failed h.
Proof.
  unfold __wasilibc_set_stream_errno. set (c := filesystem_error_code e).
  assert (resources_of ((h ++ [Ev c]) ++ [Ev (io_error_drop_own e)]) = resources_of h /\
    written ((h ++ [Ev c]) ++ [Ev (io_error_drop_own e)]) = written h /\
    failed ((h ++ [Ev c]) ++ [Ev (io_error_drop_own e)]) = failed h) as Hres.
  { rewrite !resources_unrelated, !written_snoc, !failed_snoc; [by rewrite !app_nil_r|by intros []..]. }
  unfold ask, mbind, M_bind. simpl. fold c. destruct (host _ h c) as [code|] eqn:Hc.
  - destruct (translate_done code) as [n Ht]; [by eapply (host_error_code _ h c); rewrite Hc|]. rewrite Ht.
    eexists (with_errno n v), _. split; [by destruct (host unit _ _)|]. exact Hres.
  - eexists (with_errno EIO v), _. split; [|exact Hres]. unfold set_errno, modify; simpl. by destruct (host unit _ _).
Qed.
End streams.

(** Moving to a position drops the open streams, unless the file is there. *)
Lemma file_seek_to_spec `{Host} f result v h :
  exists v', as_file f (file_seek_to result) (Octx (DFile f) v h) =
    (if result <? 0 then Done (-1) (Octx (DFile f) v' h)
     else Done result
       (if result =? offset f then Octx (DFile f) v h
        else Octx (DFile (File (file_handle f) result (oflag f) 0 0 0 0)) v (h ++ file_close_streams_calls f))).
Proof.
  unfold as_object, file_seek_to. destruct (Z.ltb_spec result 0); [by eexists|]. exists v.
  unfold mbind, M_bind, gets, get, mret, M_ret. simpl. by destruct (Z.eqb_spec result (offset f)) as [->|Hne].
Qed.

Definition no_write (e : event) : Prop := match e with Ev c => forall res a, write_entry res c a = [] end.

Lemma written_no_write `{Host} h es : Forall no_write es -> written (h ++ es) = written h.
Proof.
  intros He. unfold written. rewrite written_from_app. simpl.
  enough (forall past, written_from past es = []) as -> by apply app_nil_r.
  induction He as [|[R c] es Hc He IH]; intros past; simpl; [done|]. by rewrite Hc, IH.
Qed.

Lemma written_close_streams `{Host} f h : written (h ++ file_close_streams_calls f) = written h.
Proof.
  apply written_no_write. unfold file_close_streams_calls, drop_if.
  repeat apply Forall_app_2; destruct (negb _); repeat constructor; by intros ? [].
Qed.

(** ** Reading *)

Section reading.
Context `{HostLaws} (content : Z -> list Z) `{!ReadLaws content}.

(** The read stream of a file is at the position of the file. *)
Definition read_coherent (f : file_t) (h : list event) : Prop :=
  0 <= offset f /\
  (read_stream f = 0 -> read_pollable f = 0) /\
  (read_stream f <> 0 -> in_streams (resources_of h) !! read_stream f = Some (file_handle f, offset f)) /\
  (read_pollable f <> 0 -> in_pollables (resources_of h) !! read_pollable f = Some (read_stream f)).

Lemma read_coherent_fresh d off fl w wp h : 0 <= off -> read_coherent (File d off fl 0 w 0 wp) h.
Proof. intros. by split_and!. Qed.

Lemma read_coherent_res f h h' : resources_of h' = resources_of h -> read_coherent f h -> read_coherent f h'.
Proof. intros Hr. unfold read_coherent. by rewrite Hr. Qed.

Lemma get_read_stream_spec f v h :
  0 <= offset f < 2 ^ 63 -> read_coherent f h ->
  exists v' h', 
    (exists st, get_read_stream (DFile f) (Octx (DFile f) v h) = Done (0, Some (Io st true true 0)) (Octx (DFile (set_read_stream st f)) v' h') /\
       st <> 0 /\ read_coherent (set_read_stream st f) h')
    \/ get_read_stream (DFile f) (Octx (DFile f) v h) = Done (-1, None) (Octx (DFile f) v' h') /\ read_coherent f h'.
Proof.
  destruct f as [d off fl rs ws rp wp]. intros Hoff (Hpos & H1 & H2 & H3). simpl in *. unfold as_object, file_get_read_stream.
  set (c := descriptor_read_via_stream d (u64 off)). destruct (Z.eqb_spec rs 0) as [->|Hz].
  - unfold gets, get, mbind, M_bind, mret, M_ret, ask, update, modify. simpl. fold c.
    destruct (host _ h c) as [st|e] eqn:Hr.
    + exists v, (h ++ [Ev c]). left. exists st. split; [done|].
      pose proof (read_stream_handle _ _ _ _ Hr). split; [done|]. unfold read_coherent. simpl. rewrite resources_snoc, Hr.
      split_and!; [done|done| |by rewrite H1]. intros _. destruct (resources_of h); simpl. by rewrite lookup_insert_eq, u64_small by lia.
    + destruct (translate_done e) as [n Ht]; [by eapply (host_error_code _ h c); rewrite Hr|].
      exists (with_errno n v), (h ++ [Ev c]). right. unfold set_read_stream; simpl. rewrite Ht. split; [done|].
      unfold read_coherent. simpl. rewrite resources_snoc, Hr. by destruct (resources_of h).
  - exists v, h. left. exists rs. split; [|done].
    unfold gets, get, mbind, M_bind, mret, M_ret; simpl. by destruct (Z.eqb_spec rs 0).
Qed.
(** What a read promises, before the offset is updated. *)
Definition read_post (f : file_t) (n : Z) (r : Z * list Z) (c : octx descriptor) : Prop :=
  exists p, let f' := File (file_handle f) (offset f) (oflag f) (read_stream f) (write_stream f) p (write_pollable f) in
    self c = DFile f' /\
    (r = (-1, []) /\ read_coherent f' (octx_log c) \/
     exists bytes, r = (strlen bytes, bytes) /\ bytes `prefix_of` drop (Z.to_nat (offset f)) (content (file_handle f)) /\
       strlen bytes <= n /\ (bytes = [] -> n = 0 \/ strlen (content (file_handle f)) <= offset f) /\
       read_coherent (set_offset (offset f + strlen bytes) f') (octx_log c)).

Lemma read_coherent_bytes f h n bytes :
  read_coherent f h -> read_stream f <> 0 ->
  host _ h (streams_input_stream_read (read_stream f) n) = inl bytes ->
  read_coherent (set_offset (offset f + strlen bytes) f) (h ++ [Ev (streams_input_stream_read (read_stream f) n)]).
Proof.
  intros (Hpos & H1 & H2 & H3) Hst Hr. unfold read_coherent. simpl. rewrite resources_snoc, Hr.
  destruct (resources_of h); simpl in *. split; [unfold strlen; lia|]. split; [done|]. split; [|done].
  intros _. by rewrite lookup_alter_eq, H2.
Qed.

Lemma read_error_spec f n v h error :
  read_coherent f h -> read_stream f <> 0 -> 0 <= n ->
  host _ h (streams_input_stream_read (read_stream f) n) = inr error ->
  exists a c, wasip2_handle_read_error error (Octx (DFile f) v (h ++ [Ev (streams_input_stream_read (read_stream f) n)])) = Done a c /\
    read_post f n (a, []) c.
Proof.
  intros Hc Hst Hn Hr. pose proof Hc as (Hpos & H1 & H2 & H3).
  assert (resources_of (h ++ [Ev (streams_input_stream_read (read_stream f) n)]) = resources_of h) as Hres.
  { rewrite resources_snoc, Hr. by destruct (resources_of h). }
  destruct error as [|e]; simpl.
  - eexists _, _. split; [done|]. exists (read_pollable f). split; [by destruct f|]. right. exists []. split; [done|].
    split; [apply prefix_nil|]. pose proof (read_closed _ _ _ _ _ (H2 Hst) Hpos Hr).
    split; [|split; [by right|]].
    + done.
    + change (strlen []) with 0. rewrite Z.add_0_r. by destruct f; apply (read_coherent_res _ h).
  - destruct (stream_errno_spec e (DFile f) v (h ++ [Ev (streams_input_stream_read (read_stream f) n)])) as (v' & h' & He & Hh' & _).
    exists (-1), (Octx (DFile f) v' h'). split; [by rewrite (bind_done _ _ _ _ _ He)|].
    exists (read_pollable f). split; [by destruct f|]. left. split; [done|]. destruct f; apply (read_coherent_res _ h); [by rewrite <- Hres|done].
Qed.

(** A read that finds something: bytes, the end of the file or an error. *)
Lemma read_loop_answer fuel f n v h :
  read_coherent f h -> read_stream f <> 0 -> 0 <= n ->
  (host _ h (streams_input_stream_read (read_stream f) n) = inl [] -> n = 0) ->
  exists r c, read_loop fuel (Io (read_stream f) true true 0) n (Octx (DFile f) v h) = Done r c /\ read_post f n r c.
Proof.
  intros Hc Hst Hn Hne. set (c := streams_input_stream_read (read_stream f) n) in *.
  destruct fuel; simpl; unfold ask, mbind, M_bind, gets, get, mret, M_ret; simpl; fold c; destruct (host _ h c) as [bytes|e] eqn:Hr.
  all: try by destruct (read_error_spec f n v h e Hc Hst Hn Hr) as (a & c' & He & Hp); fold c in He; rewrite He; eexists _, _.
  all: pose proof (host_read_length _ _ _ _ Hr); pose proof (read_coherent_bytes f h n bytes Hc Hst Hr) as Hc'.
  all: pose proof (read_content _ _ _ _ _ _ (proj1 (proj2 (proj2 Hc)) Hst) (proj1 Hc) Hr).
  all: assert (bytes = [] \/ 0 < strlen bytes) as Hb by (destruct bytes; [by left|right; unfold strlen; simpl; lia]).
  all: assert (exists c', Done (strlen bytes, bytes) (Octx (DFile f) v (h ++ [Ev c])) = Done (strlen bytes, bytes) c' /\
    read_post f n (strlen bytes, bytes) c') as (c' & Hd & Hp).
  all: try (eexists; split; [done|]; exists (read_pollable f); split; [by destruct f|]; right; exists bytes;
    split; [done|]; split; [done|]; split; [lia|]; split; [intros ->; left; by apply Hne|]; by destruct f).
  all: destruct (Z.eqb_spec n 0) as [->|Hn0];
    [destruct Hb as [->|]; [by eexists _, _|lia]|];
    destruct (Z.eqb_spec (strlen bytes) 0); [|by eexists _, _];
    destruct Hb as [->|]; [by exfalso; apply Hn0, Hne|lia].
Qed.
(** A read that finds nothing waits until the stream is ready. *)
Lemma read_loop_blocked f n v h :
  read_coherent f h -> read_stream f <> 0 -> n <> 0 ->
  host _ h (streams_input_stream_read (read_stream f) n) = inl [] ->
  exists p h0, let f' := File (file_handle f) (offset f) (oflag f) (read_stream f) (write_stream f) p (write_pollable f) in
    read_loop 1 (Io (read_stream f) true true 0) n (Octx (DFile f) v h) =
      read_loop 0 (Io (read_stream f) true true 0) n (Octx (DFile f') v (h0 ++ [Ev (poll_pollable_block p)])) /\
    read_coherent f' h0 /\ in_pollables (resources_of h0) !! p = Some (read_stream f).
Proof.
  intros Hc Hst Hn Hr. pose proof (read_coherent_bytes f h n [] Hc Hst Hr) as Hc'.
  destruct f as [d off fl rs ws rp wp]. unfold set_offset in Hc'. simpl in *. rewrite Z.add_0_r in Hc'.
  set (h1 := h ++ [Ev (streams_input_stream_read rs n)]) in *. pose proof Hc' as (Hpos & H1 & H2 & H3). simpl in *.
  unfold ask, mbind, M_bind, gets, get, mret, M_ret, update, modify. simpl. rewrite Hr. destruct (Z.eqb_spec n 0); [done|]. simpl.
  fold h1. destruct (Z.eqb_spec rp 0) as [->|Hp]; simpl.
  - eexists _, (h1 ++ [Ev (streams_input_stream_subscribe rs)]). split; [reflexivity|]. unfold read_coherent; simpl.
    rewrite resources_snoc. destruct (resources_of h1); simpl in *. rewrite lookup_insert_eq. by split_and!.
  - exists rp, h1. split; [reflexivity|]. split; [done|]. by apply H3.
Qed.

Lemma read_loop_spec f n v h :
  read_coherent f h -> read_stream f <> 0 -> 0 <= n ->
  exists r c, read_loop 1 (Io (read_stream f) true true 0) n (Octx (DFile f) v h) = Done r c /\ read_post f n r c.
Proof.
  intros Hc Hst Hn.
  destruct (decide (n = 0)) as [|Hn0]; [by apply read_loop_answer|].
  destruct (host _ h (streams_input_stream_read (read_stream f) n)) as [[|b bytes]|e] eqn:Hr.
  2,3: by apply read_loop_answer; rewrite ?Hr.
  destruct (read_loop_blocked f n v h Hc Hst Hn0 Hr) as (p & h0 & Hs & Hc0 & Hp).
  rewrite Hs. set (f' := File _ _ _ _ _ p _) in *. change (read_stream f) with (read_stream f').
  destruct (read_loop_answer 0 f' n v (h0 ++ [Ev (poll_pollable_block p)])) as (r & c & -> & p' & Hpost); [|done..| |].
  - eapply read_coherent_res; [apply resources_unrelated; by intros []|done].
  - intros Hr'. exfalso. eapply read_ready; [exact Hp|..|exact Hr']. lia.
  - exists r, c. split; [done|]. by exists p'.
Qed.

Lemma read_object_spec n f v h :
  0 <= n -> 0 <= offset f -> Z.max (offset f) (strlen (content (file_handle f))) < 2 ^ 63 -> read_coherent f h ->
  exists r f' v' h', read_object 1 n (DFile f) (Octx (DFile f) v h) = Done r (Octx (DFile f') v' h') /\
    posix_step (content (file_handle f)) (offset f) (OpRead n) r (offset f') /\
    read_coherent f' h' /\ file_handle f' = file_handle f /\ oflag f' = oflag f.
Proof.
  intros Hn Hoff Hspan Hc. unfold read_object.
  destruct (get_read_stream_spec f v h ltac:(lia) Hc) as (v1 & h1 & [(st & Hg & Hst & Hc1)|[Hg Hc1]]).
  2: { rewrite (bind_done _ _ _ _ _ Hg). eexists _, f, v1, h1. split; [done|]. split; [constructor|done]. }
  rewrite (bind_done _ _ _ _ _ Hg). simpl. unfold __wasilibc_read.
  destruct (read_loop_spec (set_read_stream st f) n v1 h1 Hc1 Hst Hn) as (r & [o v2 h2] & Hr & p & Ho & Hp).
  rewrite (bind_done _ _ _ _ _ Hr). simpl in Ho, Hp. subst o. simpl.
  destruct Hp as [[-> Hc2]|(bytes & -> & Hpre & Hlen & He & Hc2)]; simpl.
  - eexists _, _, _, _. split; [done|]. split; [constructor|done].
  - rewrite andb_true_r. pose proof (prefix_length _ _ Hpre) as Hl. rewrite length_drop in Hl.
    destruct (Z.ltb_spec 0 (strlen bytes)) as [Hlt|Hge]; simpl.
    + eexists _, _, _, _. split; [done|]. simpl. rewrite i64_small by (unfold strlen in *; lia). by split; [constructor|].
    + assert (bytes = []) as -> by (destruct bytes; [done|unfold strlen in Hge; simpl in Hge; lia]).
      change (strlen []) with 0 in *. rewrite Z.add_0_r in Hc2. eexists _, _, _, _. split; [done|].
      split; [|done]. simpl. rewrite <- (Z.add_0_r (offset f)) at 2. by apply (posix_read _ _ n []).
Qed.

Lemma seek_to_step f result v h :
  read_coherent f h ->
  exists r f' v' h', as_file f (file_seek_to result) (Octx (DFile f) v h) = Done r (Octx (DFile f') v' h') /\
    (0 <= result /\ r = result /\ offset f' = result \/ result < 0 /\ r = -1 /\ offset f' = offset f) /\
    read_coherent f' h' /\ file_handle f' = file_handle f /\ oflag f' = oflag f.
Proof.
  intros Hc. destruct (file_seek_to_spec f result v h) as (v' & ->).
  destruct (Z.ltb_spec result 0); [by eexists _, _, _, _; split; [done|]; split; [right|]|].
  destruct (Z.eqb_spec result (offset f)) as [->|]; (eexists _, _, _, _; split; [done|]; split; [by left|]).
  - done.
  - split; [by apply read_coherent_fresh|done].
Qed.

(** One call. *)
Lemma run_op_spec op f v h :
  op_fits op -> 0 <= offset f -> Z.max (offset f) (strlen (content (file_handle f))) + op_span op < 2 ^ 63 ->
  has (oflag f) O_APPEND = false -> read_coherent f h ->
  exists r f' v' h', run_op 1 op (Octx (DFile f) v h) = Done r (Octx (DFile f') v' h') /\
    posix_step (content (file_handle f)) (offset f) op r (offset f') /\
    read_coherent f' h' /\ file_handle f' = file_handle f /\ oflag f' = oflag f.
Proof.
  intros Hfit Hoff Hspan Happ Hc. unfold run_op.
  rewrite (bind_done (gets self) _ _ (DFile f) (Octx (DFile f) v h)) by done.
  destruct op as [n|off|off]; simpl in Hspan, Hfit; [apply read_object_spec; done || lia|..]; cbn [vt_seek].
  - assert (forall s, as_file f (file_seek off SEEK_SET) s = as_file f (file_seek_to off) s) as Hs.
    { intros s. unfold as_object, file_seek, mbind, M_bind, gets, get. simpl. by rewrite Happ. }
    destruct (seek_to_step f off v h Hc) as (r & f' & v' & h' & Hr & Hcase & Hrest).
    rewrite (bind_done _ _ _ r (Octx (DFile f') v' h')) by (by rewrite Hs). eexists _, f', v', h'. split; [done|].
    split; [|done]. destruct Hcase as [(? & -> & ->)|(? & -> & ->)]; by constructor.
  - assert (forall s, as_file f (file_seek off SEEK_CUR) s = as_file f (file_seek_to (offset f + off)) s) as Hs.
    { intros s. unfold as_object, file_seek, mbind, M_bind, gets, get. simpl. rewrite Happ. simpl. by rewrite i64_small by lia. }
    destruct (seek_to_step f (offset f + off) v h Hc) as (r & f' & v' & h' & Hr & Hcase & Hrest).
    rewrite (bind_done _ _ _ r (Octx (DFile f') v' h')) by (by rewrite Hs). eexists _, f', v', h'. split; [done|].
    split; [|done]. destruct Hcase as [(? & -> & ->)|(? & -> & ->)]; by constructor.
Qed.

Lemma posix_step_bound data pos op r pos' :
  posix_step data pos op r pos' -> 0 <= pos -> 0 <= pos' <= Z.max pos (strlen data) + op_span op.
Proof.
  intros Hs Hp. destruct Hs as [n bytes Hpre| | | | |]; simpl; try lia.
  apply prefix_length in Hpre. rewrite length_drop in Hpre. unfold strlen in *. lia.
Qed.

Lemma run_ops_spec ops f v h :
  Forall op_fits ops -> 0 <= offset f -> Z.max (offset f) (strlen (content (file_handle f))) + span ops < 2 ^ 63 ->
  has (oflag f) O_APPEND = false -> read_coherent f h ->
  exists rs f' v' h', run_ops 1 ops (Octx (DFile f) v h) = Done rs (Octx (DFile f') v' h') /\
    posix_steps (content (file_handle f)) (offset f) ops rs (offset f') /\ read_coherent f' h'.
Proof.
  revert f v h. induction ops as [|op ops IH]; intros f v h Hf Hoff Hspan Happ Hc; simpl in *.
  { eexists _, _, _, _. split; [done|]. by split; [constructor|]. }
  apply Forall_cons_1 in Hf as [Hop Hops].
  assert (0 <= op_span op) by (clear; destruct op; simpl; lia).
  assert (0 <= span ops) by (clear; induction ops as [|[] ?]; simpl; lia).
  destruct (run_op_spec op f v h) as (r & f1 & v1 & h1 & Hr & Hs & Hc1 & Hh & Hfl); [done|done|lia|done|done|].
  pose proof (posix_step_bound _ _ _ _ _ Hs Hoff).
  destruct (IH f1 v1 h1) as (rs & f2 & v2 & h2 & Hrs & Hss & Hc2); [done|lia|rewrite Hh; lia|by rewrite Hfl|done|].
  rewrite (bind_done _ _ _ _ _ Hr), (bind_done _ _ _ _ _ Hrs). eexists _, _, _, _. split; [done|].
  split; [|done]. rewrite Hh in Hss. by econstructor.
Qed.
End reading.

(** C10: Any sequence of [read], [lseek(SEEK_SET)] and [lseek(SEEK_CUR)] calls on
    a file behaves as on a file with one position, starting at the offset:
    every read gives the bytes at the position, at most as many as asked for,
    none only at the end of the file (or when none were asked for), and moves
    the position behind them; a seek moves it; errors leave it where it is.
    Every call returns: a blocking read waits at most once. *)
Theorem file_reads_posix `{HostLaws} content `{!ReadLaws content} ops f v h :
  Forall op_fits ops -> Z.max (offset f) (strlen (content (file_handle f))) + span ops < 2 ^ 63 ->
  has (oflag f) O_APPEND = false -> read_coherent f h ->
  exists rs f' v' h', run_ops 1 ops (Octx (DFile f) v h) = Done rs (Octx (DFile f') v' h') /\
    posix_steps (content (file_handle f)) (offset f) ops rs (offset f') /\ read_coherent f' h'.
Proof. intros ??? Hc. apply run_ops_spec; try done. apply Hc. Qed.

(** ** Writing *)

(** A file with one position that is written to: [d] is its handle, [wdone] the
    writes the host has accepted, and [wfailed] says that the stream has failed. A
    write that fails leaves the position and nothing new, or, when the host fails
    to flush what it has accepted, a first part of the bytes at the position.
    From then on writes fail, without effect, until the position is changed. *)
Record position := Position { wpos : Z; wfailed : bool; wdone : list (Z * Z * list Z) }.

Inductive write_op := OpWrite (buf : list Z) | OpSeek (off : Z) | OpSeekBy (off : Z).

Inductive posix_write (d : Z) (s : position) : write_op -> Z -> position -> Prop :=
| write_ok buf r :
    wfailed s = false -> 0 <= r <= strlen buf -> (buf <> [] -> 0 < r) ->
    posix_write d s (OpWrite buf) r (Position (wpos s + r) false (wdone s ++ [(d, wpos s, take (Z.to_nat r) buf)]))
| write_error buf b : (wfailed s = true -> b = true) -> posix_write d s (OpWrite buf) (-1) (Position (wpos s) b (wdone s))
| write_unsure buf k :
    wfailed s = false -> posix_write d s (OpWrite buf) (-1) (Position (wpos s) true (wdone s ++ [(d, wpos s, take k buf)]))
| write_seek off : 0 <= off -> posix_write d s (OpSeek off) off (Position off (wfailed s && (off =? wpos s)) (wdone s))
| write_seek_error off : off < 0 -> posix_write d s (OpSeek off) (-1) s
| write_seek_by off :
    0 <= wpos s + off -> posix_write d s (OpSeekBy off) (wpos s + off) (Position (wpos s + off) (wfailed s && (off =? 0)) (wdone s))
| write_seek_by_error off : wpos s + off < 0 -> posix_write d s (OpSeekBy off) (-1) s.

Inductive posix_writes (d : Z) (s : position) : list write_op -> list Z -> position -> Prop :=
| writes_done : posix_writes d s [] [] s
| writes_next op r s1 ops rs s2 :
    posix_write d s op r s1 -> posix_writes d s1 ops rs s2 -> posix_writes d s (op :: ops) (r :: rs) s2.

Definition write_span (op : write_op) : Z := match op with OpWrite buf => strlen buf | OpSeek off | OpSeekBy off => Z.max 0 off end.
Definition write_fits (op : write_op) : Prop := match op with OpWrite _ => True | OpSeek off | OpSeekBy off => -2 ^ 63 <= off < 2 ^ 63 end.
Definition write_spans (ops : list write_op) : Z := foldr (fun op n => write_span op + n) 0 ops.

Definition run_write `{Host} (op : write_op) : M (octx descriptor) Z :=
  o ← gets self;
  match op with
  | OpWrite buf => write_object 1 buf o
  | OpSeek off => match vt_seek o with Some seek => seek off SEEK_SET | None => fail_with ESPIPE (-1) end
  | OpSeekBy off => match vt_seek o with Some seek => seek off SEEK_CUR | None => fail_with ESPIPE (-1) end
  end.

Fixpoint run_writes `{Host} (ops : list write_op) : M (octx descriptor) (list Z) :=
  match ops with
  | [] => mret []
  | op :: rest => r ← run_write op; rs ← run_writes rest; mret (r :: rs)
  end.

Section writing.
Context `{HostLaws}.

(** What the code relies on when it writes: handles are not 0, the permitted
    size is not negative, there is room for a byte, or an error to report,
    once a pollable made for the stream is ready, and a stream with which an
    operation failed is closed: it only reports errors. *)
Class WriteLaws : Prop := {
  write_stream_handle h d off st : host _ h (descriptor_write_via_stream d off) = inl st -> st <> 0;
  check_write_size h st n : host _ h (streams_output_stream_check_write st) = inl n -> 0 <= n;
  write_ready h st p :
    out_pollables (resources_of h) !! p = Some st ->
    host _ (h ++ [Ev (poll_pollable_block p)]) (streams_output_stream_check_write st) <> inl 0;
  failed_closed h st n : st ∈ failed h -> host _ h (streams_output_stream_check_write st) <> inl n;
}.
Context `{HW : !WriteLaws}.

Definition write_coherent (f : file_t) (h : list event) : Prop :=
  0 <= offset f /\
  (write_stream f = 0 -> write_pollable f = 0) /\
  (write_stream f <> 0 -> out_streams (resources_of h) !! write_stream f = Some (file_handle f, offset f)) /\
  (write_pollable f <> 0 -> out_pollables (resources_of h) !! write_pollable f = Some (write_stream f)).

(** The write stream of a file has failed. *)
Definition write_broken (f : file_t) (h : list event) : Prop :=
  0 <= offset f /\ write_stream f <> 0 /\ write_stream f ∈ failed h.

(** The file stands for a position. *)
Definition at_position (f : file_t) (h : list event) (s : position) : Prop :=
  wpos s = offset f /\ wdone s = written h /\ if wfailed s then write_broken f h else write_coherent f h.

Lemma write_coherent_fresh d off fl r rp h : 0 <= off -> write_coherent (File d off fl r 0 rp 0) h.
Proof. intros. by split_and!. Qed.

(** The write stream is opened, if need be, without any effect on the file. *)
Lemma get_write_stream_spec f v h :
  offset f < 2 ^ 63 -> has (oflag f) O_APPEND = false -> write_coherent f h ->
  exists v' h', written h' = written h /\
    ((exists st, get_write_stream (DFile f) (Octx (DFile f) v h) = Done (0, Some (Io st true true 0)) (Octx (DFile (set_write_stream st f)) v' h') /\
       st <> 0 /\ write_coherent (set_write_stream st f) h')
    \/ get_write_stream (DFile f) (Octx (DFile f) v h) = Done (-1, None) (Octx (DFile f) v' h') /\ write_coherent f h').
Proof.
  destruct f as [d off fl rs ws rp wp]. intros Hoff Happ (Hpos & H1 & H2 & H3). simpl in *. unfold as_object, file_get_write_stream.
  set (c := descriptor_write_via_stream d (u64 off)). destruct (Z.eqb_spec ws 0) as [->|Hz].
  - unfold gets, get, mbind, M_bind, mret, M_ret, ask, update, modify. simpl. rewrite Happ. fold c.
    destruct (host _ h c) as [st|e] eqn:Hr.
    + exists v, (h ++ [Ev c]). split; [rewrite written_snoc; apply app_nil_r|]. left. exists st. simpl. fold c. rewrite Hr.
      split; [done|]. pose proof (write_stream_handle _ _ _ _ Hr). split; [done|]. unfold write_coherent. simpl. rewrite resources_snoc, Hr.
      split_and!; [done|done| |by rewrite H1]. intros _. destruct (resources_of h); simpl. by rewrite lookup_insert_eq, u64_small by lia.
    + destruct (translate_done e) as [n Ht]; [by eapply (host_error_code _ h c); rewrite Hr|].
      exists (with_errno n v), (h ++ [Ev c]). split; [rewrite written_snoc; apply app_nil_r|].
      right. simpl. fold c. rewrite Hr. rewrite Ht. split; [done|]. unfold write_coherent. simpl. rewrite resources_snoc, Hr.
      by destruct (resources_of h).
  - exists v, h. split; [done|]. left. exists ws. split; [|done].
    unfold gets, get, mbind, M_bind, mret, M_ret; simpl. by destruct (Z.eqb_spec ws 0).
Qed.
Lemma write_error_spec {T} error (o : T) v h :
  exists v' h', wasip2_handle_write_error error (Octx o v h) = Done (-1) (Octx o v' h') /\ written h' = written h /\ failed h' = failed h.
Proof.
  destruct error as [|e]; simpl; [by eexists _, h|].
  destruct (stream_errno_spec e o v h) as (v' & h' & He & _ & Hw). exists v', h'.
  split; [|done]. by rewrite (bind_done _ _ _ _ _ He).
Qed.

(** What a write promises, before the offset is updated. *)
Definition write_post (f : file_t) (buf : list Z) (ws : list (Z * Z * list Z)) (r : Z) (c : octx descriptor) : Prop :=
  exists p, let f' := File (file_handle f) (offset f) (oflag f) (read_stream f) (write_stream f) (read_pollable f) p in
    self c = DFile f' /\
    (r = -1 /\ write_broken f' (octx_log c) /\
       (written (octx_log c) = ws \/ exists k, written (octx_log c) = ws ++ [(file_handle f, offset f, take k buf)]) \/
     0 <= r <= strlen buf /\ (buf <> [] -> 0 < r) /\ written (octx_log c) = ws ++ [(file_handle f, offset f, take (Z.to_nat r) buf)] /\
       write_coherent (set_offset (offset f + r) f') (octx_log c)).

Lemma write_post_error f buf ws h0 error v :
  0 <= offset f -> write_stream f <> 0 -> write_stream f ∈ failed h0 ->
  (written h0 = ws \/ exists k, written h0 = ws ++ [(file_handle f, offset f, take k buf)]) ->
  exists r c, wasip2_handle_write_error error (Octx (DFile f) v h0) = Done r c /\ write_post f buf ws r c.
Proof.
  intros Ho Hst Hf Hw. destruct (write_error_spec error (DFile f) v h0) as (v' & h' & -> & Hh' & Hf'). eexists _, _. split; [done|].
  exists (write_pollable f). split; [by destruct f|]. left. simpl. rewrite Hh'. split; [done|]. split; [|done].
  split; [done|]. split; [done|]. by rewrite Hf'.
Qed.

(** Handing over bytes: the host has them at the position of the file. *)
Lemma write_accepted f bytes h :
  write_coherent f h -> write_stream f <> 0 ->
  let c := streams_output_stream_write (write_stream f) bytes in
  host _ h c = inl tt ->
  written (h ++ [Ev c]) = written h ++ [(file_handle f, offset f, bytes)] /\
  write_coherent (set_offset (offset f + strlen bytes) f) (h ++ [Ev c]).
Proof.
  intros (Hpos & H1 & H2 & H3) Hst c Hr. rewrite written_snoc, Hr. simpl. rewrite H2 by done. split; [done|].
  unfold write_coherent. simpl. rewrite resources_snoc, Hr. destruct (resources_of h); simpl in *.
  split; [unfold strlen; lia|]. split; [done|]. split; [|done]. intros _. by rewrite lookup_alter_eq, H2.
Qed.

Lemma write_coherent_res f h h' : resources_of h' = resources_of h -> write_coherent f h -> write_coherent f h'.
Proof. intros Hr. unfold write_coherent. by rewrite Hr. Qed.

(** A write that finds room, or an error. *)
Lemma write_loop_answer fuel f buf v h :
  write_coherent f h -> write_stream f <> 0 ->
  host _ h (streams_output_stream_check_write (write_stream f)) <> inl 0 ->
  exists r c, write_loop fuel (Io (write_stream f) true true 0) buf (Octx (DFile f) v h) = Done r c /\ write_post f buf (written h) r c.
Proof.
  intros Hc Hst Hne. set (c0 := streams_output_stream_check_write (write_stream f)) in *. pose proof (proj1 Hc) as Hpos.
  assert (written (h ++ [Ev c0]) = written h /\ resources_of (h ++ [Ev c0]) = resources_of h) as [Hw0 Hr0].
  { rewrite written_snoc, resources_unrelated by (by intros []). by rewrite app_nil_r. }
  apply (write_coherent_res _ _ _ Hr0) in Hc.
  destruct fuel; simpl; unfold ask, mbind, M_bind, gets, get, mret, M_ret; simpl; fold c0; destruct (host _ h c0) as [n|e] eqn:Hr.
  2,4: apply write_post_error; [done|done|rewrite failed_snoc, Hr; set_solver|by left].
  all: pose proof (check_write_size _ _ _ Hr); destruct (Z.eqb_spec n 0) as [->|Hn]; [done|]; simpl.
  all: set (k := Z.min n (strlen buf)); set (c1 := streams_output_stream_write (write_stream f) (take (Z.to_nat k) buf)).
  all: assert (strlen (take (Z.to_nat k) buf) = k) as Hk by (unfold strlen in *; rewrite length_take; lia).
  all: destruct (host _ (h ++ [Ev c0]) c1) as [[]|e] eqn:Hr1;
    [|apply write_post_error; [done|done|rewrite failed_snoc, Hr1; set_solver|left; rewrite written_snoc, Hr1; simpl; by rewrite app_nil_r]].
  all: destruct (write_accepted f _ _ Hc Hst Hr1) as [Hw1 Hc1]; fold c1 in Hw1, Hc1.
  all: set (c2 := streams_output_stream_blocking_flush (write_stream f)).
  all: assert (written (((h ++ [Ev c0]) ++ [Ev c1]) ++ [Ev c2]) = written h ++ [(file_handle f, offset f, take (Z.to_nat k) buf)]) as Hw2
    by (rewrite written_snoc, Hw1, Hw0; by rewrite app_nil_r).
  all: cbn [octx_log octx_env self]; destruct (host _ ((h ++ [Ev c0]) ++ [Ev c1]) c2) as [[]|e] eqn:Hr2;
    [|apply write_post_error; [done|done|rewrite failed_snoc, Hr2; set_solver|right; by eexists]].
  all: eexists _, _; split; [done|]; exists (write_pollable f); split; [by destruct f|]; right.
  all: split; [unfold strlen in *; lia|]; split; [intros Hb; destruct buf; [done|]; unfold strlen in *; simpl in *; lia|].
  all: split; [done|]; rewrite Hk in Hc1; destruct f.
  all: eapply write_coherent_res; [apply resources_unrelated; by intros []|]; exact Hc1.
Qed.

(** A write on a stream that has failed. *)
Lemma write_loop_broken f buf v h :
  write_broken f h ->
  exists r c, write_loop 1 (Io (write_stream f) true true 0) buf (Octx (DFile f) v h) = Done r c /\ write_post f buf (written h) r c /\
    r = -1 /\ written (octx_log c) = written h.
Proof.
  intros (Hpos & Hst & Hf). simpl. unfold ask, mbind, M_bind, gets, get, mret, M_ret; simpl.
  set (c0 := streams_output_stream_check_write (write_stream f)). destruct (host _ h c0) as [n|e] eqn:Hr; [by destruct (failed_closed _ _ _ Hf Hr)|].
  assert (write_stream f ∈ failed (h ++ [Ev c0])) as Hf' by (rewrite failed_snoc, Hr; set_solver).
  destruct (write_post_error f buf (written h) (h ++ [Ev c0]) e v Hpos Hst Hf') as (r & c & Hd & Hp).
  { left. rewrite written_snoc. apply app_nil_r. }
  exists r, c. split; [done|]. split; [done|]. destruct (write_error_spec e (DFile f) v (h ++ [Ev c0])) as (v' & h' & Hd' & Hw & _).
  rewrite Hd' in Hd. injection Hd as <- <-. split; [done|]. simpl. rewrite Hw, written_snoc. apply app_nil_r.
Qed.

Lemma write_loop_blocked f buf v h :
  write_coherent f h -> write_stream f <> 0 ->
  host _ h (streams_output_stream_check_write (write_stream f)) = inl 0 ->
  exists p h0, let f' := File (file_handle f) (offset f) (oflag f) (read_stream f) (write_stream f) (read_pollable f) p in
    write_loop 1 (Io (write_stream f) true true 0) buf (Octx (DFile f) v h) =
      write_loop 0 (Io (write_stream f) true true 0) buf (Octx (DFile f') v (h0 ++ [Ev (poll_pollable_block p)])) /\
    write_coherent f' h0 /\ out_pollables (resources_of h0) !! p = Some (write_stream f) /\ written h0 = written h.
Proof.
  intros Hc Hst Hr. destruct f as [d off fl rs ws rp wp]. simpl in *.
  set (h1 := h ++ [Ev (streams_output_stream_check_write ws)]).
  assert (written h1 = written h) as Hw by (unfold h1; rewrite written_snoc; apply app_nil_r).
  assert (write_coherent (File d off fl rs ws rp wp) h1) as (Hpos & H1 & H2 & H3)
    by (eapply write_coherent_res; [apply resources_unrelated; by intros []|done]).
  unfold ask, mbind, M_bind, gets, get, mret, M_ret, update, modify. simpl. rewrite Hr. simpl. fold h1.
  destruct (Z.eqb_spec wp 0) as [->|Hp]; simpl.
  - eexists _, (h1 ++ [Ev (streams_output_stream_subscribe ws)]). split; [reflexivity|].
    rewrite written_snoc. simpl. rewrite app_nil_r. unfold write_coherent; simpl.
    rewrite resources_snoc. destruct (resources_of h1); simpl in *. rewrite lookup_insert_eq. by split_and!.
  - exists wp, h1. split; [reflexivity|]. split; [done|]. split; [by apply H3|done].
Qed.

Lemma write_loop_spec f buf v h :
  write_coherent f h -> write_stream f <> 0 ->
  exists r c, write_loop 1 (Io (write_stream f) true true 0) buf (Octx (DFile f) v h) = Done r c /\ write_post f buf (written h) r c.
Proof.
  intros Hc Hst.
  destruct (host _ h (streams_output_stream_check_write (write_stream f))) as [n|e] eqn:Hr;
    [destruct (decide (n = 0)) as [->|]|]; [|apply write_loop_answer; rewrite ?Hr; congruence..].
  destruct (write_loop_blocked f buf v h Hc Hst Hr) as (p & h0 & Hs & Hc0 & Hp & Hw).
  rewrite Hs. set (f' := File _ _ _ _ _ _ p) in *. change (write_stream f) with (write_stream f').
  destruct (write_loop_answer 0 f' buf v (h0 ++ [Ev (poll_pollable_block p)])) as (r & c & -> & p' & Hpost); [|done| |].
  - eapply write_coherent_res; [apply resources_unrelated; by intros []|done].
  - by apply (write_ready h0 _ p).
  - exists r, c. split; [done|]. exists p'. rewrite written_snoc, Hw in Hpost. simpl in Hpost. by rewrite app_nil_r in Hpost.
Qed.

(** The stream to write to. *)
Lemma get_stream_spec f v h s :
  offset f < 2 ^ 63 -> has (oflag f) O_APPEND = false -> at_position f h s ->
  exists v' h', written h' = written h /\
    ((exists st, get_write_stream (DFile f) (Octx (DFile f) v h) = Done (0, Some (Io st true true 0)) (Octx (DFile (set_write_stream st f)) v' h') /\
       st <> 0 /\ at_position (set_write_stream st f) h' s)
    \/ get_write_stream (DFile f) (Octx (DFile f) v h) = Done (-1, None) (Octx (DFile f) v' h') /\ at_position f h' s).
Proof.
  intros Hoff Happ (Hp & Hw & Hs). destruct (wfailed s) eqn:Eb.
  - exists v, h. split; [done|]. left. exists (write_stream f). destruct Hs as (Hpos & Hst & Hf).
    assert (set_write_stream (write_stream f) f = f) as -> by (by destruct f).
    split; [|split; [done|]; unfold at_position; by rewrite Eb]. destruct f as [d off fl rs wst rp wp]. unfold get_write_stream, as_object, file_get_write_stream, gets, get, mbind, M_bind, mret, M_ret. simpl in *.
    by destruct (Z.eqb_spec wst 0).
  - destruct (get_write_stream_spec f v h Hoff Happ Hs) as (v' & h' & Hw' & Hc). exists v', h'. split; [done|].
    unfold at_position. rewrite Eb, Hw'. destruct Hc as [(st & ? & ? & ?)|[? ?]]; [left; by exists st|by right].
Qed.

Lemma write_loop_at f buf v h s :
  at_position f h s -> write_stream f <> 0 ->
  exists r c, write_loop 1 (Io (write_stream f) true true 0) buf (Octx (DFile f) v h) = Done r c /\ write_post f buf (wdone s) r c /\
    (wfailed s = true -> r = -1 /\ written (octx_log c) = wdone s).
Proof.
  intros (Hp & Hw & Hs) Hst. rewrite Hw. destruct (wfailed s).
  - destruct (write_loop_broken f buf v h Hs) as (r & c & ? & ? & ?). by exists r, c.
  - destruct (write_loop_spec f buf v h Hs Hst) as (r & c & ? & ?). by exists r, c.
Qed.

Lemma write_object_spec buf f v h s :
  offset f + strlen buf < 2 ^ 63 -> has (oflag f) O_APPEND = false -> at_position f h s ->
  exists r f' v' h' s', write_object 1 buf (DFile f) (Octx (DFile f) v h) = Done r (Octx (DFile f') v' h') /\
    posix_write (file_handle f) s (OpWrite buf) r s' /\ at_position f' h' s' /\ file_handle f' = file_handle f /\ oflag f' = oflag f.
Proof.
  intros Hspan Happ Hc. unfold write_object.
  assert (offset f < 2 ^ 63) as Hoff by (unfold strlen in *; lia).
  destruct (get_stream_spec f v h s Hoff Happ Hc) as (v1 & h1 & Hw1 & [(st & Hg & Hst & Hc1)|[Hg Hc1]]).
  2: { rewrite (bind_done _ _ _ _ _ Hg). exists (-1), f, v1, h1, s. split; [done|]. split; [|done]. destruct s as [p b w]. by constructor. }
  rewrite (bind_done _ _ _ _ _ Hg). simpl. unfold __wasilibc_write. simpl.
  destruct (Z.eqb_spec st 0); [done|]. cbn [negb assert_].
  rewrite (bind_done (mret tt) _ _ tt (Octx (DFile (set_write_stream st f)) v1 h1)) by done.
  destruct (write_loop_at (set_write_stream st f) buf v1 h1 s Hc1 Hst) as (r & [o v2 h2] & Hr & (p & Ho & Hp) & Hbad).
  simpl in Hr. rewrite (bind_done _ _ _ _ _ Hr). simpl in Ho, Hp, Hbad. subst o.
  destruct Hc1 as (Hpos & _ & _). simpl in Hpos. destruct s as [ps b w]. simpl in Hpos, Hp, Hbad |- *. subst ps.
  destruct Hp as [(-> & Hbr & Hw)|(Hb & Hne & Hw & Hc2)]; simpl.
  - destruct (decide (written h2 = w)) as [Ew|Ew].
    + eexists (-1), _, v2, h2, (Position (offset f) true w). split; [done|]. split; [by constructor|]. split; [|done]. by split_and!.
    + destruct Hw as [?|[k Hk]]; [done|]. eexists (-1), _, v2, h2, (Position (offset f) true (w ++ [(file_handle f, offset f, take k buf)])).
      split; [done|]. split; [|split; [by split_and!|done]]. apply (write_unsure _ (Position (offset f) b w)). destruct b; [|done]. by destruct (Hbad eq_refl).
  - assert (b = false) as -> by (destruct b; [|done]; destruct (Hbad eq_refl); lia). destruct (Z.ltb_spec 0 r) as [Hlt|Hge]; simpl.
    + eexists r, _, v2, h2, (Position (offset f + r) false _). split; [done|]. split; [by apply (write_ok _ (Position (offset f) false w))|].
      destruct Hc2 as [Hc2 Hc3]. simpl in Hc2. split; [|done]. split_and!; simpl; [|done|]; rewrite i64_small by lia; [done|]. by split.
    + assert (r = 0) as -> by lia. rewrite Z.add_0_r in Hc2. eexists 0, _, v2, h2, (Position (offset f + 0) false _).
      split; [done|]. split; [by apply (write_ok _ (Position (offset f) false w))|]. rewrite Z.add_0_r. split; [|done]. by split_and!.
Qed.

(** A seek to another place makes the stream anew. *)
Lemma seek_write_spec f result v h s :
  at_position f h s ->
  exists r f' v' h', as_file f (file_seek_to result) (Octx (DFile f) v h) = Done r (Octx (DFile f') v' h') /\
    file_handle f' = file_handle f /\ oflag f' = oflag f /\
    (result < 0 /\ r = -1 /\ at_position f' h' s \/
     0 <= result /\ r = result /\ at_position f' h' (Position result (wfailed s && (result =? wpos s)) (wdone s))).
Proof.
  intros (Hp & Hw & Hs). destruct (file_seek_to_spec f result v h) as (v' & ->). rewrite Hp.
  destruct (Z.ltb_spec result 0); [exists (-1), f, v', h; split_and!; try done; left; by split_and!|].
  destruct (Z.eqb_spec result (offset f)) as [->|Hne]; eexists _, _, _, _; (split; [done|]; split; [done|]; split; [done|]; right; split; [done|]; split; [done|]).
  - rewrite andb_true_r. by split_and!.
  - rewrite andb_false_r. split_and!; [done|by rewrite written_close_streams|by apply write_coherent_fresh].
Qed.

Lemma run_write_spec op f v h s :
  write_fits op -> 0 <= offset f -> offset f + write_span op < 2 ^ 63 -> has (oflag f) O_APPEND = false -> at_position f h s ->
  exists r f' v' h' s', run_write op (Octx (DFile f) v h) = Done r (Octx (DFile f') v' h') /\
    posix_write (file_handle f) s op r s' /\ at_position f' h' s' /\ file_handle f' = file_handle f /\ oflag f' = oflag f.
Proof.
  intros Hfit Ho Hspan Happ Hc. unfold run_write. rewrite (bind_done (gets self) _ _ (DFile f) (Octx (DFile f) v h)) by done.
  destruct op as [buf|off|off]; simpl in Hspan, Hfit; [by apply write_object_spec|..]; cbn [vt_seek].
  - assert (as_file f (file_seek off SEEK_SET) (Octx (DFile f) v h) = as_file f (file_seek_to off) (Octx (DFile f) v h)) as ->.
    { unfold as_object, file_seek, mbind, M_bind, gets, get. simpl. by rewrite Happ. }
    destruct (seek_write_spec f off v h s Hc) as (r & f' & v' & h' & Hr & Hh & Hfl & [(? & -> & ?)|(? & -> & ?)]);
      eexists _, f', v', h', _; (split; [exact Hr|]; split; [by constructor|done]).
  - assert (as_file f (file_seek off SEEK_CUR) (Octx (DFile f) v h) = as_file f (file_seek_to (offset f + off)) (Octx (DFile f) v h)) as ->.
    { unfold as_object, file_seek, mbind, M_bind, gets, get. simpl. rewrite Happ. simpl. by rewrite i64_small by lia. }
    pose proof (proj1 Hc) as Hp.
    destruct (seek_write_spec f (offset f + off) v h s Hc) as (r & f' & v' & h' & Hr & Hh & Hfl & [(? & -> & ?)|(? & -> & Ha)]).
    + eexists _, f', v', h', _; (split; [exact Hr|]; split; [constructor; lia|done]).
    + eexists _, f', v', h', _. split; [exact Hr|]. rewrite <- Hp in *. split; [constructor; lia|]. split; [|done].
      replace (wpos s + off =? wpos s) with (off =? 0) in Ha; [done|]. destruct (Z.eqb_spec off 0), (Z.eqb_spec (wpos s + off) (wpos s)); lia.
Qed.

Lemma posix_write_bound d s op r s' : posix_write d s op r s' -> 0 <= wpos s -> 0 <= wpos s' <= wpos s + write_span op.
Proof. intros Hs Hp. destruct Hs; simpl; unfold strlen in *; lia. Qed.

Lemma run_writes_spec ops f v h s :
  Forall write_fits ops -> 0 <= offset f -> offset f + write_spans ops < 2 ^ 63 -> has (oflag f) O_APPEND = false -> at_position f h s ->
  exists rs f' v' h' s', run_writes ops (Octx (DFile f) v h) = Done rs (Octx (DFile f') v' h') /\
    posix_writes (file_handle f) s ops rs s' /\ at_position f' h' s'.
Proof.
  revert f v h s. induction ops as [|op ops IH]; intros f v h s Hfit Ho Hspan Happ Hc; simpl in *.
  { eexists _, _, _, _, s. split; [done|]. by split; [constructor|]. }
  apply Forall_cons_1 in Hfit as [Hop Hops]. unfold write_spans in *.
  assert (0 <= write_spans ops) by (clear; induction ops as [|[] ?]; simpl; unfold strlen; lia). unfold write_spans in *. simpl in Hspan.
  destruct (run_write_spec op f v h s) as (r & f1 & v1 & h1 & s1 & Hr & Hw & Hc1 & Hh & Hfl); [done|done|lia|done|done|].
  pose proof (posix_write_bound _ _ _ _ _ Hw) as Hb. rewrite (proj1 Hc), (proj1 Hc1) in Hb. specialize (Hb Ho).
  destruct (IH f1 v1 h1 s1) as (rs & f2 & v2 & h2 & s2 & Hrs & Hws & Hc2); [done|lia|lia|by rewrite Hfl|done|].
  rewrite (bind_done _ _ _ _ _ Hr), (bind_done _ _ _ _ _ Hrs). eexists _, _, _, _, s2. split; [done|]. split; [|done].
  rewrite Hh in Hws. by econstructor.
Qed.
End writing.

(** C11: any sequence of [write], [lseek(SEEK_SET)] and [lseek(SEEK_CUR)] calls
    on a file opened without [O_APPEND], from a state in which no operation has
    failed, writes where a file with one position
    would: each successful write hands the host exactly the first bytes of the
    buffer that it reports, at least one of a buffer that is not empty, at the
    position, and moves the position behind them. A write that fails leaves the
    position and hands over nothing, or a first part of its buffer at the
    position when the host accepted it and could not flush it; later writes
    then fail and hand over nothing, until a seek moves the position. Every
    call returns: a blocking write waits at most once. *)
Theorem file_writes_posix `{HostLaws} `{!WriteLaws} ops f v h :
  Forall write_fits ops -> offset f + write_spans ops < 2 ^ 63 -> has (oflag f) O_APPEND = false -> write_coherent f h ->
  exists rs f' v' h' s', run_writes ops (Octx (DFile f) v h) = Done rs (Octx (DFile f') v' h') /\
    posix_writes (file_handle f) (Position (offset f) false (written h)) ops rs s' /\
    offset f' = wpos s' /\ written h' = wdone s'.
Proof.
  intros Hfit Hspan Happ Hc. destruct (run_writes_spec ops f v h (Position (offset f) false (written h)))
    as (rs & f' & v' & h' & s' & Hr & Hws & Hp & Hw & _); [done|apply Hc|done|done|by split_and!|].
  by exists rs, f', v', h', s'.
Qed.

(** ** Concrete runs *)

Definition demo_content (d : Z) : list Z := seqZ 0 demo_size.

Lemma demo_positions_app h1 h2 n acc :
  demo_positions (h1 ++ h2) n acc = demo_positions h2 (n + Z.of_nat (length h1)) (demo_positions h1 n acc).
Proof.
  revert n acc. induction h1 as [|[R c] h1 IH]; intros n acc; simpl; [by rewrite Z.add_0_r|].
  rewrite IH. f_equal. lia.
Qed.

Lemma assoc_fmap k (g : Z -> Z -> Z) l :
  (k ∈ l.*1) -> assoc k ((fun '(k', p) => (k', g k' p)) <$> l) = g k (assoc k l).
Proof.
  induction l as [|[k' p] l IH]; simpl; intros Hk; [by apply not_elem_of_nil in Hk|].
  destruct (Z.eqb_spec k' k) as [->|]; [done|]. apply IH. by apply elem_of_cons in Hk as [->|].
Qed.

Lemma demo_stream_pos h st d p :
  in_streams (resources_of (H := demo_host) h) !! st = Some (d, p) ->
  st ∈ (demo_positions h 0 []).*1 /\ assoc st (demo_positions h 0 []) = p.
Proof.
  revert st d p. induction h as [|[R c] h IH] using rev_ind; intros st d p; [done|].
  rewrite resources_snoc, demo_positions_app. simpl. set (l := demo_positions h 0 []) in *.
  destruct (resources_of h) as [ins outs ips ops] eqn:Hres. simpl in IH.
  destruct c; simpl; try (by apply IH).
  - intros [_ Hs]%lookup_delete_Some. by eapply IH.
  - assert (fst <$> ((λ '(k, p0), (k, if k =? h0 then p0 + Z.max 0 (Z.min len (demo_size - p0)) else p0)) <$> l) = l.*1) as Hk
      by (rewrite <- list_fmap_compose; apply list_fmap_ext; by intros ? []).
    intros Hs.
    assert (exists p0, in_streams (Resources ins outs ips ops) !! st = Some (d, p0) /\
      p = if st =? h0 then p0 + Z.max 0 (Z.min len (demo_size - p0)) else p0) as (p0 & Hs0 & ->).
    { revert Hs. unfold host. simpl. fold l. destruct (Z.ltb_spec 0 len), (Z.leb_spec demo_size (assoc h0 l)); simpl.
      1: { intros Hs. exists p. split; [done|]. destruct (Z.eqb_spec st h0) as [->|]; [|done]. destruct (IH _ _ _ Hs). lia. }
      all: destruct (Z.eqb_spec st h0) as [->|Hne]; [rewrite lookup_alter_eq|rewrite lookup_alter_ne by done; by exists p].
      all: destruct (ins !! h0) as [[d0 p0]|] eqn:Hi; [|done]; intros [= -> <-]; exists p0; split; [done|].
      all: unfold strlen, demo_bytes; rewrite length_seqZ; destruct (IH _ _ _ Hi); lia. }
    destruct (IH _ _ _ Hs0) as [Hin Ha]. split; [by rewrite Hk|].
    by rewrite (assoc_fmap st (fun k p0 => if k =? h0 then p0 + Z.max 0 (Z.min len (demo_size - p0)) else p0)), Ha.
  - rewrite Z.add_0_l. set (k := 100 + Z.of_nat (length h)). destruct (Z.eqb_spec k st) as [->|Hne].
    + rewrite lookup_insert_eq. intros [= -> ->]. split; [by left|done].
    + rewrite lookup_insert_ne by done. intros Hs. destruct (IH _ _ _ Hs). split; [by right|done].
Qed.

Lemma demo_read_laws : ReadLaws (H := demo_host) demo_content.
Proof.
  split; unfold host; simpl.
  - intros h d off st [= <-]. lia.
  - intros h st d p n bytes [_ <-]%demo_stream_pos Hp. destruct (_ && _); [done|]. intros [= <-].
    set (q := assoc st _) in *. unfold demo_content, demo_bytes, demo_size in *.
    destruct (decide (q < 10)); [|rewrite (seqZ_nil q) by lia; apply prefix_nil].
    set (k := Z.max 0 (Z.min n (10 - q))). replace 10 with (q + (k + (10 - q - k))) at 1 by lia.
    rewrite !seqZ_app, Z.add_0_l by lia. rewrite drop_app_length' by (by rewrite length_seqZ). apply prefix_app_r. done.
  - intros h st d p n [_ <-]%demo_stream_pos Hp. destruct (Z.ltb_spec 0 n), (Z.leb_spec demo_size (assoc st (demo_positions h 0 []))); simpl; done || lia.
  - intros h st p n _ Hn. destruct (Z.ltb_spec 0 n); [|lia]. simpl.
    destruct (Z.leb_spec demo_size (assoc st (demo_positions (h ++ [Ev (poll_pollable_block p)]) 0 []))); [done|].
    intros [= Hb%(f_equal length)]. unfold demo_bytes in Hb. rewrite length_seqZ in Hb. simpl in Hb. lia.
Qed.

Lemma file_reads_posix_witness :
  exists rs f' v' h', run_ops (H := demo_host) 1 [OpRead 4; OpSeekCur 1; OpRead 8; OpRead 1; OpSeekSet 2; OpRead 1]
      (Octx (DFile (File 50 0 0 0 0 0 0)) (Env 0 []) []) = Done rs (Octx (DFile f') v' h') /\
    rs = [(4, [0; 1; 2; 3]); (5, []); (5, [5; 6; 7; 8; 9]); (0, []); (2, []); (1, [2])] /\ offset f' = 3.
Proof.
  destruct (file_reads_posix (H := demo_host) (H0 := demo_host_laws) demo_content (ReadLaws0 := demo_read_laws)
    [OpRead 4; OpSeekCur 1; OpRead 8; OpRead 1; OpSeekSet 2; OpRead 1] (File 50 0 0 0 0 0 0) (Env 0 []) [])
    as (rs & f' & v' & h' & Hr & _).
  - repeat constructor; simpl; lia.
  - vm_compute; reflexivity.
  - reflexivity.
  - by apply read_coherent_fresh.
  - exists rs, f', v', h'. split; [exact Hr|]. vm_compute in Hr. injection Hr as <- <- _ _. split; reflexivity.
Defined.

Lemma demo_write_laws : WriteLaws (H := demo_host).
Proof.
  split; unfold host; simpl; [|by intros ? ? ? [= <-]|done|].
  - intros h d off st [= <-]. lia.
  - intros h st n Hf. exfalso. revert Hf. enough (failed (H := demo_host) h = ∅) as -> by set_solver.
    induction h as [|[R c] h IH] using rev_ind; [done|]. rewrite failed_snoc, IH. destruct c; done || set_solver.
Qed.

Lemma file_writes_posix_witness :
  exists rs f' v' h' s', run_writes (H := demo_host) [OpWrite [7; 8]; OpSeek 100; OpWrite [9]; OpSeek (-1); OpSeekBy 4; OpWrite [10]]
      (Octx (DFile (File 50 0 0 0 0 0 0)) (Env 0 []) []) = Done rs (Octx (DFile f') v' h') /\
    posix_writes 50 (Position 0 false []) [OpWrite [7; 8]; OpSeek 100; OpWrite [9]; OpSeek (-1); OpSeekBy 4; OpWrite [10]] rs s' /\
    rs = [2; 100; 1; -1; 105; 1] /\ written (H := demo_host) h' = [(50, 0, [7; 8]); (50, 100, [9]); (50, 105, [10])].
Proof.
  destruct (file_writes_posix (H := demo_host) (H0 := demo_host_laws) (H1 := demo_write_laws)
    [OpWrite [7; 8]; OpSeek 100; OpWrite [9]; OpSeek (-1); OpSeekBy 4; OpWrite [10]] (File 50 0 0 0 0 0 0) (Env 0 []) [])
    as (rs & f' & v' & h' & s' & Hr & Hs & _).
  - repeat constructor; simpl; lia.
  - vm_compute; reflexivity.
  - reflexivity.
  - by apply write_coherent_fresh.
  - exists rs, f', v', h', s'. split; [exact Hr|]. split; [exact Hs|]. vm_compute in Hr. injection Hr as <- _ _ <-. split; vm_compute; reflexivity.
Defined.

(** Runs of the slots of one file, for the counterexamples. *)
Definition demo_read (n : Z) : M (octx descriptor) (Z * list Z) := o ← gets self; read_object (H := demo_host) 1 n o.
Definition demo_write (buf : list Z) : M (octx descriptor) Z := o ← gets self; write_object (H := demo_host) 1 buf o.
Definition demo_seek (off whence : Z) : M (octx descriptor) Z :=
  o ← gets self; match vt_seek (H := demo_host) o with Some seek => seek off whence | None => mret 0 end.

(** [lseek(fd, off, SEEK_END)] stores the size in the offset before it
    compares the new position with it, so the open streams survive. With
    [off = 0] the call returns the size of the file, and the next read gives
    the bytes after the previous read and not the end of the file; and a call
    that fails with [EINVAL] has moved the offset. *)
Theorem seek_end_keeps_stream :
  (exists s, (a ← demo_read 4; r ← demo_seek 0 SEEK_END; b ← demo_read 4; mret (a, r, b))
      (Octx (DFile (File 50 0 0 0 0 0 0)) (Env 0 []) []) = Done ((4, [0; 1; 2; 3]), 10, (4, [4; 5; 6; 7])) s) /\
  (exists s, (r ← demo_seek (-20) SEEK_END; p ← demo_seek 0 SEEK_CUR; mret (r, p))
      (Octx (DFile (File 50 0 0 0 0 0 0)) (Env 0 []) []) = Done (-1, 10) s /\ errno s = EINVAL).
Proof. split; eexists; [vm_compute; reflexivity|split; vm_compute; reflexivity]. Qed.

(** The read and the write stream of a file share one offset, but a write
    does not move the read stream: after reading four bytes and writing two,
    the offset is 6 and the next read gives the bytes at 4. *)
Theorem write_leaves_read_stream :
  exists s, (a ← demo_read 4; r ← demo_write [7; 8]; p ← demo_seek 0 SEEK_CUR; b ← demo_read 2; mret (a, r, p, b))
      (Octx (DFile (File 50 0 0 0 0 0 0)) (Env 0 []) []) = Done ((4, [0; 1; 2; 3]), 2, 6, (2, [4; 5])) s.
Proof. eexists. vm_compute. reflexivity. Qed.
