(* ===== verification/Memory.v ===== *)
(** * Success when memory does not run out

    An allocator whose list of answers is empty always succeeds. From such a
    state the operations that enter objects in the table cannot fail. *)

From S2P Require Import Prelude Errno SockAddr Host DescTable Object File Tcp Udp Vtable FdOps.

Section rich.
Context {O E : Type} `{Vtable O E}.
Implicit Types s : dtable O E.

Definition rich s : Prop := env_allocs (dt_env s) = [] /\ 0 <= next_fd s.

(** From a rich state, [m] leads to a rich state, and its result satisfies [P]. *)
Definition succeeds {A} (m : M (dtable O E) A) (P : A -> Prop) : Prop :=
  forall s a s', rich s -> m s = Done a s' -> rich s' /\ P a.

Lemma succeeds_ret {A} (a : A) (P : A -> Prop) : P a -> succeeds (mret a) P.
Proof. by intros Hp s b s' Hs [= <- <-]. Qed.

Lemma succeeds_bind {A B} (m : M (dtable O E) A) (f : A -> M (dtable O E) B) P Q :
  succeeds m P -> (forall a, P a -> succeeds (f a) Q) -> succeeds (m ≫= f) Q.
Proof.
  intros Hm Hf s b s'' Hs. unfold mbind, M_bind. destruct (m s) as [a s'|] eqn:Ha; [|done].
  destruct (Hm s a s' Hs Ha) as [Hs' Hp]. by apply Hf.
Qed.

Lemma succeeds_weaken {A} (m : M (dtable O E) A) (P Q : A -> Prop) : succeeds m P -> (forall a, P a -> Q a) -> succeeds m Q.
Proof. intros Hm Hpq s a s' Hs Ha. destruct (Hm s a s' Hs Ha). auto. Qed.

Lemma succeeds_alloc : succeeds alloc_ok (fun b => b = true).
Proof.
  intros s b s' [Ha Hn]. unfold alloc_ok. simpl. rewrite Ha. intros [= <- <-]. by destruct s.
Qed.

Lemma succeeds_get : succeeds get rich.
Proof. by intros s a s' Hs [= <- <-]. Qed.

Lemma succeeds_gets {A} (f : dtable O E -> A) : succeeds (gets f) (fun _ => True).
Proof. by intros s a s' Hs [= <- <-]. Qed.

Lemma succeeds_modify (f : dtable O E -> dtable O E) : (forall s, rich s -> rich (f s)) -> succeeds (modify f) (fun _ => True).
Proof. intros Hf s a s' Hs [= <- <-]. auto. Qed.

Lemma succeeds_halt {A} r (P : A -> Prop) : succeeds (halt r) P.
Proof. by intros s a s' Hs. Qed.

Lemma succeeds_deref {A} (o : option A) : succeeds (deref o) (fun _ => True).
Proof. destruct o; [by apply succeeds_ret|apply succeeds_halt]. Qed.

Lemma succeeds_assert b : succeeds (assert_ b) (fun _ => True).
Proof. destruct b; [by apply succeeds_ret|apply succeeds_halt]. Qed.
End rich.

Global Hint Resolve succeeds_get succeeds_alloc succeeds_gets succeeds_halt succeeds_deref succeeds_assert : libc.

Ltac rich_step :=
  lazymatch goal with
  | |- succeeds (mbind _ _) _ => eapply succeeds_bind; [|intros ? ?; cbv beta in *; subst; cbn [negb]]
  | |- succeeds (modify _) _ => apply succeeds_modify; by intros ? [? ?]
  | |- succeeds (if ?b then _ else _) _ => destruct b eqn:?
  | |- succeeds (mret _) _ => apply succeeds_ret; try exact I; try reflexivity
  | |- succeeds _ _ => solve [eauto with libc]
  end.
Ltac rich_tac := repeat rich_step.

Section operations.
Context {O E : Type} `{Vtable O E}.

Lemma succeeds_double fuel n needed : succeeds (double_until fuel n needed : M (dtable O E) Z) (fun _ => True).
Proof. revert n. induction fuel; intros n; simpl; rich_tac. Qed.
Hint Resolve succeeds_double : libc.

Lemma succeeds_grow needed : succeeds (table_grow needed : M (dtable O E) Z) (fun rc => rc = 0).
Proof.
  unfold table_grow. eapply succeeds_bind; [apply succeeds_get|]. intros s _.
  destruct (needed <=? len s); [by apply succeeds_ret|]. eapply succeeds_bind; [apply succeeds_double|]. intros n _.
  eapply succeeds_bind; [apply succeeds_alloc|]. intros b ->. simpl.
  destruct (negb _); [apply succeeds_halt|]. eapply (succeeds_bind _ _ (fun _ => True)); [|intros; by apply succeeds_ret].
  by apply succeeds_modify.
Qed.
Hint Resolve succeeds_grow : libc.

Lemma succeeds_slot i : succeeds (slot i : M (dtable O E) _) (fun _ => True).
Proof. unfold slot. rich_tac. Qed.
Hint Resolve succeeds_slot : libc.

Lemma succeeds_skip fuel fd : succeeds (skip_occupied fuel fd : M (dtable O E) Z) (fun r => fd <= r).
Proof.
  revert fd. induction fuel; intros fd; simpl; rich_tac; try lia.
  eapply succeeds_weaken; [apply IHfuel|]. simpl. lia.
Qed.

Lemma succeeds_allocate e : succeeds (table_allocate e : M (dtable O E) Z) (fun fd => 0 <= fd).
Proof.
  unfold table_allocate. eapply succeeds_bind; [apply succeeds_get|]. intros s [_ Hs].
  eapply succeeds_bind; [apply succeeds_skip|]. intros fd Hfd. simpl in Hfd.
  eapply (succeeds_bind _ _ (fun rc => rc = 0)); [rich_tac|]. intros rc ->. cbn [Z.ltb Z.compare].
  eapply succeeds_bind; [apply succeeds_slot|]. intros _ _.
  eapply (succeeds_bind _ _ (fun _ => True)); [unfold set_slot; rich_tac|]. intros _ _.
  eapply (succeeds_bind _ _ (fun _ => True)); [|intros _ _; apply succeeds_ret; lia].
  apply succeeds_modify. intros s' [? ?]. split; simpl; [done|lia].
Qed.

Lemma succeeds_insert_entry e : succeeds (descriptor_table_insert_entry e : M (dtable O E) Z) (fun fd => 0 <= fd).
Proof.
  unfold descriptor_table_insert_entry. eapply (succeeds_bind _ _ (fun _ => True)); [unfold load; rich_tac|]. intros o _.
  eapply succeeds_bind; [apply succeeds_assert|]. intros _ _. eapply succeeds_bind; [apply succeeds_allocate|].
  intros fd Hfd. cbv beta in Hfd. destruct (Z.ltb_spec fd 0); [lia|]. by apply succeeds_ret.
Qed.

Lemma succeeds_load l : succeeds (load l : M (dtable O E) _) (fun _ => True).
Proof. unfold load. rich_tac. Qed.

Lemma succeeds_insert_with init e :
  succeeds (init : M (dtable O E) Z) (fun rc => rc = 0) -> succeeds (insert_with init e) (fun fd => 0 <= fd).
Proof.
  intros Hi. unfold insert_with, store, live_descriptors_inc.
  eapply succeeds_bind; [apply succeeds_load|]. intros o _. eapply succeeds_bind; [apply succeeds_assert|]. intros _ _.
  do 2 (eapply (succeeds_bind _ _ (fun _ => True)); [by apply succeeds_modify|intros _ _]).
  eapply succeeds_bind; [apply succeeds_gets|]. intros b _.
  eapply (succeeds_bind _ _ (fun rc => rc = 0)); [destruct b; [by apply succeeds_ret|done]|]. intros rc ->.
  apply succeeds_insert_entry.
Qed.

Lemma succeeds_new_object o : succeeds (new_object o : M (dtable O E) _) (fun _ => True).
Proof.
  unfold new_object. eapply succeeds_bind; [apply succeeds_gets|]. intros l _.
  eapply (succeeds_bind _ _ (fun _ => True)); [by apply succeeds_modify|]. intros _ _. by apply succeeds_ret.
Qed.

Lemma succeeds_stdio_add init fd :
  succeeds init (fun rc => rc = 0) -> succeeds (stdio_add (insert_with init) fd : M (dtable O E) Z) (fun r => 0 <= r).
Proof.
  intros Hi. unfold stdio_add. eapply succeeds_bind; [apply succeeds_alloc|]. intros b ->. simpl.
  eapply succeeds_bind; [apply succeeds_new_object|]. intros e _. by apply succeeds_insert_with.
Qed.

Lemma succeeds_init_stdio : succeeds (init_stdio : M (dtable O E) Z) (fun rc => rc = 0).
Proof.
  unfold init_stdio, __wasilibc_init_stdio. eapply (succeeds_bind _ _ (fun _ => True)); [by apply succeeds_modify|]. intros _ _.
  do 3 (eapply succeeds_bind; [apply succeeds_stdio_add, succeeds_halt|]; cbv beta; intros n Hn;
        replace (n <? 0) with false by lia; clear n Hn).
  by apply succeeds_ret.
Qed.

Lemma succeeds_insert e : succeeds (descriptor_table_insert e : M (dtable O E) Z) (fun fd => 0 <= fd).
Proof. apply succeeds_insert_with, succeeds_init_stdio. Qed.
End operations.

Lemma succeeds_add_file `{Host} h flags : succeeds (__wasilibc_add_file h flags) (fun fd => 0 <= fd).
Proof.
  unfold __wasilibc_add_file. eapply succeeds_bind; [apply succeeds_alloc|]. intros b ->. simpl.
  eapply succeeds_bind; [apply succeeds_assert|]. intros _ _.
  eapply succeeds_bind; [apply succeeds_new_object|]. intros e _. apply succeeds_insert.
Qed.
