(* ===== verification/Preopens.v ===== *)
(** * Preopened directories

    The table of sources/preopens.c that maps path prefixes to descriptors:
    registration, population from the host, lookup, closing and reset; [close]
    of sources/__wasilibc_fd_renumber.c. The code is shared by two back ends,
    as in the source: wasip1, where the host's descriptor is used directly, and
    wasip2, where it is entered in the descriptor table. *)

From S2P Require Import Prelude Errno Utf8 Time Stat SockAddr Host DescTable Object File Tcp Udp Vtable FdOps Nocwd.

(** ** Paths *)

Fixpoint strip_prefixes (path : cstr) : cstr :=
  match path with
  | [] => []
  | c :: rest =>
      if c =? SLASH then strip_prefixes rest
      else if c =? DOT then
        match rest with
        | [] => []
        | d :: rest' => if d =? SLASH then strip_prefixes rest' else path
        end
      else path
  end.

(** [memcmp(a, b, n) == 0] *)
Fixpoint memeq (a b : cstr) (n : nat) : bool :=
  match n with
  | 0%nat => true
  | S n' => (at_ a 0 =? at_ b 0) && memeq (tail a) (tail b) n'
  end.

(** [while (i > 0 && prefix[i - 1] == '/') --i] *)
Fixpoint trim_slashes (prefix : cstr) (i : nat) : nat :=
  match i with
  | 0%nat => 0%nat
  | S j => if at_ prefix j =? SLASH then trim_slashes prefix j else i
  end.

Definition prefix_matches (prefix : cstr) (prefix_len : nat) (path : cstr) : bool :=
  if negb (at_ path 0 =? SLASH) && (prefix_len =? 0)%nat then true else
  if negb (memeq path prefix prefix_len) then false else
  let last := at_ path (trim_slashes prefix prefix_len) in
  (last =? SLASH) || (last =? 0).

(** ** The table *)

Record preopen := Preopen { prefix : cstr; state_fd : Z }.

(** [preopens_ptr] says whether the array is allocated; [num_preopens] is the
    length of [preopens], the entries in use. *)
Record preopens_t := Preopens {
  preopens_populated : bool;
  preopens_ptr : bool;
  preopens : list preopen;
  preopen_capacity : Z;
}.

Definition no_preopens : preopens_t := Preopens false false [] 0.

Definition num_preopens (p : preopens_t) : Z := Z.of_nat (length (preopens p)).

(** [sizeof(preopen)]: a pointer and an [int]. *)
Definition sizeof_preopen : Z := 8.

Definition EX_SOFTWARE : Z := 70.
Definition EX_OSERR : Z := 71.

Class HasPreopens (St : Type) := {
  pre : St -> preopens_t;
  with_pre : preopens_t -> St -> St;
}.

(** What a WASI version provides: the type of the host's directories, which of
    them are valid, and how one becomes the descriptor stored in the table. *)
Class Backend (St : Type) := {
  preopen_t : Type;
  assert_preopen_valid : preopen_t -> bool;
  preopen_state_initialize : preopen_t -> M St (Z * Z);
}.

Section table.
Context {St : Type} `{Libc St} `{HasPreopens St}.

Definition update_pre (f : preopens_t -> preopens_t) : M St unit := modify (fun s => with_pre (f (pre s)) s).

Definition invariants (p : preopens_t) : bool :=
  (num_preopens p <=? preopen_capacity p) &&
  ((preopen_capacity p =? 0) || preopens_ptr p) &&
  ((preopen_capacity p =? 0) || (preopen_capacity p <? u32 (preopen_capacity p * sizeof_preopen))) &&
  forallb (fun e => negb (state_fd e =? -1)) (preopens p).

Definition assert_invariants : M St unit := p ← gets pre; assert_ (invariants p).

(** [calloc] fails when the product of its arguments does not fit. *)
Definition calloc (n size : Z) : M St bool := ok ← alloc_ok; mret (ok && (n * size <? 2 ^ 32)).

Definition resize : M St Z :=
  p ← gets pre;
  let new_capacity := if preopen_capacity p =? 0 then 4 else u32 (preopen_capacity p * 2) in
  ok ← calloc sizeof_preopen new_capacity;
  if negb ok then mret (-1) else
  update_pre (fun p => Preopens (preopens_populated p) true (preopens p) new_capacity) ;;
  assert_invariants ;;
  mret 0.

Definition internal_register_preopened_fd_unlocked `{Backend St} (fd : preopen_t) (relprefix : cstr) : M St Z :=
  assert_invariants ;;
  assert_ (assert_preopen_valid fd) ;;
  p ← gets pre;
  rc ← (if num_preopens p =? preopen_capacity p then resize else mret 0);
  if negb (rc =? 0) then mret (-1) else
  ok ← alloc_ok;
  if negb ok then mret (-1) else
  r ← preopen_state_initialize fd;
  if fst r <? 0 then mret (-1) else
  update_pre (fun p => Preopens (preopens_populated p) (preopens_ptr p)
    (preopens p ++ [Preopen (strip_prefixes relprefix) (snd r)]) (preopen_capacity p)) ;;
  assert_invariants ;;
  mret 0.

(** The loop of [__wasilibc_find_abspath]; the entries come last first. *)
Fixpoint find_loop (entries : list preopen) (path : cstr) (fd : Z) (match_len : nat) (abs_prefix : cstr) : Z * nat * cstr :=
  match entries with
  | [] => (fd, match_len, abs_prefix)
  | e :: rest =>
      let len := length (prefix e) in
      if ((fd =? -1) || (match_len <? len)%nat) && prefix_matches (prefix e) len path
      then find_loop rest path (state_fd e) len (prefix e)
      else find_loop rest path fd match_len abs_prefix
  end.

(** [__wasilibc_find_abspath]: the descriptor, the prefix that matched and the
    rest of the path. *)
Definition __wasilibc_find_abspath (populate : M St unit) (path : cstr) : M St (Z * option (cstr * cstr)) :=
  populate ;;
  let path := skip SLASH path in
  p ← gets pre;
  let '(fd, match_len, abs_prefix) := find_loop (rev (preopens p)) path (-1) 0 [] in
  if fd =? -1 then fail_with ENOENT (-1, None) else
  let computed := skip SLASH (drop match_len path) in
  mret (fd, Some (abs_prefix, if at_ computed 0 =? 0 then [DOT] else computed)).
End table.

(** The bytes up to the first zero: what [strndup] copies. *)
Fixpoint cut_nul (s : list Z) : cstr :=
  match s with [] => [] | c :: rest => if c =? 0 then [] else c :: cut_nul rest end.

(** ** wasip1 *)

Module P1.
Record state := State { p1_env : env; p1_pre : preopens_t }.

#[export] Instance state_libc : Libc state := {
  errno s := env_errno (p1_env s);
  with_errno e s := State (with_errno e (p1_env s)) (p1_pre s);
  take_alloc s := let (b, v) := take_alloc (p1_env s) in (b, State v (p1_pre s));
}.

#[export] Instance state_preopens : HasPreopens state := {
  pre := p1_pre;
  with_pre p s := State (p1_env s) p;
}.

#[export] Instance backend : Backend state := {
  preopen_t := Z;
  assert_preopen_valid fd := negb (fd =? AT_FDCWD) && negb (fd =? -1);
  preopen_state_initialize fd := mret (0, fd);
}.

Inductive prestat := PREOPENTYPE_DIR (pr_name_len : Z) | PREOPENTYPE_OTHER.

Section populate.
(** The imports [fd_prestat_get] and [fd_prestat_dir_name]. *)
Context (fd_prestat_get : Z -> Z + prestat) (fd_prestat_dir_name : Z -> Z -> Z + list Z).

Fixpoint populate_loop (fuel : nat) (fd : Z) : M state unit :=
  if fd =? 0 then mret tt else
  match fd_prestat_get fd with
  | inl ret => if ret =? EBADF then mret tt else halt (Exit EX_OSERR)
  | inr st =>
      match st with
      | PREOPENTYPE_DIR pr_name_len =>
          ok ← alloc_ok;
          if negb ok then halt (Exit EX_SOFTWARE) else
          match fd_prestat_dir_name fd pr_name_len with
          | inl _ => halt (Exit EX_OSERR)
          | inr name =>
              r ← internal_register_preopened_fd_unlocked (fd : preopen_t) (cut_nul name);
              if negb (r =? 0) then halt (Exit EX_SOFTWARE) else mret tt
          end
      | PREOPENTYPE_OTHER => mret tt
      end ;;
      match fuel with 0%nat => halt Fuel | S fuel' => populate_loop fuel' (u32 (fd + 1)) end
  end.

Definition __wasilibc_populate_preopens (fuel : nat) : M state unit :=
  p ← gets pre;
  if preopens_populated p then mret tt else
  populate_loop fuel 3 ;;
  update_pre (fun p => Preopens true (preopens_ptr p) (preopens p) (preopen_capacity p)).

Definition __wasilibc_register_preopened_fd (fuel : nat) (fd : Z) (prefix : cstr) : M state Z :=
  __wasilibc_populate_preopens fuel ;;
  internal_register_preopened_fd_unlocked (fd : preopen_t) prefix.
End populate.

Definition __wasilibc_reset_preopens : M state unit :=
  update_pre (fun _ => no_preopens) ;;
  assert_invariants.
End P1.

(** ** wasip2 *)

(** The current directory and the static buffers of sources/chdir.c and
    sources/posix.c: [cwd_literal] says that [__wasilibc_cwd] is still the
    string literal it starts as. *)
Record cwd_t := Cwd {
  cwd : cstr;
  cwd_literal : bool;
  cwd_mallocd : bool;
  make_absolute_len : Z;
  chdir_buf_len : Z;
  relpath_buf_len : Z;
  relpath_alt_buf_len : Z;
}.

Definition initial_cwd : cwd_t := Cwd [SLASH] true false 0 0 0 0.

(** The state of the process. *)
Record sys := Sys { tbl : world; sys_pre : preopens_t; sys_cwd : cwd_t }.

Definition set_tbl (t : world) (s : sys) : sys := Sys t (sys_pre s) (sys_cwd s).
Definition set_cwd (c : cwd_t) (s : sys) : sys := Sys (tbl s) (sys_pre s) c.

Global Instance sys_libc : Libc sys := {
  errno s := errno (tbl s);
  with_errno e s := set_tbl (with_errno e (tbl s)) s;
  take_alloc s := let (b, t) := take_alloc (tbl s) in (b, set_tbl t s);
}.

Global Instance sys_preopens : HasPreopens sys := {
  pre := sys_pre;
  with_pre p s := Sys (tbl s) p (sys_cwd s);
}.

Section wasip2.
Context `{Host}.

(** A call of a lower layer. *)
Definition lower {A} (m : M world A) : M sys A := zoom tbl set_tbl m.

Global Instance sys_backend : Backend sys := {
  preopen_t := Z;
  assert_preopen_valid handle := negb (handle =? 0);
  preopen_state_initialize handle :=
    fd ← lower (__wasilibc_add_file handle O_RDWR);
    if fd <? 0 then lower (ask (descriptor_drop_own handle)) ;; mret (-1, fd) else mret (0, fd);
}.

Fixpoint populate_loop (dirs : list (Z * cstr)) : M sys unit :=
  match dirs with
  | [] => mret tt
  | (handle, name) :: rest =>
      ok ← alloc_ok;
      if negb ok then lower (ask (descriptor_drop_own handle)) ;; halt (Exit EX_SOFTWARE) else
      r ← internal_register_preopened_fd_unlocked (handle : preopen_t) (cut_nul name);
      if negb (r =? 0) then halt (Exit EX_SOFTWARE) else populate_loop rest
  end.

Definition __wasilibc_populate_preopens : M sys unit :=
  p ← gets pre;
  if preopens_populated p then mret tt else
  dirs ← lower (ask filesystem_preopens_get_directories);
  populate_loop dirs ;;
  update_pre (fun p => Preopens true (preopens_ptr p) (preopens p) (preopen_capacity p)).

Definition close (fd : Z) : M sys Z :=
  __wasilibc_populate_preopens ;;
  r ← lower (descriptor_table_remove fd);
  mret (if r <? 0 then -1 else 0).

Fixpoint close_all (entries : list preopen) : M sys unit :=
  match entries with
  | [] => mret tt
  | e :: rest => close (state_fd e) ;; close_all rest
  end.

Definition __wasilibc_reset_preopens : M sys unit :=
  p ← gets pre;
  close_all (preopens p) ;;
  update_pre (fun _ => no_preopens) ;;
  assert_invariants ;;
  lower descriptor_table_clear.

Definition find_abspath (path : cstr) : M sys (Z * option (cstr * cstr)) :=
  __wasilibc_find_abspath __wasilibc_populate_preopens path.
End wasip2.
