(* ===== verification/PreopensProps.v ===== *)
(** * Preopened directories: theorems

    Which prefix a path is matched with and what is left of it, and what
    registration and population leave in the table. *)

From S2P Require Import Prelude Errno Utf8 Time Stat Host DescTable DescTableInv DescTableSpec DescTableProps.
From S2P Require Import Object File Tcp Udp Vtable FdOps FdProps Memory Nocwd Preopens.

(** ** Prefixes *)

(** [p] names a directory that [path] is in, or is: whole components. *)
Definition component_prefix (p path : cstr) : Prop :=
  exists rest, path = p ++ rest /\ (p = [] \/ rest = [] \/ at_ rest 0 = SLASH \/ at_ p (length p - 1) = SLASH).

Lemma memeq_prefix a b : wf_cstr b -> memeq a b (length b) = true <-> b `prefix_of` a.
Proof.
  intros Hb. revert a. induction Hb as [|c b Hc Hb IH]; intros a; simpl; [split; [intros; apply prefix_nil|done]|].
  rewrite andb_true_iff, IH, Z.eqb_eq. destruct a as [|x a]; unfold at_; simpl.
  - split; [lia|by intros ?%prefix_nil_not].
  - split.
    + intros [-> ?]. by apply prefix_cons.
    + intros Hp. split; [symmetry; by eapply prefix_cons_inv_1|by eapply prefix_cons_inv_2].
Qed.

Lemma trim_slashes_le p i : (trim_slashes p i <= i)%nat.
Proof. induction i; simpl; [lia|]. case_match; lia. Qed.

(** Trimming stops at the end, or at a slash. *)
Lemma trim_slashes_spec p i :
  (i <= length p)%nat ->
  trim_slashes p i = i \/ (trim_slashes p i < i)%nat /\ at_ p (trim_slashes p i) = SLASH /\ at_ p (i - 1) = SLASH.
Proof.
  induction i as [|i IH]; simpl; intros Hi; [by left|].
  destruct (Z.eqb_spec (at_ p i) SLASH) as [Hs|]; [|by left]. right.
  rewrite Nat.sub_0_r. destruct IH as [->|(? & ? & ?)]; [lia|..]; split_and!; done || lia.
Qed.

Lemma prefix_matches_iff p path :
  wf_cstr p -> wf_cstr path -> prefix_matches p (length p) path = true <-> component_prefix p path.
Proof.
  intros Hp Hpath. unfold prefix_matches, component_prefix.
  destruct p as [|c p'] eqn:Ep.
  { simpl. rewrite andb_true_r. destruct (at_ path 0 =? SLASH); simpl; (split; [|done]); intros _; exists path; auto. }
  rewrite <- Ep in *. assert (p <> []) as Hne by (by rewrite Ep).
  replace (length p =? 0)%nat with false by (rewrite Ep; done). rewrite andb_false_r.
  destruct (memeq path p (length p)) eqn:Hm; simpl.
  2: { split; [done|]. intros (rest & -> & _). apply not_true_iff_false in Hm. by destruct Hm; apply memeq_prefix; [|apply prefix_app_r]. }
  apply memeq_prefix in Hm as [rest ->]; [|done]. rewrite orb_true_iff, !Z.eqb_eq.
  assert (forall i, (i < length p)%nat -> at_ (p ++ rest) i = at_ p i) as Hat by (intros; unfold at_; by rewrite lookup_app_l).
  assert (at_ (p ++ rest) (length p) = at_ rest 0) as Hend by (unfold at_; rewrite lookup_app_r by lia; by rewrite Nat.sub_diag).
  destruct (trim_slashes_spec p (length p)) as [Ht|(Hlt & Ht & Hlast)]; [lia|..].
  - rewrite Ht, Hend. split.
    + intros Hr. exists rest. split; [done|]. right. destruct Hr as [|Hz]; [by auto|]. left.
      destruct rest as [|x rest]; [done|]. apply Forall_app in Hpath as [_ [Hx _]%Forall_cons_1]. unfold at_ in Hz; simpl in Hz. lia.
    + intros (rest' & Heq & Hc). apply app_inv_head in Heq as <-.
      destruct Hc as [|[->|[|Hs]]]; [done|by right|by left|].
      exfalso. destruct (length p) as [|n] eqn:El; [by destruct p|]. simpl in Ht.
      replace (S n - 1)%nat with n in Hs by lia. rewrite Hs, Z.eqb_refl in Ht. pose proof (trim_slashes_le p n). lia.
  - rewrite (Hat _ Hlt). split; [|by left]. intros _. exists rest. split; [done|]. right. right. right. by rewrite Hlast.
Qed.

(** A prefix of the table matches a path exactly when the path is that
    directory or inside it: the prefix is followed by the end of the path or a
    slash, or ends in one. *)
Theorem prefix_matches_correct p path :
  wf_cstr p -> wf_cstr path -> prefix_matches p (length p) path = true <-> component_prefix p path.
Proof. apply prefix_matches_iff. Qed.

Lemma prefix_matches_correct_witness :
  (prefix_matches (lit "foo") 3 (lit "foo/bar") = true <-> component_prefix (lit "foo") (lit "foo/bar")) /\
  (prefix_matches (lit "foo") 3 (lit "foobar") = true <-> component_prefix (lit "foo") (lit "foobar")).
Proof.
  split; [apply (prefix_matches_correct (lit "foo") (lit "foo/bar"))|apply (prefix_matches_correct (lit "foo") (lit "foobar"))];
    repeat constructor.
Defined.

(** ** Lookup *)

(** [path] is the directory of the entry, or lies in it. *)
Definition matches (path : cstr) (e : preopen) : Prop := component_prefix (prefix e) path.

(** [e] is the entry for [path]: it matches, no other entry that matches has a
    longer prefix, and none registered later has one as long. *)
Definition best_match (entries : list preopen) (path : cstr) (e : preopen) : Prop :=
  exists before after, entries = before ++ e :: after /\ matches path e /\
    (forall e', e' ∈ before -> matches path e' -> length (prefix e') <= length (prefix e))%nat /\
    (forall e', e' ∈ after -> matches path e' -> length (prefix e') < length (prefix e))%nat.

Lemma find_loop_spec es path fd ml abs :
  wf_cstr path -> Forall (fun e => wf_cstr (prefix e)) es -> Forall (fun e => state_fd e <> -1) es ->
  (exists r1 e r2, es = r1 ++ e :: r2 /\ find_loop es path fd ml abs = (state_fd e, length (prefix e), prefix e) /\
     matches path e /\ (fd = -1 \/ (ml < length (prefix e))%nat) /\
     (forall e', e' ∈ r1 -> matches path e' -> length (prefix e') < length (prefix e))%nat /\
     (forall e', e' ∈ r2 -> matches path e' -> length (prefix e') <= length (prefix e))%nat) \/
  find_loop es path fd ml abs = (fd, ml, abs) /\
    (forall e', e' ∈ es -> matches path e' -> fd <> -1 /\ (length (prefix e') <= ml)%nat).
Proof.
  intros Hpath Hwf Hfd. revert Hwf fd ml abs. induction Hfd as [|e es He Hes IH]; intros Hwf fd ml abs; simpl.
  { right. split; [done|]. by intros e' ?%not_elem_of_nil. }
  apply Forall_cons_1 in Hwf as [Hwe Hwf]. specialize (IH Hwf). pose proof (prefix_matches_iff (prefix e) path Hwe Hpath) as Hiff. fold (matches path e) in Hiff.
  destruct (((fd =? -1) || (ml <? length (prefix e))%nat) && prefix_matches (prefix e) (length (prefix e)) path) eqn:Hc.
  - apply andb_true_iff in Hc as [Hc Hm]. apply orb_true_iff in Hc as Hc'. rewrite Z.eqb_eq, Nat.ltb_lt in Hc'.
    apply Hiff in Hm. left. destruct (IH (state_fd e) (length (prefix e)) (prefix e)) as [(r1 & e2 & r2 & -> & -> & Hm2 & [?|Hlt] & H1 & H2)|[-> Hall]]; [done|..].
    + exists (e :: r1), e2, r2. split; [done|]. split; [done|]. split; [done|]. split; [destruct Hc'; [by left|right; lia]|].
      split; [|done]. intros e' [->|Hin]%elem_of_cons; [done|by apply H1].
    + exists [], e, es. split; [done|]. split; [done|]. split; [done|]. split; [done|].
      split; [by intros e' ?%not_elem_of_nil|]. intros e' Hin Hm'. by apply Hall.
  - assert (matches path e -> fd <> -1 /\ (length (prefix e) <= ml)%nat) as Hskip.
    { intros Hm%Hiff. rewrite Hm, andb_true_r in Hc. apply orb_false_iff in Hc as [?%Z.eqb_neq ?%Nat.ltb_ge]. done. }
    destruct (IH fd ml abs) as [(r1 & e2 & r2 & -> & -> & Hm2 & Hor & H1 & H2)|[-> Hall]].
    + left. exists (e :: r1), e2, r2. split; [done|]. split; [done|]. split; [done|]. split; [done|]. split; [|done].
      intros e' [->|Hin]%elem_of_cons; [|by apply H1]. intros [? ?]%Hskip. destruct Hor; [done|lia].
    + right. split; [done|]. intros e' [->|Hin]%elem_of_cons; [done|by apply Hall].
Qed.

(** What a lookup that found an entry returns for the path. *)
Definition relative_to (p abs rel : cstr) : Prop :=
  at_ rel 0 <> SLASH /\
  exists k, p = abs ++ replicate k SLASH ++ rel /\ rel <> [] \/ p = abs ++ replicate k SLASH /\ rel = [DOT].

Definition wf_preopens (p : preopens_t) : Prop := Forall (fun e => wf_cstr (prefix e)) (preopens p).

Lemma relative_spec e p :
  wf_cstr (prefix e) -> wf_cstr p -> matches p e ->
  let computed := skip SLASH (drop (length (prefix e)) p) in
  relative_to p (prefix e) (if at_ computed 0 =? 0 then [DOT] else computed).
Proof.
  intros He Hp (rest & -> & _). rewrite drop_app_length. cbv zeta.
  apply Forall_app in Hp as [_ Hrest]. pose proof (skip_head SLASH rest) as Hh. apply (wf_cstr_skip SLASH) in Hrest.
  destruct (skip_spec SLASH rest) as [k Hk]. destruct (skip SLASH rest) as [|c comp] eqn:Hs.
  - split; [done|]. exists k. right. by rewrite Hk at 1; rewrite app_nil_r.
  - apply Forall_cons_1 in Hrest as [Hc _]. unfold at_ in *. simpl in *. destruct (Z.eqb_spec c 0); [lia|].
    split; [intros [=]; naive_solver|]. exists k. left. by rewrite Hk.
Qed.

Lemma find_abspath_spec {St} `{Libc St} `{HasPreopens St} (populate : M St unit) (s s1 : St) path :
  populate s = Done tt s1 -> invariants (pre s1) = true -> wf_preopens (pre s1) -> wf_cstr path ->
  let p := skip SLASH path in
  (exists e rel, __wasilibc_find_abspath populate path s = Done (state_fd e, Some (prefix e, rel)) s1 /\
     best_match (preopens (pre s1)) p e /\ relative_to p (prefix e) rel /\ state_fd e <> -1) \/
  (__wasilibc_find_abspath populate path s = Done (-1, None) (with_errno ENOENT s1) /\
     forall e, e ∈ preopens (pre s1) -> ~ matches p e).
Proof.
  intros Hpop Hinv Hwf Hpath p. unfold __wasilibc_find_abspath. rewrite (bind_done _ _ _ _ _ Hpop). fold p.
  rewrite (bind_done (gets pre) _ s1 (pre s1) s1) by done.
  assert (Forall (fun e => state_fd e <> -1) (preopens (pre s1))) as Hfds.
  { unfold invariants in Hinv. rewrite !andb_true_iff, forallb_forall in Hinv. destruct Hinv as [_ Hall].
    apply Forall_forall. intros e Hin. apply Hall in Hin. by apply negb_true_iff, Z.eqb_neq in Hin. }
  destruct (find_loop_spec (rev (preopens (pre s1))) p (-1) 0 []) as [(r1 & e & r2 & Hr & -> & Hm & _ & H1 & H2)|[-> Hall]].
  { by apply wf_cstr_skip. } { by apply Forall_rev. } { by apply Forall_rev. }
  - assert (preopens (pre s1) = rev r2 ++ e :: rev r1) as Heq.
    { rewrite <- (rev_involutive (preopens (pre s1))), Hr, rev_app_distr. simpl. by rewrite <- app_assoc. }
    assert (state_fd e <> -1 /\ wf_cstr (prefix e)) as [Hne He].
    { unfold wf_preopens in Hwf. rewrite Heq in Hfds, Hwf. by apply Forall_app in Hfds as [_ [? _]%Forall_cons_1], Hwf as [_ [? _]%Forall_cons_1]. }
    left. destruct (Z.eqb_spec (state_fd e) (-1)); [done|]. exists e. eexists. split; [done|]. split; [|split; [|done]].
    + exists (rev r2), (rev r1). split; [done|]. split; [done|].
      split; intros e' Hin; [apply H2|apply H1]; by apply list_elem_of_In, in_rev, list_elem_of_In.
    + apply relative_spec; [done|by apply wf_cstr_skip|done].
  - right. split; [done|]. intros e Hin Hm. destruct (Hall e) as [? _]; [|done..].
    by apply list_elem_of_In, in_rev; rewrite rev_involutive; apply list_elem_of_In.
Qed.

(** C17: [__wasilibc_find_abspath] takes, among the entries whose directory the
    path is or lies in (whole components: not [foo] for [foobar]), the one with
    the longest prefix, the one registered last among equally long ones; the path
    is that prefix (after leading slashes), more slashes and the rest, and the
    relative path is the rest, never empty and never with a leading slash: the
    dot when nothing is left. Without a match the call fails with [ENOENT]. *)
Theorem find_abspath_correct `{Host} (s : sys) path :
  preopens_populated (pre s) = true -> invariants (pre s) = true -> wf_preopens (pre s) -> wf_cstr path ->
  let p := skip SLASH path in
  (exists e rel, find_abspath path s = Done (state_fd e, Some (prefix e, rel)) s /\
     best_match (preopens (pre s)) p e /\ relative_to p (prefix e) rel /\ state_fd e <> -1) \/
  (find_abspath path s = Done (-1, None) (with_errno ENOENT s) /\
     forall e, e ∈ preopens (pre s) -> ~ matches p e).
Proof.
  intros Hpop. apply find_abspath_spec. unfold __wasilibc_populate_preopens, mbind, M_bind, gets. by rewrite Hpop.
Qed.

(** ** Population *)

(** The descriptor table while the preopens are entered: [k] of them are. *)
Definition booting (k : Z) (t : world) : Prop :=
  inv [] t /\ len t <= Z.max (2 ^ 10) (2 * (3 + k) + 10) /\
  (k = 0 /\ stdio_initialized t = false \/
   0 < k /\ stdio_initialized t = true /\ forall j, is_Some (open_fds t !! j) <-> 0 <= j < 3 + k).

(** The file a descriptor refers to. *)
Definition file_at (t : world) (fd : Z) : option descriptor := open_fds t !! fd ≫= fun l => bodies t !! l.

Section populate.
Context `{HostLaws}.

Lemma add_file_boot k t h flags :
  booting k t -> 0 <= k < 2 ^ 20 -> h <> 0 ->
  exists r t', __wasilibc_add_file h flags t = Done r t' /\ (rich t -> rich t' /\ 0 <= r) /\
    (r = 3 + k /\ booting (k + 1) t' /\ file_at t' r = Some (DFile (File h 0 flags 0 0 0 0)) /\
       (forall fd, 3 <= fd < 3 + k -> file_at t' fd = file_at t fd)
     \/ r < 0).
Proof.
  intros ([W He] & Hl & Hk) Hk0 Hh.
  assert (exists r t', __wasilibc_add_file h flags t = Done r t' /\
    (r = 3 + k /\ booting (k + 1) t' /\ file_at t' r = Some (DFile (File h 0 flags 0 0 0 0)) /\
       (forall fd, 3 <= fd < 3 + k -> file_at t' fd = file_at t fd)
     \/ r < 0)) as (r & t' & Hr & Hc).
  2: { exists r, t'. split; [done|]. split; [|done]. intros Hrich. by eapply succeeds_add_file. }
  destruct Hk as [(-> & Hst)|(Hpos & Hst & Hdom)].
  - unfold __wasilibc_add_file. destruct (alloc_ok_table t) as (b & v & Ha & Hv).
    rewrite (bind_done _ _ _ _ _ Ha). destruct b; simpl.
    2: { eexists (-1), _. split; [reflexivity|]. right. lia. }
    destruct (Z.eqb_spec h 0); [done|]. simpl.
    rewrite (bind_done (mret tt) _ (set_env v t) tt (set_env v t)) by done.
    destruct (first_insert_spec [] (set_env v t) (DFile (File h 0 flags 0 0 0 0))) as (r & t' & -> & W' & St' & L' & Hc);
      [done|split; simpl; lia|done|].
    exists r, t'. split; [done|]. destruct Hc as [(-> & _ & Hd & Hf)|(-> & _)]; [left|right; lia].
    split; [done|]. split; [|split; [|intros; lia]].
    + split; [by split; [|rewrite St']|]. split; [lia|]. right. split; [lia|]. split; [done|]. intros j.
      rewrite <- elem_of_dom, Hd. set_unfold. lia.
    + destruct (Hf 3 (DFile (File h 0 flags 0 0 0 0))) as (l & Hl1 & Hl2); [set_unfold; auto|].
      unfold file_at. by rewrite Hl1.
  - destruct (add_file_spec [] t h flags W) as (r & t' & Hr & W' & St' & L' & Hc); [simpl; lia..|done|done|].
    exists r, t'. split; [done|]. destruct Hc as [(Hr0 & Hn & Hlow & _ & Hfresh & Ho & Hb & _)|(-> & _)]; [left|right; lia].
    assert (r = 3 + k) as -> by (eapply lowest_is; [exact Hdom|done|done|done|lia]).
    split; [done|]. split; [|split].
    + split; [by split; [|rewrite St']|]. split; [lia|]. right. split; [lia|]. split; [done|]. intros j.
      rewrite Ho, lookup_insert. case_decide; [subst; split; [lia|done]|]. rewrite Hdom. lia.
    + unfold file_at. rewrite Ho, lookup_insert_eq. simpl. by rewrite Hb, lookup_insert_eq.
    + intros fd Hfd. unfold file_at. rewrite Ho, lookup_insert_ne by lia. destruct (open_fds t !! fd) as [l|] eqn:El; [|done].
      simpl. rewrite Hb, lookup_insert_ne; [done|]. intros <-.
      destruct (open_heap [] t fd (brk t) W El) as [o Hob]. unfold bodies in Hfresh. rewrite lookup_fmap, Hob in Hfresh. done.
Qed.

(** The table of preopens with [k] entries. *)
Definition preopens_ok (k : Z) (p : preopens_t) : Prop :=
  num_preopens p = k /\ invariants p = true /\ 0 <= preopen_capacity p <= 2 * k + 4.

Lemma alloc_ok_sys (s : sys) :
  exists b v, alloc_ok s = Done b (set_tbl (set_env v (tbl s)) s) /\ (rich (tbl s) -> b = true /\ rich (set_env v (tbl s))) /\
    env_errno v = errno s /\ (env_allocs (dt_env (tbl s)) = [] -> b = true /\ env_allocs v = []).
Proof.
  unfold alloc_ok; simpl. unfold rich. destruct (env_allocs (dt_env (tbl s))) as [|b rest] eqn:Ea.
  - exists true, (dt_env (tbl s)). simpl. rewrite Ea. split; [by destruct s as [[] ? ?]|]. split; [by intros [_ ?]|done].
  - exists b, (Env (env_errno (dt_env (tbl s))) rest). split; [by destruct s as [[] ? ?]|]. split; [by intros [? ?]|by split].
Qed.

Lemma invariants_grow p cap :
  invariants p = true -> num_preopens p <= cap -> 0 < cap <= 2 ^ 22 ->
  invariants (Preopens (preopens_populated p) true (preopens p) cap) = true.
Proof.
  unfold invariants, num_preopens, sizeof_preopen. simpl. rewrite !andb_true_iff. intros [_ Hf] Hn Hc.
  rewrite u32_small by lia. split_and!; [by apply Z.leb_le|by rewrite orb_true_r| |done]. apply orb_true_iff. right. apply Z.ltb_lt. lia.
Qed.

Lemma resize_spec k (s : sys) :
  preopens_ok k (pre s) -> 0 <= k <= 2 ^ 20 -> preopen_capacity (pre s) = k ->
  exists rc s', resize s = Done rc s' /\
    (exists v, tbl s' = set_env v (tbl s) /\ (rich (tbl s) -> rc = 0 /\ rich (tbl s'))) /\
    (rc = 0 /\ preopens_ok k (pre s') /\ k < preopen_capacity (pre s') /\ preopens (pre s') = preopens (pre s)
     \/ rc = -1).
Proof.
  intros (Hn & Hi & Hc) Hk Hcap. unfold resize. rewrite (bind_done (gets pre) _ s (pre s) s) by done.
  set (cap := if preopen_capacity (pre s) =? 0 then 4 else u32 (preopen_capacity (pre s) * 2)).
  assert (k < cap <= 2 * k + 4) as Hcap'.
  { unfold cap. rewrite Hcap. destruct (Z.eqb_spec k 0); [lia|]. rewrite u32_small by lia. lia. }
  unfold calloc. destruct (alloc_ok_sys s) as (b & v & Ha & Hr & _).
  rewrite (bind_done (alloc_ok ≫= _) _ s (b && (sizeof_preopen * cap <? 2 ^ 32)) (set_tbl (set_env v (tbl s)) s))
    by (by rewrite (bind_done _ _ _ _ _ Ha)).
  replace (sizeof_preopen * cap <? 2 ^ 32) with true by (unfold sizeof_preopen; symmetry; apply Z.ltb_lt; lia).
  destruct b; simpl.
  - pose proof (invariants_grow (pre s) cap Hi ltac:(lia) ltac:(lia)) as Hi'. simpl in Hi'.
    eexists 0, _. split; [unfold mbind, M_bind, update_pre, modify, assert_invariants, gets; simpl; unfold mbind, M_bind; simpl; by rewrite Hi'|].
    simpl. split; [exists v; split; [done|]; by intros [_ ?]%Hr|]. left. split; [done|]. split; [|split; [lia|done]].
    split; [done|]. split; [done|]. simpl. lia.
  - eexists (-1), _. split; [done|]. simpl. split; [exists v; split; [done|]; by intros [? _]%Hr|]. by right.
Qed.
(** The state while the preopens are entered. *)
Definition booting_sys (k : Z) (s : sys) : Prop := booting k (tbl s) /\ preopens_ok k (pre s) /\ 0 <= k.

Lemma booting_env k v t : booting k t -> booting k (set_env v t).
Proof. done. Qed.

Lemma lower_done {A} (m : M world A) (s : sys) a t : m (tbl s) = Done a t -> lower m s = Done a (set_tbl t s).
Proof. intros Hm. unfold lower, zoom. by rewrite Hm. Qed.

Lemma invariants_push p e :
  invariants p = true -> num_preopens p < preopen_capacity p -> state_fd e <> -1 ->
  invariants (Preopens (preopens_populated p) (preopens_ptr p) (preopens p ++ [e]) (preopen_capacity p)) = true.
Proof.
  unfold invariants, num_preopens. simpl. rewrite !andb_true_iff. intros [[[_ H2] H3] Hf] Hn Hc.
  rewrite length_app, forallb_app. simpl. split_and!; [apply Z.leb_le; lia|done|done|]. rewrite Hf. simpl.
  rewrite andb_true_r. by apply negb_true_iff, Z.eqb_neq.
Qed.

(** Room for one more entry. *)
Lemma reserve_spec k (s : sys) :
  booting_sys k s -> k <= 2 ^ 20 ->
  exists rc s', (if num_preopens (pre s) =? preopen_capacity (pre s) then resize else mret 0) s = Done rc s' /\
    (exists v, tbl s' = set_env v (tbl s) /\ (rich (tbl s) -> rc = 0 /\ rich (tbl s'))) /\
    (rc = 0 /\ booting_sys k s' /\ k < preopen_capacity (pre s') /\ preopens (pre s') = preopens (pre s) \/ rc = -1).
Proof.
  intros (Hb & Hp & Hk0) Hk. pose proof Hp as (Hn & Hi & Hcap). destruct (Z.eqb_spec (num_preopens (pre s)) (preopen_capacity (pre s))).
  - destruct (resize_spec k s Hp) as (rc & s' & -> & (v & Hv & Hr) & Hc); [lia|congruence|].
    exists rc, s'. split; [done|]. split; [by exists v|]. destruct Hc as [(? & ? & ? & ?)|]; [left|by right].
    split; [done|]. split; [|done]. split; [rewrite Hv; by apply booting_env|done].
  - exists 0, s. split; [done|]. split; [exists (dt_env (tbl s)); split; [by destruct (tbl s)|done]|]. left.
    split; [done|]. split; [done|]. split; [|done]. unfold invariants in Hi. rewrite !andb_true_iff, Z.leb_le in Hi. lia.
Qed.

Lemma register_spec k (s : sys) (h : Z) name :
  booting_sys k s -> k < 2 ^ 20 -> h <> 0 ->
  exists r s', internal_register_preopened_fd_unlocked (h : preopen_t) name s = Done r s' /\
    (rich (tbl s) -> rich (tbl s') /\ r = 0) /\
    (r = 0 /\ booting_sys (k + 1) s' /\ preopens (pre s') = preopens (pre s) ++ [Preopen (strip_prefixes name) (3 + k)] /\
       file_at (tbl s') (3 + k) = Some (DFile (File h 0 O_RDWR 0 0 0 0)) /\
       (forall fd, 3 <= fd < 3 + k -> file_at (tbl s') fd = file_at (tbl s) fd)
     \/ r = -1).
Proof.
  intros Hs Hk Hh. pose proof Hs as (Hb & (Hn & Hi & Hcap) & Hk0). unfold internal_register_preopened_fd_unlocked.
  rewrite (bind_done assert_invariants _ s tt s) by (unfold assert_invariants, gets, mbind, M_bind; by rewrite Hi).
  rewrite (bind_done (assert_ _) _ s tt s) by (simpl; by destruct (Z.eqb_spec h 0)).
  rewrite (bind_done (gets pre) _ s (pre s) s) by done.
  destruct (reserve_spec k s Hs ltac:(lia)) as (rc & s1 & Hr1 & (v1 & Hv1 & Hrich1) & Hc1). rewrite (bind_done _ _ _ _ _ Hr1).
  destruct Hc1 as [(-> & Hs1 & Hroom & Hsame)| -> ].
  2: { exists (-1), s1. split; [done|]. split; [by intros [? _]%Hrich1|by right]. }
  cbn [Z.eqb negb]. destruct (alloc_ok_sys s1) as (b & v & Ha & Hr & _). rewrite (bind_done _ _ _ _ _ Ha).
  destruct b; cbn [negb].
  2: { eexists (-1), _. split; [done|]. split; [|by right]. by intros [_ [? _]%Hr]%Hrich1. }
  set (s2 := set_tbl (set_env v (tbl s1)) s1) in *. destruct Hs1 as (Hb1 & (Hn1 & Hi1 & Hcap1) & _).
  destruct (add_file_boot k (tbl s2) h O_RDWR) as (r & t' & Hadd & Hrich & Hc); [by apply booting_env|lia|done|].
  assert (rich (tbl s) -> rich t' /\ 0 <= r) as Hrich'.
  { intros [_ [_ ?]%Hr]%Hrich1. by apply Hrich. }
  destruct Hc as [(-> & Hb' & Hfile & Hkeep)|Hneg].
  - rewrite (bind_done (preopen_state_initialize _) _ s2 (0, 3 + k) (set_tbl t' s2)).
    2: { cbn [preopen_state_initialize sys_backend]. rewrite (bind_done _ _ _ _ _ (lower_done _ _ _ _ Hadd)).
         by replace (3 + k <? 0) with false by lia. }
    cbn [fst snd Z.ltb Z.compare]. set (p' := pre s1) in *.
    pose proof (invariants_push p' (Preopen (strip_prefixes name) (3 + k)) Hi1 ltac:(lia) ltac:(simpl; lia)) as Hi'.
    set (q := Preopens _ _ _ _) in Hi'.
    exists 0, (Sys t' q (sys_cwd s1)). split.
    { rewrite (bind_done (update_pre _) _ _ tt (Sys t' q (sys_cwd s1))) by done.
      rewrite (bind_done assert_invariants _ _ tt (Sys t' q (sys_cwd s1))); [done|].
      unfold assert_invariants, gets, mbind, M_bind. simpl. by rewrite Hi'. }
    split; [by intros [? _]%Hrich'|]. left. split; [done|]. split; [|split; [|split]].
    + split; [done|]. split; [|lia]. split; [|split; [done|simpl; lia]].
      unfold num_preopens, q in *. simpl. rewrite length_app. simpl. lia.
    + simpl. by rewrite Hsame.
    + done.
    + intros fd Hfd. simpl. rewrite Hkeep by done. simpl. by rewrite Hv1.
  - rewrite (bind_done (preopen_state_initialize _) _ s2 (-1, r) (set_tbl (set_calls (calls t' ++ [Ev (descriptor_drop_own h)]) t') s2)).
    2: { cbn [preopen_state_initialize sys_backend]. rewrite (bind_done _ _ _ _ _ (lower_done _ _ _ _ Hadd)).
         by replace (r <? 0) with true by lia. }
    eexists (-1), _. split; [done|]. split; [intros [_ ?]%Hrich'; lia|by right].
Qed.

(** The entries for the host's directories, numbered from [3 + k]. *)
Fixpoint entries_for (dirs : list (Z * cstr)) (k : Z) : list preopen :=
  match dirs with
  | [] => []
  | (h, name) :: rest => Preopen (strip_prefixes (cut_nul name)) (3 + k) :: entries_for rest (k + 1)
  end.

Lemma populate_loop_spec dirs k (s : sys) :
  booting_sys k s -> k + Z.of_nat (length dirs) <= 2 ^ 20 -> Forall (fun d => fst d <> 0) dirs ->
  (exists s', populate_loop dirs s = Done tt s' /\ booting_sys (k + Z.of_nat (length dirs)) s' /\
     preopens (pre s') = preopens (pre s) ++ entries_for dirs k /\
     (forall i h name, dirs !! i = Some (h, name) -> file_at (tbl s') (3 + k + Z.of_nat i) = Some (DFile (File h 0 O_RDWR 0 0 0 0))) /\
     (forall fd, 3 <= fd < 3 + k -> file_at (tbl s') fd = file_at (tbl s) fd)) \/
  ~ rich (tbl s) /\ exists s', populate_loop dirs s = Stop (Exit EX_SOFTWARE) s'.
Proof.
  revert k s. induction dirs as [|[h name] dirs IH]; intros k s Hs Hlen Hd.
  { left. exists s. simpl. rewrite app_nil_r, Z.add_0_r. done. }
  apply Forall_cons_1 in Hd as [Hh Hd]. cbn [populate_loop]. simpl length in *. simpl in Hh. destruct Hs as (Hb & Hp & Hk).
  destruct (alloc_ok_sys s) as (b & v & Ha & Hr & _). rewrite (bind_done _ _ _ _ _ Ha). destruct b; cbn [negb].
  2: { right. split; [by intros [? _]%Hr|]. by eexists. }
  destruct (register_spec k (set_tbl (set_env v (tbl s)) s) h (cut_nul name)) as (r & s1 & Hreg & Hrich & Hc); [done|lia|done|].
  rewrite (bind_done _ _ _ _ _ Hreg). destruct Hc as [(-> & Hs1 & He & Hf & Hkeep)| -> ].
  2: { right. split; [intros [_ [_ ?]%Hrich]%Hr; lia|]. by eexists. }
  cbn [Z.eqb negb]. destruct (IH (k + 1) s1 Hs1 ltac:(lia) Hd) as [(s' & -> & Hs' & He' & Hf' & Hkeep')|[Hnr [s' ->]]].
  2: { right. split; [intros [_ [? _]%Hrich]%Hr; done|]. by eexists. }
  left. exists s'. split; [done|]. replace (k + Z.of_nat (S (length dirs))) with (k + 1 + Z.of_nat (length dirs)) by lia.
  split; [done|]. split; [|split].
  - rewrite He', He. simpl. by rewrite <- app_assoc.
  - intros [|i] h' name' Hi; simpl in Hi.
    + injection Hi as -> ->. rewrite Z.add_0_r. rewrite Hkeep' by lia. done.
    + replace (3 + k + Z.of_nat (S i)) with (3 + (k + 1) + Z.of_nat i) by lia. by eapply Hf'.
  - intros fd Hfd. rewrite Hkeep' by lia. by rewrite Hkeep.
Qed.
End populate.

(** The process before its first call. *)
Definition start (v : env) : sys := Sys (init_table v) no_preopens initial_cwd.

Lemma start_booting v : booting_sys 0 (start v).
Proof.
  split; [|split; [|done]]; [|done]. split; [split; [apply wf_init|done]|]. split; [vm_compute; discriminate|by left].
Qed.

(** C25: Populating the table at start-up enters the directories of the host in
    order as the descriptors 3, 4, ..., each open on the host's handle and each
    with its path, stripped of leading slashes and dots, as prefix; when memory
    does not run out it always succeeds, and otherwise the process may only
    exit with [EX_SOFTWARE]. *)
Theorem populate_correct `{HostLaws} v :
  let dirs := host _ [] filesystem_preopens_get_directories in
  Z.of_nat (length dirs) <= 2 ^ 20 ->
  (exists s', __wasilibc_populate_preopens (start v) = Done tt s' /\ preopens_populated (pre s') = true /\
     inv [] (tbl s') /\ invariants (pre s') = true /\ preopens (pre s') = entries_for dirs 0 /\
     forall i h name, dirs !! i = Some (h, name) -> file_at (tbl s') (3 + Z.of_nat i) = Some (DFile (File h 0 O_RDWR 0 0 0 0))) \/
  env_allocs v <> [] /\ exists s', __wasilibc_populate_preopens (start v) = Stop (Exit EX_SOFTWARE) s'.
Proof.
  intros dirs Hlen. unfold __wasilibc_populate_preopens.
  rewrite (bind_done (gets pre) _ (start v) no_preopens (start v)) by done. cbn [no_preopens preopens_populated].
  set (s1 := set_tbl (set_calls [Ev filesystem_preopens_get_directories] (tbl (start v))) (start v)).
  rewrite (bind_done (lower _) _ (start v) dirs s1) by done.
  pose proof (host_preopen_handle [] dirs eq_refl) as Hd.
  destruct (populate_loop_spec dirs 0 s1) as [(s' & Hs & Hb & He & Hf & _)|[Hn [s' Hs]]]; [by apply start_booting|lia|done|..].
  - left. eexists. rewrite (bind_done _ _ _ _ _ Hs). split; [done|]. destruct Hb as ([Hinv _] & (_ & Hi & _) & _). simpl.
    split; [done|]. split; [done|]. split; [done|]. split; [done|]. exact Hf.
  - right. split; [|eexists; by rewrite (bind_stop _ _ _ _ _ Hs)]. intros Hv. by apply Hn.
Qed.

(** ** Reset *)

Section reset.
Context `{Host}.

Lemma populate_done (s : sys) : preopens_populated (pre s) = true -> __wasilibc_populate_preopens s = Done tt s.
Proof. intros Hp. unfold __wasilibc_populate_preopens, mbind, M_bind, gets. by rewrite Hp. Qed.

Lemma close_spec fd (s : sys) :
  preopens_populated (pre s) = true -> wf [] (tbl s) -> small [] (tbl s) -> stdio_initialized (tbl s) = true ->
  exists r s', close fd s = Done r s' /\ pre s' = pre s /\ sys_cwd s' = sys_cwd s /\
    wf [] (tbl s') /\ small [] (tbl s') /\ stdio_initialized (tbl s') = true /\
    (r = 0 /\ is_Some (open_fds (tbl s) !! fd) /\ open_fds (tbl s') = delete fd (open_fds (tbl s)) /\ errno s' = errno s \/
     r = -1 /\ open_fds (tbl s) !! fd = None /\ s' = with_errno EBADF s).
Proof.
  intros Hp W Hsm Hst. unfold close. rewrite (bind_done _ _ _ _ _ (populate_done s Hp)).
  pose proof (remove_spec [] (tbl s) fd W Hsm Hst) as Hr. destruct (open_fds (tbl s) !! fd) as [e|].
  - destruct Hr as (t & o & _ & Hrm & W' & St' & E' & O' & L' & _). rewrite (bind_done _ _ _ _ _ (lower_done _ _ _ _ Hrm)).
    eexists 0, _. split; [done|]. split; [done|]. split; [done|]. split; [done|]. simpl.
    split; [unfold small in *; simpl in *; lia|]. split; [done|]. left. by split_and!.
  - rewrite (bind_done _ _ _ _ _ (lower_done _ _ _ _ Hr)). eexists (-1), _. split; [done|]. by split_and!; try right.
Qed.

Lemma close_all_spec entries (s : sys) :
  preopens_populated (pre s) = true -> wf [] (tbl s) -> small [] (tbl s) -> stdio_initialized (tbl s) = true ->
  exists s', close_all entries s = Done tt s' /\ pre s' = pre s /\ sys_cwd s' = sys_cwd s /\ wf [] (tbl s') /\ small [] (tbl s') /\
    stdio_initialized (tbl s') = true.
Proof.
  revert s. induction entries as [|e entries IH]; intros s Hp W Hsm Hst; cbn [close_all]; [by exists s|].
  destruct (close_spec (state_fd e) s Hp W Hsm Hst) as (r & s1 & Hc & Hp1 & Hcwd & W1 & Hsm1 & Hst1 & _).
  rewrite (bind_done _ _ _ _ _ Hc). destruct (IH s1) as (s' & -> & Hp2 & Hcwd2 & ?); [congruence|done..|].
  exists s'. split; [done|]. split; [congruence|]. split; [congruence|done].
Qed.
End reset.

(** [__wasilibc_reset_preopens] brings the process back to its first state:
    no preopens, every descriptor closed and every object destroyed, so that
    the next lookup populates the table again. *)
Theorem reset_preopens_correct `{Host} (s : sys) :
  preopens_populated (pre s) = true -> wf [] (tbl s) -> small [] (tbl s) -> stdio_initialized (tbl s) = true ->
  exists s', __wasilibc_reset_preopens s = Done tt s' /\ pre s' = no_preopens /\ sys_cwd s' = sys_cwd s /\
    open_fds (tbl s') = ∅ /\ heap (tbl s') = ∅ /\ stdio_initialized (tbl s') = false.
Proof.
  intros Hp W Hsm Hst. unfold __wasilibc_reset_preopens. rewrite (bind_done (gets pre) _ s (pre s) s) by done.
  destruct (close_all_spec (preopens (pre s)) s Hp W Hsm Hst) as (s1 & Hc & Hp1 & Hcwd & W1 & Hsm1 & Hst1).
  rewrite (bind_done _ _ _ _ _ Hc).
  rewrite (bind_done (update_pre _) _ s1 tt (Sys (tbl s1) no_preopens (sys_cwd s1))) by done.
  rewrite (bind_done assert_invariants _ _ tt (Sys (tbl s1) no_preopens (sys_cwd s1))) by done.
  destruct (clear_spec [] (tbl s1)) as (t & Hcl & [Wt _] & Ho & _ & Hsi & _); [by split; [|rewrite Hst1]|done|].
  rewrite (lower_done _ _ _ t) by done. eexists. split; [done|]. split; [done|]. split; [done|]. split; [done|]. split; [|done].
  apply map_eq. intros l. rewrite lookup_empty. apply eq_None_not_Some. intros Hl.
  apply (wf_objects [] t l Wt) in Hl as [[fd Hfd]|Hin]; [by rewrite Ho in Hfd|by apply elem_of_nil in Hin].
Qed.

(** ** Concrete runs *)

(** The process after start-up, with the preopens [/] and [/tmp]. *)
Definition demo_sys : sys :=
  Eval vm_compute in
  match __wasilibc_populate_preopens (H := demo_host) (start (Env 0 [])) with Done _ s => s | Stop _ s => s end.

Lemma populate_correct_witness :
  exists s', __wasilibc_populate_preopens (H := demo_host) (start (Env 0 [])) = Done tt s' /\
    preopens (pre s') = [Preopen [] 3; Preopen (lit "tmp") 4].
Proof.
  destruct (populate_correct (H := demo_host) (H0 := demo_host_laws) (Env 0 [])) as [(s' & Hs & _)|[? _]].
  - vm_compute; discriminate.
  - exists s'. split; [exact Hs|]. vm_compute in Hs. injection Hs as <-. reflexivity.
  - done.
Defined.

Lemma demo_sys_inv : inv [] (tbl demo_sys).
Proof.
  destruct (populate_loop_spec (H := demo_host) (H0 := demo_host_laws) [(3, lit "/"); (4, lit "/tmp")] 0
    (set_tbl (set_calls [Ev filesystem_preopens_get_directories] (tbl (start (Env 0 [])))) (start (Env 0 []))))
    as [(s' & Hs & [[Hi _] _] & _)|[Hn _]]; [by apply start_booting|vm_compute; discriminate|by repeat constructor|..].
  - vm_compute in Hs. injection Hs as <-. exact Hi.
  - by destruct Hn.
Qed.

Lemma find_abspath_correct_witness :
  let p := lit "tmp//x" in
  (exists e rel, find_abspath (H := demo_host) (lit "//tmp//x") demo_sys = Done (state_fd e, Some (prefix e, rel)) demo_sys /\
     best_match (preopens (pre demo_sys)) p e /\ relative_to p (prefix e) rel /\ state_fd e <> -1) \/
  (find_abspath (H := demo_host) (lit "//tmp//x") demo_sys = Done (-1, None) (with_errno ENOENT demo_sys) /\
     forall e, e ∈ preopens (pre demo_sys) -> ~ matches p e).
Proof.
  apply (find_abspath_correct (H := demo_host) demo_sys (lit "//tmp//x")); [reflexivity|reflexivity|..];
    repeat constructor; vm_compute; done || discriminate.
Defined.

Lemma reset_preopens_correct_witness :
  exists s', __wasilibc_reset_preopens (H := demo_host) demo_sys = Done tt s' /\ pre s' = no_preopens.
Proof.
  destruct (reset_preopens_correct (H := demo_host) demo_sys) as (s' & Hs & Hp & _); [reflexivity|apply demo_sys_inv|..].
  - split; vm_compute; discriminate.
  - reflexivity.
  - exists s'. split; [exact Hs|exact Hp].
Defined.
