(* ===== verification/Cwd.v ===== *)
(** * The current directory

    sources/chdir.c and sources/getcwd.c, apart from [chdir] itself (in
    Posix.v, after the functions it calls): making a path absolute, and the
    lookup of a path relative to the current directory. The build is the one
    without threads. *)

From S2P Require Import Prelude Errno Utf8 Time Stat SockAddr Host DescTable Object File Tcp Udp Vtable FdOps Nocwd Preopens.

Definition set_make_absolute_len (n : Z) (c : cwd_t) : cwd_t :=
  Cwd (cwd c) (cwd_literal c) (cwd_mallocd c) n (chdir_buf_len c) (relpath_buf_len c) (relpath_alt_buf_len c).

Definition update_cwd (f : cwd_t -> cwd_t) : M sys unit := modify (fun s => set_cwd (f (sys_cwd s)) s).

(** The static buffers that receive relative paths. *)
Inductive relbuf := ChdirBuf | RelpathBuf | RelpathAltBuf.

Definition buf_len (b : relbuf) (c : cwd_t) : Z :=
  match b with ChdirBuf => chdir_buf_len c | RelpathBuf => relpath_buf_len c | RelpathAltBuf => relpath_alt_buf_len c end.

Definition set_buf_len (b : relbuf) (n : Z) (c : cwd_t) : cwd_t :=
  match b with
  | ChdirBuf => Cwd (cwd c) (cwd_literal c) (cwd_mallocd c) (make_absolute_len c) n (relpath_buf_len c) (relpath_alt_buf_len c)
  | RelpathBuf => Cwd (cwd c) (cwd_literal c) (cwd_mallocd c) (make_absolute_len c) (chdir_buf_len c) n (relpath_alt_buf_len c)
  | RelpathAltBuf => Cwd (cwd c) (cwd_literal c) (cwd_mallocd c) (make_absolute_len c) (chdir_buf_len c) (relpath_buf_len c) n
  end.

(** [strcpy] of [s] into a buffer of [n] bytes. *)
Definition strcpy_fits (s : cstr) (n : Z) : M sys unit := if strlen s <? n then mret tt else halt Undef.

Definition make_absolute (path : cstr) : M sys (option cstr) :=
  if at_ path 0 =? SLASH then mret (Some path) else
  c ← gets sys_cwd;
  if (at_ path 0 =? 0) || streq path [DOT] || streq path [DOT; SLASH] then mret (Some (cwd c)) else
  let path := if (at_ path 0 =? DOT) && (at_ path 1 =? SLASH) then drop 2 path else path in
  (* [__wasilibc_cwd[cwd_len - 1]] *)
  if (length (cwd c) =? 0)%nat then halt Undef else
  let need_slash := if at_ (cwd c) (length (cwd c) - 1) =? SLASH then 0 else 1 in
  let alloc_len := u32 (strlen (cwd c) + strlen path + 1 + need_slash) in
  ok ← (if make_absolute_len c <? alloc_len then
          ok ← (alloc_ok : M sys bool);
          (if (ok : bool) then update_cwd (set_make_absolute_len alloc_len) else mret tt) ;;
          mret ok
        else mret true);
  if negb ok then mret None else
  let result := cwd c ++ (if need_slash =? 0 then [] else [SLASH]) ++ path in
  n ← gets (fun s => make_absolute_len (sys_cwd s));
  strcpy_fits result n ;;
  mret (Some result).

Section lookup.
Context `{Host}.

(** The result is the descriptor, the prefix and the relative path in the
    buffer, with the buffer's new size. *)
Definition find_relpath_sized (path : cstr) (relative_buf_len : Z) (can_realloc : bool) : M sys (Z * option (cstr * cstr * Z)) :=
  a ← make_absolute path;
  match a with
  | None => fail_with ENOMEM (-1, None)
  | Some abspath =>
      r ← find_abspath abspath;
      match snd r with
      | None => mret (-1, None)
      | Some (abs_prefix, rel) =>
          let rel_len := strlen rel in
          if relative_buf_len <? rel_len + 1 then
            if negb can_realloc then fail_with ERANGE (-1, None) else
            ok ← alloc_ok;
            if negb ok then fail_with ENOMEM (-1, None) else
            strcpy_fits rel (rel_len + 1) ;;
            mret (fst r, Some (abs_prefix, rel, rel_len + 1))
          else
            strcpy_fits rel relative_buf_len ;;
            mret (fst r, Some (abs_prefix, rel, relative_buf_len))
      end
  end.

(** [__wasilibc_find_relpath_alloc] on one of the static buffers. *)
Definition __wasilibc_find_relpath_alloc (b : relbuf) (path : cstr) : M sys (Z * option (cstr * cstr)) :=
  n ← gets (fun s => buf_len b (sys_cwd s));
  r ← find_relpath_sized path n true;
  match snd r with
  | None => mret (fst r, None)
  | Some (abs, rel, n') => update_cwd (set_buf_len b n') ;; mret (fst r, Some (abs, rel))
  end.

(** [__wasilibc_find_relpath], with a caller's buffer of [relative_path_len]
    bytes; [chdir_linked] says whether chdir.c is part of the program. *)
Definition __wasilibc_find_relpath (chdir_linked : bool) (path : cstr) (relative_path_len : Z) : M sys (Z * option (cstr * cstr)) :=
  if chdir_linked then
    r ← find_relpath_sized path relative_path_len false;
    mret (fst r, match snd r with Some (abs, rel, _) => Some (abs, rel) | None => None end)
  else find_abspath path.
End lookup.

(** [getcwd]: the string stored in the result, a new allocation when [buf] is
    null. *)
Definition getcwd (buf_null : bool) (size : Z) : M sys (option cstr) :=
  c ← gets (fun s => cwd (sys_cwd s));
  if buf_null then
    ok ← alloc_ok;
    if negb ok then fail_with ENOMEM None else mret (Some c)
  else if size <? u32 (strlen c + 1) then fail_with ERANGE None else
  strcpy_fits c size ;;
  mret (Some c).
