(* ===== verification/Posix.v ===== *)
(** * Path functions

    The functions of sources/posix.c, which find the preopened directory a path
    is in and call the [*at] function below it; the [*at] functions of
    sources/at_fdcwd.c, which send absolute paths and [AT_FDCWD] through them;
    [truncate] (sources/truncate.c), [chdir] (sources/chdir.c) and [unlinkat].
    Directory streams ([opendir], [scandir]) are not included. *)

From S2P Require Import Prelude Errno Utf8 Time Stat SockAddr Host DescTable Object File Tcp Udp Vtable FdOps Nocwd Preopens Cwd.

Record utimbuf := Utimbuf { actime : Z; modtime : Z }.

Section posix.
Context `{Host}.
(** Whether chdir.c, and with it [__wasilibc_find_relpath_alloc], is linked. *)
Context (chdir_linked : bool).

Definition find_relpath2 (b : relbuf) (path : cstr) : M sys (Z * option (cstr * cstr)) :=
  if chdir_linked then __wasilibc_find_relpath_alloc b path
  else __wasilibc_find_relpath chdir_linked path 0.

Definition find_relpath (path : cstr) : M sys (Z * option cstr) :=
  r ← find_relpath2 RelpathBuf path; mret (fst r, snd <$> snd r).

Definition find_relpath_alt (path : cstr) : M sys (Z * option cstr) :=
  r ← find_relpath2 RelpathAltBuf path; mret (fst r, snd <$> snd r).

(** [dirfd = find_relpath(path, &relative_path); if (dirfd == -1) { errno =
    ENOENT; return bad; } return k(dirfd, relative_path);] *)
Definition with_relpath {A} (path : cstr) (bad : A) (k : Z -> cstr -> M world A) : M sys A :=
  r ← find_relpath path;
  match snd r with
  | None => fail_with ENOENT bad
  | Some relative_path => lower (k (fst r) relative_path)
  end.

Definition __wasilibc_open_nomode (path : cstr) (oflag : Z) : M sys Z :=
  with_relpath path (-1) (fun dirfd rel => __wasilibc_nocwd_openat_nomode dirfd rel oflag).

Definition open (path : cstr) (oflag : Z) : M sys Z := __wasilibc_open_nomode path oflag.

Definition access (path : cstr) (amode : Z) : M sys Z :=
  with_relpath path (-1) (fun dirfd rel => __wasilibc_nocwd_faccessat dirfd rel amode 0).

Definition readlink (path : cstr) (bufsize : Z) : M sys (Z * cstr) :=
  with_relpath path (-1, []) (fun dirfd rel => __wasilibc_nocwd_readlinkat dirfd rel bufsize).

Definition __wasilibc_stat (path : cstr) (flags : Z) : M sys (Z * option stat) :=
  if at_ path 0 =? 0 then fail_with ENOENT (-1, None) else
  with_relpath path (-1, None) (fun dirfd rel => __wasilibc_nocwd_fstatat dirfd rel flags).

Definition stat_ (path : cstr) : M sys (Z * option stat) :=
  if at_ path 0 =? 0 then fail_with ENOENT (-1, None) else
  with_relpath path (-1, None) (fun dirfd rel => __wasilibc_nocwd_fstatat dirfd rel 0).

Definition lstat (path : cstr) : M sys (Z * option stat) :=
  if at_ path 0 =? 0 then fail_with ENOENT (-1, None) else
  with_relpath path (-1, None) (fun dirfd rel => __wasilibc_nocwd_fstatat dirfd rel AT_SYMLINK_NOFOLLOW).

Definition utime (path : cstr) (times : option utimbuf) : M sys Z :=
  with_relpath path (-1) (fun dirfd rel =>
    __wasilibc_nocwd_utimensat dirfd rel ((fun t => (Timespec (actime t) 0, Timespec (modtime t) 0)) <$> times) 0).

(** [tv_nsec] is a [long]. *)
Definition timeval_to_timespec (t : timeval) : timespec := Timespec (tval_sec t) (i32 (i64 (tv_usec t * 1000))).

Definition utimes (path : cstr) (times : option (timeval * timeval)) : M sys Z :=
  with_relpath path (-1) (fun dirfd rel =>
    __wasilibc_nocwd_utimensat dirfd rel ((fun t => (timeval_to_timespec (fst t), timeval_to_timespec (snd t))) <$> times) 0).

Definition unlink (path : cstr) : M sys Z :=
  with_relpath path (-1) (fun dirfd rel => __wasilibc_nocwd___wasilibc_unlinkat dirfd rel).

Definition rmdir (path : cstr) : M sys Z :=
  with_relpath path (-1) (fun dirfd rel => __wasilibc_nocwd___wasilibc_rmdirat dirfd rel).

Definition remove (path : cstr) : M sys Z :=
  with_relpath path (-1) (fun dirfd rel =>
    r ← __wasilibc_nocwd___wasilibc_unlinkat dirfd rel;
    e ← gets errno;
    if negb (r =? 0) && ((e =? EISDIR) || (e =? ENOENT) || (e =? EACCES) || (e =? EPERM)) then
      r ← __wasilibc_nocwd___wasilibc_rmdirat dirfd rel;
      e ← gets errno;
      (if e =? ENOTDIR then set_errno ENOENT else mret tt) ;;
      mret r
    else mret r).

Definition mkdir (path : cstr) : M sys Z :=
  with_relpath path (-1) (fun dirfd rel => __wasilibc_nocwd_mkdirat_nomode dirfd rel).

Definition symlink (target linkpath : cstr) : M sys Z :=
  with_relpath linkpath (-1) (fun dirfd rel => __wasilibc_nocwd_symlinkat target dirfd rel).

(** [link] and [rename] look up the old path first, and the new one only when
    that was found. *)
Definition link (old new : cstr) : M sys Z :=
  o ← find_relpath_alt old;
  match snd o with
  | None => fail_with ENOENT (-1)
  | Some old_relative_path =>
      n ← find_relpath new;
      match snd n with
      | None => fail_with ENOENT (-1)
      | Some new_relative_path => lower (__wasilibc_nocwd_linkat (fst o) old_relative_path (fst n) new_relative_path 0)
      end
  end.

Definition rename (old new : cstr) : M sys Z :=
  o ← find_relpath_alt old;
  match snd o with
  | None => fail_with ENOENT (-1)
  | Some old_relative_path =>
      n ← find_relpath new;
      match snd n with
      | None => fail_with ENOENT (-1)
      | Some new_relative_path => lower (__wasilibc_nocwd_renameat (fst o) old_relative_path (fst n) new_relative_path)
      end
  end.

(** The functions WASI has no support for. *)
Definition chmod (path : cstr) (mode : Z) : M sys Z := fail_with ENOSYS (-1).
Definition fchmod (fd mode : Z) : M sys Z := fail_with ENOSYS (-1).
Definition fchmodat (fd : Z) (path : cstr) (mode flag : Z) : M sys Z := fail_with ENOSYS (-1).
Definition statvfs (path : cstr) : M sys Z := fail_with ENOSYS (-1).
Definition fstatvfs (fd : Z) : M sys Z := fail_with ENOSYS (-1).

Definition __wasilibc_access (path : cstr) (mode flags : Z) : M sys Z :=
  with_relpath path (-1) (fun dirfd rel => __wasilibc_nocwd_faccessat dirfd rel mode flags).

Definition __wasilibc_utimens (path : cstr) (times : option (timespec * timespec)) (flags : Z) : M sys Z :=
  with_relpath path (-1) (fun dirfd rel => __wasilibc_nocwd_utimensat dirfd rel times flags).

(** Both paths are looked up before either result is tested. *)
Definition __wasilibc_link (oldpath newpath : cstr) (flags : Z) : M sys Z :=
  o ← find_relpath oldpath;
  n ← find_relpath_alt newpath;
  match snd o, snd n with
  | Some old_relative_path, Some new_relative_path =>
      lower (__wasilibc_nocwd_linkat (fst o) old_relative_path (fst n) new_relative_path flags)
  | _, _ => fail_with ENOENT (-1)
  end.

Definition __wasilibc_link_oldat (olddirfd : Z) (oldpath newpath : cstr) (flags : Z) : M sys Z :=
  with_relpath newpath (-1) (fun dirfd rel => __wasilibc_nocwd_linkat olddirfd oldpath dirfd rel flags).

Definition __wasilibc_link_newat (oldpath : cstr) (newdirfd : Z) (newpath : cstr) (flags : Z) : M sys Z :=
  with_relpath oldpath (-1) (fun dirfd rel => __wasilibc_nocwd_linkat dirfd rel newdirfd newpath flags).

Definition __wasilibc_rename_oldat (fromdirfd : Z) (from to : cstr) : M sys Z :=
  with_relpath to (-1) (fun dirfd rel => __wasilibc_nocwd_renameat fromdirfd from dirfd rel).

Definition __wasilibc_rename_newat (from : cstr) (todirfd : Z) (to : cstr) : M sys Z :=
  with_relpath from (-1) (fun dirfd rel => __wasilibc_nocwd_renameat dirfd rel todirfd to).

(** ** at_fdcwd.c *)

(** [dirfd == AT_FDCWD || pathname[0] == '/'] *)
Definition by_path (dirfd : Z) (pathname : cstr) : bool := (dirfd =? AT_FDCWD) || (at_ pathname 0 =? SLASH).

Definition openat (dirfd : Z) (pathname : cstr) (flags : Z) : M sys Z :=
  if by_path dirfd pathname then open pathname flags
  else lower (__wasilibc_nocwd_openat_nomode dirfd pathname flags).

Definition symlinkat (target : cstr) (dirfd : Z) (linkpath : cstr) : M sys Z :=
  if by_path dirfd linkpath then symlink target linkpath
  else lower (__wasilibc_nocwd_symlinkat target dirfd linkpath).

Definition readlinkat (dirfd : Z) (pathname : cstr) (bufsiz : Z) : M sys (Z * cstr) :=
  if by_path dirfd pathname then readlink pathname bufsiz
  else lower (__wasilibc_nocwd_readlinkat dirfd pathname bufsiz).

Definition mkdirat (dirfd : Z) (pathname : cstr) : M sys Z :=
  if by_path dirfd pathname then mkdir pathname
  else lower (__wasilibc_nocwd_mkdirat_nomode dirfd pathname).

Definition faccessat (dirfd : Z) (pathname : cstr) (mode flags : Z) : M sys Z :=
  if by_path dirfd pathname then __wasilibc_access pathname mode flags
  else lower (__wasilibc_nocwd_faccessat dirfd pathname mode flags).

Definition fstatat (dirfd : Z) (pathname : cstr) (flags : Z) : M sys (Z * option stat) :=
  if by_path dirfd pathname then __wasilibc_stat pathname flags
  else lower (__wasilibc_nocwd_fstatat dirfd pathname flags).

Definition utimensat (dirfd : Z) (pathname : cstr) (times : option (timespec * timespec)) (flags : Z) : M sys Z :=
  if by_path dirfd pathname then __wasilibc_utimens pathname times flags
  else lower (__wasilibc_nocwd_utimensat dirfd pathname times flags).

Definition linkat (olddirfd : Z) (oldpath : cstr) (newdirfd : Z) (newpath : cstr) (flags : Z) : M sys Z :=
  if by_path olddirfd oldpath && by_path newdirfd newpath then __wasilibc_link oldpath newpath flags else
  if by_path olddirfd oldpath then __wasilibc_link_newat oldpath newdirfd newpath flags else
  if by_path newdirfd newpath then __wasilibc_link_oldat olddirfd oldpath newpath flags else
  lower (__wasilibc_nocwd_linkat olddirfd oldpath newdirfd newpath flags).

Definition renameat (olddirfd : Z) (oldpath : cstr) (newdirfd : Z) (newpath : cstr) : M sys Z :=
  if by_path olddirfd oldpath && by_path newdirfd newpath then rename oldpath newpath else
  if by_path olddirfd oldpath then __wasilibc_rename_newat oldpath newdirfd newpath else
  if by_path newdirfd newpath then __wasilibc_rename_oldat olddirfd oldpath newpath else
  lower (__wasilibc_nocwd_renameat olddirfd oldpath newdirfd newpath).

Definition __wasilibc_unlinkat (dirfd : Z) (path : cstr) : M sys Z :=
  if by_path dirfd path then unlink path else lower (__wasilibc_nocwd___wasilibc_unlinkat dirfd path).

Definition __wasilibc_rmdirat (dirfd : Z) (path : cstr) : M sys Z :=
  if by_path dirfd path then rmdir path else lower (__wasilibc_nocwd___wasilibc_rmdirat dirfd path).

Definition unlinkat (fd : Z) (path : cstr) (flag : Z) : M sys Z :=
  if has flag AT_REMOVEDIR then __wasilibc_rmdirat fd path else __wasilibc_unlinkat fd path.

(** ** truncate and chdir *)

Definition truncate (path : cstr) (length_ : Z) : M sys Z :=
  fd ← __wasilibc_open_nomode path (Z.lor O_WRONLY O_CLOEXEC);
  if fd <? 0 then mret (-1) else
  result ← lower (ftruncate fd length_);
  if negb (result =? 0) then
    save_errno ← gets errno;
    close fd ;;
    set_errno save_errno ;;
    mret (-1)
  else close fd.

(** [chdir]; the string literal the current directory starts as must not be
    freed. *)
Definition chdir (path : cstr) : M sys Z :=
  p ← __wasilibc_find_relpath_alloc ChdirBuf path;
  match snd p with
  | None => mret (-1)
  | Some (abs, relative_buf) =>
      r ← fstatat (fst p) relative_buf 0;
      if fst r =? -1 then mret (-1) else
      dirinfo ← deref (snd r);
      if negb (S_ISDIR (st_mode dirinfo)) then fail_with ENOTDIR (-1) else
      let copy_relative := negb (streq relative_buf [DOT]) in
      let mid := copy_relative && negb (at_ abs 0 =? 0) in
      ok ← alloc_ok;
      if negb ok then fail_with ENOMEM (-1) else
      let new_cwd := [SLASH] ++ abs ++ (if mid then [SLASH] else []) ++ (if copy_relative then relative_buf else []) in
      c ← gets sys_cwd;
      if cwd_mallocd c && cwd_literal c then halt Undef else
      update_cwd (fun c => Cwd new_cwd false true (make_absolute_len c) (chdir_buf_len c) (relpath_buf_len c) (relpath_alt_buf_len c)) ;;
      mret 0
  end.
End posix.
