(* ===== verification/PosixProps.v ===== *)
(** * Paths and the current directory: theorems

    How a path is made absolute and resolved, that every path function returns
    and keeps the state of the process well formed, and what [chdir] does. *)

From S2P Require Import Prelude Errno Utf8 Time Stat Host DescTable DescTableInv DescTableSpec DescTableProps.
From S2P Require Import Object File Tcp Udp Vtable FdOps FdProps Memory Nocwd NocwdProps Preopens PreopensProps Cwd Posix.

(** ** Absolute paths *)

(** The absolute path for [path] in the directory [dir]. *)
Definition absolute (dir path : cstr) : cstr :=
  if at_ path 0 =? SLASH then path else
  if streq path [] || streq path [DOT] || streq path [DOT; SLASH] then dir else
  dir ++ (if at_ dir (length dir - 1) =? SLASH then [] else [SLASH]) ++
    (if (at_ path 0 =? DOT) && (at_ path 1 =? SLASH) then drop 2 path else path).

Record cwd_ok (c : cwd_t) : Prop := CwdOk {
  cwd_wf : wf_cstr (cwd c);
  cwd_root : at_ (cwd c) 0 = SLASH;
  cwd_size : strlen (cwd c) < 2 ^ 30;
  cwd_lits : cwd_mallocd c = negb (cwd_literal c);
}.

(** A path short enough to be joined to the current directory. *)
Definition short_path (p : cstr) : Prop := wf_cstr p /\ strlen p < 2 ^ 30.

(** What a lookup may change: [errno], the allocator, the sizes of the static
    buffers. *)
Definition lookup_frame (s s' : sys) : Prop :=
  (exists v, tbl s' = set_env v (tbl s) /\ (env_allocs (dt_env (tbl s)) = [] -> env_allocs v = [])) /\ pre s' = pre s /\
  cwd (sys_cwd s') = cwd (sys_cwd s) /\ cwd_literal (sys_cwd s') = cwd_literal (sys_cwd s) /\
  cwd_mallocd (sys_cwd s') = cwd_mallocd (sys_cwd s).

Lemma lookup_frame_refl s : lookup_frame s s.
Proof. split; [|done]. exists (dt_env (tbl s)). split; [by destruct (tbl s)|done]. Qed.

Lemma lookup_frame_env s v :
  (env_allocs (dt_env (tbl s)) = [] -> env_allocs v = []) -> lookup_frame s (set_tbl (set_env v (tbl s)) s).
Proof. intros Hv. split; [by exists v|done]. Qed.

Lemma lookup_frame_trans s1 s2 s3 : lookup_frame s1 s2 -> lookup_frame s2 s3 -> lookup_frame s1 s3.
Proof.
  intros ((v & Hv & Ha) & Hp & H1 & H2 & H3) ((v' & Hv' & Ha') & Hp' & H1' & H2' & H3').
  split; [exists v'; split; [by rewrite Hv', Hv|]; intros ?; apply Ha'; rewrite Hv; by apply Ha|]. split_and!; congruence.
Qed.

Lemma lookup_frame_errno e s s' : lookup_frame s s' -> lookup_frame s (with_errno e s').
Proof. intros ((v & Hv & Ha) & ?). split; [|done]. exists (with_errno e v). simpl. by rewrite Hv. Qed.

Lemma cwd_ok_frame s s' : lookup_frame s s' -> cwd_ok (sys_cwd s) -> cwd_ok (sys_cwd s').
Proof. intros (_ & _ & H1 & H2 & H3) [? ? ? ?]. split; rewrite ?H1, ?H2, ?H3; done. Qed.

Lemma absolute_props dir path :
  wf_cstr dir -> at_ dir 0 = SLASH -> wf_cstr path ->
  wf_cstr (absolute dir path) /\ at_ (absolute dir path) 0 = SLASH /\ strlen (absolute dir path) <= strlen dir + strlen path + 1.
Proof.
  intros Hd Hs Hp. unfold absolute. destruct (Z.eqb_spec (at_ path 0) SLASH) as [He|]; [unfold strlen; by split_and!; try lia|].
  destruct (_ || _ || _); [unfold strlen; by split_and!; try lia|].
  set (sep := if at_ dir (length dir - 1) =? SLASH then [] else [SLASH]).
  set (q := if (at_ path 0 =? DOT) && (at_ path 1 =? SLASH) then drop 2 path else path).
  assert (wf_cstr sep /\ (length sep <= 1)%nat) as [Hsep ?] by (unfold sep; case_match; split; (by repeat constructor) || (simpl; lia)).
  assert (wf_cstr q /\ (length q <= length path)%nat) as [Hq ?].
  { unfold q. case_match; [|done]. split; [by apply Forall_drop|]. rewrite length_drop. lia. }
  split; [by repeat apply Forall_app_2|]. split; [by destruct dir|]. unfold strlen. rewrite !length_app. lia.
Qed.

Lemma path_empty (path : cstr) : wf_cstr path -> (at_ path 0 =? 0) = streq path [].
Proof.
  intros Hp. destruct path as [|c path]; [done|]. apply Forall_cons_1 in Hp as [Hc _]. unfold at_, streq; simpl.
  by destruct (Z.eqb_spec c 0); [lia|].
Qed.

Lemma make_absolute_spec path (s : sys) :
  cwd_ok (sys_cwd s) -> short_path path ->
  exists r s', make_absolute path s = Done r s' /\ lookup_frame s s' /\ errno s' = errno s /\
    (r = Some (absolute (cwd (sys_cwd s)) path) \/ r = None /\ ~ rich (tbl s)) /\ (rich (tbl s) -> rich (tbl s')).
Proof.
  intros [Hw Hr Hsz Hl] [Hp Hsp]. unfold make_absolute, absolute.
  destruct (Z.eqb_spec (at_ path 0) SLASH) as [|Hns]; [eexists _, s; split; [done|]; split; [apply lookup_frame_refl|auto]|].
  rewrite (bind_done (gets sys_cwd) _ s (sys_cwd s) s) by done. rewrite path_empty by done.
  destruct (_ || _ || _); [eexists _, s; split; [done|]; split; [apply lookup_frame_refl|auto]|].
  set (c := sys_cwd s) in *. set (q := if (at_ path 0 =? DOT) && (at_ path 1 =? SLASH) then drop 2 path else path).
  assert (strlen q <= strlen path) as Hq by (unfold q, strlen; case_match; rewrite ?length_drop; lia).
  destruct (Nat.eqb_spec (length (cwd c)) 0) as [Hz|_]; [by destruct (cwd c)|].
  set (need := if at_ (cwd c) (length (cwd c) - 1) =? SLASH then 0 else 1).
  set (result := cwd c ++ (if need =? 0 then [] else [SLASH]) ++ q).
  assert (strlen result = strlen (cwd c) + need + strlen q) as Hres.
  { unfold result, strlen, need. rewrite !length_app. destruct (at_ (cwd c) (length (cwd c) - 1) =? SLASH).
    all: cbn [Z.eqb length]; lia. }
  replace (cwd c ++ (if at_ (cwd c) (length (cwd c) - 1) =? SLASH then [] else [SLASH]) ++ q) with result
    by (unfold result, need; by destruct (at_ (cwd c) (length (cwd c) - 1) =? SLASH)).
  assert (0 <= need <= 1) by (unfold need; case_match; lia).
  rewrite u32_small by (unfold strlen in *; lia). set (n := strlen (cwd c) + strlen q + 1 + need).
  destruct (Z.ltb_spec (make_absolute_len c) n).
  - destruct (alloc_ok_sys s) as (b & v & Ha & Hrich & Hv & Hal). destruct b.
    + set (s2 := set_cwd (set_make_absolute_len n c) (set_tbl (set_env v (tbl s)) s)).
      rewrite (bind_done (alloc_ok ≫= _) _ s true s2) by (by rewrite (bind_done _ _ _ _ _ Ha)). cbn [negb].
      rewrite (bind_done (gets _) _ s2 n s2) by done. unfold strcpy_fits. replace (strlen result <? n) with true by (symmetry; apply Z.ltb_lt; lia).
      eexists _, s2. split; [done|]. split; [split; [exists v; split; [done|]; intros ?; by apply Hal|done]|]. split; [exact Hv|]. split; [by left|]. by intros [_ ?]%Hrich.
    + rewrite (bind_done (alloc_ok ≫= _) _ s false (set_tbl (set_env v (tbl s)) s)) by (by rewrite (bind_done _ _ _ _ _ Ha)).
      eexists None, _. split; [done|]. split; [apply lookup_frame_env; intros ?; by apply Hal|]. split; [exact Hv|].
      split; [right; split; [done|]|]; by intros [? _]%Hrich.
  - rewrite (bind_done (mret true) _ s true s) by done. cbn [negb].
    rewrite (bind_done (gets _) _ s (make_absolute_len c) s) by done. unfold strcpy_fits.
    replace (strlen result <? make_absolute_len c) with true by (symmetry; apply Z.ltb_lt; lia).
    eexists _, s. split; [done|]. split; [apply lookup_frame_refl|]. auto.
Qed.

(** ** Lookup *)

Record lookup_ok (s : sys) : Prop := LookupOk {
  lk_populated : preopens_populated (pre s) = true;
  lk_invariants : invariants (pre s) = true;
  lk_prefixes : wf_preopens (pre s);
  lk_fds : Forall (fun e => 0 <= state_fd e) (preopens (pre s));
  lk_cwd : cwd_ok (sys_cwd s);
}.

Lemma lookup_ok_frame s s' : lookup_frame s s' -> lookup_ok s -> lookup_ok s'.
Proof.
  intros Hf [H1 H2 H3 H4 H5]. pose proof Hf as (_ & Hp & _). split; rewrite ?Hp; try done. by eapply cwd_ok_frame.
Qed.

(** The absolute path [p] is in the directory of the descriptor [fd], and is
    [rel] there; [abs] is the directory's own path. *)
Definition resolves (s : sys) (p : cstr) (fd : Z) (abs rel : cstr) : Prop :=
  exists e, best_match (preopens (pre s)) (skip SLASH p) e /\ fd = state_fd e /\ fd <> -1 /\ abs = prefix e /\
    relative_to (skip SLASH p) abs rel.

Definition unresolved (s : sys) (p : cstr) : Prop := forall e, e ∈ preopens (pre s) -> ~ matches (skip SLASH p) e.

Lemma skip_length c s : (length (skip c s) <= length s)%nat.
Proof. induction s as [|x s IH]; simpl; [lia|]. case_match; simpl; lia. Qed.

Lemma relative_good p abs rel : relative_to p abs rel -> wf_cstr p -> wf_cstr rel /\ (length rel <= Nat.max 1 (length p))%nat /\ rel <> [].
Proof.
  intros [_ [k [[-> Hne]|[-> ->]]]] Hp; [|by repeat constructor; simpl; try lia].
  apply Forall_app in Hp as [_ [_ Hr]%Forall_app]. split; [done|]. rewrite !length_app. split; [lia|done].
Qed.

Lemma resolves_good s p fd abs rel :
  resolves s p fd abs rel -> wf_cstr p -> strlen p < 2 ^ 31 -> good_path rel /\ rel <> [] /\ at_ rel 0 <> SLASH.
Proof.
  intros (e & _ & _ & _ & _ & Hrel) Hp Hl. pose proof (skip_length SLASH p).
  destruct (relative_good _ _ _ Hrel) as (? & ? & ?); [by apply wf_cstr_skip|]. split; [|split; [done|apply Hrel]].
  split; [done|]. unfold strlen in *. lia.
Qed.

(** A path resolves in one way. *)
Lemma best_match_unique es p e e' : best_match es p e -> best_match es p e' -> e = e'.
Proof.
  intros (b & a & -> & Hm & Hb & Ha) (b' & a' & Heq & Hm' & Hb' & Ha').
  assert ((b ++ e :: a) !! length b = Some e) as He by (by rewrite list_lookup_middle).
  assert ((b ++ e :: a) !! length b' = Some e') as He' by (rewrite Heq; by rewrite list_lookup_middle).
  destruct (Nat.lt_trichotomy (length b) (length b')) as [Hlt|[Hlt|Hlt]]; [|congruence|].
  - assert (e' ∈ a) as H1.
    { rewrite lookup_app_r, lookup_cons_ne_0 in He' by lia. by eapply list_elem_of_lookup_2. }
    assert (e ∈ b') as H2 by (rewrite Heq, lookup_app_l in He by lia; by eapply list_elem_of_lookup_2).
    specialize (Ha e' H1 Hm'). specialize (Hb' e H2 Hm). lia.
  - assert (e ∈ a') as H1.
    { rewrite Heq, lookup_app_r, lookup_cons_ne_0 in He by lia. by eapply list_elem_of_lookup_2. }
    assert (e' ∈ b) as H2 by (rewrite lookup_app_l in He' by lia; by eapply list_elem_of_lookup_2).
    specialize (Ha' e H1 Hm). specialize (Hb e' H2 Hm'). lia.
Qed.

Lemma relative_to_value p abs rel :
  relative_to p abs rel -> rel = match skip SLASH (drop (length abs) p) with [] => [DOT] | y => y end.
Proof.
  assert (forall k x, at_ x 0 <> SLASH -> skip SLASH (replicate k SLASH ++ x) = x) as Hskip.
  { intros k x Hx. induction k as [|k IH]; [|exact IH]. destruct x as [|c x]; [done|]. unfold at_ in Hx. cbn in *. by destruct (Z.eqb_spec c SLASH). }
  intros [Hs [k [[-> Hne]|[-> ->]]]]; rewrite drop_app_length; [rewrite Hskip by done; by destruct rel|].
  pose proof (Hskip k []) as Hk. rewrite app_nil_r in Hk. by rewrite Hk.
Qed.

Lemma resolves_unique s p fd abs rel fd' abs' rel' :
  resolves s p fd abs rel -> resolves s p fd' abs' rel' -> fd = fd' /\ abs = abs' /\ rel = rel'.
Proof.
  intros (e & Hb & -> & _ & -> & Hr%relative_to_value) (e' & Hb' & -> & _ & -> & Hr'%relative_to_value).
  pose proof (best_match_unique _ _ _ _ Hb Hb') as <-. by rewrite Hr, Hr'.
Qed.

Lemma resolves_resolved s p fd abs rel : resolves s p fd abs rel -> ~ unresolved s p.
Proof.
  intros (e & (b & a & Heq & Hm & _) & _) Hu. apply (Hu e); [|done]. rewrite Heq. apply elem_of_app. right. left.
Qed.

Section lookup.
Context `{Host}.

Lemma find_abspath_resolves path (s : sys) :
  lookup_ok s -> wf_cstr path ->
  (exists fd abs rel, find_abspath path s = Done (fd, Some (abs, rel)) s /\ resolves s path fd abs rel) \/
  find_abspath path s = Done (-1, None) (with_errno ENOENT s) /\ unresolved s path.
Proof.
  intros [H1 H2 H3 _ _] Hp.
  destruct (find_abspath_spec __wasilibc_populate_preopens s s path) as [(e & rel & Hf & Hb & Hr & Hne)|[Hf Hn]];
    [by apply populate_done|done..| |by right].
  left. exists (state_fd e), (prefix e), rel. split; [done|]. by exists e.
Qed.

Lemma find_relpath_sized_spec path n can (s : sys) :
  lookup_ok s -> short_path path ->
  let p := absolute (cwd (sys_cwd s)) path in
  exists r s', find_relpath_sized path n can s = Done r s' /\ lookup_frame s s' /\
    ((exists fd abs rel n', r = (fd, Some (abs, rel, n')) /\ resolves s p fd abs rel /\ errno s' = errno s) \/
     r = (-1, None) /\ (errno s' = ENOENT /\ unresolved s p \/ errno s' = ENOMEM /\ ~ rich (tbl s) \/
                        can = false /\ errno s' = ERANGE)).
Proof.
  intros Hok Hp p. unfold find_relpath_sized.
  destruct (make_absolute_spec path s (lk_cwd s Hok) Hp) as (a & s1 & Ha & Hf1 & He1 & Hc1 & Hrich1).
  rewrite (bind_done _ _ _ _ _ Ha). destruct Hc1 as [->|[-> Hnr]].
  2: { eexists (-1, None), _. split; [done|]. split; [by apply lookup_frame_errno|right; split; [done|]; right; left; done]. }
  fold p. destruct (absolute_props (cwd (sys_cwd s)) path) as (Hwp & _ & _); [apply (lk_cwd s Hok)|apply (lk_cwd s Hok)|apply Hp|].
  fold p in Hwp. pose proof (lookup_ok_frame _ _ Hf1 Hok) as Hok1.
  assert (preopens (pre s1) = preopens (pre s)) as Hpre by (destruct Hf1 as (_ & -> & _); done).
  destruct (find_abspath_resolves p s1 Hok1 Hwp) as [(fd & abs & rel & Hfd & Hres)|[Hfd Hun]]; rewrite (bind_done _ _ _ _ _ Hfd).
  2: { eexists (-1, None), _. split; [done|]. split; [by apply lookup_frame_errno|right; split; [done|]; left; split; [done|]; unfold unresolved in *; by rewrite <- Hpre]. }
  assert (resolves s p fd abs rel) as Hres' by (unfold resolves in *; by rewrite <- Hpre). cbn [snd fst].
  destruct (Z.ltb_spec n (strlen rel + 1)).
  - destruct can; cbn [negb].
    2: { eexists (-1, None), _. split; [done|]. split; [by apply lookup_frame_errno|right; split; [done|]; by do 2 right]. }
    destruct (alloc_ok_sys s1) as (b & v & Hal & Hr & Hv & Hm). rewrite (bind_done _ _ _ _ _ Hal).
    assert (lookup_frame s (set_tbl (set_env v (tbl s1)) s1)) as Hf2.
    { eapply lookup_frame_trans; [exact Hf1|]. apply lookup_frame_env; intros ?; by apply Hm. }
    destruct b; cbn [negb].
    2: { eexists (-1, None), _. split; [done|]. split; [by apply lookup_frame_errno|right; split; [done|]; right; left; split; [done|]; intros [? _]%Hrich1%Hr; done]. }
    unfold strcpy_fits. replace (strlen rel <? strlen rel + 1) with true by (symmetry; apply Z.ltb_lt; lia).
    eexists _, _. split; [done|]. split; [done|]. left. exists fd, abs, rel. eexists. split; [done|]. split; [done|].
    etrans; [exact Hv|done].
  - unfold strcpy_fits. replace (strlen rel <? n) with true by (symmetry; apply Z.ltb_lt; lia).
    eexists _, s1. split; [done|]. split; [done|]. left. exists fd, abs, rel, n. done.
Qed.
End lookup.

(** The path a function of posix.c looks up. *)
Definition full_path (chdir_linked : bool) (s : sys) (path : cstr) : cstr :=
  if chdir_linked then absolute (cwd (sys_cwd s)) path else path.

Section relpath.
Context `{Host} (chdir_linked : bool).

Lemma find_relpath_alloc_spec b path (s : sys) :
  lookup_ok s -> short_path path ->
  let p := absolute (cwd (sys_cwd s)) path in
  exists r s', __wasilibc_find_relpath_alloc b path s = Done r s' /\ lookup_frame s s' /\
    ((exists fd abs rel, r = (fd, Some (abs, rel)) /\ resolves s p fd abs rel /\ errno s' = errno s) \/
     r = (-1, None) /\ (unresolved s p \/ errno s' = ENOMEM /\ ~ rich (tbl s))).
Proof.
  intros Hok Hp p. unfold __wasilibc_find_relpath_alloc. rewrite (bind_done (gets _) _ s (buf_len b (sys_cwd s)) s) by done.
  destruct (find_relpath_sized_spec path (buf_len b (sys_cwd s)) true s Hok Hp) as (r & s1 & Hs & Hf & Hc).
  rewrite (bind_done _ _ _ _ _ Hs). destruct Hc as [(fd & abs & rel & n' & -> & Hr & He)|[-> Hc]]; cbn [snd fst].
  - eexists _, _. split; [done|]. split.
    { eapply lookup_frame_trans; [exact Hf|]. split; [exists (dt_env (tbl s1)); split; [by destruct s1 as [[] ? ?]|done]|]. by destruct b. }
    left. by exists fd, abs, rel.
  - eexists _, s1. split; [done|]. split; [done|]. right. split; [done|]. destruct Hc as [[_ ?]|[?|[? _]]]; [by left|by right|done].
Qed.

Lemma find_relpath2_spec b path (s : sys) :
  lookup_ok s -> short_path path ->
  let p := full_path chdir_linked s path in
  exists r s', find_relpath2 chdir_linked b path s = Done r s' /\ lookup_frame s s' /\
    ((exists fd abs rel, r = (fd, Some (abs, rel)) /\ resolves s p fd abs rel /\ errno s' = errno s) \/
     r = (-1, None) /\ (unresolved s p \/ ~ rich (tbl s))).
Proof.
  intros Hok Hp p. unfold find_relpath2, __wasilibc_find_relpath, full_path in *. destruct chdir_linked.
  - destruct (find_relpath_alloc_spec b path s Hok Hp) as (r & s1 & Hs & Hf & Hc). exists r, s1. split; [done|]. split; [done|].
    destruct Hc as [?|[? [?|[_ ?]]]]; auto.
  - destruct (find_abspath_resolves path s Hok (proj1 Hp)) as [(fd & abs & rel & Hf & Hr)|[Hf Hu]].
    + eexists _, s. split; [exact Hf|]. split; [apply lookup_frame_refl|]. left. by exists fd, abs, rel.
    + eexists _, _. split; [exact Hf|]. split; [apply lookup_frame_errno, lookup_frame_refl|]. right. auto.
Qed.

Lemma find_relpath_spec path (s : sys) :
  lookup_ok s -> short_path path ->
  let p := full_path chdir_linked s path in
  exists r s', find_relpath chdir_linked path s = Done r s' /\ lookup_frame s s' /\
    ((exists fd abs rel, r = (fd, Some rel) /\ resolves s p fd abs rel /\ errno s' = errno s) \/
     r = (-1, None) /\ (unresolved s p \/ ~ rich (tbl s))).
Proof.
  intros Hok Hp p. unfold find_relpath. destruct (find_relpath2_spec RelpathBuf path s Hok Hp) as (r & s1 & Hs & Hf & Hc).
  rewrite (bind_done _ _ _ _ _ Hs). eexists _, s1. split; [done|]. split; [done|].
  destruct Hc as [(fd & abs & rel & -> & ? & ?)|[-> ?]]; [left; by exists fd, abs, rel|by right].
Qed.

Lemma find_relpath_alt_spec path (s : sys) :
  lookup_ok s -> short_path path ->
  let p := full_path chdir_linked s path in
  exists r s', find_relpath_alt chdir_linked path s = Done r s' /\ lookup_frame s s' /\
    ((exists fd abs rel, r = (fd, Some rel) /\ resolves s p fd abs rel /\ errno s' = errno s) \/
     r = (-1, None) /\ (unresolved s p \/ ~ rich (tbl s))).
Proof.
  intros Hok Hp p. unfold find_relpath_alt. destruct (find_relpath2_spec RelpathAltBuf path s Hok Hp) as (r & s1 & Hs & Hf & Hc).
  rewrite (bind_done _ _ _ _ _ Hs). eexists _, s1. split; [done|]. split; [done|].
  destruct Hc as [(fd & abs & rel & -> & ? & ?)|[-> ?]]; [left; by exists fd, abs, rel|by right].
Qed.

Lemma with_relpath_spec {A} path (bad : A) k (s : sys) :
  lookup_ok s -> short_path path ->
  let p := full_path chdir_linked s path in
  exists s1, lookup_frame s s1 /\
    ((exists fd abs rel, with_relpath chdir_linked path bad k s = lower (k fd rel) s1 /\ resolves s p fd abs rel /\ errno s1 = errno s) \/
     with_relpath chdir_linked path bad k s = Done bad s1 /\ errno s1 = ENOENT /\ (unresolved s p \/ ~ rich (tbl s))).
Proof.
  intros Hok Hp p. unfold with_relpath. destruct (find_relpath_spec path s Hok Hp) as (r & s1 & Hs & Hf & Hc).
  rewrite (bind_done _ _ _ _ _ Hs). destruct Hc as [(fd & abs & rel & -> & ? & ?)|[-> ?]].
  - exists s1. split; [done|]. left. by exists fd, abs, rel.
  - exists (with_errno ENOENT s1). split; [by apply lookup_frame_errno|]. by right.
Qed.
End relpath.

(** C23: Every function of posix.c that takes one path resolves it first: the
    path, made absolute with the current directory when [chdir] is part of the
    program, is matched with the preopens, and the function below is called
    with that directory's descriptor and the relative path, [errno] untouched.
    When no preopen matches (or memory runs out) the function fails with
    [ENOENT] and the host is not called. *)
Theorem with_relpath_correct `{Host} chdir_linked {A} path (bad : A) (k : Z -> cstr -> M world A) (s : sys) :
  lookup_ok s -> short_path path ->
  let p := full_path chdir_linked s path in
  exists s1, lookup_frame s s1 /\
    ((exists fd abs rel, with_relpath chdir_linked path bad k s = lower (k fd rel) s1 /\ resolves s p fd abs rel /\ errno s1 = errno s) \/
     with_relpath chdir_linked path bad k s = Done bad s1 /\ errno s1 = ENOENT /\ (unresolved s p \/ ~ rich (tbl s))).
Proof. apply with_relpath_spec. Qed.

(** ** Safety *)

(** [m] returns from every well-formed state of the process, and leads to one. *)
Definition sys_safe {A} (m : M sys A) : Prop :=
  forall held s, inv held (tbl s) -> lookup_ok s -> len (tbl s) <= 2 ^ 26 -> Z.of_nat (length held) <= 2 ^ 29 ->
    exists a s', m s = Done a s' /\ inv held (tbl s') /\ lookup_ok s'.

Section safety.
Context `{HostLaws} (chdir_linked : bool).

Lemma full_path_good s path :
  lookup_ok s -> short_path path -> wf_cstr (full_path chdir_linked s path) /\ strlen (full_path chdir_linked s path) < 2 ^ 31.
Proof.
  intros [_ _ _ _ [Hw Hr Hs _]] [Hp Hl]. unfold full_path. destruct chdir_linked; [|split; [done|lia]].
  destruct (absolute_props (cwd (sys_cwd s)) path) as (? & _ & ?); [done..|]. split; [done|lia].
Qed.

Lemma lower_safe {A} (m : M world A) : safe (2 ^ 29) m -> sys_safe (lower m).
Proof.
  intros Hm held s Hi Hok Hl Hh. destruct (Hm held (tbl s) Hi Hl Hh) as (a & t & Ht & Hi' & _).
  exists a, (set_tbl t s). split; [by apply lower_done|]. split; [done|]. by destruct Hok.
Qed.

Lemma sys_safe_fail {A} e (a : A) : sys_safe (fail_with e a).
Proof. intros held s Hi Hok _ _. eexists a, _. split; [done|]. split; [done|]. by destruct Hok. Qed.

(** Lookups leave the table, apart from [errno] and the allocator, as it is. *)
Lemma sys_safe_framed {A} (m : M sys A) s s1 held :
  lookup_frame s s1 -> sys_safe m -> inv held (tbl s) -> lookup_ok s -> len (tbl s) <= 2 ^ 26 -> Z.of_nat (length held) <= 2 ^ 29 ->
  exists a s', m s1 = Done a s' /\ inv held (tbl s') /\ lookup_ok s'.
Proof.
  intros Hf Hm Hi Hok Hl Hh. pose proof (lookup_ok_frame _ _ Hf Hok) as Hok1. destruct Hf as ((v & Hv & _) & _).
  apply (Hm held s1); rewrite ?Hv; done.
Qed.

Lemma with_relpath_safe {A} path (bad : A) k :
  short_path path -> (forall fd rel, good_path rel -> safe (2 ^ 29) (k fd rel)) -> sys_safe (with_relpath chdir_linked path bad k).
Proof.
  intros Hp Hk held s Hi Hok Hl Hh. destruct (full_path_good s path Hok Hp) as [Hw Hlen].
  destruct (with_relpath_spec chdir_linked path bad k s Hok Hp) as (s1 & Hf & [(fd & abs & rel & -> & Hr & _)|[-> _]]).
  - apply (sys_safe_framed _ s s1); try done. apply lower_safe, Hk. by eapply resolves_good.
  - eexists _, s1. split; [done|]. split; [|by eapply lookup_ok_frame]. destruct Hf as ((v & -> & _) & _). done.
Qed.

(** Two lookups, then a call. *)
Lemma sys_safe_find {A} (find : cstr -> M sys (Z * option cstr)) path (f : Z * option cstr -> M sys A) :
  short_path path ->
  (forall s, lookup_ok s -> exists r s', find path s = Done r s' /\ lookup_frame s s' /\
     ((exists fd abs rel, r = (fd, Some rel) /\ resolves s (full_path chdir_linked s path) fd abs rel /\ errno s' = errno s) \/
      r = (-1, None) /\ (unresolved s (full_path chdir_linked s path) \/ ~ rich (tbl s)))) ->
  (forall fd rel, good_path rel -> sys_safe (f (fd, Some rel))) -> sys_safe (f (-1, None)) -> sys_safe (find path ≫= f).
Proof.
  intros Hp Hfind Hf Hn held s Hi Hok Hl Hh. destruct (full_path_good s path Hok Hp) as [Hw Hlen].
  destruct (Hfind s Hok) as (r & s1 & Hs & Hfr & Hc). rewrite (bind_done _ _ _ _ _ Hs).
  destruct Hc as [(fd & abs & rel & -> & Hr & _)|[-> _]]; apply (sys_safe_framed _ s s1); try done.
  apply Hf. by eapply resolves_good.
Qed.

Lemma find_relpath_safe {A} path (f : Z * option cstr -> M sys A) :
  short_path path -> (forall fd rel, good_path rel -> sys_safe (f (fd, Some rel))) -> sys_safe (f (-1, None)) ->
  sys_safe (find_relpath chdir_linked path ≫= f).
Proof. intros Hp. apply sys_safe_find; [done|]. intros s Hok. by apply find_relpath_spec. Qed.

Lemma find_relpath_alt_safe {A} path (f : Z * option cstr -> M sys A) :
  short_path path -> (forall fd rel, good_path rel -> sys_safe (f (fd, Some rel))) -> sys_safe (f (-1, None)) ->
  sys_safe (find_relpath_alt chdir_linked path ≫= f).
Proof. intros Hp. apply sys_safe_find; [done|]. intros s Hok. by apply find_relpath_alt_spec. Qed.
End safety.

(** A call of one of the path functions; the results are dropped. *)
Inductive posix_call :=
| POpen (path : cstr) (oflag : Z)
| PAccess (path : cstr) (amode : Z)
| PReadlink (path : cstr) (bufsize : Z)
| PStat (path : cstr)
| PLstat (path : cstr)
| PUtime (path : cstr) (times : option utimbuf)
| PUtimes (path : cstr) (times : option (timeval * timeval))
| PUnlink (path : cstr)
| PRmdir (path : cstr)
| PRemove (path : cstr)
| PMkdir (path : cstr)
| PSymlink (target linkpath : cstr)
| PLink (old new : cstr)
| PRename (old new : cstr)
| POpenat (dirfd : Z) (path : cstr) (flags : Z)
| PSymlinkat (target : cstr) (dirfd : Z) (linkpath : cstr)
| PReadlinkat (dirfd : Z) (path : cstr) (bufsiz : Z)
| PMkdirat (dirfd : Z) (path : cstr)
| PFaccessat (dirfd : Z) (path : cstr) (mode flags : Z)
| PFstatat (dirfd : Z) (path : cstr) (flags : Z)
| PUtimensat (dirfd : Z) (path : cstr) (times : option (timespec * timespec)) (flags : Z)
| PLinkat (olddirfd : Z) (oldpath : cstr) (newdirfd : Z) (newpath : cstr) (flags : Z)
| PRenameat (olddirfd : Z) (oldpath : cstr) (newdirfd : Z) (newpath : cstr)
| PUnlinkat (dirfd : Z) (path : cstr) (flag : Z).

Definition posix_paths (c : posix_call) : list cstr :=
  match c with
  | POpen p _ | PAccess p _ | PReadlink p _ | PStat p | PLstat p | PUtime p _ | PUtimes p _ | PUnlink p | PRmdir p
  | PRemove p | PMkdir p | POpenat _ p _ | PReadlinkat _ p _ | PMkdirat _ p | PFaccessat _ p _ _ | PFstatat _ p _
  | PUtimensat _ p _ _ | PUnlinkat _ p _ => [p]
  | PSymlink p q | PLink p q | PRename p q | PSymlinkat p _ q | PLinkat _ p _ q _ | PRenameat _ p _ q => [p; q]
  end.

Section calls.
Context `{Host} (chdir_linked : bool).

Definition drop_result {A} (m : M sys A) : M sys unit := m ;; mret tt.

Definition posix_perform (c : posix_call) : M sys unit :=
  match c with
  | POpen p o => drop_result (open chdir_linked p o)
  | PAccess p a => drop_result (access chdir_linked p a)
  | PReadlink p n => drop_result (readlink chdir_linked p n)
  | PStat p => drop_result (stat_ chdir_linked p)
  | PLstat p => drop_result (lstat chdir_linked p)
  | PUtime p t => drop_result (utime chdir_linked p t)
  | PUtimes p t => drop_result (utimes chdir_linked p t)
  | PUnlink p => drop_result (unlink chdir_linked p)
  | PRmdir p => drop_result (rmdir chdir_linked p)
  | PRemove p => drop_result (remove chdir_linked p)
  | PMkdir p => drop_result (mkdir chdir_linked p)
  | PSymlink t p => drop_result (symlink chdir_linked t p)
  | PLink p q => drop_result (link chdir_linked p q)
  | PRename p q => drop_result (rename chdir_linked p q)
  | POpenat d p o => drop_result (openat chdir_linked d p o)
  | PSymlinkat t d p => drop_result (symlinkat chdir_linked t d p)
  | PReadlinkat d p n => drop_result (readlinkat chdir_linked d p n)
  | PMkdirat d p => drop_result (mkdirat chdir_linked d p)
  | PFaccessat d p a f => drop_result (faccessat chdir_linked d p a f)
  | PFstatat d p f => drop_result (fstatat chdir_linked d p f)
  | PUtimensat d p t f => drop_result (utimensat chdir_linked d p t f)
  | PLinkat d p e q f => drop_result (linkat chdir_linked d p e q f)
  | PRenameat d p e q => drop_result (renameat chdir_linked d p e q)
  | PUnlinkat d p f => drop_result (unlinkat chdir_linked d p f)
  end.
End calls.

Lemma short_good p : short_path p -> good_path p.
Proof. intros [? ?]. split; [done|lia]. Qed.
Global Hint Resolve short_good : libc.

Section calls_safe.
Context `{HostLaws} (chdir_linked : bool).

Lemma ignore_safe_inv {A} n (m : M world A) : safe n (ignore m) -> safe n m.
Proof.
  intros Hm held s Hi Hl Hh. destruct (Hm held s Hi Hl Hh) as (u & s' & Hs & Hp). unfold ignore, mbind, M_bind in Hs.
  destruct (m s) as [a s1|]; [|done]. injection Hs as _ <-. by exists a, s1.
Qed.

Lemma drop_result_safe {A} (m : M sys A) : sys_safe m -> sys_safe (drop_result m).
Proof.
  intros Hm held s Hi Hok Hl Hh. destruct (Hm held s Hi Hok Hl Hh) as (a & s' & Hs & ?). exists tt, s'.
  split; [|done]. unfold drop_result. by rewrite (bind_done _ _ _ _ _ Hs).
Qed.

Lemma perform_safe' c : Forall good_path (paths c) -> safe (2 ^ 29) (perform c).
Proof. apply perform_safe. lia. Qed.

Lemma unlinkat_steady n fd path : n < 2 ^ 30 - 1 -> good_path path -> safe (g := steady) n (__wasilibc_nocwd___wasilibc_unlinkat fd path).
Proof. intros. unfold __wasilibc_nocwd___wasilibc_unlinkat. nocwd_tac. Qed.

Lemma safe_steady_bind {A B} n (m : M world A) (f : A -> M world B) :
  safe (g := steady) n m -> (forall a, safe n (f a)) -> safe n (m ≫= f).
Proof.
  intros Hm Hf held s Hi Hl Hh. destruct (Hm held s Hi Hl Hh) as (a & s1 & Hs & Hi1 & Hg & St). unfold grown, steady in Hg.
  rewrite (bind_done _ _ _ _ _ Hs). destruct (Hf a held s1 Hi1 ltac:(lia) Hh) as (b & s2 & Hs2 & Hi2 & Hg2 & St2).
  exists b, s2. split; [done|]. split; [done|]. split; [exact Hg2|auto].
Qed.
End calls_safe.

(** Goals about the functions of Nocwd.v, with the paths' hypotheses at hand. *)
Ltac below_tac c :=
  apply ignore_safe_inv; apply (perform_safe' c); simpl; repeat (apply List.Forall_cons; [solve [eauto with libc]|]); apply List.Forall_nil.
Ltac below :=
  match goal with
  | |- safe _ (__wasilibc_nocwd_openat_nomode ?a ?b ?c) => below_tac (Openat a b c)
  | |- safe _ (__wasilibc_nocwd_fstatat ?a ?b ?c) => below_tac (Fstatat a b c)
  | |- safe _ (__wasilibc_nocwd_faccessat ?a ?b ?c ?d) => below_tac (Faccessat a b c d)
  | |- safe _ (__wasilibc_nocwd_utimensat ?a ?b ?c ?d) => below_tac (Utimensat a b c d)
  | |- safe _ (__wasilibc_nocwd_mkdirat_nomode ?a ?b) => below_tac (Mkdirat a b)
  | |- safe _ (__wasilibc_nocwd_linkat ?a ?b ?c ?d ?e) => below_tac (Linkat a b c d e)
  | |- safe _ (__wasilibc_nocwd_readlinkat ?a ?b ?c) => below_tac (Readlinkat a b c)
  | |- safe _ (__wasilibc_nocwd_renameat ?a ?b ?c ?d) => below_tac (Renameat a b c d)
  | |- safe _ (__wasilibc_nocwd_symlinkat ?a ?b ?c) => below_tac (Symlinkat a b c)
  | |- safe _ (__wasilibc_nocwd___wasilibc_rmdirat ?a ?b) => below_tac (Rmdirat a b)
  | |- safe _ (__wasilibc_nocwd___wasilibc_unlinkat ?a ?b) => below_tac (Unlinkat a b)
  end.
Ltac posix_tac :=
  repeat first
    [ apply with_relpath_safe; [done|intros]
    | apply find_relpath_safe; [done|intros; cbn [snd fst]|cbn [snd fst]]
    | apply find_relpath_alt_safe; [done|intros; cbn [snd fst]|cbn [snd fst]]
    | apply sys_safe_fail
    | apply lower_safe
    | below
    | case_match ].

Section all_calls.
Context `{HostLaws} (chdir_linked : bool).

Lemma remove_body_safe fd rel :
  good_path rel ->
  safe (2 ^ 29) (r ← __wasilibc_nocwd___wasilibc_unlinkat fd rel;
    e ← gets errno;
    if negb (r =? 0) && ((e =? EISDIR) || (e =? ENOENT) || (e =? EACCES) || (e =? EPERM)) then
      r ← __wasilibc_nocwd___wasilibc_rmdirat fd rel;
      e ← gets errno;
      (if e =? ENOTDIR then set_errno ENOENT else mret tt) ;;
      mret r
    else mret r).
Proof.
  intros Hrel. apply safe_steady_bind; [apply unlinkat_steady; [lia|done]|]. intros r.
  apply safe_quiet_bind; [eauto with libc|]. intros e. case_match; [|apply safe_quiet, quiet_ret].
  apply safe_steady_bind; [unfold __wasilibc_nocwd___wasilibc_rmdirat; nocwd_tac|]. intros r'. apply safe_quiet.
  apply quiet_bind; [eauto with libc|]. intros e'. apply quiet_bind; [|eauto with libc].
  case_match; [|apply quiet_ret]. intros s. exists tt. by eexists _, (calls s).
Qed.

Lemma remove_safe path : short_path path -> sys_safe (remove chdir_linked path).
Proof. intros Hp. apply with_relpath_safe; [done|]. intros fd rel Hrel. by apply remove_body_safe. Qed.

Lemma posix_perform_safe c : Forall short_path (posix_paths c) -> sys_safe (posix_perform chdir_linked c).
Proof.
  intros Hp. destruct c; simpl in Hp; repeat (apply Forall_cons_1 in Hp as [? Hp]); clear Hp; simpl; apply drop_result_safe.
  10: by apply remove_safe.
  all: unfold open, __wasilibc_open_nomode, access, readlink, stat_, lstat, utime, utimes, unlink, rmdir, mkdir, symlink, link, rename,
    openat, symlinkat, readlinkat, mkdirat, faccessat, __wasilibc_access, fstatat, __wasilibc_stat, utimensat, __wasilibc_utimens,
    linkat, __wasilibc_link, __wasilibc_link_oldat, __wasilibc_link_newat, renameat, __wasilibc_rename_oldat, __wasilibc_rename_newat,
    unlinkat, __wasilibc_unlinkat, __wasilibc_rmdirat, unlink, rmdir, mkdir, open, __wasilibc_open_nomode, symlink, readlink, rename.
  all: posix_tac.
Qed.
End all_calls.

(** C18: Every path function returns, whatever the host answers and the
    allocator refuses, when it is called in a well-formed state of the process
    (preopens populated, current directory absolute), and leads to such a
    state again: no assertion fails, no buffer is overrun, every reference
    taken is given back. *)
Theorem posix_calls_safe `{HostLaws} chdir_linked c held (s : sys) :
  inv held (tbl s) -> lookup_ok s -> len (tbl s) <= 2 ^ 26 -> Z.of_nat (length held) <= 2 ^ 29 ->
  Forall short_path (posix_paths c) ->
  exists s', posix_perform chdir_linked c s = Done tt s' /\ inv held (tbl s') /\ lookup_ok s'.
Proof.
  intros Hi Hok Hl Hh Hp. destruct (posix_perform_safe chdir_linked c Hp held s Hi Hok Hl Hh) as ([] & s' & ? & ? & ?). eauto.
Qed.

(** ** chdir *)

(** The path [chdir] stores for a directory. *)
Definition joined (abs rel : cstr) : cstr :=
  [SLASH] ++ abs ++ (if streq rel [DOT] then [] else (if at_ abs 0 =? 0 then [] else [SLASH]) ++ rel).

Definition stat_result (r : Z * option stat) : Prop := r = (-1, None) \/ exists st, r = (0, Some st).

Lemma yields_fstatat `{Host} fd path flag : path <> [] -> wf_cstr path -> yields (__wasilibc_nocwd_fstatat fd path flag) stat_result.
Proof.
  intros Hne Hp. unfold __wasilibc_nocwd_fstatat. rewrite path_empty by done. unfold streq. rewrite bool_decide_eq_false_2 by done.
  apply yields_with_file_handle; [by left|]. intros h. unfold with_wasi_string. apply yields_after. intros [r [p|]]; simpl; [|apply yields_ret; by left].
  apply yields_after. intros [m|e]; [|apply yields_after; intros; apply yields_ret; by left].
  apply yields_after. intros [st|e]; [|apply yields_after; intros; apply yields_ret; by left].
  apply yields_ret. right. by eexists.
Qed.

(** A path below the root in its simplest form: single slashes, none at the
    end, no final dot. *)
Definition tidy (q : cstr) : Prop :=
  at_ q 0 <> SLASH /\ (forall i, at_ q i = SLASH -> at_ q (S i) <> SLASH /\ at_ q (S i) <> 0) /\
  q <> [DOT] /\ ~ exists l, q = l ++ [SLASH; DOT].

Definition no_trailing_slash (p : cstr) : Prop := p <> [] -> at_ p (length p - 1) <> SLASH.

Lemma at_app_r (a b : cstr) : at_ (a ++ b) (length a) = at_ b 0.
Proof. unfold at_. rewrite lookup_app_r by lia. by rewrite Nat.sub_diag. Qed.

Lemma skip_not_slash q : at_ q 0 <> SLASH -> skip SLASH q = q.
Proof. destruct q as [|c q]; [done|]. unfold at_. simpl. by destruct (Z.eqb_spec c SLASH). Qed.

(** At most one slash in the middle of a tidy path. *)
Lemma tidy_slashes q a k b : tidy q -> q = a ++ replicate k SLASH ++ b -> b <> [] -> (k <= 1)%nat.
Proof.
  intros (_ & Hs & _) -> Hb. destruct k as [|[|k]]; [lia|lia|]. simpl in Hs.
  destruct (Hs (length a)) as [Hn _]; [by rewrite at_app_r|]. destruct Hn.
  replace (a ++ SLASH :: SLASH :: replicate k SLASH ++ b) with ((a ++ [SLASH]) ++ SLASH :: replicate k SLASH ++ b) by (by rewrite <- app_assoc).
  replace (S (length a)) with (length (a ++ [SLASH])) by (rewrite length_app; simpl; lia). by rewrite at_app_r.
Qed.

Lemma tidy_end q a k : tidy q -> q = a ++ replicate k SLASH -> k = 0%nat.
Proof.
  intros (_ & Hs & _) ->. destruct k as [|k]; [done|]. exfalso.
  destruct (Hs (length (a ++ replicate k SLASH))) as [_ Hn].
  - rewrite replicate_S_end, app_assoc, at_app_r. done.
  - apply Hn. unfold at_. rewrite lookup_ge_None_2; [done|]. rewrite replicate_S_end, app_assoc, !length_app. simpl. lia.
Qed.

(** A prefix that is followed by neither the end nor a slash is empty. *)
Lemma component_prefix_empty p rest :
  component_prefix p (p ++ rest) -> no_trailing_slash p -> rest <> [] -> at_ rest 0 <> SLASH -> p = [].
Proof.
  intros (rest' & Heq%app_inv_head & Hc) Hns Hne Hs. subst rest'. destruct Hc as [|[|[|Hc]]]; [done..|].
  destruct p; [done|]. by destruct Hns.
Qed.

Lemma joined_tidy q abs rel :
  wf_cstr q -> wf_cstr abs -> tidy q -> component_prefix abs q -> no_trailing_slash abs -> relative_to q abs rel ->
  joined abs rel = SLASH :: q.
Proof.
  intros Hq Hp Ht Hm Hns [Hr0 [k Hk]]. unfold joined, streq.
  destruct Hk as [[Heq Hne]|[Heq ->]].
  2: { rewrite (tidy_end q _ _ Ht Heq) in Heq. simpl in Heq. rewrite app_nil_r in Heq. rewrite bool_decide_eq_true_2 by done.
       by rewrite app_nil_r, Heq. }
  pose proof (tidy_slashes q _ _ _ Ht Heq Hne) as Hk1. destruct Ht as (Ht0 & _ & Hd & Hld).
  destruct k as [|[|k]]; [| |lia]; simpl in Heq; rewrite Heq in Hm.
  - pose proof (component_prefix_empty _ _ Hm Hns Hne Hr0) as ->. simpl in *. subst q.
    by rewrite bool_decide_eq_false_2.
  - rewrite bool_decide_eq_false_2 by (intros ->; apply Hld; by exists abs).
    destruct abs as [|c abs]; [by subst q|]. apply Forall_cons_1 in Hp as [Hc _]. unfold at_. simpl.
    destruct (Z.eqb_spec c 0); [lia|]. by rewrite Heq.
Qed.

Section chdir.
Context `{HostLaws}.

(** The path [rel] names a directory below the descriptor [fd]: [fd] is an open
    directory, and the host, asked in this state, finds [rel] below it and says
    it is one. *)
Definition is_directory (t : world) (fd : Z) (rel : cstr) : Prop :=
  utf8 rel /\ exists h m st, (file_at t fd ≫= get_file) = Some h /\
    let hash := descriptor_metadata_hash_at h (fstatat_hash_flags 0) rel in
    host _ (calls t) hash = inl m /\
    host _ (calls t ++ [Ev hash]) (descriptor_stat_at h PATH_FLAGS_SYMLINK_FOLLOW rel) = inl st /\ d_type st = DIRECTORY.

Definition says_directory (r : Z * option stat) : Prop := exists st, r = (0, Some st) /\ S_ISDIR (st_mode st) = true.

Lemma mode_directory t : S_ISDIR (mode_p2 t) = true <-> t = DIRECTORY.
Proof. by destruct t. Qed.

(** What [fstatat] does below an open directory: it asks the host for the hash
    and for the attributes. *)
Definition stat_below (h : Z) (rel : cstr) : M world (Z * option stat) :=
  m ← ask (descriptor_metadata_hash_at h (fstatat_hash_flags 0) rel);
  match m with
  | inr e => translate_error_p2 e ;; mret (-1, None)
  | inl metadata =>
      st ← ask (descriptor_stat_at h PATH_FLAGS_SYMLINK_FOLLOW rel);
      match st with
      | inr e => translate_error_p2 e ;; mret (-1, None)
      | inl internal_stat => mret (0, Some (to_public_stat_p2 metadata internal_stat))
      end
  end.

Lemma fstatat_stat_below fd rel :
  wf_cstr rel -> rel <> [] ->
  __wasilibc_nocwd_fstatat fd rel 0 = with_file_handle fd (-1, None) (fun h => with_wasi_string rel (-1, None) (stat_below h)).
Proof.
  intros Hw Hne. unfold __wasilibc_nocwd_fstatat. rewrite path_empty by done. unfold streq. by rewrite bool_decide_eq_false_2.
Qed.

(** The state after asking the host: the table and the memory are the same. *)
Definition asked_frame (t t' : world) : Prop :=
  exists v c, t' = set_calls c (set_env v t) /\ env_allocs v = env_allocs (dt_env t).

Lemma stat_below_spec h rel (t : world) :
  exists r t', stat_below h rel t = Done r t' /\ asked_frame t t' /\
    (says_directory r <-> exists m st,
      let hash := descriptor_metadata_hash_at h (fstatat_hash_flags 0) rel in
      host _ (calls t) hash = inl m /\
      host _ (calls t ++ [Ev hash]) (descriptor_stat_at h PATH_FLAGS_SYMLINK_FOLLOW rel) = inl st /\ d_type st = DIRECTORY).
Proof.
  unfold stat_below. set (hash := descriptor_metadata_hash_at h (fstatat_hash_flags 0) rel).
  set (stat_at := descriptor_stat_at h PATH_FLAGS_SYMLINK_FOLLOW rel).
  rewrite (bind_done _ _ _ _ _ (ask_answer hash t _ eq_refl)). destruct (host _ (calls t) hash) as [m|e] eqn:Hm.
  - set (t1 := set_calls _ t). rewrite (bind_done _ _ _ _ _ (ask_answer stat_at t1 _ eq_refl)). subst t1. cbn [calls set_calls].
    destruct (host _ (calls t ++ [Ev hash]) stat_at) as [st|e] eqn:Hst.
    + eexists _, _. split; [done|]. split; [by eexists (dt_env t), _; split; [by destruct t|]|]. split.
      * intros (? & [= <-] & Hd%mode_directory). by exists m, st.
      * intros (m' & st' & _ & [= <-] & Hd). eexists. split; [done|]. by apply mode_directory.
    + destruct (translate_done e) as (n & Hn); [apply (host_error_code _ (calls t ++ [Ev hash]) stat_at); by rewrite Hst|].
      rewrite (bind_done _ _ _ _ _ (Hn _ _ _)). eexists _, _. split; [done|].
      split; [by eexists (with_errno n (dt_env t)), _|]. split; [by intros (? & ? & _)|by intros (? & ? & _ & ? & _)].
  - destruct (translate_done e) as (n & Hn); [apply (host_error_code _ (calls t) hash); by rewrite Hm|].
    rewrite (bind_done _ _ _ _ _ (Hn _ _ _)). eexists _, _. split; [done|].
    split; [by eexists (with_errno n (dt_env t)), _|]. split; [by intros (? & ? & _)|by intros (? & ? & ? & _)].
Qed.

Lemma string_stat_spec h rel (t : world) :
  good_path rel ->
  exists r t', with_wasi_string rel (-1, None) (stat_below h) t = Done r t' /\ asked_frame t t' /\
    (says_directory r <-> utf8 rel /\ exists m st,
      let hash := descriptor_metadata_hash_at h (fstatat_hash_flags 0) rel in
      host _ (calls t) hash = inl m /\
      host _ (calls t ++ [Ev hash]) (descriptor_stat_at h PATH_FLAGS_SYMLINK_FOLLOW rel) = inl st /\ d_type st = DIRECTORY).
Proof.
  intros [Hw Hlen]. unfold with_wasi_string.
  destruct (wasi_string_from_c_cases rel t Hw Hlen) as [[Hu Hs]|[Hu Hs]]; rewrite (bind_done _ _ _ _ _ Hs); cbn [snd].
  - destruct (stat_below_spec h rel t) as (r & t' & ? & ? & Hd). exists r, t'. split_and!; try done; tauto.
  - eexists _, _. split; [done|]. split; [by exists (with_errno EILSEQ (dt_env t)), (calls t); split; [destruct t|]|].
    split; [by intros (? & ? & _)|by intros [? _]].
Qed.

(** [fstatat] says that the path is a directory exactly when it is one. *)
Lemma fstatat_answer fd rel held (t : world) :
  wf held t -> len t <= 2 ^ 26 -> Z.of_nat (length held) <= 2 ^ 29 -> stdio_initialized t = true ->
  good_path rel -> rel <> [] ->
  exists r t', __wasilibc_nocwd_fstatat fd rel 0 t = Done r t' /\ (says_directory r <-> is_directory t fd rel) /\
    (env_allocs (dt_env t) = [] -> env_allocs (dt_env t') = []).
Proof.
  intros W Hl Hh Hst Hg Hne. rewrite (fstatat_stat_below fd rel (proj1 Hg) Hne).
  unfold with_file_handle, is_directory, file_at.
  pose proof (get_spec held t fd W ltac:(split; lia) Hst) as Hget. destruct (open_fds t !! fd) as [e|] eqn:Hfd.
  2: { rewrite (bind_done _ _ _ _ _ Hget). eexists _, _. split; [done|].
       split; [|done]. split; [by intros (? & ? & _)|by intros (_ & ? & ? & ? & ? & _)]. }
  destruct Hget as (t1 & Hget & W1 & St1 & E1 & O1 & B1 & L1 & C1 & V1). rewrite (bind_done _ _ _ _ _ Hget). cbn [snd].
  destruct (open_heap _ t1 fd e W1) as [o Ho]; [by rewrite O1|].
  rewrite (bind_done _ _ _ _ _ (load_spec t1 e o Ho)).
  assert (bodies t !! e = Some (body o)) as Hb by (rewrite <- B1; unfold bodies; by rewrite lookup_fmap, Ho).
  cbn [mbind option_bind]. rewrite Hb.
  destruct (get_file (body o)) as [h|] eqn:Hgf.
  - destruct (string_stat_spec h rel t1 Hg) as (r & t2 & Hs & (v & c & -> & Hv) & Hd). rewrite (bind_done _ _ _ _ _ Hs).
    destruct (dec_shared held (set_calls c (set_env v t1)) fd e) as (t3 & Hdec & _ & _ & _ & _ & _ & _ & _ & V3);
      [done|simpl; lia|lia|by rewrite <- O1 in Hfd|].
    rewrite (bind_done _ _ _ _ _ Hdec). exists r, t3. split; [done|]. rewrite C1 in Hd. split; [|rewrite V3; simpl; by rewrite Hv, V1].
    rewrite Hd. split; [intros (? & m & st & ?); split; [done|]; by exists h, m, st|].
    intros (? & h' & m & st & Hh' & ?). cbn in Hh'. rewrite Hgf in Hh'. injection Hh' as <-. split; [done|]. by exists m, st.
  - destruct (dec_shared held t1 fd e W1) as (t3 & Hdec & _ & _ & _ & _ & _ & _ & _ & V3); [lia|lia|by rewrite O1|].
    rewrite (bind_done _ _ _ _ _ Hdec). eexists _, _. split; [done|]. split; [|simpl; by rewrite V3, V1].
    split; [by intros (? & ? & _)|intros (_ & ? & ? & ? & Hh' & _); cbn in Hh'; congruence].
Qed.

(** [fstatat] for a path that a lookup gave. *)
Lemma fstatat_resolved cl s0 p fd abs rel (s : sys) held :
  resolves s0 p fd abs rel -> lookup_ok s0 -> wf_cstr p -> strlen p < 2 ^ 31 ->
  inv held (tbl s) -> len (tbl s) <= 2 ^ 26 -> Z.of_nat (length held) <= 2 ^ 29 -> stdio_initialized (tbl s) = true ->
  exists r t, fstatat cl fd rel 0 s = Done r (set_tbl t s) /\ inv held t /\ stat_result r /\
    (says_directory r <-> is_directory (tbl s) fd rel) /\ (env_allocs (dt_env (tbl s)) = [] -> env_allocs (dt_env t) = []).
Proof.
  intros Hr Hok Hp Hlen Hi Hl Hh Hst. pose proof (resolves_good _ _ _ _ _ Hr Hp Hlen) as (Hg & Hne & Hs).
  assert (0 <= fd) as Hfd.
  { destruct Hr as (e & (l1 & l2 & Heq & _) & -> & _). pose proof (lk_fds _ Hok) as Hf. rewrite Heq in Hf.
    by apply Forall_app in Hf as [_ [? _]%Forall_cons_1]. }
  assert (safe (2 ^ 29) (__wasilibc_nocwd_fstatat fd rel 0)) as Hsafe by below.
  destruct (Hsafe held (tbl s) Hi Hl Hh) as (r & t & Ht & Hi' & _). exists r, t.
  destruct (fstatat_answer fd rel held (tbl s)) as (r' & t' & Ht' & Hd & Ha); [apply Hi|done..|].
  rewrite Ht in Ht'. injection Ht' as <- <-.
  split; [|split; [done|split; [by eapply yields_fstatat; [|apply Hg|]|done]]].
  unfold fstatat, by_path. destruct (Z.eqb_spec fd AT_FDCWD) as [->|]; [by destruct Hfd|].
  destruct (Z.eqb_spec (at_ rel 0) SLASH); [done|]. by apply lower_done.
Qed.

(** The path [p] leads to a directory. *)
Definition finds_directory (s : sys) (p : cstr) : Prop :=
  exists fd abs rel, resolves s p fd abs rel /\ is_directory (tbl s) fd rel.

Lemma finds_directory_resolved s p fd abs rel :
  resolves s p fd abs rel -> finds_directory s p -> is_directory (tbl s) fd rel.
Proof. intros Hr (fd' & abs' & rel' & Hr' & Hd). by destruct (resolves_unique _ _ _ _ _ _ _ _ Hr Hr') as (-> & -> & ->). Qed.

Lemma is_directory_env t v fd rel : is_directory (set_env v t) fd rel <-> is_directory t fd rel.
Proof. done. Qed.

Lemma chdir_spec path held (s : sys) :
  lookup_ok s -> short_path path -> inv held (tbl s) -> len (tbl s) <= 2 ^ 26 -> Z.of_nat (length held) <= 2 ^ 29 ->
  stdio_initialized (tbl s) = true ->
  let p := absolute (cwd (sys_cwd s)) path in
  exists r s', chdir true path s = Done r s' /\ inv held (tbl s') /\ pre s' = pre s /\
    (r = 0 /\ (exists fd abs rel, resolves s p fd abs rel /\ is_directory (tbl s) fd rel /\ cwd (sys_cwd s') = joined abs rel)
     \/ r = -1 /\ cwd (sys_cwd s') = cwd (sys_cwd s) /\ (~ finds_directory s p \/ errno s' = ENOMEM /\ ~ rich (tbl s))).
Proof.
  intros Hok Hp Hi Hl Hh Hst p. unfold chdir.
  destruct (absolute_props (cwd (sys_cwd s)) path) as (Hwp & _ & Hlp); [apply Hok..|apply Hp|]. fold p in Hwp, Hlp.
  assert (strlen p < 2 ^ 31) as Hlp' by (destruct Hok as [_ _ _ _ [_ _ ? _]], Hp; lia).
  destruct (find_relpath_alloc_spec ChdirBuf path s Hok Hp) as (r & s1 & Hs & Hf & Hc). fold p in Hc.
  pose proof (lookup_ok_frame _ _ Hf Hok) as Hok1. pose proof Hf as ((v & Hv & Hav) & Hpre & Hcwd & _).
  rewrite (bind_done _ _ _ _ _ Hs). destruct Hc as [(fd & abs & rel & -> & Hr & _)|[-> Hc]]; cbn [snd fst].
  2: { eexists (-1), s1. split; [done|]. split; [by rewrite Hv|]. split; [done|]. right. split; [done|]. split; [done|].
       destruct Hc as [Hu|?]; [left|by right]. intros (? & ? & ? & Hr & _). by eapply resolves_resolved. }
  destruct (fstatat_resolved true s p fd abs rel s1 held Hr Hok Hwp Hlp') as (q & t & Hst1 & Hit & Hq & Hd & Ha); [by rewrite Hv..|done|by rewrite Hv|].
  rewrite Hv in Hd. rewrite is_directory_env in Hd.
  assert (~ says_directory q -> ~ finds_directory s p) as Hno by (intros Hn Hf'; by apply Hn, Hd; eapply finds_directory_resolved).
  rewrite (bind_done _ _ _ _ _ Hst1). destruct Hq as [-> |[st ->]]; cbn [fst snd].
  { rewrite Z.eqb_refl. eexists (-1), _. split; [done|]. split; [done|]. split; [done|]. right. split; [done|]. split; [done|].
    left. apply Hno. by intros (? & ? & _). }
  cbn [Z.eqb Z.compare]. rewrite (bind_done (deref _) _ _ st (set_tbl t s1)) by done.
  destruct (S_ISDIR (st_mode st)) eqn:Hdir; cbn [negb].
  2: { eexists (-1), _. split; [done|]. split; [done|]. split; [done|]. right. split; [done|]. split; [done|].
       left. apply Hno. intros (? & [= <-] & ?). congruence. }
  destruct (alloc_ok_sys (set_tbl t s1)) as (b & v' & Hal & _ & _ & Hb). rewrite (bind_done _ _ _ _ _ Hal).
  destruct b; cbn [negb].
  2: { eexists (-1), _. split; [done|]. split; [exact Hit|]. split; [done|]. right. split; [done|]. split; [done|].
       right. split; [done|]. intros [Hrich _]. rewrite Hv in Ha. by destruct (Hb (Ha (Hav Hrich))). }
  rewrite (bind_done (gets sys_cwd) _ _ (sys_cwd s1) (set_tbl (set_env v' t) s1)) by done.
  destruct (lk_cwd _ Hok1) as [_ _ _ Hlit]. rewrite Hlit. replace (negb (cwd_literal (sys_cwd s1)) && cwd_literal (sys_cwd s1)) with false
    by (by destruct (cwd_literal (sys_cwd s1))).
  eexists 0, _. split; [done|]. split; [exact Hit|]. split; [done|]. left. split; [done|].
  exists fd, abs, rel. split; [done|]. split; [apply Hd; by exists st|]. unfold joined. simpl.
  by destruct (streq rel [DOT]), (at_ abs 0 =? 0).
Qed.
End chdir.


(** ** Concrete runs *)

(** A host with the preopens [/], [/tmp] and [/tmp/b], where every path is a
    directory. *)
Definition tree_host : Host := fun R h c =>
  match c in hostcall R return R -> R with
  | filesystem_preopens_get_directories => fun _ => [(3, lit "/"); (4, lit "/tmp"); (5, lit "/tmp/b")]
  | descriptor_stat_at _ _ _ => fun _ => inl (DescriptorStat DIRECTORY 1 0 None None None)
  | _ => fun r => r
  end (demo_host R h c).

Lemma tree_host_laws : @HostLaws tree_host.
Proof.
  pose proof demo_host_laws as [H1 H2 H3 H4]. split.
  - intros R h c e. by destruct c.
  - intros h d f p o fl x. apply (H2 h).
  - intros h l. unfold host, tree_host. intros <-. by repeat constructor.
  - intros h st n bytes. apply (H4 h).
Qed.

Definition tree_sys : sys :=
  Eval vm_compute in
  match __wasilibc_populate_preopens (H := tree_host) (start (Env 0 [])) with Done _ s => s | Stop _ s => s end.

Lemma tree_sys_inv : inv [] (tbl tree_sys).
Proof.
  destruct (populate_loop_spec (H := tree_host) (H0 := tree_host_laws) [(3, lit "/"); (4, lit "/tmp"); (5, lit "/tmp/b")] 0
    (set_tbl (set_calls [Ev filesystem_preopens_get_directories] (tbl (start (Env 0 [])))) (start (Env 0 []))))
    as [(s' & Hs & [[Hi _] _] & _)|[Hn _]]; [by apply start_booting|vm_compute; discriminate|by repeat constructor|..].
  - vm_compute in Hs. injection Hs as <-. exact Hi.
  - by destruct Hn.
Qed.

Lemma tree_sys_ok : lookup_ok tree_sys.
Proof. split; [done|done|by repeat constructor|repeat constructor; simpl; lia|]. split; [by repeat constructor|done|vm_compute; reflexivity|done]. Qed.

Lemma with_relpath_correct_witness :
  exists s1, lookup_frame tree_sys s1 /\
    ((exists fd abs rel, with_relpath (H := tree_host) true (lit "tmp/x") (-1) (fun dirfd rel => __wasilibc_nocwd_openat_nomode (H := tree_host) dirfd rel O_RDWR) tree_sys =
        lower (__wasilibc_nocwd_openat_nomode (H := tree_host) fd rel O_RDWR) s1 /\ resolves tree_sys (lit "/tmp/x") fd abs rel /\ errno s1 = errno tree_sys) \/
     with_relpath (H := tree_host) true (lit "tmp/x") (-1) (fun dirfd rel => __wasilibc_nocwd_openat_nomode (H := tree_host) dirfd rel O_RDWR) tree_sys = Done (-1) s1 /\
       errno s1 = ENOENT /\ (unresolved tree_sys (lit "/tmp/x") \/ ~ rich (tbl tree_sys))).
Proof.
  apply (with_relpath_correct (H := tree_host) true (lit "tmp/x") (-1)
    (fun dirfd rel => __wasilibc_nocwd_openat_nomode (H := tree_host) dirfd rel O_RDWR) tree_sys tree_sys_ok).
  split; [by repeat constructor|vm_compute; reflexivity].
Defined.

Lemma posix_calls_safe_witness :
  exists s', posix_perform (H := tree_host) true (PRename (lit "/tmp/a") (lit "b/../c")) tree_sys = Done tt s' /\
    inv [] (tbl s') /\ lookup_ok s'.
Proof.
  apply (posix_calls_safe (H := tree_host) (H0 := tree_host_laws)); [apply tree_sys_inv|apply tree_sys_ok|vm_compute; discriminate|simpl; lia|].
  repeat constructor; vm_compute; reflexivity.
Defined.


(** Repeated slashes change which directory a path names: [/tmp//b] is
    matched with the preopen [/tmp] and [/tmp/b] with the preopen [/tmp/b].
    [chdir("/tmp//b")] checks the directory [b] of the first, but the current
    directory it stores, [/tmp/b], then resolves to the second. *)
Theorem chdir_double_slash :
  exists s1 s2, chdir (H := tree_host) true (lit "/tmp//b") tree_sys = Done 0 s1 /\
    calls (tbl s1) = calls (tbl tree_sys) ++
      [Ev (descriptor_metadata_hash_at 4 0 (lit "b")); Ev (descriptor_stat_at 4 PATH_FLAGS_SYMLINK_FOLLOW (lit "b"))] /\
    cwd (sys_cwd s1) = lit "/tmp/b" /\
    find_relpath (H := tree_host) true (lit "x") s1 = Done (5, Some (lit "x")) s2.
Proof. eexists _, _. split; [vm_compute; reflexivity|]. split_and!; vm_compute; reflexivity. Qed.
