(* ===== verification/Wasip3.v ===== *)
(** * The host of wasip3

    The component-model built-ins that the stream code of wasip3 calls
    (headers/public/wasi/__generated_wasip3.h, implemented by the host outside
    the repository): reads and writes of a [stream<u8>], waitable sets, and the
    timer of wasi:clocks. The host is a parameter, a function from the calls
    made so far, with their answers, and the present call to its answer.

    A read writes into a buffer of the caller when it completes, which may be
    later, when its event is delivered: the answer of a read, of its
    cancellation, and its event therefore carry the bytes that have landed. *)

From S2P Require Import Prelude.

(** [wasip3_event_code_t] *)
Definition EVENT_NONE : Z := 0.
Definition EVENT_SUBTASK : Z := 1.
Definition EVENT_STREAM_READ : Z := 2.
Definition EVENT_STREAM_WRITE : Z := 3.

(** [wasip3_waitable_state_t] *)
Definition WAITABLE_COMPLETED : Z := 0.
Definition WAITABLE_DROPPED : Z := 1.
Definition WAITABLE_CANCELLED : Z := 2.

Definition WAITABLE_STATE (status : Z) : Z := Z.land status 15.
Definition WAITABLE_COUNT (status : Z) : Z := Z.shiftr status 4.
Definition WAITABLE_STATUS_BLOCKED : Z := u32 (-1).

Definition SUBTASK_STATE (status : Z) : Z := Z.land status 15.
Definition SUBTASK_HANDLE (status : Z) : Z := Z.shiftr status 4.
Definition SUBTASK_RETURNED : Z := 2.

(** [wasip3_event_t], with the bytes of a completed read. *)
Record event_t := Event { event : Z; waitable : Z; code : Z; landed : list Z }.

Inductive call3 :=
| stream_u8_read (stream len : Z)
| stream_u8_write (stream : Z) (data : list Z)
| stream_u8_cancel_read (stream : Z)
| stream_u8_cancel_write (stream : Z)
| stream_u8_drop_readable (stream : Z)
| stream_u8_drop_writable (stream : Z)
| monotonic_clock_wait_for (d : Z)
| subtask_cancel (h : Z)
| subtask_drop (h : Z)
| waitable_set_new
| waitable_join (w set : Z)
| waitable_set_wait (set : Z)
| waitable_set_poll (set : Z)
| waitable_set_drop (set : Z).

Definition answer (c : call3) : Type :=
  match c with
  | stream_u8_read _ _ | stream_u8_cancel_read _ => Z * list Z
  | stream_u8_write _ _ | stream_u8_cancel_write _ => Z
  | monotonic_clock_wait_for _ | subtask_cancel _ | waitable_set_new => Z
  | waitable_set_wait _ | waitable_set_poll _ => event_t
  | _ => unit
  end.

(** A call that was made and its answer. *)
Inductive entry3 := Ev3 (c : call3) (a : answer c).
Abbreviation log3 := (list entry3).

Class Host3 := host3 : log3 -> forall c, answer c.

(** ** What a log says of a handle

    The operation in flight on a stream, whether the other end has been
    dropped, whether this end has been dropped, the bytes sent and received
    so far; for a timer, whether it runs or has ended. *)

Inductive op3 := OpWrite (data : list Z) | OpRead (len : Z).
Inductive timer3 := NoTimer | Running | Ended.

Record track := Track {
  inflight : option op3;
  closed : bool;
  dropped : bool;
  sent : list Z;
  got : list Z;
  timer : timer3;
}.

Definition no_track : track := Track None false false [] [] NoTimer.

(** The operation in flight ends with [status], its bytes in [bytes]. *)
Definition finish (status : Z) (bytes : list Z) (t : track) : track :=
  Track None (closed t || (WAITABLE_STATE status =? WAITABLE_DROPPED)) (dropped t)
    (match inflight t with
     | Some (OpWrite data) => sent t ++ take (Z.to_nat (WAITABLE_COUNT status)) data
     | _ => sent t
     end)
    (match inflight t with Some (OpRead _) => got t ++ bytes | _ => got t end)
    (timer t).

Definition start (op : op3) (t : track) : track := Track (Some op) (closed t) (dropped t) (sent t) (got t) (timer t).
Definition drop_end (t : track) : track := Track (inflight t) (closed t) true (sent t) (got t) (timer t).
Definition set_timer (v : timer3) (t : track) : track := Track (inflight t) (closed t) (dropped t) (sent t) (got t) v.

Definition begin (op : op3) (status : Z) (bytes : list Z) (t : track) : track :=
  if status =? WAITABLE_STATUS_BLOCKED then start op t else finish status bytes (start op t).

Definition arrive (h : Z) (e : event_t) (t : track) : track :=
  if waitable e =? h then
    if (event e =? EVENT_STREAM_READ) || (event e =? EVENT_STREAM_WRITE) then finish (code e) (landed e) t
    else if event e =? EVENT_SUBTASK then set_timer Ended t
    else t
  else t.

Definition advance (h : Z) (t : track) (e : entry3) : track :=
  let 'Ev3 c a := e in
  match c return answer c -> track with
  | stream_u8_read s len => fun a => if s =? h then begin (OpRead len) a.1 a.2 t else t
  | stream_u8_write s data => fun a => if s =? h then begin (OpWrite data) a [] t else t
  | stream_u8_cancel_read s => fun a => if s =? h then finish a.1 a.2 t else t
  | stream_u8_cancel_write s => fun a => if s =? h then finish a [] t else t
  | stream_u8_drop_readable s | stream_u8_drop_writable s => fun _ => if s =? h then drop_end t else t
  | monotonic_clock_wait_for _ => fun a =>
      if negb (SUBTASK_STATE a =? SUBTASK_RETURNED) && (SUBTASK_HANDLE a =? h) then set_timer Running t else t
  | subtask_cancel s => fun _ => if s =? h then set_timer Ended t else t
  | subtask_drop s => fun _ => if s =? h then set_timer NoTimer t else t
  | waitable_set_wait _ | waitable_set_poll _ => fun a => arrive h a t
  | _ => fun _ => t
  end a.

Definition track_of (l : log3) (h : Z) : track := fold_left (advance h) l no_track.

(** The members of a waitable set. *)
Definition enrol (set : Z) (m : list Z) (e : entry3) : list Z :=
  let 'Ev3 c _ := e in
  match c with
  | waitable_join w s => filter (fun x => x <> w) m ++ (if s =? set then [w] else [])
  | _ => m
  end.

Definition members (l : log3) (set : Z) : list Z := fold_left (enrol set) l [].

(** ** The rules of the component model

    [allowed l c]: the call [c] does not trap after [l]. One operation is in
    flight on a stream at a time, none is started after the other end has been
    dropped or on an end that has been dropped, and a length is below 2^28; an
    end is not dropped with an operation in flight; a set that is waited on has
    a member with something to wait for, a set that is dropped has none; a timer is dropped when it has
    ended. *)

Definition idle (t : track) : Prop := inflight t = None /\ dropped t = false.

Definition allowed (l : log3) (c : call3) : Prop :=
  match c with
  | stream_u8_read s len => idle (track_of l s) /\ closed (track_of l s) = false /\ 0 <= len < 2 ^ 28
  | stream_u8_write s data => idle (track_of l s) /\ closed (track_of l s) = false /\ Z.of_nat (length data) < 2 ^ 28
  | stream_u8_cancel_read s => exists len, inflight (track_of l s) = Some (OpRead len)
  | stream_u8_cancel_write s => exists data, inflight (track_of l s) = Some (OpWrite data)
  | stream_u8_drop_readable s | stream_u8_drop_writable s => idle (track_of l s)
  | subtask_cancel h => timer (track_of l h) = Running
  | subtask_drop h => timer (track_of l h) = Ended
  | waitable_set_wait set => exists w, w ∈ members l set /\ (is_Some (inflight (track_of l w)) \/ timer (track_of l w) = Running)
  | waitable_set_drop set => members l set = []
  | _ => True
  end.

Definition op_len (op : op3) : Z := match op with OpWrite data => Z.of_nat (length data) | OpRead len => len end.

(** [status] is how [op] ended, with [bytes] read: a count within the length,
    not zero when an operation that is not empty was completed. *)
Definition ended (op : op3) (status : Z) (bytes : list Z) : Prop :=
  0 <= WAITABLE_COUNT status <= op_len op /\
  (WAITABLE_STATE status = WAITABLE_COMPLETED /\ (0 < op_len op -> 0 < WAITABLE_COUNT status) \/
   WAITABLE_STATE status = WAITABLE_DROPPED) /\
  match op with OpRead _ => Z.of_nat (length bytes) = WAITABLE_COUNT status | OpWrite _ => bytes = [] end.

(** The same for the answer of a cancellation. *)
Definition cancelled (op : op3) (status : Z) (bytes : list Z) : Prop :=
  ended op status bytes \/
  0 <= WAITABLE_COUNT status <= op_len op /\ WAITABLE_STATE status = WAITABLE_CANCELLED /\
  match op with OpRead _ => Z.of_nat (length bytes) = WAITABLE_COUNT status | OpWrite _ => bytes = [] end.

Definition op_event (op : op3) : Z := match op with OpWrite _ => EVENT_STREAM_WRITE | OpRead _ => EVENT_STREAM_READ end.

(** [e] tells that the operation in flight on a member of [set] has ended, or
    a timer in it. *)
Definition delivered (l : log3) (set : Z) (e : event_t) : Prop :=
  waitable e ∈ members l set /\
  ((exists op, inflight (track_of l (waitable e)) = Some op /\ event e = op_event op /\ ended op (code e) (landed e)) \/
   (timer (track_of l (waitable e)) = Running /\ event e = EVENT_SUBTASK)).

(** What the host answers to an allowed call. *)
Definition answer_ok (l : log3) (c : call3) : answer c -> Prop :=
  match c return answer c -> Prop with
  | stream_u8_read s len => fun a => a = (WAITABLE_STATUS_BLOCKED, []) \/ ended (OpRead len) a.1 a.2
  | stream_u8_write s data => fun a => a = WAITABLE_STATUS_BLOCKED \/ ended (OpWrite data) a []
  | stream_u8_cancel_read s => fun a => forall op, inflight (track_of l s) = Some op -> cancelled op a.1 a.2
  | stream_u8_cancel_write s => fun a => forall op, inflight (track_of l s) = Some op -> cancelled op a []
  | monotonic_clock_wait_for _ => fun a =>
      SUBTASK_STATE a = SUBTASK_RETURNED \/
      (SUBTASK_HANDLE a <> 0 /\ track_of l (SUBTASK_HANDLE a) = no_track /\ forall set, SUBTASK_HANDLE a ∉ members l set)
  | waitable_set_new => fun a => a <> 0 /\ members l a = []
  | waitable_set_wait set => delivered l set
  | waitable_set_poll set => fun e => event e = EVENT_NONE \/ delivered l set e
  | _ => fun _ => True
  end.

(** Every call of the log was allowed when it was made. *)
Fixpoint legal_from (l : log3) (rest : log3) : Prop :=
  match rest with
  | [] => True
  | Ev3 c a :: rest' => allowed l c /\ legal_from (l ++ [Ev3 c a]) rest'
  end.
Definition legal (l : log3) : Prop := legal_from [] l.

(** A host that answers so after every log that obeys the rules. *)
Class Host3Laws `{Host3} := host3_ok l c : legal l -> allowed l c -> answer_ok l c (host3 l c).
