(* ===== verification/Stream3.v ===== *)
(** * Streams of wasip3

    sources/wasip3_block_on.c and the wasip3 part of sources/file_utils.c and
    headers/private/wasi/descriptor_table.h: reads and writes, blocking or not,
    over a component-model [stream<u8>], with the internal buffer of streams
    whose readiness cannot be tested. Single-threaded: the locks are no-ops and
    [WASIP3_IO_BLOCKED] is only set while the call itself blocks. *)

From S2P Require Import Prelude Errno Wasip3.

Definition IO_DONE : Z := Z.shiftl 1 0.
Definition IO_INPROGRESS : Z := Z.shiftl 1 1.
Definition IO_ZERO_INPROGRESS : Z := Z.shiftl 1 2.
Definition IO_SHOULD_BE_READY : Z := Z.shiftl 1 3.
Definition IO_MUST_BUFFER : Z := Z.shiftl 1 4.
Definition IO_BLOCKED : Z := Z.shiftl 1 5.

Record wasip3_io_state_t := IoState {
  stream : Z;
  flags : Z;
  buf : option (list Z);
  buf_start : Z;
  buf_end : Z;
}.

(** [memset(state, 0, sizeof( *state))] *)
Definition io_zero : wasip3_io_state_t := IoState 0 0 None 0 0.

Record ctx3 := Ctx3 { io : wasip3_io_state_t; off : Z; env3 : env; log : log3 }.

Global Instance ctx3_libc : Libc ctx3 := {
  errno s := env_errno (env3 s);
  with_errno e s := Ctx3 (io s) (off s) (with_errno e (env3 s)) (log s);
  take_alloc s := let (b, v) := take_alloc (env3 s) in (b, Ctx3 (io s) (off s) v (log s));
}.

(** The fields of [wasi_read_t] and [wasi_write_t]: whether [offset] is not
    NULL, blocking, timeout, and the callback at the end of the stream. *)
Record wasi_rw := Rw { rw_offset : bool; rw_blocking : bool; rw_timeout : Z; rw_eof : M ctx3 Z }.

Definition set_flags (f : Z) (s : wasip3_io_state_t) : wasip3_io_state_t :=
  IoState (stream s) f (buf s) (buf_start s) (buf_end s).
Definition set_buf (b : option (list Z)) (i j : Z) (s : wasip3_io_state_t) : wasip3_io_state_t :=
  IoState (stream s) (flags s) b i j.

Definition update_io (f : wasip3_io_state_t -> wasip3_io_state_t) : M ctx3 unit :=
  modify (fun s => Ctx3 (f (io s)) (off s) (env3 s) (log s)).

(** [flags |= f] and [flags &= ~f] *)
Definition raise_flag (f : Z) : M ctx3 unit := update_io (fun s => set_flags (Z.lor (flags s) f) s).
Definition lower_flag (f : Z) : M ctx3 unit := update_io (fun s => set_flags (Z.ldiff (flags s) f) s).
Definition flag (f : Z) : M ctx3 bool := gets (fun s => has (flags (io s)) f).
Definition assert_flag (f : Z) (b : bool) : M ctx3 unit := c ← flag f; assert_ (Bool.eqb c b).

(** [wasip3_io_state_init] *)
Definition io_state_init (h : Z) : M ctx3 unit :=
  assert_ (negb (h =? 0)) ;; update_io (fun _ => IoState h 0 None 0 0).

Section code.
Context `{Host3}.

Definition ask3 (c : call3) : M ctx3 (answer c) := fun s =>
  let a := host3 (log s) c in Done a (Ctx3 (io s) (off s) (env3 s) (log s ++ [Ev3 c a])).

(** ** wasip3_block_on.c *)

Definition __wasilibc_waitable_block_on (w timeout : Z) : M ctx3 (bool * event_t) :=
  t ← (if negb (timeout =? 0) then
         status ← ask3 (monotonic_clock_wait_for timeout);
         mret (if SUBTASK_STATE status =? SUBTASK_RETURNED then (true, 0) else (false, SUBTASK_HANDLE status))
       else mret (false, 0));
  let '(poll, timeout_subtask) := (t : bool * Z) in
  set ← ask3 waitable_set_new;
  ask3 (waitable_join w set) ;;
  (if negb (timeout_subtask =? 0) then ask3 (waitable_join timeout_subtask set) else mret tt) ;;
  e ← (if poll then ask3 (waitable_set_poll set) else ask3 (waitable_set_wait set));
  ask3 (waitable_join w 0) ;;
  (if negb (timeout_subtask =? 0) then ask3 (waitable_join timeout_subtask 0) else mret tt) ;;
  ask3 (waitable_set_drop set) ;;
  fired ← (if negb (timeout_subtask =? 0) then
             if (event e =? EVENT_SUBTASK) && (waitable e =? timeout_subtask) then
               ask3 (subtask_drop timeout_subtask) ;; mret true
             else ask3 (subtask_cancel timeout_subtask) ;; ask3 (subtask_drop timeout_subtask) ;; mret false
           else mret false);
  mret (negb (fired || (poll && (event e =? EVENT_NONE))), e).

(** The status an operation answered, with the bytes of a read; [cancel]
    cancels it. The amount or -1, and whether the stream was closed. *)
Definition __wasilibc_stream_block_on_timeout (status : Z) (bytes : list Z) (s timeout : Z) (cancel : M ctx3 (Z * list Z))
    : M ctx3 (Z * bool * list Z) :=
  r ← (if status =? WAITABLE_STATUS_BLOCKED then
         p ← __wasilibc_waitable_block_on s timeout;
         let '(ok, e) := (p : bool * event_t) in
         if negb ok then
           c ← cancel;
           if (WAITABLE_STATE c.1 =? WAITABLE_CANCELLED) && (WAITABLE_COUNT c.1 =? 0)
           then fail_with ETIMEDOUT None else mret (Some c)
         else
           assert_ ((event e =? EVENT_STREAM_READ) || (event e =? EVENT_STREAM_WRITE)) ;;
           assert_ (waitable e =? s) ;;
           mret (Some (code e, landed e))
       else mret (Some (status, bytes)));
  match (r : option (Z * list Z)) with
  | None => mret (-1, false, [])
  | Some (status, bytes) =>
      let state := WAITABLE_STATE status in
      assert_ ((state =? WAITABLE_COMPLETED) || (state =? WAITABLE_DROPPED) || (state =? WAITABLE_CANCELLED)) ;;
      mret (WAITABLE_COUNT status, state =? WAITABLE_DROPPED, bytes)
  end.

Definition __wasilibc_poll_waitable (w : Z) : M ctx3 event_t :=
  set ← ask3 waitable_set_new;
  ask3 (waitable_join w set) ;;
  e ← ask3 (waitable_set_poll set);
  ask3 (waitable_join w 0) ;;
  ask3 (waitable_set_drop set) ;;
  mret e.

(** ** The state of a stream *)

Definition wasip3_io_update_code (code : Z) : M ctx3 Z :=
  assert_ (negb (code =? WAITABLE_STATUS_BLOCKED)) ;;
  (if (WAITABLE_STATE code =? WAITABLE_COMPLETED) || (WAITABLE_STATE code =? WAITABLE_CANCELLED) then mret tt
   else if WAITABLE_STATE code =? WAITABLE_DROPPED then raise_flag IO_DONE
   else halt Trap) ;;
  assert_flag IO_INPROGRESS true ;;
  lower_flag IO_INPROGRESS ;;
  z ← flag IO_ZERO_INPROGRESS;
  (if (z : bool) then
     lower_flag IO_ZERO_INPROGRESS ;;
     assert_flag IO_SHOULD_BE_READY false ;;
     raise_flag IO_SHOULD_BE_READY
   else mret tt) ;;
  mret (WAITABLE_COUNT code).

Definition wasip3_io_update_event (e : event_t) : M ctx3 Z :=
  assert_ ((event e =? EVENT_STREAM_WRITE) || (event e =? EVENT_STREAM_READ)) ;;
  s ← gets io;
  assert_ (waitable e =? stream s) ;;
  wasip3_io_update_code (code e).

(** The bytes from [i] to [j] of the internal buffer. *)
Definition buf_slice (i j : Z) : M ctx3 (list Z) :=
  s ← gets io;
  b ← deref (buf s);
  if (0 <=? i) && (i <=? j) && (j <=? Z.of_nat (length b)) then
    mret (take (Z.to_nat (j - i)) (drop (Z.to_nat i) b))
  else halt Undef.

(** [buf_start += n] *)
Definition consume (n : Z) : M ctx3 unit := update_io (fun s => set_buf (buf s) (u32 (buf_start s + n)) (buf_end s) s).

(** [free(state->buf)] and the fields cleared. *)
Definition release : M ctx3 unit := update_io (set_buf None 0 0).

(** The loop of [wasip3_advance_pending_write]; each turn sends a byte or ends
    the stream. *)
Fixpoint advance_loop (fuel : nat) : M ctx3 bool :=
  s ← gets io;
  if negb (has (flags s) IO_DONE) && negb (buf_start s =? buf_end s) then
    data ← buf_slice (buf_start s) (buf_end s);
    status ← ask3 (stream_u8_write (stream s) data);
    raise_flag IO_INPROGRESS ;;
    if status =? WAITABLE_STATUS_BLOCKED then mret false else
    n ← wasip3_io_update_code status;
    consume n ;;
    match fuel with 0%nat => halt Fuel | S fuel' => advance_loop fuel' end
  else
    assert_ (has (flags s) IO_DONE || (buf_start s =? buf_end s)) ;;
    release ;;
    mret true.

Definition buffered : M ctx3 nat := gets (fun s => Z.to_nat (buf_end (io s) - buf_start (io s))).

Definition wasip3_advance_pending_write (e : event_t) : M ctx3 bool :=
  n ← wasip3_io_update_event e;
  consume n ;;
  fuel ← buffered;
  advance_loop fuel.

(** Without threads a stream is never blocked by another. *)
Definition wasip3_io_sync (blocking : bool) : M ctx3 Z :=
  b ← flag IO_BLOCKED;
  if (b : bool) then if negb blocking then fail_with EOPNOTSUPP (-1) else halt Trap
  else mret 0.

Definition wasip3_enter_blocking_operation : M ctx3 unit :=
  assert_flag IO_BLOCKED false ;; raise_flag IO_BLOCKED.

Definition wasip3_exit_blocking_operation : M ctx3 unit :=
  assert_flag IO_BLOCKED true ;; lower_flag IO_BLOCKED.

(** The event of the operation in flight: waits for it, or looks whether it is
    there. *)
Definition await_event (blocking : bool) (timeout : Z) : M ctx3 (option event_t) :=
  s ← gets io;
  if blocking then
    wasip3_enter_blocking_operation ;;
    r ← __wasilibc_waitable_block_on (stream s) timeout;
    wasip3_exit_blocking_operation ;;
    let '(ok, e) := (r : bool * event_t) in
    if negb ok then fail_with ETIMEDOUT None else mret (Some e)
  else
    e ← __wasilibc_poll_waitable (stream s);
    if event e =? EVENT_NONE then fail_with EWOULDBLOCK None else mret (Some e).

Fixpoint resolve_loop (fuel : nat) (blocking : bool) (timeout : Z) : M ctx3 Z :=
  r ← await_event blocking timeout;
  match (r : option event_t) with
  | None => mret (-1)
  | Some e =>
      b ← wasip3_advance_pending_write e;
      if (b : bool) then mret 0 else
      if negb blocking then assert_flag IO_INPROGRESS true ;; fail_with EWOULDBLOCK (-1) else
      match fuel with 0%nat => halt Fuel | S fuel' => resolve_loop fuel' blocking timeout end
  end.

Definition wasip3_write_resolve_pending (blocking : bool) (timeout : Z) : M ctx3 Z :=
  assert_flag IO_BLOCKED false ;;
  p ← flag IO_INPROGRESS;
  if negb p then mret 0 else
  s ← gets io;
  assert_ (bool_decide (is_Some (buf s)) || has (flags s) IO_ZERO_INPROGRESS) ;;
  fuel ← buffered;
  resolve_loop fuel blocking timeout.

Definition wasip3_start_zero_length (status : Z) : M ctx3 bool :=
  assert_flag IO_INPROGRESS false ;;
  assert_flag IO_ZERO_INPROGRESS false ;;
  assert_flag IO_SHOULD_BE_READY false ;;
  assert_flag IO_DONE false ;;
  raise_flag IO_INPROGRESS ;;
  raise_flag IO_ZERO_INPROGRESS ;;
  if status =? WAITABLE_STATUS_BLOCKED then mret true else
  wasip3_io_update_code status ;; mret false.

Definition wasip3_write_start_zero_length : M ctx3 bool :=
  s ← gets io;
  status ← ask3 (stream_u8_write (stream s) []);
  wasip3_start_zero_length status.

Definition wasip3_read_start_zero_length : M ctx3 bool :=
  s ← gets io;
  r ← ask3 (stream_u8_read (stream s) 0);
  wasip3_start_zero_length r.1.

(** Bytes that a read has written to the internal buffer. *)
Definition land_bytes (bytes : list Z) : M ctx3 unit :=
  update_io (fun s => set_buf (option_map (fun b => bytes ++ drop (length bytes) b) (buf s)) (buf_start s) (buf_end s) s).

Definition wasip3_read_start_nonzero (length : Z) : M ctx3 Z :=
  assert_flag IO_MUST_BUFFER true ;;
  assert_flag IO_SHOULD_BE_READY false ;;
  assert_flag IO_INPROGRESS false ;;
  assert_flag IO_ZERO_INPROGRESS false ;;
  assert_flag IO_DONE false ;;
  s ← gets io;
  assert_ (bool_decide (buf s = None)) ;;
  assert_ (negb (length =? 0)) ;;
  ok ← alloc_ok;
  if negb ok then fail_with ENOMEM (-1) else
  update_io (set_buf (Some (replicate (Z.to_nat length) 0)) 0 0) ;;
  r ← ask3 (stream_u8_read (stream s) length);
  land_bytes r.2 ;;
  raise_flag IO_INPROGRESS ;;
  if r.1 =? WAITABLE_STATUS_BLOCKED then fail_with EWOULDBLOCK (-1) else
  n ← wasip3_io_update_code r.1;
  update_io (fun s => set_buf (buf s) (buf_start s) n s) ;;
  mret 0.

Definition wasip3_read_complete_internally (length : Z) : M ctx3 (Z * list Z) :=
  s ← gets io;
  let buf_len := u32 (buf_end s - buf_start s) in
  let amount := if buf_len <? length then buf_len else length in
  bytes ← buf_slice (buf_start s) (buf_start s + amount);
  consume amount ;;
  s ← gets io;
  (if buf_start s =? buf_end s then release else mret tt) ;;
  mret (amount, bytes).

(** ** Closing *)

Definition wasip3_read_state_close : M ctx3 unit :=
  s ← gets io;
  (if has (flags s) IO_INPROGRESS then ask3 (stream_u8_cancel_read (stream s)) ;; mret tt else mret tt) ;;
  (if negb (stream s =? 0) then ask3 (stream_u8_drop_readable (stream s)) else mret tt) ;;
  update_io (fun _ => io_zero).

Definition wasip3_write_state_close : M ctx3 unit :=
  s ← gets io;
  (if has (flags s) IO_INPROGRESS && negb (has (flags s) IO_ZERO_INPROGRESS) then
     rc ← wasip3_write_resolve_pending true 0;
     assert_ (rc =? 0) ;;
     assert_flag IO_INPROGRESS false
   else mret tt) ;;
  s ← gets io;
  (if has (flags s) IO_INPROGRESS then ask3 (stream_u8_cancel_write (stream s)) ;; mret tt else mret tt) ;;
  (if negb (stream s =? 0) then ask3 (stream_u8_drop_writable (stream s)) else mret tt) ;;
  update_io (fun _ => io_zero).

(** ** Writes *)

(** [__wasilibc_stream_block_on_timeout] between entering and leaving a
    blocking operation. *)
Definition block_on_operation (status : Z) (bytes : list Z) (timeout : Z) (cancel : M ctx3 (Z * list Z)) : M ctx3 (Z * list Z) :=
  s ← gets io;
  r ← __wasilibc_stream_block_on_timeout status bytes (stream s) timeout cancel;
  wasip3_exit_blocking_operation ;;
  let '(amount, done, bytes) := (r : Z * bool * list Z) in
  (if (done : bool) then raise_flag IO_DONE else mret tt) ;;
  mret (if amount <? 0 then (-1, []) else (amount, bytes)).

Definition blocking_write (timeout : Z) (buffer : list Z) : M ctx3 Z :=
  lower_flag IO_SHOULD_BE_READY ;;
  wasip3_enter_blocking_operation ;;
  s ← gets io;
  status ← ask3 (stream_u8_write (stream s) buffer);
  r ← block_on_operation status [] timeout (c ← ask3 (stream_u8_cancel_write (stream s)); mret (c, []));
  mret r.1.

(** A write from the buffer of the caller that is cancelled when it blocks:
    [Some] when the call returns. *)
Definition write_attempt (should_be_ready : bool) (buffer : list Z) : M ctx3 (option Z) :=
  s ← gets io;
  status ← ask3 (stream_u8_write (stream s) buffer);
  raise_flag IO_INPROGRESS ;;
  status ← (if status =? WAITABLE_STATUS_BLOCKED then
              (if should_be_ready then raise_flag IO_MUST_BUFFER else mret tt) ;;
              ask3 (stream_u8_cancel_write (stream s))
            else mret status);
  amount ← wasip3_io_update_code status;
  done ← flag IO_DONE;
  mret (if 0 <? amount then Some amount else if (done : bool) then Some 0 else None).

(** The loop of a write that must not block: [Some r] is a [return], [None] a
    [break]. Its second turn has [should_be_ready] set and does not continue. *)
Fixpoint write_nonblocking_loop (fuel : nat) (buffer : list Z) : M ctx3 (option Z) :=
  should_be_ready ← flag IO_SHOULD_BE_READY;
  lower_flag IO_SHOULD_BE_READY ;;
  must ← flag IO_MUST_BUFFER;
  r ← (if (must : bool) then mret None else write_attempt should_be_ready buffer);
  match (r : option Z) with
  | Some v => mret (Some v)
  | None =>
      must ← flag IO_MUST_BUFFER;
      if (must : bool) then mret None else
      z ← wasip3_write_start_zero_length;
      if (z : bool) then fail_with EWOULDBLOCK (Some (-1)) else
      done ← flag IO_DONE;
      if (done : bool) then mret (Some 0) else
      assert_flag IO_SHOULD_BE_READY true ;;
      match fuel with 0%nat => halt Fuel | S fuel' => write_nonblocking_loop fuel' buffer end
  end.

Definition write_buffered (buffer : list Z) : M ctx3 Z :=
  assert_flag IO_MUST_BUFFER true ;;
  assert_flag IO_SHOULD_BE_READY false ;;
  assert_flag IO_INPROGRESS false ;;
  assert_flag IO_ZERO_INPROGRESS false ;;
  assert_flag IO_DONE false ;;
  s ← gets io;
  assert_ (bool_decide (buf s = None)) ;;
  ok ← alloc_ok;
  if negb ok then fail_with ENOMEM (-1) else
  update_io (set_buf (Some buffer) 0 (Z.of_nat (length buffer))) ;;
  status ← ask3 (stream_u8_write (stream s) buffer);
  raise_flag IO_INPROGRESS ;;
  if status =? WAITABLE_STATUS_BLOCKED then mret (Z.of_nat (length buffer)) else
  release ;;
  wasip3_io_update_code status.

Definition __wasilibc_write_without_offset_update (w : wasi_rw) (buffer : list Z) : M ctx3 Z :=
  rc ← wasip3_io_sync (rw_blocking w);
  if rc <? 0 then mret (-1) else
  s ← gets io;
  if stream s =? 0 then mret 0 else
  rc ← wasip3_write_resolve_pending (rw_blocking w) (rw_timeout w);
  if rc <? 0 then mret (-1) else
  assert_flag IO_INPROGRESS false ;;
  assert_flag IO_ZERO_INPROGRESS false ;;
  if Z.of_nat (length buffer) =? 0 then mret 0 else
  done ← flag IO_DONE;
  if (done : bool) then mret 0 else
  if rw_blocking w then blocking_write (rw_timeout w) buffer else
  r ← write_nonblocking_loop 1 buffer;
  match (r : option Z) with Some v => mret v | None => write_buffered buffer end.

(** The end of [__wasilibc_write] and [__wasilibc_read]: the offset moves by
    what was transferred, and at the end of the stream the callback decides. *)
Definition conclude (w : wasi_rw) (result : Z) : M ctx3 Z :=
  modify (fun s => Ctx3 (io s) (if (0 <? result) && rw_offset w then i64 (off s + result) else off s) (env3 s) (log s)) ;;
  s ← gets io;
  if (result =? 0) && (has (flags s) IO_DONE || (stream s =? 0)) then rw_eof w else mret result.

Definition __wasilibc_write (w : wasi_rw) (buffer : list Z) : M ctx3 Z :=
  result ← __wasilibc_write_without_offset_update w buffer;
  conclude w result.

(** ** Reads *)

Definition blocking_read (timeout length : Z) : M ctx3 (Z * list Z) :=
  lower_flag IO_SHOULD_BE_READY ;;
  wasip3_enter_blocking_operation ;;
  s ← gets io;
  r ← ask3 (stream_u8_read (stream s) length);
  block_on_operation r.1 r.2 timeout (ask3 (stream_u8_cancel_read (stream s))).

(** A read into the buffer of the caller that is cancelled when it blocks: [Some]
    when the call returns. *)
Definition read_attempt (should_be_ready : bool) (length : Z) : M ctx3 (option (Z * list Z)) :=
  s ← gets io;
  status ← ask3 (stream_u8_read (stream s) length);
  raise_flag IO_INPROGRESS ;;
  status ← (if status.1 =? WAITABLE_STATUS_BLOCKED then
              (if should_be_ready then raise_flag IO_MUST_BUFFER else mret tt) ;;
              ask3 (stream_u8_cancel_read (stream s))
            else mret status);
  amount ← wasip3_io_update_code status.1;
  done ← flag IO_DONE;
  mret (if 0 <? amount then Some (amount, status.2) else if (done : bool) then Some (0, []) else None).

Fixpoint read_nonblocking_loop (fuel : nat) (length : Z) : M ctx3 (option (Z * list Z)) :=
  should_be_ready ← flag IO_SHOULD_BE_READY;
  lower_flag IO_SHOULD_BE_READY ;;
  must ← flag IO_MUST_BUFFER;
  r ← (if (must : bool) then mret None else read_attempt should_be_ready length);
  match (r : option (Z * list Z)) with
  | Some v => mret (Some v)
  | None =>
      must ← flag IO_MUST_BUFFER;
      if (must : bool) then mret None else
      z ← wasip3_read_start_zero_length;
      if (z : bool) then fail_with EWOULDBLOCK (Some (-1, [])) else
      done ← flag IO_DONE;
      if (done : bool) then mret (Some (0, [])) else
      assert_flag IO_SHOULD_BE_READY true ;;
      match fuel with 0%nat => halt Fuel | S fuel' => read_nonblocking_loop fuel' length end
  end.

(** Waits for the operation in flight; [false] is [return -1]. *)
Definition read_settle (w : wasi_rw) : M ctx3 bool :=
  p ← flag IO_INPROGRESS;
  if negb p then mret true else
  r ← await_event (rw_blocking w) (rw_timeout w);
  match (r : option event_t) with
  | None => mret false
  | Some e =>
      land_bytes (landed e) ;;
      n ← wasip3_io_update_event e;
      update_io (fun s => set_buf (buf s) (buf_start s) n s) ;;
      mret true
  end.

(** The read with nothing in flight. *)
Definition read_settled (w : wasi_rw) (length : Z) : M ctx3 (Z * list Z) :=
  assert_flag IO_INPROGRESS false ;;
  s ← gets io;
  if bool_decide (is_Some (buf s)) then wasip3_read_complete_internally length else
  if length =? 0 then mret (0, []) else
  if has (flags s) IO_DONE then mret (0, []) else
  if rw_blocking w then blocking_read (rw_timeout w) length else
  r ← read_nonblocking_loop 1 length;
  match (r : option (Z * list Z)) with
  | Some v => mret v
  | None =>
      rc ← wasip3_read_start_nonzero length;
      if rc <? 0 then mret (-1, []) else wasip3_read_complete_internally length
  end.

Definition __wasilibc_read_without_offset_update (w : wasi_rw) (length : Z) : M ctx3 (Z * list Z) :=
  rc ← wasip3_io_sync (rw_blocking w);
  if rc <? 0 then mret (-1, []) else
  s ← gets io;
  if stream s =? 0 then mret (0, []) else
  ok ← read_settle w;
  if negb ok then mret (-1, []) else
  read_settled w length.

Definition __wasilibc_read (w : wasi_rw) (length : Z) : M ctx3 (Z * list Z) :=
  r ← __wasilibc_read_without_offset_update w length;
  result ← conclude w r.1;
  mret (result, r.2).
End code.
