(* ===== verification/Stream3Inv.v ===== *)
(** * Streams of wasip3: symbolic execution

    The rules by which the stream code of wasip3 is executed symbolically
    against any host that obeys the component model: what a log says after a
    call, the flags of a stream, waiting for a stream with or without a timer,
    and blocking operations. *)

From S2P Require Import Prelude Errno Wasip3 Stream3.

(** ** Logs *)

Lemma track_snoc l e h : track_of (l ++ [e]) h = advance h (track_of l h) e.
Proof. unfold track_of. by rewrite fold_left_app. Qed.

Lemma members_snoc l e set : members (l ++ [e]) set = enrol set (members l set) e.
Proof. unfold members. by rewrite fold_left_app. Qed.

Lemma legal_from_snoc l1 l c a : legal_from l1 (l ++ [Ev3 c a]) <-> legal_from l1 l /\ allowed (l1 ++ l) c.
Proof.
  revert l1. induction l as [|[c' a'] l IH]; intros l1; simpl.
  - rewrite app_nil_r. naive_solver.
  - rewrite IH, <- app_assoc. naive_solver.
Qed.

Lemma legal_snoc l c a : legal (l ++ [Ev3 c a]) <-> legal l /\ allowed l c.
Proof. apply legal_from_snoc. Qed.

(** ** Flags *)

(** The flags [DONE], [INPROGRESS], [ZERO_INPROGRESS], [SHOULD_BE_READY],
    [MUST_BUFFER] and [BLOCKED] of a word. *)
Record fv := FV { vd : bool; vi : bool; vz : bool; vr : bool; vm : bool; vb : bool }.

Definition view_of (f : Z) : fv :=
  FV (has f IO_DONE) (has f IO_INPROGRESS) (has f IO_ZERO_INPROGRESS) (has f IO_SHOULD_BE_READY) (has f IO_MUST_BUFFER) (has f IO_BLOCKED).

(** The flag [f] of a view, and a view with that flag changed. *)
Definition pick (f : Z) (v : fv) : bool :=
  if f =? IO_DONE then vd v else if f =? IO_INPROGRESS then vi v else if f =? IO_ZERO_INPROGRESS then vz v
  else if f =? IO_SHOULD_BE_READY then vr v else if f =? IO_MUST_BUFFER then vm v else vb v.
Definition put (f : Z) (x : bool) (v : fv) : fv :=
  let at_ g y := if f =? g then x else y in
  FV (at_ IO_DONE (vd v)) (at_ IO_INPROGRESS (vi v)) (at_ IO_ZERO_INPROGRESS (vz v))
     (at_ IO_SHOULD_BE_READY (vr v)) (at_ IO_MUST_BUFFER (vm v)) (at_ IO_BLOCKED (vb v)).

Definition io_flags : list Z := [IO_DONE; IO_INPROGRESS; IO_ZERO_INPROGRESS; IO_SHOULD_BE_READY; IO_MUST_BUFFER; IO_BLOCKED].

Lemma has_raise f i j : 0 <= i -> 0 <= j -> has (Z.lor f (Z.shiftl 1 i)) (Z.shiftl 1 j) = (i =? j) || has f (Z.shiftl 1 j).
Proof.
  intros. rewrite !has_bit, Z.lor_spec, Z.shiftl_1_l, Z.pow2_bits_eqb by done. apply orb_comm.
Qed.

Lemma has_lower f i j : 0 <= i -> 0 <= j -> has (Z.ldiff f (Z.shiftl 1 i)) (Z.shiftl 1 j) = negb (i =? j) && has f (Z.shiftl 1 j).
Proof.
  intros. rewrite !has_bit, Z.ldiff_spec, Z.shiftl_1_l, Z.pow2_bits_eqb by done. apply andb_comm.
Qed.

Ltac unfold_flags := unfold IO_DONE, IO_INPROGRESS, IO_ZERO_INPROGRESS, IO_SHOULD_BE_READY, IO_MUST_BUFFER, IO_BLOCKED.

Lemma view_raise f g : g ∈ io_flags -> view_of (Z.lor f g) = put g true (view_of f).
Proof.
  unfold io_flags, view_of, put. rewrite !elem_of_cons, elem_of_nil.
  intros [->|[->|[->|[->|[->|[->|[]]]]]]]; unfold_flags; by rewrite !has_raise by done.
Qed.

Lemma view_lower f g : g ∈ io_flags -> view_of (Z.ldiff f g) = put g false (view_of f).
Proof.
  unfold io_flags, view_of, put. rewrite !elem_of_cons, elem_of_nil.
  intros [->|[->|[->|[->|[->|[->|[]]]]]]]; unfold_flags; by rewrite !has_lower by done.
Qed.

Lemma view_pick f g : g ∈ io_flags -> has f g = pick g (view_of f).
Proof.
  unfold io_flags, view_of, pick. rewrite !elem_of_cons, elem_of_nil.
  by intros [->|[->|[->|[->|[->|[->|[]]]]]]].
Qed.

(** ** Rules of symbolic execution *)

Section rules.
Context `{Host3Laws}.
Implicit Types s : ctx3.

Definition only_log (s s' : ctx3) : Prop := io s' = io s /\ off s' = off s /\ env3 s' = env3 s.

(** What a call leaves behind. *)
Record called (c : call3) (a : answer c) (s s' : ctx3) : Prop := Called {
  called_only : only_log s s';
  called_legal : legal (log s');
  called_track h : track_of (log s') h = advance h (track_of (log s) h) (Ev3 c a);
  called_members set : members (log s') set = enrol set (members (log s) set) (Ev3 c a);
}.

Lemma wp_ask3 c (Q : answer c -> ctx3 -> Prop) s :
  legal (log s) -> allowed (log s) c ->
  (forall a s', answer_ok (log s) c a -> called c a s s' -> Q a s') -> wp (ask3 c) Q s.
Proof.
  intros Hl Ha HQ. unfold wp, ask3. apply HQ; [by apply host3_ok|].
  split; [done|by apply legal_snoc|intros h; apply track_snoc|intros set; apply members_snoc].
Qed.

Lemma wp_ask3_bind {B} c (f : answer c -> M ctx3 B) (Q : B -> ctx3 -> Prop) s :
  legal (log s) -> allowed (log s) c ->
  (forall a s', answer_ok (log s) c a -> called c a s s' -> wp (f a) Q s') -> wp (ask3 c ≫= f) Q s.
Proof. intros. apply wp_bind. by apply wp_ask3. Qed.

Ltac ask_step := lazymatch goal with |- wp (ask3 ?c ≫= ?f) ?Q ?s => apply (wp_ask3_bind c f Q s) end.

(** ** Waiting *)

(** The event [e] ends the operation [op] of [w]. *)
Definition ends (op : op3) (w : Z) (e : event_t) : Prop :=
  event e = op_event op /\ waitable e = w /\ ended op (code e) (landed e).

Lemma ends_arrive op w e t : ends op w e -> arrive w e t = finish (code e) (landed e) t.
Proof.
  intros (He & <- & _). unfold arrive. rewrite Z.eqb_refl, He. by destruct op.
Qed.

Lemma other_arrive w e t : waitable e <> w -> arrive w e t = t.
Proof. intros Hne. unfold arrive. by rewrite (proj2 (Z.eqb_neq _ _) Hne). Qed.

Lemma none_arrive w e t : event e = EVENT_NONE -> arrive w e t = t.
Proof. intros He. unfold arrive. rewrite He. by destruct (_ =? _). Qed.

(** What can come out of a set with the stream [w] and perhaps a timer. *)
Lemma delivered_cases l set e w op ws :
  delivered l set e -> members l set = w :: ws -> inflight (track_of l w) = Some op -> timer (track_of l w) = NoTimer ->
  Forall (fun h => inflight (track_of l h) = None) ws ->
  ends op w e \/ (waitable e ∈ ws /\ event e = EVENT_SUBTASK /\ timer (track_of l (waitable e)) = Running).
Proof.
  intros [Hin Hcase] Hm Hop Ht Hws. rewrite Hm in Hin.
  apply elem_of_cons in Hin as [Hw|Hin].
  - left. rewrite Hw, Hop, Ht in Hcase. destruct Hcase as [(op' & [= <-] & ? & ?)|[[=] _]]. by split_and!.
  - right. rewrite (proj1 (list.Forall_forall _ _) Hws _ Hin) in Hcase.
    destruct Hcase as [(? & [=] & _)|[? ?]]. by split_and!.
Qed.

(** An operation [op] is in flight on [w], no timer has that handle. *)
Definition in_flight (l : log3) (w : Z) (op : op3) : Prop :=
  legal l /\ inflight (track_of l w) = Some op /\ timer (track_of l w) = NoTimer.

(** The log has grown, and the handle [w] has the history [t]. *)
Definition logged (w : Z) (t : track) (s s' : ctx3) : Prop :=
  only_log s s' /\ legal (log s') /\ track_of (log s') w = t.

Lemma enrol_join w set m a : w ∉ m -> enrol set m (Ev3 (waitable_join w set) a) = m ++ [w].
Proof.
  intros Hw. simpl. rewrite Z.eqb_refl. f_equal. induction m as [|x m IH]; [done|].
  apply not_elem_of_cons in Hw as [Hne Hw]. rewrite filter_cons_True by done. by rewrite IH.
Qed.

Lemma enrol_leave w set m a : set <> 0 -> w ∉ m -> enrol set (w :: m) (Ev3 (waitable_join w 0) a) = m.
Proof.
  intros Hs Hw. cbn [enrol]. rewrite (proj2 (Z.eqb_neq 0 set)), app_nil_r by done.
  rewrite filter_cons_False by naive_solver. induction m as [|x m IH]; [done|].
  apply not_elem_of_cons in Hw as [Hne Hw]. rewrite filter_cons_True by done. by rewrite IH.
Qed.

Lemma only_log_trans s1 s2 s3 : only_log s1 s2 -> only_log s2 s3 -> only_log s1 s3.
Proof. intros (? & ? & ?) (? & ? & ?). split_and!; congruence. Qed.

(** A set with the stream [w] alone, polled or waited for. *)
Definition select {B} (poll : bool) (w : Z) (k : event_t -> M ctx3 B) : M ctx3 B :=
  set ← ask3 waitable_set_new;
  ask3 (waitable_join w set) ;;
  e ← (if poll then ask3 (waitable_set_poll set) else ask3 (waitable_set_wait set));
  ask3 (waitable_join w 0) ;;
  ask3 (waitable_set_drop set) ;;
  k e.

Lemma wp_select {B} (poll : bool) w op k (Q : B -> ctx3 -> Prop) s :
  in_flight (log s) w op ->
  (poll = true -> forall e s', event e = EVENT_NONE -> logged w (track_of (log s) w) s s' -> wp (k e) Q s') ->
  (forall e s', ends op w e -> logged w (finish (code e) (landed e) (track_of (log s) w)) s s' -> wp (k e) Q s') ->
  wp (select poll w k) Q s.
Proof.
  intros (Hl & Hop & Ht) HN HE. unfold select.
  ask_step; [done|done|]. intros set s1 [Hset Hm] [O1 L1 T1 M1].
  ask_step; [done|done|]. intros [] s2 _ [O2 L2 T2 M2].
  specialize (M1 set). specialize (M2 set). simpl in M1. rewrite M1, Hm, enrol_join in M2 by apply not_elem_of_nil. simpl in M2.
  assert (Tw : track_of (log s2) w = track_of (log s) w) by (rewrite T2; simpl; by rewrite T1).
  assert (Hrest : forall e s3, (poll = true /\ event e = EVENT_NONE \/ delivered (log s2) set e) -> only_log s2 s3 ->
    legal (log s3) -> track_of (log s3) w = arrive w e (track_of (log s) w) -> members (log s3) set = [w] ->
    wp (ask3 (waitable_join w 0) ;; ask3 (waitable_set_drop set) ;; k e) Q s3).
  { intros e s3 He O3 L3 T3 M3. ask_step; [done|done|]. intros [] s4 _ [O4 L4 T4 M4].
    specialize (M4 set). rewrite M3, enrol_leave in M4 by (done || apply not_elem_of_nil).
    ask_step; [done|done|]. intros [] s5 _ [O5 L5 T5 M5].
    assert (O : only_log s s5) by eauto using only_log_trans.
    assert (T : track_of (log s5) w = arrive w e (track_of (log s) w)) by (rewrite T5; simpl; rewrite T4; simpl; done).
    destruct He as [[Hp Hnone]|Hdel].
    - rewrite none_arrive in T by done. by apply HN.
    - eapply delivered_cases in Hdel as [Hends|[Hin _]]; [|by apply not_elem_of_nil in Hin|done| | |constructor]; [|by rewrite Tw..].
      rewrite (ends_arrive _ _ _ _ Hends) in T. by apply HE. }
  destruct poll.
  - ask_step; [done|done|]. intros e s3 He [O3 L3 T3 M3]. specialize (T3 w). specialize (M3 set). simpl in T3, M3.
    apply Hrest; [by destruct He; [left|right]|done|done|by rewrite T3, Tw|by rewrite M3].
  - ask_step; [done| |].
    { exists w. rewrite M2, Tw. split; [by left|]. left. by exists op. }
    intros e s3 He [O3 L3 T3 M3]. specialize (T3 w). specialize (M3 set). simpl in T3, M3.
    apply Hrest; [by right|done|done|by rewrite T3, Tw|by rewrite M3].
Qed.

Lemma wp_poll_waitable w op (Q : event_t -> ctx3 -> Prop) s :
  in_flight (log s) w op ->
  (forall e s', event e = EVENT_NONE -> logged w (track_of (log s) w) s s' -> Q e s') ->
  (forall e s', ends op w e -> logged w (finish (code e) (landed e) (track_of (log s) w)) s s' -> Q e s') ->
  wp (__wasilibc_poll_waitable w) Q s.
Proof.
  intros Hop HN HE. change (wp (select true w mret) Q s).
  eapply wp_select; [done|..]; intros; apply wp_ret; auto.
Qed.

(** The timer [sub] is joined as well: the event is the stream's, or the
    timer's. *)
Definition select_timer {B} (w sub : Z) (k : event_t -> M ctx3 B) : M ctx3 B :=
  set ← ask3 waitable_set_new;
  ask3 (waitable_join w set) ;;
  ask3 (waitable_join sub set) ;;
  e ← ask3 (waitable_set_wait set);
  ask3 (waitable_join w 0) ;;
  ask3 (waitable_join sub 0) ;;
  ask3 (waitable_set_drop set) ;;
  k e.

Lemma wp_select_timer {B} w sub op k (Q : B -> ctx3 -> Prop) s :
  in_flight (log s) w op -> w <> sub -> inflight (track_of (log s) sub) = None -> timer (track_of (log s) sub) = Running ->
  (forall e s', event e = EVENT_SUBTASK -> waitable e = sub -> logged w (track_of (log s) w) s s' ->
     timer (track_of (log s') sub) = Ended -> wp (k e) Q s') ->
  (forall e s', ends op w e -> logged w (finish (code e) (landed e) (track_of (log s) w)) s s' ->
     timer (track_of (log s') sub) = Running -> wp (k e) Q s') ->
  wp (select_timer w sub k) Q s.
Proof.
  intros (Hl & Hop & Ht) Hne Hsub Hrun HT HE. unfold select_timer.
  ask_step; [done|done|]. intros set s1 [Hset Hm] [O1 L1 T1 M1].
  ask_step; [done|done|]. intros [] s2 _ [O2 L2 T2 M2].
  ask_step; [done|done|]. intros [] s3 _ [O3 L3 T3 M3].
  specialize (M1 set). specialize (M2 set). specialize (M3 set). simpl in M1.
  rewrite M1, Hm, enrol_join in M2 by apply not_elem_of_nil. simpl in M2.
  rewrite M2, enrol_join in M3 by (rewrite list_elem_of_singleton; done). simpl in M3.
  assert (Tw : forall h, track_of (log s3) h = track_of (log s) h) by (intros h; rewrite T3; simpl; rewrite T2; simpl; by rewrite T1).
  ask_step; [done| |].
  { exists w. rewrite M3, Tw. split; [by left|]. left. by exists op. }
  intros e s4 He [O4 L4 T4 M4].
  ask_step; [done|done|]. intros [] s5 _ [O5 L5 T5 M5].
  ask_step; [done|done|]. intros [] s6 _ [O6 L6 T6 M6].
  specialize (M4 set). specialize (M5 set). specialize (M6 set). simpl in M4.
  rewrite M4, M3, enrol_leave in M5 by (done || (rewrite list_elem_of_singleton; done)).
  rewrite M5, enrol_leave in M6 by (done || apply not_elem_of_nil).
  ask_step; [done|done|]. intros [] s7 _ [O7 L7 T7 M7].
  assert (O : only_log s s7) by eauto 10 using only_log_trans.
  assert (T : forall h, track_of (log s7) h = arrive h e (track_of (log s) h)).
  { intros h. rewrite T7; simpl. rewrite T6; simpl. rewrite T5; simpl. by rewrite T4, Tw. }
  eapply delivered_cases in He as [Hends|(Hin & Hev & _)]; [| |done| | |]; [..|by rewrite Tw|by rewrite Tw|by repeat constructor; rewrite Tw].
  - apply HE; [done|split_and!; [done|done|by rewrite T, (ends_arrive _ _ _ _ Hends)]|].
    rewrite T, other_arrive; [done|]. destruct Hends as (_ & -> & _). done.
  - apply list_elem_of_singleton in Hin. apply HT; [done|done|split_and!; [done|done|]|].
    + rewrite T, other_arrive; [done|]. congruence.
    + rewrite T. unfold arrive. by rewrite Hin, Z.eqb_refl, Hev.
Qed.

Lemma wp_block_on w timeout op (Q : bool * event_t -> ctx3 -> Prop) s :
  in_flight (log s) w op ->
  (forall e s', ends op w e -> logged w (finish (code e) (landed e) (track_of (log s) w)) s s' -> Q (true, e) s') ->
  (timeout <> 0 -> forall e s', logged w (track_of (log s) w) s s' -> Q (false, e) s') ->
  wp (__wasilibc_waitable_block_on w timeout) Q s.
Proof.
  intros Hop HE HT. unfold __wasilibc_waitable_block_on.
  destruct (Z.eqb_spec timeout 0) as [->|Hne].
  - change (wp (select false w (fun e => mret (true, e))) Q s). eapply wp_select; [done|done|].
    intros. by apply wp_ret, HE.
  - cbn [negb]. apply wp_bind. destruct Hop as (Hl & Hop & Hno).
    ask_step; [done|done|]. intros status s1 Hst [O1 L1 T1 M1]. apply wp_ret.
    destruct (Z.eqb_spec (SUBTASK_STATE status) SUBTASK_RETURNED) as [Hret|Hret].
    + assert (Tw : track_of (log s1) w = track_of (log s) w) by (rewrite T1; simpl; by rewrite (proj2 (Z.eqb_eq _ _) Hret)).
      change (wp (select true w (fun e => mret (negb (false || (true && (event e =? EVENT_NONE))), e))) Q s1).
      eapply wp_select; [by rewrite <- Tw in *|..]; rewrite Tw.
      * intros _ e s' He (? & ? & ?). rewrite He. apply wp_ret, HT; [done|]. split_and!; eauto using only_log_trans.
      * intros e s' He (? & ? & ?). replace (event e =? EVENT_NONE) with false.
        { apply wp_ret, HE; [done|]. split_and!; eauto using only_log_trans. }
        destruct He as (-> & _). by destruct op.
    + destruct Hst as [?|(Hnz & Hfresh & Hout)]; [done|].
      set (sub := SUBTASK_HANDLE status) in *.
      assert (Hws : w <> sub) by (intros ->; by rewrite Hfresh in Hop).
      assert (Tw : track_of (log s1) w = track_of (log s) w).
      { rewrite T1. cbn [advance]. fold sub. by rewrite (proj2 (Z.eqb_neq sub w)), andb_false_r by done. }
      assert (Ts : track_of (log s1) sub = set_timer Running no_track).
      { rewrite T1. cbn [advance]. fold sub. by rewrite (proj2 (Z.eqb_neq _ _) Hret), Z.eqb_refl, Hfresh. }
      cbv beta iota. rewrite (proj2 (Z.eqb_neq sub 0)) by done. cbn [negb].
      change (wp (select_timer w sub (fun e =>
        fired ← (if (event e =? EVENT_SUBTASK) && (waitable e =? sub) then ask3 (subtask_drop sub) ;; mret true
                 else ask3 (subtask_cancel sub) ;; ask3 (subtask_drop sub) ;; mret false);
        mret (negb (fired || (false && (event e =? EVENT_NONE))), e))) Q s1).
      eapply wp_select_timer; [by rewrite <- Tw in *|done|by rewrite Ts..| |]; rewrite Tw.
      * intros e s' Hev Hw (? & ? & Tw') Hend. rewrite Hev, Hw, !Z.eqb_refl. cbn [andb]. apply wp_bind.
        ask_step; [done|done|]. intros [] s2 _ [O2 L2 T2 M2]. apply wp_ret, wp_ret, HT; [done|].
        split_and!; [eauto using only_log_trans|done|].
        rewrite T2. cbn [advance]. by rewrite (proj2 (Z.eqb_neq sub w)) by done.
      * intros e s' He (? & ? & Tw') Hr. replace (event e =? EVENT_SUBTASK) with false by (destruct He as (-> & _); by destruct op).
        cbn [andb]. apply wp_bind. ask_step; [done|done|]. intros a s2 _ [O2 L2 T2 M2].
        ask_step; [done|by cbn [allowed]; rewrite T2; cbn [advance]; rewrite Z.eqb_refl|].
        intros [] s3 _ [O3 L3 T3 M3]. apply wp_ret, wp_ret, HE; [done|].
        split_and!; [eauto using only_log_trans|done|].
        rewrite T3; cbn [advance]; rewrite T2; cbn [advance]. by rewrite (proj2 (Z.eqb_neq sub w)) by done.
Qed.

(** ** Snapshots

    What the specifications say of a state: the stream, the offset, the flags,
    the buffer with its bounds, and the history of the stream. *)
Record snap (h o : Z) (v : fv) (b : option (list Z)) (i j : Z) (t : track) (s : ctx3) : Prop := Snap {
  sn_stream : stream (io s) = h;
  sn_off : off s = o;
  sn_flags : view_of (flags (io s)) = v;
  sn_buf : buf (io s) = b;
  sn_start : buf_start (io s) = i;
  sn_end : buf_end (io s) = j;
  sn_legal : legal (log s);
  sn_track : track_of (log s) h = t;
  sn_timer : timer t = NoTimer;
  sn_dropped : dropped t = false;
}.

Lemma sn_done h o v b i j t s : snap h o v b i j t s -> has (flags (io s)) IO_DONE = vd v.
Proof. by intros [? ? <-]. Qed.

Lemma sn_flag g h o v b i j t s :
  snap h o v b i j t s -> bool_decide (g ∈ io_flags) = true -> has (flags (io s)) g = pick g v.
Proof. intros [? ? <-] Hg. apply view_pick. by apply bool_decide_eq_true in Hg. Qed.

Section snap.
Context {h o i j : Z} {v : fv} {b : option (list Z)} {t : track}.

Lemma snap_logged t' s s' :
  snap h o v b i j t s -> logged h t' s s' -> timer t' = NoTimer -> dropped t' = false -> snap h o v b i j t' s'.
Proof. intros [] ((E1 & E2 & E3) & ? & ?) ? ?. split; rewrite ?E1, ?E2; done. Qed.

Lemma wp_raise_flag g (Q : unit -> ctx3 -> Prop) s :
  snap h o v b i j t s -> bool_decide (g ∈ io_flags) = true ->
  (forall s', snap h o (put g true v) b i j t s' -> Q tt s') -> wp (raise_flag g) Q s.
Proof. intros [] Hg HQ. apply HQ. split; try done. cbn. rewrite view_raise by by apply bool_decide_eq_true in Hg. by f_equal. Qed.

Lemma wp_lower_flag g (Q : unit -> ctx3 -> Prop) s :
  snap h o v b i j t s -> bool_decide (g ∈ io_flags) = true ->
  (forall s', snap h o (put g false v) b i j t s' -> Q tt s') -> wp (lower_flag g) Q s.
Proof. intros [] Hg HQ. apply HQ. split; try done. cbn. rewrite view_lower by by apply bool_decide_eq_true in Hg. by f_equal. Qed.

Lemma wp_flag g (Q : bool -> ctx3 -> Prop) s :
  snap h o v b i j t s -> bool_decide (g ∈ io_flags) = true -> Q (pick g v) s -> wp (flag g) Q s.
Proof. intros [] Hg HQ. unfold wp, flag. cbn. rewrite view_pick by by apply bool_decide_eq_true in Hg. by rewrite sn_flags0. Qed.

Lemma wp_assert_flag g x (Q : unit -> ctx3 -> Prop) s :
  snap h o v b i j t s -> bool_decide (g ∈ io_flags) = true -> pick g v = x -> Q tt s -> wp (assert_flag g x) Q s.
Proof. intros Hs Hg Hx HQ. apply wp_bind. eapply wp_flag; [done..|]. rewrite Hx, eqb_reflx. done. Qed.

Lemma wp_set_buf f b' i' j' (Q : unit -> ctx3 -> Prop) s :
  snap h o v b i j t s -> f (io s) = set_buf b' i' j' (io s) ->
  (forall s', snap h o v b' i' j' t s' -> Q tt s') -> wp (update_io f) Q s.
Proof. intros [] Hf HQ. apply HQ. split; cbn; rewrite ?Hf; done. Qed.

Lemma wp_fail {A} e (a : A) (Q : A -> ctx3 -> Prop) s :
  snap h o v b i j t s -> (forall s', snap h o v b i j t s' -> Q a s') -> wp (fail_with e a) Q s.
Proof. intros [] HQ. apply HQ. by split. Qed.

Lemma wp_alloc (Q : bool -> ctx3 -> Prop) s :
  snap h o v b i j t s -> (forall x s', snap h o v b i j t s' -> Q x s') -> wp alloc_ok Q s.
Proof.
  intros Hs HQ. apply wp_alloc_ok. intros x s' Ht. apply HQ.
  destruct s as [? ? [? [|]] ?]; simpl in Ht; injection Ht as <- <-; destruct Hs; by split.
Qed.
End snap.

(** ** Operations on the stream *)

Lemma cancelled_status op st bytes :
  cancelled op st bytes ->
  st <> WAITABLE_STATUS_BLOCKED /\
  (WAITABLE_STATE st = WAITABLE_COMPLETED \/ WAITABLE_STATE st = WAITABLE_DROPPED \/ WAITABLE_STATE st = WAITABLE_CANCELLED) /\
  0 <= WAITABLE_COUNT st <= op_len op.
Proof.
  intros Hc. assert (Hs : WAITABLE_STATE st = WAITABLE_COMPLETED \/ WAITABLE_STATE st = WAITABLE_DROPPED \/ WAITABLE_STATE st = WAITABLE_CANCELLED).
  { destruct Hc as [(_ & [[? _]|?] & _)|(_ & ? & _)]; auto. }
  split_and!; [|done|..].
  - intros ->. vm_compute in Hs. naive_solver.
  - by destruct Hc as [([? _] & _)|([? _] & _)].
  - by destruct Hc as [([_ ?] & _)|([_ ?] & _)].
Qed.

Lemma ended_cancelled op st bytes : ended op st bytes -> cancelled op st bytes.
Proof. by left. Qed.

Lemma blocked_eqb op st bytes : cancelled op st bytes -> (st =? WAITABLE_STATUS_BLOCKED) = false.
Proof. intros [H' _]%cancelled_status. by apply Z.eqb_neq. Qed.

Section operations.
Context {h o i j : Z} {v : fv} {b : option (list Z)} {t : track}.

Lemma snap_called c a t' s s' :
  snap h o v b i j t s -> called c a s s' -> advance h t (Ev3 c a) = t' -> timer t' = NoTimer -> dropped t' = false ->
  snap h o v b i j t' s'.
Proof.
  intros Hs [O L T _] Ht ? ?. eapply snap_logged; [done|split_and!; [done|done|]|done|done].
  rewrite T, (sn_track _ _ _ _ _ _ _ _ Hs). done.
Qed.

Lemma wp_write data (Q : Z -> ctx3 -> Prop) s :
  snap h o v b i j t s -> inflight t = None -> closed t = false -> Z.of_nat (length data) < 2 ^ 28 ->
  (forall s', snap h o v b i j (start (OpWrite data) t) s' -> Q WAITABLE_STATUS_BLOCKED s') ->
  (forall st s', ended (OpWrite data) st [] -> snap h o v b i j (finish st [] (start (OpWrite data) t)) s' -> Q st s') ->
  wp (ask3 (stream_u8_write h data)) Q s.
Proof.
  intros Hs Hi Hc Hlen HB HE. pose proof Hs as [? ? ? ? ? ? Hl Ht ? ?]. apply wp_ask3; [done|by rewrite <- Ht in *|].
  intros st s' [Ha|Ha] Hcall; [subst st; apply HB|apply HE; [done|]];
    (eapply snap_called; [done..| | |]; [cbn [advance]; rewrite Z.eqb_refl; unfold begin|done|done]).
  - by rewrite Z.eqb_refl.
  - by rewrite (blocked_eqb _ _ _ (ended_cancelled _ _ _ Ha)).
Qed.

Lemma wp_read len (Q : Z * list Z -> ctx3 -> Prop) s :
  snap h o v b i j t s -> inflight t = None -> closed t = false -> 0 <= len < 2 ^ 28 ->
  (forall s', snap h o v b i j (start (OpRead len) t) s' -> Q (WAITABLE_STATUS_BLOCKED, []) s') ->
  (forall st bytes s', ended (OpRead len) st bytes -> snap h o v b i j (finish st bytes (start (OpRead len) t)) s' -> Q (st, bytes) s') ->
  wp (ask3 (stream_u8_read h len)) Q s.
Proof.
  intros Hs Hi Hc Hlen HB HE. pose proof Hs as [? ? ? ? ? ? Hl Ht ? ?]. apply wp_ask3; [done|by rewrite <- Ht in *|].
  intros [st bytes] s' [Ha|Ha] Hcall; [injection Ha as -> ->; apply HB|apply HE; [done|]];
    (eapply snap_called; [done..| | |]; [cbn [advance fst snd]; rewrite Z.eqb_refl; unfold begin|done|done]).
  - by rewrite Z.eqb_refl.
  - cbn [fst snd] in Ha. by rewrite (blocked_eqb _ _ _ (ended_cancelled _ _ _ Ha)).
Qed.

Lemma wp_cancel_write data (Q : Z -> ctx3 -> Prop) s :
  snap h o v b i j t s -> inflight t = Some (OpWrite data) ->
  (forall st s', cancelled (OpWrite data) st [] -> snap h o v b i j (finish st [] t) s' -> Q st s') ->
  wp (ask3 (stream_u8_cancel_write h)) Q s.
Proof.
  intros Hs Hi HE. pose proof Hs as [? ? ? ? ? ? Hl Ht ? ?].
  apply wp_ask3; [done|exists data; by rewrite Ht|]. intros st s' Ha Hcall. apply HE; [by apply Ha; rewrite Ht|].
  eapply snap_called; [done..| | |]; [cbn [advance]; by rewrite Z.eqb_refl|done|done].
Qed.

Lemma wp_cancel_read len (Q : Z * list Z -> ctx3 -> Prop) s :
  snap h o v b i j t s -> inflight t = Some (OpRead len) ->
  (forall st bytes s', cancelled (OpRead len) st bytes -> snap h o v b i j (finish st bytes t) s' -> Q (st, bytes) s') ->
  wp (ask3 (stream_u8_cancel_read h)) Q s.
Proof.
  intros Hs Hi HE. pose proof Hs as [? ? ? ? ? ? Hl Ht ? ?].
  apply wp_ask3; [done|exists len; by rewrite Ht|]. intros [st bytes] s' Ha Hcall. apply HE; [by apply Ha; rewrite Ht|].
  eapply snap_called; [done..| | |]; [cbn [advance fst snd]; by rewrite Z.eqb_refl|done|done].
Qed.

(** ** The flags after an operation has ended *)

Definition is_dropped (st : Z) : bool := WAITABLE_STATE st =? WAITABLE_DROPPED.
End operations.

Lemma wp_update_code {h o i j d z r m bl b t} op st bytes (Q : Z -> ctx3 -> Prop) s :
  snap h o (FV d true z r m bl) b i j t s -> cancelled op st bytes -> (z = true -> r = false) ->
  (forall s', snap h o (FV (d || is_dropped st) false false (z || r) m bl) b i j t s' -> Q (WAITABLE_COUNT st) s') ->
  wp (wasip3_io_update_code st) Q s.
Proof.
  intros Hs Hc Hzr HQ. unfold wasip3_io_update_code. rewrite (blocked_eqb _ _ _ Hc).
  apply wp_bind, wp_assert; [done|]. apply wp_bind.
  assert (Hd : forall s', snap h o (FV (d || is_dropped st) true z r m bl) b i j t s' ->
    wp (assert_flag IO_INPROGRESS true ;; lower_flag IO_INPROGRESS ;; z ← flag IO_ZERO_INPROGRESS;
      (if (z : bool) then lower_flag IO_ZERO_INPROGRESS ;; assert_flag IO_SHOULD_BE_READY false ;; raise_flag IO_SHOULD_BE_READY
       else mret tt) ;; mret (WAITABLE_COUNT st)) Q s').
  { intros s1 H1. apply wp_bind. eapply wp_assert_flag; [done..|].
    apply wp_bind. eapply wp_lower_flag; [done..|]. intros s2 H2.
    apply wp_bind. eapply wp_flag; [done..|]. apply wp_bind. simpl. destruct z.
    - apply wp_bind. eapply wp_lower_flag; [done..|]. intros s3 H3.
      apply wp_bind. eapply wp_assert_flag; [done|done|by apply Hzr|].
      eapply wp_raise_flag; [done..|]. intros s4 H4. apply wp_ret, HQ, H4.
    - apply wp_ret, wp_ret, HQ, H2. }
  unfold is_dropped in *. destruct (cancelled_status _ _ _ Hc) as (_ & [E|[E|E]] & _); rewrite E in *; simpl.
  - apply wp_ret, Hd. by rewrite orb_false_r in *.
  - eapply wp_raise_flag; [done..|]. intros s1 H1. apply Hd. by rewrite orb_true_r.
  - apply wp_ret, Hd. by rewrite orb_false_r in *.
Qed.

Lemma wp_await_event {h o i j d fi z r m b t} op blocking timeout (Q : option event_t -> ctx3 -> Prop) s :
  snap h o (FV d fi z r m false) b i j t s -> inflight t = Some op ->
  (forall e s', ends op h e -> snap h o (FV d fi z r m false) b i j (finish (code e) (landed e) t) s' -> Q (Some e) s') ->
  (blocking = false \/ timeout <> 0 -> forall s', snap h o (FV d fi z r m false) b i j t s' -> Q None s') ->
  wp (await_event blocking timeout) Q s.
Proof.
  intros Hs Hop HE HT. unfold await_event. apply wp_bind, wp_gets. rewrite (sn_stream _ _ _ _ _ _ _ _ Hs).
  destruct blocking.
  - apply wp_bind, wp_bind. eapply wp_assert_flag; [done..|]. eapply wp_raise_flag; [done..|]. intros s1 H1.
    pose proof H1 as [? ? ? ? ? ? Hl Ht ? ?]. subst t. apply wp_bind. eapply wp_block_on; [by split|..].
    + intros e s2 He Hlog. eapply snap_logged in H1; [|exact Hlog|done|done].
      apply wp_bind, wp_bind. eapply wp_assert_flag; [done..|]. eapply wp_lower_flag; [done..|]. intros s3 H3.
      apply wp_ret. by apply HE.
    + intros Hne e s2 Hlog. eapply snap_logged in H1; [|exact Hlog|done|done].
      apply wp_bind, wp_bind. eapply wp_assert_flag; [done..|]. eapply wp_lower_flag; [done..|]. intros s3 H3.
      eapply wp_fail; [done|]. intros s4 H4. apply HT; [by right|done].
  - pose proof Hs as [? ? ? ? ? ? Hl Ht ? ?]. subst t. apply wp_bind. eapply wp_poll_waitable; [by split|..].
    + intros e s2 He Hlog. eapply snap_logged in Hs; [|exact Hlog|done|done]. rewrite He.
      eapply wp_fail; [done|]. intros s4 H4. apply HT; [by left|done].
    + intros e s2 He Hlog. eapply snap_logged in Hs; [|exact Hlog|done|done].
      replace (event e =? EVENT_NONE) with false by (destruct He as (-> & _); by destruct op).
      apply wp_ret. by apply HE.
Qed.

Lemma wp_update_event {h o i j d z r m b t} op e (Q : Z -> ctx3 -> Prop) s :
  snap h o (FV d true z r m false) b i j t s -> ends op h e -> (z = true -> r = false) ->
  (forall s', snap h o (FV (d || is_dropped (code e)) false false (z || r) m false) b i j t s' -> Q (WAITABLE_COUNT (code e)) s') ->
  wp (wasip3_io_update_event e) Q s.
Proof.
  intros Hs (He & Hw & Hend) Hzr HQ. unfold wasip3_io_update_event. rewrite He.
  apply wp_bind, wp_assert; [by destruct op|]. apply wp_bind, wp_gets.
  rewrite (sn_stream _ _ _ _ _ _ _ _ Hs), Hw, Z.eqb_refl. apply wp_bind, wp_assert; [done|].
  eapply wp_update_code; [done|by apply ended_cancelled|done|done].
Qed.

(** ** Blocking operations *)

(** A cancellation that transferred nothing leaves no trace. *)
Lemma finish_cancelled op st bytes t :
  cancelled op st bytes -> inflight t = None -> WAITABLE_STATE st = WAITABLE_CANCELLED -> WAITABLE_COUNT st = 0 ->
  finish st bytes (start op t) = t.
Proof.
  intros Hc Hi Hs Hn. unfold finish. rewrite Hs, Hn. cbn. rewrite orb_false_r.
  assert (Hb : match op with OpRead _ => bytes = [] | OpWrite _ => True end).
  { destruct op; [done|]. apply nil_length_inv. destruct Hc as [(_ & _ & Hl)|(_ & _ & Hl)]; lia. }
  destruct t as [fl cl dr sn gt tm]. simpl in *. subst fl. destruct op; [by rewrite app_nil_r|by rewrite Hb, app_nil_r].
Qed.

(** [cancel] cancels the operation [op] in flight. *)
Definition cancels (h : Z) (op : op3) (cancel : M ctx3 (Z * list Z)) : Prop :=
  forall o v b i j t (Q : Z * list Z -> ctx3 -> Prop) s,
  snap h o v b i j t s -> inflight t = Some op ->
  (forall st bytes s', cancelled op st bytes -> snap h o v b i j (finish st bytes t) s' -> Q (st, bytes) s') ->
  wp cancel Q s.

Lemma cancels_write h data : cancels h (OpWrite data) (c ← ask3 (stream_u8_cancel_write h); mret (c, [])).
Proof. intros o v b i j t Q s Hs Hi HQ. apply wp_bind. eapply wp_cancel_write; [done..|]. intros. by apply wp_ret, HQ. Qed.

Lemma cancels_read h len : cancels h (OpRead len) (ask3 (stream_u8_cancel_read h)).
Proof. intros o v b i j t Q s Hs Hi HQ. by eapply wp_cancel_read. Qed.

Section blocking.
Context {h o i j : Z} {v : fv} {b : option (list Z)} {t : track}.

(** What the operation [op] answered, seen from the state before it. *)
Definition answered (op : op3) (status : Z) (bytes : list Z) (s : ctx3) : Prop :=
  status = WAITABLE_STATUS_BLOCKED /\ snap h o v b i j (start op t) s \/
  ended op status bytes /\ snap h o v b i j (finish status bytes (start op t)) s.

Lemma wp_stream_block_on op status bytes timeout cancel (Q : Z * bool * list Z -> ctx3 -> Prop) s :
  answered op status bytes s -> inflight t = None -> cancels h op cancel ->
  (forall st bytes s', cancelled op st bytes -> snap h o v b i j (finish st bytes (start op t)) s' ->
     Q (WAITABLE_COUNT st, is_dropped st, bytes) s') ->
  (forall s', snap h o v b i j t s' -> Q (-1, false, []) s') ->
  wp (__wasilibc_stream_block_on_timeout status bytes h timeout cancel) Q s.
Proof.
  intros Hans Hi Hcan HQ HT. unfold __wasilibc_stream_block_on_timeout. apply wp_bind.
  assert (Hend : forall st bytes s', cancelled op st bytes -> snap h o v b i j (finish st bytes (start op t)) s' ->
    wp (assert_ ((WAITABLE_STATE st =? WAITABLE_COMPLETED) || (WAITABLE_STATE st =? WAITABLE_DROPPED) || (WAITABLE_STATE st =? WAITABLE_CANCELLED)) ;;
        mret (WAITABLE_COUNT st, WAITABLE_STATE st =? WAITABLE_DROPPED, bytes)) Q s').
  { intros st bs s' Hc Hs. apply wp_bind, wp_assert; [|by apply wp_ret, HQ].
    destruct (cancelled_status _ _ _ Hc) as (_ & [E|[E|E]] & _); by rewrite E. }
  destruct Hans as [[-> Hs]|[He Hs]].
  - rewrite Z.eqb_refl. pose proof Hs as [? ? ? ? ? ? Hl Ht ? ?]. apply wp_bind.
    eapply (wp_block_on h timeout op); [by split_and!; rewrite ?Ht|..]; rewrite Ht.
    + intros e s1 (Ee & Ew & Hend') Hlog. eapply snap_logged in Hs; [|exact Hlog|done|done].
      cbv beta iota. cbn [negb]. apply wp_bind, wp_assert; [rewrite Ee; by destruct op|].
      apply wp_bind, wp_assert; [by rewrite Ew, Z.eqb_refl|]. apply wp_ret. apply Hend; [by apply ended_cancelled|done].
    + intros _ e s1 Hlog. eapply snap_logged in Hs; [|exact Hlog|done|done]. cbv beta iota. cbn [negb].
      apply wp_bind. eapply Hcan; [done|done|]. intros st bs s2 Hc H2. cbn [fst].
      destruct (Z.eqb_spec (WAITABLE_STATE st) WAITABLE_CANCELLED) as [E1|E1], (Z.eqb_spec (WAITABLE_COUNT st) 0) as [E2|E2];
        cbn [andb]; try (apply wp_ret; by apply Hend).
      rewrite (finish_cancelled _ _ _ _ Hc Hi E1 E2) in H2. eapply wp_fail; [done|]. intros s3 H3. by apply wp_ret, HT.
  - rewrite (blocked_eqb _ _ _ (ended_cancelled _ _ _ He)). apply wp_ret, Hend; [by apply ended_cancelled|done].
Qed.
End blocking.

Lemma wp_block_on_operation {h o i j fi z r m b t} op status bytes timeout cancel (Q : Z * list Z -> ctx3 -> Prop) s :
  @answered h o i j (FV false fi z r m true) b t op status bytes s -> inflight t = None -> cancels h op cancel ->
  (forall st bytes s', cancelled op st bytes ->
     snap h o (FV (is_dropped st) fi z r m false) b i j (finish st bytes (start op t)) s' -> Q (WAITABLE_COUNT st, bytes) s') ->
  (forall s', snap h o (FV false fi z r m false) b i j t s' -> Q (-1, []) s') ->
  wp (block_on_operation status bytes timeout cancel) Q s.
Proof.
  intros Hans Hi Hcan HQ HT. unfold block_on_operation. apply wp_bind, wp_gets.
  replace (stream (io s)) with h by (destruct Hans as [[_ []]|[_ []]]; done).
  apply wp_bind. eapply wp_stream_block_on; [done..|  |].
  - intros st bs s1 Hc H1. apply wp_bind, wp_bind. eapply wp_assert_flag; [done..|]. eapply wp_lower_flag; [done..|]. intros s2 H2.
    cbv beta iota. replace (WAITABLE_COUNT st <? 0) with false by (destruct (cancelled_status _ _ _ Hc) as (_ & _ & ?); lia).
    apply wp_bind. destruct (is_dropped st) eqn:E.
    + eapply wp_raise_flag; [done..|]. intros s3 H3. apply wp_ret, HQ; [done|]. by rewrite E.
    + apply wp_ret, wp_ret, HQ; [done|]. by rewrite E.
  - intros s1 H1. apply wp_bind, wp_bind. eapply wp_assert_flag; [done..|]. eapply wp_lower_flag; [done..|]. intros s2 H2.
    apply wp_ret. by apply HT.
Qed.

(** ** The internal buffer *)

Lemma wp_buf_slice {h o v b i j t} (Q : list Z -> ctx3 -> Prop) i' j' s :
  snap h o v (Some b) i j t s -> 0 <= i' <= j' -> j' <= Z.of_nat (length b) ->
  Q (take (Z.to_nat (j' - i')) (drop (Z.to_nat i') b)) s -> wp (buf_slice i' j') Q s.
Proof.
  intros Hs Hij Hj HQ. unfold buf_slice. apply wp_bind, wp_gets. apply wp_bind. eapply wp_deref; [by apply Hs|].
  replace (_ && _) with true by lia. apply wp_ret, HQ.
Qed.

Lemma wp_consume {h o v b i j t} n (Q : unit -> ctx3 -> Prop) s :
  snap h o v b i j t s -> 0 <= i + n < 2 ^ 32 -> (forall s', snap h o v b (i + n) j t s' -> Q tt s') -> wp (consume n) Q s.
Proof.
  intros Hs Hn HQ. eapply wp_set_buf; [done| |done].
  destruct Hs. simpl. unfold set_buf. rewrite u32_small by congruence. congruence.
Qed.

Lemma wp_release {h o v b i j t} (Q : unit -> ctx3 -> Prop) s :
  snap h o v b i j t s -> (forall s', snap h o v None 0 0 t s' -> Q tt s') -> wp release Q s.
Proof. intros Hs HQ. by eapply wp_set_buf. Qed.

Lemma is_dropped_finish st bytes t : closed t = false -> closed (finish st bytes t) = is_dropped st.
Proof. intros E. simpl. by rewrite E. Qed.

End rules.

Ltac ask_step := lazymatch goal with |- wp (ask3 ?c ≫= ?f) ?Q ?s => apply (wp_ask3_bind c f Q s) end.
