(* ===== verification/Stream3Spec.v ===== *)
(** * Streams of wasip3: invariants

    The invariant of a stream that is written to and of one that is read from,
    and that every call preserves it: the bytes reported as written are those
    the host has taken followed by those in the internal buffer, the bytes the
    host has delivered are those returned followed by those in the buffer. *)

From S2P Require Import Prelude Errno Wasip3 Stream3 Stream3Inv.

Section writes.
Context `{Host3Laws}.
Implicit Types s : ctx3.

(** ** Accounting of writes

    [acct t pending acked]: the bytes reported as written are those sent and
    those pending; when the other end is gone, those sent are the first of them. *)
Definition acct (t : track) (pending acked : list Z) : Prop :=
  acked = sent t ++ pending \/ (closed t = true /\ sent t `prefix_of` acked).

Lemma acct_finish t data st bytes acked :
  inflight t = Some (OpWrite data) -> acked = sent t ++ data ->
  acked = sent (finish st bytes t) ++ drop (Z.to_nat (WAITABLE_COUNT st)) data.
Proof. intros Hi ->. simpl. rewrite Hi. by rewrite <- app_assoc, take_drop. Qed.

Lemma acct_closed t pending acked : acct t pending acked -> closed t = true -> acct t [] acked.
Proof. intros [->|?] Hc; right; [split; [done|by eexists]|done]. Qed.

Section writer.
Context (h o : Z).

Definition w_idle (acked : list Z) (s : ctx3) : Prop := exists d r m t,
  snap h o (FV d false false r m false) None 0 0 t s /\ (m = true -> r = false) /\
  inflight t = None /\ closed t = d /\ acct t [] acked.

Definition w_zero (acked : list Z) (s : ctx3) : Prop := exists t,
  snap h o (FV false true true false false false) None 0 0 t s /\
  inflight t = Some (OpWrite []) /\ closed t = false /\ acked = sent t.

Definition w_pending (b : list Z) (i : Z) (acked : list Z) (s : ctx3) : Prop := exists t,
  snap h o (FV false true false false true false) (Some b) i (Z.of_nat (length b)) t s /\
  0 <= i < Z.of_nat (length b) /\ Z.of_nat (length b) < 2 ^ 28 /\
  inflight t = Some (OpWrite (drop (Z.to_nat i) b)) /\ closed t = false /\ acked = sent t ++ drop (Z.to_nat i) b.

(** The invariant of a stream that is written to. *)
Definition winv (acked : list Z) (s : ctx3) : Prop :=
  w_idle acked s \/ w_zero acked s \/ exists b i, w_pending b i acked s.

Lemma wp_advance_exit b acked (Q : bool -> ctx3 -> Prop) d i t s :
  snap h o (FV d false false false true false) (Some b) i (Z.of_nat (length b)) t s ->
  d = true \/ i = Z.of_nat (length b) ->
  inflight t = None -> closed t = d -> acct t (drop (Z.to_nat i) b) acked ->
  (forall s', w_idle acked s' -> Q true s') ->
  wp (assert_ (d || (i =? Z.of_nat (length b))) ;; release ;; mret true) Q s.
Proof.
  intros Hs Hd Hin Hc Ha HT. apply wp_bind, wp_assert; [destruct d; [done|]; simpl; lia|].
  apply wp_bind. eapply wp_release; [done|]. intros s1 H1. apply wp_ret, HT.
  exists d, false, true, t. split_and!; try done.
  destruct Hd as [->| ->]; [by eapply acct_closed|]. by rewrite drop_ge in Ha by lia.
Qed.

Lemma wp_advance_loop b acked (Q : bool -> ctx3 -> Prop) fuel d i t s :
  snap h o (FV d false false false true false) (Some b) i (Z.of_nat (length b)) t s ->
  0 <= i <= Z.of_nat (length b) -> Z.of_nat (length b) < 2 ^ 28 ->
  (d = false -> Z.to_nat (Z.of_nat (length b) - i) <= fuel)%nat ->
  inflight t = None -> closed t = d -> acct t (drop (Z.to_nat i) b) acked ->
  (forall s', w_idle acked s' -> Q true s') ->
  (forall s' i', d = false -> i <= i' -> w_pending b i' acked s' -> Q false s') ->
  wp (advance_loop fuel) Q s.
Proof.
  revert d i t s. induction fuel as [|fuel IH]; intros d i t s Hs Hi Hb Hf Hin Hc Ha HT HF;
    cbn [advance_loop]; apply wp_bind, wp_gets; rewrite (sn_done _ _ _ _ _ _ _ _ Hs), (sn_start _ _ _ _ _ _ _ _ Hs), (sn_end _ _ _ _ _ _ _ _ Hs); cbn [vd];
    (destruct (decide (d = true \/ i = Z.of_nat (length b))) as [Hd|Hd];
     [replace (negb d && _) with false by (destruct d; [done|]; simpl; lia); by eapply wp_advance_exit|]);
    destruct d; [naive_solver|lia|naive_solver|].
  replace (negb false && negb (i =? Z.of_nat (length b))) with true by (simpl; lia).
  destruct Ha as [Ha|[? _]]; [|congruence].
  apply wp_bind. eapply wp_buf_slice; [done|lia|lia|].
  rewrite take_ge by (rewrite length_drop; lia). rewrite (sn_stream _ _ _ _ _ _ _ _ Hs). apply wp_bind.
  eapply wp_write; [done|done|done|rewrite length_drop; lia|..].
  - intros s1 H1. apply wp_bind. eapply wp_raise_flag; [done..|]. intros s2 H2. rewrite Z.eqb_refl. apply wp_ret.
    eapply HF; [done| |exists (start (OpWrite (drop (Z.to_nat i) b)) t); split_and!; try done]; lia.
  - intros st s1 Hend H1. apply wp_bind. eapply wp_raise_flag; [done..|]. intros s2 H2.
    rewrite (blocked_eqb _ _ _ (ended_cancelled _ _ _ Hend)).
    pose proof Hend as ([Hn1 Hn2] & Hcase & _). simpl in Hn2, Hcase. rewrite length_drop in Hn2, Hcase.
    apply wp_bind. eapply wp_update_code; [done|by apply ended_cancelled|done|]. intros s3 H3.
    apply wp_bind. eapply wp_consume; [done|lia|]. intros s4 H4.
    eapply IH; [exact H4|lia|lia| |done|by rewrite is_dropped_finish| |done|].
    + unfold is_dropped. destruct Hcase as [[-> Hpos]|Est]; [|by rewrite Est]. intros _.
      specialize (Hf eq_refl). lia.
    + left. rewrite (acct_finish (start (OpWrite (drop (Z.to_nat i) b)) t) (drop (Z.to_nat i) b) st [] acked) by done.
      f_equal. rewrite drop_drop. f_equal. lia.
    + intros s' i' _ Hi'. apply HF; [done|lia].
Qed.

(** The end of a zero-length write. *)
Lemma wp_advance_zero acked e t (Q : bool -> ctx3 -> Prop) s :
  snap h o (FV false true true false false false) None 0 0 (finish (code e) (landed e) t) s ->
  ends (OpWrite []) h e -> inflight t = Some (OpWrite []) -> closed t = false -> acked = sent t ->
  (forall s', w_idle acked s' -> Q true s') ->
  wp (wasip3_advance_pending_write e) Q s.
Proof.
  intros Hs He Hi Hc Ha HT. unfold wasip3_advance_pending_write.
  apply wp_bind. eapply wp_update_event; [done|done|done|]. intros s1 H1.
  pose proof He as (_ & _ & [Hn1 Hn2] & _). simpl in Hn2.
  apply wp_bind. eapply wp_consume; [done|lia|]. intros s2 H2.
  replace (0 + WAITABLE_COUNT (code e)) with 0 in H2 by lia.
  apply wp_bind, wp_gets. cbv beta. generalize (Z.to_nat (buf_end (io s2) - buf_start (io s2))). intros fuel.
  assert (Hex : wp (assert_ (has (flags (io s2)) IO_DONE || (buf_start (io s2) =? buf_end (io s2))) ;; release ;; mret true) Q s2).
  { rewrite (sn_start _ _ _ _ _ _ _ _ H2), (sn_end _ _ _ _ _ _ _ _ H2), orb_true_r.
    apply wp_bind, wp_assert; [done|]. apply wp_bind. eapply wp_release; [done|]. intros s3 H3. apply wp_ret, HT.
    eexists _, _, _, _. split; [exact H3|]. split; [done|]. split; [done|]. split; [by rewrite is_dropped_finish|].
    left. simpl. by rewrite Hi, take_nil, !app_nil_r. }
  destruct fuel; cbn [advance_loop]; apply wp_bind, wp_gets;
    by rewrite (sn_start _ _ _ _ _ _ _ _ H2), (sn_end _ _ _ _ _ _ _ _ H2), andb_false_r in *.
Qed.

Lemma wp_advance_pending acked b i e t (Q : bool -> ctx3 -> Prop) s :
  snap h o (FV false true false false true false) (Some b) i (Z.of_nat (length b)) (finish (code e) (landed e) t) s ->
  ends (OpWrite (drop (Z.to_nat i) b)) h e -> inflight t = Some (OpWrite (drop (Z.to_nat i) b)) -> closed t = false ->
  acked = sent t ++ drop (Z.to_nat i) b -> 0 <= i < Z.of_nat (length b) -> Z.of_nat (length b) < 2 ^ 28 ->
  (forall s', w_idle acked s' -> Q true s') ->
  (forall s' i', i < i' -> w_pending b i' acked s' -> Q false s') ->
  wp (wasip3_advance_pending_write e) Q s.
Proof.
  intros Hs He Hi Hc Ha Hb Hlen HT HF. unfold wasip3_advance_pending_write.
  apply wp_bind. eapply wp_update_event; [done|done|done|]. intros s1 H1.
  pose proof He as (_ & _ & [Hn1 Hn2] & Hcase & _). simpl in Hn2, Hcase. rewrite length_drop in Hn2, Hcase.
  apply wp_bind. eapply wp_consume; [done|lia|]. intros s2 H2.
  apply wp_bind, wp_gets. rewrite (sn_start _ _ _ _ _ _ _ _ H2), (sn_end _ _ _ _ _ _ _ _ H2).
  eapply wp_advance_loop; [exact H2|lia|lia|lia|done|by rewrite is_dropped_finish| |done|].
  - left. rewrite (acct_finish t (drop (Z.to_nat i) b) (code e) (landed e) acked) by done.
    f_equal. rewrite drop_drop. f_equal. lia.
  - intros s' i' Hd Hi' Hp. eapply HF; [|exact Hp]. unfold is_dropped in Hd.
    destruct Hcase as [[? ?]|Est]; [lia|by rewrite Est in Hd].
Qed.

(** Waiting for the writes in flight: the stream is idle, or, when the call
    must not block or has a timeout, still busy. *)
Lemma wp_resolve_loop acked blocking timeout fuel b i (Q : Z -> ctx3 -> Prop) s :
  w_pending b i acked s -> (Z.to_nat (Z.of_nat (length b) - i) <= fuel)%nat ->
  (forall s', w_idle acked s' -> Q 0 s') ->
  (blocking = false \/ timeout <> 0 -> forall s', winv acked s' -> Q (-1) s') ->
  wp (resolve_loop fuel blocking timeout) Q s.
Proof.
  revert i s. induction fuel as [|fuel IH]; intros i s (t & Hs & Hi & Hb & Hin & Hc & Ha) Hf HT HF; [lia|].
  cbn [resolve_loop]. apply wp_bind. eapply wp_await_event; [done|done|..].
  - intros e s1 He H1. apply wp_bind. eapply wp_advance_pending; [done..| |].
    { intros s2 H2. by apply wp_ret, HT. }
    intros s2 i' Hi' Hp. destruct blocking; cbn [negb].
    + eapply IH; [exact Hp|lia|done|done].
    + pose proof Hp as (t2 & H2 & Hrest). apply wp_bind. eapply wp_assert_flag; [done..|].
      eapply wp_fail; [done|]. intros s3 H3. apply HF; [by left|]. right; right. exists b, i', t2. by split.
  - intros Hbt s1 H1. apply wp_ret, HF; [done|]. right; right. exists b, i, t. split_and!; done || lia.
Qed.

Lemma wp_resolve_pending acked blocking timeout (Q : Z -> ctx3 -> Prop) s :
  winv acked s ->
  (forall s', w_idle acked s' -> Q 0 s') ->
  (blocking = false \/ timeout <> 0 -> forall s', winv acked s' -> Q (-1) s') ->
  wp (wasip3_write_resolve_pending blocking timeout) Q s.
Proof.
  intros Hw HT HF. unfold wasip3_write_resolve_pending. destruct Hw as [Hw|[Hw|(b & i & Hw)]].
  - pose proof Hw as (d & r & m & t & Hs & _). apply wp_bind. eapply wp_assert_flag; [done..|].
    apply wp_bind. eapply wp_flag; [done..|]. apply wp_ret, HT, Hw.
  - pose proof Hw as (t & Hs & Hin & Hc & Ha). apply wp_bind. eapply wp_assert_flag; [done..|].
    apply wp_bind. eapply wp_flag; [done..|]. cbn [negb pick vi]. apply wp_bind, wp_gets. apply wp_bind.
    apply wp_assert.
    { rewrite (sn_flag IO_ZERO_INPROGRESS _ _ _ _ _ _ _ _ Hs) by done. by rewrite orb_true_r. }
    apply wp_bind, wp_gets. rewrite (sn_start _ _ _ _ _ _ _ _ Hs), (sn_end _ _ _ _ _ _ _ _ Hs). cbn [Z.sub Z.to_nat resolve_loop].
    apply wp_bind. eapply wp_await_event; [done|done|..].
    + intros e s1 He H1. apply wp_bind. eapply wp_advance_zero; [done..|]. intros s2 H2. by apply wp_ret, HT.
    + intros Hbt s1 H1. apply wp_ret, HF; [done|]. right; left. by exists t.
  - pose proof Hw as (t & Hs & Hi & _). apply wp_bind. eapply wp_assert_flag; [done..|].
    apply wp_bind. eapply wp_flag; [done..|]. cbn [negb pick vi]. apply wp_bind, wp_gets. apply wp_bind.
    apply wp_assert; [by rewrite (sn_buf _ _ _ _ _ _ _ _ Hs)|].
    apply wp_bind, wp_gets. rewrite (sn_start _ _ _ _ _ _ _ _ Hs), (sn_end _ _ _ _ _ _ _ _ Hs).
    by eapply wp_resolve_loop.
Qed.

(** What a write of [buffer] that returns [r] leaves behind. *)
Definition wrote (acked buffer : list Z) (r : Z) (s : ctx3) : Prop :=
  -1 <= r <= Z.of_nat (length buffer) /\ winv (acked ++ take (Z.to_nat r) buffer) s.

Lemma wrote_none acked buffer r s : -1 <= r <= 0 -> winv acked s -> wrote acked buffer r s.
Proof. intros Hr Hw. split; [lia|]. replace (Z.to_nat r) with 0%nat by lia. by rewrite take_0, app_nil_r. Qed.

(** The write of [buffer] has ended. *)
Lemma wrote_some acked buffer st bytes r m t s :
  cancelled (OpWrite buffer) st bytes -> closed t = false -> acked = sent t -> (m = true -> r = false) ->
  snap h o (FV (is_dropped st) false false r m false) None 0 0 (finish st bytes (start (OpWrite buffer) t)) s ->
  wrote acked buffer (WAITABLE_COUNT st) s.
Proof.
  intros Hc Hcl -> Hmr Hs. destruct (cancelled_status _ _ _ Hc) as (_ & _ & Hn). split; [simpl in Hn; lia|].
  left. exists (is_dropped st), r, m, (finish st bytes (start (OpWrite buffer) t)).
  split_and!; [done|done|done|by rewrite is_dropped_finish|]. left. simpl. by rewrite app_nil_r.
Qed.

Lemma wp_blocking_write acked buffer timeout r m t (Q : Z -> ctx3 -> Prop) s :
  snap h o (FV false false false r m false) None 0 0 t s -> inflight t = None -> closed t = false -> acked = sent t ->
  (m = true -> r = false) -> Z.of_nat (length buffer) < 2 ^ 28 ->
  (forall r s', wrote acked buffer r s' -> Q r s') -> wp (blocking_write timeout buffer) Q s.
Proof.
  intros Hs Hi Hc Ha Hmr Hlen HQ. unfold blocking_write.
  apply wp_bind. eapply wp_lower_flag; [done..|]. intros s1 H1.
  apply wp_bind, wp_bind. eapply wp_assert_flag; [done..|]. eapply wp_raise_flag; [done..|]. intros s2 H2.
  apply wp_bind, wp_gets. rewrite (sn_stream _ _ _ _ _ _ _ _ H2). apply wp_bind.
  assert (Hgo : forall status s3, @answered h o 0 0 (FV false false false false m true) None t (OpWrite buffer) status [] s3 ->
    wp (r ← block_on_operation status [] timeout (c ← ask3 (stream_u8_cancel_write h); mret (c, [])); mret r.1) Q s3).
  { intros status s3 Hans. apply wp_bind. eapply wp_block_on_operation; [done|done|apply cancels_write|..].
    - intros st bs s4 Hcan H4. apply wp_ret, HQ. by apply (wrote_some acked buffer st bs false m t).
    - intros s4 H4. apply wp_ret, HQ, wrote_none; [simpl; lia|]. left. exists false, false, m, t.
      split_and!; try done. left. by rewrite app_nil_r. }
  eapply wp_write; [done..| |].
  - intros s3 H3. apply Hgo. by left.
  - intros st s3 He H3. apply Hgo. by right.
Qed.

(** A zero-length write as a test of readiness. *)
Lemma wp_start_zero_write acked t (Q : bool -> ctx3 -> Prop) s :
  snap h o (FV false false false false false false) None 0 0 t s -> inflight t = None -> closed t = false -> acked = sent t ->
  (forall s', w_zero acked s' -> Q true s') ->
  (forall d t' s', snap h o (FV d false false true false false) None 0 0 t' s' ->
     inflight t' = None -> closed t' = d -> acked = sent t' -> Q false s') ->
  wp wasip3_write_start_zero_length Q s.
Proof.
  intros Hs Hi Hc Ha HT HF. unfold wasip3_write_start_zero_length, wasip3_start_zero_length.
  apply wp_bind, wp_gets. rewrite (sn_stream _ _ _ _ _ _ _ _ Hs). apply wp_bind.
  eapply wp_write; [done..| |].
  - intros s1 H1. do 4 (apply wp_bind; eapply wp_assert_flag; [done..|]).
    apply wp_bind. eapply wp_raise_flag; [done..|]. intros s2 H2.
    apply wp_bind. eapply wp_raise_flag; [done..|]. intros s3 H3.
    rewrite Z.eqb_refl. apply wp_ret, HT. by exists (start (OpWrite []) t).
  - intros st s1 He H1. do 4 (apply wp_bind; eapply wp_assert_flag; [done..|]).
    apply wp_bind. eapply wp_raise_flag; [done..|]. intros s2 H2.
    apply wp_bind. eapply wp_raise_flag; [done..|]. intros s3 H3.
    rewrite (blocked_eqb _ _ _ (ended_cancelled _ _ _ He)).
    apply wp_bind. eapply wp_update_code; [done|by apply ended_cancelled|done|]. intros s4 H4.
    apply wp_ret. eapply HF; [exact H4|done|by rewrite is_dropped_finish|]. simpl. by rewrite take_nil, app_nil_r.
Qed.

(** An idle stream that has to buffer when [m] is set. *)
Definition w_free (r m : bool) (acked : list Z) (s : ctx3) : Prop := exists t,
  snap h o (FV false false false r m false) None 0 0 t s /\ inflight t = None /\ closed t = false /\ acked = sent t.

Lemma w_free_winv r m acked s : w_free r m acked s -> (m = true -> r = false) -> winv acked s.
Proof.
  intros (t & Hs & Hi & Hc & ->) Hmr. left. exists false, r, m, t. split_and!; try done. left. by rewrite app_nil_r.
Qed.

(** The operation of an attempt has ended, and the code looks at its status. *)
Lemma wp_attempt_end acked buffer st m t (Q : option Z -> ctx3 -> Prop) s :
  snap h o (FV false true false false m false) None 0 0 (finish st [] (start (OpWrite buffer) t)) s ->
  cancelled (OpWrite buffer) st [] -> closed t = false -> acked = sent t ->
  (forall v s', wrote acked buffer v s' -> Q (Some v) s') ->
  (WAITABLE_COUNT st = 0 -> is_dropped st = false -> forall s', w_free false m acked s' -> Q None s') ->
  wp (amount ← wasip3_io_update_code st; done ← flag IO_DONE;
      mret (if 0 <? amount then Some amount else if (done : bool) then Some 0 else None)) Q s.
Proof.
  intros Hs Hcan Hc Ha HS HN. apply wp_bind. eapply wp_update_code; [done|done|done|]. intros s1 H1.
  apply wp_bind. eapply wp_flag; [done..|]. cbn [orb pick vd] in *. apply wp_ret.
  destruct (cancelled_status _ _ _ Hcan) as (_ & _ & Hn).
  pose proof (wrote_some acked buffer st [] false m t s1 Hcan Hc Ha (fun _ => eq_refl) H1) as Hw.
  destruct (Z.ltb_spec 0 (WAITABLE_COUNT st)); [by apply HS|].
  assert (E0 : WAITABLE_COUNT st = 0) by lia. change (pick IO_DONE _) with (is_dropped st).
  destruct (is_dropped st) eqn:E; [apply HS; by rewrite E0 in Hw|].
  apply HN; [done|done|]. exists (finish st [] (start (OpWrite buffer) t)). split_and!; [done|done|by rewrite is_dropped_finish|].
  simpl. by rewrite E0, Ha, app_nil_r.
Qed.

Lemma wp_write_attempt acked buffer should (Q : option Z -> ctx3 -> Prop) s :
  w_free false false acked s -> 0 < Z.of_nat (length buffer) < 2 ^ 28 ->
  (forall v s', wrote acked buffer v s' -> Q (Some v) s') ->
  (forall s', w_free false should acked s' -> Q None s') ->
  wp (write_attempt should buffer) Q s.
Proof.
  intros (t & Hs & Hi & Hc & Ha) Hlen HS HN. unfold write_attempt.
  apply wp_bind, wp_gets. rewrite (sn_stream _ _ _ _ _ _ _ _ Hs). apply wp_bind.
  eapply wp_write; [done..|lia| |].
  - intros s1 H1. apply wp_bind. eapply wp_raise_flag; [done..|]. intros s2 H2. rewrite Z.eqb_refl.
    apply wp_bind, wp_bind.
    assert (Hgo : forall s3, snap h o (FV false true false false should false) None 0 0 (start (OpWrite buffer) t) s3 ->
      wp (ask3 (stream_u8_cancel_write h)) (fun st s' => wp (amount ← wasip3_io_update_code st; done ← flag IO_DONE;
        mret (if 0 <? amount then Some amount else if (done : bool) then Some 0 else None)) Q s') s3).
    { intros s3 H3. eapply wp_cancel_write; [done|done|]. intros st s4 Hcan H4. eapply wp_attempt_end; eauto. }
    destruct should; [eapply wp_raise_flag; [done..|]; intros s3 H3|apply wp_ret]; by apply Hgo.
  - intros st s1 He H1. apply wp_bind. eapply wp_raise_flag; [done..|]. intros s2 H2.
    rewrite (blocked_eqb _ _ _ (ended_cancelled _ _ _ He)). apply wp_bind, wp_ret.
    eapply wp_attempt_end; [done|by apply ended_cancelled|done|done|done|]. intros E0 E1.
    destruct He as (_ & [[_ Hpos]|Ed] & _); [specialize (Hpos ltac:(simpl; lia)); lia|].
    unfold is_dropped in E1. by rewrite Ed in E1.
Qed.

Lemma wp_write_nonblocking acked buffer fuel r m (Q : option Z -> ctx3 -> Prop) s :
  w_free r m acked s -> (m = true -> r = false) -> fuel <> 0%nat \/ r = true \/ m = true ->
  0 < Z.of_nat (length buffer) < 2 ^ 28 ->
  (forall v s', wrote acked buffer v s' -> Q (Some v) s') ->
  (forall s', w_free false true acked s' -> Q None s') ->
  wp (write_nonblocking_loop fuel buffer) Q s.
Proof.
  revert r m s. induction fuel as [|fuel IH]; intros r m s (t & Hs & Hi & Hc & Ha) Hmr Hfuel Hlen HS HN; cbn [write_nonblocking_loop];
    (apply wp_bind; eapply wp_flag; [done..|]; apply wp_bind; eapply wp_lower_flag; [done..|]; intros s1 H1;
     apply wp_bind; eapply wp_flag; [done..|]; cbn [pick vr vm]; apply wp_bind).
  all: destruct m; [apply wp_ret, wp_bind; eapply wp_flag; [done..|]; apply wp_ret, HN; by exists t|].
  all: eapply wp_write_attempt; [by exists t|done|intros v s2 H2; by apply wp_ret, HS|].
  all: intros s2 (t2 & H2 & Hi2 & Hc2 & Ha2); apply wp_bind; eapply wp_flag; [done..|].
  all: change (pick IO_MUST_BUFFER _) with (pick IO_SHOULD_BE_READY (FV false false false r false false)).
  all: destruct r; [apply wp_ret, HN; by exists t2|]; cbn.
  - naive_solver.
  - apply wp_bind. eapply wp_start_zero_write; [exact H2|done..| |].
    + intros s3 H3. pose proof H3 as (t3 & H3' & Hrest). eapply wp_fail; [exact H3'|]. intros s4 H4.
      apply HS, wrote_none; [lia|]. right; left. exists t3. split; [exact H4|exact Hrest].
    + intros d t3 s3 H3 Hi3 Hc3 Ha3. apply wp_bind. eapply wp_flag; [done..|]. change (pick IO_DONE _) with d. destruct d.
      * apply wp_ret, HS, wrote_none; [lia|]. left. exists true, true, false, t3. split_and!; try done.
        left. by rewrite app_nil_r.
      * apply wp_bind. eapply wp_assert_flag; [done..|]. eapply (IH true false); [by exists t3|done|naive_solver|done..].
Qed.

Lemma wp_write_buffered acked buffer (Q : Z -> ctx3 -> Prop) s :
  w_free false true acked s -> 0 < Z.of_nat (length buffer) < 2 ^ 28 ->
  (forall r s', wrote acked buffer r s' -> Q r s') -> wp (write_buffered buffer) Q s.
Proof.
  intros (t & Hs & Hi & Hc & Ha) Hlen HQ. unfold write_buffered.
  do 5 (apply wp_bind; eapply wp_assert_flag; [done..|]).
  apply wp_bind, wp_gets. rewrite (sn_buf _ _ _ _ _ _ _ _ Hs), (sn_stream _ _ _ _ _ _ _ _ Hs). apply wp_bind, wp_assert; [done|].
  apply wp_bind. eapply wp_alloc; [done|]. intros [] s1 H1; cbn [negb].
  2:{ eapply wp_fail; [done|]. intros s2 H2. apply HQ, wrote_none; [lia|]. eapply w_free_winv; [by exists t|done]. }
  apply wp_bind. eapply wp_set_buf; [done..|]. intros s2 H2. apply wp_bind. eapply wp_write; [done..|lia| |].
  - intros s3 H3. apply wp_bind. eapply wp_raise_flag; [done..|]. intros s4 H4. rewrite Z.eqb_refl. apply wp_ret, HQ.
    split; [lia|]. rewrite Nat2Z.id, take_ge by done. right; right. exists buffer, 0, (start (OpWrite buffer) t).
    split; [exact H4|]. split; [lia|]. split; [lia|]. split; [done|]. split; [done|]. by rewrite Ha.
  - intros st s3 He H3. apply wp_bind. eapply wp_raise_flag; [done..|]. intros s4 H4.
    rewrite (blocked_eqb _ _ _ (ended_cancelled _ _ _ He)). apply wp_bind. eapply wp_release; [done|]. intros s5 H5.
    eapply wp_update_code; [done|by apply ended_cancelled|done|]. intros s6 H6.
    apply HQ, (wrote_some acked buffer st [] false true t); try done. by apply ended_cancelled.
Qed.

Lemma wp_write_update acked w buffer (Q : Z -> ctx3 -> Prop) s :
  winv acked s -> Z.of_nat (length buffer) < 2 ^ 28 -> h <> 0 ->
  (forall r s', wrote acked buffer r s' -> Q r s') -> wp (__wasilibc_write_without_offset_update w buffer) Q s.
Proof.
  intros Hw Hlen Hh HQ. unfold __wasilibc_write_without_offset_update.
  assert (Hsnap : exists d i z r m b i0 j0 t, snap h o (FV d i z r m false) b i0 j0 t s).
  { destruct Hw as [(? & ? & ? & ? & ? & _)|[(? & ? & _)|(? & ? & ? & ? & _)]]; by eexists _, _, _, _, _, _, _, _, _. }
  destruct Hsnap as (d & fi & z & r & m & b & i0 & j0 & t & Hs).
  apply wp_bind, wp_bind. eapply wp_flag; [done..|]. apply wp_ret. cbn [pick vb]. change (0 <? 0) with false. cbv iota.
  apply wp_bind, wp_gets. rewrite (sn_stream _ _ _ _ _ _ _ _ Hs), (proj2 (Z.eqb_neq h 0)) by done.
  apply wp_bind. eapply wp_resolve_pending; [exact Hw| |].
  2:{ intros _ s1 H1. apply wp_ret, HQ, wrote_none; [lia|done]. }
  intros s1 (d1 & r1 & m1 & t1 & H1 & Hmr & Hi1 & Hc1 & Ha1). change (0 <? 0) with false. cbv iota.
  do 2 (apply wp_bind; eapply wp_assert_flag; [done..|]).
  assert (Hw1 : winv acked s1) by (left; by exists d1, r1, m1, t1).
  destruct (Z.eqb_spec (Z.of_nat (length buffer)) 0) as [E|E]; [apply wp_ret, HQ, wrote_none; [lia|done]|].
  apply wp_bind. eapply wp_flag; [done..|]. change (pick IO_DONE _) with d1.
  destruct d1; [apply wp_ret, HQ, wrote_none; [lia|done]|].
  assert (Hfree : w_free r1 m1 acked s1).
  { exists t1. split_and!; try done. destruct Ha1 as [Ha1|[? _]]; [by rewrite app_nil_r in Ha1|congruence]. }
  destruct (rw_blocking w).
  - destruct Hfree as (t2 & ? & ? & ? & ?). by eapply wp_blocking_write.
  - apply wp_bind. eapply wp_write_nonblocking; [done|done|by left|lia|..].
    + intros v s2 H2. by apply wp_ret, HQ.
    + intros s2 H2. eapply wp_write_buffered; [done|lia|done].
Qed.

(** Closing waits for the bytes that were reported as written. *)
Lemma wp_write_close acked (Q : unit -> ctx3 -> Prop) s :
  winv acked s -> h <> 0 ->
  (forall s' t, io s' = io_zero -> legal (log s') -> track_of (log s') h = drop_end t ->
     inflight t = None -> acct t [] acked -> Q tt s') ->
  wp wasip3_write_state_close Q s.
Proof.
  intros Hw Hh HQ. unfold wasip3_write_state_close.
  assert (Hdrop : forall v b i j t s', snap h o v b i j t s' -> inflight t = None -> acct t [] acked ->
    wp ((if negb (h =? 0) then ask3 (stream_u8_drop_writable h) else mret tt) ;; update_io (fun _ => io_zero)) Q s').
  { intros v b i j t s' Hs Hi Ha. rewrite (proj2 (Z.eqb_neq h 0)) by done. pose proof Hs as [? ? ? ? ? ? Hl Ht ? ?].
    cbn [negb]. ask_step; [done|by split; rewrite Ht|]. intros [] s1 _ [_ L T _]. apply wp_modify.
    apply (HQ _ t); try done. simpl. rewrite T. simpl. by rewrite Z.eqb_refl, Ht. }
  assert (Hidle : forall s', w_idle acked s' -> wp (
    s ← gets io;
    (if has (flags s) IO_INPROGRESS then ask3 (stream_u8_cancel_write (stream s)) ;; mret tt else mret tt) ;;
    (if negb (stream s =? 0) then ask3 (stream_u8_drop_writable (stream s)) else mret tt) ;;
    update_io (fun _ => io_zero)) Q s').
  { intros s' (d & r & m & t & Hs & _ & Hi & _ & Ha). apply wp_bind, wp_gets.
    rewrite (sn_flag IO_INPROGRESS _ _ _ _ _ _ _ _ Hs), (sn_stream _ _ _ _ _ _ _ _ Hs) by done.
    apply wp_bind, wp_ret. by eapply Hdrop. }
  apply wp_bind, wp_gets. apply wp_bind. destruct Hw as [Hw|[Hw|(b & i & Hw)]].
  - pose proof Hw as (d & r & m & t & Hs & _). rewrite (sn_flag IO_INPROGRESS _ _ _ _ _ _ _ _ Hs) by done.
    by apply wp_ret, Hidle.
  - destruct Hw as (t & Hs & Hi & Hc & Ha).
    rewrite (sn_flag IO_INPROGRESS _ _ _ _ _ _ _ _ Hs), (sn_flag IO_ZERO_INPROGRESS _ _ _ _ _ _ _ _ Hs) by done.
    apply wp_ret, wp_bind, wp_gets.
    rewrite (sn_flag IO_INPROGRESS _ _ _ _ _ _ _ _ Hs), (sn_stream _ _ _ _ _ _ _ _ Hs) by done.
    apply wp_bind, wp_bind. eapply wp_cancel_write; [done..|]. intros st s1 _ H1. apply wp_ret. eapply Hdrop; [exact H1|done|].
    left. simpl. by rewrite Hi, take_nil, !app_nil_r.
  - pose proof Hw as (t & Hs & _).
    rewrite (sn_flag IO_INPROGRESS _ _ _ _ _ _ _ _ Hs), (sn_flag IO_ZERO_INPROGRESS _ _ _ _ _ _ _ _ Hs) by done.
    apply wp_bind. eapply wp_resolve_pending; [by right; right; exists b, i| |by intros [?|?]].
    intros s1 H1. pose proof H1 as (d & r & m & t1 & H1' & _). apply wp_bind, wp_assert; [done|].
    eapply wp_assert_flag; [done..|]. by apply Hidle.
Qed.
End writer.
End writes.

(** ** Reads *)

(** The bytes from [i] to [j]. *)
Definition slice (i j : Z) (b : list Z) : list Z := take (Z.to_nat (j - i)) (drop (Z.to_nat i) b).

Lemma slice_split i k j b : 0 <= i <= k -> k <= j -> slice i j b = slice i k b ++ slice k j b.
Proof.
  intros. unfold slice. replace (Z.to_nat k) with (Z.to_nat i + Z.to_nat (k - i))%nat by lia.
  rewrite <- drop_drop. rewrite <- (take_drop (Z.to_nat (k - i)) (take (Z.to_nat (j - i)) _)).
  rewrite take_take, Nat.min_l by lia. f_equal. rewrite skipn_firstn_comm. f_equal. lia.
Qed.

Lemma slice_nil i b : slice i i b = [].
Proof. unfold slice. by rewrite Z.sub_diag. Qed.

Lemma slice_landed bytes b : slice 0 (Z.of_nat (length bytes)) (bytes ++ drop (length bytes) b) = bytes.
Proof. unfold slice. rewrite Z.sub_0_r, Nat2Z.id, drop_0. apply take_app_length. Qed.

Section reads.
Context `{Host3Laws}.
Implicit Types s : ctx3.
Section reader.
Context (h o : Z).

Definition r_idle (out : list Z) (s : ctx3) : Prop := exists d r m t,
  snap h o (FV d false false r m false) None 0 0 t s /\ (m = true -> r = false) /\
  inflight t = None /\ closed t = d /\ got t = out.

Definition r_zero (out : list Z) (s : ctx3) : Prop := exists t,
  snap h o (FV false true true false false false) None 0 0 t s /\
  inflight t = Some (OpRead 0) /\ closed t = false /\ got t = out.

(** The internal buffer holds bytes that were not asked for yet. *)
Definition r_ready (out : list Z) (s : ctx3) : Prop := exists d b i j t,
  snap h o (FV d false false false true false) (Some b) i j t s /\
  0 <= i <= j /\ j <= Z.of_nat (length b) < 2 ^ 28 /\ inflight t = None /\ closed t = d /\ got t = out ++ slice i j b.

(** A read into the internal buffer is in flight. *)
Definition r_pending (out : list Z) (s : ctx3) : Prop := exists b t,
  snap h o (FV false true false false true false) (Some b) 0 0 t s /\
  0 < Z.of_nat (length b) < 2 ^ 28 /\ inflight t = Some (OpRead (Z.of_nat (length b))) /\ closed t = false /\ got t = out.

(** The invariant of a stream that is read from. *)
Definition rinv (out : list Z) (s : ctx3) : Prop :=
  r_idle out s \/ r_zero out s \/ r_ready out s \/ r_pending out s.

(** What a read of at most [len] bytes that returns [r] leaves behind. *)
Definition did_read (out : list Z) (len : Z) (r : Z * list Z) (s : ctx3) : Prop :=
  -1 <= r.1 <= len /\ length r.2 = Z.to_nat r.1 /\ rinv (out ++ r.2) s.

Lemma did_read_none out len r s : -1 <= r <= 0 -> 0 <= len -> rinv out s -> did_read out len (r, []) s.
Proof. intros. split_and!; cbn; [lia|lia|lia|by rewrite app_nil_r]. Qed.

Lemma wp_land_bytes {v b i j t} bytes (Q : unit -> ctx3 -> Prop) s :
  snap h o v b i j t s ->
  (forall s', snap h o v (option_map (fun b => bytes ++ drop (length bytes) b) b) i j t s' -> Q tt s') -> wp (land_bytes bytes) Q s.
Proof. intros Hs HQ. eapply wp_set_buf; [done| |done]. by destruct Hs; subst. Qed.

Lemma wp_set_end {v b i j t} n (Q : unit -> ctx3 -> Prop) s :
  snap h o v b i j t s -> (forall s', snap h o v b i n t s' -> Q tt s') ->
  wp (update_io (fun st => set_buf (buf st) (buf_start st) n st)) Q s.
Proof. intros Hs HQ. eapply wp_set_buf; [done| |done]. by destruct Hs; subst. Qed.

Lemma wp_complete_internally out len (Q : Z * list Z -> ctx3 -> Prop) s :
  r_ready out s -> 0 <= len -> (forall r s', did_read out len r s' -> Q r s') -> wp (wasip3_read_complete_internally len) Q s.
Proof.
  intros (d & b & i & j & t & Hs & Hij & Hb & Hi & Hc & Hg) Hlen HQ. unfold wasip3_read_complete_internally.
  apply wp_bind, wp_gets. rewrite (sn_start _ _ _ _ _ _ _ _ Hs), (sn_end _ _ _ _ _ _ _ _ Hs), u32_small by lia.
  set (amount := if j - i <? len then j - i else len).
  assert (Ham : 0 <= amount <= j - i /\ amount <= len) by (unfold amount; destruct (Z.ltb_spec (j - i) len); lia).
  apply wp_bind. eapply wp_buf_slice; [done|lia|lia|]. apply wp_bind. eapply wp_consume; [done|lia|]. intros s1 H1.
  fold (slice i (i + amount) b).
  assert (Hg' : got t = (out ++ slice i (i + amount) b) ++ slice (i + amount) j b).
  { rewrite Hg, (slice_split i (i + amount) j) by lia. apply app_assoc. }
  assert (Hl : length (slice i (i + amount) b) = Z.to_nat amount).
  { unfold slice. rewrite length_take, length_drop. lia. }
  apply wp_bind, wp_gets. rewrite (sn_start _ _ _ _ _ _ _ _ H1), (sn_end _ _ _ _ _ _ _ _ H1). apply wp_bind.
  destruct (Z.eqb_spec (i + amount) j) as [E|E].
  - eapply wp_release; [done|]. intros s2 H2. apply wp_ret, HQ. split_and!; cbn; [lia|lia|done|].
    left. exists d, false, true, t. split_and!; try done. by rewrite Hg', E, slice_nil, app_nil_r.
  - apply wp_ret, wp_ret, HQ. split_and!; cbn; [lia|lia|done|]. right; right; left.
    exists d, b, (i + amount), j, t. split_and!; done || lia.
Qed.

(** The read of [len] bytes has ended. *)
Lemma did_read_some out len st bytes r m t s :
  cancelled (OpRead len) st bytes -> closed t = false -> got t = out -> (m = true -> r = false) ->
  snap h o (FV (is_dropped st) false false r m false) None 0 0 (finish st bytes (start (OpRead len) t)) s ->
  did_read out len (WAITABLE_COUNT st, bytes) s.
Proof.
  intros Hc Hcl Hg Hmr Hs. destruct (cancelled_status _ _ _ Hc) as (_ & _ & Hn).
  assert (Hb : Z.of_nat (length bytes) = WAITABLE_COUNT st) by (destruct Hc as [(_ & _ & ?)|(_ & _ & ?)]; done).
  split_and!; cbn in *; [lia|lia|lia|]. left. exists (is_dropped st), r, m, (finish st bytes (start (OpRead len) t)).
  split_and!; [done|done|done|by rewrite is_dropped_finish|]. simpl. by rewrite Hg.
Qed.

(** An idle stream that has to buffer when [m] is set. *)
Definition r_free (r m : bool) (out : list Z) (s : ctx3) : Prop := exists t,
  snap h o (FV false false false r m false) None 0 0 t s /\ inflight t = None /\ closed t = false /\ got t = out.

Lemma r_free_rinv r m out s : r_free r m out s -> (m = true -> r = false) -> rinv out s.
Proof. intros (t & Hs & Hi & Hc & Hg) Hmr. left. exists false, r, m, t. by split_and!. Qed.

Lemma wp_blocking_read out len timeout r m (Q : Z * list Z -> ctx3 -> Prop) s :
  r_free r m out s -> (m = true -> r = false) -> 0 <= len < 2 ^ 28 ->
  (forall r s', did_read out len r s' -> Q r s') -> wp (blocking_read timeout len) Q s.
Proof.
  intros (t & Hs & Hi & Hc & Hg) Hmr Hlen HQ. unfold blocking_read.
  apply wp_bind. eapply wp_lower_flag; [done..|]. intros s1 H1.
  apply wp_bind, wp_bind. eapply wp_assert_flag; [done..|]. eapply wp_raise_flag; [done..|]. intros s2 H2.
  apply wp_bind, wp_gets. rewrite (sn_stream _ _ _ _ _ _ _ _ H2). apply wp_bind.
  assert (Hgo : forall status bytes s3, @answered h o 0 0 (FV false false false false m true) None t (OpRead len) status bytes s3 ->
    wp (block_on_operation status bytes timeout (ask3 (stream_u8_cancel_read h))) Q s3).
  { intros status bytes s3 Hans. eapply wp_block_on_operation; [done|done|apply cancels_read|..].
    - intros st bs s4 Hcan H4. by apply HQ, (did_read_some out len st bs false m t).
    - intros s4 H4. apply HQ, did_read_none; [lia|lia|]. eapply (r_free_rinv false m); [by exists t|done]. }
  eapply wp_read; [done..| |].
  - intros s3 H3. apply Hgo. by left.
  - intros st bytes s3 He H3. apply Hgo. by right.
Qed.

(** A zero-length read as a test of readiness. *)
Lemma wp_start_zero_read out (Q : bool -> ctx3 -> Prop) s :
  r_free false false out s ->
  (forall s', r_zero out s' -> Q true s') ->
  (forall d t' s', snap h o (FV d false false true false false) None 0 0 t' s' ->
     inflight t' = None -> closed t' = d -> got t' = out -> Q false s') ->
  wp wasip3_read_start_zero_length Q s.
Proof.
  intros (t & Hs & Hi & Hc & Hg) HT HF. unfold wasip3_read_start_zero_length, wasip3_start_zero_length.
  apply wp_bind, wp_gets. rewrite (sn_stream _ _ _ _ _ _ _ _ Hs). apply wp_bind.
  eapply wp_read; [done..| |].
  - intros s1 H1. do 4 (apply wp_bind; eapply wp_assert_flag; [done..|]).
    apply wp_bind. eapply wp_raise_flag; [done..|]. intros s2 H2.
    apply wp_bind. eapply wp_raise_flag; [done..|]. intros s3 H3.
    cbn [fst]. rewrite Z.eqb_refl. apply wp_ret, HT. by exists (start (OpRead 0) t).
  - intros st bytes s1 He H1. do 4 (apply wp_bind; eapply wp_assert_flag; [done..|]).
    apply wp_bind. eapply wp_raise_flag; [done..|]. intros s2 H2.
    apply wp_bind. eapply wp_raise_flag; [done..|]. intros s3 H3.
    cbn [fst]. rewrite (blocked_eqb _ _ _ (ended_cancelled _ _ _ He)).
    apply wp_bind. eapply wp_update_code; [done|by apply ended_cancelled|done|]. intros s4 H4.
    apply wp_ret. eapply HF; [exact H4|done|by rewrite is_dropped_finish|]. destruct He as ([Hn1 Hn2] & _ & Hb). simpl in *.
    assert (bytes = []) as -> by (apply nil_length_inv; lia). by rewrite app_nil_r.
Qed.

Lemma wp_read_attempt_end out len st bytes m t (Q : option (Z * list Z) -> ctx3 -> Prop) s :
  snap h o (FV false true false false m false) None 0 0 (finish st bytes (start (OpRead len) t)) s ->
  cancelled (OpRead len) st bytes -> closed t = false -> got t = out ->
  (forall v s', did_read out len v s' -> Q (Some v) s') ->
  (WAITABLE_COUNT st = 0 -> is_dropped st = false -> forall s', r_free false m out s' -> Q None s') ->
  wp (amount ← wasip3_io_update_code (st, bytes).1; done ← flag IO_DONE;
      mret (if 0 <? amount then Some (amount, (st, bytes).2) else if (done : bool) then Some (0, []) else None)) Q s.
Proof.
  intros Hs Hcan Hc Hg HS HN. apply wp_bind. eapply wp_update_code; [done|done|done|]. intros s1 H1.
  apply wp_bind. eapply wp_flag; [done..|]. cbn [orb pick vd fst snd] in *. apply wp_ret.
  destruct (cancelled_status _ _ _ Hcan) as (_ & _ & Hn).
  pose proof (did_read_some out len st bytes false m t s1 Hcan Hc Hg (fun _ => eq_refl) H1) as Hw.
  destruct (Z.ltb_spec 0 (WAITABLE_COUNT st)); [by apply HS|].
  assert (E0 : WAITABLE_COUNT st = 0) by lia. change (pick IO_DONE _) with (is_dropped st).
  assert (bytes = []) as -> by (destruct Hw as (_ & Hl & _); apply nil_length_inv; cbn in Hl; lia).
  destruct (is_dropped st) eqn:E; [apply HS; by rewrite E0 in Hw|].
  apply HN; [done|done|]. exists (finish st [] (start (OpRead len) t)). split_and!; [done|done|by rewrite is_dropped_finish|].
  simpl. by rewrite Hg, app_nil_r.
Qed.

Lemma wp_read_attempt out len should (Q : option (Z * list Z) -> ctx3 -> Prop) s :
  r_free false false out s -> 0 < len < 2 ^ 28 ->
  (forall v s', did_read out len v s' -> Q (Some v) s') ->
  (forall s', r_free false should out s' -> Q None s') ->
  wp (read_attempt should len) Q s.
Proof.
  intros (t & Hs & Hi & Hc & Hg) Hlen HS HN. unfold read_attempt.
  apply wp_bind, wp_gets. rewrite (sn_stream _ _ _ _ _ _ _ _ Hs). apply wp_bind.
  eapply wp_read; [done..|lia| |].
  - intros s1 H1. apply wp_bind. eapply wp_raise_flag; [done..|]. intros s2 H2. cbn [fst]. rewrite Z.eqb_refl.
    apply wp_bind, wp_bind.
    assert (Hgo : forall s3, snap h o (FV false true false false should false) None 0 0 (start (OpRead len) t) s3 ->
      wp (ask3 (stream_u8_cancel_read h)) (fun st s' => wp (amount ← wasip3_io_update_code st.1; done ← flag IO_DONE;
        mret (if 0 <? amount then Some (amount, st.2) else if (done : bool) then Some (0, []) else None)) Q s') s3).
    { intros s3 H3. eapply wp_cancel_read; [done|done|]. intros st bytes s4 Hcan H4. eapply wp_read_attempt_end; eauto. }
    destruct should; [eapply wp_raise_flag; [done..|]; intros s3 H3|apply wp_ret]; by apply Hgo.
  - intros st bytes s1 He H1. apply wp_bind. eapply wp_raise_flag; [done..|]. intros s2 H2.
    cbn [fst]. rewrite (blocked_eqb _ _ _ (ended_cancelled _ _ _ He)). apply wp_bind, wp_ret.
    eapply wp_read_attempt_end; [done|by apply ended_cancelled|done|done|done|]. intros E0 E1.
    destruct He as (_ & [[_ Hpos]|Ed] & _); [specialize (Hpos ltac:(simpl; lia)); lia|].
    unfold is_dropped in E1. by rewrite Ed in E1.
Qed.

Lemma wp_read_nonblocking out len fuel r m (Q : option (Z * list Z) -> ctx3 -> Prop) s :
  r_free r m out s -> (m = true -> r = false) -> fuel <> 0%nat \/ r = true \/ m = true -> 0 < len < 2 ^ 28 ->
  (forall v s', did_read out len v s' -> Q (Some v) s') ->
  (forall s', r_free false true out s' -> Q None s') ->
  wp (read_nonblocking_loop fuel len) Q s.
Proof.
  revert r m s. induction fuel as [|fuel IH]; intros r m s (t & Hs & Hi & Hc & Hg) Hmr Hfuel Hlen HS HN; cbn [read_nonblocking_loop];
    (apply wp_bind; eapply wp_flag; [done..|]; apply wp_bind; eapply wp_lower_flag; [done..|]; intros s1 H1;
     apply wp_bind; eapply wp_flag; [done..|]; cbn [pick vr vm]; apply wp_bind).
  all: destruct m; [apply wp_ret, wp_bind; eapply wp_flag; [done..|]; apply wp_ret, HN; by exists t|].
  all: eapply wp_read_attempt; [by exists t|done|intros v s2 H2; by apply wp_ret, HS|].
  all: intros s2 (t2 & H2 & Hi2 & Hc2 & Hg2); apply wp_bind; eapply wp_flag; [done..|].
  all: change (pick IO_MUST_BUFFER _) with (pick IO_SHOULD_BE_READY (FV false false false r false false)).
  all: destruct r; [apply wp_ret, HN; by exists t2|]; cbn.
  - naive_solver.
  - apply wp_bind. eapply wp_start_zero_read; [by exists t2|..].
    + intros s3 H3. pose proof H3 as (t3 & H3' & Hrest). eapply wp_fail; [exact H3'|]. intros s4 H4.
      apply HS, did_read_none; [lia|lia|]. right; left. exists t3. split; [exact H4|exact Hrest].
    + intros d t3 s3 H3 Hi3 Hc3 Hg3. apply wp_bind. eapply wp_flag; [done..|]. change (pick IO_DONE _) with d. destruct d.
      * apply wp_ret, HS, did_read_none; [lia|lia|]. left. exists true, true, false, t3. by split_and!.
      * apply wp_bind. eapply wp_assert_flag; [done..|]. eapply (IH true false); [by exists t3|done|naive_solver|done..].
Qed.

(** [bytes] have landed in the internal buffer [b]. *)
Lemma landed_ready out b d bytes len st t s :
  ended (OpRead len) st bytes -> len = Z.of_nat (length b) -> 0 < len < 2 ^ 28 -> closed t = false -> got t = out ->
  is_dropped st = d ->
  snap h o (FV d false false false true false) (Some (bytes ++ drop (length bytes) b)) 0 (WAITABLE_COUNT st)
    (finish st bytes (start (OpRead len) t)) s ->
  r_ready out s.
Proof.
  intros ([Hn1 Hn2] & _ & Hb) -> Hlen Hc Hg Hd Hs. cbn in Hn2. rewrite <- Hb in *.
  exists d, (bytes ++ drop (length bytes) b), 0, (Z.of_nat (length bytes)), (finish st bytes (start (OpRead (Z.of_nat (length b))) t)).
  split; [exact Hs|]. rewrite length_app, length_drop. split; [lia|]. split; [lia|]. split; [done|].
  split; [by rewrite is_dropped_finish|]. simpl. by rewrite Hg, slice_landed.
Qed.

Lemma wp_start_nonzero out len (Q : Z -> ctx3 -> Prop) s :
  r_free false true out s -> 0 < len < 2 ^ 28 ->
  (forall s', r_ready out s' -> Q 0 s') -> (forall s', rinv out s' -> Q (-1) s') ->
  wp (wasip3_read_start_nonzero len) Q s.
Proof.
  intros (t & Hs & Hi & Hc & Hg) Hlen HT HF. unfold wasip3_read_start_nonzero.
  do 5 (apply wp_bind; eapply wp_assert_flag; [done..|]).
  apply wp_bind, wp_gets. rewrite (sn_buf _ _ _ _ _ _ _ _ Hs), (sn_stream _ _ _ _ _ _ _ _ Hs). apply wp_bind, wp_assert; [done|].
  apply wp_bind, wp_assert; [lia|].
  apply wp_bind. eapply wp_alloc; [done|]. intros [] s1 H1; cbn [negb].
  2:{ eapply wp_fail; [done|]. intros s2 H2. apply HF. eapply r_free_rinv; [by exists t|done]. }
  apply wp_bind. eapply wp_set_buf; [done..|]. intros s2 H2. apply wp_bind.
  assert (Hl : len = Z.of_nat (length (replicate (Z.to_nat len) 0))) by (rewrite length_replicate; lia).
  eapply wp_read; [done..|lia| |].
  - intros s3 H3. apply wp_bind. eapply wp_land_bytes; [done|]. intros s4 H4. apply wp_bind. eapply wp_raise_flag; [done..|].
    intros s5 H5. cbn [fst]. rewrite Z.eqb_refl. eapply wp_fail; [done|]. intros s6 H6. apply HF. right; right; right.
    exists (replicate (Z.to_nat len) 0), (start (OpRead len) t). cbn in H6. rewrite drop_0 in H6. split; [exact H6|].
    split; [lia|]. split; [by rewrite <- Hl|]. by split.
  - intros st bytes s3 He H3. apply wp_bind. eapply wp_land_bytes; [done|]. intros s4 H4. apply wp_bind. eapply wp_raise_flag; [done..|].
    intros s5 H5. cbn [fst]. rewrite (blocked_eqb _ _ _ (ended_cancelled _ _ _ He)).
    apply wp_bind. eapply wp_update_code; [done|by apply ended_cancelled|done|]. intros s6 H6.
    apply wp_bind. eapply wp_set_end; [done|]. intros s7 H7. apply wp_ret, HT. by eapply landed_ready.
Qed.

Lemma rinv_snap out s :
  rinv out s -> exists d i z r m b i0 j0 t, snap h o (FV d i z r m false) b i0 j0 t s.
Proof.
  intros [(? & ? & ? & ? & ? & _)|[(? & ? & _)|[(? & ? & ? & ? & ? & ? & _)|(? & ? & ? & _)]]]; by eexists _, _, _, _, _, _, _, _, _.
Qed.

Lemma wp_read_settle out w (Q : bool -> ctx3 -> Prop) s :
  rinv out s ->
  (forall s', r_idle out s' \/ r_ready out s' -> Q true s') -> (forall s', rinv out s' -> Q false s') ->
  wp (read_settle w) Q s.
Proof.
  intros Hr HT HF. unfold read_settle. destruct Hr as [Hr|[Hr|[Hr|Hr]]].
  - pose proof Hr as (d & r & m & t & Hs & _). apply wp_bind. eapply wp_flag; [done..|]. apply wp_ret, HT. by left.
  - destruct Hr as (t & Hs & Hi & Hc & Hg). apply wp_bind. eapply wp_flag; [done..|]. cbn [pick vi negb].
    apply wp_bind. eapply wp_await_event; [done..| |].
    + intros e s1 He H1. apply wp_bind. eapply wp_land_bytes; [done|]. intros s2 H2.
      apply wp_bind. eapply wp_update_event; [exact H2|done|done|]. intros s3 H3.
      apply wp_bind. eapply wp_set_end; [done|]. intros s4 H4. apply wp_ret, HT. left.
      destruct He as (_ & _ & [Hn1 Hn2] & _ & Hb). cbn in Hn2.
      assert (landed e = []) as El by (apply nil_length_inv; lia). rewrite El in H4. replace (WAITABLE_COUNT (code e)) with 0 in H4 by lia.
      eexists _, _, _, _. split; [exact H4|]. split; [done|]. split; [done|]. split; [by rewrite is_dropped_finish|].
      simpl. by rewrite Hi, app_nil_r.
    + intros _ s1 H1. apply wp_ret, HF. right; left. by exists t.
  - pose proof Hr as (d & b & i & j & t & Hs & _). apply wp_bind. eapply wp_flag; [done..|]. apply wp_ret, HT. by right.
  - destruct Hr as (b & t & Hs & Hlen & Hi & Hc & Hg). apply wp_bind. eapply wp_flag; [done..|]. cbn [pick vi negb].
    apply wp_bind. eapply wp_await_event; [done..| |].
    + intros e s1 He H1. apply wp_bind. eapply wp_land_bytes; [done|]. intros s2 H2.
      apply wp_bind. eapply wp_update_event; [exact H2|done|done|]. intros s3 H3.
      apply wp_bind. eapply wp_set_end; [done|]. intros s4 H4. apply wp_ret, HT. right.
      destruct He as (_ & _ & Hend). eapply landed_ready; [exact Hend|done|lia|exact Hc|done|done|].
      destruct t; cbn in Hi; subst. exact H4.
    + intros _ s1 H1. apply wp_ret, HF. right; right; right. exists b, t. split_and!; done || lia.
Qed.

Lemma wp_read_settled out w len (Q : Z * list Z -> ctx3 -> Prop) s :
  r_idle out s \/ r_ready out s -> 0 <= len < 2 ^ 28 ->
  (forall r s', did_read out len r s' -> Q r s') -> wp (read_settled w len) Q s.
Proof.
  intros [Hr|Hr] Hlen HQ; unfold read_settled.
  - pose proof Hr as (d & r & m & t & Hs & Hmr & Hi & Hc & Hg). apply wp_bind. eapply wp_assert_flag; [done..|].
    apply wp_bind, wp_gets. rewrite (sn_buf _ _ _ _ _ _ _ _ Hs), (sn_done _ _ _ _ _ _ _ _ Hs). cbn [bool_decide vd].
    assert (Hri : rinv out s) by by left.
    destruct (Z.eqb_spec len 0) as [->|Hne]; [apply wp_ret, HQ, did_read_none; [lia|lia|done]|].
    destruct d; [apply wp_ret, HQ, did_read_none; [lia|lia|done]|].
    assert (Hfree : r_free r m out s) by by exists t.
    destruct (rw_blocking w); [by eapply wp_blocking_read|].
    apply wp_bind. eapply wp_read_nonblocking; [done|done|by left|lia|..].
    + intros v s1 H1. by apply wp_ret, HQ.
    + intros s1 H1. apply wp_bind. eapply wp_start_nonzero; [done|lia|..].
      * intros s2 H2. change (0 <? 0) with false. cbv iota. eapply wp_complete_internally; [done|lia|done].
      * intros s2 H2. apply wp_ret, HQ, did_read_none; [lia|lia|done].
  - pose proof Hr as (d & b & i & j & t & Hs & _). apply wp_bind. eapply wp_assert_flag; [done..|].
    apply wp_bind, wp_gets. rewrite (sn_buf _ _ _ _ _ _ _ _ Hs). eapply wp_complete_internally; [done|lia|done].
Qed.

Lemma wp_read_update out w len (Q : Z * list Z -> ctx3 -> Prop) s :
  rinv out s -> 0 <= len < 2 ^ 28 -> h <> 0 ->
  (forall r s', did_read out len r s' -> Q r s') -> wp (__wasilibc_read_without_offset_update w len) Q s.
Proof.
  intros Hw Hlen Hh HQ. unfold __wasilibc_read_without_offset_update.
  destruct (rinv_snap _ _ Hw) as (d & fi & z & r & m & b & i0 & j0 & t & Hs).
  apply wp_bind, wp_bind. eapply wp_flag; [done..|]. apply wp_ret. cbn [pick vb]. change (0 <? 0) with false. cbv iota.
  apply wp_bind, wp_gets. rewrite (sn_stream _ _ _ _ _ _ _ _ Hs), (proj2 (Z.eqb_neq h 0)) by done.
  apply wp_bind. eapply wp_read_settle; [done|..].
  - intros s1 H1. by eapply wp_read_settled.
  - intros s1 H1. apply wp_ret, HQ, did_read_none; [lia|lia|done].
Qed.

Lemma wp_read_close out (Q : unit -> ctx3 -> Prop) s :
  rinv out s -> h <> 0 ->
  (forall s' t, io s' = io_zero -> legal (log s') -> track_of (log s') h = drop_end t -> inflight t = None -> Q tt s') ->
  wp wasip3_read_state_close Q s.
Proof.
  intros Hr Hh HQ. unfold wasip3_read_state_close.
  assert (Hdrop : forall v b i j t s', snap h o v b i j t s' -> inflight t = None ->
    wp ((if negb (h =? 0) then ask3 (stream_u8_drop_readable h) else mret tt) ;; update_io (fun _ => io_zero)) Q s').
  { intros v b i j t s' Hs Hi. rewrite (proj2 (Z.eqb_neq h 0)) by done. pose proof Hs as [? ? ? ? ? ? Hl Ht ? ?].
    cbn [negb]. ask_step; [done|by split; rewrite Ht|]. intros [] s1 _ [_ L T _]. apply wp_modify.
    apply (HQ _ t); try done. simpl. rewrite T. simpl. by rewrite Z.eqb_refl, Ht. }
  assert (Hcancel : forall v b i j len t s', snap h o v b i j t s' -> inflight t = Some (OpRead len) ->
    wp ((ask3 (stream_u8_cancel_read h) ;; mret tt) ;;
        (if negb (h =? 0) then ask3 (stream_u8_drop_readable h) else mret tt) ;; update_io (fun _ => io_zero)) Q s').
  { intros v b i j len t s' Hs Hi. apply wp_bind, wp_bind. eapply wp_cancel_read; [done..|]. intros st bytes s1 _ H1.
    apply wp_ret. by eapply Hdrop. }
  apply wp_bind, wp_gets.
  destruct Hr as [(? & ? & ? & ? & Hs & _ & Hi & _)|[(? & Hs & Hi & _)|[(? & ? & ? & ? & ? & Hs & _ & _ & Hi & _)|(? & ? & Hs & _ & Hi & _)]]];
    rewrite (sn_flag IO_INPROGRESS _ _ _ _ _ _ _ _ Hs), (sn_stream _ _ _ _ _ _ _ _ Hs) by done;
    cbn [pick vi]; [apply wp_bind, wp_ret; by eapply Hdrop|by eapply Hcancel|apply wp_bind, wp_ret; by eapply Hdrop|by eapply Hcancel].
Qed.
End reader.
End reads.

(** ** Whole calls *)

(** The callback of the end of the stream returns 0 or -1 and does not touch the
    stream. *)
Definition quiet_eof (w : wasi_rw) : Prop := forall s : ctx3,
  wp (rw_eof w) (fun v s' => io s' = io s /\ off s' = off s /\ log s' = log s /\ -1 <= v <= 0) s.

(** The offset after a transfer of [r] bytes. *)
Definition moved (w : wasi_rw) (r o : Z) : Z := if (0 <? r) && rw_offset w then i64 (o + r) else o.

Section calls.
Context `{Host3Laws}.
Implicit Types s : ctx3.

Lemma snap_ext h o o' v b i j t s s' :
  snap h o v b i j t s -> io s' = io s -> log s' = log s -> off s' = o' -> snap h o' v b i j t s'.
Proof. intros [] Ei El Eo. split; rewrite ?Ei, ?El; done. Qed.

Lemma winv_ext h o o' acked s s' :
  winv h o acked s -> io s' = io s -> log s' = log s -> off s' = o' -> winv h o' acked s'.
Proof.
  intros [(d & r & m & t & Hs & Hw)|[(t & Hs & Hw)|(b & i & t & Hs & Hw)]] Ei El Eo.
  - left. exists d, r, m, t. split; [by eapply snap_ext|exact Hw].
  - right; left. exists t. split; [by eapply snap_ext|exact Hw].
  - right; right. exists b, i, t. split; [by eapply snap_ext|exact Hw].
Qed.

Lemma rinv_ext h o o' out s s' :
  rinv h o out s -> io s' = io s -> log s' = log s -> off s' = o' -> rinv h o' out s'.
Proof.
  intros [(d & r & m & t & Hs & Hw)|[(t & Hs & Hw)|[(d & b & i & j & t & Hs & Hw)|(b & t & Hs & Hw)]]] Ei El Eo.
  - left. exists d, r, m, t. split; [by eapply snap_ext|exact Hw].
  - right; left. exists t. split; [by eapply snap_ext|exact Hw].
  - right; right; left. exists d, b, i, j, t. split; [by eapply snap_ext|exact Hw].
  - right; right; right. exists b, t. split; [by eapply snap_ext|exact Hw].
Qed.

Lemma wp_conclude w r (Q : Z -> ctx3 -> Prop) s :
  quiet_eof w -> -1 <= r ->
  (forall v s', io s' = io s -> log s' = log s -> off s' = moved w r (off s) -> v = r \/ r = 0 /\ v = -1 -> Q v s') ->
  wp (conclude w r) Q s.
Proof.
  intros Hw Hr HQ. unfold conclude. apply wp_bind, wp_modify, wp_bind, wp_gets. cbn [io].
  destruct (Z.eqb_spec r 0) as [->|Hne]; cbn [andb]; [|apply wp_ret, HQ; try done; by left].
  destruct (_ || _); [|apply wp_ret, HQ; try done; by left].
  eapply wp_mono; [apply Hw|]. intros v s' (E1 & E2 & E3 & Hv). cbn in *. apply HQ; [done|done|done|lia].
Qed.

Lemma wp_write3 h o acked w buffer (Q : Z -> ctx3 -> Prop) s :
  winv h o acked s -> Z.of_nat (length buffer) < 2 ^ 28 -> h <> 0 -> quiet_eof w ->
  (forall r s' o', -1 <= r <= Z.of_nat (length buffer) -> o' = moved w r o ->
     winv h o' (acked ++ take (Z.to_nat r) buffer) s' -> Q r s') ->
  wp (__wasilibc_write w buffer) Q s.
Proof.
  intros Hs Hlen Hh Hw HQ. apply wp_bind. eapply wp_write_update; [done..|]. intros r s1 [Hr Hw1].
  apply wp_conclude; [done|lia|]. intros v s2 Ei El Eo Hv.
  assert (Ho : off s1 = o).
  { by destruct Hw1 as [(? & ? & ? & ? & [] & _)|[(? & [] & _)|(? & ? & ? & [] & _)]]. }
  rewrite Ho in Eo. assert (Ev : moved w v o = moved w r o /\ Z.to_nat v = Z.to_nat r).
  { destruct Hv as [->|[-> ->]]; [done|]. by split. }
  destruct Ev as [Ev1 Ev2]. apply (HQ v s2 (off s2)); [lia|congruence|]. rewrite Ev2.
  by eapply winv_ext.
Qed.

Lemma wp_read3 h o out w len (Q : Z * list Z -> ctx3 -> Prop) s :
  rinv h o out s -> 0 <= len < 2 ^ 28 -> h <> 0 -> quiet_eof w ->
  (forall r s' o', -1 <= r.1 <= len -> length r.2 = Z.to_nat r.1 -> o' = moved w r.1 o ->
     rinv h o' (out ++ r.2) s' -> Q r s') ->
  wp (__wasilibc_read w len) Q s.
Proof.
  intros Hs Hlen Hh Hw HQ. apply wp_bind. eapply wp_read_update; [done..|]. intros [r bytes] s1 (Hr & Hl & Hr1).
  cbn [fst snd] in *. apply wp_bind, wp_conclude; [done|lia|]. intros v s2 Ei El Eo Hv. apply wp_ret.
  assert (Ho : off s1 = o).
  { by destruct (rinv_snap _ _ _ _ Hr1) as (? & ? & ? & ? & ? & ? & ? & ? & ? & []). }
  rewrite Ho in Eo. assert (Ev : moved w v o = moved w r o /\ Z.to_nat v = Z.to_nat r).
  { destruct Hv as [->|[-> ->]]; [done|]. by split. }
  destruct Ev as [Ev1 Ev2]. apply (HQ (v, bytes) s2 (off s2)); cbn [fst snd]; [lia|congruence|congruence|].
  by eapply rinv_ext.
Qed.

(** ** Sequences of calls *)

Fixpoint run_writes3 (ops : list (wasi_rw * list Z)) : M ctx3 (list Z) :=
  match ops with
  | [] => mret []
  | (w, buffer) :: rest => r ← __wasilibc_write w buffer; rs ← run_writes3 rest; mret (r :: rs)
  end.

Fixpoint run_reads3 (ops : list (wasi_rw * Z)) : M ctx3 (list (Z * list Z)) :=
  match ops with
  | [] => mret []
  | (w, len) :: rest => r ← __wasilibc_read w len; rs ← run_reads3 rest; mret (r :: rs)
  end.

(** The bytes that the results [rs] report as written. *)
Fixpoint reported (ops : list (wasi_rw * list Z)) (rs : list Z) : list Z :=
  match ops, rs with
  | (_, buffer) :: ops', r :: rs' => take (Z.to_nat r) buffer ++ reported ops' rs'
  | _, _ => []
  end.

Definition write_ok (op : wasi_rw * list Z) : Prop := quiet_eof op.1 /\ Z.of_nat (length op.2) < 2 ^ 28.
Definition read_ok (op : wasi_rw * Z) : Prop := quiet_eof op.1 /\ 0 <= op.2 < 2 ^ 28.

Lemma wp_run_writes3 h o acked ops (Q : list Z -> ctx3 -> Prop) s :
  winv h o acked s -> h <> 0 -> Forall write_ok ops ->
  (forall rs s' o', Forall2 (fun op r => -1 <= r <= Z.of_nat (length op.2)) ops rs ->
     winv h o' (acked ++ reported ops rs) s' -> Q rs s') ->
  wp (run_writes3 ops) Q s.
Proof.
  intros Hs Hh Hops. revert acked o s Hs Q. induction Hops as [|[w buffer] ops [Hw Hlen] _ IH]; intros acked o s Hs Q HQ.
  { apply wp_ret, (HQ [] s o); [done|]. by rewrite app_nil_r. }
  cbn [run_writes3]. apply wp_bind. eapply wp_write3; [done..|]. intros r s1 o1 Hr _ H1.
  apply wp_bind. eapply IH; [exact H1|]. intros rs s2 o2 Hrs H2. apply wp_ret, (HQ _ s2 o2); [by constructor|].
  cbn [reported]. by rewrite app_assoc.
Qed.

Lemma wp_run_reads3 h o out ops (Q : list (Z * list Z) -> ctx3 -> Prop) s :
  rinv h o out s -> h <> 0 -> Forall read_ok ops ->
  (forall rs s' o', Forall2 (fun op r => -1 <= r.1 <= op.2 /\ length r.2 = Z.to_nat r.1) ops rs ->
     rinv h o' (out ++ concat rs.*2) s' -> Q rs s') ->
  wp (run_reads3 ops) Q s.
Proof.
  intros Hs Hh Hops. revert out o s Hs Q. induction Hops as [|[w len] ops [Hw Hlen] _ IH]; intros out o s Hs Q HQ.
  { apply wp_ret, (HQ [] s o); [done|]. by rewrite app_nil_r. }
  cbn [run_reads3]. apply wp_bind. eapply wp_read3; [done..|]. intros r s1 o1 Hr Hl _ H1.
  apply wp_bind. eapply IH; [exact H1|]. intros rs s2 o2 Hrs H2. apply wp_ret, (HQ _ s2 o2); [by constructor|].
  cbn. by rewrite app_assoc.
Qed.
End calls.
