(* ===== verification/Stream3Props.v ===== *)
(** * Streams of wasip3: theorems

    Whatever the host answers within the rules of the component model, reads
    and writes of a stream, blocking or not, return, obey those rules, and lose,
    repeat or reorder no byte. *)

From S2P Require Import Prelude Errno Wasip3 Stream3 Stream3Inv Stream3Spec.

(** The bytes in the internal buffer. *)
Definition pending_bytes (st : wasip3_io_state_t) : list Z :=
  match buf st with Some b => slice (buf_start st) (buf_end st) b | None => [] end.

(** [h] is the handle of a new stream. *)
Definition new_stream (h : Z) (s : ctx3) : Prop := h <> 0 /\ legal (log s) /\ track_of (log s) h = no_track.

Section theorems.
Context `{Host3Laws}.

Lemma wp_init h (Q : unit -> ctx3 -> Prop) s :
  new_stream h s ->
  (forall s', snap h (off s) (FV false false false false false false) None 0 0 no_track s' -> Q tt s') ->
  wp (io_state_init h) Q s.
Proof.
  intros (Hh & Hl & Ht) HQ. unfold io_state_init. apply wp_bind, wp_assert; [by apply negb_true_iff, Z.eqb_neq|].
  apply wp_modify, HQ. by split.
Qed.

Lemma wp_init_write h (Q : unit -> ctx3 -> Prop) s :
  new_stream h s -> (forall s', winv h (off s) [] s' -> Q tt s') -> wp (io_state_init h) Q s.
Proof.
  intros Hn HQ. apply wp_init; [done|]. intros s' Hs. apply HQ. left. exists false, false, false, no_track. split_and!; try done. by left.
Qed.

Lemma wp_init_read h (Q : unit -> ctx3 -> Prop) s :
  new_stream h s -> (forall s', rinv h (off s) [] s' -> Q tt s') -> wp (io_state_init h) Q s.
Proof.
  intros Hn HQ. apply wp_init; [done|]. intros s' Hs. apply HQ. left. by exists false, false, false, no_track.
Qed.

Lemma winv_legal h o acked s : winv h o acked s -> legal (log s).
Proof. by intros [(? & ? & ? & ? & [] & _)|[(? & [] & _)|(? & ? & ? & [] & _)]]. Qed.

Lemma winv_acct h o acked s : winv h o acked s -> acct (track_of (log s) h) (pending_bytes (io s)) acked.
Proof.
  unfold pending_bytes. intros [(d & r & m & t & [] & _ & _ & _ & Ha)|[(t & [] & _ & _ & Ha)|(b & i & t & [] & Hi & _ & _ & _ & Ha)]].
  - by rewrite sn_buf, sn_track.
  - rewrite sn_buf, sn_track. left. by rewrite app_nil_r.
  - rewrite sn_buf, sn_track, sn_start, sn_end. left. rewrite Ha. f_equal. unfold slice. rewrite take_ge; [done|].
    rewrite length_drop. lia.
Qed.

Lemma rinv_legal h o out s : rinv h o out s -> legal (log s).
Proof. intros Hr. by destruct (rinv_snap _ _ _ _ Hr) as (? & ? & ? & ? & ? & ? & ? & ? & ? & []). Qed.

Lemma rinv_got h o out s : rinv h o out s -> got (track_of (log s) h) = out ++ pending_bytes (io s).
Proof.
  unfold pending_bytes.
  intros [(? & ? & ? & ? & [] & _ & _ & _ & Hg)|[(? & [] & _ & _ & Hg)|[(? & b & i & j & ? & [] & _ & _ & _ & _ & Hg)|(b & ? & [] & _ & _ & _ & Hg)]]].
  - by rewrite sn_buf, sn_track, app_nil_r.
  - by rewrite sn_buf, sn_track, app_nil_r.
  - by rewrite sn_buf, sn_track, sn_start, sn_end.
  - by rewrite sn_buf, sn_track, sn_start, sn_end, slice_nil, app_nil_r.
Qed.

(** C12: Any sequence of writes on a new stream, blocking or not, of lengths
    below 2^28, the component model's limit, returns; every call of the host is
    allowed by the component model; and the bytes the results report as written
    are those the host has taken, in order, followed by those in the internal
    buffer. Only when the other end has been dropped are the bytes taken a prefix
    of them: the rest is lost. *)
Theorem wasip3_writes_in_order h ops s :
  new_stream h s -> Forall write_ok ops ->
  exists rs s', (io_state_init h ;; run_writes3 ops) s = Done rs s' /\ legal (log s') /\
    Forall2 (fun op r => -1 <= r <= Z.of_nat (length op.2)) ops rs /\
    acct (track_of (log s') h) (pending_bytes (io s')) (reported ops rs).
Proof.
  intros Hn Hops. apply wp_done, wp_bind. apply wp_init_write; [done|]. intros s1 H1.
  eapply wp_run_writes3; [exact H1|apply Hn|done|]. intros rs s2 o2 Hrs H2.
  split; [by eapply winv_legal|]. split; [done|]. by eapply winv_acct in H2.
Qed.

(** C13: Any sequence of reads on a new stream, blocking or not, of any lengths
    below 2^28, the component model's limit, returns; every call of the host is
    allowed by the component model; and the bytes the host has delivered are, in
    order, those the reads returned followed by those in the internal buffer. *)
Theorem wasip3_reads_in_order h ops s :
  new_stream h s -> Forall read_ok ops ->
  exists rs s', (io_state_init h ;; run_reads3 ops) s = Done rs s' /\ legal (log s') /\
    Forall2 (fun op r => -1 <= r.1 <= op.2 /\ length r.2 = Z.to_nat r.1) ops rs /\
    got (track_of (log s') h) = concat rs.*2 ++ pending_bytes (io s').
Proof.
  intros Hn Hops. apply wp_done, wp_bind. apply wp_init_read; [done|]. intros s1 H1.
  eapply wp_run_reads3; [exact H1|apply Hn|done|]. intros rs s2 o2 Hrs H2.
  split; [by eapply rinv_legal|]. split; [done|]. by eapply rinv_got in H2.
Qed.

(** C20: Closing a stream that was written to returns after the host has taken
    every byte that was reported as written, unless the other end was dropped;
    nothing is in flight when the end is dropped, and the state is zero. *)
Theorem wasip3_close_flushes h ops s :
  new_stream h s -> Forall write_ok ops ->
  exists rs s', (io_state_init h ;; rs ← run_writes3 ops; wasip3_write_state_close ;; mret rs) s = Done rs s' /\
    legal (log s') /\ io s' = io_zero /\
    let t := track_of (log s') h in
    dropped t = true /\ inflight t = None /\
    (reported ops rs = sent t \/ closed t = true /\ sent t `prefix_of` reported ops rs).
Proof.
  intros Hn Hops. apply wp_done, wp_bind. apply wp_init_write; [done|]. intros s1 H1.
  apply wp_bind. eapply wp_run_writes3; [exact H1|apply Hn|done|]. intros rs s2 o2 Hrs H2.
  apply wp_bind. eapply wp_write_close; [exact H2|apply Hn|]. intros s3 t Hio Hl Ht Hi Ha. apply wp_ret.
  split; [done|]. split; [done|]. rewrite Ht. split; [done|]. split; [done|].
  destruct Ha as [Ha|Ha]; [left; by rewrite app_nil_r in Ha|by right].
Qed.
End theorems.

(** ** Calls that must not block *)

Definition is_wait (e : entry3) : bool := let 'Ev3 c _ := e in match c with waitable_set_wait _ => true | _ => false end.

(** [m] makes no call that waits, whatever the host answers. *)
Definition never_waits {A} (m : M ctx3 A) : Prop := forall s,
  exists es, Forall (fun e => is_wait e = false) es /\
    match m s with Done _ s' | Stop _ s' => log s' = log s ++ es end.

Section never_waits.
Context `{Host3}.

Lemma never_quiet {A} (m : M ctx3 A) :
  (forall s, match m s with Done _ s' | Stop _ s' => log s' = log s end) -> never_waits m.
Proof. intros Hm s. exists []. split; [constructor|]. rewrite app_nil_r. apply Hm. Qed.

Lemma never_bind {A B} (m : M ctx3 A) (f : A -> M ctx3 B) : never_waits m -> (forall a, never_waits (f a)) -> never_waits (m ≫= f).
Proof.
  intros Hm Hf s. destruct (Hm s) as (es & He & Hs). unfold mbind, M_bind. destruct (m s) as [a s1|r s1]; [|by exists es].
  destruct (Hf a s1) as (es' & He' & Hs'). exists (es ++ es'). split; [by apply Forall_app|].
  destruct (f a s1); by rewrite Hs', Hs, app_assoc.
Qed.

Lemma never_ask c : (forall a, is_wait (Ev3 c a) = false) -> never_waits (ask3 c).
Proof. intros Hc s. exists [Ev3 c (host3 (log s) c)]. split; [by repeat constructor|done]. Qed.

Lemma never_if {A} (b : bool) (m1 m2 : M ctx3 A) : never_waits m1 -> never_waits m2 -> never_waits (if b then m1 else m2).
Proof. by destruct b. Qed.

Lemma never_alloc : never_waits (alloc_ok : M ctx3 bool).
Proof. apply never_quiet. intros [? ? [? [|]] ?]; done. Qed.

Lemma never_deref {A} (o : option A) : never_waits (deref o).
Proof. apply never_quiet. by destruct o. Qed.

Lemma never_assert (b : bool) : never_waits (assert_ b).
Proof. apply never_quiet. by destruct b. Qed.
End never_waits.

Create HintDb waits.
#[export] Hint Extern 1 (never_waits (_ ≫= _)) => apply never_bind; [|intros ?] : waits.
#[export] Hint Extern 1 (never_waits (if _ then _ else _)) => apply never_if : waits.
#[export] Hint Extern 1 (never_waits (ask3 _)) => apply never_ask; done : waits.
#[export] Hint Extern 1 (never_waits (let '_ := ?x in _)) => destruct x : waits.
#[export] Hint Extern 1 (never_waits (match ?x with None => _ | Some _ => _ end)) => destruct x : waits.
#[export] Hint Extern 2 (never_waits (match ?x with (_, _) => _ end)) => destruct x : waits.
#[export] Hint Resolve never_alloc never_deref never_assert : waits.
#[export] Hint Extern 3 (never_waits _) => (apply never_quiet; intros ?; done) : waits.

Section nonblocking.
Context `{Host3}.

Lemma never_flag_ops f b : never_waits (raise_flag f) /\ never_waits (lower_flag f) /\ never_waits (flag f) /\ never_waits (assert_flag f b).
Proof. unfold assert_flag. split_and!; eauto 10 with waits. Qed.

Lemma never_update_code st : never_waits (wasip3_io_update_code st).
Proof. unfold wasip3_io_update_code, assert_flag. eauto 30 with waits. Qed.
Hint Resolve never_update_code : waits.

Lemma never_update_event e : never_waits (wasip3_io_update_event e).
Proof. unfold wasip3_io_update_event. eauto 30 with waits. Qed.
Hint Resolve never_update_event : waits.

Lemma never_buf_slice i j : never_waits (buf_slice i j).
Proof. unfold buf_slice. eauto 30 with waits. Qed.
Hint Resolve never_buf_slice : waits.

Lemma never_advance_loop fuel : never_waits (advance_loop fuel).
Proof. induction fuel; cbn [advance_loop]; eauto 30 with waits. Qed.
Hint Resolve never_advance_loop : waits.

Lemma never_await timeout : never_waits (await_event false timeout).
Proof. unfold await_event, __wasilibc_poll_waitable. eauto 40 with waits. Qed.
Hint Resolve never_await : waits.

Lemma never_resolve timeout : never_waits (wasip3_write_resolve_pending false timeout).
Proof.
  assert (Hl : forall fuel, never_waits (resolve_loop fuel false timeout)).
  { destruct fuel; cbn [resolve_loop negb]; unfold wasip3_advance_pending_write, assert_flag; eauto 40 with waits. }
  unfold wasip3_write_resolve_pending, assert_flag. eauto 40 with waits.
Qed.
Hint Resolve never_resolve : waits.

Lemma never_start_zero : never_waits wasip3_write_start_zero_length /\ never_waits wasip3_read_start_zero_length.
Proof.
  unfold wasip3_write_start_zero_length, wasip3_read_start_zero_length, wasip3_start_zero_length, assert_flag.
  split; eauto 60 with waits.
Qed.

Lemma never_write_loop fuel buffer : never_waits (write_nonblocking_loop fuel buffer).
Proof.
  pose proof (proj1 never_start_zero). assert (forall b, never_waits (write_attempt b buffer)) by (intros; unfold write_attempt; eauto 40 with waits).
  induction fuel; cbn [write_nonblocking_loop]; unfold assert_flag; eauto 40 with waits.
Qed.

Lemma never_read_loop fuel len : never_waits (read_nonblocking_loop fuel len).
Proof.
  pose proof (proj2 never_start_zero). assert (forall b, never_waits (read_attempt b len)) by (intros; unfold read_attempt; eauto 40 with waits).
  induction fuel; cbn [read_nonblocking_loop]; unfold assert_flag; eauto 40 with waits.
Qed.

Lemma never_write_buffered buffer : never_waits (write_buffered buffer).
Proof. unfold write_buffered, assert_flag. eauto 60 with waits. Qed.

Lemma never_complete len : never_waits (wasip3_read_complete_internally len).
Proof. unfold wasip3_read_complete_internally. eauto 40 with waits. Qed.

Lemma never_start_nonzero len : never_waits (wasip3_read_start_nonzero len).
Proof. unfold wasip3_read_start_nonzero, assert_flag. eauto 60 with waits. Qed.
Hint Resolve never_write_loop never_read_loop never_write_buffered never_complete never_start_nonzero : waits.

End nonblocking.

(** ** A host

    It transfers one byte at a time and blocks every other time. *)

Definition one (n : Z) : Z := if 0 <? n then 16 else 0.

(** A set handle that no call has used. *)
Fixpoint last_set (l : log3) : Z :=
  match l with
  | [] => 0
  | Ev3 c _ :: l' => match c with waitable_join _ set => Z.max set (last_set l') | _ => last_set l' end
  end.

Global Instance timer3_dec : EqDecision timer3.
Proof. solve_decision. Defined.

Definition demo_event (l : log3) (set : Z) : event_t :=
  match filter (fun w => is_Some (inflight (track_of l w)) \/ timer (track_of l w) = Running) (members l set) with
  | [] => Event EVENT_NONE 0 0 []
  | w :: _ =>
      match inflight (track_of l w) with
      | Some op => Event (op_event op) w (one (op_len op)) (match op with OpRead n => if 0 <? n then [7] else [] | OpWrite _ => [] end)
      | None => Event EVENT_SUBTASK w SUBTASK_RETURNED []
      end
  end.

Definition demo3 : Host3 := fun l c =>
  match c return answer c with
  | stream_u8_read _ len =>
      if Nat.odd (length l) then (WAITABLE_STATUS_BLOCKED, []) else (one len, if 0 <? len then [7] else [])
  | stream_u8_write _ data => if Nat.odd (length l) then WAITABLE_STATUS_BLOCKED else one (Z.of_nat (length data))
  | stream_u8_cancel_read _ => (WAITABLE_CANCELLED, [])
  | stream_u8_cancel_write _ => WAITABLE_CANCELLED
  | monotonic_clock_wait_for _ => SUBTASK_RETURNED
  | subtask_cancel _ => 4
  | waitable_set_new => 1 + last_set l
  | waitable_set_wait set => demo_event l set
  | waitable_set_poll set => if Nat.odd (length l) then Event EVENT_NONE 0 0 [] else demo_event l set
  | _ => tt
  end.

Lemma members_unused l set : last_set l < set -> members l set = [].
Proof.
  intros Hs. unfold members. cut (forall m, m = [] -> fold_left (enrol set) l m = []); [by intros ->|].
  revert Hs. induction l as [|[c a] l IH]; intros Hs m ->; [done|]. cbn [fold_left]. apply IH.
  - destruct c; try done. cbn in Hs. lia.
  - destruct c; try done. cbn [last_set] in Hs. cbn. by rewrite (proj2 (Z.eqb_neq _ _)) by lia.
Qed.

Lemma last_set_nonneg l : 0 <= last_set l.
Proof. induction l as [|[c a] l IH]; [done|]. destruct c; cbn; lia. Qed.

Lemma one_ended op : 0 <= op_len op ->
  ended op (one (op_len op)) (match op with OpRead n => if 0 <? n then [7] else [] | OpWrite _ => [] end).
Proof.
  intros Hop. unfold ended, one. destruct (Z.ltb_spec 0 (op_len op)) as [Hl|Hl].
  - change (WAITABLE_COUNT 16) with 1. split; [lia|]. split; [by left|].
    destruct op; [done|]. cbn in Hl. by rewrite (proj2 (Z.ltb_lt _ _) Hl).
  - change (WAITABLE_COUNT 0) with 0. split; [lia|]. split; [left; split; [done|lia]|].
    destruct op; [done|]. cbn in Hl. by rewrite (proj2 (Z.ltb_ge _ _) Hl).
Qed.

(** In a log that obeys the rules lengths are not negative. *)
Lemma legal_op_len l h op : legal l -> inflight (track_of l h) = Some op -> 0 <= op_len op.
Proof.
  induction l as [|[c a] l IH] using rev_ind; [done|]. rewrite legal_snoc, track_snoc. intros [Hl Ha].
  specialize (IH Hl). destruct c; cbn [advance]; unfold begin, arrive; cbn [allowed] in Ha;
    repeat case_match; cbn; try done; intros [= <-]; cbn; lia.
Qed.

Definition busy (l : log3) (w : Z) : Prop := is_Some (inflight (track_of l w)) \/ timer (track_of l w) = Running.

Lemma demo_delivered l set :
  legal l -> event (demo_event l set) = EVENT_NONE /\ (forall w, w ∈ members l set -> ~ busy l w) \/ delivered l set (demo_event l set).
Proof.
  intros Hl. unfold demo_event. destruct (filter _ _) as [|w' ws] eqn:E.
  { left. split; [done|]. intros w Hw Hb. apply (filter_nil_not_elem_of _ _ _ E Hb Hw). }
  assert (Hw' : w' ∈ filter (fun w => is_Some (inflight (track_of l w)) \/ timer (track_of l w) = Running) (members l set)).
  { rewrite E. by left. }
  right. apply list_elem_of_filter in Hw' as [Hb' Hm']. destruct (inflight (track_of l w')) as [op|] eqn:Eop.
  - split; [done|]. left. exists op. split; [done|]. split; [done|]. eapply one_ended, legal_op_len; [exact Hl|exact Eop].
  - split; [done|]. right. split; [|done]. by destruct Hb' as [[? ?]|?].
Qed.

Lemma demo3_laws : @Host3Laws demo3.
Proof.
  intros l c Hl Ha. destruct c; cbn [answer_ok host3 demo3]; try done.
  - destruct (Nat.odd (length l)); [by left|]. right. apply (one_ended (OpRead len)). cbn in Ha. cbn. lia.
  - destruct (Nat.odd (length l)); [by left|]. right. apply (one_ended (OpWrite data)). cbn. lia.
  - intros op Hop. right. cbn. split; [split; [done|by eapply legal_op_len]|]. split; [done|].
    destruct Ha as [len E]. rewrite E in Hop. by injection Hop as <-.
  - intros op Hop. right. cbn. split; [split; [done|by eapply legal_op_len]|]. split; [done|].
    destruct Ha as [data E]. rewrite E in Hop. by injection Hop as <-.
  - by left.
  - pose proof (last_set_nonneg l). split; [lia|]. apply members_unused. lia.
  - destruct Ha as (w & Hw & Hb). destruct (demo_delivered l set Hl) as [[_ Hno]|?]; [by destruct (Hno w)|done].
  - destruct (Nat.odd (length l)); [by left|]. destruct (demo_delivered l set Hl) as [[? _]|?]; [by left|by right].
Qed.


Definition nonblocking_rw : wasi_rw := Rw true false 0 (mret 0).
Definition blocking_rw : wasi_rw := Rw true true 0 (mret 0).
Definition demo_writes : list (wasi_rw * list Z) :=
  [(nonblocking_rw, [1; 2; 3]); (nonblocking_rw, [4; 5]); (blocking_rw, [6; 7]); (nonblocking_rw, [8; 9]); (nonblocking_rw, [10; 11])].
Definition demo_reads : list (wasi_rw * Z) :=
  [(nonblocking_rw, 3); (nonblocking_rw, 2); (blocking_rw, 2); (nonblocking_rw, 4); (nonblocking_rw, 1)].
Definition demo_ctx3 : ctx3 := Ctx3 io_zero 0 (Env 0 []) [Ev3 waitable_set_new 1].

Lemma quiet_demo b : quiet_eof (Rw true b 0 (mret 0)).
Proof. intros s. by split_and!. Qed.

Lemma demo_new : new_stream 5 demo_ctx3.
Proof. split; [done|]. split; [|done]. by split. Qed.

Lemma wasip3_writes_in_order_witness :
  exists s', (io_state_init 5 ;; run_writes3 (H := demo3) demo_writes) demo_ctx3 = Done [-1; 2; 1; 2; -1] s' /\
    pending_bytes (io s') = [9] /\ sent (track_of (log s') 5) = [4; 5; 6; 8] /\ legal (log s').
Proof.
  destruct (wasip3_writes_in_order (H := demo3) (H0 := demo3_laws) 5 demo_writes demo_ctx3) as (rs & s' & Hs & Hl & _).
  - exact demo_new.
  - repeat (apply Forall_cons_2; [split; [apply quiet_demo|reflexivity]|]). apply Forall_nil_2.
  - exists s'. vm_compute in Hs. injection Hs as <- <-. split; [vm_compute; reflexivity|].
    split; [vm_compute; reflexivity|]. split; [vm_compute; reflexivity|exact Hl].
Defined.

Lemma wasip3_reads_in_order_witness :
  exists s', (io_state_init 5 ;; run_reads3 (H := demo3) demo_reads) demo_ctx3 =
      Done [(-1, []); (-1, []); (1, [7]); (-1, []); (1, [7])] s' /\
    pending_bytes (io s') = [] /\ got (track_of (log s') 5) = [7; 7] /\ legal (log s').
Proof.
  destruct (wasip3_reads_in_order (H := demo3) (H0 := demo3_laws) 5 demo_reads demo_ctx3) as (rs & s' & Hs & Hl & _).
  - exact demo_new.
  - repeat (apply Forall_cons_2; [split; [apply quiet_demo|split; [discriminate|reflexivity]]|]). apply Forall_nil_2.
  - exists s'. vm_compute in Hs. injection Hs as <- <-. split; [vm_compute; reflexivity|].
    split; [vm_compute; reflexivity|]. split; [vm_compute; reflexivity|exact Hl].
Defined.

Lemma wasip3_close_flushes_witness :
  exists rs s', (io_state_init 5 ;; rs ← run_writes3 (H := demo3) demo_writes; wasip3_write_state_close (H := demo3) ;; mret rs) demo_ctx3 = Done rs s' /\
    sent (track_of (log s') 5) = [4; 5; 6; 8; 9] /\ legal (log s').
Proof.
  destruct (wasip3_close_flushes (H := demo3) (H0 := demo3_laws) 5 demo_writes demo_ctx3) as (rs & s' & Hs & Hl & _).
  - exact demo_new.
  - repeat (apply Forall_cons_2; [split; [apply quiet_demo|reflexivity]|]). apply Forall_nil_2.
  - exists rs, s'. split; [exact Hs|]. split; [|exact Hl]. vm_compute in Hs. injection Hs as <- <-. vm_compute. reflexivity.
Defined.
