(* ===== verification/Dirent1.v ===== *)
(** * Directory streams of wasip1

    cloudlibc/src/libc/dirent for wasip1: the host writes directory entries one
    after the other into a buffer, the last one cut off at its end; [readdir]
    takes them apart, and reads again from the cookie of the last entry it
    returned when the rest of the buffer is not enough.

    The imports are parameters: [fd_readdir fd size cookie] answers an error or
    the bytes it wrote, at most [size]. *)

From S2P Require Import Prelude Errno Stat Object File Tcp Udp Vtable Nocwd.

Definition DIRENT_DEFAULT_BUFFER_SIZE : Z := 4096.
Definition DIRCOOKIE_START : Z := 0.

(** [__wasi_dirent_t] *)
Record wasi_dirent := WasiDirent { e_next : Z; e_ino : Z; e_namlen : Z; e_type : Z }.
Definition sizeof_wasi_dirent : Z := 24.

(** [struct dirent]; [d_name] starts at byte 9. *)
Record dirent_t := Dirent { d_ino : Z; d_type : Z; d_name : cstr }.
Definition offsetof_d_name : Z := 9.

Record DIR := Dir {
  dir_fd : Z;
  cookie : Z;
  buffer : list Z;
  buffer_processed : Z;
  buffer_size : Z;
  buffer_used : Z;
  dirent : option dirent_t;
  dirent_size : Z;
}.

Record dctx := Dctx { dir : DIR; dir_env : env }.

Global Instance dctx_libc : Libc dctx := {
  errno s := env_errno (dir_env s);
  with_errno e s := Dctx (dir s) (with_errno e (dir_env s));
  take_alloc s := let (b, v) := take_alloc (dir_env s) in (b, Dctx (dir s) v);
}.

Definition update_dir (f : DIR -> DIR) : M dctx unit := modify (fun s => Dctx (f (dir s)) (dir_env s)).

(** [memcpy(&entry, p, sizeof(entry))] *)
Definition parse_dirent (l : list Z) : wasi_dirent :=
  WasiDirent (le_value (take 8 l)) (le_value (take 8 (drop 8 l))) (le_value (take 4 (drop 16 l))) (le_value (take 1 (drop 20 l))).

(** The bytes from [i] on, [n] of them, of the read buffer. *)
Definition read_buffer (i n : Z) : M dctx (list Z) :=
  d ← gets dir;
  if (0 <=? i) && (0 <=? n) && (i + n <=? Z.of_nat (length (buffer d))) then
    mret (take (Z.to_nat n) (drop (Z.to_nat i) (buffer d)))
  else halt Undef.

(** [while (new_size < target_size) new_size *= 2]; after 32 doublings the size
    is 0 and the loop would not end. *)
Fixpoint grow_size {St} (fuel : nat) (new_size target : Z) : M St Z :=
  if new_size <? target then
    match fuel with O => halt Fuel | S fuel' => grow_size fuel' (u32 (new_size * 2)) target end
  else mret new_size.

(** [grow]: the new size of the buffer, [None] when it could not be had. *)
Definition grow {St} `{Libc St} (size target : Z) : M St (option Z) :=
  if size <? target then
    new_size ← grow_size 32 size target;
    ok ← alloc_ok;
    if (ok : bool) then mret (Some new_size) else fail_with ENOMEM None
  else mret (Some size).

(** How a turn of the loop of [readdir] goes on. *)
Inductive turn := Return (r : option dirent_t) | Continue | Read_entries.

Definition set_processed (n : Z) (d : DIR) : DIR :=
  Dir (dir_fd d) (cookie d) (buffer d) n (buffer_size d) (buffer_used d) (dirent d) (dirent_size d).

Section code.
Context (fd_readdir : Z -> Z -> Z -> Z + list Z).
(** [fstatat] of sources/at_fdcwd.c *)
Context (fstatat : Z -> cstr -> Z -> M dctx (Z * option stat)).

(** A whole entry with the header [e], [name] behind it. *)
Definition take_entry (e : wasi_dirent) (entry_size : Z) (name : cstr) : M dctx turn :=
  d ← gets dir;
  size ← grow (dirent_size d) (u32 (offsetof_d_name + e_namlen e + 1));
  match (size : option Z) with
  | None => mret (Return None)
  | Some size =>
      update_dir (fun d => Dir (dir_fd d) (cookie d) (buffer d) (buffer_processed d) (buffer_size d) (buffer_used d)
        (Some (Dirent (default 0 (d_ino <$> dirent d)) (e_type e) name)) size) ;;
      st ← (if (e_ino e =? 0) && negb (streq name [DOT; DOT]) then
              r ← fstatat (dir_fd d) name AT_SYMLINK_NOFOLLOW;
              if negb (r.1 =? 0) then
                err ← gets errno;
                if err =? ENOENT then
                  update_dir (fun d => set_processed (u32 (buffer_processed d + entry_size)) d) ;; mret (inl Continue)
                else mret (inl (Return None))
              else
                statbuf ← deref r.2;
                mret (inr (st_ino statbuf, __wasilibc_iftodt (Z.land (st_mode statbuf) S_IFMT)))
            else mret (inr (e_ino e, e_type e)));
      match (st : turn + Z * Z) with
      | inl t => mret t
      | inr (ino, type) =>
          update_dir (fun d => Dir (dir_fd d) (e_next e) (buffer d) (u32 (buffer_processed d + entry_size)) (buffer_size d)
            (buffer_used d) (Some (Dirent ino type name)) (dirent_size d)) ;;
          mret (Return (Some (Dirent ino type name)))
      end
  end.

Definition readdir_turn : M dctx turn :=
  d ← gets dir;
  let buffer_left := u32 (buffer_used d - buffer_processed d) in
  if buffer_left <? sizeof_wasi_dirent then
    if buffer_used d <? buffer_size d then mret (Return None) else mret Read_entries
  else
  header ← read_buffer (buffer_processed d) sizeof_wasi_dirent;
  let e := parse_dirent header in
  let entry_size := u32 (sizeof_wasi_dirent + e_namlen e) in
  if e_namlen e =? 0 then
    update_dir (fun d => set_processed (u32 (buffer_processed d + entry_size)) d) ;; mret Continue
  else if buffer_left <? entry_size then
    size ← grow (buffer_size d) entry_size;
    match (size : option Z) with
    | None => mret (Return None)
    | Some size =>
        update_dir (fun d => Dir (dir_fd d) (cookie d) (buffer d ++ replicate (Z.to_nat (size - buffer_size d)) 0)
          (buffer_processed d) size (buffer_used d) (dirent d) (dirent_size d)) ;;
        mret Read_entries
    end
  else
  name ← read_buffer (buffer_processed d + sizeof_wasi_dirent) (e_namlen e);
  if bool_decide (0 ∈ name) then
    update_dir (fun d => set_processed (u32 (buffer_processed d + entry_size)) d) ;; mret Continue
  else take_entry e entry_size name.

(** [read_entries:], [false] being [return NULL]. *)
Definition read_entries : M dctx bool :=
  update_dir (fun d => Dir (dir_fd d) (cookie d) (buffer d) (buffer_size d) (buffer_size d) (buffer_size d) (dirent d) (dirent_size d)) ;;
  d ← gets dir;
  match fd_readdir (dir_fd d) (buffer_size d) (cookie d) with
  | inl error => fail_with error false
  | inr bytes =>
      update_dir (fun d => Dir (dir_fd d) (cookie d) (bytes ++ drop (length bytes) (buffer d)) 0 (buffer_size d)
        (Z.of_nat (length bytes)) (dirent d) (dirent_size d)) ;;
      mret true
  end.

Fixpoint readdir (fuel : nat) : M dctx (option dirent_t) :=
  match fuel with
  | O => halt Fuel
  | S fuel' =>
      t ← readdir_turn;
      match (t : turn) with
      | Return r => mret r
      | Continue => readdir fuel'
      | Read_entries => ok ← read_entries; if (ok : bool) then readdir fuel' else mret None
      end
  end.

(** [fdopendir]: the object is what the state has afterwards. *)
Definition fdopendir (fd : Z) : M dctx bool :=
  ok ← alloc_ok;
  if negb ok then mret false else
  ok ← alloc_ok;
  if negb ok then mret false else
  match fd_readdir fd DIRENT_DEFAULT_BUFFER_SIZE DIRCOOKIE_START with
  | inl error => fail_with error false
  | inr bytes =>
      update_dir (fun _ => Dir fd DIRCOOKIE_START (bytes ++ replicate (Z.to_nat DIRENT_DEFAULT_BUFFER_SIZE - length bytes) 0) 0
        DIRENT_DEFAULT_BUFFER_SIZE (Z.of_nat (length bytes)) None 1) ;;
      mret true
  end.
End code.

Definition stale (c : Z) (d : DIR) : DIR :=
  Dir (dir_fd d) c (buffer d) (buffer_size d) (buffer_size d) (buffer_size d) (dirent d) (dirent_size d).

Definition rewinddir : M dctx unit := update_dir (stale DIRCOOKIE_START).

(** [long] has 32 bits: the cookie is cut off. *)
Definition telldir : M dctx Z := gets (fun s => i32 (cookie (dir s))).
Definition seekdir (loc : Z) : M dctx unit := update_dir (stale (u32 loc)).

Definition dirfd : M dctx Z := gets (fun s => dir_fd (dir s)).

(** Frees the object; the descriptor stays open. *)
Definition fdclosedir : M dctx Z := dirfd.
