(* ===== verification/Dirent1Props.v ===== *)
(** * Directory streams of wasip1: theorems

    [readdir] returns the entries of the host's directory, each once and in
    order, however the host's bytes are cut at the end of the buffer; and
    [seekdir] returns to where [telldir] was called. *)

From S2P Require Import Prelude Errno Time Stat Object File Tcp Udp Vtable Nocwd Dirent1.

(** ** The directory of the host *)

(** An entry of the directory; [h_next] is the cookie behind it. *)
Record hentry := Hentry { h_next : Z; h_ino : Z; h_type : Z; h_name : cstr }.

Definition header (e : hentry) : list Z :=
  le_bytes 8 (h_next e) ++ le_bytes 8 (h_ino e) ++ le_bytes 4 (strlen (h_name e)) ++ le_bytes 1 (h_type e) ++ [0; 0; 0].

(** An entry as the host writes it. *)
Definition encode (e : hentry) : list Z := header e ++ h_name e.

Record entry_ok (e : hentry) : Prop := {
  ok_next : 0 <= h_next e < 2 ^ 64;
  ok_ino : 0 <= h_ino e < 2 ^ 64;
  ok_type : 0 <= h_type e < 256;
  ok_name : wf_cstr (h_name e);
  ok_length : 0 < strlen (h_name e) < 2 ^ 29;
}.

Lemma length_header e : length (header e) = 24%nat.
Proof. unfold header. by rewrite !length_app, !length_le_bytes. Qed.

Lemma length_encode e : Z.of_nat (length (encode e)) = 24 + strlen (h_name e).
Proof. unfold encode, strlen. rewrite length_app, length_header. lia. Qed.

Lemma parse_header e : entry_ok e -> parse_dirent (header e) = WasiDirent (h_next e) (h_ino e) (strlen (h_name e)) (h_type e).
Proof.
  intros [Hn Hi Ht _ Hl].
  change (parse_dirent (header e)) with (WasiDirent (le_value (le_bytes 8 (h_next e))) (le_value (le_bytes 8 (h_ino e)))
    (le_value (le_bytes 4 (strlen (h_name e)))) (le_value (le_bytes 1 (h_type e)))).
  change (2 ^ 64) with (256 ^ Z.of_nat 8) in *.
  rewrite !le_value_bytes; [done|..]; try done; change (256 ^ Z.of_nat 4) with (2 ^ 32); lia.
Qed.

(** The cookie behind the first [k] entries. *)
Definition cookie_at (es : list hentry) (k : nat) : Z :=
  match k with O => DIRCOOKIE_START | S k' => default 0 (h_next <$> es !! k') end.

(** What the host writes for the entries from [k] on. *)
Definition bytes_from (es : list hentry) (k : nat) : list Z := concat (encode <$> drop k es).

(** The documented behaviour of [fd_readdir] on a directory that does not
    change: the entries behind the cookie, cut off at the end of the buffer. *)
Definition lists (fd : Z) (es : list hentry) (fd_readdir : Z -> Z -> Z -> Z + list Z) : Prop :=
  forall size k, (k <= length es)%nat -> 0 <= size -> fd_readdir fd size (cookie_at es k) = inr (take (Z.to_nat size) (bytes_from es k)).

Lemma bytes_from_cons es k e : es !! k = Some e -> bytes_from es k = encode e ++ bytes_from es (S k).
Proof. intros He. unfold bytes_from. by rewrite (drop_S _ _ _ He). Qed.

Lemma bytes_from_end es k : (length es <= k)%nat -> bytes_from es k = [].
Proof. intros. unfold bytes_from. by rewrite drop_ge. Qed.

(** ** Growing *)

Lemma grow_size_ok {St} fuel size target (s : St) :
  0 < size -> target <= 2 ^ 31 -> target <= size * 2 ^ Z.of_nat fuel ->
  exists n, grow_size fuel size target s = Done n s /\ Z.max size target <= n /\ n < Z.max (size + 1) (2 * target).
Proof.
  revert size. induction fuel as [|fuel IH]; intros size Hs Ht Hf; cbn [grow_size].
  - rewrite (proj2 (Z.ltb_ge _ _)) by (simpl in Hf; lia). exists size. split; [done|lia].
  - destruct (Z.ltb_spec size target) as [Hl|Hl]; [|exists size; split; [done|lia]].
    rewrite u32_small by lia. rewrite Nat2Z.inj_succ, Z.pow_succ_r in Hf by lia.
    destruct (IH (size * 2)) as (n & Hn & H1 & H2); [lia|lia|lia|]. exists n. split; [done|lia].
Qed.

Lemma wp_grow {St} `{Libc St} size target (Q : option Z -> St -> Prop) s :
  0 < size -> target <= 2 ^ 31 -> take_alloc s = (true, s) ->
  (forall n, Z.max size target <= n -> n < Z.max (size + 1) (2 * target) -> Q (Some n) s) -> wp (grow size target) Q s.
Proof.
  intros Hs Ht Ha HQ. unfold grow. destruct (Z.ltb_spec size target) as [Hl|Hl]; [|apply wp_ret, HQ; lia].
  apply wp_bind. destruct (grow_size_ok 32 size target s) as (n & Hn & H1 & H2); [lia|lia|simpl; lia|].
  unfold wp at 1. rewrite Hn. apply wp_bind, wp_alloc_ok. rewrite Ha. intros b s' [= <- <-]. apply wp_ret, HQ; lia.
Qed.

Lemma dctx_allocs s : env_allocs (dir_env s) = [] -> take_alloc s = (true, s).
Proof. destruct s as [d [e al]]. cbn. by intros ->. Qed.

(** ** The invariant of a directory stream *)

Section readdir.
Context (fd : Z) (es : list hentry) (fd_readdir : Z -> Z -> Z -> Z + list Z).
Context (fstatat : Z -> cstr -> Z -> M dctx (Z * option stat)) (stat_of : cstr -> stat).
Hypothesis Hes : Forall entry_ok es.
Hypothesis Hlists : lists fd es fd_readdir.
Hypothesis Hstat : forall name s, fstatat fd name AT_SYMLINK_NOFOLLOW s = Done (0, Some (stat_of name)) s.

(** What [readdir] returns for an entry: the host may leave out the inode. *)
Definition seen (e : hentry) : dirent_t :=
  if (h_ino e =? 0) && negb (streq (h_name e) [DOT; DOT]) then
    Dirent (st_ino (stat_of (h_name e))) (__wasilibc_iftodt (Z.land (st_mode (stat_of (h_name e))) S_IFMT)) (h_name e)
  else Dirent (h_ino e) (h_type e) (h_name e).

(** The next entry is the [k]th: the cookie is behind the entries before it. *)
Record dbase (k : nat) (s : dctx) : Prop := Dbase {
  di_fd : dir_fd (dir s) = fd;
  di_pos : (k <= length es)%nat;
  di_cookie : cookie (dir s) = cookie_at es k;
  di_length : Z.of_nat (length (buffer (dir s))) = buffer_size (dir s);
  di_size : 4096 <= buffer_size (dir s) <= 2 ^ 31;
  di_dirent : 0 < dirent_size (dir s) <= 2 ^ 31;
  di_allocs : env_allocs (dir_env s) = [];
}.

(** The unprocessed bytes of the buffer are the beginning of what the host
    writes from there. *)
Record dinv (k : nat) (s : dctx) : Prop := Dinv {
  di_base : dbase k s;
  di_used : 0 <= buffer_processed (dir s) <= buffer_used (dir s);
  di_used2 : buffer_used (dir s) <= buffer_size (dir s);
  di_bytes : drop (Z.to_nat (buffer_processed (dir s))) (take (Z.to_nat (buffer_used (dir s))) (buffer (dir s))) =
    take (Z.to_nat (buffer_size (dir s) - buffer_processed (dir s))) (bytes_from es k);
}.

(** How many bytes are left, as the code computes it. *)
Definition left (s : dctx) : Z := buffer_used (dir s) - buffer_processed (dir s).

Lemma left_min k s : dinv k s -> left s = Z.min (buffer_size (dir s) - buffer_processed (dir s)) (Z.of_nat (length (bytes_from es k))).
Proof.
  intros [[] ? ? ?]. apply (f_equal length) in di_bytes0. rewrite length_drop, !length_take in di_bytes0. unfold left. lia.
Qed.

(** Bytes read from the unprocessed part of the buffer. *)
Lemma wp_read_buffer k i n (Q : list Z -> dctx -> Prop) s :
  dinv k s -> 0 <= i -> 0 <= n -> i + n <= left s ->
  Q (take (Z.to_nat n) (drop (Z.to_nat i) (bytes_from es k))) s -> wp (read_buffer (buffer_processed (dir s) + i) n) Q s.
Proof.
  intros Hs Hi Hn Hl HQ. pose proof (left_min _ _ Hs) as Hm. destruct Hs as [[] ? ? ?]. unfold read_buffer, left in *. apply wp_bind, wp_gets.
  replace (_ && _) with true by lia. apply wp_ret. revert HQ.
  apply (f_equal (fun l => take (Z.to_nat n) (drop (Z.to_nat i) l))) in di_bytes0.
  rewrite drop_drop, skipn_firstn_comm, take_take, Nat.min_l in di_bytes0 by lia.
  rewrite (skipn_firstn_comm (Z.to_nat i)), take_take, Nat.min_l in di_bytes0 by lia.
  rewrite <- di_bytes0. by replace (Z.to_nat (buffer_processed (dir s) + i)) with (Z.to_nat (buffer_processed (dir s)) + Z.to_nat i)%nat by lia.
Qed.

Lemma dinv_read_entries k s (Q : bool -> dctx -> Prop) :
  dbase k s ->
  (forall s', dinv k s' -> buffer_processed (dir s') = 0 -> buffer_size (dir s') = buffer_size (dir s) -> Q true s') ->
  wp (read_entries fd_readdir) Q s.
Proof.
  intros [] HQ. unfold read_entries. apply wp_bind, wp_modify. apply wp_bind, wp_gets. cbn [dir dir_fd buffer_size cookie].
  rewrite di_fd0, di_cookie0, (Hlists _ _ di_pos0) by lia.
  apply wp_bind, wp_modify. apply wp_ret, HQ; [|done|done].
  set (bytes := take _ _). assert (Hb : Z.of_nat (length bytes) <= buffer_size (dir s)) by (unfold bytes; rewrite length_take; lia).
  split; [split|..]; cbn; try done; try lia.
  - rewrite length_app, length_drop. lia.
  - rewrite Nat2Z.id, drop_0, take_app_length, Z.sub_0_r. done.
Qed.

Lemma entry_of k e : es !! k = Some e -> entry_ok e.
Proof. intros He. eapply Forall_lookup_1; [exact Hes|exact He]. Qed.

(** Moves on to the next entry. *)
Lemma dinv_next k e s d :
  dinv k s -> es !! k = Some e -> Z.of_nat (length (encode e)) <= left s ->
  dir_fd d = fd -> cookie d = h_next e -> buffer d = buffer (dir s) -> buffer_size d = buffer_size (dir s) ->
  buffer_used d = buffer_used (dir s) -> buffer_processed d = buffer_processed (dir s) + Z.of_nat (length (encode e)) ->
  0 < dirent_size d <= 2 ^ 31 -> dinv (S k) (Dctx d (dir_env s)).
Proof.
  intros [[] ? ? ?] He Hl Hfd Hc Hb Hsz Hu Hp Hds. unfold left in Hl. split; [split|..]; cbn [dir dir_env]; rewrite ?Hb, ?Hsz, ?Hu, ?Hp; try done; try lia.
  - apply lookup_lt_Some in He. lia.
  - rewrite Hc. cbn. by rewrite He.
  - replace (Z.to_nat (buffer_processed (dir s) + Z.of_nat (length (encode e)))) with (Z.to_nat (buffer_processed (dir s)) + length (encode e))%nat by lia.
    rewrite <- drop_drop, di_bytes0, (bytes_from_cons _ _ _ He), skipn_firstn_comm, drop_app_length. f_equal. lia.
Qed.

Lemma wp_take_entry k e (Q : turn -> dctx -> Prop) s :
  dinv k s -> es !! k = Some e -> Z.of_nat (length (encode e)) <= left s ->
  (forall s', dinv (S k) s' -> Q (Return (Some (seen e))) s') ->
  wp (take_entry fstatat (WasiDirent (h_next e) (h_ino e) (strlen (h_name e)) (h_type e)) (24 + strlen (h_name e)) (h_name e)) Q s.
Proof.
  intros Hs He Hl HQ. pose proof (entry_of _ _ He) as Hok. pose proof (ok_length _ Hok) as Hlen. pose proof Hs as [[] ? ? ?].
  unfold take_entry. apply wp_bind, wp_gets. cbn [e_namlen e_ino e_type e_next].
  assert (Hnext : forall d, dir_fd d = fd -> cookie d = h_next e -> buffer d = buffer (dir s) -> buffer_size d = buffer_size (dir s) ->
    buffer_used d = buffer_used (dir s) -> buffer_processed d = u32 (buffer_processed (dir s) + (24 + strlen (h_name e))) ->
    0 < dirent_size d <= 2 ^ 31 -> dinv (S k) (Dctx d (dir_env s))).
  { intros d ? ? ? ? ? Hp ?. apply (dinv_next k e s d); try done. rewrite Hp, length_encode, u32_small; [done|].
    rewrite length_encode in Hl. unfold left in Hl. lia. }
  apply wp_bind. unfold offsetof_d_name. rewrite u32_small by lia. apply wp_grow; [lia|lia|by apply dctx_allocs|]. intros n Hn1 Hn2.
  apply wp_bind, wp_modify. apply wp_bind. unfold seen in HQ. destruct (_ && _).
  - apply wp_bind. unfold wp at 1. rewrite di_fd0, Hstat. cbn [fst snd Z.eqb negb]. apply wp_bind, (wp_deref _ (stat_of (h_name e))); [done|].
    apply wp_ret, wp_bind, wp_modify, wp_ret, HQ. cbn [dir dir_env]. apply Hnext; try done; cbn [dirent_size]; lia.
  - apply wp_ret, wp_bind, wp_modify, wp_ret, HQ. cbn [dir dir_env]. apply Hnext; try done; cbn [dirent_size]; lia.
Qed.

Lemma wp_turn k e (Q : turn -> dctx -> Prop) s :
  dinv k s -> es !! k = Some e ->
  (forall s', dinv (S k) s' -> Q (Return (Some (seen e))) s') ->
  (forall s', dbase k s' -> (24 <= left s -> Z.of_nat (length (encode e)) <= buffer_size (dir s')) ->
     buffer_size (dir s) <= buffer_size (dir s') ->
     left s < Z.of_nat (length (encode e)) -> Q Read_entries s') ->
  wp (readdir_turn fstatat) Q s.
Proof.
  intros Hs He HR HE. pose proof (entry_of _ _ He) as Hok. pose proof (ok_length _ Hok) as Hlen. pose proof (length_encode e) as Hle.
  pose proof (left_min _ _ Hs) as Hmin. rewrite (bytes_from_cons _ _ _ He), length_app in Hmin. pose proof Hs as [[] ? ? ?].
  unfold readdir_turn. apply wp_bind, wp_gets. fold (left s). rewrite u32_small by (unfold left; lia). unfold sizeof_wasi_dirent.
  destruct (Z.ltb_spec (left s) 24) as [Hl|Hl].
  { rewrite (proj2 (Z.ltb_ge _ _)) by (unfold left in *; lia). apply wp_ret, HE; [apply Hs|lia|lia|lia]. }
  apply wp_bind. replace (buffer_processed (dir s)) with (buffer_processed (dir s) + 0) at 1 by lia.
  eapply wp_read_buffer; [done|lia|lia|lia|]. rewrite drop_0, (bytes_from_cons _ _ _ He).
  assert (Hpar : parse_dirent (take (Z.to_nat 24) (encode e ++ bytes_from es (S k))) = WasiDirent (h_next e) (h_ino e) (strlen (h_name e)) (h_type e)).
  { unfold encode. rewrite <- app_assoc, take_app_length' by by rewrite length_header. by apply parse_header. }
  cbv zeta. rewrite Hpar. cbn [e_namlen].
  rewrite (proj2 (Z.eqb_neq _ _)) by lia. rewrite (u32_small (24 + strlen (h_name e))) by lia.
  destruct (Z.ltb_spec (left s) (24 + strlen (h_name e))) as [Hl2|Hl2].
  - apply wp_bind, wp_grow; [lia|lia|by apply dctx_allocs|]. intros n Hn1 Hn2. apply wp_bind, wp_modify. apply wp_ret, HE; [|cbn [dir buffer_size]; lia..|lia].
    split; cbn [dir dir_env dir_fd cookie buffer buffer_size buffer_processed buffer_used dirent_size]; try done; try lia.
    rewrite length_app, length_replicate. lia.
  - apply wp_bind. eapply wp_read_buffer; [done|lia|lia|lia|].
    assert (Hname : take (Z.to_nat (strlen (h_name e))) (drop (Z.to_nat 24) (bytes_from es k)) = h_name e).
    { rewrite (bytes_from_cons _ _ _ He). unfold encode, strlen.
      rewrite <- app_assoc, drop_app_length' by by rewrite length_header. by rewrite Nat2Z.id, take_app_length. }
    rewrite Hname.
    rewrite bool_decide_eq_false_2.
    { eapply wp_take_entry; [done|done|lia|done]. }
    intros Hin. pose proof (ok_name _ Hok) as Hn. unfold wf_cstr in Hn. rewrite list.Forall_forall in Hn. specialize (Hn _ Hin). lia.
Qed.

Lemma wp_turn_end (Q : turn -> dctx -> Prop) s :
  dinv (length es) s ->
  (dinv (length es) s -> Q (Return None) s) ->
  (buffer_used (dir s) = buffer_size (dir s) -> Q Read_entries s) ->
  wp (readdir_turn fstatat) Q s.
Proof.
  intros Hs HR HE. pose proof (left_min _ _ Hs) as Hmin. rewrite bytes_from_end in Hmin by done. cbn in Hmin. pose proof Hs as [[] ? ? ?].
  unfold readdir_turn. apply wp_bind, wp_gets. fold (left s). rewrite u32_small by (unfold left; lia). unfold sizeof_wasi_dirent.
  rewrite (proj2 (Z.ltb_lt (left s) 24)) by lia.
  destruct (Z.ltb_spec (buffer_used (dir s)) (buffer_size (dir s))); apply wp_ret; [by apply HR|apply HE; lia].
Qed.

(** A call of [readdir] in the middle of the directory and at its end. *)
Lemma wp_readdir fuel k e (Q : option dirent_t -> dctx -> Prop) s :
  dinv k s -> es !! k = Some e -> (forall s', dinv (S k) s' -> Q (Some (seen e)) s') ->
  wp (readdir fd_readdir fstatat (S (S (S fuel)))) Q s.
Proof.
  intros Hs He HQ. pose proof (entry_of _ _ He) as Hok. pose proof (ok_length _ Hok) as Hlen. pose proof (length_encode e) as Hle.
  cbn [readdir]. apply wp_bind. eapply wp_turn; [done|done| |]; [intros; by apply wp_ret, HQ|].
  intros s1 H1 _ _ _. apply wp_bind. eapply dinv_read_entries; [done|]. intros s2 H2 Hp2 Hsz2.
  assert (Hleft : forall s', dinv k s' -> buffer_processed (dir s') = 0 -> 24 <= left s').
  { intros s' Hs' Hp. rewrite (left_min _ _ Hs'), (bytes_from_cons _ _ _ He), length_app, Hp. destruct Hs' as [[] ? ? ?]. lia. }
  apply wp_bind. eapply wp_turn; [done|done| |]; [intros; by apply wp_ret, HQ|].
  intros s3 H3 Hsz3 _ _. apply wp_bind. eapply dinv_read_entries; [done|]. intros s4 H4 Hp4 Hsz4.
  apply wp_bind. eapply wp_turn; [done|done| |]; [intros; by apply wp_ret, HQ|].
  intros s5 H5 _ _ Hl. exfalso. rewrite (left_min _ _ H4), (bytes_from_cons _ _ _ He), length_app, Hp4 in Hl.
  specialize (Hsz3 (Hleft _ H2 Hp2)). lia.
Qed.

Lemma wp_readdir_end fuel (Q : option dirent_t -> dctx -> Prop) s :
  dinv (length es) s -> (forall s', dinv (length es) s' -> Q None s') ->
  wp (readdir fd_readdir fstatat (S (S fuel))) Q s.
Proof.
  intros Hs HQ. cbn [readdir]. apply wp_bind. eapply wp_turn_end; [done|by intros; apply wp_ret, HQ|]. intros _.
  apply wp_bind. eapply dinv_read_entries; [apply Hs|]. intros s2 H2 Hp2 Hsz2.
  apply wp_bind. eapply wp_turn_end; [done|by intros; apply wp_ret, HQ|]. intros Hu. exfalso.
  pose proof (left_min _ _ H2) as Hmin. rewrite bytes_from_end in Hmin by done. cbn in Hmin. unfold left in Hmin.
  destruct H2 as [[] ? ? ?]. lia.
Qed.
End readdir.

(** ** Theorems *)

Section theorems.
Context (fd : Z) (es : list hentry) (fd_readdir : Z -> Z -> Z -> Z + list Z).
Context (fstatat : Z -> cstr -> Z -> M dctx (Z * option stat)) (stat_of : cstr -> stat) (fuel : nat).

(** [n] calls of [readdir]. *)
Fixpoint readdirs (n : nat) : M dctx (list (option dirent_t)) :=
  match n with
  | O => mret []
  | S n' => r ← readdir fd_readdir fstatat (S (S (S fuel))); rs ← readdirs n'; mret (r :: rs)
  end.

Record dir_host : Prop := {
  dh_entries : Forall entry_ok es;
  dh_lists : lists fd es fd_readdir;
  dh_stat name s : fstatat fd name AT_SYMLINK_NOFOLLOW s = Done (0, Some (stat_of name)) s;
}.

Lemma wp_fdopendir (Q : bool -> dctx -> Prop) s :
  dir_host -> env_allocs (dir_env s) = [] -> (forall s', dinv fd es 0 s' -> Q true s') -> wp (fdopendir fd_readdir fd) Q s.
Proof.
  intros [He Hl _] Ha HQ. destruct s as [d [e al]]. cbn in Ha. subst al. unfold fdopendir.
  do 2 (apply wp_bind; unfold wp at 1; cbn [alloc_ok take_alloc dctx_libc env_libc dir_env env_allocs dir negb]).
  pose proof (Hl 4096 0%nat (Nat.le_0_l _) ltac:(lia)) as Hread. cbn [cookie_at] in Hread.
  unfold DIRENT_DEFAULT_BUFFER_SIZE. rewrite Hread. apply wp_bind, wp_modify. apply wp_ret, HQ.
  set (bytes := take _ _). assert (Hb : (length bytes <= 4096)%nat) by (unfold bytes; rewrite length_take; lia).
  split; [split|..]; cbn [dir dir_env dir_fd cookie buffer buffer_size buffer_processed buffer_used dirent_size]; try done; try lia.
  - rewrite length_app, length_replicate. lia.
  - by rewrite Nat2Z.id, drop_0, take_app_length, Z.sub_0_r.
Qed.

Lemma wp_readdirs n k (Q : list (option dirent_t) -> dctx -> Prop) s :
  dir_host -> dinv fd es k s ->
  (forall s', dinv fd es (min (k + n) (length es)) s' ->
     Q (take n ((Some ∘ seen stat_of <$> drop k es) ++ replicate n None)) s') ->
  wp (readdirs n) Q s.
Proof.
  intros Hh. revert k s Q. induction n as [|n IH]; intros k s Q Hs HQ.
  { apply wp_ret, HQ. rewrite Nat.add_0_r. pose proof Hs as [[] ? ? ?]. by rewrite Nat.min_l by lia. }
  cbn [readdirs]. apply wp_bind. destruct Hh as [He Hl Hst]. destruct (es !! k) as [e|] eqn:Ek.
  - eapply wp_readdir; [done..|]. intros s1 H1. apply wp_bind. eapply IH; [exact H1|]. intros s2 H2. apply wp_ret.
    rewrite (drop_S _ _ _ Ek) in HQ. rewrite Nat.add_succ_comm in H2. specialize (HQ s2 H2). cbn in HQ.
    replace (take n ((Some ∘ seen stat_of <$> drop (S k) es) ++ replicate n None))
      with (take n ((Some ∘ seen stat_of <$> drop (S k) es) ++ None :: replicate n None)); [exact HQ|].
    change (None :: replicate n None) with (replicate (S n) (@None dirent_t)).
    rewrite replicate_S_end, app_assoc, take_app_le; [done|]. rewrite length_app, length_replicate. lia.
  - pose proof Hs as [[] ? ? ?]. apply lookup_ge_None in Ek. assert (k = length es) as -> by lia.
    eapply wp_readdir_end; [done..|]. intros s1 H1. apply wp_bind. eapply IH; [exact H1|]. intros s2 H2. apply wp_ret.
    rewrite !drop_ge in * by done. cbn in HQ. rewrite Nat.min_r in * by lia. specialize (HQ s2 H2).
    rewrite fmap_nil, app_nil_l in *. rewrite !take_ge in * by (rewrite length_replicate; lia). exact HQ.
Qed.

(** C35: On a directory that does not change, [fdopendir] and [readdir] return its
    entries, each once and in order, and then the end for ever, wherever the
    host cuts off the entries at the end of the buffer and however long their
    names are. *)
Theorem readdir1_lists_directory extra s :
  dir_host -> env_allocs (dir_env s) = [] ->
  exists s', (fdopendir fd_readdir fd ;; readdirs (length es + extra)) s =
    Done ((Some ∘ seen stat_of <$> es) ++ replicate extra None) s'.
Proof.
  intros Hh Ha. cut (wp (fdopendir fd_readdir fd ;; readdirs (length es + extra))
    (fun rs _ => rs = (Some ∘ seen stat_of <$> es) ++ replicate extra None) s).
  { intros (rs & s' & Hs & ->)%wp_done. by exists s'. }
  apply wp_bind. apply wp_fdopendir; [done|done|]. intros s1 H1. eapply wp_readdirs; [done|exact H1|]. intros s2 _.
  rewrite drop_0, take_app, take_ge by (rewrite length_fmap; lia). rewrite length_fmap. do 2 f_equal.
  rewrite take_replicate. f_equal. lia.
Qed.

Lemma dinv_stale j k s :
  dinv fd es j s -> (k <= length es)%nat -> dinv fd es k (Dctx (stale (cookie_at es k) (dir s)) (dir_env s)).
Proof.
  intros [[] ? ? ?] ?. split; [by split|..]; cbn [stale dir buffer_processed buffer_used buffer_size buffer]; try lia.
  rewrite Z.sub_diag, take_0, drop_ge; [done|]. rewrite length_take. lia.
Qed.

Lemma wp_rewinddir j (Q : unit -> dctx -> Prop) s :
  dinv fd es j s -> (forall s', dinv fd es 0 s' -> Q tt s') -> wp rewinddir Q s.
Proof. intros Hs HQ. apply wp_modify, HQ. apply (dinv_stale j 0); [done|lia]. Qed.

Lemma wp_telldir k (Q : Z -> dctx -> Prop) s :
  dinv fd es k s -> Q (i32 (cookie_at es k)) s -> wp telldir Q s.
Proof. intros [[] _ _ _] HQ. apply wp_gets. by rewrite di_cookie0. Qed.

Lemma wp_seekdir j k (Q : unit -> dctx -> Prop) s :
  dinv fd es j s -> (k <= length es)%nat -> 0 <= cookie_at es k < 2 ^ 32 ->
  (forall s', dinv fd es k s' -> Q tt s') -> wp (seekdir (i32 (cookie_at es k))) Q s.
Proof.
  intros Hs Hk Hc HQ. apply wp_modify, HQ. rewrite u32_i32, u32_small by done. by apply (dinv_stale j).
Qed.

(** A position [telldir] returned after [k] entries can be given to [seekdir]
    whatever was read in between: what follows are the entries from the [k]th
    on.  The cookie has to fit the 32 bits of [long]. *)
Theorem seekdir1_returns k j n s :
  dir_host -> env_allocs (dir_env s) = [] -> (k <= length es)%nat -> 0 <= cookie_at es k < 2 ^ 32 ->
  exists s', (fdopendir fd_readdir fd ;; readdirs k ;; pos ← telldir; readdirs j ;; seekdir pos ;; readdirs n) s =
    Done (take n ((Some ∘ seen stat_of <$> drop k es) ++ replicate n None)) s'.
Proof.
  intros Hh Ha Hk Hc. set (m := fdopendir fd_readdir fd ;; _).
  cut (wp m (fun rs _ => rs = take n ((Some ∘ seen stat_of <$> drop k es) ++ replicate n None)) s).
  { intros (rs & s' & Hs & ->)%wp_done. by exists s'. }
  apply wp_bind, wp_fdopendir; [done..|]. intros s1 H1.
  apply wp_bind. eapply wp_readdirs; [done|exact H1|]. intros s2 H2. rewrite Nat.add_0_l, Nat.min_l in H2 by done.
  apply wp_bind. eapply wp_telldir; [exact H2|].
  apply wp_bind. eapply wp_readdirs; [done|exact H2|]. intros s3 H3.
  apply wp_bind. eapply wp_seekdir; [exact H3|done..|]. intros s4 H4.
  eapply wp_readdirs; [done|exact H4|]. done.
Qed.

(** After [rewinddir] the whole directory is read again. *)
Theorem rewinddir1_starts_over k s :
  dir_host -> env_allocs (dir_env s) = [] ->
  exists s', (fdopendir fd_readdir fd ;; readdirs k ;; rewinddir ;; readdirs (length es)) s = Done (Some ∘ seen stat_of <$> es) s'.
Proof.
  intros Hh Ha. set (m := fdopendir fd_readdir fd ;; _). cut (wp m (fun rs _ => rs = (Some ∘ seen stat_of <$> es)) s).
  { intros (rs & s' & Hs & ->)%wp_done. by exists s'. }
  apply wp_bind, wp_fdopendir; [done..|]. intros s1 H1.
  apply wp_bind. eapply wp_readdirs; [done|exact H1|]. intros s2 H2.
  apply wp_bind. eapply wp_rewinddir; [exact H2|]. intros s3 H3.
  eapply wp_readdirs; [done|exact H3|]. intros s4 _. rewrite drop_0. apply take_app_length'. by rewrite length_fmap.
Qed.
End theorems.

(** ** A directory of two entries, the second without its inode *)

Definition demo_entries : list hentry := [Hentry 7 5 3 [DOT]; Hentry 9 0 0 [97]].

Definition demo_readdir (fd size cookie : Z) : Z + list Z :=
  if fd =? 3 then
    inr (take (Z.to_nat size) (bytes_from demo_entries (if cookie =? 0 then 0 else if cookie =? 7 then 1 else 2)))
  else inl EBADF.

Definition demo_stat (name : cstr) : stat := Stat 1 12 1 S_IFREG 0 (Timespec 0 0) (Timespec 0 0) (Timespec 0 0).

Definition demo_fstatat (fd : Z) (name : cstr) (flag : Z) : M dctx (Z * option stat) := mret (0, Some (demo_stat name)).

Lemma demo_dir_host : dir_host 3 demo_entries demo_readdir demo_fstatat demo_stat.
Proof.
  split; [|intros size k Hk Hs|done].
  - repeat constructor; cbn; try lia; by vm_compute.
  - destruct k as [|[|[|k]]]; cbn in Hk; [done..|lia].
Qed.

Definition demo_dctx : dctx := Dctx (Dir 0 0 [] 0 0 0 None 0) (Env 0 []).

Lemma readdir1_lists_directory_witness :
  exists s', (fdopendir demo_readdir 3 ;; readdirs demo_readdir demo_fstatat 0 3) demo_dctx =
    Done [Some (Dirent 5 3 [DOT]); Some (Dirent 12 DT_REG [97]); None] s'.
Proof. exact (readdir1_lists_directory 3 demo_entries demo_readdir demo_fstatat demo_stat 0 1 demo_dctx demo_dir_host eq_refl). Defined.

Lemma seekdir1_returns_witness :
  exists s', (fdopendir demo_readdir 3 ;; readdirs demo_readdir demo_fstatat 0 1 ;; pos ← telldir;
      readdirs demo_readdir demo_fstatat 0 2 ;; seekdir pos ;; readdirs demo_readdir demo_fstatat 0 2) demo_dctx =
    Done [Some (Dirent 12 DT_REG [97]); None] s'.
Proof.
  refine (seekdir1_returns 3 demo_entries demo_readdir demo_fstatat demo_stat 0 1 2 2 demo_dctx demo_dir_host eq_refl _ _); [cbn|split]; cbn; lia.
Defined.

Lemma rewinddir1_starts_over_witness :
  exists s', (fdopendir demo_readdir 3 ;; readdirs demo_readdir demo_fstatat 0 3 ;; rewinddir ;; readdirs demo_readdir demo_fstatat 0 2)
    demo_dctx = Done [Some (Dirent 5 3 [DOT]); Some (Dirent 12 DT_REG [97])] s'.
Proof. exact (rewinddir1_starts_over 3 demo_entries demo_readdir demo_fstatat demo_stat 0 3 demo_dctx demo_dir_host eq_refl). Defined.

(** A host whose cookies do not fit 32 bits: the position after the first entry
    is the one of the start. *)
Definition wide_entries : list hentry := [Hentry (2 ^ 32) 5 3 [DOT]; Hentry (2 ^ 32 + 1) 6 4 [97]].

Definition wide_readdir (fd size cookie : Z) : Z + list Z :=
  if fd =? 3 then
    inr (take (Z.to_nat size) (bytes_from wide_entries (if cookie =? 0 then 0 else if cookie =? 2 ^ 32 then 1 else 2)))
  else inl EBADF.

Lemma wide_dir_host : dir_host 3 wide_entries wide_readdir demo_fstatat demo_stat.
Proof.
  split; [|intros size k Hk Hs|done].
  - repeat constructor; cbn; try lia; by vm_compute.
  - destruct k as [|[|[|k]]]; cbn in Hk; [done..|lia].
Qed.

(** On a host with 64-bit cookies [seekdir (telldir ())] does not return to
    where [telldir] was called: the first entry is read a second time. *)
Theorem seekdir1_loses_cookie :
  dir_host 3 wide_entries wide_readdir demo_fstatat demo_stat /\
  exists s', (fdopendir wide_readdir 3 ;; first ← readdirs wide_readdir demo_fstatat 0 1; pos ← telldir; seekdir pos ;;
      again ← readdirs wide_readdir demo_fstatat 0 1; mret (first, again)) demo_dctx =
    Done ([Some (Dirent 5 3 [DOT])], [Some (Dirent 5 3 [DOT])]) s'.
Proof. split; [apply wide_dir_host|]. eexists. by vm_compute. Qed.
