(* ===== verification/Dirent2.v ===== *)
(** * Directory streams of wasip2

    cloudlibc/src/libc/dirent for wasip2: the host gives one entry at a time;
    the library adds the entries [.] and [..], counts what it has returned, and
    seeks by starting over and skipping. An operation takes the object and
    returns it with its result. *)

From S2P Require Import Prelude Errno Utf8 Time Stat SockAddr Host DescTable Object File Tcp Udp Vtable FdOps Nocwd Preopens Cwd Posix Dirent1.

Definition dir_entry_type_to_d_type (ty : filetype) : Z :=
  match ty with
  | UNKNOWN => DT_UNKNOWN
  | BLOCK_DEVICE => DT_BLK
  | CHARACTER_DEVICE => DT_CHR
  | DIRECTORY => DT_DIR
  | FIFO => DT_FIFO
  | SYMBOLIC_LINK => DT_LNK
  | REGULAR_FILE => DT_REG
  | SOCKET => DT_SOCK
  | OTHER => DT_UNKNOWN
  end.

Record DIR2 := Dir2 {
  dir2_fd : Z;
  stream : Z;
  skip : Z;
  dir_offset : Z;
  dirent2 : option dirent_t;
  dirent2_size : Z;
}.

Definition set_stream (h : Z) (d : DIR2) : DIR2 := Dir2 (dir2_fd d) h (skip d) (dir_offset d) (dirent2 d) (dirent2_size d).
Definition set_skip (n : Z) (d : DIR2) : DIR2 := Dir2 (dir2_fd d) (stream d) n (dir_offset d) (dirent2 d) (dirent2_size d).
(** [dirp->offset += 1] *)
Definition inc_offset (d : DIR2) : DIR2 :=
  Dir2 (dir2_fd d) (stream d) (skip d) (u32 (dir_offset d + 1)) (dirent2 d) (dirent2_size d).
Definition set_dirent (e : dirent_t) (size : Z) (d : DIR2) : DIR2 :=
  Dir2 (dir2_fd d) (stream d) (skip d) (dir_offset d) (Some e) size.

Section code.
Context `{Host}.

Definition dirent_close_streams (d : DIR2) : M world DIR2 :=
  if negb (stream d =? 0) then ask (directory_entry_stream_drop_own (stream d)) ;; mret (set_stream 0 d)
  else mret d.

Definition fdopendir2 (fd : Z) : M world (option DIR2) :=
  ok ← alloc_ok;
  if negb ok then mret None else
  with_file_handle fd None (fun file_handle =>
    r ← ask (descriptor_read_directory file_handle);
    match r with
    | inr error_code => translate_error_p2 error_code ;; mret None
    | inl result => mret (Some (Dir2 fd result 0 0 None 1))
    end).

(** [ensure_has_directory_stream] and the [defer] after it. *)
Definition with_directory_stream (d : DIR2) (k : Z -> DIR2 -> M world (DIR2 * option dirent_t)) : M world (DIR2 * option dirent_t) :=
  with_file_handle (dir2_fd d) (d, None) (fun handle =>
    if negb (stream d =? 0) then k handle d else
    r ← ask (descriptor_read_directory handle);
    match r with
    | inr error_code => translate_error_p2 error_code ;; mret (d, None)
    | inl st => k handle (set_stream st d)
    end).

(** The entry is returned with room for its name: [grow] and the stores. *)
Definition fill (d : DIR2) (name : cstr) (k : Z -> M world (DIR2 * option dirent_t)) : M world (DIR2 * option dirent_t) :=
  size ← grow (dirent2_size d) (u32 (offsetof_d_name + strlen name + 1));
  match (size : option Z) with
  | None => mret (d, None)
  | Some size => k size
  end.

Definition readdir_dot (handle : Z) (d : DIR2) : M world (DIR2 * option dirent_t) :=
  let d := inc_offset d in
  fill d [DOT] (fun size =>
    r ← ask (descriptor_metadata_hash handle);
    match r with
    | inr error_code => translate_error_p2 error_code ;; mret (Dir2 (dir2_fd d) (stream d) (skip d) (dir_offset d) (dirent2 d) size, None)
    | inl lower => let e := Dirent lower DT_DIR [DOT] in mret (set_dirent e size d, Some e)
    end).

Definition readdir_dot_dot (d : DIR2) : M world (DIR2 * option dirent_t) :=
  let d := inc_offset d in
  fill d [DOT; DOT] (fun size => let e := Dirent 0 DT_DIR [DOT; DOT] in mret (set_dirent e size d, Some e)).

(** An entry of the host. *)
Definition readdir_entry (handle : Z) (d : DIR2) (type : filetype) (name : cstr) : M world (DIR2 * option dirent_t) :=
  fill d name (fun size =>
    let d_type := dir_entry_type_to_d_type type in
    r ← ask (descriptor_metadata_hash_at handle 0 name);
    match r with
    | inr error_code =>
        translate_error_p2 error_code ;; mret (set_dirent (Dirent (default 0 (d_ino <$> dirent2 d)) d_type name) size d, None)
    | inl lower => let e := Dirent lower d_type name in mret (inc_offset (set_dirent e size d), Some e)
    end).

Definition readdir_next (d : DIR2) : M world (DIR2 * option dirent_t) :=
  with_directory_stream d (fun handle d =>
    if dir_offset d =? 0 then readdir_dot handle d else
    if dir_offset d =? 1 then readdir_dot_dot d else
    r ← ask (directory_entry_stream_read_directory_entry (stream d));
    match r with
    | inr error_code => translate_error_p2 error_code ;; mret (d, None)
    | inl None => mret (d, None)
    | inl (Some (type, name)) => readdir_entry handle d type name
    end).

(** [while (result != NULL && dirp->skip > 0)], at most [dirp->skip] turns. *)
Fixpoint readdir_skip (fuel : nat) (r : DIR2 * option dirent_t) : M world (DIR2 * option dirent_t) :=
  match snd r with
  | Some _ =>
      if 0 <? skip (fst r) then
        match fuel with
        | O => halt Fuel
        | S fuel' => r' ← readdir_next (set_skip (skip (fst r) - 1) (fst r)); readdir_skip fuel' r'
        end
      else mret r
  | None => mret r
  end.

Definition readdir2 (d : DIR2) : M world (DIR2 * option dirent_t) :=
  result ← readdir_next d;
  readdir_skip (Z.to_nat (skip d)) result.

Definition rewinddir2 (d : DIR2) : M world DIR2 :=
  d ← dirent_close_streams d;
  mret (Dir2 (dir2_fd d) (stream d) 0 0 (dirent2 d) (dirent2_size d)).

(** [long] and [size_t] have 32 bits. *)
Definition telldir2 (d : DIR2) : Z := i32 (u32 (dir_offset d + skip d)).

Definition seekdir2 (d : DIR2) (loc : Z) : M world DIR2 :=
  d ← dirent_close_streams d;
  mret (Dir2 (dir2_fd d) (stream d) (u32 loc) 0 (dirent2 d) (dirent2_size d)).

(** Frees the object. *)
Definition fdclosedir2 (d : DIR2) : M world Z :=
  dirent_close_streams d ;; mret (dir2_fd d).

Definition closedir2 (d : DIR2) : M sys Z :=
  fd ← lower (fdclosedir2 d);
  close fd.

Definition __wasilibc_nocwd_opendirat (dir : Z) (dirname : cstr) : M sys (option DIR2) :=
  fd ← lower (__wasilibc_nocwd_openat_nomode dir dirname (Z.lor (Z.lor O_RDONLY O_NONBLOCK) O_DIRECTORY));
  if fd =? -1 then mret None else
  result ← lower (fdopendir2 fd);
  match (result : option DIR2) with
  | None => close fd ;; mret None
  | Some d => mret (Some d)
  end.

Definition opendir (chdir_linked : bool) (dirname : cstr) : M sys (option DIR2) :=
  r ← find_relpath chdir_linked dirname;
  match snd r with
  | None => fail_with ENOENT None
  | Some relative_path => __wasilibc_nocwd_opendirat (fst r) relative_path
  end.

Definition opendirat (chdir_linked : bool) (dirfd : Z) (path : cstr) : M sys (option DIR2) :=
  if by_path dirfd path then opendir chdir_linked path else __wasilibc_nocwd_opendirat dirfd path.
End code.
