(* ===== verification/Dirent2Props.v ===== *)
(** * Directory streams of wasip2: theorems

    A directory stream is a list of entries with a position: [readdir] returns
    the entry at the position, [telldir] the position, [seekdir] sets it. With
    any host every operation returns and gives back the references it takes. *)

From S2P Require Import Prelude Errno Utf8 Time Stat Host DescTable DescTableInv DescTableSpec DescTableProps.
From S2P Require Import Object File Tcp Udp Vtable FdOps FdProps Nocwd NocwdProps Preopens Cwd Posix Dirent1 Dirent1Props Dirent2.

(** ** Any host *)

(** The names the host gives fit in memory with room to double. *)
Class NameLaws `{Host} : Prop :=
  host_name_length h st type name :
    host _ h (directory_entry_stream_read_directory_entry st) = inl (Some (type, name)) -> strlen name < 2 ^ 29.

Record dir_ok (d : DIR2) : Prop := {
  ok_room : 0 < dirent2_size d <= 2 ^ 31;
  ok_skip : 0 <= skip d;
}.

Section any_host.
Context `{HostLaws} `{!NameLaws} {g : Growth}.

Definition entry_target (name : cstr) : Z := u32 (offsetof_d_name + strlen name + 1).

Lemma entry_target_small name : strlen name < 2 ^ 29 -> entry_target name = strlen name + 10.
Proof. intros Hn. unfold entry_target, offsetof_d_name. unfold strlen in *. rewrite u32_small; lia. Qed.

Lemma quiet_grow size target : 0 < size -> target <= 2 ^ 31 -> quiet (grow size target).
Proof.
  intros Hs Ht s. unfold grow. destruct (Z.ltb_spec size target); [|apply quiet_ret].
  destruct (grow_size_ok 32 size target s) as (n & Hn & _); [lia|lia|simpl; lia|].
  rewrite (bind_done _ _ _ _ _ Hn). destruct (alloc_ok_table s) as (b & v & Ha & _). rewrite (bind_done _ _ _ _ _ Ha).
  destruct b; simpl; eexists _, _, (calls s); by destruct s.
Qed.

Lemma yields_grow size target :
  0 < size <= 2 ^ 31 -> target <= 2 ^ 30 -> yields (grow size target : M world (option Z)) (fun r => forall n, r = Some n -> 0 < n <= 2 ^ 31).
Proof.
  intros Hs Ht s r s'. unfold grow. destruct (Z.ltb_spec size target); [|by intros [= <- _] n [= <-]].
  destruct (grow_size_ok 32 size target s) as (n & Hn & Hn1 & Hn2); [lia|lia|simpl; lia|].
  rewrite (bind_done _ _ _ _ _ Hn). destruct (alloc_ok_table s) as (b & v & Ha & _). rewrite (bind_done _ _ _ _ _ Ha).
  destruct b; simpl; intros [= <- _]; [|done]. intros m [= <-]. lia.
Qed.

Lemma fill_safe n d name k :
  dir_ok d -> strlen name < 2 ^ 29 -> (forall size, safe n (k size)) -> safe n (fill d name k).
Proof.
  intros [Hr _] Hn Hk. pose proof (entry_target_small name Hn) as Ht. unfold fill. fold (entry_target name). rewrite Ht.
  apply safe_quiet_bind; [apply quiet_grow; lia|]. intros [size|]; [apply Hk|safe_tac].
Qed.

Lemma fill_yields d name k (P : DIR2 * option dirent_t -> Prop) :
  dir_ok d -> strlen name < 2 ^ 29 -> P (d, None) -> (forall size, 0 < size <= 2 ^ 31 -> yields (k size) P) -> yields (fill d name k) P.
Proof.
  intros [Hr _] Hn Hd Hk. pose proof (entry_target_small name Hn) as Ht. unfold fill. fold (entry_target name). rewrite Ht.
  eapply yields_bind; [apply yields_grow; lia|]. intros [size|] Hs; [by apply Hk, Hs|by apply yields_ret].
Qed.

(** The object stays usable and [skip] stays what it was. *)
Definition keeps (d : DIR2) (r : DIR2 * option dirent_t) : Prop := dir_ok (fst r) /\ skip (fst r) = skip d.

Lemma keeps_skip d d' r : skip d' = skip d -> keeps d' r -> keeps d r.
Proof. unfold keeps. by intros ->. Qed.

Ltac yields_step :=
  match goal with
  | |- yields (fill _ _ _) _ => apply fill_yields; [by split|first [assumption|by vm_compute]|by split; [split|]|intros]
  | |- yields (_ ≫= _) _ => apply yields_after; intros
  | |- yields (match ?x with _ => _ end) _ => destruct x
  | |- yields (mret _) _ => apply yields_ret; by split; [split|]
  end.

Lemma readdir_dot_ok n h d : dir_ok d -> safe n (readdir_dot h d) /\ yields (readdir_dot h d) (keeps d).
Proof.
  intros []. split.
  - unfold readdir_dot. apply fill_safe; [by split|vm_compute; done|]. intros size. safe_tac.
  - unfold readdir_dot. repeat yields_step.
Qed.

Lemma readdir_dot_dot_ok n d : dir_ok d -> safe n (readdir_dot_dot d) /\ yields (readdir_dot_dot d) (keeps d).
Proof.
  intros []. split.
  - unfold readdir_dot_dot. apply fill_safe; [by split|vm_compute; done|]. intros size. safe_tac.
  - unfold readdir_dot_dot. repeat yields_step.
Qed.

Lemma readdir_entry_ok n h d type name :
  dir_ok d -> strlen name < 2 ^ 29 -> safe n (readdir_entry h d type name) /\ yields (readdir_entry h d type name) (keeps d).
Proof.
  intros [] Hn. split.
  - unfold readdir_entry. apply fill_safe; [by split|done|]. intros size. safe_tac.
  - unfold readdir_entry. repeat yields_step.
Qed.

(** The answer of the host about an entry. *)
Lemma safe_read_entry {A} n st (f : option (filetype * cstr) + Z -> M world A) :
  (forall type name, strlen name < 2 ^ 29 -> safe n (f (inl (Some (type, name))))) -> safe n (f (inl None)) ->
  (forall e, 0 <= e <= 36 -> safe n (f (inr e))) -> safe n (ask (directory_entry_stream_read_directory_entry st) ≫= f).
Proof.
  intros Hs Hn He held s Hi Hl Hh. set (c := directory_entry_stream_read_directory_entry st).
  rewrite (bind_done (ask c) f s (host _ (history s) c) (log (Ev c) s)) by done.
  destruct (host _ (history s) c) as [[[type name]|]|e] eqn:Hc.
  - refine (Hs type name _ held (log (Ev c) s) Hi Hl Hh). by eapply host_name_length.
  - exact (Hn held (log (Ev c) s) Hi Hl Hh).
  - refine (He e _ held (log (Ev c) s) Hi Hl Hh). apply (host_error_code _ (history s) c). by rewrite Hc.
Qed.

Lemma yields_read_entry {A} st (f : option (filetype * cstr) + Z -> M world A) P :
  (forall type name, strlen name < 2 ^ 29 -> yields (f (inl (Some (type, name)))) P) -> yields (f (inl None)) P ->
  (forall e, yields (f (inr e)) P) -> yields (ask (directory_entry_stream_read_directory_entry st) ≫= f) P.
Proof.
  intros Hs Hn He. apply (yields_bind _ _ (fun r => forall type name, r = inl (Some (type, name)) -> strlen name < 2 ^ 29)).
  - intros s r s' [= <- _] type name. apply host_name_length.
  - intros [[[type name]|]|e] Hr; eauto.
Qed.

Lemma readdir_next_ok n d : n < 2 ^ 30 -> dir_ok d -> safe n (readdir_next d) /\ yields (readdir_next d) (keeps d).
Proof.
  intros Hn Hd. unfold readdir_next. match goal with |- context [with_directory_stream d ?f] => set (k := f) end.
  assert (forall h d', dir_ok d' -> safe (n + 1) (k h d') /\ yields (k h d') (keeps d')) as Hk.
  { intros h d' Hd'. unfold k. destruct (_ =? 0); [by apply readdir_dot_ok|]. destruct (_ =? 1); [by apply readdir_dot_dot_ok|].
    split; [apply safe_read_entry|apply yields_read_entry]; intros; try by eapply readdir_entry_ok. 1-2: safe_tac.
    all: destruct Hd'; repeat yields_step. }
  unfold with_directory_stream. split.
  - apply with_file_handle_safe; [lia|]. intros h. apply safe_safe_with. destruct (negb _); [by apply Hk|].
    apply safe_ask_sum; [done| |]; [|intros; safe_tac]. intros st. apply Hk. by destruct Hd.
  - apply yields_with_file_handle; [by split|]. intros h. destruct (negb _); [by apply Hk|].
    apply yields_after. intros [st|e].
    + intros s r s' Hr. apply (keeps_skip d (set_stream st d)); [done|]. revert Hr. apply Hk. by destruct Hd.
    + apply yields_after. intros _. by apply yields_ret.
Qed.

(** An operation after one that does not enlarge the table. *)
Lemma safe_bind_yields {A B} n (m : M world A) (f : A -> M world B) (P : A -> Prop) :
  safe (g := steady) n m -> yields m P -> (forall a, P a -> safe n (f a)) -> safe n (m ≫= f).
Proof.
  intros Hm Hy Hf held s Hi Hl Hh. destruct (Hm held s Hi Hl Hh) as (a & s1 & Hs & Hi1 & L1 & St1).
  rewrite (bind_done _ _ _ _ _ Hs). cbn in L1.
  destruct (Hf a (Hy s a s1 Hs) held s1 Hi1 ltac:(lia) Hh) as (b & s2 & Hs2 & Hi2 & L2 & St2).
  exists b, s2. split; [done|]. split; [done|]. split; [by eapply grown_trans|auto].
Qed.
End any_host.

Section safety.
Context `{HostLaws} `{!NameLaws} {g : Growth}.

Lemma readdir_skip_safe n fuel r :
  n < 2 ^ 30 -> dir_ok (fst r) -> skip (fst r) <= Z.of_nat fuel -> safe n (readdir_skip fuel r).
Proof.
  intros Hn. revert r. induction fuel as [|fuel IH]; intros [d [e|]] Hd Hf; cbn [readdir_skip fst snd] in *; try by safe_tac.
  - destruct (Z.ltb_spec 0 (skip d)); [lia|safe_tac].
  - destruct (Z.ltb_spec 0 (skip d)); [|safe_tac]. destruct Hd.
    destruct (readdir_next_ok (g := steady) n (set_skip (skip d - 1) d)) as [Hs Hy]; [done|split; [done|simpl; lia]|].
    apply (safe_bind_yields _ _ _ _ Hs Hy). intros r' [Hr' Hsk]. apply IH; [done|]. simpl in Hsk. lia.
Qed.

Lemma readdir2_safe n d : n < 2 ^ 30 -> dir_ok d -> safe n (readdir2 d).
Proof.
  intros Hn Hd. unfold readdir2. destruct (readdir_next_ok (g := steady) n d Hn Hd) as [Hs Hy].
  apply (safe_bind_yields _ _ _ _ Hs Hy). intros r [Hr Hsk]. apply readdir_skip_safe; [done..|]. destruct Hd. lia.
Qed.

Lemma fdopendir2_safe n fd : n < 2 ^ 30 -> safe n (fdopendir2 fd).
Proof. intros Hn. unfold fdopendir2. apply safe_alloc. intros b. destruct b; simpl; safe_tac. Qed.

Lemma dirent_close_streams_safe n d : safe n (dirent_close_streams d).
Proof.
  unfold dirent_close_streams. destruct (negb _); [|safe_tac]. apply safe_quiet_bind; [apply quiet_ask|]. intros. safe_tac.
Qed.
End safety.

(** ** An open directory *)

Record opened (held : list loc) (fd h : Z) (s : world) : Prop := Opened {
  op_wf : wf held s;
  op_len : len s <= 2 ^ 26;
  op_held : Z.of_nat (length held) <= 2 ^ 29;
  op_stdio : stdio_initialized s = true;
  op_file : exists e f, open_fds s !! fd = Some e /\ bodies s !! e = Some (DFile f) /\ file_handle f = h;
  op_allocs : env_allocs (dt_env s) = [];
}.

Lemma world_allocs (s : world) : env_allocs (dt_env s) = [] -> take_alloc s = (true, s).
Proof. destruct s as [[er al]]. cbn. by intros ->. Qed.

(** What holds when code that only called the host has given back its reference. *)
Definition framed {A} held fd h (Q : A -> world -> Prop) (s1 : world) (a : A) (s2 : world) : Prop :=
  exists v l, s2 = set_env v (set_calls l s1) /\ env_allocs v = [] /\
    forall s3, opened held fd h s3 -> calls s3 = l -> dt_env s3 = v -> Q a s3.

(** The code between taking the reference and giving it back: it sees the log
    and the run-time state of before, and what it does to them stays. *)
Lemma wp_with_file_handle `{Host} {A} held fd h (bad : A) k (Q : A -> world -> Prop) s :
  opened held fd h s ->
  (forall s1, calls s1 = calls s -> dt_env s1 = dt_env s -> wp (k h) (framed held fd h Q s1) s1) ->
  wp (with_file_handle fd bad k) Q s.
Proof.
  intros [W Hl Hh Hst (e & f & Hfd & He & Hf) Ha] Hk.
  pose proof (get_spec held s fd W ltac:(split; lia) Hst) as Hg. rewrite Hfd in Hg.
  destruct Hg as (s1 & Hg & W1 & St1 & E1 & O1 & B1 & L1 & C1 & V1).
  unfold wp, with_file_handle. rewrite (bind_done _ _ _ _ _ Hg). simpl.
  rewrite <- B1 in He. pose proof He as He'. unfold bodies in He'. rewrite lookup_fmap in He'.
  destruct (heap s1 !! e) as [o|] eqn:Ho; [|done]. simpl in He'. injection He' as Hb.
  rewrite (bind_done _ _ _ _ _ (load_spec s1 e o Ho)), Hb. simpl. rewrite Hf.
  destruct (proj1 (wp_done _ _ _) (Hk s1 C1 V1)) as (a & s2 & Hk2 & v & l & -> & Hv & HQ).
  rewrite (bind_done _ _ _ _ _ Hk2).
  destruct (dec_shared held (set_env v (set_calls l s1)) fd e) as (s4 & Hd & W4 & O4 & B4 & C4 & _ & St4 & L4 & V4);
    [done|simpl; lia|lia|by rewrite <- O1 in Hfd|]. rewrite (bind_done _ _ _ _ _ Hd). apply HQ; [|done..].
  split; try done; [simpl in L4; lia|simpl in St4; congruence| |by rewrite V4].
  exists e, f. rewrite O4, B4. split; [|done]. by rewrite <- O1 in Hfd.
Qed.

(** ** A directory that does not change *)

(** Calls after which the directory stream [st] is where it was. *)
Definition leaves (st : Z) {R : Set} (c : hostcall R) : bool :=
  match c with
  | descriptor_read_directory _ => false
  | directory_entry_stream_read_directory_entry st' | directory_entry_stream_drop_own st' => negb (st' =? st)
  | _ => true
  end.

Section directory.
Context `{Host} (hd : Z) (es : list (filetype * cstr)) (ino : Z) (hash : cstr -> Z).

(** After the calls [h], [k] entries have been read from the stream [st]. *)
Inductive at_entry (st : Z) : list event -> nat -> Prop :=
| at_open h : host _ h (descriptor_read_directory hd) = inl st -> at_entry st (h ++ [Ev (descriptor_read_directory hd)]) 0
| at_read h k : at_entry st h k -> at_entry st (h ++ [Ev (directory_entry_stream_read_directory_entry st)]) (S k)
| at_other h k (R : Set) (c : hostcall R) : at_entry st h k -> leaves st c = true -> at_entry st (h ++ [Ev c]) k.

(** The documented behaviour of the host: a stream gives the entries one after
    the other, without [.] and [..]. *)
Class DirectoryLaws : Prop := {
  dir_open h : exists st, host _ h (descriptor_read_directory hd) = inl st /\ st <> 0;
  dir_next st h k : at_entry st h k -> host _ h (directory_entry_stream_read_directory_entry st) = inl (es !! k);
  dir_hash h : host _ h (descriptor_metadata_hash hd) = inl ino;
  dir_hash_at h name : host _ h (descriptor_metadata_hash_at hd 0 name) = inl (hash name);
  dir_names : Forall (fun e => strlen e.2 < 2 ^ 29) es;
  dir_count : Z.of_nat (length es) < 2 ^ 31;
}.

(** What is listed. *)
Definition listed (e : filetype * cstr) : dirent_t := Dirent (hash e.2) (dir_entry_type_to_d_type e.1) e.2.
Definition listing : list dirent_t := Dirent ino DT_DIR [DOT] :: Dirent 0 DT_DIR [DOT; DOT] :: (listed <$> es).

(** The operations of a stream, and of a list with a position. *)
Inductive dir_op := Readdir | Telldir | Seekdir (loc : Z) | Rewinddir.
Inductive dir_result := REntry (e : option dirent_t) | RLoc (loc : Z) | RNone.

Definition spec_step (p : Z) (op : dir_op) : Z * dir_result :=
  match op with
  | Readdir => match listing !! Z.to_nat p with Some e => (p + 1, REntry (Some e)) | None => (p, REntry None) end
  | Telldir => (p, RLoc (i32 p))
  | Seekdir loc => (u32 loc, RNone)
  | Rewinddir => (0, RNone)
  end.

Fixpoint spec_run (p : Z) (ops : list dir_op) : list dir_result :=
  match ops with [] => [] | op :: ops' => (spec_step p op).2 :: spec_run (spec_step p op).1 ops' end.

Definition dir_step (d : DIR2) (op : dir_op) : M world (DIR2 * dir_result) :=
  match op with
  | Readdir => r ← readdir2 d; mret (r.1, REntry r.2)
  | Telldir => mret (d, RLoc (telldir2 d))
  | Seekdir loc => d ← seekdir2 d loc; mret (d, RNone)
  | Rewinddir => d ← rewinddir2 d; mret (d, RNone)
  end.

Fixpoint dir_run (d : DIR2) (ops : list dir_op) : M world (list dir_result) :=
  match ops with
  | [] => mret []
  | op :: ops' => r ← dir_step d op; rs ← dir_run r.1 ops'; mret (r.2 :: rs)
  end.

Context `{!DirectoryLaws} (held : list loc) (fd : Z).

(** How far the host's stream is, when the library has returned [o] entries. *)
Definition in_step (o : Z) (k : nat) : Prop :=
  if o <=? 1 then k = 0%nat else Z.of_nat k = o - 2 \/ o - 2 = Z.of_nat (length es) /\ (length es <= k)%nat.

Definition stream_at (d : DIR2) (l : list event) : Prop :=
  stream d = 0 /\ dir_offset d = 0 \/
  stream d <> 0 /\ exists k, at_entry (stream d) l k /\ in_step (dir_offset d) k.

Record dinv2 (o sk : Z) (d : DIR2) (s : world) : Prop := Dinv2 {
  d2_open : opened held fd hd s;
  d2_fd : dir2_fd d = fd;
  d2_offset : dir_offset d = o;
  d2_skip : skip d = sk;
  d2_range : 0 <= o <= Z.of_nat (length listing);
  d2_size : 0 < dirent2_size d <= 2 ^ 31;
  d2_stream : stream_at d (calls s);
}.

(** The state within a call: the stream is open. *)
Record within (o sk : Z) (d : DIR2) (s : world) : Prop := Within {
  w_stream : stream d <> 0;
  w_at : exists k, at_entry (stream d) (calls s) k /\ in_step o k;
  w_fd : dir2_fd d = fd;
  w_offset : dir_offset d = o;
  w_skip : skip d = sk;
  w_size : 0 < dirent2_size d <= 2 ^ 31;
  w_allocs : env_allocs (dt_env s) = [];
}.

Lemma wp_with_directory_stream o sk d k (Q : DIR2 * option dirent_t -> world -> Prop) s :
  dinv2 o sk d s ->
  (forall d1 s1, within o sk d1 s1 -> wp (k hd d1) (framed held fd hd Q s1) s1) ->
  wp (with_directory_stream d k) Q s.
Proof.
  intros [Ho Hfd Hoff Hsk Hr Hsz Hst] Hk. pose proof (op_allocs _ _ _ _ Ho) as Ha. unfold with_directory_stream. rewrite Hfd.
  apply (wp_with_file_handle held fd hd); [done|]. intros s1 C1 V1. destruct Hst as [[Hz Hd0]|[Hz Hat]].
  - rewrite Hz. cbn [negb Z.eqb]. set (c := descriptor_read_directory hd). destruct (dir_open (calls s1)) as (st & Hop & Hst0).
    fold c in Hop. unfold wp. rewrite (bind_done _ _ _ _ _ (ask_answer c s1 _ Hop)).
    change (framed held fd hd Q s1) with (framed held fd hd Q (set_calls (calls s1 ++ [Ev c]) s1)). apply Hk.
    split; try done; [|cbn; by rewrite V1]. exists 0%nat. split; [by apply at_open|]. by rewrite <- Hoff, Hd0.
  - rewrite (proj2 (Z.eqb_neq _ _) Hz). cbn [negb]. apply Hk. split; try done; [|by rewrite V1].
    rewrite C1, <- Hoff. done.
Qed.

(** A call within that leaves the stream where it is. *)
Lemma within_call o sk d s {R : Set} (c : hostcall R) :
  leaves (stream d) c = true -> within o sk d s -> within o sk d (set_calls (calls s ++ [Ev c]) s).
Proof. intros Hc [? (k & Hk & ?)]. split; try done. exists k. split; [by apply at_other|done]. Qed.

(** Giving back the reference. *)
Lemma framed_within o sk d (Q : DIR2 * option dirent_t -> world -> Prop) s1 s2 l e :
  within o sk d s2 -> s2 = set_calls l s1 -> 0 <= o <= Z.of_nat (length listing) ->
  (forall s3, dinv2 o sk d s3 -> Q (d, e) s3) -> framed held fd hd Q s1 (d, e) s2.
Proof.
  intros [Hs Hat Hf Ho Hsk Hsz Ha] Hs2 Hr HQ. subst s2. exists (dt_env s1), l. split; [done|]. split; [done|].
  intros s3 H3 C3 V3. apply HQ. split; try done. right. split; [done|]. by rewrite C3, Ho.
Qed.

Lemma wp_fill d name k (Q : DIR2 * option dirent_t -> world -> Prop) s :
  0 < dirent2_size d <= 2 ^ 31 -> env_allocs (dt_env s) = [] -> strlen name < 2 ^ 29 -> (forall size, 0 < size <= 2 ^ 31 -> wp (k size) Q s) -> wp (fill d name k) Q s.
Proof.
  intros Hs Ha Hn Hk. unfold fill. fold (entry_target name). rewrite entry_target_small by done. unfold strlen in *.
  apply wp_bind, wp_grow; [lia|lia|by apply world_allocs|]. intros n Hn1 Hn2. apply Hk. lia.
Qed.

Lemma length_listing : Z.of_nat (length listing) = Z.of_nat (length es) + 2.
Proof. unfold listing. cbn [length]. rewrite length_fmap. lia. Qed.

Lemma wp_ask_answer {R : Set} {A} (c : hostcall R) r (f : R -> M world A) (Q : A -> world -> Prop) s :
  host R (calls s) c = r -> wp (f r) Q (set_calls (calls s ++ [Ev c]) s) -> wp (ask c ≫= f) Q s.
Proof. intros Hr Hf. apply wp_bind. unfold wp. by rewrite (ask_answer c s r Hr). Qed.

(** Storing an entry; [o'] is the offset afterwards. *)
Lemma within_next o o' sk d s e size (d' : DIR2) :
  within o sk d s -> 0 < size <= 2 ^ 31 ->
  (forall k, at_entry (stream d) (calls s) k -> in_step o k -> in_step o' k) ->
  d' = Dir2 (dir2_fd d) (stream d) (skip d) o' (Some e) size -> within o' sk d' s.
Proof. intros [? (k & ? & ?)] Hs Hk ->. split; try done. exists k. split; [done|]. by apply Hk. Qed.

Definition returned (o sk : Z) (Q : DIR2 * option dirent_t -> world -> Prop) : Prop :=
  forall e d' s', listing !! Z.to_nat o = Some e -> dinv2 (o + 1) sk d' s' -> Q (d', Some e) s'.

Lemma wp_readdir_dot sk d (Q : DIR2 * option dirent_t -> world -> Prop) s :
  within 0 sk d s -> returned 0 sk Q -> wp (readdir_dot hd d) (framed held fd hd Q s) s.
Proof.
  intros Hw HQ. pose proof length_listing as Hl. pose proof Hw as [? ? ? Hoff ? ? ?]. unfold readdir_dot.
  apply wp_fill; [done|done|by vm_compute|]. intros size Hs. eapply wp_ask_answer; [apply dir_hash|]. apply wp_ret.
  eapply (framed_within 1 sk); [|done|lia|].
  - apply within_call; [done|]. eapply (within_next 0 1); [exact Hw|exact Hs|done|]. unfold set_dirent, inc_offset. by rewrite Hoff.
  - intros s3. by apply HQ.
Qed.

Lemma wp_readdir_dot_dot sk d (Q : DIR2 * option dirent_t -> world -> Prop) s :
  within 1 sk d s -> returned 1 sk Q -> wp (readdir_dot_dot d) (framed held fd hd Q s) s.
Proof.
  intros Hw HQ. pose proof length_listing as Hl. pose proof Hw as [? ? ? Hoff ? ? ?]. unfold readdir_dot_dot.
  apply wp_fill; [done|done|by vm_compute|]. intros size Hs. apply wp_ret. eapply (framed_within 2 sk _ _ s s (calls s)); [|by destruct s|lia|].
  - eapply (within_next 1 2); [exact Hw|exact Hs| |].
    + intros k _ Hk. cbn in Hk. subst k. by left.
    + unfold set_dirent, inc_offset. by rewrite Hoff.
  - intros s3. by apply HQ.
Qed.

(** [readdir_next] returns the next entry of the listing. *)
Lemma wp_readdir_next o sk d (Q : DIR2 * option dirent_t -> world -> Prop) s :
  dinv2 o sk d s -> returned o sk Q ->
  (forall d' s', o = Z.of_nat (length listing) -> dinv2 o sk d' s' -> Q (d', None) s') -> wp (readdir_next d) Q s.
Proof.
  intros Hd HS HN. pose proof (d2_range _ _ _ _ Hd) as Hr. pose proof length_listing as Hl. pose proof dir_count as Hc.
  unfold readdir_next. apply (wp_with_directory_stream o sk); [done|]. intros d1 s1 Hw.
  pose proof Hw as [? (k & Hat & Hin) ? Hoff ? ? ?]. rewrite Hoff.
  destruct (Z.eqb_spec o 0) as [->|]; [by apply (wp_readdir_dot sk)|].
  destruct (Z.eqb_spec o 1) as [->|]; [by apply (wp_readdir_dot_dot sk)|].
  unfold in_step in Hin. rewrite (proj2 (Z.leb_gt _ _)) in Hin by lia.
  eapply wp_ask_answer; [by apply dir_next|]. set (c := directory_entry_stream_read_directory_entry (stream d1)).
  set (s2 := set_calls _ s1). assert (at_entry (stream d1) (calls s2) (S k)) as Hat2 by by apply at_read.
  destruct (es !! k) as [[type name]|] eqn:Ek.
  - assert (Z.of_nat k = o - 2) as Hko by (apply lookup_lt_Some in Ek; lia).
    unfold readdir_entry. apply wp_fill; [done|done| |].
    { eapply (Forall_lookup_1 _ _ _ _ dir_names Ek). }
    intros size Hs. eapply wp_ask_answer; [apply dir_hash_at|]. apply wp_ret.
    eapply (framed_within (o + 1) sk); [|done|apply lookup_lt_Some in Ek; lia|].
    + apply within_call; [done|]. unfold inc_offset, set_dirent. cbn [dir2_fd stream skip dir_offset dirent2 dirent2_size].
      rewrite Hoff, u32_small by lia. split; try done. exists (S k). split; [done|]. unfold in_step.
      rewrite (proj2 (Z.leb_gt _ _)) by lia. lia.
    + intros s3. apply HS. replace (Z.to_nat o) with (S (S k)) by lia.
      change (listing !! S (S k)) with ((listed <$> es) !! k). by rewrite list_lookup_fmap, Ek.
  - assert (o - 2 = Z.of_nat (length es)) by (apply lookup_ge_None in Ek; lia). apply wp_ret.
    eapply (framed_within o sk); [|done|lia|].
    + split; try done. exists (S k). split; [done|]. unfold in_step. rewrite (proj2 (Z.leb_gt _ _)) by lia.
      right. apply lookup_ge_None in Ek. lia.
    + intros s3. apply HN. lia.
Qed.

(** [readdir] skips to the position and returns the entry there. *)
Lemma wp_readdir_skip fuel o sk d e (Q : DIR2 * option dirent_t -> world -> Prop) s :
  dinv2 o sk d s -> 0 <= sk <= Z.of_nat fuel -> 1 <= o -> listing !! Z.to_nat (o - 1) = Some e ->
  (forall e' d' s', listing !! Z.to_nat (o - 1 + sk) = Some e' -> dinv2 (o + sk) 0 d' s' -> Q (d', Some e') s') ->
  (forall d' s', let len := Z.of_nat (length listing) in
     len <= o - 1 + sk -> dinv2 len (o - 1 + sk - len) d' s' -> Q (d', None) s') ->
  wp (readdir_skip fuel (d, Some e)) Q s.
Proof.
  revert o sk d e s. induction fuel as [|fuel IH]; intros o sk d e s Hd Hsk Ho He HS HN; cbn [readdir_skip fst snd];
    pose proof (d2_skip _ _ _ _ Hd) as Hs; rewrite Hs.
  { assert (sk = 0) as -> by lia. apply wp_ret. apply HS; [by rewrite Z.add_0_r|by rewrite Z.add_0_r]. }
  destruct (Z.ltb_spec 0 sk).
  - apply wp_bind. apply (wp_readdir_next o (sk - 1)).
    + destruct Hd. by split.
    + intros e1 d1 s1 He1 Hd1. apply (IH (o + 1) (sk - 1)); [done|lia|lia|by rewrite Z.add_simpl_r|..].
      * intros e2 d2 s2. replace (o + 1 - 1 + (sk - 1)) with (o - 1 + sk) by lia. replace (o + 1 + (sk - 1)) with (o + sk) by lia. apply HS.
      * intros d2 s2. replace (o + 1 - 1 + (sk - 1)) with (o - 1 + sk) by lia. apply HN.
    + intros d1 s1 Hlen Hd1. assert (readdir_skip fuel (d1, None) = mret (d1, None)) as -> by by destruct fuel.
      apply wp_ret, HN; [lia|]. rewrite <- Hlen. by replace (o - 1 + sk - o) with (sk - 1) by lia.
  - assert (sk = 0) as -> by lia. apply wp_ret. apply HS; by rewrite Z.add_0_r.
Qed.

Lemma wp_readdir2 p o sk d (Q : DIR2 * option dirent_t -> world -> Prop) s :
  dinv2 o sk d s -> 0 <= sk -> p = o + sk ->
  (forall e d' s', listing !! Z.to_nat p = Some e -> dinv2 (p + 1) 0 d' s' -> Q (d', Some e) s') ->
  (forall d' s' o' sk', listing !! Z.to_nat p = None -> dinv2 o' sk' d' s' -> 0 <= sk' -> p = o' + sk' -> Q (d', None) s') ->
  wp (readdir2 d) Q s.
Proof.
  intros Hd Hsk -> HS HN. pose proof (d2_range _ _ _ _ Hd) as Hr. unfold readdir2. rewrite (d2_skip _ _ _ _ Hd).
  apply wp_bind. apply (wp_readdir_next o sk); [done|..].
  - intros e d1 s1 He Hd1. apply (wp_readdir_skip (Z.to_nat sk) (o + 1) sk); [done|lia|lia|by rewrite Z.add_simpl_r|..].
    + intros e' d' s'. rewrite Z.add_simpl_r. replace (o + 1 + sk) with (o + sk + 1) by lia. apply HS.
    + intros d' s'. cbn zeta. rewrite Z.add_simpl_r. intros Hlen H'. eapply HN; [|exact H'|lia|lia]. apply lookup_ge_None. lia.
  - intros d1 s1 Hlen Hd1. assert (forall f, readdir_skip f (d1, None) = mret (d1, None)) as -> by by intros [].
    apply wp_ret. eapply HN; [|exact Hd1|lia|lia]. apply lookup_ge_None. lia.
Qed.

(** The stream is at position [p]. *)
Definition at_pos (p : Z) (d : DIR2) (s : world) : Prop :=
  exists o sk, dinv2 o sk d s /\ 0 <= sk /\ p = o + sk /\ p < 2 ^ 32.

Lemma opened_calls l s : opened held fd hd s -> opened held fd hd (set_calls l s).
Proof. intros []. by split. Qed.

Lemma wp_restart p p' d (Q : DIR2 -> world -> Prop) s :
  at_pos p d s -> 0 <= p' < 2 ^ 32 -> (forall d' s', at_pos p' d' s' -> Q d' s') ->
  wp (d ← dirent_close_streams d; mret (Dir2 (dir2_fd d) (stream d) p' 0 (dirent2 d) (dirent2_size d))) Q s.
Proof.
  intros (o & sk & [Ho Hfd Hoff Hsk Hr Hsz Hst] & _) Hp HQ. pose proof length_listing as Hl. unfold dirent_close_streams.
  assert (forall s', opened held fd hd s' -> at_pos p' (Dir2 (dir2_fd d) 0 p' 0 (dirent2 d) (dirent2_size d)) s') as Hat.
  { intros s' Hs'. exists 0, p'. split; [|lia]. split; first [done|by left|lia]. }
  destruct (Z.eqb_spec (stream d) 0) as [Hz|Hz]; cbn [negb].
  - apply wp_bind, wp_ret, wp_ret, HQ. rewrite Hz. by apply Hat.
  - apply wp_bind. eapply wp_ask_answer; [done|]. apply wp_ret, wp_ret, HQ. by apply Hat, opened_calls.
Qed.

Lemma wp_dir_step p op d (Q : DIR2 * dir_result -> world -> Prop) s :
  at_pos p d s -> (forall d' s', at_pos (spec_step p op).1 d' s' -> Q (d', (spec_step p op).2) s') -> wp (dir_step d op) Q s.
Proof.
  intros Hp HQ. pose proof length_listing as Hl. pose proof dir_count as Hc. destruct op as [| |loc_|]; cbn [dir_step spec_step] in *.
  - destruct Hp as (o & sk & Hd & Hsk & Hpos & Hlt). apply wp_bind. apply (wp_readdir2 p o sk); [done..| |].
    + intros e d' s' He Hd'. rewrite He in HQ. apply wp_ret, HQ. exists (p + 1), 0. split; [done|]. apply lookup_lt_Some in He. cbn [fst]. lia.
    + intros d' s' o' sk' He Hd' Hsk' Hp'. rewrite He in HQ. apply wp_ret, HQ. by exists o', sk'.
  - destruct Hp as (o & sk & Hd & Hsk & Hpos & Hlt). apply wp_ret. unfold telldir2.
    rewrite (d2_offset _ _ _ _ Hd), (d2_skip _ _ _ _ Hd), <- Hpos. pose proof (d2_range _ _ _ _ Hd).
    rewrite u32_small by lia. apply HQ. by exists o, sk.
  - apply wp_bind. eapply wp_restart; [exact Hp|apply u32_range|]. intros d' s' Hd'. apply wp_ret. by apply HQ.
  - apply wp_bind. eapply wp_restart; [exact Hp|lia|]. intros d' s' Hd'. apply wp_ret. by apply HQ.
Qed.

Lemma wp_dir_run ops p d (Q : list dir_result -> world -> Prop) s :
  at_pos p d s -> (forall s', Q (spec_run p ops) s') -> wp (dir_run d ops) Q s.
Proof.
  revert p d s Q. induction ops as [|op ops IH]; intros p d s Q Hp HQ; [by apply wp_ret|]. cbn [dir_run spec_run] in *.
  apply wp_bind. eapply wp_dir_step; [exact Hp|]. intros d' s' Hp'. apply wp_bind. eapply IH; [exact Hp'|]. intros s2.
  by apply wp_ret.
Qed.

Lemma wp_fdopendir2 (Q : option DIR2 -> world -> Prop) s :
  opened held fd hd s -> (forall d s', at_pos 0 d s' -> Q (Some d) s') -> wp (fdopendir2 fd) Q s.
Proof.
  intros Ho HQ. pose proof length_listing as Hl. pose proof (op_allocs _ _ _ _ Ho) as Ha. unfold fdopendir2.
  apply wp_bind, wp_alloc_ok. rewrite (world_allocs s Ha). intros b s' [= <- <-]. cbn [negb].
  apply (wp_with_file_handle held fd hd); [done|]. intros s1 C1 V1. destruct (dir_open (calls s1)) as (st & Hop & Hst).
  eapply wp_ask_answer; [exact Hop|]. apply wp_ret. eexists (dt_env s1), _. split; [done|]. split; [by rewrite V1|].
  intros s3 Hs3 C3 V3. apply HQ. exists 0, 0. split; [|lia]. split; try first [done|lia|cbn; lia]. right. split; [done|].
  exists 0%nat. split; [|done]. rewrite C3. by apply at_open.
Qed.

(** C36: The directory streams of wasip2 refine a list with a position. On an open
    directory that does not change, [fdopendir] and then any sequence of
    [readdir], [telldir], [seekdir] and [rewinddir] return and give what a
    list of [.], [..] and the entries of the host gives: the entry at the
    position, the position, and a new position. *)
Theorem directory_stream_refines ops s :
  opened held fd hd s ->
  exists s', (o ← fdopendir2 fd; match o with Some d => dir_run d ops | None => mret [] end) s = Done (spec_run 0 ops) s'.
Proof.
  intros Ho. match goal with |- exists s', ?m s = _ => cut (wp m (fun rs _ => rs = spec_run 0 ops) s) end.
  { intros (rs & s' & Hs & ->)%wp_done. by exists s'. }
  apply wp_bind, wp_fdopendir2; [done|]. intros d s' Hp. by eapply wp_dir_run.
Qed.
End directory.

(** ** Every operation returns, whatever the host answers *)

Section returns.
Context `{HostLaws} `{!NameLaws}.

Lemma restart_ok {g : Growth} n d p :
  dir_ok d -> 0 <= p ->
  safe n (d ← dirent_close_streams d; mret (Dir2 (dir2_fd d) (stream d) p 0 (dirent2 d) (dirent2_size d))) /\
  yields (d ← dirent_close_streams d; mret (Dir2 (dir2_fd d) (stream d) p 0 (dirent2 d) (dirent2_size d))) dir_ok.
Proof.
  intros [Hr Hs] Hp. split.
  - apply (safe_bind_yields n _ _ (fun _ => True)); [apply dirent_close_streams_safe|done|]. intros. safe_tac.
  - apply (yields_bind _ _ (fun d' => dirent2_size d' = dirent2_size d)); [|intros d' Hd'; apply yields_ret; split; simpl; lia].
    unfold dirent_close_streams. destruct (negb _); [|by apply yields_ret].
    apply yields_after. intros _. by apply yields_ret.
Qed.

Lemma readdir_skip_yields fuel r : dir_ok (fst r) -> yields (readdir_skip fuel r) (fun r' => dir_ok (fst r')).
Proof.
  revert r. induction fuel as [|fuel IH]; intros [d [e|]] Hd; cbn [readdir_skip fst snd] in *; try by apply yields_ret.
  - destruct (0 <? skip d); [done|by apply yields_ret].
  - destruct (Z.ltb_spec 0 (skip d)); [|by apply yields_ret]. destruct Hd.
    destruct (readdir_next_ok (g := steady) 0 (set_skip (skip d - 1) d)) as [_ Hy]; [lia|split; [done|simpl; lia]|].
    eapply yields_bind; [exact Hy|]. intros r' [Hr' _]. by apply IH.
Qed.

Lemma readdir2_yields d : dir_ok d -> yields (readdir2 d) (fun r => dir_ok (fst r)).
Proof.
  intros Hd. unfold readdir2. destruct (readdir_next_ok (g := steady) 0 d) as [_ Hy]; [lia|done|].
  eapply yields_bind; [exact Hy|]. intros r' [Hr' _]. by apply readdir_skip_yields.
Qed.

Lemma dir_step_ok n d op :
  n < 2 ^ 30 -> dir_ok d -> safe (g := steady) n (dir_step d op) /\ yields (dir_step d op) (fun r => dir_ok r.1).
Proof.
  intros Hn Hd. destruct op as [| |loc_|]; cbn [dir_step].
  - split.
    + apply (safe_bind_yields n _ _ (fun _ => True)); [by apply readdir2_safe|done|]. intros. safe_tac.
    + eapply yields_bind; [by apply readdir2_yields|]. intros r Hr. by apply yields_ret.
  - split; [safe_tac|by apply yields_ret].
  - destruct (restart_ok (g := steady) n d (u32 loc_) Hd ltac:(apply u32_range)) as [Hs Hy]. split.
    + apply (safe_bind_yields n _ _ _ Hs Hy). intros. safe_tac.
    + eapply yields_bind; [exact Hy|]. intros d' Hd'. by apply yields_ret.
  - destruct (restart_ok (g := steady) n d 0 Hd ltac:(lia)) as [Hs Hy]. split.
    + apply (safe_bind_yields n _ _ _ Hs Hy). intros. safe_tac.
    + eapply yields_bind; [exact Hy|]. intros d' Hd'. by apply yields_ret.
Qed.

Lemma dir_run_safe n d ops : n < 2 ^ 30 -> dir_ok d -> safe (g := steady) n (dir_run d ops).
Proof.
  intros Hn. revert d. induction ops as [|op ops IH]; intros d Hd; cbn [dir_run]; [safe_tac|].
  destruct (dir_step_ok n d op Hn Hd) as [Hs Hy]. apply (safe_bind_yields n _ _ _ Hs Hy). intros r Hr.
  apply (safe_bind_yields n _ _ (fun _ => True)); [by apply IH|done|]. intros. safe_tac.
Qed.
End returns.

(** C37: Whatever the host answers and the allocator refuses, any sequence of
    operations on a directory stream terminates, without a failed assertion,
    and gives back every reference to a descriptor it takes. *)
Theorem directory_stream_returns `{HostLaws} `{!NameLaws} d ops held (s : world) :
  inv held s -> len s <= 2 ^ 26 -> Z.of_nat (length held) <= 2 ^ 29 -> dir_ok d ->
  exists rs s', dir_run d ops s = Done rs s' /\ inv held s'.
Proof.
  intros Hi Hl Hh Hd. destruct (dir_run_safe (2 ^ 29) d ops ltac:(lia) Hd held s Hi Hl Hh) as (rs & s' & Hs & Hi' & _). eauto.
Qed.

(** ** A directory of two entries *)

(** The entries read from the stream that the [n]th call opened. *)
Fixpoint reads_of (st n : Z) (h : list event) (k : nat) : nat :=
  match h with
  | [] => k
  | Ev c :: rest =>
      reads_of st (n + 1) rest
        match c with
        | descriptor_read_directory _ => if st =? 100 + n then 0%nat else k
        | directory_entry_stream_read_directory_entry st' => if st' =? st then S k else k
        | _ => k
        end
  end.

Definition demo_es : list (filetype * cstr) := [(REGULAR_FILE, lit "a"); (DIRECTORY, lit "b")].

#[local] Instance directory_host : Host := fun R h c =>
  match c in hostcall R return R -> R with
  | directory_entry_stream_read_directory_entry st => fun _ => inl (demo_es !! reads_of st 0 h 0)
  | _ => id
  end (demo_host R h c).

Lemma directory_host_laws : HostLaws (H := directory_host).
Proof.
  pose proof demo_host_laws as [He Ho Hp Hr]. split; [|exact Ho|exact Hp|exact Hr].
  intros R h c e. pose proof (He R h c e) as Hc. destruct c; done || exact Hc.
Qed.

Lemma directory_name_laws : NameLaws (H := directory_host).
Proof.
  intros h st type name. unfold host, directory_host. generalize (reads_of st 0 h 0). intros [|[|k]]; intros [= <- <-]; by vm_compute.
Qed.

Lemma reads_of_app st n h k {R : Set} (c : hostcall R) :
  reads_of st n (h ++ [Ev c]) k = reads_of st (n + Z.of_nat (length h)) [Ev c] (reads_of st n h k).
Proof.
  revert n k. induction h as [|[R' c'] h IH]; intros n k; [by rewrite Z.add_0_r|].
  replace (n + Z.of_nat (length (Ev c' :: h))) with (n + 1 + Z.of_nat (length h)) by (cbn [length]; lia). apply IH.
Qed.

Lemma at_entry_reads st h k : at_entry (H := directory_host) 50 st h k -> reads_of st 0 h 0 = k.
Proof.
  induction 1 as [h Hh|h k _ IH|h k R c _ IH Hc]; rewrite reads_of_app; cbn.
  - injection Hh as <-. by rewrite Z.eqb_refl.
  - by rewrite IH, Z.eqb_refl.
  - rewrite IH. destruct c; try done. cbn in Hc. by destruct (_ =? _).
Qed.

Lemma directory_host_directory : DirectoryLaws (H := directory_host) 50 demo_es 77 (fun _ => 76).
Proof.
  split; try done.
  - intros h. exists (100 + Z.of_nat (length h)). split; [done|lia].
  - intros st h k <-%at_entry_reads. done.
  - by repeat constructor; vm_compute.
Qed.

Lemma demo_world_opened : opened [] 3 50 demo_world.
Proof.
  split; [apply demo_world_inv|vm_compute; discriminate|simpl; lia|done| |done].
  exists 1%nat, (File 50 0 0 0 0 0 0). by vm_compute.
Qed.

Lemma directory_stream_refines_witness :
  exists s', (o ← fdopendir2 (H := directory_host) 3; match o with
    | Some d => dir_run d [Readdir; Seekdir 3; Readdir; Readdir; Telldir; Rewinddir; Readdir]
    | None => mret [] end) demo_world =
    Done [REntry (Some (Dirent 77 DT_DIR [DOT])); RNone; REntry (Some (Dirent 76 DT_DIR (lit "b"))); REntry None; RLoc 4; RNone;
      REntry (Some (Dirent 77 DT_DIR [DOT]))] s'.
Proof.
  exact (directory_stream_refines (H := directory_host) 50 demo_es 77 (fun _ => 76) (H0 := directory_host_directory) [] 3
    [Readdir; Seekdir 3; Readdir; Readdir; Telldir; Rewinddir; Readdir] demo_world demo_world_opened).
Defined.

Lemma directory_stream_returns_witness :
  exists rs s', dir_run (H := directory_host) (Dir2 3 0 5 0 None 1) [Readdir; Seekdir (-1); Readdir] demo_world = Done rs s' /\ inv [] s'.
Proof.
  apply (directory_stream_returns (H := directory_host) (H0 := directory_host_laws) (H1 := directory_name_laws)).
  - exact demo_world_inv.
  - vm_compute; discriminate.
  - simpl; lia.
  - by split.
Defined.
