(* ===== verification/Sockets.v ===== *)
(** * The socket calls

    socket, bind, connect, listen, accept, getsockname, getpeername, recv, send,
    shutdown, getsockopt and setsockopt (sources/socket.c, bind.c, ...): each
    looks the descriptor up in the table and runs a slot of its vtable. The
    parts of tcp.c that make new descriptors are here as well. *)

From S2P Require Import Prelude Errno Time Stat SockAddr Host DescTable Object File Tcp Udp Vtable FdOps.

Definition PF_INET : Z := 1.
Definition PF_INET6 : Z := 2.

Section code.
Context `{Host}.

(** ** Making sockets *)

(** [tcp_add]; [*out] is the second component. *)
Definition tcp_add (socket : Z) (f : ip_address_family) (b : bool) : M world (Z * loc) :=
  ok ← alloc_ok;
  if negb ok then
    ask (tcp_socket_drop_own socket) ;; fail_with ENOMEM (-1, 0%nat)
  else
    e ← new_object (DTcp (new_tcp socket f b));
    fd ← descriptor_table_insert e;
    mret (fd, e).

Definition __wasilibc_add_tcp_socket (socket : Z) (f : ip_address_family) (b : bool) : M world Z :=
  r ← tcp_add socket f b; mret (fst r).

Definition __wasilibc_add_udp_socket (socket : Z) (f : ip_address_family) (b : bool) : M world Z :=
  ok ← alloc_ok;
  if negb ok then
    ask (udp_socket_drop_own socket) ;; fail_with ENOMEM (-1)
  else
    e ← new_object (DUdp (new_udp socket f b));
    descriptor_table_insert e.

Definition tcp_socket_call (f : ip_address_family) (b : bool) : M world Z :=
  r ← ask (create_tcp_socket f);
  match r with
  | inr error => __wasilibc_socket_error_to_errno error
  | inl socket => __wasilibc_add_tcp_socket socket f b
  end.

Definition udp_socket_call (f : ip_address_family) (b : bool) : M world Z :=
  r ← ask (create_udp_socket f);
  match r with
  | inr error => __wasilibc_socket_error_to_errno error
  | inl socket => __wasilibc_add_udp_socket socket f b
  end.

Definition socket_of (f : ip_address_family) (type protocol : Z) : M world Z :=
  let real_type := Z.land type (Z.lnot (Z.lor SOCK_NONBLOCK SOCK_CLOEXEC)) in
  let b := negb (has type SOCK_NONBLOCK) in
  if (real_type =? SOCK_STREAM) && ((protocol =? 0) || (protocol =? IPPROTO_TCP)) then tcp_socket_call f b else
  if (real_type =? SOCK_DGRAM) && ((protocol =? 0) || (protocol =? IPPROTO_UDP)) then udp_socket_call f b else
  fail_with EPROTONOSUPPORT (-1).

Definition socket (domain type protocol : Z) : M world Z :=
  if domain =? PF_INET then socket_of IPV4 type protocol else
  if domain =? PF_INET6 then socket_of IPV6 type protocol else
  fail_with EAFNOSUPPORT (-1).

(** ** Slots that are only of sockets *)

(** [if (!slot) { errno = e; return bad; } return slot(...);] *)
Definition run_slot {A} (fd : Z) (slot : descriptor -> option (M (octx descriptor) A)) (err : Z) (bad : A) : M world A :=
  with_entry fd bad (fun e => on_object e (fun o =>
    match slot o with
    | Some m => m
    | None => fail_with err bad
    end)).

Definition bind (fuel : nat) (fd : Z) (addr : option (list Z)) (addrlen : Z) : M world Z :=
  run_slot fd (fun o => match o with
    | DTcp t => Some (as_tcp t (tcp_bind fuel addr addrlen))
    | DUdp u => Some (as_udp u (udp_bind fuel addr addrlen))
    | _ => None
    end) EOPNOTSUPP (-1).

Definition connect (fuel : nat) (fd : Z) (addr : option (list Z)) (addrlen : Z) : M world Z :=
  run_slot fd (fun o => match o with
    | DTcp t => Some (as_tcp t (tcp_connect fuel addr addrlen))
    | DUdp u => Some (as_udp u (udp_connect fuel addr addrlen))
    | _ => None
    end) EOPNOTSUPP (-1).

Definition listen (fuel : nat) (fd backlog : Z) : M world Z :=
  let backlog := if backlog <? 0 then 0 else backlog in
  run_slot fd (fun o => match o with
    | DTcp t => Some (as_tcp t (tcp_listen fuel backlog))
    | _ => None
    end) EOPNOTSUPP (-1).

Definition shutdown (fd how : Z) : M world Z :=
  run_slot fd (fun o => match o with
    | DTcp t => Some (as_tcp t (tcp_shutdown_ how))
    | _ => None
    end) EOPNOTSUPP (-1).

Definition getsockname (fd : Z) (addr : bool) (addrlen : option Z) : M world (Z * option (list Z * Z)) :=
  run_slot fd (fun o => match o with
    | DTcp t => Some (as_tcp t (tcp_getsockname addr addrlen))
    | DUdp u => Some (as_udp u (udp_getsockname addr addrlen))
    | _ => None
    end) ENOTSOCK (-1, None).

Definition getpeername (fd : Z) (addr : bool) (addrlen : option Z) : M world (Z * option (list Z * Z)) :=
  run_slot fd (fun o => match o with
    | DTcp t => Some (as_tcp t (tcp_getpeername addr addrlen))
    | DUdp u => Some (as_udp u (udp_getpeername addr addrlen))
    | _ => None
    end) ENOTSOCK (-1, None).

(** [optval] tells whether the pointer is not NULL. *)
Definition getsockopt (fd level optname : Z) (optval : bool) (optlen : option Z) : M world (Z * option (list Z * Z)) :=
  run_slot fd (fun o =>
    match optval, optlen with
    | true, Some optlen =>
        if optlen <? sizeof_int then Some (fail_with EINVAL (-1, None)) else
        match o with
        | DTcp t => Some (as_tcp t (tcp_getsockopt level optname optlen))
        | DUdp u => Some (as_udp u (udp_getsockopt level optname optlen))
        | _ => None
        end
    | _, _ => Some (fail_with EINVAL (-1, None))
    end) ENOPROTOOPT (-1, None).

Definition setsockopt (fd level optname : Z) (optval : option (list Z)) (optlen : Z) : M world Z :=
  run_slot fd (fun o =>
    match optval with
    | None => Some (fail_with EINVAL (-1))
    | Some optval =>
        if optlen <? sizeof_int then Some (fail_with EINVAL (-1)) else
        match o with
        | DTcp t => Some (as_tcp t (tcp_setsockopt level optname optval optlen))
        | DUdp u => Some (as_udp u (udp_setsockopt level optname optval optlen))
        | _ => None
        end
    end) ENOPROTOOPT (-1).

(** ** Receiving and sending *)

(** [read.blocking = false] when [MSG_DONTWAIT] is set. *)
Definition dont_wait (flags : Z) (io : wasi_io) : wasi_io :=
  if has flags MSG_DONTWAIT then Io (io_stream io) (io_has_offset io) false (io_timeout io) else io.

Definition tcp_recvfrom (fuel : nat) (length_ flags : Z) (addrlen : option Z) (t : tcp_socket_t) : M (octx descriptor) received :=
  if negb (Z.land flags MSG_DONTWAIT =? flags) then fail_with EOPNOTSUPP (-1, [], None) else
  let out := (fun _ => ([], 0)) <$> addrlen in
  r ← as_tcp t tcp_get_read_stream;
  match snd r with
  | None => mret (-1, [], out)
  | Some io => r ← __wasilibc_read fuel (dont_wait flags io) length_; mret (r.1, r.2, out)
  end.

Definition tcp_sendto (fuel : nat) (buffer : list Z) (flags : Z) (t : tcp_socket_t) : M (octx descriptor) Z :=
  if negb (Z.land flags (Z.lor MSG_DONTWAIT MSG_NOSIGNAL) =? flags) then fail_with EOPNOTSUPP (-1) else
  r ← as_tcp t tcp_get_write_stream;
  match snd r with
  | None => mret (-1)
  | Some io => __wasilibc_write fuel (dont_wait flags io) buffer
  end.

(** [buffer] tells whether the pointer is not NULL. *)
Definition recvfrom (fuel : nat) (fd : Z) (buffer : bool) (length_ flags : Z) (addr : bool) (addrlen : option Z) : M world received :=
  run_slot fd (fun o =>
    if negb buffer then Some (fail_with EINVAL (-1, [], None)) else
    match o with
    | DTcp t => Some (tcp_recvfrom fuel length_ flags addrlen t)
    | DUdp u => Some (as_udp u (udp_recvfrom fuel length_ flags addr addrlen))
    | _ => None
    end) EOPNOTSUPP (-1, [], None).

Definition recv (fuel : nat) (fd : Z) (buffer : bool) (length_ flags : Z) : M world received :=
  recvfrom fuel fd buffer length_ flags false None.

Definition sendto (fuel : nat) (fd : Z) (buffer : option (list Z)) (flags : Z) (addr : option (list Z)) (addrlen : Z) : M world Z :=
  run_slot fd (fun o =>
    match buffer with
    | None => Some (fail_with EINVAL (-1))
    | Some buffer =>
        match o with
        | DTcp t => Some (tcp_sendto fuel buffer flags t)
        | DUdp u => Some (as_udp u (udp_sendto fuel buffer flags addr addrlen))
        | _ => None
        end
    end) EOPNOTSUPP (-1).

Definition send (fuel : nat) (fd : Z) (buffer : option (list Z)) (flags : Z) : M world Z :=
  sendto fuel fd buffer flags None 0.

(** ** Accepting *)

(** A change of the fields of the TCP socket at [e]. *)
Definition change_tcp (e : loc) (f : tcp_socket_t -> tcp_socket_t) : M world unit :=
  on_object e (fun o => match o with DTcp t => as_tcp t (update f) | _ => halt Undef end).

(** The part of [tcp_accept4] from the new object on. *)
Definition tcp_accept_add (t : tcp_socket_t) (flags : Z) (output_addr : output_sockaddr) (client input output : Z) :
    M world (Z * option (list Z * Z)) :=
  r ← tcp_add client (family t) (negb (has flags SOCK_NONBLOCK));
  if fst r <? 0 then
    ask (streams_input_stream_drop_own input) ;; ask (streams_output_stream_drop_own output) ;; mret (-1, None)
  else
  change_tcp (snd r) (set_tcp_state (connected_state input output)) ;;
  out ← match output_addr with
        | OUTPUT_SOCKADDR_NULL => mret None
        | _ =>
            a ← ask (tcp_remote_address client);
            match a with
            | inr _ => halt Trap
            | inl remote_address => o ← __wasilibc_wasi_to_sockaddr remote_address output_addr; mret (Some o)
            end
        end;
  change_tcp (snd r) (set_fake_nodelay (fake_nodelay t)) ;;
  mret (fst r, out).

Definition tcp_accept4 (fuel : nat) (e : loc) (addr : bool) (addrlen : option Z) (flags : Z) : M world (Z * option (list Z * Z)) :=
  r ← on_object e (fun o => match o with
        | DTcp t => as_tcp t (r ← tcp_accept_client fuel addr addrlen; t ← gets self; mret (t, r))
        | _ => halt Undef
        end);
  match snd r with
  | None => mret (-1, None)
  | Some (output_addr, (client, input, output)) => tcp_accept_add (fst r) flags output_addr client input output
  end.

Definition accept4 (fuel : nat) (fd : Z) (addr : bool) (addrlen : option Z) (flags : Z) : M world (Z * option (list Z * Z)) :=
  with_entry fd (-1, None) (fun e =>
    o ← load e;
    match body o with
    | DTcp _ => tcp_accept4 fuel e addr addrlen flags
    | _ => fail_with EOPNOTSUPP (-1, None)
    end).

Definition accept (fuel : nat) (fd : Z) (addr : bool) (addrlen : option Z) : M world (Z * option (list Z * Z)) :=
  accept4 fuel fd addr addrlen 0.
End code.
