(* ===== verification/Poll.v ===== *)
(** * Waiting for descriptors: poll and select

    sources/ppoll.c for wasip2, with the slots [poll_register] and [poll_finish]
    of sockets, and poll, select and pselect of cloudlibc/src/libc. The array of
    [struct pollfd] of the caller is part of the state of a call; a pointer into
    it is an index. *)

From S2P Require Import Prelude Errno Time Stat SockAddr Host DescTable Object File Tcp Udp Vtable FdOps.

Definition POLLRDNORM : Z := 0x1.
Definition POLLWRNORM : Z := 0x2.
Definition POLLPRI : Z := 0x0200.
Definition POLLERR : Z := 0x1000.
Definition POLLHUP : Z := 0x2000.
Definition POLLNVAL : Z := 0x4000.

Record pollfd := Pollfd { pfd : Z; pevents : Z; revents : Z }.

Definition set_revents (r : Z) (p : pollfd) : pollfd := Pollfd (pfd p) (pevents p) r.

(** What a pollable in the list for the host stands for. *)
Record state_t := State { st_pollfd : nat; st_entry : loc; st_events : Z }.

Record poll_state_t := PollState {
  states : list state_t;
  pollables : list Z;
  cap : Z;
  event_count : Z;
  cur_pollfd : option nat;
  cur_entry : option loc;
  fds : list pollfd;
}.

Definition set_current (i : option nat) (e : option loc) (st : poll_state_t) : poll_state_t :=
  PollState (states st) (pollables st) (cap st) (event_count st) i e (fds st).

Definition add_state (x : state_t) (pollable : Z) (st : poll_state_t) : poll_state_t :=
  PollState (states st ++ [x]) (pollables st ++ [pollable]) (cap st) (event_count st) (cur_pollfd st) (cur_entry st) (fds st).

Section code.
Context `{Host}.

Definition __wasilibc_poll_add (st : poll_state_t) (events pollable : Z) : M world (Z * poll_state_t) :=
  if cap st <=? Z.of_nat (length (states st)) then fail_with ENOMEM (-1, st) else
  match cur_pollfd st, cur_entry st with
  | Some i, Some e => descriptor_table_entry_inc e ;; mret (0, add_state (State i e events) pollable st)
  | _, _ => halt Trap
  end.

Definition __wasilibc_poll_ready (st : poll_state_t) (events : Z) : M world poll_state_t :=
  match cur_pollfd st with
  | None => halt Trap
  | Some i =>
      match fds st !! i with
      | None => halt Undef
      | Some p =>
          mret (if events =? 0 then st else
            PollState (states st) (pollables st) (cap st) (if revents p =? 0 then event_count st + 1 else event_count st)
              (cur_pollfd st) (cur_entry st) (<[i := set_revents (Z.lor (revents p) events) p]> (fds st)))
      end
  end.

(** ** Registration *)

(** The pollable of the read stream of an object, made when it is first needed. *)
Definition subscribe_input (stream : Z) : M (octx descriptor) Z :=
  o ← gets self;
  (if get_read_pollable o =? 0 then h ← ask (streams_input_stream_subscribe stream); update (set_read_pollable h) else mret tt) ;;
  gets (fun s => get_read_pollable (self s)).

Definition subscribe_output (stream : Z) : M (octx descriptor) Z :=
  o ← gets self;
  (if get_write_pollable o =? 0 then h ← ask (streams_output_stream_subscribe stream); update (set_write_pollable h) else mret tt) ;;
  gets (fun s => get_write_pollable (self s)).

Definition __wasilibc_poll_add_input_stream (st : poll_state_t) (e : loc) (input_stream : Z) : M world (Z * poll_state_t) :=
  p ← on_object e (fun _ => subscribe_input input_stream);
  __wasilibc_poll_add st POLLRDNORM p.

Definition __wasilibc_poll_add_output_stream (st : poll_state_t) (e : loc) (output_stream : Z) : M world (Z * poll_state_t) :=
  p ← on_object e (fun _ => subscribe_output output_stream);
  __wasilibc_poll_add st POLLWRNORM p.

(** Runs [m] on the TCP socket at [e]. *)
Definition on_tcp {A} (e : loc) (m : M (octx tcp_socket_t) A) : M world A :=
  on_object e (fun o => match o with DTcp t => as_tcp t m | _ => halt Undef end).

Definition on_udp {A} (e : loc) (m : M (octx udp_socket_t) A) : M world A :=
  on_object e (fun o => match o with DUdp u => as_udp u m | _ => halt Undef end).

(** [if (step < 0) return -1;] *)
Definition and_then (m : M world (Z * poll_state_t)) (k : poll_state_t -> M world (Z * poll_state_t)) : M world (Z * poll_state_t) :=
  r ← m; if fst r <? 0 then mret (-1, snd r) else k (snd r).

Definition tcp_poll_register (st : poll_state_t) (e : loc) (events : Z) : M world (Z * poll_state_t) :=
  t ← on_tcp e (gets self);
  match tcp_state t with
  | TCP_SOCKET_STATE_CONNECTING =>
      if has events (Z.lor POLLRDNORM POLLWRNORM) then p ← on_tcp e tcp_pollable; __wasilibc_poll_add st events p else mret (0, st)
  | TCP_SOCKET_STATE_LISTENING =>
      if has events POLLRDNORM then p ← on_tcp e tcp_pollable; __wasilibc_poll_add st events p else mret (0, st)
  | TCP_SOCKET_STATE_CONNECTED conn =>
      and_then (if has events POLLRDNORM then __wasilibc_poll_add_input_stream st e (tcp_input conn) else mret (0, st)) (fun st =>
      and_then (if has events POLLWRNORM then __wasilibc_poll_add_output_stream st e (tcp_output conn) else mret (0, st)) (fun st =>
      mret (0, st)))
  | TCP_SOCKET_STATE_CONNECT_FAILED _ => st ← __wasilibc_poll_ready st events; mret (0, st)
  | _ => fail_with ENOTSUP (-1, st)
  end.

(** The pollable of a stream of a UDP socket; the socket has streams. *)
Definition udp_stream_pollable (make : udp_socket_streams_t -> M (octx udp_socket_t) udp_socket_streams_t) (get : udp_socket_streams_t -> Z) :
    M (octx udp_socket_t) Z :=
  u ← gets self;
  match udp_streams u with
  | None => halt Trap
  | Some streams => streams ← make streams; mret (get streams)
  end.

(** The cases with streams. *)
Definition udp_register_streams (st : poll_state_t) (e : loc) (events : Z) : M world (Z * poll_state_t) :=
  u ← on_udp e (gets self);
  match udp_streams u with
  | None => halt Trap
  | Some _ =>
      and_then (if has events POLLRDNORM
                then p ← on_udp e (udp_stream_pollable udp_incoming_pollable incoming_pollable); __wasilibc_poll_add st POLLRDNORM p
                else mret (0, st)) (fun st =>
      and_then (if has events POLLWRNORM
                then p ← on_udp e (udp_stream_pollable udp_outgoing_pollable outgoing_pollable); __wasilibc_poll_add st POLLWRNORM p
                else mret (0, st)) (fun st =>
      mret (0, st)))
  end.

Definition udp_poll_register (st : poll_state_t) (e : loc) (events : Z) : M world (Z * poll_state_t) :=
  u ← on_udp e (gets self);
  match udp_state u with
  | UDP_SOCKET_STATE_UNBOUND => st ← __wasilibc_poll_ready st events; mret (0, st)
  | UDP_SOCKET_STATE_BOUND_NOSTREAMS =>
      rc ← on_udp e (udp_create_streams None);
      if rc <? 0 then mret (-1, st) else udp_register_streams st e events
  | _ => udp_register_streams st e events
  end.

(** Without a slot [poll_register]: the streams of files and standard streams. *)
Definition stream_poll_register (st : poll_state_t) (e : loc) (pollfd_events : Z) : M world (Z * poll_state_t) :=
  let events := Z.land pollfd_events (Z.lnot POLLPRI) in
  if has events (Z.lnot (Z.lor POLLRDNORM POLLWRNORM)) then fail_with EOPNOTSUPP (-1, st) else
  and_then (if has events POLLRDNORM
            then r ← on_object e get_read_stream;
                 match snd r with None => mret (-1, st) | Some read => __wasilibc_poll_add_input_stream st e (io_stream read) end
            else mret (0, st)) (fun st =>
  and_then (if has events POLLWRNORM
            then r ← on_object e get_write_stream;
                 match snd r with None => mret (-1, st) | Some write => __wasilibc_poll_add_output_stream st e (io_stream write) end
            else mret (0, st)) (fun st =>
  mret (0, st))).

Definition poll_register (st : poll_state_t) (e : loc) (events : Z) : M world (Z * poll_state_t) :=
  o ← load e;
  match body o with
  | DTcp _ => tcp_poll_register st e events
  | DUdp _ => udp_poll_register st e events
  | _ => stream_poll_register st e events
  end.

(** One turn of the first loop of [ppoll_impl]. *)
Definition register_one (i : nat) (st : poll_state_t) : M world (Z * poll_state_t) :=
  match fds st !! i with
  | None => halt Undef
  | Some p =>
      if pfd p <? 0 then mret (0, st) else
      r ← descriptor_table_get (pfd p);
      match snd r with
      | None => st ← __wasilibc_poll_ready (set_current (Some i) (cur_entry st) st) POLLNVAL; mret (0, set_current None (cur_entry st) st)
      | Some e =>
          r ← poll_register (set_current (Some i) (Some e) st) e (pevents p);
          descriptor_table_entry_dec e ;;
          mret (fst r, set_current None None (snd r))
      end
  end.

Fixpoint register_all (todo : list nat) (st : poll_state_t) : M world (Z * poll_state_t) :=
  match todo with
  | [] => mret (0, st)
  | i :: todo' => r ← register_one i st; if fst r <? 0 then mret (-1, snd r) else register_all todo' (snd r)
  end.

(** ** What is ready *)

(** [finish-connect] of a socket that was polled while connecting. *)
Definition tcp_finish : M (octx tcp_socket_t) (Z * Z + Z) :=
  t ← gets self;
  r ← ask (tcp_finish_connect (tcp_socket t));
  match r with
  | inl (input, output) => update (set_tcp_state (connected_state input output))
  | inr error => if error =? NETWORK_ERROR_CODE_WOULD_BLOCK then mret tt else update (set_tcp_state (TCP_SOCKET_STATE_CONNECT_FAILED error))
  end ;;
  mret r.

Definition tcp_poll_finish (st : poll_state_t) (e : loc) (events : Z) : M world poll_state_t :=
  t ← on_tcp e (gets self);
  match tcp_state t with
  | TCP_SOCKET_STATE_CONNECTING =>
      r ← on_tcp e tcp_finish;
      match r with
      | inl _ => __wasilibc_poll_ready st (Z.land events POLLWRNORM)
      | inr error => if error =? NETWORK_ERROR_CODE_WOULD_BLOCK then mret st else __wasilibc_poll_ready st events
      end
  | TCP_SOCKET_STATE_LISTENING => __wasilibc_poll_ready st (Z.land events POLLRDNORM)
  | _ => __wasilibc_poll_ready st events
  end.

Definition finish_one (index : Z) (st : poll_state_t) : M world poll_state_t :=
  if Z.of_nat (length (states st)) <=? u32 index then mret st else
  match states st !! Z.to_nat (u32 index) with
  | None => halt Undef
  | Some x =>
      let st := set_current (Some (st_pollfd x)) (Some (st_entry x)) st in
      o ← load (st_entry x);
      match body o with
      | DTcp _ => tcp_poll_finish st (st_entry x) (st_events x)
      | _ => __wasilibc_poll_ready st (st_events x)
      end
  end.

Fixpoint finish_all (ready : list Z) (st : poll_state_t) : M world poll_state_t :=
  match ready with
  | [] => mret st
  | index :: ready' => st ← finish_one index st; finish_all ready' st
  end.

(** ** The calls *)

Definition timeout_ns (ts : timespec) : Z := u64 (u64 (u64 (tv_sec ts) * 1000000000) + tv_nsec ts).

(** [ppoll_impl] after the first loop. *)
Definition poll_wait (st : poll_state_t) (timeout : option timespec) : M world (Z * poll_state_t) :=
  let timeout := if 0 <? event_count st then Some (Timespec 0 0) else timeout in
  timeout_pollable ← match timeout with None => mret 0 | Some ts => ask (monotonic_clock_subscribe_duration (timeout_ns ts)) end;
  ready ← ask (poll_poll (pollables st ++ match timeout with None => [] | Some _ => [timeout_pollable] end));
  st ← finish_all ready st;
  (if timeout_pollable =? 0 then mret tt else ask (poll_pollable_drop_own timeout_pollable)) ;;
  mret (event_count st, st).

Fixpoint release_all (l : list state_t) : M world unit :=
  match l with
  | [] => mret tt
  | x :: l' => descriptor_table_entry_dec (st_entry x) ;; release_all l'
  end.

Definition ppoll_impl (fds_ : list pollfd) (timeout : option timespec) : M world (Z * list pollfd) :=
  let nfds := length fds_ in
  r ← register_all (seq 0 nfds) (PollState [] [] (u32 (2 * Z.of_nat nfds + 1)) 0 None None fds_);
  r ← (if fst r <? 0 then mret r else poll_wait (snd r) timeout);
  release_all (states (snd r)) ;;
  mret (fst r, fds (snd r)).

Definition pri_only (p : pollfd) : bool :=
  negb ((pfd p <? 0) || (pevents p =? 0)) && negb (has (pevents p) (Z.lnot POLLPRI)).
Definition non_pri (p : pollfd) : bool :=
  negb ((pfd p <? 0) || (pevents p =? 0)) && has (pevents p) (Z.lnot POLLPRI).

Definition validate_something_not_pollpri (l : list pollfd) : M world Z :=
  if existsb pri_only l && negb (existsb non_pri l) then fail_with ENOSYS (-1) else mret 0.

(** The result, and the array with its [revents]. *)
Definition ppoll (l : list pollfd) (timeout : option timespec) : M world (Z * list pollfd) :=
  if match timeout with Some ts => (tv_sec ts <? 0) || (1000000000 <=? tv_nsec ts) || (tv_nsec ts <? 0) | None => false end
  then fail_with EINVAL (-1, l) else
  rc ← validate_something_not_pollpri l;
  if rc <? 0 then mret (-1, l) else
  ppoll_impl (set_revents 0 <$> l) timeout.

Definition poll (l : list pollfd) (timeout : Z) : M world (Z * list pollfd) :=
  if timeout <? 0 then ppoll l None else
  ppoll l (Some (Timespec (Z.quot timeout 1000) (Z.rem timeout 1000 * 1000000))).

(** ** Sets of descriptors

    [fd_set] is the list of its members. *)

Definition FD_SETSIZE : Z := 1024.

(** [None] is a write past the end of the array. *)
Definition FD_SET (fd : Z) (s : list Z) : option (list Z) :=
  if existsb (Z.eqb fd) s then Some s else
  if Z.of_nat (length s) <? FD_SETSIZE then Some (s ++ [fd]) else None.

Definition FD_ISSET (fd : Z) (s : list Z) : bool := existsb (Z.eqb fd) s.

(** The last member takes the place of the one that goes. *)
Fixpoint FD_CLR (fd : Z) (s : list Z) : list Z :=
  match s with
  | [] => []
  | x :: s' =>
      if x =? fd then match list.last s' with None => [] | Some y => y :: take (length s' - 1) s' end
      else x :: FD_CLR fd s'
  end.

(** One member of one set, added to the array. *)
Fixpoint add_events (fd events : Z) (l : list pollfd) : list pollfd :=
  match l with
  | [] => [Pollfd fd events 0]
  | p :: l' => if pfd p =? fd then Pollfd (pfd p) (Z.lor (pevents p) events) (revents p) :: l' else p :: add_events fd events l'
  end.

Definition add_set (nfds : Z) (set : list Z) (events : Z) (l : list pollfd) : list pollfd :=
  fold_left (fun l fd => if nfds <=? fd then l else add_events fd events l) set l.

Definition combine_sets (nfds : Z) (readfds writefds errorfds : list Z) : list pollfd :=
  add_set nfds errorfds POLLPRI (add_set nfds writefds POLLWRNORM (add_set nfds readfds POLLRDNORM [])).

(** Where the three pointers point to: the sets of the caller, or the one set
    [empty] for every NULL. *)
Record fd_sets := FdSets { fd_read : list Z; fd_write : list Z; fd_error : list Z; fd_empty : list Z }.
Inductive fd_ptr := PRead | PWrite | PError | PEmpty.

Definition get_set (p : fd_ptr) (s : fd_sets) : list Z :=
  match p with PRead => fd_read s | PWrite => fd_write s | PError => fd_error s | PEmpty => fd_empty s end.

Definition put_set (p : fd_ptr) (l : list Z) (s : fd_sets) : fd_sets :=
  match p with
  | PRead => FdSets l (fd_write s) (fd_error s) (fd_empty s)
  | PWrite => FdSets (fd_read s) l (fd_error s) (fd_empty s)
  | PError => FdSets (fd_read s) (fd_write s) l (fd_empty s)
  | PEmpty => FdSets (fd_read s) (fd_write s) (fd_error s) l
  end.

Definition append_if (b : bool) (p : fd_ptr) (fd : Z) (s : fd_sets) : fd_sets := if b then put_set p (get_set p s ++ [fd]) s else s.

Definition report (r w e : fd_ptr) (s : fd_sets) (p : pollfd) : fd_sets :=
  append_if (has (revents p) POLLPRI) e (pfd p)
    (append_if (has (revents p) POLLWRNORM) w (pfd p)
      (append_if (has (revents p) POLLRDNORM) r (pfd p) s)).

(** The result, and the sets of the caller afterwards. *)
Definition pselect (nfds : Z) (readfds writefds errorfds : option (list Z)) (timeout : option timespec) :
    M world (Z * (option (list Z) * option (list Z) * option (list Z))) :=
  if nfds <? 0 then fail_with EINVAL (-1, (readfds, writefds, errorfds)) else
  let r := if readfds then PRead else PEmpty in
  let w := if writefds then PWrite else PEmpty in
  let e := if errorfds then PError else PEmpty in
  let s := FdSets (default [] readfds) (default [] writefds) (default [] errorfds) [] in
  x ← ppoll (combine_sets nfds (get_set r s) (get_set w s) (get_set e s)) timeout;
  if fst x <? 0 then mret (-1, (readfds, writefds, errorfds)) else
  if existsb (fun p => has (revents p) POLLNVAL) (snd x) then fail_with EBADF (-1, (readfds, writefds, errorfds)) else
  let s := fold_left (report r w e) (snd x) (put_set e [] (put_set w [] (put_set r [] s))) in
  mret (Z.of_nat (length (get_set r s)) + Z.of_nat (length (get_set w s)) + Z.of_nat (length (get_set e s)),
    (if readfds then Some (fd_read s) else None, if writefds then Some (fd_write s) else None, if errorfds then Some (fd_error s) else None)).

Definition select (nfds : Z) (readfds writefds errorfds : option (list Z)) (timeout : option timeval) :
    M world (Z * (option (list Z) * option (list Z) * option (list Z))) :=
  match timeout with
  | Some tv =>
      if (tv_usec tv <? 0) || (1000000 <=? tv_usec tv) then fail_with EINVAL (-1, (readfds, writefds, errorfds)) else
      pselect nfds readfds writefds errorfds (Some (Timespec (tval_sec tv) (tv_usec tv * 1000)))
  | None => pselect nfds readfds writefds errorfds None
  end.
End code.
