(* ===== verification/Resources.v ===== *)
(** * The rules of the host

    The WIT interfaces (wasi/p2/wit/deps/) say which calls the host may answer
    with a trap: a call on a handle that is not (or no longer) there or has
    another type, a stream dropped before a [pollable] made from it, a [write]
    or [send] that no preceding [check-write] or [check-send] permits, a second
    [stream] on a UDP socket whose streams are still there, an empty list for
    [poll]. [conform h] replays the calls [h] against these rules: the
    resources held after them, or [None] when one breaks a rule. *)

From S2P Require Import Prelude Errno Time Stat SockAddr Host Object Tcp.

(** ** Resources *)

Inductive kind := Pollable | InputStream | OutputStream | IoError | Terminal | Descriptor | DirectoryEntryStream | Network
  | TcpSocket | UdpSocket | IncomingDatagramStream | OutgoingDatagramStream.

Global Instance kind_eq_dec : EqDecision kind.
Proof. solve_decision. Defined.

Global Instance family_eq_dec : EqDecision ip_address_family.
Proof. solve_decision. Defined.

Definition resource : Type := kind * Z.

(** What the host knows of a resource: the resource it was made from, the
    address family of a socket and of its datagram streams, whether a TCP
    socket is in the [listening] state. *)
Record info := Info { parent : option resource; fam : option ip_address_family; listening : bool }.

Definition plain : info := Info None None false.
Definition child_of (x : resource) : info := Info (Some x) None false.

Definition entry : Type := resource * info.

(** Handles held, and what the next [write] or [send] of a stream may carry. *)
Record resources := Resources { live : list entry; permits : list (resource * Z) }.

Definition lookup_info (x : resource) (l : list entry) : option info :=
  snd <$> find (fun e => bool_decide (fst e = x)) l.

Definition fam_of (x : resource) (l : list entry) : option ip_address_family := lookup_info x l ≫= fam.

(** ** What a call does with handles *)

(** The handles a call borrows. *)
Definition uses {R : Set} (c : hostcall R) : list resource :=
  match c with
  | poll_pollable_block h => [(Pollable, h)]
  | poll_poll hs => pair Pollable <$> hs
  | streams_input_stream_read h _ | streams_input_stream_subscribe h => [(InputStream, h)]
  | streams_output_stream_check_write h | streams_output_stream_write h _ | streams_output_stream_blocking_flush h
  | streams_output_stream_subscribe h => [(OutputStream, h)]
  | filesystem_error_code h => [(IoError, h)]
  | descriptor_read_via_stream h _ | descriptor_write_via_stream h _ | descriptor_append_via_stream h
  | descriptor_advise h _ _ _ | descriptor_sync h | descriptor_sync_data h | descriptor_get_flags h | descriptor_set_size h _
  | descriptor_set_times h _ _ | descriptor_read h _ _ | descriptor_write h _ _ | descriptor_stat_ h | descriptor_metadata_hash h
  | descriptor_stat_at h _ _ | descriptor_metadata_hash_at h _ _ | descriptor_set_times_at h _ _ _ _
  | descriptor_create_directory_at h _ | descriptor_open_at h _ _ _ _ | descriptor_readlink_at h _
  | descriptor_remove_directory_at h _ | descriptor_symlink_at h _ _ | descriptor_unlink_file_at h _
  | descriptor_read_directory h => [(Descriptor, h)]
  | descriptor_link_at h _ _ h2 _ | descriptor_rename_at h _ h2 _ => [(Descriptor, h); (Descriptor, h2)]
  | directory_entry_stream_read_directory_entry h => [(DirectoryEntryStream, h)]
  | tcp_start_bind h n _ | tcp_start_connect h n _ => [(TcpSocket, h); (Network, n)]
  | tcp_finish_bind h | tcp_finish_connect h | tcp_start_listen h | tcp_finish_listen h | tcp_accept h | tcp_local_address h
  | tcp_remote_address h | tcp_is_listening h | tcp_set_listen_backlog_size h _ | tcp_get_option _ h | tcp_set_option _ h _
  | tcp_subscribe h | tcp_shutdown h _ => [(TcpSocket, h)]
  | udp_start_bind h n _ => [(UdpSocket, h); (Network, n)]
  | udp_finish_bind h | udp_stream h _ | udp_local_address h | udp_remote_address h | udp_get_option _ h | udp_set_option _ h _
  | udp_subscribe h => [(UdpSocket, h)]
  | incoming_datagram_stream_receive h _ | incoming_datagram_stream_subscribe h => [(IncomingDatagramStream, h)]
  | outgoing_datagram_stream_check_send h | outgoing_datagram_stream_send h _ | outgoing_datagram_stream_subscribe h =>
      [(OutgoingDatagramStream, h)]
  | _ => []
  end.

(** The handle a call gives back. *)
Definition drops {R : Set} (c : hostcall R) : option resource :=
  match c with
  | poll_pollable_drop_own h => Some (Pollable, h)
  | streams_input_stream_drop_own h => Some (InputStream, h)
  | streams_output_stream_drop_own h => Some (OutputStream, h)
  | io_error_drop_own h => Some (IoError, h)
  | terminal_drop_own h => Some (Terminal, h)
  | descriptor_drop_own h => Some (Descriptor, h)
  | directory_entry_stream_drop_own h => Some (DirectoryEntryStream, h)
  | tcp_socket_drop_own h => Some (TcpSocket, h)
  | udp_socket_drop_own h => Some (UdpSocket, h)
  | incoming_datagram_stream_drop_own h => Some (IncomingDatagramStream, h)
  | outgoing_datagram_stream_drop_own h => Some (OutgoingDatagramStream, h)
  | _ => None
  end.

Definition on_inl {A B} (f : A -> list entry) (r : A + B) : list entry := match r with inl a => f a | inr _ => [] end.

Definition stream_failure {A} (r : A + stream_error) : list entry :=
  match r with inr (LAST_OPERATION_FAILED e) => [((IoError, e), plain)] | _ => [] end.

(** The handles in an answer, when [l] is held. *)
Definition creates {R : Set} (l : list entry) (c : hostcall R) : R -> list entry :=
  match c in hostcall R return R -> list entry with
  | monotonic_clock_subscribe_duration _ => fun h => [((Pollable, h), plain)]
  | streams_input_stream_read _ _ => stream_failure
  | streams_output_stream_check_write _ => stream_failure
  | streams_output_stream_write _ _ => stream_failure
  | streams_output_stream_blocking_flush _ => stream_failure
  | streams_input_stream_subscribe x => fun h => [((Pollable, h), child_of (InputStream, x))]
  | streams_output_stream_subscribe x => fun h => [((Pollable, h), child_of (OutputStream, x))]
  | stdin_get_stdin => fun h => [((InputStream, h), plain)]
  | stdout_get_stdout => fun h => [((OutputStream, h), plain)]
  | stderr_get_stderr => fun h => [((OutputStream, h), plain)]
  | terminal_get _ => fun r => match r with Some h => [((Terminal, h), plain)] | None => [] end
  | filesystem_preopens_get_directories => fun ds => (fun d => ((Descriptor, fst d), plain)) <$> ds
  | descriptor_read_via_stream _ _ => on_inl (fun h => [((InputStream, h), plain)])
  | descriptor_write_via_stream _ _ => on_inl (fun h => [((OutputStream, h), plain)])
  | descriptor_append_via_stream _ => on_inl (fun h => [((OutputStream, h), plain)])
  | descriptor_open_at _ _ _ _ _ => on_inl (fun h => [((Descriptor, h), plain)])
  | descriptor_read_directory _ => on_inl (fun h => [((DirectoryEntryStream, h), plain)])
  | instance_network => fun h => [((Network, h), plain)]
  | create_tcp_socket f => on_inl (fun h => [((TcpSocket, h), Info None (Some f) false)])
  | tcp_finish_connect _ => on_inl (fun p => [((InputStream, fst p), plain); ((OutputStream, snd p), plain)])
  | tcp_accept x => on_inl (fun p => [((TcpSocket, fst (fst p)), Info None (fam_of (TcpSocket, x) l) false);
      ((InputStream, snd (fst p)), plain); ((OutputStream, snd p), plain)])
  | tcp_subscribe x => fun h => [((Pollable, h), child_of (TcpSocket, x))]
  | create_udp_socket f => on_inl (fun h => [((UdpSocket, h), Info None (Some f) false)])
  | udp_stream x _ => on_inl (fun p => let i := Info (Some (UdpSocket, x)) (fam_of (UdpSocket, x) l) false in
      [((IncomingDatagramStream, fst p), i); ((OutgoingDatagramStream, snd p), i)])
  | udp_subscribe x => fun h => [((Pollable, h), child_of (UdpSocket, x))]
  | incoming_datagram_stream_subscribe x => fun h => [((Pollable, h), child_of (IncomingDatagramStream, x))]
  | outgoing_datagram_stream_subscribe x => fun h => [((Pollable, h), child_of (OutgoingDatagramStream, x))]
  | _ => fun _ => []
  end.

(** The socket an answer puts in the [listening] state. *)
Definition starts_listening {R : Set} (c : hostcall R) : R -> option resource :=
  match c in hostcall R return R -> option resource with
  | tcp_finish_listen h => fun r => match r with inl _ => Some (TcpSocket, h) | inr _ => None end
  | _ => fun _ => None
  end.

Definition permit_needed {R : Set} (c : hostcall R) : option (resource * Z) :=
  match c with
  | streams_output_stream_write h bytes => Some ((OutputStream, h), strlen bytes)
  | outgoing_datagram_stream_send h l => Some ((OutgoingDatagramStream, h), Z.of_nat (length l))
  | _ => None
  end.

Definition permit_given {R : Set} (c : hostcall R) : R -> option (resource * Z) :=
  match c in hostcall R return R -> option (resource * Z) with
  | streams_output_stream_check_write h => fun r => match r with inl n => Some ((OutputStream, h), n) | inr _ => None end
  | outgoing_datagram_stream_check_send h => fun r => match r with inl n => Some ((OutgoingDatagramStream, h), n) | inr _ => None end
  | _ => fun _ => None
  end.

(** ** The rules *)

Definition held (x : resource) (l : list entry) : bool := bool_decide (x ∈ l.*1).

Definition has_child (x : resource) (l : list entry) : bool := existsb (fun e => bool_decide (parent (snd e) = Some x)) l.

Definition is_datagram_stream (x : resource) : bool :=
  match fst x with IncomingDatagramStream | OutgoingDatagramStream => true | _ => false end.

Definition extra_rule {R : Set} (c : hostcall R) (l : list entry) : bool :=
  match c with
  | poll_poll hs => negb (bool_decide (hs = []))
  | udp_stream h _ => negb (existsb (fun e => is_datagram_stream (fst e) && bool_decide (parent (snd e) = Some (UdpSocket, h))) l)
  | _ => true
  end.

Definition admits {R : Set} (c : hostcall R) (m : resources) : bool :=
  forallb (fun x => held x (live m)) (uses c) &&
  match drops c with Some x => held x (live m) && negb (has_child x (live m)) | None => true end &&
  match permit_needed c with
  | Some (x, n) => existsb (fun p => bool_decide (fst p = x) && (n <=? snd p)) (permits m)
  | None => true
  end &&
  extra_rule c (live m).

Definition without {V} (o : option resource) (l : list (resource * V)) : list (resource * V) :=
  match o with Some x => filter (fun e => fst e <> x) l | None => l end.

Definition set_listening (o : option resource) (l : list entry) : list entry :=
  match o with
  | Some x => (fun e => if bool_decide (fst e = x) then (fst e, Info (parent (snd e)) (fam (snd e)) true) else e) <$> l
  | None => l
  end.

Definition advance {R : Set} (c : hostcall R) (r : R) (m : resources) : resources :=
  Resources
    (creates (live m) c r ++ set_listening (starts_listening c r) (without (drops c) (live m)))
    (option_list (permit_given c r) ++
     without (fst <$> permit_given c r) (without (fst <$> permit_needed c) (without (drops c) (permits m)))).

Section replay.
Context `{Host}.

Fixpoint replay (past rest : list event) (m : resources) : option resources :=
  match rest with
  | [] => Some m
  | Ev c :: rest' => if admits c m then replay (past ++ [Ev c]) rest' (advance c (host _ past c) m) else None
  end.

Definition conform (h : list event) : option resources := replay [] h (Resources [] []).

(** What the code relies on, from the documentation of the interfaces: handles
    in an answer are not 0 and not in use; errors of wasi:sockets are not
    those of the name lookup; an address has the family of the socket;
    [check-write] and [check-send] answer natural numbers, and [send] how many
    of the datagrams were sent. *)
Class ResourceLaws : Prop := {
  host_fresh (R : Set) h (c : hostcall R) m : conform h = Some m ->
    let new := (creates (live m) c (host _ h c)).*1 in
    NoDup new /\ Forall (fun x => snd x <> 0 /\ x ∉ (live m).*1) new;
  host_net_error (R : Set) h (c : hostcall R) e : reply_net_error c (host R h c) = Some e -> 0 <= e <= 17;
  host_tcp_local_family h m x f a : conform h = Some m -> fam_of (TcpSocket, x) (live m) = Some f ->
    host _ h (tcp_local_address x) = inl a -> family_of a = f;
  host_tcp_remote_family h m x f a : conform h = Some m -> fam_of (TcpSocket, x) (live m) = Some f ->
    host _ h (tcp_remote_address x) = inl a -> family_of a = f;
  host_udp_local_family h m x f a : conform h = Some m -> fam_of (UdpSocket, x) (live m) = Some f ->
    host _ h (udp_local_address x) = inl a -> family_of a = f;
  host_udp_remote_family h m x f a : conform h = Some m -> fam_of (UdpSocket, x) (live m) = Some f ->
    host _ h (udp_remote_address x) = inl a -> family_of a = f;
  host_datagram_family h m x n f l : conform h = Some m -> fam_of (IncomingDatagramStream, x) (live m) = Some f ->
    host _ h (incoming_datagram_stream_receive x n) = inl l -> Forall (fun d => family_of (snd d) = f) l;
  host_is_listening h m x i : conform h = Some m -> lookup_info (TcpSocket, x) (live m) = Some i ->
    host _ h (tcp_is_listening x) = listening i;
  host_check_write h x n : host _ h (streams_output_stream_check_write x) = inl n -> 0 <= n;
  host_check_send h x n : host _ h (outgoing_datagram_stream_check_send x) = inl n -> 0 <= n;
  host_sent h x l n : host _ h (outgoing_datagram_stream_send x l) = inl n -> 0 <= n <= Z.of_nat (length l);
}.

(** ** Waiting

    The resource whose pollable tells when a call is worth repeating, and the
    answers that make the code wait for it. *)

Definition subject {R : Set} (c : hostcall R) : option resource :=
  match c with
  | streams_input_stream_read x _ => Some (InputStream, x)
  | streams_output_stream_check_write x => Some (OutputStream, x)
  | tcp_finish_bind x | tcp_finish_connect x | tcp_finish_listen x | tcp_accept x => Some (TcpSocket, x)
  | udp_finish_bind x => Some (UdpSocket, x)
  | incoming_datagram_stream_receive x _ => Some (IncomingDatagramStream, x)
  | outgoing_datagram_stream_check_send x => Some (OutgoingDatagramStream, x)
  | _ => None
  end.

Definition would_block {A} (r : A + Z) : bool := match r with inr e => e =? NETWORK_ERROR_CODE_WOULD_BLOCK | inl _ => false end.
Definition answers_zero {E} (r : Z + E) : bool := match r with inl n => n =? 0 | inr _ => false end.
Definition answers_nil {A E} (r : list A + E) : bool := match r with inl [] => true | _ => false end.

Definition stalled {R : Set} (c : hostcall R) : R -> bool :=
  match c in hostcall R return R -> bool with
  | streams_input_stream_read _ n => fun r => (0 <? n) && answers_nil r
  | streams_output_stream_check_write _ => answers_zero
  | tcp_finish_bind _ => would_block
  | tcp_finish_connect _ => would_block
  | tcp_finish_listen _ => would_block
  | tcp_accept _ => would_block
  | udp_finish_bind _ => would_block
  | incoming_datagram_stream_receive _ n => fun r => (0 <? n) && answers_nil r
  | outgoing_datagram_stream_check_send _ => answers_zero
  | outgoing_datagram_stream_send _ l => fun r => (0 <? Z.of_nat (length l)) && answers_zero r
  | _ => fun _ => false
  end.

(** After [h] a pollable was waited for with the calls [w], and was ready. *)
Inductive waited (h : list event) (p : Z) : list event -> Prop :=
| waited_block : waited h p [Ev (poll_pollable_block p)]
| waited_poll t : existsb (Z.eqb 0) (host _ h (poll_poll [p; t])) = true ->
    waited h p [Ev (poll_poll [p; t]); Ev (poll_pollable_drop_own t)].

(** Nothing of [x] makes the code wait now; a datagram that [check-send] permits is sent. *)
Definition settled (x : resource) (h : list event) : Prop :=
  (forall (R : Set) (c : hostcall R), subject c = Some x -> stalled c (host _ h c) = false) /\
  (forall y d, x = (OutgoingDatagramStream, y) ->
     let c := outgoing_datagram_stream_send y [d] in stalled c (host _ (h ++ [Ev (outgoing_datagram_stream_check_send y)]) c) = false).

(** A pollable that is ready stays so until the next call. *)
Definition Prompt : Prop :=
  forall h m p x w, conform h = Some m -> lookup_info (Pollable, p) (live m) = Some (child_of x) -> waited h p w -> settled x (h ++ w).
End replay.

(** ** Aborting

    The two answers on which the code calls [abort]: an error for the address of
    the peer of a connection that was just accepted, which [accept] was asked
    for, and the size of a buffer of a UDP socket that is no [int]. [h] are the
    calls up to that answer. *)
Definition aborts_on `{Host} (h : list event) : Prop :=
  (exists h0 x c i o e, h = (h0 ++ [Ev (tcp_accept x)]) ++ [Ev (tcp_remote_address c)] /\ host _ h0 (tcp_accept x) = inl (c, i, o) /\
     host _ (h0 ++ [Ev (tcp_accept x)]) (tcp_remote_address c) = inr e) \/
  (exists h0 opt x n, h = h0 ++ [Ev (udp_get_option opt x)] /\ host _ h0 (udp_get_option opt x) = inl n /\ INT_MAX < n).

Definition Tolerable `{Host} : Prop := forall h, ~ aborts_on h.

(** Whether the host may let a call wait for ever, and whether it may make one
    abort; if not, it is [Prompt], or [Tolerable]. *)
Class Stalling := { may_stall : bool; may_abort : bool }.
Class Settles `{Host} `{Stalling} : Prop := { settles : may_stall = false -> Prompt; tolerates : may_abort = false -> Tolerable }.

(** How a call may end without returning, after the calls [h], which keep to the rules. *)
Definition excused `{Host} `{Stalling} (r : stop) (h : list event) : Prop :=
  (r = Fuel /\ may_stall = true \/ r = Trap /\ may_abort = true /\ aborts_on h) /\ is_Some (conform h).

Lemma excused_abort `{Settles} h : aborts_on h -> is_Some (conform h) -> excused Trap h.
Proof. intros Ha Hc. split; [|done]. right. split; [done|]. split; [|done]. destruct may_abort eqn:E; [done|]. by destruct (tolerates E h). Qed.
