(* ===== verification/ResourceInv.v ===== *)
(** * Keeping to the rules of the host: the lemmas

    [owns h X]: the calls [h] keep to the rules, and the handles held after
    them are those of [X] and the network handle of the library. One lemma for
    each way a call changes what is held. *)

From S2P Require Import Prelude Errno Time Stat SockAddr Host Object Tcp Resources.

(** ** Lists of entries *)

Definition keys (l : list entry) : list resource := l.*1.

Lemma lookup_info_spec x i (l : list entry) : NoDup (keys l) -> (x, i) ∈ l -> lookup_info x l = Some i.
Proof.
  unfold lookup_info, keys. induction l as [|[y j] l IH]; [by intros _ ?%elem_of_nil|].
  rewrite fmap_cons, list.NoDup_cons. intros [Hy Hl] Hx. cbn [find fst]. case_bool_decide as Hd.
  - subst y. apply elem_of_cons in Hx as [[= ->]|Hx]; [done|]. exfalso. apply Hy. apply (list_elem_of_fmap_2 fst) in Hx. done.
  - apply elem_of_cons in Hx as [[= -> ->]|Hx]; [done|]. by apply IH.
Qed.

Lemma lookup_info_In x i (l : list entry) : lookup_info x l = Some i -> (x, i) ∈ l.
Proof.
  unfold lookup_info. induction l as [|[y j] l IH]; [done|]. cbn [find fst]. case_bool_decide as Hd.
  - intros [= <-]. subst y. left.
  - intros Hi. right. by apply IH.
Qed.

Lemma filter_all {A} (P : A -> Prop) `{!forall x, Decision (P x)} (l : list A) : (forall x, x ∈ l -> P x) -> filter P l = l.
Proof.
  induction l as [|x l IH]; [done|]. intros Hl. rewrite filter_cons_True by (apply Hl; left). f_equal. apply IH.
  intros y Hy. apply Hl. by right.
Qed.

Lemma without_perm x i (l X : list entry) : NoDup (keys l) -> l ≡ₚ (x, i) :: X -> without (Some x) l ≡ₚ X.
Proof.
  intros Hn Hl. unfold without, keys in *. rewrite Hl in *. rewrite fmap_cons, list.NoDup_cons in Hn. destruct Hn as [Hx _]. cbn [fst] in Hx.
  rewrite filter_cons_False by naive_solver. rewrite filter_all; [done|]. intros e He <-. apply Hx.
  by apply (list_elem_of_fmap_2 fst).
Qed.

Lemma set_listening_perm x i (l X : list entry) :
  NoDup (keys l) -> l ≡ₚ (x, i) :: X -> set_listening (Some x) l ≡ₚ (x, Info (parent i) (fam i) true) :: X.
Proof.
  intros Hn Hl. unfold set_listening, keys in *. rewrite Hl in *. rewrite fmap_cons, list.NoDup_cons in Hn. destruct Hn as [Hx _]. cbn [fst] in Hx.
  rewrite fmap_cons. cbn [fst snd]. rewrite bool_decide_true by done. f_equiv.
  rewrite <- (list_fmap_id X) at 2. match goal with |- ?a ≡ₚ ?b => enough (a = b) as -> by done end. apply list_fmap_ext. intros n e He.
  apply list_elem_of_lookup_2 in He. rewrite bool_decide_false; [done|]. intros <-. apply Hx. by apply (list_elem_of_fmap_2 fst).
Qed.

(** Every parent is there as well. *)
Definition closed (F : list entry) : Prop := forall e x, e ∈ F -> parent (snd e) = Some x -> x ∈ keys F.

Lemma has_child_false x (l : list entry) : (forall e, e ∈ l -> parent (snd e) <> Some x) -> has_child x l = false.
Proof.
  intros Hl. apply not_true_iff_false. unfold has_child. rewrite existsb_exists. intros (e & He & Hp).
  apply bool_decide_eq_true in Hp. apply (Hl e); [by apply list_elem_of_In|done].
Qed.

Section lemmas.
Context `{Host}.

(** ** Replaying *)

Lemma replay_app past h1 h2 m :
  replay past (h1 ++ h2) m = replay past h1 m ≫= replay (past ++ h1) h2.
Proof.
  revert past m. induction h1 as [|[R c] h1 IH]; intros past m; cbn [app replay]; [by rewrite app_nil_r|].
  destruct (admits c m); [|done]. by rewrite IH, <- app_assoc.
Qed.

Lemma conform_snoc {R : Set} h (c : hostcall R) :
  conform (h ++ [Ev c]) = m ← conform h; if admits c m then Some (advance c (host _ h c) m) else None.
Proof. unfold conform. by rewrite replay_app. Qed.

Lemma global_network_snoc {R : Set} past h (c : hostcall R) :
  global_network past (h ++ [Ev c]) =
  match global_network past h with Some n => Some n | None => global_network (past ++ h) [Ev c] end.
Proof.
  revert past. induction h as [|[R' c'] h IH]; intros past; [by rewrite app_nil_r|]. cbn [app global_network].
  destruct c'; try (by rewrite IH, <- app_assoc). done.
Qed.

(** The handle [__wasi_sockets_utils__borrow_network] keeps for ever. *)
Definition net (h : list event) : list entry :=
  match global_network [] h with Some n => [((Network, n), plain)] | None => [] end.

Definition is_network {R : Set} (c : hostcall R) : bool := match c with instance_network => true | _ => false end.

Lemma net_snoc {R : Set} h (c : hostcall R) : is_network c = false -> net (h ++ [Ev c]) = net h.
Proof. intros Hc. unfold net. rewrite global_network_snoc. destruct (global_network [] h); [done|]. by destruct c. Qed.

Context `{!ResourceLaws}.

Lemma keys_without o (l : list entry) : keys (without o l) ⊆ keys l.
Proof.
  unfold keys. destruct o as [x|]; [|done]. intros y Hy. apply list_elem_of_fmap in Hy as (e & -> & He).
  apply list_elem_of_filter in He as [_ He]. by apply (list_elem_of_fmap_2 fst).
Qed.

Lemma keys_set_listening o (l : list entry) : keys (set_listening o l) = keys l.
Proof.
  unfold keys. destruct o as [x|]; [|done]. cbn [set_listening]. rewrite <- list_fmap_compose. apply list_fmap_ext.
  intros n e _. cbn. by case_bool_decide.
Qed.

Lemma NoDup_without o (l : list entry) : NoDup (keys l) -> NoDup (keys (without o l)).
Proof.
  destruct o as [x|]; [|done]. intros Hn. induction l as [|e l IH]; [done|]. unfold keys in *. rewrite fmap_cons, list.NoDup_cons in Hn.
  destruct Hn as [He Hn]. cbn [without]. rewrite filter_cons. case_decide; [|by apply IH]. rewrite fmap_cons, list.NoDup_cons.
  split; [|by apply IH]. intros Hi. apply He. by apply (keys_without (Some x)).
Qed.

(** Handles are not 0 and each is held once. *)
Lemma conform_keys h m : conform h = Some m -> NoDup (keys (live m)) /\ Forall (fun x => snd x <> 0) (keys (live m)).
Proof.
  revert m. induction h as [|[R c] h IH] using rev_ind; intros m.
  - intros [= <-]. split; constructor.
  - rewrite conform_snoc. destruct (conform h) as [m0|] eqn:E; [|done]. cbn [mbind option_bind].
    destruct (admits c m0); [|done]. intros [= <-]. destruct (IH m0 eq_refl) as [Hn Hz].
    destruct (host_fresh R h c m0 E) as [Hf1 Hf2]. cbn [advance live]. unfold keys. rewrite fmap_app. fold (keys (set_listening (starts_listening c (host _ h c)) (without (drops c) (live m0)))).
    rewrite keys_set_listening. split.
    + apply list.NoDup_app. split; [done|]. split; [|by apply NoDup_without]. intros x Hx Hx2.
      rewrite list.Forall_forall in Hf2. apply (Hf2 x Hx). by apply (keys_without (drops c)).
    + rewrite list.Forall_forall in Hz, Hf2 |- *. intros x [Hx|Hx]%elem_of_app; [naive_solver|]. revert x Hx. intros x Hx. apply Hz. by apply (keys_without (drops c)).
Qed.

(** ** What is held *)

Definition owns (h : list event) (X : list entry) (P : list (resource * Z)) : Prop :=
  exists m, conform h = Some m /\ live m ≡ₚ net h ++ X /\ P ⊆ permits m.

Lemma owns_perm h X Y P : X ≡ₚ Y -> owns h X P -> owns h Y P.
Proof. intros HX (m & Hm & Hl & Hp). exists m. by rewrite <- HX. Qed.

Lemma owns_weaken h X P : owns h X P -> owns h X [].
Proof. intros (m & Hm & Hl & Hp). exists m. split; [done|]. split; [done|]. intros x Hx. by apply elem_of_nil in Hx. Qed.

Lemma owns_keys h X P : owns h X P -> NoDup (keys (net h ++ X)) /\ Forall (fun x => snd x <> 0) (keys (net h ++ X)).
Proof.
  intros (m & Hm & Hl & Hp). destruct (conform_keys h m Hm) as [Hn Hz]. unfold keys in *. by rewrite <- Hl.
Qed.

Lemma owns_nonzero h X P k x i : owns h X P -> ((k, x), i) ∈ X -> x <> 0.
Proof.
  intros Ho He. destruct (owns_keys h X P Ho) as [_ Hz]. rewrite list.Forall_forall in Hz. apply (Hz (k, x)). unfold keys.
  rewrite fmap_app. apply elem_of_app. right. by apply (list_elem_of_fmap_2 fst) in He.
Qed.

Lemma lookup_info_perm x (l l' : list entry) : NoDup (keys l) -> l ≡ₚ l' -> lookup_info x l = lookup_info x l'.
Proof.
  intros Hn Hl. assert (NoDup (keys l')) as Hn' by (unfold keys in *; by rewrite <- Hl).
  apply option_eq. intros i. split; intros Hi%lookup_info_In; apply lookup_info_spec; try done; [by rewrite <- Hl|by rewrite Hl].
Qed.

Lemma creates_perm {R : Set} (c : hostcall R) r (l l' : list entry) :
  NoDup (keys l) -> l ≡ₚ l' -> creates l c r = creates l' c r.
Proof.
  intros Hn Hl. assert (forall x, fam_of x l = fam_of x l') as Hf.
  { intros x. unfold fam_of. by rewrite (lookup_info_perm x l l'). }
  destruct c; try done; cbn [creates]; by rewrite Hf.
Qed.

Lemma existsb_perm {A} (f : A -> bool) l l' : l ≡ₚ l' -> existsb f l = existsb f l'.
Proof. induction 1 as [| |x y l|]; cbn; [done|congruence|by destruct (f x), (f y)|congruence]. Qed.

Lemma extra_rule_perm {R : Set} (c : hostcall R) (l l' : list entry) : l ≡ₚ l' -> extra_rule c l = extra_rule c l'.
Proof. intros Hl. destruct c; try done. cbn. by rewrite (existsb_perm _ _ _ Hl). Qed.

Lemma uses_held {R : Set} (c : hostcall R) (l : list entry) :
  uses c ⊆ keys l -> forallb (fun x => held x l) (uses c) = true.
Proof.
  intros Hu. apply forallb_forall. intros x Hx. apply list_elem_of_In in Hx. apply bool_decide_eq_true. by apply Hu.
Qed.

(** A call that takes nothing away. *)
Lemma owns_use {R : Set} (c : hostcall R) h X P :
  owns h X P -> is_network c = false -> drops c = None ->
  match permit_needed c with Some (x, n) => exists k, (x, k) ∈ P /\ n <= k | None => True end ->
  starts_listening c (host _ h c) = None -> extra_rule c (net h ++ X) = true -> uses c ⊆ keys (net h ++ X) ->
  owns (h ++ [Ev c]) (creates (net h ++ X) c (host _ h c) ++ X) (option_list (permit_given c (host _ h c))).
Proof.
  intros (m & Hm & Hl & Hp) Hnet Hd Hpn Hs Hx Hu. destruct (conform_keys h m Hm) as [Hn _].
  exists (advance c (host _ h c) m). rewrite conform_snoc, Hm. cbn [mbind option_bind].
  assert (admits c m = true) as ->.
  { unfold admits. rewrite Hd, (extra_rule_perm c _ _ Hl), Hx, uses_held by (unfold keys in *; by rewrite Hl). cbn.
    destruct (permit_needed c) as [[x n]|]; [|done]. rewrite andb_true_r. destruct Hpn as (k & Hk & Hle). apply existsb_exists.
    exists (x, k). split; [by apply list_elem_of_In, Hp|]. cbn. rewrite bool_decide_true by done. cbn. lia. }
  split; [done|]. cbn [advance live permits]. rewrite Hd, Hs. cbn [without set_listening].
  rewrite (creates_perm c _ (live m) (net h ++ X)), net_snoc, Hl by done. split; [solve_Permutation|].
  intros y Hy. apply elem_of_app. by left.
Qed.

(** A call that gives a handle back. *)
Lemma owns_drop {R : Set} (c : hostcall R) h x i X P :
  owns h ((x, i) :: X) P -> drops c = Some x -> parent i <> Some x -> (forall e, e ∈ X -> parent (snd e) <> Some x) ->
  owns (h ++ [Ev c]) X [].
Proof.
  intros (m & Hm & Hl & Hp) Hd Hi Hc. destruct (conform_keys h m Hm) as [Hn _].
  assert (live m ≡ₚ (x, i) :: net h ++ X) as Hl' by (rewrite Hl; solve_Permutation).
  assert (has_child x (live m) = false) as Hch.
  { apply has_child_false. intros e. rewrite Hl', elem_of_cons, elem_of_app. intros [->|[He|He]]; [done| |by apply Hc].
    unfold net in He. destruct (global_network [] h); [|by apply elem_of_nil in He]. apply list_elem_of_singleton in He as ->. done. }
  assert (held x (live m) = true) as Hh.
  { apply bool_decide_eq_true. apply (list_elem_of_fmap_2 fst _ (x, i)). rewrite Hl'. left. }
  exists (advance c (host _ h c) m). rewrite conform_snoc, Hm. cbn [mbind option_bind].
  assert (admits c m = true /\ live (advance c (host _ h c) m) = without (Some x) (live m) /\ is_network c = false) as (-> & -> & Hnet).
  { unfold admits. rewrite Hd, Hh, Hch. destruct c; try discriminate Hd; injection Hd as <-; done. }
  split; [done|]. rewrite net_snoc by done. split; [by apply (without_perm x i)|]. intros y Hy. by apply elem_of_nil in Hy.
Qed.

Lemma owns_listen h x i X P :
  owns h (((TcpSocket, x), i) :: X) P -> host _ h (tcp_finish_listen x) = inl tt ->
  owns (h ++ [Ev (tcp_finish_listen x)]) (((TcpSocket, x), Info (parent i) (fam i) true) :: X) [].
Proof.
  intros (m & Hm & Hl & Hp) Hr. destruct (conform_keys h m Hm) as [Hn _].
  assert (live m ≡ₚ ((TcpSocket, x), i) :: net h ++ X) as Hl' by (rewrite Hl; solve_Permutation).
  exists (advance (tcp_finish_listen x) (inl tt) m). rewrite conform_snoc, Hm, Hr. cbn [mbind option_bind].
  assert (admits (tcp_finish_listen x) m = true) as ->.
  { unfold admits. rewrite uses_held; [done|]. intros y Hy%list_elem_of_singleton. subst y.
    apply (list_elem_of_fmap_2 fst _ ((TcpSocket, x), i)). rewrite Hl'. left. }
  split; [done|]. rewrite net_snoc by done. cbn [advance live creates starts_listening drops without app].
  rewrite (set_listening_perm _ i _ (net h ++ X)) by done. split; [solve_Permutation|]. intros y Hy. by apply elem_of_nil in Hy.
Qed.

Lemma owns_network h X P :
  owns h X P -> global_network [] h = None ->
  owns (h ++ [Ev instance_network]) X [] /\ global_network [] (h ++ [Ev instance_network]) = Some (host _ h instance_network).
Proof.
  intros (m & Hm & Hl & Hp) Hg. rewrite global_network_snoc, Hg. split; [|done].
  exists (advance instance_network (host _ h instance_network) m). rewrite conform_snoc, Hm. split; [done|].
  unfold net in *. rewrite global_network_snoc, Hg. rewrite Hg in Hl. cbn. rewrite Hl. split; [done|].
  intros y Hy. by apply elem_of_nil in Hy.
Qed.
End lemmas.
