(* ===== verification/ResourceObj.v ===== *)
(** * Keeping to the rules of the host: the objects

    The handles the fields of an object name ([owned]), what a slot has to do
    with them ([keeps]), and the destructors, which give all of them back in
    an order the host accepts. *)

From S2P Require Import Prelude Errno Time Stat SockAddr Host DescTable Object File Tcp Udp Vtable FdOps Resources ResourceInv.

(** ** The handles of an object *)

Definition if_held (h : Z) (e : entry) : list entry := if h =? 0 then [] else [e].
Definition pollable_of (h : Z) (x : resource) : list entry := if_held h ((Pollable, h), child_of x).

Definition file_owned (f : file_t) : list entry :=
  ((Descriptor, file_handle f), plain) ::
  pollable_of (read_pollable f) (InputStream, read_stream f) ++ pollable_of (write_pollable f) (OutputStream, write_stream f) ++
  if_held (read_stream f) ((InputStream, read_stream f), plain) ++ if_held (write_stream f) ((OutputStream, write_stream f), plain).

Definition stdio_owned (s : stdio_t) : list entry :=
  pollable_of (input_pollable s) (InputStream, input s) ++ pollable_of (output_pollable s) (OutputStream, output s) ++
  if_held (input s) ((InputStream, input s), plain) ++ if_held (output s) ((OutputStream, output s), plain).

Definition is_listening (t : tcp_socket_t) : bool := match tcp_state t with TCP_SOCKET_STATE_LISTENING => true | _ => false end.

Definition connected_owned (st : tcp_socket_state) : list entry :=
  match st with
  | TCP_SOCKET_STATE_CONNECTED c =>
      pollable_of (tcp_input_pollable c) (InputStream, tcp_input c) ++ pollable_of (tcp_output_pollable c) (OutputStream, tcp_output c) ++
      [((InputStream, tcp_input c), plain); ((OutputStream, tcp_output c), plain)]
  | _ => []
  end.

Definition tcp_owned (t : tcp_socket_t) : list entry :=
  ((TcpSocket, tcp_socket t), Info None (Some (family t)) (is_listening t)) ::
  pollable_of (socket_pollable t) (TcpSocket, tcp_socket t) ++ connected_owned (tcp_state t).

Definition streams_owned (u : udp_socket_t) (st : udp_socket_streams_t) : list entry :=
  let i := Info (Some (UdpSocket, udp_socket u)) (Some (udp_family u)) false in
  pollable_of (incoming_pollable st) (IncomingDatagramStream, incoming st) ++
  pollable_of (outgoing_pollable st) (OutgoingDatagramStream, outgoing st) ++
  [((IncomingDatagramStream, incoming st), i); ((OutgoingDatagramStream, outgoing st), i)].

Definition udp_owned (u : udp_socket_t) : list entry :=
  ((UdpSocket, udp_socket u), Info None (Some (udp_family u)) false) ::
  pollable_of (udp_socket_pollable u) (UdpSocket, udp_socket u) ++
  match udp_streams u with Some st => streams_owned u st | None => [] end.

(** A pollable is made from a stream that is there; the error kept by a failed
    connection is one of the host's. *)
Definition tcp_valid (t : tcp_socket_t) : Prop :=
  match tcp_state t with TCP_SOCKET_STATE_CONNECT_FAILED e => 0 <= e <= 17 | _ => True end.

Class Owner (T : Type) := { owned : T -> list entry; valid : T -> Prop }.

Global Instance tcp_owner : Owner tcp_socket_t := { owned := tcp_owned; valid := tcp_valid }.
Global Instance udp_owner : Owner udp_socket_t := { owned := udp_owned; valid _ := True }.
Global Instance file_owner : Owner file_t := {
  owned := file_owned;
  valid f := (read_stream f = 0 -> read_pollable f = 0) /\ (write_stream f = 0 -> write_pollable f = 0);
}.
Global Instance stdio_owner : Owner stdio_t := {
  owned := stdio_owned;
  valid s := (input s = 0 -> input_pollable s = 0) /\ (output s = 0 -> output_pollable s = 0);
}.
Global Instance descriptor_owner : Owner descriptor := {
  owned o := match o with DFile f => owned f | DStdio s => owned s | DTcp t => owned t | DUdp u => owned u end;
  valid o := match o with DFile f => valid f | DStdio s => valid s | DTcp t => valid t | DUdp u => valid u end;
}.

Section rules.
Context `{Host} `{!ResourceLaws} `{Stalling}.

(** ** Calls that return or wait for ever

    [wpw m Q s]: [m] returns with [Q], or (if the host may do that) it waits longer
    than the fuel, having kept to the rules so far; it does not stop in any other way. *)

Definition wpw {T A} (m : M (octx T) A) (Q : A -> octx T -> Prop) (s : octx T) : Prop :=
  match m s with
  | Done a s' => Q a s'
  | Stop r s' => excused r (octx_log s')
  end.

Lemma wpw_ret {T A} (a : A) (Q : A -> octx T -> Prop) s : Q a s -> wpw (mret a) Q s.
Proof. done. Qed.

Lemma wpw_bind {T A B} (m : M (octx T) A) (f : A -> M (octx T) B) Q s :
  wpw m (fun a s' => wpw (f a) Q s') s -> wpw (m ≫= f) Q s.
Proof. unfold wpw, mbind, M_bind. by destruct (m s). Qed.

Lemma wpw_mono {T A} (m : M (octx T) A) (P Q : A -> octx T -> Prop) s :
  wpw m P s -> (forall a s', P a s' -> Q a s') -> wpw m Q s.
Proof. unfold wpw. destruct (m s); naive_solver. Qed.

Lemma wpw_gets {T A} (f : octx T -> A) (Q : A -> octx T -> Prop) s : Q (f s) s -> wpw (gets f) Q s.
Proof. done. Qed.

Lemma wpw_update {T} (f : T -> T) (Q : unit -> octx T -> Prop) s : Q tt (Octx (f (self s)) (octx_env s) (octx_log s)) -> wpw (update f) Q s.
Proof. done. Qed.

Lemma wpw_fail {T A} e (a : A) (Q : A -> octx T -> Prop) s : Q a (with_errno e s) -> wpw (fail_with e a) Q s.
Proof. done. Qed.

Lemma wpw_if {T A} (b : bool) (m1 m2 : M (octx T) A) Q s :
  (b = true -> wpw m1 Q s) -> (b = false -> wpw m2 Q s) -> wpw (if b then m1 else m2) Q s.
Proof. destruct b; auto. Qed.

Lemma wpw_wp {T A} (m : M (octx T) A) Q s : wp m Q s -> wpw m Q s.
Proof. unfold wp, wpw. by destruct (m s). Qed.

(** The object holds what its fields say, beside [F]. *)
Definition holds {T} `{Owner T} (F : list entry) (s : octx T) : Prop :=
  valid (self s) /\ owns (octx_log s) (owned (self s) ++ F) [].

Definition keeps {T} `{Owner T} {A} (m : M (octx T) A) : Prop :=
  forall F s, closed F -> holds F s -> wpw m (fun _ s' => holds F s') s.

(** A call that takes no handle away. *)
Lemma wpw_use {T} {R : Set} (c : hostcall R) X P (s : octx T) (Q : R -> octx T -> Prop) :
  owns (octx_log s) X P -> is_network c = false -> drops c = None -> permit_needed c = None ->
  (forall r, starts_listening c r = None) -> extra_rule c (net (octx_log s) ++ X) = true ->
  uses c ⊆ keys (net (octx_log s) ++ X) ->
  (forall r, host _ (octx_log s) c = r ->
     owns (octx_log s ++ [Ev c]) (creates (net (octx_log s) ++ X) c r ++ X) (option_list (permit_given c r)) ->
     Q r (Octx (self s) (octx_env s) (octx_log s ++ [Ev c]))) ->
  wpw (ask c) Q s.
Proof.
  intros Ho Hnet Hd Hp Hs Hx Hu Hq. apply (Hq _ eq_refl). apply (owns_use c _ X P); try done. by rewrite Hp.
Qed.

Lemma key_held h x i (X : list entry) : (x, i) ∈ X -> [x] ⊆ keys (net h ++ X).
Proof.
  intros Hx y Hy%list_elem_of_singleton. subst y. apply (list_elem_of_fmap_2 fst _ (x, i)). apply elem_of_app. by right.
Qed.

Lemma key_net h n (X : list entry) : global_network [] h = Some n -> [(Network, n)] ⊆ keys (net h ++ X).
Proof.
  intros Hg y Hy%list_elem_of_singleton. subst y. unfold net, keys. rewrite Hg, fmap_app. apply elem_of_app. left. left.
Qed.

(** No entry beside those of the object was made from one of them. *)
Lemma frame_no_child h x i (X F : list entry) P e :
  closed F -> owns h ((x, i) :: X ++ F) P -> e ∈ F -> parent (snd e) <> Some x.
Proof.
  intros Hc Ho He Hx. apply Hc in Hx; [|done]. destruct (owns_keys _ _ _ Ho) as [Hn _]. unfold keys in *.
  rewrite !fmap_app, fmap_cons, fmap_app in Hn. apply list.NoDup_app in Hn as (_ & _ & Hn). apply list.NoDup_cons in Hn as [Hn _].
  apply Hn. apply elem_of_app. by right.
Qed.

(** Out of fuel. *)
Lemma wpw_fuel {T A} X P (Q : A -> octx T -> Prop) s : may_stall = true -> owns (octx_log s) X P -> wpw (halt Fuel) Q s.
Proof. intros Hm (m & Hc & _). split; [by left|]. rewrite Hc. by eexists. Qed.

(** Fuel for one more round, unless nothing makes the code wait. *)
Definition enough (fuel : nat) : Prop := may_stall = false -> fuel <> 0%nat.
Definition enough_for (x : resource) (fuel : nat) (h : list event) : Prop := may_stall = false -> fuel <> 0%nat \/ settled x h.

Lemma enough_start x fuel h : enough fuel -> enough_for x fuel h.
Proof. intros Hf Hm. left. by apply Hf. Qed.

Lemma enough_settled x fuel h : (may_stall = false -> settled x h) -> enough_for x fuel h.
Proof. intros Hs Hm. right. by apply Hs. Qed.

Lemma enough_stalled {R : Set} (c : hostcall R) x h : enough_for x 0 h -> subject c = Some x -> stalled c (host _ h c) = true -> may_stall = true.
Proof.
  intros Hf Hc Hs. destruct may_stall eqn:E; [done|]. destruct (Hf E) as [|[Hn _]]; [done|]. by rewrite (Hn _ c Hc) in Hs.
Qed.

Lemma wpw_error {T} e (Q : Z -> octx T -> Prop) s :
  0 <= e <= 17 -> (forall n, Q (-1) (with_errno n s)) -> wpw (__wasilibc_socket_error_to_errno e) Q s.
Proof.
  intros He Hq. unfold __wasilibc_socket_error_to_errno. apply wpw_bind. unfold wpw.
  destruct (map_socket_error_total e s He) as (n & -> & _). apply Hq.
Qed.

(** [if (!call(..., &error)) return __wasilibc_socket_error_to_errno(&error);] *)
Lemma wpw_try {T} {A : Set} {B} (c : hostcall (A + Z)) X P (bad : B) (k : A -> M (octx T) B) (s : octx T) Q :
  owns (octx_log s) X P -> is_network c = false -> drops c = None ->
  match permit_needed c with Some (x, n) => exists k, (x, k) ∈ P /\ n <= k | None => True end ->
  (forall r, starts_listening c r = None) -> (forall l e, creates l c (inr e) = []) ->
  (forall r, reply_net_error c r = sum_error r) ->
  extra_rule c (net (octx_log s) ++ X) = true -> uses c ⊆ keys (net (octx_log s) ++ X) ->
  (forall a, host _ (octx_log s) c = inl a ->
     owns (octx_log s ++ [Ev c]) (creates (net (octx_log s) ++ X) c (inl a) ++ X) (option_list (permit_given c (inl a))) ->
     wpw (k a) Q (Octx (self s) (octx_env s) (octx_log s ++ [Ev c]))) ->
  (forall v h, owns h X [] -> Q bad (Octx (self s) v h)) ->
  wpw (ask c ≫= fun r => match r with inl a => k a | inr e => __wasilibc_socket_error_to_errno e ;; mret bad end) Q s.
Proof.
  intros Ho Hnet Hd Hp Hs Hcr Hre Hx Hu Hk Hq. apply wpw_bind.
  pose proof (owns_use c _ _ _ Ho Hnet Hd Hp (Hs _) Hx Hu) as Ho2.
  unfold ask, wpw at 1. cbn [history octx_logged log]. destruct (host _ (octx_log s) c) as [a|e] eqn:E; [by apply Hk|].
  rewrite Hcr in Ho2. apply owns_weaken in Ho2. apply wpw_bind, wpw_error; [by eapply host_net_error; rewrite Hre, E|].
  intros n. apply wpw_ret. by apply Hq.
Qed.

Lemma owns_info h X P x i :
  owns h X P -> (x, i) ∈ X -> exists m, conform h = Some m /\ lookup_info x (live m) = Some i /\ fam_of x (live m) = fam i.
Proof.
  intros (m & Hm & Hl & _) Hx. exists m. destruct (conform_keys h m Hm) as [Hn _].
  assert (lookup_info x (live m) = Some i) as Hi.
  { apply lookup_info_spec; [done|]. rewrite Hl. apply elem_of_app. by right. }
  split; [done|]. split; [done|]. unfold fam_of. by rewrite Hi.
Qed.

Definition output_of (f : ip_address_family) : output_sockaddr :=
  match f with IPV4 => OUTPUT_SOCKADDR_V4 | IPV6 => OUTPUT_SOCKADDR_V6 end.

Lemma wpw_validate {T} f addr addrlen (s : octx T) Q :
  (forall v, Q None (Octx (self s) v (octx_log s))) -> Q (Some OUTPUT_SOCKADDR_NULL) s -> Q (Some (output_of f)) s ->
  wpw (__wasilibc_sockaddr_validate f addr addrlen) Q s.
Proof.
  intros Hq1 Hq2 Hq3. unfold __wasilibc_sockaddr_validate. destruct addr, addrlen as [n|]; try (by apply wpw_ret); try (apply wpw_fail, Hq1).
  destruct f; destruct (_ <? _); try (by apply wpw_ret); apply wpw_fail, Hq1.
Qed.

Lemma wpw_to_sockaddr {T} a (s : octx T) Q :
  (forall out, Q out s) -> wpw (__wasilibc_wasi_to_sockaddr a (output_of (family_of a))) Q s.
Proof. intros Hq. destruct a; apply Hq. Qed.

Lemma wpw_to_wasi {T} f addr len (s : octx T) (Q : option ip_socket_address -> octx T -> Prop) :
  (forall r v, Q r (Octx (self s) v (octx_log s))) -> wpw (__wasilibc_sockaddr_to_wasi f addr len) Q s.
Proof.
  intros Hq. assert (Hr : forall r, Q r s) by (intros r; destruct s; apply Hq).
  unfold __wasilibc_sockaddr_to_wasi. destruct addr as [mem|]; [|apply wpw_fail, Hq].
  apply wpw_if; [intros _; apply wpw_fail, Hq|intros _].
  destruct f; do 2 (apply wpw_if; [intros _; apply wpw_fail, Hq|intros _]); apply wpw_ret, Hr.
Qed.

Lemma wpw_network {T} X (s : octx T) (Q : Z -> octx T -> Prop) :
  owns (octx_log s) X [] ->
  (forall n h, owns h X [] -> global_network [] h = Some n -> Q n (Octx (self s) (octx_env s) h)) ->
  wpw borrow_network Q s.
Proof.
  intros Ho Hq. unfold borrow_network. apply wpw_bind, wpw_gets. cbn [history octx_logged].
  destruct (global_network [] (octx_log s)) as [n|] eqn:Hg.
  - apply wpw_ret. destruct s. by apply Hq.
  - destruct (owns_network _ _ _ Ho Hg) as [Ho' Hg']. by apply Hq.
Qed.
Lemma wpw_setsockopt_timeout {T} optval len (s : octx T) (Q : option Z -> octx T -> Prop) :
  (forall r v, Q r (Octx (self s) v (octx_log s))) -> wpw (__wasilibc_setsockopt_timeout optval len) Q s.
Proof.
  intros Hq. unfold __wasilibc_setsockopt_timeout. apply wpw_if; intros _; [apply wpw_fail, Hq|].
  destruct (timeval_to_duration _); [destruct s; apply wpw_ret, Hq|apply wpw_fail, Hq].
Qed.

End rules.

(** Finds an entry in a list that is written out. *)
Ltac in_tac :=
  first [eassumption | apply list_elem_of_here | apply list_elem_of_further; in_tac | apply elem_of_app; left; in_tac
    | apply elem_of_app; right; in_tac].

Ltac use_tac := eapply key_held; in_tac.

Ltac wpw_step :=
  lazymatch goal with
  | |- wpw (_ ≫= _) _ _ => apply wpw_bind
  | |- wpw (mret _) _ _ => apply wpw_ret
  | |- wpw (gets _) _ _ => apply wpw_gets
  | |- wpw (update _) _ _ => apply wpw_update
  | |- wpw (fail_with _ _) _ _ => apply wpw_fail
  end; cbv beta.
Ltac wpw_steps := repeat wpw_step.

(** ** Freeing *)

Section free.
Context `{Host} `{!ResourceLaws}.

Definition childless (x : resource) (X : list entry) : Prop := Forall (fun e => parent (snd e) <> Some x) X.

Lemma free_one {R : Set} (c : hostcall R) h x i X F P :
  closed F -> owns h ((x, i) :: X ++ F) P -> drops c = Some x -> parent i <> Some x -> childless x X -> owns (h ++ [Ev c]) (X ++ F) [].
Proof.
  intros HF Ho Hd Hi Hc. eapply owns_drop; [exact Ho|done..|]. unfold childless in Hc. rewrite list.Forall_forall in Hc.
  intros e [He|He]%elem_of_app; [by apply Hc|]. by eapply frame_no_child.
Qed.

Lemma free_if {R : Set} (c : hostcall R) h k hd i X F P :
  closed F -> owns h (if_held hd ((k, hd), i) ++ X ++ F) P -> drops c = Some (k, hd) -> parent i <> Some (k, hd) ->
  childless (k, hd) X -> owns (h ++ drop_if hd (Ev c)) (X ++ F) [].
Proof.
  intros HF Ho Hd Hi Hc. unfold if_held, drop_if in *. destruct (hd =? 0); cbn [negb app] in *.
  - rewrite app_nil_r. by eapply owns_weaken.
  - by eapply free_one.
Qed.

Lemma childless_app x X Y : childless x X -> childless x Y -> childless x (X ++ Y).
Proof. apply Forall_app_2. Qed.

Lemma childless_cons x e X : parent (snd e) <> Some x -> childless x X -> childless x (e :: X).
Proof. by constructor. Qed.

Lemma childless_if x h e : parent (snd e) <> Some x -> childless x (if_held h e).
Proof. unfold if_held. destruct (h =? 0); by repeat constructor. Qed.

Lemma childless_pollable x h y : y <> x -> childless x (pollable_of h y).
Proof. intros Hy. apply childless_if. cbn. congruence. Qed.

Lemma childless_nil x : childless x [].
Proof. constructor. Qed.

(** The calls [es] give back exactly [X], each handle before the one it was
    made from. *)
Inductive gives_back : list event -> list entry -> Prop :=
| gives_back_nil : gives_back [] []
| gives_back_if {R : Set} (c : hostcall R) k hd i es X :
    drops c = Some (k, hd) -> parent i <> Some (k, hd) -> childless (k, hd) X -> gives_back es X ->
    gives_back (drop_if hd (Ev c) ++ es) (if_held hd ((k, hd), i) ++ X)
| gives_back_one {R : Set} (c : hostcall R) x i es X :
    drops c = Some x -> parent i <> Some x -> childless x X -> gives_back es X -> gives_back (Ev c :: es) ((x, i) :: X)
| gives_back_perm es X Y : X ≡ₚ Y -> gives_back es X -> gives_back es Y.

Lemma gives_back_owns es X F h P : gives_back es X -> closed F -> owns h (X ++ F) P -> owns (h ++ es) F [].
Proof.
  intros Hb HF. revert h P. induction Hb as [|R c k hd i es X Hd Hi Hc _ IH|R c x i es X Hd Hi Hc _ IH|es X Y HX _ IH]; intros h P Ho.
  - rewrite app_nil_r. by eapply owns_weaken.
  - rewrite app_assoc. eapply IH. eapply free_if; [done| |done..]. by rewrite <- app_assoc in Ho.
  - change (Ev c :: es) with ([Ev c] ++ es). rewrite app_assoc. eapply IH. by eapply free_one.
  - eapply IH, owns_perm, Ho. by rewrite HX.
Qed.
End free.

Ltac childless_tac :=
  repeat first [apply childless_app | apply childless_cons; [done|] | apply childless_pollable; done | apply childless_if; done
    | apply childless_nil].

Ltac gives_back_tac :=
  rewrite <- ?app_assoc; cbn [app];
  repeat first [eapply gives_back_if; [reflexivity|done|childless_tac|] | eapply gives_back_one; [reflexivity|done|childless_tac|]
    | apply gives_back_nil].

Lemma file_close_gives_back f :
  gives_back (file_close_streams_calls f)
    (pollable_of (read_pollable f) (InputStream, read_stream f) ++ pollable_of (write_pollable f) (OutputStream, write_stream f) ++
     if_held (read_stream f) ((InputStream, read_stream f), plain) ++ if_held (write_stream f) ((OutputStream, write_stream f), plain)).
Proof.
  unfold file_close_streams_calls. rewrite <- (app_nil_r (drop_if (write_stream f) _)), <- (app_nil_r (if_held (write_stream f) _)).
  gives_back_tac.
Qed.

Lemma file_free_gives_back f : gives_back (file_free_calls f) (file_owned f).
Proof.
  unfold file_free_calls, file_owned, file_close_streams_calls. eapply gives_back_perm; [apply Permutation_app_comm with (l' := [_])|].
  gives_back_tac.
Qed.

Lemma stdio_free_gives_back s : gives_back (stdio_free_calls s) (stdio_owned s).
Proof.
  unfold stdio_free_calls, stdio_owned. rewrite <- (app_nil_r (drop_if (output s) _)), <- (app_nil_r (if_held (output s) _)). gives_back_tac.
Qed.

Lemma tcp_free_gives_back t : gives_back (tcp_free_calls t) (tcp_owned t).
Proof.
  unfold tcp_free_calls, tcp_owned.
  eapply gives_back_perm with (X := connected_owned (tcp_state t) ++ pollable_of (socket_pollable t) (TcpSocket, tcp_socket t) ++ [_]);
    [solve_Permutation|].
  destruct (tcp_state t); cbn [connected_owned app]; gives_back_tac.
Qed.

Lemma streams_gives_back u st : gives_back (udp_close_streams_calls st) (streams_owned u st).
Proof.
  unfold udp_close_streams_calls, streams_owned. cbn zeta. set (i := Info (Some (UdpSocket, udp_socket u)) (Some (udp_family u)) false).
  eapply gives_back_perm with (X := pollable_of (incoming_pollable st) (IncomingDatagramStream, incoming st) ++ [((IncomingDatagramStream, incoming st), i)] ++
    pollable_of (outgoing_pollable st) (OutgoingDatagramStream, outgoing st) ++ [((OutgoingDatagramStream, outgoing st), i)]); [solve_Permutation|].
  gives_back_tac.
Qed.

Lemma udp_free_gives_back u : gives_back (udp_free_calls u) (udp_owned u).
Proof.
  unfold udp_free_calls, udp_owned.
  eapply gives_back_perm with (X := match udp_streams u with Some st => streams_owned u st | None => [] end ++
    pollable_of (udp_socket_pollable u) (UdpSocket, udp_socket u) ++ [((UdpSocket, udp_socket u), Info None (Some (udp_family u)) false)]); [solve_Permutation|].
  destruct (udp_streams u) as [st|]; cbn [app]; [|gives_back_tac]. unfold udp_close_streams_calls, streams_owned. cbn zeta. set (i := Info (Some (UdpSocket, udp_socket u)) (Some (udp_family u)) false).
  eapply gives_back_perm with (X := pollable_of (incoming_pollable st) (IncomingDatagramStream, incoming st) ++ [((IncomingDatagramStream, incoming st), i)] ++
    pollable_of (outgoing_pollable st) (OutgoingDatagramStream, outgoing st) ++ [((OutgoingDatagramStream, outgoing st), i)] ++
    pollable_of (udp_socket_pollable u) (UdpSocket, udp_socket u) ++ [((UdpSocket, udp_socket u), Info None (Some (udp_family u)) false)]); [solve_Permutation|].
  gives_back_tac.
Qed.

(** ** What an object holds is closed *)

Lemma closed_app X Y : closed X -> closed Y -> closed (X ++ Y).
Proof.
  intros HX HY e x [He|He]%elem_of_app Hp; unfold keys; rewrite fmap_app; apply elem_of_app; [left; by eapply HX|right; by eapply HY].
Qed.

(** Every parent among [X] is a key of [Y]. *)
Definition parents_in (X : list entry) (Y : list resource) : Prop := Forall (fun e => forall x, parent (snd e) = Some x -> x ∈ Y) X.

Lemma parents_in_closed X : parents_in X (keys X) -> closed X.
Proof. unfold parents_in, closed. rewrite list.Forall_forall. eauto. Qed.

Lemma parents_in_app X X' Y : parents_in X Y -> parents_in X' Y -> parents_in (X ++ X') Y.
Proof. apply Forall_app_2. Qed.

Lemma parents_in_cons e X Y : (forall x, parent (snd e) = Some x -> x ∈ Y) -> parents_in X Y -> parents_in (e :: X) Y.
Proof. by constructor. Qed.

Lemma parents_in_if h e Y : (h <> 0 -> forall x, parent (snd e) = Some x -> x ∈ Y) -> parents_in (if_held h e) Y.
Proof. intros He. unfold if_held. destruct (Z.eqb_spec h 0); repeat constructor. by apply He. Qed.

Lemma parents_in_pollable h x Y : (h <> 0 -> x ∈ Y) -> parents_in (pollable_of h x) Y.
Proof. intros Hx. apply parents_in_if. intros Hh y [= <-]. by apply Hx. Qed.

Lemma key_if h k i : h <> 0 -> (k, h) ∈ keys (if_held h ((k, h), i)).
Proof. intros Hh. unfold if_held. apply Z.eqb_neq in Hh as ->. left. Qed.

Ltac parents_tac :=
  repeat first [apply parents_in_app | apply parents_in_cons; [intros ? [=] || done|] | apply parents_in_pollable; intros
    | apply parents_in_if; intros ? ? [=] | apply Forall_nil_2].

Lemma file_closed f : valid f -> closed (file_owned f).
Proof.
  intros [Hr Hw]. apply parents_in_closed. unfold file_owned at 1. parents_tac.
  all: unfold file_owned, keys; rewrite fmap_cons, !fmap_app, elem_of_cons, !elem_of_app.
  - do 3 right. left. apply key_if. tauto.
  - do 4 right. apply key_if. tauto.
Qed.

Lemma stdio_closed s : valid s -> closed (stdio_owned s).
Proof.
  intros [Hr Hw]. apply parents_in_closed. unfold stdio_owned at 1. parents_tac.
  all: unfold stdio_owned, keys; rewrite !fmap_app, !elem_of_app.
  - do 2 right. left. apply key_if. tauto.
  - do 3 right. apply key_if. tauto.
Qed.

Lemma tcp_closed t : closed (tcp_owned t).
Proof.
  apply parents_in_closed. unfold tcp_owned at 1. parents_tac; [left|]. unfold tcp_owned, keys. rewrite fmap_cons, fmap_app.
  destruct (tcp_state t); cbn [connected_owned]; parents_tac.
  all: rewrite elem_of_cons, elem_of_app, !fmap_app, !elem_of_app; do 4 right; cbn; rewrite ?elem_of_cons; auto.
Qed.

Lemma udp_closed u : closed (udp_owned u).
Proof.
  apply parents_in_closed. unfold udp_owned at 1. parents_tac; [left|]. unfold udp_owned, keys. rewrite fmap_cons, fmap_app.
  destruct (udp_streams u); unfold streams_owned; parents_tac.
  3, 4: subst; left.
  all: rewrite elem_of_cons, elem_of_app, !fmap_app, !elem_of_app; do 4 right; cbn; rewrite ?elem_of_cons; auto.
Qed.

Lemma descriptor_closed (o : descriptor) : valid o -> closed (owned o).
Proof. destruct o; [apply file_closed|apply stdio_closed|intros _; apply tcp_closed|intros _; apply udp_closed]. Qed.

(** ** Temporary handles *)

Section temporary.
Context `{Host} `{!ResourceLaws} `{Stalling} `{!Settles}.

Lemma wpw_drop {T} {R : Set} (c : hostcall R) x i X P (s : octx T) (Q : R -> octx T -> Prop) :
  closed X -> owns (octx_log s) ((x, i) :: X) P -> drops c = Some x -> parent i <> Some x ->
  (forall r, owns (octx_log s ++ [Ev c]) X [] -> Q r (Octx (self s) (octx_env s) (octx_log s ++ [Ev c]))) -> wpw (ask c) Q s.
Proof. intros HX Ho Hd Hi Hq. apply Hq. eapply (free_one c _ x i [] X); try done. apply childless_nil. Qed.

Lemma waited_settled h X P p x w :
  owns h X P -> ((Pollable, p), child_of x) ∈ X -> waited h p w -> may_stall = false -> settled x (h ++ w).
Proof.
  intros Ho Hp Hw Hm. destruct (owns_info _ _ _ _ _ Ho Hp) as (m & Hc & Hi & _). by eapply (settles Hm).
Qed.

Lemma wpw_block_on {T} p x timeout X (s : octx T) (Q : Z -> octx T -> Prop) :
  closed X -> owns (octx_log s) X [] -> ((Pollable, p), child_of x) ∈ X ->
  (forall rc v h, owns h X [] -> (0 <= rc -> may_stall = false -> settled x h) -> Q rc (Octx (self s) v h)) ->
  wpw (__wasilibc_pollable_block_on p timeout) Q s.
Proof.
  intros HX Ho Hp Hq. unfold __wasilibc_pollable_block_on. apply wpw_if; intros _.
  - wpw_steps. eapply wpw_use; [exact Ho|done..|use_tac|]. intros r _ Ho'. apply wpw_ret. apply Hq; [done|]. intros _.
    by eapply waited_settled; [exact Ho|exact Hp|constructor].
  - wpw_steps. eapply wpw_use; [exact Ho|done..|intros y Hy; by apply elem_of_nil in Hy|]. intros tp _ Ho1. cbn [creates app] in Ho1.
    wpw_steps. eapply wpw_use; [exact Ho1|done..| |].
    { intros y Hy. cbn in Hy. apply elem_of_cons in Hy as [->|Hy]; [eapply (key_held _ (Pollable, p)); [in_tac|left]|].
      apply list_elem_of_singleton in Hy as ->. eapply (key_held _ (Pollable, tp)); [in_tac|left]. }
    intros l Hl Ho2. wpw_steps. eapply wpw_drop; [exact HX|exact Ho2|done..|]. intros r Ho3.
    apply wpw_if; intros Hz; wpw_steps; cbn [self octx_env octx_log with_errno octx_libc]; (apply Hq; [exact Ho3|]); [intros _|lia].
    rewrite <- (app_assoc _ [_] [_]). eapply waited_settled; [exact Ho1|in_tac|]. apply waited_poll. by subst l.
Qed.
End temporary.
