(* ===== verification/ResourceTcp.v ===== *)
(** * Keeping to the rules of the host: TCP sockets

    Every slot of [tcp_vtable] keeps to the rules of the host, holds exactly
    the handles the fields of the socket name, and never aborts. *)

From S2P Require Import Prelude Errno Time Stat SockAddr Host DescTable Object File Tcp Udp Vtable FdOps Resources ResourceInv ResourceObj.

Section tcp.
Context `{Host} `{!ResourceLaws} `{Stalling} `{!Settles}.
Implicit Types (t : tcp_socket_t) (s : octx tcp_socket_t).

Lemma set_socket_pollable_eta t : set_socket_pollable (socket_pollable t) t = t.
Proof. by destruct t. Qed.

Lemma tcp_pollable_spec F s :
  holds F s -> wpw tcp_pollable (fun p s' => holds F s' /\ (exists q, self s' = set_socket_pollable q (self s)) /\
    ((Pollable, p), child_of (TcpSocket, tcp_socket (self s))) ∈ owned (self s')) s.
Proof.
  intros [Hv Ho]. unfold tcp_pollable. wpw_steps. destruct (Z.eqb_spec (socket_pollable (self s)) 0) as [Hz|Hz].
  - wpw_steps. eapply wpw_use; [exact Ho|done..|use_tac|]. intros h _ Ho'. wpw_steps. cbn [self octx_env octx_log].
    assert (h <> 0) as Hh by (eapply (owns_nonzero _ _ _ _ _ _ Ho'); cbn [creates app]; in_tac).
    assert (pollable_of h (TcpSocket, tcp_socket (self s)) = [((Pollable, h), child_of (TcpSocket, tcp_socket (self s)))]) as Hp.
    { unfold pollable_of, if_held. by apply Z.eqb_neq in Hh as ->. }
    split; [split; [done|]|].
    + eapply owns_perm; [|exact (owns_weaken _ _ _ Ho')]. cbn. unfold tcp_owned. cbn. rewrite Hp, Hz. cbn. solve_Permutation.
    + split; [by eexists|]. cbn. unfold tcp_owned. cbn. rewrite Hp. cbn. in_tac.
  - wpw_steps. split; [done|]. split; [exists (socket_pollable (self s)); by rewrite set_socket_pollable_eta|].
    cbn. unfold tcp_owned, pollable_of, if_held. apply Z.eqb_neq in Hz as ->. cbn. in_tac.
Qed.

Lemma tcp_handle_error_spec F s e :
  holds F s -> 0 <= e <= 17 ->
  wpw (tcp_handle_error e) (fun rc s' => (rc < 0 -> e = NETWORK_ERROR_CODE_WOULD_BLOCK -> blocking (self s) = false) /\
    (0 <= rc -> e = NETWORK_ERROR_CODE_WOULD_BLOCK /\ (may_stall = false -> settled (TcpSocket, tcp_socket (self s)) (octx_log s'))) /\
    holds F s' /\ exists q, self s' = set_socket_pollable q (self s)) s.
Proof.
  intros Hs He. unfold tcp_handle_error. wpw_steps. destruct (_ && _) eqn:Eb.
  - wpw_steps. eapply wpw_mono; [by apply tcp_pollable_spec|]. intros p s' ([Hv Ho] & Hq & Hp). cbv beta. wpw_steps.
    eapply wpw_use; [exact Ho|done..|use_tac|]. intros r _ Ho'. apply wpw_ret. split; [lia|].
    split; [intros _; split; [by apply andb_true_iff in Eb as [?%Z.eqb_eq _]|]; by eapply waited_settled; [exact Ho|in_tac|constructor]|].
    split; [|done]. split; [done|]. exact Ho'.
  - apply wpw_error; [done|]. intros n. split; [intros _ ->; by destruct (blocking (self s))|]. split; [lia|]. split; [exact Hs|]. exists (socket_pollable (self s)). by rewrite set_socket_pollable_eta.
Qed.

(** A call of the socket that creates handles only when it succeeds. *)
Definition socket_call {A : Set} (x : Z) (call : hostcall (A + Z)) : Prop :=
  uses call = [(TcpSocket, x)] /\ is_network call = false /\ drops call = None /\ permit_needed call = None /\
  (forall e, starts_listening call (inr e) = None) /\ (forall l, extra_rule call l = true) /\
  (forall l e, creates l call (inr e) = []) /\ (forall r, reply_net_error call r = sum_error r).

(** The state after the call [call] of a socket succeeded with [a]. *)
Definition succeeded {A : Set} (call : hostcall (A + Z)) (t : tcp_socket_t) F (a : A) (s : octx tcp_socket_t) : Prop :=
  exists q v h, holds F (Octx (set_socket_pollable q t) v h) /\ host _ h call = inl a /\
    s = Octx (set_socket_pollable q t) v (h ++ [Ev call]).

Definition gave_up (t : tcp_socket_t) F (e : Z) (s : octx tcp_socket_t) : Prop :=
  0 <= e <= 17 /\ (e = NETWORK_ERROR_CODE_WOULD_BLOCK -> blocking t = false) /\ holds F s /\ exists q, self s = set_socket_pollable q t.

Lemma tcp_repeat_spec {A : Set} fuel (call : hostcall (A + Z)) F t (Q : A + Z -> octx tcp_socket_t -> Prop) s :
  socket_call (tcp_socket t) call -> subject call = Some (TcpSocket, tcp_socket t) -> stalled call = would_block ->
  enough_for (TcpSocket, tcp_socket t) fuel (octx_log s) -> (exists q, self s = set_socket_pollable q t) -> holds F s ->
  (forall a s', succeeded call t F a s' -> Q (inl a) s') -> (forall e s', gave_up t F e s' -> Q (inr e) s') ->
  wpw (tcp_repeat fuel call) Q s.
Proof.
  intros Hc Hsub Hstl Hf Hq Hs HQ HE. destruct Hc as (Hu & Hnet & Hd & Hp & Hst & Hx & Hcr & Hre). revert s Hf Hq Hs.
  induction fuel as [|fuel IH]; intros [t' v h] Hf [q Hq] Hs; cbn [self] in Hq; subst t'; cbn [tcp_repeat]; apply wpw_bind.
  all: unfold ask, wpw at 1; cbn [history octx_logged octx_log log]; destruct (host _ h call) as [a|e] eqn:E;
    [apply HQ; by exists q, v, h|].
  all: assert (0 <= e <= 17) as He by (eapply (host_net_error _ h call); by rewrite Hre, E).
  all: assert (holds F (Octx (set_socket_pollable q t) v (h ++ [Ev call]))) as Hs'.
  1, 3: destruct Hs as [Hv Ho]; split; [done|]; cbn [octx_log self] in *;
    pose proof (owns_use call h _ _ Ho Hnet Hd ltac:(by rewrite Hp) ltac:(by rewrite E) (Hx _)) as Ho2;
    rewrite E, Hcr in Ho2; eapply owns_weaken, Ho2; rewrite Hu; use_tac.
  all: apply wpw_bind; eapply wpw_mono; [by apply tcp_handle_error_spec|]; intros rc s' (Hb & Hw & Hs2 & q' & Hq'); cbn [self] in Hq'.
  all: cbv beta; destruct (Z.ltb_spec rc 0); [apply wpw_ret, HE; split; [done|]; split; [by apply Hb|]; split; [done|]; by exists q'|].
  all: destruct Hw as [-> Hw]; [lia|].
  - eapply wpw_fuel, Hs2. eapply enough_stalled; [exact Hf|exact Hsub|]. rewrite Hstl. cbn [octx_log]. by rewrite E.
  - apply IH; [by apply enough_settled|by exists q'|done].
Qed.

(** What is held after a call that does not change what the host knows. *)
Lemma call_owns {A : Set} (call : hostcall (A + Z)) x h X a :
  socket_call x call -> owns h X [] -> host _ h call = inl a -> starts_listening call (inl a) = None ->
  (exists i, ((TcpSocket, x), i) ∈ X) -> owns (h ++ [Ev call]) (creates (net h ++ X) call (inl a) ++ X) [].
Proof.
  intros (Hu & Hnet & Hd & Hp & _ & Hx & _) Ho Ha Hs [i Hi].
  pose proof (owns_use call h _ _ Ho Hnet Hd ltac:(by rewrite Hp) ltac:(by rewrite Ha) (Hx _)) as Ho2.
  rewrite Ha in Ho2. eapply owns_weaken, Ho2. rewrite Hu. by eapply key_held.
Qed.

Lemma self_pollable s : exists q, self s = set_socket_pollable q (self s).
Proof. exists (socket_pollable (self s)). by rewrite set_socket_pollable_eta. Qed.

Lemma tcp_do_bind_spec fuel a F s :
  enough fuel -> holds F s -> wpw (tcp_do_bind fuel a) (fun rc s' => holds F s' /\ (0 <= rc -> tcp_state (self s') = TCP_SOCKET_STATE_BOUND)) s.
Proof.
  intros Hf Hs. unfold tcp_do_bind. wpw_steps. destruct (tcp_state (self s)) eqn:Es; try (apply wpw_fail; split; [exact Hs|lia]).
  destruct Hs as [Hv Ho]. wpw_steps. eapply wpw_network; [exact Ho|]. intros n h Ho1 Hg. unfold or_fail.
  eapply wpw_try; [exact Ho1|done..| | |].
  { intros y Hy. apply elem_of_cons in Hy as [->|Hy]; [eapply (key_held h); [in_tac|left]|]. by apply (key_net h n). }
  - intros u _ Ho2. cbn [self octx_log octx_env] in *. wpw_steps.
    eapply (tcp_repeat_spec _ _ F (self s)); [done..|by apply enough_start|apply (self_pollable s)|by split| |].
    + intros u' s' (q & v & h' & [Hv' Ho'] & Ha & ->). wpw_steps. split; [|done]. split; [done|]. cbn [self octx_log] in *.
      eapply call_owns in Ha; [|done|exact Ho'|done|eexists; in_tac].
      eapply owns_perm; [|exact Ha]. cbn. unfold tcp_owned, is_listening. cbn. by rewrite Es.
    + intros e s' (He & _ & Hs' & _). wpw_steps. split; [done|lia].
  - intros v h' Ho'. split; [|lia]. by split.
Qed.

Lemma tcp_bind_keeps fuel addr len : enough fuel -> keeps (tcp_bind fuel addr len).
Proof.
  intros Hf F s HF Hs. unfold tcp_bind. wpw_steps. apply wpw_to_wasi. intros [a|] v; [|wpw_steps; exact Hs].
  eapply wpw_mono; [apply (tcp_do_bind_spec fuel a F (Octx (self s) v (octx_log s))); [exact Hf|exact Hs]|]. by intros rc s' [? _].
Qed.

(** Only the state that holds streams, or listens, matters to the handles. *)
Lemma holds_set_state F t v h st P :
  owns h (tcp_owned t ++ F) P -> connected_owned (tcp_state t) = [] -> is_listening t = false ->
  connected_owned st = [] -> st <> TCP_SOCKET_STATE_LISTENING -> tcp_valid (set_tcp_state st t) ->
  holds F (Octx (set_tcp_state st t) v h).
Proof.
  intros Ho Hc Hl Hc' Hl' Hv. split; [done|]. cbn. eapply owns_perm, owns_weaken, Ho. unfold tcp_owned, is_listening in *. cbn.
  rewrite Hc, Hc', Hl. by destruct st.
Qed.

Lemma tcp_do_connect_spec fuel a F s :
  enough fuel -> holds F s -> tcp_state (self s) = TCP_SOCKET_STATE_UNBOUND \/ tcp_state (self s) = TCP_SOCKET_STATE_BOUND ->
  wpw (tcp_do_connect fuel a) (fun rc s' => holds F s' /\
    match tcp_state (self s') with
    | TCP_SOCKET_STATE_CONNECTED _ => rc = 0
    | TCP_SOCKET_STATE_CONNECTING => rc = -1 /\ errno s' = EINPROGRESS /\ blocking (self s) = false
    | TCP_SOCKET_STATE_CONNECT_FAILED e => rc = -1
    | st => rc = -1 /\ st = tcp_state (self s)
    end) s.
Proof.
  intros Hf [Hv Ho] Hst. assert (connected_owned (tcp_state (self s)) = [] /\ is_listening (self s) = false) as [Hc Hl].
  { unfold is_listening. by destruct Hst as [-> | ->]. }
  unfold tcp_do_connect. wpw_steps. eapply wpw_network; [exact Ho|]. intros n h Ho1 Hg. unfold or_fail.
  eapply wpw_try; [exact Ho1|done..| | |].
  { intros y Hy. apply elem_of_cons in Hy as [->|Hy]; [eapply (key_held h); [in_tac|left]|]. by apply (key_net h n). }
  2: { intros v h' Ho'. split; [by split|]. cbn [self]. by destruct Hst as [-> | ->]. }
  intros u _ Ho2. cbn [self octx_log octx_env] in *. wpw_steps. cbn [self octx_log octx_env].
  set (t1 := set_tcp_state TCP_SOCKET_STATE_CONNECTING (self s)).
  eapply (tcp_repeat_spec _ _ F t1); [done..|by apply enough_start|exists (socket_pollable t1); by rewrite set_socket_pollable_eta| | |].
  - by eapply holds_set_state; [exact Ho2|..].
  - intros [input output] s' (q & v & h' & [Hv' Ho'] & Ha & ->). wpw_steps. split; [|done]. split; [done|]. cbn [self octx_log] in *.
    eapply call_owns in Ha; [|done|exact Ho'|done|eexists; in_tac].
    eapply owns_perm; [|exact Ha]. cbn. unfold tcp_owned, is_listening. cbn. rewrite app_nil_r. solve_Permutation.
  - intros e s' (He & Hb & [Hv' Ho'] & q & Hq). destruct (Z.eqb_spec e NETWORK_ERROR_CODE_WOULD_BLOCK) as [Hw|Hw].
    + wpw_steps. split; [by split|]. cbn [self with_errno octx_libc]. rewrite Hq. cbn. auto.
    + wpw_steps. cbn [self]. rewrite Hq in *. split; [|done]. by eapply holds_set_state; [exact Ho'|..].
Qed.

Lemma tcp_connect_keeps fuel addr len : enough fuel -> keeps (tcp_connect fuel addr len).
Proof.
  intros Hf F s HF Hs. unfold tcp_connect. wpw_steps. apply wpw_to_wasi. intros [a|] v; [|wpw_steps; exact Hs].
  destruct (tcp_state (self s)) eqn:Es; try (apply wpw_fail; exact Hs).
  all: eapply wpw_mono; [apply (tcp_do_connect_spec fuel a F (Octx (self s) v (octx_log s))); [exact Hf|exact Hs|cbn; auto]|].
  all: by intros rc s' [? _].
Qed.

Lemma tcp_do_listen_keeps fuel backlog F s :
  enough fuel -> holds F s -> tcp_state (self s) = TCP_SOCKET_STATE_BOUND \/ tcp_state (self s) = TCP_SOCKET_STATE_LISTENING ->
  wpw (tcp_do_listen fuel backlog) (fun _ s' => holds F s') s.
Proof.
  intros Hf [Hv Ho] Hst. unfold tcp_do_listen, or_fail. wpw_step. wpw_step.
  eapply wpw_try; [exact Ho|done..|use_tac| |by split].
  intros u _ Ho2. destruct Hst as [Es|Es]; rewrite Es; [|wpw_steps; by split].
  eapply wpw_try; [exact Ho2|done..|use_tac| |by split].
  intros u' _ Ho3. cbn [self octx_log octx_env] in *. wpw_steps.
  eapply (tcp_repeat_spec _ _ F (self s)); [done..|by apply enough_start|apply (self_pollable s)|by split| |].
  - intros [] s' (q & v & h' & [Hv' Ho'] & Ha & ->). wpw_steps. split; [done|]. cbn [self octx_log] in *.
    eapply owns_listen in Ha; [|exact Ho']. eapply owns_perm; [|exact Ha]. cbn. unfold tcp_owned. cbn. by rewrite Es.
  - intros e s' (He & _ & Hs' & _). by wpw_steps.
Qed.

Lemma tcp_listen_keeps fuel backlog : enough fuel -> keeps (tcp_listen fuel backlog).
Proof.
  intros Hf F s HF Hs. unfold tcp_listen. wpw_steps. destruct (tcp_state (self s)) eqn:Es; try (apply wpw_fail; exact Hs).
  - wpw_steps. eapply wpw_mono; [by apply tcp_do_bind_spec|]. intros rc s' [Hs' Hb]. cbv beta.
    destruct (Z.ltb_spec rc 0); [by wpw_steps|]. wpw_steps. rewrite (Hb ltac:(lia)). apply tcp_do_listen_keeps; auto.
  - apply tcp_do_listen_keeps; auto.
  - apply tcp_do_listen_keeps; auto.
Qed.

Lemma tcp_address_keeps call F s :
  holds F s -> socket_call (tcp_socket (self s)) call -> (forall l a, creates l call (inl a) = []) ->
  (forall r, starts_listening call r = None) -> permit_given call = (fun _ => None) ->
  (forall a, host _ (octx_log s) call = inl a -> family_of a = family (self s)) ->
  wpw (tcp_address call (output_of (family (self s)))) (fun _ s' => holds F s') s.
Proof.
  intros [Hv Ho] (Hu & Hnet & Hd & Hp & _ & Hx & Hcr & Hre) Hc Hs Hpg Hf. unfold tcp_address, or_fail.
  eapply wpw_try; [exact Ho|try done..| | |by split].
  - by rewrite Hp.
  - rewrite Hu. use_tac.
  - intros a Ha Ho'. rewrite Hc, Hpg in Ho'. cbn in Ho'. wpw_steps. rewrite <- (Hf a Ha). apply wpw_to_sockaddr. intros out. wpw_steps. by split.
Qed.

Lemma tcp_getsockname_keeps addr len : keeps (tcp_getsockname addr len).
Proof.
  intros F s HF Hs. unfold tcp_getsockname. wpw_steps. apply wpw_validate; [intros v; wpw_steps; exact Hs|wpw_steps; exact Hs|].
  assert (wpw (tcp_address (tcp_local_address (tcp_socket (self s))) (output_of (family (self s)))) (fun _ s' => holds F s') s) as Hw.
  { apply tcp_address_keeps; try done. intros a Ha. destruct Hs as [_ Ho].
    destruct (owns_info _ _ _ (TcpSocket, tcp_socket (self s)) _ Ho ltac:(in_tac)) as (m & Hm & _ & Hf).
    by eapply host_tcp_local_family in Ha; [|done..]. }
  destruct (output_of (family (self s))); try (wpw_steps; exact Hs).
  all: destruct (tcp_state (self s)); try exact Hw; wpw_steps; exact Hs.
Qed.

Lemma tcp_getpeername_keeps addr len : keeps (tcp_getpeername addr len).
Proof.
  intros F s HF Hs. unfold tcp_getpeername. wpw_steps. apply wpw_validate; [intros v; wpw_steps; exact Hs|wpw_steps; exact Hs|].
  assert (wpw (tcp_address (tcp_remote_address (tcp_socket (self s))) (output_of (family (self s)))) (fun _ s' => holds F s') s) as Hw.
  { apply tcp_address_keeps; try done. intros a Ha. destruct Hs as [_ Ho].
    destruct (owns_info _ _ _ (TcpSocket, tcp_socket (self s)) _ Ho ltac:(in_tac)) as (m & Hm & _ & Hf).
    by eapply host_tcp_remote_family in Ha; [|done..]. }
  destruct (output_of (family (self s))); try (wpw_steps; exact Hs).
  all: destruct (tcp_state (self s)); try exact Hw; wpw_steps; exact Hs.
Qed.

(** The handles of an accepted client, beside those of the listening socket. *)
Definition client_owned (f : ip_address_family) (p : Z * Z * Z) : list entry :=
  [((TcpSocket, fst (fst p)), Info None (Some f) false); ((InputStream, snd (fst p)), plain); ((OutputStream, snd p), plain)].

(** The last call accepted the connection. *)
Definition just_accepted (p : Z * Z * Z) (h : list event) : Prop :=
  exists h0 x, h = h0 ++ [Ev (tcp_accept x)] /\ host _ h0 (tcp_accept x) = inl p.

Lemma tcp_accept_client_spec fuel addr len F s :
  enough fuel -> holds F s ->
  wpw (tcp_accept_client fuel addr len) (fun r s' => match r with
    | None => holds F s'
    | Some (o, p) => holds (client_owned (family (self s')) p ++ F) s' /\ (o = OUTPUT_SOCKADDR_NULL \/ o = output_of (family (self s'))) /\
        just_accepted p (octx_log s')
    end) s.
Proof.
  intros Hfl Hs. unfold tcp_accept_client. wpw_steps.
  assert (forall o, o = OUTPUT_SOCKADDR_NULL \/ o = output_of (family (self s)) ->
    wpw (r ← tcp_repeat fuel (tcp_accept (tcp_socket (self s)));
         match r with inr _ => mret None | inl client_and_io => mret (Some (o, client_and_io)) end)
      (fun r s' => match r with
       | None => holds F s'
       | Some (o, p) => holds (client_owned (family (self s')) p ++ F) s' /\ (o = OUTPUT_SOCKADDR_NULL \/ o = output_of (family (self s'))) /\
           just_accepted p (octx_log s')
       end) s) as Hw.
  { intros o Hf. wpw_steps. eapply (tcp_repeat_spec _ _ F (self s)); [done..|by apply enough_start|apply self_pollable|done| |].
    - intros p s' (q & v & h' & [Hv' Ho'] & Ha & ->). wpw_steps.
      split; [|split; [done|]; destruct p as [[cl i] o']; by eexists _, _]. split; [done|]. cbn [self octx_log] in *.
      destruct (owns_info _ _ _ (TcpSocket, tcp_socket (self s)) _ Ho' ltac:(in_tac)) as (m & Hm & _ & Hfam).
      eapply call_owns in Ha; [|done|exact Ho'|done|eexists; in_tac]. eapply owns_perm; [|exact Ha].
      cbn [creates on_inl]. unfold fam_of. erewrite lookup_info_spec; [|apply (owns_keys _ _ _ Ho')|apply elem_of_app; right; in_tac].
      cbn. unfold client_owned. solve_Permutation.
    - intros e s' (He & _ & Hs' & _). by wpw_steps. }
  apply wpw_validate; [intros v; wpw_steps; exact Hs| |].
  all: destruct (tcp_state (self s)); try (wpw_steps; exact Hs); apply Hw; auto.
Qed.

Lemma tcp_shutdown_keeps how : keeps (tcp_shutdown_ how).
Proof.
  intros F s HF Hs. unfold tcp_shutdown_. wpw_steps. destruct (tcp_state (self s)); try (wpw_steps; exact Hs). destruct Hs as [Hv Ho].
  do 3 (apply wpw_if; intros _; [eapply wpw_try; [exact Ho|done..|use_tac|intros u _ Ho'; wpw_steps; by split|by split]|]).
  wpw_steps. by split.
Qed.

(** *** Options *)

Lemma get_option_keeps o f F s len : holds F s -> wpw (get_option o (self s) len f) (fun _ s' => holds F s') s.
Proof.
  intros [Hv Ho]. unfold get_option, or_fail. eapply wpw_try; [exact Ho|done..|use_tac|intros v _ Ho'; wpw_steps; by split|by split].
Qed.

Lemma set_option_keeps o v F s : holds F s -> wpw (set_option o (self s) v) (fun _ s' => holds F s') s.
Proof.
  intros [Hv Ho]. unfold set_option, or_fail. eapply wpw_try; [exact Ho|done..|use_tac|intros u _ Ho'; wpw_steps; by split|by split].
Qed.

Ltac option_tac :=
  repeat match goal with
  | |- wpw (if _ then _ else _) _ _ => apply wpw_if; intros _
  | |- wpw (get_option _ _ _ _) _ _ => by apply get_option_keeps
  | |- wpw (set_option _ _ _) _ _ => by apply set_option_keeps
  | |- wpw (set_hop_limit _ _) _ _ => unfold set_hop_limit
  | |- _ => progress wpw_steps
  end; try done.

Lemma tcp_getsockopt_socket_keeps optname len F s :
  holds F s -> wpw (tcp_getsockopt_socket (self s) optname len) (fun _ s' => holds F s') s.
Proof.
  intros Hs. unfold tcp_getsockopt_socket. do 3 (apply wpw_if; intros _; [by wpw_steps|]).
  apply wpw_if; intros _; [|apply wpw_if; intros _; [|option_tac]].
  - pose proof Hs as [Hv _]. cbn [valid tcp_owner] in Hv. unfold tcp_valid in Hv. destruct (tcp_state (self s)) eqn:Es; wpw_steps; try exact Hs.
    unfold wpw. destruct (map_socket_error_total error_code s Hv) as (n & -> & _). exact Hs.
  - destruct Hs as [Hv Ho]. wpw_steps. eapply wpw_use; [exact Ho|done..|use_tac|]. intros r Hr Ho'.
    destruct (owns_info _ _ _ (TcpSocket, tcp_socket (self s)) _ Ho ltac:(in_tac)) as (m & Hm & Hi & _).
    rewrite (host_is_listening _ _ _ _ Hm Hi) in Hr. cbn [listening] in Hr. unfold is_listening in Hr. rewrite Hr, xorb_nilpotent.
    wpw_steps. by split.
Qed.

Lemma tcp_getsockopt_keeps level optname len : keeps (tcp_getsockopt level optname len).
Proof.
  intros F s HF Hs. unfold tcp_getsockopt. wpw_steps. apply wpw_if; intros _; [by apply tcp_getsockopt_socket_keeps|]. option_tac.
Qed.

Lemma tcp_setsockopt_keeps level optname optval len : keeps (tcp_setsockopt level optname optval len).
Proof.
  intros F s HF Hs. unfold tcp_setsockopt. wpw_steps. apply wpw_if; intros _; [by wpw_steps|].
  apply wpw_if; intros _; [|option_tac]. unfold tcp_setsockopt_socket. do 4 (apply wpw_if; intros _; [by option_tac|]).
  do 2 (apply wpw_if; intros _; [wpw_steps; apply wpw_setsockopt_timeout; intros [d|] v; by wpw_steps|]). by wpw_steps.
Qed.

End tcp.
