(* ===== verification/ResourceUdp.v ===== *)
(** * Keeping to the rules of the host: UDP sockets

    Every slot of [udp_vtable] keeps to the rules of the host, holds exactly
    the handles the fields of the socket name, and never aborts (but for the
    sizes of buffers, which [getsockopt] expects to fit an [int]). *)

From S2P Require Import Prelude Errno Time Stat SockAddr Host DescTable Object File Tcp Udp Vtable FdOps Resources ResourceInv ResourceObj.

Section udp.
Context `{Host} `{!ResourceLaws} `{Stalling} `{!Settles}.
Implicit Types (u : udp_socket_t) (s : octx udp_socket_t).

Lemma set_udp_pollable_eta u : set_udp_pollable (udp_socket_pollable u) u = u.
Proof. by destruct u. Qed.

Lemma udp_pollable_spec F s :
  holds F s -> wpw udp_pollable (fun p s' => holds F s' /\ (exists q, self s' = set_udp_pollable q (self s)) /\
    ((Pollable, p), child_of (UdpSocket, udp_socket (self s))) ∈ owned (self s')) s.
Proof.
  intros [Hv Ho]. unfold udp_pollable. wpw_steps. destruct (Z.eqb_spec (udp_socket_pollable (self s)) 0) as [Hz|Hz].
  - wpw_steps. eapply wpw_use; [exact Ho|done..|use_tac|]. intros h _ Ho'. wpw_steps. cbn [self octx_env octx_log].
    assert (h <> 0) as Hh by (eapply (owns_nonzero _ _ _ _ _ _ Ho'); cbn [creates app]; in_tac).
    assert (pollable_of h (UdpSocket, udp_socket (self s)) = [((Pollable, h), child_of (UdpSocket, udp_socket (self s)))]) as Hp.
    { unfold pollable_of, if_held. by apply Z.eqb_neq in Hh as ->. }
    split; [split; [done|]|].
    + eapply owns_perm; [|exact (owns_weaken _ _ _ Ho')]. cbn. unfold udp_owned. cbn. rewrite Hp, Hz. cbn. solve_Permutation.
    + split; [by eexists|]. cbn. unfold udp_owned. cbn. rewrite Hp. cbn. in_tac.
  - wpw_steps. split; [done|]. split; [exists (udp_socket_pollable (self s)); by rewrite set_udp_pollable_eta|].
    cbn. unfold udp_owned, pollable_of, if_held. apply Z.eqb_neq in Hz as ->. cbn. in_tac.
Qed.

Lemma udp_handle_error_spec F s e :
  holds F s -> 0 <= e <= 17 ->
  wpw (udp_handle_error e) (fun rc s' =>
    (0 <= rc -> e = NETWORK_ERROR_CODE_WOULD_BLOCK /\ (may_stall = false -> settled (UdpSocket, udp_socket (self s)) (octx_log s'))) /\
    holds F s' /\ exists q, self s' = set_udp_pollable q (self s)) s.
Proof.
  intros Hs He. unfold udp_handle_error. wpw_steps. destruct (_ && _) eqn:Eb.
  - wpw_steps. eapply wpw_mono; [by apply udp_pollable_spec|]. intros p s' ([Hv Ho] & Hq & Hp). cbv beta. wpw_steps.
    eapply wpw_use; [exact Ho|done..|use_tac|]. intros r _ Ho'. apply wpw_ret.
    split; [intros _; split; [by apply andb_true_iff in Eb as [?%Z.eqb_eq _]|]; by eapply waited_settled; [exact Ho|in_tac|constructor]|].
    split; [|done]. by split.
  - apply wpw_error; [done|]. intros n. split; [lia|]. split; [exact Hs|]. exists (udp_socket_pollable (self s)). by rewrite set_udp_pollable_eta.
Qed.

Lemma udp_finish_bind_spec fuel F u s :
  enough_for (UdpSocket, udp_socket u) fuel (octx_log s) -> holds F s -> (exists q, self s = set_udp_pollable q u) ->
  wpw (udp_finish_bind_loop fuel (udp_socket u)) (fun _ s' => holds F s' /\ exists q, self s' = set_udp_pollable q u) s.
Proof.
  revert s. induction fuel as [|fuel IH]; intros s Hf Hs [q Hq]; pose proof Hs as [Hv Ho].
  all: cbn [udp_finish_bind_loop]; apply wpw_bind; eapply wpw_use; [exact Ho|done..| |]; [rewrite Hq; use_tac|].
  all: intros r Hr Ho'; assert (holds F (Octx (self s) (octx_env s) (octx_log s ++ [Ev (udp_finish_bind (udp_socket u))]))) as Hs'.
  1, 3: split; [done|]; destruct r; exact Ho'.
  all: destruct r as [[]|e]; [apply wpw_ret; split; [done|]; by exists q|].
  all: apply wpw_bind; eapply wpw_mono; [apply udp_handle_error_spec; [exact Hs'|]; by eapply host_net_error; rewrite Hr|].
  all: intros rc s' (Hw & Hs2 & q' & Hq'); cbn [self] in Hq', Hw; cbv beta; rewrite Hq in Hq', Hw; destruct (Z.ltb_spec rc 0).
  1, 3: apply wpw_ret; split; [done|]; by exists q'.
  all: destruct Hw as [-> Hw]; [lia|].
  - eapply wpw_fuel, Hs2. eapply (enough_stalled (udp_finish_bind (udp_socket u))); [exact Hf|done|]. by rewrite Hr.
  - apply IH; [by apply enough_settled|done|by exists q'].
Qed.

Lemma holds_set_udp F u v h st P :
  owns h (udp_owned u ++ F) P -> udp_streams u = None -> udp_streams (set_udp_state st u) = None -> holds F (Octx (set_udp_state st u) v h).
Proof. intros Ho Hn Hn'. split; [done|]. cbn. eapply owns_perm, owns_weaken, Ho. unfold udp_owned. rewrite Hn, Hn'. done. Qed.

Lemma udp_do_bind_spec fuel a F s :
  enough fuel -> holds F s -> wpw (udp_do_bind fuel a) (fun rc s' => holds F s' /\ (0 <= rc -> udp_state (self s') = UDP_SOCKET_STATE_BOUND_NOSTREAMS)) s.
Proof.
  intros Hf Hs. unfold udp_do_bind. wpw_steps. destruct (udp_state (self s)) eqn:Es; try (apply wpw_fail; split; [exact Hs|lia]).
  destruct Hs as [Hv Ho]. wpw_steps. eapply wpw_network; [exact Ho|]. intros n h Ho1 Hg. unfold udp_or_fail.
  eapply wpw_try; [exact Ho1|done..| | |].
  { intros y Hy. apply elem_of_cons in Hy as [->|Hy]; [eapply (key_held h (UdpSocket, _)); [in_tac|left]|]. by apply (key_net h n). }
  - intros u _ Ho2. cbn [self octx_log octx_env] in *. wpw_steps. eapply wpw_mono; [apply (udp_finish_bind_spec fuel F (self s)); [by apply enough_start|by split|]|].
    { exists (udp_socket_pollable (self s)). by rewrite set_udp_pollable_eta. }
    intros ok s' [[Hv' Ho'] [q Hq]]. cbv beta. destruct ok; cbn [negb]; wpw_steps; [|split; [by split|lia]].
    split; [|done]. eapply holds_set_udp; [exact Ho'|rewrite Hq; unfold udp_streams; cbn; by rewrite Es|done].
  - intros v h' Ho'. split; [|lia]. by split.
Qed.

(** No stream of this socket is there. *)
Lemma no_streams_rule F h u remote P :
  closed F -> udp_streams u = None -> owns h (udp_owned u ++ F) P ->
  extra_rule (udp_stream (udp_socket u) remote) (net h ++ udp_owned u ++ F) = true.
Proof.
  intros HF Hn Ho. cbn [extra_rule]. apply negb_true_iff, not_true_iff_false. rewrite existsb_exists.
  intros (e & He & Hd). apply list_elem_of_In in He. apply andb_true_iff in Hd as [Hd Hp]. apply bool_decide_eq_true in Hp.
  apply elem_of_app in He as [He|[He|He]%elem_of_app].
  - unfold net in He. destruct (global_network [] h); [|by apply elem_of_nil in He]. by apply list_elem_of_singleton in He as ->.
  - unfold udp_owned in He. rewrite Hn, app_nil_r in He. apply elem_of_cons in He as [->|He]; [done|].
    unfold pollable_of, if_held in He. destruct (_ =? 0); [by apply elem_of_nil in He|]. by apply list_elem_of_singleton in He as ->.
  - by eapply frame_no_child in He; [|exact HF|exact Ho].
Qed.

Lemma udp_create_streams_spec remote F s :
  closed F -> holds F s -> udp_state (self s) = UDP_SOCKET_STATE_BOUND_NOSTREAMS ->
  wpw (udp_create_streams remote) (fun rc s' => holds F s' /\ udp_family (self s') = udp_family (self s) /\ (0 <= rc -> is_Some (udp_streams (self s')))) s.
Proof.
  intros HF [Hv Ho] Es. assert (udp_streams (self s) = None) as Hn by (unfold udp_streams; by rewrite Es).
  unfold udp_create_streams, udp_or_fail. wpw_step. wpw_step. rewrite Es.
  eapply wpw_try; [exact Ho|done..|by eapply no_streams_rule|use_tac| |].
  2: { intros v h Ho'. split; [by split|]. split; [done|lia]. }
  intros [i o] _ Ho2. wpw_steps. split; [|split; [done|intros _; destruct remote; by eexists]]. split; [done|]. cbn [self octx_log].
  eapply owns_perm; [|exact (owns_weaken _ _ _ Ho2)]. cbn [creates on_inl]. unfold fam_of.
  erewrite lookup_info_spec; [|apply (owns_keys _ _ _ Ho)|apply elem_of_app; right; in_tac].
  destruct remote; cbn; unfold udp_owned; rewrite Hn; cbn; solve_Permutation.
Qed.

Lemma udp_bind_keeps fuel addr len : enough fuel -> keeps (udp_bind fuel addr len).
Proof.
  intros Hf F s HF Hs. unfold udp_bind. wpw_steps. apply wpw_to_wasi. intros [a|] v; [|wpw_steps; exact Hs].
  eapply wpw_mono; [apply (udp_do_bind_spec fuel a F (Octx (self s) v (octx_log s))); [exact Hf|exact Hs]|]. by intros rc s' [? _].
Qed.

(** A socket that is not bound is bound first. *)
Lemma udp_bind_first fuel F s (Q : Z -> octx udp_socket_t -> Prop) :
  enough fuel -> holds F s -> (forall rc s', holds F s' -> (0 <= rc -> udp_state (self s') <> UDP_SOCKET_STATE_UNBOUND) -> Q rc s') ->
  wpw (match udp_state (self s) with
       | UDP_SOCKET_STATE_UNBOUND => udp_do_bind fuel (__wasilibc_unspecified_addr (udp_family (self s)))
       | _ => mret 0
       end) Q s.
Proof.
  intros Hf Hs Hq. destruct (udp_state (self s)) eqn:Es; try (apply wpw_ret, Hq; [done|by rewrite Es]).
  eapply wpw_mono; [by apply udp_do_bind_spec|]. intros rc s' [Hs' Hb]. apply Hq; [done|]. intros Hrc. by rewrite (Hb Hrc).
Qed.

(** Closing the streams of a socket. *)
Lemma udp_close_streams_spec st F s :
  closed F -> holds F s -> udp_streams (self s) = Some st ->
  holds F (Octx (set_udp_state UDP_SOCKET_STATE_BOUND_NOSTREAMS (self s)) (octx_env s) (octx_log s ++ udp_close_streams_calls st)).
Proof.
  intros HF [_ Ho] Hst. split; [done|]. cbn [self octx_log owned udp_owner] in *. unfold udp_owned in Ho. rewrite Hst in Ho.
  set (u := self s) in *. set (rest := ((UdpSocket, udp_socket u), Info None (Some (udp_family u)) false) ::
    pollable_of (udp_socket_pollable u) (UdpSocket, udp_socket u)).
  replace (udp_owned _) with rest by (unfold rest, udp_owned; cbn; by rewrite app_nil_r).
  eapply (gives_back_owns _ (streams_owned u st) (rest ++ F)); [apply streams_gives_back| |].
  - apply closed_app; [|done]. apply parents_in_closed. unfold rest at 1. constructor; [done|]. apply parents_in_pollable. intros _. left.
  - eapply owns_perm, Ho. unfold rest. solve_Permutation.
Qed.

Lemma udp_do_connect_keeps fuel remote : enough fuel -> keeps (udp_do_connect fuel remote).
Proof.
  intros Hf F s HF Hs. unfold udp_do_connect. wpw_steps. eapply (udp_bind_first _ F); [done..|]. intros rc s1 Hs1 Hb.
  destruct (Z.ltb_spec rc 0); [by wpw_steps|]. specialize (Hb ltac:(lia)). wpw_steps.
  destruct (udp_streams (self s1)) as [st|] eqn:Est.
  - apply wpw_bind. unfold udp_close_streams, wpw at 1, modify. cbv beta iota. wpw_steps.
    eapply wpw_mono; [apply udp_create_streams_spec; [done| |done]|by intros ? ? [? _]]. exact (udp_close_streams_spec st F s1 HF Hs1 Est).
  - wpw_steps. eapply wpw_mono; [apply udp_create_streams_spec; [done|done|]|by intros ? ? [? _]].
    unfold udp_streams in Est. by destruct (udp_state (self s1)).
Qed.

Lemma udp_connect_keeps fuel addr len : enough fuel -> keeps (udp_connect fuel addr len).
Proof.
  intros Hf F s HF Hs. unfold udp_connect. destruct addr as [mem|]; [|by wpw_steps].
  apply wpw_if; intros _; [by wpw_steps|]. apply wpw_if; intros _; [by apply udp_do_connect_keeps|]. wpw_steps.
  apply wpw_to_wasi. intros [a|] v; [|wpw_steps; exact Hs]. by apply udp_do_connect_keeps.
Qed.

Lemma udp_address_keeps call F s :
  holds F s -> uses call = [(UdpSocket, udp_socket (self s))] -> is_network call = false -> drops call = None ->
  permit_needed call = None -> (forall l r, creates l call r = []) -> (forall l, extra_rule call l = true) ->
  (forall r, starts_listening call r = None) -> permit_given call = (fun _ => None) -> (forall r, reply_net_error call r = sum_error r) ->
  (forall a, host _ (octx_log s) call = inl a -> family_of a = udp_family (self s)) ->
  wpw (udp_address call (output_of (udp_family (self s)))) (fun _ s' => holds F s') s.
Proof.
  intros [Hv Ho] Hu Hnet Hd Hp Hc Hx Hs Hpg Hre Hf. unfold udp_address, udp_or_fail.
  eapply wpw_try; [exact Ho|try done..| | |by split].
  - by rewrite Hp.
  - rewrite Hu. use_tac.
  - intros a Ha Ho'. rewrite Hc, Hpg in Ho'. cbn in Ho'. wpw_steps. rewrite <- (Hf a Ha). apply wpw_to_sockaddr. intros out. wpw_steps. by split.
Qed.

Lemma udp_getsockname_keeps addr len : keeps (udp_getsockname addr len).
Proof.
  intros F s HF Hs. unfold udp_getsockname. wpw_steps. apply wpw_validate; [intros v; wpw_steps; exact Hs|wpw_steps; exact Hs|].
  assert (wpw (udp_address (udp_local_address (udp_socket (self s))) (output_of (udp_family (self s)))) (fun _ s' => holds F s') s) as Hw.
  { apply udp_address_keeps; try done. intros a Ha. destruct Hs as [_ Ho].
    destruct (owns_info _ _ _ (UdpSocket, udp_socket (self s)) _ Ho ltac:(in_tac)) as (m & Hm & _ & Hf).
    by eapply host_udp_local_family in Ha; [|done..]. }
  destruct (output_of (udp_family (self s))); try (wpw_steps; exact Hs).
  all: destruct (udp_state (self s)); try exact Hw; wpw_steps; exact Hs.
Qed.

Lemma udp_getpeername_keeps addr len : keeps (udp_getpeername addr len).
Proof.
  intros F s HF Hs. unfold udp_getpeername. wpw_steps. apply wpw_validate; [intros v; wpw_steps; exact Hs|wpw_steps; exact Hs|].
  assert (wpw (udp_address (udp_remote_address (udp_socket (self s))) (output_of (udp_family (self s)))) (fun _ s' => holds F s') s) as Hw.
  { apply udp_address_keeps; try done. intros a Ha. destruct Hs as [_ Ho].
    destruct (owns_info _ _ _ (UdpSocket, udp_socket (self s)) _ Ho ltac:(in_tac)) as (m & Hm & _ & Hf).
    by eapply host_udp_remote_family in Ha; [|done..]. }
  destruct (output_of (udp_family (self s))); try (wpw_steps; exact Hs).
  all: destruct (udp_state (self s)); try exact Hw; wpw_steps; exact Hs.
Qed.

(** *** Datagrams *)

(** The socket has the streams [st]. *)
Definition streaming F u st s : Prop := holds F s /\ udp_streams (self s) = Some st /\ udp_family (self s) = udp_family u.

Lemma streams_set_streams st st' u : udp_streams u = Some st -> udp_streams (set_streams st' u) = Some st'.
Proof. unfold udp_streams, set_streams. destruct (udp_state u) eqn:E; cbn; congruence. Qed.

Lemma set_streams_owned st u st' :
  udp_streams u = Some st -> udp_owned (set_streams st' u) =
    ((UdpSocket, udp_socket u), Info None (Some (udp_family u)) false) ::
    pollable_of (udp_socket_pollable u) (UdpSocket, udp_socket u) ++ streams_owned u st'.
Proof.
  intros Hs. unfold udp_owned. rewrite (streams_set_streams st) by done. unfold set_streams. by destruct (udp_state u).
Qed.

Lemma udp_incoming_pollable_spec F u st s (Q : udp_socket_streams_t -> octx udp_socket_t -> Prop) :
  streaming F u st s ->
  (forall st' s', incoming st' = incoming st -> streaming F u st' s' ->
     ((Pollable, incoming_pollable st'), child_of (IncomingDatagramStream, incoming st)) ∈ owned (self s') -> Q st' s') ->
  wpw (udp_incoming_pollable st) Q s.
Proof.
  intros ([Hv Ho] & Hst & Hf) Hq. unfold udp_incoming_pollable. destruct (Z.eqb_spec (incoming_pollable st) 0) as [Hz|Hz].
  - cbn [owned udp_owner] in Ho. unfold udp_owned in Ho. rewrite Hst in Ho. unfold streams_owned in Ho.
    wpw_steps. eapply wpw_use; [exact Ho|done..|use_tac|]. intros h _ Ho'. wpw_steps. cbn [self octx_env octx_log].
    assert (h <> 0) as Hh by (eapply (owns_nonzero _ _ _ _ _ _ Ho'); cbn [creates app]; in_tac).
    set (st' := Streams (incoming st) h (outgoing st) (outgoing_pollable st)).
    assert (pollable_of h (IncomingDatagramStream, incoming st) = [((Pollable, h), child_of (IncomingDatagramStream, incoming st))]) as Hp.
    { unfold pollable_of, if_held. by apply Z.eqb_neq in Hh as ->. }
    apply Hq; [done|split; [split; [done|]|]|].
    + eapply owns_perm; [|exact (owns_weaken _ _ _ Ho')]. cbn [self owned udp_owner]. rewrite (set_streams_owned st) by done.
      unfold streams_owned. cbn. rewrite Hp, Hz. cbn. solve_Permutation.
    + split; [by eapply streams_set_streams|]. cbn [self]. rewrite <- Hf. unfold set_streams. by destruct (udp_state (self s)).
    + cbn [self owned udp_owner]. rewrite (set_streams_owned st) by done. unfold streams_owned. cbn. rewrite Hp. in_tac.
  - wpw_steps. apply Hq; [done|by split|]. cbn. unfold udp_owned. rewrite Hst.
    unfold streams_owned, pollable_of at 2, if_held. apply Z.eqb_neq in Hz as ->. cbn. in_tac.
Qed.

Lemma udp_outgoing_pollable_spec F u st s (Q : udp_socket_streams_t -> octx udp_socket_t -> Prop) :
  streaming F u st s ->
  (forall st' s', outgoing st' = outgoing st -> streaming F u st' s' ->
     ((Pollable, outgoing_pollable st'), child_of (OutgoingDatagramStream, outgoing st)) ∈ owned (self s') -> Q st' s') ->
  wpw (udp_outgoing_pollable st) Q s.
Proof.
  intros ([Hv Ho] & Hst & Hf) Hq. unfold udp_outgoing_pollable. destruct (Z.eqb_spec (outgoing_pollable st) 0) as [Hz|Hz].
  - cbn [owned udp_owner] in Ho. unfold udp_owned in Ho. rewrite Hst in Ho. unfold streams_owned in Ho.
    wpw_steps. eapply wpw_use; [exact Ho|done..|use_tac|]. intros h _ Ho'. wpw_steps. cbn [self octx_env octx_log].
    assert (h <> 0) as Hh by (eapply (owns_nonzero _ _ _ _ _ _ Ho'); cbn [creates app]; in_tac).
    set (st' := Streams (incoming st) (incoming_pollable st) (outgoing st) h).
    assert (pollable_of h (OutgoingDatagramStream, outgoing st) = [((Pollable, h), child_of (OutgoingDatagramStream, outgoing st))]) as Hp.
    { unfold pollable_of, if_held. by apply Z.eqb_neq in Hh as ->. }
    apply Hq; [done|split; [split; [done|]|]|].
    + eapply owns_perm; [|exact (owns_weaken _ _ _ Ho')]. cbn [self owned udp_owner]. rewrite (set_streams_owned st) by done.
      unfold streams_owned. cbn. rewrite Hp, Hz. cbn. solve_Permutation.
    + split; [by eapply streams_set_streams|]. cbn [self]. rewrite <- Hf. unfold set_streams. by destruct (udp_state (self s)).
    + cbn [self owned udp_owner]. rewrite (set_streams_owned st) by done. unfold streams_owned. cbn. rewrite Hp. in_tac.
  - wpw_steps. apply Hq; [done|by split|]. cbn. unfold udp_owned. rewrite Hst.
    unfold streams_owned, pollable_of at 3, if_held. apply Z.eqb_neq in Hz as ->. cbn. in_tac.
Qed.

Lemma streaming_in F u st s :
  streaming F u st s -> let i := Info (Some (UdpSocket, udp_socket (self s))) (Some (udp_family u)) false in
    ((IncomingDatagramStream, incoming st), i) ∈ owned (self s) ++ F /\ ((OutgoingDatagramStream, outgoing st), i) ∈ owned (self s) ++ F.
Proof.
  intros (_ & Hst & Hf). cbn [owned udp_owner]. unfold udp_owned. rewrite Hst. unfold streams_owned. rewrite Hf. split; in_tac.
Qed.

Lemma streaming_log F u st s v h P : streaming F u st s -> owns h (owned (self s) ++ F) P -> streaming F u st (Octx (self s) v h).
Proof. intros ([Hv _] & Hst & Hf) Ho. split; [|done]. split; [done|]. by eapply owns_weaken. Qed.

Lemma udp_recv_loop_spec fuel F u st len o sz b timeout s :
  enough_for (IncomingDatagramStream, incoming st) fuel (octx_log s) -> closed F -> streaming F u st s -> o = OUTPUT_SOCKADDR_NULL \/ o = output_of (udp_family u) ->
  wpw (udp_recv_loop fuel st len o sz b timeout) (fun _ s' => holds F s') s.
Proof.
  intros Hfl HF Hs Hout. revert s st Hfl Hs. induction fuel as [|fuel IH]; intros s st Hfl Hs; pose proof Hs as ([Hv Ho] & Hst & Hf).
  all: destruct (streaming_in F u st s Hs) as [Hin _]; cbn [udp_recv_loop]; unfold udp_or_fail.
  all: eapply wpw_try; [exact Ho|done..|use_tac| |by split].
  all: intros l Hl Ho'; destruct l as [|[data remote] l].
  all: try (destruct (owns_info _ _ _ _ _ Ho Hin) as (m & Hm & _ & Hfam); cbn [fam] in Hfam;
    pose proof (host_datagram_family _ _ _ _ _ _ Hm Hfam Hl) as Hd; apply Forall_inv in Hd; cbn [snd] in Hd; cbv zeta;
    apply wpw_bind; destruct Hout as [-> | ->];
      [wpw_steps; by split|rewrite <- Hd; destruct remote; wpw_steps; by split]).
  all: apply wpw_if; intros _; [wpw_steps; by split|]; apply wpw_bind.
  all: eapply udp_incoming_pollable_spec; [by eapply streaming_log|]; intros st' s' Hi Hs' Hp; apply wpw_bind.
  all: eapply wpw_block_on; [apply closed_app; [apply (udp_closed (self s'))|exact HF]|apply Hs'|apply elem_of_app; left; exact Hp|].
  all: intros rc v h Ho2 Hw; destruct (Z.ltb_spec rc 0); [apply wpw_ret; split; [done|exact Ho2]|].
  - eapply wpw_fuel, Ho2. eapply (enough_stalled (incoming_datagram_stream_receive (incoming st) 1)); [exact Hfl|done|]. by rewrite Hl.
  - apply IH; [rewrite Hi; apply enough_settled; by apply Hw|by eapply streaming_log].
Qed.

(** One round of the loop of [udp_sendto], which goes on with [again] after waiting. *)
Lemma udp_send_round F u st buffer remote b timeout (again : udp_socket_streams_t -> M (octx udp_socket_t) Z) s :
  closed F -> streaming F u st s ->
  (let check := outgoing_datagram_stream_check_send (outgoing st) in let send := outgoing_datagram_stream_send (outgoing st) [(buffer, remote)] in
   stalled check (host _ (octx_log s) check) = true \/ stalled send (host _ (octx_log s ++ [Ev check]) send) = true ->
   forall st' s', outgoing st' = outgoing st -> streaming F u st' s' ->
     (may_stall = false -> settled (OutgoingDatagramStream, outgoing st) (octx_log s')) -> wpw (again st') (fun _ s' => holds F s') s') ->
  wpw (r ← ask (outgoing_datagram_stream_check_send (outgoing st));
    udp_or_fail r (-1) (fun allowed =>
      let wait :=
        if negb b then fail_with EWOULDBLOCK (-1) else
        st ← udp_outgoing_pollable st;
        rc ← __wasilibc_pollable_block_on (outgoing_pollable st) timeout;
        if rc <? 0 then mret (-1) else again st in
      if negb (allowed =? 0) then
        r ← ask (outgoing_datagram_stream_send (outgoing st) [(buffer, remote)]);
        udp_or_fail r (-1) (fun datagrams_sent =>
          if negb (datagrams_sent =? 0) && negb (datagrams_sent =? 1) then halt Trap else
          if datagrams_sent =? 1 then mret (strlen buffer) else wait)
      else wait)) (fun _ s' => holds F s') s.
Proof.
  intros HF Hs Ha. cbv zeta in Ha. pose proof Hs as ([Hv Ho] & Hst & Hf). destruct (streaming_in F u st s Hs) as [_ Hin]. unfold udp_or_fail.
  eapply wpw_try; [exact Ho|done..|use_tac| |by split]. intros n Hn Ho'. cbv zeta. rewrite Hn in Ha.
  match type of Ha with ?D -> _ => match goal with |- wpw (if _ then _ else ?w) ?Q _ =>
    assert (forall v h P, D -> owns h (owned (self s) ++ F) P -> wpw w Q (Octx (self s) v h)) as Hw end end.
  { intros v h P Hst2 Hoh. specialize (Ha Hst2). apply wpw_if; intros _; [wpw_steps; split; [done|]; by eapply owns_weaken|]. apply wpw_bind.
    eapply udp_outgoing_pollable_spec; [by eapply streaming_log|]. intros st' s' Hi Hs' Hp. apply wpw_bind.
    eapply wpw_block_on; [apply closed_app; [apply (udp_closed (self s'))|exact HF]|apply Hs'|apply elem_of_app; left; exact Hp|].
    intros rc v' h' Ho2 Hw. destruct (Z.ltb_spec rc 0); [apply wpw_ret; split; [done|exact Ho2]|].
    apply Ha; [done|by eapply streaming_log|by apply Hw]. }
  apply wpw_if; [intros Hne|intros Hz%negb_false_iff; by eapply Hw; [left|]].
  apply host_check_send in Hn. assert (1 <= n) as Hn1 by (destruct (Z.eqb_spec n 0); [done|lia]).
  eapply wpw_try; [exact Ho'|try done..|use_tac| |by split]; [exists n; split; [left|cbn; lia]|].
  intros k Hk Ho2. cbn [octx_log self octx_env] in *. rewrite Hk in Hw. apply host_sent in Hk. cbn [length] in Hk.
  destruct (Z.eqb_spec k 0), (Z.eqb_spec k 1); cbn [negb andb]; try lia; [subst k; by eapply Hw; [right|]|].
  apply wpw_ret. split; [done|exact Ho2].
Qed.

Lemma udp_send_loop_spec fuel F u st buffer remote b timeout s :
  enough_for (OutgoingDatagramStream, outgoing st) fuel (octx_log s) -> closed F -> streaming F u st s ->
  wpw (udp_send_loop fuel st buffer remote b timeout) (fun _ s' => holds F s') s.
Proof.
  intros Hfl HF Hs. revert s st Hfl Hs. induction fuel as [|fuel IH]; intros s st Hfl Hs.
  - apply (udp_send_round F u st buffer remote b timeout (fun _ => halt Fuel)); [done..|]. intros check send Hst st' s' _ ([_ Ho] & _) _.
    eapply wpw_fuel, Ho. destruct may_stall eqn:E; [done|]. destruct (Hfl E) as [|[Hn1 Hn2]]; [done|].
    destruct Hst as [Hst|Hst]; [by rewrite (Hn1 _ check) in Hst|]. pose proof (Hn2 (outgoing st) (buffer, remote) eq_refl) as Hn. cbv zeta in Hn. unfold check, send in Hst. congruence.
  - apply (udp_send_round F u st buffer remote b timeout (fun st => udp_send_loop fuel st buffer remote b timeout)); [done..|].
    intros check send _ st' s' Hi Hs' Hw. apply IH; [|done]. rewrite Hi. by apply enough_settled.
Qed.

(** The streams are made when they are first needed. *)
Lemma udp_streams_first F s (Q : Z -> octx udp_socket_t -> Prop) :
  closed F -> holds F s -> (forall rc s', holds F s' -> udp_family (self s') = udp_family (self s) -> Q rc s') ->
  wpw (match udp_state (self s) with UDP_SOCKET_STATE_BOUND_NOSTREAMS => udp_create_streams None | _ => mret 0 end) Q s.
Proof.
  intros HF Hs Hq. destruct (udp_state (self s)) eqn:Es; try (apply wpw_ret; by apply Hq).
  eapply wpw_mono; [by apply udp_create_streams_spec|]. intros rc s' (Hs' & Hf & _). by apply Hq.
Qed.

Lemma udp_recvfrom_keeps fuel len flags addr addrlen : enough fuel -> keeps (udp_recvfrom fuel len flags addr addrlen).
Proof.
  intros Hfl F s HF Hs. unfold udp_recvfrom. apply wpw_if; intros _; [by wpw_steps|]. wpw_step. wpw_step. apply wpw_bind.
  apply wpw_validate; [intros v; wpw_steps; exact Hs| |].
  all: apply wpw_bind, (udp_streams_first F); [done|exact Hs|]; intros rc s' Hs' Hf.
  all: apply wpw_if; intros _; [by wpw_steps|]; wpw_steps; destruct (udp_streams (self s')) as [st|] eqn:Est; [|by wpw_steps].
  all: eapply (udp_recv_loop_spec _ F (self s)); [by apply enough_start|done|by split|auto].
Qed.

Lemma udp_do_send_keeps fuel buffer flags remote : enough fuel -> keeps (udp_do_send fuel buffer flags remote).
Proof.
  intros Hfl F s HF Hs. unfold udp_do_send. wpw_steps. eapply (udp_bind_first _ F); [done..|]. intros rc s1 Hs1 _.
  apply wpw_if; intros _; [by wpw_steps|]. wpw_steps. apply (udp_streams_first F); [done..|]. intros rc' s2 Hs2 _.
  apply wpw_if; intros _; [by wpw_steps|]. wpw_steps. destruct (udp_streams (self s2)) as [st|] eqn:Est; [|by wpw_steps].
  eapply (udp_send_loop_spec _ F (self s2)); [by apply enough_start|done|]. by split.
Qed.

Lemma udp_sendto_keeps fuel buffer flags addr len : enough fuel -> keeps (udp_sendto fuel buffer flags addr len).
Proof.
  intros Hfl F s HF Hs. unfold udp_sendto. apply wpw_if; intros _; [by wpw_steps|]. wpw_steps. destruct addr as [mem|].
  - apply wpw_if; intros _; [by wpw_steps|]. wpw_steps. apply wpw_to_wasi. intros [a|] v; [|wpw_steps; exact Hs].
    by apply udp_do_send_keeps.
  - do 2 (apply wpw_if; intros _; [by wpw_steps|]). by apply udp_do_send_keeps.
Qed.

(** *** Options *)

Lemma udp_hop_limit_keeps F s len : holds F s -> wpw (udp_hop_limit (self s) len) (fun _ s' => holds F s') s.
Proof.
  intros [Hv Ho]. unfold udp_hop_limit, udp_or_fail. eapply wpw_try; [exact Ho|done..|use_tac|intros v _ Ho'; wpw_steps; by split|by split].
Qed.

Lemma udp_set_keeps o v F s : holds F s -> wpw (udp_set o (self s) v) (fun _ s' => holds F s') s.
Proof.
  intros [Hv Ho]. unfold udp_set, udp_or_fail. eapply wpw_try; [exact Ho|done..|use_tac|intros u _ Ho'; wpw_steps; by split|by split].
Qed.

Ltac udp_option_tac :=
  repeat match goal with
  | |- wpw (if _ then _ else _) _ _ => apply wpw_if; intros ?
  | |- wpw (udp_hop_limit _ _) _ _ => by apply udp_hop_limit_keeps
  | |- wpw (udp_set _ _ _) _ _ => by apply udp_set_keeps
  | |- wpw (udp_set_hop_limit _ _) _ _ => unfold udp_set_hop_limit
  | |- _ => progress wpw_steps
  end; try done.

(** The size of a buffer that is no [int] ends the program. *)
Lemma udp_buffer_size_keeps o F s len : holds F s -> wpw (udp_buffer_size o (self s) len) (fun _ s' => holds F s') s.
Proof.
  intros [Hv Ho]. unfold udp_buffer_size, udp_or_fail. eapply wpw_try; [exact Ho|done..|use_tac| |by split].
  intros n Hn Ho'. destruct (Z.ltb_spec INT_MAX n); [|wpw_steps; by split].
  destruct Ho' as (m & Hm & _). apply excused_abort; cbn [octx_log]; [right; by eexists _, o, _, n|]. rewrite Hm. by eexists.
Qed.

Lemma udp_getsockopt_keeps level optname len : keeps (udp_getsockopt level optname len).
Proof.
  intros F s HF Hs. unfold udp_getsockopt. udp_option_tac; by apply udp_buffer_size_keeps.
Qed.

Lemma udp_setsockopt_keeps level optname optval len : keeps (udp_setsockopt level optname optval len).
Proof.
  intros F s HF Hs. unfold udp_setsockopt. wpw_steps. apply wpw_if; intros _; [by wpw_steps|].
  apply wpw_if; intros _; [|udp_option_tac]. do 2 (apply wpw_if; intros _; [by udp_option_tac|]).
  do 2 (apply wpw_if; intros _; [wpw_steps; apply wpw_setsockopt_timeout; intros [d|] v; by wpw_steps|]). by wpw_steps.
Qed.
End udp.
