(* ===== verification/ResourceIo.v ===== *)
(** * Keeping to the rules of the host: files, standard streams, reading and writing

    The slots of [file_vtable] and [stdio_vtable], and the loops of
    sources/file_utils.c on the streams of any object. *)

From S2P Require Import Prelude Errno Time Stat SockAddr Host DescTable Object File Tcp Udp Vtable FdOps FdProps Resources ResourceInv ResourceObj.

Section io.
Context `{HostLaws} `{!ResourceLaws} `{Stalling} `{!Settles}.

Lemma keeps_as_object {T A} `{Owner T} wrap (t : T) (m : M (octx T) A) F s Q :
  (forall t', owned (wrap t') = owned t') -> (forall t', valid (wrap t') <-> valid t') ->
  self s = wrap t -> holds F s ->
  (holds F (Octx t (octx_env s) (octx_log s)) -> wpw m (fun a s' => holds F s' /\ Q a (self s')) (Octx t (octx_env s) (octx_log s))) ->
  wpw (as_object wrap t m) (fun a s' => holds F s' /\ exists t', self s' = wrap t' /\ Q a t') s.
Proof.
  intros Ho Hv Hs [Hvs Hos] Hm. rewrite Hs in Hvs, Hos. rewrite Ho in Hos. apply Hv in Hvs. specialize (Hm (conj Hvs Hos)).
  unfold as_object, wpw in *. destruct (m _) as [a s'|r s']; [|done]. destruct Hm as [[Hv' Ho'] Hq]. split; [|by eexists].
  split; cbn [self octx_log]; [by apply Hv|by rewrite Ho].
Qed.

Lemma wpw_translate {T} e (Q : unit -> octx T -> Prop) s :
  0 <= e <= 36 -> (forall v, Q tt (Octx (self s) v (octx_log s))) -> wpw (translate_error_p2 e) Q s.
Proof.
  intros He Hq. unfold translate_error_p2. destruct (error_cases_p2_total e He) as (n & -> & _). apply Hq.
Qed.

(** [if (!call(..., &error)) { translate_error(error); return -1; }] *)
Lemma wpw_attempt {T} {A : Set} {B} (c : hostcall (A + Z)) X (k : A + Z -> M (octx T) B) (s : octx T) Q :
  owns (octx_log s) X [] -> is_network c = false -> drops c = None -> permit_needed c = None ->
  (forall r, starts_listening c r = None) -> (forall l e, creates l c (inr e) = []) ->
  (forall r, reply_error c r = sum_error r) -> extra_rule c (net (octx_log s) ++ X) = true -> uses c ⊆ keys (net (octx_log s) ++ X) ->
  (forall a, owns (octx_log s ++ [Ev c]) (creates (net (octx_log s) ++ X) c (inl a) ++ X) [] ->
     wpw (k (inl a)) Q (Octx (self s) (octx_env s) (octx_log s ++ [Ev c]))) ->
  (forall e, 0 <= e <= 36 -> owns (octx_log s ++ [Ev c]) X [] -> wpw (k (inr e)) Q (Octx (self s) (octx_env s) (octx_log s ++ [Ev c]))) ->
  wpw (ask c ≫= k) Q s.
Proof.
  intros Ho Hnet Hd Hp Hs Hcr Hre Hx Hu Hk He. apply wpw_bind. eapply wpw_use; [exact Ho|done..|].
  intros r Hr Ho'. apply owns_weaken in Ho'. destruct r as [a|e]; [by apply Hk|]. rewrite Hcr in Ho'. apply He; [|done].
  eapply host_error_code. by rewrite Hre, Hr.
Qed.

(** ** Files *)

Lemma file_get_read_stream_spec F (s : octx file_t) :
  holds F s -> wpw file_get_read_stream (fun r s' => holds F s' /\
    match snd r with Some io => io_stream io = read_stream (self s') /\ read_stream (self s') <> 0 | None => True end) s.
Proof.
  intros [Hv Ho]. unfold file_get_read_stream. wpw_steps. destruct (Z.eqb_spec (read_stream (self s)) 0) as [Hz|Hz].
  - eapply wpw_attempt; [exact Ho|done..|use_tac| |].
    + intros h Ho'. cbn [creates on_inl app] in Ho'. assert (h <> 0) as Hh by (eapply (owns_nonzero _ _ _ _ _ _ Ho'); in_tac).
      wpw_steps. destruct (0 <? 0) eqn:E0; [lia|]. wpw_steps. cbn [self]. split; [split|done]; [split; [done|apply Hv]|].
      eapply owns_perm; [|exact Ho']. cbn [self owned file_owner]. unfold file_owned. cbn. destruct Hv as [Hv _].
      rewrite (Hv Hz), Hz. unfold pollable_of, if_held. apply Z.eqb_neq in Hh as ->. cbn. solve_Permutation.
    + intros e He Ho'. wpw_steps. apply wpw_translate; [done|]. intros v. wpw_steps. destruct (-1 <? 0) eqn:E; [|lia].
      wpw_steps. split; [by split|done].
  - wpw_steps. destruct (0 <? 0) eqn:E; [lia|]. wpw_steps. split; [by split|done].
Qed.

Lemma file_get_write_stream_spec F (s : octx file_t) :
  holds F s -> wpw file_get_write_stream (fun r s' => holds F s' /\
    match snd r with Some io => io_stream io = write_stream (self s') /\ write_stream (self s') <> 0 | None => True end) s.
Proof.
  intros [Hv Ho]. unfold file_get_write_stream. wpw_steps. destruct (Z.eqb_spec (write_stream (self s)) 0) as [Hz|Hz].
  2: { wpw_steps. destruct (0 <? 0) eqn:E; [lia|]. wpw_steps. split; [by split|done]. }
  assert (forall h hs v, owns hs (((OutputStream, h), plain) :: owned (self s) ++ F) [] ->
    holds F (Octx (set_write_stream h (self s)) v hs) /\ h <> 0) as Hset.
  { intros h hs v Ho'. assert (h <> 0) as Hh by (eapply (owns_nonzero _ _ _ _ _ _ Ho'); in_tac). split; [|done].
    split; [split; [apply Hv|done]|]. eapply owns_perm; [|exact Ho']. cbn [self owned file_owner]. unfold file_owned. cbn.
    destruct Hv as [_ Hv]. rewrite (Hv Hz), Hz. unfold pollable_of, if_held. apply Z.eqb_neq in Hh as ->. cbn. solve_Permutation. }
  wpw_step. destruct (has _ _); (eapply wpw_use; [exact Ho|done..|use_tac|]); intros [h|e] Hr Ho'; apply owns_weaken in Ho'.
  1, 3: cbn [creates on_inl app] in Ho'; destruct (Hset h _ (octx_env s) Ho') as [Hs Hh]; wpw_steps; destruct (0 <? 0) eqn:E; [lia|];
    wpw_steps; done.
  all: wpw_steps; (apply wpw_translate; [eapply host_error_code; by rewrite Hr|]); intros v; wpw_steps; (destruct (-1 <? 0) eqn:E; [|lia]);
    wpw_steps; split; [by split|done].
Qed.

Lemma file_fstat_keeps : keeps file_fstat.
Proof.
  intros F s HF [Hv Ho]. unfold file_fstat. wpw_step. wpw_step. eapply wpw_attempt; [exact Ho|done..|use_tac| |].
  - intros m Ho1. eapply wpw_attempt; [exact Ho1|done..|use_tac| |].
    + intros st Ho2. wpw_steps. by split.
    + intros e He Ho2. wpw_steps. apply wpw_translate; [done|]. intros v. wpw_steps. by split.
  - intros e He Ho1. wpw_steps. apply wpw_translate; [done|]. intros v. wpw_steps. by split.
Qed.

Lemma file_seek_end_keeps : keeps file_seek_end.
Proof.
  intros F s HF [Hv Ho]. unfold file_seek_end. wpw_step. wpw_step. eapply wpw_attempt; [exact Ho|done..|use_tac| |].
  - intros st Ho1. wpw_steps. by split.
  - intros e He Ho1. wpw_steps. apply wpw_translate; [done|]. intros v. wpw_steps. by split.
Qed.

Lemma file_close_holds F (s : octx file_t) f' :
  closed F -> holds F s -> file_handle f' = file_handle (self s) ->
  read_stream f' = 0 -> write_stream f' = 0 -> read_pollable f' = 0 -> write_pollable f' = 0 ->
  holds F (Octx f' (octx_env s) (octx_log s ++ file_close_streams_calls (self s))).
Proof.
  intros HF [_ Ho] Hh Hrs Hws Hrp Hwp. split; [done|]. cbn [self octx_log owned file_owner]. unfold file_owned at 1.
  rewrite Hh, Hrs, Hws, Hrp, Hwp. cbn [app pollable_of if_held Z.eqb]. set (d := ((Descriptor, file_handle (self s)), plain)).
  eapply (gives_back_owns _ _ (d :: F)); [apply file_close_gives_back| |].
  - apply (closed_app [d]); [|done]. by intros e x ->%list_elem_of_singleton.
  - eapply owns_perm, Ho. cbn [owned file_owner]. unfold file_owned. solve_Permutation.
Qed.

Lemma file_seek_to_keeps r : keeps (file_seek_to r).
Proof.
  intros F s HF Hs. unfold file_seek_to. apply wpw_if; intros _; [by wpw_steps|]. wpw_steps.
  destruct (negb _); [|by wpw_steps]. wpw_steps. unfold file_close_streams, wpw at 1, modify. cbv beta iota zeta. wpw_steps.
  by apply (file_close_holds F s).
Qed.

Lemma file_seek_keeps off whence : keeps (file_seek off whence).
Proof.
  intros F s HF Hs. assert (forall b : bool, forall s, holds F s -> wpw (if b then file_seek_end else mret 0) (fun _ s' => holds F s') s) as He.
  { intros [] s' Hs'; [by apply file_seek_end_keeps|by wpw_steps]. }
  unfold file_seek. wpw_steps. eapply wpw_mono; [by apply He|]. intros rc s1 Hs1. cbv beta.
  apply wpw_if; intros _; [by wpw_steps|]. apply wpw_if; intros _; [by apply file_seek_to_keeps|].
  apply wpw_if; intros _; [wpw_steps; by apply file_seek_to_keeps|]. apply wpw_if; intros _; [|by wpw_steps].
  wpw_steps. eapply wpw_mono; [by apply He|]. intros rc' s2 Hs2. cbv beta. apply wpw_if; intros _; [by wpw_steps|].
  wpw_steps. by apply file_seek_to_keeps.
Qed.

Lemma file_fcntl_getfl_keeps : keeps file_fcntl_getfl.
Proof.
  intros F s HF [Hv Ho]. unfold file_fcntl_getfl. wpw_step. wpw_step. eapply wpw_attempt; [exact Ho|done..|use_tac| |].
  - intros st Ho1. wpw_steps. by split.
  - intros e He Ho1. wpw_steps. apply wpw_translate; [done|]. intros v. wpw_steps. by split.
Qed.

(** ** Standard streams *)

Lemma stdio_get_read_stream_spec F (s : octx stdio_t) :
  holds F s -> wpw stdio_get_read_stream (fun r s' => holds F s' /\
    match snd r with Some io => io_stream io = input (self s') /\ input (self s') <> 0 | None => True end) s.
Proof.
  intros [Hv Ho]. unfold stdio_get_read_stream. wpw_steps. apply wpw_if; intros _; [by wpw_steps|]. wpw_step.
  destruct (Z.eqb_spec (input (self s)) 0) as [Hz|Hz]; wpw_steps; [|split; [by split|done]].
  eapply wpw_use; [exact Ho|done..|intros y Hy; by apply elem_of_nil in Hy|]. intros h _ Ho'. apply owns_weaken in Ho'. cbn [creates app] in Ho'.
  assert (h <> 0) as Hh by (eapply (owns_nonzero _ _ _ _ _ _ Ho'); in_tac). wpw_steps. split; [split|done]; [split; [done|apply Hv]|].
  eapply owns_perm; [|exact Ho']. cbn [self owned stdio_owner]. unfold stdio_owned. cbn. destruct Hv as [Hv _].
  rewrite (Hv Hz), Hz. unfold pollable_of, if_held. apply Z.eqb_neq in Hh as ->. cbn. solve_Permutation.
Qed.

Lemma stdio_get_write_stream_spec F (s : octx stdio_t) :
  holds F s -> wpw stdio_get_write_stream (fun r s' => holds F s' /\
    match snd r with Some io => io_stream io = output (self s') /\ output (self s') <> 0 | None => True end) s.
Proof.
  intros [Hv Ho]. unfold stdio_get_write_stream. wpw_step. wpw_step. wpw_step.
  destruct (Z.eqb_spec (output (self s)) 0) as [Hz|Hz].
  2: { wpw_steps. destruct (0 <? 0) eqn:E; [lia|]. wpw_steps. split; [by split|done]. }
  assert (forall h hs v, owns hs (((OutputStream, h), plain) :: owned (self s) ++ F) [] ->
    holds F (Octx (set_output h (self s)) v hs) /\ h <> 0) as Hset.
  { intros h hs v Ho'. assert (h <> 0) as Hh by (eapply (owns_nonzero _ _ _ _ _ _ Ho'); in_tac). split; [|done].
    split; [split; [apply Hv|done]|]. eapply owns_perm; [|exact Ho']. cbn [self owned stdio_owner]. unfold stdio_owned. cbn.
    destruct Hv as [_ Hv]. rewrite (Hv Hz), Hz. unfold pollable_of, if_held. apply Z.eqb_neq in Hh as ->. cbn. solve_Permutation. }
  do 2 (apply wpw_if; intros _; [wpw_steps; (eapply wpw_use; [exact Ho|done..|intros y Hy; by apply elem_of_nil in Hy|]);
    intros h _ Ho'; apply owns_weaken in Ho'; cbn [creates app] in Ho'; destruct (Hset h _ (octx_env s) Ho') as [Hs Hh];
    wpw_steps; destruct (0 <? 0) eqn:E; [lia|]; wpw_steps; done|]).
  wpw_steps. destruct (-1 <? 0) eqn:E; [|lia]. wpw_steps. split; [by split|done].
Qed.

Lemma stdio_isatty_keeps : keeps stdio_isatty.
Proof.
  intros F s HF [Hv Ho]. unfold stdio_isatty. wpw_step. wpw_step. wpw_step. apply wpw_if; intros _; [|wpw_steps; by split].
  eapply wpw_use; [exact Ho|done..|intros y Hy; by apply elem_of_nil in Hy|]. intros [t|] _ Ho'; cbn [creates app] in Ho'; [|wpw_steps; by split].
  wpw_steps. eapply wpw_drop; [|exact Ho'|done..|]; [apply closed_app; [by apply stdio_closed|done]|].
  intros r Ho2. wpw_steps. by split.
Qed.

(** ** The stream of an object *)

(** [st] is the stream the object reads from; it writes to. *)
Definition reads (o : descriptor) (st : Z) : Prop :=
  match o with
  | DFile f => read_stream f = st /\ st <> 0
  | DStdio s => input s = st /\ st <> 0
  | DTcp t => exists c, tcp_state t = TCP_SOCKET_STATE_CONNECTED c /\ tcp_input c = st
  | DUdp _ => False
  end.

Definition writes (o : descriptor) (st : Z) : Prop :=
  match o with
  | DFile f => write_stream f = st /\ st <> 0
  | DStdio s => output s = st /\ st <> 0
  | DTcp t => exists c, tcp_state t = TCP_SOCKET_STATE_CONNECTED c /\ tcp_output c = st
  | DUdp _ => False
  end.

Lemma if_held_one h e : h <> 0 -> if_held h e = [e].
Proof. intros Hh. unfold if_held. by apply Z.eqb_neq in Hh as ->. Qed.

(** Its pollable can be exchanged without touching the rest. *)
Lemma reads_split o st :
  reads o st -> valid o -> exists rest, forall h, let o' := set_read_pollable h o in
    owned o' ≡ₚ pollable_of h (InputStream, st) ++ ((InputStream, st), plain) :: rest /\
    get_read_pollable o' = h /\ reads o' st /\ valid o'.
Proof.
  intros Hr Hv. destruct o as [f|s|t|u]; [| | |done].
  - destruct Hr as [Hr Hz]. exists (((Descriptor, file_handle f), plain) :: pollable_of (write_pollable f) (OutputStream, write_stream f) ++
      if_held (write_stream f) ((OutputStream, write_stream f), plain)). intros h. cbn [set_read_pollable]. split; [|split; [done|split; [done|]]].
    + cbn [owned descriptor_owner file_owner]. unfold file_owned. cbn. rewrite Hr, (if_held_one st) by done. solve_Permutation.
    + split; [cbn; congruence|apply Hv].
  - destruct Hr as [Hr Hz]. exists (pollable_of (output_pollable s) (OutputStream, output s) ++ if_held (output s) ((OutputStream, output s), plain)). intros h. cbn [set_read_pollable]. split; [|split; [done|split; [done|]]].
    + cbn [owned descriptor_owner stdio_owner]. unfold stdio_owned. cbn. rewrite Hr, (if_held_one st) by done. solve_Permutation.
    + split; [cbn; congruence|apply Hv].
  - destruct Hr as (c & Hc & Hr). exists (((TcpSocket, tcp_socket t), Info None (Some (family t)) false) :: pollable_of (socket_pollable t) (TcpSocket, tcp_socket t) ++
    pollable_of (tcp_output_pollable c) (OutputStream, tcp_output c) ++ [((OutputStream, tcp_output c), plain)]). intros h. cbn [set_read_pollable]. unfold set_input_pollable. rewrite Hc.
    split; [|split; [done|split; [by eexists|done]]].
    cbn [owned descriptor_owner tcp_owner]. unfold tcp_owned, is_listening. cbn. rewrite Hr. solve_Permutation.
Qed.

Lemma writes_split o st :
  writes o st -> valid o -> exists rest, forall h, let o' := set_write_pollable h o in
    owned o' ≡ₚ pollable_of h (OutputStream, st) ++ ((OutputStream, st), plain) :: rest /\
    get_write_pollable o' = h /\ writes o' st /\ valid o'.
Proof.
  intros Hr Hv. destruct o as [f|s|t|u]; [| | |done].
  - destruct Hr as [Hr Hz]. exists (((Descriptor, file_handle f), plain) :: pollable_of (read_pollable f) (InputStream, read_stream f) ++
      if_held (read_stream f) ((InputStream, read_stream f), plain)). intros h. cbn [set_write_pollable]. split; [|split; [done|split; [done|]]].
    + cbn [owned descriptor_owner file_owner]. unfold file_owned. cbn. rewrite Hr, (if_held_one st) by done. solve_Permutation.
    + split; [apply Hv|cbn; congruence].
  - destruct Hr as [Hr Hz]. exists (pollable_of (input_pollable s) (InputStream, input s) ++ if_held (input s) ((InputStream, input s), plain)). intros h. cbn [set_write_pollable]. split; [|split; [done|split; [done|]]].
    + cbn [owned descriptor_owner stdio_owner]. unfold stdio_owned. cbn. rewrite Hr, (if_held_one st) by done. solve_Permutation.
    + split; [apply Hv|cbn; congruence].
  - destruct Hr as (c & Hc & Hr). exists (((TcpSocket, tcp_socket t), Info None (Some (family t)) false) :: pollable_of (socket_pollable t) (TcpSocket, tcp_socket t) ++
    pollable_of (tcp_input_pollable c) (InputStream, tcp_input c) ++ [((InputStream, tcp_input c), plain)]). intros h. cbn [set_write_pollable]. unfold set_output_pollable. rewrite Hc.
    split; [|split; [done|split; [by eexists|done]]].
    cbn [owned descriptor_owner tcp_owner]. unfold tcp_owned, is_listening. cbn. rewrite Hr. solve_Permutation.
Qed.

Lemma set_read_pollable_eta o : set_read_pollable (get_read_pollable o) o = o.
Proof.
  destruct o as [[]|[]|[? [] ? ? ? ? ? ? ?]|]; cbn; try done. unfold set_input_pollable, input_pollable_of. cbn. by destruct connected.
Qed.

Lemma set_write_pollable_eta o : set_write_pollable (get_write_pollable o) o = o.
Proof.
  destruct o as [[]|[]|[? [] ? ? ? ? ? ? ?]|]; cbn; try done. unfold set_output_pollable, output_pollable_of. cbn. by destruct connected.
Qed.

Implicit Types s : octx descriptor.

(** The stream of the object is held, and its pollable is the one the object keeps. *)
Lemma reads_in s st : reads (self s) st -> valid (self s) -> ((InputStream, st), plain) ∈ owned (self s).
Proof.
  intros Hr Hv. destruct (reads_split _ _ Hr Hv) as [rest Hsp]. destruct (Hsp (get_read_pollable (self s))) as [Hp _].
  rewrite set_read_pollable_eta in Hp. rewrite Hp. in_tac.
Qed.

Lemma writes_in s st : writes (self s) st -> valid (self s) -> ((OutputStream, st), plain) ∈ owned (self s).
Proof.
  intros Hr Hv. destruct (writes_split _ _ Hr Hv) as [rest Hsp]. destruct (Hsp (get_write_pollable (self s))) as [Hp _].
  rewrite set_write_pollable_eta in Hp. rewrite Hp. in_tac.
Qed.

Lemma read_pollable_spec F st s (Q : unit -> octx descriptor -> Prop) :
  holds F s -> reads (self s) st ->
  (forall s', holds F s' -> reads (self s') st ->
     ((Pollable, get_read_pollable (self s')), child_of (InputStream, st)) ∈ owned (self s') ->
     (exists q, self s' = set_read_pollable q (self s)) -> Q tt s') ->
  wpw (if get_read_pollable (self s) =? 0 then h ← ask (streams_input_stream_subscribe st); update (set_read_pollable h) else mret tt) Q s.
Proof.
  intros [Hv Ho] Hr Hq. destruct (reads_split _ _ Hr Hv) as [rest Hsp]. pose proof (Hsp (get_read_pollable (self s))) as (Hp & _).
  rewrite set_read_pollable_eta in Hp. destruct (Z.eqb_spec (get_read_pollable (self s)) 0) as [Hz|Hz].
  - wpw_steps. eapply wpw_use; [exact Ho|done..|eapply key_held, elem_of_app; left; by apply reads_in|]. intros h _ Ho'. apply owns_weaken in Ho'.
    cbn [creates app] in Ho'. assert (h <> 0) as Hh by (eapply (owns_nonzero _ _ _ _ _ _ Ho'); in_tac).
    destruct (Hsp h) as (Hp' & Hg' & Hr' & Hv'). unfold pollable_of in Hp'. rewrite (if_held_one h) in Hp' by done.
    wpw_steps. apply Hq; [|done| |by eexists].
    + split; [done|]. eapply owns_perm, Ho'. cbn [self]. rewrite Hp', Hp, Hz. cbn. solve_Permutation.
    + cbn [self]. rewrite Hp', Hg'. in_tac.
  - wpw_steps. apply Hq; [by split|done| |exists (get_read_pollable (self s)); by rewrite set_read_pollable_eta]. rewrite Hp. unfold pollable_of. rewrite (if_held_one _ _ Hz). in_tac.
Qed.

Lemma write_pollable_spec F st s (Q : unit -> octx descriptor -> Prop) :
  holds F s -> writes (self s) st ->
  (forall s', holds F s' -> writes (self s') st ->
     ((Pollable, get_write_pollable (self s')), child_of (OutputStream, st)) ∈ owned (self s') ->
     (exists q, self s' = set_write_pollable q (self s)) -> Q tt s') ->
  wpw (if get_write_pollable (self s) =? 0 then h ← ask (streams_output_stream_subscribe st); update (set_write_pollable h) else mret tt) Q s.
Proof.
  intros [Hv Ho] Hr Hq. destruct (writes_split _ _ Hr Hv) as [rest Hsp]. pose proof (Hsp (get_write_pollable (self s))) as (Hp & _).
  rewrite set_write_pollable_eta in Hp. destruct (Z.eqb_spec (get_write_pollable (self s)) 0) as [Hz|Hz].
  - wpw_steps. eapply wpw_use; [exact Ho|done..|eapply key_held, elem_of_app; left; by apply writes_in|]. intros h _ Ho'. apply owns_weaken in Ho'.
    cbn [creates app] in Ho'. assert (h <> 0) as Hh by (eapply (owns_nonzero _ _ _ _ _ _ Ho'); in_tac).
    destruct (Hsp h) as (Hp' & Hg' & Hr' & Hv'). unfold pollable_of in Hp'. rewrite (if_held_one h) in Hp' by done.
    wpw_steps. apply Hq; [|done| |by eexists].
    + split; [done|]. eapply owns_perm, Ho'. cbn [self]. rewrite Hp', Hp, Hz. cbn. solve_Permutation.
    + cbn [self]. rewrite Hp', Hg'. in_tac.
  - wpw_steps. apply Hq; [by split|done| |exists (get_write_pollable (self s)); by rewrite set_write_pollable_eta]. rewrite Hp. unfold pollable_of. rewrite (if_held_one _ _ Hz). in_tac.
Qed.

(** The [wasi:io/error] of a failed operation is dropped after its code is read. *)
Lemma wpw_stream_errno X e P s (Q : unit -> octx descriptor -> Prop) :
  closed X -> owns (octx_log s) (((IoError, e), plain) :: X) P ->
  (forall v h, owns h X [] -> Q tt (Octx (self s) v h)) -> wpw (__wasilibc_set_stream_errno e) Q s.
Proof.
  intros HX Ho Hq. unfold __wasilibc_set_stream_errno. wpw_step. eapply wpw_use; [exact Ho|done..|use_tac|]. intros r Hr Ho1. cbn [creates app] in Ho1.
  assert (forall v, wpw (ask (io_error_drop_own e)) Q (Octx (self s) v (octx_log s ++ [Ev (filesystem_error_code e)]))) as Hd.
  { intros v. eapply wpw_drop; [exact HX|exact Ho1|done..|]. intros [] Ho2. by apply Hq. }
  apply wpw_bind. destruct r as [code|].
  - apply wpw_translate; [by eapply host_error_code; rewrite Hr|]. intros v. apply Hd.
  - apply Hd.
Qed.

Lemma closed_holds F s : closed F -> holds F s -> closed (owned (self s) ++ F).
Proof. intros HF [Hv _]. apply closed_app; [by apply descriptor_closed|done]. Qed.

Lemma read_loop_keeps fuel r len F s :
  (may_stall = false -> 0 <= len) -> enough_for (InputStream, io_stream r) fuel (octx_log s) -> closed F -> holds F s -> reads (self s) (io_stream r) ->
  wpw (read_loop fuel r len) (fun _ s' => holds F s') s.
Proof.
  intros Hlen Hf HF. revert s Hf. induction fuel as [|fuel IH]; intros s Hf Hs Hr; pose proof Hs as [Hv Ho].
  all: cbn [read_loop]; apply wpw_bind; eapply wpw_use; [exact Ho|done..|eapply key_held, elem_of_app; left; by apply reads_in|].
  all: intros [bytes|e] Hb Ho'.
  2, 4: destruct e as [|e]; apply wpw_bind; [wpw_steps; by split|]; cbn [creates stream_failure app] in Ho'; unfold wasip2_handle_read_error;
    apply wpw_bind; (eapply wpw_stream_errno; [by eapply closed_holds|exact Ho'|]); intros v h Ho2; wpw_steps; by split.
  all: apply wpw_if; intros Hlz; [wpw_steps; by split|]; apply wpw_if; intros Hbz; [wpw_steps; by split|];
    apply wpw_if; intros _; [wpw_steps; by split|]; wpw_step; wpw_step; wpw_step.
  all: eapply (read_pollable_spec F); [by split|exact Hr|]; intros s' Hs' Hr' Hin _; pose proof Hs' as [Hv' Ho'']; wpw_steps.
  all: eapply wpw_block_on; [by eapply closed_holds|exact Ho''|apply elem_of_app; left; exact Hin|].
  all: intros rc v h Ho2 Hw; destruct (Z.ltb_spec rc 0); [wpw_steps; by split|].
  - eapply wpw_fuel, Ho2. destruct may_stall eqn:E; [done|]. rewrite <- E.
    eapply (enough_stalled (streams_input_stream_read (io_stream r) len)); [exact Hf|done|]. rewrite Hb. cbn [stalled].
    apply Z.eqb_neq in Hlz. apply negb_false_iff, Z.eqb_eq in Hbz. specialize (Hlen eq_refl).
    destruct bytes; [|unfold strlen in Hbz; cbn in Hbz; lia]. rewrite andb_true_r. apply Z.ltb_lt. lia.
  - apply IH; [apply enough_settled; by apply Hw|by split|done].
Qed.

Lemma wpw_write_error X e s P (Q : Z -> octx descriptor -> Prop) :
  closed X -> owns (octx_log s) (stream_failure (inr e : unit + stream_error) ++ X) P ->
  (forall v h, owns h X [] -> Q (-1) (Octx (self s) v h)) -> wpw (wasip2_handle_write_error e) Q s.
Proof.
  intros HX Ho Hq. destruct e as [|e]; cbn [wasip2_handle_write_error stream_failure app] in *.
  - wpw_steps. apply Hq. by eapply owns_weaken.
  - wpw_steps. eapply wpw_stream_errno; [exact HX|exact Ho|]. intros v h Ho2. wpw_steps. by apply Hq.
Qed.

(** Writing what [check-write] permits. *)
Lemma wpw_write st bytes n X s (k : unit + stream_error -> M (octx descriptor) Z) Q :
  owns (octx_log s) X [((OutputStream, st), n)] -> ((OutputStream, st), plain) ∈ X -> strlen bytes <= n ->
  (forall r h, owns h (stream_failure r ++ X) [] -> wpw (k r) Q (Octx (self s) (octx_env s) h)) ->
  wpw (ask (streams_output_stream_write st bytes) ≫= k) Q s.
Proof.
  intros Ho Hin Hn Hk. apply wpw_bind. unfold ask, wpw at 1. cbn [history octx_logged log]. apply Hk.
  eapply (owns_use (streams_output_stream_write st bytes)); [exact Ho|done..| |done|done|by eapply key_held].
  exists n. split; [left|done].
Qed.

Lemma write_loop_keeps fuel w buffer F s :
  enough_for (OutputStream, io_stream w) fuel (octx_log s) -> closed F -> holds F s -> writes (self s) (io_stream w) ->
  wpw (write_loop fuel w buffer) (fun _ s' => holds F s') s.
Proof.
  intros Hf HF. revert s Hf. induction fuel as [|fuel IH]; intros s Hf Hs Hr; pose proof Hs as [Hv Ho]; pose proof (writes_in _ _ Hr Hv) as Hin.
  all: cbn [write_loop]; apply wpw_bind; eapply wpw_use; [exact Ho|done..|eapply key_held, elem_of_app; by left|].
  all: intros [n|e] Hn Ho'; cbn [creates] in Ho'.
  2, 4: eapply wpw_write_error; [by eapply closed_holds|exact Ho'|]; intros v h Ho2; by split.
  all: apply wpw_if; intros Hz.
  1, 3: apply host_check_write in Hn; cbn [stream_failure app] in Ho'; eapply wpw_write; [exact Ho'|apply elem_of_app; by left|unfold strlen; rewrite length_take; lia|];
    intros [u|e] h Ho1;
    [|eapply (wpw_write_error (owned (self s) ++ F)); [by eapply closed_holds|exact Ho1|]; intros v h' Ho2; split; [done|exact Ho2]];
    cbn [stream_failure app] in Ho1; (apply wpw_if; intros _; [|wpw_steps; by split]); apply wpw_bind;
    (eapply wpw_use; [exact Ho1|done..|eapply key_held, elem_of_app; by left|]); intros [u'|e] _ Ho2; cbn [creates] in Ho2;
    [wpw_steps; by split|]; (eapply wpw_write_error; [by eapply closed_holds|exact Ho2|]); intros v h' Ho3; by split.
  all: apply owns_weaken in Ho'; apply wpw_if; intros _; [wpw_steps; by split|]; wpw_step; wpw_step; wpw_step.
  all: eapply (write_pollable_spec F); [by split|exact Hr|]; intros s' Hs' Hr' Hin' _; pose proof Hs' as [Hv' Ho'']; wpw_steps.
  all: eapply wpw_block_on; [by eapply closed_holds|exact Ho''|apply elem_of_app; left; exact Hin'|].
  all: intros rc v h Ho2 Hw; destruct (Z.ltb_spec rc 0); [wpw_steps; by split|].
  - eapply wpw_fuel, Ho2. eapply (enough_stalled (streams_output_stream_check_write (io_stream w))); [exact Hf|done|].
    rewrite Hn. by apply negb_false_iff in Hz.
  - apply IH; [apply enough_settled; by apply Hw|by split|done].
Qed.

Lemma holds_advance F n s : holds F s -> holds F (Octx (advance_offset n (self s)) (octx_env s) (octx_log s)).
Proof. intros [Hv Ho]. by destruct s as [[] v h]. Qed.

Lemma __wasilibc_read_spec fuel r len F s :
  (may_stall = false -> 0 <= len) -> enough fuel -> closed F -> holds F s -> reads (self s) (io_stream r) -> wpw (__wasilibc_read fuel r len) (fun _ s' => holds F s') s.
Proof.
  intros Hlen Hf HF Hs Hr. unfold __wasilibc_read. wpw_steps. eapply wpw_mono; [apply read_loop_keeps; [done|by apply enough_start|done..]|]. intros a s' Hs'. cbv beta.
  wpw_step. destruct (_ && _); wpw_steps; [by apply holds_advance|done].
Qed.

Lemma __wasilibc_write_spec fuel w buffer F s :
  enough fuel -> closed F -> holds F s -> writes (self s) (io_stream w) -> wpw (__wasilibc_write fuel w buffer) (fun _ s' => holds F s') s.
Proof.
  intros Hf HF Hs Hr. unfold __wasilibc_write. assert (io_stream w <> 0) as Hz.
  { destruct Hs as [Hv Ho]. eapply owns_nonzero; [exact Ho|]. apply elem_of_app. left. by apply writes_in. }
  apply Z.eqb_neq in Hz. rewrite Hz. cbn [negb assert_]. wpw_steps. eapply wpw_mono; [apply write_loop_keeps; [by apply enough_start|done..]|].
  intros a s' Hs'. cbv beta. wpw_step. destruct (_ && _); wpw_steps; [by apply holds_advance|done].
Qed.
End io.
