(* ===== verification/ResourceWorld.v ===== *)
(** * Keeping to the rules of the host: the calls of the library

    The slots are lifted to the calls that go through the descriptor table:
    the handles the host has given out are at every moment exactly those named
    by the objects behind descriptors, and the network handle. *)

From S2P Require Import Prelude Errno Time Stat SockAddr Host DescTable DescTableInv DescTableSpec DescTableProps Object File.
From S2P Require Import Tcp Udp Vtable FdOps FdProps Sockets Resources ResourceInv ResourceObj ResourceTcp ResourceUdp ResourceIo.

(** ** Slots of any object *)

Section slots.
Context `{HostLaws} `{!ResourceLaws} `{Stalling} `{!Settles}.

(** What a slot does when it runs on its object. *)
Definition slot_keeps {A} (m : descriptor -> M (octx descriptor) A) : Prop :=
  forall F s, closed F -> ResourceObj.holds F s -> wpw (m (self s)) (fun _ s' => ResourceObj.holds F s') s.

Lemma keeps_object {T A} `{Owner T} wrap (t : T) (m : M (octx T) A) F s :
  (forall t', owned (wrap t') = owned t') -> (forall t', valid (wrap t') <-> valid t') ->
  self s = wrap t -> closed F -> ResourceObj.holds F s -> keeps m -> wpw (as_object wrap t m) (fun _ s' => ResourceObj.holds F s') s.
Proof.
  intros Ho Hv Hs HF Hh Hm. eapply wpw_mono; [apply (keeps_as_object wrap t m F s (fun _ _ => True)); try done|by intros ? ? [? _]].
  intros Hh'. eapply wpw_mono; [by apply Hm|done].
Qed.

Lemma keeps_gets {T} `{Owner T} {A} (f : octx T -> A) : keeps (gets f).
Proof. by intros F s HF Hs. Qed.
Lemma keeps_ret {T} `{Owner T} {A} (a : A) : keeps (mret a : M (octx T) A).
Proof. by intros F s HF Hs. Qed.
Lemma keeps_fail {T} `{Owner T} {A} e (a : A) : keeps (fail_with e a : M (octx T) A).
Proof. by intros F s HF Hs. Qed.
Lemma keeps_bind {T} `{Owner T} {A B} (m : M (octx T) A) (f : A -> M (octx T) B) : keeps m -> (forall a, keeps (f a)) -> keeps (m ≫= f).
Proof. intros Hm Hf F s HF Hs. apply wpw_bind. eapply wpw_mono; [by apply Hm|]. intros a s' Hs'. by apply Hf. Qed.
Lemma keeps_update {T} `{Owner T} (f : T -> T) :
  (forall t, owned (f t) = owned t) -> (forall t, valid t -> valid (f t)) -> keeps (update f).
Proof. intros Ho Hv F s HF [Hvs Hos]. apply wpw_update. split; cbn [self octx_log]; [by apply Hv|by rewrite Ho]. Qed.

Lemma get_read_stream_gives F s o :
  closed F -> ResourceObj.holds F s -> self s = o ->
  wpw (get_read_stream o) (fun r s' => ResourceObj.holds F s' /\
    match snd r with Some io => reads (self s') (io_stream io) | None => True end) s.
Proof.
  intros HF Hs Es. set (Q := fun (r : Z * option wasi_io) o' => match snd r with Some io => reads o' (io_stream io) | None => True end).
  enough (wpw (get_read_stream o) (fun r s' => ResourceObj.holds F s' /\ exists o', self s' = o' /\ Q r o') s) as Hw.
  { eapply wpw_mono; [exact Hw|]. by intros r s' [Hs' (o' & <- & HQ)]. }
  destruct o as [f|st|t|u]; cbn [get_read_stream].
  - eapply wpw_mono; [apply (keeps_as_object DFile f _ F s (fun r f' => Q r (DFile f'))); try done|].
    2: { intros r s' [Hs' (f' & Hf & Hr)]. split; [done|]. by eexists. }
    intros Hh. eapply wpw_mono; [by apply file_get_read_stream_spec|]. intros [rc [io|]] s' [Hs' Hr]; cbn [snd] in *; [|done].
    destruct Hr as [Hr Hz]. split; [done|]. cbn. by rewrite Hr.
  - eapply wpw_mono; [apply (keeps_as_object DStdio st _ F s (fun r f' => Q r (DStdio f'))); try done|].
    2: { intros r s' [Hs' (f' & Hf & Hr)]. split; [done|]. by eexists. }
    intros Hh. eapply wpw_mono; [by apply stdio_get_read_stream_spec|]. intros [rc [io|]] s' [Hs' Hr]; cbn [snd] in *; [|done].
    destruct Hr as [Hr Hz]. split; [done|]. cbn. by rewrite Hr.
  - eapply wpw_mono; [apply (keeps_as_object DTcp t _ F s (fun r f' => Q r (DTcp f'))); try done|].
    2: { intros r s' [Hs' (f' & Hf & Hr)]. split; [done|]. by eexists. }
    intros Hh. unfold tcp_get_read_stream. wpw_steps. cbn [self]. destruct (tcp_state t) eqn:Et; wpw_steps; try done.
    split; [done|]. cbn. by eexists.
  - wpw_steps. split; [done|]. by eexists.
Qed.

Lemma get_write_stream_gives F s o :
  closed F -> ResourceObj.holds F s -> self s = o ->
  wpw (get_write_stream o) (fun r s' => ResourceObj.holds F s' /\
    match snd r with Some io => writes (self s') (io_stream io) | None => True end) s.
Proof.
  intros HF Hs Es. set (Q := fun (r : Z * option wasi_io) o' => match snd r with Some io => writes o' (io_stream io) | None => True end).
  enough (wpw (get_write_stream o) (fun r s' => ResourceObj.holds F s' /\ exists o', self s' = o' /\ Q r o') s) as Hw.
  { eapply wpw_mono; [exact Hw|]. by intros r s' [Hs' (o' & <- & HQ)]. }
  destruct o as [f|st|t|u]; cbn [get_write_stream].
  - eapply wpw_mono; [apply (keeps_as_object DFile f _ F s (fun r f' => Q r (DFile f'))); try done|].
    2: { intros r s' [Hs' (f' & Hf & Hr)]. split; [done|]. by eexists. }
    intros Hh. eapply wpw_mono; [by apply file_get_write_stream_spec|]. intros [rc [io|]] s' [Hs' Hr]; cbn [snd] in *; [|done].
    destruct Hr as [Hr Hz]. split; [done|]. cbn. by rewrite Hr.
  - eapply wpw_mono; [apply (keeps_as_object DStdio st _ F s (fun r f' => Q r (DStdio f'))); try done|].
    2: { intros r s' [Hs' (f' & Hf & Hr)]. split; [done|]. by eexists. }
    intros Hh. eapply wpw_mono; [by apply stdio_get_write_stream_spec|]. intros [rc [io|]] s' [Hs' Hr]; cbn [snd] in *; [|done].
    destruct Hr as [Hr Hz]. split; [done|]. cbn. by rewrite Hr.
  - eapply wpw_mono; [apply (keeps_as_object DTcp t _ F s (fun r f' => Q r (DTcp f'))); try done|].
    2: { intros r s' [Hs' (f' & Hf & Hr)]. split; [done|]. by eexists. }
    intros Hh. unfold tcp_get_write_stream. wpw_steps. cbn [self]. destruct (tcp_state t) eqn:Et; wpw_steps; try done.
    split; [done|]. cbn. by eexists.
  - wpw_steps. split; [done|]. by eexists.
Qed.

Lemma dont_wait_stream flags io : io_stream (dont_wait flags io) = io_stream io.
Proof. unfold dont_wait. by destruct (has _ _). Qed.

Lemma keeps_tcp {A} t (m : M (octx tcp_socket_t) A) F s :
  self s = DTcp t -> closed F -> ResourceObj.holds F s -> keeps m -> wpw (as_tcp t m) (fun _ s' => ResourceObj.holds F s') s.
Proof. intros. by eapply keeps_object. Qed.
Lemma keeps_udp {A} u (m : M (octx udp_socket_t) A) F s :
  self s = DUdp u -> closed F -> ResourceObj.holds F s -> keeps m -> wpw (as_udp u m) (fun _ s' => ResourceObj.holds F s') s.
Proof. intros. by eapply keeps_object. Qed.
Lemma keeps_file {A} f (m : M (octx file_t) A) F s :
  self s = DFile f -> closed F -> ResourceObj.holds F s -> keeps m -> wpw (as_file f m) (fun _ s' => ResourceObj.holds F s') s.
Proof. intros. by eapply keeps_object. Qed.
Lemma keeps_stdio {A} f (m : M (octx stdio_t) A) F s :
  self s = DStdio f -> closed F -> ResourceObj.holds F s -> keeps m -> wpw (as_stdio f m) (fun _ s' => ResourceObj.holds F s') s.
Proof. intros. by eapply keeps_object. Qed.

Lemma read_object_keeps fuel n : (may_stall = false -> 0 <= n) -> enough fuel -> slot_keeps (read_object fuel n).
Proof.
  intros Hn Hf F s HF Hs. assert (wpw (r ← get_read_stream (self s);
      match snd r with None => mret (-1, []) | Some io => __wasilibc_read fuel io n end) (fun _ s' => ResourceObj.holds F s') s) as Hw.
  { wpw_steps. eapply wpw_mono; [by apply get_read_stream_gives|]. intros [rc [io|]] s' [Hs' Hr]; cbn [snd] in *; [|by wpw_steps].
    by apply __wasilibc_read_spec. }
  unfold read_object. destruct (self s) as [f|st|t|u] eqn:Es; [exact Hw..|].
  apply keeps_udp; [done..|]. apply keeps_bind; [by apply udp_recvfrom_keeps|]. intros r. apply keeps_ret.
Qed.

Lemma write_object_keeps fuel buf : enough fuel -> slot_keeps (write_object fuel buf).
Proof.
  intros Hf F s HF Hs. assert (wpw (r ← get_write_stream (self s);
      match snd r with None => mret (-1) | Some io => __wasilibc_write fuel io buf end) (fun _ s' => ResourceObj.holds F s') s) as Hw.
  { wpw_steps. eapply wpw_mono; [by apply get_write_stream_gives|]. intros [rc [io|]] s' [Hs' Hr]; cbn [snd] in *; [|by wpw_steps].
    by apply __wasilibc_write_spec. }
  unfold write_object. destruct (self s) as [f|st|t|u] eqn:Es; [exact Hw..|].
  apply keeps_udp; [done..|]. by apply udp_sendto_keeps.
Qed.

Lemma tcp_recvfrom_keeps fuel len flags addrlen F s t :
  (may_stall = false -> 0 <= len) -> enough fuel -> closed F -> ResourceObj.holds F s -> self s = DTcp t -> wpw (tcp_recvfrom fuel len flags addrlen t) (fun _ s' => ResourceObj.holds F s') s.
Proof.
  intros Hn Hf HF Hs Es. unfold tcp_recvfrom. apply wpw_if; intros _; [by wpw_steps|]. cbv zeta. wpw_steps.
  eapply wpw_mono; [by apply (get_read_stream_gives F s (DTcp t))|]. intros [rc [io|]] s' [Hs' Hr]; cbn [snd] in *; [|by wpw_steps].
  wpw_steps. eapply wpw_mono; [apply __wasilibc_read_spec; [exact Hn|exact Hf|exact HF|exact Hs'|by rewrite dont_wait_stream]|]. intros r s2 Hs2. by wpw_steps.
Qed.

Lemma tcp_sendto_keeps fuel buffer flags F s t :
  enough fuel -> closed F -> ResourceObj.holds F s -> self s = DTcp t -> wpw (tcp_sendto fuel buffer flags t) (fun _ s' => ResourceObj.holds F s') s.
Proof.
  intros Hf HF Hs Es. unfold tcp_sendto. apply wpw_if; intros _; [by wpw_steps|]. wpw_steps.
  eapply wpw_mono; [by apply (get_write_stream_gives F s (DTcp t))|]. intros [rc [io|]] s' [Hs' Hr]; cbn [snd] in *; [|by wpw_steps].
  apply __wasilibc_write_spec; [done..|by rewrite dont_wait_stream].
Qed.

Lemma vt_fstat_keeps : slot_keeps vt_fstat.
Proof.
  intros F s HF Hs. unfold vt_fstat. destruct (self s) eqn:Es.
  - apply keeps_file; [done..|apply file_fstat_keeps].
  - apply keeps_stdio; [done..|apply keeps_ret].
  - apply keeps_tcp; [done..|apply keeps_ret].
  - apply keeps_udp; [done..|apply keeps_ret].
Qed.

Lemma vt_fcntl_getfl_keeps : slot_keeps vt_fcntl_getfl.
Proof.
  intros F s HF Hs. unfold vt_fcntl_getfl. destruct (self s) eqn:Es.
  - apply keeps_file; [done..|apply file_fcntl_getfl_keeps].
  - apply keeps_stdio; [done..|]. apply keeps_bind; [apply keeps_gets|intros; apply keeps_ret].
  - apply keeps_tcp; [done..|]. apply keeps_bind; [apply keeps_gets|intros; apply keeps_ret].
  - apply keeps_udp; [done..|]. apply keeps_bind; [apply keeps_gets|intros; apply keeps_ret].
Qed.

Lemma vt_fcntl_setfl_keeps flags : slot_keeps (fun o => vt_fcntl_setfl o flags).
Proof.
  intros F s HF Hs. unfold vt_fcntl_setfl. destruct (self s) eqn:Es.
  - apply keeps_file; [done..|]. apply keeps_bind; [by apply keeps_update|intros; apply keeps_ret].
  - apply keeps_stdio; [done..|]. apply keeps_bind; [by apply keeps_update|intros; apply keeps_ret].
  - apply keeps_tcp; [done..|]. apply keeps_bind; [by apply keeps_update|intros; apply keeps_ret].
  - apply keeps_udp; [done..|]. apply keeps_bind; [by apply keeps_update|intros; apply keeps_ret].
Qed.

Lemma vt_set_blocking_keeps b : slot_keeps (fun o => vt_set_blocking o b).
Proof.
  intros F s HF Hs. unfold vt_set_blocking. destruct (self s) eqn:Es; [apply keeps_file|apply keeps_stdio|apply keeps_tcp|apply keeps_udp]; try done;
    (apply keeps_bind; [by apply keeps_update|intros; apply keeps_ret]).
Qed.
End slots.

(** ** The handles of all objects *)

Definition owned_all (b : gmap nat descriptor) : list entry := map_to_list b ≫= fun p => owned (snd p).

Lemma owned_all_insert b l o : b !! l = None -> owned_all (<[l := o]> b) ≡ₚ owned o ++ owned_all b.
Proof. intros Hl. unfold owned_all. by rewrite map_to_list_insert by done. Qed.

Lemma owned_all_delete b l o : b !! l = Some o -> owned_all b ≡ₚ owned o ++ owned_all (delete l b).
Proof. intros Hl. rewrite <- (insert_delete_id b l o Hl) at 1. apply owned_all_insert, lookup_delete_eq. Qed.

Lemma owned_all_replace b l o o' : b !! l = Some o -> owned_all (<[l := o']> b) ≡ₚ owned o' ++ owned_all (delete l b).
Proof. intros Hl. rewrite <- insert_delete_eq. apply owned_all_insert, lookup_delete_eq. Qed.

Lemma closed_all b : map_Forall (fun _ o => valid o) b -> closed (owned_all b).
Proof.
  induction b as [|l o b Hl IH] using map_ind; [intros _ e x He; by apply elem_of_nil in He|].
  intros Hv. apply map_Forall_insert in Hv as [Hv1 Hv2]; [|done]. intros e x He Hp. rewrite owned_all_insert in He by done.
  unfold keys. rewrite owned_all_insert by done. revert e x He Hp. apply closed_app; [by apply descriptor_closed|by apply IH].
Qed.

Section world.
Context `{HostLaws} `{!ResourceLaws} `{Stalling} `{!Settles}.
Implicit Types s : world.

(** The host has given out exactly the handles the objects name, and [F]. *)
Definition accounted (F : list entry) s : Prop :=
  map_Forall (fun _ o => valid o) (bodies s) /\ (forall l, (brk s <= l)%nat -> bodies s !! l = None) /\
  owns (calls s) (owned_all (bodies s) ++ F) [].

(** Whatever [m] does, the accounts stay right. *)
Definition tallies {A} (m : M world A) : Prop :=
  forall F s, closed F -> accounted F s -> match m s with Done _ s' => accounted F s' | Stop _ _ => True end.

Lemma tallies_bind {A B} (m : M world A) (f : A -> M world B) : tallies m -> (forall a, tallies (f a)) -> tallies (m ≫= f).
Proof.
  intros Hm Hf F s HF Hs. specialize (Hm F s HF Hs). unfold mbind, M_bind. destruct (m s) as [a s'|]; [|done]. by apply Hf.
Qed.

(** Code that touches neither objects nor handles. *)
Definition same_objects {A} (m : M world A) : Prop :=
  forall s, match m s with Done _ s' => bodies s' = bodies s /\ calls s' = calls s /\ brk s' = brk s | Stop _ _ => True end.

Lemma tallies_same {A} (m : M world A) : same_objects m -> tallies m.
Proof. intros Hm F s HF Hs. specialize (Hm s). destruct (m s) as [a s'|]; [|done]. destruct Hm as (Hb & Hc & Hk). unfold accounted. by rewrite Hb, Hc, Hk. Qed.

Lemma same_bind {A B} (m : M world A) (f : A -> M world B) : same_objects m -> (forall a, same_objects (f a)) -> same_objects (m ≫= f).
Proof.
  intros Hm Hf s. specialize (Hm s). unfold mbind, M_bind. destruct (m s) as [a s'|]; [|done]. specialize (Hf a s').
  destruct (f a s'); [|done]. destruct Hf as (-> & -> & ->). exact Hm.
Qed.

Lemma same_ret {A} (a : A) : same_objects (mret a).
Proof. done. Qed.
Lemma same_gets {A} (f : world -> A) : same_objects (gets f).
Proof. done. Qed.
Lemma same_get : same_objects get.
Proof. done. Qed.
Lemma same_halt {A} r : same_objects (halt r : M world A).
Proof. done. Qed.
Lemma same_fail {A} e (a : A) : same_objects (fail_with e a).
Proof. done. Qed.
Lemma same_assert b : same_objects (assert_ b).
Proof. by destruct b. Qed.
Lemma same_deref {A} (o : option A) : same_objects (deref o).
Proof. by destruct o. Qed.
Lemma same_alloc : same_objects alloc_ok.
Proof. intros s. destruct (alloc_ok_table s) as (b & v & -> & _). done. Qed.
Lemma same_modify f : (forall s, bodies (f s) = bodies s /\ calls (f s) = calls s /\ brk (f s) = brk s) -> same_objects (modify f).
Proof. intros Hf s. apply Hf. Qed.
End world.

Ltac same_step :=
  match goal with
  | |- same_objects (_ ≫= _) => apply same_bind; [|intros ?]
  | |- same_objects (if ?b then _ else _) => destruct b
  | |- same_objects (match ?x with _ => _ end) => destruct x
  | |- same_objects (modify _) => apply same_modify; intros ?; repeat case_match; done
  | |- same_objects (assert_ _) => apply same_assert
  | |- same_objects (deref _) => apply same_deref
  | |- same_objects alloc_ok => apply same_alloc
  | |- same_objects _ => done
  end.
Ltac same_tac := repeat same_step.

Section table.
Context `{HostLaws} `{!ResourceLaws} `{Stalling} `{!Settles}.
Implicit Types s : world.

Lemma load_heap e s : match load e s with Done o s' => s' = s /\ heap s !! e = Some o | Stop _ _ => True end.
Proof. unfold load, mbind, M_bind, gets, deref. by destruct (heap s !! e) as [o|] eqn:E. Qed.

Lemma same_load e : same_objects (load e : M world _).
Proof. unfold load. same_tac. Qed.

Lemma load_then {A} e (k : object descriptor -> M world A) s (Q : outcome world A -> Prop) :
  (forall r s', Q (Stop r s')) -> (forall o, heap s !! e = Some o -> Q (k o s)) -> Q ((load e ≫= k) s).
Proof.
  intros Hr Hk. pose proof (load_heap e s) as Hl. unfold mbind, M_bind. destruct (load e s) as [o s'|]; [|done].
  destruct Hl as [-> Ho]. by apply Hk.
Qed.

Lemma same_count e f : same_objects (o ← load e; assert_ (0 <? cnt o) ;; store e (Object (f o) (body o)) : M world unit).
Proof.
  intros s. apply (load_then e _ s (fun r => match r with Done _ s' => bodies s' = bodies s /\ calls s' = calls s /\ brk s' = brk s | Stop _ _ => True end)); [done|].
  intros o Ho. unfold mbind, M_bind, assert_. destruct (0 <? cnt o); [|done]. cbn. unfold bodies. cbn. by rewrite bodies_insert.
Qed.

Lemma same_entry_inc e : same_objects (descriptor_table_entry_inc e : M world unit).
Proof. apply (same_count e (fun o => u32 (cnt o + 1))). Qed.

(** Freeing an object gives its handles back. *)
Lemma accounted_free F s e o :
  closed F -> accounted F s -> heap s !! e = Some o ->
  accounted F (set_heap (delete e (heap s)) (set_calls (calls s ++ (vtable_free (body o) (dt_env s)).1) s)).
Proof.
  intros HF (Hv & Hk & Ho) He. assert (bodies s !! e = Some (body o)) as Hb by (unfold bodies; by rewrite lookup_fmap, He).
  unfold accounted. replace (bodies _) with (delete e (bodies s)) by (unfold bodies; cbn; by rewrite fmap_delete). cbn [brk calls set_heap set_calls].
  split; [by apply map_Forall_delete|]. split; [intros l Hl; rewrite lookup_delete_None; right; by apply Hk|].
  eapply (gives_back_owns _ (owned (body o)) (owned_all (delete e (bodies s)) ++ F)).
  - destruct (body o); [apply file_free_gives_back|apply stdio_free_gives_back|apply tcp_free_gives_back|apply udp_free_gives_back].
  - apply closed_app; [|done]. apply closed_all. by apply map_Forall_delete.
  - eapply owns_perm, Ho. rewrite (owned_all_delete (bodies s) e (body o) Hb). solve_Permutation.
Qed.

Lemma tallies_entry_dec e : tallies (descriptor_table_entry_dec e : M world unit).
Proof.
  intros F s HF Hs. unfold descriptor_table_entry_dec.
  apply (load_then e _ s (fun r => match r with Done _ s' => accounted F s' | Stop _ _ => True end)); [done|]. intros o Ho.
  unfold mbind at 1, M_bind, assert_. destruct (0 <? cnt o); [|done]. cbn [mret M_ret].
  unfold mbind at 1, M_bind, store, modify. set (s1 := set_heap _ s).
  assert (heap s1 !! e = Some (Object (cnt o - 1) (body o))) as H1e by (apply lookup_insert_eq).
  assert (accounted F s1) as Hs1 by (unfold accounted, s1, bodies; cbn; rewrite bodies_insert by done; exact Hs).
  destruct (_ =? 0); [|done]. unfold __wasilibc_descriptor_deallocate.
  apply (load_then e _ s1 (fun r => match r with Done _ s' => accounted F s' | Stop _ _ => True end)); [done|].
  intros o' Ho'. rewrite H1e in Ho'. injection Ho' as <-. unfold mbind, M_bind, assert_. cbn [cnt body]. destruct (_ =? 0); [|done].
  pose proof (accounted_free F s1 e _ HF Hs1 H1e) as Hf. cbn [body] in Hf. destruct (vtable_free (body o) (dt_env s1)) as [ops v] eqn:Ev.
  cbn [fst] in Hf. assert (tallies (set_errno (errno s1) ;; live_descriptors_dec : M world unit)) as Ht.
  { apply tallies_same. unfold set_errno, live_descriptors_dec. same_tac. }
  specialize (Ht F (set_heap (delete e (heap s1)) (set_calls (calls s1 ++ ops) (set_env v s1))) HF Hf).
  unfold gets at 1, modify at 1. cbn [mret M_ret]. cbv beta. rewrite Ev. exact Ht.
Qed.

(** A new object takes over the handles it was made from. *)
Lemma accounted_new F s o :
  accounted (owned o ++ F) s -> valid o -> exists s', new_object o s = Done (brk s) s' /\ accounted F s'.
Proof.
  intros (Hv & Hk & Ho) Hvo. eexists. split; [reflexivity|]. unfold accounted, bodies. cbn. rewrite fmap_insert. fold (bodies s). cbn.
  assert (bodies s !! brk s = None) as Hn by (apply Hk; lia).
  split; [by apply map_Forall_insert_2|]. split.
  - intros l Hl. rewrite lookup_insert_ne by lia. apply Hk. lia.
  - eapply owns_perm, Ho. rewrite owned_all_insert by done. solve_Permutation.
Qed.

Lemma same_double fuel n k : same_objects (double_until fuel n k : M world Z).
Proof. revert n. induction fuel as [|fuel IH]; intros n; cbn [double_until]; same_tac. Qed.

Lemma same_grow n : same_objects (table_grow n : M world Z).
Proof. unfold table_grow. same_tac. apply same_double. Qed.

Lemma same_slot i : same_objects (slot i : M world _).
Proof. unfold slot. same_tac. Qed.

Lemma same_skip fuel fd : same_objects (skip_occupied fuel fd : M world Z).
Proof. revert fd. induction fuel as [|fuel IH]; intros fd; cbn [skip_occupied]; same_tac; apply same_slot. Qed.

Lemma same_allocate e : same_objects (table_allocate e : M world Z).
Proof. unfold table_allocate, set_slot. same_tac; [apply same_skip|apply same_grow|apply same_slot]. Qed.

(** The first reference to a new object. *)
Lemma same_adopt e : same_objects (o ← load e; assert_ (cnt o =? 0) ;; store e (Object 1 (body o)) ;; live_descriptors_inc : M world unit).
Proof.
  intros s. apply (load_then e _ s (fun r => match r with Done _ s' => bodies s' = bodies s /\ calls s' = calls s /\ brk s' = brk s | Stop _ _ => True end)); [done|].
  intros o Ho. unfold mbind, M_bind, assert_. destruct (cnt o =? 0); [|done]. cbn. unfold bodies. cbn. by rewrite bodies_insert.
Qed.

Lemma same_lookup fd : same_objects (table_lookup fd : M world _).
Proof. unfold table_lookup. same_tac. apply same_slot. Qed.
End table.

(** What holds of code that touches no object, of giving back a reference and
    of making the objects of the standard streams, and is kept by sequencing,
    holds of the operations of the table. *)
Class Judgement `{Host} (J : forall A, M world A -> Prop) : Prop := {
  judge_ext A (m m' : M world A) : (forall s, m s = m' s) -> J A m -> J A m';
  judge_same A (m : M world A) : same_objects m -> J A m;
  judge_bind A B (m : M world A) (f : A -> M world B) : J A m -> (forall a, J B (f a)) -> J B (m ≫= f);
  judge_dec e : J unit (descriptor_table_entry_dec e);
  judge_stdio A n (k : loc -> M world A) : (forall e, J A (k e)) -> J A (new_object (stdio_new n : descriptor) ≫= k);
}.

Section judgement.
Context `{Host} (K : forall A, M world A -> Prop) `{!Judgement K}.
#[local] Notation J := (K _).

Lemma judge_if {A} (b : bool) (m1 m2 : M world A) : J m1 -> J m2 -> J (if b then m1 else m2).
Proof. by destruct b. Qed.

Lemma judge_insert_entry e : J (descriptor_table_insert_entry e : M world Z).
Proof.
  unfold descriptor_table_insert_entry. apply judge_bind; [apply judge_same, same_load|]. intros o.
  apply judge_bind; [apply judge_same, same_assert|]. intros _. apply judge_bind; [apply judge_same, same_allocate|]. intros fd.
  apply judge_if; [|by apply judge_same]. apply judge_bind; [apply judge_dec|]. intros _. by apply judge_same.
Qed.

Lemma judge_insert_with init e : J init -> J (insert_with init e : M world Z).
Proof.
  intros Hi. set (rest := b ← gets stdio_initialized; rc ← (if (b : bool) then mret 0 else init);
    if rc <? 0 then descriptor_table_entry_dec e ;; mret (-1) else descriptor_table_insert_entry e : M world Z).
  assert (J rest) as Hr.
  { unfold rest. apply judge_bind; [by apply judge_same|]. intros b. apply judge_bind; [apply judge_if; [by apply judge_same|done]|].
    intros rc. apply judge_if; [|apply judge_insert_entry]. apply judge_bind; [apply judge_dec|]. intros _. by apply judge_same. }
  eapply judge_ext; [|exact (judge_bind _ _ _ (fun _ => rest) (judge_same _ _ (same_adopt e)) (fun _ => Hr))].
  intros s. unfold insert_with. fold rest. unfold mbind, M_bind.
  destruct (load e s) as [o s1|]; [|done]. by destruct (assert_ (cnt o =? 0) s1).
Qed.

Lemma judge_stdio_add insert n : (forall e, J (insert e)) -> J (stdio_add insert n : M world Z).
Proof.
  intros Hi. unfold stdio_add. apply judge_bind; [apply judge_same, same_alloc|]. intros ok. apply judge_if; [by apply judge_same|].
  by apply judge_stdio.
Qed.

Lemma judge_init_stdio : J (init_stdio : M world Z).
Proof.
  unfold init_stdio, __wasilibc_init_stdio. apply judge_bind; [apply judge_same; same_tac|]. intros _.
  assert (forall n, J (stdio_add (insert_with (halt Fuel)) n : M world Z)) as Ha.
  { intros n. apply judge_stdio_add. intros e. apply judge_insert_with. by apply judge_same. }
  do 3 (apply judge_bind; [apply Ha|intros ?]; apply judge_if; [by apply judge_same|]). by apply judge_same.
Qed.

Lemma judge_insert e : J (descriptor_table_insert e : M world Z).
Proof. apply judge_insert_with, judge_init_stdio. Qed.

Lemma judge_with_stdio {A} (bad : A) (rest : M world A) : J rest -> J (with_stdio bad rest).
Proof.
  intros Hr. unfold with_stdio. apply judge_bind; [by apply judge_same|]. intros b.
  apply judge_bind; [apply judge_if; [by apply judge_same|apply judge_init_stdio]|]. intros rc. apply judge_if; [by apply judge_same|done].
Qed.

Lemma judge_get fd : J (descriptor_table_get fd : M world _).
Proof. apply judge_with_stdio, judge_same. same_tac; [apply same_lookup|apply same_entry_inc]. Qed.
End judgement.

Section tallies.
Context `{HostLaws} `{!ResourceLaws} `{Stalling} `{!Settles}.
Implicit Types s : world.

Lemma stdio_new_owned n : owned (stdio_new n : descriptor) = [] /\ valid (stdio_new n : descriptor).
Proof. done. Qed.

#[export] Instance tallies_judgement : Judgement (@tallies _).
Proof.
  split.
  - intros A m m' He Hm F s. rewrite <- He. apply Hm.
  - intros A. apply tallies_same.
  - intros A B. apply tallies_bind.
  - apply tallies_entry_dec.
  - intros A n k Hk F s HF Hs. destruct (stdio_new_owned n) as [Ho Hv]. destruct (accounted_new F s (stdio_new n)) as (s' & Hn & Hs'); [by rewrite Ho|done|].
    rewrite (bind_done _ _ _ _ _ Hn). by apply Hk.
Qed.

Lemma tallies_if {A} (b : bool) (m1 m2 : M world A) : tallies m1 -> tallies m2 -> tallies (if b then m1 else m2).
Proof. by destruct b. Qed.
Lemma tallies_insert_entry e : tallies (descriptor_table_insert_entry e : M world Z).
Proof. apply (judge_insert_entry (@tallies _)). Qed.
Lemma tallies_insert e : tallies (descriptor_table_insert e : M world Z).
Proof. apply (judge_insert (@tallies _)). Qed.
Lemma tallies_with_stdio {A} (bad : A) (rest : M world A) : tallies rest -> tallies (with_stdio bad rest).
Proof. apply (judge_with_stdio (@tallies _)). Qed.
Lemma tallies_get fd : tallies (descriptor_table_get fd : M world _).
Proof. apply (judge_get (@tallies _)). Qed.

Lemma tallies_remove fd : tallies (descriptor_table_remove fd : M world Z).
Proof.
  apply tallies_with_stdio, tallies_bind; [apply tallies_same; unfold table_remove, set_slot; same_tac; apply same_slot|].
  intros [rc e]. apply tallies_if; [by apply tallies_same|]. apply tallies_bind; [apply tallies_entry_dec|]. intros _. by apply tallies_same.
Qed.

Lemma tallies_dup3 fd e arg : tallies (dup3_case fd e arg : M world Z).
Proof.
  unfold dup3_case, set_slot. do 2 (apply tallies_if; [by apply tallies_same|]). apply tallies_bind; [apply tallies_same, same_grow|]. intros rc.
  apply tallies_if; [by apply tallies_same|]. apply tallies_bind; [apply tallies_same, same_slot|]. intros it.
  apply tallies_bind; [apply tallies_same, same_entry_inc|]. intros _. apply tallies_bind; [|intros _; by apply tallies_same].
  apply tallies_if; [|apply tallies_same; same_tac]. apply tallies_bind; [apply tallies_same; same_tac|]. intros _. apply tallies_entry_dec.
Qed.

Lemma tallies_dup fd op arg : tallies (descriptor_table_dup fd op arg : M world Z).
Proof.
  apply tallies_with_stdio, tallies_bind; [apply tallies_same, same_lookup|]. intros [e|]; [|by apply tallies_same]. destruct op.
  - apply tallies_bind; [apply tallies_same, same_entry_inc|]. intros _. apply tallies_insert_entry.
  - apply tallies_if; [by apply tallies_same|apply tallies_dup3].
  - apply tallies_dup3.
  - apply tallies_same. unfold dupfd_case, set_slot. same_tac; first [apply same_skip|apply same_grow|apply same_entry_inc|apply same_slot].
Qed.

(** Running a slot of an object, which uses up the handles [P] and leaves
    [G a] for its caller. *)
Lemma on_object_accounts {A} e o (m : descriptor -> M (octx descriptor) A) P (G : A -> list entry) (R : A -> octx descriptor -> Prop) F s :
  closed F -> heap s !! e = Some o -> accounted (P ++ F) s ->
  (forall F', let c := Octx (body o) (dt_env s) (calls s) in closed F' -> ResourceObj.holds (P ++ F') c ->
     wpw (m (body o)) (fun a c' => ResourceObj.holds (G a ++ F') c' /\ R a c') c) ->
  match on_object e m s with
  | Done a s' => accounted (G a ++ F) s' /\ exists c, s' = after e o c s /\ R a c
  | Stop r s' => excused r (calls s')
  end.
Proof.
  intros HF He (Hv & Hk & Ho) Hm. unfold on_object. rewrite (bind_done _ _ _ _ _ (load_spec s e o He)).
  rewrite (bind_done get _ s s s) by done. assert (bodies s !! e = Some (body o)) as Hb by (unfold bodies; by rewrite lookup_fmap, He).
  assert (map_Forall (fun _ o => valid o) (delete e (bodies s))) as Hvd by (by apply map_Forall_delete).
  pose proof (Hm (owned_all (delete e (bodies s)) ++ F)) as Hw. cbv zeta in Hw. unfold wpw in Hw.
  match type of Hw with ?D1 -> ?D2 -> _ => assert D1 as HD1; [apply closed_app; [by apply closed_all|done]|]; assert D2 as HD2 end.
  { split; [by apply (Hv e)|]. eapply owns_perm, Ho. cbn [self]. rewrite (owned_all_delete (bodies s) e (body o) Hb). solve_Permutation. }
  specialize (Hw HD1 HD2). destruct (m (body o) (Octx (body o) (dt_env s) (calls s))) as [a c|r c]; [|exact Hw].
  destruct Hw as [[Hvc Hoc] HR].
  change (accounted (G a ++ F) (after e o c s) /\ exists c', after e o c s = after e o c' s /\ R a c'). split; [|by exists c].
  unfold accounted, after, bodies. cbn [heap set_heap set_env set_calls brk calls].
  rewrite fmap_insert. cbn [body]. fold (bodies s). split; [by apply map_Forall_insert_2|].
  split; [intros l Hl; rewrite lookup_insert_ne; [by apply Hk|]; intros <-; rewrite Hk in Hb by lia; done|].
  eapply owns_perm, Hoc. rewrite (owned_all_replace (bodies s) e (body o)) by done. solve_Permutation.
Qed.

Lemma tallies_on_object {A} e (m : descriptor -> M (octx descriptor) A) : slot_keeps m -> tallies (on_object e m).
Proof.
  intros Hm F s HF Hs. pose proof (load_heap e s) as Hl. destruct (load e s) as [o s'|r s'] eqn:El.
  2: { unfold on_object. by rewrite (bind_stop _ _ _ _ _ El). }
  destruct Hl as [-> He]. pose proof (on_object_accounts e o m [] (fun _ => []) (fun _ _ => True) F s HF He Hs) as Ha.
  destruct (on_object e m s); [|done]. apply Ha. intros F' c HF' Hh.
  eapply wpw_mono; [by apply (Hm F' c)|done].
Qed.

Lemma tallies_with_entry {A} fd (bad : A) k : (forall e, tallies (k e)) -> tallies (with_entry fd bad k).
Proof.
  intros Hk. unfold with_entry. apply tallies_bind; [apply tallies_get|]. intros [rc [e|]]; cbn [snd]; [|by apply tallies_same].
  apply tallies_bind; [apply Hk|]. intros a. apply tallies_bind; [apply tallies_entry_dec|]. intros _. by apply tallies_same.
Qed.
End tallies.

(** ** Calls *)

Section calls.
Context `{HostLaws} `{!ResourceLaws} `{Stalling} `{!Settles}.
Implicit Types s : world.

(** On a well-formed table whose accounts are right, [m] returns with the same,
    or waits for ever. *)
Definition lasts {A} (m : M world A) : Prop :=
  forall held s, inv held s -> len s <= 2 ^ 26 -> Z.of_nat (length held) <= 2 ^ 29 -> accounted [] s ->
    match m s with
    | Done _ s' => inv held s' /\ len s' <= 2 ^ 28 /\ accounted [] s'
    | Stop r s' => excused r (calls s')
    end.

Lemma closed_nil : closed [].
Proof. intros e x He. by apply elem_of_nil in He. Qed.

Lemma lasts_safe {g : Growth} {A} (m : M world A) : safe (2 ^ 29) m -> tallies m -> lasts m.
Proof.
  intros Hm Ht held s Hi Hl Hh Ha. destruct (Hm held s Hi Hl Hh) as (a & s' & Hs & Hi' & Hg & _).
  specialize (Ht [] s closed_nil Ha). rewrite Hs in Ht |- *. split; [done|]. split; [by eapply grown_bound|done].
Qed.

(** What the code between [descriptor_table_get] and [descriptor_table_entry_dec] has to do. *)
Definition lasts_with {A} (k : loc -> M world A) : Prop :=
  forall held e s, wf (e :: held) s -> len s <= 2 ^ 26 -> Z.of_nat (length held) <= 2 ^ 29 -> stdio_initialized s = true -> accounted [] s ->
    match k e s with
    | Done _ s' => wf (e :: held) s' /\ stdio_initialized s' = true /\ len s' <= 2 ^ 28 /\ accounted [] s'
    | Stop r s' => excused r (calls s')
    end.

Lemma lasts_with_entry {A} fd (bad : A) k : lasts_with k -> lasts (with_entry fd bad k).
Proof.
  intros Hk held s Hi Hl Hh Ha. destruct (get_ready held s fd Hi Hl ltac:(lia)) as (r & s1 & Hg & St1 & L1 & W1).
  pose proof (tallies_get fd [] s closed_nil Ha) as Ha1. rewrite Hg in Ha1. unfold with_entry. rewrite (bind_done _ _ _ _ _ Hg).
  destruct (snd r) as [e|]; [|split; [by apply inv_ready|]; split; [lia|done]].
  specialize (Hk held e s1 W1 ltac:(lia) Hh St1 Ha1). unfold mbind at 1, M_bind. destruct (k e s1) as [a s2|]; [|done].
  destruct Hk as (W2 & St2 & L2 & Ha2). destruct (dec_ready held s2 e W2 L2 ltac:(lia) St2) as (s3 & Hd & Hi3 & St3 & L3).
  pose proof (tallies_entry_dec e [] s2 closed_nil Ha2) as Ha3. rewrite Hd in Ha3. rewrite (bind_done _ _ _ _ _ Hd).
  split; [done|]. split; [lia|done].
Qed.

Lemma lasts_on_object {A} (m : descriptor -> M (octx descriptor) A) : slot_keeps m -> lasts_with (fun e => on_object e m).
Proof.
  intros Hm held e s W Hl Hh Hst Ha. destruct (WF_held _ _ _ _ _ _ _ _ W) as [o Ho].
  pose proof (on_object_accounts e o m [] (fun _ => []) (fun _ _ => True) [] s closed_nil Ho Ha) as Hw.
  destruct (on_object e m s) as [a s'|r s'].
  - destruct Hw as [Ha' (c & -> & _)].
    { intros F' c HF' Hh'. eapply wpw_mono; [by apply (Hm F' c)|done]. }
    split; [by apply wf_after|]. split; [done|]. split; [cbn; lia|done].
  - apply Hw. intros F' c HF' Hh'. eapply wpw_mono; [by apply (Hm F' c)|done].
Qed.

Lemma lasts_slot {A} fd (bad : A) (m : descriptor -> M (octx descriptor) A) : slot_keeps m -> lasts (with_entry fd bad (fun e => on_object e m)).
Proof. intros Hm. by apply lasts_with_entry, lasts_on_object. Qed.

Lemma read_lasts fuel fd n : (may_stall = false -> 0 <= n) -> enough fuel -> lasts (read fuel fd n).
Proof. intros Hn Hf. by apply lasts_slot, read_object_keeps. Qed.

Lemma write_lasts fuel fd buf : enough fuel -> lasts (write fuel fd buf).
Proof. intros Hf. by apply lasts_slot, write_object_keeps. Qed.

(** A slot only some objects have. *)
Lemma run_slot_lasts {A} fd (slot : descriptor -> option (M (octx descriptor) A)) err bad :
  (forall F c m, closed F -> ResourceObj.holds F c -> slot (self c) = Some m -> wpw m (fun _ c' => ResourceObj.holds F c') c) ->
  lasts (run_slot fd slot err bad).
Proof.
  intros Hm. apply lasts_slot. intros F s HF Hs. destruct (slot (self s)) as [m|] eqn:E; [by eapply Hm|by wpw_steps].
Qed.

Ltac slot_tac :=
  let F := fresh "F" in let s := fresh "s" in let Es := fresh "Es" in
  apply run_slot_lasts; intros F s ? ? ?; destruct (self s) eqn:Es; intros [= <-];
  first [apply keeps_tcp; [done..|] | apply keeps_udp; [done..|]].

Lemma bind_lasts fuel fd addr len : enough fuel -> lasts (bind fuel fd addr len).
Proof. intros Hf. slot_tac; [by apply tcp_bind_keeps|by apply udp_bind_keeps]. Qed.

Lemma connect_lasts fuel fd addr len : enough fuel -> lasts (connect fuel fd addr len).
Proof. intros Hf. slot_tac; [by apply tcp_connect_keeps|by apply udp_connect_keeps]. Qed.

Lemma listen_lasts fuel fd backlog : enough fuel -> lasts (listen fuel fd backlog).
Proof. intros Hf. unfold listen. cbv zeta. slot_tac. by apply tcp_listen_keeps. Qed.

Lemma shutdown_lasts fd how : lasts (shutdown fd how).
Proof. slot_tac. apply tcp_shutdown_keeps. Qed.

Lemma getsockname_lasts fd addr len : lasts (getsockname fd addr len).
Proof. slot_tac; [apply tcp_getsockname_keeps|apply udp_getsockname_keeps]. Qed.

Lemma getpeername_lasts fd addr len : lasts (getpeername fd addr len).
Proof. slot_tac; [apply tcp_getpeername_keeps|apply udp_getpeername_keeps]. Qed.

Lemma getsockopt_lasts fd level optname optval len : lasts (getsockopt fd level optname optval len).
Proof.
  apply run_slot_lasts. intros F c m HF Hc. destruct optval, len as [len|]; try (intros [= <-]; by wpw_steps).
  destruct (_ <? _); [intros [= <-]; by wpw_steps|]. destruct (self c) eqn:Es; intros [= <-].
  - apply keeps_tcp; [done..|apply tcp_getsockopt_keeps].
  - apply keeps_udp; [done..|by apply udp_getsockopt_keeps].
Qed.

Lemma setsockopt_lasts fd level optname optval len : lasts (setsockopt fd level optname optval len).
Proof.
  apply run_slot_lasts. intros F c m HF Hc. destruct optval as [optval|]; [|intros [= <-]; by wpw_steps].
  destruct (_ <? _); [intros [= <-]; by wpw_steps|]. destruct (self c) eqn:Es; intros [= <-].
  - apply keeps_tcp; [done..|apply tcp_setsockopt_keeps].
  - apply keeps_udp; [done..|by apply udp_setsockopt_keeps].
Qed.

Lemma recvfrom_lasts fuel fd buffer len flags addr addrlen :
  (may_stall = false -> 0 <= len) -> enough fuel -> lasts (recvfrom fuel fd buffer len flags addr addrlen).
Proof.
  intros Hn Hf. apply run_slot_lasts. intros F c m HF Hc. destruct (negb _); [intros [= <-]; by wpw_steps|]. destruct (self c) eqn:Es; intros [= <-].
  - by apply tcp_recvfrom_keeps.
  - apply keeps_udp; [done..|by apply udp_recvfrom_keeps].
Qed.

Lemma sendto_lasts fuel fd buffer flags addr len : enough fuel -> lasts (sendto fuel fd buffer flags addr len).
Proof.
  intros Hf. apply run_slot_lasts. intros F c m HF Hc. destruct buffer as [buffer|]; [|intros [= <-]; by wpw_steps]. destruct (self c) eqn:Es; intros [= <-].
  - by apply tcp_sendto_keeps.
  - apply keeps_udp; [done..|by apply udp_sendto_keeps].
Qed.

(** *** New sockets *)

Lemma accounted_env F s v : accounted F s -> accounted F (set_env v s).
Proof. done. Qed.

Lemma accounted_drop {R : Set} (c : hostcall R) F s x i :
  closed F -> accounted ((x, i) :: F) s -> drops c = Some x -> parent i <> Some x -> accounted F (log (Ev c) s).
Proof.
  intros HF (Hv & Hk & Ho) Hd Hi. split; [done|]. split; [done|]. cbn [log world_logged calls set_calls].
  change (bodies (set_calls _ s)) with (bodies s). eapply (free_one c _ x i []); [| |done|done|apply childless_nil].
  - apply closed_app; [by apply closed_all|exact HF].
  - eapply owns_perm, Ho. solve_Permutation.
Qed.

Definition socket_entry (k : kind) (sk : Z) (f : ip_address_family) : entry := ((k, sk), Info None (Some f) false).

(** An object made from a socket takes it over; without memory it is dropped. *)
Lemma add_socket_accounts {R : Set} (c : hostcall R) o e F s :
  closed F -> accounted (e :: F) s -> owned o = [e] -> valid o -> drops c = Some (fst e) -> parent (snd e) = None ->
  match (ok ← alloc_ok; if negb ok then ask c ;; fail_with ENOMEM (-1) else l ← new_object o; descriptor_table_insert l : M world Z) s with
  | Done _ s' => accounted F s'
  | Stop _ _ => True
  end.
Proof.
  intros HF Ha Ho Hv Hd Hp. destruct (alloc_ok_table s) as (b & v & Hb & _). rewrite (bind_done _ _ _ _ _ Hb). destruct b; cbn [negb].
  - destruct (accounted_new F (set_env v s) o) as (s1 & Hn & Ha1); [by rewrite Ho|done|]. rewrite (bind_done _ _ _ _ _ Hn).
    by apply tallies_insert.
  - destruct e as [x i]. apply accounted_env. apply (accounted_drop c F (set_env v s) x i); [done..|]. cbn in Hp. by rewrite Hp.
Qed.

Lemma accounted_create {R : Set} (c : hostcall R) F s :
  closed F -> accounted F s -> is_network c = false -> drops c = None -> permit_needed c = None -> (forall r, starts_listening c r = None) ->
  (forall l, extra_rule c l = true) -> uses c = [] -> (forall l l' r, creates l c r = creates l' c r) ->
  accounted (creates [] c (host _ (calls s) c) ++ F) (log (Ev c) s).
Proof.
  intros HF (Hv & Hk & Ho) Hnet Hd Hp Hs Hx Hu Hcr. split; [done|]. split; [done|]. cbn [log world_logged calls set_calls].
  change (bodies (set_calls _ s)) with (bodies s). eapply owns_perm; [|eapply owns_weaken, (owns_use c); [exact Ho|done..|by rewrite Hp|done|done|]].
  - rewrite (Hcr _ []). solve_Permutation.
  - rewrite Hu. intros y Hy. by apply elem_of_nil in Hy.
Qed.

Lemma same_socket_error e : same_objects (__wasilibc_socket_error_to_errno e : M world Z).
Proof. unfold __wasilibc_socket_error_to_errno, __wasilibc_map_socket_error. same_tac. Qed.

Lemma quiet_socket_error e : 0 <= e <= 17 -> quiet (__wasilibc_socket_error_to_errno e).
Proof.
  intros He. apply quiet_bind; [|intros; apply quiet_fail]. intros s. destruct (map_socket_error_total e s He) as (n & -> & _).
  exists n, (dt_env s), (calls s). by destruct s.
Qed.

(** Creating a socket with [create] and putting it in the table. *)
Lemma create_lasts create (drop : Z -> hostcall unit) (k : kind) (mk : Z -> descriptor) f :
  create = create_tcp_socket f /\ k = TcpSocket \/ create = create_udp_socket f /\ k = UdpSocket ->
  (forall sk, owned (mk sk) = [socket_entry k sk f]) -> (forall sk, valid (mk sk)) -> (forall sk, drops (drop sk) = Some (k, sk)) ->
  lasts (r ← ask create;
    match r with
    | inr error => __wasilibc_socket_error_to_errno error
    | inl sk => ok ← alloc_ok; if negb ok then ask (drop sk) ;; fail_with ENOMEM (-1) else e ← new_object (mk sk); descriptor_table_insert e
    end : M world Z).
Proof.
  intros Hc Ho Hv Hd. apply (lasts_safe (g := true)).
  - intros held s Hi Hl Hh. rewrite (bind_done (ask create) _ s (host _ (history s) create) (log (Ev create) s)) by done.
    destruct (host _ (history s) create) as [sk|e] eqn:E.
    + refine (safe_alloc _ _ _ held (log (Ev create) s) Hi Hl Hh). intros []; cbn [negb]; [apply insert_safe; lia|].
      apply safe_quiet_bind; [apply quiet_ask|]. intros []. apply safe_quiet, quiet_fail.
    + refine (safe_quiet _ _ (quiet_socket_error e _) held (log (Ev create) s) Hi Hl Hh). apply (host_net_error _ (history s) create).
      rewrite E. by destruct Hc as [[-> _]|[-> _]].
  - intros F s HF Ha. rewrite (bind_done (ask create) _ s (host _ (history s) create) (log (Ev create) s)) by done.
    pose proof (accounted_create create F s HF Ha) as Hn.
    assert (accounted (creates [] create (host _ (calls s) create) ++ F) (log (Ev create) s)) as Hn' by (destruct Hc as [[-> _]|[-> _]]; by apply Hn).
    cbn [history world_logged]. destruct (host _ (calls s) create) as [sk|e] eqn:E.
    + apply (add_socket_accounts _ _ (socket_entry k sk f)); [done| |by apply Ho|by apply Hv|by apply Hd|done].
      destruct Hc as [[-> ->]|[-> ->]]; exact Hn'.
    + apply (tallies_same _ (same_socket_error e)); [done|]. destruct Hc as [[-> _]|[-> _]]; exact Hn'.
Qed.

Lemma tcp_socket_call_lasts f b : lasts (tcp_socket_call f b).
Proof.
  pose proof (create_lasts (create_tcp_socket f) tcp_socket_drop_own TcpSocket (fun sk => DTcp (new_tcp sk f b)) f) as Hl.
  intros held s Hi Hlen Hh Ha. specialize (Hl ltac:(by left) ltac:(done) ltac:(done) ltac:(done) held s Hi Hlen Hh Ha).
  revert Hl. unfold tcp_socket_call, __wasilibc_add_tcp_socket, tcp_add. rewrite !(bind_done (ask _) _ s (host _ (history s) (create_tcp_socket f)) (log (Ev (create_tcp_socket f)) s)) by done.
  destruct (host _ _ _) as [sk|e]; [|done]. unfold mbind, M_bind. destruct (alloc_ok _) as [[] s1|]; cbn [negb]; [|done..].
  destruct (new_object _ s1) as [l s2|]; [|done]. by destruct (descriptor_table_insert l s2).
Qed.

Lemma socket_lasts d t p : lasts (socket d t p).
Proof.
  assert (forall e, lasts (fail_with e (-1) : M world Z)) as Hf.
  { intros e held s Hi Hl Hh Ha. split; [exact Hi|]. split; [cbn; lia|done]. }
  assert (forall f, lasts (socket_of f t p)) as Hs.
  { intros f. unfold socket_of. cbv zeta. destruct (_ && _); [apply tcp_socket_call_lasts|]. destruct (_ && _); [|apply Hf].
    unfold udp_socket_call, __wasilibc_add_udp_socket. apply (create_lasts _ udp_socket_drop_own UdpSocket (fun sk => DUdp (new_udp sk f _)) f); [by right|done..]. }
  unfold socket. destruct (_ =? _); [apply Hs|]. destruct (_ =? _); [apply Hs|apply Hf].
Qed.

(** *** Accepting *)

(** Two handles that nothing was made from are dropped. *)
Lemma drop_streams i o s :
  accounted [((InputStream, i), plain); ((OutputStream, o), plain)] s ->
  accounted [] (log (Ev (streams_output_stream_drop_own o)) (log (Ev (streams_input_stream_drop_own i)) s)).
Proof.
  intros Ha. apply (accounted_drop (streams_output_stream_drop_own o) _ _ (OutputStream, o) plain); [apply closed_nil| |done|done].
  apply (accounted_drop (streams_input_stream_drop_own i) _ _ (InputStream, i) plain); [|exact Ha|done|done]. by intros e x ->%list_elem_of_singleton.
Qed.

(** A field of the new socket is set, taking over the handles [P]. *)
Lemma change_tcp_accounts held e t f P s :
  wf held s -> heap s !! e = Some (Object 1 (DTcp t)) -> accounted P s -> tcp_owned (f t) ≡ₚ P ++ tcp_owned t -> tcp_valid (f t) ->
  exists s', change_tcp e f s = Done tt s' /\ wf held s' /\ stdio_initialized s' = stdio_initialized s /\ len s' = len s /\
    calls s' = calls s /\ heap s' !! e = Some (Object 1 (DTcp (f t))) /\ accounted [] s'.
Proof.
  intros W He Ha Ho Hv. rewrite <- (app_nil_r P) in Ha.
  pose proof (on_object_accounts e _ (fun o => match o with DTcp t => as_tcp t (update f) | _ => halt Undef end) P (fun _ => [])
    (fun _ c => self c = DTcp (f t) /\ octx_log c = calls s) [] s closed_nil He Ha) as Hw.
  cbn [body] in Hw. unfold change_tcp in *. destruct (on_object e _ s) as [[] s'|r s'] eqn:E.
  - destruct Hw as [Ha' (c & -> & Hc & Hl)].
    { intros F' HF' [_ Hoc]. cbn. split; [|done]. split; [exact Hv|]. cbn [self octx_log owned descriptor_owner tcp_owner app] in *. eapply owns_perm, Hoc. rewrite Ho. solve_Permutation. }
    eexists. split; [reflexivity|]. split; [by apply wf_after|]. do 2 (split; [done|]). split; [exact Hl|].
    split; [|done]. cbn. rewrite lookup_insert_eq, Hc. done.
  - exfalso. revert E. unfold on_object. rewrite (bind_done _ _ _ _ _ (load_spec s e _ He)), (bind_done get _ s s s) by done. done.
Qed.

(** The outcome of putting the socket of a client into the table. *)
Lemma tcp_add_accounts held sk f b F s :
  wf held s -> len s <= 2 ^ 26 -> Z.of_nat (length held) <= 2 ^ 30 -> stdio_initialized s = true ->
  closed F -> accounted (socket_entry TcpSocket sk f :: F) s ->
  exists fd e s', tcp_add sk f b s = Done (fd, e) s' /\ wf held s' /\ stdio_initialized s' = true /\ len s' <= 2 ^ 28 /\ accounted F s' /\
    (fd < 0 \/ 0 <= fd /\ heap s' !! e = Some (Object 1 (DTcp (new_tcp sk f b))) /\ calls s' = calls s).
Proof.
  intros W Hl Hh Hst HF Ha. pose proof (wf_len _ _ _ _ _ _ _ W).
  unfold tcp_add. destruct (alloc_ok_table s) as (ok & v & Hok & _). rewrite (bind_done _ _ _ _ _ Hok). destruct ok; cbn [negb].
  - destruct (accounted_new F (set_env v s) (DTcp (new_tcp sk f b))) as (s1 & Hn & Ha1); [exact Ha|done|].
    destruct (pending_new held (set_env v s) (DTcp (new_tcp sk f b)) W) as [Hn' Hp].
    set (s0 := set_brk _ _) in Hn', Hp. assert (s1 = s0) as -> by congruence. rewrite (bind_done _ _ _ _ _ Hn). pose proof (tallies_insert (brk (set_env v s)) F _ HF Ha1) as Ht.
    edestruct (insert_spec held init_stdio) as (fd & s' & Hins & W' & _ & St' & L' & Hc); [exact Hp|done|cbn; lia|unfold fits; cbn; lia|].
    unfold descriptor_table_insert in Ht |- *. rewrite Hins in Ht. rewrite (bind_done _ _ _ _ _ Hins).
    eexists fd, _, s'. split; [reflexivity|]. do 2 (split; [done|]). split; [cbn in L'; lia|]. split; [done|].
    destruct Hc as [(? & _ & _ & _ & _ & Hhp & Hcl)|(-> & _)]; [right|by left]. split; [done|]. split; [|exact Hcl].
    rewrite Hhp. apply lookup_insert_eq.
  - eexists (-1), 0%nat, _. split; [reflexivity|]. split; [exact W|]. split; [exact Hst|]. split; [cbn; lia|]. split; [|left; lia].
    apply accounted_env. by apply (accounted_drop (tcp_socket_drop_own sk) F (set_env v s) (TcpSocket, sk) (Info None (Some f) false)).
Qed.

(** Asking for something about a socket that is held. *)
Lemma accounted_ask {R : Set} (c : hostcall R) s e o x i :
  heap s !! e = Some o -> (x, i) ∈ owned (body o) -> accounted [] s -> uses c = [x] -> is_network c = false -> drops c = None ->
  permit_needed c = None -> (forall r, starts_listening c r = None) -> (forall l, extra_rule c l = true) -> (forall l r, creates l c r = []) ->
  accounted [] (log (Ev c) s) /\ exists m, conform (calls s) = Some m /\ fam_of x (live m) = fam i.
Proof.
  intros He Hx (Hv & Hk & Ho) Hu Hnet Hd Hp Hs Hr Hcr. assert ((x, i) ∈ owned_all (bodies s) ++ []) as Hin.
  { rewrite app_nil_r. rewrite (owned_all_delete (bodies s) e (body o)); [apply elem_of_app; by left|]. unfold bodies. by rewrite lookup_fmap, He. }
  split.
  - split; [done|]. split; [done|]. cbn [log world_logged calls set_calls]. change (bodies (set_calls _ s)) with (bodies s).
    pose proof (owns_use c _ _ _ Ho Hnet Hd ltac:(by rewrite Hp) (Hs _) (Hr _)) as Ho'. rewrite Hcr in Ho'. eapply owns_weaken, Ho'.
    rewrite Hu. by eapply key_held.
  - destruct (owns_info _ _ _ _ _ Ho Hin) as (m & Hm & _ & Hf). by exists m.
Qed.

(** The address of the peer, copied out for the caller of [accept]. *)
Definition peer_address (output_addr : output_sockaddr) (client : Z) : M world (option (list Z * Z)) :=
  match output_addr with
  | OUTPUT_SOCKADDR_NULL => mret None
  | _ =>
      a ← ask (tcp_remote_address client);
      match a with
      | inr _ => halt Trap
      | inl remote_address => o ← __wasilibc_wasi_to_sockaddr remote_address output_addr; mret (Some o)
      end
  end.

Lemma peer_address_accounts held o s e t :
  wf held s -> heap s !! e = Some (Object 1 (DTcp t)) -> accounted [] s ->
  o = OUTPUT_SOCKADDR_NULL \/ o = output_of (family t) -> (exists i ou, just_accepted (tcp_socket t, i, ou) (calls s)) ->
  match peer_address o (tcp_socket t) s with
  | Done r s' => exists l, s' = set_calls l s /\ accounted [] s'
  | Stop r s' => excused r (calls s')
  end.
Proof.
  intros W He Ha Ho (i & ou & h0 & x & Hl & Hx).
  destruct (accounted_ask (tcp_remote_address (tcp_socket t)) s e (Object 1 (DTcp t)) _ _ He (list_elem_of_here _ _) Ha) as [Ha' (m & Hm & Hf)]; [done..|].
  destruct Ho as [->| ->]; [exists (calls s); by destruct s|].
  set (c := tcp_remote_address (tcp_socket t)) in *. destruct (host _ (calls s) c) as [a|err] eqn:Hr.
  - pose proof (host_tcp_remote_family _ _ _ _ _ Hm Hf Hr) as Hfam. unfold peer_address. rewrite <- Hfam. destruct a; cbn [family_of output_of].
    all: rewrite (bind_done (ask _) _ s _ _ eq_refl); cbn [history world_logged]; fold c; rewrite Hr; exists (calls s ++ [Ev c]); done.
  - assert (excused Trap (calls s ++ [Ev c])) as Hex.
    { apply excused_abort; [left; exists h0, x; eexists _, i, ou, err; rewrite <- Hl; done|].
      destruct Ha' as (_ & _ & m' & Hm' & _). cbn [calls log world_logged set_calls] in Hm'. rewrite Hm'. by eexists. }
    unfold peer_address. destruct (family t); cbn [output_of]; rewrite (bind_done (ask _) _ s _ _ eq_refl); cbn [history world_logged]; fold c; by rewrite Hr.
Qed.

Lemma accept_add_accounts held t flags o cl i ou s :
  wf held s -> len s <= 2 ^ 26 -> Z.of_nat (length held) <= 2 ^ 30 -> stdio_initialized s = true ->
  accounted (client_owned (family t) (cl, i, ou)) s -> o = OUTPUT_SOCKADDR_NULL \/ o = output_of (family t) ->
  just_accepted (cl, i, ou) (calls s) ->
  match tcp_accept_add t flags o cl i ou s with
  | Done r s' => wf held s' /\ stdio_initialized s' = true /\ len s' <= 2 ^ 28 /\ accounted [] s'
  | Stop r s' => excused r (calls s')
  end.
Proof.
  intros W Hl Hh Hst Ha Ho Hr.
  destruct (tcp_add_accounts held cl (family t) (negb (has flags SOCK_NONBLOCK)) [((InputStream, i), plain); ((OutputStream, ou), plain)] s)
    as (fd & e & s1 & Hadd & W1 & St1 & L1 & Ha1 & Hc); [done..| |exact Ha|].
  { intros y x Hy. apply elem_of_cons in Hy as [->|Hy]; [done|]. by apply list_elem_of_singleton in Hy as ->. }
  unfold tcp_accept_add. rewrite (bind_done _ _ _ _ _ Hadd). cbn [fst snd]. destruct (Z.ltb_spec fd 0) as [Hf|Hf].
  { split; [exact W1|]. split; [exact St1|]. split; [exact L1|]. by apply drop_streams. }
  destruct Hc as [?|(_ & He & Hcl)]; [lia|].
  destruct (change_tcp_accounts held e _ (set_tcp_state (connected_state i ou)) _ s1 W1 He Ha1) as (s2 & Hs2 & W2 & St2 & L2 & C2 & He2 & Ha2);
    [cbn; solve_Permutation|done|].
  rewrite (bind_done _ _ _ _ _ Hs2). change (match o with OUTPUT_SOCKADDR_NULL => _ | _ => _ end) with (peer_address o cl).
  pose proof (peer_address_accounts held o s2 e _ W2 He2 Ha2 Ho) as Hp. cbn [tcp_socket set_tcp_state] in Hp.
  unfold mbind at 1, M_bind. change (tcp_socket _) with cl in Hp. destruct (peer_address o cl s2) as [r s3|r s3];
    [|apply Hp; exists i, ou; by rewrite C2, Hcl]. destruct Hp as (l & -> & Ha3); [exists i, ou; by rewrite C2, Hcl|].
  destruct (change_tcp_accounts held e _ (set_fake_nodelay (fake_nodelay t)) [] (set_calls l s2) W2 He2 Ha3) as (s4 & Hs4 & W4 & St4 & L4 & _ & _ & Ha4);
    [done..|].
  rewrite (bind_done _ _ _ _ _ Hs4). split; [done|]. split; [rewrite St4; cbn; by rewrite St2|].
  split; [rewrite L4; cbn; lia|done].
Qed.

(** The handles [accept_client] leaves for the client. *)
Definition accept_leaves (r : tcp_socket_t * option (output_sockaddr * (Z * Z * Z))) : list entry :=
  match snd r with Some (_, p) => client_owned (family (fst r)) p | None => [] end.

Definition accept_answers (r : tcp_socket_t * option (output_sockaddr * (Z * Z * Z))) (c : octx descriptor) : Prop :=
  match snd r with
  | Some (o, p) => (o = OUTPUT_SOCKADDR_NULL \/ o = output_of (family (fst r))) /\
      just_accepted p (octx_log c)
  | None => True
  end.

Lemma accept_slot_gives fuel t addr len F (c : octx descriptor) :
  enough fuel -> self c = DTcp t -> ResourceObj.holds F c ->
  wpw (as_tcp t (r ← tcp_accept_client fuel addr len; t ← gets self; mret (t, r)))
    (fun r c' => ResourceObj.holds (accept_leaves r ++ F) c' /\ accept_answers r c') c.
Proof.
  intros Hf Hc [Hv Ho]. rewrite Hc in Hv, Ho. pose proof (tcp_accept_client_spec fuel addr len F (Octx t (octx_env c) (octx_log c)) Hf (conj Hv Ho)) as Hw.
  unfold as_object. revert Hw. unfold wpw, mbind, M_bind. destruct (tcp_accept_client _ _ _ _) as [r s'|r s']; [|done].
  cbn. unfold accept_leaves, accept_answers. cbn. by destruct r as [[o p]|]; [intros ([? ?] & ? & ?)|intros [? ?]].
Qed.

Lemma accept4_lasts fuel fd addr len flags : enough fuel -> lasts (accept4 fuel fd addr len flags).
Proof.
  intros Hf. apply lasts_with_entry. intros held e s W Hl Hh Hst Ha. destruct (WF_held _ _ _ _ _ _ _ _ W) as [o Ho].
  rewrite (bind_done _ _ _ _ _ (load_spec s e o Ho)).
  destruct (body o) as [f|st|t|u] eqn:Eb; try (split; [exact W|]; split; [exact Hst|]; split; [cbn; lia|exact Ha]).
  unfold tcp_accept4. set (m := fun o => match o with DTcp t => _ | _ => halt Undef end : M (octx descriptor) _).
  pose proof (on_object_accounts e o m [] accept_leaves accept_answers [] s closed_nil Ho Ha) as Hw. unfold mbind at 1, M_bind.
  assert (forall F' c, closed F' -> c = Octx (body o) (dt_env s) (calls s) -> ResourceObj.holds F' c ->
    wpw (m (body o)) (fun a c' => ResourceObj.holds (accept_leaves a ++ F') c' /\ accept_answers a c') c) as Hslot.
  { intros F' c HF' -> Hc. rewrite Eb in *. by apply accept_slot_gives. }
  destruct (on_object e m s) as [r s1|r s1]; [|apply Hw; intros F' c HF' Hc; by apply Hslot].
  destruct Hw as [Ha1 (c & -> & HR)]; [intros F' c HF' Hc; by apply Hslot|].
  assert (wf (e :: held) (after e o c s)) as W1 by (by apply wf_after).
  destruct r as [t' [[ou [[cl i] outp]]|]]; cbn [fst snd].
  - unfold accept_leaves in Ha1. cbn [fst snd] in Ha1. rewrite app_nil_r in Ha1. destruct HR as [HR1 HR2]. cbn [fst snd] in HR1, HR2.
    apply (accept_add_accounts (e :: held) t' flags ou cl i outp (after e o c s)); [done|cbn; lia|cbn [length]; lia|done..].
  - split; [exact W1|]. split; [exact Hst|]. split; [cbn; lia|exact Ha1].
Qed.
End calls.
