(* ===== verification/ResourceFs.v ===== *)
(** * Keeping to the rules of the host: files

    The file system calls use the handle of the directory or file they are
    given while they hold a reference to its object, and the file that openat
    makes takes over the handle of the host. *)

From S2P Require Import Prelude Errno Utf8 Time Stat SockAddr Host DescTable DescTableInv DescTableSpec DescTableProps Object File.
From S2P Require Import Tcp Udp Vtable FdOps FdProps Nocwd NocwdProps Sockets.
From S2P Require Import Resources ResourceInv ResourceObj ResourceTcp ResourceUdp ResourceIo ResourceWorld.

(** ** Calls on an open descriptor *)

Section descriptors.
Context `{HostLaws} `{!ResourceLaws} `{Stalling} `{!Settles}.

(** A slot found by looking at the object first. *)
Lemma lasts_load {A} (sel : descriptor -> option (M (octx descriptor) A)) err bad :
  (forall F (c : octx descriptor) m, closed F -> ResourceObj.holds F c -> sel (self c) = Some m -> wpw m (fun _ c' => ResourceObj.holds F c') c) ->
  lasts_with (fun e => o ← load e; match sel (body o) with None => fail_with err bad | Some m => on_object e (fun _ => m) end).
Proof.
  intros Hm held e s W Hl Hh Hst Ha. destruct (WF_held _ _ _ _ _ _ _ _ W) as [o Ho]. rewrite (bind_done _ _ _ _ _ (load_spec s e o Ho)).
  destruct (sel (body o)) as [m|] eqn:E; [|split; [exact W|]; split; [exact Hst|]; split; [cbn; lia|exact Ha]].
  pose proof (on_object_accounts e o (fun _ => m) [] (fun _ => []) (fun _ _ => True) [] s closed_nil Ho Ha) as Hw.
  assert (forall F', closed F' -> let c := Octx (body o) (dt_env s) (calls s) in ResourceObj.holds F' c ->
    wpw m (fun _ c' => ResourceObj.holds F' c' /\ True) c) as Hs.
  { intros F' HF' c Hc. eapply wpw_mono; [by eapply Hm|done]. }
  destruct (on_object e (fun _ => m) s) as [a s'|r s']; [|apply Hw; intros F' c HF' Hc; by apply Hs].
  destruct Hw as [Ha' (c & -> & _)]; [intros F' c HF' Hc; by apply Hs|]. split; [by apply wf_after|]. split; [done|]. split; [cbn; lia|done].
Qed.

Lemma lseek_lasts fd off whence : lasts (lseek fd off whence).
Proof.
  assert (lasts (with_entry fd (-1) (fun e => o ← load e;
    match (fun o => (fun m => m off whence) <$> vt_seek o) (body o) with None => fail_with ESPIPE (-1) | Some m => on_object e (fun _ => m) end))) as Hl.
  { apply lasts_with_entry, (lasts_load (fun o => (fun m => m off whence) <$> vt_seek o)). intros F c m HF Hc. destruct (self c) as [f| | |] eqn:Es; intros [= <-].
    apply keeps_file; [done..|apply file_seek_keeps]. }
  intros held s Hi Hlen Hh Ha. specialize (Hl held s Hi Hlen Hh Ha). unfold lseek, with_entry in *. revert Hl. unfold mbind, M_bind.
  destruct (descriptor_table_get fd s) as [[rc [e|]] s1|]; cbn [snd]; try done. destruct (load e s1) as [o s2|]; [|done].
  by destruct (body o).
Qed.

Lemma tell_lasts fd : lasts (__wasilibc_tell fd).
Proof. exact (lseek_lasts fd 0 SEEK_CUR). Qed.

Lemma isatty_lasts fd : lasts (isatty fd).
Proof.
  apply lasts_with_entry, (lasts_load vt_isatty). intros F c m HF Hc. destruct (self c) as [|st| |] eqn:Es; intros [= <-].
  apply keeps_stdio; [done..|apply stdio_isatty_keeps].
Qed.

Lemma table_remove_safe fd : safe (2 ^ 29) (descriptor_table_remove fd : M world Z).
Proof.
  intros held s Hi Hl Hh. unfold descriptor_table_remove.
  match goal with |- exists a s', with_stdio ?b ?r s = _ /\ _ =>
    destruct (with_stdio_spec held s b r Hi) as (s1 & W1 & St1 & _ & L1 & _ & Hc) end; [lia|].
  destruct Hc as [Heq|(Heq & _)]; rewrite Heq.
  - pose proof (remove_spec held s1 fd W1 ltac:(split; lia) St1) as Hr. unfold descriptor_table_remove in Hr.
    rewrite with_stdio_ready in Hr by done. destruct (open_fds s1 !! fd) as [e|].
    + destruct Hr as (s' & o & _ & Hr & W' & St' & _ & _ & L' & _). exists 0, s'. split; [done|]. split; [by apply inv_ready|].
      split; [unfold grown, grows; lia|done].
    + eexists _, _. split; [exact Hr|]. split; [by apply inv_ready|]. split; [unfold grown, grows; cbn; lia|done].
  - eexists _, s1. split; [reflexivity|]. split; [by apply inv_ready|]. split; [unfold grown, grows; lia|done].
Qed.

Lemma fcntl_lasts fd cmd arg : lasts (fcntl fd cmd arg).
Proof.
  apply lasts_safe; [apply fcntl_safe; lia|]. apply tallies_with_entry. intros e.
  do 2 (apply tallies_if; [by apply tallies_same|]). apply tallies_if; [apply tallies_on_object, vt_fcntl_getfl_keeps|].
  apply tallies_if; [apply tallies_on_object, (vt_fcntl_setfl_keeps arg)|]. apply tallies_if; [apply tallies_dup|].
  apply tallies_if; by apply tallies_same.
Qed.

Lemma ioctl_lasts fd request arg : lasts (ioctl fd request arg).
Proof.
  assert (forall err, lasts (fail_with err (-1))) as Hf by (intros err; apply lasts_safe; [safe_tac|by apply tallies_same]).
  unfold ioctl. case_match; [apply Hf|]. case_match; [apply lasts_slot, vt_set_blocking_keeps|apply Hf].
Qed.
End descriptors.

(** ** Calls that use a handle of an object *)

Section borrows.
Context `{HostLaws} `{!ResourceLaws}.
Implicit Types s : world.

(** The handles [P] belong to objects. *)
Definition owned_by_objects (P : list resource) s : Prop := forall x, x ∈ P -> x ∈ keys (owned_all (bodies s)).

(** The accounts stay right when the handles [P] belong to objects. *)
Definition borrows (P : list resource) {A} (m : M world A) : Prop :=
  forall F s, closed F -> accounted F s -> owned_by_objects P s -> match m s with Done _ s' => accounted F s' | Stop _ _ => True end.

Lemma borrows_tallies {A} P (m : M world A) : tallies m -> borrows P m.
Proof. intros Hm F s HF Ha _. by apply Hm. Qed.

Lemma borrows_bind {A B} P (m : M world A) (f : A -> M world B) : same_objects m -> (forall a, borrows P (f a)) -> borrows P (m ≫= f).
Proof.
  intros Hm Hf F s HF Ha HP. pose proof (tallies_same m Hm F s HF Ha) as Ha'. specialize (Hm s). unfold mbind, M_bind. destruct (m s) as [a s'|]; [|done].
  apply Hf; try done. unfold owned_by_objects. by destruct Hm as (-> & _).
Qed.

Lemma borrows_same {A} P (m : M world A) : same_objects m -> borrows P m.
Proof. intros Hm. by apply borrows_tallies, tallies_same. Qed.

Lemma accounted_answer {R : Set} (c : hostcall R) F s :
  closed F -> accounted F s -> is_network c = false -> drops c = None -> permit_needed c = None -> (forall r, starts_listening c r = None) ->
  (forall l, extra_rule c l = true) -> owned_by_objects (uses c) s -> (forall l l' r, creates l c r = creates l' c r) ->
  accounted (creates [] c (host _ (calls s) c) ++ F) (log (Ev c) s).
Proof.
  intros HF (Hv & Hk & Ho) Hnet Hd Hp Hs Hx Hu Hcr. split; [done|]. split; [done|]. cbn [log world_logged calls set_calls].
  change (bodies (set_calls _ s)) with (bodies s). eapply owns_perm; [|eapply owns_weaken, (owns_use c); [exact Ho|done..|by rewrite Hp|done|done|]].
  - rewrite (Hcr _ []). solve_Permutation.
  - intros y Hy%Hu. unfold keys. rewrite !fmap_app, !elem_of_app. right. by left.
Qed.

(** A call without handles in its answer. *)
Definition plain_call {R : Set} (c : hostcall R) : Prop :=
  is_network c = false /\ drops c = None /\ permit_needed c = None /\ (forall r, starts_listening c r = None) /\
  (forall l, extra_rule c l = true) /\ (forall l r, creates l c r = []).

Lemma borrows_ask {R : Set} {A} P (c : hostcall R) (f : R -> M world A) :
  plain_call c -> (forall x, x ∈ uses c -> x ∈ P) -> (forall r, borrows P (f r)) -> borrows P (ask c ≫= f).
Proof.
  intros (Hn & Hd & Hp & Hs & Hx & Hc) Hu Hf F s HF Ha HP. rewrite (bind_done (ask c) _ s (host _ (calls s) c) (log (Ev c) s)) by done.
  apply Hf; try done. pose proof (accounted_answer c F s HF Ha Hn Hd Hp Hs Hx) as Ha'. rewrite Hc in Ha'. apply Ha'; [|intros; by rewrite !Hc].
  intros y Hy. by apply HP, Hu.
Qed.

Lemma same_translate e : same_objects (translate_error_p2 e : M world unit).
Proof. unfold translate_error_p2, set_errno. same_tac. Qed.

Lemma same_or_errno r : same_objects (or_errno r).
Proof. unfold or_errno. destruct r; [done|]. apply same_bind; [apply same_translate|done]. Qed.

Lemma same_string path : good_path path -> same_objects (wasi_string_from_c path : M world _).
Proof. intros [Hw Hl] s. by destruct (wasi_string_from_c_cases path s Hw Hl) as [[_ ->]|[_ ->]]. Qed.

Lemma borrows_string {A} P path (bad : A) k : good_path path -> (forall p, borrows P (k p)) -> borrows P (with_wasi_string path bad k).
Proof. intros Hp Hk. apply borrows_bind; [by apply same_string|]. intros [r [p|]]; [apply Hk|by apply borrows_same]. Qed.

(** The file takes over the handle; without memory it is dropped. *)
Lemma add_file_accounts x oflag F s :
  closed F -> accounted (((Descriptor, x), plain) :: F) s ->
  match __wasilibc_add_file x oflag s with Done _ s' => accounted F s' | Stop _ _ => True end.
Proof.
  intros HF Ha. unfold __wasilibc_add_file. destruct (alloc_ok_table s) as (b & v & Hb & _). rewrite (bind_done _ _ _ _ _ Hb). destruct b; cbn [negb].
  - unfold mbind at 1, M_bind, assert_. destruct (negb _); [|done]. cbn [mret M_ret].
    destruct (accounted_new F (set_env v s) (DFile (File x 0 oflag 0 0 0 0))) as (s1 & Hn & Ha1); [exact Ha|done|].
    rewrite (bind_done _ _ _ _ _ Hn). by apply tallies_insert.
  - apply accounted_env. by apply (accounted_drop (descriptor_drop_own x) F (set_env v s) (Descriptor, x) plain).
Qed.

(** The handle of a file is one of its own. *)
Lemma file_handle_owned s e o h : heap s !! e = Some o -> get_file (body o) = Some h -> (Descriptor, h) ∈ keys (owned_all (bodies s)).
Proof.
  intros He Hh. assert (bodies s !! e = Some (body o)) as Hb by (unfold bodies; by rewrite lookup_fmap, He).
  unfold keys. rewrite (owned_all_delete (bodies s) e (body o) Hb), fmap_app. apply elem_of_app. left.
  destruct (body o) as [f| | |]; try done. injection Hh as <-. cbn. left.
Qed.

(** Once the standard streams are open, taking a reference touches no object. *)
Lemma get_same fd s :
  stdio_initialized s = true -> match descriptor_table_get fd s with Done _ s' => bodies s' = bodies s /\ calls s' = calls s /\ brk s' = brk s | Stop _ _ => True end.
Proof.
  intros Hs. unfold descriptor_table_get. rewrite with_stdio_ready by done.
  assert (same_objects (p ← table_lookup fd; match (p : option loc) with None => mret (-1, None) | Some e => descriptor_table_entry_inc e ;; mret (0, Some e) end : M world _)) as Hm; [|exact (Hm s)].
  same_tac; [apply same_lookup|apply same_entry_inc].
Qed.

(** The call on the file, between taking the reference and giving it back. *)
Lemma on_reference {A} e (bad : A) k F s :
  closed F -> accounted F s ->
  (forall h, (Descriptor, h) ∈ keys (owned_all (bodies s)) -> match k h s with Done _ s' => accounted F s' | Stop _ _ => True end) ->
  match (o ← load e; match get_file (body o) with
    | None => descriptor_table_entry_dec e ;; fail_with EINVAL bad
    | Some h => a ← k h; descriptor_table_entry_dec e ;; mret a
    end) s with Done _ s' => accounted F s' | Stop _ _ => True end.
Proof.
  intros HF Ha Hk. apply (load_then e _ s (fun r => match r with Done _ s' => accounted F s' | Stop _ _ => True end)); [done|]. intros o Ho.
  assert (forall (m : M world A), same_objects m -> tallies (descriptor_table_entry_dec e ;; m)) as Hd.
  { intros m Hm. apply tallies_bind; [apply tallies_entry_dec|]. intros _. by apply tallies_same. }
  destruct (get_file (body o)) as [h|] eqn:Eh; [|by apply (Hd (fail_with EINVAL bad))].
  specialize (Hk h (file_handle_owned s e o h Ho Eh)). unfold mbind at 1, M_bind at 1. destruct (k h s) as [a s'|]; [|done]. by apply (Hd (mret a)).
Qed.

(** The same from a table whose standard streams are open. *)
Definition borrows_open (P : list resource) {A} (m : M world A) : Prop :=
  forall F s, closed F -> accounted F s -> owned_by_objects P s -> stdio_initialized s = true -> match m s with Done _ s' => accounted F s' | Stop _ _ => True end.

Lemma borrows_open_handle {A} P fd (bad : A) k : (forall h, borrows ((Descriptor, h) :: P) (k h)) -> borrows_open P (with_file_handle fd bad k).
Proof.
  intros Hk F s HF Ha HP Hs. pose proof (get_same fd s Hs) as Hg. unfold with_file_handle, mbind at 1, M_bind at 1.
  destruct (descriptor_table_get fd s) as [[rc [e|]] s1|]; cbn [snd]; try done.
  - destruct Hg as (Hb & Hc & Hr). assert (accounted F s1) as Ha1 by (unfold accounted; by rewrite Hb, Hc, Hr).
    apply on_reference; try done. intros h Hh. apply Hk; try done. intros x [->|Hx]%elem_of_cons; [done|]. rewrite Hb. by apply HP.
  - destruct Hg as (Hb & Hc & Hr). cbn. unfold accounted. by rewrite Hb, Hc, Hr.
Qed.

(** A call on well-formed tables; [tallies] for those. *)
Definition settles_accounts {A} (m : M world A) : Prop :=
  forall held s, inv held s -> len s <= 2 ^ 26 -> Z.of_nat (length held) <= 2 ^ 29 -> accounted [] s ->
    match m s with Done _ s' => accounted [] s' | Stop _ _ => True end.

Lemma settles_tallies {A} (m : M world A) : tallies m -> settles_accounts m.
Proof. intros Hm held s _ _ _ Ha. by apply Hm; [apply closed_nil|]. Qed.

Lemma settles_handle {A} fd (bad : A) k : (forall h, borrows_open [(Descriptor, h)] (k h)) -> settles_accounts (with_file_handle fd bad k).
Proof.
  intros Hk held s Hi Hl Hh Ha. destruct (get_ready held s fd Hi Hl ltac:(lia)) as (r & s1 & Hg & St1 & L1 & W1).
  pose proof (tallies_get fd [] s closed_nil Ha) as Ha1. rewrite Hg in Ha1. unfold with_file_handle. rewrite (bind_done _ _ _ _ _ Hg).
  destruct (snd r) as [e|]; [|done]. apply on_reference; [apply closed_nil|done|]. intros h Hown.
  apply Hk; [apply closed_nil|done| |done]. by intros x ->%list_elem_of_singleton.
Qed.

Lemma borrows_opened {A} P (m : M world A) : borrows P m -> borrows_open P m.
Proof. intros Hm F s HF Ha HP _. by apply Hm. Qed.
End borrows.

(** ** The file system calls *)

(** [uses c] are among the handles at hand, and the answer has none. *)
Ltac plain_tac := split_and!; by intros.
Ltac uses_tac := let x := fresh in let Hx := fresh in intros x Hx; set_solver.

Ltac borrows_step :=
  match goal with
  | |- borrows _ (ask _ ≫= _) => apply borrows_ask; [plain_tac|uses_tac|intros ?]
  | |- borrows _ (with_wasi_string _ _ _) => apply borrows_string; [done|intros ?]
  | |- borrows _ (or_errno _) => apply borrows_same, same_or_errno
  | |- borrows _ (translate_error_p2 _ ≫= _) => apply borrows_bind; [apply same_translate|intros ?]
  | |- borrows _ (match ?x with _ => _ end) => destruct x
  | |- borrows _ (mret _) => apply borrows_same, same_ret
  | |- borrows _ (gets _) => apply borrows_same, same_gets
  | |- borrows _ (fail_with _ _) => apply borrows_same, same_fail
  end.
Ltac borrows_tac := cbv beta zeta; repeat (borrows_step; cbv beta zeta).
Ltac handle_tac := apply settles_handle; intros ?; apply borrows_opened; borrows_tac.

Section fs_calls.
Context `{HostLaws} `{!ResourceLaws} `{Stalling} `{!Settles}.
Implicit Types s : world.

Lemma settles_fail {A} e (a : A) : settles_accounts (fail_with e a).
Proof. by apply settles_tallies, tallies_same. Qed.

Lemma settles_lasts {A} (m : M world A) : lasts m -> settles_accounts m.
Proof. intros Hm held s Hi Hl Hh Ha. specialize (Hm held s Hi Hl Hh Ha). destruct (m s); [|done]. apply Hm. Qed.

Lemma settles_ignore {A} (m : M world A) : settles_accounts m -> settles_accounts (ignore m).
Proof. intros Hm held s Hi Hl Hh Ha. specialize (Hm held s Hi Hl Hh Ha). unfold ignore, mbind, M_bind. by destruct (m s). Qed.

Lemma lasts_settled {A} (m : M world A) : safe (2 ^ 29) m -> settles_accounts m -> lasts m.
Proof.
  intros Hm Ht held s Hi Hl Hh Ha. destruct (Hm held s Hi Hl Hh) as (a & s' & Hs & Hi' & Hg & _).
  specialize (Ht held s Hi Hl Hh Ha). rewrite Hs in Ht |- *. split; [done|]. split; [by eapply grown_bound|done].
Qed.

Lemma openat_settles fd path oflag : good_path path -> settles_accounts (__wasilibc_nocwd_openat_nomode fd path oflag).
Proof.
  intros Hp. unfold __wasilibc_nocwd_openat_nomode. destruct (openat_access_flags oflag); [|apply settles_fail].
  apply settles_handle. intros h. apply borrows_opened, borrows_string; [done|]. intros p F s HF Ha HP.
  match goal with |- context [ask ?c] => set (call := c) end. rewrite (bind_done (ask call) _ s (host _ (calls s) call) (log (Ev call) s)) by done.
  pose proof (accounted_answer call F s HF Ha) as Ha1. change (owned_by_objects (uses call) s) in HP.
  specialize (Ha1 ltac:(done) ltac:(done) ltac:(done) ltac:(done) ltac:(done) HP ltac:(done)). cbn [creates call] in Ha1.
  destruct (host _ (calls s) call) as [x|e]; [by apply add_file_accounts|].
  by apply (tallies_bind _ _ (tallies_same _ (same_translate e)) (fun _ => tallies_same _ (same_ret (-1)))).
Qed.

Lemma linkat_settles fd1 path1 fd2 path2 flag :
  good_path path1 -> good_path path2 -> settles_accounts (__wasilibc_nocwd_linkat fd1 path1 fd2 path2 flag).
Proof. intros Hp1 Hp2. apply settles_handle. intros h. apply borrows_open_handle. intros h2. borrows_tac. Qed.

Lemma renameat_settles fd1 path1 fd2 path2 :
  good_path path1 -> good_path path2 -> settles_accounts (__wasilibc_nocwd_renameat fd1 path1 fd2 path2).
Proof. intros Hp1 Hp2. apply settles_handle. intros h. apply borrows_open_handle. intros h2. borrows_tac. Qed.

Lemma fstatat_settles fd path flag : good_path path -> settles_accounts (__wasilibc_nocwd_fstatat fd path flag).
Proof.
  intros Hp. unfold __wasilibc_nocwd_fstatat. destruct (_ =? _); [|handle_tac]. destruct (has _ _); [|apply settles_fail].
  apply settles_lasts, lasts_slot, vt_fstat_keeps.
Qed.

Lemma fs_call_settles c : Forall good_path (paths c) -> settles_accounts (NocwdProps.perform c).
Proof.
  intros Hp. destruct c; cbn [paths] in Hp; repeat (apply Forall_cons_1 in Hp as [? Hp]); cbn [NocwdProps.perform]; apply settles_ignore.
  - by apply openat_settles.
  - by apply fstatat_settles.
  - unfold __wasilibc_nocwd_faccessat. destruct (_ || _); [apply settles_fail|]. handle_tac.
  - handle_tac.
  - handle_tac.
  - handle_tac.
  - by apply linkat_settles.
  - handle_tac.
  - by apply renameat_settles.
  - handle_tac.
  - handle_tac.
  - handle_tac.
  - unfold ftruncate. destruct (_ <? _); [apply settles_fail|]. handle_tac.
  - handle_tac.
  - handle_tac.
  - unfold pread. destruct (_ <? _); [apply settles_fail|]. handle_tac.
  - unfold pwrite. destruct (_ <? _); [apply settles_fail|]. handle_tac.
  - unfold posix_fadvise. destruct (_ || _); [by apply settles_tallies, tallies_same|]. handle_tac.
  - apply settles_lasts, lseek_lasts.
  - apply settles_lasts, tell_lasts.
  - apply settles_lasts, lasts_slot, vt_fstat_keeps.
  - apply settles_lasts, isatty_lasts.
  - apply settles_lasts, fcntl_lasts.
  - apply settles_tallies, tallies_dup.
  - apply settles_tallies, tallies_dup.
  - unfold __dup3. destruct (has _ _); [apply settles_fail|apply settles_tallies, tallies_dup].
Qed.

Lemma fs_call_lasts c : Forall good_path (paths c) -> lasts (NocwdProps.perform c).
Proof. intros Hp. apply lasts_settled; [by apply perform_safe; [lia|]|by apply fs_call_settles]. Qed.

Lemma lasts_ignore_inv {A} (m : M world A) : lasts (ignore m) -> lasts m.
Proof. intros Hm held s Hi Hl Hh Ha. specialize (Hm held s Hi Hl Hh Ha). unfold ignore, mbind, M_bind in Hm. by destruct (m s). Qed.
End fs_calls.
