(* ===== verification/ResourcePoll.v ===== *)
(** * Keeping to the rules of the host: poll

    The descriptors given to [ppoll] are registered one after the other; the
    objects are referred to until the end of the call, and no pollable that
    was put on the list is dropped before the host is asked to poll. *)

From S2P Require Import Prelude Errno Time Stat SockAddr Host DescTable DescTableInv DescTableSpec DescTableProps Object File Tcp Udp Vtable FdOps FdProps.
From S2P Require Import Sockets Poll Resources ResourceInv ResourceObj ResourceTcp ResourceUdp ResourceIo ResourceWorld.

(** ** Calls that drop no pollable *)

Definition spares (e : event) : Prop :=
  match e with Ev c => match drops c with Some (Pollable, _) => False | _ => True end end.

Definition sparing {T A} (m : M (octx T) A) : Prop :=
  forall s, match m s with Done _ s' | Stop _ s' => exists es, octx_log s' = octx_log s ++ es /\ Forall spares es end.

Section sparing.
Context `{Host}.

Lemma sparing_silent {T A} (m : M (octx T) A) :
  (forall s, match m s with Done _ s' | Stop _ s' => octx_log s' = octx_log s end) -> sparing m.
Proof. intros Hm s. specialize (Hm s). destruct (m s); exists []; by rewrite app_nil_r. Qed.

Lemma sparing_bind {T A B} (m : M (octx T) A) (f : A -> M (octx T) B) : sparing m -> (forall a, sparing (f a)) -> sparing (m ≫= f).
Proof.
  intros Hm Hf s. specialize (Hm s). unfold mbind, M_bind. destruct (m s) as [a s'|r s']; [|done]. destruct Hm as (es & He & Hs).
  specialize (Hf a s'). destruct (f a s'); destruct Hf as (es' & He' & Hs'); exists (es ++ es'); rewrite He', He, app_assoc; split; (done || by apply Forall_app_2).
Qed.

Lemma sparing_ask {T} {R : Set} (c : hostcall R) : spares (Ev c) -> sparing (ask c : M (octx T) R).
Proof. intros Hc s. exists [Ev c]. split; [done|]. by constructor. Qed.

Lemma sparing_as_object {T A} (wrap : T -> descriptor) t (m : M (octx T) A) : sparing m -> sparing (as_object wrap t m).
Proof. intros Hm s. unfold as_object. specialize (Hm (Octx t (octx_env s) (octx_log s))). by destruct (m _). Qed.

Lemma sparing_fail {T A} e (a : A) : sparing (fail_with e a : M (octx T) A).
Proof. apply sparing_silent. intros s. reflexivity. Qed.

Lemma sparing_error {T} e : sparing (__wasilibc_socket_error_to_errno e : M (octx T) Z).
Proof.
  apply sparing_bind; [|intros ?; apply sparing_fail]. unfold __wasilibc_map_socket_error.
  repeat match goal with |- sparing (if ?b then _ else _) => destruct b end; (apply sparing_silent; intros ?; reflexivity).
Qed.

Lemma sparing_translate {T} e : sparing (translate_error_p2 e : M (octx T) unit).
Proof. apply sparing_silent. intros s. unfold translate_error_p2. destruct (switch_errno _ _); reflexivity. Qed.
End sparing.

Ltac sparing_step :=
  match goal with
  | |- sparing (_ ≫= _) => apply sparing_bind; [|intros ?]
  | |- sparing (ask _) => apply sparing_ask; exact I
  | |- sparing (as_object _ _ _) => apply sparing_as_object
  | |- sparing (__wasilibc_socket_error_to_errno _) => apply sparing_error
  | |- sparing (translate_error_p2 _) => apply sparing_translate
  | |- sparing (if ?b then _ else _) => destruct b
  | |- sparing (match ?x with _ => _ end) => destruct x
  | |- sparing (mret _) => (apply sparing_silent; intros ?; reflexivity)
  | |- sparing (gets _) => (apply sparing_silent; intros ?; reflexivity)
  | |- sparing (update _) => (apply sparing_silent; intros ?; reflexivity)
  | |- sparing (fail_with _ _) => apply sparing_fail
  | |- sparing (halt _) => (apply sparing_silent; intros ?; reflexivity)
  end.
Ltac sparing_tac := repeat sparing_step.

Section slots.
Context `{Host}.

Lemma get_read_stream_spares o : sparing (get_read_stream o).
Proof. destruct o; cbn [get_read_stream]; unfold file_get_read_stream, stdio_get_read_stream, tcp_get_read_stream; sparing_tac. Qed.

Lemma get_write_stream_spares o : sparing (get_write_stream o).
Proof. destruct o; cbn [get_write_stream]; unfold file_get_write_stream, stdio_get_write_stream, tcp_get_write_stream; sparing_tac. Qed.

Lemma subscribe_input_spares st : sparing (subscribe_input st).
Proof. unfold subscribe_input. sparing_tac. Qed.
Lemma subscribe_output_spares st : sparing (subscribe_output st).
Proof. unfold subscribe_output. sparing_tac. Qed.
Lemma tcp_pollable_spares : sparing tcp_pollable.
Proof. unfold tcp_pollable. sparing_tac. Qed.
Lemma udp_create_streams_spares a : sparing (udp_create_streams a).
Proof. unfold udp_create_streams, udp_or_fail. sparing_tac. Qed.
Lemma udp_incoming_spares : sparing (udp_stream_pollable udp_incoming_pollable incoming_pollable).
Proof. unfold udp_stream_pollable, udp_incoming_pollable. sparing_tac. Qed.
Lemma udp_outgoing_spares : sparing (udp_stream_pollable udp_outgoing_pollable outgoing_pollable).
Proof. unfold udp_stream_pollable, udp_outgoing_pollable. sparing_tac. Qed.
Lemma tcp_finish_spares : sparing tcp_finish.
Proof. unfold tcp_finish. sparing_tac. Qed.
End slots.

(** ** Sockets that listen

    A call of [poll] makes no socket listen. *)

Definition listener (b : descriptor) : Prop := match b with DTcp t => tcp_state t = TCP_SOCKET_STATE_LISTENING | _ => False end.

Definition tcp_listener (t : tcp_socket_t) : Prop := tcp_state t = TCP_SOCKET_STATE_LISTENING.

(** [P] holds of the object after [m] only if it did before. *)
Definition calm {T A} (P : T -> Prop) (m : M (octx T) A) : Prop :=
  forall s, match m s with Done _ s' | Stop _ s' => P (self s') -> P (self s) end.

Section calm.
Context `{Host} {T : Set} (P : T -> Prop).

Lemma calm_same {A} (m : M (octx T) A) : (forall s, match m s with Done _ s' | Stop _ s' => self s' = self s end) -> calm P m.
Proof. intros Hm s. specialize (Hm s). by destruct (m s); rewrite Hm. Qed.

Lemma calm_bind {A B} (m : M (octx T) A) (f : A -> M (octx T) B) : calm P m -> (forall a, calm P (f a)) -> calm P (m ≫= f).
Proof.
  intros Hm Hf s. specialize (Hm s). unfold mbind, M_bind. destruct (m s) as [a s'|r s']; [|done]. specialize (Hf a s'). destruct (f a s'); auto.
Qed.

Lemma calm_update f : (forall t, P (f t) -> P t) -> calm P (update f).
Proof. intros Hf s. exact (Hf (self s)). Qed.

Lemma calm_error e : calm P (__wasilibc_socket_error_to_errno e).
Proof.
  apply calm_bind; [|intros ?; by apply calm_same]. unfold __wasilibc_map_socket_error.
  repeat match goal with |- calm _ (if ?b then _ else _) => destruct b end; by apply calm_same.
Qed.

Lemma calm_translate e : calm P (translate_error_p2 e).
Proof. apply calm_same. intros s. unfold translate_error_p2. by destruct (switch_errno _ _). Qed.
End calm.

Lemma calm_never {T A} (m : M (octx T) A) : calm (fun _ => False) m.
Proof. intros s. by destruct (m s). Qed.

Ltac calm_step :=
  match goal with
  | |- calm _ (_ ≫= _) => apply calm_bind; [|intros ?]
  | |- calm _ (update _) => apply calm_update; intros ?
  | |- calm _ (__wasilibc_socket_error_to_errno _) => apply calm_error
  | |- calm _ (translate_error_p2 _) => apply calm_translate
  | |- calm _ (if ?b then _ else _) => destruct b
  | |- calm _ (match ?x with _ => _ end) => destruct x
  | |- calm _ _ => by apply calm_same
  end.
Ltac calm_tac := repeat calm_step.

(** The slots of a descriptor run on the descriptor they are found with. *)
Definition calm_on {A} (b : descriptor) (m : M (octx descriptor) A) : Prop :=
  forall s, self s = b -> match m s with Done _ s' | Stop _ s' => listener (self s') -> listener b end.

Section calm_slots.
Context `{Host}.

Lemma calm_on_calm {A} b (m : M (octx descriptor) A) : calm listener m -> calm_on b m.
Proof. intros Hm s <-. apply Hm. Qed.

Lemma calm_on_tcp {A} t (m : M (octx tcp_socket_t) A) : calm tcp_listener m -> calm_on (DTcp t) (as_tcp t m).
Proof. intros Hm s _. unfold as_object. specialize (Hm (Octx t (octx_env s) (octx_log s))). by destruct (m _). Qed.

Lemma calm_on_other {T A} (wrap : T -> descriptor) b t (m : M (octx T) A) : (forall t, ~ listener (wrap t)) -> calm_on b (as_object wrap t m).
Proof. intros Hw s _. unfold as_object. destruct (m _); by intros ?%Hw. Qed.

Lemma calm_on_fail {A} b e (a : A) : calm_on b (fail_with e a).
Proof. intros s <-. exact id. Qed.

Lemma get_read_stream_calm o : calm_on o (get_read_stream o).
Proof.
  destruct o as [f|st|t|u]; cbn [get_read_stream]; [apply calm_on_other; by intros ? []..| |apply calm_on_fail].
  apply calm_on_tcp. unfold tcp_get_read_stream. calm_tac.
Qed.

Lemma get_write_stream_calm o : calm_on o (get_write_stream o).
Proof.
  destruct o as [f|st|t|u]; cbn [get_write_stream]; [apply calm_on_other; by intros ? []..| |apply calm_on_fail].
  apply calm_on_tcp. unfold tcp_get_write_stream. calm_tac.
Qed.

Lemma subscribe_input_calm st : calm listener (subscribe_input st).
Proof.
  unfold subscribe_input. calm_tac. destruct t as [| |t|]; cbn; try done. unfold set_input_pollable. by destruct (tcp_state t) eqn:E; cbn; rewrite ?E.
Qed.

Lemma subscribe_output_calm st : calm listener (subscribe_output st).
Proof.
  unfold subscribe_output. calm_tac. destruct t as [| |t|]; cbn; try done. unfold set_output_pollable. by destruct (tcp_state t) eqn:E; cbn; rewrite ?E.
Qed.

Lemma tcp_pollable_calm : calm tcp_listener tcp_pollable.
Proof. unfold tcp_pollable. calm_tac. done. Qed.

Lemma tcp_finish_calm : calm tcp_listener tcp_finish.
Proof. unfold tcp_finish. calm_tac; done. Qed.
End calm_slots.

(** *** The table *)

Section hushed.
Context `{Host}.
Implicit Types s : world.

Definition listening_at s (e : loc) : Prop := exists b, bodies s !! e = Some b /\ listener b.

Definition no_new_listener s s' : Prop := forall e, listening_at s' e -> listening_at s e.

Definition hushed (A : Type) (m : M world A) : Prop := forall s, match m s with Done _ s' => no_new_listener s s' | Stop _ _ => True end.

Lemma no_new_same s s' : bodies s' = bodies s -> no_new_listener s s'.
Proof. intros Hb e. unfold listening_at. by rewrite Hb. Qed.

Lemma no_new_trans s1 s2 s3 : no_new_listener s1 s2 -> no_new_listener s2 s3 -> no_new_listener s1 s3.
Proof. unfold no_new_listener. auto. Qed.

Lemma no_new_delete s s' e : bodies s' = delete e (bodies s) -> no_new_listener s s'.
Proof. intros Hb e' (b & Hb' & Hl). exists b. split; [|done]. rewrite Hb in Hb'. by apply lookup_delete_Some in Hb' as [_ ?]. Qed.

Lemma no_new_insert s s' e b : bodies s' = <[e := b]> (bodies s) -> (listener b -> listening_at s e) -> no_new_listener s s'.
Proof.
  intros Hb Hl e' (b' & Hb' & Hl'). rewrite Hb in Hb'. apply lookup_insert_Some in Hb' as [[<- <-]|[_ ?]]; [by apply Hl|by exists b'].
Qed.

(** Giving back a reference keeps the objects, or frees the one. *)
Lemma dec_bodies e s :
  match descriptor_table_entry_dec e s with Done _ s' => bodies s' = bodies s \/ bodies s' = delete e (bodies s) | Stop _ _ => True end.
Proof.
  unfold descriptor_table_entry_dec.
  apply (load_then e _ s (fun r => match r with Done _ s' => bodies s' = bodies s \/ bodies s' = delete e (bodies s) | Stop _ _ => True end)); [done|]. intros o Ho.
  unfold mbind at 1, M_bind, assert_. destruct (0 <? cnt o); [|done]. cbn [mret M_ret].
  unfold mbind at 1, M_bind, store, modify. set (s1 := set_heap _ s).
  assert (bodies s1 = bodies s) as H1 by (unfold s1, bodies; cbn; by rewrite bodies_insert).
  destruct (_ =? 0); [|by left]. unfold __wasilibc_descriptor_deallocate.
  apply (load_then e _ s1 (fun r => match r with Done _ s' => bodies s' = bodies s \/ bodies s' = delete e (bodies s) | Stop _ _ => True end)); [done|].
  intros o' _. unfold mbind, M_bind, assert_. destruct (_ =? 0); [|done]. unfold gets at 1, modify at 1. cbn [mret M_ret]. cbv beta.
  destruct (vtable_free (body o') (dt_env s1)) as [ops v].
  assert (same_objects (live_descriptors_dec : M world unit)) as Hd by (unfold live_descriptors_dec; same_tac). cbn.
  match goal with |- context [live_descriptors_dec ?t] => specialize (Hd t) end. destruct (live_descriptors_dec _); [|done].
  destruct Hd as (Hb & _). right. rewrite Hb, <- H1. unfold bodies. cbn. by rewrite fmap_delete.
Qed.

Lemma hushed_dec e : hushed unit (descriptor_table_entry_dec e).
Proof.
  intros s. pose proof (dec_bodies e s) as Hd. destruct (descriptor_table_entry_dec e s); [|done]. destruct Hd; [by apply no_new_same|by eapply no_new_delete].
Qed.

#[export] Instance hushed_judgement : Judgement hushed.
Proof.
  split.
  - intros A m m' He Hm s. rewrite <- He. apply Hm.
  - intros A m Hm s. specialize (Hm s). destruct (m s); [|done]. destruct Hm as [? _]. by apply no_new_same.
  - intros A B m f Hm Hf s. specialize (Hm s). unfold mbind, M_bind. destruct (m s) as [a s'|]; [|done]. specialize (Hf a s').
    destruct (f a s'); [|done]. by eapply no_new_trans.
  - apply hushed_dec.
  - intros A n k Hk s. rewrite (bind_done (new_object _) _ s (brk s) _ eq_refl). specialize (Hk (brk s) (set_brk (S (brk s)) (set_heap (<[brk s := Object 0 (stdio_new n)]> (heap s)) s))).
    destruct (k _ _); [|done]. eapply no_new_trans; [|exact Hk]. eapply (no_new_insert s _ (brk s) (stdio_new n)); [|by intros []].
    unfold bodies. cbn. by rewrite fmap_insert.
Qed.
End hushed.

(** ** Pollables stay *)

Section kept.
Context `{HostLaws} `{!ResourceLaws}.

Definition has_pollable (p : Z) (l : list entry) : Prop := (Pollable, p) ∈ keys l.

Lemma live_kept h es m m' p :
  conform h = Some m -> conform (h ++ es) = Some m' -> Forall spares es -> has_pollable p (live m) -> has_pollable p (live m').
Proof.
  intros Hm. revert m'. induction es as [|[R c] es IH] using rev_ind; intros m' Hm' Hs Hp.
  - rewrite app_nil_r in Hm'. congruence.
  - rewrite app_assoc, conform_snoc in Hm'. destruct (conform (h ++ es)) as [m1|]; [|done]. cbn [mbind option_bind] in Hm'.
    destruct (admits c m1); [|done]. injection Hm' as <-. apply Forall_app in Hs as [Hs Hc]. specialize (IH m1 eq_refl Hs Hp).
    inversion_clear Hc as [|? ? Hsp _]. unfold has_pollable, keys in *. cbn [advance live]. rewrite fmap_app. apply elem_of_app. right.
    fold (keys (set_listening (starts_listening c (host _ (h ++ es) c)) (without (drops c) (live m1)))). rewrite keys_set_listening.
    unfold keys. cbn in Hsp. destruct (drops c) as [[k x]|]; [|done]. apply list_elem_of_fmap in IH as (e & He & Hin).
    apply list_elem_of_fmap. exists e. split; [done|]. cbn [without]. apply list_elem_of_filter. split; [|done].
    rewrite <- He. intros [= <- _]. done.
Qed.

Lemma net_no_pollable h p : ~ has_pollable p (net h).
Proof. unfold has_pollable, net. destruct (global_network [] h); cbn; [by intros [=]%list_elem_of_singleton|apply not_elem_of_nil]. Qed.

Lemma pollables_kept {T} `{Owner T} F (s s' : octx T) es p :
  ResourceObj.holds F s -> ResourceObj.holds F s' -> octx_log s' = octx_log s ++ es -> Forall spares es ->
  has_pollable p (owned (self s)) -> has_pollable p (owned (self s')).
Proof.
  intros [_ Ho] [_ Ho'] Hl Hs Hp. destruct (owns_keys _ _ _ Ho) as [Hn _]. destruct Ho as (m & Hm & Hlm & _), Ho' as (m' & Hm' & Hlm' & _).
  rewrite Hl in Hm'. assert (has_pollable p (live m')) as Hp'.
  { eapply live_kept; [exact Hm|exact Hm'|done|]. unfold has_pollable, keys. rewrite Hlm, !fmap_app, !elem_of_app. auto. }
  unfold has_pollable, keys in Hp'. rewrite Hlm', !fmap_app, !elem_of_app in Hp'. destruct Hp' as [Hp'|[Hp'|Hp']]; [|done|].
  - by apply net_no_pollable in Hp'.
  - exfalso. unfold keys in Hn. rewrite !fmap_app in Hn. apply list.NoDup_app in Hn as (_ & _ & Hn).
    apply list.NoDup_app in Hn as (_ & Hn & _). by apply (Hn _ Hp).
Qed.

Lemma wpw_growing `{Stalling} {T A} `{Owner T} (m : M (octx T) A) F (s : octx T) (Q : A -> T -> Prop) :
  sparing m -> ResourceObj.holds F s -> wpw m (fun a s' => ResourceObj.holds F s' /\ Q a (self s')) s ->
  wpw m (fun a s' => ResourceObj.holds F s' /\ (forall p, has_pollable p (owned (self s)) -> has_pollable p (owned (self s'))) /\ Q a (self s')) s.
Proof.
  intros Hm Hs Hw. specialize (Hm s). unfold wpw in *. destruct (m s) as [a s'|r s']; [|done].
  destruct Hm as (es & He & Hf), Hw as [Hs' HQ]. split; [done|]. split; [|done]. intros p. by eapply pollables_kept.
Qed.
End kept.

(** ** The state of a call *)

(** The bits of [a] are among those of [b]. *)
Definition within (a b : Z) : Prop := Z.ldiff a b = 0.

Lemma within_refl a : within a a.
Proof. apply Z.ldiff_diag. Qed.

Lemma within_lor a b c : within a c -> within b c -> within (Z.lor a b) c.
Proof. unfold within. rewrite !Z.ldiff_land, Z.land_lor_distr_l. by intros -> ->. Qed.

Lemma within_land a b c : within a c -> within (Z.land a b) c.
Proof. unfold within. rewrite !Z.ldiff_land. intros Ha. by rewrite <- Z.land_assoc, (Z.land_comm b), Z.land_assoc, Ha, Z.land_0_l. Qed.

Lemma within_more a b c : within a b -> within a (Z.lor b c).
Proof.
  unfold within. rewrite !Z.ldiff_land, Z.lnot_lor. intros Ha. by rewrite Z.land_assoc, Ha, Z.land_0_l.
Qed.

Lemma within_trans a b c : within a b -> within b c -> within a c.
Proof.
  unfold within. intros Hab Hbc. apply Z.bits_inj'. intros n Hn. rewrite Z.ldiff_spec, Z.bits_0.
  pose proof (f_equal (fun z => Z.testbit z n) Hab) as H1'. pose proof (f_equal (fun z => Z.testbit z n) Hbc) as H2'. cbv beta in H1', H2'.
  rewrite Z.ldiff_spec, Z.bits_0 in H1', H2'. by destruct (Z.testbit a n), (Z.testbit b n), (Z.testbit c n).
Qed.

Lemma within_grow a b : within a (Z.lor a b).
Proof. apply within_more, within_refl. Qed.

Lemma within_nval b : within POLLNVAL (Z.lor b POLLNVAL).
Proof. unfold within. rewrite Z.lor_comm. apply within_more, within_refl. Qed.

Lemma has_within b k : 0 <= k -> has b (Z.shiftl 1 k) = true -> within (Z.shiftl 1 k) b.
Proof.
  intros Hk. rewrite has_bit by done. intros Hb. unfold within. apply Z.bits_inj'. intros n Hn. rewrite Z.ldiff_spec, Z.bits_0, Z.shiftl_1_l.
  destruct (decide (n = k)) as [->|Hne]; [by rewrite Hb, andb_false_r|]. by rewrite Z.pow2_bits_false.
Qed.

Fixpoint nready (l : list pollfd) : Z := match l with [] => 0 | p :: l' => (if revents p =? 0 then 0 else 1) + nready l' end.

Lemma nready_insert l i p q :
  l !! i = Some p -> nready (<[i := q]> l) = nready l - (if revents p =? 0 then 0 else 1) + (if revents q =? 0 then 0 else 1).
Proof.
  revert i. induction l as [|x l IH]; intros [|i] Hp; try done; cbn in Hp.
  - injection Hp as ->. cbn. lia.
  - change (<[S i := q]> (x :: l)) with (x :: <[i := q]> l). cbn [nready]. rewrite (IH i Hp). lia.
Qed.

(** What a call may store into an entry of the array, when [mask] are the events
    it may report for it. *)
Definition answer (mask : pollfd -> Z) (p q : pollfd) : Prop := pfd q = pfd p /\ pevents q = pevents p /\ within (revents q) (mask p).

Record fine (mask : pollfd -> Z) (l : list pollfd) (st : poll_state_t) : Prop := {
  fine_fds : Forall2 (answer mask) l (fds st);
  fine_count : event_count st = nready (fds st);
  fine_states : Forall (fun x => exists p, l !! st_pollfd x = Some p /\ within (st_events x) (mask p)) (states st);
}.

Section polling.
Context `{HostLaws} `{!ResourceLaws}.
Context (mask : pollfd -> Z).
#[local] Instance always_returns : Stalling := {| may_stall := false; may_abort := false |}.
Implicit Types s : world.

Record J (F : list entry) (X : list loc) (l : list pollfd) (st : poll_state_t) s : Prop := {
  j_inv : inv (X ++ (st_entry <$> states st)) s;
  j_len : len s <= 2 ^ 26;
  j_acc : accounted F s;
  j_regs : Forall2 (fun x p => exists b, bodies s !! st_entry x = Some b /\ has_pollable p (owned b)) (states st) (pollables st);
  j_fine : fine mask l st;
  j_room : Z.of_nat (length X) + cap st <= 2 ^ 30;
  j_cap : Z.of_nat (length (states st)) <= cap st;
}.

(** The table is the same but for the objects, of which no more are listening sockets. *)
Definition same_table s s' : Prop := stdio_initialized s' = stdio_initialized s /\ open_fds s' = open_fds s /\ no_new_listener s s'.

Lemma same_table_trans s1 s2 s3 : same_table s1 s2 -> same_table s2 s3 -> same_table s1 s3.
Proof. intros (? & ? & ?) (? & ? & ?). split; [congruence|]. split; [congruence|]. by eapply no_new_trans. Qed.

Lemma same_table_bodies s s' : stdio_initialized s' = stdio_initialized s -> open_fds s' = open_fds s -> bodies s' = bodies s -> same_table s s'.
Proof. intros Hs Ho Hb. split; [done|]. split; [done|]. by apply no_new_same. Qed.

Lemma wpw_and_calm {A} b (m : M (octx descriptor) A) v h F (Q : A -> octx descriptor -> Prop) :
  calm_on b m -> wpw m (fun a c' => ResourceObj.holds F c' /\ Q a c') (Octx b v h) ->
  wpw m (fun a c' => ResourceObj.holds F c' /\ (listener (self c') -> listener b) /\ Q a c') (Octx b v h).
Proof. intros Hm. specialize (Hm (Octx b v h) eq_refl). unfold wpw. destruct (m _); naive_solver. Qed.

Lemma J_on_object {A} F X l st s e b (m : descriptor -> M (octx descriptor) A) (Q : A -> descriptor -> Prop) :
  closed F -> J F X l st s -> bodies s !! e = Some b -> sparing (m b) -> calm_on b (m b) ->
  (forall F' (c : octx descriptor), closed F' -> self c = b -> ResourceObj.holds F' c ->
     wpw (m b) (fun a c' => ResourceObj.holds F' c' /\ Q a (self c')) c) ->
  exists a s' b', on_object e m s = Done a s' /\ J F X l st s' /\ bodies s' !! e = Some b' /\ Q a b' /\ same_table s s'.
Proof.
  intros HF [[W Hst] Jl Ja Jr Jf Jm Jc] Hb Hsp Hcm Hm. assert (exists o, heap s !! e = Some o /\ body o = b) as (o & Ho & <-).
  { unfold bodies in Hb. rewrite lookup_fmap in Hb. destruct (heap s !! e) as [o|]; [|done]. injection Hb as <-. by exists o. }
  set (R := fun a c => (listener (self c) -> listener (body o)) /\ (forall p, has_pollable p (owned (body o)) -> has_pollable p (owned (self c))) /\ Q a (self c)).
  assert (forall F' (c : octx descriptor), closed F' -> c = Octx (body o) (dt_env s) (calls s) -> ResourceObj.holds F' c -> wpw (m (body o)) (fun a c' => ResourceObj.holds F' c' /\ R a c') c) as Hm'.
  { intros F' c HF' -> Hc. eapply wpw_and_calm; [exact Hcm|]. by apply wpw_growing; [| |apply Hm]. }
  pose proof (on_object_accounts e o m [] (fun _ => []) R F s HF Ho Ja) as Hw.
  destruct (on_object e m s) as [a s'|r s'].
  2: { exfalso. destruct Hw as [[[_ [=]]|(_ & [=] & _)] _]. intros F' c HF' Hc. by apply Hm'. }
  destruct Hw as [Ja' (c & -> & Hcalm & Hgrow & HQ)]; [intros F' c HF' Hc; by apply Hm'|].
  exists a, (after e o c s), (self c). split; [done|].
  assert (bodies (after e o c s) = <[e := self c]> (bodies s)) as Hbs by (unfold bodies, after; cbn; by rewrite fmap_insert).
  split; [split; try done|].
  - split; [by apply wf_after|exact Hst].
  - eapply list.Forall2_impl; [exact Jr|]. intros x p (b & Hx & Hp). rewrite Hbs. destruct (decide (st_entry x = e)) as [Heq|Hne].
    + rewrite Heq in *. exists (self c). rewrite lookup_insert_eq. split; [done|]. apply Hgrow. rewrite Hb in Hx. by injection Hx as ->.
    + exists b. by rewrite lookup_insert_ne by congruence.
  - rewrite Hbs. split; [by rewrite lookup_insert_eq|]. split; [done|]. split; [done|]. split; [done|].
    eapply no_new_insert; [exact Hbs|]. intros Hl. exists (body o). split; [done|by apply Hcalm].
Qed.

Lemma fine_add l st i e ev h :
  fine mask l st -> (exists p, l !! i = Some p /\ within ev (mask p)) -> fine mask l (add_state (State i e ev) h st).
Proof. intros [Hf Hc Hs] Hi. split; [done|done|]. cbn. apply Forall_app_2; [done|]. by repeat constructor. Qed.

Lemma poll_add_spec F X l st s e b i ev h :
  J F (e :: X) l st s -> cur_pollfd st = Some i -> cur_entry st = Some e -> Z.of_nat (length (states st)) < cap st ->
  bodies s !! e = Some b -> has_pollable h (owned b) -> (exists p, l !! i = Some p /\ within ev (mask p)) ->
  exists s', __wasilibc_poll_add st ev h s = Done (0, add_state (State i e ev) h st) s' /\
    J F (e :: X) l (add_state (State i e ev) h st) s' /\ bodies s' = bodies s /\ same_table s s'.
Proof.
  intros [[W Hst] Jl Ja Jr Jf Jm Jc] Hi He Hroom Hb Hh Hl. unfold __wasilibc_poll_add. replace (cap st <=? _) with false by lia. rewrite Hi, He.
  assert (exists o, heap s !! e = Some o) as (o & Ho) by (unfold bodies in Hb; rewrite lookup_fmap in Hb; destruct (heap s !! e) as [o|]; [by exists o|done]).
  destruct (entry_inc_spec _ s e o W) as [Hinc W']; [|done|].
  { unfold fits. rewrite length_app, length_fmap. lia. }
  rewrite (bind_done _ _ _ _ _ Hinc). eexists. split; [done|].
  assert (bodies (set_heap (<[e := Object (cnt o + 1) (body o)]> (heap s)) s) = bodies s) as Hbs by (unfold bodies; cbn; by apply bodies_insert).
  split; [split|split; [exact Hbs|by apply same_table_bodies]]; cbn [states pollables add_state cap]; try done.
  - split; [|exact Hst]. eapply wf_perm, W'. rewrite fmap_app. cbn. solve_Permutation.
  - destruct Ja as (Hv & Hk & Hown). unfold accounted. rewrite Hbs. by split.
  - apply Forall2_app; [by rewrite Hbs|]. constructor; [|done]. exists b. by rewrite Hbs.
  - by apply fine_add.
  - rewrite length_app. cbn [length]. lia.
Qed.

(** [st'] adds at most [n] pollables to [st]. *)
Record extends (n : nat) (st st' : poll_state_t) : Prop := {
  ext_cap : cap st' = cap st;
  ext_pollfd : cur_pollfd st' = cur_pollfd st;
  ext_entry : cur_entry st' = cur_entry st;
  ext_more : (length (states st) <= length (states st'))%nat;
  ext_bound : (length (states st') <= length (states st) + n)%nat;
  ext_count : event_count st <= event_count st';
  ext_fds : Forall2 (fun q q' => within (revents q) (revents q')) (fds st) (fds st');
}.

Lemma grow_refl l : Forall2 (fun q q' => within (revents q) (revents q')) l l.
Proof. induction l; constructor; [apply within_refl|done]. Qed.

Lemma grow_trans l1 l2 l3 :
  Forall2 (fun q q' => within (revents q) (revents q')) l1 l2 -> Forall2 (fun q q' => within (revents q) (revents q')) l2 l3 ->
  Forall2 (fun q q' => within (revents q) (revents q')) l1 l3.
Proof. intros H12. revert l3. induction H12; inversion 1; subst; constructor; [by eapply within_trans|auto]. Qed.

Lemma extends_refl n st : extends n st st.
Proof. split; try done; try apply grow_refl; lia. Qed.

Lemma extends_trans n m st1 st2 st3 : extends n st1 st2 -> extends m st2 st3 -> extends (n + m) st1 st3.
Proof. intros [] []. split; try congruence; try lia. by eapply grow_trans. Qed.

Lemma extends_add x h st : extends 1 st (add_state x h st).
Proof. split; cbn; rewrite ?length_app; cbn; done || lia || apply grow_refl. Qed.

Lemma nready_nonneg l : 0 <= nready l.
Proof. induction l; cbn; [lia|]. destruct (_ =? _); lia. Qed.

Lemma nready_pos l i p : l !! i = Some p -> revents p <> 0 -> 0 < nready l.
Proof.
  revert i. induction l as [|x l IH]; intros [|i] Hp Hr; try done; cbn in *.
  - injection Hp as ->. pose proof (nready_nonneg l). destruct (Z.eqb_spec (revents p) 0); lia.
  - specialize (IH i Hp Hr). destruct (_ =? _); lia.
Qed.

Lemma fine_ready l st i p q ev :
  fine mask l st -> l !! i = Some p -> fds st !! i = Some q -> within ev (mask p) -> ev <> 0 ->
  fine mask l (PollState (states st) (pollables st) (cap st) (if revents q =? 0 then event_count st + 1 else event_count st) (cur_pollfd st) (cur_entry st)
    (<[i := set_revents (Z.lor (revents q) ev) q]> (fds st))).
Proof.
  intros [Hf Hc Hs] Hp Hq Hev Hz. split; cbn [fds event_count states]; [| |done].
  - rewrite <- (list_insert_id l i p Hp). apply Forall2_insert; [done|]. destruct (Forall2_lookup_lr _ _ _ _ _ _ Hf Hp Hq) as (H1' & H2' & H3').
    split; [done|]. split; [done|]. by apply within_lor.
  - rewrite (nready_insert (fds st) i q) by done. cbn [revents set_revents]. rewrite Hc.
    destruct (Z.eqb_spec (Z.lor (revents q) ev) 0) as [Hl|Hl]; [apply Z.lor_eq_0_iff in Hl; tauto|]. destruct (revents q =? 0); lia.
Qed.

Lemma poll_ready_spec F X l st s i p ev :
  J F X l st s -> cur_pollfd st = Some i -> l !! i = Some p -> within ev (mask p) ->
  exists st', __wasilibc_poll_ready st ev s = Done st' s /\ J F X l st' s /\ extends 0 st st' /\ states st' = states st /\
    (ev <> 0 -> 0 < event_count st') /\ (exists q', fds st' !! i = Some q' /\ within ev (revents q')).
Proof.
  intros [Ji Jl Ja Jr Jf Jm Jc] Hi Hp Hev. pose proof Jf as [Hf Hc Hs]. unfold __wasilibc_poll_ready. rewrite Hi.
  destruct (Forall2_lookup_l _ _ _ _ _ Hf Hp) as (q & Hq & Ha). rewrite Hq. eexists. split; [done|]. destruct (Z.eqb_spec ev 0) as [->|Hz].
  - split; [done|]. split; [apply extends_refl|]. split; [done|]. split; [lia|]. by exists q.
  - pose proof (fine_ready l st i p q ev Jf Hp Hq Hev Hz) as Hfr. rewrite Hi in Hfr. split; [by split|]. split; [split; cbn; try done; [lia..|destruct (_ =? _); lia|]|].
    { rewrite <- (list_insert_id (fds st) i q Hq) at 1. apply Forall2_insert; [apply grow_refl|]. apply within_grow. }
    assert (<[i := set_revents (Z.lor (revents q) ev) q]> (fds st) !! i = Some (set_revents (Z.lor (revents q) ev) q)) as Hnew
      by (apply list_lookup_insert_eq; by apply lookup_lt_Some in Hq).
    split; [done|]. split; [|eexists; split; [exact Hnew|]; cbn; rewrite Z.lor_comm; apply within_grow]. intros _. destruct Hfr as [_ Hc' _]. rewrite Hc'. cbn [fds].
    apply (nready_pos _ i (set_revents (Z.lor (revents q) ev) q)); [done|].
    cbn. intros Hl%Z.lor_eq_0_iff. tauto.
Qed.

Lemma holds_elem (l : loc) held : l ∈ held -> 0 < DescTableInv.holds held l.
Proof.
  induction held as [|x held IH]; [by intros ?%elem_of_nil|]. intros Hl. pose proof (holds_range held l). cbn.
  apply elem_of_cons in Hl as [Hl|Hl]; [subst; rewrite Nat.eqb_refl; lia|]. specialize (IH Hl). destruct (_ =? _)%nat; lia.
Qed.

Lemma inv_perm held held' s : held ≡ₚ held' -> inv held s -> inv held' s.
Proof. intros Hp [W Hst]. split; [by eapply wf_perm|done]. Qed.

Lemma dec_step F held s e :
  closed F -> inv (e :: held) s -> len s <= 2 ^ 26 -> Z.of_nat (length held) < 2 ^ 30 -> accounted F s ->
  descriptor_table_entry_dec e s = Done tt (release e s) /\ inv held (release e s) /\ len (release e s) = len s /\
  accounted F (release e s) /\ same_table s (release e s).
Proof.
  intros HF [W Hst] Hl Hh Ja. pose proof (entry_dec_release _ s e W ltac:(unfold fits; cbn [length]; lia)) as Hd.
  pose proof (tallies_entry_dec e F s HF Ja) as Ja'. rewrite Hd in Ja'. destruct (release_frame e s) as (He & Hl' & _ & Hs' & _ & _ & Ho).
  pose proof (hushed_dec e s) as Hn. rewrite Hd in Hn.
  split; [done|]. split; [split; [by apply wf_release|rewrite Hs', He; done]|]. done.
Qed.

(** Giving back the reference of the turn. *)
Lemma J_dec F X l st s e :
  closed F -> J F (e :: X) l st s ->
  exists s', descriptor_table_entry_dec e s = Done tt s' /\ J F X l st s' /\ same_table s s'.
Proof.
  intros HF [Ji Jl Ja Jr Jf Jm Jc]. pose proof Ji as [W _]. cbn [length app] in *.
  assert (Z.of_nat (length (X ++ (st_entry <$> states st))) < 2 ^ 30) as Hlen by (rewrite length_app, length_fmap; lia).
  destruct (dec_step F _ s e HF Ji Jl Hlen Ja) as (Hd & Hi & L' & Ja' & Hs'). exists (release e s). split; [done|]. split; [|done].
  split; try done; [lia| |lia]. apply Forall2_same_length_lookup_2; [by eapply Forall2_length|].
  intros k x h Hx Hk. destruct (Forall2_lookup_lr _ _ _ _ _ _ Jr Hx Hk) as (b & Hb & Hh). apply list_elem_of_lookup_2 in Hx. exists b. split; [|done]. rewrite (release_bodies _ s e W). case_bool_decide as Hrefs; [done|].
  rewrite lookup_delete_ne; [done|]. intros ->. apply Hrefs.
  assert (st_entry x ∈ X ++ (st_entry <$> states st)) as Hin by (apply elem_of_app; right; by apply list_elem_of_fmap_2).
  pose proof (refs_range (entries s) (st_entry x)). apply holds_elem in Hin. lia.
Qed.

(** ** The slots of a turn *)

Lemma in_has_pollable h i (l : list entry) : ((Pollable, h), i) ∈ l -> has_pollable h l.
Proof. intros Hi. by apply (list_elem_of_fmap_2 fst) in Hi. Qed.

Lemma subscribe_input_spec F (c : octx descriptor) stream :
  ResourceObj.holds F c -> reads (self c) stream ->
  wpw (subscribe_input stream) (fun h c' => ResourceObj.holds F c' /\ has_pollable h (owned (self c')) /\
    exists q, self c' = set_read_pollable q (self c)) c.
Proof.
  intros Hc Hr. unfold subscribe_input. wpw_step. wpw_step. wpw_step. eapply (read_pollable_spec F); [done..|]. intros s' Hs' _ Hin Hq.
  wpw_steps. split; [done|]. split; [by eapply in_has_pollable|done].
Qed.

Lemma subscribe_output_spec F (c : octx descriptor) stream :
  ResourceObj.holds F c -> writes (self c) stream ->
  wpw (subscribe_output stream) (fun h c' => ResourceObj.holds F c' /\ has_pollable h (owned (self c')) /\
    exists q, self c' = set_write_pollable q (self c)) c.
Proof.
  intros Hc Hr. unfold subscribe_output. wpw_step. wpw_step. wpw_step. eapply (write_pollable_spec F); [done..|]. intros s' Hs' _ Hin Hq.
  wpw_steps. split; [done|]. split; [by eapply in_has_pollable|done].
Qed.

(** An operation of a socket, as an operation of its descriptor. *)
Lemma wpw_tcp {A} t (m : M (octx tcp_socket_t) A) F (c : octx descriptor) (Q : A -> tcp_socket_t -> Prop) :
  self c = DTcp t -> ResourceObj.holds F c ->
  (ResourceObj.holds F (Octx t (octx_env c) (octx_log c)) -> wpw m (fun a c' => ResourceObj.holds F c' /\ Q a (self c')) (Octx t (octx_env c) (octx_log c))) ->
  wpw (as_tcp t m) (fun a c' => ResourceObj.holds F c' /\ exists t', self c' = DTcp t' /\ Q a t') c.
Proof. intros Hc Hh Hm. by apply (keeps_as_object DTcp). Qed.

Lemma wpw_udp {A} u (m : M (octx udp_socket_t) A) F (c : octx descriptor) (Q : A -> udp_socket_t -> Prop) :
  self c = DUdp u -> ResourceObj.holds F c ->
  (ResourceObj.holds F (Octx u (octx_env c) (octx_log c)) -> wpw m (fun a c' => ResourceObj.holds F c' /\ Q a (self c')) (Octx u (octx_env c) (octx_log c))) ->
  wpw (as_udp u m) (fun a c' => ResourceObj.holds F c' /\ exists u', self c' = DUdp u' /\ Q a u') c.
Proof. intros Hc Hh Hm. by apply (keeps_as_object DUdp). Qed.

Lemma J_on_tcp {A} F X l st s e t (m : M (octx tcp_socket_t) A) (Q : A -> tcp_socket_t -> Prop) :
  closed F -> J F X l st s -> bodies s !! e = Some (DTcp t) -> sparing m -> calm tcp_listener m ->
  (forall F' (c : octx tcp_socket_t), closed F' -> self c = t -> ResourceObj.holds F' c -> wpw m (fun a c' => ResourceObj.holds F' c' /\ Q a (self c')) c) ->
  exists a s' t', on_tcp e m s = Done a s' /\ J F X l st s' /\ bodies s' !! e = Some (DTcp t') /\ Q a t' /\ same_table s s'.
Proof.
  intros HF Hj Hb Hsp Hcm Hm.
  destruct (J_on_object F X l st s e (DTcp t) (fun o => match o with DTcp t => as_tcp t m | _ => halt Undef end) (fun a b => exists t', b = DTcp t' /\ Q a t') HF Hj Hb)
    as (a & s' & b' & Hd & Hj' & Hb' & (t' & -> & HQ) & Hs'); [by apply sparing_as_object|by apply calm_on_tcp| |].
  - intros F' c HF' Hc Hh. apply (wpw_tcp t m F' c Q Hc Hh). intros Hh'. by apply Hm.
  - by exists a, s', t'.
Qed.

Lemma J_on_udp {A} F X l st s e u (m : M (octx udp_socket_t) A) (Q : A -> udp_socket_t -> Prop) :
  closed F -> J F X l st s -> bodies s !! e = Some (DUdp u) -> sparing m ->
  (forall F' (c : octx udp_socket_t), closed F' -> self c = u -> ResourceObj.holds F' c -> wpw m (fun a c' => ResourceObj.holds F' c' /\ Q a (self c')) c) ->
  exists a s' u', on_udp e m s = Done a s' /\ J F X l st s' /\ bodies s' !! e = Some (DUdp u') /\ Q a u' /\ same_table s s'.
Proof.
  intros HF Hj Hb Hsp Hm.
  destruct (J_on_object F X l st s e (DUdp u) (fun o => match o with DUdp u => as_udp u m | _ => halt Undef end) (fun a b => exists u', b = DUdp u' /\ Q a u') HF Hj Hb)
    as (a & s' & b' & Hd & Hj' & Hb' & (u' & -> & HQ) & Hs'); [by apply sparing_as_object|apply calm_on_other; by intros ? []| |].
  - intros F' c HF' Hc Hh. apply (wpw_udp u m F' c Q Hc Hh). intros Hh'. by apply Hm.
  - by exists a, s', u'.
Qed.

(** The turn of the entry [p] at [i] of the array: its object is [b], at [e]. *)
Record turn (F : list entry) (X : list loc) (l : list pollfd) (i : nat) (p : pollfd) (e : loc) (b : descriptor) (st : poll_state_t) s : Prop := {
  turn_j : J F (e :: X) l st s;
  turn_pollfd : cur_pollfd st = Some i;
  turn_entry : cur_entry st = Some e;
  turn_at : l !! i = Some p;
  turn_body : bodies s !! e = Some b;
  turn_mask : within (pevents p) (mask p);
}.

Definition room (n : nat) (st : poll_state_t) : Prop := Z.of_nat (length (states st)) + Z.of_nat n <= cap st.

Definition busy (st : poll_state_t) : Prop := (0 < length (states st))%nat \/ 0 < event_count st.

(** A step of a turn that adds at most [n] pollables; [Q] of its result and of
    the object afterwards. *)
Definition step (n : nat) F X l i p e st s (out : outcome world (Z * poll_state_t)) (Q : Z -> poll_state_t -> descriptor -> Prop) : Prop :=
  exists rc st' s' b', out = Done (rc, st') s' /\ turn F X l i p e b' st' s' /\ extends n st st' /\ same_table s s' /\ -1 <= rc <= 0 /\ Q rc st' b'.

Lemma turn_add F X l i p e b st s ev h :
  turn F X l i p e b st s -> room 1 st -> has_pollable h (owned b) -> within ev (pevents p) ->
  step 1 F X l i p e st s (__wasilibc_poll_add st ev h s) (fun rc st' b' => rc = 0 /\ b' = b /\ busy st').
Proof.
  intros [Hj Hi He Hp Hb Hmk] Hr Hh Hev. destruct (poll_add_spec F X l st s e b i ev h Hj Hi He) as (s' & Ha & Hj' & Hbs & Hs);
    [unfold room in Hr; lia|done|done|exists p; split; [done|by eapply within_trans]|].
  exists 0, (add_state (State i e ev) h st), s', b. split; [done|]. split; [split; try done; by rewrite Hbs|].
  split; [apply extends_add|]. split; [done|]. split; [lia|]. split; [done|]. split; [done|]. left. cbn. rewrite length_app. cbn. lia.
Qed.

Lemma turn_input F X l i p e b st s stream :
  closed F -> turn F X l i p e b st s -> room 1 st -> reads b stream -> within POLLRDNORM (pevents p) ->
  step 1 F X l i p e st s (__wasilibc_poll_add_input_stream st e stream s)
    (fun rc st' b' => rc = 0 /\ (exists q, b' = set_read_pollable q b) /\ busy st').
Proof.
  intros HF [Hj Hi He Hp Hb Hmk] Hr Hst Hev. unfold __wasilibc_poll_add_input_stream.
  destruct (J_on_object F (e :: X) l st s e b (fun _ => subscribe_input stream) (fun h b' => has_pollable h (owned b') /\ exists q, b' = set_read_pollable q b) HF Hj Hb)
    as (h & s1 & b1 & Hd & Hj1 & Hb1 & (Hh & Hq) & Hs1); [apply subscribe_input_spares|apply calm_on_calm, subscribe_input_calm| |].
  { intros F' c HF' Hc Hh. subst b. by apply subscribe_input_spec. }
  rewrite (bind_done _ _ _ _ _ Hd). destruct (turn_add F X l i p e b1 st s1 POLLRDNORM h) as (rc & st' & s' & b' & -> & Ht & Hx & Hs & Hrc & Hz & -> & Hbusy); [by split|done..|].
  exists rc, st', s', b1. split; [done|]. split; [done|]. split; [done|]. split; [by eapply same_table_trans|]. by split.
Qed.

Lemma turn_output F X l i p e b st s stream :
  closed F -> turn F X l i p e b st s -> room 1 st -> writes b stream -> within POLLWRNORM (pevents p) ->
  step 1 F X l i p e st s (__wasilibc_poll_add_output_stream st e stream s)
    (fun rc st' b' => rc = 0 /\ (exists q, b' = set_write_pollable q b) /\ busy st').
Proof.
  intros HF [Hj Hi He Hp Hb Hmk] Hr Hst Hev. unfold __wasilibc_poll_add_output_stream.
  destruct (J_on_object F (e :: X) l st s e b (fun _ => subscribe_output stream) (fun h b' => has_pollable h (owned b') /\ exists q, b' = set_write_pollable q b) HF Hj Hb)
    as (h & s1 & b1 & Hd & Hj1 & Hb1 & (Hh & Hq) & Hs1); [apply subscribe_output_spares|apply calm_on_calm, subscribe_output_calm| |].
  { intros F' c HF' Hc Hh. subst b. by apply subscribe_output_spec. }
  rewrite (bind_done _ _ _ _ _ Hd). destruct (turn_add F X l i p e b1 st s1 POLLWRNORM h) as (rc & st' & s' & b' & -> & Ht & Hx & Hs & Hrc & Hz & -> & Hbusy); [by split|done..|].
  exists rc, st', s', b1. split; [done|]. split; [done|]. split; [done|]. split; [by eapply same_table_trans|]. by split.
Qed.

Lemma turn_none F X l i p e b st s rc :
  turn F X l i p e b st s -> -1 <= rc <= 0 ->
  step 0 F X l i p e st s (Done (rc, st) s) (fun rc' st' b' => rc' = rc /\ st' = st /\ b' = b).
Proof. intros Ht Hrc. exists rc, st, s, b. split; [done|]. split; [done|]. split; [apply extends_refl|]. split; [by apply same_table_bodies|done]. Qed.

Lemma step_and_then n m F X l i p e st s (w : M world (Z * poll_state_t)) k Q R :
  step n F X l i p e st s (w s) Q ->
  (forall rc st' s' b', turn F X l i p e b' st' s' -> extends n st st' -> Q rc st' b' -> rc < 0 -> R (-1) st' b') ->
  (forall rc st' s' b', turn F X l i p e b' st' s' -> extends n st st' -> Q rc st' b' -> 0 <= rc -> step m F X l i p e st' s' (k st' s') R) ->
  step (n + m) F X l i p e st s (and_then w k s) R.
Proof.
  intros (rc & st' & s' & b' & Hw & Ht & Hx & Hs & Hrc & HQ) Hneg Hpos. unfold and_then. rewrite (bind_done _ _ _ _ _ Hw). cbn [fst snd].
  destruct (Z.ltb_spec rc 0).
  - exists (-1), st', s', b'. split; [done|]. split; [done|]. split; [destruct Hx; split; try done; lia|]. split; [done|]. split; [lia|]. by eapply Hneg.
  - destruct (Hpos rc st' s' b' Ht Hx HQ ltac:(lia)) as (rc2 & st2 & s2 & b2 & -> & Ht2 & Hx2 & Hs2 & Hrc2 & HR).
    exists rc2, st2, s2, b2. split; [done|]. split; [done|]. split; [by eapply extends_trans|]. split; [by eapply same_table_trans|done].
Qed.

Lemma turn_fail F X l i p e b st s c :
  turn F X l i p e b st s ->
  step 0 F X l i p e st s (fail_with c (-1, st) s) (fun rc st' b' => rc = -1 /\ b' = b).
Proof.
  intros [[Ji Jl Ja Jr Jf Jm Jc] Hi He Hp Hb Hmk]. exists (-1), st, (with_errno c s), b. split; [done|]. split; [|split; [apply extends_refl|]].
  - split; done.
  - split; [by apply same_table_bodies|]. split; [lia|done].
Qed.

Lemma turn_ready F X l i p e b st s ev :
  turn F X l i p e b st s -> within ev (pevents p) ->
  step 0 F X l i p e st s ((st' ← __wasilibc_poll_ready st ev; mret (0, st')) s) (fun rc st' b' => rc = 0 /\ b' = b /\ (ev <> 0 -> busy st')).
Proof.
  intros [Hj Hi He Hp Hb Hmk] Hev. destruct (poll_ready_spec F (e :: X) l st s i p ev Hj Hi Hp) as (st' & Hd & Hj' & Hx & Hs & Hn & _); [by eapply within_trans|].
  rewrite (bind_done _ _ _ _ _ Hd). exists 0, st', s, b. split; [done|]. pose proof Hx as []. split; [split; congruence|].
  split; [done|]. split; [by apply same_table_bodies|]. split; [lia|]. split; [done|]. split; [done|]. intros Hz. right. by apply Hn.
Qed.

Lemma step_mono n m F X l i p e st s out (Q R : Z -> poll_state_t -> descriptor -> Prop) :
  step n F X l i p e st s out Q -> (n <= m)%nat -> (forall rc st' b', Q rc st' b' -> R rc st' b') -> step m F X l i p e st s out R.
Proof.
  intros (rc & st' & s' & b' & Hw & Ht & Hx & Hs & Hrc & HQ) Hnm HR. exists rc, st', s', b'. split; [done|]. split; [done|].
  split; [destruct Hx; split; try done; lia|]. split; [done|]. split; [done|]. by apply HR.
Qed.

Lemma step_from n F X l i p e st s s1 out Q :
  same_table s s1 -> step n F X l i p e st s1 out Q -> step n F X l i p e st s out Q.
Proof.
  intros Hs (rc & st' & s' & b' & Hw & Ht & Hx & Hs1 & HQ). exists rc, st', s', b'. split; [done|]. split; [done|]. split; [done|].
  split; [by eapply same_table_trans|done].
Qed.

(** Events that the object can report: a listening socket only has connections to read. *)
Definition wanting (events : Z) (b : descriptor) : Prop :=
  has events POLLRDNORM = true \/ has events POLLWRNORM = true /\ ~ listener b.

(** What a step that registers the object [b] owes the caller. *)
Definition registered (events : Z) (b : descriptor) (rc : Z) (st : poll_state_t) (_ : descriptor) : Prop :=
  0 <= rc -> wanting events b -> busy st.

Lemma wanting_nonzero ev b : wanting ev b -> ev <> 0.
Proof. by intros [Hh|[Hh _]] ->. Qed.

Lemma wanting_none ev b : has ev POLLRDNORM = false -> has ev POLLWRNORM = false -> ~ wanting ev b.
Proof. unfold wanting. intros -> -> [|[]]; done. Qed.

Lemma room_extends n m st st' : room (n + m) st -> extends n st st' -> room m st'.
Proof. unfold room. intros Hr []. lia. Qed.

Lemma busy_extends n st st' : busy st -> extends n st st' -> busy st'.
Proof. unfold busy. intros [?|?] []; [left|right]; lia. Qed.

(** A pollable for reading and one for writing. *)
Lemma register_pair (P : descriptor -> Prop) events m1 m2 F X l i p e b st s :
  (has events POLLRDNORM = true -> forall st s b, turn F X l i p e b st s -> room 1 st -> P b -> step 1 F X l i p e st s (m1 st s) (fun rc st' b' => P b' /\ (0 <= rc -> busy st'))) ->
  (has events POLLWRNORM = true -> forall st s b, turn F X l i p e b st s -> room 1 st -> P b -> step 1 F X l i p e st s (m2 st s) (fun rc st' b' => 0 <= rc -> busy st')) ->
  turn F X l i p e b st s -> room 2 st -> P b ->
  step 2 F X l i p e st s
    (and_then (if has events POLLRDNORM then m1 st else mret (0, st)) (fun st =>
     and_then (if has events POLLWRNORM then m2 st else mret (0, st)) (fun st => mret (0, st))) s) (registered events b).
Proof.
  intros H1' H2' Ht Hr HP. apply (step_and_then 1 1 F X l i p e st s _ _ (fun rc st' b' => P b' /\ (0 <= rc -> has events POLLRDNORM = true -> busy st'))).
  - destruct (has events POLLRDNORM).
    + eapply step_mono; [apply (H1' eq_refl st s b); [done|unfold room in *; lia|done]|lia|]. naive_solver.
    + eapply step_mono; [apply (turn_none _ _ _ _ _ _ b _ _ 0); [done|lia]|lia|]. by intros ??? (-> & -> & ->).
  - intros rc st' s' b' _ _ _ Hneg. unfold registered. lia.
  - intros rc st' s' b' Ht' Hx [HP' Hb'] Hrc. assert (room 1 st') as Hr' by (by apply (room_extends 1 1 st)).
    apply (step_and_then 1 0 F X l i p e st' s' _ _ (fun rc st2 _ => 0 <= rc -> has events POLLWRNORM = true -> busy st2)).
    + destruct (has events POLLWRNORM).
      * eapply step_mono; [by apply (H2' eq_refl st' s' b')|lia|]. naive_solver.
      * by eapply step_mono; [apply (turn_none _ _ _ _ _ _ b' _ _ 0); [done|lia]|lia|].
    + intros rc2 st2 s2 b2 _ _ _ Hneg. unfold registered. lia.
    + intros rc2 st2 s2 b2 Ht2 Hx2 Hb2 Hrc2. eapply step_mono; [apply (turn_none _ _ _ _ _ _ b2 _ _ 0); [done|lia]|lia|].
      intros ??? (-> & -> & ->) _ [He|[He _]]; [eapply busy_extends, Hx2; by apply Hb'|by apply Hb2].
Qed.

Lemma turn_on_tcp {A} F X l i p e t st s (m : M (octx tcp_socket_t) A) (Q : A -> tcp_socket_t -> Prop) :
  closed F -> turn F X l i p e (DTcp t) st s -> sparing m -> calm tcp_listener m ->
  (forall F' (c : octx tcp_socket_t), closed F' -> self c = t -> ResourceObj.holds F' c -> wpw m (fun a c' => ResourceObj.holds F' c' /\ Q a (self c')) c) ->
  exists a s' t', on_tcp e m s = Done a s' /\ turn F X l i p e (DTcp t') st s' /\ Q a t' /\ same_table s s'.
Proof.
  intros HF [Hj Hi He Hp Hb Hmk] Hsp Hcm Hm. destruct (J_on_tcp F (e :: X) l st s e t m Q HF Hj Hb Hsp Hcm Hm) as (a & s' & t' & Hd & Hj' & Hb' & HQ & Hs).
  exists a, s', t'. split; [done|]. split; [by split|done].
Qed.

Lemma turn_on_udp {A} F X l i p e u st s (m : M (octx udp_socket_t) A) (Q : A -> udp_socket_t -> Prop) :
  closed F -> turn F X l i p e (DUdp u) st s -> sparing m ->
  (forall F' (c : octx udp_socket_t), closed F' -> self c = u -> ResourceObj.holds F' c -> wpw m (fun a c' => ResourceObj.holds F' c' /\ Q a (self c')) c) ->
  exists a s' u', on_udp e m s = Done a s' /\ turn F X l i p e (DUdp u') st s' /\ Q a u' /\ same_table s s'.
Proof.
  intros HF [Hj Hi He Hp Hb Hmk] Hsp Hm. destruct (J_on_udp F (e :: X) l st s e u m Q HF Hj Hb Hsp Hm) as (a & s' & u' & Hd & Hj' & Hb' & HQ & Hs).
  exists a, s', u'. split; [done|]. split; [by split|done].
Qed.

Lemma turn_on_object {A} F X l i p e b st s (m : descriptor -> M (octx descriptor) A) (Q : A -> descriptor -> Prop) :
  closed F -> turn F X l i p e b st s -> sparing (m b) -> calm_on b (m b) ->
  (forall F' (c : octx descriptor), closed F' -> self c = b -> ResourceObj.holds F' c -> wpw (m b) (fun a c' => ResourceObj.holds F' c' /\ Q a (self c')) c) ->
  exists a s' b', on_object e m s = Done a s' /\ turn F X l i p e b' st s' /\ Q a b' /\ same_table s s'.
Proof.
  intros HF [Hj Hi He Hp Hb Hmk] Hsp Hcm Hm. destruct (J_on_object F (e :: X) l st s e b m Q HF Hj Hb Hsp Hcm Hm) as (a & s' & b' & Hd & Hj' & Hb' & HQ & Hs).
  exists a, s', b'. split; [done|]. split; [by split|done].
Qed.

Lemma turn_tcp F X l i p e t st s :
  closed F -> turn F X l i p e (DTcp t) st s ->
  exists s', on_tcp e (gets self) s = Done t s' /\ turn F X l i p e (DTcp t) st s' /\ same_table s s'.
Proof.
  intros HF Ht. destruct (turn_on_tcp F X l i p e t st s (gets self) (fun a t' => a = t /\ t' = t) HF Ht) as (a & s' & t' & Hd & Ht' & (-> & ->) & Hs).
  - apply sparing_silent. by intros c.
  - intros c. exact id.
  - by intros F' c HF' <- Hh.
  - by exists s'.
Qed.

Lemma turn_udp F X l i p e u st s :
  closed F -> turn F X l i p e (DUdp u) st s ->
  exists s', on_udp e (gets self) s = Done u s' /\ turn F X l i p e (DUdp u) st s' /\ same_table s s'.
Proof.
  intros HF Ht. destruct (turn_on_udp F X l i p e u st s (gets self) (fun a u' => a = u /\ u' = u) HF Ht) as (a & s' & u' & Hd & Ht' & (-> & ->) & Hs).
  - apply sparing_silent. by intros c.
  - by intros F' c HF' <- Hh.
  - by exists s'.
Qed.

(** The socket's own pollable. *)
Lemma turn_tcp_pollable F X l i p e t st s :
  closed F -> turn F X l i p e (DTcp t) st s -> room 1 st ->
  step 1 F X l i p e st s ((h ← on_tcp e tcp_pollable; __wasilibc_poll_add st (pevents p) h) s) (fun rc st' _ => busy st').
Proof.
  intros HF Ht Hr. destruct (turn_on_tcp F X l i p e t st s tcp_pollable (fun h t' => has_pollable h (owned (DTcp t'))) HF Ht) as (h & s1 & t1 & Hd & Ht1 & Hh & Hs).
  - apply tcp_pollable_spares.
  - apply tcp_pollable_calm.
  - intros F' c HF' _ Hc. eapply wpw_mono; [by apply tcp_pollable_spec|]. intros h c' (Hc' & _ & Hin). split; [done|]. by eapply in_has_pollable.
  - rewrite (bind_done _ _ _ _ _ Hd). eapply step_from; [exact Hs|]. eapply step_mono; [apply (turn_add _ _ _ _ _ _ _ _ _ (pevents p) h Ht1 Hr Hh (within_refl _))|lia|]. naive_solver.
Qed.

Lemma has_lor a b c : has a (Z.lor b c) = has a b || has a c.
Proof.
  unfold has. rewrite Z.land_lor_distr_r. destruct (Z.eqb_spec (Z.land a b) 0) as [->|Hb]; [by rewrite Z.lor_0_l|]. cbn [negb orb].
  destruct (Z.eqb_spec (Z.lor (Z.land a b) (Z.land a c)) 0) as [Hl|]; [|done]. apply Z.lor_eq_0_iff in Hl. tauto.
Qed.

Lemma connected_register F X l i p e t conn st s :
  closed F -> turn F X l i p e (DTcp t) st s -> room 2 st -> tcp_state t = TCP_SOCKET_STATE_CONNECTED conn ->
  step 2 F X l i p e st s
    (and_then (if has (pevents p) POLLRDNORM then __wasilibc_poll_add_input_stream st e (tcp_input conn) else mret (0, st)) (fun st =>
     and_then (if has (pevents p) POLLWRNORM then __wasilibc_poll_add_output_stream st e (tcp_output conn) else mret (0, st)) (fun st =>
     mret (0, st))) s) (registered (pevents p) (DTcp t)).
Proof.
  intros HF Ht Hr Et. set (P := fun b => exists t, b = DTcp t /\ exists c, tcp_state t = TCP_SOCKET_STATE_CONNECTED c /\ tcp_input c = tcp_input conn /\ tcp_output c = tcp_output conn).
  apply (register_pair P (pevents p) (fun st => __wasilibc_poll_add_input_stream st e (tcp_input conn))
    (fun st => __wasilibc_poll_add_output_stream st e (tcp_output conn)) _ _ _ _ _ _ (DTcp t)); [| |done|done|].
  - intros Hrd st1 s1 b Ht1 Hr1 (t1 & -> & c & Ec & Hci & Hco). eapply step_mono; [eapply (turn_input _ _ _ _ _ _ (DTcp t1)); [done..|by exists c|by apply (has_within _ 0)]|lia|].
    intros rc st' b' (-> & (q & ->) & Hb). split; [|done]. cbn [set_read_pollable]. eexists. split; [done|].
    unfold set_input_pollable. rewrite Ec. eexists. split; [done|]. by split.
  - intros Hwr st1 s1 b Ht1 Hr1 (t1 & -> & c & Ec & Hci & Hco). eapply step_mono; [eapply (turn_output _ _ _ _ _ _ (DTcp t1)); [done..|by exists c|by apply (has_within _ 1)]|lia|]. by intros rc st' b' (_ & _ & Hb).
  - exists t. split; [done|]. by exists conn.
Qed.

Lemma tcp_register_step F X l i p e t st s :
  closed F -> turn F X l i p e (DTcp t) st s -> room 2 st ->
  step 2 F X l i p e st s (tcp_poll_register st e (pevents p) s) (registered (pevents p) (DTcp t)).
Proof.
  intros HF Ht Hr. destruct (turn_tcp F X l i p e t st s HF Ht) as (s1 & Hd & Ht1 & Hs1). unfold tcp_poll_register. rewrite (bind_done _ _ _ _ _ Hd).
  eapply step_from; [exact Hs1|]. assert (room 1 st) as Hr1 by (unfold room in *; lia).
  assert (step 2 F X l i p e st s1 (fail_with ENOTSUP (-1, st) s1) (registered (pevents p) (DTcp t))) as Hneg.
  { eapply step_mono; [by eapply turn_fail|lia|]. intros rc st' b' [-> _]. unfold registered. lia. }
  assert (~ wanting (pevents p) (DTcp t) -> step 2 F X l i p e st s1 (Done (0, st) s1) (registered (pevents p) (DTcp t))) as Hnone.
  { intros Hn. eapply step_mono; [apply (turn_none _ _ _ _ _ _ _ _ _ 0 Ht1); lia|lia|]. by intros rc st' b' _ _ []%Hn. }
  assert (step 2 F X l i p e st s1 ((h ← on_tcp e tcp_pollable; __wasilibc_poll_add st (pevents p) h) s1) (registered (pevents p) (DTcp t))) as Hown.
  { eapply step_mono; [by eapply turn_tcp_pollable|lia|]. intros rc st' b' Hb _ _. exact Hb. }
  destruct (tcp_state t) as [| | |conn|err|] eqn:Et; try done.
  - destruct (has _ (Z.lor _ _)) eqn:Hh; [done|]. apply Hnone. rewrite has_lor in Hh. apply orb_false_iff in Hh as []. by apply wanting_none.
  - by eapply connected_register.
  - eapply step_mono; [apply (turn_ready _ _ _ _ _ _ _ _ _ _ Ht1 (within_refl _))|lia|]. intros rc st' b' (_ & _ & Hb) _ Hw. by eapply Hb, wanting_nonzero.
  - destruct (has (pevents p) POLLRDNORM) eqn:Hh; [done|]. apply Hnone. unfold wanting. rewrite Hh. intros [|[_ Hl]]; [done|]. by apply Hl.
Qed.

Lemma udp_incoming_step F X l i p e u st s :
  closed F -> turn F X l i p e (DUdp u) st s -> room 1 st -> is_Some (udp_streams u) -> within POLLRDNORM (pevents p) ->
  step 1 F X l i p e st s ((h ← on_udp e (udp_stream_pollable udp_incoming_pollable incoming_pollable); __wasilibc_poll_add st POLLRDNORM h) s)
    (fun rc st' b' => (exists u', b' = DUdp u' /\ is_Some (udp_streams u')) /\ (0 <= rc -> busy st')).
Proof.
  intros HF Ht Hr [stm Hst] Hev.
  destruct (turn_on_udp F X l i p e u st s (udp_stream_pollable udp_incoming_pollable incoming_pollable)
    (fun h u' => has_pollable h (owned (DUdp u')) /\ is_Some (udp_streams u')) HF Ht) as (h & s1 & u1 & Hd & Ht1 & (Hh & Hu) & Hs).
  - apply udp_incoming_spares.
  - intros F' c HF' <- Hc. unfold udp_stream_pollable. wpw_step. wpw_step. rewrite Hst. apply wpw_bind.
    eapply (udp_incoming_pollable_spec F' (self c)); [by split|]. intros st' c' _ (Hc' & Hst' & _) Hin. wpw_steps. split; [done|].
    split; [by eapply in_has_pollable|by eexists].
  - rewrite (bind_done _ _ _ _ _ Hd). eapply step_from; [exact Hs|]. eapply step_mono; [apply (turn_add _ _ _ _ _ _ _ _ _ POLLRDNORM h Ht1 Hr Hh Hev)|lia|].
    intros rc st' b' (-> & -> & Hb). split; [by exists u1|done].
Qed.

Lemma udp_outgoing_step F X l i p e u st s :
  closed F -> turn F X l i p e (DUdp u) st s -> room 1 st -> is_Some (udp_streams u) -> within POLLWRNORM (pevents p) ->
  step 1 F X l i p e st s ((h ← on_udp e (udp_stream_pollable udp_outgoing_pollable outgoing_pollable); __wasilibc_poll_add st POLLWRNORM h) s)
    (fun rc st' b' => 0 <= rc -> busy st').
Proof.
  intros HF Ht Hr [stm Hst] Hev.
  destruct (turn_on_udp F X l i p e u st s (udp_stream_pollable udp_outgoing_pollable outgoing_pollable)
    (fun h u' => has_pollable h (owned (DUdp u'))) HF Ht) as (h & s1 & u1 & Hd & Ht1 & Hh & Hs).
  - apply udp_outgoing_spares.
  - intros F' c HF' <- Hc. unfold udp_stream_pollable. wpw_step. wpw_step. rewrite Hst. apply wpw_bind.
    eapply (udp_outgoing_pollable_spec F' (self c)); [by split|]. intros st' c' _ (Hc' & Hst' & _) Hin. wpw_steps. split; [done|].
    by eapply in_has_pollable.
  - rewrite (bind_done _ _ _ _ _ Hd). eapply step_from; [exact Hs|]. eapply step_mono; [apply (turn_add _ _ _ _ _ _ _ _ _ POLLWRNORM h Ht1 Hr Hh Hev)|lia|]. by intros rc st' b' (_ & _ & Hb).
Qed.

Lemma udp_streams_step F X l i p e u st s :
  closed F -> turn F X l i p e (DUdp u) st s -> room 2 st -> is_Some (udp_streams u) ->
  step 2 F X l i p e st s (udp_register_streams st e (pevents p) s) (registered (pevents p) (DUdp u)).
Proof.
  intros HF Ht Hr Hu. destruct (turn_udp F X l i p e u st s HF Ht) as (s1 & Hd & Ht1 & Hs1). unfold udp_register_streams. rewrite (bind_done _ _ _ _ _ Hd).
  eapply step_from; [exact Hs1|]. pose proof Hu as [stm ->].
  apply (register_pair (fun b => exists u', b = DUdp u' /\ is_Some (udp_streams u')) (pevents p)
    (fun st => h ← on_udp e (udp_stream_pollable udp_incoming_pollable incoming_pollable); __wasilibc_poll_add st POLLRDNORM h)
    (fun st => h ← on_udp e (udp_stream_pollable udp_outgoing_pollable outgoing_pollable); __wasilibc_poll_add st POLLWRNORM h) _ _ _ _ _ _ (DUdp u)); [| |done|done|by exists u].
  - intros Hrd st2 s2 b Ht2 Hr2 (u2 & -> & Hu2). apply (udp_incoming_step _ _ _ _ _ _ u2); [done..|by apply (has_within _ 0)].
  - intros Hwr st2 s2 b Ht2 Hr2 (u2 & -> & Hu2). apply (udp_outgoing_step _ _ _ _ _ _ u2); [done..|by apply (has_within _ 1)].
Qed.

Lemma udp_register_step F X l i p e u st s :
  closed F -> turn F X l i p e (DUdp u) st s -> room 2 st ->
  step 2 F X l i p e st s (udp_poll_register st e (pevents p) s) (registered (pevents p) (DUdp u)).
Proof.
  intros HF Ht Hr. destruct (turn_udp F X l i p e u st s HF Ht) as (s1 & Hd & Ht1 & Hs1). unfold udp_poll_register. rewrite (bind_done _ _ _ _ _ Hd).
  eapply step_from; [exact Hs1|]. destruct (udp_state u) as [| |stm|stm] eqn:Eu.
  - eapply step_mono; [apply (turn_ready _ _ _ _ _ _ _ _ _ _ Ht1 (within_refl _))|lia|]. intros rc st' b' (_ & _ & Hb) _ Hw. by eapply Hb, wanting_nonzero.
  - destruct (turn_on_udp F X l i p e u st s1 (udp_create_streams None) (fun rc u' => 0 <= rc -> is_Some (udp_streams u')) HF Ht1) as (rc & s2 & u2 & Hd2 & Ht2 & Hu2 & Hs2).
    + apply udp_create_streams_spares.
    + intros F' c HF' <- Hc. eapply wpw_mono; [by apply udp_create_streams_spec|]. by intros rc c' (Hc' & _ & Hi).
    + rewrite (bind_done _ _ _ _ _ Hd2). eapply step_from; [exact Hs2|]. destruct (Z.ltb_spec rc 0) as [Hn|Hn]; [|eapply step_mono; [by eapply udp_streams_step; auto|lia|]; intros ??? Hreg ? [?|[? _]]; apply Hreg; [done|by left|done|right; by split; [|intros []]]].
      eapply step_mono; [apply (turn_none _ _ _ _ _ _ _ _ _ (-1) Ht2); lia|lia|]. intros ??? (-> & _) ?. lia.
  - eapply udp_streams_step; [done..|]. unfold udp_streams. rewrite Eu. by eexists.
  - eapply udp_streams_step; [done..|]. unfold udp_streams. rewrite Eu. by eexists.
Qed.

Lemma has_without_pri a ev : Z.land (Z.lnot POLLPRI) ev = ev -> has (Z.land a (Z.lnot POLLPRI)) ev = has a ev.
Proof. intros He. unfold has. by rewrite <- Z.land_assoc, He. Qed.

Lemma read_stream_step F X l i p e b st s :
  closed F -> turn F X l i p e b st s -> room 1 st -> within POLLRDNORM (pevents p) ->
  step 1 F X l i p e st s ((r ← on_object e get_read_stream;
    match snd r with None => mret (-1, st) | Some read => __wasilibc_poll_add_input_stream st e (io_stream read) end) s)
    (fun rc st' _ => True /\ (0 <= rc -> busy st')).
Proof.
  intros HF Ht Hr Hev. destruct (turn_on_object F X l i p e b st s get_read_stream
    (fun r b' => match snd r with Some io => reads b' (io_stream io) | None => True end) HF Ht) as (r & s1 & b1 & Hd & Ht1 & Hio & Hs).
  - apply get_read_stream_spares.
  - apply get_read_stream_calm.
  - intros F' c HF' Hc Hh. by apply get_read_stream_gives.
  - rewrite (bind_done _ _ _ _ _ Hd). eapply step_from; [exact Hs|]. destruct (snd r) as [io|].
    + eapply step_mono; [by apply (turn_input _ _ _ _ _ _ b1)|lia|]. by intros rc st' b' (_ & _ & Hb).
    + eapply step_mono; [apply (turn_none _ _ _ _ _ _ _ _ _ (-1) Ht1); lia|lia|]. intros ??? (-> & _). split; [done|lia].
Qed.

Lemma write_stream_step F X l i p e b st s :
  closed F -> turn F X l i p e b st s -> room 1 st -> within POLLWRNORM (pevents p) ->
  step 1 F X l i p e st s ((r ← on_object e get_write_stream;
    match snd r with None => mret (-1, st) | Some write => __wasilibc_poll_add_output_stream st e (io_stream write) end) s)
    (fun rc st' _ => 0 <= rc -> busy st').
Proof.
  intros HF Ht Hr Hev. destruct (turn_on_object F X l i p e b st s get_write_stream
    (fun r b' => match snd r with Some io => writes b' (io_stream io) | None => True end) HF Ht) as (r & s1 & b1 & Hd & Ht1 & Hio & Hs).
  - apply get_write_stream_spares.
  - apply get_write_stream_calm.
  - intros F' c HF' Hc Hh. by apply get_write_stream_gives.
  - rewrite (bind_done _ _ _ _ _ Hd). eapply step_from; [exact Hs|]. destruct (snd r) as [io|].
    + eapply step_mono; [by apply (turn_output _ _ _ _ _ _ b1)|lia|]. by intros rc st' b' (_ & _ & Hb).
    + eapply step_mono; [apply (turn_none _ _ _ _ _ _ _ _ _ (-1) Ht1); lia|lia|]. intros ??? (-> & _). lia.
Qed.

Lemma stream_register_step F X l i p e b st s :
  closed F -> turn F X l i p e b st s -> room 2 st ->
  step 2 F X l i p e st s (stream_poll_register st e (pevents p) s) (registered (pevents p) b).
Proof.
  intros HF Ht Hr. unfold stream_poll_register. set (ev := Z.land (pevents p) (Z.lnot POLLPRI)).
  assert (has ev POLLRDNORM = has (pevents p) POLLRDNORM) as Hrd by (by apply has_without_pri).
  assert (has ev POLLWRNORM = has (pevents p) POLLWRNORM) as Hwr by (by apply has_without_pri).
  destruct (has ev (Z.lnot _)).
  - eapply step_mono; [by eapply turn_fail|lia|]. intros ??? (-> & _) ?. lia.
  - unfold registered, wanting. rewrite <- Hrd, <- Hwr.
    apply (register_pair (fun _ => True) ev (fun st => r ← on_object e get_read_stream; match snd r with None => mret (-1, st) | Some read => __wasilibc_poll_add_input_stream st e (io_stream read) end)
      (fun st => r ← on_object e get_write_stream; match snd r with None => mret (-1, st) | Some write => __wasilibc_poll_add_output_stream st e (io_stream write) end) _ _ _ _ _ _ b); try done.
    + intros Hh st1 s1 b1 Ht1 Hr1 _. apply (read_stream_step _ _ _ _ _ _ b1); try done. apply (has_within _ 0); [lia|exact (eq_trans (eq_sym Hrd) Hh)].
    + intros Hh st1 s1 b1 Ht1 Hr1 _. apply (write_stream_step _ _ _ _ _ _ b1); try done. apply (has_within _ 1); [lia|exact (eq_trans (eq_sym Hwr) Hh)].
Qed.

Lemma poll_register_step F X l i p e b st s :
  closed F -> turn F X l i p e b st s -> room 2 st ->
  step 2 F X l i p e st s (poll_register st e (pevents p) s) (registered (pevents p) b).
Proof.
  intros HF Ht Hr. unfold poll_register. pose proof (turn_body _ _ _ _ _ _ _ _ _ Ht) as Hb. unfold bodies in Hb. rewrite lookup_fmap in Hb.
  destruct (heap s !! e) as [o|] eqn:Ho; [|done]. injection Hb as Hb. rewrite (bind_done _ _ _ o s) by (unfold load, gets, mbind, M_bind; by rewrite Ho). rewrite Hb.
  destruct b as [f|io|t|u]; [by apply (stream_register_step _ _ _ _ _ _ (DFile f))|by apply (stream_register_step _ _ _ _ _ _ (DStdio io))|by eapply tcp_register_step|by eapply udp_register_step].
Qed.

(** The reference of a turn. *)
Lemma J_get F X l st s fd :
  closed F -> J F X l st s -> Z.of_nat (length X) + cap st < 2 ^ 30 ->
  exists r s1, descriptor_table_get fd s = Done r s1 /\ stdio_initialized s1 = true /\
    (stdio_initialized s = true -> snd r = open_fds s !! fd /\ same_table s s1) /\ no_new_listener s s1 /\
    match snd r with
    | None => J F X l st s1
    | Some e => J F (e :: X) l st s1 /\ exists b, bodies s1 !! e = Some b
    end.
Proof.
  intros HF [Ji Jl Ja Jr Jf Jm Jc] Hroom.
  assert (Z.of_nat (length (X ++ (st_entry <$> states st))) <= 2 ^ 30) as Hlen by (rewrite length_app, length_fmap; lia).
  pose proof (tallies_get fd F s HF Ja) as Ha. pose proof (judge_get hushed fd s) as Hq.
  destruct (with_stdio_spec _ s (-1, None) (p ← table_lookup fd;
    match (p : option loc) with
    | None => mret (-1, None)
    | Some e => descriptor_table_entry_inc e ;; mret (0, Some e)
    end) Ji) as (s1 & W1 & St1 & Hs1 & L1 & Hid & Hc); [lia|].
  assert (bodies s ⊆ bodies s1) as Hbs by (by apply map_fmap_mono).
  assert (forall s2, bodies s2 = bodies s1 -> Forall2 (fun x p => exists b, bodies s2 !! st_entry x = Some b /\ has_pollable p (owned b)) (states st) (pollables st)) as Hregs.
  { intros s2 H2. eapply list.Forall2_impl; [exact Jr|]. intros x p (b & Hb & Hp). exists b. split; [|done]. rewrite H2. by eapply lookup_weaken. }
  unfold descriptor_table_get in *. destruct Hc as [Heq|(Heq & Hn & _)]; rewrite Heq in *.
  - assert (small (X ++ (st_entry <$> states st)) s1) as Hsm by (split; lia). pose proof (get_spec _ s1 fd W1 Hsm St1) as Hg. unfold descriptor_table_get in Hg.
    rewrite with_stdio_ready in Hg by done. destruct (open_fds s1 !! fd) as [e|] eqn:Eo.
    + destruct Hg as (s2 & Hg & W2 & St2 & _ & Ho2 & Hb2 & L2 & _). rewrite Hg in *. exists (0, Some e), s2. split; [done|]. split; [done|].
      split; [intros Hs; specialize (Hid Hs); subst s1; split; [done|by apply same_table_bodies; [congruence..|]]|]. split; [exact Hq|]. cbn [snd].
      destruct (open_heap _ s1 fd e W1 Eo) as [o Ho]. split; [|exists (body o); rewrite Hb2; unfold bodies; by rewrite lookup_fmap, Ho].
      split; try done; [by apply inv_ready|lia|by apply Hregs|cbn [length]; lia].
    + rewrite Hg in *. exists (-1, None), (with_errno EBADF s1). split; [done|]. split; [done|]. split; [intros Hs; specialize (Hid Hs); subst s1; split; [done|by apply same_table_bodies]|].
      split; [exact Hq|].
      split; try done; [|change (len s1 <= 2 ^ 26); lia|by apply Hregs]. apply inv_ready; [exact W1|done].
  - exists (-1, None), s1. split; [done|]. split; [done|]. split; [intros Hs; congruence|]. split; [exact Hq|]. cbn [snd]. split; try done; [by apply inv_ready|lia|by apply Hregs].
Qed.

(** [mask] allows what the table asks for: once the standard streams are open,
    the table decides whether a descriptor is valid. *)
Record mask_ok s (p : pollfd) : Prop := {
  mask_open : 0 <= pfd p -> (stdio_initialized s = true -> is_Some (open_fds s !! pfd p)) -> within (pevents p) (mask p);
  mask_closed : 0 <= pfd p -> (stdio_initialized s = true -> open_fds s !! pfd p = None) -> within POLLNVAL (mask p);
}.

(** The table after a step: the same, unless the step opened the standard streams. *)
Definition table_kept s s' : Prop := (stdio_initialized s = true -> same_table s s') /\ no_new_listener s s'.

Lemma table_kept_same s s' : same_table s s' -> table_kept s s'.
Proof. intros Hs. split; [done|by destruct Hs as (_ & _ & ?)]. Qed.

Lemma table_kept_trans s1 s2 s3 : table_kept s1 s2 -> table_kept s2 s3 -> table_kept s1 s3.
Proof.
  intros [Ha Na] [Hb Nb]. split; [|by eapply no_new_trans]. intros Hs. pose proof (Ha Hs) as (? & _). eapply same_table_trans; [by apply Ha|]. apply Hb. congruence.
Qed.

Lemma mask_ok_next s s' p : mask_ok s p -> table_kept s s' -> mask_ok s' p.
Proof.
  intros [Hop Hcl] [Hk _]. destruct (stdio_initialized s) eqn:Es.
  - destruct (Hk eq_refl) as (Hs & Ho & _). split; intros Hfd Hp; [apply Hop|apply Hcl]; try done; intros _; rewrite <- Ho; apply Hp; congruence.
  - split; intros Hfd _; [by apply Hop|by apply Hcl].
Qed.

(** The descriptor is open on a listening socket; before the standard streams
    are open no descriptor is. *)
Definition listens s (fd : Z) : Prop := exists e, listening_at s e /\ (stdio_initialized s = true -> open_fds s !! fd = Some e).

Lemma listens_kept s s' fd : table_kept s s' -> listens s' fd -> listens s fd.
Proof.
  intros [Hk Hn] (e & He & Ho). exists e. split; [by apply Hn|]. intros Hs. destruct (Hk Hs) as (Hs' & <- & _). apply Ho. congruence.
Qed.

(** The entry can end a wait: it asks to read, or to write to anything but a
    listening socket, or its descriptor is not open. *)
Definition wakes s (p : pollfd) : Prop :=
  0 <= pfd p /\ (has (pevents p) POLLRDNORM = true \/ has (pevents p) POLLWRNORM = true /\ ~ listens s (pfd p) \/
    stdio_initialized s = true /\ open_fds s !! pfd p = None).

Lemma wakes_next s s' p : wakes s p -> table_kept s s' -> wakes s' p.
Proof.
  intros [Hfd Hw] Hk. split; [done|]. destruct Hw as [?|[[? Hl]|[Hs Ho]]]; [by left|right; left; split; [done|]|right; right].
  - intros ?. apply Hl. by eapply listens_kept.
  - destruct (proj1 Hk Hs) as (-> & -> & _). done.
Qed.

Definition later (n : nat) (st st' : poll_state_t) : Prop := extends n (set_current None None st) (set_current None None st').

Lemma J_current F X l st s i e : J F X l st s -> J F X l (set_current i e st) s.
Proof. intros []. split; try done. by destruct j_fine0; split. Qed.

Lemma later_of n st st' i e : extends n (set_current i e st) st' -> later n st (set_current None None st').
Proof. intros []. by split. Qed.

(** One entry of the array. *)
Record registers (n : nat) F X l st s (p : pollfd) (i : nat) (rc : Z) st' s' : Prop := {
  reg_j : J F X l st' s';
  reg_later : later n st st';
  reg_rc : -1 <= rc <= 0;
  reg_busy : 0 <= rc -> wakes s p -> busy st';
  reg_nval : 0 <= pfd p -> stdio_initialized s = true -> open_fds s !! pfd p = None -> exists q, fds st' !! i = Some q /\ within POLLNVAL (revents q);
  reg_table : table_kept s s';
}.

Lemma register_closed F X l i p st s s1 :
  J F X l st s1 -> l !! i = Some p -> within POLLNVAL (mask p) -> table_kept s s1 ->
  exists st', (st ← __wasilibc_poll_ready (set_current (Some i) (cur_entry st) st) POLLNVAL; mret (0, set_current None (cur_entry st) st)) s1 = Done (0, st') s1 /\
    registers 2 F X l st s p i 0 st' s1.
Proof.
  intros Hj Hp Hm Hk. destruct (poll_ready_spec F X l (set_current (Some i) (cur_entry st) st) s1 i p POLLNVAL) as (st2 & Hd2 & Hj2 & Hx2 & _ & Hn2 & Hv2); [by apply J_current|done..|].
  rewrite (bind_done _ _ _ _ _ Hd2). eexists. split; [done|]. split; try done; [by apply J_current| |intros _ _; right; by apply Hn2].
  pose proof Hx2 as []. split; cbn in *; try done; lia.
Qed.

(** The object found for such an entry can report one of its events. *)
Lemma wakes_wants s s1 p e b r :
  wakes s p -> table_kept s s1 -> (stdio_initialized s = true -> r = open_fds s !! pfd p /\ same_table s s1) -> r = Some e -> bodies s1 !! e = Some b ->
  wanting (pevents p) b.
Proof.
  intros [_ [Hw|[[Hw Hl]|[Hs Ho]]]] [_ Hn] Htab -> Hb; [by left|right; split; [done|]|destruct (Htab Hs); congruence].
  intros Hlis. apply Hl. exists e. split; [apply Hn; by exists b|]. intros Hs. symmetry. by apply Htab.
Qed.

Lemma register_one_spec F X l i p st s :
  closed F -> J F X l st s -> Z.of_nat (length X) + cap st < 2 ^ 30 -> room 2 st -> l !! i = Some p -> mask_ok s p ->
  exists rc st' s', register_one i st s = Done (rc, st') s' /\ registers 2 F X l st s p i rc st' s'.
Proof.
  intros HF Hj Hroom Hr Hp Hm. unfold register_one. destruct (Forall2_lookup_l _ _ _ _ _ (fine_fds _ _ _ (j_fine _ _ _ _ _ Hj)) Hp) as (q & -> & Hqf & Hqe & _).
  rewrite Hqf, Hqe. destruct (Z.ltb_spec (pfd p) 0) as [Hneg|Hpos].
  { exists 0, st, s. split; [done|]. split; try done; try lia; [apply extends_refl|intros _ []; lia|by apply table_kept_same, same_table_bodies]. }
  destruct (J_get F X l st s (pfd p) HF Hj Hroom) as (r & s1 & Hg & St1 & Htab & Hnew & Hr1). rewrite (bind_done _ _ _ _ _ Hg).
  assert (table_kept s s1) as Hk by (split; [intros Hs; by apply Htab|done]). destruct (snd r) as [e|].
  2: { destruct (register_closed F X l i p st s s1 Hr1 Hp) as (st' & -> & Hreg); [|done|by exists 0, st', s1]. apply (mask_closed s p Hm Hpos). intros Hs. symmetry. by apply Htab. }
  destruct Hr1 as (Hj1 & b & Hb). assert (turn F X l i p e b (set_current (Some i) (Some e) st) s1) as Ht.
  { split; try done; [by apply J_current|]. apply (mask_open s p Hm Hpos). intros Hs. destruct (Htab Hs) as [Ho _]. rewrite <- Ho. by eexists. }
  destruct (poll_register_step F X l i p e b _ s1 HF Ht) as (rc & st2 & s2 & b2 & Hd2 & Ht2 & Hx2 & Hs2 & Hrc & Hreg); [exact Hr|].
  rewrite (bind_done _ _ _ _ _ Hd2). cbn [fst snd].
  destruct (J_dec F X l st2 s2 e HF (turn_j _ _ _ _ _ _ _ _ _ Ht2)) as (s3 & Hd3 & Hj3 & Hs3).
  rewrite (bind_done _ _ _ _ _ Hd3). exists rc, (set_current None None st2), s3. split; [done|]. split; [by apply J_current|by eapply later_of|done| | |].
  - intros Hrc' Hw. apply (Hreg Hrc'). by eapply (wakes_wants s s1 p e b (Some e)).
  - intros _ Hs Ho. destruct (Htab Hs) as [Ho' _]. congruence.
  - eapply table_kept_trans; [exact Hk|]. apply table_kept_same. by eapply same_table_trans.
Qed.

Definition marked st (i : nat) : Prop := exists q, fds st !! i = Some q /\ within POLLNVAL (revents q).

Lemma marked_later n st st' i : marked st i -> later n st st' -> marked st' i.
Proof.
  intros (q & Hq & Hn) Hx. destruct (Forall2_lookup_l _ _ _ _ _ (ext_fds _ _ _ Hx) Hq) as (q' & Hq' & Hw). exists q'. split; [done|]. by eapply within_trans.
Qed.

(** The first loop. *)
Lemma register_all_spec F X l todo st s :
  closed F -> J F X l st s -> Z.of_nat (length X) + cap st < 2 ^ 30 -> room (2 * length todo) st ->
  Forall (fun i => exists p, l !! i = Some p /\ mask_ok s p) todo ->
  exists rc st' s', register_all todo st s = Done (rc, st') s' /\ J F X l st' s' /\ later (2 * length todo) st st' /\ -1 <= rc <= 0 /\ table_kept s s' /\
    (0 <= rc -> (exists i p, i ∈ todo /\ l !! i = Some p /\ wakes s p) -> busy st') /\
    (0 <= rc -> forall i p, i ∈ todo -> l !! i = Some p -> 0 <= pfd p -> stdio_initialized s = true -> open_fds s !! pfd p = None -> marked st' i).
Proof.
  intros HF. revert st s. induction todo as [|i todo IH]; intros st s Hj Hm Hr Hok.
  { exists 0, st, s. split; [done|]. split; [done|]. split; [apply extends_refl|]. split; [lia|]. split; [by apply table_kept_same, same_table_bodies|].
    split; [by intros _ (i & p & Hi%elem_of_nil & _)|by intros _ i p Hi%elem_of_nil]. }
  inversion_clear Hok as [|? ? (p & Hp & Hpok) Hok']. cbn [length] in Hr.
  destruct (register_one_spec F X l i p st s HF Hj Hm) as (rc & st1 & s1 & Hd1 & Hreg); [unfold room in *; lia|done..|].
  destruct Hreg as [Hj1 Hx1 Hrc1 Hb1 Hn1 Hk1]. cbn [register_all]. rewrite (bind_done _ _ _ _ _ Hd1). cbn [fst snd]. destruct (Z.ltb_spec rc 0) as [Hneg|Hpos].
  { exists (-1), st1, s1. split; [done|]. split; [done|]. split; [|split; [lia|split; [done|split; lia]]]. destruct Hx1. split; try done. cbn [length]. lia. }
  pose proof Hx1 as []. cbn in ext_cap0, ext_more0, ext_bound0.
  destruct (IH st1 s1 Hj1) as (rc2 & st2 & s2 & Hd2 & Hj2 & Hx2 & Hrc2 & Hk2 & Hb2 & Hn2); [lia|unfold room in *; lia| |].
  { eapply Forall_impl; [|exact Hok']. intros i' (p' & Hp' & Hpok'). exists p'. split; [done|]. by eapply mask_ok_next. }
  rewrite Hd2. exists rc2, st2, s2. split; [done|]. split; [done|]. split.
  { replace (2 * length (i :: todo))%nat with (2 + 2 * length todo)%nat by (cbn; lia). by eapply extends_trans. }
  split; [done|]. split; [by eapply table_kept_trans|]. split.
  - intros Hrc (j & p' & Hj' & Hp' & Hread). apply elem_of_cons in Hj' as [->|Hj']; [|apply Hb2; [done|exists j, p'; do 2 (split; [done|]); by eapply wakes_next]].
    rewrite Hp in Hp'. injection Hp' as ->. eapply (busy_extends _ (set_current None None st1) (set_current None None st2)); [|exact Hx2]. by apply Hb1.
  - intros Hrc j p' Hj' Hp' Hfd Hs Ho. apply elem_of_cons in Hj' as [->|Hj'].
    + rewrite Hp in Hp'. injection Hp' as ->. eapply marked_later; [|exact Hx2]. by apply Hn1.
    + destruct (proj1 Hk1 Hs) as (Hs1 & Ho1 & _). apply (Hn2 Hrc j p'); try done; [congruence|by rewrite Ho1].
Qed.

(** ** The second loop *)

Lemma tcp_finish_spec F (c : octx tcp_socket_t) :
  ResourceObj.holds F c -> tcp_state (self c) = TCP_SOCKET_STATE_CONNECTING ->
  wpw tcp_finish (fun _ c' => ResourceObj.holds F c' /\ True) c.
Proof.
  intros [Hv Ho] Es. unfold tcp_finish. wpw_step. wpw_step. wpw_step. eapply wpw_use; [exact Ho|done..|use_tac|].
  intros [[input output]|err] Hr Ho'.
  - wpw_steps. split; [|done]. split; [done|]. cbn [self octx_log] in *. eapply owns_perm; [|exact (owns_weaken _ _ _ Ho')].
    cbn. unfold tcp_owned, is_listening. rewrite Es. cbn. solve_Permutation.
  - cbn in Ho'. wpw_step. apply wpw_if; intros Hw; wpw_steps; (split; [|done]).
    + split; [done|]. by eapply owns_weaken.
    + eapply holds_set_state; [exact Ho'|cbn [self]; by rewrite Es|unfold is_listening; cbn [self]; by rewrite Es|done..|]. cbn.
      apply (host_net_error _ (octx_log c) (tcp_finish_connect (tcp_socket (self c)))). by rewrite Hr.
Qed.

(** A step of the second loop. *)
Definition finishes F X l st s (out : outcome world poll_state_t) : Prop :=
  exists st' s', out = Done st' s' /\ J F X l st' s' /\ later 0 st st' /\ states st' = states st /\ same_table s s'.

Lemma finishes_ready F X l st s i p ev :
  J F X l st s -> cur_pollfd st = Some i -> l !! i = Some p -> within ev (mask p) -> finishes F X l st s (__wasilibc_poll_ready st ev s).
Proof.
  intros Hj Hi Hp Hev. destruct (poll_ready_spec F X l st s i p ev Hj Hi Hp Hev) as (st' & Hd & Hj' & Hx & Hs & _).
  exists st', s. split; [done|]. split; [done|]. split; [by destruct Hx; split|]. split; [done|by apply same_table_bodies].
Qed.

Lemma finishes_from F X l st s s1 out : same_table s s1 -> finishes F X l st s1 out -> finishes F X l st s out.
Proof. intros Hs (st' & s' & Hd & Hj & Hx & He & Hs'). exists st', s'. do 4 (split; [done|]). by eapply same_table_trans. Qed.

Lemma tcp_poll_finish_spec F X l st s i p e t ev :
  closed F -> J F X l st s -> cur_pollfd st = Some i -> l !! i = Some p -> within ev (mask p) -> bodies s !! e = Some (DTcp t) ->
  finishes F X l st s (tcp_poll_finish st e ev s).
Proof.
  intros HF Hj Hi Hp Hev Hb. unfold tcp_poll_finish.
  destruct (J_on_tcp F X l st s e t (gets self) (fun a t' => a = t /\ t' = t) HF Hj Hb) as (a & s1 & t' & Hd & Hj1 & Hb1 & (-> & ->) & Hs1).
  { apply sparing_silent. by intros c. } { intros c. exact id. } { by intros F' c HF' <- Hh. }
  rewrite (bind_done _ _ _ _ _ Hd). eapply finishes_from; [exact Hs1|].
  destruct (tcp_state t) as [| | |conn|err|] eqn:Et; try by (eapply finishes_ready; try done; try apply within_land).
  destruct (J_on_tcp F X l st s1 e t tcp_finish (fun _ _ => True) HF Hj1 Hb1) as (r & s2 & t2 & Hd2 & Hj2 & _ & _ & Hs2).
  { apply tcp_finish_spares. } { apply tcp_finish_calm. } { intros F' c HF' <- Hh. by apply tcp_finish_spec. }
  rewrite (bind_done _ _ _ _ _ Hd2). eapply finishes_from; [exact Hs2|]. destruct r as [|err]; [eapply finishes_ready; try done; by apply within_land|].
  destruct (err =? _); [|by eapply finishes_ready]. exists st, s2. split; [done|]. split; [done|]. split; [apply extends_refl|]. split; [done|by apply same_table_bodies].
Qed.

Lemma finish_one_spec F X l st s index : closed F -> J F X l st s -> finishes F X l st s (finish_one index st s).
Proof.
  intros HF Hj. assert (finishes F X l st s (Done st s)) as Hskip by (exists st, s; split; [done|]; split; [done|]; split; [apply extends_refl|]; split; [done|by apply same_table_bodies]).
  unfold finish_one. destruct (Z.leb_spec (Z.of_nat (length (states st))) (u32 index)) as [Hi|Hi]; [done|].
  pose proof (u32_range index) as Hu. destruct (lookup_lt_is_Some_2 (states st) (Z.to_nat (u32 index))) as [x Hx]; [lia|]. rewrite Hx.
  destruct (proj1 (list.Forall_forall _ _) (fine_states _ _ _ (j_fine _ _ _ _ _ Hj)) x) as (p & Hp & Hev); [by eapply list_elem_of_lookup_2|].
  destruct (Forall2_lookup_l _ _ _ _ _ (j_regs _ _ _ _ _ Hj) Hx) as (h & _ & b & Hb & _).
  set (st1 := set_current (Some (st_pollfd x)) (Some (st_entry x)) st). assert (J F X l st1 s) as Hj1 by (by apply J_current).
  assert (finishes F X l st1 s (match b with DTcp _ => tcp_poll_finish st1 (st_entry x) (st_events x) | _ => __wasilibc_poll_ready st1 (st_events x) end s)) as Hf.
  { destruct b as [f|io|t|u]; [by eapply finishes_ready..|by eapply tcp_poll_finish_spec|by eapply finishes_ready]. }
  pose proof Hb as Hb'. unfold bodies in Hb'. rewrite lookup_fmap in Hb'. destruct (heap s !! st_entry x) as [o|] eqn:Ho; [|done]. injection Hb' as Hb'.
  rewrite (bind_done _ _ _ o s) by (unfold load, gets, mbind, M_bind; by rewrite Ho). rewrite Hb'. exact Hf.
Qed.

Lemma finish_all_spec F X l ready st s : closed F -> J F X l st s -> finishes F X l st s (finish_all ready st s).
Proof.
  intros HF. revert st s. induction ready as [|index ready IH]; intros st s Hj.
  { exists st, s. split; [done|]. split; [done|]. split; [apply extends_refl|]. split; [done|by apply same_table_bodies]. }
  destruct (finish_one_spec F X l st s index HF Hj) as (st1 & s1 & Hd & Hj1 & Hx1 & He1 & Hs1). cbn [finish_all]. rewrite (bind_done _ _ _ _ _ Hd).
  destruct (IH st1 s1 Hj1) as (st2 & s2 & Hd2 & Hj2 & Hx2 & He2 & Hs2). exists st2, s2. split; [done|]. split; [done|].
  split; [by apply (extends_trans 0 0 _ (set_current None None st1))|]. split; [congruence|by eapply same_table_trans].
Qed.

Lemma J_log F F' X l st s ev : J F X l st s -> accounted F' (log ev s) -> J F' X l st (log ev s).
Proof. intros [Ji Jl Ja Jr Jf Jm Jc] Ha. by split. Qed.

Lemma J_pollables F X l st s p : J F X l st s -> p ∈ pollables st -> (Pollable, p) ∈ keys (owned_all (bodies s)).
Proof.
  intros Hj Hp. apply list_elem_of_lookup_1 in Hp as [k Hk].
  destruct (Forall2_lookup_r _ _ _ _ _ (j_regs _ _ _ _ _ Hj) Hk) as (x & _ & b & Hb & Hin).
  unfold keys. rewrite (owned_all_delete (bodies s) _ b Hb), fmap_app. apply elem_of_app. by left.
Qed.

Lemma J_poll F X l st s hs :
  closed F -> J F X l st s -> hs <> [] -> (forall h, h ∈ hs -> h ∈ pollables st \/ (Pollable, h) ∈ keys F) -> J F X l st (log (Ev (poll_poll hs)) s).
Proof.
  intros HF Hj Hne Hhs. eapply J_log; [exact Hj|]. pose proof (j_acc _ _ _ _ _ Hj) as (Hv & Hk & Ho). split; [done|]. split; [done|].
  cbn [log world_logged calls set_calls]. change (bodies (set_calls _ s)) with (bodies s).
  eapply owns_weaken, (owns_use (poll_poll hs) _ _ _ Ho); try done; [by destruct hs|]. intros y (h & -> & Hh)%list_elem_of_fmap.
  unfold keys. rewrite !fmap_app, !elem_of_app. destruct (Hhs h Hh) as [Hp|Hp]; [|by auto]. right. left. by eapply J_pollables.
Qed.

Lemma poll_timeout F X l st s ns :
  closed F -> J F X l st s -> let tp := host _ (calls s) (monotonic_clock_subscribe_duration ns) in
  tp <> 0 /\ closed (((Pollable, tp), plain) :: F) /\ J (((Pollable, tp), plain) :: F) X l st (log (Ev (monotonic_clock_subscribe_duration ns)) s).
Proof.
  intros HF Hj tp. assert (accounted (((Pollable, tp), plain) :: F) (log (Ev (monotonic_clock_subscribe_duration ns)) s)) as Ha.
  { apply (accounted_create (monotonic_clock_subscribe_duration ns) F s HF); try done. by apply (j_acc _ _ _ _ _ Hj). }
  split; [|split; [|by eapply J_log]].
  - destruct Ha as (_ & _ & Ho). eapply (owns_nonzero _ _ _ _ _ _ Ho). apply elem_of_app. right. left.
  - intros e x [->|He]%elem_of_cons Hp; [done|]. unfold keys. right. by eapply HF.
Qed.

Definition waits F X l st s (out : outcome world (Z * poll_state_t)) : Prop :=
  exists st' s', out = Done (event_count st', st') s' /\ J F X l st' s' /\ later 0 st st' /\ states st' = states st /\ same_table s s'.

Lemma wait_timeout F X l st s ns :
  closed F -> J F X l st s ->
  waits F X l st s ((timeout_pollable ← ask (monotonic_clock_subscribe_duration ns);
    ready ← ask (poll_poll (pollables st ++ [timeout_pollable]));
    st ← finish_all ready st;
    (if timeout_pollable =? 0 then mret tt else ask (poll_pollable_drop_own timeout_pollable)) ;;
    mret (event_count st, st)) s).
Proof.
  intros HF Hj. destruct (poll_timeout F X l st s ns HF Hj) as (Hz & HF1 & Hj1). cbv zeta in *.
  set (tp := host _ (calls s) (monotonic_clock_subscribe_duration ns)) in *. set (s1 := log (Ev (monotonic_clock_subscribe_duration ns)) s) in *.
  rewrite (bind_done _ _ s tp s1) by done. apply (J_poll _ X l st s1 (pollables st ++ [tp]) HF1) in Hj1.
  2: { by destruct (pollables st). }
  2: { intros h [Hh|Hh%list_elem_of_singleton]%elem_of_app; [by left|right]. subst h. left. }
  set (s2 := log (Ev (poll_poll (pollables st ++ [tp]))) s1) in *. rewrite (bind_done _ _ s1 (host _ (calls s1) (poll_poll (pollables st ++ [tp]))) s2) by done.
  destruct (finish_all_spec _ X l (host _ (calls s1) (poll_poll (pollables st ++ [tp]))) st s2 HF1 Hj1) as (st' & s3 & Hd & Hj3 & Hx & He & Hs).
  rewrite (bind_done _ _ _ _ _ Hd). apply Z.eqb_neq in Hz as ->. exists st', (log (Ev (poll_pollable_drop_own tp)) s3). split; [done|].
  split; [|split; [done|split; [done|]]].
  - eapply J_log; [exact Hj3|]. by eapply (accounted_drop _ F s3 (Pollable, tp) plain); [|apply (j_acc _ _ _ _ _ Hj3)|..].
  - destruct Hs as (? & ? & ?). by split.
Qed.

Lemma poll_wait_spec F X l st s timeout :
  closed F -> J F X l st s -> timeout <> None \/ busy st -> waits F X l st s (poll_wait st timeout s).
Proof.
  intros HF Hj Hb. unfold poll_wait. destruct (Z.ltb_spec 0 (event_count st)) as [Hc|Hc]; [by apply wait_timeout|].
  destruct timeout as [ts|]; [by apply wait_timeout|]. destruct Hb as [?|[Hb|Hb]]; [done| |lia]. rewrite (bind_done _ _ s 0 s), app_nil_r by done.
  pose proof (J_poll F X l st s (pollables st) HF Hj) as Hj1. set (s1 := log (Ev (poll_poll (pollables st))) s) in *.
  rewrite (bind_done _ _ s (host _ (calls s) (poll_poll (pollables st))) s1) by done.
  destruct (finish_all_spec F X l (host _ (calls s) (poll_poll (pollables st))) st s1 HF) as (st' & s2 & Hd & Hj2 & Hx & He & Hs).
  { apply Hj1; [|by left]. intros Hn. pose proof (list.Forall2_length _ _ _ (j_regs _ _ _ _ _ Hj)) as Hlen. rewrite Hn in Hlen. cbn in Hlen. lia. }
  rewrite (bind_done _ _ _ _ _ Hd). exists st', s2. done.
Qed.

Lemma release_all_spec F X l s :
  closed F -> inv (X ++ (st_entry <$> l)) s -> len s <= 2 ^ 26 -> Z.of_nat (length X) + Z.of_nat (length l) <= 2 ^ 30 -> accounted F s ->
  exists s', release_all l s = Done tt s' /\ inv X s' /\ len s' = len s /\ accounted F s' /\ same_table s s'.
Proof.
  intros HF. revert s. induction l as [|x l IH]; intros s Hi Hl Hr Ha.
  { exists s. split; [done|]. rewrite app_nil_r in Hi. do 3 (split; [done|]). by apply same_table_bodies. }
  cbn [length] in Hr. destruct (dec_step F (X ++ (st_entry <$> l)) s (st_entry x) HF) as (Hd & Hi1 & Hl1 & Ha1 & Hs1); [|done| |done|].
  - eapply inv_perm, Hi. rewrite fmap_cons. solve_Permutation.
  - rewrite length_app, length_fmap. lia.
  - destruct (IH _ Hi1 ltac:(lia) ltac:(lia) Ha1) as (s' & Hd' & Hi' & Hl' & Ha' & Hs'). cbn [release_all]. rewrite (bind_done _ _ _ _ _ Hd).
    exists s'. split; [done|]. split; [done|]. split; [lia|]. split; [done|]. by eapply same_table_trans.
Qed.

(** ** The calls *)

Definition quiet (l : list pollfd) : Prop := Forall (fun p => revents p = 0) l.

Lemma quiet_nready l : quiet l -> nready l = 0.
Proof. induction 1 as [|p l Hp _ IH]; [done|]. cbn. rewrite Hp, IH. done. Qed.

Lemma quiet_answer l : quiet l -> Forall2 (answer mask) l l.
Proof. induction 1 as [|p l Hp _ IH]; constructor; [|done]. split; [done|]. split; [done|]. rewrite Hp. apply Z.ldiff_0_l. Qed.

Definition start (l : list pollfd) : poll_state_t := PollState [] [] (u32 (2 * Z.of_nat (length l) + 1)) 0 None None l.

Lemma start_cap l : Z.of_nat (length l) <= 2 ^ 27 -> cap (start l) = 2 * Z.of_nat (length l) + 1.
Proof. intros Hl. cbn. apply u32_small. lia. Qed.

Lemma J_start held l s :
  inv held s -> len s <= 2 ^ 26 -> Z.of_nat (length held) <= 2 ^ 29 -> accounted [] s -> Z.of_nat (length l) <= 2 ^ 27 -> quiet l ->
  J [] held l (start l) s.
Proof.
  intros Hi Hl Hh Ha Hn Hq. pose proof (start_cap l Hn) as Hc. split; [by rewrite app_nil_r|done..| |lia|rewrite Hc; cbn; lia].
  split; [by apply quiet_answer|symmetry; by apply quiet_nready|constructor].
Qed.

(** Something can end the wait. *)
Definition waits_for_something s (l : list pollfd) (timeout : option timespec) : Prop := timeout <> None \/ Exists (wakes s) l.

(** What a call owes the caller. *)
Record polled (held : list loc) (l : list pollfd) s (rc : Z) (l' : list pollfd) s' : Prop := {
  polled_inv : inv held s';
  polled_len : len s' <= 2 ^ 26;
  polled_acc : accounted [] s';
  polled_fds : Forall2 (answer mask) l l';
  polled_rc : -1 <= rc;
  polled_count : 0 <= rc -> rc = nready l';
  polled_closed : 0 <= rc -> stdio_initialized s = true -> forall i p q, l !! i = Some p -> l' !! i = Some q -> 0 <= pfd p -> open_fds s !! pfd p = None ->
    within POLLNVAL (revents q);
  polled_table : table_kept s s';
}.

Lemma wakes_index s l : Exists (wakes s) l -> exists i p, i ∈ seq 0 (length l) /\ l !! i = Some p /\ wakes s p.
Proof.
  intros (p & Hp & Hr)%list.Exists_exists. apply list_elem_of_lookup_1 in Hp as [i Hi]. exists i, p. split; [|done].
  apply elem_of_seq. apply lookup_lt_Some in Hi. lia.
Qed.

Lemma polled_of F held l st s rc st' s' s1 :
  J F held l st' s1 -> inv held s' -> len s' = len s1 -> accounted [] s' -> -1 <= rc -> (0 <= rc -> rc = event_count st') -> table_kept s s' ->
  (0 <= rc -> forall i p, i ∈ seq 0 (length l) -> l !! i = Some p -> 0 <= pfd p -> stdio_initialized s = true -> open_fds s !! pfd p = None -> marked st i) ->
  later 0 st st' -> polled held l s rc (fds st') s'.
Proof.
  intros Hj Hi Hl Ha Hrc Hcount Hk Hm Hx. pose proof (j_fine _ _ _ _ _ Hj) as [Hf Hc _]. pose proof (j_len _ _ _ _ _ Hj).
  split; try done; [lia| |].
  - intros Hp. rewrite <- Hc. by apply Hcount.
  - intros Hp Hs i p q Hlp Hlq Hfd Ho. destruct (marked_later 0 st st' i) as (q' & Hq' & Hw); [|done|].
    + apply (Hm Hp i p); try done. apply elem_of_seq. apply lookup_lt_Some in Hlp. lia.
    + rewrite Hlq in Hq'. by injection Hq' as ->.
Qed.

Lemma ppoll_impl_spec held l timeout s :
  inv held s -> len s <= 2 ^ 26 -> Z.of_nat (length held) <= 2 ^ 29 -> accounted [] s -> Z.of_nat (length l) <= 2 ^ 27 -> quiet l ->
  Forall (mask_ok s) l -> waits_for_something s l timeout ->
  exists rc l' s', ppoll_impl l timeout s = Done (rc, l') s' /\ polled held l s rc l' s'.
Proof.
  intros Hi Hl Hh Ha Hn Hq Hm Hw. pose proof (start_cap l Hn) as Hc. pose proof (J_start held l s Hi Hl Hh Ha Hn Hq) as Hj.
  destruct (register_all_spec [] held l (seq 0 (length l)) (start l) s closed_nil Hj) as (rc & st1 & s1 & Hd1 & Hj1 & Hx1 & Hrc & Hk1 & Hb1 & Hn1).
  { rewrite Hc. lia. } { unfold room. rewrite Hc, length_seq. cbn. lia. }
  { apply list.Forall_forall. intros i [_ Hi']%elem_of_seq. destruct (lookup_lt_is_Some_2 l i) as [p Hp]; [lia|]. exists p. split; [done|].
    by eapply Forall_lookup_1. }
  unfold ppoll_impl. fold (start l). rewrite (bind_done _ _ _ _ _ Hd1). cbn [fst snd].
  assert (exists rc2 st2 s2, (if rc <? 0 then mret (rc, st1) else poll_wait st1 timeout) s1 = Done (rc2, st2) s2 /\ J [] held l st2 s2 /\ later 0 st1 st2 /\
    same_table s1 s2 /\ (0 <= rc2 -> 0 <= rc /\ rc2 = event_count st2) /\ -1 <= rc2) as (rc2 & st2 & s2 & Hd2 & Hj2 & Hx2 & Hs2 & Hrc2 & Hge).
  { destruct (Z.ltb_spec rc 0) as [Hneg|Hpos]; [exists rc, st1, s1; split; [done|]; split; [done|]; split; [apply extends_refl|]; split; [by apply same_table_bodies|lia]|].
    destruct (poll_wait_spec [] held l st1 s1 timeout closed_nil Hj1) as (st2 & s2 & Hd2 & Hj2 & Hx2 & _ & Hs2).
    - destruct Hw as [Hw|Hw]; [by left|right]. apply Hb1; [done|by apply wakes_index].
    - exists (event_count st2), st2, s2. split; [done|]. split; [done|]. split; [done|]. split; [done|]. split; [done|].
      pose proof (j_fine _ _ _ _ _ Hj2) as [_ -> _]. pose proof (nready_nonneg (fds st2)). lia. }
  rewrite (bind_done _ _ _ _ _ Hd2). cbn [fst snd]. pose proof Hj2 as [Ji2 Jl2 Ja2 _ _ Jm2 Jc2].
  destruct (release_all_spec [] held (states st2) s2 closed_nil Ji2 Jl2 ltac:(lia) Ja2) as (s3 & Hd3 & Hi3 & Hl3 & Ha3 & Hs3).
  rewrite (bind_done _ _ _ _ _ Hd3). exists rc2, (fds st2), s3. split; [done|]. eapply (polled_of [] held l st1); try done.
  - intros Hp. by apply Hrc2.
  - eapply table_kept_trans; [exact Hk1|]. apply table_kept_same. by eapply same_table_trans.
  - intros Hp. apply Hn1. by apply Hrc2.
Qed.

Lemma quiet_reset l : quiet (set_revents 0 <$> l).
Proof. induction l; by constructor. Qed.

Lemma wakes_reset s l : Exists (wakes s) l -> Exists (wakes s) (set_revents 0 <$> l).
Proof. induction 1; [by left|by right]. Qed.

Lemma ppoll_spec held l timeout s :
  inv held s -> len s <= 2 ^ 26 -> Z.of_nat (length held) <= 2 ^ 29 -> accounted [] s -> Z.of_nat (length l) <= 2 ^ 27 ->
  Forall (mask_ok s) (set_revents 0 <$> l) -> waits_for_something s l timeout ->
  exists rc l' s', ppoll l timeout s = Done (rc, l') s' /\
    (rc = -1 /\ l' = l /\ s' = with_errno (errno s') s \/ polled held (set_revents 0 <$> l) s rc l' s').
Proof.
  intros Hi Hl Hh Ha Hn Hm Hw. unfold ppoll, validate_something_not_pollpri. destruct (match timeout with Some _ => _ | None => _ end).
  { exists (-1), l, (with_errno EINVAL s). split; [done|]. by left. }
  destruct (existsb pri_only l && negb (existsb non_pri l)).
  { exists (-1), l, (with_errno ENOSYS s). split; [done|]. by left. }
  rewrite (bind_done _ _ s 0 s) by done. cbn [Z.ltb Z.compare].
  destruct (ppoll_impl_spec held (set_revents 0 <$> l) timeout s) as (rc & l' & s' & Hd & Hp); try done.
  - by rewrite length_fmap.
  - apply quiet_reset.
  - destruct Hw as [Hw|Hw]; [by left|right; by apply wakes_reset].
  - exists rc, l', s'. split; [exact Hd|by right].
Qed.
End polling.

Section calls.
Context `{HostLaws} `{!ResourceLaws} `{Stalling}.
Implicit Types s : world.

(** The events of the caller, and POLLNVAL. *)
Definition any_mask (p : pollfd) : Z := Z.lor (pevents p) POLLNVAL.

Lemma any_mask_ok s l : Forall (mask_ok any_mask s) l.
Proof. apply list.Forall_forall. intros p _. split; intros _ _; [apply within_grow|apply within_nval]. Qed.

(** [lasts] for a call from [s] alone. *)
Definition lasts_at s {A} (m : M world A) : Prop :=
  forall held, inv held s -> len s <= 2 ^ 26 -> Z.of_nat (length held) <= 2 ^ 29 -> accounted [] s ->
    match m s with
    | Done _ s' => inv held s' /\ len s' <= 2 ^ 28 /\ accounted [] s'
    | Stop r s' => excused r (calls s')
    end.

Lemma ppoll_lasts s l timeout : Z.of_nat (length l) <= 2 ^ 27 -> waits_for_something s l timeout -> lasts_at s (ppoll l timeout).
Proof.
  intros Hn Hw held Hi Hl Hh Ha. destruct (ppoll_spec any_mask held l timeout s) as (rc & l' & s' & -> & Hr); try done; [apply any_mask_ok|].
  destruct Hr as [(_ & _ & ->)|[Hi' Hl' Ha' _ _ _ _ _]]; [|split; [done|split; [lia|done]]].
  split; [exact Hi|]. split; [change (len s <= 2 ^ 28); lia|exact Ha].
Qed.
End calls.

(** ** The array of pselect *)

(** The events the array asks for, by descriptor. *)
Fixpoint events_of (fd : Z) (l : list pollfd) : Z :=
  match l with [] => 0 | p :: l' => if pfd p =? fd then pevents p else events_of fd l' end.

Lemma events_of_at l p : NoDup (pfd <$> l) -> p ∈ l -> events_of (pfd p) l = pevents p.
Proof.
  induction l as [|x l IH]; [by intros _ ?%elem_of_nil|]. rewrite fmap_cons. intros [Hx Hn]%list.NoDup_cons [->|Hp]%elem_of_cons; cbn.
  - by rewrite Z.eqb_refl.
  - destruct (Z.eqb_spec (pfd x) (pfd p)) as [He|]; [|by apply IH]. exfalso. apply Hx. rewrite He. by apply (list_elem_of_fmap_2 pfd).
Qed.

Lemma events_of_in fd l : events_of fd l <> 0 -> exists p, p ∈ l /\ pfd p = fd /\ pevents p = events_of fd l.
Proof.
  induction l as [|x l IH]; [done|]. cbn. destruct (Z.eqb_spec (pfd x) fd) as [He|]; intros Hz.
  - exists x. split; [left|done].
  - destruct (IH Hz) as (p & Hp & Hf & He). exists p. split; [by right|done].
Qed.

Lemma add_events_spec fd ev fd' l : events_of fd' (add_events fd ev l) = if fd' =? fd then Z.lor (events_of fd l) ev else events_of fd' l.
Proof.
  induction l as [|x l IH]; cbn.
  - rewrite Z.eqb_sym. by destruct (fd' =? fd).
  - destruct (Z.eqb_spec (pfd x) fd) as [->|Hne]; cbn.
    + rewrite (Z.eqb_sym fd fd'). by destruct (fd' =? fd).
    + rewrite IH. destruct (Z.eqb_spec (pfd x) fd') as [He|]; [|done]. destruct (Z.eqb_spec fd' fd); [congruence|done].
Qed.

Lemma decide_skip (x y : Z) l : x <> y -> bool_decide (x ∈ y :: l) = bool_decide (x ∈ l).
Proof. intros Hne. apply bool_decide_ext. rewrite elem_of_cons. tauto. Qed.

Lemma add_events_fds fd ev l : pfd <$> add_events fd ev l = (pfd <$> l) ++ (if bool_decide (fd ∈ pfd <$> l) then [] else [fd]).
Proof.
  induction l as [|x l IH]; [done|]. rewrite fmap_cons. cbn [add_events]. destruct (Z.eqb_spec (pfd x) fd) as [He|Hne].
  - rewrite bool_decide_true by (rewrite He; left). by rewrite app_nil_r.
  - rewrite fmap_cons, IH. by rewrite decide_skip by congruence.
Qed.

Lemma add_events_nodup fd ev l : NoDup (pfd <$> l) -> NoDup (pfd <$> add_events fd ev l).
Proof.
  intros Hn. rewrite add_events_fds. case_bool_decide as Hb; [by rewrite app_nil_r|]. apply list.NoDup_app. split; [done|].
  split; [|apply list.NoDup_singleton]. by intros x Hx ->%list_elem_of_singleton.
Qed.

Lemma add_set_spec nfds set ev l fd :
  events_of fd (add_set nfds set ev l) = if (fd <? nfds) && bool_decide (fd ∈ set) then Z.lor (events_of fd l) ev else events_of fd l.
Proof.
  unfold add_set. revert l. induction set as [|x set IH]; intros l; cbn [fold_left].
  { rewrite bool_decide_false by apply not_elem_of_nil. by rewrite andb_false_r. }
  rewrite IH. destruct (Z.leb_spec nfds x).
  - destruct (Z.ltb_spec fd nfds); [|done]. by rewrite decide_skip by lia.
  - rewrite add_events_spec. destruct (Z.eqb_spec fd x) as [->|Hne].
    + replace (x <? nfds) with true by lia. rewrite (bool_decide_true (x ∈ x :: set)) by left. cbn. case_bool_decide; [|done].
      by rewrite <- Z.lor_assoc, Z.lor_diag.
    + by rewrite decide_skip.
Qed.

Lemma add_set_nodup nfds set ev l : NoDup (pfd <$> l) -> NoDup (pfd <$> add_set nfds set ev l).
Proof.
  unfold add_set. revert l. induction set as [|x set IH]; intros l Hn; cbn [fold_left]; [done|]. apply IH. destruct (_ <=? _); [done|].
  by apply add_events_nodup.
Qed.

Lemma add_set_length nfds set ev l : (length (add_set nfds set ev l) <= length l + length set)%nat.
Proof.
  unfold add_set. revert l. induction set as [|x set IH]; intros l; cbn [fold_left length]; [lia|]. eapply Nat.le_trans; [apply IH|].
  destruct (_ <=? _); [lia|]. pose proof (f_equal length (add_events_fds x ev l)) as Hl. rewrite length_app, !length_fmap in Hl.
  case_bool_decide; cbn in Hl; lia.
Qed.

Lemma has_lor_l a b c : has (Z.lor a b) c = has a c || has b c.
Proof. unfold has. rewrite (Z.land_comm (Z.lor a b)), (Z.land_comm a), (Z.land_comm b). apply (has_lor c a b). Qed.

Definition asked (nfds : Z) (set : list Z) (fd : Z) : bool := (fd <? nfds) && bool_decide (fd ∈ set).

Lemma asked_in nfds set fd : asked nfds set fd = true -> fd < nfds /\ fd ∈ set.
Proof. unfold asked. rewrite andb_true_iff. intros [? ?%bool_decide_eq_true]. split; [lia|done]. Qed.

Lemma add_set_has nfds set ev l fd m : has (events_of fd (add_set nfds set ev l)) m = has (events_of fd l) m || asked nfds set fd && has ev m.
Proof. rewrite add_set_spec. fold (asked nfds set fd). destruct (asked nfds set fd); [apply has_lor_l|by rewrite orb_false_r]. Qed.

Lemma combine_has nfds r w e fd m :
  has (events_of fd (combine_sets nfds r w e)) m =
    asked nfds r fd && has POLLRDNORM m || asked nfds w fd && has POLLWRNORM m || asked nfds e fd && has POLLPRI m.
Proof. unfold combine_sets. by rewrite !add_set_has. Qed.

Lemma combine_nodup nfds r w e : NoDup (pfd <$> combine_sets nfds r w e).
Proof. apply add_set_nodup, add_set_nodup, add_set_nodup. constructor. Qed.

Lemma combine_length nfds r w e : (length (combine_sets nfds r w e) <= length r + length w + length e)%nat.
Proof.
  unfold combine_sets. do 2 (eapply Nat.le_trans; [apply add_set_length|]; apply Nat.add_le_mono_r).
  eapply Nat.le_trans; [apply add_set_length|]. cbn. lia.
Qed.

Lemma combine_at nfds r w e p : p ∈ combine_sets nfds r w e -> events_of (pfd p) (combine_sets nfds r w e) = pevents p.
Proof. apply events_of_at, combine_nodup. Qed.

Lemma combine_asked nfds r w e fd :
  asked nfds r fd || asked nfds w fd || asked nfds e fd = true ->
  exists p, p ∈ combine_sets nfds r w e /\ pfd p = fd /\ pevents p = events_of fd (combine_sets nfds r w e).
Proof.
  intros Ha. apply events_of_in. intros Hz.
  assert (has (events_of fd (combine_sets nfds r w e)) (Z.lor POLLRDNORM (Z.lor POLLWRNORM POLLPRI)) = true) as Hh; [|by rewrite Hz in Hh].
  rewrite combine_has. cbn. by rewrite !andb_true_r.
Qed.

(** A member of a set that can end a wait, as an entry of [poll]. *)
Definition select_wakes `{Host} (s : world) (nfds : Z) (r w e : list Z) (fd : Z) : Prop :=
  0 <= fd < nfds /\ (fd ∈ r \/ fd ∈ w /\ ~ listens s fd \/ (fd ∈ w \/ fd ∈ e) /\ stdio_initialized s = true /\ open_fds s !! fd = None).

Lemma asked_true nfds l fd : fd < nfds -> fd ∈ l -> asked nfds l fd = true.
Proof. intros Hfd Hl. unfold asked. rewrite bool_decide_true by done. lia. Qed.

Lemma combine_wakes `{Host} (s : world) nfds r w e fd : select_wakes s nfds r w e fd -> Exists (wakes s) (combine_sets nfds r w e).
Proof.
  intros [[Hfd Hlt] Hw]. destruct (combine_asked nfds r w e fd) as (p & Hp & Hf & He).
  { destruct Hw as [Hw|[[Hw _]|[[Hw|Hw] _]]]; rewrite (asked_true nfds _ fd Hlt Hw), ?orb_true_r; done. }
  apply list.Exists_exists. exists p. split; [done|]. split; [lia|]. rewrite He, Hf, !combine_has.
  destruct Hw as [Hw|[[Hw Hl]|[_ Hw]]]; [left|right; left; split; [|done]|by right; right]; rewrite (asked_true nfds _ fd Hlt Hw); cbn; [done|by rewrite orb_true_r].
Qed.

(** ** What pselect makes of the answers *)

Definition ready_for (m : Z) (l : list pollfd) : list Z := pfd <$> filter (fun p => has (revents p) m = true) l.

Lemma ready_for_cons m p l : ready_for m (p :: l) = (if has (revents p) m then [pfd p] else []) ++ ready_for m l.
Proof. unfold ready_for. rewrite filter_cons. destruct (has (revents p) m); [by rewrite decide_True|by rewrite decide_False]. Qed.

(** Nothing is ready of what the caller did not ask for with a set. *)
Definition silent (given : bool) (m : Z) (l : list pollfd) : Prop := given = false -> Forall (fun p => has (revents p) m = false) l.

Lemma report_all (r w e : bool) l s :
  silent r POLLRDNORM l -> silent w POLLWRNORM l -> silent e POLLPRI l ->
  fold_left (report (if r then PRead else PEmpty) (if w then PWrite else PEmpty) (if e then PError else PEmpty)) l s =
    FdSets (fd_read s ++ if r then ready_for POLLRDNORM l else []) (fd_write s ++ if w then ready_for POLLWRNORM l else [])
      (fd_error s ++ if e then ready_for POLLPRI l else []) (fd_empty s).
Proof.
  revert s. induction l as [|p l IH]; intros s Hr Hw He; cbn [fold_left].
  { destruct s, r, w, e; cbn; by rewrite !app_nil_r. }
  assert (forall b m, silent b m (p :: l) -> silent b m l /\ (b = false -> has (revents p) m = false)) as Hs.
  { intros b m Hb. split; intros Hf; specialize (Hb Hf); by inversion_clear Hb. }
  destruct (Hs _ _ Hr) as [Hr' Hrp], (Hs _ _ Hw) as [Hw' Hwp], (Hs _ _ He) as [He' Hep]. rewrite IH by done. rewrite !ready_for_cons. unfold report.
  destruct r, w, e; rewrite ?(Hrp eq_refl), ?(Hwp eq_refl), ?(Hep eq_refl); unfold append_if;
    destruct (has (revents p) POLLRDNORM), (has (revents p) POLLWRNORM), (has (revents p) POLLPRI); try done; destruct s; cbn; by rewrite <- ?app_assoc.
Qed.

Lemma within_land_eq a b : within a b -> Z.land a b = a.
Proof.
  intros Hw. apply Z.bits_inj'. intros n Hn. pose proof (f_equal (fun z => Z.testbit z n) Hw) as Hb. cbv beta in Hb.
  rewrite Z.ldiff_spec, Z.bits_0 in Hb. rewrite Z.land_spec. by destruct (Z.testbit a n), (Z.testbit b n).
Qed.

Lemma within_has a b m : within a b -> has a m = true -> has b m = true.
Proof.
  intros Hw. rewrite <- (within_land_eq a b Hw). unfold has. rewrite <- Z.land_assoc. destruct (Z.eqb_spec (Z.land b m) 0) as [->|]; [by rewrite Z.land_0_r|done].
Qed.

(** The answer for one set: some of its members below [nfds]. *)
Definition chosen (nfds : Z) (set result : option (list Z)) : Prop :=
  match set, result with
  | Some a, Some b => NoDup b /\ forall fd, fd ∈ b -> fd ∈ a /\ fd < nfds
  | None, None => True
  | _, _ => False
  end.

Definition members (set : option (list Z)) : Z := Z.of_nat (length (default [] set)).

Lemma ready_for_in nfds r w e l' m fd :
  Forall2 (answer any_mask) (set_revents 0 <$> combine_sets nfds r w e) l' -> has POLLNVAL m = false -> fd ∈ ready_for m l' ->
  has (events_of fd (combine_sets nfds r w e)) m = true.
Proof.
  intros Hl Hm (q & -> & Hq)%list_elem_of_fmap. apply list_elem_of_filter in Hq as [Hh Hq]. apply list_elem_of_lookup_1 in Hq as [i Hi].
  destruct (Forall2_lookup_r _ _ _ _ _ Hl Hi) as (p & Hp & Hf & _ & Hw). rewrite list_lookup_fmap in Hp.
  destruct (combine_sets nfds r w e !! i) as [x|] eqn:Ex; [|done]. injection Hp as <-. rewrite Hf. cbn [pfd set_revents].
  rewrite combine_at by (by eapply list_elem_of_lookup_2). apply (within_has _ _ _ Hw) in Hh. unfold any_mask in Hh. rewrite has_lor_l, Hm, orb_false_r in Hh. done.
Qed.

Lemma answers_fds mask l l' : Forall2 (answer mask) l l' -> pfd <$> l' = pfd <$> l.
Proof. induction 1 as [|p q l l' (Hf & _) _ IH]; [done|]. by rewrite !fmap_cons, Hf, IH. Qed.

Lemma ready_for_nodup m l : NoDup (pfd <$> l) -> NoDup (ready_for m l).
Proof.
  induction l as [|p l IH]; [by intros _; constructor|]. rewrite ready_for_cons, fmap_cons. intros [Hp Hn]%list.NoDup_cons.
  destruct (has (revents p) m); [|by apply IH]. apply list.NoDup_cons. split; [|by apply IH]. intros (q & Hq & Hin)%list_elem_of_fmap. apply Hp.
  apply list_elem_of_filter in Hin as [_ Hin]. rewrite Hq. by apply (list_elem_of_fmap_2 pfd).
Qed.

Lemma answers_chosen nfds r w e l' m set :
  Forall2 (answer any_mask) (set_revents 0 <$> combine_sets nfds r w e) l' -> has POLLNVAL m = false ->
  (forall fd, has (events_of fd (combine_sets nfds r w e)) m = asked nfds (default [] set) fd) ->
  silent (if set then true else false) m l' /\ chosen nfds set (if set then Some (ready_for m l') else None).
Proof.
  intros Hl Hm Hask. assert (forall fd, fd ∈ ready_for m l' -> fd ∈ default [] set /\ fd < nfds) as Hin.
  { intros fd Hfd. apply (ready_for_in nfds r w e) in Hfd; [|done..]. rewrite Hask in Hfd. by apply asked_in in Hfd as [? ?]. }
  split.
  - destruct set; [done|]. intros _. apply list.Forall_forall. intros q Hq. apply not_true_iff_false. intros Hh.
    destruct (Hin (pfd q)) as [?%elem_of_nil _]; [|done]. apply (list_elem_of_fmap_2 pfd). by apply list_elem_of_filter.
  - destruct set as [a|]; [|done]. split; [|done]. apply ready_for_nodup. rewrite (answers_fds _ _ _ Hl), <- list_fmap_compose. apply combine_nodup.
Qed.

Section select.
Context `{HostLaws} `{!ResourceLaws} `{Stalling}.
Implicit Types s : world.

(** What a call of pselect that did not fail owes the caller. *)
Record selected (nfds : Z) s (readfds writefds errorfds : option (list Z)) (rc : Z) (r w e : option (list Z)) : Prop := {
  selected_count : rc = members r + members w + members e;
  selected_read : chosen nfds readfds r;
  selected_write : chosen nfds writefds w;
  selected_error : chosen nfds errorfds e;
  selected_open : stdio_initialized s = true -> forall fd, 0 <= fd < nfds ->
    fd ∈ default [] readfds ++ default [] writefds ++ default [] errorfds -> is_Some (open_fds s !! fd);
}.

Lemma closed_marked held l s rc l' s' p :
  polled any_mask held (set_revents 0 <$> l) s rc l' s' -> 0 <= rc -> stdio_initialized s = true -> p ∈ l -> 0 <= pfd p ->
  existsb (fun p => has (revents p) POLLNVAL) l' = false -> is_Some (open_fds s !! pfd p).
Proof.
  intros Hp Hrc Hs Hin Hfd Hn. destruct (open_fds s !! pfd p) as [x|] eqn:Eo; [by eexists|]. exfalso.
  apply list_elem_of_lookup_1 in Hin as [i Hi]. assert ((set_revents 0 <$> l) !! i = Some (set_revents 0 p)) as Hi' by (by rewrite list_lookup_fmap, Hi).
  destruct (Forall2_lookup_l _ _ _ _ _ (polled_fds _ _ _ _ _ _ _ Hp) Hi') as (q & Hq & _).
  pose proof (polled_closed _ _ _ _ _ _ _ Hp Hrc Hs i _ q Hi' Hq Hfd Eo) as Hw. apply not_true_iff_false in Hn. apply Hn, existsb_exists.
  exists q. split; [apply list_elem_of_In; by eapply list_elem_of_lookup_2|]. by eapply within_has.
Qed.

Lemma asked_some nfds r w e fd : 0 <= fd < nfds -> fd ∈ r ++ w ++ e -> asked nfds r fd || asked nfds w fd || asked nfds e fd = true.
Proof.
  intros Hfd. unfold asked. replace (fd <? nfds) with true by lia. cbn. rewrite !elem_of_app, !orb_true_iff, !bool_decide_eq_true. tauto.
Qed.

Lemma select_answers nfds readfds writefds errorfds l' (s0 : fd_sets) held s rc s' :
  polled any_mask held (set_revents 0 <$> combine_sets nfds (default [] readfds) (default [] writefds) (default [] errorfds)) s rc l' s' -> 0 <= rc ->
  existsb (fun p => has (revents p) POLLNVAL) l' = false -> fd_read s0 = [] -> fd_write s0 = [] -> fd_error s0 = [] -> fd_empty s0 = [] ->
  let r := if readfds then PRead else PEmpty in let w := if writefds then PWrite else PEmpty in let e := if errorfds then PError else PEmpty in
  let t := fold_left (report r w e) l' s0 in
  selected nfds s readfds writefds errorfds (Z.of_nat (length (get_set r t)) + Z.of_nat (length (get_set w t)) + Z.of_nat (length (get_set e t)))
    (if readfds then Some (fd_read t) else None) (if writefds then Some (fd_write t) else None) (if errorfds then Some (fd_error t) else None).
Proof.
  intros Hp Hrc Hn H1' H2' H3' H4' r w e t. pose proof (polled_fds _ _ _ _ _ _ _ Hp) as Hl.
  destruct (answers_chosen _ _ _ _ l' POLLRDNORM readfds Hl) as [Sr Cr]; [done|intros fd; rewrite combine_has; cbn; by rewrite !andb_false_r, andb_true_r, !orb_false_r|].
  destruct (answers_chosen _ _ _ _ l' POLLWRNORM writefds Hl) as [Sw Cw]; [done|intros fd; rewrite combine_has; cbn; by rewrite !andb_false_r, andb_true_r, !orb_false_r|].
  destruct (answers_chosen _ _ _ _ l' POLLPRI errorfds Hl) as [Se Ce]; [done|intros fd; rewrite combine_has; cbn; by rewrite !andb_false_r, andb_true_r|].
  assert (t = fold_left (report (if (if readfds then true else false) then PRead else PEmpty) (if (if writefds then true else false) then PWrite else PEmpty)
    (if (if errorfds then true else false) then PError else PEmpty)) l' s0) as Ht by (by destruct readfds, writefds, errorfds).
  rewrite report_all in Ht by done. rewrite H1', H2', H3', H4' in Ht. clearbody t. subst t. split.
  - by destruct readfds, writefds, errorfds; subst r w e; unfold members; cbn.
  - by destruct readfds.
  - by destruct writefds.
  - by destruct errorfds.
  - intros Hs fd Hfd Hin. destruct (combine_asked nfds _ _ _ fd (asked_some nfds _ _ _ fd Hfd Hin)) as (p & Hpin & <- & _). eapply closed_marked; try done. lia.
Qed.

Definition select_waits {T} s (nfds : Z) (readfds writefds errorfds : option (list Z)) (timeout : option T) : Prop :=
  timeout <> None \/ exists fd, select_wakes s nfds (default [] readfds) (default [] writefds) (default [] errorfds) fd.

Definition fits_fd_set (set : option (list Z)) : Prop := members set <= FD_SETSIZE.

Lemma pselect_spec held nfds readfds writefds errorfds timeout s :
  inv held s -> len s <= 2 ^ 26 -> Z.of_nat (length held) <= 2 ^ 29 -> accounted [] s ->
  fits_fd_set readfds -> fits_fd_set writefds -> fits_fd_set errorfds -> select_waits s nfds readfds writefds errorfds timeout ->
  exists rc r w e s', pselect nfds readfds writefds errorfds timeout s = Done (rc, (r, w, e)) s' /\ inv held s' /\ len s' <= 2 ^ 26 /\ accounted [] s' /\
    (rc = -1 /\ (r, w, e) = (readfds, writefds, errorfds) \/ selected nfds s readfds writefds errorfds rc r w e).
Proof.
  intros Hi Hl Hh Ha Fr Fw Fe Hw. unfold pselect. destruct (nfds <? 0).
  { exists (-1), readfds, writefds, errorfds, (with_errno EINVAL s). split; [done|]. split; [exact Hi|]. split; [exact Hl|]. split; [exact Ha|by left]. }
  set (s0 := FdSets _ _ _ _). replace (get_set (if readfds then PRead else PEmpty) s0) with (default [] readfds) by (by destruct readfds).
  replace (get_set (if writefds then PWrite else PEmpty) s0) with (default [] writefds) by (by destruct writefds).
  replace (get_set (if errorfds then PError else PEmpty) s0) with (default [] errorfds) by (by destruct errorfds).
  unfold fits_fd_set, members, FD_SETSIZE in *. pose proof (combine_length nfds (default [] readfds) (default [] writefds) (default [] errorfds)) as Hlen.
  destruct (ppoll_spec any_mask held (combine_sets nfds (default [] readfds) (default [] writefds) (default [] errorfds)) timeout s) as (rc & l' & s1 & Hd & Hr); try done; [lia|apply any_mask_ok| |].
  { destruct Hw as [Hw|[fd Hfd]]; [by left|right; by eapply combine_wakes]. }
  rewrite (bind_done _ _ _ _ _ Hd). cbn [fst snd]. destruct Hr as [(-> & _ & ->)|Hp].
  { exists (-1), readfds, writefds, errorfds, (with_errno (errno s1) s). split; [done|]. split; [exact Hi|]. split; [exact Hl|]. split; [exact Ha|by left]. }
  pose proof Hp as [Hi1 Hl1 Ha1 _ _ _ _ _]. destruct (Z.ltb_spec rc 0) as [Hneg|Hpos].
  { exists (-1), readfds, writefds, errorfds, s1. split; [done|]. split; [done|]. split; [done|]. split; [done|by left]. }
  destruct (existsb _ l') eqn:Hn.
  { exists (-1), readfds, writefds, errorfds, (with_errno EBADF s1). split; [done|]. split; [exact Hi1|]. split; [exact Hl1|]. split; [exact Ha1|by left]. }
  do 5 eexists. split; [done|]. split; [done|]. split; [done|]. split; [done|]. right. eapply select_answers; try done; by destruct readfds, writefds, errorfds.
Qed.

Lemma poll_lasts s l timeout : Z.of_nat (length l) <= 2 ^ 27 -> 0 <= timeout \/ Exists (wakes s) l -> lasts_at s (poll l timeout).
Proof.
  intros Hn Hw. unfold poll. destruct (Z.ltb_spec timeout 0); apply ppoll_lasts; try done; [|by left]. destruct Hw; [lia|by right].
Qed.

Lemma pselect_lasts s nfds readfds writefds errorfds timeout :
  fits_fd_set readfds -> fits_fd_set writefds -> fits_fd_set errorfds -> select_waits s nfds readfds writefds errorfds timeout ->
  lasts_at s (pselect nfds readfds writefds errorfds timeout).
Proof.
  intros Fr Fw Fe Hw held Hi Hl Hh Ha.
  destruct (pselect_spec held nfds readfds writefds errorfds timeout s) as (rc & r & w & e & s' & -> & Hi' & Hl' & Ha' & _); try done.
  split; [done|]. split; [lia|done].
Qed.

Lemma select_lasts s nfds readfds writefds errorfds (timeout : option timeval) :
  fits_fd_set readfds -> fits_fd_set writefds -> fits_fd_set errorfds -> select_waits s nfds readfds writefds errorfds timeout ->
  lasts_at s (select nfds readfds writefds errorfds timeout).
Proof.
  intros Fr Fw Fe Hw. destruct timeout as [tv|]; cbn [select].
  - destruct ((tv_usec tv <? 0) || (1000000 <=? tv_usec tv)); [|apply pselect_lasts; try done; by left].
    intros held Hi Hl Hh Ha. split; [exact Hi|]. split; [change (len s <= 2 ^ 28); lia|exact Ha].
  - apply pselect_lasts; try done. destruct Hw; [done|by right].
Qed.
End select.
