(* ===== verification/ResourcePath.v ===== *)
(** * Keeping to the rules of the host: paths

    The path functions, [chdir], [getcwd] and [close], from any state of the
    process: before the preopens are entered, a call that looks up a path, or
    [close], enters them first, and the table takes over their handles. *)

From S2P Require Import Prelude Errno Utf8 Time Stat SockAddr Host DescTable DescTableInv DescTableSpec DescTableProps Object File.
From S2P Require Import Tcp Udp Vtable FdOps FdProps Memory Nocwd NocwdProps Preopens PreopensProps Cwd Posix PosixProps Sockets Poll.
From S2P Require Import Resources ResourceInv ResourceObj ResourceTcp ResourceUdp ResourceIo ResourceWorld ResourceFs ResourcePoll.

(** ** Entering the preopens *)

(** The host gives the preopens once each, with a path that is a string; that
    there are no more of them than 2^20 leaves room in the table. *)
Class PreopenLaws `{Host} : Prop := {
  host_preopen_names h : Forall (fun d => Forall (fun b => 0 <= b < 256) (snd d)) (host _ h filesystem_preopens_get_directories);
  host_preopen_count h : Z.of_nat (length (host _ h filesystem_preopens_get_directories)) <= 2 ^ 20;
}.

Definition preopen_entry (d : Z * cstr) : entry := ((Descriptor, fst d), plain).

Lemma preopens_closed dirs : closed (preopen_entry <$> dirs).
Proof. by intros e x (d & -> & _)%list_elem_of_fmap. Qed.

Lemma cut_nul_wf name : Forall (fun b => 0 <= b < 256) name -> wf_cstr (cut_nul name).
Proof. induction 1 as [|b name Hb _ IH]; cbn; [constructor|]. destruct (Z.eqb_spec b 0); constructor; [lia|done]. Qed.

Lemma strip_prefixes_wf path : wf_cstr path -> wf_cstr (strip_prefixes path).
Proof.
  intros Hp. enough (forall n p, (length p <= n)%nat -> wf_cstr p -> wf_cstr (strip_prefixes p)) as He by (by eapply He).
  clear. induction n as [|n IH]; intros [|c p] Hl Hp; cbn in Hl; [done|lia|done|]. pose proof (Forall_cons_1 _ _ _ Hp) as [_ Hp']. cbn [strip_prefixes].
  destruct (c =? SLASH); [apply IH; [lia|done]|]. destruct (c =? DOT); [|done]. destruct p as [|d p]; [constructor|]. apply Forall_cons_1 in Hp' as [_ Hp'].
  destruct (d =? SLASH); [|done]. apply IH; [cbn in Hl; lia|done].
Qed.

Section preopens.
Context `{HostLaws} `{!ResourceLaws}.

(** One more descriptor, when those in use are below [k]. *)
Lemma add_file_more k (t : world) h flags :
  inv [] t -> len t <= 2 ^ 26 -> 3 <= k -> (forall fd, is_Some (open_fds t !! fd) -> fd < k) -> h <> 0 ->
  exists r t', __wasilibc_add_file h flags t = Done r t' /\ (rich t -> rich t' /\ 0 <= r) /\
    (0 <= r /\ inv [] t' /\ (forall fd, is_Some (open_fds t' !! fd) -> fd < k + 1) /\ len t' <= Z.max (len t) (Z.max (2 ^ 10) (2 * k + 10)) \/ r < 0).
Proof.
  intros [W He] Hl Hk Hopen Hh. assert (exists r t', __wasilibc_add_file h flags t = Done r t' /\
    (0 <= r /\ inv [] t' /\ (forall fd, is_Some (open_fds t' !! fd) -> fd < k + 1) /\ len t' <= Z.max (len t) (Z.max (2 ^ 10) (2 * k + 10)) \/ r < 0)) as (r & t' & Hd & Hc).
  2: { exists r, t'. split; [done|]. split; [|done]. intros Hrich. by eapply succeeds_add_file. }
  destruct (stdio_initialized t) eqn:Hst.
  - destruct (add_file_spec [] t h flags W) as (r & t' & Hr & W' & St' & L' & Hc); [lia|cbn; lia|done|done|].
    exists r, t'. split; [done|]. destruct Hc as [(Hr0 & Hn & Hlow & _ & _ & Ho & _)|(-> & _)]; [left|right; lia]. split; [done|].
    assert (r <= k) as Hrk. { destruct (Z.le_gt_cases r k) as [|Hgt]; [done|]. destruct (Hlow k ltac:(lia)) as [x Hx]. pose proof (Hopen k ltac:(by eexists)). lia. }
    split; [by split; [|rewrite St']|]. split; [|lia]. intros fd. rewrite Ho, lookup_insert. case_decide; [lia|]. intros ?%Hopen. lia.
  - unfold __wasilibc_add_file. destruct (alloc_ok_table t) as (b & v & Ha & Hv). rewrite (bind_done _ _ _ _ _ Ha). destruct b; cbn [negb].
    2: { eexists (-1), _. split; [reflexivity|]. right. lia. }
    destruct (Z.eqb_spec h 0); [done|]. rewrite (bind_done (assert_ _) _ (set_env v t) tt (set_env v t)) by done.
    destruct (first_insert_spec [] (set_env v t) (DFile (File h 0 flags 0 0 0 0))) as (r & t' & Hi & W' & St' & L' & Hc);
      [by split; [|intros _; apply He]|split; cbn; lia|done|]. exists r, t'. split; [exact Hi|].
    destruct Hc as [(-> & _ & Hd & _)|(-> & _)]; [left|right; lia]. split; [lia|]. split; [by split; [|rewrite St']|]. split; [|lia].
    intros fd. rewrite <- elem_of_dom, Hd. set_unfold. lia.
Qed.

(** While the preopens are entered: [n] are, the handles [F] are still to be,
    and the descriptors in use are below [k]. *)
Record entering (k n : Z) (F : list entry) (s : sys) : Prop := {
  en_inv : inv [] (tbl s);
  en_len : len (tbl s) <= 2 ^ 26;
  en_open : forall fd, is_Some (open_fds (tbl s) !! fd) -> fd < k + n;
  en_acc : accounted F (tbl s);
  en_pre : preopens_ok n (pre s);
  en_wf : wf_preopens (pre s);
  en_fds : Forall (fun e => 0 <= state_fd e) (preopens (pre s));
}.

Lemma entering_env k n F s v : entering k n F s -> entering k n F (set_tbl (set_env v (tbl s)) s).
Proof. intros []. by split. Qed.

(** The array of the preopens has room for one more. *)
Lemma entering_room k n F (s : sys) :
  entering k n F s -> 0 <= n <= 2 ^ 20 ->
  exists rc s', (if num_preopens (pre s) =? preopen_capacity (pre s) then resize else mret 0) s = Done rc s' /\ sys_cwd s' = sys_cwd s /\
    (rich (tbl s) -> rc = 0 /\ rich (tbl s')) /\ (rc = 0 /\ entering k n F s' /\ n < preopen_capacity (pre s') \/ rc = -1).
Proof.
  intros [Hi Hl Ho Ha Hp Hw Hf] Hn. pose proof Hp as (Hnum & Hinv & Hcap). destruct (Z.eqb_spec (num_preopens (pre s)) (preopen_capacity (pre s))) as [Heq|Hne].
  - assert (forall rc s', resize s = Done rc s' -> sys_cwd s' = sys_cwd s) as Hcwd.
    { intros rc s'. unfold resize, calloc, mbind, M_bind, gets. destruct (alloc_ok_sys s) as (b & v & -> & _). cbn. destruct (negb _); [by intros [= _ <-]|].
      unfold update_pre, modify, assert_invariants, mbind, M_bind, gets, assert_. cbn; destruct (invariants (Preopens _ _ _ _)); cbn; [by intros [= _ <-]|done]. }
    destruct (resize_spec n s Hp) as (rc & s' & Hd & (v & Hv & Hr) & Hc); [lia|congruence|]. exists rc, s'. split; [done|]. split; [by eapply Hcwd|].
    split; [done|]. destruct Hc as [(-> & Hp' & Hroom & Hsame)| -> ]; [left|by right]. split; [done|]. split; [|done].
    split; rewrite ?Hv; try done; unfold wf_preopens; by rewrite Hsame.
  - exists 0, s. split; [done|]. split; [done|]. split; [done|]. left. split; [done|]. split; [done|].
    unfold invariants in Hinv. rewrite !andb_true_iff, Z.leb_le in Hinv. lia.
Qed.

(** One preopen. *)
Lemma register_enters k n F (s : sys) (h : Z) name :
  entering k n (((Descriptor, h), plain) :: F) s -> 3 <= k -> 0 <= n < 2 ^ 20 -> 2 * (k + n) + 10 <= 2 ^ 26 -> closed F -> h <> 0 -> wf_cstr name ->
  exists r s', internal_register_preopened_fd_unlocked (h : preopen_t) name s = Done r s' /\ (rich (tbl s) -> rich (tbl s') /\ r = 0) /\
    (r = 0 /\ entering k (n + 1) F s' /\ sys_cwd s' = sys_cwd s \/ r = -1).
Proof.
  intros Hs Hk Hn Hbig HF Hh Hname. unfold internal_register_preopened_fd_unlocked. pose proof Hs as [_ _ _ _ (_ & Hinv & _) _ _].
  rewrite (bind_done assert_invariants _ s tt s) by (unfold assert_invariants, gets, mbind, M_bind; by rewrite Hinv).
  rewrite (bind_done (assert_ _) _ s tt s) by (cbn; by destruct (Z.eqb_spec h 0)). rewrite (bind_done (gets pre) _ s (pre s) s) by done.
  destruct (entering_room k n _ s Hs ltac:(lia)) as (rc & s1 & Hr1 & Hc1 & Hrich1 & Hs1). rewrite (bind_done _ _ _ _ _ Hr1).
  destruct Hs1 as [(-> & Hs1 & Hroom)| ->]; [|exists (-1), s1; split; [done|]; split; [by intros [? _]%Hrich1|by right]].
  cbn [Z.eqb negb]. destruct (alloc_ok_sys s1) as (b & v & Ha & Hr & _). rewrite (bind_done _ _ _ _ _ Ha).
  destruct b; cbn [negb]; [|eexists (-1), _; split; [done|]; split; [by intros [_ [? _]%Hr]%Hrich1|by right]].
  apply (entering_env _ _ _ _ v) in Hs1. set (s2 := set_tbl (set_env v (tbl s1)) s1) in *. destruct Hs1 as [Hi Hl Ho Hacc (Hnum & Hinv2 & Hcap) Hw Hf].
  destruct (add_file_more (k + n) (tbl s2) h O_RDWR Hi Hl ltac:(lia) Ho Hh) as (r & t' & Hadd & Hrich & Hc).
  pose proof (add_file_accounts h O_RDWR F (tbl s2) HF Hacc) as Hacc'. rewrite Hadd in Hacc'.
  assert (rich (tbl s) -> rich t' /\ 0 <= r) as Hrich' by (intros [_ [_ ?]%Hr]%Hrich1; by apply Hrich).
  destruct Hc as [(Hpos & Hi' & Ho' & Hl')|Hneg].
  - rewrite (bind_done (preopen_state_initialize _) _ s2 (0, r) (set_tbl t' s2)).
    2: { cbn [preopen_state_initialize sys_backend]. rewrite (bind_done _ _ _ _ _ (lower_done _ _ _ _ Hadd)). by replace (r <? 0) with false by lia. }
    cbn [fst snd Z.ltb Z.compare]. change (pre s1) with (pre s2) in Hroom. pose proof (invariants_push (pre s2) (Preopen (strip_prefixes name) r) Hinv2 ltac:(lia) ltac:(cbn; lia)) as Hinv'.
    set (q := Preopens _ _ _ _) in Hinv'. exists 0, (Sys t' q (sys_cwd s1)). split.
    { rewrite (bind_done (update_pre _) _ _ tt (Sys t' q (sys_cwd s1))) by done. rewrite (bind_done assert_invariants _ _ tt (Sys t' q (sys_cwd s1))); [done|].
      unfold assert_invariants, gets, mbind, M_bind. cbn. by rewrite Hinv'. }
    split; [by intros [? _]%Hrich'|]. left. split; [done|]. split; [|done]. split; try done.
    + cbn. lia.
    + intros fd Hfd%Ho'. lia.
    + assert (num_preopens q = num_preopens (pre s2) + 1) as Hq by (unfold num_preopens, q; cbn [preopens]; rewrite length_app; cbn; lia).
      split; [cbn [pre sys_preopens sys_pre]; lia|]. split; [done|]. change (preopen_capacity (pre _)) with (preopen_capacity (pre s2)). lia.
    + apply Forall_app_2; [done|]. constructor; [|constructor]. by apply strip_prefixes_wf.
    + apply Forall_app_2; [done|]. by constructor.
  - rewrite (bind_done (preopen_state_initialize _) _ s2 (-1, r) (set_tbl (set_calls (calls t' ++ [Ev (descriptor_drop_own h)]) t') s2)).
    2: { cbn [preopen_state_initialize sys_backend]. rewrite (bind_done _ _ _ _ _ (lower_done _ _ _ _ Hadd)). by replace (r <? 0) with true by lia. }
    eexists (-1), _. split; [done|]. split; [intros [_ ?]%Hrich'; lia|by right].
Qed.

Lemma populate_loop_enters k n F dirs (s : sys) :
  entering k n ((preopen_entry <$> dirs) ++ F) s -> 3 <= k -> 0 <= n -> n + Z.of_nat (length dirs) <= 2 ^ 20 -> 2 * (k + 2 ^ 20) + 10 <= 2 ^ 26 -> closed F ->
  Forall (fun d => fst d <> 0) dirs -> Forall (fun d => Forall (fun b => 0 <= b < 256) (snd d)) dirs ->
  (exists s', populate_loop dirs s = Done tt s' /\ entering k (n + Z.of_nat (length dirs)) F s' /\ sys_cwd s' = sys_cwd s) \/
  (~ rich (tbl s) /\ exists s', populate_loop dirs s = Stop (Exit EX_SOFTWARE) s').
Proof.
  intros Hs Hk Hn Hlen Hbig HF Hd Hb. revert n s Hs Hn Hlen. induction dirs as [|[h name] dirs IH]; intros n s Hs Hn Hlen.
  { left. exists s. cbn [length]. rewrite Z.add_0_r. done. }
  apply Forall_cons_1 in Hd as [Hh Hd]. apply Forall_cons_1 in Hb as [Hname Hb]. cbn [populate_loop length fst snd] in *.
  destruct (alloc_ok_sys s) as (b & v & Ha & Hr & _). rewrite (bind_done _ _ _ _ _ Ha). destruct b; cbn [negb].
  2: { right. split; [by intros [? _]%Hr|]. by eexists. }
  destruct (register_enters k n ((preopen_entry <$> dirs) ++ F) (set_tbl (set_env v (tbl s)) s) h (cut_nul name)) as (r & s1 & Hreg & Hrich & Hc);
    [by apply entering_env|done|lia|lia|apply closed_app; [apply preopens_closed|done]|done|by apply cut_nul_wf|].
  rewrite (bind_done _ _ _ _ _ Hreg). destruct Hc as [(-> & Hs1 & Hcwd)| -> ].
  2: { right. split; [intros [_ [_ ?]%Hrich]%Hr; lia|]. by eexists. }
  cbn [Z.eqb negb]. destruct (IH Hd Hb (n + 1) s1 Hs1 ltac:(lia) ltac:(lia)) as [(s' & -> & Hs' & Hcwd')|[Hnr [s' ->]]].
  - left. exists s'. split; [done|]. replace (n + Z.of_nat (S (length dirs))) with (n + 1 + Z.of_nat (length dirs)) by lia. split; [done|]. by rewrite Hcwd', Hcwd.
  - right. split; [intros [_ [? _]%Hrich]%Hr; done|]. by eexists.
Qed.
End preopens.

(** ** The state of a process *)

(** The preopens are entered, or a lookup is still to do it. *)
Record pre_ok (p : preopens_t) : Prop := {
  po_invariants : invariants p = true;
  po_prefixes : wf_preopens p;
  po_fds : Forall (fun e => 0 <= state_fd e) (preopens p);
  po_empty : preopens_populated p = false -> p = no_preopens;
}.

Record sys_ok `{Host} (s : sys) : Prop := {
  so_inv : inv [] (tbl s);
  so_acc : accounted [] (tbl s);
  so_pre : pre_ok (pre s);
  so_cwd : cwd_ok (sys_cwd s);
}.

(** The table fits memory, with the preopens that are still to be entered. *)
Definition roomy `{Host} (s : sys) : Prop := len (tbl s) <= if preopens_populated (pre s) then 2 ^ 26 else 2 ^ 24.

(** Memory ran out while the preopens were entered: the process exits. *)
Definition gives_up `{Host} (s : sys) (r : stop) : Prop := r = Exit EX_SOFTWARE /\ preopens_populated (pre s) = false /\ ~ rich (tbl s).

Section process.
Context `{HostLaws} `{!ResourceLaws} `{!PreopenLaws} `{Stalling} `{!Settles}.

Lemma sys_ok_lookup s : sys_ok s -> preopens_populated (pre s) = true -> lookup_ok s.
Proof. intros [_ _ [] ?] ?. by split. Qed.

Lemma lookup_sys_ok s : lookup_ok s -> inv [] (tbl s) -> accounted [] (tbl s) -> sys_ok s.
Proof. intros [Hp ? ? ? ?] ? ?. split; try done. split; try done. by rewrite Hp. Qed.

Lemma open_below (t : world) fd : wf [] t -> is_Some (open_fds t !! fd) -> fd < len t.
Proof.
  intros W [e He]. rewrite lookup_open_fds in He. destruct (Z.ltb_spec fd 0); [done|]. destruct (entries t !! Z.to_nat fd) as [it|] eqn:Hit; [|done].
  apply lookup_lt_Some in Hit. pose proof (wf_len _ _ _ _ _ _ _ W). lia.
Qed.

(** Looking up a path, or [close], first enters the preopens. *)
Lemma populate_lasts s :
  sys_ok s -> roomy s ->
  (exists s', __wasilibc_populate_preopens s = Done tt s' /\ sys_ok s' /\ preopens_populated (pre s') = true /\ len (tbl s') <= 2 ^ 26 /\ sys_cwd s' = sys_cwd s) \/
  (exists s', __wasilibc_populate_preopens s = Stop (Exit EX_SOFTWARE) s' /\ gives_up s (Exit EX_SOFTWARE)).
Proof.
  intros [Hi Ha Hp Hc] Hroom. unfold roomy in Hroom. destruct (preopens_populated (pre s)) eqn:Ep.
  { left. exists s. split; [by apply populate_done|]. done. }
  pose proof (po_empty _ Hp Ep) as Hempty. unfold __wasilibc_populate_preopens. rewrite (bind_done (gets pre) _ s (pre s) s), Ep by done.
  set (dirs := host _ (calls (tbl s)) filesystem_preopens_get_directories). set (s1 := set_tbl (log (Ev filesystem_preopens_get_directories) (tbl s)) s).
  rewrite (bind_done (lower _) _ s dirs s1) by done.
  assert (accounted ((preopen_entry <$> dirs) ++ []) (tbl s1)) as Ha1 by (by apply (accounted_create filesystem_preopens_get_directories [] (tbl s) closed_nil Ha)).
  pose proof (host_preopen_count (calls (tbl s))) as Hcount. fold dirs in Hcount.
  destruct (populate_loop_enters (Z.max 3 (len (tbl s))) 0 [] dirs s1) as [(s' & Hs' & He & Hcwd)|[Hnr [s' Hs']]]; try lia; try apply closed_nil.
  - split; try (change (pre s1) with (pre s); by rewrite Hempty); try done; [change (len (tbl s) <= 2 ^ 26); lia| |apply Hp]. intros fd Hfd. pose proof (open_below (tbl s) fd (proj1 Hi) Hfd). lia.
  - by eapply host_preopen_handle.
  - apply host_preopen_names.
  - left. rewrite (bind_done _ _ _ _ _ Hs'). destruct He as [Hi' Hl' _ Ha' (_ & Hinv & _) Hw Hf]. eexists. split; [done|]. split; [|done].
    split; [done|done|by split|]. cbn [sys_cwd with_pre sys_preopens]. by rewrite Hcwd.
  - right. exists s'. rewrite (bind_stop _ _ _ _ _ Hs'). split; [done|]. split; [done|]. split; [done|]. exact Hnr.
Qed.

(** *** Lookups *)

Lemma sys_ok_frame s s' : lookup_frame s s' -> sys_ok s -> sys_ok s'.
Proof.
  intros Hf [Hi Ha Hp Hc]. pose proof (cwd_ok_frame _ _ Hf Hc). destruct Hf as ((v & Hv & _) & Hp' & _).
  split; rewrite ?Hv, ?Hp'; done.
Qed.

Lemma roomy_frame s s' : lookup_frame s s' -> roomy s -> roomy s'.
Proof. intros ((v & Hv & _) & Hp & _). unfold roomy. by rewrite Hv, Hp. Qed.

Lemma gives_up_frame s s' r : lookup_frame s s' -> gives_up s' r -> gives_up s r.
Proof.
  intros ((v & Hv & Hal) & Hp & _) (-> & Hn & Hr). rewrite Hp in Hn. split; [done|]. split; [done|]. intros [Hrich Hnext]. apply Hr.
  rewrite Hv. split; [by apply Hal|exact Hnext].
Qed.

(** A path made absolute once is made absolute again without an allocation. *)
Lemma make_absolute_again path s p s1 s2 :
  make_absolute path s = Done (Some p) s1 -> sys_cwd s2 = sys_cwd s1 ->
  make_absolute path s2 = Done (Some p) s2 /\ forall b, buf_len b (sys_cwd s1) = buf_len b (sys_cwd s).
Proof.
  unfold make_absolute. destruct (at_ path 0 =? SLASH); [by intros [= <- <-]|]. rewrite (bind_done (gets sys_cwd) _ s (sys_cwd s) s) by done.
  rewrite (bind_done (gets sys_cwd) _ s2 (sys_cwd s2) s2) by done. destruct (_ || _ || _); [by intros [= <- <-] ->|].
  set (q := if _ && _ then drop 2 path else path). destruct (Nat.eqb_spec (length (cwd (sys_cwd s))) 0) as [|Hz]; [done|].
  set (need := if _ =? SLASH then 0 else 1). set (n := u32 _). set (res := cwd (sys_cwd s) ++ _). unfold strcpy_fits.
  destruct (Z.ltb_spec (make_absolute_len (sys_cwd s)) n) as [Hlt|Hge].
  - destruct (alloc_ok_sys s) as (b & v & Ha & _). destruct b.
    + set (s3 := set_cwd (set_make_absolute_len n (sys_cwd s)) (set_tbl (set_env v (tbl s)) s)).
      rewrite (bind_done (alloc_ok ≫= _) _ s true s3) by (by rewrite (bind_done _ _ _ _ _ Ha)). cbn [negb].
      rewrite (bind_done (gets _) _ s3 n s3) by done. destruct (strlen res <? n) eqn:Hfit; [|done]. intros [= <- <-] E.
      rewrite E. change (cwd (sys_cwd s3)) with (cwd (sys_cwd s)). rewrite (proj2 (Nat.eqb_neq _ _) Hz). fold need n res.
      change (make_absolute_len (sys_cwd s3)) with n. rewrite Z.ltb_irrefl. rewrite (bind_done (mret true) _ s2 true s2) by done. cbn [negb].
      rewrite (bind_done (gets _) _ s2 n s2) by (unfold gets; by rewrite E). rewrite Hfit. split; [done|]. by intros [].
    + by rewrite (bind_done (alloc_ok ≫= _) _ s false (set_tbl (set_env v (tbl s)) s)) by (by rewrite (bind_done _ _ _ _ _ Ha)).
  - rewrite (bind_done (mret true) _ s true s) by done. cbn [negb]. rewrite (bind_done (gets _) _ s (make_absolute_len (sys_cwd s)) s) by done.
    destruct (strlen res <? make_absolute_len (sys_cwd s)) eqn:Hfit; [|done]. intros [= <- <-] E. rewrite E, (proj2 (Nat.eqb_neq _ _) Hz). fold need n res.
    replace (make_absolute_len (sys_cwd s) <? n) with false by lia. rewrite (bind_done (mret true) _ s2 true s2) by done. cbn [negb].
    rewrite (bind_done (gets _) _ s2 (make_absolute_len (sys_cwd s)) s2) by (unfold gets; by rewrite E). by rewrite Hfit.
Qed.

Lemma find_abspath_enters p s s2 : __wasilibc_populate_preopens s = Done tt s2 -> preopens_populated (pre s2) = true -> find_abspath p s = find_abspath p s2.
Proof.
  intros Hs Hp. unfold find_abspath, __wasilibc_find_abspath. rewrite (bind_done _ _ _ _ _ Hs). by rewrite (bind_done _ _ _ _ _ (populate_done s2 Hp)).
Qed.

Lemma find_abspath_stops p s r s2 : __wasilibc_populate_preopens s = Stop r s2 -> find_abspath p s = Stop r s2.
Proof. intros Hs. unfold find_abspath, __wasilibc_find_abspath. by rewrite (bind_stop _ _ _ _ _ Hs). Qed.

Lemma find_sized_enters path n can s :
  short_path path -> sys_ok s -> roomy s ->
  (exists s1, find_relpath_sized path n can s = Done (-1, None) s1 /\ lookup_frame s s1) \/
  (exists s1, lookup_frame s s1 /\
    match __wasilibc_populate_preopens s1 with
    | Done _ s2 => find_relpath_sized path n can s = find_relpath_sized path n can s2 /\ forall b, buf_len b (sys_cwd s2) = buf_len b (sys_cwd s)
    | Stop r s2 => find_relpath_sized path n can s = Stop r s2
    end).
Proof.
  intros Hp Hok Hroom. destruct (make_absolute_spec path s (so_cwd s Hok) Hp) as (a & s1 & Hm & Hf & _ & Hc & _).
  unfold find_relpath_sized at 1 2 4. rewrite (bind_done _ _ _ _ _ Hm). destruct Hc as [->|[-> _]].
  2: { left. eexists. split; [reflexivity|]. by apply lookup_frame_errno. }
  right. exists s1. split; [done|]. pose proof (sys_ok_frame _ _ Hf Hok) as Hok1. pose proof (roomy_frame _ _ Hf Hroom) as Hroom1.
  destruct (populate_lasts s1 Hok1 Hroom1) as [(s2 & Hs2 & _ & Hp2 & _ & Hcwd)|(s2 & Hs2 & _)]; rewrite Hs2.
  - destruct (make_absolute_again _ _ _ _ s2 Hm Hcwd) as [Hm2 Hbuf]. split; [|intros b; by rewrite Hcwd].
    unfold find_relpath_sized. rewrite (bind_done _ _ _ _ _ Hm2). unfold mbind, M_bind. by rewrite (find_abspath_enters _ s1 s2 Hs2 Hp2).
  - by rewrite (bind_stop _ _ _ _ _ (find_abspath_stops _ s1 _ s2 Hs2)).
Qed.

(** From a process without preopens, a lookup fails for want of memory before
    it looks at them, or enters them and goes on as it does from the state reached. *)
Lemma find_relpath2_enters cl b path s :
  short_path path -> sys_ok s -> roomy s ->
  (exists s1, find_relpath2 cl b path s = Done (-1, None) s1 /\ lookup_frame s s1) \/
  (exists s1, lookup_frame s s1 /\
    match __wasilibc_populate_preopens s1 with Done _ s2 => find_relpath2 cl b path s = find_relpath2 cl b path s2 | Stop r s2 => find_relpath2 cl b path s = Stop r s2 end).
Proof.
  intros Hp Hok Hroom. unfold find_relpath2, __wasilibc_find_relpath. destruct cl.
  - unfold __wasilibc_find_relpath_alloc. rewrite (bind_done (gets _) _ s (buf_len b (sys_cwd s)) s) by done.
    destruct (find_sized_enters path (buf_len b (sys_cwd s)) true s Hp Hok Hroom) as [(s1 & Hd & Hf)|(s1 & Hf & Hm)].
    + left. rewrite (bind_done _ _ _ _ _ Hd). exists s1. by split.
    + right. exists s1. split; [done|]. destruct (__wasilibc_populate_preopens s1) as [[] s2|r s2]; [|by rewrite (bind_stop _ _ _ _ _ Hm)].
      destruct Hm as [Hm Hb]. rewrite (bind_done (gets _) _ s2 (buf_len b (sys_cwd s2)) s2), Hb by done. unfold mbind, M_bind. by rewrite Hm.
  - right. exists s. split; [apply lookup_frame_refl|].
    destruct (populate_lasts s Hok Hroom) as [(s2 & Hs2 & _ & Hp2 & _)|(s2 & Hs2 & _)]; rewrite Hs2; [by apply find_abspath_enters|by apply find_abspath_stops].
Qed.

(** *** Calls of the process *)

(** A call returns to such a state, or ends the process in one of the ways allowed. *)
Definition ends_well {A} (s : sys) (out : outcome sys A) : Prop :=
  match out with Done _ s' => sys_ok s' | Stop r s' => excused r (calls (tbl s')) \/ gives_up s r end.

Definition sys_lasts {A} (m : M sys A) : Prop := forall s, sys_ok s -> roomy s -> ends_well s (m s).

Lemma ends_well_frame {A} s s' (out : outcome sys A) : lookup_frame s s' -> ends_well s' out -> ends_well s out.
Proof. intros Hf. destruct out; cbn; [done|]. intros [?|?]; [by left|right; by eapply gives_up_frame]. Qed.

Lemma ends_well_populated {A} s s' (out : outcome sys A) : preopens_populated (pre s') = true -> ends_well s' out -> ends_well s out.
Proof. intros Hp. destruct out; cbn; [done|]. intros [?|(_ & ? & _)]; [by left|congruence]. Qed.

Lemma sys_lasts_framed {A} (m : M sys A) s s' : lookup_frame s s' -> sys_lasts m -> sys_ok s -> roomy s -> ends_well s (m s').
Proof. intros Hf Hm Hok Hr. eapply ends_well_frame; [exact Hf|]. apply Hm; [by eapply sys_ok_frame|by eapply roomy_frame]. Qed.

Lemma sys_lasts_fail {A} e (a : A) : sys_lasts (fail_with e a).
Proof. intros s Hok _. apply (sys_ok_frame s); [|done]. by apply lookup_frame_errno, lookup_frame_refl. Qed.

Lemma roomy_len s : roomy s -> len (tbl s) <= 2 ^ 26.
Proof. unfold roomy. case_match; lia. Qed.

Lemma sys_lasts_at {A} (m : M world A) s : lasts_at (tbl s) m -> sys_ok s -> roomy s -> ends_well s (lower m s).
Proof.
  intros Hm [Hi Ha Hp Hc] Hr. specialize (Hm [] Hi (roomy_len s Hr) ltac:(cbn; lia) Ha). unfold lower, zoom. destruct (m (tbl s)) as [a t|r t]; cbn.
  - destruct Hm as (Hi' & _ & Ha'). by split.
  - by left.
Qed.

Lemma sys_lasts_lower {A} (m : M world A) : lasts m -> sys_lasts (lower m).
Proof. intros Hm s Hok Hr. apply sys_lasts_at; [|done..]. intros held. apply Hm. Qed.

(** Code after a lookup, which finds a preopen or none. *)
Lemma lookup_ends_well {A} cl b path (f : Z * option (cstr * cstr) -> M sys A) s :
  short_path path -> sys_ok s -> roomy s ->
  (forall s1 s2 fd abs rel, cwd (sys_cwd s1) = cwd (sys_cwd s) -> lookup_ok s1 -> resolves s1 (full_path cl s1 path) fd abs rel -> lookup_frame s1 s2 ->
     sys_ok s2 -> roomy s2 -> ends_well s2 (f (fd, Some (abs, rel)) s2)) ->
  sys_lasts (f (-1, None)) -> ends_well s ((find_relpath2 cl b path ≫= f) s).
Proof.
  intros Hp Hok Hr Hf Hn. assert (forall s1, cwd (sys_cwd s1) = cwd (sys_cwd s) -> sys_ok s1 -> roomy s1 -> preopens_populated (pre s1) = true ->
    ends_well s1 ((find_relpath2 cl b path ≫= f) s1)) as Hpop.
  { intros s1 Hcwd Hok1 Hr1 Hpp. pose proof (sys_ok_lookup s1 Hok1 Hpp) as Hlk. destruct (find_relpath2_spec cl b path s1 Hlk Hp) as (r & s2 & Hd & Hfr & Hc).
    rewrite (bind_done _ _ _ _ _ Hd). destruct Hc as [(fd & abs & rel & -> & Hres & _)|[-> _]]; [|by apply (sys_lasts_framed _ s1 s2)].
    eapply ends_well_frame; [exact Hfr|]. apply (Hf s1 s2); try done; [by eapply sys_ok_frame|by eapply roomy_frame]. }
  destruct (find_relpath2_enters cl b path s Hp Hok Hr) as [(s1 & Hd & Hfr)|(s1 & Hfr & Hc)].
  { rewrite (bind_done _ _ _ _ _ Hd). by apply (sys_lasts_framed _ s s1). }
  destruct (populate_lasts s1 (sys_ok_frame _ _ Hfr Hok) (roomy_frame _ _ Hfr Hr)) as [(s2 & Hs2 & Hok2 & Hp2 & Hl2 & Hcwd)|(s2 & Hs2 & Hg)]; rewrite Hs2 in Hc.
  - assert ((find_relpath2 cl b path ≫= f) s = (find_relpath2 cl b path ≫= f) s2) as -> by (unfold mbind, M_bind; by rewrite Hc).
    apply (ends_well_populated s s2); [done|]. apply Hpop; try done; [|unfold roomy; by rewrite Hp2]. rewrite Hcwd. apply Hfr.
  - rewrite (bind_stop _ _ _ _ _ Hc). right. by eapply gives_up_frame.
Qed.

Lemma sys_lasts_lookup {A} cl b path (f : Z * option (cstr * cstr) -> M sys A) :
  short_path path -> (forall fd abs rel, good_path rel -> sys_lasts (f (fd, Some (abs, rel)))) -> sys_lasts (f (-1, None)) ->
  sys_lasts (find_relpath2 cl b path ≫= f).
Proof.
  intros Hp Hf Hn s Hok Hr. apply lookup_ends_well; try done. intros s1 s2 fd abs rel _ Hlk Hres _ Hok2 Hr2.
  destruct (full_path_good cl s1 path Hlk Hp) as [Hw Hlen]. apply Hf; try done. by eapply resolves_good.
Qed.

Lemma sys_lasts_ext {A} (m m' : M sys A) : (forall s, m s = m' s) -> sys_lasts m -> sys_lasts m'.
Proof. intros He Hm s Hok Hr. rewrite <- He. by apply Hm. Qed.

Lemma sys_lasts_find {A} cl path (f : Z * option cstr -> M sys A) :
  short_path path -> (forall fd rel, good_path rel -> sys_lasts (f (fd, Some rel))) -> sys_lasts (f (-1, None)) ->
  sys_lasts (find_relpath cl path ≫= f) /\ sys_lasts (find_relpath_alt cl path ≫= f).
Proof.
  intros Hp Hf Hn. assert (forall b, sys_lasts (find_relpath2 cl b path ≫= fun r => f (fst r, snd <$> snd r))) as Hl.
  { intros b. apply sys_lasts_lookup; [done| |done]. intros fd abs rel Hrel. by apply Hf. }
  split; [eapply sys_lasts_ext; [|apply (Hl RelpathBuf)]|eapply sys_lasts_ext; [|apply (Hl RelpathAltBuf)]];
    intros s; unfold find_relpath, find_relpath_alt, mbind, M_bind; by destruct (find_relpath2 _ _ _ s).
Qed.

Lemma sys_lasts_relpath {A} cl path (bad : A) k :
  short_path path -> (forall fd rel, good_path rel -> lasts (k fd rel)) -> sys_lasts (with_relpath cl path bad k).
Proof.
  intros Hp Hk. apply sys_lasts_find; [done| |].
  - intros fd rel Hrel. by apply sys_lasts_lower, Hk.
  - apply sys_lasts_fail.
Qed.

Lemma sys_lasts_drop {A} (m : M sys A) : sys_lasts m -> sys_lasts (drop_result m).
Proof. intros Hm s Hok Hr. specialize (Hm s Hok Hr). unfold drop_result, mbind, M_bind. by destruct (m s). Qed.

Lemma sys_lasts_close fd : sys_lasts (close fd).
Proof.
  intros s Hok Hr. unfold close. destruct (populate_lasts s Hok Hr) as [(s2 & Hs2 & Hok2 & Hp2 & Hl2 & _)|(s2 & Hs2 & Hg)].
  - rewrite (bind_done _ _ _ _ _ Hs2). assert (lasts (descriptor_table_remove fd : M world Z)) as Hm by (apply lasts_safe; [apply table_remove_safe|apply tallies_remove]).
    apply (ends_well_populated s s2); [done|]. pose proof (sys_lasts_lower _ Hm s2 Hok2) as He. unfold roomy in He. rewrite Hp2 in He. specialize (He Hl2).
    unfold mbind, M_bind. by destruct (lower _ s2).
  - rewrite (bind_stop _ _ _ _ _ Hs2). by right.
Qed.
End process.

(** ** The path functions *)

Ltac below_lasts c :=
  apply lasts_ignore_inv; apply (fs_call_lasts c); simpl; repeat (apply List.Forall_cons; [solve [eauto with libc]|]); apply List.Forall_nil.
Ltac below_lasting :=
  match goal with
  | |- lasts (__wasilibc_nocwd_openat_nomode ?a ?b ?c) => below_lasts (Openat a b c)
  | |- lasts (__wasilibc_nocwd_fstatat ?a ?b ?c) => below_lasts (Fstatat a b c)
  | |- lasts (__wasilibc_nocwd_faccessat ?a ?b ?c ?d) => below_lasts (Faccessat a b c d)
  | |- lasts (__wasilibc_nocwd_utimensat ?a ?b ?c ?d) => below_lasts (Utimensat a b c d)
  | |- lasts (__wasilibc_nocwd_mkdirat_nomode ?a ?b) => below_lasts (Mkdirat a b)
  | |- lasts (__wasilibc_nocwd_linkat ?a ?b ?c ?d ?e) => below_lasts (Linkat a b c d e)
  | |- lasts (__wasilibc_nocwd_readlinkat ?a ?b ?c) => below_lasts (Readlinkat a b c)
  | |- lasts (__wasilibc_nocwd_renameat ?a ?b ?c ?d) => below_lasts (Renameat a b c d)
  | |- lasts (__wasilibc_nocwd_symlinkat ?a ?b ?c) => below_lasts (Symlinkat a b c)
  | |- lasts (__wasilibc_nocwd___wasilibc_rmdirat ?a ?b) => below_lasts (Rmdirat a b)
  | |- lasts (__wasilibc_nocwd___wasilibc_unlinkat ?a ?b) => below_lasts (Unlinkat a b)
  end.
Ltac path_tac :=
  repeat first
    [ apply sys_lasts_relpath; [done|intros]
    | apply sys_lasts_find; [done|intros; cbn [snd fst]|cbn [snd fst]]
    | apply sys_lasts_fail
    | apply sys_lasts_lower
    | below_lasting
    | case_match ].

Section path_calls.
Context `{HostLaws} `{!ResourceLaws} `{!PreopenLaws} `{Stalling} `{!Settles} (chdir_linked : bool).

Lemma settles_bind {A B} (m : M world A) (f : A -> M world B) :
  safe (g := steady) (2 ^ 29) m -> settles_accounts m -> (forall a, settles_accounts (f a)) -> settles_accounts (m ≫= f).
Proof.
  intros Hs Hm Hf held s Hi Hl Hh Ha. destruct (Hs held s Hi Hl Hh) as (a & s1 & Hd & Hi1 & Hg & _). specialize (Hm held s Hi Hl Hh Ha).
  rewrite (bind_done _ _ _ _ _ Hd). rewrite Hd in Hm. unfold grown, steady in Hg. apply (Hf a held); try done. lia.
Qed.

Lemma settles_same {A B} (m : M world A) (f : A -> M world B) : FdProps.quiet m -> same_objects m -> (forall a, settles_accounts (f a)) -> settles_accounts (m ≫= f).
Proof. intros Hq Hm Hf. apply settles_bind; [by apply safe_quiet|by apply settles_tallies, tallies_same|done]. Qed.

Lemma settles_ignored {A} (m : M world A) : settles_accounts (ignore m) -> settles_accounts m.
Proof. intros Hm held s Hi Hl Hh Ha. specialize (Hm held s Hi Hl Hh Ha). unfold ignore, mbind, M_bind in Hm. by destruct (m s). Qed.

Lemma remove_body_settles fd rel :
  good_path rel ->
  settles_accounts (r ← __wasilibc_nocwd___wasilibc_unlinkat fd rel;
    e ← gets errno;
    if negb (r =? 0) && ((e =? EISDIR) || (e =? ENOENT) || (e =? EACCES) || (e =? EPERM)) then
      r ← __wasilibc_nocwd___wasilibc_rmdirat fd rel;
      e ← gets errno;
      (if e =? ENOTDIR then set_errno ENOENT else mret tt) ;;
      mret r
    else mret r).
Proof.
  intros Hrel. assert (settles_accounts (__wasilibc_nocwd___wasilibc_unlinkat fd rel) /\ settles_accounts (__wasilibc_nocwd___wasilibc_rmdirat fd rel)) as [Hu Hr].
  { split; apply settles_ignored; [apply (fs_call_settles (Unlinkat fd rel))|apply (fs_call_settles (Rmdirat fd rel))]; by repeat constructor; apply Hrel. }
  apply settles_bind; [by apply unlinkat_steady; [lia|]|done|]. intros r. apply settles_same; [eauto with libc|done|]. intros e.
  case_match; [|by apply settles_tallies, tallies_same]. apply settles_bind; [unfold __wasilibc_nocwd___wasilibc_rmdirat; nocwd_tac|done|]. intros r'.
  apply settles_tallies, tallies_same. unfold set_errno. same_tac.
Qed.

Lemma remove_lasts path : short_path path -> sys_lasts (remove chdir_linked path).
Proof.
  intros Hp. apply sys_lasts_relpath; [done|]. intros fd rel Hrel. apply lasts_settled; [|by apply remove_body_settles].
  by apply remove_body_safe.
Qed.

Lemma posix_call_lasts c : Forall short_path (posix_paths c) -> sys_lasts (posix_perform chdir_linked c).
Proof.
  intros Hp. destruct c; simpl in Hp; repeat (apply Forall_cons_1 in Hp as [? Hp]); clear Hp; simpl; apply sys_lasts_drop.
  10: by apply remove_lasts.
  all: unfold open, __wasilibc_open_nomode, access, readlink, stat_, lstat, utime, utimes, unlink, rmdir, mkdir, symlink, link, rename,
    openat, symlinkat, readlinkat, mkdirat, faccessat, __wasilibc_access, fstatat, __wasilibc_stat, utimensat, __wasilibc_utimens,
    linkat, __wasilibc_link, __wasilibc_link_oldat, __wasilibc_link_newat, renameat, __wasilibc_rename_oldat, __wasilibc_rename_newat,
    unlinkat, __wasilibc_unlinkat, __wasilibc_rmdirat, unlink, rmdir, mkdir, open, __wasilibc_open_nomode, symlink, readlink, rename.
  all: path_tac.
Qed.

(** *** The current directory *)

Lemma joined_length q abs rel : relative_to q abs rel -> strlen (joined abs rel) <= strlen q + 3.
Proof.
  unfold strlen. intros [_ [k [[-> _]|[-> ->]]]]; unfold joined; rewrite !length_app; cbn [length]; repeat case_match; rewrite ?length_app; cbn; lia.
Qed.

Lemma joined_wf abs rel : wf_cstr abs -> wf_cstr rel -> wf_cstr (joined abs rel).
Proof.
  intros Ha Hr. unfold joined. apply Forall_app_2; [by repeat constructor|]. apply Forall_app_2; [done|].
  case_match; [constructor|]. apply Forall_app_2; [|done]. by case_match; repeat constructor.
Qed.

Lemma resolves_fd s p fd abs rel : lookup_ok s -> resolves s p fd abs rel -> 0 <= fd /\ wf_cstr abs.
Proof.
  intros Hok (e & (l1 & l2 & Heq & _) & -> & _ & -> & _). pose proof (lk_fds _ Hok) as Hf. pose proof (lk_prefixes _ Hok) as Hw. unfold wf_preopens in Hw.
  rewrite Heq in Hf, Hw. apply Forall_app in Hf as [_ [? _]%Forall_cons_1], Hw as [_ [? _]%Forall_cons_1]. done.
Qed.

(** [fstatat] below a preopen. *)
Lemma fstatat_below s fd rel :
  good_path rel -> rel <> [] -> at_ rel 0 <> SLASH -> 0 <= fd -> sys_ok s -> roomy s ->
  exists r t, fstatat true fd rel 0 s = Done r (set_tbl t s) /\ sys_ok (set_tbl t s) /\ stat_result r.
Proof.
  intros Hg Hne Hs Hfd [Hi Ha Hp Hc] Hr. assert (Forall good_path (paths (Fstatat fd rel 0))) as Hpaths by (by repeat constructor; apply Hg).
  destruct (ignore_safe_inv _ _ (perform_safe' (Fstatat fd rel 0) Hpaths) [] (tbl s) Hi (roomy_len s Hr) ltac:(cbn; lia)) as (r & t & Ht & _).
  pose proof (lasts_ignore_inv _ (fs_call_lasts (Fstatat fd rel 0) Hpaths) [] (tbl s) Hi (roomy_len s Hr) ltac:(cbn; lia) Ha) as Hl. rewrite Ht in Hl.
  destruct Hl as (Hi' & _ & Ha'). exists r, t. split; [|split; [by split|by eapply yields_fstatat; [|apply Hg|]]].
  unfold fstatat, by_path. destruct (Z.eqb_spec fd AT_FDCWD) as [->|]; [by destruct Hfd|]. destruct (Z.eqb_spec (at_ rel 0) SLASH); [done|]. by apply lower_done.
Qed.

Lemma chdir_ends_well path s :
  short_path path -> strlen (cwd (sys_cwd s)) + strlen path + 4 < 2 ^ 30 -> sys_ok s -> roomy s -> ends_well s (chdir true path s).
Proof.
  intros Hp Hlen Hok Hr. unfold chdir. apply (lookup_ends_well true ChdirBuf path _ s Hp Hok Hr); [|by intros s1 Hok1 _; cbn].
  intros s1 s2 fd abs rel Hcwd Hlk Hres Hf Hok2 Hr2. cbn [snd fst]. destruct (full_path_good true s1 path Hlk Hp) as [Hw Hl31].
  destruct (resolves_good _ _ _ _ _ Hres Hw Hl31) as (Hg & Hne & Hslash). destruct (resolves_fd _ _ _ _ _ Hlk Hres) as [Hfd Habs].
  destruct (fstatat_below s2 fd rel Hg Hne Hslash Hfd Hok2 Hr2) as (r & t & Hd & Hokt & Hstat). rewrite (bind_done _ _ _ _ _ Hd).
  destruct Hstat as [-> |[st ->]]; [done|]. cbn [fst snd Z.eqb Z.compare]. rewrite (bind_done (deref _) _ _ st (set_tbl t s2)) by done.
  destruct (S_ISDIR (st_mode st)); cbn [negb]; [|apply (sys_ok_frame (set_tbl t s2)); [apply lookup_frame_errno, lookup_frame_refl|done]].
  destruct (alloc_ok_sys (set_tbl t s2)) as (b & v & Hal & _ & _ & Hb). rewrite (bind_done _ _ _ _ _ Hal).
  assert (sys_ok (set_tbl (set_env v t) s2)) as Hokv by (by apply (sys_ok_frame (set_tbl t s2) (set_tbl (set_env v (tbl (set_tbl t s2))) (set_tbl t s2))); [apply lookup_frame_env; intros ?; apply Hb|]).
  destruct b; cbn [negb]; [|apply (sys_ok_frame (set_tbl (set_env v t) s2)); [apply lookup_frame_errno, lookup_frame_refl|done]].
  rewrite (bind_done (gets sys_cwd) _ _ (sys_cwd s2) (set_tbl (set_env v t) s2)) by done. destruct (so_cwd _ Hok2) as [_ _ _ Hlit]. rewrite Hlit.
  replace (negb (cwd_literal (sys_cwd s2)) && cwd_literal (sys_cwd s2)) with false by (by destruct (cwd_literal (sys_cwd s2))).
  destruct Hokv as [Hi' Ha' Hp' _]. split; [exact Hi'|exact Ha'|exact Hp'|]. cbn [sys_cwd update_cwd set_cwd].
  assert ([SLASH] ++ abs ++ (if negb (streq rel [DOT]) && negb (at_ abs 0 =? 0) then [SLASH] else []) ++ (if negb (streq rel [DOT]) then rel else []) = joined abs rel) as Hj
    by (unfold joined; by destruct (streq rel [DOT]), (at_ abs 0 =? 0)).
  split; cbn [cwd cwd_literal cwd_mallocd set_cwd]; rewrite ?Hj; [apply joined_wf; [done|apply Hg]|done| |done].
  destruct Hres as (e & _ & _ & _ & -> & Hrel). pose proof (joined_length _ _ _ Hrel). pose proof (skip_length SLASH (full_path true s1 path)).
  destruct (absolute_props (cwd (sys_cwd s1)) path) as (_ & _ & Hlp); [apply Hlk..|apply Hp|]. unfold full_path in *. unfold strlen in *. rewrite Hcwd in *. lia.
Qed.

Lemma getcwd_lasts buf_null size : sys_lasts (getcwd buf_null size).
Proof.
  intros s Hok Hr. unfold getcwd. rewrite (bind_done (gets _) _ s (cwd (sys_cwd s)) s) by done. destruct buf_null.
  - destruct (alloc_ok_sys s) as (b & v & Hal & _ & _ & Hb). rewrite (bind_done _ _ _ _ _ Hal).
    assert (lookup_frame s (set_tbl (set_env v (tbl s)) s)) as Hf by (apply lookup_frame_env; intros ?; by apply Hb).
    destruct b; cbn [negb]; [by apply (sys_ok_frame s)|]. apply (sys_ok_frame s); [by apply lookup_frame_errno|done].
  - pose proof (cwd_size _ (so_cwd _ Hok)) as Hsz. rewrite u32_small by (unfold strlen in *; lia). destruct (Z.ltb_spec size (strlen (cwd (sys_cwd s)) + 1)); [by apply sys_lasts_fail|].
    unfold strcpy_fits. rewrite (proj2 (Z.ltb_lt (strlen (cwd (sys_cwd s))) size)) by lia. exact Hok.
Qed.
End path_calls.

(** ** A preopen that does not fit *)

Section unfit.
Context `{HostLaws} `{!ResourceLaws}.
Implicit Types s : world.

(** No object but that at [e] owns [x]. *)
Definition only_at (x : resource) (e : loc) s : Prop := forall l b, bodies s !! l = Some b -> l <> e -> x ∉ keys (owned b).

Definition keeps_only_at (x : resource) (e : loc) (A : Type) (m : M world A) : Prop :=
  forall s, only_at x e s -> match m s with Done _ s' => only_at x e s' | Stop _ _ => True end.

#[local] Instance only_at_judgement x e : Judgement (keeps_only_at x e).
Proof.
  split.
  - intros A m m' He Hm s. rewrite <- He. apply Hm.
  - intros A m Hm s Hs. specialize (Hm s). destruct (m s) as [a s'|]; [|done]. destruct Hm as (Hb & _). unfold only_at. by rewrite Hb.
  - intros A B m f Hm Hf s Hs. specialize (Hm s Hs). unfold mbind, M_bind. destruct (m s) as [a s'|]; [|done]. by apply Hf.
  - intros e' s Hs. pose proof (dec_bodies e' s) as Hd. destruct (descriptor_table_entry_dec e' s) as [u s'|]; [|done]. unfold only_at.
    destruct Hd as [-> | ->]; [done|]. intros l b [_ Hb]%lookup_delete_Some. by apply Hs.
  - intros A n k Hk s Hs. rewrite (bind_done (new_object _) _ s (brk s) _ eq_refl). apply Hk. intros l b Hb Hne. unfold bodies in Hb. cbn in Hb.
    rewrite fmap_insert in Hb. apply lookup_insert_Some in Hb as [[_ <-]|[_ Hb]]; [apply not_elem_of_nil|by apply (Hs l)].
Qed.

Definition owns_nowhere (x : resource) s : Prop := forall l b, bodies s !! l = Some b -> x ∉ keys (owned b).

(** When the file does not fit in the table, nothing keeps its handle. *)
Lemma add_file_fails x flags s r s' :
  inv [] s -> len s <= 2 ^ 26 -> x <> 0 -> __wasilibc_add_file x flags s = Done r s' -> r < 0 -> owns_nowhere (Descriptor, x) s -> owns_nowhere (Descriptor, x) s'.
Proof.
  intros Hi Hl Hx Hd Hr Hs. destruct (stdio_initialized s) eqn:Hst.
  { destruct (add_file_spec [] s x flags (proj1 Hi)) as (r' & t & Hd' & _ & _ & _ & Hc); [lia|cbn; lia|done|done|].
    rewrite Hd in Hd'. injection Hd' as <- <-. destruct Hc as [(? & _)|(_ & _ & _ & Hb & _)]; [lia|]. unfold owns_nowhere. by rewrite Hb. }
  revert Hd. unfold __wasilibc_add_file. destruct (alloc_ok_table s) as (b & v & Ha & _). rewrite (bind_done _ _ _ _ _ Ha). destruct b; cbn [negb].
  2: { intros [= <- <-]. exact Hs. }
  destruct (Z.eqb_spec x 0); [done|]. rewrite (bind_done (assert_ _) _ (set_env v s) tt (set_env v s)) by done. intros Hd.
  destruct (first_insert_spec [] (set_env v s) (DFile (File x 0 flags 0 0 0 0))) as (r' & t & Hd' & _ & _ & _ & Hc);
    [by destruct Hi; split|split; cbn; lia|done|]. rewrite Hd in Hd'. injection Hd' as <- <-.
  destruct Hc as [(-> & _)|(_ & _ & Hgone)]; [lia|]. change (brk (set_env v s)) with (brk s) in Hgone.
  rewrite (bind_done (new_object _) _ (set_env v s) (brk s) _ eq_refl) in Hd.
  match type of Hd with descriptor_table_insert _ ?t = _ => set (s1 := t) in Hd end.
  assert (only_at (Descriptor, x) (brk s) s1) as H1s.
  { intros l b Hb Hne. unfold bodies, s1 in Hb. cbn in Hb. rewrite fmap_insert, lookup_insert_ne in Hb by done. by apply (Hs l). }
  pose proof (judge_insert (keeps_only_at (Descriptor, x) (brk s)) (brk s) s1 H1s) as Hk. rewrite Hd in Hk. intros l b Hb.
  apply (Hk l b Hb). intros ->. unfold bodies in Hb. rewrite lookup_fmap, Hgone in Hb. done.
Qed.

Lemma owned_all_in x b : x ∈ keys (owned_all b) -> exists l o, b !! l = Some o /\ x ∈ keys (owned o).
Proof.
  unfold keys, owned_all. intros (e & -> & He)%list_elem_of_fmap. apply list_elem_of_bind in He as ([l o] & He & Hl).
  apply elem_of_map_to_list in Hl. exists l, o. split; [done|]. by apply list_elem_of_fmap_2.
Qed.

(** A handle outside of the objects, when the accounts are right. *)
Lemma accounted_nowhere x F s : accounted ((x, plain) :: F) s -> owns_nowhere x s /\ x ∉ keys F.
Proof.
  intros (_ & _ & Ho). destruct (owns_keys _ _ _ Ho) as [Hn _]. unfold keys in Hn. rewrite !fmap_app in Hn.
  apply list.NoDup_app in Hn as (_ & _ & Hn). apply list.NoDup_app in Hn as (_ & Hd & Hn). apply list.NoDup_cons in Hn as [HF _]. split; [|done].
  intros l b Hb Hin. apply (Hd x); [|left]. rewrite (owned_all_delete (bodies s) l b Hb), fmap_app. apply elem_of_app. by left.
Qed.
End unfit.
