(* ===== verification/ResourceProps.v ===== *)
(** * Keeping to the rules of the host: theorems

    A program that uses files, paths, descriptors and sockets through the
    library never makes the host trap and never leaks or loses a handle. *)

From S2P Require Import Prelude Errno Utf8 Time Stat SockAddr Host DescTable DescTableInv DescTableSpec DescTableProps Object File.
From S2P Require Import Tcp Udp Vtable FdOps FdProps Memory Nocwd NocwdProps Preopens PreopensProps Cwd Posix PosixProps Sockets Poll.
From S2P Require Import Resources ResourceInv ResourceObj ResourceTcp ResourceUdp ResourceIo ResourceWorld ResourceFs ResourcePoll ResourcePath.

(** ** The calls of a program *)

(** On sockets and streams, and the poll family; a [fuel] bounds the rounds of
    waiting of a loop. *)
Inductive libcall :=
| Csocket (domain type protocol : Z)
| Cbind (fuel : nat) (fd : Z) (addr : option (list Z)) (addrlen : Z)
| Cconnect (fuel : nat) (fd : Z) (addr : option (list Z)) (addrlen : Z)
| Clisten (fuel : nat) (fd backlog : Z)
| Caccept4 (fuel : nat) (fd : Z) (addr : bool) (addrlen : option Z) (flags : Z)
| Cshutdown (fd how : Z)
| Cgetsockname (fd : Z) (addr : bool) (addrlen : option Z)
| Cgetpeername (fd : Z) (addr : bool) (addrlen : option Z)
| Cgetsockopt (fd level optname : Z) (optval : bool) (optlen : option Z)
| Csetsockopt (fd level optname : Z) (optval : option (list Z)) (optlen : Z)
| Crecvfrom (fuel : nat) (fd : Z) (buffer : bool) (length_ flags : Z) (addr : bool) (addrlen : option Z)
| Csendto (fuel : nat) (fd : Z) (buffer : option (list Z)) (flags : Z) (addr : option (list Z)) (addrlen : Z)
| Cread (fuel : nat) (fd nbyte : Z)
| Cwrite (fuel : nat) (fd : Z) (buf : list Z)
| Cioctl (fd request arg : Z)
| Cppoll (l : list pollfd) (timeout : option timespec)
| Cpoll (l : list pollfd) (timeout : Z)
| Cpselect (nfds : Z) (readfds writefds errorfds : option (list Z)) (timeout : option timespec)
| Cselect (nfds : Z) (readfds writefds errorfds : option (list Z)) (timeout : option timeval).

(** Any call: these, the file system calls relative to a descriptor (among them
    lseek, fstat, fcntl, dup and the like), the path functions, and those of the
    process. *)
Inductive call :=
| Clib (c : libcall)
| Cfs (c : fs_call)
| Cpath (c : posix_call)
| Cchdir (path : cstr)
| Cgetcwd (buf_null : bool) (size : Z)
| Cclose (fd : Z).

Section calls.
Context `{HostLaws} `{!ResourceLaws} `{!PreopenLaws} (chdir_linked : bool).

Definition lib_perform (c : libcall) : M world unit :=
  match c with
  | Csocket d t p => ignore (socket d t p)
  | Cbind fuel fd addr len => ignore (bind fuel fd addr len)
  | Cconnect fuel fd addr len => ignore (connect fuel fd addr len)
  | Clisten fuel fd backlog => ignore (listen fuel fd backlog)
  | Caccept4 fuel fd addr len flags => ignore (accept4 fuel fd addr len flags)
  | Cshutdown fd how => ignore (shutdown fd how)
  | Cgetsockname fd addr len => ignore (getsockname fd addr len)
  | Cgetpeername fd addr len => ignore (getpeername fd addr len)
  | Cgetsockopt fd level optname optval len => ignore (getsockopt fd level optname optval len)
  | Csetsockopt fd level optname optval len => ignore (setsockopt fd level optname optval len)
  | Crecvfrom fuel fd buffer len flags addr addrlen => ignore (recvfrom fuel fd buffer len flags addr addrlen)
  | Csendto fuel fd buffer flags addr len => ignore (sendto fuel fd buffer flags addr len)
  | Cread fuel fd n => ignore (read fuel fd n)
  | Cwrite fuel fd buf => ignore (write fuel fd buf)
  | Cioctl fd request arg => ignore (ioctl fd request arg)
  | Cppoll l timeout => ignore (ppoll l timeout)
  | Cpoll l timeout => ignore (poll l timeout)
  | Cpselect nfds readfds writefds errorfds timeout => ignore (pselect nfds readfds writefds errorfds timeout)
  | Cselect nfds readfds writefds errorfds timeout => ignore (select nfds readfds writefds errorfds timeout)
  end.

Definition perform (c : call) : M sys unit :=
  match c with
  | Clib c => lower (lib_perform c)
  | Cfs c => lower (NocwdProps.perform c)
  | Cpath c => posix_perform chdir_linked c
  | Cchdir path => drop_result (chdir chdir_linked path)
  | Cgetcwd buf_null size => drop_result (getcwd buf_null size)
  | Cclose fd => drop_result (close fd)
  end.

(** What a call of the poll family needs in the table [s]: an array that fits
    memory, and something that can end its wait; without, it breaks a rule of the
    host, see [poll_nothing]. *)
Definition lib_reasonable (s : world) (c : libcall) : Prop :=
  match c with
  | Cppoll l timeout => Z.of_nat (length l) <= 2 ^ 27 /\ waits_for_something s l timeout
  | Cpoll l timeout => Z.of_nat (length l) <= 2 ^ 27 /\ (0 <= timeout \/ Exists (wakes s) l)
  | Cpselect nfds readfds writefds errorfds timeout =>
      fits_fd_set readfds /\ fits_fd_set writefds /\ fits_fd_set errorfds /\ select_waits s nfds readfds writefds errorfds timeout
  | Cselect nfds readfds writefds errorfds timeout =>
      fits_fd_set readfds /\ fits_fd_set writefds /\ fits_fd_set errorfds /\ select_waits s nfds readfds writefds errorfds timeout
  | _ => True
  end.

(** Paths are C strings that leave room to be made absolute; [chdir] is called
    only where it is linked, and not to a path of a gigabyte. *)
Definition reasonable (s : sys) (c : call) : Prop :=
  match c with
  | Clib c => lib_reasonable (tbl s) c
  | Cfs c => Forall good_path (paths c)
  | Cpath c => Forall short_path (posix_paths c)
  | Cchdir path => chdir_linked = true /\ short_path path /\ strlen (cwd (sys_cwd s)) + strlen path + 4 < 2 ^ 30
  | _ => True
  end.

(** The states a program can reach, with a table of a size that fits memory. *)
Inductive reached (v : env) : sys -> Prop :=
| reached_init : reached v (PreopensProps.start v)
| reached_step s c s' : reached v s -> roomy s -> reasonable s c -> perform c s = Done tt s' -> reached v s'.

(** Fuel for one wait in each loop, and sizes that are natural numbers: enough
    when the host is prompt. *)
Definition fueled (c : call) : Prop :=
  match c with
  | Clib (Cbind fuel _ _ _ | Cconnect fuel _ _ _ | Clisten fuel _ _ | Caccept4 fuel _ _ _ _ | Csendto fuel _ _ _ _ _ | Cwrite fuel _ _) => fuel <> 0%nat
  | Clib (Crecvfrom fuel _ _ n _ _ _ | Cread fuel _ n) => fuel <> 0%nat /\ 0 <= n
  | _ => True
  end.

Section lasting.
Context `{Stalling} `{!Settles}.

Lemma lasts_at_ignore {A} s (m : M world A) : lasts_at s m -> lasts_at s (ignore m).
Proof. intros Hm held Hi Hl Hh Ha. specialize (Hm held Hi Hl Hh Ha). unfold ignore, mbind, M_bind. by destruct (m s). Qed.

Lemma lasts_lasts_at {A} s (m : M world A) : lasts m -> lasts_at s m.
Proof. intros Hm held. apply Hm. Qed.

Lemma lib_lasts s c : lib_reasonable s c -> (may_stall = false -> fueled (Clib c)) -> lasts_at s (lib_perform c).
Proof.
  intros Hc Hf. destruct c; cbn [lib_perform]; apply lasts_at_ignore.
  - apply lasts_lasts_at, socket_lasts.
  - by apply lasts_lasts_at, bind_lasts.
  - by apply lasts_lasts_at, connect_lasts.
  - by apply lasts_lasts_at, listen_lasts.
  - by apply lasts_lasts_at, accept4_lasts.
  - apply lasts_lasts_at, shutdown_lasts.
  - apply lasts_lasts_at, getsockname_lasts.
  - apply lasts_lasts_at, getpeername_lasts.
  - apply lasts_lasts_at, getsockopt_lasts.
  - apply lasts_lasts_at, setsockopt_lasts.
  - by apply lasts_lasts_at, recvfrom_lasts; intros ?; apply Hf.
  - by apply lasts_lasts_at, sendto_lasts.
  - by apply lasts_lasts_at, read_lasts; intros ?; apply Hf.
  - by apply lasts_lasts_at, write_lasts.
  - apply lasts_lasts_at, ioctl_lasts.
  - destruct Hc. by apply ppoll_lasts.
  - destruct Hc. by apply poll_lasts.
  - destruct Hc as (? & ? & ? & ?). by apply pselect_lasts.
  - destruct Hc as (? & ? & ? & ?). by apply select_lasts.
Qed.

Lemma perform_ends_well s c : sys_ok s -> roomy s -> reasonable s c -> (may_stall = false -> fueled c) -> ends_well s (perform c s).
Proof.
  intros Hok Hr Hc Hf. destruct c as [c|c|c|path|b n|fd]; cbn [perform reasonable] in *.
  - apply sys_lasts_at; try done. by apply lib_lasts.
  - apply sys_lasts_lower; try done. by apply fs_call_lasts.
  - by apply posix_call_lasts.
  - destruct Hc as (-> & Hp & Hlen). pose proof (chdir_ends_well path s Hp Hlen Hok Hr) as He. unfold drop_result, mbind, M_bind. by destruct (chdir true path s).
  - by apply sys_lasts_drop; [apply getcwd_lasts|..].
  - by apply sys_lasts_drop; [apply sys_lasts_close|..].
Qed.
End lasting.

(** Any host: it may make a call wait for ever, or abort. *)
Definition unfriendly : Stalling := {| may_stall := true; may_abort := true |}.
Lemma unfriendly_settles : Settles (H0 := unfriendly).
Proof. by split. Qed.

Lemma perform_ends s c : sys_ok s -> roomy s -> reasonable s c -> @ends_well _ unfriendly _ s (perform c s).
Proof. pose proof unfriendly_settles. intros Hok Hr Hc. by apply perform_ends_well. Qed.

Lemma start_ok v : sys_ok (PreopensProps.start v).
Proof.
  split; [split; [apply wf_init|done]| |split; [done|constructor|constructor|done]|]; [split; [done|]; split; [done|by exists (Resources [] [])]|].
  split; [by repeat constructor|done|done|done].
Qed.

Lemma reached_ok v s : reached v s -> sys_ok s.
Proof.
  induction 1 as [|s c s' _ Hok Hr Hc Hp]; [apply start_ok|]. pose proof (perform_ends s c Hok Hr Hc) as Hw. by rewrite Hp in Hw.
Qed.

(** C4: A program makes any sequence of the calls above, on files, paths,
    descriptors and sockets, from its start on, and never polls with nothing to
    wait for ([reasonable]; [poll_nothing] shows why). The calls the library then
    makes keep to the documented rules of the host (no call on a handle that was
    dropped or has another type, no stream dropped before the pollables made from
    it, no [write] or [send] without permission, no second pair of datagram
    streams, no empty [poll]), and the handles held are exactly those the objects
    in memory name and the network handle. The next call returns; or it does not
    get through in the rounds of waiting it was given, or aborts on one of the two
    answers of the host that make it ([aborts_on]), the rules kept so far; or
    memory runs out while the preopens are entered, and the process exits. *)
Theorem host_rules_kept v s c :
  reached v s -> roomy s -> reasonable s c ->
  (exists m, conform (calls (tbl s)) = Some m /\ live m ≡ₚ net (calls (tbl s)) ++ owned_all (bodies (tbl s))) /\
  match perform c s with
  | Done _ _ => True
  | Stop r s' =>
      is_Some (conform (calls (tbl s'))) /\ (r = Fuel \/ r = Trap /\ aborts_on (calls (tbl s'))) \/
      r = Exit EX_SOFTWARE /\ preopens_populated (pre s) = false /\ ~ rich (tbl s)
  end.
Proof.
  intros Hr Hl Hc. pose proof (reached_ok v s Hr) as Hok. split.
  - destruct (so_acc _ Hok) as (_ & _ & m & Hm & Hlive & _). exists m. by rewrite app_nil_r in Hlive.
  - pose proof (perform_ends s c Hok Hl Hc) as Hw. destruct (perform c s) as [|r s']; [done|]. destruct Hw as [[Hr' Hcf]|Hg]; [left|by right].
    split; [done|]. destruct Hr' as [[? _]|(? & _ & ?)]; auto.
Qed.

(** C5: Every such call returns, with one round of waiting in each loop, when a
    pollable of the host that is ready tells the truth about the call it was made
    for ([Prompt]), the host gives none of the two answers on which the code aborts
    ([Tolerable]: no failure of remote-address right after accept, no size of a UDP
    buffer beyond INT_MAX), and memory does not run out while the preopens are
    entered. *)
Theorem calls_return v s c :
  Prompt -> Tolerable -> reached v s -> roomy s -> reasonable s c -> fueled c -> preopens_populated (pre s) = true \/ rich (tbl s) ->
  exists s', perform c s = Done tt s'.
Proof.
  intros Hp Ht Hr Hl Hc Hf Hm. pose proof (reached_ok v s Hr) as Hok.
  assert (Settles (H0 := {| may_stall := false; may_abort := false |})) as Hs by (by split).
  pose proof (perform_ends_well (H4 := Hs) s c Hok Hl Hc (fun _ => Hf)) as Hw.
  destruct (perform c s) as [[] s'|r s']; [by exists s'|]. destruct Hw as [[[[_ ?]|(_ & ? & _)] _]|(_ & Hn & Hrich)]; [done..|].
  destruct Hm; [congruence|done].
Qed.

(** C6: When a program made of such calls has closed every descriptor (those of
    the preopens, of files, of sockets and of the standard streams), every handle
    the host gave out has been given back, but for the network handle the library
    keeps. *)
Theorem handles_given_back v s :
  reached v s -> open_fds (tbl s) = ∅ -> exists m, conform (calls (tbl s)) = Some m /\ live m ≡ₚ net (calls (tbl s)).
Proof.
  intros Hr Ho. destruct (reached_ok v s Hr) as [[W _] (_ & _ & m & Hm & Hlive & _) _ _]. exists m. split; [done|].
  rewrite Hlive, app_nil_r. replace (bodies (tbl s)) with (∅ : gmap nat descriptor); [by rewrite app_nil_r|].
  symmetry. apply map_empty. intros l. unfold bodies. rewrite lookup_fmap. destruct (heap (tbl s) !! l) as [o|] eqn:E; [|done].
  destruct (proj1 (wf_objects [] (tbl s) l W)) as [[fd Hfd]|Hin]; [by eexists| |by apply elem_of_nil in Hin]. by rewrite Ho in Hfd.
Qed.
End calls.

(** ** A preopen that does not fit *)

Section dropped_twice.
Context `{HostLaws} `{!ResourceLaws}.

(** C40: When a preopen does not fit in the descriptor table, for want of memory,
    its handle is dropped twice: by [__wasilibc_add_file], which owns it, and again
    by [preopen_state_initialize]. From whatever table, the second drop breaks the
    rules of the host. *)
Theorem preopen_dropped_twice x F (s s' : sys) fd :
  inv [] (tbl s) -> len (tbl s) <= 2 ^ 26 -> closed F -> x <> 0 -> accounted (((Descriptor, x), plain) :: F) (tbl s) ->
  preopen_state_initialize (x : preopen_t) s = Done (-1, fd) s' -> conform (calls (tbl s')) = None.
Proof.
  intros Hi Hl HF Hx Ha Hd. cbn [preopen_state_initialize sys_backend] in Hd. unfold lower, zoom, mbind at 1, M_bind at 1 in Hd.
  pose proof (add_file_accounts x O_RDWR F (tbl s) HF Ha) as Ha1. destruct (__wasilibc_add_file x O_RDWR (tbl s)) as [r t|] eqn:E; [|done].
  destruct (Z.ltb_spec r 0) as [Hneg|]; [|done]. injection Hd as _ <-. destruct (accounted_nowhere _ _ _ Ha) as [Hno HnF].
  pose proof (add_file_fails x O_RDWR (tbl s) r t Hi Hl Hx E Hneg Hno) as Hno'. destruct Ha1 as (_ & _ & m & Hm & Hlive & _).
  cbn [tbl set_tbl calls set_calls log world_logged]. rewrite conform_snoc, Hm. cbn [mbind option_bind].
  assert ((Descriptor, x) ∉ keys (live m)) as Hnot.
  { unfold keys. rewrite Hlive, !fmap_app, !elem_of_app. intros [Hin|[Hin|Hin]]; [|apply owned_all_in in Hin as (l & o & Hb & Hin); by eapply Hno'|done].
    unfold net in Hin. destruct (global_network [] (calls t)); cbn in Hin; [by apply list_elem_of_singleton in Hin|by apply elem_of_nil in Hin]. }
  replace (admits (descriptor_drop_own x) m) with false; [done|]. symmetry. apply not_true_iff_false. unfold admits, held. cbn. rewrite !andb_true_iff.
  intros [[[Hb%bool_decide_eq_true _] _] _]. by apply Hnot.
Qed.
End dropped_twice.

(** ** A host that keeps its side

    There is one preopen, the root. Handles are numbered by the call that made
    them, sockets so that the number tells the family; a connection arrives once
    the listening socket was waited for; bytes are echoed. *)

Definition echo_family (x : Z) : ip_address_family := if x mod 8 <? 4 then IPV4 else IPV6.

Definition echo_address (x : Z) : ip_socket_address :=
  match echo_family x with
  | IPV4 => Ipv4SocketAddress 80 [127; 0; 0; 1]
  | IPV6 => Ipv6SocketAddress 80 0 [0; 0; 0; 0; 0; 0; 0; 1] 0
  end.

Definition echo_socket (f : ip_address_family) (n : Z) : Z := match f with IPV4 => n + 1 | IPV6 => n + 5 end.

Definition listened (x : Z) (h : list event) : bool :=
  existsb (fun e => match e with Ev (tcp_finish_listen y) => y =? x | _ => false end) h.

#[local] Instance echo_host : Host := fun R h c =>
  let n := 8 * Z.of_nat (length h) in
  match c in hostcall R return R with
  | streams_input_stream_read _ k => inl (if k <=? 0 then [] else [42])
  | streams_output_stream_check_write _ => inl 4096
  | streams_output_stream_write _ _ | streams_output_stream_blocking_flush _ => inl tt
  | poll_poll _ => [0]
  | poll_pollable_drop_own _ | poll_pollable_block _ | streams_input_stream_drop_own _
  | streams_output_stream_drop_own _ | io_error_drop_own _ | terminal_drop_own _ | descriptor_drop_own _
  | directory_entry_stream_drop_own _ | tcp_socket_drop_own _ | udp_socket_drop_own _ | incoming_datagram_stream_drop_own _
  | outgoing_datagram_stream_drop_own _ => tt
  | monotonic_clock_subscribe_duration _ | streams_input_stream_subscribe _ | streams_output_stream_subscribe _
  | stdin_get_stdin | stdout_get_stdout | stderr_get_stderr | instance_network | tcp_subscribe _
  | udp_subscribe _ | incoming_datagram_stream_subscribe _ | outgoing_datagram_stream_subscribe _ => n + 1
  | filesystem_error_code _ | terminal_get _ => None
  | filesystem_preopens_get_directories => [(n + 1, [SLASH])]
  | descriptor_read_via_stream _ _ | descriptor_write_via_stream _ _ | descriptor_append_via_stream _
  | descriptor_read_directory _ | descriptor_open_at _ _ _ _ _ => inl (n + 1)
  | descriptor_get_flags _ => inl 3
  | descriptor_read _ _ _ => inl ([], true)
  | descriptor_write _ bytes _ => inl (strlen bytes)
  | descriptor_stat_ _ | descriptor_stat_at _ _ _ => inl demo_stat
  | descriptor_metadata_hash _ | descriptor_metadata_hash_at _ _ _ => inl 77
  | descriptor_readlink_at _ _ => inl (lit "target")
  | directory_entry_stream_read_directory_entry _ => inl None
  | descriptor_advise _ _ _ _ | descriptor_sync _ | descriptor_sync_data _ | descriptor_set_size _ _
  | descriptor_set_times _ _ _ | descriptor_set_times_at _ _ _ _ _ | descriptor_create_directory_at _ _
  | descriptor_link_at _ _ _ _ _ | descriptor_remove_directory_at _ _ | descriptor_rename_at _ _ _ _
  | descriptor_symlink_at _ _ _ | descriptor_unlink_file_at _ _ | tcp_start_bind _ _ _ | tcp_finish_bind _ | tcp_start_connect _ _ _
  | tcp_start_listen _ | tcp_finish_listen _ | tcp_set_listen_backlog_size _ _ | tcp_set_option _ _ _ | tcp_shutdown _ _
  | udp_start_bind _ _ _ | udp_finish_bind _ | udp_set_option _ _ _ => inl tt
  | create_tcp_socket f | create_udp_socket f => inl (echo_socket f n)
  | tcp_finish_connect _ => inl (n + 1, n + 2)
  | udp_stream x _ => inl (echo_socket (echo_family x) n, n + 2)
  | tcp_accept x =>
      match rev h with
      | Ev (poll_pollable_block _) :: _ | Ev (poll_pollable_drop_own _) :: _ => inl (echo_socket (echo_family x) n, n + 1, n + 2)
      | _ => inr NETWORK_ERROR_CODE_WOULD_BLOCK
      end
  | tcp_local_address x | tcp_remote_address x | udp_local_address x | udp_remote_address x => inl (echo_address x)
  | tcp_is_listening x => listened x h
  | tcp_get_option _ _ | udp_get_option _ _ | outgoing_datagram_stream_check_send _ => inl 1
  | outgoing_datagram_stream_send _ l => inl (Z.of_nat (length l))
  | incoming_datagram_stream_receive x _ => inl [([1; 2; 3], echo_address x)]
  end.

Lemma echo_address_family x : family_of (echo_address x) = echo_family x.
Proof. unfold echo_address. by destruct (echo_family x). Qed.

Lemma echo_socket_family f k : echo_family (echo_socket f (8 * k)) = f.
Proof. unfold echo_family, echo_socket. destruct f; destruct (Z.ltb_spec ((8 * k + 1) mod 8) 4), (Z.ltb_spec ((8 * k + 5) mod 8) 4); try done; Z.div_mod_to_equations; lia. Qed.

(** The number of a handle tells its family. *)
Definition tells (e : entry) : Prop :=
  fst (fst e) <> OutgoingDatagramStream -> forall f, fam (snd e) = Some f -> echo_family (snd (fst e)) = f.

(** What a call makes is at most one handle of each kind, numbered by the call. *)
Definition numbered (n : Z) (new : list entry) : Prop :=
  NoDup (keys new).*1 /\
  Forall (fun e => n < snd (fst e) < n + 8 /\ (fst (fst e) = TcpSocket -> listening (snd e) = false) /\ tells e) new.

Lemma numbered_nil n : numbered n [].
Proof. split; constructor. Qed.

Lemma numbered_cons n k x i new :
  k ∉ (keys new).*1 -> n < x < n + 8 -> (k = TcpSocket -> listening i = false) -> tells ((k, x), i) -> numbered n new ->
  numbered n (((k, x), i) :: new).
Proof. intros Hk Hx Hi Ht [Hn Hf]. split; [by apply list.NoDup_cons|by constructor]. Qed.

Lemma fam_of_tells k x l f : Forall tells l -> k <> OutgoingDatagramStream -> fam_of (k, x) l = Some f -> echo_family x = f.
Proof.
  intros Hl Hk Hf. unfold fam_of in Hf. destruct (lookup_info (k, x) l) as [i|] eqn:E; [|done].
  apply lookup_info_In in E. rewrite list.Forall_forall in Hl. exact (Hl _ E Hk f Hf).
Qed.

Lemma echo_new {R : Set} l h (c : hostcall R) :
  Forall tells l -> numbered (8 * Z.of_nat (length h)) (creates l c (host _ h c)).
Proof.
  intros Hl. pose proof (fun f => echo_socket_family f (Z.of_nat (length h))) as Hs. set (n := 8 * Z.of_nat (length h)) in *.
  destruct c; cbn [creates host echo_host on_inl stream_failure]; fold n; try apply numbered_nil.
  all: try (apply numbered_cons; [apply not_elem_of_nil|try (unfold echo_socket; destruct f); lia|done|first [done|intros _ ? [= <-]; apply Hs]|apply numbered_nil]).
  - cbn. apply numbered_cons; [apply not_elem_of_nil|cbn; lia|done..|apply numbered_nil].
  - apply numbered_cons; [by intros ?%list_elem_of_singleton|cbn; lia|done..|].
    apply numbered_cons; [apply not_elem_of_nil|cbn; lia|done..|apply numbered_nil].
  - destruct (rev h) as [|[? []] ?]; try apply numbered_nil; cbn [on_inl fst snd].
    all: apply numbered_cons; [set_unfold; naive_solver|unfold echo_socket; destruct (echo_family _); lia|done| |].
    1, 3: intros _ f Hf; cbn [fst snd fam] in *; rewrite Hs; by apply (fam_of_tells TcpSocket _ l).
    all: apply numbered_cons; [by intros ?%list_elem_of_singleton|cbn; lia|done..|].
    all: apply numbered_cons; [apply not_elem_of_nil|cbn; lia|done..|apply numbered_nil].
  - apply numbered_cons; [by intros ?%list_elem_of_singleton|unfold echo_socket; cbn; destruct (echo_family _); lia|done| |].
    { intros _ f Hf. cbn [fst snd fam] in *. rewrite Hs. by apply (fam_of_tells UdpSocket _ l). }
    apply numbered_cons; [apply not_elem_of_nil|cbn; lia|done| |apply numbered_nil]. by intros [].
Qed.

(** What is known of a handle held after the calls [h]. *)
Definition echo_entry (h : list event) (e : entry) : Prop :=
  0 < snd (fst e) < 8 * Z.of_nat (length h) /\ (fst (fst e) = TcpSocket -> listening (snd e) = listened (snd (fst e)) h) /\ tells e.

Lemma listened_snoc {R : Set} x h (c : hostcall R) :
  listened x (h ++ [Ev c]) = listened x h || match c with tcp_finish_listen y => y =? x | _ => false end.
Proof. unfold listened. rewrite existsb_app. cbn. by rewrite orb_false_r. Qed.

Lemma echo_kept {R : Set} h (c : hostcall R) e (m : resources) :
  Forall (echo_entry h) (live m) -> e ∈ set_listening (starts_listening c (host _ h c)) (without (drops c) (live m)) -> echo_entry (h ++ [Ev c]) e.
Proof.
  intros Hm He. assert (forall e', e' ∈ without (drops c) (live m) -> echo_entry h e') as Ho.
  { intros e' He'. rewrite list.Forall_forall in Hm. apply Hm. destruct (drops c); [|done]. apply list_elem_of_filter in He' as [_ ?]. done. }
  unfold echo_entry. rewrite length_app, listened_snoc. cbn [length].
  destruct c; cbn [starts_listening host echo_host set_listening] in He; rewrite ?orb_false_r;
    try (destruct (Ho _ He) as (? & ? & ?); split; [lia|done]).
  apply list_elem_of_fmap in He as (e' & -> & He'). destruct (Ho _ He') as (Hx & Hl & Ht). destruct e' as [[k x] i].
  case_bool_decide as Hd; cbn [fst snd] in *.
  - injection Hd as -> ->. rewrite Z.eqb_refl, orb_true_r. split; [lia|]. split; [done|exact Ht].
  - split; [lia|]. split; [|exact Ht]. intros ->. rewrite Hl by done. match goal with |- context [?y =? x] => destruct (Z.eqb_spec y x) end; [by subst|by rewrite orb_false_r].
Qed.

Lemma echo_conform h m : conform h = Some m -> Forall (echo_entry h) (live m) /\ forall x, listened x h = true -> x < 8 * Z.of_nat (length h).
Proof.
  revert m. induction h as [|[R c] h IH] using rev_ind; intros m.
  - intros [= <-]. split; [constructor|done].
  - rewrite conform_snoc. destruct (conform h) as [m0|] eqn:E; [|done]. cbn [mbind option_bind].
    destruct (admits c m0) eqn:Ea; [|done]. intros [= <-]. destruct (IH m0 eq_refl) as [Hm Hx]. split.
    + cbn [advance live]. apply list.Forall_forall. intros e [He|He]%elem_of_app; [|by eapply echo_kept].
      destruct (echo_new (live m0) h c) as [_ Hf]; [by eapply Forall_impl; [|exact Hm]; intros ? (_ & _ & ?)|].
      rewrite list.Forall_forall in Hf. destruct (Hf e He) as (Hn & Hl & Ht). unfold echo_entry. rewrite length_app, listened_snoc. destruct e as [[k x] i]. cbn [length fst snd] in *.
      split; [lia|]. split; [|done]. intros Hk. rewrite (Hl Hk). symmetry. apply orb_false_iff.
      split; [|by destruct c; try done; apply elem_of_nil in He]. apply not_true_iff_false. intros Hx'%Hx. lia.
    + intros x. rewrite listened_snoc, length_app, orb_true_iff. cbn [length]. intros [Hl|Hl]; [apply Hx in Hl; lia|].
      destruct c; try done. apply Z.eqb_eq in Hl as ->. unfold admits in Ea. cbn in Ea. rewrite !andb_true_r in Ea.
      apply bool_decide_eq_true, list_elem_of_fmap in Ea as (e & He & Hin). rewrite list.Forall_forall in Hm.
      destruct (Hm e Hin) as (Hb & _). rewrite <- He in Hb. cbn [snd] in Hb. lia.
Qed.

Lemma echo_family_known k x f h m a :
  k <> OutgoingDatagramStream -> conform h = Some m -> fam_of (k, x) (live m) = Some f -> a = echo_address x -> family_of a = f.
Proof.
  intros Hk Hm Hf ->. rewrite echo_address_family. eapply fam_of_tells; [|done|exact Hf].
  eapply Forall_impl; [|apply (echo_conform h m Hm)]. by intros ? (_ & _ & ?).
Qed.

Lemma echo_fresh (R : Set) h (c : hostcall R) m : conform h = Some m ->
  let new := (creates (live m) c (host _ h c)).*1 in NoDup new /\ Forall (fun x => snd x <> 0 /\ x ∉ (live m).*1) new.
Proof.
  intros Hm. destruct (echo_conform h m Hm) as [Hf _]. destruct (echo_new (live m) h c) as [Hn He].
  { eapply Forall_impl; [|exact Hf]. by intros ? (_ & _ & ?). }
  split; [by apply (NoDup_fmap_1 fst)|]. rewrite Forall_fmap, list.Forall_forall in *. intros [[k x] i] Hx. destruct (He _ Hx) as [Hb _]. cbn in *.
  split; [lia|]. intros ([[k' x'] i'] & Heq & Hin)%list_elem_of_fmap. injection Heq as -> ->. destruct (Hf _ Hin) as [Hc _]. cbn in Hc. lia.
Qed.

Lemma echo_resource_laws : @ResourceLaws echo_host.
Proof.
  split; [exact echo_fresh|..].
  - intros R h c e. destruct c; try done. cbn [host echo_host reply_net_error sum_error].
    destruct (rev h) as [|[? []] ?]; cbn; try done; intros [= <-]; unfold NETWORK_ERROR_CODE_WOULD_BLOCK; lia.
  - intros h m x f a Hm Hf [= <-]. by eapply (echo_family_known TcpSocket).
  - intros h m x f a Hm Hf [= <-]. by eapply (echo_family_known TcpSocket).
  - intros h m x f a Hm Hf [= <-]. by eapply (echo_family_known UdpSocket).
  - intros h m x f a Hm Hf [= <-]. by eapply (echo_family_known UdpSocket).
  - intros h m x n f l Hm Hf [= <-]. constructor; [|constructor]. by eapply (echo_family_known IncomingDatagramStream).
  - intros h m x i Hm Hi%lookup_info_In. destruct (echo_conform h m Hm) as [Hf _]. rewrite list.Forall_forall in Hf.
    destruct (Hf _ Hi) as (_ & Hl & _). symmetry. by apply Hl.
  - intros h x n [= <-]. lia.
  - intros h x n [= <-]. lia.
  - intros h x l n [= <-]. lia.
Qed.

Lemma echo_laws : @HostLaws echo_host.
Proof.
  split.
  - intros R h c e. by destruct c.
  - intros h d f p o fl x. cbn [host echo_host]. intros [= <-]. lia.
  - intros h l. cbn [host echo_host]. intros <-. constructor; [cbn; lia|constructor].
  - intros h st n bytes. cbn [host echo_host]. destruct (Z.leb_spec n 0); intros [= <-]; unfold strlen; cbn; lia.
Qed.

Lemma echo_prompt : Prompt.
Proof.
  intros h m p x w _ _ Hw. split; [|by intros y d ->].
  intros R c Hc. destruct c; try done; cbn [host echo_host stalled]; [|by destruct Hw; rewrite rev_app_distr|by rewrite andb_false_r].
  match goal with |- (0 <? ?n) && _ = _ => by destruct (Z.leb_spec n 0), (Z.ltb_spec 0 n); try lia end.
Qed.

Lemma echo_tolerable : Tolerable.
Proof. intros h [(? & ? & ? & ? & ? & ? & _ & _ & ?)|(? & ? & ? & ? & _ & [= <-] & ?)]; [done|]. unfold INT_MAX in *. lia. Qed.

Lemma echo_preopens : @PreopenLaws echo_host.
Proof. split; intros h; cbn; [|lia]. by repeat constructor. Qed.

(** ** A program *)

Definition checked_path (limit : Z) (p : cstr) : bool := forallb (fun z => (0 <? z) && (z <? 256)) p && (strlen p <? limit).

(** A test that implies [reasonable]: a call of the poll family has a timeout or
    asks to read. *)
Definition check (s : sys) (c : call) : bool :=
  match c with
  | Clib (Cppoll l timeout) => (Z.of_nat (length l) <=? 2 ^ 27) && match timeout with Some _ => true | None => false end
  | Clib (Cpoll l timeout) => (Z.of_nat (length l) <=? 2 ^ 27) && (0 <=? timeout)
  | Clib (Cpselect nfds r w e timeout) =>
      (members r <=? FD_SETSIZE) && (members w <=? FD_SETSIZE) && (members e <=? FD_SETSIZE) && existsb (fun fd => (0 <=? fd) && (fd <? nfds)) (default [] r)
  | Clib (Cselect nfds r w e timeout) =>
      (members r <=? FD_SETSIZE) && (members w <=? FD_SETSIZE) && (members e <=? FD_SETSIZE) && existsb (fun fd => (0 <=? fd) && (fd <? nfds)) (default [] r)
  | Clib _ => true
  | Cfs c => forallb (checked_path (2 ^ 31)) (paths c)
  | Cpath c => forallb (checked_path (2 ^ 30)) (posix_paths c)
  | Cchdir p => checked_path (2 ^ 30) p && (strlen (cwd (sys_cwd s)) + strlen p + 4 <? 2 ^ 30)
  | _ => true
  end.

Lemma checked_path_ok limit p : checked_path limit p = true -> wf_cstr p /\ strlen p < limit.
Proof.
  unfold checked_path. rewrite andb_true_iff, forallb_forall, Z.ltb_lt. intros [Hf Hl]. split; [|done].
  apply list.Forall_forall. intros z Hz%list_elem_of_In. specialize (Hf z Hz). lia.
Qed.

Lemma checked_select s nfds r w e {T} (timeout : option T) :
  existsb (fun fd => (0 <=? fd) && (fd <? nfds)) (default [] r) = true -> select_waits s nfds r w e timeout.
Proof. intros (fd & Hin & Hfd)%existsb_exists. right. exists fd. split; [lia|]. left. by apply list_elem_of_In. Qed.

Lemma check_reasonable s c : check s c = true -> reasonable true s c.
Proof.
  destruct c as [c|c|c|p|b n|fd]; cbn [check reasonable]; try done.
  - destruct c; cbn [lib_reasonable]; try done; rewrite ?andb_true_iff, ?Z.leb_le; unfold fits_fd_set.
    + intros [? Ht]. split; [done|]. left. by destruct timeout.
    + intros [? ?]. by split; [|left].
    + intros (((? & ?) & ?) & ?). by split_and!; try apply checked_select.
    + intros (((? & ?) & ?) & ?). by split_and!; try apply checked_select.
  - rewrite forallb_forall. intros Hp. apply list.Forall_forall. intros p Hin%list_elem_of_In. by apply checked_path_ok, Hp.
  - rewrite forallb_forall. intros Hp. apply list.Forall_forall. intros p Hin%list_elem_of_In. by apply checked_path_ok, Hp.
  - rewrite andb_true_iff, Z.ltb_lt. intros [Hp Hl]. split; [done|]. split; [by apply checked_path_ok|done].
Qed.

Fixpoint run (prog : list call) (s : sys) : option sys :=
  match prog with
  | [] => Some s
  | c :: prog' => if (len (tbl s) <=? 2 ^ 24) && check s c then match perform true c s with Done _ s' => run prog' s' | Stop _ _ => None end else None
  end.

Lemma small_roomy (s : sys) : len (tbl s) <= 2 ^ 24 -> roomy s.
Proof. unfold roomy. case_match; lia. Qed.

Lemma run_reached v prog s s' : reached true v s -> run prog s = Some s' -> reached true v s'.
Proof.
  revert s. induction prog as [|c prog IH]; intros s Hs; cbn [run]; [by intros [= <-]|].
  destruct (_ && _) eqn:Hc; [|done]. apply andb_true_iff in Hc as [Hl%Z.leb_le%small_roomy Hc%check_reasonable].
  destruct (perform true c s) as [[] s1|] eqn:E; [|done]. apply IH. by eapply reached_step.
Qed.

Definition loopback : list Z := le_bytes 2 AF_INET ++ [0; 80; 127; 0; 0; 1] ++ replicate 8 0.

(** A file is made, written and read; a server accepts a connection; a client
    writes and reads; a datagram is sent and received; poll and select. *)
Definition demo_program : list call := [
  Cpath (POpen (lit "/a") (Z.lor O_RDWR O_CREAT)); Clib (Cwrite 9 4 [1; 2; 3]); Cfs (Lseek 4 0 SEEK_SET); Clib (Cread 9 4 100); Cfs (Fstat 4);
  Cpath (PMkdir (lit "d")); Cgetcwd true 0;
  Clib (Csocket PF_INET SOCK_STREAM 0); Clib (Cbind 9 5 (Some loopback) 16); Clib (Clisten 9 5 5); Clib (Caccept4 9 5 true (Some 16) 0);
  Clib (Cread 9 6 100); Clib (Cwrite 9 6 [1; 2; 3]);
  Clib (Csocket PF_INET SOCK_STREAM 0); Clib (Cconnect 9 7 (Some loopback) 16); Clib (Cgetpeername 7 true (Some 16)); Clib (Cshutdown 7 SHUT_RDWR);
  Cfs (Dup 7); Clib (Csocket PF_INET SOCK_DGRAM 0); Clib (Csendto 9 9 (Some [5; 6]) 0 (Some loopback) 16); Clib (Crecvfrom 9 9 true 2 0 true (Some 16));
  Clib (Cpoll [Pollfd 4 POLLRDNORM 0; Pollfd 6 (Z.lor POLLRDNORM POLLWRNORM) 0; Pollfd 9 POLLRDNORM 0; Pollfd 99 POLLRDNORM 0] 1000);
  Clib (Cselect 10 (Some [5; 9]) (Some [4; 6]) None None)].

Definition demo_closing : list call := Cclose <$> [0; 1; 2; 3; 4; 5; 6; 7; 8; 9].

Definition demo_state (prog : list call) : sys := default (PreopensProps.start demo_env) (run prog (PreopensProps.start demo_env)).

Lemma demo_state_reached prog : is_Some (run prog (PreopensProps.start demo_env)) -> reached true demo_env (demo_state prog).
Proof. intros [s Hs]. unfold demo_state. rewrite Hs. eapply run_reached; [constructor|done]. Qed.

Lemma host_rules_kept_witness :
  (exists m, conform (calls (tbl (demo_state demo_program))) = Some m /\
    live m ≡ₚ net (calls (tbl (demo_state demo_program))) ++ owned_all (bodies (tbl (demo_state demo_program)))) /\
  match perform true (Clib (Cwrite 9 4 [1])) (demo_state demo_program) with
  | Done _ _ => True
  | Stop r s' =>
      is_Some (conform (calls (tbl s'))) /\ (r = Fuel \/ r = Trap /\ aborts_on (calls (tbl s'))) \/
      r = Exit EX_SOFTWARE /\ preopens_populated (pre (demo_state demo_program)) = false /\ ~ rich (tbl (demo_state demo_program))
  end.
Proof.
  pose proof echo_laws. pose proof echo_resource_laws. pose proof echo_preopens. apply (host_rules_kept true demo_env); [|by apply small_roomy; vm_compute|exact I].
  apply demo_state_reached. vm_compute. by eexists.
Defined.

Lemma calls_return_witness : exists s', perform true (Cpath (POpen (lit "/b") O_RDONLY)) (demo_state []) = Done tt s'.
Proof.
  pose proof echo_laws. pose proof echo_resource_laws. pose proof echo_preopens.
  apply (calls_return true demo_env); [exact echo_prompt|exact echo_tolerable| |by apply small_roomy; vm_compute|by apply check_reasonable|exact I|right; by vm_compute].
  apply demo_state_reached. vm_compute. by eexists.
Defined.

Lemma handles_given_back_witness :
  exists m, conform (calls (tbl (demo_state (demo_program ++ demo_closing)))) = Some m /\ live m ≡ₚ net (calls (tbl (demo_state (demo_program ++ demo_closing)))).
Proof.
  pose proof echo_laws. pose proof echo_resource_laws. pose proof echo_preopens. apply (handles_given_back true demo_env); [|by vm_compute].
  apply demo_state_reached. vm_compute. by eexists.
Defined.

(** The process that has asked for its preopens; the table gets no memory for
    the standard streams. *)
Definition short_of_memory : sys :=
  let s := PreopensProps.start (Env 0 [true; true; false]) in set_tbl (log (Ev filesystem_preopens_get_directories) (tbl s)) s.

Lemma preopen_dropped_twice_witness :
  exists fd s', preopen_state_initialize (1 : preopen_t) short_of_memory = Done (-1, fd) s' /\ conform (calls (tbl s')) = None.
Proof.
  pose proof echo_laws. pose proof echo_resource_laws. destruct (start_ok (Env 0 [true; true; false])) as [Hi Ha _ _].
  eexists _, _. split; [vm_compute; reflexivity|]. eapply (preopen_dropped_twice 1 [] short_of_memory); [exact Hi|by vm_compute|apply closed_nil|done| |vm_compute; reflexivity].
  exact (accounted_create filesystem_preopens_get_directories [] _ closed_nil Ha eq_refl eq_refl eq_refl (fun _ => eq_refl) (fun _ => eq_refl) eq_refl (fun _ _ _ => eq_refl)).
Defined.
