(* ===== verification/PollProps.v ===== *)
(** * Waiting for descriptors: theorems

    What poll and select report, and the operations on sets of descriptors. *)

From S2P Require Import Prelude Errno Time Stat SockAddr Host DescTable DescTableInv DescTableSpec DescTableProps Object File.
From S2P Require Import Tcp Udp Vtable FdOps FdProps Nocwd NocwdProps Preopens PreopensProps Cwd Posix PosixProps Sockets Poll.
From S2P Require Import Resources ResourceInv ResourceObj ResourceTcp ResourceUdp ResourceIo ResourceWorld ResourceFs ResourcePoll ResourcePath ResourceProps.

Section poll.
Context `{HostLaws} `{!ResourceLaws} `{!PreopenLaws} (chdir_linked : bool).
Implicit Types s : world.

(** What an entry may report: nothing when its descriptor is negative, POLLNVAL
    when it is closed, and else some of the events asked for. *)
Definition reported s (p q : pollfd) : Prop :=
  pfd q = pfd p /\ pevents q = pevents p /\
  if pfd p <? 0 then revents q = 0 else
  match open_fds s !! pfd p with
  | None => revents q = POLLNVAL
  | Some _ => Z.ldiff (revents q) (pevents p) = 0
  end.

Definition table_mask s (p : pollfd) : Z :=
  if pfd p <? 0 then 0 else match open_fds s !! pfd p with None => POLLNVAL | Some _ => pevents p end.

Lemma table_mask_ok s l : stdio_initialized s = true -> Forall (mask_ok (table_mask s) s) l.
Proof.
  intros Hs. apply list.Forall_forall. intros p _. unfold table_mask. split; intros Hfd Ho; specialize (Ho Hs); replace (pfd p <? 0) with false by lia.
  - destruct Ho as [x ->]. apply within_refl.
  - rewrite Ho. apply within_refl.
Qed.

Lemma within_antisym a b : within a b -> within b a -> a = b.
Proof. intros Ha Hb. rewrite <- (within_land_eq a b Ha), Z.land_comm. by apply within_land_eq. Qed.

Lemma within_0 a : within a 0 -> a = 0.
Proof. unfold within. by rewrite Z.ldiff_0_r. Qed.

Lemma polled_reported held l s rc l' s' :
  stdio_initialized s = true -> 0 <= rc -> polled (table_mask s) held (set_revents 0 <$> l) s rc l' s' -> Forall2 (reported s) l l'.
Proof.
  intros Hs Hrc Hp. pose proof (polled_fds _ _ _ _ _ _ _ Hp) as Hf. apply Forall2_same_length_lookup_2.
  { apply list.Forall2_length in Hf. by rewrite length_fmap in Hf. }
  intros i p q Hlp Hlq. assert ((set_revents 0 <$> l) !! i = Some (set_revents 0 p)) as Hi by (by rewrite list_lookup_fmap, Hlp).
  destruct (Forall2_lookup_lr _ _ _ _ _ _ Hf Hi Hlq) as (Hfd & Hev & Hw). split; [done|]. split; [done|]. unfold table_mask in Hw. cbn [pfd pevents set_revents] in Hw.
  destruct (Z.ltb_spec (pfd p) 0) as [|Hpos]; [by apply within_0|]. destruct (open_fds s !! pfd p) as [x|] eqn:Eo; [done|].
  apply within_antisym; [done|]. by apply (polled_closed _ _ _ _ _ _ _ Hp Hrc Hs i (set_revents 0 p)).
Qed.


(** C9: pselect returns from every state a program reaches, when something can
    end the wait: a timeout, or a descriptor below [nfds] in the set to read, or in
    the set to write and not a listening socket, or in one of the others and not
    open. On failure the sets are as they were; on success each has become some of its own members
    below [nfds], each once, the result is the number of them all, and every
    descriptor asked for is open. *)
Theorem pselect_reports v (s : sys) nfds readfds writefds errorfds timeout :
  reached chdir_linked v s -> roomy s -> fits_fd_set readfds -> fits_fd_set writefds -> fits_fd_set errorfds ->
  select_waits (tbl s) nfds readfds writefds errorfds timeout ->
  exists rc r w e t, pselect nfds readfds writefds errorfds timeout (tbl s) = Done (rc, (r, w, e)) t /\
    (rc = -1 /\ (r, w, e) = (readfds, writefds, errorfds) \/ selected nfds (tbl s) readfds writefds errorfds rc r w e).
Proof.
  intros Hr Hl Fr Fw Fe Hw. destruct (reached_ok chdir_linked v s Hr) as [Hi Ha _ _].
  destruct (pselect_spec [] nfds readfds writefds errorfds timeout (tbl s)) as (rc & r & w & e & t & Hd & _ & _ & _ & Hc); try done; [by apply roomy_len|].
  by exists rc, r, w, e, t.
Qed.

Lemma register_negative l st s todo :
  Forall (fun p => pfd p < 0) l -> fds st = l -> Forall (fun i => (i < length l)%nat) todo -> register_all todo st s = Done (0, st) s.
Proof.
  intros Hneg Hst. induction 1 as [|i todo Hi _ IH]; [done|]. cbn [register_all]. unfold register_one. rewrite Hst.
  destruct (lookup_lt_is_Some_2 l i Hi) as [p Hp]. rewrite Hp. pose proof (Forall_lookup_1 _ _ _ _ Hneg Hp) as Hlt. cbv beta in Hlt.
  replace (pfd p <? 0) with true by lia. exact IH.
Qed.

Lemma finish_none ready st s : states st = [] -> finish_all ready st s = Done st s.
Proof.
  intros Hst. induction ready as [|x ready IH]; [done|]. cbn [finish_all]. rewrite (bind_done _ _ s st s); [done|]. unfold finish_one. rewrite Hst.
  rewrite (proj2 (Z.leb_le _ _)); [done|]. pose proof (u32_range x) as Hx. cbn. tauto.
Qed.

Lemma wait_nothing st s :
  states st = [] -> pollables st = [] -> event_count st = 0 -> poll_wait st None s = Done (0, st) (log (Ev (poll_poll [])) s).
Proof.
  intros Hst Hp Hc. unfold poll_wait. rewrite Hc. cbn [Z.ltb Z.compare]. rewrite (bind_done _ _ s 0 s), Hp by done.
  rewrite (bind_done _ _ s (host _ (calls s) (poll_poll [])) (log (Ev (poll_poll [])) s)) by done.
  rewrite (bind_done _ _ _ _ _ (finish_none _ st _ Hst)). rewrite Z.eqb_refl. unfold mret, M_ret, mbind, M_bind. by rewrite Hc.
Qed.

(** With nothing to wait for, neither a descriptor nor a timeout, ppoll does
    not wait: it hands the host an empty list, which breaks the rules of the host
    (documented to trap). *)
Theorem poll_nothing v (s : sys) l :
  reached chdir_linked v s -> Forall (fun p => pfd p < 0) l ->
  exists rc l' t, ppoll l None (tbl s) = Done (rc, l') t /\ calls t = calls (tbl s) ++ [Ev (poll_poll [])] /\ conform (calls t) = None.
Proof.
  intros Hr Hneg. destruct (reached_ok chdir_linked v s Hr) as [_ (_ & _ & m & Hm & _) _ _]. unfold ppoll, validate_something_not_pollpri.
  replace (existsb pri_only l) with false.
  2: { symmetry. apply not_true_iff_false. intros (p & Hp & Hpri)%existsb_exists. apply list_elem_of_In in Hp. rewrite list.Forall_forall in Hneg. specialize (Hneg p Hp).
       unfold pri_only in Hpri. replace (pfd p <? 0) with true in Hpri by lia. done. }
  cbn [andb]. rewrite (bind_done _ _ (tbl s) 0 (tbl s)) by done. cbn [Z.ltb Z.compare]. unfold ppoll_impl. fold (start (set_revents 0 <$> l)).
  rewrite (bind_done _ _ (tbl s) (0, start (set_revents 0 <$> l)) (tbl s)).
  2: { eapply register_negative; [|reflexivity|].
       - apply list.Forall_forall. intros p (q & -> & Hq)%list_elem_of_fmap. rewrite list.Forall_forall in Hneg. exact (Hneg q Hq).
       - apply list.Forall_forall. intros i [_ Hi]%elem_of_seq. exact Hi. }
  cbn [fst snd Z.ltb Z.compare]. rewrite (bind_done _ _ _ _ _ (wait_nothing (start (set_revents 0 <$> l)) (tbl s) eq_refl eq_refl eq_refl)).
  do 3 eexists. split; [done|]. split; [done|]. cbn [calls log world_logged set_calls]. by rewrite conform_snoc, Hm.
Qed.
End poll.

(** ** Sets of descriptors *)

Lemma isset_correct fd set : FD_ISSET fd set = true <-> fd ∈ set.
Proof.
  unfold FD_ISSET. rewrite existsb_exists. split.
  - intros (x & Hx & He). apply Z.eqb_eq in He as ->. by apply list_elem_of_In.
  - intros Hx. exists fd. split; [by apply list_elem_of_In|apply Z.eqb_refl].
Qed.

Lemma move_last (l : list Z) : match list.last l with None => [] | Some y => y :: take (length l - 1) l end ≡ₚ l.
Proof.
  destruct l as [|x l _] using rev_ind; [done|]. rewrite last_snoc, length_app. cbn [length].
  rewrite take_app_le by lia. rewrite take_ge by lia. apply Permutation_cons_append.
Qed.

Lemma clr_perm fd set : NoDup set -> FD_CLR fd set ≡ₚ filter (fun x => x <> fd) set.
Proof.
  induction set as [|x set IH]; [done|]. intros [Hx Hn]%list.NoDup_cons. cbn [FD_CLR]. rewrite filter_cons.
  destruct (Z.eqb_spec x fd) as [->|Hne].
  - rewrite decide_False by tauto. rewrite move_last. clear IH Hn. induction set as [|y set IH]; [done|]. apply not_elem_of_cons in Hx as [Hy Hx].
    rewrite filter_cons, decide_True by done. by rewrite <- IH.
  - rewrite decide_True by done. by rewrite <- IH.
Qed.

(** On a set without duplicates, FD_ISSET, FD_SET and FD_CLR are membership,
    insertion and removal, and keep it without duplicates; FD_SET writes past the
    end only of a full set that has not the member yet. *)
Theorem fd_set_correct fd set :
  NoDup set ->
  (FD_ISSET fd set = true <-> fd ∈ set) /\
  match FD_SET fd set with
  | Some t => NoDup t /\ forall x, x ∈ t <-> x = fd \/ x ∈ set
  | None => FD_SETSIZE <= Z.of_nat (length set) /\ fd ∉ set
  end /\
  NoDup (FD_CLR fd set) /\ (forall x, x ∈ FD_CLR fd set <-> x <> fd /\ x ∈ set).
Proof.
  intros Hn. pose proof (isset_correct fd set) as Hi. split; [done|]. split.
  - unfold FD_SET. unfold FD_ISSET in Hi. destruct (existsb (Z.eqb fd) set).
    + split; [done|]. intros x. split; [by right|]. intros [->|]; [by apply Hi|done].
    + assert (fd ∉ set) as Hfd by (intros ?%Hi; done). destruct (Z.ltb_spec (Z.of_nat (length set)) FD_SETSIZE); [|done]. split.
      * apply list.NoDup_app. split; [done|]. split; [|apply list.NoDup_singleton]. by intros x Hx ->%list_elem_of_singleton.
      * intros x. rewrite elem_of_app, list_elem_of_singleton. tauto.
  - rewrite (clr_perm fd set Hn). split; [by apply list.NoDup_filter|]. intros x. by rewrite (clr_perm fd set Hn), list_elem_of_filter.
Qed.

Lemma fd_set_correct_witness :
  NoDup [3; 7; 5] /\
  (FD_ISSET 7 [3; 7; 5] = true <-> 7 ∈ [3; 7; 5]) /\
  match FD_SET 7 [3; 7; 5] with
  | Some t => NoDup t /\ forall x, x ∈ t <-> x = 7 \/ x ∈ [3; 7; 5]
  | None => FD_SETSIZE <= Z.of_nat (length [3; 7; 5]) /\ 7 ∉ [3; 7; 5]
  end /\
  NoDup (FD_CLR 7 [3; 7; 5]) /\ (forall x, x ∈ FD_CLR 7 [3; 7; 5] <-> x <> 7 /\ x ∈ [3; 7; 5]).
Proof.
  assert (NoDup [3; 7; 5]) as Hn by (by apply (bool_decide_unpack _); vm_compute).
  split; [exact Hn|]. apply (fd_set_correct 7 [3; 7; 5] Hn).
Defined.

(** ** On a host that keeps its side *)

#[local] Existing Instance echo_host.

Definition demo_polls : list pollfd :=
  [Pollfd 4 POLLWRNORM 0; Pollfd 6 (Z.lor POLLRDNORM POLLWRNORM) 0; Pollfd (-1) POLLRDNORM 0; Pollfd 9 POLLRDNORM 0; Pollfd 99 POLLRDNORM 0].

(** The first entry asks to write to the file at 4: that can end a wait. *)
Lemma demo_file_waits : waits_for_something (tbl (demo_state demo_program)) demo_polls None.
Proof.
  right. left. split; [done|]. right. left. split; [done|]. intros (e & (b & Hb & Hl) & Ho). specialize (Ho ltac:(by vm_compute)).
  vm_compute in Ho. injection Ho as <-. vm_compute in Hb. by injection Hb as <-.
Qed.


Lemma pselect_reports_witness :
  exists rc r w e t, pselect 10 (Some [5; 9]) (Some [4; 6]) None None (tbl (demo_state demo_program)) = Done (rc, (r, w, e)) t /\
    (rc = -1 /\ (r, w, e) = (Some [5; 9], Some [4; 6], None) \/ selected 10 (tbl (demo_state demo_program)) (Some [5; 9]) (Some [4; 6]) None rc r w e).
Proof.
  pose proof echo_laws. pose proof echo_resource_laws. pose proof echo_preopens.
  apply (pselect_reports true demo_env); [|by apply small_roomy; vm_compute|by vm_compute|by vm_compute|by vm_compute|by apply checked_select].
  apply demo_state_reached. vm_compute. by eexists.
Defined.

Lemma poll_nothing_witness :
  exists rc l' t, ppoll [] None (init_table demo_env) = Done (rc, l') t /\
    calls t = calls (init_table demo_env : world) ++ [Ev (poll_poll [])] /\ conform (calls t) = None.
Proof.
  pose proof echo_laws. pose proof echo_resource_laws. pose proof echo_preopens.
  apply (poll_nothing true demo_env (PreopensProps.start demo_env)); [constructor|constructor].
Defined.
