(* ===== verification/Emmalloc.v ===== *)
(** * The allocator emmalloc

    emmalloc/emmalloc.c over sources/sbrk.c. The linear memory is a map of
    bytes; the statics that are only read and written by name are fields of the
    state, and [freeRegionBuckets], whose nodes are linked with the free regions,
    lies in memory. [assert] is enabled and there is one thread. *)

From S2P Require Import Prelude Errno.

(** ** Memory *)

Definition peek (m : gmap Z Z) (a : Z) : Z := default 0 (m !! a).

Definition load32 (m : gmap Z Z) (a : Z) : Z :=
  peek m a + 256 * (peek m (a + 1) + 256 * (peek m (a + 2) + 256 * peek m (a + 3))).

Definition store32 (m : gmap Z Z) (a v : Z) : gmap Z Z :=
  <[a := v mod 256]> (<[a + 1 := v / 256 mod 256]> (<[a + 2 := v / 256 / 256 mod 256]> (<[a + 3 := v / 256 / 256 / 256 mod 256]> m))).

Definition PAGESIZE : Z := 0x10000.

(** What the linker and the memory type of the module fix. *)
Class Layout := {
  freeRegionBuckets : Z;
  __heap_base : Z;
  __heap_end : Z;
  max_pages : Z;
}.

Record arena := Arena {
  mem : gmap Z Z;
  listOfAllRegions : Z;
  freeRegionBucketsUsed : Z;
  pages : Z;  (** the size of the memory *)
  grows : list bool;  (** the answers of the host to [memory.grow]; no more are given after the last *)
  arena_errno : Z;
}.

Definition set_mem m s : arena := Arena m (listOfAllRegions s) (freeRegionBucketsUsed s) (pages s) (grows s) (arena_errno s).
Definition set_list h s : arena := Arena (mem s) h (freeRegionBucketsUsed s) (pages s) (grows s) (arena_errno s).
Definition set_used u s : arena := Arena (mem s) (listOfAllRegions s) u (pages s) (grows s) (arena_errno s).

(** An access outside the memory traps. *)
Definition in_memory (a n : Z) (s : arena) : bool := (0 <=? a) && (a + n <=? pages s * PAGESIZE).

Definition load (a : Z) : M arena Z := fun s => if in_memory a 4 s then Done (load32 (mem s) a) s else Stop Trap s.
Definition store (a v : Z) : M arena unit := fun s => if in_memory a 4 s then Done tt (set_mem (store32 (mem s) a v) s) else Stop Trap s.

(** Pointer arithmetic; to leave the address space is undefined. *)
Definition padd (p n : Z) : M arena Z := if p + n <? 2 ^ 32 then mret (p + n) else halt Undef.
Definition psub (p n : Z) : M arena Z := if 0 <=? p - n then mret (p - n) else halt Undef.

Section code.
Context `{Layout}.

(** ** sbrk *)

Definition memory_grow (n : Z) : M arena Z := fun s =>
  match grows s with
  | true :: rest =>
      if pages s + n <=? max_pages
      then Done (pages s) (Arena (mem s) (listOfAllRegions s) (freeRegionBucketsUsed s) (pages s + n) rest (arena_errno s))
      else Done (u32 (-1)) (Arena (mem s) (listOfAllRegions s) (freeRegionBucketsUsed s) (pages s) rest (arena_errno s))
  | false :: rest => Done (u32 (-1)) (Arena (mem s) (listOfAllRegions s) (freeRegionBucketsUsed s) (pages s) rest (arena_errno s))
  | [] => Done (u32 (-1)) s
  end.

Definition sbrk (increment : Z) : M arena Z :=
  if increment =? 0 then n ← gets pages; mret (u32 (n * PAGESIZE)) else
  if negb (Z.rem increment PAGESIZE =? 0) then halt Trap else
  if increment <? 0 then halt Trap else
  old ← memory_grow (Z.quot increment PAGESIZE);
  if old =? u32 (-1) then modify (fun s => Arena (mem s) (listOfAllRegions s) (freeRegionBucketsUsed s) (pages s) (grows s) ENOMEM) ;; mret (u32 (-1))
  else mret (u32 (old * PAGESIZE)).

(** ** Regions *)

Definition MALLOC_ALIGNMENT : Z := 16.
Definition NUM_FREE_BUCKETS : Z := 64.
Definition FREE_REGION_FLAG : Z := 1.
Definition MAX_ALLOC_SIZE : Z := 0xFFFFFFC7.
Definition REGION_HEADER_SIZE : Z := 8.
Definition SMALLEST_ALLOCATION_SIZE : Z := 8.
Definition sizeof_Region : Z := 16.

(** The fields of [Region] and [RootRegion] are four bytes each. *)
Definition prev_ptr (r : Z) : Z := r + 4.
Definition next_ptr (r : Z) : Z := r + 8.
Definition root_next (r : Z) : Z := r + 4.
Definition root_endPtr (r : Z) : Z := r + 8.

Definition IS_POWER_OF_2 (v : Z) : bool := Z.land v (u32 (v - 1)) =? 0.
Definition ALIGN_UP (p alignment : Z) : Z := Z.land (u32 (p + (alignment - 1))) (u32 (Z.lnot (u32 (alignment - 1)))).
Definition HAS_ALIGNMENT (p alignment : Z) : bool := Z.land p (u32 (alignment - 1)) =? 0.

Definition bucket_head (i : Z) : Z := freeRegionBuckets + sizeof_Region * i.

(** [__builtin_clz] of 32 bits and of 64 (which gives 64 for 0 on WebAssembly). *)
Definition clz (x : Z) : Z := 31 - Z.log2 x.
Definition clzll (x : Z) : Z := if x =? 0 then 64 else 63 - Z.log2 x.
(** [__builtin_ctzll] *)
Fixpoint ctz_from (n : nat) (x i : Z) : Z :=
  match n with O => i | S n' => if Z.testbit x i then i else ctz_from n' x (i + 1) end.
Definition ctzll (x : Z) : Z := ctz_from 64 x 0.

Definition bucket_index (allocSize : Z) : Z :=
  if allocSize <? 128 then i32 (Z.shiftr allocSize 3 - 1) else
  let c := clz allocSize in
  if 19 <? c then 110 - Z.shiftl c 2 + Z.lxor (Z.shiftr allocSize (29 - c)) 4
  else Z.min (71 - Z.shiftl c 1 + Z.lxor (Z.shiftr allocSize (30 - c)) 2) (NUM_FREE_BUCKETS - 1).

Definition compute_free_list_bucket (allocSize : Z) : M arena Z :=
  let bucketIndex := bucket_index allocSize in
  if allocSize <? 128 then mret bucketIndex else
  assert_ (0 <=? bucketIndex) ;; assert_ (bucketIndex <? NUM_FREE_BUCKETS) ;; mret bucketIndex.

Definition DECODE_CEILING_SIZE (size : Z) : Z := Z.land size (u32 (Z.lnot FREE_REGION_FLAG)).

Definition prev_region (region : Z) : M arena Z :=
  p ← psub region 4; prevRegionSize ← load p; psub region (DECODE_CEILING_SIZE prevRegionSize).
Definition next_region (region : Z) : M arena Z := size ← load region; padd region size.
Definition region_ceiling_size (region : Z) : M arena Z := e ← next_region region; p ← psub e 4; load p.
Definition region_is_free (r : Z) : M arena bool := c ← region_ceiling_size r; mret (has c FREE_REGION_FLAG).
Definition region_is_in_use (r : Z) : M arena bool := size ← load r; c ← region_ceiling_size r; mret (size =? c).
Definition size_of_region_from_ceiling (r : Z) : M arena Z := c ← region_ceiling_size r; mret (DECODE_CEILING_SIZE c).
Definition debug_region_is_consistent (r : Z) : M arena bool :=
  assert_ (negb (r =? 0)) ;; sizeAtBottom ← load r; sizeAtCeiling ← size_of_region_from_ceiling r; mret (sizeAtBottom =? sizeAtCeiling).
Definition region_payload_start_ptr (region : Z) : M arena Z := padd region 4.
Definition region_payload_end_ptr (region : Z) : M arena Z := e ← next_region region; psub e 4.

Definition assert_that (b : M arena bool) : M arena unit := x ← b; assert_ x.

Definition check_region (ptr size : Z) : M arena unit :=
  assert_ (negb (ptr =? 0)) ;; assert_ (HAS_ALIGNMENT ptr 4) ;; assert_ (HAS_ALIGNMENT size 4) ;; assert_ (sizeof_Region <=? size).

Definition create_used_region (ptr size : Z) : M arena unit :=
  check_region ptr size ;;
  store ptr size ;;
  e ← padd ptr (4 * (size / 4)); p ← psub e 4; store p size.

Definition create_free_region (ptr size : Z) : M arena unit :=
  check_region ptr size ;;
  store ptr size ;;
  e ← padd ptr (4 * (size / 4)); p ← psub e 4; store p (Z.lor size FREE_REGION_FLAG).

(** ** Free lists *)

Definition prepend_to_free_list (region prependTo : Z) : M arena unit :=
  assert_ (negb (region =? 0)) ;;
  assert_ (negb (prependTo =? 0)) ;;
  assert_that (region_is_free region) ;;
  store (next_ptr region) prependTo ;;
  p ← load (prev_ptr prependTo);
  store (prev_ptr region) p ;;
  assert_ (negb (p =? 0)) ;;
  store (prev_ptr prependTo) region ;;
  p ← load (prev_ptr region);
  store (next_ptr p) region.

Definition unlink_from_free_list (region : Z) : M arena unit :=
  assert_ (negb (region =? 0)) ;;
  assert_that (region_is_free region) ;;
  p ← load (prev_ptr region);
  assert_ (negb (p =? 0)) ;;
  n ← load (next_ptr region);
  assert_ (negb (n =? 0)) ;;
  store (next_ptr p) n ;;
  n ← load (next_ptr region);
  p ← load (prev_ptr region);
  store (prev_ptr n) p.

Definition link_to_free_list (freeRegion : Z) : M arena unit :=
  assert_ (negb (freeRegion =? 0)) ;;
  size ← load freeRegion;
  assert_ (sizeof_Region <=? size) ;;
  bucketIndex ← compute_free_list_bucket (u32 (size - REGION_HEADER_SIZE));
  let freeListHead := bucket_head bucketIndex in
  store (prev_ptr freeRegion) freeListHead ;;
  n ← load (next_ptr freeListHead);
  store (next_ptr freeRegion) n ;;
  assert_ (negb (n =? 0)) ;;
  store (next_ptr freeListHead) freeRegion ;;
  n ← load (next_ptr freeRegion);
  store (prev_ptr n) freeRegion ;;
  modify (fun s => set_used (Z.lor (freeRegionBucketsUsed s) (Z.shiftl 1 bucketIndex)) s).

(** ** Claiming memory *)

(** The range of the new memory: the first part of [claim_more_memory]. *)
Definition claim_range (numBytes : Z) : M arena (option (Z * Z)) :=
  l ← gets listOfAllRegions;
  (if (l =? 0) && (__heap_end <? __heap_base) then halt Trap else mret tt) ;;
  if (l =? 0) && (numBytes <=? __heap_end - __heap_base) then mret (Some (__heap_base, __heap_end)) else
  let numBytes := Z.land (u32 (numBytes + (PAGESIZE - 1))) (u32 (- PAGESIZE)) in
  startPtr ← sbrk (i32 numBytes);
  if i32 startPtr =? -1 then mret None else
  assert_ (HAS_ALIGNMENT startPtr 4) ;;
  endPtr ← padd startPtr numBytes;
  mret (Some (startPtr, endPtr)).

Definition claim_free (startPtr endSentinelRegion : Z) : M arena bool :=
  create_free_region startPtr (u32 (endSentinelRegion - startPtr)) ;;
  link_to_free_list startPtr ;;
  mret true.

(** The new memory becomes part of the last block, or a block of its own. *)
Definition claim_block (startPtr endPtr : Z) : M arena bool :=
  endSentinelRegion ← psub endPtr sizeof_Region;
  create_used_region endSentinelRegion sizeof_Region ;;
  l ← gets listOfAllRegions;
  previousSbrkEndAddress ← (if l =? 0 then mret 0 else load (root_endPtr l));
  if startPtr =? previousSbrkEndAddress then
    prevEndSentinel ← prev_region startPtr;
    assert_that (debug_region_is_consistent prevEndSentinel) ;;
    assert_that (region_is_in_use prevEndSentinel) ;;
    prevRegion ← prev_region prevEndSentinel;
    assert_that (debug_region_is_consistent prevRegion) ;;
    store (root_endPtr l) endPtr ;;
    isFree ← region_is_free prevRegion;
    if isFree : bool then
      let newFreeRegionSize := u32 (endSentinelRegion - prevRegion) in
      unlink_from_free_list prevRegion ;;
      create_free_region prevRegion newFreeRegionSize ;;
      link_to_free_list prevRegion ;;
      mret true
    else
      startPtr ← psub startPtr sizeof_Region;
      claim_free startPtr endSentinelRegion
  else
    create_used_region startPtr sizeof_Region ;;
    store (root_next startPtr) l ;;
    store (root_endPtr startPtr) endPtr ;;
    modify (set_list startPtr) ;;
    startPtr ← padd startPtr sizeof_Region;
    claim_free startPtr endSentinelRegion.

Definition claim_more_memory (numBytes : Z) : M arena bool :=
  range ← claim_range numBytes;
  match range with
  | None => mret false
  | Some (startPtr, endPtr) => claim_block startPtr endPtr
  end.

(** ** Allocation *)

(** The part of [attempt_allocate] after the boundary is in place. *)
Definition carve (freeRegion size : Z) : M arena Z :=
  total ← load freeRegion;
  (if u32 (sizeof_Region + REGION_HEADER_SIZE + size) <=? total then
     newFreeRegion ← padd freeRegion (REGION_HEADER_SIZE + size);
     create_free_region newFreeRegion (u32 (total - size - REGION_HEADER_SIZE)) ;;
     link_to_free_list newFreeRegion ;;
     create_used_region freeRegion (u32 (size + REGION_HEADER_SIZE))
   else
     e ← next_region freeRegion; p ← psub e 4; store p total) ;;
  padd freeRegion 4.

Definition attempt_allocate (freeRegion alignment size : Z) : M arena Z :=
  assert_ (negb (freeRegion =? 0)) ;;
  payloadStartPtr ← region_payload_start_ptr freeRegion;
  let payloadStartPtrAligned := ALIGN_UP payloadStartPtr alignment in
  payloadEndPtr ← region_payload_end_ptr freeRegion;
  payloadEnd ← padd payloadStartPtrAligned size;
  if payloadEndPtr <? payloadEnd then mret 0 else
  unlink_from_free_list freeRegion ;;
  if payloadStartPtr =? payloadStartPtrAligned then carve freeRegion size else
  prevRegion ← prev_region freeRegion;
  assert_that (region_is_in_use prevRegion) ;;
  let regionBoundaryBumpAmount := u32 (payloadStartPtrAligned - payloadStartPtr) in
  total ← load freeRegion;
  let newThisRegionSize := u32 (total - regionBoundaryBumpAmount) in
  prevSize ← load prevRegion;
  create_used_region prevRegion (u32 (prevSize + regionBoundaryBumpAmount)) ;;
  freeRegion ← padd freeRegion regionBoundaryBumpAmount;
  store freeRegion newThisRegionSize ;;
  carve freeRegion size.

Definition validate_alloc_alignment (alignment : Z) : M arena Z :=
  let alignment := Z.max alignment MALLOC_ALIGNMENT in
  assert_ (alignment <=? 1024 * 1024) ;; mret alignment.

Definition validate_alloc_size (size : Z) : M arena Z :=
  assert_ (size <? u32 (size + REGION_HEADER_SIZE)) ;;
  let validatedSize := if SMALLEST_ALLOCATION_SIZE <? size then ALIGN_UP size 4 else SMALLEST_ALLOCATION_SIZE in
  assert_ (size <=? validatedSize) ;; mret validatedSize.

(** The loop over the buckets; 129 turns are enough, since each either looks at a
    new bucket or clears a bit. 0 when it finds nothing. *)
Fixpoint search_buckets (n : nat) (alignment size bucketIndex bucketMask : Z) : M arena Z :=
  if bucketMask =? 0 then mret 0 else
  match n with
  | O => halt Fuel
  | S n' =>
      let indexAdd := ctzll bucketMask in
      let bucketIndex := bucketIndex + indexAdd in
      let bucketMask := Z.shiftr bucketMask indexAdd in
      assert_ (0 <=? bucketIndex) ;;
      assert_ (bucketIndex <=? NUM_FREE_BUCKETS - 1) ;;
      used ← gets freeRegionBucketsUsed;
      assert_ (has used (Z.shiftl 1 bucketIndex)) ;;
      freeRegion ← load (next_ptr (bucket_head bucketIndex));
      assert_ (negb (freeRegion =? 0)) ;;
      let check i m := used ← gets freeRegionBucketsUsed;
        assert_ ((i =? NUM_FREE_BUCKETS) && (m =? 0) || (m =? Z.shiftr used i)) in
      if freeRegion =? bucket_head bucketIndex then
        modify (fun s => set_used (Z.land (freeRegionBucketsUsed s) (Z.lnot (Z.shiftl 1 bucketIndex))) s) ;;
        check bucketIndex (Z.lxor bucketMask 1) ;;
        search_buckets n' alignment size bucketIndex (Z.lxor bucketMask 1)
      else
        ptr ← attempt_allocate freeRegion alignment size;
        if negb (ptr =? 0) then mret ptr else
        unlink_from_free_list freeRegion ;;
        prepend_to_free_list freeRegion (bucket_head bucketIndex) ;;
        check (bucketIndex + 1) (Z.shiftr bucketMask 1) ;;
        search_buckets n' alignment size (bucketIndex + 1) (Z.shiftr bucketMask 1)
  end.

(** The loops over the regions of one bucket: at most [tries] regions. The
    result, and the region where the loop ended. *)
Fixpoint search_regions (tries : nat) (head alignment size freeRegion : Z) : M arena (Z * Z) :=
  if freeRegion =? head then mret (0, freeRegion) else
  match tries with
  | O => mret (0, freeRegion)
  | S tries' =>
      ptr ← attempt_allocate freeRegion alignment size;
      if negb (ptr =? 0) then mret (ptr, freeRegion) else
      next ← load (next_ptr freeRegion);
      search_regions tries' head alignment size next
  end.

(** More turns than there can be regions. *)
Definition all_regions (s : arena) : nat := Z.to_nat (pages s * PAGESIZE / sizeof_Region).

(** [fuel] bounds the calls of itself: one for each time memory is claimed. *)
Fixpoint allocate_memory (fuel : nat) (alignment size : Z) : M arena Z :=
  match fuel with
  | O => halt Fuel
  | S fuel' =>
      if negb (IS_POWER_OF_2 alignment) then mret 0 else
      if MAX_ALLOC_SIZE <? size then mret 0 else
      alignment ← validate_alloc_alignment alignment;
      size ← validate_alloc_size size;
      bucketIndex ← compute_free_list_bucket size;
      used ← gets freeRegionBucketsUsed;
      ptr ← search_buckets 129 alignment size bucketIndex (Z.shiftr used bucketIndex);
      if negb (ptr =? 0) then mret ptr else
      used ← gets freeRegionBucketsUsed;
      let largestBucketIndex := NUM_FREE_BUCKETS - 1 - clzll used in
      let head := bucket_head largestBucketIndex in
      freeRegion ← (if used =? 0 then mret 0 else load (next_ptr head));
      r ← (if Z.shiftr used 30 =? 0 then mret (0, freeRegion) else search_regions 99 head alignment size freeRegion);
      if negb (fst r =? 0) then mret (fst r) else
      let numBytesToClaim := u32 (size + sizeof_Region * 3) in
      assert_ (size <? numBytesToClaim) ;;
      success ← claim_more_memory numBytesToClaim;
      if success : bool then allocate_memory fuel' alignment size else
      if snd r =? 0 then mret 0 else
      n ← gets all_regions;
      r ← search_regions n head alignment size (snd r);
      if (fst r =? 0) && negb (snd r =? head) then halt Fuel else mret (fst r)
  end.

(** Every call of itself has taken the initial heap or an answer of the host. *)
Definition emmalloc_memalign (alignment size : Z) : M arena Z :=
  n ← gets (fun s => length (grows s)); allocate_memory (2 + n) alignment size.

Definition aligned_alloc (alignment size : Z) : M arena Z :=
  if negb (alignment mod 4 =? 0) then mret 0 else
  if alignment =? 0 then halt Trap else
  if negb (size mod alignment =? 0) then mret 0 else
  emmalloc_memalign alignment size.

Definition malloc (size : Z) : M arena Z := emmalloc_memalign MALLOC_ALIGNMENT size.

Definition malloc_usable_size (ptr : Z) : M arena Z :=
  if ptr =? 0 then mret 0 else
  region ← psub ptr 4;
  assert_ (HAS_ALIGNMENT region 4) ;;
  size ← load region;
  assert_ (sizeof_Region <=? size) ;;
  assert_that (region_is_in_use region) ;;
  mret (u32 (size - REGION_HEADER_SIZE)).

(** ** Releasing and resizing *)

Definition free (ptr : Z) : M arena unit :=
  if ptr =? 0 then mret tt else
  region ← psub ptr 4;
  assert_ (HAS_ALIGNMENT region 4) ;;
  size ← load region;
  assert_ (sizeof_Region <=? size) ;;
  assert_that (region_is_in_use region) ;;
  p ← psub region 4;
  prevRegionSizeField ← load p;
  let prevRegionSize := DECODE_CEILING_SIZE prevRegionSizeField in
  left ← (if prevRegionSizeField =? prevRegionSize then mret (region, size) else
    prevRegion ← psub region prevRegionSize;
    assert_that (debug_region_is_consistent prevRegion) ;;
    unlink_from_free_list prevRegion ;;
    mret (prevRegion, u32 (size + prevRegionSize)));
  let regionStartPtr := fst left in
  let size := snd left in
  nextRegion ← next_region region;
  assert_that (debug_region_is_consistent nextRegion) ;;
  e ← region_payload_end_ptr nextRegion;
  sizeAtEnd ← load e;
  nextSize ← load nextRegion;
  size ← (if nextSize =? sizeAtEnd then mret size else
    unlink_from_free_list nextRegion ;;
    nextSize ← load nextRegion;
    mret (u32 (size + nextSize)));
  create_free_region regionStartPtr size ;;
  link_to_free_list regionStartPtr.

Definition attempt_region_resize (region size : Z) : M arena bool :=
  assert_ (0 <? size) ;;
  assert_ (HAS_ALIGNMENT size 4) ;;
  nextRegion ← next_region region;
  nextSize ← load nextRegion;
  nextRegionEndPtr ← padd nextRegion nextSize;
  p ← psub nextRegionEndPtr 4;
  sizeAtCeiling ← load p;
  if negb (nextSize =? sizeAtCeiling) then
    assert_that (region_is_free nextRegion) ;;
    newNextRegionStartPtr ← padd region size;
    assert_ (HAS_ALIGNMENT newNextRegionStartPtr 4) ;;
    newNextRegionEnd ← padd newNextRegionStartPtr sizeof_Region;
    if newNextRegionEnd <=? nextRegionEndPtr then
      unlink_from_free_list nextRegion ;;
      create_free_region newNextRegionStartPtr (u32 (nextRegionEndPtr - newNextRegionStartPtr)) ;;
      link_to_free_list newNextRegionStartPtr ;;
      create_used_region region (u32 (newNextRegionStartPtr - region)) ;;
      mret true
    else if newNextRegionStartPtr <=? nextRegionEndPtr then
      unlink_from_free_list nextRegion ;;
      regionSize ← load region;
      nextSize ← load nextRegion;
      create_used_region region (u32 (regionSize + nextSize)) ;;
      mret true
    else mret false
  else
    regionSize ← load region;
    if u32 (size + sizeof_Region) <=? regionSize then
      let freeRegionSize := u32 (regionSize - size) in
      create_used_region region size ;;
      freeRegion ← padd region size;
      create_free_region freeRegion freeRegionSize ;;
      link_to_free_list freeRegion ;;
      mret true
    else mret (size <=? regionSize).

(** [memcpy] of disjoint areas and [memset]. *)
Fixpoint copy_bytes (n : nat) (dst src : Z) (m m' : gmap Z Z) : gmap Z Z :=
  match n with O => m' | S n' => copy_bytes n' (dst + 1) (src + 1) m (<[dst := peek m src]> m') end.
Definition memcpy (dst src n : Z) : M arena unit := fun s =>
  if in_memory dst n s && in_memory src n s then Done tt (set_mem (copy_bytes (Z.to_nat n) dst src (mem s) (mem s)) s) else Stop Trap s.

Fixpoint fill_bytes (n : nat) (dst c : Z) (m : gmap Z Z) : gmap Z Z :=
  match n with O => m | S n' => fill_bytes n' (dst + 1) c (<[dst := c]> m) end.
Definition memset (dst c n : Z) : M arena unit := fun s =>
  if in_memory dst n s then Done tt (set_mem (fill_bytes (Z.to_nat n) dst c (mem s)) s) else Stop Trap s.

Definition emmalloc_aligned_realloc (ptr alignment size : Z) : M arena Z :=
  if ptr =? 0 then emmalloc_memalign alignment size else
  if size =? 0 then free ptr ;; mret 0 else
  if MAX_ALLOC_SIZE <? size then mret 0 else
  assert_ (IS_POWER_OF_2 alignment) ;;
  assert_ (HAS_ALIGNMENT ptr alignment) ;;
  size ← validate_alloc_size size;
  region ← psub ptr 4;
  ok ← attempt_region_resize region (u32 (size + REGION_HEADER_SIZE));
  if ok : bool then mret ptr else
  newptr ← emmalloc_memalign alignment size;
  (if newptr =? 0 then mret tt else
     regionSize ← load region;
     memcpy newptr ptr (Z.min size (u32 (regionSize - REGION_HEADER_SIZE))) ;;
     free ptr) ;;
  mret newptr.

Definition realloc (ptr size : Z) : M arena Z := emmalloc_aligned_realloc ptr MALLOC_ALIGNMENT size.

(** The result, and what is stored at [memptr]. *)
Definition posix_memalign (alignment size : Z) : M arena (Z * option Z) :=
  if negb (alignment mod 4 =? 0) then mret (22, None) else
  p ← emmalloc_memalign alignment size;
  mret (if p =? 0 then 12 else 0, Some p).

Definition calloc (num size : Z) : M arena Z :=
  let bytes := u32 (num * size) in
  ptr ← emmalloc_memalign MALLOC_ALIGNMENT bytes;
  (if ptr =? 0 then mret tt else memset ptr 0 bytes) ;;
  mret ptr.

Definition reallocarray (ptr nmemb size : Z) : M arena Z :=
  if 2 ^ 32 <=? nmemb * size then modify (fun s => Arena (mem s) (listOfAllRegions s) (freeRegionBucketsUsed s) (pages s) (grows s) ENOMEM) ;; mret 0
  else realloc ptr (nmemb * size).
End code.
