(* ===== verification/EmmallocInv.v ===== *)
(** * The invariant of emmalloc

    The memory claimed so far is a list of blocks, each tiled by regions with
    their sizes at both ends: a root region first, a sentinel last. The free
    regions are the members of 64 circular lists, and no two are neighbours. *)

From S2P Require Import Prelude Errno Emmalloc.

(** ** Memory *)

Lemma peek_store_ne m a v b : b < a \/ a + 4 <= b -> peek (store32 m a v) b = peek m b.
Proof. intros Hb. unfold peek, store32. by rewrite !lookup_insert_ne by lia. Qed.

Lemma load_agree m m' a : (forall b, a <= b < a + 4 -> peek m' b = peek m b) -> load32 m' a = load32 m a.
Proof. intros Hb. unfold load32. by rewrite !Hb by lia. Qed.

Lemma load_store_ne m a v c : c + 4 <= a \/ a + 4 <= c -> load32 (store32 m a v) c = load32 m c.
Proof. intros Hc. apply load_agree. intros b Hb. apply peek_store_ne. lia. Qed.

Lemma load_store_eq m a v : 0 <= v < 2 ^ 32 -> load32 (store32 m a v) a = v.
Proof.
  intros Hv. unfold load32, store32, peek. rewrite lookup_insert_eq. rewrite (lookup_insert_ne _ a (a + 1)), lookup_insert_eq by lia.
  rewrite (lookup_insert_ne _ a (a + 2)), (lookup_insert_ne _ (a + 1) (a + 2)), lookup_insert_eq by lia.
  rewrite (lookup_insert_ne _ a (a + 3)), (lookup_insert_ne _ (a + 1) (a + 3)), (lookup_insert_ne _ (a + 2) (a + 3)), lookup_insert_eq by lia.
  unfold default, from_option, id. rewrite (Z.mod_small (v / 256 / 256 / 256)).
  - assert (forall x, x mod 256 + 256 * (x / 256) = x) as Hdm by (intros x; pose proof (Z_div_mod_eq_full x 256); lia). by rewrite !Hdm.
  - rewrite !Z.div_div by lia. split; [apply Z.div_pos; lia|apply Z.div_lt_upper_bound; lia].
Qed.

(** [m'] is [m] outside of [lo, hi). *)
Definition only (lo hi : Z) (m m' : gmap Z Z) : Prop := forall b, b < lo \/ hi <= b -> peek m' b = peek m b.

Lemma only_refl lo hi m : only lo hi m m.
Proof. by intros b Hb. Qed.

Lemma only_store lo hi m m' a v : only lo hi m m' -> lo <= a -> a + 4 <= hi -> only lo hi m (store32 m' a v).
Proof. intros Ho Ha Hb b Hout. rewrite peek_store_ne by lia. by apply Ho. Qed.

Lemma only_trans lo hi m1 m2 m3 : only lo hi m1 m2 -> only lo hi m2 m3 -> only lo hi m1 m3.
Proof. intros H12 H23 b Hb. by rewrite H23, H12. Qed.

Lemma only_load lo hi m m' a : only lo hi m m' -> a + 4 <= lo \/ hi <= a -> load32 m' a = load32 m a.
Proof. intros Ho Ha. apply load_agree. intros b Hb. apply Ho. lia. Qed.

(** ** Regions *)

(** A size, and whether the region is free. *)
Definition tile : Type := Z * bool.

Fixpoint total (l : list tile) : Z := match l with [] => 0 | (sz, _) :: l' => sz + total l' end.

Fixpoint tiles (m : gmap Z Z) (a : Z) (l : list tile) : Prop :=
  match l with
  | [] => True
  | (sz, f) :: l' => (4 | sz) /\ 16 <= sz /\ load32 m a = sz /\ load32 m (a + sz - 4) = sz + Z.b2z f /\ tiles m (a + sz) l'
  end.

(** The regions with their addresses. *)
Fixpoint placed (a : Z) (l : list tile) : list (Z * Z * bool) :=
  match l with [] => [] | (sz, f) :: l' => (a, sz, f) :: placed (a + sz) l' end.

Lemma total_app l1 l2 : total (l1 ++ l2) = total l1 + total l2.
Proof. induction l1 as [|[sz f] l1 IH]; cbn; [done|]. lia. Qed.

Lemma placed_app a l1 l2 : placed a (l1 ++ l2) = placed a l1 ++ placed (a + total l1) l2.
Proof. revert a. induction l1 as [|[sz f] l1 IH]; intros a; cbn; [by rewrite Z.add_0_r|]. by rewrite IH, Z.add_assoc. Qed.

Lemma tiles_app m a l1 l2 : tiles m a (l1 ++ l2) <-> tiles m a l1 /\ tiles m (a + total l1) l2.
Proof.
  revert a. induction l1 as [|[sz f] l1 IH]; intros a; cbn; [rewrite Z.add_0_r; tauto|]. rewrite IH, Z.add_assoc. tauto.
Qed.

Lemma tiles_total m a l : tiles m a l -> 16 * Z.of_nat (length l) <= total l /\ (4 | total l).
Proof.
  revert a. induction l as [|[sz f] l IH]; intros a; cbn [tiles total length]; [intros _; split; [lia|apply Z.divide_0_r]|].
  intros (Hd & Hs & _ & _ & Ht). destruct (IH _ Ht). split; [lia|by apply Z.divide_add_r].
Qed.

Lemma placed_split a l x sz f : (x, sz, f) ∈ placed a l -> exists l1 l2, l = l1 ++ (sz, f) :: l2 /\ x = a + total l1.
Proof.
  revert a. induction l as [|[sz' f'] l IH]; intros a; cbn; [by intros ?%elem_of_nil|].
  intros [[= -> -> ->]|Hin]%elem_of_cons; [exists [], l; cbn; split; [done|lia]|].
  destruct (IH _ Hin) as (l1 & l2 & -> & ->). exists ((sz', f') :: l1), l2. split; [done|]. cbn. lia.
Qed.

Lemma placed_in a l1 sz f l2 : (a + total l1, sz, f) ∈ placed a (l1 ++ (sz, f) :: l2).
Proof. rewrite placed_app. apply elem_of_app. right. cbn. left. Qed.

(** What is known of a region. *)
Record region_ok (m : gmap Z Z) (lo hi x sz : Z) (f : bool) : Prop := {
  rok_size : (4 | sz);
  rok_min : 16 <= sz;
  rok_lo : lo <= x;
  rok_hi : x + sz <= hi;
  rok_head : load32 m x = sz;
  rok_ceil : load32 m (x + sz - 4) = sz + Z.b2z f;
}.

Lemma placed_ok m a l x sz f : tiles m a l -> (x, sz, f) ∈ placed a l -> region_ok m a (a + total l) x sz f /\ ((4 | a) -> (4 | x)).
Proof.
  intros Ht Hin. apply placed_split in Hin as (l1 & l2 & -> & ->). apply tiles_app in Ht as [H1 H2]. cbn in H2. destruct H2 as (Hd & Hs & Hh & Hc & Ht2).
  pose proof (tiles_total _ _ _ H1) as [? Hd1]. pose proof (tiles_total _ _ _ Ht2) as [? _]. rewrite total_app. cbn.
  split; [split; try done; lia|]. intros Ha. by apply Z.divide_add_r.
Qed.

Lemma tiles_frame m m' a l :
  tiles m a l -> (forall x sz f, (x, sz, f) ∈ placed a l -> load32 m' x = load32 m x /\ load32 m' (x + sz - 4) = load32 m (x + sz - 4)) -> tiles m' a l.
Proof.
  revert a. induction l as [|[sz f] l IH]; intros a; cbn; [done|]. intros (Hd & Hs & Hh & Hc & Ht) Hf.
  destruct (Hf a sz f) as [E1 E2]; [left|]. split; [done|]. split; [done|]. split; [congruence|]. split; [congruence|]. apply IH; [done|].
  intros x sz' f' Hin. apply (Hf x sz' f'). by right.
Qed.

Lemma tiles_only lo hi m m' a l : tiles m a l -> only lo hi m m' -> a + total l <= lo \/ hi <= a -> tiles m' a l.
Proof.
  intros Ht Ho Hout. eapply tiles_frame; [done|]. intros x sz f Hin. destruct (placed_ok _ _ _ _ _ _ Ht Hin) as [[] _].
  split; eapply only_load; try done; lia.
Qed.

(** Regions of one list are the same or disjoint. *)
Lemma placed_disjoint m a l x sx fx y sy fy :
  tiles m a l -> (x, sx, fx) ∈ placed a l -> (y, sy, fy) ∈ placed a l -> (x, sx, fx) = (y, sy, fy) \/ x + sx <= y \/ y + sy <= x.
Proof.
  revert a. induction l as [|[sz f] l IH]; intros a Ht; cbn; [by intros ?%elem_of_nil|].
  assert (forall u su fu, (u, su, fu) ∈ placed (a + sz) l -> a + sz <= u) as Hlo.
  { intros u su fu Hu. cbn in Ht. destruct Ht as (_ & _ & _ & _ & Ht). by destruct (placed_ok _ _ _ _ _ _ Ht Hu) as [[] _]. }
  intros [Hx|Hx]%elem_of_cons [Hy|Hy]%elem_of_cons.
  - left. congruence.
  - injection Hx as -> -> ->. right. left. by eapply Hlo.
  - injection Hy as -> -> ->. right. right. by eapply Hlo.
  - cbn in Ht. by eapply IH; [apply Ht| |].
Qed.

(** No two neighbours are free. *)
Fixpoint no_adj (l : list tile) : Prop :=
  match l with
  | (_, f) :: l' => match l' with (_, g) :: _ => f && g = false | [] => True end /\ no_adj l'
  | [] => True
  end.

Definition first_free (l : list tile) : bool := match l with (_, f) :: _ => f | [] => false end.
Definition last_free (l : list tile) : bool := match list.last l with Some (_, f) => f | None => false end.

Lemma no_adj_cons t l : no_adj (t :: l) <-> t.2 && first_free l = false /\ no_adj l.
Proof. destruct t as [sz f]. cbn. destruct l as [|[sz' g] l]; cbn; [by rewrite andb_false_r|done]. Qed.

Lemma last_free_cons t t' l : last_free (t :: t' :: l) = last_free (t' :: l).
Proof. done. Qed.

Lemma no_adj_app l1 l2 : no_adj (l1 ++ l2) <-> no_adj l1 /\ no_adj l2 /\ last_free l1 && first_free l2 = false.
Proof.
  induction l1 as [|t l1 IH]; [cbn; tauto|]. rewrite <- app_comm_cons, !no_adj_cons, IH. destruct l1 as [|t' l1].
  - cbn. unfold last_free. destruct t as [sz f]. cbn. rewrite andb_false_r. tauto.
  - rewrite last_free_cons. cbn [app first_free]. tauto.
Qed.

(** ** Blocks *)

(** Where a block starts, and its regions. *)
Definition block : Type := Z * list tile.

Definition shape (l : list tile) : Prop := exists r mid, l = (r, false) :: mid ++ [(16, false)].

Class LayoutLaws `{Layout} : Prop := {
  buckets_pos : 0 < freeRegionBuckets;
  buckets_aligned : (4 | freeRegionBuckets);
  buckets_below : freeRegionBuckets + 1024 <= __heap_base;
  heap_aligned : (4 | __heap_base) /\ (4 | __heap_end);
  heap_order : __heap_base <= __heap_end < 2 ^ 32;
  max_pages_small : max_pages <= 65535;
}.

Section heap.
Context `{LayoutLaws}.

Definition floor : Z := freeRegionBuckets + 1024.

(** The blocks, the last one first: each ends below the one before it. *)
Fixpoint heap_ok (m : gmap Z Z) (lim h : Z) (bs : list block) : Prop :=
  match bs with
  | [] => h = 0
  | (a, l) :: bs' =>
      h = a /\ floor <= a /\ (4 | a) /\ a + total l <= lim /\ shape l /\ no_adj l /\ tiles m a l /\
      load32 m (a + 8) = a + total l /\ heap_ok m a (load32 m (a + 4)) bs'
  end.

Definition all (bs : list block) : list (Z * Z * bool) := bs ≫= fun b => placed (fst b) (snd b).

Lemma all_cons a l bs : all ((a, l) :: bs) = placed a l ++ all bs.
Proof. done. Qed.

Lemma all_app bs1 bs2 : all (bs1 ++ bs2) = all bs1 ++ all bs2.
Proof. apply bind_app. Qed.

Lemma all_ok m lim h bs x sz f :
  heap_ok m lim h bs -> (x, sz, f) ∈ all bs -> region_ok m floor lim x sz f /\ (4 | x).
Proof.
  revert lim h. induction bs as [|[a l] bs IH]; intros lim h; [by intros _ ?%elem_of_nil|].
  intros (_ & Ha & Hd & Hl & _ & _ & Ht & _ & Hb). rewrite all_cons. intros [Hin|Hin]%elem_of_app.
  - destruct (placed_ok _ _ _ _ _ _ Ht Hin) as [[] Hx]. split; [split; try done; lia|by apply Hx].
  - destruct (IH _ _ Hb Hin) as [[] Hx]. split; [|done]. pose proof (tiles_total _ _ _ Ht). split; try done; lia.
Qed.

Lemma all_disjoint m lim h bs x sx fx y sy fy :
  heap_ok m lim h bs -> (x, sx, fx) ∈ all bs -> (y, sy, fy) ∈ all bs -> (x, sx, fx) = (y, sy, fy) \/ x + sx <= y \/ y + sy <= x.
Proof.
  revert lim h. induction bs as [|[a l] bs IH]; intros lim h; [by intros _ ?%elem_of_nil|].
  intros (_ & Ha & Hd & Hl & _ & _ & Ht & _ & Hb). rewrite all_cons. intros [Hx|Hx]%elem_of_app [Hy|Hy]%elem_of_app.
  - by eapply placed_disjoint.
  - destruct (placed_ok _ _ _ _ _ _ Ht Hx) as [[] _], (all_ok _ _ _ _ _ _ _ Hb Hy) as [[] _]. lia.
  - destruct (placed_ok _ _ _ _ _ _ Ht Hy) as [[] _], (all_ok _ _ _ _ _ _ _ Hb Hx) as [[] _]. lia.
  - by eapply IH.
Qed.

(** What the blocks need of memory. *)
Lemma heap_frame m m' lim h bs :
  heap_ok m lim h bs ->
  (forall x sz f, (x, sz, f) ∈ all bs -> load32 m' x = load32 m x /\ load32 m' (x + sz - 4) = load32 m (x + sz - 4)) ->
  (forall a l, (a, l) ∈ bs -> load32 m' (a + 4) = load32 m (a + 4) /\ load32 m' (a + 8) = load32 m (a + 8)) ->
  heap_ok m' lim h bs.
Proof.
  revert lim h. induction bs as [|[a l] bs IH]; intros lim h; [done|]. intros (Hh & Ha & Hd & Hl & Hs & Hn & Ht & He & Hb) Hf Hr. cbn.
  destruct (Hr a l) as [E1 E2]; [left|]. rewrite E1, E2. split_and!; try done.
  - eapply tiles_frame; [done|]. intros x sz f Hin. apply (Hf x sz f). apply elem_of_app. by left.
  - apply IH; [done| |].
    + intros x sz f Hin. apply (Hf x sz f). apply elem_of_app. by right.
    + intros a' l' Hin. apply (Hr a' l'). by right.
Qed.

(** The root region of a block. *)
Lemma root_in m lim h bs a l : heap_ok m lim h bs -> (a, l) ∈ bs -> exists r, (a, r, false) ∈ all bs /\ 16 <= r.
Proof.
  revert lim h. induction bs as [|[a' l'] bs IH]; intros lim h; [by intros _ ?%elem_of_nil|].
  intros (_ & _ & _ & _ & (r & mid & Hs) & _ & Ht & _ & Hb). intros [[= -> ->]|Hin]%elem_of_cons.
  - exists r. rewrite Hs in Ht |- *. split; [rewrite all_cons; cbn; left|]. cbn in Ht. tauto.
  - destruct (IH _ _ Hb Hin) as (r' & Hr & ?). exists r'. split; [|done]. rewrite all_cons. apply elem_of_app. by right.
Qed.

(** What is known of a block. *)
Record block_ok (m : gmap Z Z) (lim a : Z) (l : list tile) : Prop := {
  bok_floor : floor <= a;
  bok_aligned : (4 | a);
  bok_lim : a + total l <= lim;
  bok_shape : shape l;
  bok_adj : no_adj l;
  bok_tiles : tiles m a l;
  bok_end : load32 m (a + 8) = a + total l;
}.

Lemma heap_block m lim h bs a l : heap_ok m lim h bs -> (a, l) ∈ bs -> block_ok m lim a l.
Proof.
  revert lim h. induction bs as [|[a' l'] bs IH]; intros lim h; [by intros _ ?%elem_of_nil|].
  intros (_ & Hf & Hd & Hl & Hs & Hn & Ht & He & Hb). intros [[= -> ->]|Hin]%elem_of_cons; [by split|].
  destruct (IH _ _ Hb Hin). pose proof (tiles_total _ _ _ Ht). split; try done. lia.
Qed.

Lemma heap_only lo hi m m' lim h bs : heap_ok m lim h bs -> only lo hi m m' -> lim <= lo -> heap_ok m' lim h bs.
Proof.
  intros Hh Ho Hl. eapply heap_frame; [done| |].
  - intros x sz f Hx. destruct (all_ok _ _ _ _ _ _ _ Hh Hx) as [[] _]. split; eapply only_load; try done; lia.
  - intros a l Ha. destruct (root_in _ _ _ _ _ _ Hh Ha) as (r & Hr & ?). destruct (all_ok _ _ _ _ _ _ _ Hh Hr) as [[] _]. split; eapply only_load; try done; lia.
Qed.

(** Some regions of one block are replaced by others on the same ground; these
    are all the rest. *)
Definition others (bs1 : list block) (a : Z) (l1 : list tile) (n : Z) (l3 : list tile) (bs2 : list block) : list (Z * Z * bool) :=
  all bs1 ++ placed a l1 ++ placed (a + total l1 + n) l3 ++ all bs2.

Lemma all_split bs1 a l1 l2 l3 bs2 :
  all (bs1 ++ (a, l1 ++ l2 ++ l3) :: bs2) ≡ₚ placed (a + total l1) l2 ++ others bs1 a l1 (total l2) l3 bs2.
Proof. unfold others. rewrite all_app, all_cons, !placed_app. solve_Permutation. Qed.

Lemma heap_replace m m' lim h bs1 a l1 l2 l2' l3 bs2 :
  heap_ok m lim h (bs1 ++ (a, l1 ++ l2 ++ l3) :: bs2) -> total l2' = total l2 ->
  tiles m' (a + total l1) l2' -> shape (l1 ++ l2' ++ l3) -> no_adj (l1 ++ l2' ++ l3) ->
  (forall x sz f, (x, sz, f) ∈ others bs1 a l1 (total l2) l3 bs2 -> load32 m' x = load32 m x /\ load32 m' (x + sz - 4) = load32 m (x + sz - 4)) ->
  (forall r, r ∈ a :: bs1.*1 ++ bs2.*1 -> load32 m' (r + 4) = load32 m (r + 4) /\ load32 m' (r + 8) = load32 m (r + 8)) ->
  heap_ok m' lim h (bs1 ++ (a, l1 ++ l2' ++ l3) :: bs2).
Proof.
  intros Hh Ht2 Ht Hs Hn. revert lim h Hh. induction bs1 as [|[a' l'] bs1 IH]; intros lim h Hh Hf Hr.
  - cbn [app] in *. destruct Hh as (Hh & Ha & Hd & Hl & _ & _ & Ht' & He & Hb). apply tiles_app in Ht' as [T1 T23]. apply tiles_app in T23 as [T2 T3].
    destruct (Hr a) as [E1 E2]; [left|]. rewrite !total_app in *. cbn [heap_ok]. rewrite E1, E2, !total_app, Ht2. unfold others in Hf. cbn [app all mbind list_bind] in Hf. split_and!; try done.
    + apply tiles_app. split; [eapply tiles_frame; [done|]; intros x sz f Hx; apply (Hf x sz f), elem_of_app; by left|]. apply tiles_app. split; [done|]. rewrite Ht2.
      eapply tiles_frame; [done|]. intros x sz f Hx. apply (Hf x sz f), elem_of_app. right. apply elem_of_app. by left.
    + eapply heap_frame; [done| |].
      * intros x sz f Hx. apply (Hf x sz f), elem_of_app. right. apply elem_of_app. by right.
      * intros b l Hin. apply Hr. right. by apply (list_elem_of_fmap_2 fst _ (b, l)).
  - destruct Hh as (Hh & Ha & Hd & Hl & Hs' & Hn' & Ht' & He & Hb). cbn [app heap_ok]. cbn [fmap list_fmap fst app] in Hr.
    destruct (Hr a') as [E1 E2]; [right; left|]. rewrite E1, E2. split_and!; try done.
    + eapply tiles_frame; [done|]. intros x sz f Hx. apply (Hf x sz f). unfold others. rewrite all_cons. apply elem_of_app. left. apply elem_of_app. by left.
    + apply IH; [done| |].
      * intros x sz f Hx. apply (Hf x sz f). unfold others in *. rewrite all_cons, <- app_assoc. apply elem_of_app. by right.
      * intros r [Hin|Hin]%elem_of_cons; apply Hr; [subst; left|right; by right].
Qed.

(** Where the blocks begin and end. *)
Definition bounds (bs : list block) : list (Z * Z) := (fun b => (fst b, fst b + total (snd b))) <$> bs.

Lemma bounds_replace bs1 a l1 l2 l2' l3 bs2 :
  total l2' = total l2 -> bounds (bs1 ++ (a, l1 ++ l2' ++ l3) :: bs2) = bounds (bs1 ++ (a, l1 ++ l2 ++ l3) :: bs2).
Proof. intros E. unfold bounds. rewrite !fmap_app, !fmap_cons. cbn [fst snd]. by rewrite !total_app, E. Qed.

(** The free regions. *)
Definition free_tile (t : Z * Z * bool) : option (Z * Z) := match t with (x, sz, true) => Some (x, sz) | _ => None end.
Definition frees (bs : list block) : list (Z * Z) := omap free_tile (all bs).

Lemma elem_of_free (T : list (Z * Z * bool)) x sz : (x, sz) ∈ omap free_tile T <-> (x, sz, true) ∈ T.
Proof.
  rewrite list_elem_of_omap. split.
  - intros ([[y sy] [|]] & Ht & [=]); subst. done.
  - intros Ht. by exists (x, sz, true).
Qed.

(** The regions of the program: in use, and neither the first nor the last of a block. *)
Definition busy (bs : list block) (x sz : Z) : Prop :=
  (x, sz, false) ∈ all bs /\ forall a e, (a, e) ∈ bounds bs -> x <> a /\ x + sz <> e.

(** ** Free lists *)

Definition links (m : gmap Z Z) (x y : Z) : Prop := load32 m (x + 8) = y /\ load32 m (y + 4) = x.

Fixpoint chain (m : gmap Z Z) (x : Z) (l : list Z) (y : Z) : Prop :=
  match l with [] => links m x y | z :: l' => links m x z /\ chain m z l' y end.

Lemma chain_app m x l1 z l2 y : chain m x (l1 ++ z :: l2) y <-> chain m x l1 z /\ chain m z l2 y.
Proof. revert x. induction l1 as [|u l1 IH]; intros x; cbn; [done|]. rewrite IH. tauto. Qed.

(** The links of [v] are the same. *)
Definition same_links (m m' : gmap Z Z) (v : Z) : Prop := load32 m' (v + 4) = load32 m (v + 4) /\ load32 m' (v + 8) = load32 m (v + 8).

Lemma same_links_trans m1 m2 m3 v : same_links m1 m2 v -> same_links m2 m3 v -> same_links m1 m3 v.
Proof. intros [] []. split; congruence. Qed.

Lemma chain_frame' m m' x l y :
  chain m x l y -> (forall v, v ∈ x :: l -> load32 m' (v + 8) = load32 m (v + 8)) -> (forall v, v ∈ l ++ [y] -> load32 m' (v + 4) = load32 m (v + 4)) -> chain m' x l y.
Proof.
  revert x. induction l as [|z l IH]; intros x; cbn.
  - intros [E1 E2] Hn Hp. split; [rewrite Hn; [done|left]|rewrite Hp; [done|left]].
  - intros [[E1 E2] Hc] Hn Hp. split; [split; [rewrite Hn; [done|left]|rewrite Hp; [done|left]]|].
    apply IH; [done| |]; intros v Hv; [apply Hn|apply Hp]; by right.
Qed.

Lemma chain_frame m m' x l y : chain m x l y -> (forall v, v ∈ x :: l ++ [y] -> same_links m m' v) -> chain m' x l y.
Proof.
  intros Hc Hs. eapply chain_frame'; [done| |]; intros v Hv; apply Hs.
  - rewrite app_comm_cons. apply elem_of_app. by left.
  - by right.
Qed.

(** The node before the end of a chain. *)
Definition before (x : Z) (l : list Z) : Z := default x (list.last l).

Lemma before_cons x z l : before x (z :: l) = before z l.
Proof. unfold before. rewrite last_cons. by destruct (list.last l). Qed.

Lemma before_in x l : before x l ∈ x :: l.
Proof.
  revert x. induction l as [|z l IH]; intros x; [left|]. rewrite before_cons. right. apply IH.
Qed.

Lemma chain_before m x l y : chain m x l y -> load32 m (y + 4) = before x l /\ load32 m (before x l + 8) = y.
Proof. revert x. induction l as [|z l IH]; intros x; cbn; [by intros [-> ->]|]. rewrite before_cons. intros [_ Hc]. by apply IH. Qed.

(** The end of a chain is changed. *)
Lemma chain_retarget m m' x l y y' :
  chain m x l y -> NoDup (x :: l) -> (forall v, v ∈ x :: l -> v <> before x l -> load32 m' (v + 8) = load32 m (v + 8)) ->
  (forall v, v ∈ l -> load32 m' (v + 4) = load32 m (v + 4)) -> links m' (before x l) y' -> chain m' x l y'.
Proof.
  revert x. induction l as [|z l IH]; intros x; [done|]. rewrite before_cons. intros [[E1 E2] Hc] [Hx Hn]%list.NoDup_cons Hnext Hprev Hl. split.
  - split; [|rewrite Hprev; [done|left]]. rewrite Hnext; [done|left|]. intros ->. apply Hx. apply before_in.
  - apply IH; [done|done| |intros v Hv; apply Hprev; by right|done]. intros v Hv Hne. apply Hnext; [by right|done].
Qed.

Definition after (l : list Z) (y : Z) : Z := match l with z :: _ => z | [] => y end.

Lemma after_in l y : after l y ∈ l ++ [y].
Proof. destruct l; cbn; left. Qed.

Lemma chain_after m x l y : chain m x l y -> load32 m (x + 8) = after l y /\ load32 m (after l y + 4) = x.
Proof. destruct l; cbn; [by intros []|by intros [[] _]]. Qed.

Record lists_ok (m : gmap Z Z) (u : Z) (ls : list (list (Z * Z))) : Prop := {
  lo_len : length ls = 64%nat;
  lo_chain i l : ls !! i = Some l -> chain m (bucket_head (Z.of_nat i)) l.*1 (bucket_head (Z.of_nat i));
  lo_bucket i l t : ls !! i = Some l -> t ∈ l -> bucket_index (t.2 - 8) = Z.of_nat i;
  lo_bits : 0 <= u < 2 ^ 64;
  lo_used i l : ls !! i = Some l -> l <> [] -> Z.testbit u (Z.of_nat i) = true;
}.

(** The nodes of the lists: far enough from each other. *)
Definition apart (v w : Z) : Prop := v + 16 <= w \/ w + 16 <= v.

Record spread (lim : Z) (T : list (Z * Z)) : Prop := {
  sp_nodup : NoDup T.*1;
  sp_range x : x ∈ T.*1 -> floor <= x /\ x + 16 <= lim;
  sp_apart x y : x ∈ T.*1 -> y ∈ T.*1 -> x = y \/ apart x y;
}.

Lemma spread_sub lim T1 T2 : spread lim T1 -> T2 ⊆+ T1 -> spread lim T2.
Proof.
  intros [Hn Hr Ha] Hs. assert (T2.*1 ⊆+ T1.*1) as Hs' by (by apply fmap_submseteq).
  split.
  - apply submseteq_Permutation in Hs' as [k Hk]. rewrite Hk in Hn. by apply list.NoDup_app in Hn as [? _].
  - intros x Hx. apply Hr. by eapply elem_of_submseteq.
  - intros x y Hx Hy. apply Ha; by eapply elem_of_submseteq.
Qed.

Lemma head_range i : (i < 64)%nat -> freeRegionBuckets <= bucket_head (Z.of_nat i) /\ bucket_head (Z.of_nat i) + 16 <= floor.
Proof. intros Hi. unfold bucket_head, floor, sizeof_Region. lia. Qed.

Lemma in_concat {A} (ls : list (list A)) i l x : ls !! i = Some l -> x ∈ l -> x ∈ concat ls.
Proof.
  revert i. induction ls as [|l' ls IH]; intros [|i] Hl Hx; try done; cbn in *; apply elem_of_app; [left; congruence|right; by eapply IH].
Qed.

Lemma concat_insert {A} (ls : list (list A)) i l l' :
  ls !! i = Some l -> exists rest, concat ls ≡ₚ l ++ rest /\ concat (<[i := l']> ls) ≡ₚ l' ++ rest.
Proof.
  revert i. induction ls as [|x ls IH]; intros [|i] Hl; try done; cbn in Hl.
  - injection Hl as ->. exists (concat ls). done.
  - destruct (IH i Hl) as (rest & H1' & H2'). exists (x ++ rest). change (<[S i := l']> (x :: ls)) with (x :: <[i := l']> ls). cbn.
    rewrite H1', H2'. split; solve_Permutation.
Qed.

Lemma concat_apart {A} (ls : list (list (Z * A))) i j l l' x :
  NoDup (concat ls).*1 -> ls !! i = Some l -> ls !! j = Some l' -> x ∈ l.*1 -> x ∈ l'.*1 -> i = j.
Proof.
  revert i j. induction ls as [|l0 ls IH]; [done|]. intros [|i] [|j] Hn Hi Hj Hx Hx'; cbn in *; rewrite fmap_app in Hn; apply list.NoDup_app in Hn as (_ & Hd & Hn).
  - done.
  - injection Hi as ->. exfalso. apply (Hd x Hx). apply list_elem_of_fmap in Hx' as (t & -> & Ht). apply (list_elem_of_fmap_2 fst). by eapply in_concat.
  - injection Hj as ->. exfalso. apply (Hd x Hx'). apply list_elem_of_fmap in Hx as (t & -> & Ht). apply (list_elem_of_fmap_2 fst). by eapply in_concat.
  - f_equal. by eapply IH.
Qed.

Lemma member_in {A} (ls : list (list (Z * A))) i l x : ls !! i = Some l -> x ∈ l.*1 -> x ∈ (concat ls).*1.
Proof. intros Hi (t & -> & Ht)%list_elem_of_fmap. apply (list_elem_of_fmap_2 fst). by eapply in_concat. Qed.

Lemma nodes_apart lim ls i j l l' v w :
  spread lim (concat ls) -> length ls = 64%nat -> ls !! i = Some l -> ls !! j = Some l' -> v ∈ bucket_head (Z.of_nat i) :: l.*1 -> w ∈ bucket_head (Z.of_nat j) :: l'.*1 ->
  v = w \/ apart v w.
Proof.
  intros [Hn Hf Ha] Hlen Hi Hj Hv Hw. pose proof (lookup_lt_Some _ _ _ Hi) as Li. pose proof (lookup_lt_Some _ _ _ Hj) as Lj.
  pose proof (head_range i) as Ri. pose proof (head_range j) as Rj. unfold apart.
  apply elem_of_cons in Hv as [Hv|Hv]; apply elem_of_cons in Hw as [Hw|Hw].
  - subst. unfold bucket_head, sizeof_Region. lia.
  - pose proof (Hf w (member_in _ _ _ _ Hj Hw)). lia.
  - pose proof (Hf v (member_in _ _ _ _ Hi Hv)). lia.
  - apply Ha; [exact (member_in ls i l v Hi Hv)|exact (member_in ls j l' w Hj Hw)].
Qed.

Lemma other_apart lim ls i j l l' v w :
  spread lim (concat ls) -> length ls = 64%nat -> i <> j -> ls !! i = Some l -> ls !! j = Some l' -> v ∈ bucket_head (Z.of_nat i) :: l.*1 -> w ∈ bucket_head (Z.of_nat j) :: l'.*1 -> apart v w.
Proof.
  intros Hs Hlen Hne Hi Hj Hv Hw. destruct (nodes_apart lim ls i j l l' v w Hs Hlen Hi Hj Hv Hw) as [<-|]; [exfalso|done].
  pose proof (lookup_lt_Some _ _ _ Hi) as Li. pose proof (lookup_lt_Some _ _ _ Hj) as Lj. destruct Hs as [Hn Hf _].
  pose proof (head_range i) as Ri. pose proof (head_range j) as Rj. apply elem_of_cons in Hv as [Hv|Hv]; apply elem_of_cons in Hw as [Hw|Hw].
  - subst. unfold bucket_head, sizeof_Region in Hw. lia.
  - pose proof (Hf v (member_in _ _ _ _ Hj Hw)). lia.
  - pose proof (Hf v (member_in _ _ _ _ Hi Hv)). lia.
  - apply Hne. exact (concat_apart ls i j l l' v Hn Hi Hj Hv Hw).
Qed.

Lemma same_links_prev m w z v : apart v w -> same_links m (store32 m (w + 4) z) v.
Proof. intros Ha. unfold apart in Ha. split; apply load_store_ne; lia. Qed.

Lemma same_links_next m w z v : apart v w -> same_links m (store32 m (w + 8) z) v.
Proof. intros Ha. unfold apart in Ha. split; apply load_store_ne; lia. Qed.

Lemma lists_change m m' u u' ls i l l' :
  lists_ok m u ls -> ls !! i = Some l ->
  (forall j lj v, j <> i -> ls !! j = Some lj -> v ∈ bucket_head (Z.of_nat j) :: lj.*1 -> same_links m m' v) ->
  chain m' (bucket_head (Z.of_nat i)) l'.*1 (bucket_head (Z.of_nat i)) -> (forall t, t ∈ l' -> bucket_index (t.2 - 8) = Z.of_nat i) ->
  0 <= u' < 2 ^ 64 -> (forall j, j <> i -> Z.testbit u (Z.of_nat j) = true -> Z.testbit u' (Z.of_nat j) = true) -> (l' <> [] -> Z.testbit u' (Z.of_nat i) = true) ->
  lists_ok m' u' (<[i := l']> ls).
Proof.
  intros [Hlen Hch Hb Hbits Hu] Hi Hsame Hc Hb' Hu' Hle Hset. pose proof (lookup_lt_Some _ _ _ Hi) as Li.
  assert (forall j lj, <[i := l']> ls !! j = Some lj -> j = i /\ lj = l' \/ j <> i /\ ls !! j = Some lj) as Hcase.
  { intros j lj Hj. destruct (decide (j = i)) as [->|Hne]; [left|right; by rewrite list_lookup_insert_ne in Hj]. rewrite list_lookup_insert_eq in Hj by done. by injection Hj. }
  split.
  - by rewrite length_insert.
  - intros j lj [[-> ->]|[Hne Hj]]%Hcase; [done|]. eapply chain_frame; [by apply Hch|]. intros v Hv. eapply (Hsame j lj); try done.
    rewrite app_comm_cons in Hv. apply elem_of_app in Hv as [Hv|Hv%list_elem_of_singleton]; [done|]. subst v. left.
  - intros j lj t [[-> ->]|[Hne Hj]]%Hcase Ht; [by apply Hb'|by eapply Hb].
  - done.
  - intros j lj [[-> ->]|[Hne Hj]]%Hcase Hl; [by apply Hset|]. apply Hle; [done|]. by eapply Hu.
Qed.

(** Decides loads after stores by arithmetic. *)
Local Ltac ld := repeat first [rewrite load_store_eq by lia | rewrite load_store_ne by lia].

Section nodes.
Context (h : Z) (l1 l2 : list Z) (x : Z) (m : gmap Z Z).
Context (Hnodes : forall v w, v ∈ h :: l1 ++ x :: l2 -> w ∈ h :: l1 ++ x :: l2 -> v = w \/ apart v w).
Context (Hrange : forall v, v ∈ h :: l1 ++ x :: l2 -> 0 <= v < 2 ^ 32).
Context (Hnodup : NoDup (h :: l1 ++ x :: l2)).

Lemma node_h : h ∈ h :: l1 ++ x :: l2.
Proof. left. Qed.
Lemma node_x : x ∈ h :: l1 ++ x :: l2.
Proof. right. apply elem_of_app. right. left. Qed.
Lemma node_1 v : v ∈ h :: l1 -> v ∈ h :: l1 ++ x :: l2.
Proof. intros Hv. rewrite app_comm_cons. apply elem_of_app. by left. Qed.
Lemma node_2 v : v ∈ l2 ++ [h] -> v ∈ h :: l1 ++ x :: l2.
Proof. intros [Hv|Hv%list_elem_of_singleton]%elem_of_app; [|subst; left]. right. apply elem_of_app. right. by right. Qed.

Lemma parts : NoDup (h :: l1) /\ NoDup (l2 ++ [h]) /\ (forall v, v ∈ h :: l1 -> v ∈ l2 -> False) /\ x ∉ h :: l1 /\ x ∉ l2 ++ [h] /\ (forall v, v ∈ l1 -> v ∈ l2 ++ [h] -> False).
Proof.
  pose proof Hnodup as Hn. rewrite app_comm_cons in Hn. apply list.NoDup_app in Hn as (N1 & D & [N2 N3]%list.NoDup_cons).
  assert (h ∉ l2) as Hh by (intros Hh; apply (D h); [left|by right]). apply list.NoDup_cons in N1 as N1'. destruct N1' as [Nh N1'].
  split_and!; [done| | | | |].
  - apply list.NoDup_app. split; [done|]. split; [|apply list.NoDup_singleton]. by intros v Hv ->%list_elem_of_singleton.
  - intros v Hv Hv'. apply (D v Hv). by right.
  - intros Hx. apply (D x Hx). left.
  - intros [Hx|Hx%list_elem_of_singleton]%elem_of_app; [done|]. apply (D x); [rewrite Hx; left|left].
  - intros v Hv [Hv'|Hv'%list_elem_of_singleton]%elem_of_app; [apply (D v); by right|]. by subst.
Qed.

Lemma unlink_chain :
  chain m h (l1 ++ x :: l2) h ->
  let p := before h l1 in let n := after l2 h in let m' := store32 (store32 m (p + 8) n) (n + 4) p in
  chain m' h (l1 ++ l2) h.
Proof.
  intros [C1 C2]%chain_app p n m'. destruct parts as (N1 & N2 & D1 & X1 & X2 & D2). pose proof node_2 as Hn2.
  pose proof (node_1 p (before_in _ _)) as Hp. pose proof (node_2 n (after_in _ _)) as Hn. pose proof (Hrange p Hp). pose proof (Hrange n Hn).
  assert (load32 m' (p + 8) = n) as E1 by (unfold m'; destruct (Hnodes p n Hp Hn) as [->|[|]]; ld; done).
  assert (load32 m' (n + 4) = p) as E2 by (unfold m'; ld; done).
  assert (forall v, v ∈ h :: l1 ++ x :: l2 -> v <> p -> load32 m' (v + 8) = load32 m (v + 8)) as E3.
  { intros v Hv Hne. unfold m'. destruct (Hnodes v p Hv Hp) as [|[|]], (Hnodes v n Hv Hn) as [Ev|[|]]; try done; ld; done. }
  assert (forall v, v ∈ h :: l1 ++ x :: l2 -> v <> n -> load32 m' (v + 4) = load32 m (v + 4)) as E4.
  { intros v Hv Hne. unfold m'. destruct (Hnodes v p Hv Hp) as [Ev|[|]], (Hnodes v n Hv Hn) as [|[|]]; try done; ld; done. }
  assert (forall y, n = y -> chain m' h l1 y) as Hfirst.
  { intros y <-. eapply chain_retarget; [exact C1|done| | |by split].
    - intros v Hv Hne. apply E3; [by apply node_1|done].
    - intros v Hv. apply E4; [apply node_1; by right|]. intros ->. apply (D2 n); [done|apply after_in]. }
  destruct l2 as [|z l2']; [rewrite app_nil_r; by apply Hfirst|]. apply chain_app. split; [by apply Hfirst|]. destruct C2 as [_ C2].
  eapply chain_frame'; [exact C2| |].
  - intros v Hv. apply E3; [apply Hn2, elem_of_app; by left|]. intros ->. apply (D1 p); [apply before_in|done].
  - intros v Hv. apply E4; [apply Hn2; by right|]. intros ->. cbn [app] in N2. apply list.NoDup_cons in N2 as [N2 _]. by apply N2.
Qed.
End nodes.

Lemma link_chain h l x m :
  (forall v w, v ∈ h :: x :: l -> w ∈ h :: x :: l -> v = w \/ apart v w) -> (forall v, v ∈ h :: x :: l -> 0 <= v < 2 ^ 32) -> NoDup (h :: x :: l) ->
  chain m h l h ->
  let n := after l h in
  chain (store32 (store32 (store32 (store32 m (x + 4) h) (x + 8) n) (h + 8) x) (n + 4) x) h (x :: l) h.
Proof.
  intros Hnodes Hrange Hnodup Hc n. set (m' := store32 _ (n + 4) x).
  destruct (parts h [] l x Hnodup) as (_ & N2 & D1 & X1 & X2 & _).
  assert (n ∈ l ++ [h]) as Hn by (unfold n; destruct l; cbn; left). pose proof (node_2 h [] l x n Hn) as Hn'. cbn [app] in Hn'.
  assert (h ∈ h :: x :: l) as Hh by left. assert (x ∈ h :: x :: l) as Hx by (right; left).
  pose proof (Hrange h Hh). pose proof (Hrange x Hx). pose proof (Hrange n Hn').
  destruct (Hnodes h x Hh Hx) as [->|Hhx]; [exfalso; apply X1; left|]. destruct (Hnodes n x Hn' Hx) as [Hnx|Hnx]; [exfalso; apply X2; congruence|].
  assert (h = n \/ apart h n) as Hhn by (by apply Hnodes). unfold apart in *.
  assert (load32 m' (h + 8) = x) as E1 by (unfold m'; ld; done).
  assert (load32 m' (x + 4) = h) as E2 by (unfold m'; ld; done).
  assert (load32 m' (x + 8) = n) as E3 by (unfold m'; ld; done).
  assert (load32 m' (n + 4) = x) as E4 by (unfold m'; ld; done).
  split; [by split|]. destruct l as [|z l']; [by split|]. split; [by split|]. destruct Hc as [_ Hc]. cbn in n.
  eapply chain_frame'; [exact Hc| |]; intros v Hv.
  - assert (v ∈ h :: x :: z :: l') as Hv' by (right; by right). assert (v <> h) as Hvh by (intros ->; apply (D1 h); [left|done]).
    assert (v <> x) as Hvx by (intros ->; apply X2, elem_of_app; by left).
    destruct (Hnodes v h Hv' Hh) as [|[|]]; [done| |]; destruct (Hnodes v x Hv' Hx) as [|[|]]; try done; destruct (Hnodes v n Hv' Hn') as [|[|]]; unfold m'; ld; done.
  - assert (v ∈ h :: x :: z :: l') as Hv' by (apply (node_2 h [] (z :: l') x v); by right).
    assert (v <> n) as Hvn by (intros ->; cbn [app] in N2; apply list.NoDup_cons in N2 as [N2 _]; by apply N2).
    assert (v <> x) as Hvx by (intros ->; apply X2; by right).
    destruct (Hnodes v n Hv' Hn') as [|[|]]; [done| |]; destruct (Hnodes v x Hv' Hx) as [|[|]]; try done; destruct (Hnodes v h Hv' Hh) as [|[|]]; unfold m'; ld; done.
Qed.

Lemma prepend_chain h l x m :
  (forall v w, v ∈ h :: l ++ [x] -> w ∈ h :: l ++ [x] -> v = w \/ apart v w) -> (forall v, v ∈ h :: l ++ [x] -> 0 <= v < 2 ^ 32) -> NoDup (h :: l ++ [x]) ->
  chain m h l h ->
  let p := before h l in
  chain (store32 (store32 (store32 (store32 m (x + 8) h) (x + 4) p) (h + 4) x) (p + 8) x) h (l ++ [x]) h.
Proof.
  intros Hnodes Hrange Hnodup Hc p. set (m' := store32 _ (p + 8) x).
  destruct (parts h l [] x Hnodup) as (N1 & _ & _ & X1 & X2 & D2).
  pose proof (node_1 h l [] x p (before_in _ _)) as Hp. assert (h ∈ h :: l ++ [x]) as Hh by left. pose proof (node_x h l [] x) as Hx.
  pose proof (Hrange h Hh). pose proof (Hrange x Hx). pose proof (Hrange p Hp).
  destruct (Hnodes h x Hh Hx) as [->|Hhx]; [exfalso; apply X1; left|]. destruct (Hnodes p x Hp Hx) as [Hpx|Hpx]; [exfalso; apply X1; rewrite <- Hpx; apply before_in|].
  assert (h = p \/ apart h p) as Hhp by (by apply Hnodes). unfold apart in *.
  apply chain_app. split.
  - eapply chain_retarget; [exact Hc|done| | |].
    + intros v Hv Hne. pose proof (node_1 h l [] x v Hv) as Hv'. assert (v <> x) by (intros ->; done).
      destruct (Hnodes v p Hv' Hp) as [|[|]]; [done| |]; destruct (Hnodes v x Hv' Hx) as [|[|]]; try done; destruct (Hnodes v h Hv' Hh) as [|[|]]; unfold m'; ld; done.
    + intros v Hv. assert (v ∈ h :: l) as Hv1 by (by right). pose proof (node_1 h l [] x v Hv1) as Hv'. assert (v <> x) by (intros ->; done).
      assert (v <> h) by (intros ->; apply (D2 h Hv); left).
      destruct (Hnodes v h Hv' Hh) as [|[|]]; [done| |]; destruct (Hnodes v x Hv' Hx) as [|[|]]; try done; destruct (Hnodes v p Hv' Hp) as [|[|]]; unfold m'; ld; done.
    + split; unfold m'; fold p; ld; done.
  - split; unfold m'; ld; done.
Qed.
End heap.
