(* ===== verification/EmmallocBits.v ===== *)
(** * Masks, flags and buckets of emmalloc

    The arithmetic of alignments and of the free flag, and the bucket of a size. *)

From S2P Require Import Prelude Errno Emmalloc.

(** ** Arithmetic of masks *)

Lemma land_mask v k : 0 <= v < 2 ^ 32 -> 0 <= k <= 32 -> Z.land v (u32 (Z.lnot (u32 (2 ^ k - 1)))) = v - v mod 2 ^ k.
Proof.
  intros Hv Hk. assert (0 < 2 ^ k <= 2 ^ 32) as Hp by (split; [lia|apply Z.pow_le_mono_r; lia]).
  rewrite (u32_small (2 ^ k - 1)) by lia. assert (u32 (Z.lnot (2 ^ k - 1)) = Z.ldiff (Z.ones 32) (Z.ones k)) as ->.
  { rewrite <- Z.sub_nocarry_ldiff, !Z.ones_equiv.
    - unfold u32, Z.lnot. replace (Z.pred (- (2 ^ k - 1))) with (2 ^ 32 - 2 ^ k + (-1) * 2 ^ 32) by lia. rewrite Z.mod_add, Z.mod_small by lia. lia.
    - apply Z.bits_inj'. intros n Hn. rewrite Z.ldiff_spec, Z.bits_0, !Z.testbit_ones_nonneg by lia. lia. }
  assert (Z.land v (Z.ldiff (Z.ones 32) (Z.ones k)) = Z.ldiff v (Z.ones k)) as ->.
  { apply Z.bits_inj'. intros n Hn. rewrite Z.land_spec, !Z.ldiff_spec, !Z.testbit_ones_nonneg by lia. destruct (Z.ltb_spec n 32); [by rewrite andb_true_l|].
    rewrite Z.bits_above_log2; [done|lia|]. destruct (Z.eq_dec v 0) as [->|]; [cbn; lia|]. apply Z.log2_lt_pow2; [lia|]. apply Z.lt_le_trans with (2 ^ 32); [lia|]. apply Z.pow_le_mono_r; lia. }
  rewrite Z.ldiff_ones_r, Z.shiftl_mul_pow2, Z.shiftr_div_pow2 by lia. pose proof (Z_div_mod_eq_full v (2 ^ k)). lia.
Qed.

Lemma aligned_4 x : HAS_ALIGNMENT x 4 = true <-> (4 | x).
Proof.
  unfold HAS_ALIGNMENT. change (u32 (4 - 1)) with (Z.ones 2). rewrite Z.land_ones, Z.eqb_eq by lia. apply Z.mod_divide. lia.
Qed.

Lemma aligned_16 x : HAS_ALIGNMENT x 16 = true <-> (16 | x).
Proof.
  unfold HAS_ALIGNMENT. change (u32 (16 - 1)) with (Z.ones 4). rewrite Z.land_ones, Z.eqb_eq by lia. apply Z.mod_divide. lia.
Qed.

Lemma ceil_flag sz f : (4 | sz) -> has (sz + Z.b2z f) FREE_REGION_FLAG = f.
Proof.
  intros [k ->]. unfold FREE_REGION_FLAG. change 1 with (Z.shiftl 1 0) at 1. rewrite has_bit, Z.bit0_odd, Z.odd_add, Z.odd_mul by lia. cbn. rewrite andb_false_r. by destruct f.
Qed.

Lemma ceil_size sz f : (4 | sz) -> 0 <= sz -> sz + 1 < 2 ^ 32 -> DECODE_CEILING_SIZE (sz + Z.b2z f) = sz.
Proof.
  intros [k ->] H0 H1. unfold DECODE_CEILING_SIZE, FREE_REGION_FLAG. change 1 with (u32 (2 ^ 1 - 1)). rewrite land_mask by (destruct f; cbn [Z.b2z]; lia).
  change (2 ^ 1) with 2. destruct f; cbn [Z.b2z]; Z.div_mod_to_equations; lia.
Qed.

Lemma lor_flag sz : (4 | sz) -> Z.lor sz FREE_REGION_FLAG = sz + 1.
Proof.
  intros [k ->]. unfold FREE_REGION_FLAG. rewrite <- Z.lxor_lor, <- Z.add_nocarry_lxor; [done| |]; apply Z.bits_inj'; intros n Hn; rewrite Z.land_spec, Z.bits_0;
    (destruct (Z.eq_dec n 0) as [->|]; [rewrite !Z.bit0_odd, Z.odd_mul; cbn; by rewrite andb_false_r|]);
    change 1 with (2 ^ 0); rewrite Z.pow2_bits_false by lia; by rewrite andb_false_r.
Qed.

Lemma power_of_2 v : 0 <= v < 2 ^ 32 -> IS_POWER_OF_2 v = true -> v = 0 \/ exists k, 0 <= k < 32 /\ v = 2 ^ k.
Proof.
  intros Hv. unfold IS_POWER_OF_2. rewrite Z.eqb_eq. intros Hl. destruct (Z.eq_dec v 0) as [|Hz]; [by left|right].
  rewrite u32_small in Hl by lia. pose proof (Z.log2_spec v ltac:(lia)) as [H1 H2]. pose proof (Z.log2_nonneg v). exists (Z.log2 v).
  split; [split; [lia|apply Z.log2_lt_pow2; lia]|]. destruct (Z.eq_dec v (2 ^ Z.log2 v)) as [|Hne]; [done|exfalso].
  apply (f_equal (fun z => Z.testbit z (Z.log2 v))) in Hl. rewrite Z.land_spec, Z.bits_0, Z.bit_log2 in Hl by lia. cbn in Hl.
  rewrite <- (Z.log2_unique (v - 1) (Z.log2 v)) in Hl at 1; [|lia..]. rewrite Z.bit_log2 in Hl by lia. done.
Qed.

Lemma align_up p k : 0 <= p -> p + 2 ^ k <= 2 ^ 32 -> 0 <= k <= 32 ->
  let q := ALIGN_UP p (2 ^ k) in p <= q < p + 2 ^ k /\ (2 ^ k | q).
Proof.
  intros Hp Hk Hk' q. assert (0 < 2 ^ k) by lia. unfold q, ALIGN_UP. rewrite (u32_small (p + _)) by lia. rewrite land_mask by lia.
  pose proof (Z_div_mod_eq_full (p + (2 ^ k - 1)) (2 ^ k)). pose proof (Z.mod_pos_bound (p + (2 ^ k - 1)) (2 ^ k) ltac:(lia)).
  split; [lia|]. exists ((p + (2 ^ k - 1)) / 2 ^ k). lia.
Qed.

Lemma bucket_quot s : 4 <= s -> let k := Z.log2 s in 2 <= k /\ 4 <= s / 2 ^ (k - 2) < 8 /\ 2 <= s / 2 ^ (k - 1) < 4.
Proof.
  intros Hs k. pose proof (Z.log2_spec s ltac:(lia)) as [H1 H2]. rewrite Z.pow_succ_r in H2 by (apply Z.log2_nonneg). fold k in H1, H2.
  assert (2 <= k) as Hk by (apply Z.log2_le_pow2; [lia|]; change (2 ^ 2) with 4; lia). split; [done|].
  assert (2 ^ (k - 1) = 2 * 2 ^ (k - 2)) as E1 by (replace (k - 1) with (Z.succ (k - 2)) by lia; rewrite Z.pow_succ_r; lia).
  assert (2 ^ k = 2 * 2 ^ (k - 1)) as E2 by (replace k with (Z.succ (k - 1)) at 1 by lia; rewrite Z.pow_succ_r; lia).
  assert (0 < 2 ^ (k - 2)) by lia. split; split; (apply Z.div_le_lower_bound || apply Z.div_lt_upper_bound); lia.
Qed.

(** The bucket of a size, by the position of its highest bit. *)
Lemma bucket_formula s : 128 <= s < 2 ^ 32 ->
  let k := Z.log2 s in 7 <= k < 32 /\
  bucket_index s = if k <? 12 then 4 * k - 18 + s / 2 ^ (k - 2) else Z.min (2 * k + 7 + s / 2 ^ (k - 1)) 63.
Proof.
  intros Hs k. destruct (bucket_quot s ltac:(lia)) as (_ & Hq1 & Hq2). fold k in Hq1, Hq2.
  assert (7 <= k) as Hk by (apply Z.log2_le_pow2; [lia|]; change (2 ^ 7) with 128; lia). assert (k < 32) as Hk' by (apply Z.log2_lt_pow2; lia). split; [done|].
  unfold bucket_index, clz. fold k. replace (s <? 128) with false by lia. cbv zeta. destruct (Z.ltb_spec k 12).
  - replace (19 <? 31 - k) with true by lia. rewrite Z.shiftl_mul_pow2, Z.shiftr_div_pow2 by lia. replace (29 - (31 - k)) with (k - 2) by lia. change (2 ^ 2) with 4.
    assert (Z.lxor (s / 2 ^ (k - 2)) 4 = s / 2 ^ (k - 2) - 4) as ->; [|lia]. remember (s / 2 ^ (k - 2)) as y. assert (y = 4 \/ y = 5 \/ y = 6 \/ y = 7) as [-> | [-> | [-> | ->]]] by lia; done.
  - replace (19 <? 31 - k) with false by lia. rewrite Z.shiftl_mul_pow2, Z.shiftr_div_pow2 by lia. replace (30 - (31 - k)) with (k - 1) by lia. change (2 ^ 1) with 2. unfold NUM_FREE_BUCKETS.
    assert (Z.lxor (s / 2 ^ (k - 1)) 2 = s / 2 ^ (k - 1) - 2) as ->; [|f_equal; lia]. remember (s / 2 ^ (k - 1)) as y. assert (y = 2 \/ y = 3) as [-> | ->] by lia; done.
Qed.

Lemma bucket_range s : 8 <= s < 2 ^ 32 -> 0 <= bucket_index s < 64.
Proof.
  intros Hs. destruct (Z.ltb_spec s 128).
  - unfold bucket_index. replace (s <? 128) with true by lia. rewrite Z.shiftr_div_pow2 by lia. change (2 ^ 3) with 8.
    assert (1 <= s / 8 < 16) by (split; [apply Z.div_le_lower_bound; lia|apply Z.div_lt_upper_bound; lia]). rewrite i32_small by lia. lia.
  - destruct (bucket_formula s ltac:(lia)) as [Hk ->]. destruct (bucket_quot s ltac:(lia)) as (_ & ? & ?). destruct (Z.ltb_spec (Z.log2 s) 12); lia.
Qed.

Lemma is_power_of_2 k : 0 <= k < 32 -> IS_POWER_OF_2 (2 ^ k) = true.
Proof.
  intros Hk. unfold IS_POWER_OF_2. apply Z.eqb_eq. assert (0 < 2 ^ k < 2 ^ 32) by (split; [lia|apply Z.pow_lt_mono_r; lia]). rewrite u32_small by lia.
  replace (2 ^ k - 1) with (Z.ones k) by (rewrite Z.ones_equiv; lia). rewrite Z.land_ones by lia. apply Z.mod_same. lia.
Qed.

Lemma align_4 n : 0 <= n -> n + 4 <= 2 ^ 32 -> n <= ALIGN_UP n 4 < n + 4 /\ (4 | ALIGN_UP n 4) /\ ((4 | n) -> ALIGN_UP n 4 = n).
Proof.
  intros H0 H1. destruct (align_up n 2) as [Ha Hd]; [lia|change (2 ^ 2) with 4; lia|lia|]. change (2 ^ 2) with 4 in *. split; [done|]. split; [done|].
  intros [c Hc]. destruct Hd as [d Hd]. lia.
Qed.
