(* ===== verification/EmmallocState.v ===== *)
(** * States of emmalloc

    The invariant of the state, what an operation may do to the regions of the
    program, and the rules for the accesses to memory. *)

From S2P Require Import Prelude Errno Emmalloc EmmallocInv EmmallocBits.

Section state.
Context `{LayoutLaws}.

(** ** Free regions *)

Lemma placed_nodup m a l : tiles m a l -> NoDup ((fun t => t.1.1) <$> placed a l).
Proof.
  revert a. induction l as [|[sz f] l IH]; intros a; cbn; [intros _; apply base.NoDup_nil_2|]. intros (_ & Hs & _ & _ & Ht). apply list.NoDup_cons. split; [|by apply IH].
  intros ([[x sx] fx] & Hx & Hin)%list_elem_of_fmap. cbn in Hx. destruct (placed_ok _ _ _ _ _ _ Ht Hin) as [[] _]. lia.
Qed.

Lemma all_nodup m lim h bs : heap_ok m lim h bs -> NoDup ((fun t => t.1.1) <$> all bs).
Proof.
  revert lim h. induction bs as [|[a l] bs IH]; intros lim h; [intros _; apply base.NoDup_nil_2|].
  intros (_ & Ha & Hd & Hl & _ & _ & Ht & _ & Hb). rewrite all_cons, fmap_app. apply list.NoDup_app. split; [by eapply placed_nodup|]. split; [|by eapply IH].
  intros x ([[y sy] fy] & -> & Hy)%list_elem_of_fmap ([[z sz] fz] & Ez & Hz)%list_elem_of_fmap. cbn in Ez.
  destruct (placed_ok _ _ _ _ _ _ Ht Hy) as [[] _], (all_ok _ _ _ _ _ _ _ Hb Hz) as [[] _]. lia.
Qed.

Lemma all_count m lim h bs : heap_ok m lim h bs -> 0 <= lim -> 16 * Z.of_nat (length (all bs)) <= lim.
Proof.
  pose proof buckets_pos. revert lim h. induction bs as [|[a l] bs IH]; intros lim h; [cbn; lia|].
  intros (_ & Ha & Hd & Hl & _ & _ & Ht & _ & Hb) _. unfold floor in Ha. specialize (IH _ _ Hb ltac:(lia)). rewrite all_cons, length_app.
  assert (length (placed a l) = length l) as -> by (clear; revert a; induction l as [|[sz f] l IH]; intros a; cbn; [done|by rewrite IH]).
  pose proof (tiles_total _ _ _ Ht). lia.
Qed.

Lemma free_starts (T : list (Z * Z * bool)) : sublist (omap free_tile T).*1 ((fun t => t.1.1) <$> T).
Proof. induction T as [|[[x sz] [|]] T IH]; cbn; by constructor. Qed.

Lemma frees_in bs x sz : (x, sz) ∈ frees bs <-> (x, sz, true) ∈ all bs.
Proof. apply elem_of_free. Qed.

Lemma heap_spread m lim h bs : heap_ok m lim h bs -> spread lim (frees bs).
Proof.
  intros Hh. split.
  - pose proof (all_nodup _ _ _ _ Hh) as Hn. pose proof (sublist_submseteq _ _ (free_starts (all bs))) as Hs. apply submseteq_Permutation in Hs as [k Hk].
    rewrite Hk in Hn. by apply list.NoDup_app in Hn as [? _].
  - intros x ([y sz] & -> & Hy%frees_in)%list_elem_of_fmap. destruct (all_ok _ _ _ _ _ _ _ Hh Hy) as [[] _]. cbn. lia.
  - intros x y ([x' sx] & -> & Hx%frees_in)%list_elem_of_fmap ([y' sy] & -> & Hy%frees_in)%list_elem_of_fmap. unfold apart. cbn.
    destruct (all_ok _ _ _ _ _ _ _ Hh Hx) as [[] _], (all_ok _ _ _ _ _ _ _ Hh Hy) as [[] _]. destruct (all_disjoint _ _ _ _ _ _ _ _ _ _ Hh Hx Hy) as [[= -> _]|]; lia.
Qed.

(** ** What changes *)

(** The links of a node. *)
Definition in_links (N : list Z) (b : Z) : Prop := exists v, v ∈ N /\ v + 4 <= b < v + 12.

(** [m'] is [m] but for the links of [N]. *)
Definition touched (N : list Z) (m m' : gmap Z Z) : Prop := forall b, ~ in_links N b -> peek m' b = peek m b.

Lemma touched_refl N m : touched N m m.
Proof. done. Qed.

Lemma touched_trans N m1 m2 m3 : touched N m1 m2 -> touched N m2 m3 -> touched N m1 m3.
Proof. intros H12 H23 b Hb. by rewrite H23, H12. Qed.

Lemma touched_mono N N' m m' : touched N m m' -> N ⊆ N' -> touched N' m m'.
Proof. intros Ht Hs b Hb. apply Ht. intros (v & Hv & ?). apply Hb. exists v. split; [by apply Hs|done]. Qed.

Lemma touched_store N m m' v z a : touched N m m' -> v ∈ N -> a = v + 4 \/ a = v + 8 -> touched N m (store32 m' a z).
Proof.
  intros Ht Hv Ha b Hb. rewrite peek_store_ne; [by apply Ht|]. destruct (Z.lt_ge_cases b a); [by left|]. destruct (Z.lt_ge_cases b (a + 4)); [|by right]. exfalso.
  apply Hb. exists v. split; [done|lia].
Qed.

Lemma touched_prev N m m' v z : touched N m m' -> v ∈ N -> touched N m (store32 m' (v + 4) z).
Proof. intros Ht Hv. apply (touched_store _ _ _ v); [done|done|by left]. Qed.

Lemma touched_next N m m' v z : touched N m m' -> v ∈ N -> touched N m (store32 m' (v + 8) z).
Proof. intros Ht Hv. apply (touched_store _ _ _ v); [done|done|by right]. Qed.

Lemma touched_load N m m' a : touched N m m' -> (forall v, v ∈ N -> a + 4 <= v + 4 \/ v + 12 <= a) -> load32 m' a = load32 m a.
Proof. intros Ht Ha. apply load_agree. intros b Hb. apply Ht. intros (v & Hv & ?). specialize (Ha v Hv). lia. Qed.

(** ** New regions on the ground of old ones *)

Section retile.
Context (m : gmap Z Z) (lim h : Z) (bs1 : list block) (a : Z) (l1 l2 l3 : list tile) (bs2 : list block).
Let X := a + total l1.
Let rest := others bs1 a l1 (total l2) l3 bs2.
Context (Hh : heap_ok m lim h (bs1 ++ (a, l1 ++ l2 ++ l3) :: bs2)).

Lemma rest_in t : t ∈ rest -> t ∈ all (bs1 ++ (a, l1 ++ l2 ++ l3) :: bs2).
Proof. intros Ht. rewrite all_split. apply elem_of_app. by right. Qed.

Lemma rest_ok y sy f : (y, sy, f) ∈ rest -> region_ok m floor lim y sy f.
Proof. intros Hy%rest_in. by destruct (all_ok _ _ _ _ _ _ _ Hh Hy). Qed.

Lemma here_ok : block_ok m lim a (l1 ++ l2 ++ l3).
Proof. apply (heap_block _ _ _ _ _ _ Hh). apply elem_of_app. right. left. Qed.

Lemma here_tiles : tiles m a l1 /\ tiles m X l2 /\ tiles m (X + total l2) l3.
Proof. destruct here_ok as [_ _ _ _ _ Ht _]. apply tiles_app in Ht as [T1 T23]. by apply tiles_app in T23. Qed.

Lemma rest_apart y sy f : (y, sy, f) ∈ rest -> y + sy <= X \/ X + total l2 <= y.
Proof.
  destruct here_tiles as (T1 & T2 & T3). destruct here_ok as [_ _ Hlim _ _ _ _]. rewrite !total_app in Hlim. pose proof (tiles_total _ _ _ T1). pose proof (tiles_total _ _ _ T3).
  unfold rest, others. rewrite !elem_of_app. intros [Hy|[Hy|[Hy|Hy]]].
  - clear Hlim. right. unfold X. revert lim h Hh. induction bs1 as [|[b l] bs IH]; intros lim' h' Hh'; [by apply elem_of_nil in Hy|].
    destruct Hh' as (_ & _ & _ & _ & _ & _ & Ht & _ & Hb). rewrite all_cons in Hy. apply elem_of_app in Hy as [Hy|Hy].
    + destruct (placed_ok _ _ _ _ _ _ Ht Hy) as [[] _]. destruct (heap_block _ _ _ _ a (l1 ++ l2 ++ l3) Hb) as [_ _ Hlim _ _ _ _]; [apply elem_of_app; right; left|].
      rewrite !total_app in Hlim. lia.
    + by apply (IH Hy b (load32 m (b + 4))).
  - destruct (placed_ok _ _ _ _ _ _ T1 Hy) as [[] _]. fold X in rok_hi. by left.
  - destruct (placed_ok _ _ _ _ _ _ T3 Hy) as [[] _]. by right.
  - left. assert (exists lim' h', heap_ok m lim' h' ((a, l1 ++ l2 ++ l3) :: bs2)) as (lim' & h' & Hh').
    { clear Hlim rest. revert lim h Hh. induction bs1 as [|[b l] bs IH]; intros lim' h' Hh'; [by exists lim', h'|]. destruct Hh' as (_ & _ & _ & _ & _ & _ & _ & _ & Hb). by apply (IH b (load32 m (b + 4))). }
    destruct Hh' as (_ & _ & _ & _ & _ & _ & _ & _ & Hb). destruct (all_ok _ _ _ _ _ _ _ Hb Hy) as [[] _]. unfold X. lia.
Qed.

Lemma root_rest r : r ∈ a :: bs1.*1 ++ bs2.*1 -> (r = a /\ l1 = []) \/ exists rs, (r, rs, false) ∈ rest.
Proof.
  unfold rest, others. intros [->|Hr]%elem_of_cons.
  - destruct here_ok as [_ _ _ (rs & mid & Hs) _ _ _]. destruct l1 as [|t l1']; [by left|right]. injection Hs as -> _. exists rs.
    apply elem_of_app. right. apply elem_of_app. left. cbn. left.
  - right. assert (exists l, (r, l) ∈ bs1 ++ bs2) as [l Hl].
    { rewrite <- fmap_app in Hr. apply list_elem_of_fmap in Hr as ([r' l] & -> & Hl). by exists l. }
    destruct (heap_block _ _ _ _ r l Hh) as [_ _ _ (rs & mid & ->) _ _ _]; [apply elem_of_app in Hl as [|]; apply elem_of_app; [by left|right; by right]|].
    exists rs. apply elem_of_app in Hl as [Hl|Hl]; [apply elem_of_app; left|do 3 (apply elem_of_app; right)];
      (apply list_elem_of_bind; eexists; split; [|exact Hl]; cbn; left).
Qed.

Context (m' : gmap Z Z) (l2' : list tile) (N : list Z).
Context (Hsame : forall b, b < X \/ X + total l2 <= b -> ~ in_links N b -> peek m' b = peek m b).
Context (HN : forall v, v ∈ N -> v + 16 <= floor \/ (exists sz, (v, sz, true) ∈ rest) \/ X <= v /\ v + 16 <= X + total l2).

Lemma rest_links y sy f b : (y, sy, f) ∈ rest -> y <= b < y + sy -> (f = true -> b < y + 4 \/ y + 12 <= b) -> peek m' b = peek m b.
Proof.
  intros Hy Hb Hf. pose proof (rest_apart _ _ _ Hy). destruct (rest_ok _ _ _ Hy). apply Hsame; [lia|]. intros (v & Hv & Hvb).
  destruct (HN v Hv) as [|[[sz Hz]|]]; [lia| |lia]. destruct (all_disjoint _ _ _ _ _ _ _ _ _ _ Hh (rest_in _ Hy) (rest_in _ Hz)) as [[= -> _ ->]|[|]]; [specialize (Hf eq_refl); lia|lia|].
  destruct (rest_ok _ _ _ Hz). lia.
Qed.

Lemma retile :
  total l2' = total l2 -> tiles m' X l2' -> shape (l1 ++ l2' ++ l3) -> no_adj (l1 ++ l2' ++ l3) ->
  (l1 = [] -> load32 m' (a + 4) = load32 m (a + 4) /\ load32 m' (a + 8) = load32 m (a + 8)) ->
  heap_ok m' lim h (bs1 ++ (a, l1 ++ l2' ++ l3) :: bs2).
Proof.
  intros Ht2 Ht Hs Hn Hroot. eapply heap_replace; [done..| |].
  - intros x sz f Hx. destruct (rest_ok _ _ _ Hx). split; apply load_agree; intros b Hb; apply (rest_links _ _ _ _ Hx); lia.
  - intros r Hr. destruct (root_rest r Hr) as [[-> ->]|[rs Hx]]; [by apply Hroot|]. destruct (rest_ok _ _ _ Hx). split; apply load_agree; intros b Hb; apply (rest_links _ _ _ _ Hx); (lia || done).
Qed.
End retile.

(** ** The regions of the program *)

Lemma blocks_disjoint m lim h bs a l a' l' :
  heap_ok m lim h bs -> (a, l) ∈ bs -> (a', l') ∈ bs -> (a, l) = (a', l') \/ a + total l <= a' \/ a' + total l' <= a.
Proof.
  revert lim h. induction bs as [|[b lb] bs IH]; intros lim h; [by intros _ ?%elem_of_nil|]. intros (_ & _ & _ & _ & _ & _ & _ & _ & Hb).
  intros [E|Ha]%elem_of_cons [E'|Ha']%elem_of_cons.
  - left. congruence.
  - injection E as -> ->. destruct (heap_block _ _ _ _ _ _ Hb Ha'). lia.
  - injection E' as -> ->. destruct (heap_block _ _ _ _ _ _ Hb Ha). lia.
  - by eapply IH.
Qed.

Lemma busy_intro m lim h bs a l x sz :
  heap_ok m lim h bs -> (a, l) ∈ bs -> (x, sz, false) ∈ placed a l -> x <> a -> x + sz < a + total l -> busy bs x sz.
Proof.
  intros Hh Ha Hx Hax Hend. split; [apply list_elem_of_bind; by exists (a, l)|].
  intros a' e ([a'' l'] & [= -> ->] & Hin)%list_elem_of_fmap. cbn [fst snd]. pose proof (bok_tiles _ _ _ _ (heap_block _ _ _ _ _ _ Hh Ha)) as Ht.
  destruct (placed_ok _ _ _ _ _ _ Ht Hx) as [[] _]. pose proof (tiles_total _ _ _ (bok_tiles _ _ _ _ (heap_block _ _ _ _ _ _ Hh Hin))).
  destruct (blocks_disjoint _ _ _ _ _ _ _ _ Hh Ha Hin) as [[= -> ->]|[|]]; lia.
Qed.

(** Every region of the program but those of [D] is kept, possibly larger, with its
    contents, and only those of [A] are new. *)
Record keeps (D A : list Z) (bs : list block) (m : gmap Z Z) (bs' : list block) (m' : gmap Z Z) : Prop := {
  kp_kept x sz : busy bs x sz -> x ∉ D -> exists sz', sz <= sz' /\ busy bs' x sz';
  kp_same x sz b : busy bs x sz -> x ∉ D -> x + 4 <= b < x + sz - 4 -> peek m' b = peek m b;
  kp_new x sz : busy bs' x sz -> x ∈ A \/ x ∉ D /\ exists sz', busy bs x sz';
}.

Lemma keeps_refl bs m : keeps [] [] bs m bs m.
Proof. split; [intros x sz Hx _; by exists sz|done|]. intros x sz Hx. right. split; [by intros ?%elem_of_nil|by exists sz]. Qed.

Lemma keeps_trans_l D A bs1 m1 bs2 m2 bs3 m3 : keeps [] [] bs1 m1 bs2 m2 -> keeps D A bs2 m2 bs3 m3 -> keeps D A bs1 m1 bs3 m3.
Proof.
  intros [K1 S1 N1] [K2 S2 N2]. split.
  - intros x sz Hx Hd. destruct (K1 x sz Hx) as (sz2 & ? & H2); [by intros ?%elem_of_nil|]. destruct (K2 x sz2 H2 Hd) as (sz3 & ? & H3). exists sz3. split; [lia|done].
  - intros x sz b Hx Hd Hb. destruct (K1 x sz Hx) as (sz2 & ? & H2); [by intros ?%elem_of_nil|]. rewrite (S2 x sz2 b); [|done|done|lia]. apply (S1 x sz b Hx); [by intros ?%elem_of_nil|done].
  - intros x sz Hx. destruct (N2 x sz Hx) as [|[Hd [sz2 H2]]]; [by left|right]. split; [done|]. by destruct (N1 x sz2 H2) as [?%elem_of_nil|[_ ?]].
Qed.

Lemma keeps_trans_r D A bs1 m1 bs2 m2 bs3 m3 : keeps D A bs1 m1 bs2 m2 -> keeps [] [] bs2 m2 bs3 m3 -> keeps D A bs1 m1 bs3 m3.
Proof.
  intros [K1 S1 N1] [K2 S2 N2]. split.
  - intros x sz Hx Hd. destruct (K1 x sz Hx Hd) as (sz2 & ? & H2). destruct (K2 x sz2 H2) as (sz3 & ? & H3); [by intros ?%elem_of_nil|]. exists sz3. split; [lia|done].
  - intros x sz b Hx Hd Hb. destruct (K1 x sz Hx Hd) as (sz2 & ? & H2). rewrite (S2 x sz2 b); [|done|by intros ?%elem_of_nil|lia]. by apply (S1 x sz b).
  - intros x sz Hx. destruct (N2 x sz Hx) as [?%elem_of_nil|[_ [sz2 H2]]]; [done|]. by apply (N1 x sz2).
Qed.

Lemma inside_busy m lim h bs1 a l1 l2 l3 bs2 x sz :
  heap_ok m lim h (bs1 ++ (a, l1 ++ l2 ++ l3) :: bs2) -> l3 <> [] -> (x, sz, false) ∈ placed (a + total l1) l2 -> x <> a ->
  busy (bs1 ++ (a, l1 ++ l2 ++ l3) :: bs2) x sz.
Proof.
  intros Hh Hl3 Hx Ha. destruct (here_tiles _ _ _ _ _ _ _ _ _ Hh) as (_ & T2 & T3). destruct (placed_ok _ _ _ _ _ _ T2 Hx) as [[] _].
  apply tiles_total in T3 as [T3 _]. destruct l3 as [|t l3']; [done|]. cbn [length] in T3.
  apply (busy_intro m lim h _ a (l1 ++ l2 ++ t :: l3')); [done|apply elem_of_app; right; left| |done|rewrite !total_app; lia].
  rewrite !placed_app. apply elem_of_app. right. apply elem_of_app. by left.
Qed.

Section retile_keeps.
Context (m m' : gmap Z Z) (lim h : Z) (bs1 : list block) (a : Z) (l1 l2 l2' l3 : list tile) (bs2 : list block) (N D A : list Z).
Let X := a + total l1.
Let rest := others bs1 a l1 (total l2) l3 bs2.
Let bs := bs1 ++ (a, l1 ++ l2 ++ l3) :: bs2.
Let bs' := bs1 ++ (a, l1 ++ l2' ++ l3) :: bs2.
Context (Hh : heap_ok m lim h bs) (Hh' : heap_ok m' lim h bs') (Ht : total l2' = total l2) (Hl3 : l3 <> []).
Context (Hsame : forall b, b < X \/ X + total l2 <= b -> ~ in_links N b -> peek m' b = peek m b).
Context (HN : forall v, v ∈ N -> v + 16 <= floor \/ (exists sz, (v, sz, true) ∈ rest) \/ X <= v /\ v + 16 <= X + total l2).

Lemma retile_keeps :
  (forall x sz, (x, sz, false) ∈ placed X l2 -> x <> a -> x ∉ D -> exists sz', sz <= sz' /\ (x, sz', false) ∈ placed X l2' /\ forall b, x + 4 <= b < x + sz - 4 -> peek m' b = peek m b) ->
  (forall x sz, (x, sz, false) ∈ placed X l2' -> x <> a -> x ∈ A \/ x ∉ D /\ exists sz', (x, sz', false) ∈ placed X l2) ->
  (forall x, x ∈ D -> X <= x < X + total l2) ->
  keeps D A bs m bs' m'.
Proof.
  intros Hkeep Hnew HD. assert (bounds bs' = bounds bs) as Eb by (by apply bounds_replace).
  assert (all bs ≡ₚ placed X l2 ++ rest) as Eo by (apply all_split). assert (all bs' ≡ₚ placed X l2' ++ rest) as En by (unfold rest; rewrite <- Ht; apply all_split).
  assert (forall x sz, busy bs x sz -> x <> a) as Hroot.
  { intros x sz [_ Hx]. apply (Hx a (a + total (l1 ++ l2 ++ l3))). unfold bounds, bs. rewrite fmap_app, fmap_cons. apply elem_of_app. right. left. }
  split.
  - intros x sz Hb Hd. pose proof (Hroot _ _ Hb) as Ha. destruct Hb as [Hx Hi]. rewrite Eo in Hx. apply elem_of_app in Hx as [Hx|Hx].
    + destruct (Hkeep x sz Hx Ha Hd) as (sz' & ? & Hx' & _). exists sz'. split; [done|by eapply inside_busy].
    + exists sz. split; [done|]. split; [rewrite En; apply elem_of_app; by right|by rewrite Eb].
  - intros x sz b Hb Hd Hbs. pose proof (Hroot _ _ Hb) as Ha. destruct Hb as [Hx Hi]. rewrite Eo in Hx. apply elem_of_app in Hx as [Hx|Hx].
    + destruct (Hkeep x sz Hx Ha Hd) as (sz' & ? & Hx' & Hp). by apply Hp.
    + apply (rest_links m lim h bs1 a l1 l2 l3 bs2 Hh m' N Hsame HN x sz false b Hx); [lia|done].
  - intros x sz [Hx Hi]. rewrite Eb in Hi. rewrite En in Hx. apply elem_of_app in Hx as [Hx|Hx].
    + assert (x <> a) as Ha.
      { apply (Hi a (a + total (l1 ++ l2 ++ l3))). unfold bounds, bs. rewrite fmap_app, fmap_cons. apply elem_of_app. right. left. }
      destruct (Hnew x sz Hx Ha) as [|[Hd [sz' Hx']]]; [by left|right]. split; [done|]. exists sz'. by eapply inside_busy.
    + right. split; [|exists sz; split; [rewrite Eo; apply elem_of_app; by right|done]]. intros Hd%HD. pose proof (rest_apart _ _ _ _ _ _ _ _ _ Hh _ _ _ Hx).
      destruct (rest_ok _ _ _ _ _ _ _ _ _ Hh _ _ _ Hx). unfold X in *. lia.
Qed.
End retile_keeps.
End state.
