(* ===== verification/EmmallocOps.v ===== *)
(** * Accesses and free lists of emmalloc

    The rules for loads, stores and the queries of a region; linking and
    unlinking of free regions. *)

From S2P Require Import Prelude Errno Emmalloc EmmallocInv EmmallocBits EmmallocState.

Section ops.
Context `{LayoutLaws}.

Definition limit (s : arena) : Z := pages s * PAGESIZE.

Lemma limit_mem m s : limit (set_mem m s) = limit s.
Proof. done. Qed.

(** ** Accesses *)

Lemma wp_load a (Q : Z -> arena -> Prop) s : 0 <= a -> a + 4 <= limit s -> Q (load32 (mem s) a) s -> wp (load a) Q s.
Proof. intros H1 H2 HQ. unfold wp, load, in_memory. unfold limit in H2. by replace ((0 <=? a) && (a + 4 <=? pages s * PAGESIZE)) with true by lia. Qed.

Lemma wp_store a v (Q : unit -> arena -> Prop) s : 0 <= a -> a + 4 <= limit s -> Q tt (set_mem (store32 (mem s) a v) s) -> wp (store a v) Q s.
Proof. intros H1 H2 HQ. unfold wp, store, in_memory. unfold limit in H2. by replace ((0 <=? a) && (a + 4 <=? pages s * PAGESIZE)) with true by lia. Qed.

Lemma wp_padd p n (Q : Z -> arena -> Prop) s : p + n < 2 ^ 32 -> Q (p + n) s -> wp (padd p n) Q s.
Proof. intros Hn HQ. unfold padd. replace (p + n <? 2 ^ 32) with true by lia. by apply wp_ret. Qed.

Lemma wp_psub p n (Q : Z -> arena -> Prop) s : n <= p -> Q (p - n) s -> wp (psub p n) Q s.
Proof. intros Hn HQ. unfold psub. replace (0 <=? p - n) with true by lia. by apply wp_ret. Qed.

Lemma wp_assert_that b (Q : unit -> arena -> Prop) s : wp b (fun x s' => x = true /\ Q tt s') s -> wp (assert_that b) Q s.
Proof. intros Hb. unfold assert_that. apply wp_bind. eapply wp_mono; [exact Hb|]. cbn. intros x s' [-> HQ]. by apply wp_assert. Qed.

(** Steps taken together. *)
Lemma wp_seq2 {B C} (m1 : M arena unit) (m2 : M arena B) (k : B -> M arena C) Q s : wp (m1 ;; m2) (fun b s' => wp (k b) Q s') s -> wp (m1 ;; (m2 ≫= k)) Q s.
Proof. unfold wp, mbind, M_bind. destruct (m1 s) as [[] s1|]; [|done]. by destruct (m2 s1). Qed.

Lemma wp_seq3 {B C} (m1 m2 : M arena unit) (m3 : M arena B) (k : B -> M arena C) Q s :
  wp (m1 ;; m2 ;; m3) (fun b s' => wp (k b) Q s') s -> wp (m1 ;; m2 ;; (m3 ≫= k)) Q s.
Proof. unfold wp, mbind, M_bind. destruct (m1 s) as [[] s1|]; [|done]. destruct (m2 s1) as [[] s2|]; [|done]. by destruct (m3 s2). Qed.

(** A region of the memory. *)
Record reg (s : arena) (x sz : Z) (f : bool) : Prop := {
  reg_pos : 0 < x;
  reg_size : (4 | sz);
  reg_min : 16 <= sz;
  reg_hi : x + sz <= limit s;
  reg_small : limit s < 2 ^ 32;
  reg_head : load32 (mem s) x = sz;
  reg_ceil : load32 (mem s) (x + sz - 4) = sz + Z.b2z f;
}.

Lemma ceiling_spec s x sz f (Q : Z -> arena -> Prop) : reg s x sz f -> Q (sz + Z.b2z f) s -> wp (region_ceiling_size x) Q s.
Proof.
  intros [] HQ. unfold region_ceiling_size, next_region. wp_steps. apply wp_load; [lia..|]. rewrite reg_head0. apply wp_padd; [lia|]. wp_steps. apply wp_psub; [lia|].
  apply wp_load; [lia..|]. by rewrite reg_ceil0.
Qed.

Lemma next_spec s x sz f (Q : Z -> arena -> Prop) : reg s x sz f -> Q (x + sz) s -> wp (next_region x) Q s.
Proof. intros [] HQ. unfold next_region. wp_steps. apply wp_load; [lia..|]. rewrite reg_head0. by apply wp_padd; [lia|]. Qed.

Lemma is_free_spec s x sz f (Q : bool -> arena -> Prop) : reg s x sz f -> Q f s -> wp (region_is_free x) Q s.
Proof. intros Hr HQ. unfold region_is_free. wp_steps. eapply ceiling_spec; [done|]. wp_steps. rewrite ceil_flag by apply Hr. done. Qed.

Lemma in_use_spec s x sz f (Q : bool -> arena -> Prop) : reg s x sz f -> Q (negb f) s -> wp (region_is_in_use x) Q s.
Proof.
  intros Hr HQ. unfold region_is_in_use. wp_steps. apply wp_load; [destruct Hr; lia..|]. wp_steps. eapply ceiling_spec; [done|]. wp_steps. rewrite (reg_head _ _ _ _ Hr).
  replace (sz =? sz + Z.b2z f) with (negb f); [done|]. destruct f; cbn; lia.
Qed.

Lemma reg_flag s x sz f : reg s x sz f -> 0 <= sz /\ sz + 1 < 2 ^ 32.
Proof. intros []. lia. Qed.

Lemma consistent_spec s x sz f (Q : bool -> arena -> Prop) : reg s x sz f -> Q true s -> wp (debug_region_is_consistent x) Q s.
Proof.
  intros Hr HQ. pose proof (reg_flag _ _ _ _ Hr). unfold debug_region_is_consistent, size_of_region_from_ceiling. wp_steps. apply wp_assert; [destruct Hr; lia|]. wp_steps.
  apply wp_load; [destruct Hr; lia..|]. wp_steps. eapply ceiling_spec; [done|]. wp_steps. rewrite ceil_size; [|apply Hr|lia..]. by rewrite (reg_head _ _ _ _ Hr), Z.eqb_refl.
Qed.

(** The region before. *)
Lemma prev_spec s x sz f (Q : Z -> arena -> Prop) : reg s x sz f -> Q x s -> wp (prev_region (x + sz)) Q s.
Proof.
  intros Hr HQ. pose proof (reg_flag _ _ _ _ Hr). unfold prev_region. wp_steps. destruct Hr. apply wp_psub; [lia|]. wp_steps. apply wp_load; [lia..|]. rewrite reg_ceil0, ceil_size by (done || lia).
  apply wp_psub; [lia|]. by replace (x + sz - sz) with x by lia.
Qed.

(** The memory after a region is written. *)
Definition create (m : gmap Z Z) (x sz : Z) (f : bool) : gmap Z Z := store32 (store32 m x sz) (x + sz - 4) (sz + Z.b2z f).

Lemma create_only m x sz f : 16 <= sz -> only x (x + sz) m (create m x sz f).
Proof. intros Hs. unfold create. apply only_store; [apply only_store; [apply only_refl|lia..]|lia..]. Qed.

Lemma create_inner m x sz f b : 16 <= sz -> x + 4 <= b < x + sz - 4 -> peek (create m x sz f) b = peek m b.
Proof. intros Hs Hb. unfold create. by rewrite !peek_store_ne by lia. Qed.

Lemma create_loads m x sz f : 16 <= sz -> x + sz < 2 ^ 32 -> 0 < x -> load32 (create m x sz f) x = sz /\ load32 (create m x sz f) (x + sz - 4) = sz + Z.b2z f.
Proof.
  intros Hs Hb Hx. unfold create. split; [rewrite load_store_ne, load_store_eq by lia; done|]. apply load_store_eq. destruct f; cbn; lia.
Qed.

Lemma create_spec x sz (f : bool) s (Q : unit -> arena -> Prop) :
  0 < x -> (4 | x) -> (4 | sz) -> 16 <= sz -> x + sz <= limit s -> limit s < 2 ^ 32 -> Q tt (set_mem (create (mem s) x sz f) s) ->
  wp (if f then create_free_region x sz else create_used_region x sz) Q s.
Proof.
  intros Hx Hx4 Hs4 Hs Hl H32 HQ. assert (4 * (sz / 4) = sz) as E by (destruct Hs4 as [k ->]; rewrite Z.div_mul by lia; lia).
  assert (forall v (Q' : unit -> arena -> Prop), Q' tt (set_mem (store32 (store32 (mem s) x sz) (x + sz - 4) v) s) ->
    wp (check_region x sz ;; store x sz ;; e ← padd x (4 * (sz / 4)); p ← psub e 4; store p v) Q' s) as Hgen.
  { intros v Q' HQ'. unfold check_region. wp_steps. apply wp_assert; [lia|]. wp_steps. apply wp_assert; [by apply aligned_4|]. wp_steps. apply wp_assert; [by apply aligned_4|].
    wp_steps. apply wp_assert; [unfold sizeof_Region; lia|]. wp_steps. apply wp_store; [lia..|]. wp_steps. rewrite E. apply wp_padd; [lia|]. wp_steps. apply wp_psub; [lia|].
    apply wp_store; [lia|rewrite ?limit_mem; lia|]. done. }
  unfold create in HQ. destruct f; [apply Hgen; by rewrite lor_flag|apply Hgen]. cbn [Z.b2z] in HQ. by rewrite Z.add_0_r in HQ.
Qed.

(** ** Free lists *)

Definition heads : list Z := (fun i => bucket_head (Z.of_nat i)) <$> seq 0 64.
Definition nodes (ls : list (list (Z * Z))) : list Z := heads ++ (concat ls).*1.

Lemma head_node ls i : (i < 64)%nat -> bucket_head (Z.of_nat i) ∈ nodes ls.
Proof. intros Hi. apply elem_of_app. left. apply (list_elem_of_fmap_2 (fun i => bucket_head (Z.of_nat i))), elem_of_seq. lia. Qed.

Lemma list_node ls i l v : ls !! i = Some l -> (i < 64)%nat -> v ∈ bucket_head (Z.of_nat i) :: l.*1 -> v ∈ nodes ls.
Proof. intros Hl Hi [->|Hv]%elem_of_cons; [by apply head_node|]. apply elem_of_app. right. exact (member_in ls i l v Hl Hv). Qed.

Lemma heads_low v : v ∈ heads -> 0 < v /\ v + 16 <= floor.
Proof. intros (i & -> & Hi%elem_of_seq)%list_elem_of_fmap. pose proof (head_range i ltac:(lia)). pose proof buckets_pos. lia. Qed.

(** The lists fit in the memory. *)
Record room (s : arena) (T : list (Z * Z)) : Prop := {
  rm_spread : spread (limit s) T;
  rm_floor : floor <= limit s;
  rm_small : limit s < 2 ^ 32;
}.

Lemma room_sub s T1 T2 : room s T1 -> T2 ⊆+ T1 -> room s T2.
Proof. intros [] Hs. split; [by eapply spread_sub|done..]. Qed.

Lemma list_facts s ls i l :
  room s (concat ls) -> length ls = 64%nat -> ls !! i = Some l -> let h := bucket_head (Z.of_nat i) in
  (forall v w, v ∈ h :: l.*1 -> w ∈ h :: l.*1 -> v = w \/ apart v w) /\ (forall v, v ∈ h :: l.*1 -> 0 < v /\ v + 16 <= limit s) /\
  NoDup (h :: l.*1) /\ (forall v, v ∈ h :: l.*1 -> 0 <= v < 2 ^ 32).
Proof.
  intros [Hsp Hf Hs] Hlen Hl h. pose proof (lookup_lt_Some _ _ _ Hl) as Li. rewrite Hlen in Li. pose proof (head_range i Li) as Hr. pose proof buckets_pos.
  assert (forall v, v ∈ h :: l.*1 -> 0 < v /\ v + 16 <= limit s) as Hrange.
  { intros v [->|Hv]%elem_of_cons; [unfold h; lia|]. pose proof (sp_range _ _ Hsp v (member_in _ _ _ _ Hl Hv)). unfold floor in *. lia. }
  split_and!.
  - intros v w Hv Hw. exact (nodes_apart (limit s) ls i i l l v w Hsp Hlen Hl Hl Hv Hw).
  - done.
  - apply list.NoDup_cons. split.
    + intros Hv. pose proof (sp_range _ _ Hsp _ (member_in _ _ _ _ Hl Hv)). unfold h in *. lia.
    + pose proof (sp_nodup _ _ Hsp) as Hn. destruct (concat_insert ls i l [] Hl) as (rest & Hp & _). rewrite Hp, fmap_app in Hn. by apply list.NoDup_app in Hn as [? _].
  - intros v Hv%Hrange. lia.
Qed.

Lemma other_links s ls i j l lj v w m z :
  room s (concat ls) -> length ls = 64%nat -> ls !! i = Some l -> ls !! j = Some lj -> j <> i ->
  w ∈ bucket_head (Z.of_nat i) :: l.*1 -> v ∈ bucket_head (Z.of_nat j) :: lj.*1 ->
  same_links m (store32 m (w + 4) z) v /\ same_links m (store32 m (w + 8) z) v.
Proof.
  intros [Hsp _ _] Hlen Hl Hj Hne Hw Hv. pose proof (other_apart _ _ _ _ _ _ _ _ Hsp Hlen Hne Hj Hl Hv Hw). split; [by apply same_links_prev|by apply same_links_next].
Qed.

Lemma room_mem m s T : room (set_mem m s) T <-> room s T.
Proof. split; intros []; by split. Qed.

Lemma unlink_spec s ls i l1 x sz l2 :
  lists_ok (mem s) (freeRegionBucketsUsed s) ls -> room s (concat ls) -> ls !! i = Some (l1 ++ (x, sz) :: l2) -> reg s x sz true ->
  wp (unlink_from_free_list x) (fun _ s' => exists m', s' = set_mem m' s /\ lists_ok m' (freeRegionBucketsUsed s) (<[i := l1 ++ l2]> ls) /\ touched (nodes ls) (mem s) m') s.
Proof.
  intros Hls Hroom Hi Hreg. pose proof (lo_len _ _ _ Hls) as Hlen. pose proof (lookup_lt_Some _ _ _ Hi) as Li. rewrite Hlen in Li. set (h := bucket_head (Z.of_nat i)).
  destruct (list_facts _ _ _ _ Hroom Hlen Hi) as (Hnodes & Hrange & Hnodup & Hpos). fold h in Hnodes, Hrange, Hnodup, Hpos.
  pose proof (lo_chain _ _ _ Hls i _ Hi) as Hc. fold h in Hc. rewrite fmap_app, fmap_cons in *. cbn [fst] in *.
  assert (chain (mem s) h l1.*1 x /\ chain (mem s) x l2.*1 h) as [C1 C2] by (by apply chain_app).
  set (p := before h l1.*1) in *. set (n := after l2.*1 h) in *. destruct (chain_before _ _ _ _ C1) as [E1 _], (chain_after _ _ _ _ C2) as [E2 _]. fold p in E1. fold n in E2.
  pose proof (node_x h l1.*1 l2.*1 x) as Hx. pose proof (node_1 h l1.*1 l2.*1 x p (before_in _ _)) as Hp. pose proof (node_2 h l1.*1 l2.*1 x n (after_in l2.*1 h)) as Hn.
  destruct (parts h l1.*1 l2.*1 x Hnodup) as (_ & _ & _ & X1 & X2 & _).
  assert (apart x p) as Axp by (destruct (Hnodes x p Hx Hp) as [->|]; [exfalso; apply X1, before_in|done]).
  pose proof (Hrange x Hx). pose proof (Hrange p Hp). pose proof (Hrange n Hn). unfold apart in Axp.
  unfold unlink_from_free_list, prev_ptr, next_ptr. wp_steps. apply wp_assert; [lia|]. wp_steps. apply wp_assert_that. eapply is_free_spec; [done|]. split; [done|]. wp_steps.
  apply wp_load; [lia..|]. rewrite E1. wp_steps. apply wp_assert; [lia|]. wp_steps. apply wp_load; [lia..|]. rewrite E2. wp_steps. apply wp_assert; [lia|]. wp_steps.
  apply wp_store; [lia..|]. wp_steps. apply wp_load; [lia|rewrite ?limit_mem; lia|]. wp_steps. apply wp_load; [lia|rewrite ?limit_mem; lia|]. cbn [set_mem mem]. rewrite !load_store_ne by lia. rewrite E1, E2.
  apply wp_store; [lia|rewrite ?limit_mem; lia|]. eexists. split; [reflexivity|]. cbn [mem set_mem freeRegionBucketsUsed]. split.
  - eapply lists_change; [done|done| | | |apply Hls|done|].
    + intros j lj v Hne Hj Hv. eapply same_links_trans; [eapply (other_links s ls i j)|eapply (other_links s ls i j)]; try done; rewrite fmap_app, fmap_cons; done.
    + fold h. rewrite fmap_app. by apply (unlink_chain h l1.*1 l2.*1 x).
    + intros t Ht. eapply (lo_bucket _ _ _ Hls); [done|]. apply elem_of_app in Ht as [|]; apply elem_of_app; [by left|right; by right].
    + intros _. eapply (lo_used _ _ _ Hls); [done|]. by destruct l1.
  - assert (forall v, v ∈ h :: l1.*1 ++ x :: l2.*1 -> v ∈ nodes ls) as Hin by (intros v Hv; eapply list_node; [done|done|]; by rewrite fmap_app, fmap_cons).
    apply touched_prev, Hin, Hn. apply touched_next, Hin, Hp. apply touched_refl.
Qed.

Definition bucket (sz : Z) : nat := Z.to_nat (bucket_index (sz - 8)).

Lemma bucket_of sz : 16 <= sz < 2 ^ 32 -> (bucket sz < 64)%nat /\ Z.of_nat (bucket sz) = bucket_index (sz - 8).
Proof. intros Hs. pose proof (bucket_range (sz - 8) ltac:(lia)). unfold bucket. lia. Qed.

Lemma bucket_spec sz (Q : Z -> arena -> Prop) s : 16 <= sz < 2 ^ 32 -> Q (Z.of_nat (bucket sz)) s -> wp (compute_free_list_bucket (sz - 8)) Q s.
Proof.
  intros Hs HQ. destruct (bucket_of sz Hs) as [Hb E]. rewrite E in HQ. pose proof (bucket_range (sz - 8) ltac:(lia)). unfold compute_free_list_bucket. wp_steps; [done|].
  apply wp_assert; [lia|]. wp_steps. apply wp_assert; [unfold NUM_FREE_BUCKETS; lia|]. by wp_steps.
Qed.

Lemma spread_insert s ls i l t :
  room s (t :: concat ls) -> ls !! i = Some l -> room s (concat (<[i := t :: l]> ls)) /\ room s (concat (<[i := l ++ [t]]> ls)).
Proof.
  intros Hr Hl. destruct (concat_insert ls i l (t :: l) Hl) as (r1 & E1 & E1'), (concat_insert ls i l (l ++ [t]) Hl) as (r2 & E2 & E2').
  split; (eapply room_sub; [exact Hr|]); [rewrite E1, E1'|rewrite E2, E2']; apply Permutation_submseteq; solve_Permutation.
Qed.

Lemma set_bit u i : 0 <= u < 2 ^ 64 -> (i < 64)%nat -> let u' := Z.lor u (Z.shiftl 1 (Z.of_nat i)) in
  0 <= u' < 2 ^ 64 /\ Z.testbit u' (Z.of_nat i) = true /\ forall j, Z.testbit u j = true -> Z.testbit u' j = true.
Proof.
  intros Hu Hi u'. assert (0 <= u') as Hp by (apply Z.lor_nonneg; split; [lia|apply Z.shiftl_nonneg; lia]). split_and!.
  - done.
  - destruct (Z.eq_dec u' 0); [lia|]. apply Z.log2_lt_pow2; [lia|]. unfold u'. rewrite Z.log2_lor, Z.log2_shiftl by (try apply Z.shiftl_nonneg; lia).
    change (Z.log2 1) with 0. apply Z.max_lub_lt; [|lia]. destruct (Z.eq_dec u 0) as [->|]; [cbn; lia|]. apply Z.log2_lt_pow2; lia.
  - unfold u'. rewrite Z.lor_spec, Z.shiftl_spec, Z.sub_diag by lia. apply orb_true_r.
  - intros j Hj. unfold u'. rewrite Z.lor_spec, Hj. done.
Qed.

Lemma link_spec s ls x sz l :
  lists_ok (mem s) (freeRegionBucketsUsed s) ls -> room s ((x, sz) :: concat ls) -> ls !! bucket sz = Some l -> load32 (mem s) x = sz -> 16 <= sz < 2 ^ 32 ->
  wp (link_to_free_list x) (fun _ s' => exists m' u', s' = set_used u' (set_mem m' s) /\ lists_ok m' u' (<[bucket sz := (x, sz) :: l]> ls) /\ touched (x :: nodes ls) (mem s) m') s.
Proof.
  intros Hls Hroom Hi Hhead Hs. pose proof (lo_len _ _ _ Hls) as Hlen. destruct (bucket_of sz Hs) as [Li Eb]. set (i := bucket sz) in *. set (h := bucket_head (Z.of_nat i)).
  destruct (spread_insert _ _ _ _ _ Hroom Hi) as [Hroom' _]. set (ls' := <[i := (x, sz) :: l]> ls) in *. assert (length ls' = 64%nat) as Hlen' by (unfold ls'; by rewrite length_insert).
  assert (ls' !! i = Some ((x, sz) :: l)) as Hi' by (apply list_lookup_insert_eq; lia).
  destruct (list_facts _ _ _ _ Hroom' Hlen' Hi') as (Hnodes & Hrange & Hnodup & Hpos). fold h in Hnodes, Hrange, Hnodup, Hpos. rewrite fmap_cons in *. cbn [fst] in *.
  pose proof (lo_chain _ _ _ Hls i _ Hi) as Hc. fold h in Hc. set (n := after l.*1 h). destruct (chain_after _ _ _ _ Hc) as [E1 _]. fold n in E1.
  assert (h ∈ h :: x :: l.*1) as Hh by left. assert (x ∈ h :: x :: l.*1) as Hx by (right; left).
  assert (n ∈ h :: x :: l.*1) as Hn by (apply (node_2 h [] l.*1 x n (after_in _ _))).
  destruct (parts h [] l.*1 x Hnodup) as (_ & _ & _ & X1 & X2 & _).
  assert (apart h x) as Ahx by (destruct (Hnodes h x Hh Hx) as [->|]; [exfalso; apply X1; left|done]). unfold apart in Ahx.
  pose proof (Hrange h Hh). pose proof (Hrange x Hx). pose proof (Hrange n Hn). pose proof (Hpos n Hn).
  unfold link_to_free_list, prev_ptr, next_ptr. wp_steps. apply wp_assert; [lia|]. wp_steps. apply wp_load; [lia..|]. wp_steps. rewrite Hhead. apply wp_assert; [unfold sizeof_Region; lia|].
  wp_steps. unfold REGION_HEADER_SIZE. rewrite u32_small by lia. apply bucket_spec; [done|]. fold i. cbv zeta. fold h. wp_steps. apply wp_store; [lia..|]. wp_steps. apply wp_load; [lia|rewrite ?limit_mem; lia|].
  wp_steps. cbn [set_mem mem]. rewrite load_store_ne by lia. rewrite E1. apply wp_store; [lia|rewrite ?limit_mem; lia|]. wp_steps. apply wp_assert; [lia|]. wp_steps. apply wp_store; [lia|rewrite ?limit_mem; lia|].
  wp_steps. apply wp_load; [lia|rewrite ?limit_mem; lia|]. wp_steps. cbn [set_mem mem]. rewrite load_store_ne, load_store_eq by lia. apply wp_store; [lia|rewrite ?limit_mem; lia|]. wp_steps.
  eexists _, _. split; [reflexivity|]. cbn [mem set_mem freeRegionBucketsUsed]. destruct (set_bit _ i (lo_bits _ _ _ Hls) Li) as (U1 & U2 & U3). split.
  - eapply lists_change; [done|done| | | |done|by intros j _ Hj; apply U3|done].
    + intros j lj v Hne Hj Hv. assert (ls' !! j = Some lj) as Hj' by (unfold ls'; by rewrite list_lookup_insert_ne).
      repeat (eapply same_links_trans; [|eapply (other_links s ls' i j); try done; rewrite fmap_cons; done]). by split.
    + fold h. rewrite fmap_cons. by apply link_chain.
    + intros t [->|Ht]%elem_of_cons; [done|]. by eapply (lo_bucket _ _ _ Hls).
  - assert (forall v, v ∈ h :: x :: l.*1 -> v ∈ x :: nodes ls) as Hin.
    { intros v [->|[->|Hv]%elem_of_cons]%elem_of_cons; [right; by apply head_node|left|right; eapply list_node; [done|done|by right]]. }
    apply touched_prev, Hin, Hn. apply touched_next, Hin, Hh. apply touched_next, Hin, Hx. apply touched_prev, Hin, Hx. apply touched_refl.
Qed.

Lemma prepend_spec s ls i x sz l :
  lists_ok (mem s) (freeRegionBucketsUsed s) ls -> room s ((x, sz) :: concat ls) -> ls !! i = Some l -> bucket_index (sz - 8) = Z.of_nat i ->
  Z.testbit (freeRegionBucketsUsed s) (Z.of_nat i) = true -> reg s x sz true ->
  wp (prepend_to_free_list x (bucket_head (Z.of_nat i)))
    (fun _ s' => exists m', s' = set_mem m' s /\ lists_ok m' (freeRegionBucketsUsed s) (<[i := l ++ [(x, sz)]]> ls) /\ touched (x :: nodes ls) (mem s) m') s.
Proof.
  intros Hls Hroom Hi Hb Hu Hreg. pose proof (lo_len _ _ _ Hls) as Hlen. pose proof (lookup_lt_Some _ _ _ Hi) as Li. rewrite Hlen in Li. set (h := bucket_head (Z.of_nat i)).
  destruct (spread_insert _ _ _ _ _ Hroom Hi) as [_ Hroom']. set (ls' := <[i := l ++ [(x, sz)]]> ls) in *. assert (length ls' = 64%nat) as Hlen' by (unfold ls'; by rewrite length_insert).
  assert (ls' !! i = Some (l ++ [(x, sz)])) as Hi' by (apply list_lookup_insert_eq; lia).
  destruct (list_facts _ _ _ _ Hroom' Hlen' Hi') as (Hnodes & Hrange & Hnodup & Hpos). fold h in Hnodes, Hrange, Hnodup, Hpos. rewrite fmap_app, fmap_cons in *. cbn [fst fmap list_fmap] in *.
  pose proof (lo_chain _ _ _ Hls i _ Hi) as Hc. fold h in Hc. set (p := before h l.*1). destruct (chain_before _ _ _ _ Hc) as [E1 _]. fold p in E1.
  assert (h ∈ h :: l.*1 ++ [x]) as Hh by left. pose proof (node_x h l.*1 [] x) as Hx. pose proof (node_1 h l.*1 [] x p (before_in _ _)) as Hp.
  destruct (parts h l.*1 [] x Hnodup) as (_ & _ & _ & X1 & X2 & _).
  assert (apart h x) as Ahx by (destruct (Hnodes h x Hh Hx) as [->|]; [exfalso; apply X1; left|done]). unfold apart in Ahx.
  pose proof (Hrange h Hh). pose proof (Hrange x Hx). pose proof (Hrange p Hp). pose proof (Hpos p Hp).
  unfold prepend_to_free_list, prev_ptr, next_ptr. wp_steps. apply wp_assert; [lia|]. wp_steps. apply wp_assert; [lia|]. wp_steps. apply wp_assert_that. eapply is_free_spec; [done|]. split; [done|]. wp_steps.
  apply wp_store; [lia..|]. wp_steps. apply wp_load; [lia|rewrite ?limit_mem; lia|]. wp_steps. cbn [set_mem mem]. rewrite load_store_ne by lia. rewrite E1.
  apply wp_store; [lia|rewrite ?limit_mem; lia|]. wp_steps. apply wp_assert; [lia|]. wp_steps. apply wp_store; [lia|rewrite ?limit_mem; lia|].
  wp_steps. apply wp_load; [lia|rewrite ?limit_mem; lia|]. wp_steps. cbn [set_mem mem]. rewrite load_store_ne, load_store_eq by lia. apply wp_store; [lia|rewrite ?limit_mem; lia|].
  eexists _. split; [reflexivity|]. cbn [mem set_mem freeRegionBucketsUsed]. split.
  - eapply lists_change; [done|done| | | |apply Hls|done|done].
    + intros j lj v Hne Hj Hv. assert (ls' !! j = Some lj) as Hj' by (unfold ls'; by rewrite list_lookup_insert_ne).
      repeat (eapply same_links_trans; [|eapply (other_links s ls' i j); try done; rewrite fmap_app; done]). by split.
    + fold h. rewrite fmap_app. by apply prepend_chain.
    + intros t [Ht| ->%list_elem_of_singleton]%elem_of_app; [by eapply (lo_bucket _ _ _ Hls)|done].
  - assert (forall v, v ∈ h :: l.*1 ++ [x] -> v ∈ x :: nodes ls) as Hin.
    { intros v [->|[Hv| ->%list_elem_of_singleton]%elem_of_app]%elem_of_cons; [right; by apply head_node|right; eapply list_node; [done|done|by right]|left]. }
    apply touched_next, Hin, Hp. apply touched_prev, Hin, Hh. apply touched_prev, Hin, Hx. apply touched_next, Hin, Hx. apply touched_refl.
Qed.

(** Stores that leave the links alone. *)
Lemma lists_frame m m' u ls : lists_ok m u ls -> (forall v, v ∈ nodes ls -> same_links m m' v) -> lists_ok m' u ls.
Proof.
  intros Hls Hs. destruct (lo_len _ _ _ Hls). split; try apply Hls. intros i l Hl. eapply chain_frame; [by apply Hls|]. intros v Hv. apply Hs.
  pose proof (lookup_lt_Some _ _ _ Hl) as Li. apply (list_node ls i l v Hl); [rewrite (lo_len _ _ _ Hls) in Li; lia|].
  rewrite app_comm_cons in Hv. apply elem_of_app in Hv as [|Hv%list_elem_of_singleton]; [done|]. subst. left.
Qed.
End ops.
