(* ===== verification/EmmallocSteps.v ===== *)
(** * The steps of emmalloc

    Regions are split, merged and handed out: each function that changes them
    keeps the invariant and the contents of the program's regions. *)

From S2P Require Import Prelude Errno Emmalloc EmmallocInv EmmallocBits EmmallocState EmmallocOps.

Section steps.
Context `{LayoutLaws}.

(** The state between two calls; [P] are the free regions that are in no list. *)
Record inv (P : list (Z * Z)) (bs : list block) (ls : list (list (Z * Z))) (s : arena) : Prop := {
  inv_heap : heap_ok (mem s) (limit s) (listOfAllRegions s) bs;
  inv_lists : lists_ok (mem s) (freeRegionBucketsUsed s) ls;
  inv_frees : frees bs ≡ₚ P ++ concat ls;
  inv_end : __heap_end <= limit s;
  inv_pages : pages s <= max_pages;
}.

Lemma inv_small P bs ls s : inv P bs ls s -> limit s < 2 ^ 32 /\ floor <= limit s.
Proof.
  intros []. pose proof max_pages_small. pose proof heap_order. pose proof buckets_below. unfold limit, PAGESIZE, floor in *. lia.
Qed.

Lemma inv_reg P bs ls s x sz f : inv P bs ls s -> (x, sz, f) ∈ all bs -> reg s x sz f /\ (4 | x) /\ floor <= x.
Proof.
  intros Hi Hx. pose proof (inv_small _ _ _ _ Hi). destruct Hi. destruct (all_ok _ _ _ _ _ _ _ inv_heap0 Hx) as [[] ?]. pose proof buckets_pos. unfold floor in *. split; [|done]. split; try done; lia.
Qed.

Lemma inv_room P bs ls s : inv P bs ls s -> room s (frees bs) /\ room s (concat ls).
Proof.
  intros Hi. pose proof (inv_small _ _ _ _ Hi). destruct Hi. assert (room s (frees bs)) as Hr by (split; [by eapply heap_spread|lia..]). split; [done|].
  eapply room_sub; [done|]. rewrite inv_frees0. apply submseteq_inserts_l. done.
Qed.

Lemma listed_free P bs ls s x sz : inv P bs ls s -> (x, sz) ∈ concat ls -> (x, sz, true) ∈ all bs.
Proof. intros Hi Hx. apply frees_in. rewrite (inv_frees _ _ _ _ Hi). apply elem_of_app. by right. Qed.

(** ** Lists of regions *)

Lemma all_find bs x sz f : (x, sz, f) ∈ all bs -> exists bs1 a l1 l3 bs2, bs = bs1 ++ (a, l1 ++ [(sz, f)] ++ l3) :: bs2 /\ x = a + total l1.
Proof.
  intros ([a l] & Hx & Hb)%list_elem_of_bind. apply list_elem_of_split in Hb as (bs1 & bs2 & ->). apply placed_split in Hx as (l1 & l3 & E & ->). cbn [fst snd] in *. subst l.
  by exists bs1, a, l1, l3, bs2.
Qed.

Lemma shape_mid l1 l2 l2' l3 : shape (l1 ++ l2 ++ l3) -> l3 <> [] -> (l1 = [] -> exists r k, l2' = (r, false) :: k) -> shape (l1 ++ l2' ++ l3).
Proof.
  intros (r & mid & E) Hl3 Hl1. destruct (exists_last Hl3) as (k3 & t & ->).
  assert (t = (16, false)) as ->.
  { rewrite !app_assoc, app_comm_cons in E. by apply app_inj_tail in E as [_ ?]. }
  destruct l1 as [|t l1].
  - destruct (Hl1 eq_refl) as (r' & k & ->). exists r', (k ++ k3). cbn. by rewrite app_assoc.
  - injection E as -> _. exists r, (l1 ++ l2' ++ k3). cbn. by rewrite !app_assoc.
Qed.

Lemma first_free_app l1 l2 : l1 <> [] -> first_free (l1 ++ l2) = first_free l1.
Proof. by destruct l1. Qed.

Lemma no_adj_mid l1 l2 l2' l3 :
  no_adj (l1 ++ l2 ++ l3) -> no_adj l2' -> l2' <> [] -> last_free l1 && first_free l2' = false -> last_free l2' && first_free l3 = false -> no_adj (l1 ++ l2' ++ l3).
Proof.
  rewrite !no_adj_app. intros (N1 & (_ & N3 & _) & _) N2 Hne E1 E2. rewrite first_free_app by done. tauto.
Qed.

(** The neighbours of a region inside a block. *)
Lemma free_inside m lim h bs1 a l1 sz l3 bs2 :
  heap_ok m lim h (bs1 ++ (a, l1 ++ [(sz, true)] ++ l3) :: bs2) ->
  exists k1 ps ns k3, l1 = k1 ++ [(ps, false)] /\ l3 = (ns, false) :: k3.
Proof.
  intros Hh. destruct (here_ok _ _ _ _ _ _ _ _ _ Hh) as [_ _ _ (r & mid & E) Hn _ _]. apply no_adj_app in Hn as (_ & N23 & E1). apply no_adj_app in N23 as (_ & _ & E2).
  destruct l1 as [|t l1]; [done|]. destruct (exists_last (l := t :: l1) ltac:(done)) as (k1 & [ps f] & E3). rewrite E3 in *. clear E3. exists k1, ps.
  assert (f = false) as ->. { revert E1. unfold last_free. rewrite last_snoc. cbn. by rewrite andb_true_r. }
  destruct l3 as [|[ns g] k3].
  - exfalso. rewrite app_comm_cons, app_nil_r in E. by apply app_inj_tail in E as [_ ?].
  - exists ns, k3. split; [done|]. assert (g = false) as -> by exact E2. done.
Qed.

Lemma busy_inside m lim h bs1 a l1 sz l3 bs2 :
  heap_ok m lim h (bs1 ++ (a, l1 ++ [(sz, false)] ++ l3) :: bs2) -> busy (bs1 ++ (a, l1 ++ [(sz, false)] ++ l3) :: bs2) (a + total l1) sz -> l1 <> [] /\ l3 <> [].
Proof.
  intros Hh [_ Hb]. destruct (Hb a (a + total (l1 ++ [(sz, false)] ++ l3))) as [H1 H2].
  { unfold bounds. rewrite fmap_app, fmap_cons. apply elem_of_app. right. left. }
  split; intros ->; [cbn in H1; lia|]. rewrite !total_app in H2. cbn in H2. lia.
Qed.

(** ** Links *)

Definition free_nodes (lim : Z) (bs : list block) (N : list Z) : Prop := forall v, v ∈ N -> v + 16 <= floor \/ (exists sz, (v, sz, true) ∈ all bs) \/ lim <= v.

Lemma not_linked m lim h bs N y sy f b :
  heap_ok m lim h bs -> free_nodes lim bs N -> (y, sy, f) ∈ all bs -> y <= b < y + sy -> (f = true -> b < y + 4 \/ y + 12 <= b) -> ~ in_links N b.
Proof.
  intros Hh HN Hy Hb Hf (v & Hv & Hvb). destruct (all_ok _ _ _ _ _ _ _ Hh Hy) as [[] _]. destruct (HN v Hv) as [|[[sz Hz]|]]; [lia| |lia].
  destruct (all_ok _ _ _ _ _ _ _ Hh Hz) as [[] _]. destruct (all_disjoint _ _ _ _ _ _ _ _ _ _ Hh Hy Hz) as [[= -> _ ->]|[|]]; [specialize (Hf eq_refl); lia|lia..].
Qed.

Lemma touched_heap m m' lim h bs N :
  heap_ok m lim h bs -> (forall b, b < lim -> ~ in_links N b -> peek m' b = peek m b) -> free_nodes lim bs N ->
  heap_ok m' lim h bs /\ forall x sz b, (x, sz, false) ∈ all bs -> x + 4 <= b < x + sz - 4 -> peek m' b = peek m b.
Proof.
  intros Hh Ht HN.
  assert (forall y sy f b, (y, sy, f) ∈ all bs -> y <= b < y + sy -> (f = true -> b < y + 4 \/ y + 12 <= b) -> peek m' b = peek m b) as Htile.
  { intros y sy f b Hy Hb Hf. destruct (all_ok _ _ _ _ _ _ _ Hh Hy) as [[] _]. apply Ht; [lia|]. by eapply not_linked. }
  split.
  - eapply heap_frame; [done| |].
    + intros x sz f Hx. destruct (all_ok _ _ _ _ _ _ _ Hh Hx) as [[] _]. split; apply load_agree; intros b Hb; eapply Htile; try done; lia.
    + intros a l Ha. destruct (root_in _ _ _ _ _ _ Hh Ha) as (r & Hr & ?). split; apply load_agree; intros b Hb; eapply Htile; (lia || done).
  - intros x sz b Hx Hb. eapply Htile; try done. lia.
Qed.

Lemma keeps_same bs m m' : (forall x sz b, (x, sz, false) ∈ all bs -> x + 4 <= b < x + sz - 4 -> peek m' b = peek m b) -> keeps [] [] bs m bs m'.
Proof.
  intros Hs. split; [intros x sz Hx _; by exists sz| |intros x sz Hx; right; split; [by intros ?%elem_of_nil|by exists sz]].
  intros x sz b [Hx _] _. by apply Hs.
Qed.

Lemma inv_nodes P bs ls s lim : inv P bs ls s -> free_nodes lim bs (nodes ls).
Proof.
  intros Hi v [Hv%heads_low|Hv]%elem_of_app; [left; lia|right; left]. apply list_elem_of_fmap in Hv as ([x sz] & -> & Hx). exists sz. by eapply listed_free.
Qed.

Lemma in_bucket (ls : list (list (Z * Z))) t : t ∈ concat ls -> exists i l1 l2, ls !! i = Some (l1 ++ t :: l2).
Proof.
  induction ls as [|l ls IH]; [by intros ?%elem_of_nil|]. cbn. intros [Hl|Hl]%elem_of_app.
  - apply list_elem_of_split in Hl as (l1 & l2 & ->). by exists 0%nat, l1, l2.
  - destruct (IH Hl) as (i & l1 & l2 & E). by exists (S i), l1, l2.
Qed.

Lemma unlink_inv P bs ls s x sz i l1 l2 :
  inv P bs ls s -> ls !! i = Some (l1 ++ (x, sz) :: l2) ->
  wp (unlink_from_free_list x) (fun _ s' => exists m', s' = set_mem m' s /\ inv ((x, sz) :: P) bs (<[i := l1 ++ l2]> ls) s' /\ keeps [] [] bs (mem s) bs m') s.
Proof.
  intros Hi Hx. destruct (inv_room _ _ _ _ Hi) as [_ Hroom]. assert ((x, sz, true) ∈ all bs) as Hin.
  { eapply listed_free; [done|]. eapply in_concat; [done|]. apply elem_of_app. right. left. }
  destruct (inv_reg _ _ _ _ _ _ _ Hi Hin) as [Hreg _]. eapply wp_mono; [eapply unlink_spec; [apply Hi|done..]|]. intros _ s' (m' & -> & Hls & Ht). exists m'. split; [done|].
  destruct (touched_heap _ m' _ _ _ _ (inv_heap _ _ _ _ Hi) (fun b _ => Ht b) (inv_nodes _ _ _ _ _ Hi)) as [Hh Hk]. split; [|by apply keeps_same]. destruct (concat_insert ls i _ (l1 ++ l2) Hx) as (rest & E1 & E2).
  destruct Hi. split; try done. rewrite inv_frees0, E1, E2. solve_Permutation.
Qed.

(** ** A place for new regions *)

(** Memory that no node lies in. *)
Record site (X T : Z) (ls : list (list (Z * Z))) (s : arena) : Prop := {
  si_lists : lists_ok (mem s) (freeRegionBucketsUsed s) ls;
  si_room : room s (concat ls);
  si_out v : v ∈ nodes ls -> v + 16 <= X \/ X + T <= v;
  si_floor : floor <= X;
  si_limit : X + T <= limit s;
}.

Section site.
Context (X T : Z) (ls : list (list (Z * Z))) (s : arena) (Hsite : site X T ls s).

Lemma ground_lists m' u : only X (X + T) (mem s) m' -> lists_ok (mem s) u ls -> lists_ok m' u ls.
Proof.
  intros Ho Hls. eapply lists_frame; [done|]. intros v Hv. pose proof (si_out _ _ _ _ Hsite v Hv). split; eapply only_load; try done; lia.
Qed.

(** A region of the ground goes into its list. *)
Lemma link_ground m1 r rs :
  only X (X + T) (mem s) m1 -> load32 m1 r = rs -> X <= r -> r + rs <= X + T -> 16 <= rs ->
  wp (link_to_free_list r) (fun _ s' => exists m2 u' ls', s' = set_used u' (set_mem m2 s) /\ lists_ok m2 u' ls' /\ concat ls' ≡ₚ (r, rs) :: concat ls /\
    nodes ls' ⊆ r :: nodes ls /\ touched (r :: nodes ls) m1 m2) (set_mem m1 s).
Proof.
  intros Ho Hr H1 H2 H3. pose proof (rm_small _ _ (si_room _ _ _ _ Hsite)) as H32. pose proof (si_floor _ _ _ _ Hsite) as Hf. pose proof (si_limit _ _ _ _ Hsite) as Hl. pose proof buckets_pos. unfold floor in Hf.
  assert (16 <= rs < 2 ^ 32) as Hrs by lia. destruct (bucket_of rs Hrs) as [Hb _]. pose proof (si_lists _ _ _ _ Hsite) as Hls.
  destruct (lookup_lt_is_Some_2 ls (bucket rs)) as [l Hlb]; [by rewrite (lo_len _ _ _ Hls)|].
  eapply wp_mono; [apply (link_spec (set_mem m1 s) ls r rs l)|]; [by apply ground_lists| |done|done|done|].
  - apply room_mem. destruct (si_room _ _ _ _ Hsite) as [[Sn Sr Sa] ? ?]. split; [|done..]. split.
    + rewrite fmap_cons. apply list.NoDup_cons. split; [|done]. cbn. intros Hin. assert (r ∈ nodes ls) as Hin' by (apply elem_of_app; by right). pose proof (si_out _ _ _ _ Hsite r Hin'). lia.
    + intros v [->|Hv]%elem_of_cons; [cbn; unfold floor; lia|by apply Sr].
    + assert (forall v, v ∈ (concat ls).*1 -> apart r v) as Hap by (intros v Hv; assert (v ∈ nodes ls) as Hv' by (apply elem_of_app; by right); pose proof (si_out _ _ _ _ Hsite v Hv'); unfold apart; lia).
      intros v w [->|Hv]%elem_of_cons [->|Hw]%elem_of_cons; [by left|right; by apply Hap| |by apply Sa]. right. specialize (Hap v Hv). unfold apart in *. cbn. lia.
  - intros _ s' (m' & u' & -> & Hok & Ht). exists m', u', (<[bucket rs := (r, rs) :: l]> ls). destruct (concat_insert ls (bucket rs) l ((r, rs) :: l) Hlb) as (rs' & E1 & E2).
    split_and!; [done|done|by rewrite E1, E2| |done]. intros v [Hv|Hv]%elem_of_app; [right; apply elem_of_app; by left|]. rewrite E2 in Hv. cbn in Hv.
    apply elem_of_cons in Hv as [->|Hv]; [left|right]. apply elem_of_app. right. rewrite E1. done.
Qed.

(** Off the ground only links change. *)
Definition beyond (m m' : gmap Z Z) : Prop := forall b, b < X \/ X + T <= b -> ~ in_links (nodes ls) b -> peek m' b = peek m b.

Lemma beyond_only m1 m2 m3 : beyond m1 m2 -> only X (X + T) m2 m3 -> beyond m1 m3.
Proof. intros Hb Ho b Hout Hn. rewrite Ho by done. by apply Hb. Qed.

(** A free region on the ground is written and goes into its list. *)
Lemma finish_free m0 r rs :
  only X (X + T) (mem s) m0 -> X <= r -> r + rs <= X + T -> 16 <= rs -> (4 | r) -> (4 | rs) ->
  wp (create_free_region r rs ;; link_to_free_list r) (fun _ s' => exists m2 u' ls', s' = set_used u' (set_mem m2 s) /\ lists_ok m2 u' ls' /\
    concat ls' ≡ₚ (r, rs) :: concat ls /\ nodes ls' ⊆ r :: nodes ls /\ beyond (mem s) m2 /\ tiles m2 r [(rs, true)] /\
    forall b, X <= b < X + T -> b < r \/ r + rs <= b -> peek m2 b = peek m0 b) (set_mem m0 s).
Proof.
  intros Ho H1 H2 H3 H4 H5. pose proof (rm_small _ _ (si_room _ _ _ _ Hsite)) as H32. pose proof (si_floor _ _ _ _ Hsite) as Hf. pose proof (si_limit _ _ _ _ Hsite) as Hl. pose proof buckets_pos. unfold floor in Hf.
  wp_steps. apply (create_spec r rs true); [lia|done|done|lia|rewrite limit_mem; lia|rewrite limit_mem; lia|]. cbn [mem set_mem]. set (m1 := create m0 r rs true).
  destruct (create_loads m0 r rs true) as [E1 E2]; [lia..|]. fold m1 in E1, E2. assert (only r (r + rs) m0 m1) as O1 by (by apply create_only).
  assert (only X (X + T) (mem s) m1) as O2 by (eapply only_trans; [done|]; intros b Hb; apply O1; lia).
  eapply wp_mono; [apply (link_ground m1 r rs); done|]. intros _ s' (m2 & u' & ls' & -> & Hls & Hc & Hsub & Ht). exists m2, u', ls'.
  assert (forall b, X <= b < X + T -> b < r + 4 \/ r + 12 <= b -> peek m2 b = peek m1 b) as Hin.
  { intros b Hb Hr. apply Ht. intros (v & [->|Hv]%elem_of_cons & Hvb); [lia|]. pose proof (si_out _ _ _ _ Hsite v Hv). lia. }
  split_and!; try done.
  - intros b Hb Hn. rewrite Ht; [by apply O2|]. intros (v & [->|Hv]%elem_of_cons & Hvb); [lia|]. apply Hn. by exists v.
  - cbn [tiles]. split_and!; try done; [rewrite <- E1|rewrite <- E2]; apply load_agree; intros b Hb; apply Hin; lia.
  - intros b Hb Hr. rewrite Hin by lia. apply O1. lia.
Qed.

(** Stores after that keep the lists, off the links of the new region. *)
Lemma late_lists r lo hi m2 m3 u' ls' :
  lists_ok m2 u' ls' -> nodes ls' ⊆ r :: nodes ls -> only lo hi m2 m3 -> X <= lo -> hi <= X + T -> hi <= r + 4 \/ r + 12 <= lo -> lists_ok m3 u' ls'.
Proof.
  intros Hls Hsub Ho H1 H2 H3. eapply lists_frame; [done|]. intros v [->|Hv]%Hsub%elem_of_cons; [split; eapply only_load; try done; lia|].
  pose proof (si_out _ _ _ _ Hsite v Hv). split; eapply only_load; try done; lia.
Qed.

(** The end of the ground is split in a used region and a free one. *)
Lemma finish_split m0 y us rs :
  only X (X + T) (mem s) m0 -> X <= y -> y + us + rs = X + T -> 16 <= us -> 16 <= rs -> (4 | y) -> (4 | us) -> (4 | rs) ->
  wp (create_free_region (y + us) rs ;; link_to_free_list (y + us) ;; create_used_region y us) (fun _ s' => exists m3 u' ls', s' = set_used u' (set_mem m3 s) /\
    lists_ok m3 u' ls' /\ concat ls' ≡ₚ (y + us, rs) :: concat ls /\ beyond (mem s) m3 /\ tiles m3 y [(us, false); (rs, true)] /\
    forall b, X <= b < y \/ y + 4 <= b < y + us - 4 -> peek m3 b = peek m0 b) (set_mem m0 s).
Proof.
  intros Ho H1 H2 H3 H4 H5 H6 H7. pose proof (rm_small _ _ (si_room _ _ _ _ Hsite)) as H32. pose proof (si_floor _ _ _ _ Hsite) as Hf. pose proof (si_limit _ _ _ _ Hsite) as Hl. pose proof buckets_pos. unfold floor in Hf.
  apply wp_seq2. eapply wp_mono; [apply (finish_free m0 (y + us) rs Ho); [lia|lia|lia|by apply Z.divide_add_r|done]|].
  intros _ s' (m2 & u' & ls' & -> & Hls & Hc & Hsub & Hb & (_ & _ & E1 & E2 & _) & Hin).
  apply (create_spec y us false); [lia|done|done|lia|unfold limit in *; cbn [pages set_used set_mem]; lia|unfold limit in *; cbn [pages set_used set_mem]; lia|]. cbn [mem set_used set_mem].
  set (m3 := create m2 y us false). assert (only y (y + us) m2 m3) as O3 by (by apply create_only). destruct (create_loads m2 y us false) as [E3 E4]; [lia..|]. fold m3 in E3, E4.
  exists m3, u', ls'. split_and!.
  - done.
  - eapply late_lists; [done|done|done|lia..].
  - done.
  - eapply beyond_only; [done|]. intros b Hb'. apply O3. lia.
  - cbn [tiles]. split_and!; try done; [rewrite <- E1|rewrite <- E2]; apply (only_load _ _ _ _ _ O3); lia.
  - intros b [Hby|Hby]; [rewrite O3 by lia; apply Hin; lia|]. unfold m3. rewrite create_inner by lia. apply Hin; lia.
Qed.

(** The rest of the ground is given out, or split. *)
Lemma carve_spec m0 y F size :
  only X (X + T) (mem s) m0 -> X <= y -> y + F = X + T -> (4 | y) -> (4 | F) -> (4 | size) -> 8 <= size -> 8 + size <= F -> load32 m0 y = F ->
  wp (carve y size) (fun p s' => p = y + 4 /\ exists sz tl m3 u' ls', s' = set_used u' (set_mem m3 s) /\ lists_ok m3 u' ls' /\
    concat ls' ≡ₚ omap free_tile (placed y ((sz, false) :: tl)) ++ concat ls /\ beyond (mem s) m3 /\ tiles m3 y ((sz, false) :: tl) /\ sz + total tl = F /\ 8 + size <= sz /\
    (tl = [] \/ exists rs, tl = [(rs, true)]) /\ forall b, X <= b < y -> peek m3 b = peek m0 b) (set_mem m0 s).
Proof.
  intros Ho H1 H2 H3 H4 H5 H6 H7 Hh. pose proof (rm_small _ _ (si_room _ _ _ _ Hsite)) as H32. pose proof (si_floor _ _ _ _ Hsite) as Hf. pose proof (si_limit _ _ _ _ Hsite) as Hl. pose proof buckets_pos. unfold floor in Hf.
  unfold carve, next_region, sizeof_Region, REGION_HEADER_SIZE. wp_steps; (apply wp_load; [lia|rewrite limit_mem; lia|]); cbn [mem set_mem]; rewrite Hh; wp_steps.
  - match goal with E : _ = true |- _ => rewrite u32_small in E by lia end. apply wp_padd; [lia|]. rewrite !u32_small by lia. replace (size + 8) with (8 + size) by lia.
    eapply wp_mono; [apply (finish_split m0 y (8 + size) (F - size - 8)); try done; try lia|].
    + apply Z.divide_add_r; [by exists 2|done].
    + replace (F - size - 8) with (F - (size + 8)) by lia. apply Z.divide_sub_r; [done|]. apply Z.divide_add_r; [done|by exists 2].
    + intros _ s' (m3 & u' & ls' & -> & Hls & Hc & Hb & Ht & Hin). apply wp_padd; [lia|]. split; [done|]. exists (8 + size), [(F - size - 8, true)], m3, u', ls'.
      split_and!; try done; [cbn [total]; lia|right; by eexists|]. intros b Hby. apply Hin. by left.
  - apply wp_load; [lia|rewrite limit_mem; lia|]. cbn [mem set_mem]. rewrite Hh. apply wp_padd; [lia|]. wp_steps. apply wp_psub; [lia|].
    apply wp_store; [lia|rewrite limit_mem; lia|]. apply wp_padd; [lia|]. cbn [mem set_mem]. split; [done|].
    set (m3 := store32 m0 (y + F - 4) F). assert (only X (X + T) (mem s) m3) as O3 by (apply only_store; [done|lia..]).
    exists F, [], m3, (freeRegionBucketsUsed s), ls. split_and!; try done; try lia.
    + apply ground_lists; [done|apply Hsite].
    + by intros b Hb _; apply O3.
    + cbn [tiles]. split_and!; try done; [lia|unfold m3; by rewrite load_store_ne by lia|]. unfold m3. rewrite load_store_eq by lia. cbn. lia.
    + cbn; lia.
    + by left.
    + intros b Hb. unfold m3. apply peek_store_ne. lia.
Qed.
End site.

(** ** New regions on the ground of old ones *)

Section commit.
Context (P : list (Z * Z)) (bs1 : list block) (a : Z) (l1 l2 l3 : list tile) (bs2 : list block) (ls : list (list (Z * Z))) (s : arena).
Let X := a + total l1.
Let rest := others bs1 a l1 (total l2) l3 bs2.
Let bs := bs1 ++ (a, l1 ++ l2 ++ l3) :: bs2.
Context (Hi : inv P bs ls s) (HP : P ≡ₚ omap free_tile (placed X l2)).

Lemma rest_listed : concat ls ≡ₚ omap free_tile rest.
Proof.
  pose proof (inv_frees _ _ _ _ Hi) as Hf. unfold frees in Hf. assert (all bs ≡ₚ placed X l2 ++ rest) as E by (apply all_split). rewrite E, omap_app, HP in Hf. symmetry.
  by eapply Permutation_app_inv_l.
Qed.

(** The nodes are not on the ground. *)
Lemma node_rest v : v ∈ nodes ls -> v + 16 <= floor \/ exists sz, (v, sz, true) ∈ rest.
Proof.
  intros [Hv%heads_low|Hv]%elem_of_app; [left; lia|right]. apply list_elem_of_fmap in Hv as ([x sz] & -> & Hx). exists sz. rewrite rest_listed in Hx. by apply elem_of_free.
Qed.

Lemma ground : floor <= X /\ X + total l2 <= limit s /\ (4 | X).
Proof.
  destruct (here_ok _ _ _ _ _ _ _ _ _ (inv_heap _ _ _ _ Hi)) as [Hf Ha Hl _ _ _ _]. destruct (here_tiles _ _ _ _ _ _ _ _ _ (inv_heap _ _ _ _ Hi)) as (T1 & _ & T3).
  pose proof (tiles_total _ _ _ T1) as [? ?]. pose proof (tiles_total _ _ _ T3). rewrite !total_app in Hl. unfold X. split; [lia|]. split; [lia|]. by apply Z.divide_add_r.
Qed.

Lemma node_out v : v ∈ nodes ls -> v + 16 <= X \/ X + total l2 <= v.
Proof.
  intros Hv. pose proof ground. destruct (node_rest v Hv) as [|[sz Hz]]; [lia|]. pose proof (rest_apart _ _ _ _ _ _ _ _ _ (inv_heap _ _ _ _ Hi) _ _ _ Hz) as Hz'.
  destruct (rest_ok _ _ _ _ _ _ _ _ _ (inv_heap _ _ _ _ Hi) _ _ _ Hz). fold X in Hz'. lia.
Qed.

Lemma commit_site : site X (total l2) ls s.
Proof. pose proof ground as (Hf & Hl & _). split; [apply Hi|by eapply inv_room|apply node_out|done|done]. Qed.

Lemma commit D A m' u' ls' l2' :
  beyond X (total l2) ls (mem s) m' -> lists_ok m' u' ls' -> concat ls' ≡ₚ omap free_tile (placed X l2') ++ concat ls ->
  total l2' = total l2 -> l3 <> [] -> tiles m' X l2' -> shape (l1 ++ l2' ++ l3) -> no_adj (l1 ++ l2' ++ l3) ->
  (l1 = [] -> load32 m' (a + 4) = load32 (mem s) (a + 4) /\ load32 m' (a + 8) = load32 (mem s) (a + 8)) ->
  (forall x sz, (x, sz, false) ∈ placed X l2 -> x <> a -> x ∉ D -> exists sz', sz <= sz' /\ (x, sz', false) ∈ placed X l2' /\ forall b, x + 4 <= b < x + sz - 4 -> peek m' b = peek (mem s) b) ->
  (forall x sz, (x, sz, false) ∈ placed X l2' -> x <> a -> x ∈ A \/ x ∉ D /\ exists sz', (x, sz', false) ∈ placed X l2) ->
  (forall x, x ∈ D -> X <= x < X + total l2) ->
  let bs' := bs1 ++ (a, l1 ++ l2' ++ l3) :: bs2 in
  inv [] bs' ls' (set_used u' (set_mem m' s)) /\ keeps D A bs (mem s) bs' m'.
Proof.
  intros Hsame Hls Hc Ht Hl3 Htiles Hs Hn Hroot K1 K2 K3 bs'. pose proof (inv_heap _ _ _ _ Hi) as Hh.
  assert (forall v, v ∈ nodes ls -> v + 16 <= floor \/ (exists sz, (v, sz, true) ∈ rest) \/ X <= v /\ v + 16 <= X + total l2) as HN.
  { intros v Hv. destruct (node_rest v Hv); [by left|right; by left]. }
  assert (heap_ok m' (limit s) (listOfAllRegions s) bs') as Hh' by exact (retile _ _ _ _ _ _ _ _ _ Hh m' l2' (nodes ls) Hsame HN Ht Htiles Hs Hn Hroot).
  split; [|exact (retile_keeps _ _ _ _ _ _ _ _ l2' _ _ (nodes ls) D A Hh Hh' Ht Hl3 Hsame HN K1 K2 K3)].
  split; [done|done| |apply Hi|apply Hi]. unfold frees. assert (all bs' ≡ₚ placed X l2' ++ rest) as E by (unfold rest; rewrite <- Ht; apply all_split). rewrite E, omap_app, Hc, rest_listed. done.
Qed.

End commit.
End steps.
