(* ===== verification/EmmallocClaim.v ===== *)
(** * Claiming memory in emmalloc

    New memory comes from the initial heap or from [sbrk]; it extends the last
    block or starts a new one. *)

From S2P Require Import Prelude Errno Emmalloc EmmallocInv EmmallocBits EmmallocState EmmallocOps EmmallocSteps.

Section claim.
Context `{LayoutLaws}.

(** ** The range of the new memory *)

(** The memory [st, en) lies above all blocks. *)
Record claimed (bs : list block) (ls : list (list (Z * Z))) (s : arena) (st en : Z) (s0 : arena) : Prop := {
  cl_inv : inv [] bs ls s0;
  cl_mem : mem s0 = mem s;
  cl_below : heap_ok (mem s0) st (listOfAllRegions s0) bs;
  cl_floor : floor <= st;
  cl_st : (4 | st);
  cl_en : (4 | en);
  cl_limit : en <= limit s0;
  cl_less : bs = [] /\ grows s0 = grows s \/ (length (grows s0) < length (grows s))%nat;
}.

(** No memory: the state but for the answers of the host and [errno]. *)
Definition refused (s s' : arena) : Prop :=
  exists g, s' = Arena (mem s) (listOfAllRegions s) (freeRegionBucketsUsed s) (pages s) g ENOMEM /\ (length g <= length (grows s))%nat.

Lemma round_pages n : 0 <= n -> n + 65535 < 2 ^ 32 ->
  exists q, Z.land (u32 (n + (PAGESIZE - 1))) (u32 (- PAGESIZE)) = q * 65536 /\ n <= q * 65536 < n + 65536.
Proof.
  intros H0' H1. replace (u32 (- PAGESIZE)) with (u32 (Z.lnot (u32 (2 ^ 16 - 1)))) by done. unfold PAGESIZE. rewrite (u32_small (n + _)), land_mask by lia.
  exists ((n + (65536 - 1)) / 65536). change (2 ^ 16) with 65536. pose proof (Z_div_mod_eq_full (n + (65536 - 1)) 65536). pose proof (Z.mod_pos_bound (n + (65536 - 1)) 65536 ltac:(lia)). lia.
Qed.

Lemma sbrk_spec q s : 0 < q -> q * 65536 < 2 ^ 31 -> 0 <= pages s <= max_pages ->
  wp (sbrk (q * 65536)) (fun r s' => r = 2 ^ 32 - 1 /\ refused s s' \/
    r = limit s /\ pages s + q <= max_pages /\ exists g, grows s = true :: g /\ s' = Arena (mem s) (listOfAllRegions s) (freeRegionBucketsUsed s) (pages s + q) g (arena_errno s)) s.
Proof.
  intros Hq Hq' Hp. pose proof max_pages_small. unfold sbrk, PAGESIZE. rewrite Z.rem_mul, Z.quot_mul by lia. replace (q * 65536 =? 0) with false by lia. replace (q * 65536 <? 0) with false by lia. cbn [negb Z.eqb].
  assert (forall g, (length g <= length (grows s))%nat -> wp (old ← mret (u32 (-1)); if old =? u32 (-1)
      then modify (fun s => Arena (mem s) (listOfAllRegions s) (freeRegionBucketsUsed s) (pages s) (grows s) ENOMEM) ;; mret (u32 (-1)) else mret (u32 (old * 65536)))
    (fun r s' => r = 2 ^ 32 - 1 /\ refused s s' \/ r = limit s /\ pages s + q <= max_pages /\ exists g, grows s = true :: g /\ s' = Arena (mem s) (listOfAllRegions s) (freeRegionBucketsUsed s) (pages s + q) g (arena_errno s))
    (Arena (mem s) (listOfAllRegions s) (freeRegionBucketsUsed s) (pages s) g (arena_errno s))) as Hfail.
  { intros g Hg. wp_steps; [|done]. left. split; [done|]. by exists g. }
  unfold memory_grow. destruct (grows s) as [|[|] g] eqn:Eg.
  - destruct s as [m l u p g e]. cbn in *. subst g. apply (Hfail []). done.
  - destruct (Z.leb_spec (pages s + q) max_pages) as [Hle|Hgt].
    + unfold wp, mbind, M_bind. rewrite Eg. replace (pages s + q <=? max_pages) with true by lia. replace (pages s =? u32 (-1)) with false by (change (u32 (-1)) with (2 ^ 32 - 1); lia).
      cbn. right. split; [rewrite u32_small by lia; done|]. split; [done|]. by exists g.
    + unfold wp, mbind, M_bind. rewrite Eg. replace (pages s + q <=? max_pages) with false by lia. apply (Hfail g). cbn; lia.
  - unfold wp, mbind, M_bind. rewrite Eg. apply (Hfail g). cbn; lia.
Qed.

Lemma heap_mono m lim lim' h bs : heap_ok m lim h bs -> lim <= lim' -> heap_ok m lim' h bs.
Proof. destruct bs as [|[a l] bs]; [done|]. cbn [heap_ok]. intros (? & ? & ? & ? & Hr) Hl. split; [done|]. split; [done|]. split; [done|]. split; [lia|exact Hr]. Qed.

Lemma heap_null m lim h bs : heap_ok m lim h bs -> h = 0 <-> bs = [].
Proof.
  intros Hh. destruct bs as [|[a l] bs]; [done|]. destruct Hh as (-> & Ha & _). pose proof buckets_pos. unfold floor in Ha. split; [lia|done].
Qed.

Lemma range_spec bs ls s n : inv [] bs ls s -> 48 <= n -> n + 65536 <= 2 ^ 31 ->
  wp (claim_range n) (fun r s' => match r with None => refused s s' | Some (st, en) => st + n <= en /\ claimed bs ls s st en s' end) s.
Proof.
  intros Hi Hn Hn'. pose proof (inv_small _ _ _ _ Hi) as [H32 Hfl]. pose proof heap_order as Hord. pose proof heap_aligned as [? ?]. pose proof buckets_below. pose proof (heap_null _ _ _ _ (inv_heap _ _ _ _ Hi)) as Hnull.
  pose proof buckets_pos. pose proof max_pages_small. unfold claim_range. wp_steps; [lia|..].
  - assert (bs = []) as -> by (apply Hnull; lia). split; [lia|]. split; try done; [by apply Hnull|apply Hi|by left].
  - destruct (round_pages n) as (q & -> & Hq); [lia..|]. rewrite i32_small by lia. eapply wp_mono; [apply (sbrk_spec q s); [lia|lia|]|].
    { pose proof (inv_pages _ _ _ _ Hi). unfold limit, PAGESIZE, floor in Hfl. lia. }
    intros r s' [[-> Href]|(-> & Hp & g & Eg & ->)].
    + change (i32 (2 ^ 32 - 1) =? -1) with true. by wp_steps.
    + assert (4 | limit s) as Hl4 by (exists (pages s * 16384); unfold limit, PAGESIZE; lia).
      replace (i32 (limit s) =? -1) with false.
      2:{ symmetry. apply Z.eqb_neq. destruct Hl4 as [c Hc]. unfold i32. intros E. rewrite Hc in E. revert E. Z.div_mod_to_equations; lia. }
      wp_steps. apply wp_assert; [by apply aligned_4|]. wp_steps. unfold limit, PAGESIZE in *. apply wp_padd; [lia|]. wp_steps. split; [lia|]. split; cbn [mem listOfAllRegions pages grows]; try done.
      * destruct Hi. split; try done; unfold limit, PAGESIZE in *; cbn [pages mem listOfAllRegions] in *; [|lia]. eapply heap_mono; [done|lia].
      * apply Hi.
      * by apply Z.divide_add_r; [|exists (q * 16384); lia].
      * unfold limit, PAGESIZE. cbn [pages]. lia.
      * right. rewrite Eg. cbn. lia.
Qed.

(** ** The blocks *)

(** The state after memory was claimed. *)
Definition extended (bs : list block) (s0 : arena) (s' : arena) : Prop :=
  exists bs' ls', inv [] bs' ls' s' /\ keeps [] [] bs (mem s0) bs' (mem s') /\ bs' <> [] /\ grows s' = grows s0.

Lemma claimed_site bs ls s st en s0 : claimed bs ls s st en s0 -> site st (en - st) ls s0.
Proof.
  intros [Hi Hm Hb Hf _ _ Hl _]. split; [apply Hi|by eapply inv_room| |done|lia]. intros v Hv. left. destruct (inv_nodes _ _ _ _ (limit s0) Hi v Hv) as [|[[sz Hz]|Hv']]; [lia| |].
  - destruct (all_ok _ _ _ _ _ _ _ Hb Hz) as [[] _]. lia.
  - exfalso. apply elem_of_app in Hv as [Hv%heads_low|Hv]; [pose proof (inv_small _ _ _ _ Hi); lia|]. destruct (inv_room _ _ _ _ Hi) as [_ [[_ Hr _] _ _]]. specialize (Hr v Hv). lia.
Qed.

Lemma shape_three r x : shape [(r, false); x; (16, false)].
Proof. by exists r, [x]. Qed.

(** A block of its own. *)
Lemma block_commit bs ls s st en s0 m' u' ls' :
  let F := en - 32 - st in
  claimed bs ls s st en s0 -> st + 56 <= en -> lists_ok m' u' ls' -> concat ls' ≡ₚ (st + 16, F) :: concat ls -> beyond st (en - st) ls (mem s0) m' ->
  tiles m' st [(16, false); (F, true); (16, false)] -> load32 m' (st + 4) = listOfAllRegions s0 -> load32 m' (st + 8) = en ->
  extended bs s0 (set_used u' (set_mem m' (set_list st s0))).
Proof.
  intros F Hcl Hn Hls Hc Hb Ht E1 E2. pose proof Hcl as [Hi Hm Hbe Hf Hs4 He4 Hl _].
  destruct (touched_heap (mem s0) m' st (listOfAllRegions s0) bs (nodes ls) Hbe) as [Hh' Hsame]; [intros b Hb' Hnl; apply Hb; [lia|done]|by eapply inv_nodes|].
  set (bs' := (st, [(16, false); (F, true); (16, false)]) :: bs). exists bs', ls'. cbn [mem set_used set_mem set_list grows]. split_and!; [|split|done|done].
  - destruct Hi. split; cbn [mem set_used set_mem set_list listOfAllRegions freeRegionBucketsUsed pages]; try done.
    + unfold bs'. cbn [heap_ok]. rewrite E1, E2. unfold limit in *. cbn [pages set_used set_mem set_list total]. repeat (split; [first [done | lia | apply shape_three]|]). done.
    + unfold frees, bs'. rewrite all_cons, omap_app. cbn [placed omap list_omap free_tile app]. unfold frees in inv_frees. rewrite inv_frees, Hc. done.
  - intros x sz [Hx Hbd] _. exists sz. split; [done|]. destruct (all_ok _ _ _ _ _ _ _ Hbe Hx) as [[] _]. split; [unfold bs'; rewrite all_cons; apply elem_of_app; by right|].
    intros a e [[= -> ->]|Hae]%elem_of_cons; [cbn [total]; lia|by apply Hbd].
  - intros x sz b [Hx _] _. by apply Hsame.
  - intros x sz [Hx Hbd]. right. split; [by intros ?%elem_of_nil|]. exists sz. split; [|intros a e Hae; apply Hbd; by right].
    destruct (Hbd st en) as [Hne1 Hne2]; [unfold bounds, bs'; cbn [fmap list_fmap fst snd total]; replace (st + _) with en by (unfold F; lia); left|].
    unfold bs' in Hx. rewrite all_cons in Hx. apply elem_of_app in Hx as [Hx|]; [exfalso|done]. cbn [placed] in Hx.
    apply elem_of_cons in Hx as [[= -> ->]|Hx]; [done|]. apply elem_of_cons in Hx as [[=]|Hx]. apply list_elem_of_singleton in Hx as [= -> ->]. unfold F in Hne2. lia.
Qed.

Lemma new_block bs ls s st en s0 :
  claimed bs ls s st en s0 -> st + 56 <= en ->
  wp (create_used_region st sizeof_Region ;; store (root_next st) (listOfAllRegions s0) ;; store (root_endPtr st) en ;; modify (set_list st) ;;
      startPtr ← padd st sizeof_Region; claim_free startPtr (en - 16)) (fun ok s' => ok = true /\ extended bs s0 s') (set_mem (create (mem s0) (en - 16) 16 false) s0).
Proof.
  intros Hcl Hn. pose proof (claimed_site _ _ _ _ _ _ Hcl) as Hsite. pose proof Hcl as [Hi Hm Hbe Hf Hs4 He4 Hl _]. pose proof (inv_small _ _ _ _ Hi) as [H32 _]. pose proof buckets_pos. unfold floor in Hf.
  assert (0 <= listOfAllRegions s0 < 2 ^ 32) as Hlist.
  { destruct bs as [|[a l] bs]; [cbn in Hbe; lia|]. destruct Hbe as (-> & Ha & _ & Hle & _ & _ & Ht & _). pose proof (tiles_total _ _ _ Ht). unfold floor in Ha. lia. }
  unfold sizeof_Region, root_next, root_endPtr, claim_free. wp_steps. apply (create_spec st 16 false); [lia|done|by exists 4|lia|rewrite limit_mem; lia|rewrite limit_mem; lia|].
  wp_steps. apply wp_store; [lia|rewrite !limit_mem; lia|]. wp_steps. apply wp_store; [lia|rewrite !limit_mem; lia|]. wp_steps. apply wp_padd; [lia|]. rewrite u32_small by lia.
  replace (en - 16 - (st + 16)) with (en - 32 - st) by lia. cbn [mem set_mem]. set (m1 := create (mem s0) (en - 16) 16 false). set (m2 := create m1 st 16 false).
  set (m4 := store32 (store32 m2 (st + 4) _) (st + 8) en). assert (site st (en - st) ls (set_list st s0)) as Hsite' by (destruct Hsite as [? [] ? ? ?]; by split).
  change (set_list st _) with (set_mem m4 (set_list st s0)). apply wp_seq2.
  destruct (create_loads (mem s0) (en - 16) 16 false) as [A1 A2]; [lia..|]. destruct (create_loads m1 st 16 false) as [A3 A4]; [lia..|]. fold m1 in A1, A2. fold m2 in A3, A4.
  assert (only st (st + (en - st)) (mem s0) m4) as Ho.
  { unfold m4. apply only_store; [apply only_store|lia..]; [|lia..]. eapply only_trans; [|intros b Hb; apply (create_only m1 st 16 false); lia]. intros b Hb. apply (create_only (mem s0) (en - 16) 16 false); lia. }
  eapply wp_mono; [apply (finish_free _ _ _ _ Hsite' m4 (st + 16) (en - 32 - st) Ho); [lia..| |]|].
  - apply Z.divide_add_r; [done|by exists 4].
  - apply Z.divide_sub_r; [apply Z.divide_sub_r; [done|by exists 8]|done].
  - intros _ s' (m5 & u' & ls' & -> & Hls & Hc & _ & Hb & Ht & Hin). wp_steps. split; [done|]. cbn [tiles] in Ht. destruct Ht as (T1 & T2 & T3 & T4 & _).
    assert (forall c, st <= c -> c + 4 <= en -> c + 4 <= st + 16 \/ en - 16 <= c -> load32 m5 c = load32 m4 c) as Hld by (intros c ? ? ?; apply load_agree; intros b Hb'; apply Hin; lia).
    assert (forall c, c + 4 <= st + 4 \/ st + 12 <= c -> load32 m4 c = load32 m2 c) as Hld4 by (intros c Hc4; unfold m4; rewrite !load_store_ne by lia; done).
    assert (forall c, st + 16 <= c -> load32 m2 c = load32 m1 c) as Hld2 by (intros c Hc2; apply (only_load st (st + 16)); [apply (create_only m1 st 16 false)|]; lia).
    apply (block_commit _ _ _ _ _ _ _ _ _ Hcl Hn Hls Hc Hb).
    + cbn [tiles]. replace (st + 16 + (en - 32 - st)) with (en - 16) in * by lia. repeat (split; [first [done | lia | by exists 4 | by eauto]|]).
      rewrite (Hld st), Hld4, A3 by lia. split; [done|]. rewrite (Hld (st + 16 - 4)), Hld4, A4 by lia. split; [done|]. split; [done|]. split; [lia|]. split; [done|]. split; [done|].
      split; [by exists 4|]. split; [lia|]. rewrite (Hld (en - 16)), Hld4, Hld2, A1 by lia. split; [done|]. rewrite (Hld (en - 16 + 16 - 4)), Hld4, Hld2, A2 by lia. done.
    + rewrite Hld by lia. unfold m4. rewrite load_store_ne, load_store_eq by lia. done.
    + rewrite Hld by lia. unfold m4. rewrite load_store_eq by lia. done.
Qed.

(** The last block grows: the regions [g] at its end and its sentinel become part
    of one free region. *)
Section extend.
Context (a : Z) (k g : list tile) (bs2 : list block) (ls : list (list (Z * Z))) (s s0 : arena) (en : Z).
Let bs := (a, k ++ g ++ [(16, false)]) :: bs2.
Let X := a + total k.
Let st := X + total g + 16.
Let F := en - 16 - X.
Let bs' := (a, k ++ [(F, true); (16, false)]) :: bs2.
Context (Hcl : claimed bs ls s st en s0) (Hk : k <> []) (Hkf : last_free k = false) (Hg : g = [] \/ exists ps, g = [(ps, true)]) (Hn : st + 56 <= en).

Lemma extend_parts : tiles (mem s0) a k /\ shape (k ++ g ++ [(16, false)]) /\ no_adj k /\ heap_ok (mem s0) a (load32 (mem s0) (a + 4)) bs2 /\ a + 16 <= X.
Proof.
  pose proof (cl_below _ _ _ _ _ _ Hcl) as (_ & _ & _ & _ & Hs & Hna & Ht & _ & Hb). apply tiles_app in Ht as [Ht _]. apply no_adj_app in Hna as [Hna _].
  split_and!; try done. pose proof (tiles_total _ _ _ Ht) as [Htot _]. unfold X. destruct k; [done|]. cbn [length] in Htot. lia.
Qed.

(** A region other than the first starts after it. *)
Lemma after_root y sy f : (y, sy, f) ∈ placed a k -> y = a \/ a + 16 <= y.
Proof.
  intros Hy. destruct extend_parts as (Ht & _). destruct k as [|[r fr] k']; [done|]. cbn in Hy. apply elem_of_cons in Hy as [[= -> _ _]|Hy]; [by left|right].
  cbn in Ht. destruct Ht as (_ & Hr & _ & _ & Ht). destruct (placed_ok _ _ _ _ _ _ Ht Hy) as [[] _]. lia.
Qed.

Lemma root_first : exists r, (a, r, false) ∈ placed a k /\ 16 <= r.
Proof.
  destruct extend_parts as (Ht & (r & mid & E) & _). destruct k as [|t k']; [done|]. injection E as -> _. exists r. split; [left|]. cbn in Ht. tauto.
Qed.

Section extend_mem.
Context (m' : gmap Z Z) (Hm : forall b, b < X -> ~ in_links (nodes ls) b -> b < a + 8 \/ a + 12 <= b -> peek m' b = peek (mem s0) b).

Lemma extend_byte y sy f b : (y, sy, f) ∈ placed a k -> y <= b < y + sy -> (f = true -> b < y + 4 \/ y + 12 <= b) -> b < a + 8 \/ a + 12 <= b -> peek m' b = peek (mem s0) b.
Proof.
  intros Hy Hb Hf Ha. destruct extend_parts as (Ht & _). destruct (placed_ok _ _ _ _ _ _ Ht Hy) as [[] _]. fold X in rok_hi. apply Hm; [lia| |done].
  apply (not_linked _ _ _ bs (nodes ls) y sy f b (cl_below _ _ _ _ _ _ Hcl)); [by eapply inv_nodes, Hcl| |done|done]. unfold bs. rewrite all_cons, placed_app. apply elem_of_app. left. apply elem_of_app. by left.
Qed.

Lemma extend_rest : heap_ok m' a (load32 (mem s0) (a + 4)) bs2 /\ forall x sz b, (x, sz, false) ∈ all bs2 -> x + 4 <= b < x + sz - 4 -> peek m' b = peek (mem s0) b.
Proof.
  destruct extend_parts as (_ & _ & _ & Hb & HX). apply (touched_heap _ _ _ _ _ (nodes ls) Hb); [intros b Hb' Hl; apply Hm; [lia|done|lia]|].
  intros v Hv. destruct (inv_nodes _ _ _ _ (limit s0) (cl_inv _ _ _ _ _ _ Hcl) v Hv) as [|[[sz Hz]|Hlim]]; [by left| |].
  - unfold bs in Hz. rewrite all_cons in Hz. apply elem_of_app in Hz as [Hz|]; [right; right|right; left; by exists sz].
    pose proof (cl_below _ _ _ _ _ _ Hcl) as (_ & _ & _ & _ & _ & _ & Ht & _). by destruct (placed_ok _ _ _ _ _ _ Ht Hz) as [[] _].
  - right. right. pose proof (cl_below _ _ _ _ _ _ Hcl) as (_ & _ & _ & Hl & _ & _ & Ht & _). pose proof (tiles_total _ _ _ Ht). pose proof (cl_limit _ _ _ _ _ _ Hcl). unfold st in *. lia.
Qed.

Lemma extend_heap : load32 m' (a + 8) = en -> tiles m' X [(F, true); (16, false)] -> heap_ok m' (limit s0) (listOfAllRegions s0) bs'.
Proof.
  intros E8 Htn. destruct extend_parts as (Ht & Hs & Hna & Hb & HX). destruct extend_rest as [Hrest _].
  pose proof (cl_below _ _ _ _ _ _ Hcl) as (Hh & Hf & Ha4 & _ & _ & _ & Htall & _). pose proof (cl_limit _ _ _ _ _ _ Hcl).
  assert (load32 m' (a + 4) = load32 (mem s0) (a + 4)) as E4.
  { destruct root_first as (r & Hr & Hr16). apply load_agree. intros b Hb'. apply (extend_byte a r false); [done|lia|done|lia]. }
  unfold bs'. cbn [heap_ok]. rewrite E4, E8, total_app. cbn [total]. assert (a + (total k + (F + (16 + 0))) = en) as -> by (unfold F, X; lia).
  split_and!; try done.
  - replace (k ++ [(F, true); (16, false)]) with (k ++ [(F, true)] ++ [(16, false)]) by done. eapply shape_mid; [exact Hs|done|]. done.
  - apply no_adj_app. cbn. rewrite Hkf. done.
  - apply tiles_app. split; [|done]. eapply tiles_frame; [done|]. intros x sz f Hx. destruct (placed_ok _ _ _ _ _ _ Ht Hx) as [[] _].
    destruct (after_root _ _ _ Hx); split; apply load_agree; intros b Hb'; (apply (extend_byte x sz f); [done|lia..]).
Qed.

Lemma extend_keeps : keeps [] [] bs (mem s0) bs' m'.
Proof.
  destruct extend_parts as (Ht & _ & _ & Hb & HX). destruct extend_rest as [_ Hsame]. pose proof (cl_below _ _ _ _ _ _ Hcl) as (_ & _ & _ & _ & _ & _ & Htall & _).
  assert (total g >= 0) as Hg0 by (apply tiles_app in Htall as [_ Htall]; apply tiles_app in Htall as [Htall _]; apply tiles_total in Htall; lia).
  assert (forall x sz, (x, sz, false) ∈ all bs -> x + sz <> st -> (x, sz, false) ∈ placed a k \/ (x, sz, false) ∈ all bs2) as Hold.
  { intros x sz Hx Hne. unfold bs in Hx. rewrite all_cons in Hx. apply elem_of_app in Hx as [Hx|]; [left|by right]. rewrite !placed_app in Hx. apply elem_of_app in Hx as [|Hx]; [done|exfalso].
    apply elem_of_app in Hx as [Hx|Hx%list_elem_of_singleton]; [|injection Hx as -> ->; apply Hne; unfold st, X; lia].
    destruct Hg as [->|[ps ->]]; [by apply elem_of_nil in Hx|by apply list_elem_of_singleton in Hx]. }
  assert (bounds bs = (a, st) :: bounds bs2) as Eb by (unfold bounds, bs; rewrite fmap_cons; cbn [fst snd]; rewrite !total_app; cbn [total]; do 2 f_equal; unfold st, X; lia).
  assert (bounds bs' = (a, en) :: bounds bs2) as Eb' by (unfold bounds, bs'; rewrite fmap_cons; cbn [fst snd]; rewrite !total_app; cbn [total]; do 2 f_equal; unfold F, X; lia).
  assert (forall x sz, (x, sz, false) ∈ placed a k \/ (x, sz, false) ∈ all bs2 -> x + sz <= X) as Hend.
  { intros x sz [Hx|Hx]; [by destruct (placed_ok _ _ _ _ _ _ Ht Hx) as [[] _]|]. destruct (all_ok _ _ _ _ _ _ _ Hb Hx) as [[] _]. lia. }
  split.
  - intros x sz [Hx Hbd] _. rewrite Eb in Hbd. destruct (Hbd a st) as [? Hne]; [left|]. specialize (Hold x sz Hx Hne). exists sz. split; [done|]. split.
    + unfold bs'. rewrite all_cons, placed_app. apply elem_of_app. destruct Hold; [left; apply elem_of_app; by left|by right].
    + rewrite Eb'. specialize (Hend x sz Hold). intros c e [[= -> ->]|Hc]%elem_of_cons; [unfold st in *; lia|]. apply Hbd. by right.
  - intros x sz b [Hx Hbd] _ Hb'. rewrite Eb in Hbd. destruct (Hbd a st) as [Hxa Hne]; [left|]. destruct (Hold x sz Hx Hne) as [Hx'|Hx']; [|by eapply Hsame].
    destruct (after_root _ _ _ Hx'); [done|]. apply (extend_byte x sz false); [done|lia|done|lia].
  - intros x sz [Hx Hbd]. right. split; [by intros ?%elem_of_nil|]. exists sz. rewrite Eb' in Hbd. destruct (Hbd a en) as [Hxa Hne]; [left|].
    assert ((x, sz, false) ∈ placed a k \/ (x, sz, false) ∈ all bs2) as Hx'.
    { unfold bs' in Hx. rewrite all_cons, placed_app in Hx. apply elem_of_app in Hx as [Hx|]; [left|by right]. apply elem_of_app in Hx as [|Hx]; [done|exfalso]. cbn in Hx.
      apply elem_of_cons in Hx as [[=]|Hx]. apply list_elem_of_singleton in Hx as [= -> ->]. unfold F, X in Hne. lia. }
    split.
    + unfold bs. rewrite all_cons, placed_app. apply elem_of_app. destruct Hx'; [left; apply elem_of_app; by left|by right].
    + rewrite Eb. specialize (Hend x sz Hx'). intros c e [[= -> ->]|Hc]%elem_of_cons; [unfold st in *; lia|]. apply Hbd. by right.
Qed.
End extend_mem.

(** The memory with the new sentinel and the new end of the block. *)
Let m2 := store32 (create (mem s0) (en - 16) 16 false) (a + 8) en.

Lemma extend_bounds : floor <= a /\ a + 16 <= X /\ 0 <= total g /\ en <= limit s0 /\ limit s0 < 2 ^ 32 /\ (4 | X) /\ (4 | F).
Proof.
  destruct extend_parts as (Ht & _ & _ & _ & HX). pose proof (cl_below _ _ _ _ _ _ Hcl) as (_ & Hf & Ha4 & _ & _ & _ & Htall & _).
  pose proof (inv_small _ _ _ _ (cl_inv _ _ _ _ _ _ Hcl)) as [? _]. pose proof (cl_limit _ _ _ _ _ _ Hcl). apply tiles_app in Htall as [_ Htall]. apply tiles_app in Htall as [Hgt _].
  pose proof (tiles_total _ _ _ Hgt) as [? _]. pose proof (tiles_total _ _ _ Ht) as [_ Htk]. assert (4 | X) by (by apply Z.divide_add_r). split_and!; try done; try lia.
  apply Z.divide_sub_r; [apply Z.divide_sub_r; [apply Hcl|by exists 4]|done].
Qed.

(** The nodes, after those of [g] are unlinked, lie below. *)
Lemma extend_below ls1 v : concat ls ≡ₚ omap free_tile (placed X g) ++ concat ls1 -> v ∈ nodes ls1 -> v + 16 <= X.
Proof.
  intros Hc Hv. pose proof extend_bounds as (Hf & HX & _). apply elem_of_app in Hv as [Hv%heads_low|Hv]; [lia|]. pose proof (cl_below _ _ _ _ _ _ Hcl) as Hh.
  pose proof (cl_inv _ _ _ _ _ _ Hcl) as Hi. apply list_elem_of_fmap in Hv as ([v' sz] & -> & Hv). cbn [fst].
  assert ((v', sz, true) ∈ all bs) as Hin by (eapply listed_free; [done|]; rewrite Hc; apply elem_of_app; by right).
  destruct (all_ok _ _ _ _ _ _ _ Hh Hin) as [[] _]. unfold bs in Hin. rewrite all_cons, !placed_app in Hin. destruct Hh as (_ & _ & _ & _ & _ & _ & Ht & _ & Hb). apply tiles_app in Ht as [Ht _].
  apply elem_of_app in Hin as [Hin|Hin]; [|destruct (all_ok _ _ _ _ _ _ _ Hb Hin) as [[] _]; lia].
  apply elem_of_app in Hin as [Hin|Hin]; [destruct (placed_ok _ _ _ _ _ _ Ht Hin) as [[] _]; unfold X; lia|]. exfalso.
  apply elem_of_app in Hin as [Hin|Hin%list_elem_of_singleton]; [|done]. destruct (inv_room _ _ _ _ Hi) as [_ [[Hnd _ _] _ _]]. rewrite Hc, fmap_app in Hnd.
  apply list.NoDup_app in Hnd as (_ & Hd & _). apply (Hd v'); apply (list_elem_of_fmap_2 fst _ (v', sz)); [by apply elem_of_free|done].
Qed.

(** A used region is off the links. *)
Lemma extend_used b : a <= b < a + 16 -> ~ in_links (nodes ls) b.
Proof.
  intros Hb. destruct root_first as (r & Hr & Hr16).
  apply (not_linked _ _ _ bs (nodes ls) a r false b (cl_below _ _ _ _ _ _ Hcl)); [by eapply inv_nodes, Hcl| |lia|done].
  unfold bs. rewrite all_cons, placed_app. apply elem_of_app. left. apply elem_of_app. by left.
Qed.

Lemma extend_finish m3 ls1 :
  lists_ok m3 (freeRegionBucketsUsed s0) ls1 -> touched (nodes ls) m2 m3 -> concat ls ≡ₚ omap free_tile (placed X g) ++ concat ls1 ->
  wp (create_free_region X F ;; link_to_free_list X ;; mret true) (fun ok s' => ok = true /\ extended bs s0 s') (set_mem m3 s0).
Proof.
  intros Hls1 Ht Hc. pose proof extend_bounds as (Hf & HX & Hg0 & Hl & H32 & HX4 & HF4). pose proof (cl_inv _ _ _ _ _ _ Hcl) as Hi. pose proof (extend_below ls1) as Hbelow.
  assert (nodes ls1 ⊆ nodes ls) as Hsub.
  { intros v [Hv|Hv]%elem_of_app; apply elem_of_app; [by left|right]. rewrite Hc, fmap_app. apply elem_of_app. by right. }
  assert (site X (en - X) ls1 (set_mem m3 s0)) as Hsite.
  { split; [done| |intros v Hv; left; by apply Hbelow|lia|rewrite limit_mem; lia]. apply room_mem. eapply room_sub; [by eapply inv_room|]. rewrite Hc. by apply submseteq_inserts_l. }
  apply wp_seq2. change (set_mem m3 s0) with (set_mem m3 (set_mem m3 s0)).
  eapply wp_mono; [apply (finish_free _ _ _ _ Hsite m3 X F (only_refl _ _ _)); try done; unfold F, st in *; lia|].
  intros _ s' (m5 & u' & ls' & -> & Hls & Hc' & _ & Hb & (_ & _ & T3 & T4 & _) & Hin). wp_steps. split; [done|]. cbn [mem set_mem] in *.
  assert (forall b, ~ in_links (nodes ls) b -> b < X -> peek m5 b = peek m2 b) as Hlow.
  { intros b Hl' HbX. rewrite Hb; [by apply Ht|lia|]. intros (v & Hv & ?). apply Hl'. exists v. split; [by apply Hsub|done]. }
  assert (forall c, en - 16 <= c -> c + 4 <= en -> load32 m5 c = load32 (create (mem s0) (en - 16) 16 false) c) as Hhigh.
  { intros c H1' H2'. transitivity (load32 m2 c); [|apply load_store_ne; unfold st in *; lia]. apply load_agree. intros b Hb'. rewrite Hin; [|unfold F; lia..]. apply Ht. intros (v & Hv & ?).
    destruct (si_out _ _ _ _ (claimed_site _ _ _ _ _ _ Hcl) v Hv); unfold st in *; lia. }
  assert (forall b, b < X -> ~ in_links (nodes ls) b -> b < a + 8 \/ a + 12 <= b -> peek m5 b = peek (mem s0) b) as Hm.
  { intros b HbX Hl' Ha. rewrite Hlow by done. unfold m2. rewrite peek_store_ne by lia. apply (create_only (mem s0) (en - 16) 16 false); unfold st in *; lia. }
  assert (load32 m5 (a + 8) = en) as E8.
  { transitivity (load32 m2 (a + 8)); [|apply load_store_eq; unfold st, floor in *; pose proof buckets_pos; lia]. apply load_agree. intros b Hb'. apply Hlow; [apply extend_used; lia|lia]. }
  assert (tiles m5 X [(F, true); (16, false)]) as Htiles.
  { cbn [tiles]. replace (X + F) with (en - 16) in * by (unfold F; lia). destruct (create_loads (mem s0) (en - 16) 16 false) as [A1 A2]; [unfold st, floor in *; pose proof buckets_pos; lia..|].
    rewrite (Hhigh (en - 16)), (Hhigh (en - 16 + 16 - 4)) by lia. split_and!; try done; [unfold F, st in *; lia|by exists 4]. }
  exists bs', ls'. cbn [mem set_used set_mem grows]. split_and!; [|exact (extend_keeps m5 Hm)|done|done].
  split; cbn [mem set_used set_mem freeRegionBucketsUsed listOfAllRegions pages]; try done; [exact (extend_heap m5 Hm E8 Htiles)| |apply Hi|apply Hi].
  pose proof (inv_frees _ _ _ _ Hi) as Hfr. unfold frees, bs, bs' in *. rewrite all_cons, omap_app in *. rewrite !placed_app, !omap_app in *. cbn [placed omap list_omap free_tile app] in *.
  rewrite Hc, ?app_nil_r in Hfr. change (a + total k) with X in Hfr. change (a + total k) with X.
  assert (omap free_tile (placed a k) ++ omap free_tile (all bs2) ≡ₚ concat ls1) as E by (apply (Permutation_app_inv_l (omap free_tile (placed X g))); rewrite <- Hfr; solve_Permutation).
  rewrite Hc', <- E. solve_Permutation.
Qed.

Lemma extend_lists : lists_ok m2 (freeRegionBucketsUsed s0) ls.
Proof.
  pose proof extend_bounds as (Hf & HX & Hg0 & Hl & H32 & HX4 & HF4). eapply lists_frame; [apply Hcl|]. intros v Hv.
  destruct (si_out _ _ _ _ (claimed_site _ _ _ _ _ _ Hcl) v Hv); [|exfalso].
  - assert (v + 12 <= a + 8 \/ a + 12 <= v + 4) as Hva.
    { destruct (Z.le_gt_cases (v + 12) (a + 8)); [by left|]. destruct (Z.le_gt_cases (a + 12) (v + 4)); [by right|exfalso].
      apply (extend_used (Z.max (v + 4) (a + 8))); [lia|]. exists v. split; [done|lia]. }
    split; unfold m2; rewrite load_store_ne by lia; apply (only_load (en - 16) en); try (unfold st in *; lia); intros b Hb; apply (create_only (mem s0) (en - 16) 16 false); lia.
  - pose proof (rm_floor _ _ (proj2 (inv_room _ _ _ _ (cl_inv _ _ _ _ _ _ Hcl)))). apply elem_of_app in Hv as [Hv%heads_low|Hv]; [unfold st in *; lia|].
    destruct (inv_room _ _ _ _ (cl_inv _ _ _ _ _ _ Hcl)) as [_ [[_ Hr _] _ _]]. apply list_elem_of_fmap in Hv as ([v' sz] & -> & Hv). cbn [fst] in *.
    destruct (all_ok _ _ _ _ _ _ _ (cl_below _ _ _ _ _ _ Hcl) (listed_free _ _ _ _ _ _ (cl_inv _ _ _ _ _ _ Hcl) Hv)) as [[] _]. unfold st in *. lia.
Qed.

Lemma extend_reg x sz f : (x, sz, f) ∈ placed a (k ++ g ++ [(16, false)]) -> reg (set_mem (create (mem s0) (en - 16) 16 false) s0) x sz f /\ (x = a \/ a + 16 <= x -> reg (set_mem m2 s0) x sz f).
Proof.
  intros Hx. assert ((x, sz, f) ∈ all bs) as Hx' by (unfold bs; rewrite all_cons; apply elem_of_app; by left). destruct (inv_reg _ _ _ _ _ _ _ (cl_inv _ _ _ _ _ _ Hcl) Hx') as ([] & _ & _).
  destruct (all_ok _ _ _ _ _ _ _ (cl_below _ _ _ _ _ _ Hcl) Hx') as [[_ _ _ rok_hi _ _] _].
  assert (forall c, c + 4 <= st -> load32 (create (mem s0) (en - 16) 16 false) c = load32 (mem s0) c) as Hld.
  { intros c Hc. apply (only_load (en - 16) en); [|unfold st in *; lia]. intros b Hb. apply (create_only (mem s0) (en - 16) 16 false); lia. }
  split; [split; try done; cbn [mem set_mem]; rewrite Hld by lia; done|]. intros Ha. split; try done; cbn [mem set_mem]; unfold m2; rewrite load_store_ne, Hld by lia; done.
Qed.

Lemma extend_unlink ps i l1 l2 : g = [(ps, true)] -> ls !! i = Some (l1 ++ (X, ps) :: l2) ->
  wp (unlink_from_free_list X ;; create_free_region X (u32 (en - 16 - X)) ;; link_to_free_list X ;; mret true) (fun ok s' => ok = true /\ extended bs s0 s') (set_mem m2 s0).
Proof.
  intros Eg Hi. pose proof extend_bounds as (Hf & HX & Hg0 & Hl & H32 & HX4 & HF4). pose proof (cl_inv _ _ _ _ _ _ Hcl) as Hinv. pose proof buckets_pos. unfold floor in Hf.
  destruct (extend_reg X ps true) as [_ Hreg]; [rewrite Eg, placed_app; apply elem_of_app; right; left|]. specialize (Hreg ltac:(lia)).
  wp_steps. eapply wp_mono; [apply (unlink_spec (set_mem m2 s0) ls i l1 X ps l2 extend_lists); [by apply room_mem; eapply inv_room|done|done]|].
  intros _ s' (m3 & -> & Hls3 & Ht3). cbn [mem set_mem freeRegionBucketsUsed] in *. rewrite u32_small by (unfold st in *; lia). fold F. change (set_mem m3 (set_mem m2 s0)) with (set_mem m3 s0).
  eapply extend_finish; [done|done|]. destruct (concat_insert ls i _ (l1 ++ l2) Hi) as (rest & E1 & E2). rewrite E1, E2, Eg. cbn [placed omap list_omap free_tile]. solve_Permutation.
Qed.

Lemma extend_block pr psz (f : bool) :
  (pr, psz, f) ∈ placed a (k ++ g) -> pr + psz = st - 16 -> (f = true -> pr = X /\ g = [(psz, true)]) -> (f = false -> g = []) ->
  wp (prevEndSentinel ← prev_region st;
      assert_that (debug_region_is_consistent prevEndSentinel) ;;
      assert_that (region_is_in_use prevEndSentinel) ;;
      prevRegion ← prev_region prevEndSentinel;
      assert_that (debug_region_is_consistent prevRegion) ;;
      store (root_endPtr a) en ;;
      isFree ← region_is_free prevRegion;
      if isFree : bool then
        unlink_from_free_list prevRegion ;; create_free_region prevRegion (u32 (en - 16 - prevRegion)) ;; link_to_free_list prevRegion ;; mret true
      else startPtr ← psub st 16; claim_free startPtr (en - 16)) (fun ok s' => ok = true /\ extended bs s0 s') (set_mem (create (mem s0) (en - 16) 16 false) s0).
Proof.
  intros Hpr Hend Hfree Hused. pose proof extend_bounds as (Hf & HX & Hg0 & Hl & H32 & HX4 & HF4). pose proof buckets_pos. unfold floor in Hf.
  destruct (extend_reg (st - 16) 16 false) as [Rs _]; [rewrite app_assoc, placed_app; apply elem_of_app; right; cbn; replace (a + total (k ++ g)) with (st - 16) by (unfold st, X; rewrite total_app; lia); left|].
  destruct (extend_reg pr psz f) as [Rp Rp2]; [rewrite app_assoc, placed_app; apply elem_of_app; by left|].
  assert (pr = a \/ a + 16 <= pr) as Hpa.
  { destruct f; [destruct (Hfree eq_refl) as [-> _]; lia|]. rewrite (Hused eq_refl), app_nil_r in Hpr. by eapply after_root. }
  specialize (Rp2 Hpa). wp_steps. replace st with (st - 16 + 16) at 1 by lia. eapply prev_spec; [exact Rs|]. wp_steps. apply wp_assert_that. eapply consistent_spec; [exact Rs|]. split; [done|]. wp_steps.
  apply wp_assert_that. eapply in_use_spec; [exact Rs|]. split; [done|]. wp_steps. rewrite <- Hend. eapply prev_spec; [exact Rp|]. wp_steps. apply wp_assert_that. eapply consistent_spec; [exact Rp|]. split; [done|].
  wp_steps. unfold root_endPtr. apply wp_store; [lia|rewrite limit_mem; unfold st in *; lia|]. wp_steps. cbn [mem set_mem]. fold m2. change (set_mem m2 _) with (set_mem m2 s0). eapply is_free_spec; [exact Rp2|].
  destruct f.
  - destruct (Hfree eq_refl) as [-> Eg]. pose proof (inv_frees _ _ _ _ (cl_inv _ _ _ _ _ _ Hcl)) as Hfr. cbn [app] in Hfr. destruct (in_bucket ls (X, psz)) as (i & l1 & l2 & Hi); [|by eapply extend_unlink].
    rewrite <- Hfr. apply frees_in. unfold bs. rewrite all_cons, app_assoc, placed_app. apply elem_of_app. left. apply elem_of_app. by left.
  - specialize (Hused eq_refl). wp_steps. apply wp_psub; [unfold st in *; lia|]. replace (st - 16) with X by (unfold st; rewrite Hused; cbn; lia). unfold claim_free. rewrite u32_small by (unfold st in *; lia).
    fold F. apply (extend_finish m2 ls extend_lists (touched_refl _ _)). by rewrite Hused.
Qed.
End extend.

(** The region before the sentinel. *)
Lemma last_region (l : list tile) : shape l -> no_adj l ->
  exists (k g : list tile) psz (f : bool), l = k ++ g ++ [(16, false)] /\ k <> [] /\ last_free k = false /\ (g = [] \/ exists ps, g = [(ps, true)]) /\
    (f = true -> g = [(psz, true)]) /\ (f = false -> g = []) /\ exists k' : list tile, k ++ g = k' ++ [(psz, f)].
Proof.
  intros (r & mid & ->) Hn. destruct (exists_last (l := (r, false) :: mid) ltac:(done)) as (k' & [psz f] & E). rewrite app_comm_cons, E in Hn |- *. apply no_adj_app in Hn as (Hn & _ & _).
  destruct f.
  - apply no_adj_app in Hn as (_ & _ & Hn). exists k', [(psz, true)], psz, true. rewrite <- app_assoc. split_and!; try done; [by intros ->|by rewrite andb_true_r in Hn|right; by eexists|by exists k'].
  - exists (k' ++ [(psz, false)]), [], psz, false. split_and!; try done; [by destruct k'|unfold last_free; by rewrite last_snoc|by left|]. exists k'. by rewrite app_nil_r.
Qed.

Lemma block_spec bs ls s st en s0 : claimed bs ls s st en s0 -> st + 56 <= en -> wp (claim_block st en) (fun ok s' => ok = true /\ extended bs s0 s') s0.
Proof.
  intros Hcl Hn. pose proof Hcl as [Hi Hm Hbe Hf Hs4 He4 Hl _]. pose proof (inv_small _ _ _ _ Hi) as [H32 _]. pose proof buckets_pos. unfold floor in Hf.
  unfold claim_block, sizeof_Region. wp_steps. apply wp_psub; [lia|]. wp_steps.
  apply (create_spec (en - 16) 16 false); [lia|apply Z.divide_sub_r; [done|by exists 4]|by exists 4|lia|lia|lia|]. apply wp_bind, wp_gets, wp_bind. cbn [listOfAllRegions set_mem].
  destruct bs as [|[a l] bs2].
  - cbn in Hbe. rewrite Hbe, Z.eqb_refl. apply wp_ret. replace (st =? 0) with false by lia. rewrite <- Hbe. by eapply (new_block _ _ _ _ _ _ Hcl Hn).
  - pose proof Hbe as (Eh & Ha & Ha4 & Hle & Hs & Hna & Ht & He & _). pose proof (tiles_total _ _ _ Ht) as [Htot _]. rewrite Eh.
    assert (16 <= total l) as Htot' by (destruct Hs as (r & mid & ->); cbn [length] in Htot; lia). unfold floor in Ha. replace (a =? 0) with false by lia.
    apply wp_load; unfold root_endPtr; [lia|rewrite limit_mem; lia|]. cbn [mem set_mem]. assert (load32 (create (mem s0) (en - 16) 16 false) (a + 8) = a + total l) as ->.
    { rewrite <- He. apply (only_load (en - 16) en); [intros b Hb; apply (create_only (mem s0) (en - 16) 16 false)|]; lia. }
    destruct (Z.eqb_spec st (a + total l)) as [Est|Hne].
    + destruct (last_region l Hs Hna) as (k & g & psz & f & El & Hk & Hkf & Hg & Hf1 & Hf2 & k' & Ekg). subst l.
      assert (st = a + total k + total g + 16) as Est' by (rewrite Est, !total_app; cbn [total]; lia). subst st. rewrite Est' in *.
      apply (extend_block a k g bs2 ls s s0 en Hcl Hk Hkf Hg Hn (a + total k') psz f).
      * rewrite Ekg. apply placed_in.
      * assert (total (k ++ g) = total (k' ++ [(psz, f)])) as E by congruence. rewrite !total_app in E. cbn [total] in E. lia.
      * intros ->. specialize (Hf1 eq_refl). subst g. apply app_inj_tail in Ekg as [-> _]. done.
      * done.
    + pose proof (new_block _ _ _ _ _ _ Hcl Hn) as Hnb. rewrite Eh in Hnb. exact Hnb.
Qed.

(** Memory for [n] bytes and three headers is claimed, or the host refuses. *)
Lemma claim_spec bs ls s n : inv [] bs ls s -> 56 <= n -> n + 65536 <= 2 ^ 31 ->
  wp (claim_more_memory n) (fun ok s' => ok = false /\ refused s s' \/
    ok = true /\ exists bs' ls', inv [] bs' ls' s' /\ keeps [] [] bs (mem s) bs' (mem s') /\ bs' <> [] /\ (bs = [] /\ grows s' = grows s \/ (length (grows s') < length (grows s))%nat)) s.
Proof.
  intros Hi Hn Hn'. unfold claim_more_memory. wp_steps. eapply wp_mono; [apply (range_spec _ _ _ _ Hi); lia|]. intros [[st en]|] s0.
  - intros [Hr Hcl]. eapply wp_mono; [apply (block_spec _ _ _ _ _ _ Hcl); lia|]. intros ok s' (-> & bs' & ls' & Hi' & Hk & Hne & Hg). right. split; [done|]. exists bs', ls'.
    rewrite (cl_mem _ _ _ _ _ _ Hcl) in Hk. split_and!; try done. rewrite Hg. apply Hcl.
  - intros Href. wp_steps. by left.
Qed.
End claim.
