(* ===== verification/EmmallocAlloc.v ===== *)
(** * Allocation in emmalloc

    A free region is given out, whole or split; memory is claimed; the searches
    of the buckets end. *)

From S2P Require Import Prelude Errno Emmalloc EmmallocInv EmmallocBits EmmallocState EmmallocOps EmmallocSteps.

Section alloc.
Context `{LayoutLaws}.

(** A region for [size] bytes was given out at [p]. *)
Record allocated (bs : list block) (s : arena) (alignment size p : Z) (bs' : list block) (ls' : list (list (Z * Z))) (s' : arena) : Prop := {
  al_pos : 0 < p;
  al_aligned : (alignment | p);
  al_inv : inv [] bs' ls' s';
  al_keeps : keeps [] [p - 4] bs (mem s) bs' (mem s');
  al_busy : exists sz, busy bs' (p - 4) sz /\ size + 8 <= sz;
  al_new sz : ~ busy bs (p - 4) sz;
}.

(** The free region [fs] after the region [ps], with the boundary moved by [d]. *)
Lemma carve_commit bs1 a k1 ps fs ns k3 bs2 ls s m0 d size :
  let bs := bs1 ++ (a, k1 ++ [(ps, false); (fs, true)] ++ (ns, false) :: k3) :: bs2 in
  let pv := a + total k1 in let x := pv + ps in
  inv [(x, fs)] bs ls s -> only pv (pv + ps + fs) (mem s) m0 -> (4 | d) -> 0 <= d -> (4 | size) -> 8 <= size -> 8 + size <= fs - d ->
  load32 m0 pv = ps + d -> load32 m0 (pv + ps + d - 4) = ps + d -> load32 m0 (x + d) = fs - d ->
  (forall b, pv + 4 <= b < pv + ps - 4 -> peek m0 b = peek (mem s) b) ->
  wp (carve (x + d) size) (fun p s' => p = x + d + 4 /\ exists bs' ls' sz, inv [] bs' ls' s' /\ keeps [] [x + d] bs (mem s) bs' (mem s') /\ busy bs' (x + d) sz /\ size + 8 <= sz) (set_mem m0 s).
Proof.
  intros bs pv x Hi Ho Hd4 Hd Hs4 Hs Hfit E1 E2 E3 Hin. pose proof (inv_heap _ _ _ _ Hi) as Hh.
  assert ([(x, fs)] ≡ₚ omap free_tile (placed (a + total k1) [(ps, false); (fs, true)])) as HP by done.
  destruct (ground _ _ _ _ _ _ _ _ _ Hi) as (Hf & Hl & Hpv4). fold pv in Hf, Hl, Hpv4. cbn [total] in Hl.
  destruct (here_tiles _ _ _ _ _ _ _ _ _ Hh) as (_ & (Hps4 & Hps & _ & _ & Hfs4 & Hfs & _) & _).
  assert (total [(ps, false); (fs, true)] = ps + fs) as ET by (cbn; lia).
  eapply wp_mono; [apply (carve_spec _ _ _ _ (commit_site _ _ _ _ _ _ _ _ _ Hi HP) m0 (x + d) (fs - d) size); fold pv; rewrite ?ET; try done; try lia|].
  - by replace (pv + (ps + fs)) with (pv + ps + fs) by lia.
  - apply Z.divide_add_r; [by apply Z.divide_add_r|done].
  - by apply Z.divide_sub_r.
  - intros p s' (-> & sz & tl & m3 & u' & ls' & -> & Hls & Hc & Hb & Ht & Htot & Hsz & Htl & Hsame). split; [done|]. fold pv in Hsame. cbn [mem set_mem set_used].
    set (l2' := (ps + d, false) :: (sz, false) :: tl). assert (pv + (ps + d) = x + d) as Ex by (unfold x; lia).
    assert (forall c, pv <= c -> c + 4 <= x + d -> load32 m3 c = load32 m0 c) as Hld by (intros c ? ?; apply load_agree; intros b Hb'; apply Hsame; lia).
    assert (forall b, pv + 4 <= b < pv + ps - 4 -> peek m3 b = peek (mem s) b) as Hold by (intros b Hb'; rewrite Hsame by lia; by apply Hin).
    destruct (commit _ _ _ _ _ _ _ _ _ Hi HP [] [x + d] m3 u' ls' l2') as [Hi' Hk']; fold pv; try done.
    + rewrite Hc. unfold l2'. cbn [placed omap list_omap free_tile]. rewrite Ex. done.
    + unfold l2'. cbn [total]. lia.
    + unfold l2'. cbn [tiles]. rewrite Ex. split; [by apply Z.divide_add_r|]. split; [lia|]. split; [by rewrite Hld by lia|]. split; [|apply Ht].
      change (x + d - 4) with (pv + ps + d - 4). rewrite Hld, E2 by lia. cbn [Z.b2z]. lia.
    + eapply shape_mid; [apply (here_ok _ _ _ _ _ _ _ _ _ Hh)|done|]. intros _. by eexists _, _.
    + eapply no_adj_mid; [apply (here_ok _ _ _ _ _ _ _ _ _ Hh)| |done|apply andb_false_r|apply andb_false_r]. unfold l2'. destruct Htl as [->|[rs ->]]; done.
    + intros ->. cbn [total] in pv. split; apply load_agree; intros b Hb'; apply Hold; lia.
    + intros y sy [[= -> ->]|[[=]|Hy%elem_of_nil]%elem_of_cons]%elem_of_cons _ _; [|done]. exists (ps + d). split; [lia|]. split; [left|done].
    + intros y sy Hy Hya. unfold l2' in Hy. cbn [placed] in Hy. rewrite Ex in Hy. apply elem_of_cons in Hy as [[= -> ->]|Hy]; [right; split; [by intros ?%elem_of_nil|exists ps; left]|].
      apply elem_of_cons in Hy as [[= -> ->]|Hy]; [left; left|]. exfalso. destruct Htl as [->|[rs ->]]; [by apply elem_of_nil in Hy|]. by apply list_elem_of_singleton in Hy.
    + by intros y ?%elem_of_nil.
    + eexists _, ls', sz. split; [exact Hi'|]. split; [exact Hk'|]. split; [|lia].
      eapply inside_busy; [apply Hi'|done| |].
      * fold pv. unfold l2'. cbn [placed]. rewrite Ex. right. left.
      * pose proof (tiles_total _ _ _ (proj1 (here_tiles _ _ _ _ _ _ _ _ _ Hh))). unfold x, pv. lia.
Qed.

Lemma locate_free P bs ls s x fs :
  inv P bs ls s -> (x, fs, true) ∈ all bs ->
  exists bs1 a k1 ps ns k3 bs2, bs = bs1 ++ (a, k1 ++ [(ps, false); (fs, true)] ++ (ns, false) :: k3) :: bs2 /\ x = a + total k1 + ps.
Proof.
  intros Hi Hx. apply all_find in Hx as (bs1 & a & l1 & l3 & bs2 & -> & ->). destruct (free_inside _ _ _ _ _ _ _ _ _ (inv_heap _ _ _ _ Hi)) as (k1 & ps & ns & k3 & -> & ->).
  exists bs1, a, k1, ps, ns, k3, bs2. rewrite <- app_assoc, total_app. cbn [total]. split; [done|lia].
Qed.

(** The start of the payload is moved up to the alignment. *)
Lemma align_payload x k : 0 < x -> (4 | x) -> 4 <= k <= 20 -> x + 4 + 2 ^ k <= 2 ^ 32 ->
  exists d, ALIGN_UP (x + 4) (2 ^ k) = x + d + 4 /\ 0 <= d < 2 ^ k /\ (4 | d) /\ (2 ^ k | x + d + 4).
Proof.
  intros Hx Hx4 Hk Hfit. destruct (align_up (x + 4) k) as [Hq Hdiv]; [lia..|]. exists (ALIGN_UP (x + 4) (2 ^ k) - (x + 4)).
  replace (x + (ALIGN_UP (x + 4) (2 ^ k) - (x + 4)) + 4) with (ALIGN_UP (x + 4) (2 ^ k)) by lia. split_and!; [done|lia|lia| |done].
  assert (4 | ALIGN_UP (x + 4) (2 ^ k)) as Hq4.
  { eapply Z.divide_trans; [|exact Hdiv]. exists (2 ^ (k - 2)). replace k with (k - 2 + 2) at 1 by lia. rewrite Z.pow_add_r by lia. done. }
  apply Z.divide_sub_r; [done|]. apply Z.divide_add_r; [done|by exists 1].
Qed.

(** The boundary to the region before is moved by [d]. *)
Lemma bump_commit bs1 a k1 ps fs ns k3 bs2 ls s d size :
  let bs := bs1 ++ (a, k1 ++ [(ps, false); (fs, true)] ++ (ns, false) :: k3) :: bs2 in
  let x := a + total k1 + ps in
  inv [(x, fs)] bs ls s -> (4 | d) -> 0 < d -> (4 | size) -> 8 <= size -> 8 + size <= fs - d ->
  wp (prevRegion ← prev_region x; assert_that (region_is_in_use prevRegion) ;; total ← load x; prevSize ← load prevRegion;
      create_used_region prevRegion (u32 (prevSize + d)) ;; freeRegion ← padd x d; store freeRegion (u32 (total - d)) ;; carve freeRegion size)
    (fun p s' => p = x + d + 4 /\ exists bs' ls' sz, inv [] bs' ls' s' /\ keeps [] [x + d] bs (mem s) bs' (mem s') /\ busy bs' (x + d) sz /\ size + 8 <= sz) s.
Proof.
  intros bs x Hi Hd4 Hd Hs4 Hs Hfit. set (pv := a + total k1). pose proof (inv_small _ _ _ _ Hi) as [H32 _].
  assert ((pv, ps, false) ∈ all bs /\ (x, fs, true) ∈ all bs) as [Hpv Hx].
  { unfold bs. rewrite all_split. cbn [placed]. split; apply elem_of_app; left; [left|right; left]. }
  destruct (inv_reg _ _ _ _ _ _ _ Hi Hpv) as (Rp & Hp4 & ?), (inv_reg _ _ _ _ _ _ _ Hi Hx) as (Rx & Hx4 & ?).
  change x with (pv + ps). wp_steps. eapply prev_spec; [exact Rp|]. wp_steps. apply wp_assert_that. eapply in_use_spec; [exact Rp|]. split; [done|]. wp_steps.
  destruct Rp, Rx. apply wp_load; [lia..|]. wp_steps. apply wp_load; [lia..|]. wp_steps. change (pv + ps) with x. rewrite reg_head, reg_head0, !u32_small by lia.
  assert (4 | ps + d) by (by apply Z.divide_add_r).
  apply (create_spec pv (ps + d) false); [lia|done|done|lia|lia|lia|]. wp_steps. apply wp_padd; [lia|]. wp_steps. apply wp_store; [lia|rewrite limit_mem; lia|]. cbn [mem set_mem].
  destruct (create_loads (mem s) pv (ps + d) false) as [E1 E2]; [lia..|]. cbn [Z.b2z] in E2. change (set_mem ?m2 (set_mem ?m1 s)) with (set_mem m2 s).
  apply (carve_commit bs1 a k1 ps fs ns k3 bs2 ls s); fold bs; fold pv; try done; try lia.
  - intros b Hb. rewrite peek_store_ne by (unfold x in *; lia). apply create_only; unfold x in *; lia.
  - rewrite load_store_ne by (unfold x; lia). done.
  - rewrite load_store_ne by (unfold x; lia). replace (pv + ps + d - 4) with (pv + (ps + d) - 4) by lia. rewrite E2. lia.
  - change (pv + ps + d) with (x + d). apply load_store_eq. lia.
  - intros b Hb. rewrite peek_store_ne by (unfold x; lia). apply create_inner; lia.
Qed.

Lemma attempt_spec bs ls s x fs k size :
  inv [] bs ls s -> (x, fs) ∈ concat ls -> 4 <= k <= 20 -> (4 | size) -> 8 <= size -> limit s + 2 ^ k + size <= 2 ^ 32 ->
  wp (attempt_allocate x (2 ^ k) size) (fun p s' => p = 0 /\ s' = s \/ exists bs' ls', allocated bs s (2 ^ k) size p bs' ls' s') s.
Proof.
  intros Hi Hx Hk Hs4 Hs Hfit. pose proof (listed_free _ _ _ _ _ _ Hi Hx) as Hx'. destruct (inv_reg _ _ _ _ _ _ _ Hi Hx') as (Rx & Hx4 & _). destruct (in_bucket _ _ Hx) as (i & l1 & l2 & Hb).
  assert (0 < 2 ^ k) by lia. pose proof Rx as [Hpos Hfs4 Hfs Hhi H32 Hhead Hceil]. destruct (align_payload x k) as (d & Eq & Hd & Hd4 & Hdiv); [lia|done|lia|lia|].
  unfold attempt_allocate, region_payload_start_ptr, region_payload_end_ptr. wp_steps. apply wp_assert; [lia|]. wp_steps. apply wp_padd; [lia|]. cbv zeta. rewrite Eq. wp_steps.
  eapply next_spec; [exact Rx|]. apply wp_psub; [lia|]. wp_steps. apply wp_padd; [lia|]. wp_steps; [by left|].
  eapply wp_mono; [by eapply unlink_inv|]. intros _ s1 (m1 & -> & Hi1 & Hk1). destruct (locate_free _ _ _ _ _ _ Hi Hx') as (bs1 & a & k1 & ps & ns & k3 & bs2 & -> & Ex).
  set (bs := bs1 ++ _ :: bs2) in *. subst x. set (x := a + total k1 + ps) in *.
  apply (wp_mono _ (fun p s' => p = x + d + 4 /\ exists bs' ls' sz, inv [] bs' ls' s' /\ keeps [] [x + d] bs m1 bs' (mem s') /\ busy bs' (x + d) sz /\ size + 8 <= sz)).
  - destruct (Z.eqb_spec (x + 4) (x + d + 4)).
    + assert (d = 0) as -> by lia. assert ((a + total k1, ps, false) ∈ all bs) as Hp by (unfold bs; rewrite all_split; apply elem_of_app; left; left).
      assert ((x, fs, true) ∈ all bs) as Hx1 by done. destruct (inv_reg _ _ _ _ _ _ _ Hi1 Hp) as ([] & _ & _), (inv_reg _ _ _ _ _ _ _ Hi1 Hx1) as ([] & _ & _). cbn [mem set_mem] in *.
      replace x with (x + 0) at 1 by lia. change (set_mem m1 s) with (set_mem m1 (set_mem m1 s)).
      apply (carve_commit bs1 a k1 ps fs ns k3 bs2 _ (set_mem m1 s) m1 0 size Hi1); try done; try lia.
      * replace (a + total k1 + ps + 0 - 4) with (a + total k1 + ps - 4) by lia. rewrite reg_ceil. cbn [Z.b2z]. lia.
      * change (a + total k1 + ps + 0) with (x + 0). replace (x + 0) with x by lia. rewrite reg_head0. lia.
    + replace (u32 (x + d + 4 - (x + 4))) with d by (rewrite u32_small; lia). apply (bump_commit bs1 a k1 ps fs ns k3 bs2 _ (set_mem m1 s) d size Hi1); [done|lia|done|lia|lia].
  - intros p s' (-> & bs' & ls' & sz & Hi' & Hk' & Hbusy & Hsz). right. exists bs', ls'. replace (x + d) with (x + d + 4 - 4) in Hk', Hbusy by lia. split; try done; [lia| |by exists sz|].
    + by eapply keeps_trans_l.
    + intros sz0 [H0' _]. assert (16 <= sz0) by (by destruct (inv_reg _ _ _ _ _ _ _ Hi H0') as ([] & _ & _)).
      destruct (all_disjoint _ _ _ _ _ _ _ _ _ _ (inv_heap _ _ _ _ Hi) Hx' H0') as [[=]|]; lia.
Qed.
End alloc.
