(* ===== verification/EmmallocSearch.v ===== *)
(** * The searches of emmalloc

    The loops over the buckets and over the regions of a bucket end, and what
    [allocate_memory] returns is a region of the right size and alignment. *)

From S2P Require Import Prelude Errno Emmalloc EmmallocInv EmmallocBits EmmallocState EmmallocOps EmmallocSteps EmmallocClaim EmmallocAlloc.

(** ** Bits *)

Lemma ctz_from_spec n x i :
  (exists j, i <= j < i + Z.of_nat n /\ Z.testbit x j = true) ->
  let t := ctz_from n x i in i <= t < i + Z.of_nat n /\ Z.testbit x t = true /\ forall j, i <= j < t -> Z.testbit x j = false.
Proof.
  revert i. induction n as [|n IH]; intros i (j & Hj & Hb); [lia|]. cbn [ctz_from]. destruct (Z.testbit x i) eqn:Ei; [split_and!; [lia|lia|done|]; intros; lia|].
  destruct (IH (i + 1)) as (Ht & Htb & Hlow).
  - exists j. split; [|done]. destruct (Z.eq_dec i j) as [->|]; [congruence|lia].
  - split_and!; [lia|lia|done|]. intros j' Hj'. destruct (Z.eq_dec i j') as [<-|]; [done|]. apply Hlow. lia.
Qed.

Lemma high_bit u j : 0 <= u < 2 ^ 64 -> 64 <= j -> Z.testbit u j = false.
Proof.
  intros Hu Hj. destruct (Z.eq_dec u 0) as [->|]; [apply Z.bits_0|]. apply Z.bits_above_log2; [lia|]. apply Z.lt_le_trans with 64; [apply Z.log2_lt_pow2; lia|done].
Qed.

(** The lowest set bit from [i] up. *)
Lemma next_bit u i : 0 <= u < 2 ^ 64 -> 0 <= i -> Z.shiftr u i <> 0 ->
  let t := ctzll (Z.shiftr u i) in 0 <= t /\ i + t < 64 /\ Z.testbit u (i + t) = true /\ forall j, i <= j < i + t -> Z.testbit u j = false.
Proof.
  intros Hu Hi Hne t. destruct (ctz_from_spec 64 (Z.shiftr u i) 0) as (Ht & Htb & Hlow).
  - assert (0 <= Z.shiftr u i) as Hpos by (apply Z.shiftr_nonneg; lia). exists (Z.log2 (Z.shiftr u i)). rewrite Z.bit_log2 by lia. split; [|done].
    split; [apply Z.log2_nonneg|]. destruct (Z.lt_ge_cases (Z.log2 (Z.shiftr u i)) 64) as [|Hge]; [cbn; lia|]. exfalso.
    pose proof (Z.bit_log2 (Z.shiftr u i) ltac:(lia)) as Hb. rewrite Z.shiftr_spec in Hb by lia. rewrite high_bit in Hb by lia. done.
  - fold (ctzll (Z.shiftr u i)) in Ht, Htb, Hlow. fold t in Ht, Htb, Hlow. rewrite Z.shiftr_spec in Htb by lia. rewrite Z.add_comm in Htb. split_and!; [lia| |done|].
    + destruct (Z.lt_ge_cases (i + t) 64) as [|Hge]; [done|]. rewrite high_bit in Htb by lia. done.
    + intros j Hj. specialize (Hlow (j - i) ltac:(lia)). rewrite Z.shiftr_spec in Hlow by lia. by replace (j - i + i) with j in Hlow by lia.
Qed.

Lemma clear_bit u i : 0 <= u < 2 ^ 64 -> 0 <= i -> Z.testbit u i = true ->
  let u' := Z.land u (Z.lnot (Z.shiftl 1 i)) in
  0 <= u' < 2 ^ 64 /\ Z.shiftr u' i = Z.lxor (Z.shiftr u i) 1 /\ Z.testbit (Z.shiftr u' i) 0 = false /\ forall j, 0 <= j -> j <> i -> Z.testbit u' j = Z.testbit u j.
Proof.
  intros Hu Hi Hb u'. assert (forall j, 0 <= j -> Z.testbit u' j = Z.testbit u j && negb (j =? i)) as Hbit.
  { intros j Hj. unfold u'. rewrite Z.land_spec, Z.lnot_spec, Z.shiftl_1_l by lia. destruct (Z.eqb_spec j i) as [->|]; [by rewrite Z.pow2_bits_true by lia|by rewrite Z.pow2_bits_false by lia]. }
  assert (0 <= u') as Hpos by (apply Z.land_nonneg; left; lia). split_and!.
  - done.
  - destruct (Z.eq_dec u' 0); [lia|]. apply Z.log2_lt_pow2; [lia|]. destruct (Z.lt_ge_cases (Z.log2 u') 64) as [|Hge]; [done|]. exfalso.
    pose proof (Z.bit_log2 u' ltac:(lia)) as Hl. rewrite Hbit, high_bit in Hl by lia. done.
  - apply Z.bits_inj'. intros j Hj. rewrite Z.lxor_spec, !Z.shiftr_spec, Hbit by lia. destruct (Z.eqb_spec (j + i) i).
    + assert (j = 0) as -> by lia. rewrite Z.add_0_l, Hb. done.
    + change 1 with (2 ^ 0). rewrite Z.pow2_bits_false by lia. by rewrite andb_true_r, xorb_false_r.
  - rewrite Z.shiftr_spec, Hbit, Z.add_0_l, Z.eqb_refl by lia. apply andb_false_r.
  - intros j Hj Hne. rewrite Hbit by done. replace (j =? i) with false by lia. apply andb_true_r.
Qed.

Section search.
Context `{LayoutLaws}.

Lemma allocated_trans bs s bs1 s1 al size p bs' ls' s' :
  keeps [] [] bs (mem s) bs1 (mem s1) -> allocated bs1 s1 al size p bs' ls' s' -> allocated bs s al size p bs' ls' s'.
Proof.
  intros Hk []. split; try done; [by eapply keeps_trans_l|]. intros sz Hb. destruct (kp_kept _ _ _ _ _ _ Hk _ _ Hb) as (sz' & _ & Hb'); [by intros ?%elem_of_nil|]. by apply (al_new sz').
Qed.

(** The first region of a bucket becomes its last. *)
Lemma rotate_spec bs ls s i x fs l :
  inv [] bs ls s -> ls !! i = Some ((x, fs) :: l) ->
  wp (unlink_from_free_list x ;; prepend_to_free_list x (bucket_head (Z.of_nat i)))
    (fun _ s' => exists m' ls', s' = set_mem m' s /\ inv [] bs ls' s' /\ keeps [] [] bs (mem s) bs m') s.
Proof.
  intros Hi Hl. wp_steps. pose proof (inv_lists _ _ _ _ Hi) as Hls. assert ((i < length ls)%nat) as Li by (by eapply lookup_lt_Some).
  eapply wp_mono; [apply (unlink_inv [] bs ls s x fs i [] l Hi Hl)|]. intros _ s1 (m1 & -> & Hi1 & Hk1). cbn [app] in Hi1. set (ls1 := <[i := l]> ls) in *.
  assert ((x, fs, true) ∈ all bs) as Hx by (apply frees_in; rewrite (inv_frees _ _ _ _ Hi1); left). destruct (inv_reg _ _ _ _ _ _ _ Hi1 Hx) as [Hreg _].
  assert (ls1 !! i = Some l) as Hl1 by (by apply list_lookup_insert_eq).
  eapply wp_mono; [apply (prepend_spec (set_mem m1 s) ls1 i x fs l); [apply Hi1| |done| | |done]|].
  - destruct (inv_room _ _ _ _ Hi1) as [Hr _]. eapply room_sub; [done|]. by rewrite (inv_frees _ _ _ _ Hi1).
  - apply (lo_bucket _ _ _ Hls i _ (x, fs) Hl). left.
  - by apply (lo_used _ _ _ Hls i _ Hl).
  - intros _ s2 (m2 & -> & Hls2 & Ht2). exists m2, (<[i := l ++ [(x, fs)]]> ls1). split; [done|]. cbn [mem set_mem] in *.
    destruct (touched_heap m1 m2 (limit s) (listOfAllRegions s) bs (x :: nodes ls1) (inv_heap _ _ _ _ Hi1) (fun b _ => Ht2 b)) as [Hh2 Hk2].
    { intros v [->|Hv]%elem_of_cons; [right; left; by exists fs|by eapply inv_nodes]. }
    split; [|eapply keeps_trans_l; [done|by apply keeps_same]]. destruct Hi1. split; try done. cbn [app] in *. rewrite inv_frees.
    destruct (concat_insert ls1 i l (l ++ [(x, fs)]) Hl1) as (r & E1 & E2). rewrite E1, E2. solve_Permutation.
Qed.

Lemma clear_lists m u ls i : lists_ok m u ls -> ls !! i = Some [] -> Z.testbit u (Z.of_nat i) = true -> lists_ok m (Z.land u (Z.lnot (Z.shiftl 1 (Z.of_nat i)))) ls.
Proof.
  intros Hls Hi Hb. destruct (clear_bit u (Z.of_nat i) (lo_bits _ _ _ Hls) ltac:(lia) Hb) as (Hr & _ & _ & Hj). split; try apply Hls; [done|]. intros j l Hl Hne.
  rewrite Hj; [by eapply (lo_used _ _ _ Hls)|lia|]. intros ->%Nat2Z.inj. congruence.
Qed.

(** The next region in a list. *)
Lemma head_next P bs ls s i l :
  inv P bs ls s -> ls !! i = Some l -> (i < 64)%nat /\ load32 (mem s) (bucket_head (Z.of_nat i) + 8) = after l.*1 (bucket_head (Z.of_nat i)) /\
    0 < bucket_head (Z.of_nat i) /\ bucket_head (Z.of_nat i) + 16 <= limit s /\ (forall v, v ∈ l.*1 -> floor <= v) /\ bucket_head (Z.of_nat i) < floor.
Proof.
  intros Hi Hl. pose proof (inv_lists _ _ _ _ Hi) as Hls. assert ((i < 64)%nat) as Li by (rewrite <- (lo_len _ _ _ Hls); by eapply lookup_lt_Some). pose proof (head_range i Li). pose proof buckets_pos.
  destruct (inv_small _ _ _ _ Hi). destruct (chain_after _ _ _ _ (lo_chain _ _ _ Hls i l Hl)) as [E _]. split_and!; try done; try lia.
  intros v Hv. destruct (inv_room _ _ _ _ Hi) as [_ [[_ Hr _] _ _]]. by destruct (Hr v (member_in _ _ _ _ Hl Hv)).
Qed.

Definition turns (idx mask : Z) : Z := 2 * (64 - idx) + Z.b2z (Z.testbit mask 0).

Lemma search_spec n bs ls s k size idx :
  inv [] bs ls s -> 4 <= k <= 20 -> (4 | size) -> 8 <= size -> limit s + 2 ^ k + size <= 2 ^ 32 -> 0 <= idx <= 64 ->
  let mask := Z.shiftr (freeRegionBucketsUsed s) idx in turns idx mask <= Z.of_nat n ->
  wp (search_buckets n (2 ^ k) size idx mask) (fun p s' =>
    p = 0 /\ (exists ls' m' u', s' = set_used u' (set_mem m' s) /\ inv [] bs ls' s' /\ keeps [] [] bs (mem s) bs (mem s')) \/
    exists bs' ls', allocated bs s (2 ^ k) size p bs' ls' s') s.
Proof.
  revert ls s idx. induction n as [|n IH]; intros ls s idx Hi Hk Hs4 Hs Hfit Hidx mask Hn; pose proof (inv_lists _ _ _ _ Hi) as Hls; pose proof (lo_bits _ _ _ Hls) as Hu.
  - assert (idx = 64) as Eidx by (unfold turns in Hn; destruct (Z.testbit _ 0); cbn in Hn; lia).
    assert (mask = 0) as -> by (unfold mask; rewrite Eidx; apply Z.bits_inj'; intros j Hj; rewrite Z.shiftr_spec, Z.bits_0 by lia; apply high_bit; lia).
    cbn [search_buckets]. wp_steps; [|done]. left. split; [done|]. exists ls, (mem s), (freeRegionBucketsUsed s). destruct s. split; [done|]. split; [done|apply keeps_refl].
  - cbn [search_buckets]. destruct (Z.eqb_spec mask 0) as [|Hne].
    { wp_steps. left. split; [done|]. exists ls, (mem s), (freeRegionBucketsUsed s). destruct s. split; [done|]. split; [done|apply keeps_refl]. }
    destruct (next_bit _ idx Hu ltac:(lia) Hne) as (Ht0 & Ht & Htb & Hlow). fold mask in Ht0, Ht, Htb, Hlow. set (t := ctzll mask) in *. set (j := idx + t) in *.
    assert (Z.shiftr mask t = Z.shiftr (freeRegionBucketsUsed s) j) as Emask by (unfold mask, j; rewrite Z.shiftr_shiftr by lia; done). rewrite Emask.
    assert (turns idx mask >= turns j (Z.shiftr (freeRegionBucketsUsed s) j)) as Hturn.
    { unfold turns, j, mask. rewrite !Z.shiftr_spec, !Z.add_0_l by lia. destruct (Z.eq_dec t 0) as [E|]; [rewrite E, Z.add_0_r; lia|]. destruct (Z.testbit _ idx), (Z.testbit _ (idx + t)); cbn [Z.b2z]; lia. }
    assert (Z.testbit (Z.shiftr (freeRegionBucketsUsed s) j) 0 = true) as Hb0 by (by rewrite Z.shiftr_spec, Z.add_0_l by lia). unfold turns in Hturn at 2. rewrite Hb0 in Hturn. cbn [Z.b2z] in Hturn.
    destruct (lookup_lt_is_Some_2 ls (Z.to_nat j)) as [l Hl]; [rewrite (lo_len _ _ _ Hls); lia|]. destruct (head_next _ _ _ _ _ _ Hi Hl) as (_ & Hnext & Hh0 & Hhl & Hfl & Hhf).
    assert (Z.of_nat (Z.to_nat j) = j) as Ej by lia. rewrite Ej in Hnext, Hh0, Hhl, Hhf. set (h := bucket_head j) in *. unfold NUM_FREE_BUCKETS, next_ptr.
    wp_steps. apply wp_assert; [lia|]. wp_steps. apply wp_assert; [lia|]. wp_steps. apply wp_assert; [by rewrite has_bit by lia|]. wp_steps. fold h. apply wp_load; [lia..|]. rewrite Hnext.
    destruct l as [|[x fs] l]; cbn [after fmap list_fmap fst].
    + wp_steps. apply wp_assert; [lia|]. cbv zeta. rewrite Z.eqb_refl. wp_steps. destruct (clear_bit _ j Hu ltac:(lia) Htb) as (Hu' & Eu' & Hb' & _).
      set (s1 := set_used _ s). assert (inv [] bs ls s1) as Hi1.
      { destruct Hi. split; try done. cbn [mem s1 set_used freeRegionBucketsUsed]. pose proof (clear_lists _ _ _ _ Hls Hl) as Hc. rewrite Ej in Hc. by apply Hc. }
      rewrite <- Eu'. apply wp_assert; [cbn [s1 set_used freeRegionBucketsUsed]; by rewrite Z.eqb_refl, orb_true_r|].
      eapply wp_mono; [apply (IH ls s1 j Hi1); try done; [lia|]|].
      * unfold turns. cbn [s1 set_used freeRegionBucketsUsed]. rewrite Hb'. cbn [Z.b2z]. lia.
      * intros p s' [[-> (ls' & m' & u' & -> & Hi' & Hk')]|(bs' & ls' & Hal)].
        -- left. split; [done|]. by exists ls', m', u'.
        -- right. exists bs', ls'. eapply (allocated_trans bs s bs s1); [apply keeps_refl|done].
    + assert (x <> h) as Hxh by (specialize (Hfl x ltac:(left)); lia). assert (0 < x) as Hx0 by (specialize (Hfl x ltac:(left)); pose proof buckets_pos; unfold floor in *; lia).
      wp_steps. apply wp_assert; [lia|]. cbv zeta. replace (x =? h) with false by lia. wp_steps.
      assert ((x, fs) ∈ concat ls) as Hx by (eapply in_concat; [done|left]). eapply wp_mono; [by eapply (attempt_spec bs ls s x fs k size)|].
      intros p s' [[-> ->]|(bs' & ls' & Hal)].
      * cbn [Z.eqb negb]. apply wp_seq2. assert (h = bucket_head (Z.of_nat (Z.to_nat j))) as -> by (unfold h; by rewrite Ej).
        eapply wp_mono; [by eapply rotate_spec|]. intros _ s1 (m1 & ls1 & -> & Hi1 & Hk1). wp_steps.
        replace (Z.shiftr (Z.shiftr _ j) 1) with (Z.shiftr (freeRegionBucketsUsed (set_mem m1 s)) (j + 1)) by (rewrite Z.shiftr_shiftr by lia; done).
        apply wp_assert; [by rewrite Z.eqb_refl, orb_true_r|]. eapply wp_mono; [apply (IH ls1 (set_mem m1 s) (j + 1) Hi1); try done; [lia|unfold turns at 1; destruct (Z.testbit (Z.shiftr _ (j + 1)) 0); cbn [Z.b2z]; lia]|].
        intros p s' [[-> (ls' & m' & u' & -> & Hi' & Hk')]|(bs' & ls' & Hal)].
        -- left. split; [done|]. exists ls', m', u'. split; [done|]. split; [done|]. by eapply keeps_trans_l.
        -- right. exists bs', ls'. by apply (allocated_trans bs s bs (set_mem m1 s)).
      * pose proof (al_pos _ _ _ _ _ _ _ _ Hal). replace (p =? 0) with false by lia. cbn [negb]. wp_steps. right. by exists bs', ls'.
Qed.

Lemma regions_spec tries bs ls s i l1 l2 k size :
  inv [] bs ls s -> ls !! i = Some (l1 ++ l2) -> 4 <= k <= 20 -> (4 | size) -> 8 <= size -> limit s + 2 ^ k + size <= 2 ^ 32 ->
  let h := bucket_head (Z.of_nat i) in
  wp (search_regions tries h (2 ^ k) size (after l2.*1 h)) (fun r s' =>
    (s' = s /\ exists l1' l2', l1' ++ l2' = l1 ++ l2 /\ r = (0, after l2'.*1 h) /\ ((length l2 <= tries)%nat -> l2' = [])) \/ exists bs' ls', allocated bs s (2 ^ k) size (fst r) bs' ls' s') s.
Proof.
  intros Hi Hl Hk Hs4 Hs Hfit h. destruct (head_next _ _ _ _ _ _ Hi Hl) as (Li & _ & Hh0 & Hhl & Hfl & Hhf). fold h in Hh0, Hhl, Hhf.
  revert tries l1 Hl Hfl. induction l2 as [|[x fs] l2 IH]; intros tries l1 Hl Hfl.
  - cbn [after fmap list_fmap]. assert (search_regions tries h (2 ^ k) size h = mret (0, h)) as -> by (destruct tries; cbn [search_regions]; by rewrite Z.eqb_refl).
    wp_steps. left. split; [done|]. by exists l1, [].
  - assert (x ∈ (l1 ++ (x, fs) :: l2).*1) as Hx by (rewrite fmap_app; apply elem_of_app; right; left). specialize (Hfl x Hx) as Hx'. cbn [after fmap list_fmap fst].
    assert ((x, fs) ∈ concat ls) as Hx2 by (eapply in_concat; [done|apply elem_of_app; right; left]).
    destruct tries as [|tries]; cbn [search_regions]; (replace (x =? h) with false by lia).
    + wp_steps. left. split; [done|]. exists l1, ((x, fs) :: l2). split; [done|]. split; [done|]. cbn. lia.
    + wp_steps. eapply wp_mono; [by apply (attempt_spec bs ls s x fs k size)|]. intros p s' [[-> ->]|(bs' & ls' & Hal)].
      * cbn [Z.eqb negb]. wp_steps. destruct (inv_reg _ _ _ _ _ _ _ Hi (listed_free _ _ _ _ _ _ Hi Hx2)) as ([] & _ & _). apply wp_load; unfold next_ptr; [lia..|].
        assert (load32 (mem s) (x + 8) = after l2.*1 h) as ->.
        { pose proof (lo_chain _ _ _ (inv_lists _ _ _ _ Hi) i _ Hl) as Hc. rewrite fmap_app, fmap_cons in Hc. apply chain_app in Hc as [_ Hc]. by destruct (chain_after _ _ _ _ Hc). }
        assert (l1 ++ (x, fs) :: l2 = (l1 ++ [(x, fs)]) ++ l2) as El by (by rewrite <- app_assoc). rewrite El in Hl, Hfl.
        eapply wp_mono; [apply (IH tries (l1 ++ [(x, fs)]) Hl Hfl)|]. intros r s' [(-> & l1' & l2' & E & -> & Hlen)|Hal]; [left|by right].
        split; [done|]. exists l1', l2'. split; [by rewrite El|]. split; [done|]. cbn [length]. intros Hle. apply Hlen. lia.
      * pose proof (al_pos _ _ _ _ _ _ _ _ Hal). replace (p =? 0) with false by lia. cbn [negb]. wp_steps. right. by exists bs', ls'.
Qed.

(** There are no more regions in a list than turns. *)
Lemma enough_turns P bs ls s i l : inv P bs ls s -> ls !! i = Some l -> (length l <= all_regions s)%nat.
Proof.
  intros Hi Hl. pose proof (inv_small _ _ _ _ Hi) as [_ Hfl]. pose proof buckets_pos. unfold floor in Hfl.
  pose proof (all_count _ _ _ _ (inv_heap _ _ _ _ Hi) ltac:(lia)) as Hc. assert ((length l <= length (all bs))%nat) as Hle.
  { transitivity (length (concat ls)).
    - destruct (concat_insert ls i l [] Hl) as (r & E & _). rewrite E, length_app. lia.
    - transitivity (length (frees bs)); [rewrite (inv_frees _ _ _ _ Hi), length_app; lia|]. unfold frees. clear. induction (all bs) as [|[[x sz] [|]] T IH]; cbn; lia. }
  unfold all_regions, sizeof_Region. fold (limit s). assert (Z.of_nat (length (all bs)) <= limit s / 16) by (apply Z.div_le_lower_bound; lia). lia.
Qed.

(** Where the search of the largest bucket may stand; 0 when there is none. *)
Definition stands (u : Z) (ls : list (list (Z * Z))) (h fr : Z) : Prop :=
  u = 0 /\ fr = 0 \/ exists i l1 l2, ls !! i = Some (l1 ++ l2) /\ h = bucket_head (Z.of_nat i) /\ fr = after l2.*1 h.

Lemma largest_spec P bs ls s : inv P bs ls s -> let u := freeRegionBucketsUsed s in let h := bucket_head (NUM_FREE_BUCKETS - 1 - clzll u) in
  wp (if u =? 0 then mret 0 else load (next_ptr h)) (fun fr s' => s' = s /\ stands u ls h fr) s.
Proof.
  intros Hi u h. pose proof (lo_bits _ _ _ (inv_lists _ _ _ _ Hi)) as Hu. fold u in Hu. destruct (Z.eqb_spec u 0) as [E|Hne]; [wp_steps; split; [done|by left]|].
  assert (0 <= Z.log2 u < 64) as Hlog by (split; [apply Z.log2_nonneg|apply Z.log2_lt_pow2; lia]).
  assert (NUM_FREE_BUCKETS - 1 - clzll u = Z.of_nat (Z.to_nat (Z.log2 u))) as E by (unfold NUM_FREE_BUCKETS, clzll; replace (u =? 0) with false by lia; lia).
  destruct (lookup_lt_is_Some_2 ls (Z.to_nat (Z.log2 u))) as [l Hl]; [rewrite (lo_len _ _ _ (inv_lists _ _ _ _ Hi)); lia|].
  destruct (head_next _ _ _ _ _ _ Hi Hl) as (_ & Hnext & Hh0 & Hhl & _). rewrite <- E in Hnext, Hh0, Hhl. fold h in Hnext, Hh0, Hhl.
  apply wp_load; unfold next_ptr; [lia..|]. split; [done|]. right. exists (Z.to_nat (Z.log2 u)), [], l. split; [done|]. split; [unfold h; by rewrite E|done].
Qed.

Section allocate.
Context (k size : Z) (Hk : 4 <= k <= 20) (Hs4 : (4 | size)) (Hs : 8 <= size).
Context (Hfit : max_pages * PAGESIZE + 2 ^ k + size <= 2 ^ 32) (Hclaim : size + 48 + 65536 <= 2 ^ 31).

Lemma fit P bs ls s : inv P bs ls s -> limit s + 2 ^ k + size <= 2 ^ 32.
Proof. intros Hi. pose proof (inv_pages _ _ _ _ Hi). unfold limit, PAGESIZE in *. lia. Qed.

(** The search from there. *)
Lemma resume_spec n bs ls s u h fr :
  inv [] bs ls s -> stands u ls h fr -> u <> 0 \/ fr <> 0 -> wp (search_regions n h (2 ^ k) size fr) (fun r s' =>
    (s' = s /\ fst r = 0 /\ stands u ls h (snd r) /\ ((all_regions s <= n)%nat -> snd r = h)) \/ exists bs' ls', allocated bs s (2 ^ k) size (fst r) bs' ls' s') s.
Proof.
  intros Hi [[-> ->]|(i & l1 & l2 & Hl & -> & ->)] Hu; [by destruct Hu|]. eapply wp_mono; [apply (regions_spec n _ _ _ _ _ _ _ _ Hi Hl Hk Hs4 Hs (fit _ _ _ _ Hi))|].
  intros r s' [(-> & l1' & l2' & E & -> & Hlen)|Hal]; [left|by right]. cbn [fst snd]. split_and!; [done|done| |].
  - right. exists i, l1', l2'. by rewrite E.
  - intros Hn. rewrite Hlen; [done|]. pose proof (enough_turns _ _ _ _ _ _ Hi Hl) as Hle. rewrite length_app in Hle. lia.
Qed.

(** The host refused: the rest of the largest bucket is tried. *)
Lemma last_resort bs ls s u h fr :
  inv [] bs ls s -> stands u ls h fr ->
  wp (if fr =? 0 then mret 0 else n ← gets all_regions; r ← search_regions n h (2 ^ k) size fr; if (fst r =? 0) && negb (snd r =? h) then halt Fuel else mret (fst r))
    (fun p s' => p = 0 /\ s' = s \/ exists bs' ls', allocated bs s (2 ^ k) size p bs' ls' s') s.
Proof.
  intros Hi Hst. destruct (Z.eqb_spec fr 0) as [|Hne]; [wp_steps; by left|]. 
  apply wp_bind, wp_gets, wp_bind. eapply wp_mono; [apply (resume_spec _ _ _ _ _ _ _ Hi Hst); by right|]. intros r s' [(-> & E0 & _ & Eh)|(bs' & ls' & Hal)].
  - rewrite E0, Eh, !Z.eqb_refl by done. apply wp_ret. by left.
  - pose proof (al_pos _ _ _ _ _ _ _ _ Hal). replace (fst r =? 0) with false by lia. apply wp_ret. right. by exists bs', ls'.
Qed.

(** Nothing was found and the host refused. *)
Definition missed (bs : list block) (s s' : arena) : Prop := exists bs' ls', inv [] bs' ls' s' /\ keeps [] [] bs (mem s) bs' (mem s') /\ arena_errno s' = ENOMEM.

Lemma validate_spec (Q : Z -> arena -> Prop) s : Q size s -> wp (validate_alloc_size size) Q s.
Proof.
  intros HQ. unfold validate_alloc_size, REGION_HEADER_SIZE, SMALLEST_ALLOCATION_SIZE. wp_steps. apply wp_assert; [rewrite u32_small; lia|]. cbv zeta.
  assert ((if 8 <? size then ALIGN_UP size 4 else 8) = size) as ->.
  { destruct (Z.ltb_spec 8 size); [|lia]. apply align_4; [lia|lia|done]. }
  wp_steps. apply wp_assert; [lia|]. by wp_steps.
Qed.

Lemma validate_alignment_spec (Q : Z -> arena -> Prop) s : Q (2 ^ k) s -> wp (validate_alloc_alignment (2 ^ k)) Q s.
Proof.
  intros HQ. unfold validate_alloc_alignment, MALLOC_ALIGNMENT. assert (2 ^ 4 <= 2 ^ k <= 2 ^ 20) by (split; apply Z.pow_le_mono_r; lia). rewrite Z.max_l by lia.
  wp_steps. apply wp_assert; [lia|]. by wp_steps.
Qed.

(** After the search: the memory is claimed and the search starts again, or the rest
    of the largest bucket is tried. *)
Lemma retry_spec bs ls s u h fr (again : M arena Z) :
  inv [] bs ls s -> stands u ls h fr ->
  (forall bs' ls' s', inv [] bs' ls' s' -> bs' <> [] -> bs = [] /\ grows s' = grows s \/ (length (grows s') < length (grows s))%nat ->
    wp again (fun p s2 => p = 0 /\ missed bs' s' s2 \/ exists bs2 ls2, allocated bs' s' (2 ^ k) size p bs2 ls2 s2) s') ->
  wp (success ← claim_more_memory (size + 48); if success : bool then again else
      if fr =? 0 then mret 0 else n ← gets all_regions; r ← search_regions n h (2 ^ k) size fr; if (fst r =? 0) && negb (snd r =? h) then halt Fuel else mret (fst r))
    (fun p s' => p = 0 /\ missed bs s s' \/ exists bs' ls', allocated bs s (2 ^ k) size p bs' ls' s') s.
Proof.
  intros Hi Hst Hagain. apply wp_bind. eapply wp_mono; [apply (claim_spec _ _ _ _ Hi); lia|]. intros ok s1 [[-> (g & -> & Hg)]|(-> & bs1 & ls1 & Hi1 & Hk1 & Hne & Hless)].
  - set (s1 := Arena _ _ _ _ _ _). assert (inv [] bs ls s1) as Hi1 by (destruct Hi; by split). eapply wp_mono; [by apply (last_resort _ _ _ _ _ _ Hi1 Hst)|].
    intros p s' [[-> ->]|(bs' & ls' & Hal)].
    + left. split; [done|]. exists bs, ls. split; [done|]. split; [apply keeps_refl|done].
    + right. exists bs', ls'. by apply (allocated_trans bs s bs s1); [apply keeps_refl|].
  - eapply wp_mono; [by apply (Hagain bs1 ls1 s1)|]. intros p s' [[-> (bs' & ls' & Hi' & Hk' & He)]|(bs' & ls' & Hal)].
    + left. split; [done|]. exists bs', ls'. split; [done|]. split; [by eapply keeps_trans_l|done].
    + right. exists bs', ls'. by eapply allocated_trans.
Qed.

Lemma allocate_spec fuel bs ls s :
  inv [] bs ls s -> (length (grows s) + (if bs is [] then 1 else 0) < fuel)%nat ->
  wp (allocate_memory fuel (2 ^ k) size) (fun p s' => p = 0 /\ missed bs s s' \/ exists bs' ls', allocated bs s (2 ^ k) size p bs' ls' s') s.
Proof.
  revert bs ls s. induction fuel as [|fuel IH]; intros bs ls s Hi Hfuel; [lia|]. cbn [allocate_memory]. rewrite is_power_of_2 by lia. cbn [negb].
  replace (MAX_ALLOC_SIZE <? size) with false by (unfold MAX_ALLOC_SIZE; lia). wp_steps. apply validate_alignment_spec. wp_steps. apply validate_spec. wp_steps.
  replace size with (size + 8 - 8) at 1 by lia. destruct (bucket_of (size + 8)) as [Hb _]; [lia|]. apply bucket_spec; [lia|]. wp_steps.
  eapply wp_mono; [apply (search_spec 129 bs ls s k size _ Hi Hk Hs4 Hs (fit _ _ _ _ Hi)); [lia|unfold turns; destruct (Z.testbit _ 0); cbn [Z.b2z]; lia]|].
  intros p s1 [[-> (ls1 & m1 & u1 & -> & Hi1 & Hk1)]|(bs' & ls' & Hal)].
  2:{ pose proof (al_pos _ _ _ _ _ _ _ _ Hal). replace (p =? 0) with false by lia. cbn [negb]. wp_steps. right. by exists bs', ls'. }
  set (s1 := set_used u1 (set_mem m1 s)) in *. cbn [Z.eqb negb]. apply wp_bind, wp_gets. cbv zeta. set (u := freeRegionBucketsUsed s1). set (h := bucket_head _). apply wp_bind.
  eapply wp_mono; [by apply (largest_spec _ _ _ _ Hi1)|]. intros fr s' [-> Hst]. fold u h in Hst. apply wp_bind.
  apply (wp_mono _ (fun r s' => (s' = s1 /\ fst r = 0 /\ stands u ls1 h (snd r)) \/ exists bs' ls', allocated bs s1 (2 ^ k) size (fst r) bs' ls' s')).
  { destruct (Z.eqb_spec (Z.shiftr u 30) 0) as [|Hu]; [wp_steps; by left|]. eapply wp_mono; [apply (resume_spec 99 _ _ _ _ _ _ Hi1 Hst); left; intros E; by rewrite E in Hu|].
    intros r s' [(-> & E0 & Hst' & _)|Hal]; [by left|by right]. }
  intros r s' [(-> & E0 & Hst')|(bs' & ls' & Hal)].
  2:{ pose proof (al_pos _ _ _ _ _ _ _ _ Hal). replace (fst r =? 0) with false by lia. cbn [negb]. wp_steps. right. exists bs', ls'. by eapply (allocated_trans bs s bs s1). }
  rewrite E0. cbn [Z.eqb negb]. unfold sizeof_Region. rewrite u32_small by lia. replace (size + 16 * 3) with (size + 48) by lia. wp_steps. apply wp_assert; [lia|].
  eapply wp_mono; [apply (retry_spec _ _ _ _ _ _ (allocate_memory fuel (2 ^ k) size) Hi1 Hst')|].
  - intros bs' ls' s' Hi' Hne Hless. apply (IH bs' ls' s' Hi'). destruct bs'; [done|]. destruct Hless as [[-> ->]|Hless]; [cbn [s1 set_used set_mem grows] in *; lia|]. cbn [s1 set_used set_mem grows] in Hless. destruct bs; lia.
  - intros p s' [[-> (bs' & ls' & Hi' & Hk' & He)]|(bs' & ls' & Hal)].
    + left. split; [done|]. exists bs', ls'. split; [done|]. split; [by eapply keeps_trans_l|done].
    + right. exists bs', ls'. by eapply (allocated_trans bs s bs s1).
Qed.
End allocate.
End search.
