(* ===== verification/EmmallocFree.v ===== *)
(** * Releasing and resizing in emmalloc

    [free] merges a region with its free neighbours; [attempt_region_resize]
    moves the end of a region. *)

From S2P Require Import Prelude Errno Emmalloc EmmallocInv EmmallocBits EmmallocState EmmallocOps EmmallocSteps EmmallocAlloc.

Section free.
Context `{LayoutLaws}.

(** At most one free region. *)
Definition gap (g : list tile) : Prop := g = [] \/ exists n, g = [(n, true)].

Lemma gap_total m a g : tiles m a g -> 0 <= total g /\ (4 | total g).
Proof. intros [? ?]%tiles_total. split; [lia|done]. Qed.

(** A region of the program with what is free around it. *)
Record around (bs : list block) (x sz : Z) (bs1 : list block) (a : Z) (l1 gl gr l3 : list tile) (bs2 : list block) : Prop := {
  ar_bs : bs = bs1 ++ (a, l1 ++ (gl ++ [(sz, false)] ++ gr) ++ l3) :: bs2;
  ar_x : x = a + total l1 + total gl;
  ar_gl : gap gl;
  ar_gr : gap gr;
  ar_l1 : l1 <> [];
  ar_l3 : l3 <> [];
  ar_f1 : last_free l1 = false;
  ar_f3 : first_free l3 = false;
}.

Lemma split_left (l : list tile) : (exists r k, l = (r, false) :: k) -> no_adj l -> exists l1 gl, l = l1 ++ gl /\ gap gl /\ l1 <> [] /\ last_free l1 = false.
Proof.
  intros (r & k & E) Hn. destruct (exists_last (l := l)) as (l1 & [n f] & ->); [by rewrite E|]. destruct f.
  - apply no_adj_app in Hn as (_ & _ & Hf). rewrite andb_true_r in Hf. exists l1, [(n, true)]. split; [done|]. split; [right; by exists n|]. split; [by intros ->|done].
  - exists (l1 ++ [(n, false)]), []. rewrite app_nil_r. split; [done|]. split; [by left|]. split; [by destruct l1|]. unfold last_free. by rewrite last_snoc.
Qed.

Lemma split_right (l : list tile) : (exists k n, l = k ++ [(n, false)]) -> no_adj l -> exists gr l3, l = gr ++ l3 /\ gap gr /\ l3 <> [] /\ first_free l3 = false.
Proof.
  intros (k & n & E) Hn. destruct l as [|[m f] l]; [by destruct k|]. destruct f.
  - exists [(m, true)], l. apply no_adj_cons in Hn as [Hf _]. cbn in Hf. split; [done|]. split; [right; by exists m|]. split; [|done]. intros ->. destruct k as [|? [|]]; done.
  - exists [], ((m, false) :: l). split; [done|]. split; [by left|]. done.
Qed.

Lemma locate_busy P bs ls s x sz : inv P bs ls s -> busy bs x sz -> exists bs1 a l1 gl gr l3 bs2, around bs x sz bs1 a l1 gl gr l3 bs2.
Proof.
  intros Hi Hb. pose proof (proj1 Hb) as Hx. apply all_find in Hx as (bs1 & a & k1 & k3 & bs2 & -> & ->). pose proof (inv_heap _ _ _ _ Hi) as Hh.
  destruct (busy_inside _ _ _ _ _ _ _ _ _ Hh Hb) as [N1 N3]. destruct (here_ok _ _ _ _ _ _ _ _ _ Hh) as [_ _ _ (r & mid & Es) Hn _ _].
  apply no_adj_app in Hn as (Hn1 & Hn3 & _). apply no_adj_app in Hn3 as (_ & Hn3 & _).
  destruct (split_left k1) as (l1 & gl & -> & Hgl & Hl1 & Hf1); [|done|].
  { destruct k1 as [|t k1]; [done|]. injection Es as -> _. by exists r, k1. }
  destruct (split_right k3) as (gr & l3 & -> & Hgr & Hl3 & Hf3); [|done|].
  { destruct (exists_last N3) as (k & t & ->). exists k, 16. rewrite !app_assoc, app_comm_cons in Es. apply app_inj_tail in Es as [_ ->]. done. }
  exists bs1, a, l1, gl, gr, l3, bs2. split; try done; [|rewrite total_app; lia]. by rewrite <- !app_assoc.
Qed.

(** The neighbours. *)
Lemma before_tile bs x sz bs1 a l1 gl gr l3 bs2 : around bs x sz bs1 a l1 gl gr l3 bs2 ->
  exists y ps pf, (y, ps, pf) ∈ all bs /\ y + ps = x /\ (pf = false /\ gl = [] \/ pf = true /\ gl = [(ps, true)] /\ y = a + total l1).
Proof.
  intros [-> -> Hgl _ Hl1 _ Hf1 _]. destruct Hgl as [->|[n ->]].
  - destruct (exists_last Hl1) as (k1 & [ps pf] & ->). unfold last_free in Hf1. rewrite last_snoc in Hf1. subst pf. exists (a + total k1), ps, false. split.
    + rewrite all_app, all_cons, placed_app, placed_app. apply elem_of_app. right. apply elem_of_app. left. apply elem_of_app. left. apply elem_of_app. right. left.
    + rewrite total_app. cbn [total]. split; [lia|by left].
  - exists (a + total l1), n, true. split; [|split; [cbn [total]; lia|right; done]].
    rewrite all_app, all_cons, placed_app. apply elem_of_app. right. apply elem_of_app. left. apply elem_of_app. right. left.
Qed.

Lemma after_tile bs x sz bs1 a l1 gl gr l3 bs2 : around bs x sz bs1 a l1 gl gr l3 bs2 ->
  exists ns nf, (x + sz, ns, nf) ∈ all bs /\ (nf = false /\ gr = [] \/ nf = true /\ gr = [(ns, true)]).
Proof.
  intros [-> -> _ Hgr _ Hl3 _ Hf3].
  assert (forall t k, gr ++ l3 = t :: k -> (a + total l1 + total gl + sz, t.1, t.2) ∈ all (bs1 ++ (a, l1 ++ (gl ++ [(sz, false)] ++ gr) ++ l3) :: bs2)) as Hin.
  { intros [n f] k E. rewrite all_app, all_cons. apply elem_of_app. right. apply elem_of_app. left.
    assert (l1 ++ (gl ++ [(sz, false)] ++ gr) ++ l3 = l1 ++ gl ++ [(sz, false)] ++ (n, f) :: k) as -> by (rewrite <- !app_assoc; do 3 f_equal; exact E). rewrite !placed_app. do 3 (apply elem_of_app; right).
    cbn [placed total fst snd]. replace (a + total l1 + total gl + (sz + 0)) with (a + total l1 + total gl + sz) by lia. left. }
  destruct Hgr as [->|[n ->]].
  - destruct l3 as [|[ns nf] k3]; [done|]. cbn in Hf3. subst nf. exists ns, false. split; [exact (Hin _ _ eq_refl)|by left].
  - exists n, true. split; [exact (Hin _ _ eq_refl)|by right].
Qed.

(** A free region that is not pending is unlinked. *)
Lemma unlink_free P bs ls s x sz :
  inv P bs ls s -> (x, sz, true) ∈ all bs -> (x, sz) ∉ P ->
  wp (unlink_from_free_list x) (fun _ s' => exists m' ls', s' = set_mem m' s /\ inv ((x, sz) :: P) bs ls' s' /\ keeps [] [] bs (mem s) bs m') s.
Proof.
  intros Hi Hx HP. assert ((x, sz) ∈ concat ls) as Hl.
  { apply frees_in in Hx. rewrite (inv_frees _ _ _ _ Hi) in Hx. by apply elem_of_app in Hx as [|]. }
  destruct (in_bucket _ _ Hl) as (i & l1 & l2 & Hb). eapply wp_mono; [by eapply unlink_inv|]. intros _ s' (m' & -> & Hi' & Hk). by eexists m', _.
Qed.

Section release.
Context (bs : list block) (x sz : Z) (bs1 : list block) (a : Z) (l1 gl gr l3 : list tile) (bs2 : list block) (Har : around bs x sz bs1 a l1 gl gr l3 bs2).
Let X := a + total l1.

Lemma around_in : (x, sz, false) ∈ all bs.
Proof.
  destruct Har as [-> -> _ _ _ _ _ _]. rewrite all_app, all_cons. apply elem_of_app. right. apply elem_of_app. left. rewrite !placed_app. apply elem_of_app. right. apply elem_of_app. left.
  apply elem_of_app. right. apply elem_of_app. left. left.
Qed.

Lemma around_parts P ls s : inv P bs ls s -> tiles (mem s) X gl /\ tiles (mem s) x [(sz, false)] /\ tiles (mem s) (x + sz) gr /\ x + sz + total gr <= limit s /\ 0 < X.
Proof.
  intros Hi. pose proof (inv_heap _ _ _ _ Hi) as Hh. destruct Har as [E Ex _ _ _ _ _ _]. rewrite E in Hh. destruct (here_tiles _ _ _ _ _ _ _ _ _ Hh) as (T0 & T & T3). fold X in T, T3.
  apply tiles_app in T as [T1 T2]. apply tiles_app in T2 as [T2 T2']. fold X in Ex. rewrite <- Ex in T2, T2'. cbn [total] in T2'. rewrite Z.add_0_r in T2'. split; [done|]. split; [done|]. split; [done|].
  destruct (here_ok _ _ _ _ _ _ _ _ _ Hh) as [Hf _ Hl _ _ _ _]. rewrite !total_app in Hl. cbn [total] in Hl. pose proof (tiles_total _ _ _ T0). pose proof (tiles_total _ _ _ T3). pose proof buckets_pos. unfold X, floor in *. lia.
Qed.

Lemma left_spec ls s field prevSize :
  inv [] bs ls s -> (exists y pf, (y, prevSize, pf) ∈ all bs /\ y + prevSize = x /\ field = prevSize + Z.b2z pf /\ (pf = false /\ gl = [] \/ pf = true /\ gl = [(prevSize, true)] /\ y = X)) ->
  wp (if field =? prevSize then mret (x, sz) else
      prevRegion ← psub x prevSize; assert_that (debug_region_is_consistent prevRegion) ;; unlink_from_free_list prevRegion ;; mret (prevRegion, u32 (sz + prevSize)))
    (fun r s' => r = (X, sz + total gl) /\ exists m' ls', s' = set_mem m' s /\ inv (omap free_tile (placed X gl)) bs ls' s' /\ keeps [] [] bs (mem s) bs m') s.
Proof.
  intros Hi (y & pf & Hy & Ey & -> & Hg). pose proof around_in as Hxin. pose proof Har as [_ Ex _ _ _ _ _ _]. destruct Hg as [[-> ->]|(-> & -> & ->)]; cbn [Z.b2z].
  - rewrite Z.add_0_r, Z.eqb_refl. wp_steps. cbn [total] in *. split; [f_equal; unfold X; lia|]. exists (mem s), ls. destruct s. split; [done|]. split; [done|apply keeps_refl].
  - replace (prevSize + 1 =? prevSize) with false by lia. destruct (inv_reg _ _ _ _ _ _ _ Hi Hy) as (Ry & _ & _). pose proof Ry as []. destruct (inv_reg _ _ _ _ _ _ _ Hi Hxin) as ([] & _ & _).
    wp_steps. apply wp_psub; [lia|]. replace (x - prevSize) with X by lia. wp_steps. apply wp_assert_that. eapply consistent_spec; [exact Ry|]. split; [done|]. wp_steps.
    eapply wp_mono; [apply (unlink_free _ _ _ _ _ _ Hi Hy); by intros ?%elem_of_nil|]. intros _ s' (m' & ls' & -> & Hi' & Hk). wp_steps. cbn [total]. rewrite u32_small, Z.add_0_r by lia.
    split; [done|]. by exists m', ls'.
Qed.

Lemma right_spec ls s size nextSize sizeAtEnd :
  inv (omap free_tile (placed X gl)) bs ls s -> size + total gr < 2 ^ 32 -> 0 <= size -> (exists nf, (x + sz, nextSize, nf) ∈ all bs /\ sizeAtEnd = nextSize + Z.b2z nf /\ (nf = false /\ gr = [] \/ nf = true /\ gr = [(nextSize, true)])) ->
  wp (if nextSize =? sizeAtEnd then mret size else unlink_from_free_list (x + sz) ;; nextSize ← load (x + sz); mret (u32 (size + nextSize)))
    (fun r s' => r = size + total gr /\ exists m' ls', s' = set_mem m' s /\ inv (omap free_tile (placed X (gl ++ [(sz, false)] ++ gr))) bs ls' s' /\ keeps [] [] bs (mem s) bs m') s.
Proof.
  intros Hi Hsmall Hs0 (nf & Hn & -> & Hg). pose proof around_in as Hxin. destruct (around_parts _ _ _ Hi) as (Tl & _ & _ & _). pose proof Har as [_ Ex Hgl _ _ _ _ _]. fold X in Ex.
  assert (omap free_tile (placed X (gl ++ [(sz, false)] ++ gr)) = omap free_tile (placed X gl) ++ omap free_tile (placed (x + sz) gr)) as EP.
  { rewrite !placed_app, !omap_app. cbn [total placed omap list_omap free_tile app]. rewrite <- Ex, Z.add_0_r. done. }
  rewrite EP. destruct Hg as [[-> ->]|[-> ->]]; cbn [Z.b2z].
  - rewrite Z.add_0_r, Z.eqb_refl. wp_steps. cbn [total placed omap list_omap]. rewrite app_nil_r. split; [lia|]. exists (mem s), ls. destruct s. split; [done|]. split; [done|apply keeps_refl].
  - replace (nextSize =? nextSize + 1) with false by lia. destruct (inv_reg _ _ _ _ _ _ _ Hi Hn) as ([] & _ & _). destruct (inv_reg _ _ _ _ _ _ _ Hi Hxin) as ([] & _ & _).
    apply wp_bind. eapply wp_mono; [apply (unlink_free _ _ _ _ _ _ Hi Hn)|].
    { intros Hin. apply elem_of_free in Hin. destruct (placed_ok _ _ _ _ _ _ Tl Hin) as [[] _]. lia. }
    intros _ s' (m' & ls' & -> & Hi' & Hk). destruct (inv_reg _ _ _ _ _ _ _ Hi' Hn) as ([] & _ & _). wp_steps. apply wp_load; [lia|lia|]. wp_steps. rewrite reg_head1. cbn [total] in *. rewrite u32_small by lia.
    split; [lia|]. exists m', ls'. split; [done|]. split; [|done]. destruct Hi'. split; try done. rewrite inv_frees. cbn [placed omap list_omap free_tile]. solve_Permutation.
Qed.

Lemma used_here y sy : (y, sy, false) ∈ placed X (gl ++ [(sz, false)] ++ gr) -> y = x /\ sy = sz.
Proof.
  destruct Har as [_ Ex Hgl Hgr _ _ _ _]. fold X in Ex. rewrite !placed_app. intros [Hy|Hy]%elem_of_app.
  - exfalso. destruct Hgl as [->|[n ->]]; [by apply elem_of_nil in Hy|by apply list_elem_of_singleton in Hy].
  - apply elem_of_app in Hy as [Hy%list_elem_of_singleton|Hy]; [injection Hy as -> ->; lia|]. exfalso. destruct Hgr as [->|[n ->]]; [by apply elem_of_nil in Hy|by apply list_elem_of_singleton in Hy].
Qed.

(** The region and what is free around it become one free region. *)
Lemma merge_spec ls s : let l2 := gl ++ [(sz, false)] ++ gr in
  inv (omap free_tile (placed X l2)) bs ls s ->
  wp (create_free_region X (total l2) ;; link_to_free_list X) (fun _ s' => exists bs' ls', inv [] bs' ls' s' /\ keeps [x] [] bs (mem s) bs' (mem s')) s.
Proof.
  intros l2 Hi. destruct (around_parts _ _ _ Hi) as (Tl & Tx & Tr & _). pose proof (gap_total _ _ _ Tl) as [Gl Gl4]. pose proof (gap_total _ _ _ Tr) as [Gr Gr4]. destruct Tx as (Hs4 & Hs & _).
  pose proof used_here as Hused. pose proof Har as [Ebs Ex _ _ Hl1 Hl3 Hf1 Hf3]. fold X in Ex. fold l2 in Ebs, Hused. rewrite Ebs in Hi |- *. pose proof (inv_heap _ _ _ _ Hi) as Hh.
  assert (total l2 = total gl + (sz + total gr)) as Et by (unfold l2; rewrite !total_app; cbn [total]; lia).
  destruct (ground _ _ _ _ _ _ _ _ _ Hi) as (_ & _ & HX4). replace s with (set_mem (mem s) s) at 1 by (by destruct s).
  eapply wp_mono; [apply (finish_free _ _ _ _ (commit_site _ _ _ _ _ _ _ _ _ Hi (reflexivity _)) (mem s) X (total l2) (only_refl _ _ _)); try done; [lia..|]|].
  { rewrite Et. by repeat apply Z.divide_add_r. }
  intros _ s' (m2 & u' & ls' & -> & Hls & Hc & _ & Hb & Ht & _).
  destruct (commit _ _ _ _ _ _ _ _ _ Hi (reflexivity _) [x] [] m2 u' ls' [(total l2, true)]) as [Hi' Hk']; try done.
  - cbn [total]. lia.
  - eapply shape_mid; [apply (here_ok _ _ _ _ _ _ _ _ _ Hh)|done|done].
  - eapply no_adj_mid; [apply (here_ok _ _ _ _ _ _ _ _ _ Hh)|done|done|by rewrite Hf1|by rewrite Hf3].
  - intros y sy [-> ->]%Hused _ Hd. exfalso. apply Hd. left.
  - by intros y sy Hy%list_elem_of_singleton.
  - intros y ->%list_elem_of_singleton. fold X. lia.
  - by eexists _, ls'.
Qed.
End release.

Lemma free_spec bs ls s x sz : inv [] bs ls s -> busy bs x sz ->
  wp (free (x + 4)) (fun _ s' => exists bs' ls', inv [] bs' ls' s' /\ keeps [x] [] bs (mem s) bs' (mem s')) s.
Proof.
  intros Hi Hb. destruct (locate_busy _ _ _ _ _ _ Hi Hb) as (bs1 & a & l1 & gl & gr & l3 & bs2 & Har). pose proof (proj1 Hb) as Hx. destruct (inv_reg _ _ _ _ _ _ _ Hi Hx) as (Rx & Hx4 & Hfx).
  pose proof Rx as [Hx0 Hs4 Hs Hhi H32 Hhead Hceil]. destruct (before_tile _ _ _ _ _ _ _ _ _ _ Har) as (y & ps & pf & Hy & Ey & Hg). destruct (inv_reg _ _ _ _ _ _ _ Hi Hy) as (Ry & _ & _).
  pose proof (reg_flag _ _ _ _ Ry) as [Hps0 Hps]. pose proof Ry as [Hy0 Hps4 Hps16 _ _ _ Hyc]. rewrite Ey in Hyc. destruct (after_tile _ _ _ _ _ _ _ _ _ _ Har) as (ns & nf & Hn & Hgr).
  unfold free. replace (x + 4 =? 0) with false by lia. wp_steps. apply wp_psub; [lia|]. replace (x + 4 - 4) with x by lia. wp_steps. apply wp_assert; [by apply aligned_4|]. wp_steps. apply wp_load; [lia..|]. rewrite Hhead. wp_steps.
  apply wp_assert; [unfold sizeof_Region; lia|]. wp_steps. apply wp_assert_that. eapply in_use_spec; [exact Rx|]. split; [done|]. wp_steps. apply wp_psub; [lia|]. wp_steps. apply wp_load; [lia..|].
  rewrite Hyc, ceil_size by (done || lia). cbv zeta. apply wp_bind. eapply wp_mono; [apply (left_spec _ _ _ _ _ _ _ _ _ _ Har _ _ _ _ Hi); by exists y, pf|].
  intros r s1 (-> & m1 & ls1 & -> & Hi1 & Hk1). cbn [fst snd]. destruct (inv_reg _ _ _ _ _ _ _ Hi1 Hx) as (Rx1 & _ & _), (inv_reg _ _ _ _ _ _ _ Hi1 Hn) as (Rn1 & _ & _). pose proof Rn1 as [Hn0 _ Hns Hnhi _ Hnh Hnc].
  wp_steps. eapply next_spec; [exact Rx1|]. wp_steps. apply wp_assert_that. eapply consistent_spec; [exact Rn1|]. split; [done|]. unfold region_payload_end_ptr. wp_steps. eapply next_spec; [exact Rn1|]. apply wp_psub; [lia|].
  wp_steps. apply wp_load; [lia..|]. rewrite Hnc. wp_steps. apply wp_load; [lia..|]. rewrite Hnh.
  destruct (around_parts _ _ _ _ _ _ _ _ _ _ Har _ _ _ Hi1) as (Tl & _ & Tr & Hend & HX). rewrite limit_mem in Hend. pose proof (gap_total _ _ _ Tl) as [Gl _]. pose proof (gap_total _ _ _ Tr) as [Gr _].
  pose proof (ar_x _ _ _ _ _ _ _ _ _ _ Har).
  apply wp_bind. eapply wp_mono; [apply (right_spec _ _ _ _ _ _ _ _ _ _ Har _ _ _ _ _ Hi1); [lia|lia|by exists nf]|].
  intros size s2 (-> & m2 & ls2 & -> & Hi2 & Hk2). replace (sz + total gl + total gr) with (total (gl ++ [(sz, false)] ++ gr)) by (rewrite !total_app; cbn [total]; lia).
  eapply wp_mono; [by apply (merge_spec _ _ _ _ _ _ _ _ _ _ Har ls2)|]. intros _ s3 (bs' & ls3 & Hi3 & Hk3). exists bs', ls3. split; [done|]. eapply keeps_trans_l; [done|]. by eapply keeps_trans_l.
Qed.

(** ** Resizing *)

(** The region at [x] has room for [size] bytes with its headers, and kept its contents. *)
Definition resized (bs : list block) (s : arena) (x sz size : Z) (s' : arena) : Prop :=
  exists bs' ls' sz', inv [] bs' ls' s' /\ keeps [x] [x] bs (mem s) bs' (mem s') /\ busy bs' x sz' /\ size <= sz' /\
    forall b, x + 4 <= b < x + Z.min sz sz' - 4 -> peek (mem s') b = peek (mem s) b.

Lemma resized_trans bs s s1 x sz size s' :
  keeps [] [] bs (mem s) bs (mem s1) -> busy bs x sz -> resized bs s1 x sz size s' -> resized bs s x sz size s'.
Proof.
  intros Hk Hb (bs' & ls' & sz' & H1 & H2 & H3 & H4 & H5). exists bs', ls', sz'. split; [done|]. split; [by eapply keeps_trans_l|]. split; [done|]. split; [done|].
  intros b Hb'. rewrite H5 by done. apply (kp_same _ _ _ _ _ _ Hk x sz b Hb); [by intros ?%elem_of_nil|lia].
Qed.

Section resize.
Context (bs : list block) (x sz : Z) (bs1 : list block) (a : Z) (l1 gl gr l3 : list tile) (bs2 : list block) (Har : around bs x sz bs1 a l1 gl gr l3 bs2).
Let l2 := (sz, false) :: gr.

Lemma around_ground : bs = bs1 ++ (a, (l1 ++ gl) ++ l2 ++ l3) :: bs2 /\ a + total (l1 ++ gl) = x /\ total l2 = sz + total gr.
Proof. destruct Har as [-> -> _ _ _ _ _ _]. rewrite total_app. split_and!; [by rewrite <- !app_assoc|lia|done]. Qed.

Lemma resize_site ls s : inv (omap free_tile (placed x l2)) bs ls s -> site x (sz + total gr) ls s /\ (4 | x).
Proof.
  destruct around_ground as (E & Ex & Et). rewrite E. intros Hi. rewrite <- Et, <- Ex. split; [|by eapply ground]. eapply commit_site; [exact Hi|]. by rewrite Ex.
Qed.

Lemma resize_commit ls s m' u' ls' sz' tl size :
  inv (omap free_tile (placed x l2)) bs ls s -> beyond x (sz + total gr) ls (mem s) m' -> lists_ok m' u' ls' ->
  concat ls' ≡ₚ omap free_tile (placed x ((sz', false) :: tl)) ++ concat ls -> sz' + total tl = sz + total gr -> tiles m' x ((sz', false) :: tl) -> gap tl -> size <= sz' ->
  (forall b, x + 4 <= b < x + Z.min sz sz' - 4 -> peek m' b = peek (mem s) b) -> resized bs s x sz size (set_used u' (set_mem m' s)).
Proof.
  intros Hi Hb Hls Hc Ht Htiles Htl Hsz Hold. destruct around_ground as (E & Ex & Et). pose proof Har as [_ _ _ Hgr Hl1 Hl3 _ Hf3]. rewrite E in Hi |- *. pose proof (inv_heap _ _ _ _ Hi) as Hh.
  assert (omap free_tile (placed x l2) ≡ₚ omap free_tile (placed (a + total (l1 ++ gl)) l2)) as HP by (by rewrite Ex). rewrite <- Et in Hb, Ht. pose proof Htiles as (_ & Hsz16 & _).
  assert (x <> a) as Hxa.
  { destruct (here_tiles _ _ _ _ _ _ _ _ _ Hh) as (T1 & _). apply tiles_total in T1 as [T1 _]. destruct l1; [done|]. cbn [app length] in T1. cbn [app] in Ex. lia. }
  rewrite <- Ex in Hb, Hc, Htiles. destruct (commit _ _ _ _ _ _ _ _ _ Hi HP [x] [x] m' u' ls' ((sz', false) :: tl) Hb Hls Hc) as [Hi' Hk']; rewrite ?Ex; try done.
  - by rewrite <- Ex.
  - eapply shape_mid; [apply (here_ok _ _ _ _ _ _ _ _ _ Hh)|done|]. by destruct l1.
  - eapply no_adj_mid; [apply (here_ok _ _ _ _ _ _ _ _ _ Hh)| |done|apply andb_false_r|by rewrite Hf3, andb_false_r]. destruct Htl as [->|[rs ->]]; done.
  - by destruct l1.
  - intros y sy [[= -> ->]|Hy]%elem_of_cons _ Hd; [exfalso; apply Hd; left|]. exfalso. destruct Hgr as [->|[n ->]]; [by apply elem_of_nil in Hy|by apply list_elem_of_singleton in Hy].
  - intros y sy [[= -> ->]|Hy]%elem_of_cons _; [left; left|]. exfalso. destruct Htl as [->|[n ->]]; [by apply elem_of_nil in Hy|by apply list_elem_of_singleton in Hy].
  - intros y ->%list_elem_of_singleton. rewrite Et. destruct (here_tiles _ _ _ _ _ _ _ _ _ Hh) as (_ & T2 & _). cbn [tiles] in T2. destruct T2 as (_ & ? & _ & _ & Tg%tiles_total). lia.
  - eexists _, ls', sz'. split; [exact Hi'|]. split; [exact Hk'|]. split; [|done]. eapply inside_busy; [apply Hi'|done| |done]. rewrite Ex. left.
Qed.

Lemma resized_same ls s size : inv [] bs ls s -> size <= sz -> busy bs x sz -> resized bs s x sz size s.
Proof.
  intros Hi Hsz Hb. exists bs, ls, sz. split_and!; try done. split; [|done|].
  - intros y sy Hy _. by exists sy.
  - intros y sy Hy. destruct (decide (y = x)) as [->|Hne]; [left; left|right]. split; [by intros ->%list_elem_of_singleton|by exists sy].
Qed.

(** The next region is free and there is room for the new size and a free region. *)
Lemma resize_split ls s ns size :
  gr = [(ns, true)] -> inv [] bs ls s -> busy bs x sz -> (4 | size) -> 16 <= size -> size + 16 <= sz + ns ->
  wp (unlink_from_free_list (x + sz) ;; create_free_region (x + size) (sz + ns - size) ;; link_to_free_list (x + size) ;; create_used_region x size ;; mret true)
    (fun ok s' => ok = true /\ resized bs s x sz size s') s.
Proof.
  intros Eg Hi Hbusy Hs4 Hs Hfit. destruct (after_tile _ _ _ _ _ _ _ _ _ _ Har) as (ns' & nf & Hn & Hgr). rewrite Eg in Hgr. destruct Hgr as [[_ ?]|[-> [= <-]]]; [done|].
  destruct (inv_reg _ _ _ _ _ _ _ Hi Hn) as ([_ Hns4 _ _ _ _ _] & _ & _). destruct (inv_reg _ _ _ _ _ _ _ Hi (around_in _ _ _ _ _ _ _ _ _ _ Har)) as ([Hx0 Hsz4 Hsz _ _ _ _] & Hx4 & _).
  apply wp_bind. eapply wp_mono; [apply (unlink_free _ _ _ _ _ _ Hi Hn); by intros ?%elem_of_nil|]. intros _ s1 (m1 & ls1 & -> & Hi1 & Hk1).
  assert (inv (omap free_tile (placed x l2)) bs ls1 (set_mem m1 s)) as Hi1' by (unfold l2; rewrite Eg; exact Hi1). destruct (resize_site _ _ Hi1') as [Hsite _]. rewrite Eg in Hsite. cbn [total] in Hsite. rewrite Z.add_0_r in Hsite.
  apply wp_seq3. change (set_mem m1 s) with (set_mem m1 (set_mem m1 s)).
  eapply wp_mono; [apply (finish_split _ _ _ _ Hsite m1 x size (sz + ns - size) (only_refl _ _ _)); try done; [lia..|]|].
  { apply Z.divide_sub_r; [by apply Z.divide_add_r|done]. }
  intros _ s' (m3 & u' & ls' & -> & Hls & Hc & Hb & Ht & Hin). wp_steps. split; [done|].
  apply (resized_trans _ s (set_mem m1 s)); [exact Hk1|done|]. eapply (resize_commit _ _ _ _ _ size [(sz + ns - size, true)] size Hi1'); rewrite ?Eg; cbn [total]; rewrite ?Z.add_0_r; try done; [lia|right; by eexists|].
  intros b Hb'. apply Hin. right. lia.
Qed.

(** The next region is swallowed. *)
Lemma resize_merge ls s ns size :
  gr = [(ns, true)] -> inv [] bs ls s -> busy bs x sz -> size <= sz + ns ->
  wp (unlink_from_free_list (x + sz) ;; regionSize ← load x; nextSize ← load (x + sz); create_used_region x (u32 (regionSize + nextSize)) ;; mret true)
    (fun ok s' => ok = true /\ resized bs s x sz size s') s.
Proof.
  intros Eg Hi Hbusy Hfit. destruct (after_tile _ _ _ _ _ _ _ _ _ _ Har) as (ns' & nf & Hn & Hgr). rewrite Eg in Hgr. destruct Hgr as [[_ ?]|[-> [= <-]]]; [done|].
  apply wp_bind. eapply wp_mono; [apply (unlink_free _ _ _ _ _ _ Hi Hn); by intros ?%elem_of_nil|]. intros _ s1 (m1 & ls1 & -> & Hi1 & Hk1).
  destruct (inv_reg _ _ _ _ _ _ _ Hi1 Hn) as ([Hn0 Hns4 Hns Hnhi H32 Hnh _] & _ & _). destruct (inv_reg _ _ _ _ _ _ _ Hi1 (around_in _ _ _ _ _ _ _ _ _ _ Har)) as ([Hx0 Hsz4 Hsz Hhi _ Hh _] & Hx4 & _).
  assert (inv (omap free_tile (placed x l2)) bs ls1 (set_mem m1 s)) as Hi1' by (unfold l2; rewrite Eg; exact Hi1). destruct (resize_site _ _ Hi1') as [Hsite _]. rewrite Eg in Hsite. cbn [total] in Hsite. rewrite Z.add_0_r in Hsite.
  wp_steps. apply wp_load; [lia..|]. wp_steps. apply wp_load; [lia..|]. rewrite Hh, Hnh, u32_small by lia. wp_steps. assert (4 | sz + ns) by (by apply Z.divide_add_r).
  apply (create_spec x (sz + ns) false); [lia|done|done|lia|lia|lia|]. wp_steps. split; [done|]. apply (resized_trans _ s (set_mem m1 s)); [exact Hk1|done|]. cbn [mem set_mem]. set (m3 := create m1 x (sz + ns) false).
  assert (only x (x + (sz + ns)) m1 m3) as Ho by (apply create_only; lia). destruct (create_loads m1 x (sz + ns) false) as [E1 E2]; [lia..|]. fold m3 in E1, E2.
  change (set_mem m3 (set_mem m1 s)) with (set_used (freeRegionBucketsUsed s) (set_mem m3 (set_mem m1 s))).
  eapply (resize_commit ls1 _ m3 _ ls1 (sz + ns) [] size Hi1'); rewrite ?Eg; cbn [total]; rewrite ?Z.add_0_r; try done.
  - intros b Hb _. by apply Ho.
  - apply (ground_lists _ _ _ _ Hsite m3); [done|apply Hi1].
  - cbn [tiles]. split_and!; try done. lia.
  - by left.
  - intros b Hb. unfold m3. apply create_inner; lia.
Qed.

(** The next region is in use and the end of this one becomes free. *)
Lemma resize_shrink ls s size :
  gr = [] -> inv [] bs ls s -> (4 | size) -> 16 <= size -> size + 16 <= sz ->
  wp (create_used_region x size ;; freeRegion ← padd x size; create_free_region freeRegion (sz - size) ;; link_to_free_list freeRegion ;; mret true)
    (fun ok s' => ok = true /\ resized bs s x sz size s') s.
Proof.
  intros Eg Hi Hs4 Hs Hfit. destruct (inv_reg _ _ _ _ _ _ _ Hi (around_in _ _ _ _ _ _ _ _ _ _ Har)) as ([Hx0 Hsz4 Hsz Hhi H32 Hh _] & Hx4 & _).
  assert (inv (omap free_tile (placed x l2)) bs ls s) as Hi' by (unfold l2; rewrite Eg; exact Hi). destruct (resize_site _ _ Hi') as [Hsite _]. rewrite Eg in Hsite. cbn [total] in Hsite. rewrite Z.add_0_r in Hsite.
  wp_steps. apply (create_spec x size false); [lia|done|done|lia|lia|lia|]. wp_steps. apply wp_padd; [lia|]. set (m1 := create (mem s) x size false). destruct (create_loads (mem s) x size false) as [E1 E2]; [lia..|]. fold m1 in E1, E2.
  apply wp_seq2. eapply wp_mono; [apply (finish_free _ _ _ _ Hsite m1 (x + size) (sz - size)); [|lia|lia|lia|by apply Z.divide_add_r|by apply Z.divide_sub_r]|].
  { intros b Hb. apply create_only; lia. }
  intros _ s' (m3 & u' & ls' & -> & Hls & Hc & _ & Hb & Ht & Hin). wp_steps. split; [done|].
  eapply (resize_commit ls _ _ _ _ size [(sz - size, true)] size Hi'); rewrite ?Eg; cbn [total]; rewrite ?Z.add_0_r; try done; [lia| |right; by eexists|].
  - cbn [tiles] in Ht |- *. destruct Ht as (T1 & T2 & T3 & T4 & _).
    assert (forall c, x <= c -> c + 4 <= x + size -> load32 m3 c = load32 m1 c) as Hld by (intros c ? ?; apply load_agree; intros b Hb'; apply Hin; lia).
    rewrite (Hld x), (Hld (x + size - 4)) by lia. split_and!; done.
  - intros b Hb'. rewrite Hin by lia. unfold m1. apply create_inner; lia.
Qed.
End resize.

Lemma region_resize_spec bs ls s x sz size :
  inv [] bs ls s -> busy bs x sz -> (4 | size) -> 16 <= size -> limit s + size + 16 <= 2 ^ 32 ->
  wp (attempt_region_resize x size) (fun ok s' => ok = false /\ s' = s \/ ok = true /\ resized bs s x sz size s') s.
Proof.
  intros Hi Hb Hs4 Hs Hfit. destruct (locate_busy _ _ _ _ _ _ Hi Hb) as (bs1 & a & l1 & gl & gr & l3 & bs2 & Har). pose proof (proj1 Hb) as Hx. destruct (inv_reg _ _ _ _ _ _ _ Hi Hx) as (Rx & Hx4 & Hfx).
  pose proof Rx as [Hx0 Hsz4 Hsz Hhi H32 Hhead Hceil]. destruct (after_tile _ _ _ _ _ _ _ _ _ _ Har) as (ns & nf & Hn & Hgr). destruct (inv_reg _ _ _ _ _ _ _ Hi Hn) as (Rn & _ & _).
  pose proof Rn as [Hn0 Hns4 Hns Hnhi _ Hnh Hnc]. assert (4 | x + size) as Hxs4 by (by apply Z.divide_add_r).
  unfold attempt_region_resize, sizeof_Region. wp_steps. apply wp_assert; [lia|]. wp_steps. apply wp_assert; [by apply aligned_4|]. wp_steps. eapply next_spec; [exact Rx|]. wp_steps. apply wp_load; [lia..|]. rewrite Hnh.
  wp_steps. apply wp_padd; [lia|]. wp_steps. apply wp_psub; [lia|]. wp_steps. apply wp_load; [lia..|]. rewrite Hnc. destruct Hgr as [[-> Eg]|[-> Eg]]; cbn [Z.b2z].
  - rewrite Z.add_0_r, Z.eqb_refl. cbn [negb]. apply wp_bind, wp_load; [lia..|]. rewrite Hhead, u32_small by lia. cbv zeta. destruct (Z.leb_spec (size + 16) sz).
    + rewrite u32_small by lia. eapply wp_mono; [by apply (resize_shrink _ _ _ _ _ _ _ _ _ _ Har ls)|]. intros ok s' Hr. by right.
    + wp_steps. destruct (Z.leb_spec size sz); [right; split; [done|by eapply resized_same]|by left].
  - replace (ns =? ns + 1) with false by lia. cbn [negb]. wp_steps; apply wp_assert_that; (eapply is_free_spec; [exact Rn|]); (split; [done|]); apply wp_bind, wp_padd; [lia|]; apply wp_bind, wp_assert; [by apply aligned_4|].
    apply wp_bind, wp_padd; [lia|]. destruct (Z.leb_spec (x + size + 16) (x + sz + ns)); [|destruct (Z.leb_spec (x + size) (x + sz + ns))].
    + rewrite !u32_small by lia. replace (x + sz + ns - (x + size)) with (sz + ns - size) by lia. replace (x + size - x) with size by lia.
      eapply wp_mono; [apply (resize_split _ _ _ _ _ _ _ _ _ _ Har ls s ns size Eg Hi Hb); [done|lia|lia]|]. intros ok s' Hr. by right.
    + eapply wp_mono; [apply (resize_merge _ _ _ _ _ _ _ _ _ _ Har ls s ns size Eg Hi Hb); lia|]. intros ok s' Hr. by right.
    + wp_steps. by left.
Qed.
End free.
