(* ===== verification/EmmallocCalls.v ===== *)
(** * The interface of emmalloc

    [emmalloc_memalign], [realloc], [calloc] and the others over the invariant:
    what each call does to the regions of the program. *)

From S2P Require Import Prelude Errno Emmalloc EmmallocInv EmmallocBits EmmallocState EmmallocOps EmmallocSteps EmmallocClaim EmmallocAlloc EmmallocSearch EmmallocFree.

Section calls.
Context `{LayoutLaws}.

(** What the allocator itself needs of a request. *)
Record fits (alignment n : Z) : Prop := {
  ft_pos : 0 <= n;
  ft_half : n + 2 ^ 16 + 64 <= 2 ^ 31;
  ft_space : max_pages * PAGESIZE + Z.max alignment 16 + n + 16 <= 2 ^ 32;
  ft_align : alignment <= 2 ^ 20;
}.

(** A request that is far enough from the end of the address space. *)
Record modest (alignment n : Z) : Prop := {
  md_pos : 0 <= n;
  md_half : n + 2 ^ 17 <= 2 ^ 31;
  md_space : max_pages * PAGESIZE + Z.max alignment 16 + n + 32 <= 2 ^ 32;
  md_align : alignment <= 2 ^ 20;
}.

Definition real_size (n : Z) : Z := if SMALLEST_ALLOCATION_SIZE <? n then ALIGN_UP n 4 else SMALLEST_ALLOCATION_SIZE.

Lemma real_size_spec n : 0 <= n -> n + 4 <= 2 ^ 32 -> n <= real_size n <= n + 8 /\ 8 <= real_size n /\ (4 | real_size n).
Proof.
  intros H0' H1. unfold real_size, SMALLEST_ALLOCATION_SIZE. destruct (Z.ltb_spec 8 n).
  - destruct (align_4 n) as (Ha & Hd & _); [lia..|]. split_and!; try done; lia.
  - split_and!; [lia..|by exists 2].
Qed.

Lemma modest_fits alignment n : modest alignment n -> fits alignment n /\ fits alignment (real_size n).
Proof. intros []. pose proof (real_size_spec n ltac:(lia) ltac:(lia)). split; split; lia. Qed.

Lemma validate_size_eq n : 0 <= n -> n + 8 < 2 ^ 32 -> validate_alloc_size n = mret (real_size n).
Proof.
  intros H0' H1. pose proof (real_size_spec n ltac:(lia) ltac:(lia)). unfold validate_alloc_size, REGION_HEADER_SIZE. fold (real_size n). cbv zeta.
  rewrite u32_small by lia. replace (n <? n + 8) with true by lia. replace (n <=? real_size n) with true by lia. done.
Qed.

Lemma validate_alignment_eq alignment : alignment <= 2 ^ 20 -> validate_alloc_alignment alignment = mret (Z.max alignment 16).
Proof. intros Ha. unfold validate_alloc_alignment, MALLOC_ALIGNMENT. cbv zeta. by replace (Z.max alignment 16 <=? 1024 * 1024) with true by lia. Qed.

Lemma real_alignment alignment : 0 <= alignment <= 2 ^ 20 -> IS_POWER_OF_2 alignment = true -> exists k, 4 <= k <= 20 /\ Z.max alignment 16 = 2 ^ k.
Proof.
  intros Ha Hp. destruct (power_of_2 alignment ltac:(lia) Hp) as [->|(k & Hk & ->)]; [by exists 4|]. assert (k <= 20) as Hk' by (apply Z.pow_le_mono_r_iff with 2; lia).
  destruct (Z.le_gt_cases 4 k) as [H4|H4].
  - exists k. split; [lia|]. assert (2 ^ 4 <= 2 ^ k) by (apply Z.pow_le_mono_r; lia). lia.
  - exists 4. split; [lia|]. assert (2 ^ k <= 2 ^ 4) by (apply Z.pow_le_mono_r; lia). lia.
Qed.

(** The checks of the arguments leave the rounded ones. *)
Lemma allocate_rounded fuel alignment n k :
  IS_POWER_OF_2 alignment = true -> alignment <= 2 ^ 20 -> Z.max alignment 16 = 2 ^ k -> 4 <= k <= 20 -> 0 <= n -> n + 2 ^ 16 <= 2 ^ 31 ->
  allocate_memory (S fuel) alignment n = allocate_memory (S fuel) (2 ^ k) (real_size n).
Proof.
  intros Hp Ha Ek Hk Hn Hn'. pose proof (real_size_spec n ltac:(lia) ltac:(lia)) as (? & ? & Hr4). cbn [allocate_memory]. rewrite Hp, is_power_of_2 by lia. unfold MAX_ALLOC_SIZE.
  replace (0xFFFFFFC7 <? n) with false by lia. replace (0xFFFFFFC7 <? real_size n) with false by lia. cbn [negb].
  assert (2 ^ 4 <= 2 ^ k <= 2 ^ 20) by (split; apply Z.pow_le_mono_r; lia). rewrite !validate_alignment_eq, Ek, Z.max_l by lia.
  rewrite (validate_size_eq n), (validate_size_eq (real_size n)) by lia. assert (real_size (real_size n) = real_size n) as ->; [|done].
  unfold real_size at 1, SMALLEST_ALLOCATION_SIZE. destruct (Z.ltb_spec 8 (real_size n)); [|lia]. apply align_4; [lia|lia|done].
Qed.

Lemma memalign_spec bs ls s alignment n :
  inv [] bs ls s -> 0 <= alignment < 2 ^ 32 -> 0 <= n < 2 ^ 32 -> (IS_POWER_OF_2 alignment = true -> fits alignment n) ->
  wp (emmalloc_memalign alignment n) (fun p s' =>
    p = 0 /\ IS_POWER_OF_2 alignment = false /\ s' = s \/ p = 0 /\ missed bs s s' \/ IS_POWER_OF_2 alignment = true /\ exists bs' ls', allocated bs s (Z.max alignment 16) n p bs' ls' s') s.
Proof.
  intros Hi Ha Hn Hm. unfold emmalloc_memalign. apply wp_bind, wp_gets. destruct (IS_POWER_OF_2 alignment) eqn:Hp.
  - specialize (Hm eq_refl) as [H0' Hh Hsp Hal]. destruct (real_alignment alignment ltac:(lia) Hp) as (k & Hk & Ek). change (2 + length (grows s))%nat with (S (S (length (grows s)))).
    rewrite (allocate_rounded _ _ _ k) by (done || lia). destruct (real_size_spec n ltac:(lia) ltac:(lia)) as (Hr1 & Hr2 & Hr3). rewrite Ek in Hsp.
    eapply wp_mono; [eapply (allocate_spec k (real_size n) Hk Hr3 Hr2); [lia|lia|done|destruct bs; lia]|].
    intros p s' [[-> Hmiss]|(bs' & ls' & [])]; right; [by left|right]. split; [done|]. exists bs', ls'. rewrite Ek. split; try done. destruct al_busy as (sz & Hb & ?). exists sz. split; [done|lia].
  - cbn [allocate_memory plus]. rewrite Hp. cbn [negb]. wp_steps. by left.
Qed.

(** ** Contents *)

Definition bytes (m : gmap Z Z) (p : Z) (n : nat) : list Z := (fun i => peek m (p + Z.of_nat i)) <$> seq 0 n.

Lemma bytes_length m p n : length (bytes m p n) = n.
Proof. unfold bytes. by rewrite length_fmap, length_seq. Qed.

Lemma bytes_lookup m p n i : (i < n)%nat -> bytes m p n !! i = Some (peek m (p + Z.of_nat i)).
Proof. intros Hi. unfold bytes. rewrite list_lookup_fmap, lookup_seq_lt by done. done. Qed.

Lemma bytes_ext m m' p n : (forall b, p <= b < p + Z.of_nat n -> peek m' b = peek m b) -> bytes m' p n = bytes m p n.
Proof. intros Hb. unfold bytes. apply list_fmap_ext. intros i j [-> Hj]%lookup_seq. apply Hb. lia. Qed.

Lemma bytes_take m p n k : (k <= n)%nat -> take k (bytes m p n) = bytes m p k.
Proof. intros Hk. unfold bytes. rewrite <- fmap_take. f_equal. rewrite take_seq. f_equal. lia. Qed.

(** What the program holds: at each address its bytes. *)
Record holds (live : gmap Z (list Z)) (bs : list block) (m : gmap Z Z) : Prop := {
  ho_in p c : live !! p = Some c -> (16 | p) /\ c = bytes m p (length c) /\ exists sz, busy bs (p - 4) sz /\ Z.of_nat (length c) + 8 <= sz;
  ho_all x sz : busy bs x sz -> is_Some (live !! (x + 4));
}.

Definition good (live : gmap Z (list Z)) (s : arena) : Prop := exists bs ls, inv [] bs ls s /\ holds live bs (mem s).

(** Blocks of the program do not overlap. *)
Definition separate (live : gmap Z (list Z)) : Prop :=
  forall p q c d, live !! p = Some c -> live !! q = Some d -> p <> q -> p + Z.of_nat (length c) <= q \/ q + Z.of_nat (length d) <= p.

Lemma good_separate live s : good live s -> separate live.
Proof.
  intros (bs & ls & Hi & Hh) p q c d Hp Hq Hne. destruct (ho_in _ _ _ Hh _ _ Hp) as (_ & _ & sp & [Bp _] & ?), (ho_in _ _ _ Hh _ _ Hq) as (_ & _ & sq & [Bq _] & ?).
  destruct (all_disjoint _ _ _ _ _ _ _ _ _ _ (inv_heap _ _ _ _ Hi) Bp Bq) as [[=]|]; lia.
Qed.

(** The header of a block of the program. *)
Lemma good_facts live s p c : good live s -> live !! p = Some c ->
  4 < p /\ (16 | p) /\ limit s < 2 ^ 32 /\ exists sz, load32 (mem s) (p - 4) = sz /\ Z.of_nat (length c) + 8 <= sz /\ 16 <= sz /\ p + sz - 4 <= limit s.
Proof.
  intros (bs & ls & Hi & Hh) Hp. destruct (ho_in _ _ _ Hh _ _ Hp) as (H16 & _ & sz & [Hb _] & Hsz). destruct (inv_reg _ _ _ _ _ _ _ Hi Hb) as ([] & _ & _). split_and!; [lia|done|done|].
  exists sz. split_and!; [done..|lia].
Qed.

(** A block that stays has its bytes. *)
Lemma kept_block live bs m D A bs' m' p c :
  holds live bs m -> keeps D A bs m bs' m' -> live !! p = Some c -> p - 4 ∉ D ->
  (16 | p) /\ c = bytes m' p (length c) /\ exists sz, busy bs' (p - 4) sz /\ Z.of_nat (length c) + 8 <= sz.
Proof.
  intros Hh Hk Hp Hd. destruct (ho_in _ _ _ Hh _ _ Hp) as (H16 & Hc & sz & Hb & Hsz). split; [done|]. split.
  - rewrite Hc at 1. symmetry. apply bytes_ext. intros b Hb'. apply (kp_same _ _ _ _ _ _ Hk (p - 4) sz b Hb Hd). lia.
  - destruct (kp_kept _ _ _ _ _ _ Hk _ _ Hb Hd) as (sz' & ? & Hb2). exists sz'. split; [done|lia].
Qed.

Lemma holds_keeps live bs m bs' m' : holds live bs m -> keeps [] [] bs m bs' m' -> holds live bs' m'.
Proof.
  intros Hh Hk. split.
  - intros p c Hp. apply (kept_block _ _ _ _ _ _ _ _ _ Hh Hk Hp). by intros ?%elem_of_nil.
  - intros x sz Hb. destruct (kp_new _ _ _ _ _ _ Hk _ _ Hb) as [?%elem_of_nil|[_ [sz' Hb']]]; [done|]. by eapply ho_all.
Qed.

(** A block is new or has changed. *)
Lemma holds_insert live bs m D bs' m' p sz n :
  holds live bs m -> keeps D [p - 4] bs m bs' m' -> (D = [] /\ (forall sz', ~ busy bs (p - 4) sz') \/ D = [p - 4]) -> (16 | p) -> busy bs' (p - 4) sz -> Z.of_nat n + 8 <= sz ->
  holds (<[p := bytes m' p n]> live) bs' m'.
Proof.
  intros Hh Hk HD H16 Hb Hsz. split.
  - intros q c [[<- <-]|[Hne Hq]]%lookup_insert_Some; [rewrite bytes_length; split; [done|]; split; [done|by exists sz]|].
    apply (kept_block _ _ _ _ _ _ _ _ _ Hh Hk Hq). destruct HD as [[-> _]| ->]; [by intros ?%elem_of_nil|]. intros ?%list_elem_of_singleton. lia.
  - intros x sx Hx. destruct (decide (x + 4 = p)) as [<-|Hne]; [rewrite lookup_insert_eq; by eexists|]. rewrite lookup_insert_ne by done.
    destruct (kp_new _ _ _ _ _ _ Hk _ _ Hx) as [?%list_elem_of_singleton|[_ [sz' Hb']]]; [lia|]. by eapply ho_all.
Qed.

Lemma holds_delete live bs m bs' m' p : holds live bs m -> keeps [p - 4] [] bs m bs' m' -> holds (delete p live) bs' m'.
Proof.
  intros Hh Hk. split.
  - intros q c [Hne Hq]%lookup_delete_Some. apply (kept_block _ _ _ _ _ _ _ _ _ Hh Hk Hq). intros ?%list_elem_of_singleton. lia.
  - intros x sx Hx. destruct (kp_new _ _ _ _ _ _ Hk _ _ Hx) as [?%elem_of_nil|[Hd [sz' Hb']]]; [done|]. rewrite lookup_delete_ne; [by eapply ho_all|]. intros ->. apply Hd.
    replace (x + 4 - 4) with x by lia. left.
Qed.

(** ** Calls *)

(** The program got [n] bytes at [p]. *)
Record gives (live : gmap Z (list Z)) (alignment n p : Z) (c : list Z) (live' : gmap Z (list Z)) : Prop := {
  gv_aligned : (Z.max alignment 16 | p);
  gv_pos : 0 < p;
  gv_end : p + n < 2 ^ 32;
  gv_new : live !! p = None;
  gv_length : Z.of_nat (length c) = n;
  gv_live : live' = <[p := c]> live;
}.

Lemma div_max alignment p : (Z.max alignment 16 | p) -> IS_POWER_OF_2 alignment = true -> 0 <= alignment <= 2 ^ 20 -> (16 | p).
Proof.
  intros Hd Hp Ha. destruct (real_alignment alignment Ha Hp) as (k & Hk & Ek). rewrite Ek in Hd. eapply Z.divide_trans; [|exact Hd]. exists (2 ^ (k - 4)). replace k with (k - 4 + 4) at 1 by lia. by rewrite Z.pow_add_r by lia.
Qed.

Lemma good_memalign live s alignment n :
  good live s -> 0 <= alignment < 2 ^ 32 -> 0 <= n < 2 ^ 32 -> (IS_POWER_OF_2 alignment = true -> fits alignment n) ->
  wp (emmalloc_memalign alignment n) (fun p s' =>
    p = 0 /\ (IS_POWER_OF_2 alignment = true -> arena_errno s' = ENOMEM) /\ good live s' \/
    IS_POWER_OF_2 alignment = true /\ exists c live', gives live alignment n p c live' /\ good live' s') s.
Proof.
  intros (bs & ls & Hi & Hh) Ha Hn Hm. eapply wp_mono; [by apply (memalign_spec _ _ _ _ _ Hi Ha Hn Hm)|].
  intros p s' [(-> & Ep & ->)|[(-> & bs' & ls' & Hi' & Hk & He)|(Ep & bs' & ls' & Hal)]].
  - left. split; [done|]. split; [by rewrite Ep|by exists bs, ls].
  - left. split; [done|]. split; [done|]. exists bs', ls'. split; [done|]. by eapply holds_keeps.
  - right. split; [done|]. destruct (Hm Ep). destruct Hal as [Hp Hd Hi' Hk (sz & Hb & Hsz) Hnew]. assert (16 | p) as H16 by (by apply (div_max alignment); [|done|lia]).
    destruct (inv_reg _ _ _ _ _ _ _ Hi' (proj1 Hb)) as ([] & _ & _). exists (bytes (mem s') p (Z.to_nat n)), (<[p := bytes (mem s') p (Z.to_nat n)]> live). split.
    + split; try done; [lia| |rewrite bytes_length; lia]. destruct (live !! p) as [c|] eqn:El; [|done]. destruct (ho_in _ _ _ Hh _ _ El) as (_ & _ & sz' & Hb' & _). by apply Hnew in Hb'.
    + exists bs', ls'. split; [done|]. eapply holds_insert; [done|done|by left|done|done|lia].
Qed.

Lemma good_free live s p c : good live s -> live !! p = Some c -> wp (free p) (fun _ s' => good (delete p live) s') s.
Proof.
  intros (bs & ls & Hi & Hh) Hp. destruct (ho_in _ _ _ Hh _ _ Hp) as (_ & _ & sz & Hb & _). replace p with (p - 4 + 4) at 1 by lia.
  eapply wp_mono; [by apply (free_spec _ _ _ _ _ Hi Hb)|]. intros _ s' (bs' & ls' & Hi' & Hk). exists bs', ls'. split; [done|]. by eapply holds_delete.
Qed.

(** Stores into a block of the program. *)
Lemma inv_payload P bs ls s x sz m' : inv P bs ls s -> busy bs x sz -> only (x + 4) (x + sz - 4) (mem s) m' -> inv P bs ls (set_mem m' s) /\ keeps [x] [x] bs (mem s) bs m'.
Proof.
  intros Hi Hb Ho. pose proof (inv_heap _ _ _ _ Hi) as Hh. destruct (inv_reg _ _ _ _ _ _ _ Hi (proj1 Hb)) as ([] & _ & _).
  assert (forall sy f b, (x, sy, f) ∈ all bs -> x <= b < x + sy -> b < x + 4 \/ x + sy - 4 <= b -> peek m' b = peek (mem s) b) as Hsame'.
  { intros sy f b Hy Hby Hout. apply Ho. destruct (all_disjoint _ _ _ _ _ _ _ _ _ _ Hh (proj1 Hb) Hy) as [[= <- _]|[|]]; lia. }
  assert (forall y sy f b, (y, sy, f) ∈ all bs -> y <= b < y + sy -> y <> x -> peek m' b = peek (mem s) b) as Hsame.
  { intros y sy f b Hy Hby Hne. apply Ho. destruct (all_disjoint _ _ _ _ _ _ _ _ _ _ Hh (proj1 Hb) Hy) as [[= -> _]|[|]]; [done|lia..]. }
  split.
  - destruct Hi. split; try done; cbn [mem set_mem].
    + eapply heap_frame; [done| |].
      * intros y sy f Hy. destruct (all_ok _ _ _ _ _ _ _ Hh Hy) as [[] _]. destruct (decide (y = x)) as [->|Hne]; split; apply load_agree; intros b Hb'; [eapply Hsame'; (done || lia)..|eapply Hsame; (done || lia)|eapply Hsame; (done || lia)].
      * intros a l Ha. destruct (root_in _ _ _ _ _ _ Hh Ha) as (r & Hr & ?). assert (a <> x).
        { intros ->. destruct Hb as [_ Hb]. destruct (Hb x (x + total l)) as [? _]; [|done]. unfold bounds. by apply (list_elem_of_fmap_2 (fun b => (fst b, fst b + total (snd b))) _ (x, l)). }
        split; apply load_agree; intros b Hb'; eapply Hsame; (done || lia).
    + eapply lists_frame; [done|]. intros v Hv. apply elem_of_app in Hv as [Hv%heads_low|Hv].
      * destruct (all_ok _ _ _ _ _ _ _ Hh (proj1 Hb)) as [[] _]. split; eapply only_load; try done; lia.
      * apply list_elem_of_fmap in Hv as ([v' sv] & -> & Hv). cbn [fst]. assert ((v', sv, true) ∈ all bs) as Hv' by (apply frees_in; rewrite inv_frees; apply elem_of_app; by right).
        destruct (all_ok _ _ _ _ _ _ _ Hh Hv') as [[] _]. assert (v' <> x) by (intros ->; destruct (all_disjoint _ _ _ _ _ _ _ _ _ _ Hh (proj1 Hb) Hv') as [[=]|]; lia).
        split; apply load_agree; intros b Hb'; eapply Hsame; (done || lia).
  - split.
    + intros y sy Hy _. by exists sy.
    + intros y sy b Hy Hd Hb'. eapply Hsame; [apply Hy|lia|]. intros ->. apply Hd. left.
    + intros y sy Hy. destruct (decide (y = x)) as [->|Hne]; [left; left|right]. split; [by intros ->%list_elem_of_singleton|by exists sy].
Qed.

(** The program writes [m'] in its block at [p] and uses [n] of its bytes. *)
Lemma good_change live s p c m' n :
  good live s -> live !! p = Some c -> only p (p + load32 (mem s) (p - 4) - 8) (mem s) m' -> Z.of_nat n + 8 <= load32 (mem s) (p - 4) -> good (<[p := bytes m' p n]> live) (set_mem m' s).
Proof.
  intros (bs & ls & Hi & Hh) Hp Ho Hn. destruct (ho_in _ _ _ Hh _ _ Hp) as (H16 & _ & sz & Hb & Hsz). destruct (inv_reg _ _ _ _ _ _ _ Hi (proj1 Hb)) as ([] & _ & _). rewrite reg_head in Ho, Hn.
  destruct (inv_payload _ _ _ _ (p - 4) sz m' Hi Hb) as [Hi' Hk].
  { intros b Hout. apply Ho. lia. }
  exists bs, ls. split; [done|]. eapply holds_insert; [done|done|by right|done|done|lia].
Qed.

Lemma good_use live s p c n : good live s -> live !! p = Some c -> Z.of_nat n + 8 <= load32 (mem s) (p - 4) -> good (<[p := bytes (mem s) p n]> live) s.
Proof. intros Hg Hp Hn. pose proof (good_change live s p c (mem s) n Hg Hp (only_refl _ _ _) Hn) as Hg'. by destruct s. Qed.

Lemma good_bytes live s p c i : good live s -> live !! p = Some c -> (i < length c)%nat -> c !! i = Some (peek (mem s) (p + Z.of_nat i)).
Proof. intros (bs & ls & Hi & Hh) Hp Hl. destruct (ho_in _ _ _ Hh _ _ Hp) as (_ & Hc & _). rewrite Hc. by apply bytes_lookup. Qed.

Lemma inside_spec lo b hi : lo <= b < hi /\ (lo <=? b) && (b <? hi) = true \/ (b < lo \/ hi <= b) /\ (lo <=? b) && (b <? hi) = false.
Proof. destruct (Z.leb_spec lo b), (Z.ltb_spec b hi); cbn; lia. Qed.

Lemma copy_peek n dst src m m' b :
  peek (copy_bytes n dst src m m') b = if (dst <=? b) && (b <? dst + Z.of_nat n) then peek m (src + (b - dst)) else peek m' b.
Proof.
  revert dst src m'. induction n as [|n IH]; intros dst src m'; cbn [copy_bytes].
  - by destruct (inside_spec dst b (dst + Z.of_nat 0)) as [[? _]|[_ ->]]; [lia|].
  - rewrite IH. destruct (inside_spec (dst + 1) b (dst + 1 + Z.of_nat n)) as [[? ->]|[? ->]], (inside_spec dst b (dst + Z.of_nat (S n))) as [[? ->]|[? ->]]; try lia; [f_equal; lia| |].
    + assert (b = dst) as -> by lia. unfold peek at 1. rewrite lookup_insert_eq. cbn. f_equal. lia.
    + unfold peek. by rewrite lookup_insert_ne by lia.
Qed.

Lemma fill_peek n dst c m b : peek (fill_bytes n dst c m) b = if (dst <=? b) && (b <? dst + Z.of_nat n) then c else peek m b.
Proof.
  revert dst m. induction n as [|n IH]; intros dst m; cbn [fill_bytes].
  - by destruct (inside_spec dst b (dst + Z.of_nat 0)) as [[? _]|[_ ->]]; [lia|].
  - rewrite IH. destruct (inside_spec (dst + 1) b (dst + 1 + Z.of_nat n)) as [[? ->]|[? ->]], (inside_spec dst b (dst + Z.of_nat (S n))) as [[? ->]|[? ->]]; try lia.
    + assert (b = dst) as -> by lia. unfold peek. by rewrite lookup_insert_eq.
    + unfold peek. by rewrite lookup_insert_ne by lia.
Qed.

Lemma wp_memset dst c n (Q : unit -> arena -> Prop) s : 0 <= dst -> dst + n <= limit s -> Q tt (set_mem (fill_bytes (Z.to_nat n) dst c (mem s)) s) -> wp (memset dst c n) Q s.
Proof. intros H1 H2 HQ. unfold wp, memset, in_memory. unfold limit in H2. by replace ((0 <=? dst) && (dst + n <=? pages s * PAGESIZE)) with true by lia. Qed.

Lemma wp_memcpy dst src n (Q : unit -> arena -> Prop) s :
  0 <= dst -> dst + n <= limit s -> 0 <= src -> src + n <= limit s -> Q tt (set_mem (copy_bytes (Z.to_nat n) dst src (mem s) (mem s)) s) -> wp (memcpy dst src n) Q s.
Proof. intros H1 H2 H3 H4 HQ. unfold wp, memcpy, in_memory. unfold limit in *. by replace (_ && _ && _) with true by lia. Qed.

Definition calloc_ok (n m : Z) : Prop := 0 <= n /\ 0 <= m /\ modest 16 (n * m).

Lemma good_calloc live s n m : good live s -> calloc_ok n m ->
  wp (calloc n m) (fun p s' => p = 0 /\ arena_errno s' = ENOMEM /\ good live s' \/ exists live', gives live 16 (n * m) p (replicate (Z.to_nat (n * m)) 0) live' /\ good live' s') s.
Proof.
  intros Hg (Hn & Hm & Hmod). pose proof Hmod as [H0' Hh _ _]. unfold calloc, MALLOC_ALIGNMENT. cbv zeta. rewrite u32_small by lia. apply wp_bind.
  eapply wp_mono; [apply (good_memalign live s 16 (n * m) Hg); [lia|lia|by intros _; apply modest_fits]|]. intros p s' [(-> & He & Hg')|(_ & c & live' & Hgv & Hg')].
  - wp_steps; [|done]. left. auto.
  - destruct Hgv as [Ha Hp Hend Hnew Hlen ->]. replace (p =? 0) with false by lia. assert ((<[p := c]> live) !! p = Some c) as Hlk by apply lookup_insert_eq.
    destruct (good_facts _ _ _ _ Hg' Hlk) as (_ & _ & H32 & sz & Hsz & Hc & _ & Hl). wp_steps. apply wp_memset; [lia|lia|]. wp_steps. right. set (m' := fill_bytes _ _ _ _).
    exists (<[p := replicate (Z.to_nat (n * m)) 0]> live). split; [split; try done; rewrite length_replicate; lia|].
    replace (replicate (Z.to_nat (n * m)) 0) with (bytes m' p (Z.to_nat (n * m))).
    + rewrite <- (insert_insert_eq live p (bytes m' p (Z.to_nat (n * m))) c). eapply good_change; [done|done| |lia]. intros b Hb. unfold m'. rewrite fill_peek. by destruct (inside_spec p b (p + Z.of_nat (Z.to_nat (n * m)))) as [[? _]|[_ ->]]; [lia|].
    + apply list_eq_same_length with (Z.to_nat (n * m)); [by rewrite length_replicate|by rewrite bytes_length|]. intros i x y Hi.
      rewrite bytes_lookup, lookup_replicate_2 by done. intros [= <-] [= <-]. unfold m'. rewrite fill_peek. destruct (inside_spec p (p + Z.of_nat i) (p + Z.of_nat (Z.to_nat (n * m)))) as [[_ ->]|[? _]]; [done|lia].
Qed.

(** The bytes [c'] begin with those of [c]. *)
Definition keeps_prefix (c c' : list Z) : Prop := take (min (length c) (length c')) c' = take (min (length c) (length c')) c.

Lemma prefix_bytes c m p n : (forall i, (i < min (length c) n)%nat -> c !! i = Some (peek m (p + Z.of_nat i))) -> keeps_prefix c (bytes m p n).
Proof.
  intros Hc. unfold keeps_prefix. rewrite bytes_length. apply list_eq. intros i. destruct (Nat.lt_ge_cases i (min (length c) n)) as [Hi|Hi].
  - rewrite !lookup_take_lt, bytes_lookup by lia. by rewrite Hc.
  - by rewrite !lookup_take_ge by lia.
Qed.

(** The outcome of [realloc] for a block [c] at [p] and [n] bytes. *)
Definition reallocated (live : gmap Z (list Z)) (p : Z) (c : list Z) (n q : Z) (s' : arena) : Prop :=
  q = 0 /\ arena_errno s' = ENOMEM /\ good live s' \/ exists c' live', keeps_prefix c c' /\ gives (delete p live) 16 n q c' live' /\ good live' s'.

(** The block is resized where it lies. *)
Lemma good_resize live s p c n :
  good live s -> live !! p = Some c -> 0 < n -> modest 16 n ->
  wp (attempt_region_resize (p - 4) (u32 (real_size n + REGION_HEADER_SIZE))) (fun ok s' => ok = false /\ s' = s \/ ok = true /\ reallocated live p c n p s') s.
Proof.
  intros Hg Hp Hn [_ Hh Hsp _]. destruct (good_facts _ _ _ _ Hg Hp) as (Hp4 & H16 & H32 & _). destruct Hg as (bs & ls & Hi & Hho). destruct (ho_in _ _ _ Hho _ _ Hp) as (_ & Hc & sz & Hb & Hsz).
  destruct (real_size_spec n ltac:(lia) ltac:(lia)) as (Hr1 & Hr2 & Hr3). unfold REGION_HEADER_SIZE. rewrite u32_small by lia. pose proof (inv_pages _ _ _ _ Hi) as Hpg.
  eapply wp_mono; [apply (region_resize_spec _ _ _ (p - 4) sz (real_size n + 8) Hi Hb); [apply Z.divide_add_r; [done|by exists 2]|lia|unfold limit, PAGESIZE in *; lia]|].
  intros ok s' [[-> ->]|(-> & bs' & ls' & sz' & Hi' & Hk & Hb' & Hsz' & Hsame)]; [by left|right]. split; [done|]. right. destruct (inv_reg _ _ _ _ _ _ _ Hi' (proj1 Hb')) as ([] & _ & _).
  exists (bytes (mem s') p (Z.to_nat n)), (<[p := bytes (mem s') p (Z.to_nat n)]> (delete p live)). split_and!.
  - apply prefix_bytes. intros i Hlt. rewrite Hc, bytes_lookup by lia. f_equal. symmetry. apply Hsame. lia.
  - split; try done; [lia|lia|apply lookup_delete_eq|rewrite bytes_length; lia].
  - exists bs', ls'. split; [done|]. rewrite insert_delete_eq. eapply holds_insert; [exact Hho|exact Hk|by right|done|done|lia].
Qed.

(** A new block is found, the bytes are copied and the old one is released. *)
Lemma good_move live s p c n :
  good live s -> live !! p = Some c -> 0 < n -> modest 16 n ->
  wp (newptr ← emmalloc_memalign 16 (real_size n);
      (if newptr =? 0 then mret tt else
         regionSize ← load (p - 4); memcpy newptr p (Z.min (real_size n) (u32 (regionSize - REGION_HEADER_SIZE))) ;; free p) ;;
      mret newptr) (fun q s' => reallocated live p c n q s') s.
Proof.
  intros Hg Hp Hn Hm. pose proof Hm as [_ Hh Hsp _]. destruct (real_size_spec n ltac:(lia) ltac:(lia)) as (Hr1 & Hr2 & Hr3). apply wp_bind.
  eapply wp_mono; [apply (good_memalign live s 16 (real_size n) Hg); [lia|lia|by intros _; apply modest_fits]|].
  intros q s1 [(-> & He & Hg1)|(_ & c1 & live1 & Hgv & Hg1)]; [rewrite Z.eqb_refl; wp_steps; left; auto|]. destruct Hgv as [Ha Hq Hend Hnew Hlen ->]. replace (q =? 0) with false by lia.
  assert (q <> p) as Hne by (intros ->; congruence). assert ((<[q := c1]> live) !! p = Some c) as Hp1 by (by rewrite lookup_insert_ne). assert ((<[q := c1]> live) !! q = Some c1) as Hq1 by apply lookup_insert_eq.
  destruct (good_facts _ _ _ _ Hg1 Hp1) as (Hp4 & _ & H32 & sz & Esz & Hcs & Hs16 & Hlim), (good_facts _ _ _ _ Hg1 Hq1) as (Hq4 & _ & _ & szq & Eszq & Hcq & _ & Hlimq).
  wp_steps. apply wp_load; [lia..|]. unfold REGION_HEADER_SIZE. rewrite Esz, u32_small by lia. wp_steps. set (L := Z.min (real_size n) (sz - 8)). apply wp_memcpy; [lia..|].
  set (m2 := copy_bytes _ _ _ _ _). assert (good (<[q := bytes m2 q (Z.to_nat n)]> (<[q := c1]> live)) (set_mem m2 s1)) as Hg2.
  { eapply good_change; [done|done| |lia]. intros b Hb. unfold m2. rewrite copy_peek. by destruct (inside_spec q b (q + Z.of_nat (Z.to_nat L))) as [[? _]|[_ ->]]; [lia|]. }
  rewrite insert_insert_eq in Hg2. eapply wp_mono; [eapply (good_free _ _ p c Hg2); by rewrite lookup_insert_ne|]. intros [] s3 Hg3. wp_steps. right.
  exists (bytes m2 q (Z.to_nat n)), (delete p (<[q := bytes m2 q (Z.to_nat n)]> live)). split_and!; [| |done].
  - apply prefix_bytes. intros i Hi. rewrite (good_bytes _ _ _ _ _ Hg1 Hp1) by lia. f_equal. unfold m2. rewrite copy_peek. destruct (inside_spec q (q + Z.of_nat i) (q + Z.of_nat (Z.to_nat L))) as [[_ ->]|[? _]]; [f_equal; lia|lia].
  - split; try done; [lia|by rewrite lookup_delete_ne|rewrite bytes_length; lia|by rewrite delete_insert_ne].
Qed.

Lemma good_realloc live s p c n : good live s -> live !! p = Some c -> 0 < n -> modest 16 n -> wp (realloc p n) (fun q s' => reallocated live p c n q s') s.
Proof.
  intros Hg Hp Hn Hm. pose proof Hm as [_ Hh _ _]. destruct (good_facts _ _ _ _ Hg Hp) as (Hp4 & H16 & _). unfold realloc, emmalloc_aligned_realloc, MAX_ALLOC_SIZE, MALLOC_ALIGNMENT.
  replace (p =? 0) with false by lia. replace (n =? 0) with false by lia. replace (_ <? n) with false by lia. wp_steps. apply wp_assert; [done|]. wp_steps. apply wp_assert; [by apply aligned_16|].
  rewrite validate_size_eq by lia. wp_steps. apply wp_psub; [lia|]. wp_steps. eapply wp_mono; [by apply (good_resize live s p c n)|]. intros ok s' [[-> ->]|[-> Hr]]; [by apply good_move|by wp_steps].
Qed.
End calls.
