(* ===== verification/EmmallocProps.v ===== *)
(** * Properties of emmalloc

    A program that uses the allocator sees a map of disjoint blocks that keep
    their contents: every session of calls is one of the abstract machine below. *)

From S2P Require Import Prelude Errno Emmalloc EmmallocInv EmmallocBits EmmallocState EmmallocOps EmmallocSteps EmmallocClaim EmmallocAlloc EmmallocSearch EmmallocFree EmmallocCalls.

(** ** Programs *)

(** The calls of a program; it also reads and writes its blocks, and other code of
    it may grow the memory. *)
Inductive call :=
| Malloc (n : Z)
| Calloc (num size : Z)
| Aligned_alloc (alignment n : Z)
| Posix_memalign (alignment n : Z)
| Free (p : Z)
| Realloc (p n : Z)
| Reallocarray (p nmemb size : Z)
| Usable (p : Z)
| Read (p : Z) (i : nat)
| Write (p : Z) (i : nat) (v : Z)
| Grow (n : Z).

(** What a call returns and stores, and [errno] after it. *)
Record result := Res { ret : Z; out : option Z; err : Z }.

Definition event : Type := call * result.

Definition read_byte (a : Z) : M arena Z := fun s => if in_memory a 1 s then Done (peek (mem s) a) s else Stop Trap s.
Definition write_byte (a v : Z) : M arena unit := fun s => if in_memory a 1 s then Done tt (set_mem (<[a := v]> (mem s)) s) else Stop Trap s.

Section program.
Context `{Layout}.

Definition exec (c : call) : M arena result :=
  r ← match c with
      | Malloc n => p ← malloc n; mret (p, None)
      | Calloc num size => p ← calloc num size; mret (p, None)
      | Aligned_alloc alignment n => p ← aligned_alloc alignment n; mret (p, None)
      | Posix_memalign alignment n => posix_memalign alignment n
      | Free p => free p ;; mret (0, None)
      | Realloc p n => q ← realloc p n; mret (q, None)
      | Reallocarray p nmemb size => q ← reallocarray p nmemb size; mret (q, None)
      | Usable p => n ← malloc_usable_size p; mret (n, None)
      | Read p i => v ← read_byte (p + Z.of_nat i); mret (v, None)
      | Write p i v => write_byte (p + Z.of_nat i) v ;; mret (0, None)
      | Grow n => old ← memory_grow n; mret (old, None)
      end;
  e ← gets arena_errno; mret (Res (fst r) (snd r) e).

(** A program chooses each call by what it has seen. *)
Fixpoint run (client : list event -> call) (n : nat) (evs : list event) : M arena (list event) :=
  match n with
  | O => mret evs
  | S n' => let c := client evs in r ← exec c; run client n' (evs ++ [(c, r)])
  end.

(** ** The abstract machine *)

(** A request for a new block. *)
Definition obtained (live : gmap Z (list Z)) (alignment n : Z) (r : result) (live' : gmap Z (list Z)) : Prop :=
  ret r = 0 /\ err r = ENOMEM /\ live' = live \/ exists c, gives live alignment n (ret r) c live'.

Definition changed (live : gmap Z (list Z)) (p n : Z) (r : result) (live' : gmap Z (list Z)) : Prop :=
  if p =? 0 then obtained live 16 n r live' else
  if n =? 0 then ret r = 0 /\ live' = delete p live else
  ret r = 0 /\ err r = ENOMEM /\ live' = live \/
  exists c c', live !! p = Some c /\ keeps_prefix c c' /\ gives (delete p live) 16 n (ret r) c' live'.

(** What each call does to the blocks. *)
Definition effect (live : gmap Z (list Z)) (c : call) (r : result) (live' : gmap Z (list Z)) : Prop :=
  match c with
  | Malloc n => obtained live 16 n r live'
  | Calloc num size => ret r = 0 /\ err r = ENOMEM /\ live' = live \/ gives live 16 (num * size) (ret r) (replicate (Z.to_nat (num * size)) 0) live'
  | Aligned_alloc alignment n =>
      if (alignment mod 4 =? 0) && (n mod alignment =? 0) && IS_POWER_OF_2 alignment then obtained live alignment n r live' else ret r = 0 /\ live' = live
  | Posix_memalign alignment n =>
      if negb (alignment mod 4 =? 0) then ret r = 22 /\ out r = None /\ live' = live else
      ret r = 12 /\ out r = Some 0 /\ live' = live \/
      IS_POWER_OF_2 alignment = true /\ ret r = 0 /\ exists p c, out r = Some p /\ gives live alignment n p c live'
  | Free p => live' = if p =? 0 then live else delete p live
  | Realloc p n => changed live p n r live'
  | Reallocarray p nmemb size => if 2 ^ 32 <=? nmemb * size then ret r = 0 /\ err r = ENOMEM /\ live' = live else changed live p (nmemb * size) r live'
  | Usable p =>
      if p =? 0 then ret r = 0 /\ live' = live else
      exists c c', live !! p = Some c /\ (length c <= length c')%nat /\ keeps_prefix c c' /\ Z.of_nat (length c') = ret r /\ live' = <[p := c']> live
  | Read p i => exists c, live !! p = Some c /\ c !! i = Some (ret r) /\ live' = live
  | Write p i v => exists c, live !! p = Some c /\ live' = <[p := <[i := v]> c]> live
  | Grow n => live' = live
  end.

(** What a program may ask for. *)
Definition owns_or_null (live : gmap Z (list Z)) (p : Z) : Prop := p = 0 \/ is_Some (live !! p).

Definition allowed (live : gmap Z (list Z)) (c : call) : Prop :=
  match c with
  | Malloc n => modest 16 n
  | Calloc num size => calloc_ok num size
  | Aligned_alloc alignment n => 0 < alignment < 2 ^ 32 /\ 0 <= n < 2 ^ 32 /\ (IS_POWER_OF_2 alignment = true -> modest alignment n)
  | Posix_memalign alignment n => 0 <= alignment < 2 ^ 32 /\ 0 <= n < 2 ^ 32 /\ (IS_POWER_OF_2 alignment = true -> modest alignment n)
  | Free p | Usable p => owns_or_null live p
  | Realloc p n => owns_or_null live p /\ modest 16 n
  | Reallocarray p nmemb size => owns_or_null live p /\ (nmemb * size < 2 ^ 32 -> modest 16 (nmemb * size))
  | Read p i => exists c, live !! p = Some c /\ (i < length c)%nat
  | Write p i v => 0 <= v < 256 /\ exists c, live !! p = Some c /\ (i < length c)%nat
  | Grow n => 0 <= n
  end.

Inductive session : list event -> gmap Z (list Z) -> Prop :=
| session_nil : session [] ∅
| session_snoc evs live c r live' : session evs live -> allowed live c -> effect live c r live' -> separate live' -> session (evs ++ [(c, r)]) live'.

(** The state the program starts in. *)
Record initial (s : arena) : Prop := {
  in_none : listOfAllRegions s = 0;
  in_unused : freeRegionBucketsUsed s = 0;
  in_buckets i : (i < 64)%nat -> links (mem s) (bucket_head (Z.of_nat i)) (bucket_head (Z.of_nat i));
  in_end : __heap_end <= pages s * PAGESIZE;
  in_pages : pages s <= max_pages;
}.
End program.

(** ** Every call is one of the machine *)

Section simulation.
Context `{LayoutLaws}.

Lemma initial_good s : initial s -> good ∅ s.
Proof.
  intros [Hn Hu Hb He Hp]. exists [], (replicate 64 []). split.
  - split; try done.
    rewrite Hu. split; [by rewrite length_replicate| | |lia|].
    + intros i l [-> Hi]%lookup_replicate. by apply Hb.
    + by intros i l t [-> Hi]%lookup_replicate ?%elem_of_nil.
    + by intros i l [-> Hi]%lookup_replicate.
  - split; [intros p c Hl; by rewrite lookup_empty in Hl|]. by intros x sz [?%elem_of_nil _].
Qed.

(** A result that is a pointer. *)
Definition pointer (p : Z) (s : arena) : result := Res p None (arena_errno s).

Lemma exec_pointer (m : M arena Z) live c s :
  wp m (fun p s' => exists live', effect live c (pointer p s') live' /\ good live' s') s ->
  wp (r ← (p ← m; mret (p, None)); e ← gets arena_errno; mret (Res (fst r) (snd r) e)) (fun r s' => exists live', effect live c r live' /\ good live' s') s.
Proof. intros Hm. wp_steps. eapply wp_mono; [exact Hm|]. intros p s' Hp. by wp_steps. Qed.

Lemma obtain_spec live s alignment n : good live s -> 0 <= alignment -> IS_POWER_OF_2 alignment = true -> modest alignment n ->
  wp (emmalloc_memalign alignment n) (fun p s' => exists live', obtained live alignment n (pointer p s') live' /\ good live' s') s.
Proof.
  intros Hg Ha Hp Hm. pose proof Hm as [? ? _ ?]. eapply wp_mono; [apply (good_memalign live s alignment n Hg); [lia|lia|by intros _; apply modest_fits]|].
  intros p s' [(-> & He & Hg')|(_ & c & live' & Hgv & Hg')]; [exists live; split; [left; auto|done]|]. exists live'. split; [right; by exists c|done].
Qed.

Lemma aligned_alloc_spec live s alignment n : good live s -> allowed live (Aligned_alloc alignment n) ->
  wp (aligned_alloc alignment n) (fun p s' => exists live', effect live (Aligned_alloc alignment n) (pointer p s') live' /\ good live' s') s.
Proof.
  intros Hg (Ha & Hn & Hm). unfold aligned_alloc, effect. destruct (alignment mod 4 =? 0); cbn [negb andb]; [|wp_steps; by exists live]. replace (alignment =? 0) with false by lia.
  destruct (n mod alignment =? 0); cbn [negb andb]; [|wp_steps; by exists live]. destruct (IS_POWER_OF_2 alignment) eqn:Hp; [apply obtain_spec; auto; lia|].
  eapply wp_mono; [apply (good_memalign live s alignment n Hg); [lia|lia|by rewrite Hp]|]. intros p s' [(-> & _ & Hg')|[Hp' _]]; [by exists live|congruence].
Qed.

Lemma posix_memalign_spec live s alignment n : good live s -> allowed live (Posix_memalign alignment n) ->
  wp (posix_memalign alignment n) (fun r s' => exists live', effect live (Posix_memalign alignment n) (Res (fst r) (snd r) (arena_errno s')) live' /\ good live' s') s.
Proof.
  intros Hg (Ha & Hn & Hm). unfold posix_memalign, effect. destruct (alignment mod 4 =? 0); cbn [negb]; [|wp_steps; by exists live]. wp_steps.
  eapply wp_mono; [apply (good_memalign live s alignment n Hg); [lia|lia|intros Hp; by apply modest_fits, Hm]|]. intros p s' [(-> & _ & Hg')|(Hp & c & live' & Hgv & Hg')]; wp_steps.
  - exists live. split; [left; done|done].
  - exists live'. split; [right|done]. replace (p =? 0) with false by (destruct Hgv; lia). split; [done|]. split; [done|]. by exists p, c.
Qed.

Lemma realloc_spec live s p n : good live s -> owns_or_null live p -> modest 16 n ->
  wp (realloc p n) (fun q s' => exists live', changed live p n (pointer q s') live' /\ good live' s') s.
Proof.
  intros Hg Hown Hm. unfold changed. destruct (Z.eqb_spec p 0) as [->|Hp].
  - unfold realloc, emmalloc_aligned_realloc. rewrite Z.eqb_refl. by apply obtain_spec.
  - destruct Hown as [|[c Hc]]; [done|]. destruct (Z.eqb_spec n 0) as [->|Hn].
    + unfold realloc, emmalloc_aligned_realloc. replace (p =? 0) with false by lia. rewrite Z.eqb_refl. wp_steps. eapply wp_mono; [by apply (good_free live s p c)|]. intros [] s' Hg'. wp_steps. by exists (delete p live).
    + pose proof (md_pos _ _ Hm). eapply wp_mono; [apply (good_realloc live s p c n Hg Hc); [lia|done]|]. intros q s' [(-> & He & Hg')|(c' & live' & Hpre & Hgv & Hg')].
      * exists live. split; [left; auto|done].
      * exists live'. split; [right; by exists c, c'|done].
Qed.

Lemma usable_spec live s p : good live s -> owns_or_null live p ->
  wp (malloc_usable_size p) (fun n s' => exists live', effect live (Usable p) (pointer n s') live' /\ good live' s') s.
Proof.
  intros Hg Hown. unfold malloc_usable_size, effect. destruct (Z.eqb_spec p 0) as [->|Hp]; [wp_steps; by exists live|]. destruct Hown as [|[c Hc]]; [done|].
  destruct (good_facts _ _ _ _ Hg Hc) as (Hp4 & H16 & H32 & sz & Esz & Hcs & Hs16 & Hlim). pose proof Hg as (bs & ls & Hi & Hh). destruct (ho_in _ _ _ Hh _ _ Hc) as (_ & _ & sz' & Hb & _).
  destruct (inv_reg _ _ _ _ _ _ _ Hi (proj1 Hb)) as (Hr & Hx4 & _). wp_steps. apply wp_psub; [lia|]. wp_steps. apply wp_assert; [by apply aligned_4|]. wp_steps. apply wp_load; [lia..|]. rewrite Esz.
  wp_steps. apply wp_assert; [unfold sizeof_Region; lia|]. wp_steps. apply wp_assert_that. eapply in_use_spec; [exact Hr|]. split; [done|]. wp_steps. unfold REGION_HEADER_SIZE. rewrite u32_small by lia.
  exists (<[p := bytes (mem s) p (Z.to_nat (sz - 8))]> live). split; [|by eapply good_use; [| |lia]]. exists c, (bytes (mem s) p (Z.to_nat (sz - 8))). rewrite bytes_length. split; [done|]. split; [lia|].
  split; [|by split; [cbn; lia|]]. apply prefix_bytes. intros i Hi'. by apply (good_bytes live s p c i Hg Hc); lia.
Qed.

Lemma read_spec live s p i : good live s -> allowed live (Read p i) ->
  wp (read_byte (p + Z.of_nat i)) (fun v s' => exists live', effect live (Read p i) (pointer v s') live' /\ good live' s') s.
Proof.
  intros Hg (c & Hc & Hi). destruct (good_facts _ _ _ _ Hg Hc) as (Hp4 & _ & _ & sz & _ & Hcs & _ & Hlim). unfold wp, read_byte, in_memory. unfold limit in Hlim. replace (_ && _) with true by lia.
  exists live. split; [|done]. exists c. split; [done|]. split; [|done]. by apply (good_bytes live s p c i).
Qed.

Lemma write_spec live s p i v : good live s -> allowed live (Write p i v) ->
  wp (write_byte (p + Z.of_nat i) v) (fun _ s' => exists live', effect live (Write p i v) (pointer 0 s') live' /\ good live' s') s.
Proof.
  intros Hg (Hv & c & Hc & Hi). destruct (good_facts _ _ _ _ Hg Hc) as (Hp4 & _ & _ & sz & Esz & Hcs & _ & Hlim). unfold wp, write_byte, in_memory. unfold limit in Hlim. replace (_ && _) with true by lia.
  set (m' := <[p + Z.of_nat i := v]> (mem s)). exists (<[p := <[i := v]> c]> live). split; [by exists c|].
  assert (<[i := v]> c = bytes m' p (length c)) as ->.
  { apply list_eq_same_length with (length c); [by rewrite bytes_length|by rewrite length_insert|]. intros j x y Hj. rewrite (bytes_lookup m' p (length c) j Hj). intros Hx [= <-]. unfold m', peek.
    destruct (decide (i = j)) as [->|Hne]; [rewrite list_lookup_insert_eq in Hx by done; rewrite lookup_insert_eq; by injection Hx|].
    rewrite list_lookup_insert_ne in Hx by done. rewrite lookup_insert_ne by lia. rewrite (good_bytes live s p c j Hg Hc Hj) in Hx. by injection Hx. }
  eapply good_change; [done|done| |lia]. intros b Hb. unfold m', peek. by rewrite lookup_insert_ne by lia.
Qed.

Lemma grow_spec live s n : good live s -> 0 <= n -> wp (memory_grow n) (fun _ s' => good live s') s.
Proof.
  intros (bs & ls & Hi & Hh) Hn. assert (forall g, good live (Arena (mem s) (listOfAllRegions s) (freeRegionBucketsUsed s) (pages s) g (arena_errno s))) as Hsame.
  { intros g. exists bs, ls. split; [destruct Hi; by split|done]. }
  unfold wp, memory_grow. destruct (grows s) as [|[|] g] eqn:Eg; [by exists bs, ls| |apply Hsame]. destruct (Z.leb_spec (pages s + n) max_pages); [|apply Hsame]. exists bs, ls. split; [|done].
  destruct Hi. split; try done; unfold limit, PAGESIZE in *; cbn [pages mem listOfAllRegions freeRegionBucketsUsed]; [|lia]. eapply heap_mono; [done|lia].
Qed.

Lemma reallocarray_spec live s p nmemb size : good live s -> allowed live (Reallocarray p nmemb size) ->
  wp (reallocarray p nmemb size) (fun q s' => exists live', effect live (Reallocarray p nmemb size) (pointer q s') live' /\ good live' s') s.
Proof.
  intros Hg [Hown Hm]. unfold reallocarray, effect. destruct (Z.leb_spec (2 ^ 32) (nmemb * size)).
  - wp_steps. exists live. split; [done|]. destruct Hg as (bs & ls & Hi & Hh). exists bs, ls. split; [destruct Hi; by split|done].
  - apply realloc_spec; auto.
Qed.

Lemma free_call_spec live s p : good live s -> owns_or_null live p -> wp (free p) (fun _ s' => good (if p =? 0 then live else delete p live) s') s.
Proof.
  intros Hg Hown. destruct (Z.eqb_spec p 0) as [->|Hp]; [unfold free; rewrite Z.eqb_refl; by wp_steps|]. destruct Hown as [|[c Hc]]; [done|]. by apply (good_free live s p c).
Qed.

Lemma exec_spec live s c : good live s -> allowed live c -> wp (exec c) (fun r s' => exists live', effect live c r live' /\ good live' s') s.
Proof.
  intros Hg Hc. unfold exec. destruct c; try apply exec_pointer; cbn [allowed] in Hc.
  - by apply obtain_spec.
  - eapply wp_mono; [by apply good_calloc|]. intros p s' [(-> & He & Hg')|(live' & Hgv & Hg')]; [exists live; split; [left; auto|done]|]. exists live'. split; [by right|done].
  - by apply aligned_alloc_spec.
  - wp_steps. eapply wp_mono; [by apply posix_memalign_spec|]. intros r s' Hr. by wp_steps.
  - wp_steps. eapply wp_mono; [by apply free_call_spec|]. intros [] s' Hg'. wp_steps. by eexists.
  - destruct Hc. by apply realloc_spec.
  - by apply reallocarray_spec.
  - by apply usable_spec.
  - by apply read_spec.
  - wp_steps. eapply wp_mono; [by apply write_spec|]. intros [] s' Hr. by wp_steps.
  - wp_steps. eapply wp_mono; [by apply grow_spec|]. intros old s' Hr. wp_steps. by exists live.
Qed.

(** The calls a program makes are allowed as long as the answers are those of the machine. *)
Definition proper (client : list event -> call) : Prop := forall evs live, session evs live -> allowed live (client evs).

Lemma run_spec client n evs live s :
  proper client -> session evs live -> good live s -> wp (run client n evs) (fun evs' s' => length evs' = (length evs + n)%nat /\ exists live', session evs' live' /\ good live' s') s.
Proof.
  intros Hp. revert evs live s. induction n as [|n IH]; intros evs live s Hs Hg; cbn [run]; wp_steps; [split; [lia|by exists live]|].
  eapply wp_mono; [apply (exec_spec live s (client evs) Hg); by apply Hp|]. intros r s' (live' & He & Hg').
  eapply wp_mono; [apply (IH (evs ++ [(client evs, r)]) live' s'); [|done]|].
  - econstructor; [done|by apply Hp|done|by eapply good_separate].
  - intros evs' s2 [Hl Hr]. split; [|done]. rewrite Hl, length_app. cbn. lia.
Qed.

(** C3: emmalloc implements a map of disjoint blocks, for programs that stay
    away from the limits of the address space. The program only passes pointers
    it was given and has not released; each size (for calloc and reallocarray
    the product, which must not overflow for calloc) is at most 2^31 - 2^17, each
    alignment at most 2^20, and the largest memory the host allows, at most
    65535 pages, plus size, alignment and 32 stays within 2^32. Such a program
    gets through any number of calls of malloc, calloc, aligned_alloc,
    posix_memalign, free, realloc, reallocarray and malloc_usable_size, with other
    code growing the memory in between and the host refusing to grow it at any time:
    every call returns, and what the program sees is a run of the abstract machine,
    in which a block is aligned, at a fresh address, disjoint from all others and
    keeps its bytes until it is released, calloc clears and realloc keeps the prefix.
    Beyond these limits the code misbehaves: [malloc_huge_traps], [calloc_overflows]. *)
Theorem emmalloc_refines client n s :
  initial s -> proper client ->
  exists evs s' live, run client n [] s = Done evs s' /\ length evs = n /\ session evs live.
Proof.
  intros Hs Hp. pose proof (run_spec client n [] ∅ s Hp session_nil (initial_good s Hs)) as Hr. apply wp_done in Hr as (evs & s' & E & Hl & live & Hse & _). by exists evs, s', live.
Qed.

(** ** Merging *)

Lemma whole_block bs m lim h a l : heap_ok m lim h bs -> (forall x sz, ~ busy bs x sz) -> (a, l) ∈ bs -> exists r, l = [(r, false); (16, false)] \/ exists n, l = [(r, false); (n, true); (16, false)].
Proof.
  intros Hh Hno Hin. pose proof (heap_block _ _ _ _ _ _ Hh Hin) as [_ _ _ (r & mid & ->) Hn _ _]. apply list_elem_of_split in Hin as (bs1 & bs2 & ->). exists r.
  assert (forall k1 sz k2, mid = k1 ++ (sz, false) :: k2 -> False) as Hfree.
  { intros k1 sz k2 ->. replace ((r, false) :: (k1 ++ (sz, false) :: k2) ++ [(16, false)]) with (((r, false) :: k1) ++ [(sz, false)] ++ (k2 ++ [(16, false)])) in * by (by cbn; rewrite <- app_assoc).
    destruct (here_tiles _ _ _ _ _ _ _ _ _ Hh) as (T1 & _ & _). apply tiles_total in T1 as [T1 _]. apply (Hno (a + total ((r, false) :: k1)) sz).
    eapply inside_busy; [exact Hh|by destruct k2|left|]. cbn [length] in T1. lia. }
  rewrite app_comm_cons in Hn. apply no_adj_app in Hn as (Hn & _ & _). apply no_adj_cons in Hn as [_ Hn]. destruct mid as [|[n1 f1] [|[n2 f2] mid]]; [by left| |].
  - destruct f1; [right; by exists n1|]. by destruct (Hfree [] n1 []).
  - exfalso. destruct f1; [|by eapply (Hfree [] n1)]. destruct f2; [|by eapply (Hfree [(n1, true)] n2)]. by destruct Hn.
Qed.

(** C7: emmalloc loses no memory. After any session of a program that keeps to
    the limits of the previous theorem, the regions tile each stretch of memory that was claimed, no two
    free regions are neighbours and the free lists hold exactly the free regions,
    each in the list of its size; and when the program has released all its
    blocks, each stretch is again one free region between its root and its
    sentinel. *)
Theorem emmalloc_merges client n s :
  initial s -> proper client ->
  exists evs s' live bs ls, run client n [] s = Done evs s' /\ session evs live /\ inv [] bs ls s' /\
    (live = ∅ -> forall a l, (a, l) ∈ bs -> exists r, l = [(r, false); (16, false)] \/ exists sz, l = [(r, false); (sz, true); (16, false)]).
Proof.
  intros Hs Hp. pose proof (run_spec client n [] ∅ s Hp session_nil (initial_good s Hs)) as Hr. apply wp_done in Hr as (evs & s' & E & _ & live & Hse & bs & ls & Hi & Hh).
  exists evs, s', live, bs, ls. split_and!; try done. intros -> a l Hin. eapply whole_block; [apply Hi| |done]. intros x sz Hb. destruct (ho_all _ _ _ Hh _ _ Hb) as [c Hc]. by rewrite lookup_empty in Hc.
Qed.
End simulation.

(** ** Buckets *)

(** The first size of each bucket, from the comment above [compute_free_list_bucket]. *)
Definition bucket_table : list Z :=
  [8; 16; 24; 32; 40; 48; 56; 64; 72; 80; 88; 96; 104; 112; 120; 160; 192; 224; 256; 320; 384; 448; 512; 640; 768; 896; 1024; 1280; 1536; 1792; 2048; 2560;
   3072; 3584; 6144; 8192; 12288; 16384; 24576; 32768; 49152; 65536; 98304; 131072; 196608; 262144; 393216; 524288; 786432; 1048576; 1572864; 2097152;
   3145728; 4194304; 6291456; 8388608; 12582912; 16777216; 25165824; 33554432; 50331648; 67108864; 100663296; 134217728].

Lemma bucket_monotone a b : 8 <= a <= b -> b < 2 ^ 32 -> bucket_index a <= bucket_index b.
Proof.
  intros Ha Hb. destruct (Z.ltb_spec b 128) as [Hb'|Hb'].
  - unfold bucket_index. replace (a <? 128) with true by lia. replace (b <? 128) with true by lia. rewrite !Z.shiftr_div_pow2 by lia. change (2 ^ 3) with 8.
    pose proof (Z.div_le_mono a b 8 ltac:(lia) ltac:(lia)). assert (b / 8 < 16) by (apply Z.div_lt_upper_bound; lia). assert (1 <= a / 8) by (apply Z.div_le_lower_bound; lia). rewrite !i32_small by lia. lia.
  - destruct (bucket_formula b ltac:(lia)) as [Hkb ->]. destruct (bucket_quot b ltac:(lia)) as (_ & Hb1 & Hb2). destruct (Z.ltb_spec a 128) as [Ha'|Ha'].
    + unfold bucket_index. replace (a <? 128) with true by lia. rewrite !Z.shiftr_div_pow2 by lia. change (2 ^ 3) with 8.
      assert (1 <= a / 8 < 16) by (split; [apply Z.div_le_lower_bound; lia|apply Z.div_lt_upper_bound; lia]). rewrite i32_small by lia. destruct (Z.ltb_spec (Z.log2 b) 12); lia.
    + destruct (bucket_formula a ltac:(lia)) as [Hka ->]. destruct (bucket_quot a ltac:(lia)) as (_ & Ha1 & Ha2). pose proof (Z.log2_le_mono a b ltac:(lia)) as Hl.
      destruct (Z.eq_dec (Z.log2 a) (Z.log2 b)) as [El|Hne]; [|destruct (Z.ltb_spec (Z.log2 a) 12), (Z.ltb_spec (Z.log2 b) 12); lia]. rewrite El in *.
      assert (a / 2 ^ (Z.log2 b - 2) <= b / 2 ^ (Z.log2 b - 2)) by (apply Z.div_le_mono; lia). assert (a / 2 ^ (Z.log2 b - 1) <= b / 2 ^ (Z.log2 b - 1)) by (apply Z.div_le_mono; lia).
      destruct (Z.ltb_spec (Z.log2 b) 12); lia.
Qed.

(** The table, checked at both ends of every bucket. *)
Definition table_checked : bool :=
  forallb (fun i => (bucket_index (nth i bucket_table 0) =? Z.of_nat i) && (bucket_index (nth (S i) bucket_table (2 ^ 32) - 1) =? Z.of_nat i)) (seq 0 64).

Lemma table_ends i lo : bucket_table !! i = Some lo ->
  (i < 64)%nat /\ 8 <= lo < 2 ^ 32 /\ nth (S i) bucket_table (2 ^ 32) <= 2 ^ 32 /\ bucket_index lo = Z.of_nat i /\ bucket_index (nth (S i) bucket_table (2 ^ 32) - 1) = Z.of_nat i.
Proof.
  intros Hl. assert (table_checked = true) as Hc by (by vm_compute). assert (forallb (fun i => (8 <=? nth i bucket_table 0) && (nth i bucket_table 0 <? 2 ^ 32) && (nth (S i) bucket_table (2 ^ 32) <=? 2 ^ 32)) (seq 0 64) = true) as Hr by (by vm_compute).
  assert (i < 64)%nat as Hi by (by apply lookup_lt_Some in Hl). assert (In i (seq 0 64)) as Hin by (apply in_seq; lia).
  unfold table_checked in Hc. rewrite forallb_forall in Hc. specialize (Hc i Hin). rewrite forallb_forall in Hr. specialize (Hr i Hin).
  assert (nth i bucket_table 0 = lo) as E by (by apply nth_lookup_Some). rewrite E in *. lia.
Qed.

(** the bucket that [compute_free_list_bucket] computes with shifts and a count of
    leading zeros is the one of the table in the comment: for every size from 8 bytes
    up, the last bucket whose first size is not above it. *)
Theorem bucket_of_table size s : 8 <= size < 2 ^ 32 ->
  exists i lo, compute_free_list_bucket size s = Done (Z.of_nat i) s /\ bucket_table !! i = Some lo /\ lo <= size /\ forall hi, bucket_table !! S i = Some hi -> size < hi.
Proof.
  intros Hs. assert (exists i lo, bucket_table !! i = Some lo /\ lo <= size < nth (S i) bucket_table (2 ^ 32)) as (i & lo & Hi & Hlo).
  { assert (forall n, (n <= 64)%nat -> nth n bucket_table (2 ^ 32) <= size \/ exists i lo, (i < n)%nat /\ bucket_table !! i = Some lo /\ lo <= size < nth (S i) bucket_table (2 ^ 32)) as Hall.
    { intros n. induction n as [|n IH]; intros Hn; [left; cbn; lia|]. destruct (IH ltac:(lia)) as [Hle|(i & lo & Hi & Hr)]; [|right; exists i, lo; split; [lia|done]].
      destruct (Z.le_gt_cases (nth (S n) bucket_table (2 ^ 32)) size) as [|Hgt]; [by left|right]. destruct (lookup_lt_is_Some_2 bucket_table n) as [lo Hl]; [cbn; lia|].
      exists n, lo. split; [lia|]. split; [done|]. rewrite (nth_lookup_Some _ _ _ _ Hl) in Hle. lia. }
    destruct (Hall 64%nat ltac:(lia)) as [Hle|(i & lo & _ & Hr)]; [cbn in Hle; lia|by exists i, lo]. }
  destruct (table_ends i lo Hi) as (Hi64 & Hlo8 & Hhi & Elo & Ehi). exists i, lo.
  assert (bucket_index size = Z.of_nat i) as E.
  { pose proof (bucket_monotone lo size ltac:(lia) ltac:(lia)). pose proof (bucket_monotone size (nth (S i) bucket_table (2 ^ 32) - 1) ltac:(lia) ltac:(lia)). lia. }
  split_and!; [|done|lia|].
  - unfold compute_free_list_bucket. rewrite E. case_match; [done|]. unfold NUM_FREE_BUCKETS. replace (0 <=? Z.of_nat i) with true by lia. by replace (Z.of_nat i <? 64) with true by lia.
  - intros hi Hh. rewrite (nth_lookup_Some _ _ _ _ Hh) in Hlo. lia.
Qed.

(** ** Errors *)

Section errors.
Context `{LayoutLaws}.

(** posix_memalign reports its errors by numbers that are other errors in this
    library. An alignment that is no multiple of the size of a pointer gives 22, which
    the source calls EINVAL and is EFBIG; one that is no power of two, where POSIX asks
    for EINVAL, gives 12, which the source calls ENOMEM and is ECHILD. *)
Theorem posix_memalign_codes alignment n s :
  (alignment mod 4 <> 0 -> posix_memalign alignment n s = Done (EFBIG, None) s) /\
  (alignment mod 4 = 0 -> IS_POWER_OF_2 alignment = false -> posix_memalign alignment n s = Done (ECHILD, Some 0) s) /\
  EFBIG <> EINVAL /\ ECHILD <> ENOMEM.
Proof.
  split_and!; [| |done|done].
  - intros Ha. unfold posix_memalign. by replace (alignment mod 4 =? 0) with false by lia.
  - intros Ha Hp. unfold posix_memalign. rewrite Ha. cbn [Z.eqb negb]. erewrite bind_done; [|unfold emmalloc_memalign; erewrite bind_done by reflexivity; cbn [allocate_memory plus]; rewrite Hp; reflexivity]. done.
Qed.

(** a request of 2 GiB or more does not fail with ENOMEM but aborts the program:
    the first call of malloc asks sbrk for what is then a negative increment. *)
Theorem malloc_huge_traps n s : initial s -> __heap_end - __heap_base < n -> 2 ^ 31 <= n <= 2 ^ 32 - 2 ^ 17 -> malloc n s = Stop Trap s.
Proof.
  intros [Hl Hu _ _ _] Hheap Hn. pose proof heap_order. destruct (real_size_spec n ltac:(lia) ltac:(lia)) as (Hr1 & Hr2 & Hr3). set (size := real_size n) in *.
  assert (claim_more_memory (u32 (size + 16 * 3)) s = Stop Trap s) as Hc.
  { rewrite u32_small by lia. unfold claim_more_memory, claim_range. cbv [mbind M_bind gets]. rewrite Hl. cbn [Z.eqb andb]. replace (__heap_end <? __heap_base) with false by lia. cbn [mret M_ret].
    replace (size + 16 * 3 <=? __heap_end - __heap_base) with false by lia. destruct (round_pages (size + 16 * 3)) as (q & -> & Hq); [lia..|].
    assert (i32 (q * 65536) = q * 65536 - 2 ^ 32) as -> by (unfold i32; rewrite <- (Z.mod_unique (q * 65536 + 2 ^ 31) (2 ^ 32) 1 (q * 65536 + 2 ^ 31 - 2 ^ 32)); lia).
    unfold sbrk, PAGESIZE. replace (_ =? 0) with false by lia. replace (q * 65536 - 2 ^ 32) with ((q - 65536) * 65536) by lia. rewrite Z.rem_mul by lia. cbn [Z.eqb negb]. by replace (_ <? 0) with true by lia. }
  assert (compute_free_list_bucket size s = Done (bucket_index size) s) as Hb.
  { pose proof (bucket_range size ltac:(lia)). unfold compute_free_list_bucket. case_match; [done|]. replace (0 <=? bucket_index size) with true by lia. by replace (bucket_index size <? NUM_FREE_BUCKETS) with true by (unfold NUM_FREE_BUCKETS; lia). }
  unfold malloc, emmalloc_memalign. erewrite bind_done by reflexivity. cbn [allocate_memory plus]. replace (IS_POWER_OF_2 MALLOC_ALIGNMENT) with true by done. unfold MAX_ALLOC_SIZE. replace (_ <? n) with false by lia. cbn [negb].
  rewrite validate_alignment_eq, validate_size_eq by (unfold MALLOC_ALIGNMENT; lia). fold size. erewrite bind_done by reflexivity. erewrite bind_done by reflexivity. erewrite bind_done by exact Hb. erewrite bind_done by reflexivity.
  rewrite Hu, Z.shiftr_0_l. erewrite bind_done by reflexivity. cbn [Z.eqb negb]. erewrite bind_done by reflexivity. rewrite Hu. cbv zeta. erewrite bind_done by reflexivity. erewrite bind_done by reflexivity. cbn [fst snd Z.eqb negb].
  unfold sizeof_Region. erewrite bind_done. 2:{ instantiate (1 := s). instantiate (1 := tt). unfold assert_. rewrite u32_small by lia. by replace (size <? size + 16 * 3) with true by lia. }
  exact (bind_stop _ _ _ _ _ Hc).
Qed.
End errors.

(** ** A module *)

#[local] Instance demo_layout : Layout := {| freeRegionBuckets := 1024; __heap_base := 4096; __heap_end := 65536; max_pages := 256 |}.

#[local] Instance demo_laws : LayoutLaws.
Proof. split; cbn; try lia; [by exists 256|split; [by exists 1024|by exists 16384]]. Qed.

(** The buckets as the linker lays them out. *)
Fixpoint demo_buckets (n : nat) : gmap Z Z :=
  match n with
  | O => ∅
  | S n' => let h := bucket_head (Z.of_nat n') in store32 (store32 (demo_buckets n') (h + 4) h) (h + 8) h
  end.
Definition demo_arena : arena := Arena (demo_buckets 64) 0 0 1 [true; true; false; true] 0.

Lemma demo_initial : initial demo_arena.
Proof.
  split; try done. intros i Hi. assert (forallb (fun i => (load32 (demo_buckets 64) (bucket_head (Z.of_nat i) + 8) =? bucket_head (Z.of_nat i)) && (load32 (demo_buckets 64) (bucket_head (Z.of_nat i) + 4) =? bucket_head (Z.of_nat i))) (seq 0 64) = true) as Hc
    by (by vm_compute).
  rewrite forallb_forall in Hc. specialize (Hc i (proj2 (in_seq 64 0 i) ltac:(lia))). apply andb_true_iff in Hc as [H1%Z.eqb_eq H2%Z.eqb_eq]. by split.
Qed.

(** A program that releases each block it gets. *)
Definition demo_client (evs : list event) : call :=
  match list.last evs with Some (Malloc _, r) => if ret r =? 0 then Malloc 100 else Free (ret r) | _ => Malloc (1000 * Z.of_nat (length evs) mod 100000) end.

Lemma demo_proper : proper demo_client.
Proof.
  intros evs live Hs. assert (forall n, 0 <= n < 100000 -> modest 16 n) as Hm by (intros n Hn; split; unfold PAGESIZE; cbn [max_pages demo_layout]; lia). unfold demo_client. destruct Hs as [|evs live c r live' Hs Hc He Hsep]; [by apply Hm|].
  rewrite last_snoc. destruct c; try (apply Hm; apply Z.mod_pos_bound; lia). destruct (Z.eqb_spec (ret r) 0) as [|Hne]; [by apply Hm|]. right. destruct He as [(? & _)|(c & [])]; [done|]. subst live'. rewrite lookup_insert_eq. by eexists.
Qed.

Lemma emmalloc_refines_witness :
  exists evs s' live, run demo_client 8 [] demo_arena = Done evs s' /\ length evs = 8%nat /\ session evs live.
Proof. exact (emmalloc_refines demo_client 8 demo_arena demo_initial demo_proper). Defined.

Lemma emmalloc_merges_witness :
  exists evs s' live bs ls, run demo_client 8 [] demo_arena = Done evs s' /\ session evs live /\ inv [] bs ls s' /\
    (live = ∅ -> forall a l, (a, l) ∈ bs -> exists r, l = [(r, false); (16, false)] \/ exists sz, l = [(r, false); (sz, true); (16, false)]).
Proof. exact (emmalloc_merges demo_client 8 demo_arena demo_initial demo_proper). Defined.

Lemma bucket_of_table_witness :
  exists i lo, compute_free_list_bucket 100000 demo_arena = Done (Z.of_nat i) demo_arena /\ bucket_table !! i = Some lo /\ lo <= 100000 /\ forall hi, bucket_table !! S i = Some hi -> 100000 < hi.
Proof. apply (bucket_of_table 100000 demo_arena). lia. Defined.

Lemma posix_memalign_codes_witness : posix_memalign 2 10 demo_arena = Done (EFBIG, None) demo_arena /\ posix_memalign 12 10 demo_arena = Done (ECHILD, Some 0) demo_arena.
Proof. destruct (posix_memalign_codes 2 10 demo_arena) as (H1 & _). destruct (posix_memalign_codes 12 10 demo_arena) as (_ & H2 & _). split; [by apply H1|by apply H2]. Defined.

Lemma malloc_huge_traps_witness : malloc (2 ^ 31) demo_arena = Stop Trap demo_arena.
Proof. apply (malloc_huge_traps (2 ^ 31) demo_arena demo_initial); [cbn; lia|lia]. Defined.

(** calloc does not check the product: for 2^30 + 1 elements of 4 bytes it returns a
    block with room for 8 bytes. *)
Theorem calloc_overflows :
  exists p s1 s2, calloc 0x40000001 4 demo_arena = Done p s1 /\ p <> 0 /\ malloc_usable_size p s1 = Done 8 s2.
Proof.
  assert (match calloc 0x40000001 4 demo_arena with Done p s1 => match malloc_usable_size p s1 with Done n _ => negb (p =? 0) && (n =? 8) | _ => false end | _ => false end = true) as Hc by (by vm_compute).
  destruct (calloc 0x40000001 4 demo_arena) as [p s1|]; [|done]. destruct (malloc_usable_size p s1) as [n s2|] eqn:E; [|done]. exists p, s1, s2. split; [done|]. split; [lia|]. rewrite E. f_equal. lia.
Qed.
