(* ===== verification/Calendar.v ===== *)
(** * Broken-down time

    Seconds to and from the fields of [struct tm]: musl's
    src/time/__secs_to_tm.c, __tm_to_secs.c, __year_to_secs.c,
    __month_to_secs.c, the time zone of this library (always UTC, __tz.c), and
    gmtime_r, localtime_r, timegm and mktime over them. Signed arithmetic that
    leaves the range of its type stops as [Undef]; [i32] is a conversion. *)

From S2P Require Import Prelude Errno.

Record tm := Tm {
  tm_sec : Z; tm_min : Z; tm_hour : Z; tm_mday : Z; tm_mon : Z; tm_year : Z;
  tm_wday : Z; tm_yday : Z; tm_isdst : Z; __tm_gmtoff : Z; __tm_zone : list Z; __tm_nsec : Z;
}.

Definition set_zone (isdst gmtoff : Z) (zone : list Z) (p : tm) : tm :=
  Tm (tm_sec p) (tm_min p) (tm_hour p) (tm_mday p) (tm_mon p) (tm_year p) (tm_wday p) (tm_yday p) isdst gmtoff zone (__tm_nsec p).

(** "UTC" *)
Definition __utc : list Z := [85; 84; 67].

Definition INT_MAX : Z := 2 ^ 31 - 1.
Definition INT_MIN : Z := - 2 ^ 31.

(** [q = a / b; r = a % b; if (r < 0) { r += b; q--; }] *)
Definition split (a b : Z) : Z * Z :=
  let q := Z.quot a b in
  let r := Z.rem a b in
  if r <? 0 then (q - 1, r + b) else (q, r).

Section code.
Context {St} `{Libc St}.

Definition int (z : Z) : M St Z := if (INT_MIN <=? z) && (z <=? INT_MAX) then mret z else halt Undef.
Definition long_long (z : Z) : M St Z := if (- 2 ^ 63 <=? z) && (z <? 2 ^ 63) then mret z else halt Undef.

(** 2000-03-01, and the lengths of cycles of years from there. *)
Definition LEAPOCH : Z := 946684800 + 86400 * (31 + 29).
Definition DAYS_PER_400Y : Z := 365 * 400 + 97.
Definition DAYS_PER_100Y : Z := 365 * 100 + 24.
Definition DAYS_PER_4Y : Z := 365 * 4 + 1.
(** Centuries, periods of four years, years and days within 400 years. *)
Definition cycle (remdays : Z) : Z * Z * Z * Z :=
  let c_cycles := Z.quot remdays DAYS_PER_100Y in
  let c_cycles := if c_cycles =? 4 then c_cycles - 1 else c_cycles in
  let remdays := remdays - c_cycles * DAYS_PER_100Y in
  let q_cycles := Z.quot remdays DAYS_PER_4Y in
  let q_cycles := if q_cycles =? 25 then q_cycles - 1 else q_cycles in
  let remdays := remdays - q_cycles * DAYS_PER_4Y in
  let remyears := Z.quot remdays 365 in
  let remyears := if remyears =? 4 then remyears - 1 else remyears in
  let remdays := remdays - remyears * 365 in
  (c_cycles, q_cycles, remyears, remdays).

(** From March. *)
Definition days_in_month : list Z := [31; 30; 31; 30; 31; 31; 30; 31; 30; 31; 31; 29].

(** The loop over [days_in_month]; reading past its end is undefined. *)
Fixpoint month_loop (l : list Z) (months remdays : Z) : M St (Z * Z) :=
  match l with
  | [] => halt Undef
  | d :: l' => if d <=? remdays then month_loop l' (months + 1) (remdays - d) else mret (months, remdays)
  end.

Definition __secs_to_tm (t : Z) (p : tm) : M St (Z * tm) :=
  if (t <? INT_MIN * 31622400) || (INT_MAX * 31622400 <? t) then mret (-1, p) else
  secs ← long_long (t - LEAPOCH);
  let days := fst (split secs 86400) in
  let remsecs := snd (split secs 86400) in
  let wday := Z.rem (3 + days) 7 in
  let wday := if wday <? 0 then wday + 7 else wday in
  let qc_cycles := i32 (fst (split days DAYS_PER_400Y)) in
  let remdays := snd (split days DAYS_PER_400Y) in
  let '(c_cycles, q_cycles, remyears, remdays) := cycle remdays in
  let leap := Z.b2z ((remyears =? 0) && (negb (q_cycles =? 0) || (c_cycles =? 0))) in
  let yday := remdays + 31 + 28 + leap in
  let yday := if 365 + leap <=? yday then yday - (365 + leap) else yday in
  let years := remyears + 4 * q_cycles + 100 * c_cycles + 400 * qc_cycles in
  r ← month_loop days_in_month 0 remdays;
  let remdays := snd r in
  let months := if 10 <=? fst r then fst r - 12 else fst r in
  let years := if 10 <=? fst r then years + 1 else years in
  if (INT_MAX <? years + 100) || (years + 100 <? INT_MIN) then mret (-1, p) else
  mret (0, Tm (Z.rem remsecs 60) (Z.rem (Z.quot remsecs 60) 60) (Z.quot remsecs 3600) (remdays + 1) (months + 2) (years + 100)
    wday yday (tm_isdst p) (__tm_gmtoff p) (__tm_zone p) (__tm_nsec p)).

(** The seconds, and what is stored at [is_leap]. *)
Definition __year_to_secs (year : Z) : M St (Z * bool) :=
  if u64 (year - 2) <=? 136 then
    let y := i32 year in
    let leaps := Z.shiftr (y - 68) 2 in
    let is_leap := Z.land (y - 68) 3 =? 0 in
    let leaps := if is_leap then leaps - 1 else leaps in
    a ← int (31536000 * (y - 70));
    b ← int (86400 * leaps);
    t ← int (a + b);
    mret (t, is_leap)
  else
    d ← long_long (year - 100);
    let cycles := i32 (fst (split d 400)) in
    let rem := snd (split d 400) in
    let '(is_leap, centuries, leaps) :=
      if rem =? 0 then (true, 0, 0) else
      let '(centuries, rem) :=
        if 200 <=? rem then (if 300 <=? rem then (3, rem - 300) else (2, rem - 200))
        else (if 100 <=? rem then (1, rem - 100) else (0, rem)) in
      if rem =? 0 then (false, centuries, 0) else (Z.rem rem 4 =? 0, centuries, Z.quot rem 4) in
    c ← int (97 * cycles);
    leaps ← int (leaps + (c + 24 * centuries - Z.b2z is_leap));
    a ← long_long (d * 31536000);
    t ← long_long (a + leaps * 86400 + 946684800 + 86400);
    mret (t, is_leap).

Definition secs_through_month : list Z :=
  [0; 31 * 86400; 59 * 86400; 90 * 86400; 120 * 86400; 151 * 86400; 181 * 86400; 212 * 86400; 243 * 86400; 273 * 86400; 304 * 86400; 334 * 86400].

Definition __month_to_secs (month : Z) (is_leap : bool) : M St Z :=
  match (if month <? 0 then None else secs_through_month !! Z.to_nat month) with
  | None => halt Undef
  | Some t => mret (if is_leap && (2 <=? month) then t + 86400 else t)
  end.

Definition __tm_to_secs (p : tm) : M St Z :=
  let month := tm_mon p in
  let out := (12 <=? month) || (month <? 0) in
  let year := if out then tm_year p + fst (split month 12) else tm_year p in
  let month := if out then snd (split month 12) else month in
  y ← __year_to_secs year;
  m ← __month_to_secs month (snd y);
  t ← long_long (fst y + m);
  t ← long_long (t + 86400 * (tm_mday p - 1));
  t ← long_long (t + 3600 * tm_hour p);
  t ← long_long (t + 60 * tm_min p);
  long_long (t + tm_sec p).

(** The zone of this library: no daylight saving, offset 0. The answer is
    [isdst], [offset], [oppoff] and [zonename]. *)
Definition __secs_to_zone (t local : Z) : Z * Z * Z * list Z := (0, 0, 0, __utc).

(** Whether the result is not null, and the structure after the call. *)
Definition __gmtime_r (t : Z) (p : tm) : M St (bool * tm) :=
  r ← __secs_to_tm t p;
  if fst r <? 0 then fail_with EOVERFLOW (false, snd r) else mret (true, set_zone 0 0 __utc (snd r)).

Definition __localtime_r (t : Z) (p : tm) : M St (bool * tm) :=
  if (t <? INT_MIN * 31622400) || (INT_MAX * 31622400 <? t) then fail_with EOVERFLOW (false, p) else
  let '(isdst, offset, _, zone) := __secs_to_zone t 0 in
  let p := set_zone isdst offset zone p in
  u ← long_long (t + __tm_gmtoff p);
  r ← __secs_to_tm u p;
  if fst r <? 0 then fail_with EOVERFLOW (false, snd r) else mret (true, snd r).

(** The result and the structure after the call; [new] is the local variable,
    which is not initialised. *)
Definition timegm (new p : tm) : M St (Z * tm) :=
  t ← __tm_to_secs p;
  r ← __secs_to_tm t new;
  if fst r <? 0 then fail_with EOVERFLOW (-1, p) else mret (t, set_zone 0 0 __utc (snd r)).

(** [time_t] is [long long], so that the conversion to it loses nothing. *)
Definition mktime (new p : tm) : M St (Z * tm) :=
  t ← __tm_to_secs p;
  let '(isdst, offset, opp, zone) := __secs_to_zone t 1 in
  let new := set_zone isdst offset zone new in
  t ← (if (0 <=? tm_isdst p) && negb (tm_isdst new =? tm_isdst p) then long_long (t - (opp - __tm_gmtoff new)) else mret t);
  t ← long_long (t - __tm_gmtoff new);
  let '(isdst, offset, opp, zone) := __secs_to_zone t 0 in
  let new := set_zone isdst offset zone new in
  u ← long_long (t + __tm_gmtoff new);
  r ← __secs_to_tm u new;
  if fst r <? 0 then fail_with EOVERFLOW (-1, p) else mret (t, snd r).
End code.
