(* ===== verification/CalendarProps.v ===== *)
(** * The calendar is the Gregorian one

    A calendar defined day by day, the number of a day, and the proof that
    musl's conversions compute them, both ways. *)

From S2P Require Import Prelude Errno Calendar.

(** ** The calendar *)

Definition leap_year (y : Z) : bool := (y mod 4 =? 0) && (negb (y mod 100 =? 0) || (y mod 400 =? 0)).

(** Months are counted from 0. *)
Definition month_days (y m : Z) : Z :=
  if m =? 1 then 28 + Z.b2z (leap_year y) else if existsb (Z.eqb m) [3; 5; 8; 10] then 30 else 31.

(** Weekdays are counted from Sunday, days of the year from 0. *)
Record date := Date { year : Z; month : Z; mday : Z; wday : Z; yday : Z }.

Definition epoch : date := Date 1970 0 1 4 0.

Definition tomorrow (d : date) : date :=
  let w := (wday d + 1) mod 7 in
  if mday d <? month_days (year d) (month d) then Date (year d) (month d) (mday d + 1) w (yday d + 1)
  else if month d <? 11 then Date (year d) (month d + 1) 1 w (yday d + 1)
  else Date (year d + 1) 0 1 w 0.

(** ** The number of a day *)

Definition leaps_before (y : Z) : Z := (y - 1) / 4 - (y - 1) / 100 + (y - 1) / 400.
Definition days_before_year (y : Z) : Z := 365 * (y - 1970) + leaps_before y - 477.

Definition days_before_month (y m : Z) : Z :=
  nth (Z.to_nat m) [0; 31; 59; 90; 120; 151; 181; 212; 243; 273; 304; 334] 0 + (if 2 <=? m then Z.b2z (leap_year y) else 0).

Definition day_number (y m d : Z) : Z := days_before_year y + days_before_month y m + (d - 1).

(** The date of day [n] after the epoch. *)
Record is_date (n : Z) (d : date) : Prop := {
  id_number : day_number (year d) (month d) (mday d) = n;
  id_month : 0 <= month d <= 11;
  id_mday : 1 <= mday d <= month_days (year d) (month d);
  id_wday : wday d = (n + 4) mod 7;
  id_yday : yday d = n - days_before_year (year d);
}.

Lemma leap_days y : leaps_before (y + 1) = leaps_before y + Z.b2z (leap_year y).
Proof.
  unfold leaps_before, leap_year. replace (y + 1 - 1) with y by lia.
  destruct (Z.eqb_spec (y mod 4) 0), (Z.eqb_spec (y mod 100) 0), (Z.eqb_spec (y mod 400) 0); cbn [andb orb negb Z.b2z]; Z.div_mod_to_equations; lia.
Qed.

Lemma month_cases m (P : Z -> Prop) : 0 <= m <= 11 -> P 0 -> P 1 -> P 2 -> P 3 -> P 4 -> P 5 -> P 6 -> P 7 -> P 8 -> P 9 -> P 10 -> P 11 -> P m.
Proof.
  intros Hm. assert (m = 0 \/ m = 1 \/ m = 2 \/ m = 3 \/ m = 4 \/ m = 5 \/ m = 6 \/ m = 7 \/ m = 8 \/ m = 9 \/ m = 10 \/ m = 11) as Hc by lia. naive_solver.
Qed.

Ltac by_month m Hm :=
  let H := fresh in assert (0 <= m <= 11) as H by lia; revert Hm; pattern m; apply (month_cases m); [exact H|..]; intros Hm.

Ltac to_nat_consts :=
  repeat match goal with |- context [Z.to_nat ?a] => let v := eval vm_compute in (Z.to_nat a) in change (Z.to_nat a) with v end.

Ltac by_cases :=
  repeat match goal with
  | |- context [?a <=? ?b] => destruct (Z.leb_spec a b); try lia
  | |- context [?a =? ?b] => destruct (Z.eqb_spec a b); try lia
  end; cbn; lia.

Lemma next_month y m : 0 <= m < 11 -> days_before_month y (m + 1) = days_before_month y m + month_days y m.
Proof.
  intros Hm. unfold days_before_month, month_days. by_month m Hm; destruct (leap_year y); first [lia|by vm_compute].
Qed.

Lemma year_end y : days_before_month y 11 + month_days y 11 = 365 + Z.b2z (leap_year y).
Proof. unfold days_before_month, month_days. destruct (leap_year y); by vm_compute. Qed.

Lemma year_start y : days_before_month y 0 = 0.
Proof. done. Qed.

Lemma next_year y : days_before_year (y + 1) = days_before_year y + 365 + Z.b2z (leap_year y).
Proof. unfold days_before_year. rewrite leap_days. lia. Qed.

Lemma epoch_date : is_date 0 epoch.
Proof. by split. Qed.

Lemma month_days_pos y m : 28 <= month_days y m <= 31.
Proof. unfold month_days. destruct (m =? 1), (leap_year y), (existsb (Z.eqb m) [3; 5; 8; 10]); cbn; lia. Qed.

Lemma tomorrow_date n d : is_date n d -> is_date (n + 1) (tomorrow d).
Proof.
  intros [Hn Hm Hd Hw Hy]. unfold tomorrow, day_number in *. assert (((n + 4) mod 7 + 1) mod 7 = (n + 1 + 4) mod 7) as Hw' by (Z.div_mod_to_equations; lia). pose proof (month_days_pos (year d) (month d + 1)). pose proof (month_days_pos (year d + 1) 0). rewrite <- Hw in Hw'.
  destruct (Z.ltb_spec (mday d) (month_days (year d) (month d))); [split; cbn [year month mday wday yday]; unfold day_number; try lia|]. destruct (Z.ltb_spec (month d) 11); split; cbn [year month mday wday yday]; unfold day_number; try lia.
  - rewrite next_month by lia. lia.
  - rewrite next_year, year_start. pose proof (year_end (year d)). replace (month d) with 11 in * by lia. lia.
  - rewrite next_year. pose proof (year_end (year d)). replace (month d) with 11 in * by lia. lia.
Qed.

(** ** Dates are unique *)

Lemma years_increase y y' : y < y' -> days_before_year y + 365 + Z.b2z (leap_year y) <= days_before_year y'.
Proof.
  intros Hy. assert (exists k, 0 <= k /\ y' = y + 1 + k) as (k & Hk & ->) by (exists (y' - y - 1); lia). clear Hy. revert k Hk. apply natlike_ind; [rewrite Z.add_0_r, next_year; lia|].
  intros k Hk IH. replace (y + 1 + Z.succ k) with (y + 1 + k + 1) by lia. rewrite next_year. destruct (leap_year (y + 1 + k)); cbn; lia.
Qed.

Lemma months_increase y m m' : 0 <= m -> m < m' -> m' <= 11 -> days_before_month y m + month_days y m <= days_before_month y m'.
Proof.
  intros Hm Hl Hm'. assert (exists k, 0 <= k /\ m' = m + 1 + k) as (k & Hk & ->) by (exists (m' - m - 1); lia). clear Hl. revert k Hk Hm'. apply (natlike_ind (fun k => m + 1 + k <= 11 -> _)); [rewrite Z.add_0_r; intros; rewrite next_month; lia|].
  intros k Hk IH Hm'. replace (m + 1 + Z.succ k) with (m + 1 + k + 1) by lia. rewrite next_month by lia. pose proof (month_days_pos y (m + 1 + k)). lia.
Qed.

Lemma days_of_year y m d : 0 <= m <= 11 -> 1 <= d <= month_days y m -> 0 <= days_before_month y m + (d - 1) < 365 + Z.b2z (leap_year y).
Proof.
  intros Hm Hd. pose proof (year_end y). pose proof (year_start y). pose proof (month_days_pos y 0). split.
  - destruct (Z.eq_dec m 0) as [->|]; [lia|]. pose proof (months_increase y 0 m ltac:(lia) ltac:(lia) ltac:(lia)). lia.
  - destruct (Z.eq_dec m 11) as [->|]; [lia|]. pose proof (months_increase y m 11 ltac:(lia) ltac:(lia) ltac:(lia)). pose proof (month_days_pos y 11). lia.
Qed.

Lemma date_unique n d d' : is_date n d -> is_date n d' -> d = d'.
Proof.
  destruct d as [y m d w yd], d' as [y' m' d' w' yd']. intros [Hn Hm Hd Hw Hy] [Hn' Hm' Hd' Hw' Hy']. cbn [year month mday wday yday] in *. unfold day_number in *.
  pose proof (days_of_year y m d Hm Hd). pose proof (days_of_year y' m' d' Hm' Hd'). assert (y = y') as <-.
  { destruct (Z.lt_trichotomy y y') as [Hlt|[|Hlt]]; [pose proof (years_increase _ _ Hlt); lia|done|pose proof (years_increase _ _ Hlt); lia]. }
  assert (m = m') as <-.
  { destruct (Z.lt_trichotomy m m') as [Hlt|[|Hlt]]; [pose proof (months_increase y m m' ltac:(lia) Hlt ltac:(lia)); lia|done|pose proof (months_increase y m' m ltac:(lia) Hlt ltac:(lia)); lia]. }
  assert (d = d') as <- by lia. by subst.
Qed.

(** ** Seconds to fields *)

Lemma split_spec a b : 0 < b -> split a b = (a / b, a mod b).
Proof.
  intros Hb. unfold split. pose proof (Z.quot_rem' a b). pose proof (Z.rem_bound_abs a b ltac:(lia)). destruct (Z.ltb_spec (Z.rem a b) 0); f_equal.
  - apply Z.div_unique with (r := Z.rem a b + b); lia.
  - apply Z.mod_unique with (q := Z.quot a b - 1); lia.
  - apply Z.div_unique with (r := Z.rem a b); lia.
  - apply Z.mod_unique with (q := Z.quot a b); lia.
Qed.

Lemma cycle_spec n : 0 <= n < DAYS_PER_400Y -> exists c q r d, cycle n = (c, q, r, d) /\
  0 <= c <= 3 /\ 0 <= q <= 24 /\ 0 <= r <= 3 /\ n = 36524 * c + 1461 * q + 365 * r + d /\ 0 <= d <= 365 /\ (d = 365 -> r = 3 /\ (q = 24 -> c = 3)).
Proof.
  unfold DAYS_PER_400Y. intros Hn. unfold cycle, DAYS_PER_100Y, DAYS_PER_4Y. change (365 * 100 + 24) with 36524. change (365 * 4 + 1) with 1461.
  rewrite (Z.quot_div_nonneg n) by lia. set (c := if _ =? 4 then _ else _). assert (0 <= c <= 3 /\ 0 <= n - c * 36524 <= 36524 /\ (n - c * 36524 = 36524 -> c = 3)) as (Hc & Hn1 & Hc3).
  { subst c. destruct (Z.eqb_spec (n / 36524) 4); Z.div_mod_to_equations; lia. }
  set (n1 := n - c * 36524) in *.
  rewrite (Z.quot_div_nonneg n1) by lia. set (q := if n1 / _ =? 25 then _ else _). assert (0 <= q <= 24 /\ 0 <= n1 - q * 1461 <= 1460 /\ (n1 - q * 1461 = 1460 -> q = 24 -> c = 3)) as (Hq & Hn2 & Hq3).
  { subst q. destruct (Z.eqb_spec (n1 / 1461) 25); Z.div_mod_to_equations; lia. }
  set (n2 := n1 - q * 1461) in *.
  rewrite (Z.quot_div_nonneg n2) by lia. set (r := if n2 / _ =? 4 then _ else _). assert (0 <= r <= 3 /\ 0 <= n2 - r * 365 <= 365 /\ (n2 - r * 365 = 365 -> r = 3)) as (Hr & Hn3 & Hr3).
  { subst r. destruct (Z.eqb_spec (n2 / 365) 4); Z.div_mod_to_equations; lia. }
  exists c, q, r, (n2 - r * 365). split; [done|]. subst n1 n2. split_and!; lia.
Qed.

(** The days before a month of a year that starts in March. *)
Definition march_start (k : Z) : Z := nth (Z.to_nat k) [0; 31; 61; 92; 122; 153; 184; 214; 245; 275; 306; 337] 0.

Lemma leap_split qc c q r : 0 <= c <= 3 -> 0 <= q <= 24 -> 0 <= r <= 3 ->
  leap_year (2000 + 400 * qc + 100 * c + 4 * q + r) = (r =? 0) && (negb (q =? 0) || (c =? 0)).
Proof.
  intros Hc Hq Hr. unfold leap_year. set (y := 2000 + 400 * qc + 100 * c + 4 * q + r).
  replace (y mod 4) with r by (subst y; Z.div_mod_to_equations; lia). replace (y mod 100) with (4 * q + r) by (subst y; Z.div_mod_to_equations; lia). replace (y mod 400) with (100 * c + 4 * q + r) by (subst y; Z.div_mod_to_equations; lia). lia.
Qed.

Lemma march_days qc c q r : 0 <= c <= 3 -> 0 <= q <= 24 -> 0 <= r <= 3 ->
  days_before_year (2001 + 400 * qc + 100 * c + 4 * q + r) = 11017 + 306 + 146097 * qc + 36524 * c + 1461 * q + 365 * r.
Proof.
  intros Hc Hq Hr. unfold days_before_year, leaps_before. set (y := 2001 + 400 * qc + 100 * c + 4 * q + r - 1).
  replace (y / 4) with (500 + 100 * qc + 25 * c + q) by (subst y; Z.div_mod_to_equations; lia). replace (y / 100) with (20 + 4 * qc + c) by (subst y; Z.div_mod_to_equations; lia). replace (y / 400) with (5 + qc) by (subst y; Z.div_mod_to_equations; lia). lia.
Qed.

(** The day [d] of the year that starts in March of year [y]: its month counted from March is [k]. *)
Lemma march_date y k r d : 0 <= k <= 11 -> 0 <= r < nth (Z.to_nat k) days_in_month 0 -> d = march_start k + r -> (d = 365 -> leap_year (y + 1) = true) ->
  let n := days_before_year (y + 1) - 306 + d in
  let yd := d + 31 + 28 + Z.b2z (leap_year y) in
  is_date n (Date (if 10 <=? k then y + 1 else y) ((if 10 <=? k then k - 12 else k) + 2) (r + 1) ((n + 4) mod 7)
    (if 365 + Z.b2z (leap_year y) <=? yd then yd - (365 + Z.b2z (leap_year y)) else yd)).
Proof.
  intros Hk Hr Hd Hl. cbv zeta. rewrite next_year. assert (0 <= k <= 11) as Hk' by done. revert Hk Hr Hd. pattern k; apply (month_cases k); [exact Hk'|..]; intros _; unfold march_start; to_nat_consts; cbn [nth days_in_month]; intros Hr Hd;
    (match goal with |- context [if 10 <=? ?a then _ else _] => let v := eval vm_compute in (10 <=? a) in change (10 <=? a) with v end); cbv iota; split; cbn [year month mday wday yday]; try lia; try done;
    rewrite ?next_year; unfold day_number, month_days, days_before_month; rewrite ?next_year; destruct (leap_year y) eqn:E1, (leap_year (y + 1)) eqn:E2; to_nat_consts; cbn; try lia; by_cases.
Qed.
Section proofs.
Context {St} `{LibcLaws St}.
Implicit Types s : St.

Lemma month_loop_spec d s : 0 <= d <= 365 -> exists k r, month_loop (St := St) days_in_month 0 d s = Done (k, r) s /\
  0 <= k <= 11 /\ 0 <= r < nth (Z.to_nat k) days_in_month 0 /\ d = march_start k + r.
Proof.
  intros Hd. unfold days_in_month at 1. cbn [month_loop].
  repeat match goal with |- context [?a <=? ?b] => destruct (Z.leb_spec a b) end; try lia; (eexists _, _; split; [reflexivity|]); unfold march_start; to_nat_consts; cbn; lia.
Qed.

(** The fields for a time on date [d]. *)
Definition fields (t : Z) (d : date) (p : tm) : tm :=
  Tm (t mod 60) (t / 60 mod 60) (t / 3600 mod 24) (mday d) (month d) (year d - 1900) (wday d) (yday d) (tm_isdst p) (__tm_gmtoff p) (__tm_zone p) (__tm_nsec p).

Definition year_fits (y : Z) : bool := (INT_MIN <=? y - 1900) && (y - 1900 <=? INT_MAX).

Lemma year_of_day n d : is_date n d -> days_before_year (year d) <= n < days_before_year (year d + 1).
Proof.
  intros [Hn Hm Hd _ _]. unfold day_number in Hn. pose proof (days_of_year (year d) (month d) (mday d) Hm Hd). rewrite next_year. lia.
Qed.

Lemma years_monotone y y' : y <= y' -> days_before_year y <= days_before_year y'.
Proof. intros Hy. destruct (Z.eq_dec y y') as [->|]; [lia|]. pose proof (years_increase y y' ltac:(lia)). destruct (leap_year y); cbn in *; lia. Qed.

(** Times out of the range that is tested first have years that do not fit. *)
Lemma far_years t d : is_date (t / 86400) d -> (t <? INT_MIN * 31622400) || (INT_MAX * 31622400 <? t) = true -> year_fits (year d) = false.
Proof.
  intros Hd Ht. pose proof (year_of_day _ _ Hd) as Hy. apply not_true_is_false. unfold year_fits. intros Hf.
  pose proof (years_monotone (INT_MIN + 1900) (year d) ltac:(lia)) as H1. pose proof (years_monotone (year d + 1) (INT_MAX + 1901) ltac:(lia)) as H2.
  assert (INT_MIN * 366 <= days_before_year (INT_MIN + 1900)) by (by vm_compute). assert (days_before_year (INT_MAX + 1901) <= INT_MAX * 366) by (by vm_compute).
  apply orb_true_iff in Ht. unfold INT_MIN, INT_MAX in *. destruct Ht; Z.div_mod_to_equations; lia.
Qed.

Lemma fields_time remsecs t : remsecs = t mod 86400 -> Z.rem remsecs 60 = t mod 60 /\ Z.rem (Z.quot remsecs 60) 60 = t / 60 mod 60 /\ Z.quot remsecs 3600 = t / 3600 mod 24.
Proof.
  intros ->. pose proof (Z.mod_pos_bound t 86400 ltac:(lia)). rewrite !Z.quot_div_nonneg, !Z.rem_mod_nonneg by (try apply Z.div_pos; lia). Z.div_mod_to_equations. lia.
Qed.

Definition secs_result (t : Z) (d : date) (p : tm) : Z * tm := if year_fits (year d) then (0, fields t d p) else (-1, p).

Lemma int_ok z s : - 2 ^ 31 <= z < 2 ^ 31 -> int (St := St) z s = Done z s.
Proof. intros Hz. unfold int, INT_MIN, INT_MAX. by replace (_ && _) with true by lia. Qed.

Lemma long_ok z s : - 2 ^ 63 <= z < 2 ^ 63 -> long_long (St := St) z s = Done z s.
Proof. intros Hz. unfold long_long. by replace (_ && _) with true by lia. Qed.

Lemma weekday n : (if Z.rem (3 + (n - 11017)) 7 <? 0 then Z.rem (3 + (n - 11017)) 7 + 7 else Z.rem (3 + (n - 11017)) 7) = (n + 4) mod 7.
Proof. pose proof (split_spec (3 + (n - 11017)) 7 ltac:(lia)) as Hs. unfold split in Hs. replace ((n + 4) mod 7) with ((3 + (n - 11017)) mod 7) by (Z.div_mod_to_equations; lia). destruct (Z.rem _ 7 <? 0); congruence. Qed.

(** Every day has a date, and this is how the code finds it. *)
Lemma day_parts n s : let qc := (n - 11017) / DAYS_PER_400Y in exists c q r d k m,
  cycle ((n - 11017) mod DAYS_PER_400Y) = (c, q, r, d) /\ 0 <= c <= 3 /\ 0 <= q <= 24 /\ 0 <= r <= 3 /\ month_loop days_in_month 0 d s = Done (k, m) s /\
  let y := 2000 + 400 * qc + 100 * c + 4 * q + r in let yd := d + 31 + 28 + Z.b2z (leap_year y) in
  is_date n (Date (if 10 <=? k then y + 1 else y) ((if 10 <=? k then k - 12 else k) + 2) (m + 1) ((n + 4) mod 7)
    (if 365 + Z.b2z (leap_year y) <=? yd then yd - (365 + Z.b2z (leap_year y)) else yd)).
Proof.
  intros qc. destruct (cycle_spec ((n - 11017) mod DAYS_PER_400Y)) as (c & q & r & d & Ec & Hc & Hq & Hr & Hcyc & Hd & Hd365); [apply Z.mod_pos_bound; unfold DAYS_PER_400Y; lia|].
  destruct (month_loop_spec d s Hd) as (k & m & Hloop & Hk & Hm & Hmarch). exists c, q, r, d, k, m. do 4 (split; [done|]). split; [done|]. cbv zeta.
  set (y := 2000 + 400 * qc + 100 * c + 4 * q + r). assert (n = days_before_year (y + 1) - 306 + d) as Hday.
  { replace (y + 1) with (2001 + 400 * qc + 100 * c + 4 * q + r) by (subst y; lia). rewrite march_days by done. subst qc. unfold DAYS_PER_400Y in *. Z.div_mod_to_equations. lia. }
  pose proof (march_date y k m d Hk Hm Hmarch) as Hdate. cbv zeta in Hdate. rewrite <- Hday in Hdate. apply Hdate. intros ->. destruct (Hd365 eq_refl) as [-> Hq24]. subst y. unfold leap_year. clear - Hc Hq Hq24. Z.div_mod_to_equations. lia.
Qed.

Lemma secs_to_tm_near t p s : INT_MIN * 31622400 <= t <= INT_MAX * 31622400 -> exists d, is_date (t / 86400) d /\ __secs_to_tm t p s = Done (secs_result t d p) s.
Proof.
  intros Ht. unfold __secs_to_tm. replace ((t <? _) || _) with false by lia. unfold INT_MIN, INT_MAX in Ht. erewrite bind_done by (apply long_ok; unfold LEAPOCH; lia).
  rewrite !split_spec by (unfold DAYS_PER_400Y; lia). cbn [fst snd]. assert ((t - LEAPOCH) / 86400 = t / 86400 - 11017) as -> by (unfold LEAPOCH; Z.div_mod_to_equations; lia).
  assert ((t - LEAPOCH) mod 86400 = t mod 86400) as -> by (unfold LEAPOCH; Z.div_mod_to_equations; lia). destruct (fields_time _ t eq_refl) as (-> & -> & ->). set (n := t / 86400). assert (- 2 ^ 31 * 366 <= n <= 2 ^ 31 * 366) as Hn by (subst n; Z.div_mod_to_equations; lia).
  destruct (day_parts n s) as (c & q & r & d & k & m & -> & Hc & Hq & Hr & Hloop & Hdate). rewrite (i32_small (_ / _)) by (unfold DAYS_PER_400Y; Z.div_mod_to_equations; lia). set (qc := (n - 11017) / DAYS_PER_400Y) in *. cbv zeta in *.
  erewrite bind_done by exact Hloop. cbn [fst snd]. rewrite <- (leap_split qc) by done. set (y := 2000 + 400 * qc + 100 * c + 4 * q + r) in *. eexists. split; [exact Hdate|].
  unfold secs_result, year_fits, fields. cbn [year month mday wday yday]. rewrite weekday. replace (if 10 <=? k then r + 4 * q + 100 * c + 400 * qc + 1 else r + 4 * q + 100 * c + 400 * qc) with ((if 10 <=? k then y + 1 else y) - 2000) by (subst y; destruct (10 <=? k); lia).
  set (yy := if 10 <=? k then y + 1 else y). replace (yy - 2000 + 100) with (yy - 1900) by lia. replace ((INT_MAX <? yy - 1900) || (yy - 1900 <? INT_MIN)) with (negb ((INT_MIN <=? yy - 1900) && (yy - 1900 <=? INT_MAX))) by lia.
  by destruct ((INT_MIN <=? yy - 1900) && (yy - 1900 <=? INT_MAX)).
Qed.

Lemma secs_to_tm_spec t p s : exists d, is_date (t / 86400) d /\ __secs_to_tm t p s = Done (secs_result t d p) s.
Proof.
  destruct ((t <? INT_MIN * 31622400) || (INT_MAX * 31622400 <? t)) eqn:E; [|apply secs_to_tm_near; lia].
  destruct (day_parts (t / 86400) s) as (c & q & r & d' & k & m & _ & _ & _ & _ & _ & Hd). eexists. split; [exact Hd|]. unfold __secs_to_tm, secs_result. rewrite E. by rewrite (far_years t _ Hd E).
Qed.

(** ** Fields to seconds *)

Lemma year_near y s : 2 <= y <= 138 -> __year_to_secs y s = Done (86400 * days_before_year (y + 1900), leap_year (y + 1900)) s.
Proof.
  intros Hy. unfold __year_to_secs. rewrite (u64_small (y - 2)) by lia. replace (y - 2 <=? 136) with true by lia. rewrite (i32_small y) by lia.
  assert (let leaps := Z.shiftr (y - 68) 2 in let l := Z.land (y - 68) 3 =? 0 in let leaps := if l then leaps - 1 else leaps in
    (l = leap_year (y + 1900)) /\ -18 <= leaps <= 17 /\ 365 * (y - 70) + leaps = days_before_year (y + 1900)) as (Hl & Hr & Hd).
  { rewrite Z.shiftr_div_pow2 by lia. change 3 with (Z.ones 2) at 1. rewrite Z.land_ones by lia. unfold leap_year, days_before_year, leaps_before. change (2 ^ 2) with 4.
    replace ((y + 1900) mod 100) with (y mod 100) by (Z.div_mod_to_equations; lia). cbv zeta. destruct (Z.eqb_spec ((y - 68) mod 4) 0); split_and!; Z.div_mod_to_equations; lia. }
  cbv zeta in *. rewrite <- Hl, <- Hd. erewrite bind_done by (apply int_ok; lia). erewrite bind_done by (apply int_ok; lia). erewrite bind_done by (apply int_ok; lia). unfold mret, M_ret. do 2 f_equal. lia.
Qed.

Lemma century_spec rem : 0 <= rem < 400 -> exists l c k r,
  (if rem =? 0 then (true, 0, 0) else
   let '(centuries, rem) :=
     if 200 <=? rem then (if 300 <=? rem then (3, rem - 300) else (2, rem - 200))
     else (if 100 <=? rem then (1, rem - 100) else (0, rem)) in
   if rem =? 0 then (false, centuries, 0) else (Z.rem rem 4 =? 0, centuries, Z.quot rem 4)) = (l, c, k) /\
  0 <= c <= 3 /\ 0 <= k <= 24 /\ 0 <= r <= 3 /\ rem = 100 * c + 4 * k + r /\ l = ((r =? 0) && (negb (k =? 0) || (c =? 0))).
Proof.
  intros Hr. destruct (Z.eqb_spec rem 0) as [->|Hne]; [by exists true, 0, 0, 0|].
  set (x := if 200 <=? rem then _ else _). assert (exists c m, x = (c, m) /\ 0 <= c <= 3 /\ 0 <= m < 100 /\ rem = 100 * c + m) as (c & m & -> & Hc & Hm & ->).
  { subst x. destruct (Z.leb_spec 200 rem), (Z.leb_spec 300 rem), (Z.leb_spec 100 rem); eexists _, _; (split; [reflexivity|lia]). }
  destruct (Z.eqb_spec m 0) as [->|Hm0]; [exists false, c, 0, 0; split; [done|]; split_and!; try lia; cbn; symmetry; apply Z.eqb_neq; lia|]. rewrite Z.rem_mod_nonneg, Z.quot_div_nonneg by lia. exists (m mod 4 =? 0), c, (m / 4), (m mod 4). split; [done|]. destruct (Z.eqb_spec (m mod 4) 0), (Z.eqb_spec (m / 4) 0); cbn; Z.div_mod_to_equations; split_and!; lia.
Qed.

Lemma year_far y s : ~ 2 <= y <= 138 -> - 2 ^ 32 <= y <= 2 ^ 32 -> __year_to_secs y s = Done (86400 * days_before_year (y + 1900), leap_year (y + 1900)) s.
Proof.
  intros Hn Hy. unfold __year_to_secs. replace (u64 (y - 2) <=? 136) with false by (unfold u64; Z.div_mod_to_equations; lia). erewrite bind_done by (apply long_ok; lia). rewrite split_spec by lia. cbn [fst snd].
  rewrite i32_small by (Z.div_mod_to_equations; lia). set (cy := (y - 100) / 400). set (rem := (y - 100) mod 400). assert (y - 100 = 400 * cy + rem /\ 0 <= rem < 400) as [Ey Hrem] by (subst cy rem; Z.div_mod_to_equations; lia).
  set (x := if rem =? 0 then _ else _). assert (exists l c k, x = (l, c, k) /\ 0 <= c <= 3 /\ 0 <= k <= 24 /\ l = leap_year (y + 1900) /\ 365 * (y - 100) + (k + 97 * cy + 24 * c - Z.b2z l) + 10957 + 1 = days_before_year (y + 1900)) as (l & c & k & -> & Hc & Hk & Hl & Hd).
  { assert (exists l c k r, x = (l, c, k) /\ 0 <= c <= 3 /\ 0 <= k <= 24 /\ 0 <= r <= 3 /\ rem = 100 * c + 4 * k + r /\ l = ((r =? 0) && (negb (k =? 0) || (c =? 0)))) as (l & c & k & r & -> & Hc & Hk & Hr & Er & El) by (apply century_spec; lia).
    exists l, c, k. do 3 (split; [done|]). pose proof (leap_split cy c k r Hc Hk Hr) as Hl. pose proof (march_days cy c k r Hc Hk Hr) as Hd. replace (2001 + 400 * cy + 100 * c + 4 * k + r) with (y + 1900 + 1) in Hd by lia. rewrite next_year in Hd.
    replace (2000 + 400 * cy + 100 * c + 4 * k + r) with (y + 1900) in Hl by lia. rewrite Hl in *. rewrite El. split; [done|]. lia. }
  erewrite bind_done by (apply int_ok; lia). erewrite bind_done by (apply int_ok; destruct l; cbn; lia). erewrite bind_done by (apply long_ok; lia). erewrite bind_done by (apply long_ok; destruct l; cbn; lia).
  rewrite <- Hl, <- Hd. unfold mret, M_ret. do 2 f_equal. lia.
Qed.

Lemma year_to_secs_spec y s : - 2 ^ 32 <= y <= 2 ^ 32 -> __year_to_secs y s = Done (86400 * days_before_year (y + 1900), leap_year (y + 1900)) s.
Proof. intros Hy. destruct (decide (2 <= y <= 138)); [by apply year_near|by apply year_far]. Qed.

Lemma month_to_secs_spec y m s : 0 <= m <= 11 -> __month_to_secs m (leap_year y) s = Done (86400 * days_before_month y m) s.
Proof.
  intros Hm. unfold __month_to_secs, days_before_month, secs_through_month. assert (0 <= m <= 11) as Hm' by done. by_month m Hm; to_nat_consts; cbn; destruct (leap_year y); reflexivity.
Qed.

(** The fields have the range of [int]. *)
Definition tm_typed (p : tm) : Prop :=
  Forall (fun z => INT_MIN <= z <= INT_MAX) [tm_sec p; tm_min p; tm_hour p; tm_mday p; tm_mon p; tm_year p].

(** What the fields denote, in their range or not: months carry over to years, the rest is added. *)
Definition seconds (p : tm) : Z :=
  86400 * day_number (tm_year p + 1900 + tm_mon p / 12) (tm_mon p mod 12) (tm_mday p) + 3600 * tm_hour p + 60 * tm_min p + tm_sec p.

Lemma days_before_year_bound y : - 2 ^ 33 <= y <= 2 ^ 33 -> - 2 ^ 43 <= days_before_year y <= 2 ^ 43.
Proof. intros Hy. unfold days_before_year, leaps_before. Z.div_mod_to_equations. lia. Qed.

Lemma days_before_month_bound y m : 0 <= m <= 11 -> 0 <= days_before_month y m <= 335.
Proof. intros Hm. unfold days_before_month. assert (0 <= m <= 11) as Hm' by done. by_month m Hm; to_nat_consts; cbn; destruct (leap_year y); cbn; lia. Qed.

Lemma tm_to_secs_spec p s : tm_typed p -> __tm_to_secs p s = Done (seconds p) s /\ - 2 ^ 63 <= seconds p < 2 ^ 63.
Proof.
  intros Hp. unfold tm_typed in Hp. rewrite !list.Forall_cons in Hp. destruct Hp as (H1 & H2 & H3 & H4 & H5 & H6 & _). unfold INT_MIN, INT_MAX in *. unfold __tm_to_secs. rewrite split_spec by lia. cbn [fst snd].
  set (m := tm_mon p) in *. assert ((if (12 <=? m) || (m <? 0) then tm_year p + m / 12 else tm_year p) = tm_year p + m / 12) as -> by (destruct ((12 <=? m) || (m <? 0)) eqn:E; [done|]; Z.div_mod_to_equations; lia).
  assert ((if (12 <=? m) || (m <? 0) then m mod 12 else m) = m mod 12) as -> by (destruct ((12 <=? m) || (m <? 0)) eqn:E; [done|]; symmetry; apply Z.mod_small; lia).
  assert (0 <= m mod 12 <= 11) as Hm by (pose proof (Z.mod_pos_bound m 12 ltac:(lia)); lia). assert (- 2 ^ 31 <= m / 12 <= 2 ^ 31) as Hq by (Z.div_mod_to_equations; lia).
  erewrite bind_done by (apply year_to_secs_spec; lia). cbn [fst snd]. erewrite bind_done by (by apply month_to_secs_spec). unfold seconds, day_number. fold m. set (y := tm_year p + m / 12 + 1900). replace (tm_year p + 1900 + m / 12) with y by lia.
  pose proof (days_before_year_bound y ltac:(lia)). pose proof (days_before_month_bound y (m mod 12) Hm). do 4 (erewrite bind_done by (apply long_ok; lia)). split; [|lia]. rewrite long_ok by lia. f_equal. lia.
Qed.

(** ** Dates by counting *)

Record date_ok (d : date) : Prop := {
  ok_month : 0 <= month d <= 11;
  ok_mday : 1 <= mday d <= month_days (year d) (month d);
  ok_wday : 0 <= wday d <= 6;
  ok_yday : yday d = days_before_month (year d) (month d) + mday d - 1;
}.

(** [d] is [n] days after 1 January 1970. *)
Definition dated (n : Z) (d : date) : Prop :=
  date_ok d /\ if 0 <=? n then d = Nat.iter (Z.to_nat n) tomorrow epoch else Nat.iter (Z.to_nat (- n)) tomorrow d = epoch.

Lemma is_date_ok n d : is_date n d -> date_ok d.
Proof. intros [Hn Hm Hd Hw Hy]. unfold day_number in *. split; [done..| |lia]. rewrite Hw. pose proof (Z.mod_pos_bound (n + 4) 7). lia. Qed.

Lemma iter_date k n d : is_date n d -> is_date (n + Z.of_nat k) (Nat.iter k tomorrow d).
Proof.
  intros Hd. induction k as [|k IH]; [by rewrite Z.add_0_r|]. replace (n + Z.of_nat (S k)) with (n + Z.of_nat k + 1) by lia. by apply tomorrow_date.
Qed.

Lemma is_date_dated n d : is_date n d -> dated n d.
Proof.
  intros Hd. split; [by eapply is_date_ok|]. destruct (Z.leb_spec 0 n).
  - eapply date_unique; [exact Hd|]. replace n with (0 + Z.of_nat (Z.to_nat n)) at 1 by lia. apply iter_date, epoch_date.
  - eapply date_unique; [|exact epoch_date]. replace 0 with (n + Z.of_nat (Z.to_nat (- n))) by lia. by apply iter_date.
Qed.

Lemma gmtime_spec t p s : exists d, is_date (t / 86400) d /\
  __gmtime_r t p s = if year_fits (year d) then Done (true, set_zone 0 0 __utc (fields t d p)) s else Done (false, p) (with_errno EOVERFLOW s).
Proof.
  destruct (secs_to_tm_spec t p s) as (d & Hd & Hs). exists d. split; [done|]. unfold __gmtime_r. erewrite bind_done by exact Hs. unfold secs_result. by destruct (year_fits (year d)).
Qed.

Lemma localtime_spec t p s : - 2 ^ 63 <= t < 2 ^ 63 -> exists d q, is_date (t / 86400) d /\
  __localtime_r t p s = if year_fits (year d) then Done (true, set_zone 0 0 __utc (fields t d p)) s else Done (false, q) (with_errno EOVERFLOW s).
Proof.
  intros Ht. unfold __localtime_r. destruct (secs_to_tm_spec t (set_zone 0 0 __utc p) s) as (d & Hd & Hs). destruct ((t <? INT_MIN * 31622400) || (INT_MAX * 31622400 <? t)) eqn:E.
  - exists d, p. split; [done|]. by rewrite (far_years t d Hd E).
  - exists d, (set_zone 0 0 __utc p). split; [done|]. cbn [__secs_to_zone set_zone __tm_gmtoff]. rewrite Z.add_0_r. erewrite bind_done by (by apply long_ok). erewrite bind_done by exact Hs. unfold secs_result. by destruct (year_fits (year d)).
Qed.

(** [timegm] and [mktime] normalise the fields. *)
Lemma timegm_spec new p s : tm_typed p -> exists d, is_date (seconds p / 86400) d /\
  timegm new p s = if year_fits (year d) then Done (seconds p, set_zone 0 0 __utc (fields (seconds p) d new)) s else Done (-1, p) (with_errno EOVERFLOW s).
Proof.
  intros Hp. destruct (tm_to_secs_spec p s Hp) as [Ht _]. destruct (secs_to_tm_spec (seconds p) new s) as (d & Hd & Hs). exists d. split; [done|]. unfold timegm. erewrite bind_done by exact Ht. erewrite bind_done by exact Hs. unfold secs_result. by destruct (year_fits (year d)).
Qed.

Lemma mktime_timegm new p s : tm_typed p -> mktime new p s = timegm new p s.
Proof.
  intros Hp. destruct (tm_to_secs_spec p s Hp) as [Ht Hb]. unfold timegm, mktime. rewrite !(bind_done _ _ _ _ _ Ht). cbn [__secs_to_zone set_zone __tm_gmtoff tm_isdst].
  set (b := (0 <=? tm_isdst p) && _). assert ((if b then long_long (seconds p - (0 - 0)) else mret (seconds p)) s = Done (seconds p) s) as Hb' by (destruct b; [rewrite Z.sub_0_r; by apply long_ok|done]).
  rewrite (bind_done _ _ _ _ _ Hb'). rewrite Z.sub_0_r, (bind_done _ _ _ _ _ (long_ok _ s Hb)), Z.add_0_r, (bind_done _ _ _ _ _ (long_ok _ s Hb)).
  destruct (secs_to_tm_spec (seconds p) new s) as (d & Hd & Hs). destruct (secs_to_tm_spec (seconds p) (set_zone 0 0 __utc (set_zone 0 0 __utc new)) s) as (d' & Hd' & Hs'). rewrite (date_unique _ _ _ Hd' Hd) in Hs'.
  rewrite (bind_done _ _ _ _ _ Hs), (bind_done _ _ _ _ _ Hs'). unfold secs_result. by destruct (year_fits (year d)).
Qed.

Lemma fields_typed t d p : is_date (t / 86400) d -> year_fits (year d) = true -> tm_typed (fields t d p) /\ seconds (fields t d p) = t.
Proof.
  intros [Hn Hm Hd _ _] Hy. unfold year_fits, INT_MIN, INT_MAX in *. pose proof (month_days_pos (year d) (month d)). pose proof (Z.mod_pos_bound t 60). pose proof (Z.mod_pos_bound (t / 60) 60). pose proof (Z.mod_pos_bound (t / 3600) 24). split.
  - unfold tm_typed, INT_MIN, INT_MAX, fields. cbn [tm_sec tm_min tm_hour tm_mday tm_mon tm_year]. repeat constructor; lia.
  - unfold seconds, fields. cbn [tm_sec tm_min tm_hour tm_mday tm_mon tm_year]. rewrite (Z.div_small (month d) 12), (Z.mod_small (month d) 12) by lia. replace (year d - 1900 + 1900 + 0) with (year d) by lia. rewrite Hn. Z.div_mod_to_equations. lia.
Qed.

(** ** The theorems *)

(** C32: [gmtime_r] and [localtime_r] give the Gregorian calendar. For every 64-bit time, the fields they store are the date reached by counting days from
    Thursday 1 January 1970, forwards or backwards, by the rules of months and leap years, with the weekday and the day of the year, and the time of day; the zone
    is UTC. They fail with EOVERFLOW exactly when the year does not fit [int]; no step of the computation overflows. *)
Theorem gmtime_gregorian t p s : - 2 ^ 63 <= t < 2 ^ 63 -> exists d, dated (t / 86400) d /\
  (year_fits (year d) = true -> let q := set_zone 0 0 __utc (fields t d p) in __gmtime_r t p s = Done (true, q) s /\ __localtime_r t p s = Done (true, q) s) /\
  (year_fits (year d) = false -> __gmtime_r t p s = Done (false, p) (with_errno EOVERFLOW s) /\ exists q, __localtime_r t p s = Done (false, q) (with_errno EOVERFLOW s)).
Proof.
  intros Ht. destruct (gmtime_spec t p s) as (d & Hd & Hg). destruct (localtime_spec t p s Ht) as (d' & q & Hd' & Hl). rewrite (date_unique _ _ _ Hd' Hd) in Hl.
  exists d. split; [by apply is_date_dated|]. split; intros E; rewrite E in *; eauto.
Qed.

(** C33: [timegm] and [mktime] are the inverse of [gmtime_r] and normalise what is out of range. For all values of the fields they return without overflow; the
    result is the time the fields denote, months carried to years and the rest added, and the fields become those [gmtime_r] gives for that time; EOVERFLOW
    exactly when its year does not fit, with the structure unchanged. A time that [gmtime_r] splits is given back. *)
Theorem timegm_round_trip new p t s : tm_typed p -> mktime new p s = timegm new p s /\
  (forall q, __gmtime_r (seconds p) new s = Done (true, q) s -> timegm new p s = Done (seconds p, q) s) /\
  (forall q s', __gmtime_r (seconds p) new s = Done (false, q) s' -> timegm new p s = Done (-1, p) (with_errno EOVERFLOW s)) /\
  (forall q, __gmtime_r t p s = Done (true, q) s -> exists q', timegm new q s = Done (t, q') s /\ __gmtime_r t new s = Done (true, q') s).
Proof.
  intros Hp. split; [by apply mktime_timegm|]. split_and!.
  - intros q. destruct (timegm_spec new p s Hp) as (d & Hd & ->). destruct (gmtime_spec (seconds p) new s) as (d' & Hd' & ->). rewrite (date_unique _ _ _ Hd' Hd). destruct (year_fits (year d)); [by intros [= <-]|done].
  - intros q s'. destruct (timegm_spec new p s Hp) as (d & Hd & ->). destruct (gmtime_spec (seconds p) new s) as (d' & Hd' & ->). rewrite (date_unique _ _ _ Hd' Hd). by destruct (year_fits (year d)).
  - intros q Hq. destruct (gmtime_spec t p s) as (d & Hd & Hg). destruct (gmtime_spec t new s) as (d2 & Hd2 & Hg2). rewrite (date_unique _ _ _ Hd2 Hd) in Hg2. rewrite Hg in Hq. destruct (year_fits (year d)) eqn:Hf; [|done]. injection Hq as <-.
    destruct (fields_typed t d p Hd Hf) as [Hty Hsec]. destruct (timegm_spec new (set_zone 0 0 __utc (fields t d p)) s Hty) as (d' & Hd' & Ht). change (seconds (set_zone 0 0 __utc (fields t d p))) with (seconds (fields t d p)) in *. rewrite Hsec in *. rewrite (date_unique _ _ _ Hd' Hd), Hf in Ht. eauto.
Qed.
End proofs.

(** ** Witnesses *)

Definition e0 : env := Env 0 [].
Definition blank : tm := Tm 0 0 0 0 0 0 0 0 0 0 [] 0.

(** 29 February 2000, 12:34:56, a Tuesday. *)
Lemma gmtime_gregorian_witness : __gmtime_r 951827696 blank e0 = Done (true, Tm 56 34 12 29 1 100 2 59 0 0 __utc 0) e0 /\
  exists d, dated (951827696 / 86400) d /\
  (year_fits (year d) = true -> let q := set_zone 0 0 __utc (fields 951827696 d blank) in __gmtime_r 951827696 blank e0 = Done (true, q) e0 /\ __localtime_r 951827696 blank e0 = Done (true, q) e0) /\
  (year_fits (year d) = false -> __gmtime_r 951827696 blank e0 = Done (false, blank) (with_errno EOVERFLOW e0) /\ exists q, __localtime_r 951827696 blank e0 = Done (false, q) (with_errno EOVERFLOW e0)).
Proof. split; [by vm_compute|]. apply (gmtime_gregorian 951827696 blank e0). lia. Defined.

(** Half a minute before the 60th day after the 1200th month of 1900: 28 February 2000, 23:59:30. *)
Lemma timegm_round_trip_witness : let p := Tm (-30) 0 0 60 1200 0 0 0 0 0 [] 0 in seconds p = 951782370 /\ mktime blank p e0 = timegm blank p e0 /\
  (forall q, __gmtime_r (seconds p) blank e0 = Done (true, q) e0 -> timegm blank p e0 = Done (seconds p, q) e0).
Proof.
  intros p. assert (tm_typed p) as Hp by (unfold tm_typed, p; repeat constructor; vm_compute; discriminate). destruct (timegm_round_trip blank p (-30) e0 Hp) as (H1 & H2 & _). split; [by vm_compute|]. by split.
Defined.
