(* ===== verification/Multibyte.v ===== *)
(** * Multibyte characters

    musl's src/multibyte: the conversions between bytes and wide characters,
    one character at a time with a state (mbrtowc, mbrlen, mbtowc, wcrtomb, the
    16-bit characters of mbrtoc16 and c16rtomb) and whole strings (mbsrtowcs,
    wcsrtombs). A pointer to bytes is the list of the bytes that can be read
    from it; reading behind them is undefined. [size_t] has 32 bits. [utf8] is
    whether the character set of the locale is UTF-8 ([MB_CUR_MAX] is 4), else
    bytes are characters. *)

From S2P Require Import Prelude Errno.

(** ** The table of lead bytes (internal.h, internal.c) *)

Definition SIZE (z : Z) : Z := u32 z.
Definition bit (k : Z) (c : Z) : bool := Z.testbit c k.
(** [signed char] *)
Definition i8 (z : Z) : Z := (z + 128) mod 256 - 128.

Definition R (a b : Z) : Z := u32 (Z.shiftl (if a =? 0x80 then u32 (0x40 - b) else u32 (0 - a)) 23).
Definition OOB (c b : Z) : bool := negb (Z.land (Z.lor (Z.shiftr b 3 - 0x10) (Z.shiftr b 3 + Z.shiftr (i32 c) 26)) (Z.lnot 7) =? 0).
Definition SA : Z := 0xc2.
Definition SB : Z := 0xf4.
Definition CODEUNIT (c : Z) : Z := Z.land 0xdfff (i8 c).
Definition IS_CODEUNIT (c : Z) : bool := u32 (u32 c - 0xdf80) <? 0x80.

Definition C2 (x : Z) : Z := if x <? 2 then u32 (-1) else Z.lor (R 0x80 0xc0) x.
Definition E3 (x : Z) : Z :=
  Z.lor (Z.lor (if x =? 0 then R 0xa0 0xc0 else if x =? 0xd then R 0x80 0xa0 else R 0x80 0xc0) (Z.shiftr (R 0x80 0xc0) 6)) x.
Definition F4 (x : Z) : Z :=
  Z.lor (Z.lor (Z.lor (if 5 <=? x then 0 else if x =? 0 then R 0x90 0xc0 else if x =? 4 then R 0x80 0x90 else R 0x80 0xc0) (Z.shiftr (R 0x80 0xc0) 6)) (Z.shiftr (R 0x80 0xc0) 12)) x.
Definition bittab : list Z :=
  map C2 [0x2; 0x3; 0x4; 0x5; 0x6; 0x7; 0x8; 0x9; 0xa; 0xb; 0xc; 0xd; 0xe; 0xf] ++
  map (fun x => C2 (x + 16)) [0x0; 0x1; 0x2; 0x3; 0x4; 0x5; 0x6; 0x7; 0x8; 0x9; 0xa; 0xb; 0xc; 0xd; 0xe; 0xf] ++
  map E3 [0x0; 0x1; 0x2; 0x3; 0x4; 0x5; 0x6; 0x7; 0x8; 0x9; 0xa; 0xb; 0xc; 0xd; 0xe; 0xf] ++
  map F4 [0x0; 0x1; 0x2; 0x3; 0x4].

(** [*s-SA > SB-SA] and [bittab[*s-SA]] *)
Definition not_lead (b : Z) : bool := SB - SA <? u32 (b - SA).
Definition lead (b : Z) : Z := default 0 (bittab !! Z.to_nat (u32 (b - SA))).
(** [*s-0x80u >= 0x40] *)
Definition not_cont (b : Z) : bool := 0x40 <=? u32 (b - 0x80).
(** [c<<6 | *s-0x80] *)
Definition push (c b : Z) : Z := Z.lor (u32 (Z.shiftl c 6)) (b - 0x80).

Section code.
Context {St} `{Libc St}.
Variable utf8 : bool.

(** ** One character *)

(** The result, what is stored at [wc], and the state afterwards. *)
Definition conv : Type := Z * option Z * Z.
Definition ilseq : M St conv := fail_with EILSEQ (SIZE (-1), None, 0).

(** From [loop:], where a byte can be read. [N] is the size at the start. *)
Fixpoint mbr_loop (s : list Z) (n c N : Z) : M St conv :=
  match s with
  | [] => halt Undef
  | b :: s' =>
      let c := push c b in
      let n := n - 1 in
      if negb (bit 31 c) then mret (N - n, Some c, 0) else
      if n =? 0 then mret (SIZE (-2), None, c) else
      b' ← deref (head s');
      if not_cont b' then ilseq else mbr_loop s' n c N
  end.

(** [st] is the object [st] points to, or the internal one. *)
Definition mbrtowc (src : option (list Z)) (n st : Z) : M St conv :=
  match src with
  | None => if negb (st =? 0) then ilseq else mret (0, None, st)
  | Some s =>
      if n =? 0 then mret (SIZE (-2), None, st) else
      let continue c s' n' :=
        if n' =? 0 then mret (SIZE (-2), None, c) else
        b ← deref (head s');
        if OOB c b then ilseq else mbr_loop s' n' c n in
      if negb (st =? 0) then continue st s n else
      b ← deref (head s);
      if b <? 0x80 then mret (if b =? 0 then 0 else 1, Some b, st) else
      if negb utf8 then mret (1, Some (CODEUNIT b), st) else
      if not_lead b then ilseq else
      continue (lead b) (tail s) (n - 1)
  end.

Definition mbrlen (src : option (list Z)) (n st : Z) : M St conv := mbrtowc src n st.

(** The result, and what is stored at [wc]. *)
Definition mbtowc (src : option (list Z)) (n : Z) : M St (Z * option Z) :=
  match src with
  | None => mret (0, None)
  | Some s =>
      if n =? 0 then fail_with EILSEQ (-1, None) else
      b ← deref (s !! 0%nat);
      if b <? 0x80 then mret (if b =? 0 then 0 else 1, Some b) else
      if negb utf8 then mret (1, Some (CODEUNIT b)) else
      if not_lead b then fail_with EILSEQ (-1, None) else
      let c := lead b in
      if (n <? 4) && bit 31 (u32 (Z.shiftl c (6 * n - 6))) then fail_with EILSEQ (-1, None) else
      b ← deref (s !! 1%nat);
      if OOB c b then fail_with EILSEQ (-1, None) else
      let c := push c b in
      if negb (bit 31 c) then mret (2, Some c) else
      b ← deref (s !! 2%nat);
      if not_cont b then fail_with EILSEQ (-1, None) else
      let c := push c b in
      if negb (bit 31 c) then mret (3, Some c) else
      b ← deref (s !! 3%nat);
      if not_cont b then fail_with EILSEQ (-1, None) else
      mret (4, Some (push c b))
  end.

Definition mblen (src : option (list Z)) (n : Z) : M St Z := r ← mbtowc src n; mret (fst r).

Definition mbsinit (st : option Z) : bool := match st with None => true | Some c => c =? 0 end.

(** The result, and the bytes stored at [s]. *)
Definition wcrtomb (s : bool) (wc : Z) : M St (Z * list Z) :=
  if negb s then mret (1, []) else
  let u := u32 wc in
  if u <? 0x80 then mret (1, [wc]) else
  if negb utf8 then
    if negb (IS_CODEUNIT wc) then fail_with EILSEQ (SIZE (-1), []) else mret (1, [wc mod 256])
  else if u <? 0x800 then mret (2, [Z.lor 0xc0 (Z.shiftr wc 6); Z.lor 0x80 (Z.land wc 0x3f)])
  else if (u <? 0xd800) || (u32 (u - 0xe000) <? 0x2000) then
    mret (3, [Z.lor 0xe0 (Z.shiftr wc 12); Z.lor 0x80 (Z.land (Z.shiftr wc 6) 0x3f); Z.lor 0x80 (Z.land wc 0x3f)])
  else if u32 (u - 0x10000) <? 0x100000 then
    mret (4, [Z.lor 0xf0 (Z.shiftr wc 18); Z.lor 0x80 (Z.land (Z.shiftr wc 12) 0x3f); Z.lor 0x80 (Z.land (Z.shiftr wc 6) 0x3f); Z.lor 0x80 (Z.land wc 0x3f)])
  else fail_with EILSEQ (SIZE (-1), []).

Definition wctomb (s : bool) (wc : Z) : M St (Z * list Z) :=
  if negb s then mret (0, []) else r ← wcrtomb s wc; mret (i32 (fst r), snd r).

Definition btowc (c : Z) : Z :=
  let b := c mod 256 in
  if b <? 128 then b else if negb utf8 && negb (c =? -1) then CODEUNIT c else u32 (-1).

Definition wctob (c : Z) : Z :=
  if c <? 128 then c else if negb utf8 && IS_CODEUNIT c then c mod 256 else -1.

(** ** 16-bit characters *)

(** The result, what is stored at [pc16], and the state. *)
Definition mbrtoc16_at (s : list Z) (n pending : Z) : M St conv :=
  if 0 <? i32 pending then mret (SIZE (-3), Some (pending mod 65536), 0) else
  r ← mbrtowc (Some s) n pending;
  let '(ret, wc, st) := r in
  if ret <=? 4 then
    wc ← deref wc;
    if 0x10000 <=? wc then mret (ret, Some ((0xd7c0 + Z.shiftr wc 10) mod 65536), Z.land wc 0x3ff + 0xdc00)
    else mret (ret, Some (wc mod 65536), st)
  else mret (ret, None, st).

(** With [s] null the call is that on the empty string. *)
Definition mbrtoc16 (src : option (list Z)) (n pending : Z) : M St conv :=
  match src with None => r ← mbrtoc16_at [0] 1 pending; mret (fst (fst r), None, snd r) | Some s => mbrtoc16_at s n pending end.

(** The result, the bytes stored at [s], and the state. *)
Definition c16rtomb (s : bool) (c16 x : Z) : M St (Z * list Z * Z) :=
  if negb s then
    if negb (x =? 0) then fail_with EILSEQ (SIZE (-1), [], 0) else mret (1, [], x)
  else if (x =? 0) && (u32 (c16 - 0xd800) <? 0x400) then mret (0, [], u32 (Z.shiftl (c16 - 0xd7c0) 10))
  else if negb (x =? 0) then
    if 0x400 <=? u32 (c16 - 0xdc00) then fail_with EILSEQ (SIZE (-1), [], 0) else
    r ← wcrtomb true (i32 (u32 (x + c16 - 0xdc00))); mret (r, 0)
  else r ← wcrtomb true c16; mret (r, x).

(** ** Strings *)

(** The result, the wide characters stored, where [*src] points to afterwards
    (relative to where it did; [None] is null), and the state. *)
Record mbs := Mbs { mbs_ret : Z; mbs_out : list Z; mbs_src : option Z; mbs_st : Z }.

(** [!((w | w-0x01010101) & 0x80808080)] for the word of these bytes *)
Definition ascii_word (b0 b1 b2 b3 : Z) : bool :=
  let w := b0 + 2 ^ 8 * b1 + 2 ^ 16 * b2 + 2 ^ 24 * b3 in
  Z.land (Z.lor w (u32 (w - 0x01010101))) 0x80808080 =? 0.

(** The loops over words; [s] is aligned, and a word that begins in the string
    can be read. *)
Fixpoint words (s out : list Z) (i wn : Z) : M St (list Z * list Z * Z * Z) :=
  if wn <? 5 then mret (s, out, i, wn) else
  match s with
  | b0 :: b1 :: b2 :: b3 :: s' =>
      if ascii_word b0 b1 b2 b3 then words s' (out ++ [b0; b1; b2; b3]) (i + 4) (wn - 4) else mret (s, out, i, wn)
  | _ => halt Undef
  end.
Fixpoint words0 (s : list Z) (i wn : Z) : M St (list Z * Z * Z) :=
  match s with
  | b0 :: b1 :: b2 :: b3 :: s' => if ascii_word b0 b1 b2 b3 then words0 s' (i + 4) (u32 (wn - 4)) else mret (s, i, wn)
  | _ => halt Undef
  end.

(** From [resume:], at the byte after the lead byte: the character and the rest,
    or [None] where the code breaks off. *)
Definition seq (c : Z) (s : list Z) : M St (option (Z * list Z)) :=
  b ← deref (s !! 0%nat);
  if OOB c b then mret None else
  let c := push c b in
  if negb (bit 31 c) then mret (Some (c, drop 1 s)) else
  b ← deref (s !! 1%nat);
  if not_cont b then mret None else
  let c := push c b in
  if negb (bit 31 c) then mret (Some (c, drop 2 s)) else
  b ← deref (s !! 2%nat);
  if not_cont b then mret None else
  mret (Some (push c b, drop 3 s)).
(** From [resume0:] *)
Definition seq0 (c : Z) (s : list Z) : M St (option (list Z)) :=
  b ← deref (s !! 0%nat);
  if OOB c b then mret None else
  if negb (bit 25 c) then mret (Some (drop 1 s)) else
  b ← deref (s !! 1%nat);
  if not_cont b then mret None else
  if negb (bit 19 c) then mret (Some (drop 2 s)) else
  b ← deref (s !! 2%nat);
  if not_cont b then mret None else
  mret (Some (drop 3 s)).

Section strings.
(** The address of the string, the size given, and the state after the call. *)
Variables (addr wn0 st : Z).

(** After the loops, at a byte that begins no character. *)
Definition finish (out : list Z) (i wn : Z) (b : Z) : M St mbs :=
  if b =? 0 then mret (Mbs (SIZE (wn0 - wn)) (out ++ [0]) None st)
  else fail_with EILSEQ (Mbs (SIZE (-1)) out (Some i) st).

(** With [ws] not null. Each turn reads a byte of the string. *)
Fixpoint convert (fuel : nat) (s out : list Z) (i wn : Z) : M St mbs :=
  match fuel with
  | O => halt Fuel
  | S fuel' =>
      if wn =? 0 then mret (Mbs wn0 out (Some i) st) else
      b ← deref (head s);
      x ← (if (u32 (b - 1) <? 0x7f) && ((addr + i) mod 4 =? 0) then words s out i wn else mret (s, out, i, wn));
      let '(s, out, i, wn) := x in
      b ← deref (head s);
      if u32 (b - 1) <? 0x7f then convert fuel' (tail s) (out ++ [b]) (i + 1) (wn - 1) else
      if not_lead b then finish out i wn b else
      r ← seq (lead b) (tail s);
      match r with
      | None => fail_with EILSEQ (Mbs (SIZE (-1)) out (Some i) st)
      | Some (c, s') => convert fuel' s' (out ++ [c]) (i + Z.of_nat (length s) - Z.of_nat (length s')) (wn - 1)
      end
  end.

(** With [ws] null: nothing is stored. *)
Definition finish0 (wn b : Z) : M St mbs :=
  if b =? 0 then mret (Mbs (SIZE (wn0 - wn)) [] (Some 0) st) else fail_with EILSEQ (Mbs (SIZE (-1)) [] (Some 0) st).

Fixpoint count (fuel : nat) (s : list Z) (i wn : Z) : M St mbs :=
  match fuel with
  | O => halt Fuel
  | S fuel' =>
      b ← deref (head s);
      x ← (if (u32 (b - 1) <? 0x7f) && ((addr + i) mod 4 =? 0) then words0 s i wn else mret (s, i, wn));
      let '(s, i, wn) := x in
      b ← deref (head s);
      if u32 (b - 1) <? 0x7f then count fuel' (tail s) (i + 1) (u32 (wn - 1)) else
      if not_lead b then finish0 wn b else
      r ← seq0 (lead b) (tail s);
      match r with
      | None => fail_with EILSEQ (Mbs (SIZE (-1)) [] (Some 0) st)
      | Some s' => count fuel' s' (i + Z.of_nat (length s) - Z.of_nat (length s')) (u32 (wn - 1))
      end
  end.

(** The loop for the character set of bytes. *)
Fixpoint units (s out : list Z) (i wn : Z) : M St mbs :=
  if wn =? 0 then mret (Mbs wn0 out (Some i) st) else
  match s with
  | [] => halt Undef
  | b :: s' => if b =? 0 then mret (Mbs (SIZE (wn0 - wn)) (out ++ [0]) None st) else units s' (out ++ [CODEUNIT b]) (i + 1) (wn - 1)
  end.
End strings.

Fixpoint strlen_at (s : list Z) : M St Z :=
  match s with [] => halt Undef | b :: s' => if b =? 0 then mret 0 else n ← strlen_at s'; mret (1 + n) end.

(** [st] is the state, or [None] for a null pointer. *)
Definition mbsrtowcs (ws : bool) (addr : Z) (s : list Z) (wn : Z) (st : option Z) : M St mbs :=
  let c := default 0 st in
  let fuel := Datatypes.S (length s) in
  if negb (c =? 0) then
    if ws then
      r ← seq c s;
      match r with
      | None => fail_with EILSEQ (Mbs (SIZE (-1)) [] (Some (-1)) 0)
      | Some (wc, s') => convert addr wn 0 fuel s' [wc] (Z.of_nat (length s) - Z.of_nat (length s')) (u32 (wn - 1))
      end
    else
      r ← seq0 c s;
      match r with
      | None => fail_with EILSEQ (Mbs (SIZE (-1)) [] (Some 0) c)
      | Some s' => count addr wn c fuel s' (Z.of_nat (length s) - Z.of_nat (length s')) (u32 (wn - 1))
      end
  else if negb utf8 then
    if ws then units wn c s [] 0 wn else n ← strlen_at s; mret (Mbs n [] (Some 0) c)
  else if ws then convert addr wn c fuel s [] 0 wn else count addr wn c fuel s 0 wn.

Definition mbstowcs (ws : bool) (addr : Z) (s : list Z) (wn : Z) : M St mbs := mbsrtowcs ws addr s wn None.

(** The result, the bytes stored, and where [*ws] points to afterwards. *)
Definition wcs : Type := Z * list Z * option Z.

(** With [s] null. *)
Fixpoint wcs_length (ws : list Z) (n : Z) : M St wcs :=
  match ws with
  | [] => halt Undef
  | wc :: ws' =>
      if wc =? 0 then mret (n, [], Some 0) else
      if 0x80 <=? u32 wc then
        r ← wcrtomb true wc;
        if fst r =? SIZE (-1) then mret (SIZE (-1), [], Some 0) else wcs_length ws' (u32 (n + fst r))
      else wcs_length ws' (u32 (n + 1))
  end.

(** The two loops, over [n >= 4] and below; [n] never grows. [N] is the size
    given and [i] how far [*ws] has moved. *)
Fixpoint wcs_loop (N : Z) (ws out : list Z) (i n : Z) : M St wcs :=
  if n =? 0 then mret (N, out, Some i) else
  match ws with
  | [] => halt Undef
  | wc :: ws' =>
      if 0x7f <=? u32 (wc - 1) then
        if wc =? 0 then mret (N - n, out ++ [0], None) else
        if 4 <=? n then
          r ← wcrtomb true wc;
          if fst r =? SIZE (-1) then mret (SIZE (-1), out, Some i) else wcs_loop N ws' (out ++ snd r) (i + 1) (n - fst r)
        else
          r ← wcrtomb true wc;
          if fst r =? SIZE (-1) then mret (SIZE (-1), out, Some i) else
          if n <? fst r then mret (N - n, out, Some i) else
          r ← wcrtomb true wc;
          wcs_loop N ws' (out ++ snd r) (i + 1) (n - fst r)
      else wcs_loop N ws' (out ++ [wc]) (i + 1) (n - 1)
  end.

Definition wcsrtombs (s : bool) (ws : list Z) (n : Z) : M St wcs := if s then wcs_loop n ws [] 0 n else wcs_length ws 0.
Definition wcstombs (s : bool) (ws : list Z) (n : Z) : M St wcs := wcsrtombs s ws n.
End code.
