(* ===== verification/MultibyteProps.v ===== *)
(** * Multibyte characters are UTF-8

    The bits of musl's decoder state, what each conversion does with any bytes
    in any pieces, and the round trips. [encode] and [scalar] (Utf8) are the
    Unicode definition. *)

From S2P Require Import Prelude Errno Utf8 Multibyte.

(** Scalar values, the null character included. *)
Definition character (cp : Z) : Prop := cp = 0 \/ scalar cp.

(** ** Sequences of bytes *)

(** Bytes in the sequence that begins with [b], and the bounds of the second. *)
Definition len (b : Z) : nat := if b <? 0x80 then 1 else if b <? 0xE0 then 2 else if b <? 0xF0 then 3 else 4.
Definition lo (b : Z) : Z := if b =? 0xE0 then 0xA0 else if b =? 0xF0 then 0x90 else 0x80.
Definition hi (b : Z) : Z := if b =? 0xED then 0xA0 else if b =? 0xF4 then 0x90 else 0xC0.
Definition first_ok (b : Z) : bool := ((0 <=? b) && (b <? 0x80)) || ((0xC2 <=? b) && (b <=? 0xF4)).
Definition second_ok (b d : Z) : bool := (lo b <=? d) && (d <? hi b).
Definition cont (d : Z) : bool := (0x80 <=? d) && (d <? 0xC0).

(** [b :: t] is the beginning of a sequence. *)
Definition well (b : Z) (t : list Z) : bool :=
  first_ok b && (length t <? len b)%nat && match t with [] => true | d :: t' => second_ok b d && forallb cont t' end.

(** The bits collected. *)
Definition collect (v d : Z) : Z := 64 * v + (d - 0x80).
Definition first_bits (b : Z) : Z := b - (if b <? 0x80 then 0 else if b <? 0xE0 then 0xC0 else if b <? 0xF0 then 0xE0 else 0xF0).
Definition value (b : Z) (t : list Z) : Z := fold_left collect t (first_bits b).

Lemma second_spec b d : second_ok b d = true <-> 0x80 <= d < 0xC0 /\ (b = 0xE0 -> 0xA0 <= d) /\ (b = 0xF0 -> 0x90 <= d) /\ (b = 0xED -> d < 0xA0) /\ (b = 0xF4 -> d < 0x90).
Proof. unfold second_ok, lo, hi. destruct (Z.eqb_spec b 0xE0), (Z.eqb_spec b 0xF0), (Z.eqb_spec b 0xED), (Z.eqb_spec b 0xF4); lia. Qed.

Lemma cont_spec d : cont d = true <-> 0x80 <= d < 0xC0.
Proof. unfold cont. lia. Qed.

Lemma second_cont b d : second_ok b d = true -> cont d = true.
Proof. rewrite second_spec, cont_spec. tauto. Qed.

(** The four shapes of a complete sequence. *)
Inductive shape : Z -> list Z -> Prop :=
| shape1 b : 0 <= b < 0x80 -> shape b []
| shape2 b d : 0xC2 <= b < 0xE0 -> 0x80 <= d < 0xC0 -> shape b [d]
| shape3 b d e : 0xE0 <= b < 0xF0 -> 0x80 <= d < 0xC0 -> (b = 0xE0 -> 0xA0 <= d) -> (b = 0xED -> d < 0xA0) -> 0x80 <= e < 0xC0 -> shape b [d; e]
| shape4 b d e f : 0xF0 <= b <= 0xF4 -> 0x80 <= d < 0xC0 -> (b = 0xF0 -> 0x90 <= d) -> (b = 0xF4 -> d < 0x90) -> 0x80 <= e < 0xC0 -> 0x80 <= f < 0xC0 -> shape b [d; e; f].

Lemma len_spec b : len b = 1%nat /\ b < 0x80 \/ len b = 2%nat /\ 0x80 <= b < 0xE0 \/ len b = 3%nat /\ 0xE0 <= b < 0xF0 \/ len b = 4%nat /\ 0xF0 <= b.
Proof. unfold len. destruct (Z.ltb_spec b 0x80), (Z.ltb_spec b 0xE0), (Z.ltb_spec b 0xF0); lia. Qed.

Lemma well_shape b t : well b t = true -> length t = (len b - 1)%nat -> shape b t.
Proof.
  unfold well, first_ok. intros [[Hf Hlt]%andb_prop Hs]%andb_prop Hl. destruct (len_spec b) as [[E H]|[[E H]|[[E H]|[E H]]]]; rewrite E in Hl; destruct t as [|d [|e [|f [|]]]]; try done; cbn [forallb] in Hs;
    rewrite ?andb_true_iff, ?second_spec, ?cont_spec in Hs; constructor; try tauto; lia.
Qed.

Lemma shape_well b t : shape b t -> well b t = true /\ length t = (len b - 1)%nat.
Proof.
  unfold well, first_ok. intros Hs. destruct (len_spec b) as [[E H]|[[E H]|[[E H]|[E H]]]]; rewrite E; destruct Hs; try lia; (split; [|done]); cbn [length forallb]; rewrite ?andb_true_iff, ?second_spec, ?cont_spec; repeat split; try tauto; try lia.
Qed.

Lemma shape_encode b t : shape b t -> character (value b t) /\ encode (value b t) = b :: t.
Proof.
  unfold value, first_bits, character, scalar. destruct 1; cbn [fold_left]; unfold collect.
  - replace (b <? 128) with true by lia. rewrite Z.sub_0_r. unfold encode. replace (b <? 128) with true by lia. split; [lia|done].
  - replace (b <? 128) with false by lia. replace (b <? 0xE0) with true by lia. split; [lia|]. set (cp := _ + _). unfold encode. replace (cp <? 128) with false by lia. replace (cp <? 2048) with true by lia. repeat f_equal; subst cp; Z.div_mod_to_equations; lia.
  - replace (b <? 128) with false by lia. replace (b <? 0xE0) with false by lia. replace (b <? 0xF0) with true by lia. split; [lia|]. set (cp := _ + _). unfold encode. replace (cp <? 128) with false by lia. replace (cp <? 2048) with false by lia. replace (cp <? 65536) with true by lia.
    assert (cp / 64 = (b - 0xE0) * 64 + (d - 0x80)) as -> by (subst cp; Z.div_mod_to_equations; lia). repeat f_equal; subst cp; Z.div_mod_to_equations; lia.
  - replace (b <? 128) with false by lia. replace (b <? 0xE0) with false by lia. replace (b <? 0xF0) with false by lia. split; [lia|]. set (cp := _ + _). unfold encode. replace (cp <? 128) with false by lia. replace (cp <? 2048) with false by lia. replace (cp <? 65536) with false by lia.
    assert (cp / 64 = (b - 0xF0) * 4096 + (d - 0x80) * 64 + (e - 0x80)) as -> by (subst cp; Z.div_mod_to_equations; lia). assert (cp / 4096 = (b - 0xF0) * 64 + (d - 0x80)) as -> by (subst cp; Z.div_mod_to_equations; lia). repeat f_equal; subst cp; Z.div_mod_to_equations; lia.
Qed.

Lemma encode_shape cp : character cp -> exists b t, encode cp = b :: t /\ shape b t /\ value b t = cp.
Proof.
  unfold character, scalar. intros Hcp. unfold encode, value, first_bits. destruct (Z.ltb_spec cp 128); [|destruct (Z.ltb_spec cp 2048); [|destruct (Z.ltb_spec cp 65536)]]; eexists _, _; (split; [reflexivity|]); cbn [fold_left]; unfold collect.
  - replace (cp <? 128) with true by lia. split; [constructor|]; lia.
  - assert (2 <= cp / 64 < 32) by (Z.div_mod_to_equations; lia). assert (0 <= cp mod 64 < 64) by (apply Z.mod_pos_bound; lia). split; [constructor; lia|]. replace (192 + cp / 64 <? 128) with false by lia. replace (192 + cp / 64 <? 224) with true by lia. Z.div_mod_to_equations. lia.
  - assert (0 <= cp mod 64 < 64) by (apply Z.mod_pos_bound; lia). assert (0 <= cp / 64 mod 64 < 64) by (apply Z.mod_pos_bound; lia). assert (0 <= cp / 4096 < 16) by (Z.div_mod_to_equations; lia).
    split; [constructor; try lia; Z.div_mod_to_equations; lia|]. replace (224 + cp / 4096 <? 128) with false by lia. replace (224 + cp / 4096 <? 224) with false by lia. replace (224 + cp / 4096 <? 240) with true by lia. Z.div_mod_to_equations. lia.
  - assert (0 <= cp mod 64 < 64) by (apply Z.mod_pos_bound; lia). assert (0 <= cp / 64 mod 64 < 64) by (apply Z.mod_pos_bound; lia). assert (0 <= cp / 4096 mod 64 < 64) by (apply Z.mod_pos_bound; lia). assert (0 <= cp / 262144 <= 4) by (Z.div_mod_to_equations; lia).
    split; [constructor; try lia; Z.div_mod_to_equations; lia|]. replace (240 + cp / 262144 <? 128) with false by lia. replace (240 + cp / 262144 <? 224) with false by lia. replace (240 + cp / 262144 <? 240) with false by lia. Z.div_mod_to_equations. lia.
Qed.

Lemma well_app b t1 t2 : well b (t1 ++ t2) = true -> well b t1 = true.
Proof.
  unfold well. intros [[Hf Hlt]%andb_prop Hs]%andb_prop. rewrite length_app in Hlt. apply Nat.ltb_lt in Hlt. rewrite Hf. rewrite (proj2 (Nat.ltb_lt (length t1) (len b))) by lia. cbn. destruct t1 as [|d t1]; [done|]. cbn in Hs. rewrite forallb_app in Hs. apply andb_prop in Hs as [-> [-> _]%andb_prop]. done.
Qed.

(** Every beginning can be completed. *)
Lemma well_complete b t : well b t = true -> exists t', shape b (t ++ t').
Proof.
  intros Hw. assert (exists t', well b (t ++ t') = true /\ length (t ++ t') = (len b - 1)%nat) as (t' & H1 & H2); [|by exists t'; apply well_shape].
  exists (match t with [] => match (len b - 1)%nat with O => [] | Datatypes.S k => lo b :: replicate k 0x80 end | _ => replicate (len b - 1 - length t) 0x80 end).
  unfold well in *. apply andb_prop in Hw as [[Hf Hlt]%andb_prop Hs]. rewrite Hf. apply Nat.ltb_lt in Hlt.
  assert (forall k, forallb cont (replicate k 0x80) = true) as Hrep by (induction k; done). destruct t as [|d t].
  - cbn [app]. assert (second_ok b (lo b) = true) as Hlo by (apply second_spec; unfold lo; destruct (Z.eqb_spec b 0xE0), (Z.eqb_spec b 0xF0); lia). destruct (len b - 1)%nat as [|k] eqn:E; cbn [length]; rewrite ?length_replicate; [split; [|done]|split; [|lia]]; rewrite ?Hlo, ?Hrep; rewrite ?andb_true_r; cbn [andb]; apply Nat.ltb_lt; lia.
  - apply andb_prop in Hs as [Hd Hs]. cbn [app length forallb] in *. rewrite forallb_app, Hd, Hs, Hrep, length_app, length_replicate. split; [|lia]. cbn [andb]. rewrite andb_true_r. apply Nat.ltb_lt. lia.
Qed.

(** ** The bits of the state *)

Lemma push_add c d : cont d = true -> push c d = (64 * c) mod 2 ^ 32 + (d - 0x80).
Proof.
  rewrite cont_spec. intros Hd. unfold push. rewrite Z.shiftl_mul_pow2 by lia. unfold u32. change (2 ^ 6) with 64. rewrite (Z.mul_comm c).
  assert ((64 * c) mod 2 ^ 32 = Z.shiftl (c mod 2 ^ 26) 6) as -> by (rewrite Z.shiftl_mul_pow2 by lia; change (2 ^ 32) with (64 * 2 ^ 26); rewrite Z.mul_mod_distr_l by lia; lia).
  pose proof (Z.add_lor_land (Z.shiftl (c mod 2 ^ 26) 6) (d - 128)) as Hlor. enough (Z.land (Z.shiftl (c mod 2 ^ 26) 6) (d - 128) = 0) by lia.
  apply Z.bits_inj'. intros i Hi. rewrite Z.land_spec, Z.bits_0. destruct (Z.ltb_spec i 6); [by rewrite Z.shiftl_spec_low|]. rewrite (Z.bits_above_log2 (d - 128)); [by rewrite andb_false_r|lia|].
  destruct (Z.eq_dec d 128) as [->|]; [change (Z.log2 (128 - 128)) with 0; lia|]. apply Z.log2_lt_pow2; [lia|]. apply Z.lt_le_trans with (2 ^ 6); [lia|by apply Z.pow_le_mono_r].
Qed.

Lemma bit_31 c : 0 <= c < 2 ^ 32 -> bit 31 c = (2 ^ 31 <=? c).
Proof.
  intros Hc. unfold bit. rewrite Z.testbit_eqb by lia. assert (c / 2 ^ 31 = 0 \/ c / 2 ^ 31 = 1) as [E|E] by (Z.div_mod_to_equations; lia); rewrite E; cbn; Z.div_mod_to_equations; lia.
Qed.

(** [c] is a state in which [r] bytes are missing and the bits [v] collected. *)
Definition missing (c : Z) (r : nat) (v : Z) : Prop :=
  2 ^ 31 <= c < 2 ^ 32 /\ 0 <= v < (match r with 1%nat => 2 ^ 15 | 2%nat => 2 ^ 9 | _ => 2 ^ 3 end) /\ c mod 2 ^ 26 = (match r with 1%nat => 0 | 2%nat => 0x03000000 | _ => 0x030C0000 end) + v /\ (1 <= r <= 3)%nat.
(** The next byte is bounded as any continuation byte is. *)
Definition plain (c : Z) : Prop := 0xC0000000 <= c < 0xC4000000.

Lemma push_last c v d : missing c 1 v -> cont d = true -> push c d = collect v d /\ bit 31 (push c d) = false.
Proof.
  intros (Hc & Hv & Hm & _) Hd. rewrite push_add by done. apply cont_spec in Hd. unfold collect. assert ((64 * c) mod 2 ^ 32 = 64 * v) as -> by (Z.div_mod_to_equations; lia). split; [done|]. rewrite bit_31; lia.
Qed.

Lemma push_more c r v d : missing c (S (S r)) v -> cont d = true -> missing (push c d) (S r) (collect v d) /\ plain (push c d) /\ bit 31 (push c d) = true.
Proof.
  intros (Hc & Hv & Hm & Hr) Hd. rewrite push_add by done. apply cont_spec in Hd. unfold collect, missing, plain. assert (r = 0 \/ r = 1)%nat as [->| ->] by lia; cbn [Nat.add] in *.
  - assert ((64 * c) mod 2 ^ 32 = 0xC0000000 + 64 * v) as -> by (Z.div_mod_to_equations; lia). rewrite bit_31 by lia. split_and!; try lia. Z.div_mod_to_equations; lia.
  - assert ((64 * c) mod 2 ^ 32 = 0xC3000000 + 64 * v) as -> by (Z.div_mod_to_equations; lia). rewrite bit_31 by lia. split_and!; try lia. Z.div_mod_to_equations; lia.
Qed.

Definition lead_checked (b : Z) : bool :=
  if (b <? 0xC2) || (0xF4 <? b) then true else
    ((2 ^ 31 <=? lead b) && (lead b <? 2 ^ 32) && (lead b mod 2 ^ 26 =? (if b <? 0xE0 then 0 else if b <? 0xF0 then 0x03000000 else 0x030C0000) + first_bits b) &&
     forallb (fun d => Bool.eqb (OOB (lead b) (Z.of_nat d)) (negb (second_ok b (Z.of_nat d)))) (List.seq 0 256)).

Lemma lead_spec b : 0xC2 <= b <= 0xF4 -> missing (lead b) (len b - 1) (first_bits b) /\ forall d, 0 <= d < 256 -> OOB (lead b) d = negb (second_ok b d).
Proof.
  intros Hb. assert (lead_checked b = true) as Hc by (assert (0 <= b < 256) by lia; by_bytes b). unfold lead_checked in Hc. replace ((b <? 0xC2) || (0xF4 <? b)) with false in Hc by lia. apply andb_prop in Hc as [Hc Hall]. split.
  - unfold missing. destruct (len_spec b) as [[E H]|[[E H]|[[E H]|[E H]]]]; [lia|..]; rewrite E; cbn [Nat.sub]; unfold first_bits in *.
    + replace (b <? 0x80) with false in * by lia. replace (b <? 0xE0) with true in * by lia. lia.
    + replace (b <? 0x80) with false in * by lia. replace (b <? 0xE0) with false in * by lia. replace (b <? 0xF0) with true in * by lia. lia.
    + replace (b <? 0x80) with false in * by lia. replace (b <? 0xE0) with false in * by lia. replace (b <? 0xF0) with false in * by lia. lia.
  - intros d Hd. apply eqb_prop. rewrite forallb_forall in Hall. specialize (Hall (Z.to_nat d)). rewrite Z2Nat.id in Hall by lia. apply Hall, in_seq. lia.
Qed.

Lemma OOB_plain c d : plain c -> 0 <= d < 256 -> OOB c d = negb (cont d).
Proof.
  intros Hc Hd. unfold OOB. assert (Z.shiftr (i32 c) 26 = -16) as -> by (rewrite Z.shiftr_div_pow2 by lia; unfold plain, i32 in *; Z.div_mod_to_equations; lia). apply eqb_prop. by_bytes d.
Qed.

Lemma not_lead_spec b : 0 <= b < 256 -> not_lead b = negb ((0xC2 <=? b) && (b <=? 0xF4)).
Proof. intros Hb. apply eqb_prop. by_bytes b. Qed.

Lemma not_cont_spec b : 0 <= b < 256 -> not_cont b = negb (cont b).
Proof. intros Hb. apply eqb_prop. by_bytes b. Qed.

(** ** Pending bytes *)

(** The state after the bytes [p] of a character that is not complete. *)
Definition state (p : list Z) : Z := match p with [] => 0 | b :: t => fold_left push t (lead b) end.

Definition pending (p : list Z) : Prop := exists cp q, character cp /\ encode cp = p ++ q /\ q <> [].

Lemma well_first b t : well b t = true -> first_ok b = true /\ (length t < len b)%nat.
Proof. unfold well. intros [[Hf Hl]%andb_prop _]%andb_prop. by apply Nat.ltb_lt in Hl. Qed.

Lemma well_lead b t : well b t = true -> (0 < length t)%nat \/ 0x80 <= b -> 0xC2 <= b <= 0xF4.
Proof. intros [Hf Hl]%well_first. unfold first_ok in Hf. destruct (len_spec b); lia. Qed.

Lemma well_snoc b t d : well b t = true -> well b (t ++ [d]) = (S (length t) <? len b)%nat && (if t then second_ok b d else cont d).
Proof.
  unfold well. intros [[Hf Hl]%andb_prop Hs]%andb_prop. rewrite Hf, length_app. cbn [length andb]. replace (length t + 1)%nat with (S (length t)) by lia. f_equal. destruct t as [|e t]; cbn [app forallb]; [by rewrite andb_true_r|].
  apply andb_prop in Hs as [-> Hs]. rewrite forallb_app, Hs. cbn. by rewrite andb_true_r.
Qed.

Lemma well_next b t d e : well b (t ++ [d]) = true -> (S (S (length t)) < len b)%nat -> well b ((t ++ [d]) ++ [e]) = cont e.
Proof. intros Hw Hl. rewrite (well_snoc _ _ _ Hw), length_app, Nat.add_1_r, (proj2 (Nat.ltb_lt _ _)) by lia. by destruct t. Qed.

Lemma value_snoc b t d : value b (t ++ [d]) = collect (value b t) d.
Proof. unfold value. by rewrite fold_left_app. Qed.

Lemma state_snoc b t d : state (b :: t ++ [d]) = push (state (b :: t)) d.
Proof. unfold state. by rewrite fold_left_app. Qed.

Lemma state_missing b t : well b t = true -> (S (length t) < len b)%nat -> missing (state (b :: t)) (len b - 1 - length t) (value b t) /\ (t <> [] -> plain (state (b :: t))).
Proof.
  induction t as [|d t IH] using rev_ind; intros Hw Hl.
  - split; [|done]. rewrite Nat.sub_0_r. apply lead_spec, (well_lead b [] Hw). destruct (len_spec b) as [[E H]|H]; [cbn in Hl; lia|lia].
  - rewrite length_app in Hl. cbn [length] in Hl. pose proof (well_app _ _ _ Hw) as Hw'. destruct (IH Hw' ltac:(lia)) as [Hm _]. rewrite (well_snoc _ _ _ Hw') in Hw. apply andb_prop in Hw as [_ Hd].
    assert (cont d = true) as Hc by (destruct t; [by apply (second_cont b)|done]). rewrite state_snoc, value_snoc, length_app. cbn [length]. replace (len b - 1 - length t)%nat with (S (S (len b - 3 - length t))) in Hm by lia.
    destruct (push_more _ _ _ _ Hm Hc) as (H1 & H2 & _). replace (len b - 1 - (length t + 1))%nat with (S (len b - 3 - length t)) by lia. auto.
Qed.

(** The check of the next byte is exact. *)
Lemma state_OOB b t d : well b t = true -> (S (length t) < len b)%nat -> 0 <= d < 256 -> OOB (state (b :: t)) d = negb (well b (t ++ [d])).
Proof.
  intros Hw Hl Hd. rewrite (well_snoc _ _ _ Hw). rewrite (proj2 (Nat.ltb_lt (S (length t)) (len b))) by lia. cbn [andb]. destruct (state_missing b t Hw Hl) as [_ Hp]. destruct t as [|e t]; [|by apply OOB_plain; [apply Hp|]].
  apply lead_spec; [|done]. apply (well_lead b [] Hw). destruct (len_spec b) as [[E H]|H]; [cbn in Hl; lia|lia].
Qed.

(** Reading on from pending bytes: a character, bytes still pending, or no character. *)
Inductive scanned := Full (cp : Z) (k : nat) | Part (t : list Z) | Bad.
Fixpoint scan (b : Z) (t w : list Z) (n k : nat) {struct n} : scanned :=
  if (S (length t) =? len b)%nat then Full (value b t) k else
  match n, w with
  | S n', d :: w' => if well b (t ++ [d]) then scan b (t ++ [d]) w' n' (S k) else Bad
  | S _, [] => Bad
  | O, _ => Part t
  end.

Definition bytes (w : list Z) : Prop := Forall (fun d => 0 <= d < 256) w.

Lemma scan_cases b t w n k : well b t = true -> (n <= length w)%nat ->
  match scan b t w n k with
  | Full cp k' => exists q, shape b (t ++ q) /\ cp = value b (t ++ q) /\ q = take (k' - k) w /\ k' = (k + length q)%nat /\ (length q <= n)%nat
  | Part t' => t' = t ++ take n w /\ well b t' = true /\ (S (length t') < len b)%nat
  | Bad => exists j, (j < n)%nat /\ well b (t ++ take (S j) w) = false /\ (S (length (t ++ take j w)) < len b)%nat
  end.
Proof.
  revert t w k. induction n as [|n IH]; intros t w k Hw Hn; cbn [scan]; (destruct (Nat.eqb_spec (S (length t)) (len b)) as [E|E];
    [cbv iota; exists []; rewrite app_nil_r; split_and!; [apply well_shape; [done|lia]|done|by replace (k - k)%nat with 0%nat by lia|cbn; lia|cbn; lia]|]); pose proof (proj2 (well_first _ _ Hw)).
  { rewrite take_0, app_nil_r. split_and!; [done..|lia]. }
  destruct w as [|d w]; [cbn in Hn; lia|]. cbn [length] in Hn. destruct (well b (t ++ [d])) eqn:Hd; [|exists 0%nat; rewrite app_nil_r; cbn [take]; split_and!; [lia|done|lia]].
  specialize (IH (t ++ [d]) w (S k) Hd ltac:(lia)). destruct (scan b (t ++ [d]) w n (S k)) as [cp k'|t'|].
  - destruct IH as (q & H1 & H2 & H3 & H4 & H5). exists (d :: q). rewrite (assoc_L (++) t [d] q : t ++ d :: q = _). replace (k' - k)%nat with (S (k' - S k)) by lia. cbn [take length]. split_and!; [done..|by rewrite H3 at 1|lia|lia].
  - destruct IH as (-> & H1 & H2). by rewrite <- (assoc_L (++)) in *.
  - destruct IH as (j & H1 & H2 & H3). exists (S j). rewrite <- !(assoc_L (++)) in *. cbn [app] in *. split_and!; [lia|done|done].
Qed.

Section conversions.
Context {St} `{LibcLaws St}.
Implicit Types s : St.

Definition scan_result (b : Z) (n0 : Z) (x : scanned) (s : St) : outcome St (Z * option Z * Z) :=
  match x with
  | Full cp k => Done (n0 + Z.of_nat k, Some cp, 0) s
  | Part t => Done (SIZE (-2), None, state (b :: t)) s
  | Bad => Done (SIZE (-1), None, 0) (with_errno EILSEQ s)
  end.

(** One turn of the loop: the last byte of a character, or a byte and more to come. *)
Lemma turn b t d : well b (t ++ [d]) = true -> 0xC2 <= b ->
  (S (S (length t)) = len b /\ bit 31 (push (state (b :: t)) d) = false /\ push (state (b :: t)) d = value b (t ++ [d])) \/
  ((S (S (length t)) < len b)%nat /\ bit 31 (push (state (b :: t)) d) = true /\ push (state (b :: t)) d = state (b :: t ++ [d])).
Proof.
  intros Hw Hlead. pose proof (well_app _ _ _ Hw) as Hw'. destruct (well_first _ _ Hw) as [_ Hl]. rewrite length_app in Hl. cbn [length] in Hl. destruct (state_missing b t Hw' ltac:(lia)) as [Hm _]. rewrite (well_snoc _ _ _ Hw') in Hw. apply andb_prop in Hw as [_ Hd].
  assert (cont d = true) as Hc by (destruct t; [by apply (second_cont b)|done]). destruct (decide (S (S (length t)) = len b)) as [E|E].
  - left. replace (len b - 1 - length t)%nat with 1%nat in Hm by lia. destruct (push_last _ _ _ Hm Hc) as [H1 H2]. rewrite value_snoc. auto.
  - right. replace (len b - 1 - length t)%nat with (S (S (len b - 3 - length t))) in Hm by lia. destruct (push_more _ _ _ _ Hm Hc) as (_ & _ & H1). rewrite state_snoc. split; [lia|auto].
Qed.

Lemma mbr_loop_scan n b t d w k N s : well b (t ++ [d]) = true -> bytes w -> (n <= length w)%nat -> 0xC2 <= b ->
  mbr_loop (d :: w) (Z.of_nat (S n)) (state (b :: t)) N s = scan_result b (N - Z.of_nat (S n + k)) (scan b (t ++ [d]) w n (S k)) s.
Proof.
  revert t d w k. induction n as [|n IH]; intros t d w k Hw Hb Hn Hlead; cbn [mbr_loop scan]; rewrite length_app; cbn [length]; rewrite (Nat.add_1_r (length t));
    (destruct (turn b t d Hw Hlead) as [(E & -> & ->)|(E & -> & ->)]; cbn [negb]; [rewrite (proj2 (Nat.eqb_eq _ _) E); cbn; unfold mret, M_ret; repeat f_equal; lia|rewrite (proj2 (Nat.eqb_neq _ _)) by lia]).
  - done.
  - rewrite (proj2 (Z.eqb_neq (Z.of_nat (S (S n)) - 1) 0)) by lia. destruct w as [|d' w]; [cbn in Hn; lia|]. apply list.Forall_cons in Hb as [Hd' Hb]. cbn [length] in Hn. erewrite bind_done by reflexivity. rewrite not_cont_spec by done.
    assert (well b ((t ++ [d]) ++ [d']) = cont d') as Hw2 by (by apply well_next).
    rewrite Hw2. destruct (cont d') eqn:Hc'; cbn [negb]; [|done]. replace (Z.of_nat (S (S n)) - 1) with (Z.of_nat (S n)) by lia. rewrite (IH (t ++ [d]) d' w (S k)); [|done..|lia|done]. by replace (S n + S k)%nat with (S (S n) + k)%nat by lia.
Qed.

(** [mbrtowc] from a state with pending bytes, or from the initial one. *)
Definition begin (p w : list Z) (n : nat) : Z * scanned :=
  match p with
  | b :: t => (b, scan b t w n 0)
  | [] => match w with [] => (0, Bad) | b :: w' => (b, if first_ok b then scan b [] w' (n - 1) 1 else Bad) end
  end.

Lemma scan_full b t w n k : S (length t) = len b -> scan b t w n k = Full (value b t) k.
Proof. intros E. destruct n; cbn [scan]; by rewrite (proj2 (Nat.eqb_eq _ _) E). Qed.

Lemma scan_step b t d w n k : (S (length t) < len b)%nat -> scan b t (d :: w) (S n) k = if well b (t ++ [d]) then scan b (t ++ [d]) w n (S k) else Bad.
Proof. intros E. cbn [scan]. by rewrite (proj2 (Nat.eqb_neq _ _)) by lia. Qed.

Lemma scan_positive b t w n k cp k' : well b t = true -> (n <= length w)%nat -> 0xC2 <= b -> scan b t w n k = Full cp k' -> cp <> 0.
Proof.
  intros Hw Hn Hb E. pose proof (scan_cases b t w n k Hw Hn) as Hs. rewrite E in Hs. destruct Hs as (q & Hsh & -> & _). destruct (shape_encode _ _ Hsh) as [_ He]. intros E0. rewrite E0 in He. injection He as ?. lia.
Qed.

(** The result of [mbrtowc]; it is 0 for the null character. *)
Definition wide_result (b : Z) (x : scanned) (s : St) : outcome St (Z * option Z * Z) :=
  match x with Full 0 _ => Done (0, Some 0, 0) s | _ => scan_result b 0 x s end.

Lemma wide_lead b t w n k s : well b t = true -> (n <= length w)%nat -> 0xC2 <= b -> wide_result b (scan b t w n k) s = scan_result b 0 (scan b t w n k) s.
Proof. intros Hw Hn Hb. pose proof (scan_positive b t w n k) as Hpos. unfold wide_result. destruct (scan b t w n k) as [[]| |]; try done. by destruct (Hpos 0 k0). Qed.

(** From pending bytes that the next one may continue. *)
Lemma resume_scan b t d w n k N s : well b t = true -> (S (length t) < len b)%nat -> 0xC2 <= b -> 0 <= d < 256 -> bytes w -> (n <= length w)%nat -> N = Z.of_nat (S n + k) ->
  (if OOB (state (b :: t)) d then ilseq else mbr_loop (d :: w) (Z.of_nat (S n)) (state (b :: t)) N) s = wide_result b (scan b t (d :: w) (S n) k) s.
Proof.
  intros Hw Hl Hb Hd Hbs Hn ->. rewrite wide_lead, scan_step, state_OOB by (cbn [length]; (done || lia)). destruct (well b (t ++ [d])) eqn:E; cbn [negb]; [|done]. rewrite (mbr_loop_scan n b t d w k) by done. by rewrite Z.sub_diag.
Qed.

Lemma mbrtowc_scan p w n s : (p = [] \/ exists b t, p = b :: t /\ well b t = true /\ (S (length t) < len b)%nat) -> bytes w -> (0 < n <= length w)%nat ->
  mbrtowc true (Some w) (Z.of_nat n) (state p) s = wide_result (fst (begin p w n)) (snd (begin p w n)) s.
Proof.
  intros Hp Hb Hn. unfold mbrtowc. replace (Z.of_nat n =? 0) with false by lia. destruct w as [|d w]; [cbn in Hn; lia|]. apply list.Forall_cons in Hb as [Hd Hb]. cbn [length] in Hn. destruct n as [|n]; [lia|]. destruct Hp as [->|(b & t & -> & Hw & Hl)]; cbn [begin].
  - cbn [state Z.eqb negb head]. erewrite bind_done by reflexivity. unfold first_ok. destruct (Z.ltb_spec d 0x80).
    + replace (0 <=? d) with true by lia. cbn [andb orb fst snd]. rewrite scan_full by (destruct (len_spec d) as [[E ?]|?]; cbn; lia). unfold value, first_bits. replace (d <? 128) with true by lia. cbn [fold_left]. rewrite Z.sub_0_r. by destruct d.
    + rewrite andb_false_r, not_lead_spec by done. cbn [orb negb]. destruct ((194 <=? d) && (d <=? 244)) eqn:Hlead; cbn [negb fst snd]; [|done]. assert (well d [] = true) as Hw by (unfold well, first_ok; rewrite Hlead, orb_true_r; destruct (len_spec d) as [[E ?]|[[E ?]|[[E ?]|[E ?]]]]; by rewrite E).
      assert (1 < len d)%nat as Hl by (destruct (len_spec d); lia). cbn [tail]. replace (Z.of_nat (S n) - 1) with (Z.of_nat n) by lia. replace (S n - 1)%nat with n by lia. destruct n as [|n]; [cbn [scan length]; by rewrite (proj2 (Nat.eqb_neq _ _)) by lia|].
      rewrite (proj2 (Z.eqb_neq (Z.of_nat (S n)) 0)) by lia. destruct w as [|d' w]; [cbn in Hn; lia|]. apply list.Forall_cons in Hb as [Hd' Hb]. cbn [length] in Hn. erewrite bind_done by reflexivity. apply (resume_scan d [] d' w n 1); (done || lia).
  - destruct (state_missing b t Hw Hl) as [(Hm & _) _]. replace (state (b :: t) =? 0) with false by lia. cbn [negb fst snd]. erewrite bind_done by reflexivity. apply resume_scan; try (done || lia). apply (well_lead b t Hw). destruct (len_spec b); lia.
Qed.

(** ** What is read *)

Lemma pending_spec p : pending p <-> p = [] \/ exists b t, p = b :: t /\ well b t = true /\ (S (length t) < len b)%nat.
Proof.
  split.
  - intros (cp & q & Hcp & E & Hq). destruct (encode_shape cp Hcp) as (b & t & Eb & Hs & _). rewrite Eb in E. destruct p as [|b' t']; [by left|right]. injection E as -> ->. exists b', t'. destruct (shape_well _ _ Hs) as [Hw Hl]. split; [done|]. split; [by eapply well_app|].
    rewrite length_app in Hl. destruct q; [done|]. cbn [length] in Hl. pose proof (proj2 (well_first _ _ (well_app _ _ _ Hw))). lia.
  - intros [->|(b & t & -> & Hw & Hl)]; [by exists 0, [0]; split; [left|]|]. destruct (well_complete b t Hw) as [t' Hs]. destruct (shape_encode _ _ Hs) as [Hc He]. exists (value b (t ++ t')), t'. split_and!; [done|done|]. intros ->. apply shape_well in Hs as [_ Hlen]. rewrite app_nil_r in Hlen. lia.
Qed.

(** [u] begins with the character [cp]. *)
Definition begins (cp : Z) (u : list Z) : Prop := character cp /\ exists r, u = encode cp ++ r.

Lemma begins_cons cp b u : begins cp (b :: u) -> exists t r, u = t ++ r /\ shape b t /\ cp = value b t.
Proof. intros (Hcp & r & E). destruct (encode_shape cp Hcp) as (b' & t & Eb & Hs & <-). rewrite Eb in E. injection E as -> ->. by exists t, r. Qed.

Lemma shape_begins b t r : shape b t -> begins (value b t) (b :: t ++ r).
Proof. intros Hs. destruct (shape_encode _ _ Hs) as [Hc He]. split; [done|]. exists r. by rewrite He. Qed.

Lemma shape_unique b t r t' r' : shape b t -> shape b t' -> t ++ r = t' ++ r' -> t = t' /\ r = r'.
Proof. intros [_ H1]%shape_well [_ H2]%shape_well E. apply app_inj_1; [lia|done]. Qed.

(** The scan finds the one of three cases that holds. *)
Lemma scan_begins b t w n k : well b t = true -> (n <= length w)%nat ->
  match scan b t w n k with
  | Full cp k' => begins cp (b :: t ++ take n w) /\ k' = (k + (length (encode cp) - S (length t)))%nat
  | Part t' => t' = t ++ take n w /\ pending (b :: t')
  | Bad => ~ pending (b :: t ++ take n w) /\ forall cp, ~ begins cp (b :: t ++ take n w)
  end.
Proof.
  intros Hw Hn. pose proof (scan_cases b t w n k Hw Hn) as Hs. destruct (scan b t w n k) as [cp k'|t'|].
  - destruct Hs as (q & Hsh & -> & Hq & -> & Hl). replace (k + length q - k)%nat with (length q) in Hq by lia. split; [|destruct (shape_encode _ _ Hsh) as [_ ->]; cbn [length]; rewrite length_app; lia].
    rewrite <- (take_drop (length q) (take n w)), take_take, Nat.min_l by lia. rewrite <- Hq, (assoc_L (++)). by apply shape_begins.
  - destruct Hs as (-> & Hw' & Hl). split; [done|]. apply pending_spec. right. eauto.
  - destruct Hs as (j & Hj & Hw' & Hl). assert (take n w = take (S j) w ++ drop (S j) (take n w)) as Et by (rewrite <- (take_drop (S j) (take n w)) at 1; by rewrite take_take, Nat.min_l by lia). split.
    + rewrite pending_spec. intros [|(b' & t' & [= <- <-] & Hw2 & _)]; [done|]. rewrite Et, (assoc_L (++)) in Hw2. apply well_app in Hw2. congruence.
    + intros cp Hb. destruct (begins_cons _ _ _ Hb) as (t' & r & E & Hsh & _). destruct (shape_well _ _ Hsh) as [Hw2 Hl2]. rewrite Et, (assoc_L (++)) in E. assert (t' = (t ++ take (S j) w) ++ drop (length (t ++ take (S j) w)) t') as E2.
      { rewrite <- (take_drop (length (t ++ take (S j) w)) t') at 1. f_equal. apply (f_equal (take (length (t ++ take (S j) w)))) in E. rewrite take_app_length in E. rewrite take_app_le in E; [exact (eq_sym E)|]. rewrite Hl2. rewrite length_app, length_take in *. lia. }
      rewrite E2 in Hw2. apply well_app in Hw2. congruence.
Qed.

Lemma begins_unique cp cp' u : begins cp u -> begins cp' u -> cp = cp'.
Proof.
  intros Hb Hb'. destruct u as [|b u]; [destruct Hb as (Hc & r & E); destruct (encode_shape cp Hc) as (b & t & Eb & _); by rewrite Eb in E|].
  destruct (begins_cons _ _ _ Hb) as (t & r & E & Hs & ->), (begins_cons _ _ _ Hb') as (t' & r' & E' & Hs' & ->). destruct (shape_unique b t r t' r'); congruence.
Qed.

Lemma begins_pending cp u : begins cp u -> ~ pending u.
Proof.
  intros Hb. rewrite pending_spec. intros [->|(b & t & -> & Hw & Hl)]; [destruct Hb as (Hc & r & E); destruct (encode_shape cp Hc) as (b & t & Eb & _); by rewrite Eb in E|].
  destruct (begins_cons _ _ _ Hb) as (t' & r & -> & [_ Hl']%shape_well & _). rewrite length_app in Hl. lia.
Qed.

Lemma first_spec d : first_ok d = well d [].
Proof. unfold well. destruct (first_ok d) eqn:E; [|done]. unfold first_ok in E. destruct (len_spec d) as [[-> ?]|[[-> ?]|[[-> ?]|[-> ?]]]]; done. Qed.

Lemma begin_begins p w n : pending p -> (0 < n <= length w)%nat ->
  match snd (begin p w n) with
  | Full cp k => begins cp (p ++ take n w) /\ k = (length (encode cp) - length p)%nat
  | Part t => fst (begin p w n) :: t = p ++ take n w /\ pending (p ++ take n w)
  | Bad => ~ pending (p ++ take n w) /\ forall cp, ~ begins cp (p ++ take n w)
  end.
Proof.
  rewrite pending_spec. intros [->|(b & t & -> & Hw & Hl)] Hn; cbn [begin].
  - destruct n as [|n]; [lia|]. destruct w as [|d w]; [cbn in Hn; lia|]. cbn [length] in Hn. cbn [fst snd app take]. replace (S n - 1)%nat with n by lia. destruct (first_ok d) eqn:E; rewrite first_spec in E.
    + pose proof (scan_begins d [] w n 1 E ltac:(lia)) as Hs. destruct (scan d [] w n 1) as [cp k|t|]; cbn [app length] in *; [|destruct Hs as [-> ?]|]; [|done..]. destruct Hs as [Hb ->]. split; [done|]. destruct Hb as [Hc _]. destruct (encode_shape cp Hc) as (? & ? & -> & _). cbn [length]. lia.
    + split; [rewrite pending_spec; intros [|(? & ? & [= <- <-] & Hw & _)]; [done|]; apply (well_app d [] (take n w)) in Hw; congruence|]. intros cp Hb. destruct (begins_cons _ _ _ Hb) as (t & r & _ & [Hw _]%shape_well & _). apply (well_app d [] t) in Hw. congruence.
  - pose proof (scan_begins b t w n 0 Hw ltac:(lia)) as Hs. cbn [fst snd]. destruct (scan b t w n 0) as [cp k|t'|]; cbn [app length] in *; [done|destruct Hs as [-> ?]; done|done].
Qed.

Lemma begins_dec u : (exists cp, begins cp u) \/ forall cp, ~ begins cp u.
Proof.
  destruct u as [|b u]; [right; intros cp (Hc & r & E); destruct (encode_shape cp Hc) as (? & ? & Eb & _); by rewrite Eb in E|].
  assert (pending []) as Hp by (apply pending_spec; by left). pose proof (begin_begins [] (b :: u) (length (b :: u)) Hp ltac:(cbn; lia)) as Hs. rewrite firstn_all in Hs. cbn [app] in Hs.
  destruct (snd (begin [] (b :: u) (length (b :: u)))); [left; destruct Hs; eauto|right; intros cp Hb; destruct Hs as [_ Hu]; by apply (begins_pending _ _ Hb)|right; apply Hs].
Qed.

Lemma mbrtowc_begins p w n cp s : pending p -> bytes w -> (0 < n <= length w)%nat -> begins cp (p ++ take n w) ->
  mbrtowc true (Some w) (Z.of_nat n) (state p) s = Done (if cp =? 0 then 0 else Z.of_nat (length (encode cp) - length p), Some cp, 0) s.
Proof.
  intros Hp Hb Hn Hcp. rewrite mbrtowc_scan by (done || by apply pending_spec). pose proof (begin_begins p w n Hp Hn) as Hs. destruct (begin p w n) as [b [cp' k|t|]]; cbn [fst snd] in *.
  - destruct Hs as [Hcp' ->]. rewrite (begins_unique _ _ _ Hcp' Hcp). unfold wide_result. by destruct cp.
  - destruct Hs as [_ Hu]. by destruct (begins_pending _ _ Hcp).
  - destruct Hs as [_ Hno]. by destruct (Hno cp).
Qed.

(** C30: [mbrtowc] decodes UTF-8, however it is cut into pieces. From the state after the bytes [p] of a character that is not complete (none, at the start), on
    at most [n] further bytes: it stores and returns the character that the bytes begin with and the number of bytes it took of them (0 for the null character);
    or it returns -2, and the state is that after all of them, when a character could still follow; or, when neither is so, it fails with EILSEQ. The state
    machine with its bit tables so accepts exactly the encodings of Unicode scalar values: no overlong forms, no surrogates. *)
Theorem mbrtowc_decodes p w n s : pending p -> bytes w -> (0 < n <= length w)%nat -> let u := p ++ take n w in
  (forall cp, begins cp u -> mbrtowc true (Some w) (Z.of_nat n) (state p) s = Done (if cp =? 0 then 0 else Z.of_nat (length (encode cp) - length p), Some cp, 0) s) /\
  (pending u -> mbrtowc true (Some w) (Z.of_nat n) (state p) s = Done (SIZE (-2), None, state u) s) /\
  (~ pending u -> (forall cp, ~ begins cp u) -> mbrtowc true (Some w) (Z.of_nat n) (state p) s = Done (SIZE (-1), None, 0) (with_errno EILSEQ s)).
Proof.
  intros Hp Hb Hn u. split; [intros cp Hcp; by apply mbrtowc_begins|]. rewrite mbrtowc_scan by (done || by apply pending_spec). pose proof (begin_begins p w n Hp Hn) as Hs. fold u in Hs. destruct (begin p w n) as [b [cp k|t|]]; cbn [fst snd] in *.
  - destruct Hs as [Hcp _]. split; [by intros ?%(begins_pending _ _ Hcp)|by intros _ Hno; destruct (Hno cp)].
  - destruct Hs as [E Hu]. split; [intros _; by rewrite <- E|done].
  - by destruct Hs.
Qed.
End conversions.

(** ** Witness *)

(** The euro sign, two bytes of it pending. *)
Lemma mbrtowc_decodes_witness : let e := Env 0 [] in pending [0xE2; 0x82] /\ mbrtowc true (Some [0xAC; 0x41]) 2 (state [0xE2; 0x82]) e = Done (1, Some 0x20AC, 0) e.
Proof.
  intros e. assert (pending [0xE2; 0x82]) as Hp by (exists 0x20AC, [0xAC]; split; [right; unfold scalar; lia|done]). split; [done|].
  destruct (mbrtowc_decodes [0xE2; 0x82] [0xAC; 0x41] 2 e Hp) as (H1 & _); [repeat constructor; lia|cbn; lia|]. apply (H1 0x20AC). split; [right; unfold scalar; lia|]. by exists [0x41].
Defined.
