(* ===== verification/WideProps.v ===== *)
(** * Wide strings

    The conversions of whole strings and the single wide characters, on top of
    the decoder: what mbsrtowcs and wcsrtombs store and return, with their fast
    loops over words, and the round trips. *)

From S2P Require Import Prelude Errno Utf8 Multibyte MultibyteProps.

(** ** Encoding one character *)

Lemma lor_add (m k : Z) x : 0 <= x < m -> forallb (fun i => Z.lor k (Z.of_nat i) =? k + Z.of_nat i) (List.seq 0 (Z.to_nat m)) = true -> Z.lor k x = k + x.
Proof.
  intros Hx Hall. rewrite forallb_forall in Hall. specialize (Hall (Z.to_nat x)). rewrite Z2Nat.id in Hall by lia. apply Z.eqb_eq, Hall, in_seq. lia.
Qed.

Lemma low_bits x : Z.lor 0x80 (Z.land x 0x3f) = 0x80 + x mod 64.
Proof. change 0x3f with (Z.ones 6). rewrite Z.land_ones by lia. apply (lor_add 64); [apply Z.mod_pos_bound; lia|by vm_compute]. Qed.

Section encoding.
Context {St} `{LibcLaws St}.
Implicit Types s : St.

Lemma wcrtomb_character cp s : character cp -> wcrtomb true true cp s = Done (Z.of_nat (length (encode cp)), encode cp) s.
Proof.
  unfold character, scalar. intros Hcp. unfold wcrtomb, encode. cbn [negb]. rewrite !(u32_small cp) by lia. rewrite !low_bits, !Z.shiftr_div_pow2 by lia. change (2 ^ 6) with 64. change (2 ^ 12) with 4096. change (2 ^ 18) with 262144.
  destruct (Z.ltb_spec cp 0x80); [done|]. destruct (Z.ltb_spec cp 0x800); [rewrite (lor_add 32) by first [Z.div_mod_to_equations; lia|by vm_compute]; done|].
  destruct (Z.ltb_spec cp 0x10000).
  - replace ((cp <? 0xd800) || (u32 (cp - 0xe000) <? 0x2000)) with true by (unfold u32; destruct (Z.ltb_spec cp 0xd800); [done|]; rewrite Z.mod_small by lia; lia). rewrite (lor_add 16) by first [Z.div_mod_to_equations; lia|by vm_compute]. done.
  - replace ((cp <? 0xd800) || (u32 (cp - 0xe000) <? 0x2000)) with false by (unfold u32; rewrite Z.mod_small by lia; lia). rewrite (u32_small (cp - 0x10000)) by lia. replace (cp - 0x10000 <? 0x100000) with true by lia. rewrite (lor_add 8) by first [Z.div_mod_to_equations; lia|by vm_compute]. done.
Qed.

Lemma wcrtomb_other wc s : - 2 ^ 31 <= wc < 2 ^ 31 -> ~ character wc -> wcrtomb true true wc s = Done (SIZE (-1), []) (with_errno EILSEQ s).
Proof.
  unfold character, scalar. intros Hr Hwc. unfold wcrtomb. cbn [negb]. destruct (Z.ltb_spec wc 0).
  - assert (u32 wc = wc + 2 ^ 32) as -> by (unfold u32; Z.div_mod_to_equations; lia). replace (wc + 2 ^ 32 <? 0x80) with false by lia. replace (wc + 2 ^ 32 <? 0x800) with false by lia. rewrite !u32_small by lia.
    replace ((wc + 2 ^ 32 <? 0xd800) || (wc + 2 ^ 32 - 0xe000 <? 0x2000)) with false by lia. by replace (wc + 2 ^ 32 - 0x10000 <? 0x100000) with false by lia.
  - rewrite (u32_small wc) by lia. replace (wc <? 0x80) with false by lia. replace (wc <? 0x800) with false by lia. replace ((wc <? 0xd800) || (u32 (wc - 0xe000) <? 0x2000)) with false by (unfold u32; Z.div_mod_to_equations; lia).
    by replace (u32 (wc - 0x10000) <? 0x100000) with false by (unfold u32; Z.div_mod_to_equations; lia).
Qed.

Lemma character_dec cp : {character cp} + {~ character cp}.
Proof. destruct (decide (0 <= cp < 0xD800 \/ 0xE000 <= cp <= 0x10FFFF)) as [Hc|Hc]; [left|right]; unfold character, scalar; lia. Qed.
End encoding.

(** ** The test of a word *)

Lemma word_bit w k : 0 <= k -> Z.testbit w k = false -> (w / 2 ^ k) mod 2 = 0.
Proof. intros Hk Ht. rewrite Z.testbit_eqb in Ht by done. pose proof (Z.mod_pos_bound (w / 2 ^ k) 2). lia. Qed.

Lemma ascii_word_spec b0 b1 b2 b3 : bytes [b0; b1; b2; b3] -> ascii_word b0 b1 b2 b3 = true -> Forall (fun b => 0 < b < 0x80) [b0; b1; b2; b3].
Proof.
  unfold bytes, ascii_word. rewrite !list.Forall_cons. intros (H0 & H1 & H2 & H3 & _) Hw. set (w := _ + _) in Hw. apply Z.eqb_eq in Hw.
  assert (forall k, 0 <= k -> Z.testbit 0x80808080 k = true -> (w / 2 ^ k) mod 2 = 0 /\ (u32 (w - 0x01010101) / 2 ^ k) mod 2 = 0) as Hbit.
  { intros k Hk Ht. apply (f_equal (fun x => Z.testbit x k)) in Hw. rewrite Z.land_spec, Z.lor_spec, Ht, Z.bits_0, andb_true_r in Hw. apply orb_false_iff in Hw as [Hw1 Hw2]. split; by apply word_bit. }
  destruct (Hbit 7) as [A0 B0]; [done..|]. destruct (Hbit 15) as [A1 B1]; [done..|]. destruct (Hbit 23) as [A2 B2]; [done..|]. destruct (Hbit 31) as [A3 B3]; [done..|]. clear Hbit Hw.
  assert (b0 < 128) by (subst w; Z.div_mod_to_equations; lia). assert (b1 < 128) by (subst w; Z.div_mod_to_equations; lia). assert (b2 < 128) by (subst w; Z.div_mod_to_equations; lia). assert (b3 < 128) by (subst w; Z.div_mod_to_equations; lia). clear A0 A1 A2 A3.
  assert (0 < b0) by (subst w; unfold u32 in *; Z.div_mod_to_equations; lia). assert (0 < b1) by (subst w; unfold u32 in *; Z.div_mod_to_equations; lia). assert (0 < b2) by (subst w; unfold u32 in *; Z.div_mod_to_equations; lia). assert (0 < b3) by (subst w; unfold u32 in *; Z.div_mod_to_equations; lia). repeat constructor; lia.
Qed.

(** ** One character of a string *)

Lemma well_bytes b t : well b t = true -> Forall (fun d => cont d = true) t.
Proof.
  unfold well. intros [_ Hs]%andb_prop. destruct t as [|d t]; [constructor|]. apply andb_prop in Hs as [Hd Ht]. constructor; [by apply (second_cont b)|]. apply list.Forall_forall. intros x Hx. rewrite forallb_forall in Ht. by apply Ht, list_elem_of_In.
Qed.

Lemma well_zero b t : well b t = true -> 0 ∉ t.
Proof. intros Hw%well_bytes Hin. rewrite list.Forall_forall in Hw. by specialize (Hw 0 Hin). Qed.

Section strings.
Context {St} `{LibcLaws St}.
Implicit Types s : St.

(** A zero byte stops the scan. *)
Lemma scan_zero b t w n k : 0 ∈ w -> (length w <= n)%nat -> scan b t w n k = scan b t w (length w) k.
Proof.
  revert t n k. induction w as [|d w IH]; intros t n k Hz Hn; [by apply not_elem_of_nil in Hz|]. destruct n as [|n]; [cbn in Hn; lia|]. cbn [length] in *. cbn [scan]. destruct (S (length t) =? len b)%nat; [done|]. destruct (well b (t ++ [d])) eqn:Hw; [|done].
  apply IH; [|lia]. apply elem_of_cons in Hz as [<-|]; [|done]. apply well_zero in Hw. set_solver.
Qed.

Lemma seq_scan b t w s : well b t = true -> (S (length t) < len b)%nat -> 0xC2 <= b -> bytes w -> 0 ∈ w ->
  seq (state (b :: t)) w s = Done (match scan b t w (len b - 1 - length t) 0 with Full cp k => Some (cp, drop k w) | _ => None end) s.
Proof.
  intros Hw Hl Hb Hbs Hz. unfold seq. assert (len b <= 4)%nat as H4 by (destruct (len_spec b); lia). destruct w as [|d w]; [by apply not_elem_of_nil in Hz|]. apply list.Forall_cons in Hbs as [Hd Hbs]. erewrite bind_done by reflexivity. rewrite state_OOB by done.
  destruct (len b - 1 - length t)%nat as [|m] eqn:Em; [lia|]. rewrite scan_step by done. destruct (well b (t ++ [d])) eqn:Hwd; [|done]. cbn [negb]. destruct (turn b t d Hwd Hb) as [(E & -> & ->)|(E & -> & ->)]; cbn [negb]; [rewrite scan_full by (rewrite length_app; cbn; lia); done|].
  assert (0 ∈ w) as Hz1 by (apply elem_of_cons in Hz as [<-|]; [apply well_zero in Hwd; set_solver|done]). destruct w as [|e w]; [by apply not_elem_of_nil in Hz1|]. apply list.Forall_cons in Hbs as [He Hbs]. erewrite bind_done by reflexivity. rewrite not_cont_spec by done.
  destruct m as [|m]; [lia|]. rewrite scan_step by (rewrite length_app; cbn; lia). destruct (cont e) eqn:Hce; pose proof (well_next b t d e Hwd E) as Hwe; rewrite Hce in Hwe; rewrite Hwe; cbn [negb]; [|done].
  destruct (turn b (t ++ [d]) e Hwe Hb) as [(E2 & -> & ->)|(E2 & -> & ->)]; cbn [negb]; [rewrite scan_full by (rewrite !length_app in *; cbn in *; lia); done|].
  assert (0 ∈ w) as Hz2 by (by apply elem_of_cons in Hz1 as [<-|]). destruct w as [|f w]; [by apply not_elem_of_nil in Hz2|]. apply list.Forall_cons in Hbs as [Hf Hbs]. erewrite bind_done by reflexivity. rewrite not_cont_spec by done.
  pose proof (well_next b (t ++ [d]) e f Hwe E2) as Hwf. rewrite length_app in E2. cbn [length] in E2. destruct m as [|m]; [lia|]. rewrite scan_step by (rewrite !length_app; cbn; lia). rewrite Hwf. destruct (cont f) eqn:Hcf; cbn [negb]; [|done].
  destruct (turn b ((t ++ [d]) ++ [e]) f Hwf Hb) as [(E3 & _ & ->)|(E3 & _ & _)]; [|rewrite !length_app in E3; cbn in E3; lia]. rewrite scan_full by (rewrite !length_app in *; cbn in *; lia). done.
Qed.

Lemma begins_app cp u v : begins cp u -> begins cp (u ++ v).
Proof. intros (Hc & r & ->). split; [done|]. exists (r ++ v). by rewrite (assoc_L (++)). Qed.

(** The character at [b :: t], with the bytes [t] read already. *)
Lemma seq_spec b t w s : well b t = true -> (S (length t) < len b)%nat -> 0xC2 <= b -> bytes w -> 0 ∈ w ->
  (exists cp, begins cp (b :: t ++ w) /\ seq (state (b :: t)) w s = Done (Some (cp, drop (length (encode cp) - S (length t)) w)) s) \/
  ((forall cp, ~ begins cp (b :: t ++ w)) /\ seq (state (b :: t)) w s = Done None s).
Proof.
  intros Hw Hl Hb Hbs Hz. rewrite (seq_scan b t w s Hw Hl Hb Hbs Hz). set (m := (len b - 1 - length t)%nat). set (n := (m `min` length w)%nat). assert (scan b t w m 0 = scan b t w n 0) as ->.
  { destruct (decide (length w <= m)%nat); [rewrite (scan_zero b t w m 0) by done; by replace n with (length w) by lia|by replace n with m by lia]. }
  pose proof (scan_begins b t w n 0 Hw ltac:(lia)) as Hs. destruct (scan b t w n 0) as [cp k|t'|].
  - left. destruct Hs as [Hcp ->]. exists cp. split; [|done]. rewrite <- (take_drop n w) at 1. rewrite (assoc_L (++) t). by apply (begins_app cp (b :: t ++ take n w)).
  - exfalso. destruct Hs as [-> Hp]. apply pending_spec in Hp as [|(? & ? & [= <- <-] & Hw' & Hl')]; [done|]. rewrite length_app, length_take in Hl'. assert (n = length w) as E by lia. rewrite E, take_ge in Hw' by lia. apply well_zero in Hw'. set_solver.
  - right. destruct Hs as [_ Hno]. split; [|done]. intros cp Hcp. apply (Hno cp). destruct (begins_cons _ _ _ Hcp) as (t' & r & E & Hsh & ->). destruct (shape_well _ _ Hsh) as [_ Hlen].
    destruct (decide (length w <= m)%nat); [by rewrite take_ge by lia|]. replace n with m by lia. assert (t ++ take m w = t') as ->; [|by rewrite <- (app_nil_r t') at 2; apply (shape_begins)].
    apply (f_equal (take (length t'))) in E. rewrite take_app_length, take_app_ge in E by lia. replace (length t' - length t)%nat with m in E by lia. done.
Qed.

(** ** Texts *)

Definition enc (cps : list Z) : list Z := concat (map encode cps).

(** A string up to where no character follows: the null character, or bytes that begin no character. *)
Definition stuck (rest : list Z) : Prop := 0 ∈ rest /\ (head rest = Some 0 \/ forall cp, ~ begins cp rest).
Definition text (u : list Z) (cps rest : list Z) : Prop := u = enc cps ++ rest /\ Forall scalar cps /\ stuck rest.

Lemma stuck_begins rest cp : stuck rest -> begins cp rest -> cp = 0.
Proof.
  intros [_ [Hh|Hno]] Hb; [|by destruct (Hno cp)]. destruct rest as [|b rest]; [done|]. injection Hh as ->. apply (begins_unique cp 0 (0 :: rest) Hb). split; [by left|]. by exists rest.
Qed.

Lemma text_begins u cps rest cp : text u cps rest -> begins cp u -> cp <> 0 -> exists cps', cps = cp :: cps' /\ text (drop (length (encode cp)) u) cps' rest.
Proof.
  intros (-> & Hs & Hst) Hb Hne. destruct cps as [|cp' cps]; [by destruct Hne; apply (stuck_begins rest)|]. apply list.Forall_cons in Hs as [Hcp' Hs]. cbn [enc map concat] in *. rewrite <- (assoc_L (++)) in *.
  assert (cp = cp') as <- by (apply (begins_unique _ _ _ Hb); split; [by right|eauto]). exists cps. split; [done|]. rewrite drop_app_length. done.
Qed.

Lemma text_nothing u cps rest : text u cps rest -> (forall cp, begins cp u -> cp = 0) -> cps = [] /\ u = rest.
Proof.
  intros (-> & Hs & Hst) Hno. destruct cps as [|cp cps]; [done|]. apply list.Forall_cons in Hs as [Hcp _]. cbn [enc map concat] in *. rewrite <- (assoc_L (++)) in Hno. exfalso. assert (cp = 0) by (apply Hno; split; [by right|eauto]). unfold scalar in Hcp. lia.
Qed.

Lemma begins_ascii b u : 0 <= b < 0x80 -> begins b (b :: u).
Proof. intros Hb. split; [unfold character, scalar; lia|]. exists u. unfold encode. by replace (b <? 128) with true by lia. Qed.

Lemma encode_ascii b : 0 <= b < 0x80 -> encode b = [b].
Proof. intros Hb. unfold encode. by replace (b <? 128) with true by lia. Qed.

Lemma text_ascii b u cps rest : text (b :: u) cps rest -> 0 < b < 0x80 -> exists cps', cps = b :: cps' /\ text u cps' rest.
Proof.
  intros Ht Hb. destruct (text_begins _ _ _ b Ht) as (cps' & -> & Ht'); [apply begins_ascii; lia|lia|]. exists cps'. split; [done|]. rewrite encode_ascii in Ht' by lia. done.
Qed.

(** Every string is a text. *)
Lemma text_exists u : bytes u -> 0 ∈ u -> exists cps rest, text u cps rest.
Proof.
  remember (length u) as m eqn:Em. revert u Em. induction m as [m IH] using lt_wf_ind. intros u -> Hbs Hz. destruct (begins_dec u) as [[cp Hb]|Hno]; [|exists [], u; split_and!; [done|constructor|split; [done|by right]]].
  destruct Hb as (Hc & r & ->). destruct (decide (cp = 0)) as [->|Hne]; [exists [], (encode 0 ++ r); split_and!; [done|constructor|split; [done|by left]]|]. assert (scalar cp) as Hsc by (destruct Hc; done). destruct (encode_shape cp Hc) as (b & t & Eb & Hsh & Hv).
  apply list.Forall_app in Hbs as [_ Hbs]. assert (0 ∈ r) as Hz'.
  { apply elem_of_app in Hz as [Hz|]; [|done]. exfalso. rewrite Eb in Hz. destruct (shape_well _ _ Hsh) as [Hw _]. apply elem_of_cons in Hz as [<-|Hz]; [|by apply well_zero in Hw]. apply Hne. rewrite <- Hv. inversion Hsh; subst; try lia. done. }
  destruct (IH (length r)) with (u := r) as (cps & rest & -> & Hs & Hst); [rewrite length_app, Eb; cbn; lia|done..|]. exists (cp :: cps), rest. split_and!; [cbn; by rewrite <- (assoc_L (++))|by constructor|done].
Qed.

Lemma text_zero u cps rest : text u cps rest -> 0 ∈ u.
Proof. intros (-> & _ & Hz & _). set_solver. Qed.

(** ** Storing wide characters *)

(** What [mbsrtowcs] does with room for [wn] more characters on the text [cps], [rest]. *)
Definition converted (wn0 st : Z) (out : list Z) (i wn : Z) (cps rest : list Z) (s : St) : outcome St mbs :=
  if wn <=? Z.of_nat (length cps) then
    let cps := take (Z.to_nat wn) cps in Done (Mbs wn0 (out ++ cps) (Some (i + Z.of_nat (length (enc cps)))) st) s
  else if bool_decide (head rest = Some 0) then Done (Mbs (SIZE (wn0 - (wn - Z.of_nat (length cps)))) (out ++ cps ++ [0]) None st) s
  else Done (Mbs (SIZE (-1)) (out ++ cps) (Some (i + Z.of_nat (length (enc cps)))) st) (with_errno EILSEQ s).

Lemma converted_cons wn0 st out i wn cp cps rest s : 1 <= wn ->
  converted wn0 st out i wn (cp :: cps) rest s = converted wn0 st (out ++ [cp]) (i + Z.of_nat (length (encode cp))) (wn - 1) cps rest s.
Proof.
  intros Hwn. unfold converted. cbn [length]. assert ((wn - 1 <=? Z.of_nat (length cps)) = (wn <=? Z.of_nat (S (length cps)))) as -> by (destruct (Z.leb_spec (wn - 1) (Z.of_nat (length cps))), (Z.leb_spec wn (Z.of_nat (S (length cps)))); lia). replace (Z.to_nat wn) with (S (Z.to_nat (wn - 1))) by lia. cbn [take enc map concat]. rewrite !length_app, <- !(assoc_L (++)). cbn [app].
  replace (wn0 - (wn - 1 - Z.of_nat (length cps))) with (wn0 - (wn - Z.of_nat (S (length cps)))) by lia. unfold enc. replace (i + Z.of_nat (length (encode cp) + length (concat (map encode (take (Z.to_nat (wn - 1)) cps))))) with (i + Z.of_nat (length (encode cp)) + Z.of_nat (length (concat (map encode (take (Z.to_nat (wn - 1)) cps))))) by lia.
  by replace (i + Z.of_nat (length (encode cp) + length (concat (map encode cps)))) with (i + Z.of_nat (length (encode cp)) + Z.of_nat (length (concat (map encode cps)))) by lia.
Qed.

Lemma converted_ascii wn0 st out i wn a cps rest s : Forall (fun b => 0 < b < 0x80) a -> Z.of_nat (length a) <= wn ->
  converted wn0 st out i wn (a ++ cps) rest s = converted wn0 st (out ++ a) (i + Z.of_nat (length a)) (wn - Z.of_nat (length a)) cps rest s.
Proof.
  intros Ha. revert out i wn. induction Ha as [|b a Hb Ha IH]; intros out i wn Hwn; cbn [app length] in *; [by rewrite app_nil_r, Z.add_0_r, Z.sub_0_r|]. rewrite converted_cons by lia. rewrite IH by lia. rewrite encode_ascii by lia. cbn [length]. rewrite <- (assoc_L (++)). f_equal; lia.
Qed.

(** The loop over words takes ASCII characters only, and leaves room for one. *)
Lemma words_spec u cps rest out i wn s : text u cps rest -> bytes u -> (Z.of_nat (length u)) mod 4 = 0 -> 1 <= wn ->
  exists a u' cps', u = a ++ u' /\ cps = a ++ cps' /\ Forall (fun b => 0 < b < 0x80) a /\ text u' cps' rest /\ Z.of_nat (length a) < wn /\
    words u out i wn s = Done (u', out ++ a, i + Z.of_nat (length a), wn - Z.of_nat (length a)) s.
Proof.
  remember (length u) as m eqn:Em. revert u Em cps out i wn. induction m as [m IH] using lt_wf_ind. intros u -> cps out i wn Ht Hbs Hal Hwn. pose proof (text_zero _ _ _ Ht) as Hz.
  assert (exists a u' cps', u = a ++ u' /\ cps = a ++ cps' /\ Forall (fun b => 0 < b < 0x80) a /\ text u' cps' rest /\ Z.of_nat (length a) < wn /\ Done (u, out, i, wn) s = Done (u', out ++ a, i + Z.of_nat (length a), wn - Z.of_nat (length a)) s) as Hstop.
  { exists [], u, cps. cbn [app length]. rewrite app_nil_r, Z.add_0_r, Z.sub_0_r. split_and!; try done. lia. }
  destruct u as [|b0 [|b1 [|b2 [|b3 u]]]]; [by apply not_elem_of_nil in Hz|done..|]. cbn [words]. destruct (Z.ltb_spec wn 5); [exact Hstop|]. destruct (ascii_word b0 b1 b2 b3) eqn:Ha; [|exact Hstop]. clear Hstop.
  apply (list.Forall_app _ [b0; b1; b2; b3] u) in Hbs as [Hb4 Hbs]. apply ascii_word_spec in Ha; [|done]. pose proof Ha as Hasc. rewrite !list.Forall_cons in Ha. destruct Ha as (A0 & A1 & A2 & A3 & _).
  destruct (text_ascii _ _ _ _ Ht A0) as (c0 & -> & Ht0). destruct (text_ascii _ _ _ _ Ht0 A1) as (c1 & -> & Ht1). destruct (text_ascii _ _ _ _ Ht1 A2) as (c2 & -> & Ht2). destruct (text_ascii _ _ _ _ Ht2 A3) as (c3 & -> & Ht3).
  cbn [length] in *. destruct (IH (length u)) with (u := u) (cps := c3) (out := out ++ [b0; b1; b2; b3]) (i := i + 4) (wn := wn - 4) as (a & u' & cps' & -> & -> & Hasc' & Ht' & Hlen & Hw); [lia|done|done|done|Z.div_mod_to_equations; lia|lia|].
  exists (b0 :: b1 :: b2 :: b3 :: a), u', cps'. split_and!; [done|done|by apply (list.Forall_app_2 _ [b0; b1; b2; b3])|done|cbn [length]; lia|]. rewrite Hw. cbn [length]. rewrite <- (assoc_L (++)). cbn [app]. replace (i + Z.of_nat (S (S (S (S (length a)))))) with (i + 4 + Z.of_nat (length a)) by lia. by replace (wn - Z.of_nat (S (S (S (S (length a)))))) with (wn - 4 - Z.of_nat (length a)) by lia.
Qed.

Lemma small_spec b : 0 <= b < 256 -> (u32 (b - 1) <? 0x7f) = ((0 <? b) && (b <? 0x80)).
Proof. intros Hb. apply eqb_prop. by_bytes b. Qed.

Lemma begins_lead b u cp : begins cp (b :: u) -> first_ok b = true /\ (b <> 0 -> cp <> 0) /\ (b = 0 -> cp = 0).
Proof.
  intros Hb. destruct (begins_cons _ _ _ Hb) as (t & r & _ & Hsh & ->). destruct (shape_well _ _ Hsh) as [Hw _]. split; [by destruct (well_first _ _ Hw)|]. destruct (shape_encode _ _ Hsh) as [_ He]. split.
  - intros Hne E. rewrite E in He. by injection He.
  - intros ->. inversion Hsh; subst; try lia. done.
Qed.

(** What follows a lead byte. *)
Lemma text_lead b u cps rest s : text (b :: u) cps rest -> bytes (b :: u) -> 0xC2 <= b <= 0xF4 ->
  (exists cp cps', cps = cp :: cps' /\ (length (encode cp) <= S (length u))%nat /\ (1 <= length (encode cp))%nat /\ text (drop (length (encode cp) - 1) u) cps' rest /\ seq (lead b) u s = Done (Some (cp, drop (length (encode cp) - 1) u)) s) \/
  (cps = [] /\ rest = b :: u /\ seq (lead b) u s = Done None s).
Proof.
  intros Ht Hbs Hb. apply list.Forall_cons in Hbs as [_ Hbs]. assert (0 ∈ u) as Hz by (apply text_zero, elem_of_cons in Ht as [Ht|]; [lia|done]). assert (1 < len b)%nat as Hl by (destruct (len_spec b); lia).
  destruct (seq_spec b [] u s) as [(cp & Hcp & Hs)|[Hno Hs]]; [rewrite <- first_spec; unfold first_ok; lia|done|lia|done|done|..]; cbn [app length] in *.
  - left. destruct (begins_lead _ _ _ Hcp) as (_ & Hne & _). destruct (text_begins _ _ _ cp Ht Hcp ltac:(apply Hne; lia)) as (cps' & -> & Ht'). exists cp, cps'. destruct Hcp as (Hc & r & E). destruct (encode_shape cp Hc) as (b' & t & Eb & _).
    assert (length (encode cp) = S (length t)) as El by (by rewrite Eb). split; [done|]. split; [apply (f_equal length) in E; rewrite length_app in E; cbn in E; lia|]. split; [lia|]. split; [|done]. rewrite El in *. cbn [drop] in Ht'. by rewrite Nat.sub_1_r.
  - right. destruct (text_nothing _ _ _ Ht) as [-> <-]; [by intros cp ?%Hno|]. done.
Qed.

Lemma convert_spec addr wn0 st fuel u cps rest out i wn s : text u cps rest -> bytes u -> (addr + i + Z.of_nat (length u)) mod 4 = 0 -> 0 <= wn -> (length u < fuel)%nat ->
  convert addr wn0 st fuel u out i wn s = converted wn0 st out i wn cps rest s.
Proof.
  revert u cps out i wn. induction fuel as [|fuel IH]; intros u cps out i wn Ht Hbs Hal Hwn Hf; [lia|]. cbn [convert]. destruct (Z.eqb_spec wn 0) as [->|Hne]; [unfold converted; rewrite (proj2 (Z.leb_le 0 (Z.of_nat (length cps)))) by lia; cbn; by rewrite app_nil_r, Z.add_0_r|].
  pose proof (text_zero _ _ _ Ht) as Hz. destruct u as [|b u]; [by apply not_elem_of_nil in Hz|]. erewrite bind_done by reflexivity. set (x := if _ && _ then _ else _).
  assert (exists a u' cps', b :: u = a ++ u' /\ cps = a ++ cps' /\ Forall (fun b => 0 < b < 0x80) a /\ text u' cps' rest /\ Z.of_nat (length a) < wn /\ x s = Done (u', out ++ a, i + Z.of_nat (length a), wn - Z.of_nat (length a)) s) as (a & u' & cps' & E & -> & Ha & Ht' & Hlen & Hx).
  { subst x. destruct ((u32 (b - 1) <? 127) && ((addr + i) mod 4 =? 0)) eqn:Ew; [apply words_spec; [done..| |lia]; Z.div_mod_to_equations; lia|]. exists [], (b :: u), cps. cbn [app length]. rewrite app_nil_r, Z.add_0_r, Z.sub_0_r. split_and!; try done. lia. }
  erewrite bind_done by exact Hx. rewrite converted_ascii by (done || lia). rewrite E in *. clear Hx x Ht E. set (i' := i + _). set (wn' := wn - _). set (out' := out ++ a). rewrite length_app in *. apply list.Forall_app in Hbs as [_ Hbs].
  pose proof (text_zero _ _ _ Ht') as Hz'. destruct u' as [|d u']; [by apply not_elem_of_nil in Hz'|]. pose proof Hbs as Hbs0. apply list.Forall_cons in Hbs as [Hd Hbs]. erewrite bind_done by reflexivity. rewrite small_spec by done. cbn [length] in *. destruct ((0 <? d) && (d <? 128)) eqn:Ed.
  - destruct (text_ascii _ _ _ _ Ht' ltac:(lia)) as (c & -> & Hc). rewrite converted_cons, encode_ascii by lia. cbn [tail length]. apply IH; [done|done|..|lia|lia]. subst i'. Z.div_mod_to_equations. lia.
  - rewrite not_lead_spec by done. destruct ((194 <=? d) && (d <=? 244)) eqn:El; cbn [negb].
    + cbn [tail]. destruct (text_lead d u' cps' rest s Ht' Hbs0 ltac:(lia)) as [(cp & c & -> & Hl1 & Hl2 & Hc & Hs)|(-> & -> & Hs)]; erewrite bind_done by exact Hs; cbv beta iota.
      * rewrite converted_cons by lia. replace (i' + Z.of_nat (S (length u')) - Z.of_nat (length (drop (length (encode cp) - 1) u'))) with (i' + Z.of_nat (length (encode cp))) by (rewrite length_drop; lia).
        apply IH; [done|by apply Forall_drop|..|lia|rewrite length_drop; lia]. subst i'. rewrite length_drop. Z.div_mod_to_equations. lia.
      * unfold converted. rewrite (proj2 (Z.leb_gt wn' _)) by (cbn [length]; lia). rewrite bool_decide_false by (intros [= ->]; lia). cbn [enc map concat length]. by rewrite app_nil_r, Z.add_0_r.
    + destruct (text_nothing _ _ _ Ht') as [-> <-]. { intros cp Hcp. destruct (begins_lead _ _ _ Hcp) as (Hf1 & _ & Hzero). apply Hzero. unfold first_ok in Hf1. lia. }
      unfold finish, converted. rewrite (proj2 (Z.leb_gt wn' _)) by (cbn [length]; lia). cbn [enc map concat length app]. rewrite Z.sub_0_r, app_nil_r, Z.add_0_r. destruct (Z.eqb_spec d 0) as [->|Hd0]; [by rewrite bool_decide_true|]. rewrite bool_decide_false by (by intros [= ->]). done.
Qed.

(** ** Counting wide characters *)

Lemma missing_bits c r v : missing c r v -> bit 25 c = (1 <? r)%nat /\ bit 19 c = (2 <? r)%nat.
Proof.
  intros (Hc & Hv & Hm & Hr). assert (forall k, 0 <= k < 26 -> bit k c = Z.testbit (c mod 2 ^ 26) k) as Hb by (intros k Hk; unfold bit; by rewrite Z.mod_pow2_bits_low by lia). rewrite !Hb, Hm by lia. clear Hb Hm. rewrite !Z.testbit_eqb by lia.
  assert (r = 1 \/ r = 2 \/ r = 3)%nat as [->|[->| ->]] by lia; (split; [apply Z.eqb_eq || apply Z.eqb_neq|apply Z.eqb_eq || apply Z.eqb_neq]); Z.div_mod_to_equations; lia.
Qed.

Lemma state_bits b t : well b t = true -> (S (length t) < len b)%nat -> bit 25 (state (b :: t)) = (S (S (length t)) <? len b)%nat /\ bit 19 (state (b :: t)) = (S (S (S (length t))) <? len b)%nat.
Proof.
  intros Hw Hl. destruct (state_missing b t Hw Hl) as [Hm _]. destruct (missing_bits _ _ _ Hm) as [-> ->]. split; apply eq_true_iff_eq; rewrite !Nat.ltb_lt; lia.
Qed.

Lemma turn_bit b t d : well b (t ++ [d]) = true -> 0xC2 <= b -> bit 31 (push (state (b :: t)) d) = (S (S (length t)) <? len b)%nat.
Proof. intros Hw Hb. symmetry. destruct (turn b t d Hw Hb) as [(E & -> & _)|(E & -> & _)]; [apply Nat.ltb_ge; lia|by apply Nat.ltb_lt]. Qed.

(** Without storing, the same bytes are read. *)
Lemma seq0_seq b t w s r : well b t = true -> (S (length t) < len b)%nat -> 0xC2 <= b -> bytes w -> 0 ∈ w -> seq (state (b :: t)) w s = Done r s -> seq0 (state (b :: t)) w s = Done (snd <$> r) s.
Proof.
  intros Hw Hl Hb Hbs Hz. destruct (state_bits b t Hw Hl) as [B25 B19]. unfold seq, seq0. rewrite B25, B19. destruct w as [|d w]; [by apply not_elem_of_nil in Hz|]. apply list.Forall_cons in Hbs as [Hd Hbs]. erewrite !bind_done by reflexivity. rewrite state_OOB by done.
  destruct (well b (t ++ [d])) eqn:Hwd; cbn [negb]; [|by intros [= <-]]. rewrite (turn_bit b t d Hwd Hb). destruct (S (S (length t)) <? len b)%nat eqn:E; cbn [negb]; [|by intros [= <-]]. apply Nat.ltb_lt in E.
  assert (0 ∈ w) as Hz1 by (apply elem_of_cons in Hz as [<-|]; [apply well_zero in Hwd; set_solver|done]). destruct w as [|e w]; [by apply not_elem_of_nil in Hz1|]. apply list.Forall_cons in Hbs as [He Hbs]. erewrite !bind_done by reflexivity. rewrite not_cont_spec by done. pose proof (well_next b t d e Hwd E) as Hwe.
  destruct (cont e) eqn:Hce; cbn [negb]; [|by intros [= <-]]. rewrite <- (state_snoc b t d), (turn_bit b (t ++ [d]) e Hwe Hb), length_app, Nat.add_1_r. destruct (S (S (S (length t))) <? len b)%nat eqn:E2; cbn [negb]; [|by intros [= <-]].
  assert (0 ∈ w) as Hz2 by (by apply elem_of_cons in Hz1 as [<-|]). destruct w as [|f w]; [by apply not_elem_of_nil in Hz2|]. apply list.Forall_cons in Hbs as [Hf Hbs]. erewrite !bind_done by reflexivity. rewrite not_cont_spec by done. destruct (cont f); cbn [negb]; by intros [= <-].
Qed.

Definition counted (wn0 st : Z) (wn : Z) (cps rest : list Z) (s : St) : outcome St mbs :=
  if bool_decide (head rest = Some 0) then Done (Mbs (SIZE (wn0 - wn + Z.of_nat (length cps))) [] (Some 0) st) s
  else Done (Mbs (SIZE (-1)) [] (Some 0) st) (with_errno EILSEQ s).

Lemma counted_app wn0 st wn a cps rest s : counted wn0 st wn (a ++ cps) rest s = counted wn0 st (u32 (wn - Z.of_nat (length a))) cps rest s.
Proof.
  unfold counted. destruct (bool_decide _); [|done]. do 2 f_equal. unfold SIZE, u32. rewrite length_app, (Z.mod_eq (wn - _)) by lia.
  replace (wn0 - _ + Z.of_nat (length cps)) with (wn0 - wn + Z.of_nat (length a + length cps) + (wn - Z.of_nat (length a)) / 2 ^ 32 * 2 ^ 32) by lia. by rewrite Z_mod_plus_full.
Qed.

Lemma words0_spec u cps rest i wn s : text u cps rest -> bytes u -> (Z.of_nat (length u)) mod 4 = 0 ->
  exists a u' cps' wn', u = a ++ u' /\ cps = a ++ cps' /\ text u' cps' rest /\ u32 wn' = u32 (wn - Z.of_nat (length a)) /\ words0 u i wn s = Done (u', i + Z.of_nat (length a), wn') s.
Proof.
  remember (length u) as m eqn:Em. revert u Em cps i wn. induction m as [m IH] using lt_wf_ind. intros u -> cps i wn Ht Hbs Hal. pose proof (text_zero _ _ _ Ht) as Hz.
  assert (exists a u' cps' wn', u = a ++ u' /\ cps = a ++ cps' /\ text u' cps' rest /\ u32 wn' = u32 (wn - Z.of_nat (length a)) /\ Done (u, i, wn) s = Done (u', i + Z.of_nat (length a), wn') s) as Hstop by (exists [], u, cps, wn; cbn [app length]; by rewrite Z.add_0_r, Z.sub_0_r).
  destruct u as [|b0 [|b1 [|b2 [|b3 u]]]]; [by apply not_elem_of_nil in Hz|done..|]. cbn [words0]. destruct (ascii_word b0 b1 b2 b3) eqn:Ha; [|exact Hstop]. clear Hstop.
  apply (list.Forall_app _ [b0; b1; b2; b3] u) in Hbs as [Hb4 Hbs]. apply ascii_word_spec in Ha; [|done]. rewrite !list.Forall_cons in Ha. destruct Ha as (A0 & A1 & A2 & A3 & _).
  destruct (text_ascii _ _ _ _ Ht A0) as (c0 & -> & Ht0). destruct (text_ascii _ _ _ _ Ht0 A1) as (c1 & -> & Ht1). destruct (text_ascii _ _ _ _ Ht1 A2) as (c2 & -> & Ht2). destruct (text_ascii _ _ _ _ Ht2 A3) as (c3 & -> & Ht3).
  cbn [length] in *. destruct (IH (length u)) with (u := u) (cps := c3) (i := i + 4) (wn := u32 (wn - 4)) as (a & u' & cps' & wn' & -> & -> & Ht' & Hwn & Hw); [lia|done|done|done|Z.div_mod_to_equations; lia|].
  exists (b0 :: b1 :: b2 :: b3 :: a), u', cps', wn'. split_and!; [done|done|done|rewrite Hwn; unfold u32; rewrite Zminus_mod_idemp_l; f_equal; cbn [length]; lia|]. rewrite Hw. cbn [length]. by replace (i + Z.of_nat (S (S (S (S (length a)))))) with (i + 4 + Z.of_nat (length a)) by lia.
Qed.

Lemma counted_mod wn0 st wn wn' cps rest s : u32 wn = u32 wn' -> counted wn0 st wn cps rest s = counted wn0 st wn' cps rest s.
Proof. intros E. rewrite (counted_app wn0 st wn [] cps), (counted_app wn0 st wn' [] cps). cbn [length Z.of_nat]. by rewrite !Z.sub_0_r, E. Qed.

Lemma counted_cons wn0 st wn cp cps rest s : counted wn0 st wn (cp :: cps) rest s = counted wn0 st (u32 (wn - 1)) cps rest s.
Proof. exact (counted_app wn0 st wn [cp] cps rest s). Qed.

Lemma count_spec addr wn0 st fuel u cps rest i wn s : text u cps rest -> bytes u -> (addr + i + Z.of_nat (length u)) mod 4 = 0 -> (length u < fuel)%nat ->
  count addr wn0 st fuel u i wn s = counted wn0 st wn cps rest s.
Proof.
  revert u cps i wn. induction fuel as [|fuel IH]; intros u cps i wn Ht Hbs Hal Hf; [lia|]. cbn [count]. pose proof (text_zero _ _ _ Ht) as Hz. destruct u as [|b u]; [by apply not_elem_of_nil in Hz|]. erewrite bind_done by reflexivity. set (x := if _ && _ then _ else _).
  assert (exists a u' cps' wn', b :: u = a ++ u' /\ cps = a ++ cps' /\ text u' cps' rest /\ u32 wn' = u32 (wn - Z.of_nat (length a)) /\ x s = Done (u', i + Z.of_nat (length a), wn') s) as (a & u' & cps' & wn' & E & -> & Ht' & Hwn & Hx).
  { subst x. destruct ((u32 (b - 1) <? 127) && ((addr + i) mod 4 =? 0)) eqn:Ew; [apply words0_spec; [done..|]; Z.div_mod_to_equations; lia|]. exists [], (b :: u), cps, wn. cbn [app length]. by rewrite Z.add_0_r, Z.sub_0_r. }
  erewrite bind_done by exact Hx. rewrite counted_app, (counted_mod _ _ (u32 (wn - Z.of_nat (length a))) wn') by (rewrite Hwn; unfold u32; by rewrite Zmod_mod). rewrite E in *. clear Hx x Ht E Hwn. set (i' := i + _). rewrite length_app in *. apply list.Forall_app in Hbs as [_ Hbs].
  pose proof (text_zero _ _ _ Ht') as Hz'. destruct u' as [|d u']; [by apply not_elem_of_nil in Hz'|]. pose proof Hbs as Hbs0. apply list.Forall_cons in Hbs as [Hd Hbs]. erewrite bind_done by reflexivity. rewrite small_spec by done. cbn [length] in *. destruct ((0 <? d) && (d <? 128)) eqn:Ed.
  - destruct (text_ascii _ _ _ _ Ht' ltac:(lia)) as (c & -> & Hc). rewrite counted_cons. cbn [tail length]. apply IH; [done|done|..|lia]. subst i'. Z.div_mod_to_equations. lia.
  - rewrite not_lead_spec by done. destruct ((194 <=? d) && (d <=? 244)) eqn:El; cbn [negb].
    + assert (1 < len d)%nat as Hl by (destruct (len_spec d); lia). assert (well d [] = true) as Hw by (rewrite <- first_spec; unfold first_ok; lia). assert (0 ∈ u') as Hzu by (apply elem_of_cons in Hz' as [Hz'|]; [lia|done]).
      cbn [tail]. destruct (text_lead d u' cps' rest s Ht' Hbs0 ltac:(lia)) as [(cp & c & -> & Hl1 & Hl2 & Hc & Hs)|(-> & -> & Hs)]; apply (seq0_seq d [] u' s _ Hw Hl ltac:(lia) Hbs Hzu) in Hs; erewrite bind_done by exact Hs; cbn [fmap option_fmap option_map snd].
      * rewrite counted_cons. apply IH; [done|by apply Forall_drop|..|rewrite length_drop; lia]. subst i'. rewrite length_drop. Z.div_mod_to_equations. lia.
      * unfold counted. by rewrite bool_decide_false by (intros [= ->]; lia).
    + destruct (text_nothing _ _ _ Ht') as [-> <-]. { intros cp Hcp. destruct (begins_lead _ _ _ Hcp) as (Hf1 & _ & Hzero). apply Hzero. unfold first_ok in Hf1. lia. }
      unfold finish0, counted. cbn [length Z.of_nat]. rewrite Z.add_0_r. destruct (Z.eqb_spec d 0) as [->|Hd0]; [by rewrite bool_decide_true|]. by rewrite bool_decide_false by (by intros [= ->]).
Qed.

(** A string that continues the pending bytes [p]. *)
Lemma mbsrtowcs_resume addr p v wn cp cps rest s : pending p -> p <> [] -> text (p ++ v) (cp :: cps) rest -> bytes v -> 0 ∈ v -> (addr + Z.of_nat (length v)) mod 4 = 0 -> 1 <= wn < 2 ^ 32 ->
  mbsrtowcs true true addr v wn (Some (state p)) s = converted wn 0 [] (- Z.of_nat (length p)) wn (cp :: cps) rest s.
Proof.
  rewrite pending_spec. intros [->|(b & t & -> & Hw & Hl)] Hne Ht Hbs Hz Hal Hwn; [done|]. assert (0xC2 <= b) as Hb by (apply (well_lead b t Hw); destruct (len_spec b); lia). destruct (state_missing b t Hw Hl) as [(Hm & _) _]. unfold mbsrtowcs. change (default 0 (Some (state (b :: t)))) with (state (b :: t)). cbv zeta.
  rewrite (proj2 (Z.eqb_neq (state (b :: t)) 0)) by lia. cbn [negb]. cbn [app] in Ht. assert (begins cp (b :: t ++ v)) as Hcp. { destruct Ht as (E & Hs & _). apply list.Forall_cons in Hs as [Hcp _]. split; [by right|]. cbn [enc map concat] in E. rewrite <- (assoc_L (++)) in E. eauto. }
  destruct (seq_spec b t v s Hw Hl Hb Hbs Hz) as [(cp' & Hcp' & Hs)|[Hno _]]; [|by destruct (Hno cp)]. rewrite (begins_unique _ _ _ Hcp' Hcp) in Hs. erewrite bind_done by exact Hs. cbv beta iota. destruct (begins_lead _ _ _ Hcp) as (_ & Hcp0 & _).
  destruct (text_begins _ _ _ cp Ht Hcp ltac:(apply Hcp0; lia)) as (cps2 & [= <-] & Ht'). rewrite converted_cons, u32_small by lia. destruct Hcp as (Hc & r & E). destruct (encode_shape cp Hc) as (b' & t' & Eb & Hsh & _). rewrite Eb in E. injection E as <- E. destruct (shape_well _ _ Hsh) as [_ Hl'].
  assert (length (encode cp) = len b) as El by (rewrite Eb; cbn; lia). rewrite El in *. assert (drop (len b) (b :: t ++ v) = drop (len b - S (length t)) v) as Ed by (destruct (len b) as [|m]; [lia|]; cbn [drop]; rewrite drop_app_ge by lia; f_equal; lia). rewrite Ed in Ht'.
  assert (len b - S (length t) <= length v)%nat by (apply (f_equal length) in E; rewrite !length_app in E; lia). replace (Z.of_nat (length v) - Z.of_nat (length (drop (len b - S (length t)) v))) with (- Z.of_nat (length (b :: t)) + Z.of_nat (len b)) by (rewrite length_drop; cbn [length]; lia).
  apply convert_spec; [done|by apply Forall_drop| |lia|rewrite length_drop; lia]. rewrite length_drop. cbn [length]. Z.div_mod_to_equations. lia.
Qed.

(** ** Storing bytes *)

(** As many characters as fit into [n] bytes. *)
Fixpoint fit (n : Z) (cps : list Z) : list Z :=
  match cps with
  | [] => []
  | cp :: cps' => if Z.of_nat (length (encode cp)) <=? n then cp :: fit (n - Z.of_nat (length (encode cp))) cps' else []
  end.

(** What [wcsrtombs] does with room for [n] more bytes on the characters [cps] followed by [w]. *)
Definition stored (out : list Z) (i n : Z) (cps : list Z) (w : Z) (s : St) (N : Z) : outcome St wcs :=
  let k := fit n cps in
  if (Z.of_nat (length k) <? Z.of_nat (length cps)) || (Z.of_nat (length (enc cps)) =? n) then Done (N - n + Z.of_nat (length (enc k)), out ++ enc k, Some (i + Z.of_nat (length k))) s
  else if w =? 0 then Done (N - n + Z.of_nat (length (enc cps)), out ++ enc cps ++ [0], None) s
  else Done (SIZE (-1), out ++ enc cps, Some (i + Z.of_nat (length cps))) (with_errno EILSEQ s).

Lemma encode_length cp : character cp -> (1 <= length (encode cp) <= 4)%nat.
Proof. intros Hc. destruct (encode_shape cp Hc) as (b & t & -> & Hs & _). destruct Hs; cbn; lia. Qed.

Lemma fit_length n cps : (length (fit n cps) <= length cps)%nat.
Proof. revert n. induction cps as [|cp cps IH]; intros n; cbn [fit length]; [lia|]. destruct (_ <=? n); cbn [length]; [specialize (IH (n - Z.of_nat (length (encode cp)))); lia|lia]. Qed.

Lemma stored_cons out i n cp cps w s N : Z.of_nat (length (encode cp)) <= n ->
  stored out i n (cp :: cps) w s N = stored (out ++ encode cp) (i + 1) (n - Z.of_nat (length (encode cp))) cps w s N.
Proof.
  intros Hn. unfold stored. cbn [fit]. rewrite (proj2 (Z.leb_le _ _) Hn). set (n' := n - _). cbn [enc map concat length]. fold (enc cps). fold (enc (fit n' cps)). rewrite !length_app.
  assert (((Z.of_nat (S (length (fit n' cps))) <? Z.of_nat (S (length cps))) || (Z.of_nat (length (encode cp) + length (enc cps)) =? n)) = ((Z.of_nat (length (fit n' cps)) <? Z.of_nat (length cps)) || (Z.of_nat (length (enc cps)) =? n'))) as ->.
  { f_equal; [apply eq_true_iff_eq; rewrite !Z.ltb_lt; lia|apply eq_true_iff_eq; rewrite !Z.eqb_eq; lia]. }
  rewrite <- !(assoc_L (++)). replace (N - n' + Z.of_nat (length (enc (fit n' cps)))) with (N - n + Z.of_nat (length (encode cp) + length (enc (fit n' cps)))) by lia. replace (N - n' + Z.of_nat (length (enc cps))) with (N - n + Z.of_nat (length (encode cp) + length (enc cps))) by lia.
  replace (i + 1 + Z.of_nat (length (fit n' cps))) with (i + Z.of_nat (S (length (fit n' cps)))) by lia. by replace (i + 1 + Z.of_nat (length cps)) with (i + Z.of_nat (S (length cps))) by lia.
Qed.

Lemma stored_full out i cp cps w s N n : n < Z.of_nat (length (encode cp)) -> stored out i n (cp :: cps) w s N = Done (N - n, out, Some i) s.
Proof.
  intros Hn. unfold stored. cbn [fit]. rewrite (proj2 (Z.leb_gt _ _) Hn). cbn [length enc map concat]. rewrite (proj2 (Z.ltb_lt (Z.of_nat 0) _)) by lia. cbn [orb Z.of_nat]. by rewrite app_nil_r, !Z.add_0_r.
Qed.

Lemma wide_small wc : - 2 ^ 31 <= wc < 2 ^ 31 -> (0x7f <=? u32 (wc - 1)) = negb ((0 <? wc) && (wc <? 0x80)).
Proof. intros Hw. unfold u32. destruct (Z.ltb_spec 0 wc), (Z.ltb_spec wc 0x80); cbn [andb negb]; apply eq_true_iff_eq; rewrite Z.leb_le; split; try done; intros; Z.div_mod_to_equations; lia. Qed.

Lemma wcs_loop_spec N cps w junk out i n s : Forall scalar cps -> (w = 0 \/ (- 2 ^ 31 <= w < 2 ^ 31 /\ ~ character w)) -> 0 <= n ->
  wcs_loop true N (cps ++ w :: junk) out i n s = stored out i n cps w s N.
Proof.
  intros Hs Hw. revert out i n. induction Hs as [|cp cps Hcp Hs IH]; intros out i n Hn.
  - cbn [app wcs_loop]. unfold stored. cbn [fit length enc map concat Z.of_nat orb app]. rewrite !app_nil_r, !Z.add_0_r. change (Z.of_nat 0) with 0. change (0 <? 0) with false. cbn [orb]. rewrite (Z.eqb_sym 0 n). destruct (Z.eqb_spec n 0) as [->|Hn0]; [by rewrite Z.sub_0_r|].
    rewrite wide_small by (destruct Hw as [->|[]]; lia). assert ((0 <? w) && (w <? 128) = false) as Hasc by (destruct Hw as [->|[_ Hw]]; [done|]; apply not_true_is_false; intros Hc; apply Hw; unfold character, scalar; lia). rewrite Hasc. cbn [negb].
    destruct (Z.eqb_spec w 0) as [->|Hw0]; [done|]. destruct Hw as [|[Hr Hw]]; [done|]. pose proof (wcrtomb_other w s Hr Hw) as Hwc. by destruct (4 <=? n); erewrite bind_done by exact Hwc.
  - cbn [app wcs_loop]. assert (character cp) as Hc by (by right). pose proof (encode_length cp Hc) as Hlen. unfold scalar in Hcp. destruct (Z.eqb_spec n 0) as [->|Hn0]; [rewrite stored_full by lia; by rewrite Z.sub_0_r|]. rewrite wide_small by lia.
    destruct (Z.ltb_spec 0 cp); [|lia]. cbn [andb]. destruct (Z.ltb_spec cp 0x80); cbn [negb].
    + rewrite stored_cons by (rewrite encode_ascii by lia; cbn; lia). rewrite encode_ascii by lia. cbn [length]. apply IH. lia.
    + rewrite (proj2 (Z.eqb_neq cp 0)) by lia. pose proof (wcrtomb_character cp s Hc) as Hwc. assert ((Z.of_nat (length (encode cp)) =? SIZE (-1)) = false) as Hne by (apply Z.eqb_neq; change (SIZE (-1)) with (2 ^ 32 - 1); lia). destruct (Z.leb_spec 4 n).
      * erewrite bind_done by exact Hwc. cbn [fst snd]. rewrite Hne, stored_cons by lia. apply IH. lia.
      * erewrite bind_done by exact Hwc. cbn [fst snd]. rewrite Hne. destruct (Z.ltb_spec n (Z.of_nat (length (encode cp)))); [by rewrite stored_full|]. erewrite bind_done by exact Hwc. cbn [fst snd]. rewrite stored_cons by lia. apply IH. lia.
Qed.

Lemma wcs_length_spec cps w junk n s : Forall scalar cps -> (w = 0 \/ (- 2 ^ 31 <= w < 2 ^ 31 /\ ~ character w)) ->
  wcs_length true (cps ++ w :: junk) (u32 n) s = if w =? 0 then Done (u32 (n + Z.of_nat (length (enc cps))), [], Some 0) s else Done (SIZE (-1), [], Some 0) (with_errno EILSEQ s).
Proof.
  intros Hs Hw. revert n. induction Hs as [|cp cps Hcp Hs IH]; intros n; cbn [app wcs_length enc map concat length].
  - rewrite Z.add_0_r. destruct (Z.eqb_spec w 0) as [->|Hw0]; [done|]. destruct Hw as [|[Hr Hw]]; [done|]. rewrite (proj2 (Z.leb_le 128 (u32 w))); [by erewrite bind_done by exact (wcrtomb_other w s Hr Hw)|]. unfold character, scalar in Hw. unfold u32. Z.div_mod_to_equations. lia.
  - assert (character cp) as Hc by (by right). pose proof (encode_length cp Hc) as Hlen. unfold scalar in Hcp. rewrite (proj2 (Z.eqb_neq cp 0)) by lia. rewrite length_app, Nat2Z.inj_add, Z.add_assoc. fold (enc cps). rewrite (u32_small cp) by lia. destruct (Z.leb_spec 0x80 cp).
    + erewrite bind_done by exact (wcrtomb_character cp s Hc). cbn [fst]. rewrite (proj2 (Z.eqb_neq (Z.of_nat (length (encode cp))) (SIZE (-1)))) by (change (SIZE (-1)) with (2 ^ 32 - 1); lia). rewrite <- IH. f_equal. unfold u32. by rewrite Zplus_mod_idemp_l.
    + rewrite encode_ascii by lia. cbn [length Z.of_nat]. rewrite <- IH. f_equal. unfold u32. by rewrite Zplus_mod_idemp_l.
Qed.

(** ** [mbtowc] *)

Lemma shifted_bit c k : 0 <= k <= 31 -> bit 31 (u32 (Z.shiftl c k)) = bit (31 - k) c.
Proof. intros Hk. unfold bit, u32. rewrite Z.mod_pow2_bits_low, Z.shiftl_spec by lia. done. Qed.

(** The test against [n] is whether the sequence is longer. *)
Lemma short_spec b n : 0xC2 <= b <= 0xF4 -> 0 < n -> (n <? 4) && bit 31 (u32 (Z.shiftl (lead b) (6 * n - 6))) = (n <? Z.of_nat (len b)).
Proof.
  intros Hb Hn. assert (1 < len b <= 4)%nat as Hl by (destruct (len_spec b); lia). assert (well b [] = true) as Hw by (rewrite <- first_spec; unfold first_ok; lia). destruct (state_bits b [] Hw) as [B25 B19]; [cbn; lia|]. destruct (state_missing b [] Hw) as [(Hm & _) _]; [cbn; lia|]. cbn [state fold_left length] in *.
  destruct (Z.ltb_spec n 4); [|symmetry; apply Z.ltb_ge; lia]. cbn [andb]. rewrite shifted_bit by lia. assert (n = 1 \/ n = 2 \/ n = 3) as [->|[->| ->]] by lia.
  - change (31 - (6 * 1 - 6)) with 31. rewrite bit_31 by lia. rewrite (proj2 (Z.leb_le _ _)) by lia. symmetry. apply Z.ltb_lt. lia.
  - change (31 - (6 * 2 - 6)) with 25. rewrite B25. apply eq_true_iff_eq. rewrite Nat.ltb_lt, Z.ltb_lt. lia.
  - change (31 - (6 * 3 - 6)) with 19. rewrite B19. apply eq_true_iff_eq. rewrite Nat.ltb_lt, Z.ltb_lt. lia.
Qed.

Definition narrow (x : outcome St (Z * option Z * Z)) (s : St) : outcome St (Z * option Z) :=
  match x with Done (r, wc, _) s' => if r <=? 4 then Done (r, wc) s' else Done (-1, None) (with_errno EILSEQ s) | Stop r s' => Stop r s' end.

Lemma narrow_full b k w n t s : well b t = true -> (n <= length w)%nat -> 0xC2 <= b -> (0 < k <= 4)%nat -> S (length t) = len b -> narrow (wide_result b (scan b t w n k) s) s = Done (Z.of_nat k, Some (value b t)) s.
Proof. intros Hw Hn Hb Hk E. rewrite wide_lead by done. rewrite scan_full by done. cbn. rewrite (proj2 (Z.leb_le _ _)) by lia. done. Qed.

Lemma narrow_bad b s : narrow (wide_result b Bad s) s = Done (-1, None) (with_errno EILSEQ s).
Proof. done. Qed.

Lemma narrow_short b t w n k s : (n + S (length t) < len b)%nat -> well b t = true -> (n <= length w)%nat -> narrow (wide_result b (scan b t w n k) s) s = Done (-1, None) (with_errno EILSEQ s).
Proof.
  intros Hl Hw Hn. pose proof (scan_cases b t w n k Hw Hn) as Hs. destruct (scan b t w n k) as [cp k'|t'|]; [|done|done]. destruct Hs as (q & Hsh & _ & _ & _ & Hq). destruct (shape_well _ _ Hsh) as [_ Hlen]. rewrite length_app in Hlen. lia.
Qed.

(** [mbtowc], which checks the size only once and has no state, agrees with [mbrtowc] from the initial state: the same character and length, and EILSEQ
    wherever [mbrtowc] fails or finds the character incomplete. *)
Theorem mbtowc_agrees w n s : bytes w -> (0 < n <= length w)%nat -> mbtowc true (Some w) (Z.of_nat n) s = narrow (mbrtowc true (Some w) (Z.of_nat n) 0 s) s.
Proof.
  intros Hbs Hn. pose proof (mbrtowc_scan [] w n s (or_introl eq_refl) Hbs Hn) as Hm. cbn [state] in Hm. rewrite Hm. clear Hm. unfold mbtowc. rewrite (proj2 (Z.eqb_neq (Z.of_nat n) 0)) by lia. destruct w as [|b w]; [cbn in Hn; lia|]. apply list.Forall_cons in Hbs as [Hb Hbs]. cbn [length] in Hn.
  erewrite bind_done by reflexivity. destruct n as [|n]; [lia|]. cbn [begin fst snd]. replace (S n - 1)%nat with n by lia. unfold first_ok. destruct (Z.ltb_spec b 0x80).
  { replace (0 <=? b) with true by lia. cbn [andb orb negb]. rewrite scan_full by (destruct (len_spec b) as [[E ?]|?]; cbn; lia). unfold value, first_bits. replace (b <? 128) with true by lia. cbn [fold_left]. rewrite Z.sub_0_r. by destruct b. }
  rewrite andb_false_r, not_lead_spec by done. cbn [orb negb]. destruct ((194 <=? b) && (b <=? 244)) eqn:Hlead; cbn [negb]; [|done]. rewrite short_spec by lia. assert (1 < len b <= 4)%nat as Hl by (destruct (len_spec b); lia). assert (well b [] = true) as Hw by (rewrite <- first_spec; unfold first_ok; lia).
  destruct (Z.ltb_spec (Z.of_nat (S n)) (Z.of_nat (len b))); [symmetry; apply narrow_short; cbn [length]; (done || lia)|].
  destruct w as [|d w]; [cbn in Hn; lia|]. apply list.Forall_cons in Hbs as [Hd Hbs]. cbn [length] in Hn. erewrite bind_done by reflexivity. change (lead b) with (state (b :: [])). rewrite state_OOB by (done || cbn; lia). destruct n as [|n]; [lia|]. rewrite scan_step by (cbn; lia).
  destruct (well b ([] ++ [d])) eqn:Hwd; cbn [negb]; [|done]. rewrite (turn_bit b [] d Hwd ltac:(lia)). destruct (S (S (length (A := Z) [])) <? len b)%nat eqn:E; cbn [negb]; cbn [length] in E.
  2: { apply Nat.ltb_ge in E. destruct (turn b [] d Hwd ltac:(lia)) as [(E1 & _ & ->)|(E1 & _)]; [|cbn in E1; lia]. symmetry. apply (narrow_full b 2); [done|lia|lia|lia|cbn; lia]. }
  apply Nat.ltb_lt in E. destruct w as [|e w]; [cbn in Hn; lia|]. apply list.Forall_cons in Hbs as [He Hbs]. cbn [length] in Hn. erewrite bind_done by reflexivity. destruct n as [|n]; [lia|]. rewrite scan_step by (cbn; lia). rewrite not_cont_spec by done. rewrite (well_next b [] d e Hwd E). pose proof (well_next b [] d e Hwd E) as Hwe.
  destruct (cont e) eqn:Hce; cbn [negb]; [|done]. rewrite <- (state_snoc b [] d), (turn_bit b ([] ++ [d]) e Hwe ltac:(lia)). destruct (S (S (length ([] ++ [d]))) <? len b)%nat eqn:E2; cbn [negb]; cbn [length app] in E2.
  2: { apply Nat.ltb_ge in E2. destruct (turn b ([] ++ [d]) e Hwe ltac:(lia)) as [(E1 & _ & ->)|(E1 & _)]; [|cbn in E1; lia]. symmetry. apply (narrow_full b 3); [done|lia|lia|lia|cbn; lia]. }
  apply Nat.ltb_lt in E2. destruct w as [|f w]; [cbn in Hn; lia|]. apply list.Forall_cons in Hbs as [Hf Hbs]. cbn [length] in Hn. erewrite bind_done by reflexivity. destruct n as [|n]; [lia|]. rewrite scan_step by (cbn; lia). rewrite not_cont_spec by done. rewrite (well_next b ([] ++ [d]) e f Hwe E2). pose proof (well_next b ([] ++ [d]) e f Hwe E2) as Hwf.
  destruct (cont f) eqn:Hcf; cbn [negb]; [|done]. rewrite <- (state_snoc b ([] ++ [d]) e). destruct (turn b (([] ++ [d]) ++ [e]) f Hwf ltac:(lia)) as [(E1 & _ & ->)|(E1 & _)]; [|cbn in E1; lia]. symmetry. apply (narrow_full b 4); [done|lia|lia|lia|cbn; lia].
Qed.

Lemma mbsrtowcs_convert addr u wn cps rest s : text u cps rest -> bytes u -> (addr + Z.of_nat (length u)) mod 4 = 0 -> 0 <= wn -> mbsrtowcs true true addr u wn None s = converted wn 0 [] 0 wn cps rest s.
Proof. intros Ht Hbs Hal Hwn. apply convert_spec; [done|done|by rewrite Z.add_0_r|done|lia]. Qed.

Lemma mbsrtowcs_count addr u wn cps rest s : text u cps rest -> bytes u -> (addr + Z.of_nat (length u)) mod 4 = 0 -> mbsrtowcs true false addr u wn None s = counted wn 0 wn cps rest s.
Proof. intros Ht Hbs Hal. apply count_spec; [done|done|by rewrite Z.add_0_r|lia]. Qed.

(** ** The theorems *)

(** C31: [mbsrtowcs] decodes a string up to its end, to the first bytes that encode nothing, or until the room is used up. With [cps] the characters before that
    point: with room for no more than there are, it stores as many as there is room for and moves [*src] behind them; else, at the end of the string, it stores
    them and a null character, returns their number and sets [*src] to null; else it stores them, fails with EILSEQ and leaves [*src] at the bad bytes. With [ws]
    null it counts them. With the state of pending bytes it goes on from them. Its fast loops over aligned words of memory read no word that the string does not
    reach into, and stop at the same characters. *)
Theorem mbsrtowcs_decodes addr u wn s : bytes u -> 0 ∈ u -> (addr + Z.of_nat (length u)) mod 4 = 0 -> 0 <= wn -> exists cps rest, text u cps rest /\
  mbsrtowcs true true addr u wn None s = converted wn 0 [] 0 wn cps rest s /\ mbsrtowcs true false addr u wn None s = counted wn 0 wn cps rest s /\
  (forall p v cp cps' addr', pending p -> p <> [] -> u = p ++ v -> cps = cp :: cps' -> 0 ∈ v -> (addr' + Z.of_nat (length v)) mod 4 = 0 -> 1 <= wn < 2 ^ 32 ->
    mbsrtowcs true true addr' v wn (Some (state p)) s = converted wn 0 [] (- Z.of_nat (length p)) wn cps rest s).
Proof.
  intros Hbs Hz Hal Hwn. destruct (text_exists u Hbs Hz) as (cps & rest & Ht). exists cps, rest. split; [done|]. split; [|split].
  - by apply mbsrtowcs_convert.
  - by apply mbsrtowcs_count.
  - intros p v cp cps' addr' Hp Hne -> -> Hzv Hal' Hwn'. apply list.Forall_app in Hbs as [_ Hbs]. by apply mbsrtowcs_resume.
Qed.

(** C34: wide strings survive the way through UTF-8. For Unicode scalar values [cps] and enough room, [wcsrtombs] stores their encodings and a zero, and
    [mbsrtowcs] on these bytes, whatever follows them in memory, gives [cps] back; the results and the counts with a null pointer agree. With less room [wcsrtombs]
    stores the longest run of whole characters that fits, and a value that is no character ends it with EILSEQ. *)
Theorem wide_round_trip addr cps pad n wn s : Forall scalar cps -> bytes pad -> (addr + Z.of_nat (length (enc cps ++ 0 :: pad))) mod 4 = 0 ->
  Z.of_nat (length (enc cps)) < n < 2 ^ 32 -> Z.of_nat (length cps) < wn < 2 ^ 32 ->
  wcsrtombs true true (cps ++ [0]) n s = Done (Z.of_nat (length (enc cps)), enc cps ++ [0], None) s /\ wcsrtombs true false (cps ++ [0]) n s = Done (Z.of_nat (length (enc cps)), [], Some 0) s /\
  mbsrtowcs true true addr (enc cps ++ 0 :: pad) wn None s = Done (Mbs (Z.of_nat (length cps)) (cps ++ [0]) None 0) s /\ mbsrtowcs true false addr (enc cps ++ 0 :: pad) wn None s = Done (Mbs (Z.of_nat (length cps)) [] (Some 0) 0) s /\
  (forall n' w junk, 0 <= n' -> w = 0 \/ (- 2 ^ 31 <= w < 2 ^ 31 /\ ~ character w) -> wcsrtombs true true (cps ++ w :: junk) n' s = stored [] 0 n' cps w s n').
Proof.
  intros Hs Hpad Hal Hn Hwn. assert (text (enc cps ++ 0 :: pad) cps (0 :: pad)) as Ht by (split_and!; [done|done|split; [left|by left]]). assert (forall cp, scalar cp -> bytes (encode cp)) as Henc.
  { intros cp Hcp. destruct (encode_shape cp ltac:(by right)) as (b & t & -> & Hsh & _). destruct Hsh; repeat constructor; lia. }
  assert (bytes (enc cps ++ 0 :: pad)) as Hbs by (apply list.Forall_app; split; [clear - Hs Henc; unfold enc; induction Hs as [|cp cps Hcp Hs IH]; cbn [map concat]; [constructor|apply list.Forall_app; split; [by apply Henc|exact IH]]|constructor; [lia|done]]).
  assert (forall n' w junk, 0 <= n' -> w = 0 \/ (- 2 ^ 31 <= w < 2 ^ 31 /\ ~ character w) -> wcsrtombs true true (cps ++ w :: junk) n' s = stored [] 0 n' cps w s n') as Hst by (intros; by apply wcs_loop_spec).
  assert (fit n cps = cps) as Hfit by (clear - Hn; destruct Hn as [Hn _]; revert n Hn; induction cps as [|cp cps IH]; intros n Hn; cbn [fit]; [done|]; cbn [enc map concat] in Hn; rewrite length_app in Hn; rewrite (proj2 (Z.leb_le _ _)) by lia; rewrite IH by (unfold enc; lia); done).
  split_and!; [..|exact Hst].
  - rewrite Hst by (lia || by left). unfold stored. rewrite Hfit, Z.ltb_irrefl, (proj2 (Z.eqb_neq _ n)) by lia. cbn [orb]. rewrite Z.eqb_refl, Z.sub_diag. done.
  - unfold wcsrtombs. change 0 with (u32 0) at 2. rewrite (wcs_length_spec cps 0 [] 0 s Hs ltac:(by left)). cbn [Z.eqb]. by rewrite Z.add_0_l, u32_small by lia.
  - rewrite (mbsrtowcs_convert _ _ _ cps (0 :: pad)) by (done || lia). unfold converted. rewrite (proj2 (Z.leb_gt wn _)) by lia. rewrite bool_decide_true by done. unfold SIZE. rewrite u32_small by lia. do 2 f_equal. lia.
  - rewrite (mbsrtowcs_count _ _ _ cps (0 :: pad)) by done. unfold counted. rewrite bool_decide_true by done. unfold SIZE. rewrite Z.sub_diag, Z.add_0_l, u32_small by lia. done.
Qed.

Lemma mbrtowc_whole cp s : character cp -> mbrtowc true (Some (encode cp)) (Z.of_nat (length (encode cp))) 0 s = Done (if cp =? 0 then 0 else Z.of_nat (length (encode cp)), Some cp, 0) s.
Proof.
  intros Hc. pose proof (encode_length cp Hc) as Hl. assert (bytes (encode cp)) as Hb by (destruct (encode_shape cp Hc) as (b & t & -> & Hsh & _); destruct Hsh; repeat constructor; lia).
  pose proof (mbrtowc_begins [] (encode cp) (length (encode cp)) cp s) as Hm. cbn [state length] in Hm. rewrite Nat.sub_0_r in Hm. apply Hm; [apply pending_spec; by left|done|lia|]. cbn [app]. rewrite firstn_all. split; [done|]. exists []. by rewrite app_nil_r.
Qed.

(** characters survive the way through UTF-16. A character below 0x10000 is one 16-bit unit both ways. For one above, [mbrtoc16] gives the high surrogate
    and keeps the low one, which the next call gives without reading; [c16rtomb] stores nothing for the high surrogate and the whole encoding for the low one. *)
Theorem utf16_round_trip cp s : character cp -> let n := Z.of_nat (length (encode cp)) in let hi := 0xD800 + (cp - 0x10000) / 1024 in let lo := 0xDC00 + cp mod 1024 in
  (cp < 0x10000 -> mbrtoc16 true (Some (encode cp)) n 0 s = Done (if cp =? 0 then 0 else n, Some cp, 0) s /\ c16rtomb true true cp 0 s = Done (n, encode cp, 0) s) /\
  (0x10000 <= cp -> mbrtoc16 true (Some (encode cp)) n 0 s = Done (n, Some hi, lo) s /\ (forall w n', mbrtoc16 true (Some w) n' lo s = Done (SIZE (-3), Some lo, 0) s) /\
    exists x, c16rtomb true true hi 0 s = Done (0, [], x) s /\ c16rtomb true true lo x s = Done (n, encode cp, 0) s).
Proof.
  intros Hc n hi lo. pose proof (encode_length cp Hc) as Hl. pose proof (mbrtowc_whole cp s Hc) as Hm. pose proof (wcrtomb_character cp s Hc) as Hw. fold n in Hm, Hw. assert (0 <= cp mod 1024 < 1024) as Hlo by (apply Z.mod_pos_bound; lia). assert (0 <= n <= 4) as Hn by lia. unfold character, scalar in Hc. split; intros Hr.
  - split.
    + unfold mbrtoc16, mbrtoc16_at. change (0 <? i32 0) with false. cbv iota. erewrite bind_done by exact Hm. cbv beta iota. rewrite (proj2 (Z.leb_le _ 4)) by (destruct (cp =? 0); lia). erewrite bind_done by reflexivity. rewrite (proj2 (Z.leb_gt _ cp)) by lia. by rewrite Z.mod_small by lia.
    + unfold c16rtomb. cbn [negb Z.eqb andb]. rewrite (proj2 (Z.ltb_ge (u32 (cp - 0xd800)) 0x400)) by (unfold u32; Z.div_mod_to_equations; lia). by erewrite bind_done by exact Hw.
  - assert (0 <= (cp - 0x10000) / 1024 < 1024) as Hhi by (Z.div_mod_to_equations; lia). rewrite (proj2 (Z.eqb_neq cp 0)) in Hm by lia. split_and!.
    + unfold mbrtoc16, mbrtoc16_at. change (0 <? i32 0) with false. cbv iota. erewrite bind_done by exact Hm. cbv beta iota. rewrite (proj2 (Z.leb_le n 4)) by lia. erewrite bind_done by reflexivity. rewrite (proj2 (Z.leb_le _ cp)) by lia. change 0x3ff with (Z.ones 10). rewrite Z.land_ones, Z.shiftr_div_pow2 by lia. change (2 ^ 10) with 1024.
      unfold mret, M_ret. replace ((0xd7c0 + cp / 1024) mod 65536) with hi by (subst hi; Z.div_mod_to_equations; lia). by replace (cp mod 1024 + 0xdc00) with lo by lia.
    + intros w n'. unfold mbrtoc16, mbrtoc16_at. rewrite i32_small by lia. rewrite (proj2 (Z.ltb_lt 0 lo)) by lia. by rewrite Z.mod_small by lia.
    + exists (Z.shiftl (hi - 0xd7c0) 10). unfold c16rtomb. cbn [negb]. rewrite Z.eqb_refl. cbn [andb]. rewrite (u32_small (hi - 0xd800)) by lia. rewrite (proj2 (Z.ltb_lt (hi - 0xd800) 0x400)) by lia. rewrite !Z.shiftl_mul_pow2 by lia. change (2 ^ 10) with 1024. rewrite (u32_small ((hi - _) * 1024)) by lia.
      rewrite (proj2 (Z.eqb_neq ((hi - 0xd7c0) * 1024) 0)) by lia. cbn [negb andb]. rewrite (u32_small (lo - 0xdc00)) by lia. rewrite (proj2 (Z.leb_gt _ (lo - 0xdc00))) by lia. replace ((hi - 0xd7c0) * 1024 + lo - 0xdc00) with cp by (subst hi lo; Z.div_mod_to_equations; lia). rewrite (u32_small cp), i32_small by lia. split; [done|]. by erewrite bind_done by exact Hw.
Qed.
End strings.

(** ** Witnesses *)

Definition no_error : env := Env 0 [].

Lemma mbtowc_agrees_witness : mbtowc true (Some [0xE2; 0x82; 0xAC]) 2 no_error = narrow (mbrtowc true (Some [0xE2; 0x82; 0xAC]) 2 0 no_error) no_error.
Proof. apply (mbtowc_agrees [0xE2; 0x82; 0xAC] 2 no_error); [repeat constructor; lia|cbn; lia]. Defined.

(** "abcdef" and the euro sign, then a byte that begins nothing. *)
Definition sample : list Z := [97; 98; 99; 100; 101; 102; 0xE2; 0x82; 0xAC; 0xFF; 0; 0].

Lemma mbsrtowcs_decodes_witness : mbsrtowcs true true 1024 sample 20 None no_error = Done (Mbs (2 ^ 32 - 1) [97; 98; 99; 100; 101; 102; 0x20AC] (Some 9) 0) (with_errno EILSEQ no_error) /\
  exists cps rest, text sample cps rest /\ mbsrtowcs true true 1024 sample 20 None no_error = converted 20 0 [] 0 20 cps rest no_error.
Proof.
  split; [by vm_compute|]. destruct (mbsrtowcs_decodes 1024 sample 20 no_error) as (cps & rest & Ht & Hc & _); [repeat constructor; lia|unfold sample; set_solver|done|lia|]. by exists cps, rest.
Defined.

Lemma wide_round_trip_witness : mbsrtowcs true true 1026 [97; 0xE2; 0x82; 0xAC; 0; 7] 5 None no_error = Done (Mbs 2 [97; 0x20AC; 0] None 0) no_error /\
  wcsrtombs true true [97; 0x20AC; 0] 10 no_error = Done (4, [97; 0xE2; 0x82; 0xAC; 0], None) no_error.
Proof.
  destruct (wide_round_trip 1026 [97; 0x20AC] [7] 10 5 no_error) as (H1 & _ & H2 & _); [repeat constructor; unfold scalar; lia|repeat constructor; lia|done|cbn; lia|cbn; lia|]. by split.
Defined.

Lemma utf16_round_trip_witness : mbrtoc16 true (Some (encode 0x1F600)) 4 0 no_error = Done (4, Some 0xD83D, 0xDE00) no_error.
Proof. destruct (utf16_round_trip 0x1F600 no_error) as [_ H]; [right; unfold scalar; lia|]. destruct H as [H _]; [lia|]. exact H. Defined.
