(* ===== verification/Qsort.v ===== *)
(** * Sorting and searching

    musl's src/stdlib/qsort.c, a smoothsort, with qsort_nr.c and bsearch.c. The
    state is the memory of the array, a list of bytes; a pointer is an offset
    into it, and reading or writing outside of it is undefined. The comparison
    is a function of the bytes of two elements. [size_t] has 32 bits. *)

From S2P Require Import Prelude.

Abbreviation memory := (list Z).

Definition load_bytes (p n : Z) : M memory (list Z) := fun m =>
  if (0 <=? p) && (0 <=? n) && (p + n <=? Z.of_nat (length m)) then Done (take (Z.to_nat n) (drop (Z.to_nat p) m)) m else Stop Undef m.
Definition store_bytes (p : Z) (bs : list Z) : M memory unit := fun m =>
  if (0 <=? p) && (p + Z.of_nat (length bs) <=? Z.of_nat (length m))
  then Done tt (take (Z.to_nat p) m ++ bs ++ drop (Z.to_nat p + length bs) m)
  else Stop Undef m.

(** [memcpy] within the array; areas that overlap are undefined. *)
Definition copy_bytes (dst src n : Z) : M memory unit :=
  if Z.abs (dst - src) <? n then halt Undef else bs ← load_bytes src n; store_bytes dst bs.

(** ** The pair of words *)

Definition words : Type := Z * Z.

Fixpoint ntz_from (n : nat) (x i : Z) : Z :=
  match n with O => i | S n' => if Z.testbit x i then i else ntz_from n' x (i + 1) end.
Definition ntz (x : Z) : Z := ntz_from 32 x 0.

Definition pntz (p : words) : Z :=
  if negb (fst p =? 1) then ntz (u32 (fst p - 1)) else
  if negb (snd p =? 0) then 32 + ntz (snd p) else 0.

(** A shift by 32 bits or by a negative number is undefined. *)
Definition shift_ok (n : Z) (r : words) : M memory words := if (0 <? n) && (n <? 32) then mret r else halt Undef.

Definition shl (p : words) (n : Z) : M memory words :=
  let high := 32 <=? n in
  let n := if high then n - 32 else n in
  let p := if high then (0, fst p) else p in
  if high && (n =? 0) then mret p else
  shift_ok n (u32 (Z.shiftl (fst p) n), Z.lor (u32 (Z.shiftl (snd p) n)) (Z.shiftr (fst p) (32 - n))).

Definition shr (p : words) (n : Z) : M memory words :=
  let high := 32 <=? n in
  let n := if high then n - 32 else n in
  let p := if high then (snd p, 0) else p in
  if high && (n =? 0) then mret p else
  shift_ok n (Z.lor (Z.shiftr (fst p) n) (u32 (Z.shiftl (snd p) (32 - n))), Z.shiftr (snd p) n).

Definition is_one (p : words) : bool := (fst p =? 1) && (snd p =? 0).

Section code.
Variable width : Z.
Variable cmp : list Z -> list Z -> Z.

Definition compare (p q : Z) : M memory Z := a ← load_bytes p width; b ← load_bytes q width; mret (cmp a b).

(** ** Moving elements round *)

(** The copies of one piece: each place gets what the next one holds, the last one [tmp]. *)
Fixpoint cycle_moves (ar : list Z) (tmp : list Z) (l : Z) : M memory unit :=
  match ar with
  | [] => mret tt
  | a :: ar' =>
      match ar' with
      | [] => store_bytes a tmp
      | b :: _ => copy_bytes a b l ;; cycle_moves ar' tmp l
      end
  end.

(** [tmp] has 256 bytes. *)
Fixpoint cycle_loop (fuel : nat) (width : Z) (ar : list Z) : M memory unit :=
  if width =? 0 then mret tt else
  match fuel with
  | O => halt Fuel
  | S fuel' =>
      let l := if 256 <? width then 256 else width in
      a ← deref (head ar);
      tmp ← load_bytes a l;
      cycle_moves ar tmp l ;;
      cycle_loop fuel' (width - l) (map (fun p => p + l) ar)
  end.

Definition cycle (ar : list Z) (n : Z) : M memory unit :=
  if n <? 2 then mret tt else cycle_loop (Z.to_nat width) width (take (Z.to_nat n) ar).

(** ** Trees *)

Definition AR_LEN : Z := 64.
Definition AR_MASK : Z := AR_LEN - 1.

(** The working array with its first entry; the others are not initialised. *)
Definition new_ar (head : Z) : list Z := head :: replicate 63 0.
Definition set_ar (ar : list Z) (i p : Z) : list Z := <[Z.to_nat (Z.land i AR_MASK) := p]> ar.

Definition get_lp (lp : list Z) (i : Z) : M memory Z := if i <? 0 then halt Undef else deref (lp !! Z.to_nat i).

(** The loop of [sift]: how many entries [ar] has, and [ar]. *)
Fixpoint sift_loop (fuel : nat) (head pshift : Z) (lp : list Z) (i : Z) (ar : list Z) : M memory (Z * list Z) :=
  if pshift <=? 1 then mret (i, ar) else
  match fuel with
  | O => halt Fuel
  | S fuel' =>
      size ← get_lp lp (pshift - 2);
      let rt := head - width in
      let lf := head - width - size in
      a ← deref (ar !! 0%nat);
      c ← compare a lf;
      stop ← (if 0 <=? c then c ← compare a rt; mret (0 <=? c) else mret false);
      if stop : bool then mret (i, ar) else
      c ← compare lf rt;
      if 0 <=? c then sift_loop fuel' lf (pshift - 1) lp (i + 1) (set_ar ar i lf)
      else sift_loop fuel' rt (pshift - 2) lp (i + 1) (set_ar ar i rt)
  end.

(** Each turn lowers [pshift]. *)
Definition sift (head pshift : Z) (lp : list Z) : M memory unit :=
  r ← sift_loop (Z.to_nat pshift) head pshift lp 1 (new_ar head);
  cycle (snd r) (Z.land (fst r) AR_MASK).

(** The loop of [trinkle]: the variables after it. *)
Fixpoint trinkle_loop (fuel : nat) (head : Z) (p : words) (pshift : Z) (trusty : bool) (lp : list Z) (i : Z) (ar : list Z) : M memory (Z * Z * bool * Z * list Z) :=
  if is_one p then mret (head, pshift, trusty, i, ar) else
  match fuel with
  | O => halt Fuel
  | S fuel' =>
      size ← get_lp lp pshift;
      let stepson := head - size in
      a ← deref (ar !! 0%nat);
      c ← compare stepson a;
      if c <=? 0 then mret (head, pshift, trusty, i, ar) else
      stop ← (if negb trusty && (1 <? pshift) then
          size ← get_lp lp (pshift - 2);
          let rt := head - width in
          let lf := head - width - size in
          c ← compare rt stepson;
          if 0 <=? c then mret true else c ← compare lf stepson; mret (0 <=? c)
        else mret false);
      if stop : bool then mret (head, pshift, trusty, i, ar) else
      let trail := pntz p in
      p ← shr p trail;
      trinkle_loop fuel' stepson p (pshift + trail) false lp (i + 1) (set_ar ar i stepson)
  end.

(** Each turn takes a tree off [p], which has 64 bits. *)
Definition trinkle (head : Z) (pp : words) (pshift : Z) (trusty : bool) (lp : list Z) : M memory unit :=
  r ← trinkle_loop 64 head pp pshift trusty lp 1 (new_ar head);
  let '(head, pshift, trusty, i, ar) := r in
  if trusty : bool then mret tt else cycle ar (Z.land i AR_MASK) ;; sift head pshift lp.

(** ** The sort *)

(** The Leonardo numbers, scaled; [lp] has room for 48. *)
Fixpoint leonardo_loop (fuel : nat) (size : Z) (lp : list Z) (a b : Z) : M memory (list Z) :=
  match fuel with
  | O => halt Undef
  | S fuel' => let c := u32 (u32 (a + b) + width) in if c <? size then leonardo_loop fuel' size (lp ++ [c]) b c else mret (lp ++ [c])
  end.

(** The loop over the elements; [p] and [pshift] after it. *)
Fixpoint build (fuel : nat) (head high : Z) (p : words) (pshift : Z) (lp : list Z) : M memory (words * Z) :=
  if high <=? head then mret (p, pshift) else
  match fuel with
  | O => halt Fuel
  | S fuel' =>
      r ← (if Z.land (fst p) 3 =? 3 then
          sift head pshift lp ;;
          p ← shr p 2;
          mret (p, pshift + 2)
        else
          size ← get_lp lp (pshift - 1);
          (if high - head <=? size then trinkle head p pshift false lp else sift head pshift lp) ;;
          if pshift =? 1 then p ← shl p 1; mret (p, 0) else p ← shl p (pshift - 1); mret (p, 1));
      build fuel' (head + width) high (Z.lor (fst (fst r)) 1, snd (fst r)) (snd r) lp
  end.

(** The loop that takes the greatest elements off. *)
Fixpoint drain (fuel : nat) (head : Z) (p : words) (pshift : Z) (lp : list Z) : M memory unit :=
  if (pshift =? 1) && is_one p then mret tt else
  match fuel with
  | O => halt Fuel
  | S fuel' =>
      r ← (if pshift <=? 1 then
          let trail := pntz p in
          p ← shr p trail;
          mret (p, pshift + trail)
        else
          p ← shl p 2;
          let pshift := pshift - 2 in
          p ← shr (Z.lxor (fst p) 7, snd p) 1;
          size ← get_lp lp pshift;
          trinkle (head - size - width) p (pshift + 1) true lp ;;
          p ← shl p 1;
          let p := (Z.lor (fst p) 1, snd p) in
          trinkle (head - width) p pshift true lp ;;
          mret (p, pshift));
      drain fuel' (head - width) (fst r) (snd r) lp
  end.

(** Each loop handles every element once. *)
Definition __qsort_r (nel : Z) : M memory unit :=
  let size := u32 (width * nel) in
  if size =? 0 then mret tt else
  let high := size - width in
  lp ← leonardo_loop 46 size [width; width] width width;
  r ← build (Z.to_nat nel) 0 high (1, 0) 1 lp;
  let '(p, pshift) := r in
  trinkle high p pshift false lp ;;
  drain (Z.to_nat nel) high p pshift lp.

Definition qsort (nel : Z) : M memory unit := __qsort_r nel.

(** ** Binary search *)

(** The element found; [key] is the bytes of the key. *)
Fixpoint bsearch_loop (fuel : nat) (key : list Z) (base nel : Z) : M memory (option Z) :=
  if nel <=? 0 then mret None else
  match fuel with
  | O => halt Fuel
  | S fuel' =>
      let try := base + width * (nel / 2) in
      x ← load_bytes try width;
      let sign := cmp key x in
      if sign <? 0 then bsearch_loop fuel' key base (nel / 2)
      else if 0 <? sign then bsearch_loop fuel' key (try + width) (nel - (nel / 2 + 1))
      else mret (Some try)
  end.

Definition bsearch (key : list Z) (nel : Z) : M memory (option Z) := bsearch_loop (Z.to_nat nel) key 0 nel.
End code.
