(* ===== verification/QsortArray.v ===== *)
(** * Arrays in memory

    The memory of an array of elements of [W] bytes, and moving elements round
    in pieces of at most 256 bytes. *)

From S2P Require Import Prelude Qsort.

Section array.
Context (W : nat) (W_pos : (0 < W)%nat).
Implicit Types a : list (list Z).

Definition uniform a : Prop := Forall (fun x => length x = W) a.
(** The pointer to byte [off] of element [k]. *)
Definition ptr (k off : nat) : Z := Z.of_nat (W * k + off).

Lemma concat_length a : uniform a -> length (concat a) = (W * length a)%nat.
Proof. induction 1 as [|x a Hx Ha IH]; cbn [concat length]; [lia|]. rewrite length_app. lia. Qed.

Lemma concat_split a k x : uniform a -> a !! k = Some x -> exists u v, a = u ++ x :: v /\ length u = k /\ concat a = concat u ++ x ++ concat v /\ length (concat u) = (W * k)%nat /\ length x = W.
Proof.
  intros Ha Hk. pose proof (take_drop_middle a k x Hk) as E. pose proof (lookup_lt_Some _ _ _ Hk) as Hl. exists (take k a), (drop (S k) a). split; [done|]. assert (length (take k a) = k) as Ek by (rewrite length_take; lia). split; [done|]. rewrite <- E at 1. rewrite concat_app. cbn [concat].
  split; [done|]. rewrite concat_length by (by apply Forall_take). split; [by rewrite Ek|]. by apply (Forall_lookup_1 _ _ _ _ Ha Hk).
Qed.

Lemma load_element a k x off l : uniform a -> a !! k = Some x -> (off + l <= W)%nat -> load_bytes (ptr k off) (Z.of_nat l) (concat a) = Done (take l (drop off x)) (concat a).
Proof.
  intros Ha Hk Hl. destruct (concat_split a k x Ha Hk) as (u & v & _ & _ & E & Eu & Ex). unfold load_bytes, ptr. rewrite E, !length_app. rewrite (proj2 (Z.leb_le 0 (Z.of_nat (W * k + off)))), (proj2 (Z.leb_le 0 (Z.of_nat l))), (proj2 (Z.leb_le _ _)) by lia. cbn [andb]. rewrite !Nat2Z.id. f_equal.
  rewrite drop_app_ge by lia. rewrite Eu. replace (W * k + off - W * k)%nat with off by lia. rewrite drop_app_le by lia. rewrite take_app_le; [done|]. rewrite length_drop. lia.
Qed.

(** [bs] put over the bytes of [x] from [off]. *)
Definition splice (off : nat) (bs x : list Z) : list Z := take off x ++ bs ++ drop (off + length bs) x.

Lemma store_element a k x off bs : uniform a -> a !! k = Some x -> (off + length bs <= W)%nat -> store_bytes (ptr k off) bs (concat a) = Done tt (concat (<[k := splice off bs x]> a)).
Proof.
  intros Ha Hk Hl. destruct (concat_split a k x Ha Hk) as (u & v & Ea & Ek & E & Eu & Ex). unfold store_bytes, ptr. rewrite E, !length_app. rewrite (proj2 (Z.leb_le 0 (Z.of_nat (W * k + off)))), (proj2 (Z.leb_le _ _)) by lia. cbn [andb]. rewrite !Nat2Z.id. f_equal.
  rewrite Ea, insert_app_r_alt by lia. replace (k - length u)%nat with 0%nat by lia. cbn [insert list_insert]. rewrite concat_app. cbn [concat]. unfold splice. rewrite take_app_ge, drop_app_ge, Eu by lia. replace (W * k + off - W * k)%nat with off by lia. replace (W * k + off + length bs - W * k)%nat with (off + length bs)%nat by lia.
  rewrite take_app_le, drop_app_le by lia. by rewrite <- !(assoc_L (++)).
Qed.

Lemma splice_length off bs (x : list Z) : length x = W -> (off + length bs <= W)%nat -> length (splice off bs x) = W.
Proof. intros Hx Hl. unfold splice. rewrite !length_app, length_take, length_drop. lia. Qed.

(** ** Moving elements round *)

(** What place [i] of [ks] gets: the element of the next place, the last one [x]. *)
Definition next_of {A} (x : A) (ks : list nat) (a : list A) (i : nat) : A :=
  match ks !! S i with Some k => default x (a !! k) | None => x end.

(** Each place of [ks] gets the element of the next one, the last one [x]. *)
Fixpoint place {A} (x : A) (ks : list nat) (a : list A) : list A :=
  match ks with
  | [] => a
  | k :: ks' => <[k := match ks' with [] => x | k' :: _ => default x (a !! k') end]> (place x ks' a)
  end.

Lemma place_length {A} (x : A) ks (a : list A) : length (place x ks a) = length a.
Proof. induction ks as [|k ks IH]; cbn [place]; [done|]. by rewrite length_insert. Qed.

Lemma place_other {A} (x : A) ks (a : list A) k : k ∉ ks -> place x ks a !! k = a !! k.
Proof. induction ks as [|k' ks IH]; cbn [place]; intros Hk; [done|]. apply not_elem_of_cons in Hk as [Hne Hk]. rewrite list_lookup_insert_ne by done. auto. Qed.

Lemma place_next {A} (x : A) ks (a : list A) i k : NoDup ks -> ks !! i = Some k -> (k < length a)%nat -> place x ks a !! k = Some (next_of x ks a i).
Proof.
  intros Hnd. revert i. induction Hnd as [|k' ks Hk' Hnd IH]; intros i Hi Hl; [done|]. cbn [place]. destruct i as [|i]; cbn in Hi.
  - injection Hi as ->. rewrite list_lookup_insert_eq by (by rewrite place_length). unfold next_of. by destruct ks.
  - assert (k <> k') as Hne by (intros ->; apply Hk'; by eapply list_elem_of_lookup_2). rewrite list_lookup_insert_ne by done. by apply IH.
Qed.

(** Place [i] of [ks] has got the first [g i] bytes of what it gets. *)
Record moved (ks : list nat) (x : list Z) (a : list (list Z)) (g : nat -> nat) (b : list (list Z)) : Prop := {
  mv_length : length b = length a;
  mv_other k : k ∉ ks -> b !! k = a !! k;
  mv_part i k y : ks !! i = Some k -> a !! k = Some y -> b !! k = Some (take (g i) (next_of x ks a i) ++ drop (g i) y);
}.

Lemma next_length ks x a i : uniform a -> length x = W -> length (next_of x ks a i) = W.
Proof. intros Ha Hx. unfold next_of. destruct (ks !! S i) as [k|]; [|done]. destruct (a !! k) as [y|] eqn:E; cbn; [|done]. by apply (Forall_lookup_1 _ _ _ _ Ha E). Qed.

Lemma moved_uniform ks x a g b : uniform a -> length x = W -> (forall k, k ∈ ks -> (k < length a)%nat) -> (forall i, (g i <= W)%nat) -> moved ks x a g b -> uniform b.
Proof.
  intros Ha Hx Hks Hg [Hl Ho Hp]. apply Forall_lookup. intros k y Hy. destruct (decide (k ∈ ks)) as [Hin|Hin]; [|rewrite Ho in Hy by done; by apply (Forall_lookup_1 _ _ _ _ Ha Hy)].
  destruct (list_elem_of_lookup_1 _ _ Hin) as [i Hi]. destruct (lookup_lt_is_Some_2 a k (Hks k Hin)) as [z Hz]. rewrite (Hp i k z Hi Hz) in Hy. injection Hy as <-. rewrite length_app, length_take, length_drop, next_length by done. pose proof (Forall_lookup_1 _ _ _ _ Ha Hz) as Ez. cbn in Ez. specialize (Hg i). lia.
Qed.

(** One more piece at place [j]. *)
Lemma moved_splice ks x a b j k y off l : NoDup ks -> uniform a -> length x = W -> ks !! j = Some k -> a !! k = Some y -> (off + l <= W)%nat ->
  moved ks x a (fun i => if (i <? j)%nat then (off + l)%nat else off) b ->
  moved ks x a (fun i => if (i <? S j)%nat then (off + l)%nat else off) (<[k := splice off (take l (drop off (next_of x ks a j))) (take off (next_of x ks a j) ++ drop off y)]> b).
Proof.
  intros Hnd Ha Hx Hj Hk Hl [Hlen Ho Hp]. pose proof (next_length ks x a j Ha Hx) as Hnx. pose proof (Forall_lookup_1 _ _ _ _ Ha Hk) as Ey. cbn in Ey. split; [by rewrite length_insert| |].
  - intros k' Hk'. rewrite list_lookup_insert_ne; [by apply Ho|]. intros ->. apply Hk'. by eapply list_elem_of_lookup_2.
  - intros i k' z Hi Hz. destruct (decide (k' = k)) as [->|Hne].
    + assert (i = j) as -> by (by eapply NoDup_lookup). rewrite list_lookup_insert_eq by (rewrite Hlen; by apply lookup_lt_Some in Hk). rewrite (proj2 (Nat.ltb_lt j (S j))) by lia. rewrite Hk in Hz. injection Hz as <-. f_equal. unfold splice. assert (length (take off (next_of x ks a j)) = off) as Et by (rewrite length_take; lia).
      rewrite take_app_le, take_ge by lia. rewrite length_take, length_drop, Hnx, Nat.min_l by lia. rewrite drop_app_ge by lia. rewrite Et, drop_drop. replace (off + (off + l - off))%nat with (off + l)%nat by lia. rewrite (assoc_L (++)). f_equal. by rewrite <- take_take_drop.
    + rewrite list_lookup_insert_ne by done. rewrite (Hp i k' z Hi Hz). assert (i <> j) by (intros ->; congruence). destruct (Nat.ltb_spec i j), (Nat.ltb_spec i (S j)); (done || lia).
Qed.

Lemma moved_ext ks x a g g' b : (forall i, (i < length ks)%nat -> g i = g' i) -> moved ks x a g b -> moved ks x a g' b.
Proof. intros E [Hl Ho Hp]. split; [done..|]. intros i k y Hi Hk. rewrite <- E by (by eapply lookup_lt_Some). by apply Hp. Qed.

(** The places of a rotation: distinct, inside the array, [x] in the first one. *)
Record route (ks : list nat) (x : list Z) (a : list (list Z)) : Prop := {
  rt_distinct : NoDup ks;
  rt_inside k : k ∈ ks -> (k < length a)%nat;
  rt_uniform : uniform a;
  rt_first : exists k ks', ks = k :: ks' /\ a !! k = Some x;
}.

Lemma route_x ks x a : route ks x a -> length x = W.
Proof. intros [_ _ Ha (k & ks' & _ & Hk)]. by apply (Forall_lookup_1 _ _ _ _ Ha Hk). Qed.

Lemma cycle_moves_spec ks x a off l ks' : route ks x a -> (0 < l)%nat -> (off + l <= W)%nat -> ks' <> [] -> forall pre b, ks = pre ++ ks' ->
  moved ks x a (fun i => if (i <? length pre)%nat then (off + l)%nat else off) b ->
  exists b', cycle_moves (map (fun k => ptr k off) ks') (take l (drop off x)) (Z.of_nat l) (concat b) = Done tt (concat b') /\ moved ks x a (fun _ => (off + l)%nat) b'.
Proof.
  intros Hr Hl Hol. pose proof (route_x _ _ _ Hr) as Hx. pose proof Hr as [Hnd Hin Ha _]. induction ks' as [|k ks' IH]; intros Hne pre b E Hb; [done|].
  assert (ks !! length pre = Some k) as Hk by (subst ks; by apply list_lookup_middle). assert (k < length a)%nat as Hka by (apply Hin; by eapply list_elem_of_lookup_2). destruct (lookup_lt_is_Some_2 a k Hka) as [y Hy].
  assert (uniform b) as Hub by (apply (moved_uniform _ _ _ _ _ Ha Hx Hin) in Hb; [done|]; intros i; cbn beta; destruct (i <? length pre)%nat; lia).
  pose proof (mv_part _ _ _ _ _ Hb _ _ _ Hk Hy) as Hbk. cbn beta in Hbk. rewrite Nat.ltb_irrefl in Hbk. pose proof (moved_splice _ _ _ _ _ _ _ off l Hnd Ha Hx Hk Hy Hol Hb) as Hs.
  assert (length (take l (drop off (next_of x ks a (length pre)))) = l) as Ets by (rewrite length_take, length_drop, next_length by done; lia).
  destruct ks' as [|k' ks'].
  - cbn [map cycle_moves]. assert (next_of x ks a (length pre) = x) as En by (unfold next_of; subst ks; rewrite lookup_ge_None_2; [done|rewrite length_app; cbn; lia]).
    rewrite En in *. rewrite (store_element b k _ off _ Hub Hbk) by lia. eexists. split; [done|]. eapply moved_ext; [|exact Hs]. intros i Hi. subst ks. rewrite length_app in Hi. cbn in Hi. cbn beta. by rewrite (proj2 (Nat.ltb_lt _ _)) by lia.
  - assert (ks !! S (length pre) = Some k') as Hk' by (subst ks; rewrite lookup_app_r by lia; by replace (S (length pre) - length pre)%nat with 1%nat by lia).
    assert (k' < length a)%nat as Hka' by (apply Hin; by eapply list_elem_of_lookup_2). destruct (lookup_lt_is_Some_2 a k' Hka') as [y' Hy'].
    assert (k <> k') as Hkk by (intros ->; pose proof (NoDup_lookup _ _ _ _ Hnd Hk Hk'); lia).
    pose proof (mv_part _ _ _ _ _ Hb _ _ _ Hk' Hy') as Hbk'. cbn beta in Hbk'. rewrite (proj2 (Nat.ltb_ge _ _)) in Hbk' by lia.
    assert (next_of x ks a (length pre) = y') as En by (unfold next_of; by rewrite Hk', Hy'). rewrite En in *.
    change (map (fun k => ptr k off) (k :: k' :: ks')) with (ptr k off :: ptr k' off :: map (fun k => ptr k off) ks'). cbn [cycle_moves]. unfold copy_bytes.
    rewrite (proj2 (Z.ltb_ge (Z.abs (ptr k off - ptr k' off)) (Z.of_nat l))) by (unfold ptr; nia).
    assert (length (take off (next_of x ks a (S (length pre)))) = off) as Eto by (rewrite length_take, next_length by done; lia).
    assert (take l (drop off (take off (next_of x ks a (S (length pre))) ++ drop off y')) = take l (drop off y')) as Ed by (rewrite drop_app_ge, Eto, Nat.sub_diag by lia; done).
    destruct (IH ltac:(done) (pre ++ [k]) (<[k := splice off (take l (drop off y')) (take off y' ++ drop off y)]> b)) as (b' & Hc & Hb').
    { rewrite E. by rewrite <- (assoc_L (++)). }
    { eapply moved_ext; [|exact Hs]. intros i Hi. rewrite length_app, Nat.add_1_r. done. }
    exists b'. split; [|done]. cbn [map] in Hc. erewrite bind_done; [exact Hc|]. rewrite (bind_done _ _ _ _ _ (load_element b k' _ off l Hub Hbk' Hol)), Ed. apply (store_element b k _ off _ Hub Hbk). lia.
Qed.

Lemma moved_place ks x a b : route ks x a -> moved ks x a (fun _ => W) b -> b = place x ks a.
Proof.
  intros Hr [Hl Ho Hp]. pose proof (route_x _ _ _ Hr) as Hx. destruct Hr as [Hnd Hin Ha _]. apply list_eq. intros k. destruct (decide (k ∈ ks)) as [Hk|Hk]; [|by rewrite Ho, place_other].
  destruct (list_elem_of_lookup_1 _ _ Hk) as [i Hi]. destruct (lookup_lt_is_Some_2 a k (Hin k Hk)) as [y Hy]. rewrite (Hp i k y Hi Hy), (place_next x ks a i k Hnd Hi (Hin k Hk)). pose proof (Forall_lookup_1 _ _ _ _ Ha Hy) as Ey. cbn in Ey. rewrite take_ge by (rewrite next_length; done || lia). rewrite drop_ge by lia. by rewrite app_nil_r.
Qed.

Lemma moved_none ks x a : moved ks x a (fun _ => 0%nat) a.
Proof. split; [done..|]. intros i k y _ Hk. by rewrite Hk. Qed.

Lemma cycle_loop_spec ks x a : route ks x a -> forall fuel off b, (off <= W)%nat -> (W - off <= fuel)%nat -> moved ks x a (fun _ => off) b ->
  cycle_loop fuel (Z.of_nat (W - off)) (map (fun k => ptr k off) ks) (concat b) = Done tt (concat (place x ks a)).
Proof.
  intros Hr fuel. pose proof (route_x _ _ _ Hr) as Hx. pose proof Hr as [Hnd Hin Ha (k0 & ks0 & E0 & Hk0)]. induction fuel as [|fuel IH]; intros off b Ho Hf Hb; cbn [cycle_loop].
  - assert (W - off = 0)%nat as -> by lia. replace off with W in * by lia. cbn. by rewrite (moved_place _ _ _ _ Hr Hb).
  - destruct (Z.eqb_spec (Z.of_nat (W - off)) 0) as [Ez|Ez]; [replace off with W in * by lia; cbn; by rewrite (moved_place _ _ _ _ Hr Hb)|].
    set (l := Nat.min 256 (W - off)). assert ((if 256 <? Z.of_nat (W - off) then 256 else Z.of_nat (W - off)) = Z.of_nat l) as El by (unfold l; destruct (Z.ltb_spec 256 (Z.of_nat (W - off))); lia). rewrite El.
    assert (0 < l)%nat as Hl by lia. assert (off + l <= W)%nat as Hol by lia. clearbody l.
    assert (uniform b) as Hub by (by apply (moved_uniform _ _ _ _ _ Ha Hx Hin (fun _ => Ho) Hb)).
    assert (ks !! 0%nat = Some k0) as Hz by (by rewrite E0). pose proof (mv_part _ _ _ _ _ Hb _ _ _ Hz Hk0) as Hbk. cbn beta in Hbk.
    assert (length (take off (next_of x ks a 0)) = off) as Eto by (rewrite length_take, next_length by done; lia).
    assert (deref (head (map (fun k => ptr k off) ks)) (concat b) = Done (ptr k0 off) (concat b)) as Hd by (by rewrite E0). rewrite (bind_done _ _ _ _ _ Hd). clear Hd.
    rewrite (bind_done _ _ _ _ _ (load_element b k0 _ off l Hub Hbk Hol)). rewrite drop_app_ge, Eto, Nat.sub_diag by lia. cbn [drop].
    destruct (cycle_moves_spec ks x a off l ks Hr Hl Hol ltac:(by rewrite E0) [] b eq_refl Hb) as (b' & Hc & Hb'). rewrite (bind_done _ _ _ _ _ Hc).
    rewrite map_map. rewrite <- (IH (off + l)%nat b' ltac:(lia) ltac:(lia) Hb'). f_equal; [lia|]. apply map_ext. intros k. unfold ptr. lia.
Qed.

(** [cycle] on whole elements: a rotation of the places [ks]. *)
Lemma cycle_rotates ks x a rest n : route ks x a -> Z.of_nat (length ks) = n -> cycle (Z.of_nat W) (map (fun k => ptr k 0) ks ++ rest) n (concat a) = Done tt (concat (place x ks a)).
Proof.
  intros Hr <-. pose proof Hr as [Hnd Hin Ha (k0 & ks0 & E0 & Hk0)]. unfold cycle. destruct (Z.ltb_spec (Z.of_nat (length ks)) 2) as [Hn|Hn].
  - assert (ks0 = []) as -> by (destruct ks0; [done|]; rewrite E0 in Hn; cbn in Hn; lia). subst ks. cbn. by rewrite list_insert_id.
  - rewrite !Nat2Z.id, take_app_le by (rewrite length_map; lia). rewrite take_ge by (rewrite length_map; lia). rewrite <- (cycle_loop_spec ks x a Hr W 0 a) by (lia || apply moved_none). by rewrite Nat.sub_0_r.
Qed.

Lemma compare_spec cmp a i j x y : uniform a -> a !! i = Some x -> a !! j = Some y -> compare (Z.of_nat W) cmp (ptr i 0) (ptr j 0) (concat a) = Done (cmp x y) (concat a).
Proof.
  intros Ha Hi Hj. pose proof (Forall_lookup_1 _ _ _ _ Ha Hi) as Ex. pose proof (Forall_lookup_1 _ _ _ _ Ha Hj) as Ey. cbn in Ex, Ey. unfold compare. rewrite (bind_done _ _ _ _ _ (load_element a i x 0 W Ha Hi ltac:(lia))), (bind_done _ _ _ _ _ (load_element a j y 0 W Ha Hj ltac:(lia))). rewrite !drop_0, !take_ge by lia. done.
Qed.
End array.

(** ** What a rotation keeps *)

Lemma swap_in {A} (a : list A) k x y : a !! k = Some x -> x :: <[k := y]> a ≡ₚ y :: a.
Proof.
  intros Hk. rewrite <- (take_drop_middle a k x Hk) at 2. rewrite insert_take_drop by (by eapply lookup_lt_Some). rewrite <- !Permutation_middle. apply Permutation_swap.
Qed.

Lemma place_Permutation {A} (x y : A) k ks (a : list A) : NoDup (k :: ks) -> (forall i, i ∈ k :: ks -> (i < length a)%nat) -> a !! k = Some y -> y :: place x (k :: ks) a ≡ₚ x :: a.
Proof.
  revert k y. induction ks as [|k' ks IH]; intros k y Hnd Hin Hk; cbn [place]; [by apply swap_in|].
  apply list.NoDup_cons in Hnd as [Hnk Hnd]. destruct (lookup_lt_is_Some_2 a k' (Hin k' ltac:(set_solver))) as [z Hz]. rewrite Hz. cbn [default]. change (<[k':=_]> (place x ks a)) with (place x (k' :: ks) a).
  rewrite (swap_in _ k y z) by (by rewrite place_other). apply IH; [done|set_solver|done].
Qed.
