(* ===== verification/QsortHeap.v ===== *)
(** * Leonardo heaps

    The forests of smoothsort on plain arrays: what sifting an element down a
    tree and passing it through the roots do, for any total preorder. *)

From S2P Require Import Prelude QsortArray.

(** The Leonardo numbers, the sizes of the trees. *)
Fixpoint leo (n : nat) : nat :=
  match n with
  | S n' => match n' with S n'' => S (leo n' + leo n'') | O => 1 end
  | O => 1
  end.

Lemma leo_SS n : leo (S (S n)) = S (leo (S n) + leo n).
Proof. done. Qed.

Lemma leo_pos n : (1 <= leo n)%nat.
Proof. destruct n as [|[|n]]; [cbn; lia..|]. rewrite leo_SS. lia. Qed.

Lemma leo_S n : (leo n <= leo (S n))%nat.
Proof. destruct n as [|n]; [done|]. rewrite leo_SS. lia. Qed.

Lemma leo_le m n : (m <= n)%nat -> (leo m <= leo n)%nat.
Proof. induction 1 as [|n _ IH]; [done|]. etrans; [done|apply leo_S]. Qed.

Lemma leo_lt m n : (1 <= m < n)%nat -> (leo m < leo n)%nat.
Proof. intros H. assert (leo (S m) <= leo n)%nat by (apply leo_le; lia). destruct m as [|m]; [lia|]. rewrite (leo_SS m) in *. pose proof (leo_pos m). lia. Qed.

Section heap.
Context {A : Type} `{!Inhabited A} (leb : A -> A -> bool).
Implicit Types (a b : list A) (x : A).
Context (leb_total : forall x y, leb x y = false -> leb y x = true).
Context (leb_trans : forall x y z, leb x y = true -> leb y z = true -> leb x z = true).

Lemma leb_refl x : leb x x = true.
Proof. destruct (leb x x) eqn:E; [done|]. by rewrite (leb_total _ _ E) in E. Qed.

(** ** Trees *)

(** The tree of order [o] with its root at [h] has the [leo o] places up to
    [h]; its right subtree, of order [o - 2], ends before [h] and its left one,
    of order [o - 1], before that. *)
Fixpoint heap a (h o : nat) : Prop :=
  match o with
  | S o1 => match o1 with
            | S o2 => leb (a !!! (h - 1 - leo o2)%nat) (a !!! h) = true /\ leb (a !!! (h - 1)%nat) (a !!! h) = true /\
                      heap a (h - 1) o2 /\ heap a (h - 1 - leo o2) o1
            | O => True
            end
  | O => True
  end.

(** The subtrees are heaps; the root is any element. *)
Definition children a (h o : nat) : Prop :=
  match o with S (S o2) => heap a (h - 1) o2 /\ heap a (h - 1 - leo o2) (S o2) | _ => True end.

Lemma heap_SS a h o : heap a h (S (S o)) = (leb (a !!! (h - 1 - leo o)%nat) (a !!! h) = true /\ leb (a !!! (h - 1)%nat) (a !!! h) = true /\ heap a (h - 1) o /\ heap a (h - 1 - leo o) (S o)).
Proof. done. Qed.

(** Induction over the orders, two at a time. *)
Lemma order_ind (P : nat -> Prop) : P 0%nat -> P 1%nat -> (forall o, P o -> P (S o) -> P (S (S o))) -> forall o, P o.
Proof. intros H0 Hc1 HS o. enough (P o /\ P (S o)) by tauto. induction o as [|o [IH IH']]; auto. Qed.

Lemma heap_children a h o : heap a h o -> children a h o.
Proof. destruct o as [|[|o]]; [done..|]. rewrite heap_SS. cbn [children]. tauto. Qed.

(** The places of the tree. *)
Definition in_tree (h o k : nat) : Prop := (h < k + leo o /\ k <= h)%nat.

Lemma in_tree_SS h o k : (leo (S (S o)) <= S h)%nat -> in_tree h (S (S o)) k <-> k = h \/ in_tree (h - 1) o k \/ in_tree (h - 1 - leo o) (S o) k.
Proof. rewrite leo_SS. unfold in_tree. rewrite leo_SS. intros Hh. lia. Qed.

Lemma heap_ext a b o : forall h, (leo o <= S h)%nat -> (forall k, in_tree h o k -> a !!! k = b !!! k) -> heap a h o -> heap b h o.
Proof.
  induction o as [| |o IH1 IH2] using order_ind; intros h Hh E; [done..|]. rewrite !heap_SS. pose proof (leo_pos o). pose proof (leo_pos (S o)). intros (Hl & Hr & Hc1 & Hc2).
  assert (forall k, k = h \/ in_tree (h - 1) o k \/ in_tree (h - 1 - leo o) (S o) k -> a !!! k = b !!! k) as E' by (intros k Hk; apply E; by apply in_tree_SS). rewrite leo_SS in Hh.
  rewrite <- !E' by (unfold in_tree; lia). split; [done|]. split; [done|]. split; [apply IH1; [lia|intros k Hk; apply E'; auto|done]|apply IH2; [lia|intros k Hk; apply E'; auto|done]].
Qed.

Lemma children_ext a b h o : (leo o <= S h)%nat -> (forall k, in_tree h o k -> k <> h -> a !!! k = b !!! k) -> children a h o -> children b h o.
Proof.
  destruct o as [|[|o]]; intros Hh E; [done..|]. cbn [children]. assert (forall k, in_tree (h - 1) o k \/ in_tree (h - 1 - leo o) (S o) k -> a !!! k = b !!! k) as E' by (intros k Hk; apply E; [apply in_tree_SS; auto|rewrite leo_SS in Hh; unfold in_tree in Hk; lia]). rewrite leo_SS in Hh.
  intros [Hc1 Hc2]. split; (eapply heap_ext; [|intros k Hk; apply E'; auto|done]); lia.
Qed.

(** The root is the greatest element. *)
Lemma heap_max a o : forall h k, (leo o <= S h)%nat -> heap a h o -> in_tree h o k -> leb (a !!! k) (a !!! h) = true.
Proof.
  induction o as [| |o IH1 IH2] using order_ind; intros h k Hh Ha Hk.
  1-2: replace k with h by (unfold in_tree in Hk; cbn in Hk; lia); apply leb_refl.
  rewrite heap_SS in Ha. destruct Ha as (Hl & Hr & Hc1 & Hc2). apply in_tree_SS in Hk; [|done]. rewrite leo_SS in Hh. destruct Hk as [->|[Hk|Hk]]; [apply leb_refl|eapply leb_trans; [|exact Hr]; apply IH1; (done || lia)|eapply leb_trans; [|exact Hl]; apply IH2; (done || lia)].
Qed.

(** ** Sifting *)

(** The places [sift] goes down to from the root at [h], where [x] is. *)
Fixpoint sift_path a x (h o : nat) : list nat :=
  match o with
  | S o1 => match o1 with
            | S o2 =>
                let rt := (h - 1)%nat in let lf := (h - 1 - leo o2)%nat in
                if leb (a !!! lf) x && leb (a !!! rt) x then [] else
                if leb (a !!! rt) (a !!! lf) then lf :: sift_path a x lf o1 else rt :: sift_path a x rt o2
            | O => []
            end
  | O => []
  end.

Lemma sift_path_SS a x h o : sift_path a x h (S (S o)) =
  let rt := (h - 1)%nat in let lf := (h - 1 - leo o)%nat in
  if leb (a !!! lf) x && leb (a !!! rt) x then [] else
  if leb (a !!! rt) (a !!! lf) then lf :: sift_path a x lf (S o) else rt :: sift_path a x rt o.
Proof. done. Qed.

Lemma sift_path_in a x o : forall h k, (leo o <= S h)%nat -> k ∈ sift_path a x h o -> in_tree h o k /\ (k < h)%nat.
Proof.
  induction o as [| |o IH1 IH2] using order_ind; intros h k Hh; [by intros ?%not_elem_of_nil..|]. rewrite sift_path_SS. cbv zeta. rewrite in_tree_SS by done. rewrite leo_SS in Hh. pose proof (leo_pos o). pose proof (leo_pos (S o)).
  repeat case_match; [by intros ?%not_elem_of_nil|..]; intros [->|Hk]%elem_of_cons; [unfold in_tree; lia| |unfold in_tree; lia|].
  - apply IH2 in Hk; [|lia]. split; [tauto|lia].
  - apply IH1 in Hk; [|lia]. split; [tauto|lia].
Qed.

Lemma sift_path_distinct a x o : forall h, (leo o <= S h)%nat -> NoDup (h :: sift_path a x h o).
Proof.
  induction o as [| |o IH1 IH2] using order_ind; intros h Hh; [apply NoDup_singleton..|]. apply list.NoDup_cons. split; [intros Hk; apply sift_path_in in Hk; [lia|done]|]. rewrite sift_path_SS. cbv zeta. rewrite leo_SS in Hh.
  repeat case_match; [apply NoDup_nil_2|apply IH2; lia|apply IH1; lia].
Qed.

(** [x] goes to the root at [h] and is sifted down. *)
Definition sifted a x (h o : nat) : list A := place x (h :: sift_path a x h o) a.

Lemma place_step x k k' ks a : (k' < length a)%nat -> place x (k :: k' :: ks) a = <[k := a !!! k']> (place x (k' :: ks) a).
Proof. intros Hk. cbn [place]. destruct (lookup_lt_is_Some_2 a k' Hk) as [y Hy]. by rewrite Hy, (list_lookup_total_correct _ _ _ Hy). Qed.

Lemma sifted_SS a x h o : (h < length a)%nat -> sifted a x h (S (S o)) =
  let rt := (h - 1)%nat in let lf := (h - 1 - leo o)%nat in
  if leb (a !!! lf) x && leb (a !!! rt) x then <[h := x]> a else
  if leb (a !!! rt) (a !!! lf) then <[h := a !!! lf]> (sifted a x lf (S o)) else <[h := a !!! rt]> (sifted a x rt o).
Proof. intros Hh. unfold sifted. rewrite sift_path_SS. cbv zeta. destruct (_ && _); [done|]. destruct (leb _ _); apply place_step; lia. Qed.

Lemma sifted_length a x h o : length (sifted a x h o) = length a.
Proof. apply place_length. Qed.

Lemma lookup_total_of a b k : a !! k = b !! k -> a !!! k = b !!! k.
Proof. intros E. by rewrite !list_lookup_total_alt, E. Qed.

Lemma sifted_other a x h o k : (leo o <= S h)%nat -> ~ in_tree h o k -> sifted a x h o !! k = a !! k.
Proof.
  intros Hh Hk. apply place_other. intros [->|Hin]%elem_of_cons; [apply Hk; unfold in_tree; pose proof (leo_pos o); lia|]. apply Hk. by apply sift_path_in in Hin as [? _].
Qed.

Lemma insert_at a k x : (k < length a)%nat -> <[k := x]> a !!! k = x.
Proof. intros Hk. by apply list_lookup_total_insert_eq. Qed.
Lemma insert_off a k k' x : k <> k' -> <[k := x]> a !!! k' = a !!! k'.
Proof. intros Hk. by apply list_lookup_total_insert_ne. Qed.

(** Only [x] and the elements of the tree below [h] are in the tree after. *)
Lemma sifted_bound (P : A -> Prop) x o : forall a h, (h < length a)%nat -> (leo o <= S h)%nat -> P x -> (forall k, in_tree h o k -> k <> h -> P (a !!! k)) -> forall k, in_tree h o k -> P (sifted a x h o !!! k).
Proof.
  induction o as [| |o IH1 IH2] using order_ind; intros a h Hl Hh Hx Ha k Hk.
  1-2: replace k with h by (unfold in_tree in Hk; cbn in Hk; lia); unfold sifted; cbn [sift_path place]; by rewrite insert_at.
  rewrite sifted_SS by done. cbv zeta. pose proof (leo_pos o) as Ho. pose proof (leo_pos (S o)) as Ho'.
  assert (forall j, in_tree (h - 1) o j \/ in_tree (h - 1 - leo o) (S o) j -> P (a !!! j)) as Ha' by (intros j Hj; apply Ha; [apply in_tree_SS; auto|rewrite leo_SS in Hh; unfold in_tree in Hj; lia]).
  assert (k <> h -> in_tree (h - 1) o k \/ in_tree (h - 1 - leo o) (S o) k) as Hk' by (apply in_tree_SS in Hk; [tauto|done]). rewrite leo_SS in Hh.
  assert (forall (c : list A) y, length c = length a -> P y -> (k <> h -> P (c !!! k)) -> P (<[h := y]> c !!! k)) as Hins by (intros c y Hc Hy HP; destruct (decide (k = h)) as [->|Hne]; [rewrite insert_at; [done|lia]|rewrite insert_off; auto]).
  repeat case_match; apply Hins; rewrite ?sifted_length; auto.
  - apply Ha'. right. unfold in_tree. lia.
  - intros Hne. destruct (Hk' Hne) as [Hr|Hl']; [|apply IH2; auto; lia]. rewrite (lookup_total_of _ a) by (apply sifted_other; [lia|unfold in_tree in *; lia]). auto.
  - apply Ha'. left. unfold in_tree. lia.
  - intros Hne. destruct (Hk' Hne) as [Hr|Hl']; [apply IH1; auto; lia|]. rewrite (lookup_total_of _ a) by (apply sifted_other; [lia|unfold in_tree in *; lia]). auto.
Qed.

(** Both subtrees are below [y]. *)
Definition below a (h o : nat) (y : A) : Prop :=
  match o with S (S o2) => leb (a !!! (h - 1 - leo o2)%nat) y = true /\ leb (a !!! (h - 1)%nat) y = true | _ => True end.

Lemma heap_root a h o y : (h < length a)%nat -> (leo o <= S h)%nat -> children a h o -> below a h o y -> heap (<[h := y]> a) h o.
Proof.
  intros Hl Hh Hc Hb. destruct o as [|[|o]]; [done..|]. apply (children_ext a (<[h := y]> a)) in Hc; [|done|intros k _ Hk; by rewrite insert_off]. cbn [children below] in *. rewrite heap_SS, insert_at by done. pose proof (leo_pos (S o)) as Ho. rewrite leo_SS in Hh. rewrite !insert_off by lia. tauto.
Qed.

Lemma sifted_heap x o : forall a h, (h < length a)%nat -> (leo o <= S h)%nat -> children a h o ->
  heap (sifted a x h o) h o /\ leb x (sifted a x h o !!! h) = true /\ below a h o (sifted a x h o !!! h).
Proof.
  induction o as [| |o IH1 IH2] using order_ind; intros a h Hl Hh Hc.
  1-2: unfold sifted; cbn [sift_path place heap below]; rewrite insert_at by done; auto using leb_refl.
  rewrite sifted_SS by done. cbv zeta. pose proof (leo_pos o) as Ho. pose proof (leo_pos (S o)) as Ho'. pose proof Hh as Hh'. rewrite leo_SS in Hh'.
  cbn [children] in Hc. destruct Hc as [Hc1 Hc2]. set (rt := (h - 1)%nat) in *. set (lf := (rt - leo o)%nat) in *.
  destruct (leb (a !!! lf) x && leb (a !!! rt) x) eqn:Eb; [|destruct (leb (a !!! rt) (a !!! lf)) eqn:Er].
  - apply andb_true_iff in Eb as [El Er]. rewrite insert_at by done. split; [apply heap_root; done|]. split; [apply leb_refl|done].
  - assert (leb x (a !!! lf) = true) as Hx by (apply andb_false_iff in Eb as [E|E]; apply leb_total in E; eauto).
    assert (forall k, ~ in_tree lf (S o) k -> sifted a x lf (S o) !!! k = a !!! k) as Hoth by (intros k Hk; apply lookup_total_of, sifted_other; [unfold lf, rt; lia|done]).
    destruct (IH2 a lf ltac:(unfold lf, rt; lia) ltac:(unfold lf, rt; lia) (heap_children _ _ _ Hc2)) as (Hs & _ & _).
    rewrite insert_at by (by rewrite sifted_length). split; [|split; [done|by cbn; auto using leb_refl]]. apply heap_root; [by rewrite sifted_length|done| |].
    + cbn [children]. fold rt lf. split; [|done]. eapply heap_ext; [|intros k Hk; symmetry; apply Hoth|exact Hc1]; unfold in_tree, lf, rt in *; lia.
    + cbn [below]. fold rt lf. rewrite (Hoth rt) by (unfold in_tree, lf, rt; lia). split; [|done]. apply (sifted_bound (fun y => leb y (a !!! lf) = true)); [unfold lf, rt; lia..|done| |unfold in_tree, lf, rt; lia]. intros k Hk _. eapply heap_max; [|done..]. unfold lf, rt; lia.
  - assert (leb x (a !!! rt) = true /\ leb (a !!! lf) (a !!! rt) = true) as [Hx Hlr] by (apply leb_total in Er; apply andb_false_iff in Eb as [E|E]; apply leb_total in E; eauto).
    assert (forall k, ~ in_tree rt o k -> sifted a x rt o !!! k = a !!! k) as Hoth by (intros k Hk; apply lookup_total_of, sifted_other; [unfold lf, rt; lia|done]).
    destruct (IH1 a rt ltac:(unfold lf, rt; lia) ltac:(unfold lf, rt; lia) (heap_children _ _ _ Hc1)) as (Hs & _ & _).
    rewrite insert_at by (by rewrite sifted_length). split; [|split; [done|by cbn; auto using leb_refl]]. apply heap_root; [by rewrite sifted_length|done| |].
    + cbn [children]. fold rt lf. split; [done|]. eapply heap_ext; [|intros k Hk; symmetry; apply Hoth|exact Hc2]; unfold in_tree, lf, rt in *; lia.
    + cbn [below]. fold rt lf. rewrite (Hoth lf) by (unfold in_tree, lf, rt; lia). split; [done|]. apply (sifted_bound (fun y => leb y (a !!! rt) = true)); [unfold lf, rt; lia..|done| |unfold in_tree, lf, rt; lia]. intros k Hk _. eapply heap_max; [|done..]. unfold lf, rt; lia.
Qed.

(** ** Forests *)

(** The trees from the last one, whose root is at [h], to the first. *)
Fixpoint total (os : list nat) : nat := match os with [] => 0 | o :: os' => leo o + total os' end.

Fixpoint trees a (h : nat) (os : list nat) : Prop :=
  match os with [] => True | o :: os' => heap a h o /\ trees a (h - leo o) os' end.

(** The roots ascend. *)
Fixpoint asc a (h : nat) (os : list nat) : Prop :=
  match os with
  | [] => True
  | o :: os' => match os' with [] => True | _ :: _ => leb (a !!! (h - leo o)%nat) (a !!! h) = true /\ asc a (h - leo o) os' end
  end.

Lemma total_pos o os : (leo o <= total (o :: os))%nat /\ (1 <= total (o :: os))%nat.
Proof. cbn [total]. pose proof (leo_pos o). lia. Qed.

Lemma trees_ext a b os : forall h, (total os <= S h)%nat -> (forall k, (k <= h)%nat -> a !!! k = b !!! k) -> trees a h os -> trees b h os.
Proof.
  induction os as [|o os IH]; intros h Ht E; [done|]. cbn [trees total] in *. intros [Hh Hs]. split; [eapply heap_ext; [|intros k Hk; apply E|exact Hh]; unfold in_tree in *; lia|].
  destruct os as [|o' os]; [done|]. pose proof (total_pos o' os). pose proof (leo_pos o). apply IH; [lia|intros k Hk; apply E; lia|done].
Qed.

Lemma asc_ext a b os : forall h, (forall k, (k <= h)%nat -> a !!! k = b !!! k) -> asc a h os -> asc b h os.
Proof. induction os as [|o os IH]; intros h E; [done|]. cbn [asc]. destruct os as [|o' os]; [done|]. rewrite !E by lia. intros [Hl Hs]. split; [done|]. apply IH; [intros k Hk; apply E; lia|done]. Qed.

Lemma forest_max a os : forall h k, total os = S h -> trees a h os -> asc a h os -> (k <= h)%nat -> leb (a !!! k) (a !!! h) = true.
Proof.
  induction os as [|o os IH]; intros h k Ht Hs Ha Hk; [done|]. cbn [total trees] in *. destruct Hs as [Hh Hs]. destruct (decide (in_tree h o k)) as [Hin|Hin]; [eapply heap_max; [|done..]; lia|].
  cbn [asc] in Ha. destruct os as [|o' os]; [unfold in_tree in Hin; cbn in Ht; lia|]. destruct Ha as [Hr Ha]. pose proof (total_pos o' os). eapply leb_trans; [|exact Hr]. apply IH; [lia|done..|unfold in_tree in Hin; lia].
Qed.

(** ** Passing an element through the roots *)

(** [trinkle] leaves [x] in the tree at [h]. *)
Definition stays a x (h o : nat) (trusty : bool) : bool :=
  let stepson := a !!! (h - leo o)%nat in
  leb stepson x || negb trusty && match o with S (S o2) => leb stepson (a !!! (h - 1)%nat) || leb stepson (a !!! (h - 1 - leo o2)%nat) | _ => false end.

(** The roots it goes to, and the tree it ends in. *)
Fixpoint roots_path a x (h o : nat) (os : list nat) (trusty : bool) : list nat * (nat * nat) :=
  match os with
  | [] => ([], (h, o))
  | o' :: os' =>
      if stays a x h o trusty then ([], (h, o)) else
      let h' := (h - leo o)%nat in let r := roots_path a x h' o' os' false in (h' :: fst r, snd r)
  end.

Definition trinkled a x (h o : nat) (os : list nat) : list A :=
  let r := roots_path a x h o os false in sifted (place x (h :: fst r) a) x (fst (snd r)) (snd (snd r)).

Lemma roots_path_le a x os : forall h o t, (fst (snd (roots_path a x h o os t)) <= h)%nat.
Proof. induction os as [|o' os IH]; intros h o t; cbn [roots_path]; [done|]. case_match; cbn [fst snd]; [done|]. etrans; [apply IH|lia]. Qed.

Lemma roots_path_in a x os : forall h o t k, k ∈ fst (roots_path a x h o os t) -> total (o :: os) = S h -> (k < h)%nat.
Proof.
  induction os as [|o' os IH]; intros h o t k; cbn [roots_path]; [by intros ?%not_elem_of_nil|]. pose proof (leo_pos o) as Ho. pose proof (total_pos o' os) as Hp. cbn [total] in *.
  case_match; cbn [fst]; [by intros ?%not_elem_of_nil|]. intros [->|Hk]%elem_of_cons Ht; [lia|]. apply IH in Hk; cbn [total]; lia.
Qed.

Lemma roots_path_distinct a x os : forall h o t, total (o :: os) = S h -> NoDup (h :: fst (roots_path a x h o os t)).
Proof.
  induction os as [|o' os IH]; intros h o t Ht; [apply NoDup_singleton|]. apply list.NoDup_cons. split; [intros Hk; apply roots_path_in in Hk; [lia|done]|]. cbn [roots_path]. case_match; cbn [fst]; [apply NoDup_nil_2|]. pose proof (total_pos o' os) as Hp. apply IH. cbn [total] in *. lia.
Qed.

(** Places outside commute. *)
Lemma place_insert x ks k y a : k ∉ ks -> place x ks (<[k := y]> a) = <[k := y]> (place x ks a).
Proof.
  induction ks as [|k' ks IH]; intros Hk; [done|]. apply not_elem_of_cons in Hk as [Hne Hk]. cbn [place]. rewrite IH by done. rewrite list_insert_insert_ne by done. destruct ks as [|k2 ks]; [done|]. apply not_elem_of_cons in Hk as [Hne2 _]. by rewrite list_lookup_insert_ne.
Qed.

Lemma sift_path_ext a b x o : forall h, (leo o <= S h)%nat -> (forall k, in_tree h o k -> k <> h -> a !!! k = b !!! k) -> sift_path a x h o = sift_path b x h o.
Proof.
  induction o as [| |o IH1 IH2] using order_ind; intros h Hh E; [done..|]. rewrite !sift_path_SS. cbv zeta. pose proof (leo_pos o) as Ho. pose proof (leo_pos (S o)) as Ho'.
  assert (forall k, in_tree (h - 1) o k \/ in_tree (h - 1 - leo o) (S o) k -> a !!! k = b !!! k) as E' by (intros k Hk; apply E; [apply in_tree_SS; auto|rewrite leo_SS in Hh; unfold in_tree in Hk; lia]). rewrite leo_SS in Hh.
  rewrite !E' by (unfold in_tree; lia). rewrite (IH1 (h - 1)%nat), (IH2 (h - 1 - leo o)%nat) by (auto || lia). done.
Qed.

Lemma sifted_insert a x h o k y : (leo o <= S h)%nat -> ~ in_tree h o k -> sifted (<[k := y]> a) x h o = <[k := y]> (sifted a x h o).
Proof.
  intros Hh Hk. unfold sifted. rewrite (sift_path_ext (<[k := y]> a) a) by (done || (intros j Hj _; rewrite insert_off; [done|by intros ->])). apply place_insert. intros [->|Hin]%elem_of_cons; [apply Hk; unfold in_tree; pose proof (leo_pos o); lia|]. apply Hk. by apply sift_path_in in Hin as [? _].
Qed.

Lemma sifted_root a x h o y : (leo o <= S h)%nat -> sifted (<[h := y]> a) x h o = sifted a x h o.
Proof.
  intros Hh. pose proof (sift_path_distinct a x o h Hh) as Hnd. apply list.NoDup_cons in Hnd as [Hni _]. unfold sifted. rewrite (sift_path_ext (<[h := y]> a) a) by (done || (intros j _ Hj; by rewrite insert_off)). cbn [place]. rewrite place_insert by done. rewrite list_insert_insert_eq. destruct (sift_path a x h o) as [|k ks]; [done|]. apply not_elem_of_cons in Hni as [Hne _]. by rewrite list_lookup_insert_ne.
Qed.

Lemma roots_path_end a x os : forall h o t, total (o :: os) = S h -> (leo (snd (snd (roots_path a x h o os t))) <= S (fst (snd (roots_path a x h o os t))))%nat.
Proof. induction os as [|o' os IH]; intros h o t Ht; cbn [roots_path total] in *; [cbn [fst snd]; lia|]. case_match; cbn [fst snd]; [lia|]. pose proof (total_pos o' os). apply IH. cbn [total] in *. lia. Qed.

Lemma trinkled_stay a x h o os : total (o :: os) = S h -> os = [] \/ stays a x h o false = true -> trinkled a x h o os = sifted a x h o.
Proof.
  intros Ht Hs. unfold trinkled. assert (roots_path a x h o os false = ([], (h, o))) as -> by (destruct os as [|o' os]; [done|]; destruct Hs as [Hs|Hs]; [done|]; cbn [roots_path]; by rewrite Hs).
  cbn [fst snd place]. apply sifted_root. cbn [total] in Ht. lia.
Qed.

(** The element goes on to the next root, and the element there comes here. *)
Lemma go_on a x h o o' os (r := roots_path a x (h - leo o) o' os false) : (h < length a)%nat -> total (o :: o' :: os) = S h ->
  sifted (place x (h :: (h - leo o)%nat :: fst r) a) x (fst (snd r)) (snd (snd r)) = <[h := a !!! (h - leo o)%nat]> (trinkled a x (h - leo o) o' os).
Proof.
  intros Hl Ht. pose proof (leo_pos o) as Ho. pose proof (total_pos o' os) as Hp. assert (total (o' :: os) = S (h - leo o)) as Ht' by (cbn [total] in *; lia). unfold trinkled. rewrite place_step by lia.
  apply sifted_insert; [by apply roots_path_end|]. pose proof (roots_path_le a x os (h - leo o) o' false). cbn [total] in Ht, Hp. unfold in_tree, r. lia.
Qed.

Lemma trinkled_go a x h o o' os : (h < length a)%nat -> total (o :: o' :: os) = S h -> stays a x h o false = false -> trinkled a x h o (o' :: os) = <[h := a !!! (h - leo o)%nat]> (trinkled a x (h - leo o) o' os).
Proof. intros Hl Ht Hs. rewrite <- go_on by done. unfold trinkled. cbn [roots_path]. by rewrite Hs. Qed.

(** What [trinkle] makes of an array. *)
Record forest a (h : nat) (os : list nat) : Prop := {
  fo_total : total os = S h;
  fo_inside : (h < length a)%nat;
  fo_trees : trees a h os;
  fo_asc : asc a h os;
}.

(** The elements up to [h] changed, to [x] and others of them but the one at [h]. *)
Record reworked a x (h : nat) b : Prop := {
  rw_length : length b = length a;
  rw_above k : (h < k)%nat -> b !! k = a !! k;
  rw_bound (P : A -> Prop) : P x -> (forall k, (k < h)%nat -> P (a !!! k)) -> forall k, (k <= h)%nat -> P (b !!! k);
}.

Lemma sifted_reworked a x h o : (h < length a)%nat -> (leo o <= S h)%nat -> reworked a x h (sifted a x h o).
Proof.
  intros Hl Hh. split; [apply sifted_length|intros k Hk; apply sifted_other; [done|unfold in_tree; lia]|]. intros P Hx Ha k Hk. destruct (decide (in_tree h o k)) as [Hin|Hin].
  - apply sifted_bound; [done..| |done]. intros j Hj Hne. apply Ha. unfold in_tree in Hj. lia.
  - rewrite (lookup_total_of _ a) by (by apply sifted_other). apply Ha. unfold in_tree in Hin. pose proof (leo_pos o). lia.
Qed.

Lemma forest_tail a h o o' os : forest a h (o :: o' :: os) -> forest a (h - leo o) (o' :: os) /\ (leo o <= h)%nat.
Proof. intros [Ht Hi Hs Ha]. pose proof (total_pos o' os) as Hp. cbn [total] in *. split; [split; [cbn [total]; lia|lia|exact (proj2 Hs)|exact (proj2 Ha)]|lia]. Qed.

(** A heap at the end of a forest whose last root is not greater. *)
Lemma forest_cons a h o o' os : (leo o <= h < length a)%nat -> heap a h o -> forest a (h - leo o) (o' :: os) -> leb (a !!! (h - leo o)%nat) (a !!! h) = true -> forest a h (o :: o' :: os).
Proof. intros Hh Hhe [Ht Hi Hs Ha] Hr. split; [cbn [total] in *; lia|lia|by split|by split]. Qed.

Lemma forest_ext a b h os : length b = length a -> (forall k, (k <= h)%nat -> a !!! k = b !!! k) -> forest a h os -> forest b h os.
Proof. intros Hl E [Ht Hi Hs Ha]. split; [done|lia|eapply trees_ext; [|done..]; lia|by eapply asc_ext]. Qed.

Lemma forest_single a h o : (h < length a)%nat -> leo o = S h -> heap a h o -> forest a h [o].
Proof. intros Hl Ho Hh. split; [cbn [total]; lia|done|by split|done]. Qed.

Lemma forest_first a h o os : forest a h (o :: os) -> heap a h o /\ (leo o <= S h)%nat /\ (h < length a)%nat.
Proof. intros [Ht Hi [Hh _] _]. cbn [total] in Ht. split; [done|]. lia. Qed.

(** The forest to the left of the tree of order [o] at [h], if there is one. *)
Definition rest_forest a (h o : nat) (os : list nat) : Prop :=
  match os with [] => leo o = S h | _ => (leo o <= h)%nat /\ forest a (h - leo o) os end.

Lemma rest_total a h o os : rest_forest a h o os -> total (o :: os) = S h.
Proof. destruct os as [|o' os]; cbn [rest_forest]; [cbn [total]; lia|]. intros [Hl Hf]. destruct Hf as [Ht _ _ _]. cbn [total] in *. lia. Qed.

Lemma sifted_forest a x h o os : (h < length a)%nat -> children a h o -> rest_forest a h o os -> os = [] \/ stays a x h o false = true -> forest (sifted a x h o) h (o :: os).
Proof.
  intros Hl Hc Hr Hst. assert (leo o <= S h)%nat as Hh by (apply rest_total in Hr; cbn [total] in Hr; lia). destruct (sifted_heap x o a h Hl Hh Hc) as (Hs & Hx & Hb). destruct os as [|o' os]; [apply forest_single; [by rewrite sifted_length|done..]|].
  destruct Hr as [Hlo Hf]. assert (forall k, (k <= h - leo o)%nat -> a !!! k = sifted a x h o !!! k) as E by (intros k Hk; symmetry; apply lookup_total_of, sifted_other; [done|unfold in_tree; lia]).
  apply forest_cons; [rewrite sifted_length; lia|done|by apply (forest_ext a); [apply sifted_length|..]|]. rewrite <- E by done. destruct Hst as [Hst|Hst]; [done|]. unfold stays in Hst. apply orb_true_iff in Hst as [Hst|Hst]; [by eapply leb_trans|]. cbn [negb andb] in Hst.
  destruct o as [|[|o2]]; [done..|]. cbn [below] in Hb. destruct Hb as [Hb1 Hb2]. apply orb_true_iff in Hst as [Hst|Hst]; by eapply leb_trans.
Qed.

Lemma forest_rest a h o os : forest a h (o :: os) -> rest_forest a h o os.
Proof. intros Hf. destruct os as [|o' os]; cbn [rest_forest]; [destruct Hf as [Ht _ _ _]; cbn [total] in Ht; lia|]. apply forest_tail in Hf. tauto. Qed.

Lemma reworked_insert a x h h' b y : (h' < h < length a)%nat -> y = a !!! h' -> reworked a x h' b -> reworked a x h (<[h := y]> b).
Proof.
  intros Hh -> [Hl Hab Hbd]. split; [by rewrite length_insert|intros k Hk; rewrite list_lookup_insert_ne by lia; apply Hab; lia|]. intros P Hx Ha k Hk. destruct (decide (k = h)) as [->|Hne]; [rewrite insert_at by lia; apply Ha; lia|]. rewrite insert_off by done.
  destruct (decide (k <= h')%nat) as [Hk'|Hk']; [apply Hbd; [done| |done]; intros j Hj; apply Ha; lia|]. rewrite (lookup_total_of _ a) by (apply Hab; lia). apply Ha. lia.
Qed.

(** The root gets the next root's element, and the rest is a forest without it. *)
Lemma go_forest a x h o o' os b : (h < length a)%nat -> children a h o -> rest_forest a h o (o' :: os) -> below a h o (a !!! (h - leo o)%nat) -> leb x (a !!! (h - leo o)%nat) = true ->
  forest b (h - leo o) (o' :: os) -> reworked a x (h - leo o) b -> forest (<[h := a !!! (h - leo o)%nat]> b) h (o :: o' :: os) /\ reworked a x h (<[h := a !!! (h - leo o)%nat]> b).
Proof.
  intros Hl Hc [Hlo Hf] Hb Hx Hfb Hrw. pose proof (leo_pos o) as Ho. split; [|by apply (reworked_insert _ _ _ (h - leo o)); [lia|..]]. destruct Hrw as [Hlen Hab Hbd].
  assert (forall k, (h - leo o < k)%nat -> b !!! k = a !!! k) as E by (intros k Hk; by apply lookup_total_of, Hab). apply forest_cons; [rewrite length_insert; lia| | |].
  - apply heap_root; [lia..| |].
    + eapply children_ext; [lia| |exact Hc]. intros k Hk _. symmetry. apply E. unfold in_tree in Hk. lia.
    + destruct o as [|[|o2]]; [done..|]. pose proof (leo_pos (S o2)). cbn [below] in *. rewrite leo_SS in *. by rewrite !E by lia.
  - apply (forest_ext b); [apply length_insert|intros k Hk; rewrite insert_off; [done|lia]|done].
  - rewrite insert_at, insert_off by lia. apply (Hbd (fun y => leb y (a !!! (h - leo o)%nat) = true)); [done| |done]. intros k Hk. destruct Hf as [Ht _ Hs Ha]. eapply forest_max; [done..|lia].
Qed.

Lemma trinkled_correct x os : forall a h o, (h < length a)%nat -> children a h o -> rest_forest a h o os -> forest (trinkled a x h o os) h (o :: os) /\ reworked a x h (trinkled a x h o os).
Proof.
  induction os as [|o' os IH]; intros a h o Hl Hc Hr; pose proof (rest_total _ _ _ _ Hr) as Ht.
  - rewrite trinkled_stay by auto. split; [apply sifted_forest; auto|]. apply sifted_reworked; [done|]. cbn [total] in Ht. lia.
  - destruct (stays a x h o false) eqn:Est.
    + rewrite trinkled_stay by auto. split; [apply sifted_forest; auto|]. apply sifted_reworked; [done|]. cbn [total] in Ht. lia.
    + rewrite trinkled_go by done. pose proof Hr as [Hlo Hf]. destruct (forest_first _ _ _ _ Hf) as (Hh' & _ & Hl'). destruct (IH a (h - leo o)%nat o' Hl' (heap_children _ _ _ Hh') (forest_rest _ _ _ _ Hf)) as [Hfb Hrw].
      unfold stays in Est. apply orb_false_iff in Est as [E1 E2]. cbn [negb andb] in E2. apply go_forest; try done; [|by apply leb_total].
      destruct o as [|[|o2]]; [done..|]. apply orb_false_iff in E2 as [E2 E3]. split; by apply leb_total.
Qed.

(** When the tree is a heap already, nothing happens if the roots ascend. *)
Definition trinkled_trusty a (h o : nat) (os : list nat) : list A :=
  match os with
  | [] => a
  | o' :: os' => if leb (a !!! (h - leo o)%nat) (a !!! h) then a else <[h := a !!! (h - leo o)%nat]> (trinkled a (a !!! h) (h - leo o) o' os')
  end.

Lemma reworked_refl a h : reworked a (a !!! h) h a.
Proof. split; [done..|]. intros P Hh Ha k Hk. destruct (decide (k = h)) as [->|Hne]; [done|]. apply Ha. lia. Qed.

Lemma trinkled_trusty_correct a h o os : (h < length a)%nat -> heap a h o -> rest_forest a h o os -> forest (trinkled_trusty a h o os) h (o :: os) /\ reworked a (a !!! h) h (trinkled_trusty a h o os).
Proof.
  intros Hl Hh Hr. destruct os as [|o' os]; cbn [trinkled_trusty].
  - split; [|apply reworked_refl]. by apply forest_single.
  - destruct (leb (a !!! (h - leo o)%nat) (a !!! h)) eqn:E; pose proof Hr as [Hlo Hf].
    + split; [by apply forest_cons|apply reworked_refl].
    + destruct (forest_first _ _ _ _ Hf) as (Hh' & _ & Hl'). destruct (trinkled_correct (a !!! h) os a (h - leo o)%nat o' Hl' (heap_children _ _ _ Hh') (forest_rest _ _ _ _ Hf)) as [Hfb Hrw].
      apply leb_total in E. apply go_forest; try done; [by apply heap_children|]. destruct o as [|[|o2]]; [done..|]. rewrite heap_SS in Hh. destruct Hh as (H1 & H2 & _). split; by eapply leb_trans.
Qed.
End heap.
