(* ===== verification/QsortWords.v ===== *)
(** * The words that keep the orders

    [p] is a 64-bit number in two words; its bits are the orders of the trees,
    from the order of the last one. *)

From S2P Require Import Prelude Qsort.

Definition two (P : Z) : words := (P mod 2 ^ 32, P / 2 ^ 32).

Lemma pow_split n m : 0 <= n -> 0 <= m -> 2 ^ (n + m) = 2 ^ n * 2 ^ m.
Proof. intros. by apply Z.pow_add_r. Qed.

Lemma lor_add_low a b n : 0 <= n -> 0 <= b < 2 ^ n -> Z.lor (2 ^ n * a) b = 2 ^ n * a + b.
Proof.
  intros Hn Hb. rewrite Z.mul_comm, <- Z.shiftl_mul_pow2 by done. assert (Z.land (Z.shiftl a n) b = 0) as E.
  { apply Z.bits_inj'. intros k Hk. rewrite Z.land_spec, Z.bits_0. destruct (Z.ltb_spec k n) as [Hlt|Hge]; [by rewrite Z.shiftl_spec_low|].
    rewrite <- (Z.mod_small b (2 ^ n)) by done. rewrite Z.mod_pow2_bits_high by lia. apply andb_false_r. }
  by rewrite Z.add_nocarry_lxor, Z.lxor_lor.
Qed.

Lemma two_eq lo hi : 0 <= lo < 2 ^ 32 -> (lo, hi) = two (lo + 2 ^ 32 * hi).
Proof. intros Hlo. unfold two. rewrite (Z.mul_comm (2 ^ 32)), Z.mod_add, Z.div_add, Z.mod_small, Z.div_small by lia. done. Qed.

Lemma shift_ok_done n r m : 0 < n < 32 -> shift_ok n r m = Done r m.
Proof. intros Hn. unfold shift_ok. rewrite (proj2 (Z.ltb_lt 0 n)), (proj2 (Z.ltb_lt n 32)) by lia. done. Qed.

(** The shift to the left by less than a word. *)
Lemma shl_low P n m : 0 <= P -> 0 < n < 32 -> P * 2 ^ n < 2 ^ 64 -> 
  (u32 (Z.shiftl (fst (two P)) n), Z.lor (u32 (Z.shiftl (snd (two P)) n)) (Z.shiftr (fst (two P)) (32 - n))) = two (P * 2 ^ n) /\ shift_ok n (two (P * 2 ^ n)) m = Done (two (P * 2 ^ n)) m.
Proof.
  intros HP Hn Hlt. split; [|by apply shift_ok_done]. unfold two at 1 2 3. cbn [fst snd]. unfold u32.
  assert (0 < 2 ^ n) as Hpn by lia. assert (0 < 2 ^ (32 - n)) as Hpm by lia. assert (2 ^ 32 = 2 ^ (32 - n) * 2 ^ n) as E32 by (rewrite <- pow_split by lia; f_equal; lia).
  set (lo := P mod 2 ^ 32). set (hi := P / 2 ^ 32). assert (P = 2 ^ 32 * hi + lo) as EP by (apply Z.div_mod; lia). assert (0 <= lo < 2 ^ 32) as Hlo by (apply Z.mod_pos_bound; lia). assert (0 <= hi) as Hhi by (apply Z.div_pos; lia).
  rewrite !Z.shiftl_mul_pow2, Z.shiftr_div_pow2 by lia.
  set (c := lo / 2 ^ (32 - n)). set (d := lo mod 2 ^ (32 - n)). assert (lo = 2 ^ (32 - n) * c + d) as El by (apply Z.div_mod; lia). assert (0 <= d < 2 ^ (32 - n)) as Hd by (apply Z.mod_pos_bound; lia). assert (0 <= c < 2 ^ n) as Hc by (split; [apply Z.div_pos; lia|apply Z.div_lt_upper_bound; lia]).
  assert (2 ^ 64 = 2 ^ 32 * 2 ^ 32) as E64 by done. rewrite (Z.mod_small (hi * 2 ^ n)) by nia. rewrite (Z.mul_comm hi), lor_add_low by lia.
  replace (lo * 2 ^ n) with (d * 2 ^ n + c * 2 ^ 32) by nia. rewrite Z.mod_add, Z.mod_small by nia. rewrite two_eq by nia. f_equal. nia.
Qed.

Lemma shl_spec P n m : 0 <= P -> 0 < n < 64 -> P * 2 ^ n < 2 ^ 64 -> shl (two P) n m = Done (two (P * 2 ^ n)) m.
Proof.
  intros HP Hn Hlt. unfold shl. destruct (Z.leb_spec 32 n) as [Hh|Hh].
  - assert (2 ^ n = 2 ^ 32 * 2 ^ (n - 32)) as En by (rewrite <- pow_split by lia; f_equal; lia). assert (0 < 2 ^ (n - 32)) as Hp by lia. assert (2 ^ 64 = 2 ^ 32 * 2 ^ 32) as E64 by done. assert (P < 2 ^ 32) as HP' by nia.
    assert ((0, fst (two P)) = two (P * 2 ^ 32)) as E0 by (unfold two at 1; cbn [fst]; rewrite Z.mod_small by lia; rewrite two_eq by lia; f_equal; lia). rewrite E0. cbn [andb]. destruct (Z.eqb_spec (n - 32) 0) as [Ez|Ez].
    + replace n with 32 by lia. done.
    + destruct (shl_low (P * 2 ^ 32) (n - 32) m ltac:(lia) ltac:(lia) ltac:(nia)) as [E1 E2]. rewrite E1, E2. do 2 f_equal. nia.
  - cbn [andb]. destruct (shl_low P n m ltac:(lia) ltac:(lia) Hlt) as [E1 E2]. by rewrite E1.
Qed.

(** The shift to the right by less than a word. *)
Lemma shr_low P n : 0 <= P -> 0 < n < 32 ->
  (Z.lor (Z.shiftr (fst (two P)) n) (u32 (Z.shiftl (snd (two P)) (32 - n))), Z.shiftr (snd (two P)) n) = two (P / 2 ^ n).
Proof.
  intros HP Hn. unfold two at 1 2 3. cbn [fst snd]. unfold u32.
  assert (0 < 2 ^ n) as Hpn by lia. assert (0 < 2 ^ (32 - n)) as Hpm by lia. assert (2 ^ 32 = 2 ^ (32 - n) * 2 ^ n) as E32 by (rewrite <- pow_split by lia; f_equal; lia).
  set (lo := P mod 2 ^ 32). set (hi := P / 2 ^ 32). assert (P = 2 ^ 32 * hi + lo) as EP by (apply Z.div_mod; lia). assert (0 <= lo < 2 ^ 32) as Hlo by (apply Z.mod_pos_bound; lia). assert (0 <= hi) as Hhi by (apply Z.div_pos; lia).
  rewrite !Z.shiftl_mul_pow2, !Z.shiftr_div_pow2 by lia.
  set (c := hi / 2 ^ n). set (d := hi mod 2 ^ n). assert (hi = 2 ^ n * c + d) as El by (apply Z.div_mod; lia). assert (0 <= d < 2 ^ n) as Hd by (apply Z.mod_pos_bound; lia).
  set (e := lo / 2 ^ n). assert (0 <= e < 2 ^ (32 - n)) as He by (split; [apply Z.div_pos; lia|apply Z.div_lt_upper_bound; lia]).
  replace (hi * 2 ^ (32 - n)) with (d * 2 ^ (32 - n) + c * 2 ^ 32) by nia. rewrite Z.mod_add, Z.mod_small by nia. rewrite Z.lor_comm, (Z.mul_comm d), lor_add_low by lia. rewrite two_eq by nia. f_equal.
  rewrite EP. replace (2 ^ 32 * hi + lo) with (lo + 2 ^ (32 - n) * hi * 2 ^ n) by nia. rewrite Z.div_add by lia. fold e. nia.
Qed.

Lemma shr_spec P n m : 0 <= P < 2 ^ 64 -> 0 < n < 64 -> shr (two P) n m = Done (two (P / 2 ^ n)) m.
Proof.
  intros HP Hn. unfold shr. destruct (Z.leb_spec 32 n) as [Hh|Hh].
  - assert (2 ^ n = 2 ^ 32 * 2 ^ (n - 32)) as En by (rewrite <- pow_split by lia; f_equal; lia). assert (2 ^ 64 = 2 ^ 32 * 2 ^ 32) as E64 by done. assert (0 <= P / 2 ^ 32 < 2 ^ 32) as HP' by (split; [apply Z.div_pos; lia|apply Z.div_lt_upper_bound; lia]).
    assert ((snd (two P), 0) = two (P / 2 ^ 32)) as E0 by (unfold two at 1; cbn [snd]; rewrite two_eq by lia; f_equal; lia). rewrite E0. cbn [andb]. assert (P / 2 ^ n = P / 2 ^ 32 / 2 ^ (n - 32)) as -> by (rewrite En, Z.div_div by lia; done). destruct (Z.eqb_spec (n - 32) 0) as [Ez|Ez].
    + rewrite Ez, Z.pow_0_r, Z.div_1_r. done.
    + rewrite shr_low, shift_ok_done by lia. done.
  - cbn [andb]. rewrite shr_low, shift_ok_done by lia. done.
Qed.

Lemma ntz_from_spec x t n : forall i, (forall j, i <= j < t -> Z.testbit x j = false) -> Z.testbit x t = true -> i <= t < i + Z.of_nat n -> ntz_from n x i = t.
Proof.
  induction n as [|n IH]; intros i Hz Ht Hi; [lia|]. cbn [ntz_from]. destruct (decide (i = t)) as [->|Hne]; [by rewrite Ht|]. rewrite Hz by lia. apply IH; [intros j Hj; apply Hz; lia|done|lia].
Qed.

Lemma odd_shifted_bits t Q j : 0 <= t -> Z.odd Q = true -> Z.testbit (2 ^ t * Q) t = true /\ (j < t -> Z.testbit (2 ^ t * Q) j = false).
Proof. intros Ht HQ. rewrite Z.mul_comm. split; [rewrite Z.mul_pow2_bits by lia; by rewrite Z.sub_diag, Z.bit0_odd|intros Hj; by apply Z.mul_pow2_bits_low]. Qed.

Lemma pntz_spec t Q : 0 < t < 64 -> Z.odd Q = true -> 0 <= 2 ^ t * Q -> 1 + 2 ^ t * Q < 2 ^ 64 -> pntz (two (1 + 2 ^ t * Q)) = t.
Proof.
  intros Ht HQ H0 Hlt. unfold pntz, two, ntz. cbn [fst snd]. assert (0 < 2 ^ t) as Hp by lia. destruct (Z.ltb_spec t 32) as [Hs|Hs].
  - assert (2 ^ 32 = 2 * (2 ^ (t - 1) * 2 ^ (32 - t))) as E32 by (rewrite <- pow_split by lia; replace 32 with (1 + (t - 1 + (32 - t))) at 1 by lia; rewrite (pow_split 1) by lia; done).
    assert (2 ^ t = 2 * 2 ^ (t - 1)) as Et by (rewrite <- (pow_split 1) by lia; f_equal; lia).
    set (X := 2 ^ t * Q) in *. assert (forall j, 0 <= j < 32 -> Z.testbit (X mod 2 ^ 32) j = Z.testbit X j) as Eb by (intros j Hj; by rewrite Z.mod_pow2_bits_low by lia).
    assert ((1 + X) mod 2 ^ 32 = 1 + X mod 2 ^ 32) as E1.
    { pose proof (Z.div_mod X (2 ^ 32) ltac:(lia)) as EX. pose proof (Z.mod_pos_bound X (2 ^ 32) ltac:(lia)) as HX. symmetry. apply (Z.mod_unique_pos _ _ (X / 2 ^ 32)); [|lia]. assert (X mod 2 ^ 32 <> 2 ^ 32 - 1); [|lia]. intros E. pose proof (Eb 0 ltac:(lia)) as E0. rewrite E in E0. unfold X in E0. rewrite (proj2 (odd_shifted_bits t Q 0 ltac:(lia) HQ)) in E0 by lia. done. }
    assert (X mod 2 ^ 32 <> 0) as Hnz by (intros E; pose proof (Eb t ltac:(lia)) as E0; rewrite E, Z.bits_0 in E0; unfold X in E0; by rewrite (proj1 (odd_shifted_bits t Q 0 ltac:(lia) HQ)) in E0).
    rewrite E1, (proj2 (Z.eqb_neq _ _)) by lia. cbn [negb]. replace (u32 (1 + X mod 2 ^ 32 - 1)) with (X mod 2 ^ 32) by (unfold u32; replace (1 + X mod 2 ^ 32 - 1) with (X mod 2 ^ 32) by lia; by rewrite Z.mod_mod).
    apply ntz_from_spec; [intros j Hj; rewrite Eb by lia; apply odd_shifted_bits; (done || lia)|rewrite Eb by lia; apply (odd_shifted_bits t Q 0); (done || lia)|lia].
  - assert (2 ^ t = 2 ^ 32 * 2 ^ (t - 32)) as Et by (rewrite <- pow_split by lia; f_equal; lia). replace (1 + 2 ^ t * Q) with (1 + (2 ^ (t - 32) * Q) * 2 ^ 32) in * by nia. rewrite Z.mod_add, Z.div_add by lia. rewrite (Z.mod_small 1), (Z.div_small 1) by lia. cbn [negb Z.eqb Pos.eqb]. rewrite Z.add_0_l.
    pose proof (odd_shifted_bits (t - 32) Q) as Hb. rewrite (proj2 (Z.eqb_neq _ _)) by (intros E; pose proof (proj1 (Hb 0 ltac:(lia) HQ)) as Hbt; by rewrite E, Z.bits_0 in Hbt). cbn [negb]. rewrite (ntz_from_spec _ (t - 32)); [lia|intros j Hj; apply Hb; (done || lia)|apply (Hb 0); (done || lia)|lia].
Qed.

(** ** Orders as bits *)

(** The number that stands for the orders [o :: os]. *)
Fixpoint code (o : nat) (os : list nat) : Z :=
  match os with [] => 1 | o' :: os' => 1 + 2 ^ (Z.of_nat o' - Z.of_nat o) * code o' os' end.

(** The orders grow and none is above 43. *)
Fixpoint rising (o : nat) (os : list nat) : Prop :=
  match os with [] => (o <= 43)%nat | o' :: os' => (o < o')%nat /\ rising o' os' end.

Lemma rising_le o os : rising o os -> (o <= 43)%nat.
Proof. revert o. induction os as [|o' os IH]; intros o Ho; [done|]. destruct Ho as [Hlt Ho]. apply IH in Ho. lia. Qed.

Lemma code_bound o os : rising o os -> 1 <= code o os < 2 ^ (44 - Z.of_nat o).
Proof.
  revert o. induction os as [|o' os IH]; intros o Ho; cbn [code].
  - cbn [rising] in Ho. assert (2 ^ 1 <= 2 ^ (44 - Z.of_nat o)) by (apply Z.pow_le_mono_r; lia). lia.
  - destruct Ho as [Hlt Ho]. pose proof (rising_le _ _ Ho) as Hle. specialize (IH o' Ho). assert (2 ^ (44 - Z.of_nat o) = 2 ^ (Z.of_nat o' - Z.of_nat o) * 2 ^ (44 - Z.of_nat o')) as E by (rewrite <- pow_split by lia; f_equal; lia). assert (2 ^ 1 <= 2 ^ (Z.of_nat o' - Z.of_nat o)) by (apply Z.pow_le_mono_r; lia). rewrite E. nia.
Qed.

Lemma code_lt_word o os : rising o os -> 1 <= code o os < 2 ^ 44.
Proof. intros Ho. pose proof (code_bound o os Ho) as Hb. assert (2 ^ (44 - Z.of_nat o) <= 2 ^ 44) by (apply Z.pow_le_mono_r; lia). lia. Qed.

Lemma pow_even n : 0 < n -> exists k, 2 ^ n = 2 * k.
Proof. intros Hn. exists (2 ^ (n - 1)). rewrite <- (pow_split 1) by lia. f_equal. lia. Qed.

Lemma code_odd o os : rising o os -> Z.odd (code o os) = true.
Proof. destruct os as [|o' os]; intros Ho; cbn [code]; [done|]. destruct Ho as [Hlt _]. destruct (pow_even (Z.of_nat o' - Z.of_nat o) ltac:(lia)) as [k ->]. rewrite <- Z.mul_assoc. by rewrite Z.add_comm, Z.add_1_r, Z.odd_succ, Z.even_mul. Qed.

Lemma pntz_code o o' os : rising o (o' :: os) -> pntz (two (code o (o' :: os))) = Z.of_nat o' - Z.of_nat o.
Proof.
  intros Ho. pose proof (code_lt_word _ _ Ho) as Hb. destruct Ho as [Hlt Ho]. pose proof (rising_le _ _ Ho). pose proof (code_lt_word _ _ Ho) as Hb'. cbn [code] in *. apply pntz_spec; [lia|by apply code_odd|lia|lia].
Qed.

(** A tree taken off. *)
Lemma shr_code o o' os m : rising o (o' :: os) -> shr (two (code o (o' :: os))) (Z.of_nat o' - Z.of_nat o) m = Done (two (code o' os)) m.
Proof.
  intros Ho. pose proof (code_lt_word _ _ Ho) as Hb. destruct Ho as [Hlt Ho]. pose proof (rising_le _ _ Ho). rewrite shr_spec by lia. do 2 f_equal. cbn [code]. destruct (pow_even (Z.of_nat o' - Z.of_nat o) ltac:(lia)) as [k Ek]. rewrite Z.mul_comm, Z.div_add by lia. rewrite Z.div_small by lia. lia.
Qed.

Lemma is_one_code o os : rising o os -> is_one (two (code o os)) = match os with [] => true | _ => false end.
Proof.
  intros Ho. pose proof (code_lt_word _ _ Ho) as Hb. unfold is_one, two. cbn [fst snd]. destruct os as [|o' os]; [done|]. destruct (Z.eqb_spec (code o (o' :: os) / 2 ^ 32) 0) as [Ez|Ez]; [|apply andb_false_r].
  rewrite andb_true_r. apply Z.eqb_neq. pose proof (Z.div_mod (code o (o' :: os)) (2 ^ 32) ltac:(lia)) as E. rewrite Ez in E. destruct Ho as [Hlt Ho]. pose proof (code_lt_word _ _ Ho). cbn [code] in *. assert (0 < 2 ^ (Z.of_nat o' - Z.of_nat o)) by lia. nia.
Qed.

(** Setting the lowest bit. *)
Lemma two_or_1 P : Z.even P = true -> (Z.lor (fst (two P)) 1, snd (two P)) = two (P + 1).
Proof.
  intros He. unfold two. cbn [fst snd]. apply Z.even_spec in He as [k ->]. pose proof (Z.div_mod k (2 ^ 31) ltac:(lia)) as Ek. pose proof (Z.mod_pos_bound k (2 ^ 31) ltac:(lia)) as Hm. set (q := k / 2 ^ 31) in *. set (r := k mod 2 ^ 31) in *. change (2 ^ 32) with (2 * 2 ^ 31).
  assert ((2 * k) mod (2 * 2 ^ 31) = 2 * r) as -> by (symmetry; apply (Z.mod_unique_pos _ _ q); lia). assert ((2 * k) / (2 * 2 ^ 31) = q) as -> by (symmetry; apply (Z.div_unique_pos _ _ _ (2 * r)); lia).
  assert ((2 * k + 1) mod (2 * 2 ^ 31) = 2 * r + 1) as -> by (symmetry; apply (Z.mod_unique_pos _ _ q); lia). assert ((2 * k + 1) / (2 * 2 ^ 31) = q) as -> by (symmetry; apply (Z.div_unique_pos _ _ _ (2 * r + 1)); lia).
  f_equal. apply (lor_add_low r 1 1); lia.
Qed.

(** The three lowest bits of four times an odd number flipped. *)
Lemma two_xor_7 C : Z.odd C = true -> (Z.lxor (fst (two (C * 2 ^ 2))) 7, snd (two (C * 2 ^ 2))) = two (C * 4 - 1).
Proof.
  intros Ho. unfold two. cbn [fst snd]. apply Z.odd_spec in Ho as [k ->]. pose proof (Z.div_mod k (2 ^ 29) ltac:(lia)) as Ek. pose proof (Z.mod_pos_bound k (2 ^ 29) ltac:(lia)) as Hm. set (q := k / 2 ^ 29) in *. set (r := k mod 2 ^ 29) in *. change (2 ^ 32) with (8 * 2 ^ 29). change (2 ^ 2) with 4.
  assert (((2 * k + 1) * 4) mod (8 * 2 ^ 29) = 2 ^ 3 * r + 4) as -> by (symmetry; apply (Z.mod_unique_pos _ _ q); lia). assert (((2 * k + 1) * 4) / (8 * 2 ^ 29) = q) as -> by (symmetry; apply (Z.div_unique_pos _ _ _ (8 * r + 4)); lia).
  assert (((2 * k + 1) * 4 - 1) mod (8 * 2 ^ 29) = 2 ^ 3 * r + 3) as -> by (symmetry; apply (Z.mod_unique_pos _ _ q); lia). assert (((2 * k + 1) * 4 - 1) / (8 * 2 ^ 29) = q) as -> by (symmetry; apply (Z.div_unique_pos _ _ _ (8 * r + 3)); lia).
  f_equal. rewrite <- (lor_add_low r 4 3), <- (lor_add_low r 3 3) by lia. apply Z.bits_inj'. intros i Hi. rewrite Z.lxor_spec, !Z.lor_spec. destruct (Z.ltb_spec i 3) as [Hlt|Hge].
  - rewrite (Z.mul_comm (2 ^ 3)), Z.mul_pow2_bits_low by lia. assert (i = 0 \/ i = 1 \/ i = 2) as [->|[->| ->]] by lia; done.
  - assert (forall c, 0 <= c < 2 ^ 3 -> Z.testbit c i = false) as Eh by (intros c Hc; rewrite <- (Z.mod_small c (2 ^ 3)) by done; apply Z.mod_pow2_bits_high; lia). rewrite (Eh 4), (Eh 7), (Eh 3) by lia. by rewrite orb_false_r, xorb_false_r.
Qed.

Lemma low_bits_code o os : rising o os -> (Z.land (fst (two (code o os))) 3 =? 3) = match os with o' :: _ => (o' =? S o)%nat | [] => false end.
Proof.
  intros Ho. unfold two. cbn [fst]. change 3 with (Z.ones 2) at 1. rewrite Z.land_ones by lia. rewrite <- Znumtheory.Zmod_div_mod by (try lia; by exists (2 ^ 30)). destruct os as [|o' os]; [done|]. destruct Ho as [Hlt Ho]. pose proof (code_odd _ _ Ho) as Hodd. apply Z.odd_spec in Hodd as [k Ek]. cbn [code]. rewrite Ek. destruct (Nat.eqb_spec o' (S o)) as [->|Hne].
  - replace (Z.of_nat (S o) - Z.of_nat o) with 1 by lia. apply Z.eqb_eq. symmetry. apply (Z.mod_unique_pos _ _ k); lia.
  - apply Z.eqb_neq. replace (Z.of_nat o' - Z.of_nat o) with (2 + (Z.of_nat o' - Z.of_nat o - 2)) by lia. rewrite pow_split by lia. set (e := 2 ^ (Z.of_nat o' - Z.of_nat o - 2)). rewrite <- (Z.mod_unique_pos _ (2 ^ 2) (e * (2 * k + 1)) 1); lia.
Qed.

(** ** The changes the sort makes *)

Lemma even_double k : Z.even (2 * k) = true.
Proof. by rewrite Z.even_mul. Qed.

(** The last two trees and an element become one tree. *)
Lemma merge_code o os m : rising o (S o :: os) -> match os with [] => True | v :: _ => (S (S (S o)) <= v)%nat end ->
  exists P, shr (two (code o (S o :: os))) 2 m = Done (two P) m /\ (Z.lor (fst (two P)) 1, snd (two P)) = two (code (S (S o)) os).
Proof.
  intros Ho Hv. pose proof (code_lt_word _ _ Ho) as Hb. rewrite shr_spec by lia. eexists. split; [done|]. cbn [code]. replace (Z.of_nat (S o) - Z.of_nat o) with 1 by lia. destruct os as [|v os]; cbn [code]; [done|].
  set (C := code v os). replace (Z.of_nat v - Z.of_nat (S o)) with (2 + (Z.of_nat v - Z.of_nat o - 3)) by lia. replace (Z.of_nat v - Z.of_nat (S (S o))) with (1 + (Z.of_nat v - Z.of_nat o - 3)) by lia. rewrite !pow_split by lia. set (e := 2 ^ (Z.of_nat v - Z.of_nat o - 3)).
  assert ((1 + 2 ^ 1 * (1 + 2 ^ 2 * e * C)) / 2 ^ 2 = 2 * (e * C)) as -> by (symmetry; apply (Z.div_unique_pos _ _ _ 3); lia). rewrite two_or_1 by apply even_double. f_equal. lia.
Qed.

(** An element becomes a tree of order [o'] after one of order [o]. *)
Lemma push_code o o' os m : rising o os -> (o' < o)%nat ->
  exists P, shl (two (code o os)) (Z.of_nat o - Z.of_nat o') m = Done (two P) m /\ (Z.lor (fst (two P)) 1, snd (two P)) = two (code o' (o :: os)).
Proof.
  intros Ho Hlt. pose proof (code_bound _ _ Ho) as Hb. pose proof (rising_le _ _ Ho) as Hle. pose proof (pow_split (Z.of_nat o - Z.of_nat o') (44 - Z.of_nat o) ltac:(lia) ltac:(lia)) as E. assert (2 ^ (Z.of_nat o - Z.of_nat o' + (44 - Z.of_nat o)) <= 2 ^ 44) by (apply Z.pow_le_mono_r; lia).
  rewrite shl_spec by nia. eexists. split; [done|]. destruct (pow_even (Z.of_nat o - Z.of_nat o') ltac:(lia)) as [k Ek]. cbn [code]. rewrite Ek. replace (code o os * (2 * k)) with (2 * (code o os * k)) by lia. rewrite two_or_1 by apply even_double. f_equal. lia.
Qed.

(** The last tree loses its root and leaves its left subtree. *)
Lemma split_code o os m : rising (S (S o)) os -> 
  exists P, shl (two (code (S (S o)) os)) 2 m = Done (two P) m /\ shr (Z.lxor (fst (two P)) 7, snd (two P)) 1 m = Done (two (code (S o) os)) m.
Proof.
  intros Ho. pose proof (code_lt_word _ _ Ho) as Hb. rewrite shl_spec by lia. eexists. split; [done|]. rewrite two_xor_7 by (by apply code_odd). rewrite shr_spec by lia. do 2 f_equal. destruct os as [|v os]; cbn [code]; [done|]. destruct Ho as [Hlt Ho].
  replace (Z.of_nat v - Z.of_nat (S o)) with (1 + (Z.of_nat v - Z.of_nat (S (S o)))) by lia. rewrite pow_split by lia. symmetry. apply (Z.div_unique_pos _ _ _ 1); lia.
Qed.
