(* ===== verification/QsortSift.v ===== *)
(** * Sifting in memory

    [sift] and [trinkle] on the memory of an array do what the functions of the
    same purpose on plain arrays do. *)

From S2P Require Import Prelude Qsort QsortArray QsortHeap QsortWords.

Section sift.
Context (W : nat) (W_pos : (0 < W)%nat) (cmp : list Z -> list Z -> Z).
Context (cmp_sign : forall x y, Z.sgn (cmp x y) = - Z.sgn (cmp y x)).
Context (cmp_trans : forall x y z, cmp x y <= 0 -> cmp y z <= 0 -> cmp x z <= 0).
Implicit Types a : list (list Z).

Definition cmp_le (x y : list Z) : bool := cmp x y <=? 0.

Lemma cmp_le_total x y : cmp_le x y = false -> cmp_le y x = true.
Proof using cmp_sign. clear W_pos. unfold cmp_le. rewrite Z.leb_gt, Z.leb_le. specialize (cmp_sign x y). lia. Qed.

Lemma cmp_le_trans x y z : cmp_le x y = true -> cmp_le y z = true -> cmp_le x z = true.
Proof using cmp_trans. unfold cmp_le. rewrite !Z.leb_le. apply cmp_trans. Qed.

Lemma cmp_ge x y : (0 <=? cmp x y) = cmp_le y x.
Proof. unfold cmp_le. specialize (cmp_sign x y). apply eq_true_iff_eq. rewrite !Z.leb_le. lia. Qed.

Abbreviation at_ k := (ptr W k 0).

(** The table of sizes, as far as an array of [n] elements needs it. *)
Definition table (n : nat) (lp : list Z) : Prop := forall i, (leo i <= n)%nat -> lp !! i = Some (Z.of_nat (W * leo i)).

Lemma get_lp_spec n lp i m : table n lp -> (leo i <= n)%nat -> get_lp lp (Z.of_nat i) m = Done (Z.of_nat (W * leo i)) m.
Proof. intros Hlp Hi. unfold get_lp. rewrite (proj2 (Z.ltb_ge _ _)) by lia. by rewrite Nat2Z.id, (Hlp i Hi). Qed.

Lemma at_sub h k : (k <= h)%nat -> at_ h - Z.of_nat (W * k) = at_ (h - k).
Proof. unfold ptr. nia. Qed.
Lemma at_pred h : (1 <= h)%nat -> at_ h - Z.of_nat W = at_ (h - 1).
Proof. unfold ptr. nia. Qed.

Lemma compare_at a i j : uniform W a -> (i < length a)%nat -> (j < length a)%nat -> compare (Z.of_nat W) cmp (at_ i) (at_ j) (concat a) = Done (cmp (a !!! i) (a !!! j)) (concat a).
Proof. intros Ha Hi Hj. apply compare_spec; [done..| |]; by apply list_lookup_lookup_total_lt. Qed.

(** The working array: the places so far, then the rest of its 64 entries. *)
Definition entries (ks : list nat) (rest : list Z) : list Z := map (fun k => at_ k) ks ++ rest.

Lemma set_ar_entries ks k rest : (length ks < 64)%nat -> length (entries ks rest) = 64%nat -> exists rest', set_ar (entries ks rest) (Z.of_nat (length ks)) (at_ k) = entries (ks ++ [k]) rest' /\ length (entries (ks ++ [k]) rest') = 64%nat.
Proof.
  intros Hk Hl. unfold entries in *. rewrite length_app, length_map in Hl. destruct rest as [|r rest]; [cbn in Hl; lia|]. exists rest. unfold set_ar, AR_MASK, AR_LEN. change (64 - 1) with (Z.ones 6). rewrite Z.land_ones, Z.mod_small by lia. rewrite Nat2Z.id, insert_app_r_alt by (rewrite length_map; lia). rewrite length_map, Nat.sub_diag. cbn [insert list_insert].
  rewrite map_app, <- (assoc_L (++)). split; [done|]. rewrite !length_app, length_map. cbn in *. lia.
Qed.

Lemma entries_first k ks rest : entries (k :: ks) rest !! 0%nat = Some (at_ k).
Proof. done. Qed.

Lemma sift_loop_spec n lp a x k0 : uniform W a -> length a = n -> table n lp -> a !! k0 = Some x -> forall fuel o h ks rest, (o <= fuel)%nat -> (leo o <= S h)%nat -> (h < n)%nat -> (S (length ks) + o < 64)%nat -> length (entries (k0 :: ks) rest) = 64%nat ->
  exists rest', sift_loop (Z.of_nat W) cmp fuel (at_ h) (Z.of_nat o) lp (Z.of_nat (S (length ks))) (entries (k0 :: ks) rest) (concat a) =
    Done (Z.of_nat (S (length (ks ++ sift_path cmp_le a x h o))), entries (k0 :: ks ++ sift_path cmp_le a x h o) rest') (concat a).
Proof.
  intros Ha Hn Hlp Hk0 fuel. pose proof (lookup_lt_Some _ _ _ Hk0) as Hlk. pose proof (list_lookup_total_correct _ _ _ Hk0) as Ex. induction fuel as [|fuel IH]; intros o h ks rest Hf Hh Hhn Hlen Har.
  { destruct o as [|o]; [|lia]. exists rest. cbn. by rewrite app_nil_r. }
  cbn [sift_loop]. destruct o as [|[|o]]; [exists rest; cbn; by rewrite app_nil_r..|]. rewrite (proj2 (Z.leb_gt (Z.of_nat (S (S o))) 1)) by lia. replace (Z.of_nat (S (S o)) - 2) with (Z.of_nat o) by lia. replace (Z.of_nat (S (S o)) - 1) with (Z.of_nat (S o)) by lia.
  rewrite leo_SS in Hh. pose proof (leo_pos o) as Ho. pose proof (leo_pos (S o)) as Ho'. rewrite (bind_done _ _ _ _ _ (get_lp_spec n lp o _ Hlp ltac:(lia))). rewrite (at_pred h), at_sub by lia. cbv zeta.
  assert (deref (entries (k0 :: ks) rest !! 0%nat) (concat a) = Done (at_ k0) (concat a)) as Hd by done. rewrite (bind_done _ _ _ _ _ Hd). clear Hd. set (rt := (h - 1)%nat). set (lf := (rt - leo o)%nat).
  rewrite (bind_done _ _ _ _ _ (compare_at a k0 lf Ha Hlk ltac:(unfold lf, rt; lia))), Ex, cmp_ge. rewrite sift_path_SS. cbv zeta. fold rt lf.
  assert ((if cmp_le (a !!! lf) x then c ← compare (Z.of_nat W) cmp (at_ k0) (at_ rt); mret (0 <=? c) else mret false) (concat a) = Done (cmp_le (a !!! lf) x && cmp_le (a !!! rt) x) (concat a)) as Hs.
  { destruct (cmp_le (a !!! lf) x); [|done]. rewrite (bind_done _ _ _ _ _ (compare_at a k0 rt Ha Hlk ltac:(unfold rt; lia))), Ex, cmp_ge. done. }
  rewrite (bind_done _ _ _ _ _ Hs). destruct (cmp_le (a !!! lf) x && cmp_le (a !!! rt) x); [exists rest; by rewrite app_nil_r|].
  rewrite (bind_done _ _ _ _ _ (compare_at a lf rt Ha ltac:(unfold lf, rt; lia) ltac:(unfold rt; lia))), cmp_ge.
  assert (forall k u, (u <= fuel)%nat -> (u <= S o)%nat -> (leo u <= S k)%nat -> (k < n)%nat -> exists rest', sift_loop (Z.of_nat W) cmp fuel (at_ k) (Z.of_nat u) lp (Z.of_nat (S (length ks)) + 1) (set_ar (entries (k0 :: ks) rest) (Z.of_nat (S (length ks))) (at_ k)) (concat a) =
      Done (Z.of_nat (S (length (ks ++ k :: sift_path cmp_le a x k u))), entries (k0 :: ks ++ k :: sift_path cmp_le a x k u) rest') (concat a)) as Hgo.
  { intros k u Hu Huo Hlu Hkn. destruct (set_ar_entries (k0 :: ks) k rest ltac:(cbn [length]; lia) Har) as (rest1 & E1 & Hl1). cbn [length app] in E1, Hl1. rewrite E1. destruct (IH u k (ks ++ [k]) rest1 Hu Hlu Hkn ltac:(rewrite length_app; cbn [length]; lia) Hl1) as (rest' & E'). exists rest'. rewrite <- (assoc_L (++)) in E'. cbn [app] in E'. rewrite <- E'. f_equal. rewrite length_app. cbn [length]. lia. }
  destruct (cmp_le (a !!! rt) (a !!! lf)); apply Hgo; unfold lf, rt; lia.
Qed.

Lemma mask_small i : (i < 64)%nat -> Z.land (Z.of_nat i) AR_MASK = Z.of_nat i.
Proof. intros Hi. unfold AR_MASK, AR_LEN. change (64 - 1) with (Z.ones 6). rewrite Z.land_ones by lia. apply Z.mod_small. lia. Qed.

Lemma sift_path_length a x o : forall h, (length (sift_path cmp_le a x h o) <= o)%nat.
Proof. induction o as [| |o IH1 IH2] using order_ind; intros h; [cbn; lia..|]. rewrite sift_path_SS. cbv zeta. specialize (IH1 (h - 1)%nat). specialize (IH2 (h - 1 - leo o)%nat). repeat case_match; cbn [length]; lia. Qed.

Lemma sift_spec n lp a h o : uniform W a -> length a = n -> table n lp -> (h < n)%nat -> (leo o <= S h)%nat -> (o <= 43)%nat ->
  sift (Z.of_nat W) cmp (at_ h) (Z.of_nat o) lp (concat a) = Done tt (concat (sifted cmp_le a (a !!! h) h o)).
Proof.
  intros Ha Hn Hlp Hh Ho Hb. assert (a !! h = Some (a !!! h)) as Hx by (apply list_lookup_lookup_total_lt; lia). unfold sift. rewrite Nat2Z.id. destruct (sift_loop_spec n lp a (a !!! h) h Ha Hn Hlp Hx o o h [] (replicate 63 0) ltac:(lia) Ho Hh ltac:(cbn [length]; lia) eq_refl) as (rest & E).
  rewrite (bind_done _ _ _ _ _ E). cbn [fst snd app]. pose proof (sift_path_length a (a !!! h) o h). rewrite mask_small by lia. unfold entries, sifted. apply cycle_rotates; [done| |done]. split; [by apply sift_path_distinct| |done|eauto]. intros k [->|Hk]%elem_of_cons; [lia|]. apply sift_path_in in Hk as [Hk _]; [|done]. unfold in_tree in Hk. lia.
Qed.

(** ** Through the roots *)

(** The second test of the loop of [trinkle]. *)
Lemma check_children n lp a h o trusty : uniform W a -> length a = n -> table n lp -> (h < n)%nat -> (leo o <= h)%nat ->
  (if negb trusty && (1 <? Z.of_nat o) then
     size ← get_lp lp (Z.of_nat o - 2);
     let rt := at_ h - Z.of_nat W in
     let lf := at_ h - Z.of_nat W - size in
     c ← compare (Z.of_nat W) cmp rt (at_ (h - leo o));
     if 0 <=? c then mret true else c ← compare (Z.of_nat W) cmp lf (at_ (h - leo o)); mret (0 <=? c)
   else mret false) (concat a) =
  Done (negb trusty && match o with S (S o2) => cmp_le (a !!! (h - leo o)%nat) (a !!! (h - 1)%nat) || cmp_le (a !!! (h - leo o)%nat) (a !!! (h - 1 - leo o2)%nat) | _ => false end) (concat a).
Proof.
  intros Ha Hn Hlp Hh Ho. destruct trusty; [done|]. cbn [negb andb]. destruct o as [|[|o]]; [done..|]. rewrite (proj2 (Z.ltb_lt 1 (Z.of_nat (S (S o))))) by lia. replace (Z.of_nat (S (S o)) - 2) with (Z.of_nat o) by lia. pose proof (leo_pos (S o)). pose proof (leo_SS o) as Hss.
  rewrite (bind_done _ _ _ _ _ (get_lp_spec n lp o _ Hlp ltac:(lia))). cbv zeta. rewrite (at_pred h), at_sub by lia. rewrite (bind_done _ _ _ _ _ (compare_at a (h - 1) (h - leo (S (S o))) Ha ltac:(lia) ltac:(lia))), cmp_ge.
  destruct (cmp_le _ (a !!! (h - 1)%nat)); [done|]. rewrite (bind_done _ _ _ _ _ (compare_at a (h - 1 - leo o) (h - leo (S (S o))) Ha ltac:(lia) ltac:(lia))), cmp_ge. done.
Qed.

Definition still (trusty : bool) (path : list nat) : bool := match path with [] => trusty | _ => false end.

Lemma trinkle_loop_spec n lp a x k0 : uniform W a -> length a = n -> table n lp -> a !! k0 = Some x -> forall os fuel o h trusty ks rest, (length os <= fuel)%nat -> rising o os -> total (o :: os) = S h -> (h < n)%nat -> (S (length ks) + length os < 64)%nat -> length (entries (k0 :: ks) rest) = 64%nat ->
  let r := roots_path cmp_le a x h o os trusty in
  exists rest', trinkle_loop (Z.of_nat W) cmp fuel (at_ h) (two (code o os)) (Z.of_nat o) trusty lp (Z.of_nat (S (length ks))) (entries (k0 :: ks) rest) (concat a) =
    Done (at_ (fst (snd r)), Z.of_nat (snd (snd r)), still trusty (fst r), Z.of_nat (S (length (ks ++ fst r))), entries (k0 :: ks ++ fst r) rest') (concat a).
Proof.
  intros Ha Hn Hlp Hk0 os. pose proof (lookup_lt_Some _ _ _ Hk0) as Hlk. pose proof (list_lookup_total_correct _ _ _ Hk0) as Ex. induction os as [|o' os IH]; intros fuel o h trusty ks rest Hf Hri Ht Hh Hlen Har r.
  { exists rest. assert (trinkle_loop (Z.of_nat W) cmp fuel (at_ h) (two (code o [])) (Z.of_nat o) trusty lp (Z.of_nat (S (length ks))) (entries (k0 :: ks) rest) = mret (at_ h, Z.of_nat o, trusty, Z.of_nat (S (length ks)), entries (k0 :: ks) rest)) as -> by (destruct fuel; done). unfold r. cbn [roots_path fst snd]. by rewrite app_nil_r. }
  destruct fuel as [|fuel]; [cbn in Hf; lia|]. cbn [trinkle_loop]. rewrite is_one_code by done. pose proof (total_pos o' os) as Hp. cbn [length] in Hf, Hlen. assert (leo o <= h)%nat as Hlo by (cbn [total] in *; lia). pose proof (leo_pos o) as Ho.
  rewrite (bind_done _ _ _ _ _ (get_lp_spec n lp o _ Hlp ltac:(lia))). rewrite at_sub by lia. cbv zeta. assert (deref (entries (k0 :: ks) rest !! 0%nat) (concat a) = Done (at_ k0) (concat a)) as Hd by done. rewrite (bind_done _ _ _ _ _ Hd). clear Hd.
  rewrite (bind_done _ _ _ _ _ (compare_at a (h - leo o)%nat k0 Ha ltac:(lia) Hlk)), Ex. change (cmp (a !!! (h - leo o)%nat) x <=? 0) with (cmp_le (a !!! (h - leo o)%nat) x). unfold r. cbn [roots_path]. pose proof (eq_refl (stays cmp_le a x h o trusty)) as Es. unfold stays in Es at 2. cbv zeta in Es.
  destruct (cmp_le (a !!! (h - leo o)%nat) x); [rewrite Es; exists rest; cbn [orb fst snd]; by rewrite app_nil_r|]. cbn [orb] in Es. rewrite (bind_done _ _ _ _ _ (check_children n lp a h o trusty Ha Hn Hlp Hh Hlo)).
  rewrite <- Es. destruct (stays cmp_le a x h o trusty); [exists rest; cbn [fst snd]; by rewrite app_nil_r|]. cbv zeta. rewrite pntz_code, (bind_done _ _ _ _ _ (shr_code _ _ _ _ Hri)) by done. cbn [fst snd still].
  destruct (set_ar_entries (k0 :: ks) (h - leo o) rest ltac:(cbn [length]; lia) Har) as (rest1 & E1 & Hl1). cbn [length app] in E1, Hl1. rewrite E1. destruct Hri as [Hlt Hri].
  destruct (IH fuel o' (h - leo o)%nat false (ks ++ [(h - leo o)%nat]) rest1 ltac:(lia) Hri ltac:(cbn [total] in *; lia) ltac:(lia) ltac:(rewrite length_app; cbn [length]; lia) Hl1) as (rest' & E'). exists rest'. rewrite <- (assoc_L (++)) in E'. cbn [app] in E'.
  replace (Z.of_nat o + (Z.of_nat o' - Z.of_nat o)) with (Z.of_nat o') by lia. replace (Z.of_nat (S (length ks)) + 1) with (Z.of_nat (S (length (ks ++ [(h - leo o)%nat])))) by (rewrite length_app; cbn [length]; lia).
  assert (forall path, still false path = false) as Est by (by intros []). rewrite Est in E'. exact E'.
Qed.

Lemma rising_length o os : rising o os -> (length os <= 43 - o)%nat.
Proof. revert o. induction os as [|o' os IH]; intros o Ho; cbn [length]; [lia|]. destruct Ho as [Hlt Ho]. pose proof (rising_le _ _ Ho). specialize (IH _ Ho). lia. Qed.

Lemma roots_path_length a x os : forall h o t, (length (fst (roots_path cmp_le a x h o os t)) <= length os)%nat.
Proof. induction os as [|o' os IH]; intros h o t; cbn [roots_path]; [done|]. case_match; cbn [fst length]; [lia|]. specialize (IH (h - leo o)%nat o' false). lia. Qed.

Lemma roots_path_order a x os : forall h o t, rising o os -> (snd (snd (roots_path cmp_le a x h o os t)) <= 43)%nat.
Proof. induction os as [|o' os IH]; intros h o t Ho; cbn [roots_path]; [by apply rising_le in Ho|]. case_match; cbn [snd]; [by apply rising_le in Ho|]. destruct Ho as [_ Ho]. by apply IH. Qed.

Lemma trinkle_route a os h o t : uniform W a -> (h < length a)%nat -> total (o :: os) = S h -> route W (h :: fst (roots_path cmp_le a (a !!! h) h o os t)) (a !!! h) a.
Proof.
  intros Ha Hh Ht. split; [by apply roots_path_distinct| |done|]. 
  - intros k [->|Hk]%elem_of_cons; [done|]. apply roots_path_in in Hk; [lia|done].
  - eexists _, _. split; [done|]. by apply list_lookup_lookup_total_lt.
Qed.

Lemma sifted_uniform a ks x : route W ks x a -> uniform W (place x ks a).
Proof.
  intros Hr. pose proof (route_x _ _ _ _ Hr) as Hx. destruct Hr as [Hnd Hin Ha _]. apply Forall_lookup. intros k y Hy. destruct (decide (k ∈ ks)) as [Hk|Hk]; [|rewrite place_other in Hy by done; by apply (Forall_lookup_1 _ _ _ _ Ha Hy)].
  destruct (list_elem_of_lookup_1 _ _ Hk) as [i Hi]. rewrite (place_next _ _ _ _ _ Hnd Hi (Hin _ Hk)) in Hy. injection Hy as <-. by apply next_length.
Qed.

(** The element at the last place of a route is [x]. *)
Lemma roots_path_last a x os : forall h o t, total (o :: os) = S h -> (h < length a)%nat -> place x (h :: fst (roots_path cmp_le a x h o os t)) a !!! (fst (snd (roots_path cmp_le a x h o os t))) = x.
Proof.
  induction os as [|o' os IH]; intros h o t Ht Hh; cbn [roots_path]; [cbn [fst snd place]; by apply insert_at|]. case_match; cbn [fst snd]; [by apply insert_at|]. pose proof (leo_pos o) as Ho. pose proof (total_pos o' os) as Hp. cbn [total] in Ht, Hp.
  rewrite place_step by lia. pose proof (roots_path_le cmp_le a x os (h - leo o) o' false) as Hle. rewrite insert_off by lia. apply IH; cbn [total]; lia.
Qed.

(** [trinkle] when the element moves. *)
Lemma trinkle_moves n lp a h o os t (r := roots_path cmp_le a (a !!! h) h o os t) : uniform W a -> length a = n -> table n lp -> (h < n)%nat -> rising o os -> total (o :: os) = S h -> still t (fst r) = false ->
  trinkle (Z.of_nat W) cmp (at_ h) (two (code o os)) (Z.of_nat o) t lp (concat a) = Done tt (concat (sifted cmp_le (place (a !!! h) (h :: fst r) a) (a !!! h) (fst (snd r)) (snd (snd r)))).
Proof.
  intros Ha Hn Hlp Hh Hri Ht Hst. assert (a !! h = Some (a !!! h)) as Hx by (apply list_lookup_lookup_total_lt; lia). pose proof (rising_length _ _ Hri) as Hlen. unfold trinkle.
  destruct (trinkle_loop_spec n lp a (a !!! h) h Ha Hn Hlp Hx os 64 o h t [] (replicate 63 0) ltac:(lia) Hri Ht Hh ltac:(cbn [length]; lia) eq_refl) as (rest & E). rewrite (bind_done _ _ _ _ _ E). fold r. cbn [app]. rewrite Hst.
  pose proof (roots_path_length a (a !!! h) os h o t) as Hrl. fold r in Hrl. rewrite mask_small by lia. pose proof (trinkle_route a os h o t Ha ltac:(lia) Ht) as Hr. pose proof (roots_path_le cmp_le a (a !!! h) os h o t). fold r in Hr.
  rewrite (bind_done _ _ _ _ _ (cycle_rotates W W_pos _ _ a rest _ Hr eq_refl)). erewrite (sift_spec n); [unfold r; rewrite roots_path_last by (done || lia); done|by apply sifted_uniform|by rewrite place_length|done|unfold r; lia|by apply roots_path_end|by apply roots_path_order].
Qed.

(** On a tree that may not be a heap. *)
Lemma trinkle_spec n lp a h o os : uniform W a -> length a = n -> table n lp -> (h < n)%nat -> rising o os -> total (o :: os) = S h ->
  trinkle (Z.of_nat W) cmp (at_ h) (two (code o os)) (Z.of_nat o) false lp (concat a) = Done tt (concat (trinkled cmp_le a (a !!! h) h o os)).
Proof. intros. apply (trinkle_moves n); try done. by destruct (fst _). Qed.

(** On a heap. *)
Lemma trinkle_trusty_spec n lp a h o os : uniform W a -> length a = n -> table n lp -> (h < n)%nat -> rising o os -> total (o :: os) = S h ->
  trinkle (Z.of_nat W) cmp (at_ h) (two (code o os)) (Z.of_nat o) true lp (concat a) = Done tt (concat (trinkled_trusty cmp_le a h o os)).
Proof.
  intros Ha Hn Hlp Hh Hri Ht. assert (a !! h = Some (a !!! h)) as Hx by (apply list_lookup_lookup_total_lt; lia). pose proof (rising_length _ _ Hri) as Hlen.
  destruct os as [|o' os]; cbn [trinkled_trusty]; [done|]. assert (stays cmp_le a (a !!! h) h o true = cmp_le (a !!! (h - leo o)%nat) (a !!! h)) as Es by (unfold stays; by rewrite orb_false_r). destruct (cmp_le (a !!! (h - leo o)%nat) (a !!! h)).
  - unfold trinkle. destruct (trinkle_loop_spec n lp a (a !!! h) h Ha Hn Hlp Hx (o' :: os) 64 o h true [] (replicate 63 0) ltac:(lia) Hri Ht Hh ltac:(cbn [length] in *; lia) eq_refl) as (rest & E). rewrite (bind_done _ _ _ _ _ E). cbn [roots_path]. by rewrite Es.
  - rewrite <- go_on by (done || lia). rewrite (trinkle_moves n); try done; cbn [roots_path]; by rewrite Es.
Qed.
End sift.
