(* ===== verification/QsortProps.v ===== *)
(** * The sort sorts

    [__qsort_r] builds a forest of heaps whose roots ascend and takes the
    greatest element off it until one is left; [bsearch] finds an element of a
    sorted array. *)

From Stdlib Require Import Sorted.
From S2P Require Import Prelude Qsort QsortArray QsortHeap QsortWords QsortSift.

(** ** Sizes *)

Fixpoint leo_pair (n : nat) : Z * Z := match n with O => (1, 1) | S n' => let '(x, y) := leo_pair n' in (y, x + y + 1) end.

Lemma leo_pair_spec n : leo_pair n = (Z.of_nat (leo n), Z.of_nat (leo (S n))).
Proof. induction n as [|n IH]; [done|]. cbn [leo_pair]. rewrite IH, leo_SS. f_equal. lia. Qed.

Lemma leo_fast n : Z.of_nat (leo n) = fst (leo_pair n).
Proof. by rewrite leo_pair_spec. Qed.

Lemma leo_44 : 2 ^ 31 < Z.of_nat (leo 44).
Proof. rewrite leo_fast. by vm_compute. Qed.

Lemma order_bound o n : Z.of_nat n < 2 ^ 31 -> (leo o <= n)%nat -> (o <= 43)%nat.
Proof. intros Hn Ho. destruct (decide (o <= 43)%nat) as [Hle|Hgt]; [done|]. pose proof leo_44. pose proof (leo_le 44 o ltac:(lia)). lia. Qed.

(** ** The orders of the trees *)

Fixpoint gaps (o : nat) (os : list nat) : Prop :=
  match os with [] => True | o' :: os' => (S (S o) <= o')%nat /\ gaps o' os' end.

(** The orders from the last tree: only the last two may be neighbours, and an
    order of 0 comes with one of 1. *)
Definition shape (os : list nat) : Prop :=
  match os with
  | [] => False
  | o :: os' => match os' with [] => (1 <= o)%nat | u :: r => (o < u)%nat /\ (o = 0%nat -> u = 1%nat) /\ gaps u r end
  end.

Lemma gaps_rising n os : forall o, Z.of_nat n < 2 ^ 31 -> gaps o os -> (total (o :: os) <= n)%nat -> rising o os.
Proof.
  induction os as [|o' os IH]; intros o Hn Hg Ht; cbn [rising total] in *; [eapply order_bound; [done|lia]|]. destruct Hg as [Hlt Hg]. split; [lia|]. apply IH; [done..|]. cbn [total]. lia.
Qed.

Lemma shape_rising n o os : Z.of_nat n < 2 ^ 31 -> shape (o :: os) -> (total (o :: os) <= n)%nat -> rising o os.
Proof.
  intros Hn Hs Ht. destruct os as [|u r]; [apply (gaps_rising n); done|]. destruct Hs as (Hlt & _ & Hg). split; [done|]. apply (gaps_rising n); [done..|]. cbn [total] in *. lia.
Qed.

Lemma shape_merge o os : shape (o :: S o :: os) -> shape (S (S o) :: os).
Proof. intros (_ & _ & Hg). destruct os as [|v r]; cbn [shape]; [lia|]. destruct Hg as [Hv Hg]. split; [lia|]. split; [lia|done]. Qed.

(** The tree is not merged with the one before it. *)
Definition apart (o : nat) (os : list nat) : Prop := (1 <= o)%nat /\ match os with [] => True | u :: _ => (S (S o) <= u)%nat end.

Lemma shape_apart o os : shape (o :: os) -> match os with u :: _ => (u =? S o)%nat | [] => false end = false -> apart o os.
Proof. intros Hs Hu. destruct os as [|u r]; cbn [shape apart] in *; [done|]. apply Nat.eqb_neq in Hu. destruct Hs as (Hlt & H0 & Hg). split; [destruct o; [lia|lia]|lia]. Qed.

Lemma apart_gaps o os : shape (o :: os) -> apart o os -> gaps o os.
Proof. intros Hs [_ Hu]. destruct os as [|u r]; [done|]. by destruct Hs as (_ & _ & Hg). Qed.

Lemma shape_split o os : shape (S (S o) :: os) -> shape (o :: S o :: os).
Proof. intros Hs. cbn [shape]. split; [lia|]. split; [lia|]. destruct os as [|u r]; [done|]. destruct Hs as (Hlt & _ & Hg). by split; [lia|]. Qed.

Lemma shape_tail o u r : shape (o :: u :: r) -> shape (u :: r).
Proof. intros (Hlt & _ & Hg). destruct r as [|v r]; cbn [shape]; [lia|]. destruct Hg as [Hv Hg]. split; [lia|]. split; [lia|done]. Qed.

Section sort.
Context (W : nat) (W_pos : (0 < W)%nat) (cmp : list Z -> list Z -> Z).
Context (cmp_sign : forall x y, Z.sgn (cmp x y) = - Z.sgn (cmp y x)).
Context (cmp_trans : forall x y z, cmp x y <= 0 -> cmp y z <= 0 -> cmp x z <= 0).
Context (n : nat) (n_bound : Z.of_nat W * Z.of_nat n < 2 ^ 31).
Implicit Types a b : list (list Z).

Abbreviation at_ k := (ptr W k 0).
Abbreviation le := (cmp_le cmp).
Abbreviation width := (Z.of_nat W).

Lemma n_small : Z.of_nat n < 2 ^ 31.
Proof. nia. Qed.

(** An array of the same elements. *)
Record array a0 a : Prop := {
  ar_uniform : uniform W a;
  ar_length : length a = n;
  ar_same : a ≡ₚ a0;
}.

Lemma place_array a0 a ks x : array a0 a -> route W ks x a -> array a0 (place x ks a).
Proof.
  intros [Hu Hl Hp] Hr. split; [by apply sifted_uniform|by rewrite place_length|]. destruct Hr as [Hnd Hin _ (k & ks' & -> & Hk)]. rewrite <- Hp. apply (Permutation_cons_inv (a := x)). by apply place_Permutation.
Qed.

Lemma sift_route a h o x : uniform W a -> (h < length a)%nat -> (leo o <= S h)%nat -> a !!! h = x -> route W (h :: sift_path le a x h o) x a.
Proof.
  intros Ha Hh Ho Hx. split; [by apply sift_path_distinct| |done|].
  - intros k [->|Hk]%elem_of_cons; [done|]. apply sift_path_in in Hk as [Hk _]; [|done]. unfold in_tree in Hk. lia.
  - eexists _, _. split; [done|]. rewrite <- Hx. by apply list_lookup_lookup_total_lt.
Qed.

Lemma sift_run lp a0 a h o : array a0 a -> table W n lp -> (h < n)%nat -> (leo o <= S h)%nat -> children le a h o ->
  exists b, sift width cmp (at_ h) (Z.of_nat o) lp (concat a) = Done tt (concat b) /\ array a0 b /\ heap le b h o /\ (forall k, ~ in_tree h o k -> a !!! k = b !!! k).
Proof.
  intros Ha Hlp Hh Ho Hc. pose proof Ha as [Hu Hl _]. pose proof n_small. eexists. split; [apply (sift_spec W W_pos cmp cmp_sign n); try done; eapply order_bound; [done|lia]|]. split; [apply place_array; [done|]; apply sift_route; (done || lia)|].
  split; [apply sifted_heap; try done; [by apply cmp_le_total|by apply cmp_le_trans|lia]|]. intros k Hk. symmetry. by apply lookup_total_of, sifted_other.
Qed.

(** The array [trinkle] leaves when the element moves. *)
Lemma moves_array a0 a h o os t (r := roots_path le a (a !!! h) h o os t) : array a0 a -> (h < n)%nat -> total (o :: os) = S h ->
  array a0 (sifted le (place (a !!! h) (h :: fst r) a) (a !!! h) (fst (snd r)) (snd (snd r))).
Proof.
  intros Ha Hh Ht. pose proof Ha as [Hu Hl _]. assert (array a0 (place (a !!! h) (h :: fst r) a)) as Hb by (apply place_array; [done|]; apply trinkle_route; (done || lia)). pose proof (roots_path_le le a (a !!! h) os h o t) as Hle. apply place_array; [done|]. destruct Hb as [Hu' Hl' _]. apply sift_route; [done|rewrite Hl'; unfold r; lia|by apply roots_path_end|]. apply (roots_path_last W W_pos); (done || lia).
Qed.

Lemma trinkle_run lp a0 a h o os : array a0 a -> table W n lp -> (h < n)%nat -> shape (o :: os) -> children le a h o -> rest_forest le a h o os ->
  exists b, trinkle width cmp (at_ h) (two (code o os)) (Z.of_nat o) false lp (concat a) = Done tt (concat b) /\ array a0 b /\ forest le b h (o :: os).
Proof.
  intros Ha Hlp Hh Hs Hc Hr. pose proof Ha as [Hu Hl _]. pose proof (rest_total _ _ _ _ _ Hr) as Ht. eexists. split; [apply (trinkle_spec W W_pos cmp cmp_sign n); try done; apply (shape_rising n); [apply n_small|done|lia]|]. split; [by apply moves_array|].
  apply trinkled_correct; try done; [by apply cmp_le_total|by apply cmp_le_trans|lia].
Qed.

Lemma trusty_array a0 a h o os : array a0 a -> (h < n)%nat -> total (o :: os) = S h -> array a0 (trinkled_trusty le a h o os).
Proof.
  intros Ha Hh Ht. pose proof Ha as [_ Hl _]. destruct os as [|o' os]; cbn [trinkled_trusty]; [done|]. pose proof (eq_refl (stays le a (a !!! h) h o true)) as Es. unfold stays in Es at 2. cbn [negb andb] in Es. rewrite orb_false_r in Es. destruct (le _ _); [done|].
  rewrite <- go_on by (done || lia). pose proof (moves_array a0 a h o (o' :: os) true Ha Hh Ht) as Hm. cbn [roots_path] in Hm. by rewrite Es in Hm.
Qed.

Lemma trusty_run lp a0 a h o os : array a0 a -> table W n lp -> (h < n)%nat -> shape (o :: os) -> heap le a h o -> rest_forest le a h o os ->
  exists b, trinkle width cmp (at_ h) (two (code o os)) (Z.of_nat o) true lp (concat a) = Done tt (concat b) /\ array a0 b /\ forest le b h (o :: os) /\ reworked a (a !!! h) h b.
Proof.
  intros Ha Hlp Hh Hs Hc Hr. pose proof Ha as [Hu Hl _]. pose proof (rest_total _ _ _ _ _ Hr) as Ht. eexists. split; [apply (trinkle_trusty_spec W W_pos cmp cmp_sign n); try done; apply (shape_rising n); [apply n_small|done|lia]|]. split; [by apply trusty_array|].
  apply trinkled_trusty_correct; try done; [by apply cmp_le_total|by apply cmp_le_trans|lia].
Qed.

(** ** Building the forest *)

(** The roots ascend, but for trees that will still be part of a greater one:
    there are more elements to come than the tree beside it takes. *)
Fixpoint settled a (h : nat) (os : list nat) : Prop :=
  match os with
  | [] => True
  | o :: os' => asc le a h os \/ (leo (o - 1) < n - 1 - h)%nat /\ settled a (h - leo o) os'
  end.

Lemma settled_tail a h o os : settled a h (o :: os) -> settled a (h - leo o) os.
Proof. cbn [settled asc]. intros [Ha|[_ Hs]]; [|done]. destruct os as [|u r]; [done|]. left. apply Ha. Qed.

Lemma settled_ext a b os : forall h, (forall k, (k <= h)%nat -> a !!! k = b !!! k) -> settled a h os -> settled b h os.
Proof. induction os as [|o os IH]; intros h E; [done|]. cbn [settled]. intros [Ha|[Hl Hs]]; [left; by eapply asc_ext|right]. split; [done|]. apply IH; [intros k Hk; apply E; lia|done]. Qed.

(** The elements before the tree that is being finished. *)
Record before a (h o : nat) (os : list nat) : Prop := {
  bf_total : total (o :: os) = S h;
  bf_shape : shape (o :: os);
  bf_children : children le a h o;
  bf_trees : trees le a (h - leo o) os;
  bf_settled : settled a (h - leo o) os;
}.

Lemma before_leo a h o os : before a h o os -> (leo o <= S h)%nat /\ match os with [] => True | _ => (leo o <= h)%nat end.
Proof. intros [Ht _ _ _ _]. cbn [total] in Ht. split; [lia|]. destruct os as [|u r]; [done|]. pose proof (total_pos u r). lia. Qed.

(** Where no tree to the left is waiting, the roots there ascend. *)
Lemma before_rest a h o os : (h < n)%nat -> length a = n -> before a h o os -> match os with u :: _ => (n - 1 - (h - leo o) <= leo (u - 1))%nat | [] => True end -> rest_forest le a h o os.
Proof.
  intros Hh Hl Hb Hn. pose proof (before_leo _ _ _ _ Hb) as [_ Hlo]. destruct Hb as [Ht _ _ Htr Hs]. destruct os as [|u r]; cbn [rest_forest total] in *; [lia|]. split; [done|]. split; [cbn [total]; lia|lia|done|]. destruct Hs as [Hs|[Hs _]]; [done|lia].
Qed.

(** The trees after [sift] has made the last one a heap. *)
Lemma before_sifted a b h o os : before a h o os -> heap le b h o -> (forall k, ~ in_tree h o k -> a !!! k = b !!! k) -> trees le b h (o :: os) /\ settled b (h - leo o) os.
Proof.
  intros Hb Hh E. pose proof (before_leo _ _ _ _ Hb) as [_ Hlo]. destruct Hb as [Ht _ _ Htr Hs]. destruct os as [|u r]; [done|]. pose proof (total_pos u r) as Hp. pose proof (leo_pos o). assert (forall k, (k <= h - leo o)%nat -> a !!! k = b !!! k) as E' by (intros k Hk; apply E; unfold in_tree; lia). cbn [total] in Ht.
  split; [split; [done|]; eapply trees_ext; [|done..]; cbn [total]; lia|by eapply settled_ext].
Qed.

(** The last two trees and the next element. *)
Lemma before_merge a h o os : (h < n)%nat -> trees le a h (o :: S o :: os) -> settled a (h - leo o) (S o :: os) -> total (o :: S o :: os) = S h -> shape (o :: S o :: os) -> before a (S h) (S (S o)) os.
Proof.
  intros Hh (Hc1 & Hc2 & Htr) Hs Ht Hsh. apply settled_tail in Hs. pose proof (leo_SS o) as Hss. assert (S h - leo (S (S o)) = h - leo o - leo (S o))%nat as E by lia. cbn [total] in Ht. split; [cbn [total]; lia|by apply shape_merge|cbn [children]; replace (S h - 1)%nat with h by lia; done|by rewrite E|by rewrite E].
Qed.

(** The next element on its own. *)
Lemma before_push a h o o' os : trees le a h (o :: os) -> settled a h (o :: os) -> total (o :: os) = S h -> shape (o' :: o :: os) -> (o' <= 1)%nat -> before a (S h) o' (o :: os).
Proof.
  intros Htr Hs Ht Hsh Ho. assert (leo o' = 1%nat) as E by (destruct o' as [|[|o']]; (done || lia)). replace h with (S h - leo o')%nat in Htr, Hs by lia. split; [change (leo o' + total (o :: os) = S (S h))%nat; lia|done|destruct o' as [|[|o']]; (done || lia)|done|done].
Qed.

Lemma rest_waits o os h : apart o os -> total (o :: os) = S h -> (n - 1 - h <= leo (o - 1))%nat -> match os with u :: _ => (n - 1 - (h - leo o) <= leo (u - 1))%nat | [] => True end.
Proof.
  intros [Ho Hu] Ht Hn. destruct os as [|u r]; [done|]. pose proof (leo_le (S o) (u - 1) ltac:(lia)) as Hle. destruct o as [|o]; [lia|]. replace (S o - 1)%nat with o in Hn by lia. rewrite leo_SS in Hle. cbn [total] in Ht. pose proof (leo_pos u). lia.
Qed.

Context (lp : list Z) (lp_table : table W n lp) (a0 : list (list Z)).

(** The words and the array after a turn of the loop that builds the forest. *)
Definition turned (h : nat) (r : words * Z) b : Prop :=
  exists o os, (Z.lor (fst (fst r)) 1, snd (fst r)) = two (code o os) /\ snd r = Z.of_nat o /\ before b (S h) o os /\ array a0 b.

Lemma turn_merge a h o os : array a0 a -> (h < n)%nat -> before a h o (S o :: os) ->
  exists r b, (sift width cmp (at_ h) (Z.of_nat o) lp ;; p ← shr (two (code o (S o :: os))) 2; mret (p, Z.of_nat o + 2)) (concat a) = Done r (concat b) /\ turned h r b.
Proof.
  intros Ha Hh Hb. pose proof Hb as [Ht Hs Hc _ _]. destruct (sift_run lp a0 a h o Ha lp_table Hh (proj1 (before_leo _ _ _ _ Hb)) Hc) as (b & Hrun & Hab & Hhe & E). destruct (before_sifted _ _ _ _ _ Hb Hhe E) as [Htr Hse].
  assert (rising o (S o :: os)) as Hri by (apply (shape_rising n); [apply n_small|done|lia]). destruct (merge_code o os (concat b) Hri) as (P & HP & Eor); [destruct Hs as (_ & _ & Hg); destruct os; [done|apply Hg]|].
  rewrite (bind_done _ _ _ _ _ Hrun), (bind_done _ _ _ _ _ HP). eexists _, b. split; [done|]. exists (S (S o)), os. split; [done|]. split; [cbn [snd]; lia|]. split; [by apply before_merge|done].
Qed.

(** The last tree, finished as a heap or put in order with the others. *)
Lemma turn_finish a h o os : array a0 a -> (S h < n)%nat -> before a h o os -> apart o os ->
  exists b, (if at_ (n - 1) - at_ h <=? Z.of_nat (W * leo (o - 1)) then trinkle width cmp (at_ h) (two (code o os)) (Z.of_nat o) false lp else sift width cmp (at_ h) (Z.of_nat o) lp) (concat a) = Done tt (concat b) /\ array a0 b /\ trees le b h (o :: os) /\ settled b h (o :: os).
Proof.
  intros Ha Hh Hb Hap. pose proof (before_leo _ _ _ _ Hb) as [Hlo _]. pose proof Hap as [Ho _]. pose proof Hb as [Ht Hs Hc _ _].
  destruct (Z.leb_spec (at_ (n - 1) - at_ h) (Z.of_nat (W * leo (o - 1)))) as [Hc1|Hc1].
  - assert (n - 1 - h <= leo (o - 1))%nat as Hn by (unfold ptr in Hc1; nia). pose proof (before_rest a h o os ltac:(lia) (ar_length _ _ Ha) Hb (rest_waits o os h Hap Ht Hn)) as Hr.
    destruct (trinkle_run lp a0 a h o os Ha lp_table ltac:(lia) Hs Hc Hr) as (b & Hrun & Hab & [_ _ Htr Has]). exists b. split; [done|]. split; [done|]. split; [done|]. by left.
  - assert (leo (o - 1) < n - 1 - h)%nat as Hn by (unfold ptr in Hc1; nia). destruct (sift_run lp a0 a h o Ha lp_table ltac:(lia) Hlo Hc) as (b & Hrun & Hab & Hhe & E). destruct (before_sifted _ _ _ _ _ Hb Hhe E) as [Htr Hse]. exists b. split; [done|]. split; [done|]. split; [done|]. by right.
Qed.

Lemma turn_push a h o os : array a0 a -> (S h < n)%nat -> before a h o os -> apart o os ->
  exists r b, (size ← get_lp lp (Z.of_nat o - 1);
          (if at_ (n - 1) - at_ h <=? size then trinkle width cmp (at_ h) (two (code o os)) (Z.of_nat o) false lp else sift width cmp (at_ h) (Z.of_nat o) lp) ;;
          if Z.of_nat o =? 1 then p ← shl (two (code o os)) 1; mret (p, 0) else p ← shl (two (code o os)) (Z.of_nat o - 1); mret (p, 1)) (concat a) = Done r (concat b) /\ turned h r b.
Proof.
  intros Ha Hh Hb Hap. destruct (turn_finish a h o os Ha Hh Hb Hap) as (b & Hrun & Hab & Htr & Hse). pose proof Hb as [Ht Hs _ _ _]. assert (rising o os) as Hri by (apply (shape_rising n); [apply n_small|done|lia]). pose proof (apart_gaps _ _ Hs Hap) as Hg. destruct Hap as [Ho _].
  assert (forall o', (o' <= 1)%nat -> (o' < o)%nat -> (o' = 0%nat -> o = 1%nat) -> exists r b', (p ← shl (two (code o os)) (Z.of_nat o - Z.of_nat o'); mret (p, Z.of_nat o')) (concat b) = Done r (concat b') /\ turned h r b') as Hpush.
  { intros o' H1 Hlt H0. destruct (push_code o o' os (concat b) Hri Hlt) as (P & HP & Eor). rewrite (bind_done _ _ _ _ _ HP). eexists _, b. split; [done|]. exists o', (o :: os). split; [done|]. split; [done|]. split; [|done]. by apply before_push. }
  pose proof (before_leo _ _ _ _ Hb) as [Hlo _]. pose proof (leo_le (o - 1) o ltac:(lia)) as Hle. pose proof (get_lp_spec W W_pos n lp (o - 1) (concat a) lp_table ltac:(lia)) as Hg'. replace (Z.of_nat (o - 1)) with (Z.of_nat o - 1) in Hg' by lia. rewrite (bind_done _ _ _ _ _ Hg'), (bind_done _ _ _ _ _ Hrun).
  destruct (Z.eqb_spec (Z.of_nat o) 1) as [E1|E1].
  - specialize (Hpush 0%nat ltac:(lia) ltac:(lia) ltac:(lia)). by replace (Z.of_nat o - Z.of_nat 0) with 1 in Hpush by lia.
  - apply (Hpush 1%nat); lia.
Qed.

Lemma build_run fuel : forall a h o os, array a0 a -> (h < n)%nat -> (n - 1 - h <= fuel)%nat -> before a h o os ->
  exists b o' os', build width cmp fuel (at_ h) (at_ (n - 1)) (two (code o os)) (Z.of_nat o) lp (concat a) = Done (two (code o' os'), Z.of_nat o') (concat b) /\ array a0 b /\ before b (n - 1) o' os'.
Proof.
  induction fuel as [|fuel IH]; intros a h o os Ha Hh Hf Hb; cbn [build].
  - replace h with (n - 1)%nat in * by lia. rewrite Z.leb_refl. by exists a, o, os.
  - destruct (decide (h = n - 1)%nat) as [->|Hne]; [rewrite Z.leb_refl; by exists a, o, os|]. rewrite (proj2 (Z.leb_gt _ _)) by (unfold ptr; nia). pose proof Hb as [Ht Hs _ _ _]. assert (rising o os) as Hri by (apply (shape_rising n); [apply n_small|done|lia]). rewrite low_bits_code by done.
    assert (at_ h + width = at_ (S h)) as -> by (unfold ptr; lia).
    assert (forall r b, turned h r b -> exists b' o' os', build width cmp fuel (at_ (S h)) (at_ (n - 1)) (Z.lor (fst (fst r)) 1, snd (fst r)) (snd r) lp (concat b) = Done (two (code o' os'), Z.of_nat o') (concat b') /\ array a0 b' /\ before b' (n - 1) o' os') as Hnext.
    { intros r b (o1 & os1 & E & Eo & Hb1 & Hab). rewrite E, Eo. apply IH; (done || lia). }
    destruct (match os with o' :: _ => (o' =? S o)%nat | [] => false end) eqn:Em.
    + destruct os as [|u r]; [done|]. apply Nat.eqb_eq in Em as ->. destruct (turn_merge a h o r Ha Hh Hb) as (res & b & Hrun & Hturn). rewrite (bind_done _ _ _ _ _ Hrun). by apply Hnext.
    + destruct (turn_push a h o os Ha ltac:(lia) Hb (shape_apart _ _ Hs Em)) as (res & b & Hrun & Hturn). rewrite (bind_done _ _ _ _ _ Hrun). by apply Hnext.
Qed.

(** ** Taking the elements off *)

(** The elements after [h] are in order and not less than those up to [h]. *)
Definition sorted_from a (h : nat) : Prop := forall i j, (i <= j)%nat -> (h < j < n)%nat -> le (a !!! i) (a !!! j) = true.

Lemma sorted_pred a h os : length a = n -> forest le a h os -> sorted_from a h -> forall i j, (i <= j)%nat -> (h <= j < n)%nat -> le (a !!! i) (a !!! j) = true.
Proof.
  intros Hl [Ht Hi Hs Ha] Hso i j Hij Hj. destruct (decide (j = h)) as [->|Hne]; [|apply Hso; lia]. eapply forest_max; try done; [by apply cmp_le_total|by apply cmp_le_trans].
Qed.

(** Reworking the elements before [h] keeps the order from [h] on. *)
Lemma reworked_sorted a b h m : (m < h)%nat -> reworked a (a !!! m) m b -> (forall i j, (i <= j)%nat -> (h <= j < n)%nat -> le (a !!! i) (a !!! j) = true) -> forall i j, (i <= j)%nat -> (h <= j < n)%nat -> le (b !!! i) (b !!! j) = true.
Proof.
  intros Hm [_ Hab Hbd] Hso i j Hij Hj. rewrite (lookup_total_of b a j) by (apply Hab; lia). destruct (decide (i <= m)%nat) as [Hi|Hi]; [|rewrite (lookup_total_of b a i) by (apply Hab; lia); by apply Hso].
  apply (Hbd (fun y => le y (a !!! j) = true)); [apply Hso; lia| |done]. intros k Hk. apply Hso; lia.
Qed.

(** The greatest element of a tree goes, and its subtrees become trees. *)
Lemma split_run a h o os : array a0 a -> (h < n)%nat -> shape (S (S o) :: os) -> forest le a h (S (S o) :: os) -> sorted_from a h ->
  exists r b, (p ← shl (two (code (S (S o)) os)) 2;
          let pshift := Z.of_nat (S (S o)) - 2 in
          p ← shr (Z.lxor (fst p) 7, snd p) 1;
          size ← get_lp lp pshift;
          trinkle width cmp (at_ h - size - width) p (pshift + 1) true lp ;;
          p ← shl p 1;
          let p := (Z.lor (fst p) 1, snd p) in
          trinkle width cmp (at_ h - width) p pshift true lp ;;
          mret (p, pshift)) (concat a) = Done r (concat b) /\ r = (two (code o (S o :: os)), Z.of_nat o) /\ array a0 b /\ forest le b (h - 1) (o :: S o :: os) /\ sorted_from b (h - 1).
Proof.
  intros Ha Hh Hs Hf Hso. pose proof Ha as [Hu Hl _]. pose proof (sorted_pred a h _ Hl Hf Hso) as Hso'. pose proof (shape_split _ _ Hs) as Hs1. pose proof (shape_tail _ _ _ Hs1) as Hs2. pose proof (forest_rest _ _ _ _ _ Hf) as Hr. pose proof Hf as [Ht _ _ _]. pose proof (forest_first _ _ _ _ _ Hf) as (Hhe & Hlo & _). rewrite heap_SS in Hhe. destruct Hhe as (_ & _ & Hrt & Hlf).
  pose proof (leo_SS o) as Hss. pose proof (leo_pos o) as Ho. pose proof (leo_pos (S o)) as Ho'. destruct (split_code o os (concat a) ltac:(apply (shape_rising n); [apply n_small|done|lia])) as (P & HP & HP'). rewrite (bind_done _ _ _ _ _ HP). cbv zeta. rewrite (bind_done _ _ _ _ _ HP').
  replace (Z.of_nat (S (S o)) - 2) with (Z.of_nat o) by lia. rewrite (bind_done _ _ _ _ _ (get_lp_spec W W_pos n lp o _ lp_table ltac:(lia))). replace (at_ h - Z.of_nat (W * leo o) - width) with (at_ (h - 1 - leo o)) by (unfold ptr; nia). replace (at_ h - width) with (at_ (h - 1)) by (unfold ptr; nia). replace (Z.of_nat o + 1) with (Z.of_nat (S o)) by lia.
  assert (rest_forest le a (h - 1 - leo o) (S o) os) as Hr1 by (destruct os as [|u r]; cbn [rest_forest] in *; [lia|]; replace (h - 1 - leo o - leo (S o))%nat with (h - leo (S (S o)))%nat by lia; split; [lia|apply Hr]).
  destruct (trusty_run lp a0 a (h - 1 - leo o) (S o) os Ha lp_table ltac:(lia) Hs2 Hlf Hr1) as (b1 & Hrun1 & Hab1 & Hf1 & Hrw1). rewrite (bind_done _ _ _ _ _ Hrun1).
  destruct (push_code (S o) o os (concat b1) ltac:(apply (shape_rising n); [apply n_small|done|cbn [total] in *; lia]) ltac:(lia)) as (P2 & HP2 & Eor). replace (Z.of_nat (S o) - Z.of_nat o) with 1 in HP2 by lia. rewrite (bind_done _ _ _ _ _ HP2), Eor.
  assert (heap le b1 (h - 1) o) as Hrt1 by (eapply heap_ext; [lia| |exact Hrt]; intros k Hk; symmetry; apply lookup_total_of, (rw_above _ _ _ _ Hrw1); unfold in_tree in Hk; lia).
  destruct (trusty_run lp a0 b1 (h - 1) o (S o :: os) Hab1 lp_table ltac:(lia) Hs1 Hrt1 ltac:(split; [lia|done])) as (b2 & Hrun2 & Hab2 & Hf2 & Hrw2). rewrite (bind_done _ _ _ _ _ Hrun2).
  eexists _, b2. split; [done|]. split; [done|]. split; [done|]. split; [done|]. intros i j Hij Hj. eapply (reworked_sorted b1 b2 h (h - 1)); [lia|done| |lia|lia]. eapply (reworked_sorted a b1 h); [|done..]. lia.
Qed.

Lemma drain_run fuel : forall a h o os, array a0 a -> (h < n)%nat -> (h <= fuel)%nat -> shape (o :: os) -> forest le a h (o :: os) -> sorted_from a h ->
  exists b, drain width cmp fuel (at_ h) (two (code o os)) (Z.of_nat o) lp (concat a) = Done tt (concat b) /\ array a0 b /\ sorted_from b 0.
Proof.
  induction fuel as [|fuel IH]; intros a h o os Ha Hh Hf Hs Hfo Hso; cbn [drain]; pose proof Hfo as [Ht _ _ _]; (assert (rising o os) as Hri by (apply (shape_rising n); [apply n_small|done|lia])); rewrite is_one_code by done.
  - assert (os = [] /\ o = 1%nat) as [-> ->]; [|replace h with 0%nat in * by lia; by exists a]. destruct os as [|u r]; [|pose proof (total_pos u r); pose proof (leo_pos o); cbn [total] in *; lia]. split; [done|]. cbn [shape total] in *. destruct (decide (o = 1)%nat) as [->|Hne]; [done|]. pose proof (leo_lt 1 o ltac:(lia)). change (leo 1) with 1%nat in *. lia.
  - destruct os as [|u r].
    + destruct (Z.eqb_spec (Z.of_nat o) 1) as [E|E]; [replace o with 1%nat in * by lia; cbn [total] in Ht; change (leo 1) with 1%nat in Ht; replace h with 0%nat in * by lia; by exists a|]. cbn [andb]. destruct o as [|[|o]]; [by cbn in Hs; lia|lia|]. rewrite (proj2 (Z.leb_gt _ _)) by lia.
      destruct (split_run a h o [] Ha Hh Hs Hfo Hso) as (res & b & Hrun & -> & Hab & Hfb & Hsb). rewrite (bind_done _ _ _ _ _ Hrun). cbn [fst snd]. rewrite (at_pred W W_pos h) by (pose proof (leo_SS o); pose proof (leo_pos o); cbn [total] in Ht; lia). apply IH; [done|lia|lia|by apply shape_split|done..].
    + rewrite andb_false_r. pose proof (forest_tail _ _ _ _ _ _ Hfo) as [Hft Hlo]. pose proof (leo_pos o) as Ho. destruct (Z.leb_spec (Z.of_nat o) 1) as [Hle|Hgt].
      * rewrite pntz_code by done. cbv zeta. pose proof (shr_code o u r (concat a) Hri) as Hsh. erewrite bind_done; [|rewrite (bind_done _ _ _ _ _ Hsh); done]. cbn [fst snd]. replace (Z.of_nat o + (Z.of_nat u - Z.of_nat o)) with (Z.of_nat u) by lia.
        assert (leo o = 1%nat) as E by (destruct o as [|[|o]]; (done || lia)). rewrite E in Hft. rewrite (at_pred W W_pos h) by lia. apply IH; [done|lia|lia|by eapply shape_tail|done|]. intros i j Hij Hj. apply (sorted_pred a h (o :: u :: r)); [apply Ha|done|done|lia|lia].
      * destruct o as [|[|o]]; [lia|lia|]. destruct (split_run a h o (u :: r) Ha Hh Hs Hfo Hso) as (res & b & Hrun & -> & Hab & Hfb & Hsb). rewrite (bind_done _ _ _ _ _ Hrun). cbn [fst snd]. rewrite (at_pred W W_pos h) by lia. apply IH; [done|lia|lia|by apply shape_split|done..].
Qed.
End sort.

(** ** The table of sizes *)

Definition sizes (W m : nat) : list Z := map (fun i => Z.of_nat (W * leo i)) (seq 0 m).

Lemma sizes_S W m : sizes W (S m) = sizes W m ++ [Z.of_nat (W * leo m)].
Proof. unfold sizes. by rewrite seq_S, map_app. Qed.

Lemma sizes_table W n m : (1 <= m)%nat -> (n <= leo m)%nat -> table W n (sizes W (S m)).
Proof.
  intros Hm Hn i Hi. unfold sizes. assert (i < S m)%nat as Hlt by (destruct (decide (i <= m)%nat) as [Hle|Hgt]; [lia|]; pose proof (leo_lt m i ltac:(lia)); lia).
  change (map (fun i => Z.of_nat (W * leo i)) (seq 0 (S m))) with ((fun i => Z.of_nat (W * leo i)) <$> seq 0 (S m)). by rewrite list_lookup_fmap, lookup_seq_lt.
Qed.

Section table.
Context (W : nat) (W_pos : (0 < W)%nat) (W_bound : 3 * Z.of_nat W < 2 ^ 32).
Context (n : nat) (n_pos : (0 < n)%nat) (n_bound : Z.of_nat W * Z.of_nat n < 2 ^ 31).

(** The sum the loop computes does not wrap round. *)
Lemma leonardo_sum k : k = 0%nat \/ (leo (S k) < n)%nat -> u32 (u32 (Z.of_nat (W * leo k) + Z.of_nat (W * leo (S k))) + Z.of_nat W) = Z.of_nat (W * leo (S (S k))).
Proof.
  intros Hk. rewrite leo_SS. set (u := leo k). set (v := leo (S k)). assert (Z.of_nat W * Z.of_nat (S (v + u)) < 2 ^ 32) as Hb.
  { destruct Hk as [->|Hk]; [unfold u, v; change (leo 0) with 1%nat; change (leo 1) with 1%nat; lia|]. destruct k as [|k]; [unfold u, v; change (leo 0) with 1%nat; change (leo 1) with 1%nat; lia|]. pose proof (leo_SS k) as Hs. pose proof (leo_pos k). fold u v in Hs. fold v in Hk. nia. }
  unfold u32. rewrite (Z.mod_small (Z.of_nat (W * u) + Z.of_nat (W * v))), Z.mod_small by nia. lia.
Qed.

Lemma leonardo_run fuel m : forall k, (fuel + k = 46)%nat -> (k <= 42)%nat -> k = 0%nat \/ (leo (S k) < n)%nat ->
  exists lp, leonardo_loop (Z.of_nat W) fuel (Z.of_nat (W * n)) (sizes W (S (S k))) (Z.of_nat (W * leo k)) (Z.of_nat (W * leo (S k))) m = Done lp m /\ table W n lp.
Proof.
  induction fuel as [|fuel IH]; intros k Hf Hk Hl; [lia|]. cbn [leonardo_loop]. rewrite leonardo_sum by done. rewrite <- sizes_S. destruct (Z.ltb_spec (Z.of_nat (W * leo (S (S k)))) (Z.of_nat (W * n))) as [Hlt|Hge].
  - assert (leo (S (S k)) < n)%nat as Hln by nia. apply IH; [lia| |by right]. pose proof (order_bound (S (S k)) n ltac:(nia) ltac:(lia)). lia.
  - eexists. split; [done|]. apply sizes_table; [lia|nia].
Qed.
End table.

(** ** The result *)

Lemma strongly_sorted {A} `{!Inhabited A} (R : A -> A -> Prop) (l : list A) : (forall i j, (i < j < length l)%nat -> R (l !!! i) (l !!! j)) -> StronglySorted R l.
Proof.
  induction l as [|x l IH]; intros Hl; [constructor|]. constructor; [apply IH; intros i j Hij; apply (Hl (S i) (S j)); cbn; lia|]. apply Forall_lookup. intros j y Hj. pose proof (lookup_lt_Some _ _ _ Hj). specialize (Hl 0%nat (S j) ltac:(cbn; lia)). by rewrite (list_lookup_total_correct (x :: l) (S j) y Hj) in Hl.
Qed.

Lemma first_before cmp n a : before cmp n a 0 1 [].
Proof. split; [done|cbn; lia|done..]. Qed.

(** C28: [qsort] sorts. For elements of [W > 0] bytes in an array of less than
    2^31 bytes and a comparison that orders any two elements, it returns, reads
    and writes only inside the array, and leaves the elements of the array in
    ascending order. *)
Theorem qsort_sorts (W : nat) (cmp : list Z -> list Z -> Z) (a : list (list Z)) :
  (0 < W)%nat -> uniform W a -> Z.of_nat W * Z.of_nat (length a) < 2 ^ 31 -> 3 * Z.of_nat W < 2 ^ 32 ->
  (forall x y, Z.sgn (cmp x y) = - Z.sgn (cmp y x)) -> (forall x y z, cmp x y <= 0 -> cmp y z <= 0 -> cmp x z <= 0) ->
  exists b, qsort (Z.of_nat W) cmp (Z.of_nat (length a)) (concat a) = Done tt (concat b) /\ b ≡ₚ a /\ StronglySorted (fun x y => cmp x y <= 0) b.
Proof.
  intros HW Hu Hb HW3 Hsg Htr. unfold qsort, __qsort_r, u32. cbv zeta. set (n := length a) in *. rewrite Z.mod_small by lia. destruct (Z.eqb_spec (Z.of_nat W * Z.of_nat n) 0) as [Ez|Ez].
  - exists a. destruct a; [|unfold n in Ez; cbn in Ez; lia]. split; [done|]. split; [done|constructor].
  - assert (0 < n)%nat as Hn by lia. rewrite <- Nat2Z.inj_mul.
    destruct (leonardo_run W HW HW3 n Hn Hb 46 (concat a) 0 eq_refl ltac:(lia) ltac:(by left)) as (lp & Hlp & Htab). assert (sizes W 2 = [Z.of_nat W; Z.of_nat W]) as Es by (unfold sizes; cbn; repeat f_equal; lia). rewrite Es in Hlp. change (leo 0) with 1%nat in Hlp. change (leo 1) with 1%nat in Hlp. rewrite Nat.mul_1_r in Hlp. rewrite (bind_done _ _ _ _ _ Hlp).
    assert (array W n a a) as Ha by (by split). destruct (build_run W HW cmp Hsg Htr n Hb lp Htab a n a 0 1 [] Ha Hn ltac:(lia) (first_before cmp n a)) as (b1 & o & os & Hbu & Ha1 & Hbe).
    assert (Z.of_nat (W * n) - Z.of_nat W = ptr W (n - 1) 0) as Eh by (unfold ptr; nia). rewrite Eh, Nat2Z.id. replace (ptr W 0 0) with 0 in Hbu by (unfold ptr; lia). rewrite (bind_done _ _ _ _ _ Hbu).
    assert (match os with u :: _ => (n - 1 - (n - 1 - leo o) <= leo (u - 1))%nat | [] => True end) as Hw by (destruct os as [|u r]; [done|]; destruct Hbe as [_ (Hlt & _ & _) _ _ _]; pose proof (leo_le o (u - 1) ltac:(lia)); lia).
    pose proof (before_rest W HW cmp n b1 (n - 1) o os ltac:(lia) (ar_length _ _ _ _ Ha1) Hbe Hw) as Hr.
    destruct (trinkle_run W HW cmp Hsg Htr n Hb lp a b1 (n - 1) o os Ha1 Htab ltac:(lia) (bf_shape _ _ _ _ _ _ Hbe) (bf_children _ _ _ _ _ _ Hbe) Hr) as (b2 & Htk & Ha2 & Hf2). rewrite (bind_done _ _ _ _ _ Htk).
    destruct (drain_run W HW cmp Hsg Htr n Hb lp Htab a n b2 (n - 1) o os Ha2 ltac:(lia) ltac:(lia) (bf_shape _ _ _ _ _ _ Hbe) Hf2) as (b & Hdr & [_ Hlb Hpb] & Hso); [intros i j Hij Hj; lia|].
    exists b. split; [done|]. split; [done|]. apply strongly_sorted. intros i j Hij. apply Z.leb_le, (Hso i j); lia.
Qed.

(** The elements of three bytes of an array, compared by their first byte. *)
Definition by_first (x y : list Z) : Z := hd 0 x - hd 0 y.

Lemma qsort_sorts_witness : let a := [[5; 0; 1]; [2; 0; 2]; [9; 0; 3]; [2; 0; 4]; [1; 0; 5]] in
  exists b, qsort (Z.of_nat 3) by_first (Z.of_nat (length a)) (concat a) = Done tt (concat b) /\ b ≡ₚ a /\ StronglySorted (fun x y => by_first x y <= 0) b.
Proof.
  apply (qsort_sorts 3 by_first [[5; 0; 1]; [2; 0; 2]; [9; 0; 3]; [2; 0; 4]; [1; 0; 5]]); [lia|repeat constructor|cbn; lia|lia| |]; unfold by_first; intros; lia.
Defined.

(** ** Searching *)

Section search.
Context (W : nat) (W_pos : (0 < W)%nat) (cmp : list Z -> list Z -> Z) (key : list Z) (a : list (list Z)).
Context (a_uniform : uniform W a).

(** The elements less than the key come first, then those equal to it. *)
Definition ordered_for : Prop := forall i j x y, (i <= j)%nat -> a !! i = Some x -> a !! j = Some y -> (0 < cmp key y -> 0 < cmp key x) /\ (cmp key x < 0 -> cmp key y < 0).

(** What a search returns: the place of an element equal to the key, if there is one. *)
Definition found (r : option Z) : Prop :=
  match r with
  | Some p => exists i x, p = ptr W i 0 /\ a !! i = Some x /\ cmp key x = 0
  | None => forall i x, a !! i = Some x -> cmp key x <> 0
  end.

Lemma nothing_between i m : m = 0%nat -> (forall j x, (j < i)%nat -> a !! j = Some x -> 0 < cmp key x) -> (forall j x, (i + m <= j)%nat -> a !! j = Some x -> cmp key x < 0) -> found None.
Proof. intros -> Hlo Hhi j x Hj. destruct (decide (j < i)%nat) as [Hl|Hl]; [specialize (Hlo j x Hl Hj)|specialize (Hhi j x ltac:(lia) Hj)]; lia. Qed.

Lemma bsearch_run (a_ordered : ordered_for) fuel : forall i m, (m <= fuel)%nat -> (i + m <= length a)%nat ->
  (forall j x, (j < i)%nat -> a !! j = Some x -> 0 < cmp key x) -> (forall j x, (i + m <= j)%nat -> a !! j = Some x -> cmp key x < 0) ->
  exists r, bsearch_loop (Z.of_nat W) cmp fuel key (ptr W i 0) (Z.of_nat m) (concat a) = Done r (concat a) /\ found r.
Proof.
  induction fuel as [|fuel IH]; intros i m Hf Hm Hlo Hhi.
  { exists None. split; [by replace m with 0%nat by lia|]. apply (nothing_between i m); [lia|done..]. }
  cbn [bsearch_loop]. destruct (Z.leb_spec (Z.of_nat m) 0) as [Hz|Hz].
  { exists None. split; [by replace m with 0%nat by lia|]. apply (nothing_between i m); [lia|done..]. }
  set (k := (m / 2)%nat). assert (Z.of_nat m / 2 = Z.of_nat k) as -> by (unfold k; by rewrite Nat2Z.inj_div). assert (k < m)%nat as Hk by (apply Nat.div_lt; lia). assert (ptr W i 0 + Z.of_nat W * Z.of_nat k = ptr W (i + k) 0) as -> by (unfold ptr; lia).
  destruct (lookup_lt_is_Some_2 a (i + k) ltac:(lia)) as [x Hx]. pose proof (Forall_lookup_1 _ _ _ _ a_uniform Hx) as Ex. cbn in Ex. cbv zeta. rewrite (bind_done _ _ _ _ _ (load_element W W_pos a (i + k) x 0 W a_uniform Hx ltac:(lia))). rewrite drop_0, take_ge by lia.
  destruct (Z.ltb_spec (cmp key x) 0) as [Hlt|Hge]; [|destruct (Z.ltb_spec 0 (cmp key x)) as [Hgt|Hle]].
  - apply IH; [lia|lia|done|]. intros j y Hj Hy. apply (a_ordered (i + k)%nat j x y); (done || lia).
  - replace (ptr W (i + k) 0 + Z.of_nat W) with (ptr W (i + k + 1) 0) by (unfold ptr; lia). replace (Z.of_nat m - (Z.of_nat k + 1)) with (Z.of_nat (m - (k + 1))) by lia. apply IH; [lia|lia| |intros j y Hj; apply Hhi; lia].
    intros j y Hj Hy. apply (a_ordered j (i + k)%nat y x); (done || lia).
  - exists (Some (ptr W (i + k) 0)). split; [done|]. exists (i + k)%nat, x. split; [done|]. split; [done|lia].
Qed.
End search.

(** C29: [bsearch] finds. In an array whose elements less than the key come
    before those equal to it and those before the greater ones, it returns the
    place of an element equal to the key when there is one, NULL otherwise, and
    changes nothing. *)
Theorem bsearch_finds (W : nat) (cmp : list Z -> list Z -> Z) (key : list Z) (a : list (list Z)) :
  (0 < W)%nat -> uniform W a -> ordered_for cmp key a ->
  exists r, bsearch (Z.of_nat W) cmp key (Z.of_nat (length a)) (concat a) = Done r (concat a) /\ found W cmp key a r.
Proof.
  intros HW Hu Ho. unfold bsearch. rewrite Nat2Z.id. replace 0 with (ptr W 0 0) by (unfold ptr; lia). apply bsearch_run; [done..|lia| |]; intros j x Hj Hx; [lia|]. apply lookup_lt_Some in Hx. lia.
Qed.

Lemma bsearch_finds_witness : exists r, bsearch (Z.of_nat 2) by_first [5] (Z.of_nat 3) (concat [[2; 7]; [5; 8]; [9; 9]]) = Done r (concat [[2; 7]; [5; 8]; [9; 9]]) /\ found 2 by_first [5] [[2; 7]; [5; 8]; [9; 9]] r.
Proof.
  apply (bsearch_finds 2 by_first [5] [[2; 7]; [5; 8]; [9; 9]]); [lia|repeat constructor|]. intros [|[|[|i]]] [|[|[|j]]] x y Hij Hx Hy; cbn in Hx, Hy; simplify_eq; unfold by_first; cbn [hd]; lia.
Defined.
