(* ===== verification/Pipe.v ===== *)
(** * Pipes

    sources/pipe.c, the pipes of wasip3: a buffer of [PIPE_BUF] bytes shared by
    two descriptors, and a [stream] without payload of the component model whose
    ends a reader or a writer waits on and the other side wakes it with.

    Threads are cooperative: a thread runs until it waits in
    [pipe_block_thread], the only place where the lock of the pipe is released
    during a call, so that the lock is never contended. A call is therefore a
    first part, which returns or starts to wait, and a part for each time it is
    woken. The host is a parameter, a function of the calls made so far. *)

From S2P Require Import Prelude Errno Time Stat Wasip3 DescTable File.

(** ** The host *)

Inductive ucall :=
| stream_new_unit
| stream_drop_readable_unit (h : Z)
| stream_drop_writable_unit (h : Z)
| stream_cancel_read_unit (h : Z)
| stream_cancel_write_unit (h : Z)
| stream_write_unit (h len : Z)
| stream_read_unit (h len : Z)
| set_new
| join (w set : Z)
| set_wait (set : Z)
| set_drop (set : Z).

Definition uanswer (c : ucall) : Type :=
  match c with
  | stream_new_unit | set_new => Z
  | stream_cancel_read_unit _ | stream_cancel_write_unit _ | stream_write_unit _ _ | stream_read_unit _ _ => Z
  | set_wait _ => event_t
  | _ => unit
  end.

Inductive uentry := EvU (c : ucall) (a : uanswer c).
Abbreviation ulog := (list uentry).
Class HostU := hostu : ulog -> forall c, uanswer c.

(** ** State *)

Definition PIPE_READER_ALIVE : Z := Z.shiftl 1 0.
Definition PIPE_WRITER_ALIVE : Z := Z.shiftl 1 1.
Definition PIPE_READER_BLOCKED : Z := Z.shiftl 1 2.
Definition PIPE_WRITER_BLOCKED : Z := Z.shiftl 1 3.
Definition PIPE_READER_WOKEN : Z := Z.shiftl 1 4.
Definition PIPE_WRITER_WOKEN : Z := Z.shiftl 1 5.
Definition PIPE_BUF : Z := 4096.

(** [buffer] has [buffer_cap] bytes, of which the first [buffer_len] count. *)
Record pipe_state_t := PipeState {
  pflags : Z;
  buffer : option (list Z);
  buffer_len : Z;
  buffer_cap : Z;
  stream_reader : Z;
  stream_writer : Z;
}.

(** The shared state, until it is freed, and the [blocking] fields of the two
    halves. *)
Record pctx := Pctx {
  pstate : option pipe_state_t;
  rd_blocking : bool;
  wr_blocking : bool;
  penv : env;
  plog : ulog;
}.

Global Instance pctx_libc : Libc pctx := {
  errno s := env_errno (penv s);
  with_errno e s := Pctx (pstate s) (rd_blocking s) (wr_blocking s) (with_errno e (penv s)) (plog s);
  take_alloc s := let (b, v) := take_alloc (penv s) in (b, Pctx (pstate s) (rd_blocking s) (wr_blocking s) v (plog s));
}.

Definition set_pflags (f : Z) (s : pipe_state_t) : pipe_state_t :=
  PipeState f (buffer s) (buffer_len s) (buffer_cap s) (stream_reader s) (stream_writer s).
Definition set_buffer (b : option (list Z)) (n cap : Z) (s : pipe_state_t) : pipe_state_t :=
  PipeState (pflags s) b n cap (stream_reader s) (stream_writer s).
Definition set_streams (r w : Z) (s : pipe_state_t) : pipe_state_t :=
  PipeState (pflags s) (buffer s) (buffer_len s) (buffer_cap s) r w.
Definition set_pstate (o : option pipe_state_t) (s : pctx) : pctx := Pctx o (rd_blocking s) (wr_blocking s) (penv s) (plog s).

(** The fields of [pipe->state]; using it after it was freed is undefined. *)
Definition pipe_state : M pctx pipe_state_t := o ← gets pstate; deref o.
Definition update_pipe (f : pipe_state_t -> pipe_state_t) : M pctx unit := s ← pipe_state; modify (set_pstate (Some (f s))).
Definition raise (f : Z) : M pctx unit := update_pipe (fun s => set_pflags (Z.lor (pflags s) f) s).
Definition lower (f : Z) : M pctx unit := update_pipe (fun s => set_pflags (Z.ldiff (pflags s) f) s).
Definition flagged (f : Z) : M pctx bool := s ← pipe_state; mret (has (pflags s) f).

Section code.
Context `{HostU}.

Definition asku (c : ucall) : M pctx (uanswer c) := fun s =>
  let a := hostu (plog s) c in Done a (Pctx (pstate s) (rd_blocking s) (wr_blocking s) (penv s) (plog s ++ [EvU c a])).

(** One unit was transferred. *)
Definition assert_transferred (status : Z) : M pctx unit :=
  assert_ (WAITABLE_STATE status =? WAITABLE_COMPLETED) ;; assert_ (WAITABLE_COUNT status =? 1).
Definition assert_cancelled (status : Z) : M pctx unit :=
  assert_ (WAITABLE_STATE status =? WAITABLE_CANCELLED) ;; assert_ (WAITABLE_COUNT status =? 0).

Definition pipe_state_free : M pctx unit :=
  s ← pipe_state;
  assert_ (negb (has (pflags s) PIPE_READER_ALIVE)) ;;
  assert_ (negb (has (pflags s) PIPE_WRITER_ALIVE)) ;;
  (if negb (stream_reader s =? 0) then asku (stream_drop_readable_unit (stream_reader s)) else mret tt) ;;
  (if negb (stream_writer s =? 0) then asku (stream_drop_writable_unit (stream_writer s)) else mret tt) ;;
  modify (set_pstate None).

Definition pipe_ensure_stream : M pctx unit :=
  s ← pipe_state;
  if negb (stream_reader s =? 0) then mret tt else
  stream ← asku stream_new_unit;
  update_pipe (set_streams (u32 stream) (u32 (Z.shiftr stream 32))) ;;
  s ← pipe_state;
  assert_ (negb (stream_reader s =? 0)) ;;
  assert_ (negb (stream_writer s =? 0)).

Definition pipe_unblock_writer : M pctx unit :=
  s ← pipe_state;
  if negb (has (pflags s) PIPE_WRITER_BLOCKED) then mret tt else
  assert_ (negb (stream_writer s =? 0)) ;;
  if has (pflags s) PIPE_WRITER_WOKEN then mret tt else
  raise PIPE_WRITER_WOKEN ;;
  status ← asku (stream_read_unit (stream_reader s) 1);
  assert_transferred status.

Definition pipe_unblock_reader : M pctx unit :=
  s ← pipe_state;
  if negb (has (pflags s) PIPE_READER_BLOCKED) then mret tt else
  assert_ (negb (stream_reader s =? 0)) ;;
  if has (pflags s) PIPE_READER_WOKEN then mret tt else
  raise PIPE_READER_WOKEN ;;
  status ← asku (stream_write_unit (stream_writer s) 1);
  assert_transferred status.

Definition pipe_block_enter (blocked woken : Z) : M pctx Z :=
  b ← flagged blocked;
  if (b : bool) then fail_with EOPNOTSUPP (-1) else
  w ← flagged woken;
  assert_ (negb w) ;;
  raise blocked ;;
  mret 0.

Definition pipe_block_exit (blocked woken : Z) : M pctx bool :=
  ret ← flagged woken;
  lower woken ;;
  lower blocked ;;
  mret ret.

Definition pipe_block_reader_enter : M pctx Z :=
  rc ← pipe_block_enter PIPE_READER_BLOCKED PIPE_READER_WOKEN;
  if rc <? 0 then mret (-1) else
  pipe_ensure_stream ;;
  s ← pipe_state;
  status ← asku (stream_read_unit (stream_reader s) 1);
  assert_ (status =? WAITABLE_STATUS_BLOCKED) ;;
  mret 0.

Definition pipe_block_reader_exit : M pctx bool :=
  woken ← pipe_block_exit PIPE_READER_BLOCKED PIPE_READER_WOKEN;
  (if negb woken then
     s ← pipe_state;
     status ← asku (stream_cancel_read_unit (stream_reader s));
     assert_cancelled status
   else mret tt) ;;
  mret woken.

Definition pipe_block_writer_enter : M pctx Z :=
  rc ← pipe_block_enter PIPE_WRITER_BLOCKED PIPE_WRITER_WOKEN;
  if rc <? 0 then mret (-1) else
  pipe_ensure_stream ;;
  s ← pipe_state;
  status ← asku (stream_write_unit (stream_writer s) 1);
  assert_ (status =? WAITABLE_STATUS_BLOCKED) ;;
  mret 0.

Definition pipe_block_writer_exit : M pctx bool :=
  woken ← pipe_block_exit PIPE_WRITER_BLOCKED PIPE_WRITER_WOKEN;
  (if negb woken then
     s ← pipe_state;
     status ← asku (stream_cancel_write_unit (stream_writer s));
     assert_cancelled status
   else mret tt) ;;
  mret woken.

(** A thread that waits: its waitable set and the stream in it. *)
Record parked := Parked { p_set : Z; p_stream : Z }.

(** [pipe_block_thread] up to the wait of [__wasilibc_waitable_block_on], and
    from where the wait returns. *)
Definition pipe_block_thread (stream : Z) : M pctx parked :=
  set ← asku set_new;
  asku (join stream set) ;;
  mret (Parked set stream).

Definition pipe_block_thread_woken (p : parked) : M pctx unit :=
  e ← asku (set_wait (p_set p));
  asku (join (p_stream p) 0) ;;
  asku (set_drop (p_set p)) ;;
  assert_ ((event e =? EVENT_STREAM_READ) || (event e =? EVENT_STREAM_WRITE)) ;;
  assert_ (waitable e =? p_stream p) ;;
  let state := WAITABLE_STATE (code e) in
  assert_ ((state =? WAITABLE_COMPLETED) || (state =? WAITABLE_DROPPED) || (state =? WAITABLE_CANCELLED)) ;;
  assert_ (WAITABLE_COUNT (code e) =? 1) ;;
  assert_ (negb (state =? WAITABLE_DROPPED)).

(** ** The operations of a descriptor *)

Definition pipe_free (reader : bool) : M pctx unit :=
  (if reader then lower PIPE_READER_ALIVE else lower PIPE_WRITER_ALIVE) ;;
  alive ← flagged (Z.lor PIPE_READER_ALIVE PIPE_WRITER_ALIVE);
  free_state ← (if negb alive then mret true
                else if reader then pipe_unblock_writer ;; mret false
                else pipe_unblock_reader ;; mret false);
  if free_state : bool then pipe_state_free else mret tt.

Definition pipe_fstat : stat := Stat 0 0 1 (Z.lor S_IFIFO 0x180) 0 (Timespec 0 0) (Timespec 0 0) (Timespec 0 0).

Definition blocking_of (reader : bool) : M pctx bool := gets (fun s => if reader then rd_blocking s else wr_blocking s).

Definition pipe_fcntl_getfl (reader : bool) : M pctx Z :=
  pipe_state ;;
  b ← blocking_of reader;
  let ret := if reader then O_RDONLY else O_WRONLY in
  mret (if negb b then Z.lor ret O_NONBLOCK else ret).

Definition pipe_set_blocking (reader blocking : bool) : M pctx Z :=
  pipe_state ;;
  modify (fun s => if reader then Pctx (pstate s) blocking (wr_blocking s) (penv s) (plog s)
                   else Pctx (pstate s) (rd_blocking s) blocking (penv s) (plog s)) ;;
  mret 0.

Definition pipe_fcntl_setfl (reader : bool) (fl : Z) : M pctx Z := pipe_set_blocking reader (negb (has fl O_NONBLOCK)).

(** A call returns, with the bytes it read, or waits. *)
Inductive progress := Returned (ret : Z) (bytes : list Z) | Waiting (p : parked).

(** [memcpy] out of the buffer and [memmove] of the rest to its front. *)
Definition take_bytes (amt : Z) : M pctx (list Z) :=
  s ← pipe_state;
  b ← deref (buffer s);
  if (amt <=? buffer_len s) && (buffer_len s <=? Z.of_nat (length b)) then
    let n := Z.to_nat amt in let m := Z.to_nat (buffer_len s) in
    update_pipe (set_buffer (Some (drop n (take m b) ++ drop (m - n) b)) (buffer_len s - amt) (buffer_cap s)) ;;
    mret (take n b)
  else halt Undef.

(** [memcpy] to the end of what the buffer holds. *)
Definition put_bytes (bs : list Z) : M pctx unit :=
  s ← pipe_state;
  b ← deref (buffer s);
  let m := Z.to_nat (buffer_len s) in
  if buffer_len s + Z.of_nat (length bs) <=? Z.of_nat (length b) then
    update_pipe (set_buffer (Some (take m b ++ bs ++ drop (m + length bs) b)) (buffer_len s + Z.of_nat (length bs)) (buffer_cap s))
  else halt Undef.

(** A turn of the loop of [pipe_recvfrom]. *)
Definition recv_turn (length : Z) : M pctx progress :=
  s ← pipe_state;
  if negb (buffer_len s =? 0) then
    let amt := if length <? buffer_len s then length else buffer_len s in
    bs ← take_bytes amt;
    pipe_unblock_writer ;;
    mret (Returned amt bs)
  else if negb (has (pflags s) PIPE_WRITER_ALIVE) then mret (Returned 0 [])
  else
    b ← blocking_of true;
    if negb b then fail_with EWOULDBLOCK (Returned (-1) []) else
    rc ← pipe_block_reader_enter;
    if rc <? 0 then mret (Returned (-1) []) else
    s ← pipe_state;
    p ← pipe_block_thread (stream_reader s);
    mret (Waiting p).

Definition recv_woken (p : parked) (length : Z) : M pctx progress :=
  pipe_block_thread_woken p ;;
  pipe_block_reader_exit ;;
  recv_turn length.

(** [flags], and whether [addr] and [addrlen] are not null. *)
Definition pipe_recvfrom (reader : bool) (length flags : Z) (addr addrlen : bool) : M pctx progress :=
  if negb (flags =? 0) || addr || addrlen then fail_with EINVAL (Returned (-1) []) else
  pipe_state ;;
  if negb reader then fail_with EBADF (Returned (-1) []) else
  if length =? 0 then mret (Returned 0 []) else
  recv_turn length.

(** A turn of the loop of [pipe_sendto]. *)
Definition send_turn (data : list Z) : M pctx progress :=
  let len := Z.of_nat (length data) in
  s ← pipe_state;
  if negb (has (pflags s) PIPE_READER_ALIVE) then fail_with EPIPE (Returned (-1) []) else
  let remaining := u32 (buffer_cap s - buffer_len s) in
  let atomic := len <=? PIPE_BUF in
  if (0 <? remaining) && (negb atomic || (len <=? remaining)) then
    let amt := if len <? remaining then len else remaining in
    put_bytes (take (Z.to_nat amt) data) ;;
    pipe_unblock_reader ;;
    mret (Returned amt [])
  else
    b ← blocking_of false;
    if negb b then fail_with EWOULDBLOCK (Returned (-1) []) else
    rc ← pipe_block_writer_enter;
    if rc <? 0 then mret (Returned (-1) []) else
    s ← pipe_state;
    p ← pipe_block_thread (stream_writer s);
    mret (Waiting p).

Definition send_woken (p : parked) (data : list Z) : M pctx progress :=
  pipe_block_thread_woken p ;;
  pipe_block_writer_exit ;;
  send_turn data.

(** The buffer is allocated by the first write. *)
Definition lazy_buffer : M pctx bool :=
  s ← pipe_state;
  match buffer s with
  | Some _ => mret true
  | None =>
      update_pipe (fun s => set_buffer None (buffer_len s) PIPE_BUF s) ;;
      ok ← alloc_ok;
      if ok : bool then update_pipe (fun s => set_buffer (Some (replicate (Z.to_nat PIPE_BUF) 0)) (buffer_len s) (buffer_cap s) s) ;; mret true
      else fail_with ENOMEM false
  end.

Definition pipe_sendto (reader : bool) (data : list Z) (flags : Z) (addr : bool) (addrlen : Z) : M pctx progress :=
  if negb (flags =? 0) || addr || negb (addrlen =? 0) then fail_with EINVAL (Returned (-1) []) else
  pipe_state ;;
  if reader then fail_with EBADF (Returned (-1) []) else
  if Z.of_nat (length data) =? 0 then mret (Returned 0 []) else
  ok ← lazy_buffer;
  if negb ok then mret (Returned (-1) []) else
  send_turn data.
End code.
