(* ===== verification/PipeHost.v ===== *)
(** * The stream a pipe waits on

    The rules of the component model for a [stream] without payload whose two
    ends the program holds, as far as pipes use them: reads and writes of one
    unit, which meet or wait for each other, and waitable sets. *)

From S2P Require Import Prelude Wasip3 Pipe.

(** An end is idle, has an operation that waits for the other end, or one that
    has ended and whose event was not taken yet; or it was dropped. *)
Inductive uend := EIdle | EPending | EArrived | EGone.
#[export] Instance uend_eq : EqDecision uend.
Proof. solve_decision. Defined.

Record ustream := Ustream { u_r : Z; u_w : Z; u_rd : uend; u_wr : uend }.

Definition set_rd (e : uend) (u : ustream) : ustream := Ustream (u_r u) (u_w u) e (u_wr u).
Definition set_wr (e : uend) (u : ustream) : ustream := Ustream (u_r u) (u_w u) (u_rd u) e.

Definition meet_rd (u : ustream) : ustream := if decide (u_wr u = EPending) then set_wr EArrived u else set_rd EPending u.
Definition meet_wr (u : ustream) : ustream := if decide (u_rd u = EPending) then set_rd EArrived u else set_wr EPending u.

Definition on_r (h : Z) (f : ustream -> ustream) (u : ustream) : ustream := if h =? u_r u then f u else u.
Definition on_w (h : Z) (f : ustream -> ustream) (u : ustream) : ustream := if h =? u_w u then f u else u.

(** The stream after a call. *)
Definition uadvance (o : option ustream) (e : uentry) : option ustream :=
  let 'EvU c a := e in
  match c return uanswer c -> option ustream with
  | stream_new_unit => fun a => Some (Ustream (u32 a) (u32 (Z.shiftr a 32)) EIdle EIdle)
  | stream_read_unit h _ => fun _ => on_r h meet_rd <$> o
  | stream_write_unit h _ => fun _ => on_w h meet_wr <$> o
  | stream_cancel_read_unit h => fun _ => on_r h (set_rd EIdle) <$> o
  | stream_cancel_write_unit h => fun _ => on_w h (set_wr EIdle) <$> o
  | stream_drop_readable_unit h => fun _ => on_r h (set_rd EGone) <$> o
  | stream_drop_writable_unit h => fun _ => on_w h (set_wr EGone) <$> o
  | set_wait _ => fun e => on_w (waitable e) (set_wr EIdle) <$> (on_r (waitable e) (set_rd EIdle) <$> o)
  | _ => fun _ => o
  end a.
Definition ustream_of (l : ulog) : option ustream := fold_left uadvance l None.

Definition uenrol (set : Z) (m : list Z) (e : uentry) : list Z :=
  let 'EvU c _ := e in
  match c with
  | join w s => filter (fun x => x <> w) m ++ (if s =? set then [w] else [])
  | _ => m
  end.
Definition umembers (l : ulog) (set : Z) : list Z := fold_left (uenrol set) l [].

Lemma ustream_of_snoc l e : ustream_of (l ++ [e]) = uadvance (ustream_of l) e.
Proof. unfold ustream_of. by rewrite fold_left_app. Qed.
Lemma umembers_snoc l e set : umembers (l ++ [e]) set = uenrol set (umembers l set) e.
Proof. unfold umembers. by rewrite fold_left_app. Qed.

(** The state of the end with the handle [h]. *)
Definition end_of (u : ustream) (h : Z) : option uend := if h =? u_r u then Some (u_rd u) else if h =? u_w u then Some (u_wr u) else None.

(** [uallowed l c]: the call does not trap after [l]. An end has one operation
    at a time, until its event is taken; an end with an operation is not
    dropped; a set that is waited on has a member with an operation, one that
    is dropped has no member. *)
Definition uallowed (l : ulog) (c : ucall) : Prop :=
  match c with
  | stream_read_unit h n => exists u, ustream_of l = Some u /\ h = u_r u /\ u_rd u = EIdle /\ u_wr u <> EGone /\ n = 1
  | stream_write_unit h n => exists u, ustream_of l = Some u /\ h = u_w u /\ u_wr u = EIdle /\ u_rd u <> EGone /\ n = 1
  | stream_cancel_read_unit h => exists u, ustream_of l = Some u /\ h = u_r u /\ (u_rd u = EPending \/ u_rd u = EArrived)
  | stream_cancel_write_unit h => exists u, ustream_of l = Some u /\ h = u_w u /\ (u_wr u = EPending \/ u_wr u = EArrived)
  | stream_drop_readable_unit h => exists u, ustream_of l = Some u /\ h = u_r u /\ u_rd u = EIdle
  | stream_drop_writable_unit h => exists u, ustream_of l = Some u /\ h = u_w u /\ u_wr u = EIdle
  | set_wait set => exists u h, ustream_of l = Some u /\ h ∈ umembers l set /\ (end_of u h = Some EPending \/ end_of u h = Some EArrived)
  | set_drop set => umembers l set = []
  | _ => True
  end.

(** One unit transferred; cancelled with none. *)
Definition ONE_COMPLETED : Z := 16.
Definition ZERO_CANCELLED : Z := 2.

(** What the host answers: an operation ends at once when the other end waits
    for it; a wait on a set with a member whose operation has ended tells of
    such a one. *)
Definition uanswer_ok (l : ulog) (c : ucall) : uanswer c -> Prop :=
  match c return uanswer c -> Prop with
  | stream_new_unit => fun a => u32 a <> 0 /\ u32 (Z.shiftr a 32) <> 0 /\ u32 a <> u32 (Z.shiftr a 32)
  | stream_read_unit _ _ => fun a => forall u, ustream_of l = Some u -> a = if decide (u_wr u = EPending) then ONE_COMPLETED else WAITABLE_STATUS_BLOCKED
  | stream_write_unit _ _ => fun a => forall u, ustream_of l = Some u -> a = if decide (u_rd u = EPending) then ONE_COMPLETED else WAITABLE_STATUS_BLOCKED
  | stream_cancel_read_unit _ => fun a => forall u, ustream_of l = Some u -> a = if decide (u_rd u = EArrived) then ONE_COMPLETED else ZERO_CANCELLED
  | stream_cancel_write_unit _ => fun a => forall u, ustream_of l = Some u -> a = if decide (u_wr u = EArrived) then ONE_COMPLETED else ZERO_CANCELLED
  | set_new => fun a => a <> 0 /\ umembers l a = []
  | set_wait set => fun e => forall u, ustream_of l = Some u -> (exists h, h ∈ umembers l set /\ end_of u h = Some EArrived) ->
      waitable e ∈ umembers l set /\ end_of u (waitable e) = Some EArrived /\ code e = ONE_COMPLETED /\
      event e = if waitable e =? u_r u then EVENT_STREAM_READ else EVENT_STREAM_WRITE
  | _ => fun _ => True
  end.

(** Every call of the log was allowed when it was made. *)
Fixpoint ulegal_from (l rest : ulog) : Prop :=
  match rest with
  | [] => True
  | EvU c a :: rest' => uallowed l c /\ ulegal_from (l ++ [EvU c a]) rest'
  end.
Definition ulegal (l : ulog) : Prop := ulegal_from [] l.

Lemma ulegal_from_app rest : forall l c a, ulegal_from l (rest ++ [EvU c a]) <-> ulegal_from l rest /\ uallowed (l ++ rest) c.
Proof.
  induction rest as [|[c' a'] rest IH]; intros l c a; cbn [app ulegal_from]; [rewrite app_nil_r; tauto|]. rewrite IH, <- (assoc_L (++)). cbn [app]. tauto.
Qed.
Lemma ulegal_snoc l c a : ulegal (l ++ [EvU c a]) <-> ulegal l /\ uallowed l c.
Proof. apply ulegal_from_app. Qed.

Class HostULaws `{HostU} := hostu_ok l c : ulegal l -> uallowed l c -> uanswer_ok l c (hostu l c).

(** ** A host that keeps the rules *)

Definition max_set (l : ulog) : Z := fold_left (fun m e => match e with EvU (join _ s) _ => Z.max m s | _ => m end) l 0.

Definition simple_host : HostU := fun l c =>
  match c return uanswer c with
  | stream_new_unit => 1 + Z.shiftl 2 32
  | stream_read_unit _ _ => match ustream_of l with Some u => if decide (u_wr u = EPending) then ONE_COMPLETED else WAITABLE_STATUS_BLOCKED | None => 0 end
  | stream_write_unit _ _ => match ustream_of l with Some u => if decide (u_rd u = EPending) then ONE_COMPLETED else WAITABLE_STATUS_BLOCKED | None => 0 end
  | stream_cancel_read_unit _ => match ustream_of l with Some u => if decide (u_rd u = EArrived) then ONE_COMPLETED else ZERO_CANCELLED | None => 0 end
  | stream_cancel_write_unit _ => match ustream_of l with Some u => if decide (u_wr u = EArrived) then ONE_COMPLETED else ZERO_CANCELLED | None => 0 end
  | set_new => 1 + max_set l
  | set_wait set =>
      match ustream_of l with
      | Some u => match filter (fun h => end_of u h = Some EArrived) (umembers l set) with
                  | h :: _ => Event (if h =? u_r u then EVENT_STREAM_READ else EVENT_STREAM_WRITE) h ONE_COMPLETED []
                  | [] => Event EVENT_NONE 0 0 []
                  end
      | None => Event EVENT_NONE 0 0 []
      end
  | stream_drop_readable_unit _ | stream_drop_writable_unit _ | join _ _ | set_drop _ => tt
  end.

Lemma max_set_members l : 0 <= max_set l /\ forall s, max_set l < s -> umembers l s = [].
Proof.
  induction l as [|[c a] l [IH0 IH]] using rev_ind; [done|]. unfold max_set in *. rewrite fold_left_app. cbn [fold_left]. split; [destruct c; lia|].
  intros s Hs. rewrite umembers_snoc. cbn [uenrol]. destruct c; try (apply IH; lia). rewrite IH by lia. rewrite (proj2 (Z.eqb_neq _ _)) by lia. done.
Qed.

#[export] Instance simple_host_laws : @HostULaws simple_host.
Proof.
  intros l c _ _. destruct c; cbn; try done.
  1-4: by intros u ->.
  - destruct (max_set_members l) as [H0 Hm]. split; [lia|apply Hm; lia].
  - intros u -> (h & Hh & He). destruct (filter _ _) as [|h' m] eqn:E.
    + exfalso. assert (h ∈ ([] : list Z)) as Hin by (rewrite <- E; by apply list_elem_of_filter). by apply not_elem_of_nil in Hin.
    + assert (h' ∈ filter (fun h => end_of u h = Some EArrived) (umembers l set)) as Hin by (rewrite E; by left). apply list_elem_of_filter in Hin as [Ha Hm]. done.
Qed.
