(* ===== verification/PipeSpec.v ===== *)
(** * What a pipe promises

    A queue of bytes with a reader and a writer, and the threads of a program
    that use the two descriptors of a pipe. *)

From S2P Require Import Prelude Errno Wasip3 Pipe PipeHost.

(** ** The queue *)

(** What a call gives: the number of bytes and the bytes, an error, or that it
    waits. *)
Inductive out := Got (n : Z) (bytes : list Z) | Failed (e : Z) | Waits | Silent.

Record queue := Queue {
  content : list Z;
  allocated : bool;
  r_open : bool;
  w_open : bool;
  r_block : bool;
  w_block : bool;
  r_wait : option Z;           (* the length a waiting read asks for *)
  w_wait : option (list Z);    (* the bytes of a waiting write *)
}.

Definition empty_queue (blocking : bool) : queue := Queue [] false true true blocking blocking None None.

(** A write of at most [PIPE_BUF] bytes needs room for all of them. *)
Definition room (q : queue) : Z := PIPE_BUF - Z.of_nat (length (content q)).
Definition fits (q : queue) (data : list Z) : bool :=
  (0 <? room q) && ((PIPE_BUF <? Z.of_nat (length data)) || (Z.of_nat (length data) <=? room q)).

Definition q_read (q : queue) (len : Z) : out * queue :=
  let q' c w := Queue c (allocated q) (r_open q) (w_open q) (r_block q) (w_block q) w (w_wait q) in
  if negb (bool_decide (content q = [])) then
    let n := Z.to_nat len in (Got (Z.min len (Z.of_nat (length (content q)))) (take n (content q)), q' (drop n (content q)) None)
  else if negb (w_open q) then (Got 0 [], q' [] None)
  else if negb (r_block q) then (Failed EWOULDBLOCK, q' [] None)
  else (Waits, q' [] (Some len)).

Definition q_write (q : queue) (data : list Z) : out * queue :=
  let q' c w := Queue c true (r_open q) (w_open q) (r_block q) (w_block q) (r_wait q) w in
  if negb (r_open q) then (Failed EPIPE, q' (content q) None)
  else if fits q data then
    let n := Z.min (Z.of_nat (length data)) (room q) in
    (Got n (take (Z.to_nat n) data), q' (content q ++ take (Z.to_nat n) data) None)
  else if negb (w_block q) then (Failed EWOULDBLOCK, q' (content q) None)
  else (Waits, q' (content q) (Some data)).

(** The calls of the threads, and the scheduler letting one that was woken
    go on. *)
Inductive action :=
| ARead (len : Z)
| AWrite (data : list Z)
| AReaderWoken
| AWriterWoken
| AClose (reader : bool)
| ASetBlocking (reader blocking : bool).

(** [ok]: the allocation of the buffer succeeds, when it is needed. *)
Definition q_step (ok : bool) (q : queue) (a : action) : out * queue :=
  match a with
  | ARead len => if len =? 0 then (Got 0 [], q) else q_read q len
  | AWrite data =>
      if bool_decide (data = []) then (Got 0 [], q)
      else if negb (allocated q) && negb ok then (Failed ENOMEM, q)
      else q_write q data
  | AReaderWoken => match r_wait q with Some len => q_read q len | None => (Silent, q) end
  | AWriterWoken => match w_wait q with Some data => q_write q data | None => (Silent, q) end
  | AClose reader => (Silent, Queue (content q) (allocated q) (r_open q && negb reader) (w_open q && reader) (r_block q) (w_block q) (r_wait q) (w_wait q))
  | ASetBlocking reader b => (Got 0 [], Queue (content q) (allocated q) (r_open q) (w_open q) (if reader then b else r_block q) (if reader then w_block q else b) (r_wait q) (w_wait q))
  end.

(** The queue does the actions of a trace with the outcomes in it. *)
Inductive q_runs : queue -> list (action * out) -> queue -> Prop :=
| q_nil q : q_runs q [] q
| q_cons q tr q1 a ok : q_runs q tr q1 -> q_runs q (tr ++ [(a, (q_step ok q1 a).1)]) (q_step ok q1 a).2.

(** ** The threads *)

(** A pipe with a thread that waits in [pipe_recvfrom] and one in
    [pipe_sendto], each with what it was called with. *)
Record threads := Threads { pipe_ctx : pctx; reading : option (parked * Z); writing : option (parked * list Z) }.

Section threads.
Context `{HostU}.

Definition of_progress (r : Z) (bytes : list Z) (s : pctx) : out := if r =? -1 then Failed (errno s) else Got r bytes.

(** Runs a part of a read or a write; [sent] is what it says for the bytes. *)
Definition read_part (len : Z) (m : M pctx progress) : M threads out := fun t =>
  match m (pipe_ctx t) with
  | Done (Returned r bytes) s => Done (of_progress r bytes s) (Threads s None (writing t))
  | Done (Waiting p) s => Done Waits (Threads s (Some (p, len)) (writing t))
  | Stop e s => Stop e (Threads s (reading t) (writing t))
  end.
Definition write_part (data : list Z) (m : M pctx progress) : M threads out := fun t =>
  match m (pipe_ctx t) with
  | Done (Returned r _) s => Done (of_progress r (take (Z.to_nat r) data) s) (Threads s (reading t) None)
  | Done (Waiting p) s => Done Waits (Threads s (reading t) (Some (p, data)))
  | Stop e s => Stop e (Threads s (reading t) (writing t))
  end.
Definition on_pipe {A} (f : A -> out) (m : M pctx A) : M threads out := fun t =>
  match m (pipe_ctx t) with
  | Done a s => Done (f a) (Threads s (reading t) (writing t))
  | Stop e s => Stop e (Threads s (reading t) (writing t))
  end.

Definition act (a : action) : M threads out := fun t =>
  match a with
  | ARead len => read_part len (pipe_recvfrom true len 0 false false) t
  | AWrite data => write_part data (pipe_sendto false data 0 false 0) t
  | AReaderWoken => match reading t with Some (p, len) => read_part len (recv_woken p len) t | None => Done Silent t end
  | AWriterWoken => match writing t with Some (p, data) => write_part data (send_woken p data) t | None => Done Silent t end
  | AClose reader => on_pipe (fun _ => Silent) (pipe_free reader) t
  | ASetBlocking reader b => on_pipe (fun r => Got r []) (pipe_set_blocking reader b) t
  end.

(** The descriptor is still open. *)
Definition alive (reader : bool) (t : threads) : Prop :=
  exists s, pstate (pipe_ctx t) = Some s /\ has (pflags s) (if reader then PIPE_READER_ALIVE else PIPE_WRITER_ALIVE) = true.

(** The event a thread waits for has arrived. *)
Definition arrived (p : parked) (t : threads) : Prop :=
  exists u, ustream_of (plog (pipe_ctx t)) = Some u /\ end_of u (p_stream p) = Some EArrived.

(** One thread uses a descriptor at a time: it makes no call on one in which
    another thread waits, and closes it once, when no call is in progress (the
    reference counts of the descriptor table see to that); a thread that waits
    goes on when its event has arrived. *)
Definition enabled (t : threads) (a : action) : Prop :=
  match a with
  | ARead len => reading t = None /\ alive true t /\ 0 <= len
  | AWrite data => writing t = None /\ alive false t /\ Z.of_nat (length data) < 2 ^ 32
  | AReaderWoken => exists p len, reading t = Some (p, len) /\ arrived p t
  | AWriterWoken => exists p data, writing t = Some (p, data) /\ arrived p t
  | AClose reader => alive reader t /\ (if reader then reading t = None else writing t = None)
  | ASetBlocking reader _ => alive reader t
  end.

Inductive runs : threads -> list (action * out) -> threads -> Prop :=
| runs_nil t : runs t [] t
| runs_cons t tr t1 a o t2 : runs t tr t1 -> enabled t1 a -> act a t1 = Done o t2 -> runs t (tr ++ [(a, o)]) t2.

(** What [pipe2] sets up. *)
Definition new_pipe (blocking : bool) (v : env) : threads :=
  Threads (Pctx (Some (PipeState (Z.lor PIPE_READER_ALIVE PIPE_WRITER_ALIVE) None 0 0 0 0)) blocking blocking v []) None None.
End threads.

(** The bytes read and the bytes written in a trace. *)
Definition moved (o : out) : list Z := match o with Got _ bs => bs | _ => [] end.
Definition reads (a : action) : bool := match a with ARead _ | AReaderWoken => true | _ => false end.
Definition writes (a : action) : bool := match a with AWrite _ | AWriterWoken => true | _ => false end.
Definition bytes_of (f : action -> bool) (tr : list (action * out)) : list Z :=
  concat (map (fun x => if f x.1 then moved x.2 else []) tr).
Definition bytes_read : list (action * out) -> list Z := bytes_of reads.
Definition bytes_written : list (action * out) -> list Z := bytes_of writes.

Lemma bytes_of_snoc f tr a o : bytes_of f (tr ++ [(a, o)]) = bytes_of f tr ++ if f a then moved o else [].
Proof. unfold bytes_of. rewrite map_app, concat_app. cbn [map concat fst snd]. by rewrite app_nil_r. Qed.

Lemma q_read_order q len : moved (q_read q len).1 ++ content (q_read q len).2 = content q.
Proof. unfold q_read. case_bool_decide as E; cbn [negb]; [rewrite E; by destruct (w_open q), (r_block q)|]. apply take_drop. Qed.

Lemma q_write_order q data : content (q_write q data).2 = content q ++ moved (q_write q data).1.
Proof. unfold q_write. destruct (r_open q), (fits q data), (w_block q); cbn; by rewrite ?app_nil_r. Qed.

(** The queue loses no byte and keeps their order. *)
Lemma q_step_order ok q a (r := q_step ok q a) : content q ++ (if writes a then moved r.1 else []) = (if reads a then moved r.1 else []) ++ content r.2.
Proof.
  unfold r. destruct a as [len|data| | |rd|rd b]; cbn [q_step reads writes]; rewrite ?app_nil_r; try done.
  - destruct (len =? 0); [done|]. by rewrite q_read_order.
  - case_bool_decide; [by rewrite app_nil_r|]. destruct (negb (allocated q) && negb ok); [by rewrite app_nil_r|]. by rewrite q_write_order.
  - destruct (r_wait q) as [len|]; [|done]. by rewrite q_read_order.
  - destruct (w_wait q) as [data|]; [|by rewrite app_nil_r]. by rewrite q_write_order.
Qed.

Lemma q_runs_order q tr q' : q_runs q tr q' -> content q ++ bytes_written tr = bytes_read tr ++ content q'.
Proof.
  induction 1 as [q|q tr q1 a ok Hr IH]; [by rewrite app_nil_r|]. unfold bytes_written, bytes_read in *. rewrite !bytes_of_snoc, <- !(assoc_L (++)), <- q_step_order, !(assoc_L (++)). by rewrite IH.
Qed.
