(* ===== verification/PipeInv.v ===== *)
(** * The invariant of a pipe

    The flags, the buffer and the stream of a pipe against the bytes it holds
    and the threads that wait, and what each function does to them. *)

From S2P Require Import Prelude Errno Wasip3 Pipe PipeHost.

(** ** Flags *)

(** [PIPE_*]: reader and writer alive, blocked, woken. *)
Record view := View { ro : bool; wo : bool; rb : bool; wb : bool; rw : bool; ww : bool }.

Definition fl (v : view) : Z :=
  Z.b2z (ro v) + 2 * Z.b2z (wo v) + 4 * Z.b2z (rb v) + 8 * Z.b2z (wb v) + 16 * Z.b2z (rw v) + 32 * Z.b2z (ww v).

Ltac by_bits := intros; repeat match goal with b : bool |- _ => destruct b end; reflexivity.

Lemma has_ro v : has (fl v) PIPE_READER_ALIVE = ro v.
Proof. destruct v; by_bits. Qed.
Lemma has_wo v : has (fl v) PIPE_WRITER_ALIVE = wo v.
Proof. destruct v; by_bits. Qed.
Lemma has_rb v : has (fl v) PIPE_READER_BLOCKED = rb v.
Proof. destruct v; by_bits. Qed.
Lemma has_wb v : has (fl v) PIPE_WRITER_BLOCKED = wb v.
Proof. destruct v; by_bits. Qed.
Lemma has_rw v : has (fl v) PIPE_READER_WOKEN = rw v.
Proof. destruct v; by_bits. Qed.
Lemma has_ww v : has (fl v) PIPE_WRITER_WOKEN = ww v.
Proof. destruct v; by_bits. Qed.
Lemma has_alive v : has (fl v) (Z.lor PIPE_READER_ALIVE PIPE_WRITER_ALIVE) = ro v || wo v.
Proof. destruct v; by_bits. Qed.
Lemma raise_rb v : Z.lor (fl v) PIPE_READER_BLOCKED = fl (View (ro v) (wo v) true (wb v) (rw v) (ww v)).
Proof. destruct v; by_bits. Qed.
Lemma raise_wb v : Z.lor (fl v) PIPE_WRITER_BLOCKED = fl (View (ro v) (wo v) (rb v) true (rw v) (ww v)).
Proof. destruct v; by_bits. Qed.
Lemma raise_rw v : Z.lor (fl v) PIPE_READER_WOKEN = fl (View (ro v) (wo v) (rb v) (wb v) true (ww v)).
Proof. destruct v; by_bits. Qed.
Lemma raise_ww v : Z.lor (fl v) PIPE_WRITER_WOKEN = fl (View (ro v) (wo v) (rb v) (wb v) (rw v) true).
Proof. destruct v; by_bits. Qed.
Lemma lower_ro v : Z.ldiff (fl v) PIPE_READER_ALIVE = fl (View false (wo v) (rb v) (wb v) (rw v) (ww v)).
Proof. destruct v; by_bits. Qed.
Lemma lower_wo v : Z.ldiff (fl v) PIPE_WRITER_ALIVE = fl (View (ro v) false (rb v) (wb v) (rw v) (ww v)).
Proof. destruct v; by_bits. Qed.
Lemma lower_rb v : Z.ldiff (fl v) PIPE_READER_BLOCKED = fl (View (ro v) (wo v) false (wb v) (rw v) (ww v)).
Proof. destruct v; by_bits. Qed.
Lemma lower_wb v : Z.ldiff (fl v) PIPE_WRITER_BLOCKED = fl (View (ro v) (wo v) (rb v) false (rw v) (ww v)).
Proof. destruct v; by_bits. Qed.
Lemma lower_rw v : Z.ldiff (fl v) PIPE_READER_WOKEN = fl (View (ro v) (wo v) (rb v) (wb v) false (ww v)).
Proof. destruct v; by_bits. Qed.
Lemma lower_ww v : Z.ldiff (fl v) PIPE_WRITER_WOKEN = fl (View (ro v) (wo v) (rb v) (wb v) (rw v) false).
Proof. destruct v; by_bits. Qed.

Create HintDb pflags.
#[export] Hint Rewrite has_ro has_wo has_rb has_wb has_rw has_ww has_alive raise_rb raise_wb raise_rw raise_ww lower_ro lower_wo lower_rb lower_wb lower_rw lower_ww : pflags.

Section inv.
Context `{HostU} `{!HostULaws}.

(** ** The state *)

(** [c] is what the buffer holds, [al] whether it is allocated. *)
Definition buffer_is (st : pipe_state_t) (c : list Z) (al : bool) : Prop :=
  match buffer st with
  | None => al = false /\ c = [] /\ buffer_len st = 0
  | Some b => al = true /\ length b = Z.to_nat PIPE_BUF /\ buffer_cap st = PIPE_BUF /\ 0 <= buffer_len st <= PIPE_BUF /\ c = take (Z.to_nat (buffer_len st)) b
  end.

Definition handles_are (st : pipe_state_t) (o : option ustream) : Prop :=
  match o with
  | None => stream_reader st = 0 /\ stream_writer st = 0
  | Some u => stream_reader st = u_r u /\ stream_writer st = u_w u /\ u_r u <> 0 /\ u_w u <> 0 /\ u_r u <> u_w u
  end.

Record core (s : pctx) (v : view) (c : list Z) (al : bool) (o : option ustream) : Prop := Core {
  c_state : exists st, pstate s = Some st /\ pflags st = fl v /\ buffer_is st c al /\ handles_are st o;
  c_stream : ustream_of (plog s) = o;
  c_legal : ulegal (plog s);
}.

(** What the functions of a pipe leave alone. *)
Record same (s s' : pctx) : Prop := Same {
  sm_rd : rd_blocking s' = rd_blocking s;
  sm_wr : wr_blocking s' = wr_blocking s;
}.
(** The sets have the members they had, and the stream its handles. *)
Record same_sets (s s' : pctx) : Prop := SameSets {
  ss_members set : umembers (plog s') set = umembers (plog s) set;
  ss_stream u : ustream_of (plog s) = Some u -> exists u', ustream_of (plog s') = Some u' /\ u_r u' = u_r u /\ u_w u' = u_w u;
}.

Lemma same_refl s : same s s.
Proof. done. Qed.
Lemma same_trans s1 s2 s3 : same s1 s2 -> same s2 s3 -> same s1 s3.
Proof. intros [] []. split; congruence. Qed.
Lemma same_sets_trans s1 s2 s3 : same_sets s1 s2 -> same_sets s2 s3 -> same_sets s1 s3.
Proof.
  intros [Hm1 Hu1] [Hm2 Hu2]. split; [intros set; by rewrite Hm2|]. intros u Hu. destruct (Hu1 u Hu) as (u1 & Hs1 & Er1 & Ew1). destruct (Hu2 u1 Hs1) as (u2 & Hs2 & Er2 & Ew2). exists u2. split; [done|]. split; congruence.
Qed.
Lemma same_sets_log s s' : plog s' = plog s -> same_sets s s'.
Proof. intros E. split; rewrite E; [done|]. intros u Hu. by exists u. Qed.

(** The state after the host was asked. *)
Definition asked (c : ucall) (s : pctx) : pctx := Pctx (pstate s) (rd_blocking s) (wr_blocking s) (penv s) (plog s ++ [EvU c (hostu (plog s) c)]).

Lemma wp_asku c s Q : Q (hostu (plog s) c) (asked c s) -> wp (asku c) Q s.
Proof. done. Qed.

Ltac ask := lazymatch goal with |- wp (asku ?c ≫= _) _ ?s => apply wp_bind; apply (wp_asku c s) end.

Definition is_new (c : ucall) : bool := match c with stream_new_unit => true | _ => false end.

Lemma uadvance_handles o c a : is_new c = false -> match uadvance o (EvU c a), o with Some u', Some u => u_r u' = u_r u /\ u_w u' = u_w u | None, None => True | _, _ => False end.
Proof.
  intros Hc. destruct o as [u|]; [|by destruct c]. destruct c; cbn; unfold on_r, on_w, meet_rd, meet_wr; try done; repeat (case_match; cbn); done.
Qed.

Lemma core_asked c s v q al o : is_new c = false -> core s v q al o -> uallowed (plog s) c ->
  uanswer_ok (plog s) c (hostu (plog s) c) /\ core (asked c s) v q al (uadvance o (EvU c (hostu (plog s) c))).
Proof.
  intros Hn [(st & Hs & Hf & Hb & Hh) Ho Hl] Ha. split; [by apply hostu_ok|]. split; [|cbn [asked plog]; by rewrite ustream_of_snoc, Ho|by apply ulegal_snoc]. exists st. split; [done|]. split; [done|]. split; [done|].
  pose proof (uadvance_handles o c (hostu (plog s) c) Hn) as Hu. unfold handles_are in *. destruct (uadvance _ _) as [u'|], o as [u|]; try done. destruct Hu as [-> ->]. done.
Qed.

Lemma same_asked c s : same s (asked c s).
Proof. done. Qed.
Lemma stream_asked c s u : is_new c = false -> ustream_of (plog s) = Some u -> exists u', ustream_of (plog (asked c s)) = Some u' /\ u_r u' = u_r u /\ u_w u' = u_w u.
Proof.
  intros Hn Hu. cbn [asked plog]. rewrite ustream_of_snoc, Hu. pose proof (uadvance_handles (Some u) c (hostu (plog s) c) Hn) as Hh. destruct (uadvance _ _) as [u'|]; [|done]. by exists u'.
Qed.
Lemma same_sets_asked c s : (match c with join _ _ | stream_new_unit => false | _ => true end) = true -> same_sets s (asked c s).
Proof. intros Hc. split; [intros set; cbn [asked plog]; rewrite umembers_snoc; by destruct c|]. intros u Hu. apply stream_asked; [by destruct c|done]. Qed.

Lemma wp_pipe_state s v c al o Q : core s v c al o -> (forall st, pstate s = Some st -> pflags st = fl v -> buffer_is st c al -> handles_are st o -> Q st s) -> wp pipe_state Q s.
Proof. intros [(st & Hs & Hf & Hb & Hh) _ _] HQ. unfold pipe_state. apply wp_bind, wp_gets. rewrite Hs. apply wp_ret. auto. Qed.

(** Changes of the flags. *)
Lemma wp_flags f v' s v c al o Q : core s v c al o -> (forall st, pflags st = fl v -> f st = set_pflags (fl v') st) ->
  (forall s', core s' v' c al o -> same s s' -> same_sets s s' -> plog s' = plog s -> Q tt s') -> wp (update_pipe f) Q s.
Proof.
  intros Hc Hf HQ. unfold update_pipe. apply wp_bind. eapply wp_pipe_state; [done|]. intros st Hs Hfl Hb Hh. apply wp_modify. apply HQ; [|done|by apply same_sets_log|done]. destruct Hc as [_ Ho Hl]. split; [|done..]. rewrite Hf by done. by exists (set_pflags (fl v') st).
Qed.

Lemma wp_flagged f s v c al o Q : core s v c al o -> Q (has (fl v) f) s -> wp (flagged f) Q s.
Proof. intros Hc HQ. unfold flagged. apply wp_bind. eapply wp_pipe_state; [done|]. intros st _ Hf _ _. apply wp_ret. by rewrite Hf. Qed.

Lemma wp_raise f v' s v c al o Q : core s v c al o -> Z.lor (fl v) f = fl v' ->
  (forall s', core s' v' c al o -> same s s' -> same_sets s s' -> plog s' = plog s -> Q tt s') -> wp (raise f) Q s.
Proof. intros Hc Hv HQ. eapply wp_flags; [done| |exact HQ]. intros st ->. by rewrite Hv. Qed.

Lemma wp_lower f v' s v c al o Q : core s v c al o -> Z.ldiff (fl v) f = fl v' ->
  (forall s', core s' v' c al o -> same s s' -> same_sets s s' -> plog s' = plog s -> Q tt s') -> wp (lower f) Q s.
Proof. intros Hc Hv HQ. eapply wp_flags; [done| |exact HQ]. intros st ->. by rewrite Hv. Qed.

(** ** Waking *)

(** A thread that waits has an operation at its end, ended when it was woken. *)
Definition estate (blocked woken : bool) : uend := if blocked then if woken then EArrived else EPending else EIdle.

Record linked (v : view) (o : option ustream) : Prop := Linked {
  lk_ends : match o with
            | None => rb v = false /\ wb v = false
            | Some u => u_rd u = estate (rb v) (rw v) /\ u_wr u = estate (wb v) (ww v)
            end;
  lk_rd : rw v = true -> rb v = true;
  lk_wr : ww v = true -> wb v = true;
}.

Definition good (s : pctx) (v : view) (c : list Z) (al : bool) : Prop := exists o, core s v c al o /\ linked v o.

Lemma on_r_self (f : ustream -> ustream) u : on_r (u_r u) f u = f u.
Proof. unfold on_r. by rewrite Z.eqb_refl. Qed.
Lemma on_w_self (f : ustream -> ustream) u : on_w (u_w u) f u = f u.
Proof. unfold on_w. by rewrite Z.eqb_refl. Qed.

(** A reader's wake of a writer meets the writer's operation. *)
Lemma wp_unblock_writer s v c al Q : good s v c al -> rb v = false ->
  (forall s', good s' (View (ro v) (wo v) (rb v) (wb v) (rw v) (wb v)) c al -> same s s' -> same_sets s s' -> Q tt s') -> wp pipe_unblock_writer Q s.
Proof.
  destruct v as [r w br bw wr ww']. cbn [rb ro wo wb rw ww]. intros (o & Hc & Hl) -> HQ. unfold pipe_unblock_writer. apply wp_bind. eapply wp_pipe_state; [done|]. intros st Hst Hf Hb Hh. rewrite Hf. autorewrite with pflags. cbn [rb wb rw ww]. destruct bw; cbn [negb].
  2:{ apply wp_ret, HQ; [|done|by apply same_sets_log]. exists o. destruct ww'; [|done]. by pose proof (lk_wr _ _ Hl eq_refl). }
  destruct o as [u|]; [|by destruct Hl as [[_ Hx] _ _]]. destruct Hh as (Er & Ew & Hr0 & Hw0 & Hne). rewrite Ew. apply wp_bind, wp_assert; [by rewrite (proj2 (Z.eqb_neq _ _))|].
  destruct ww'; [apply wp_ret, HQ; [|done|by apply same_sets_log]; by exists (Some u)|].
  apply wp_bind. eapply wp_raise; [done|apply raise_ww|]. intros s1 Hc1 Hs1 Hm1 Hl1. destruct Hl as [[Hrd Hwr] Hlr Hlw]. cbn [estate rb rw wb ww] in Hrd, Hwr.
  rewrite Er. destruct (core_asked (stream_read_unit (u_r u) 1) s1 _ c al _ eq_refl Hc1) as [Ha Hc2]; [exists u; rewrite (c_stream _ _ _ _ _ Hc1), Hrd, Hwr; done|].
  ask. cbn [uanswer_ok] in Ha. rewrite (Ha u (c_stream _ _ _ _ _ Hc1)), Hwr, decide_True by done. unfold assert_transferred. apply wp_bind, wp_assert; [done|]. apply wp_assert; [done|].
  apply HQ; [|by eapply same_trans; [|apply same_asked]|by eapply same_sets_trans; [|apply same_sets_asked]]. cbn [uadvance fmap option_fmap option_map] in Hc2. rewrite on_r_self in Hc2. unfold meet_rd in Hc2. rewrite Hwr, decide_True in Hc2 by done.
  exists (Some (set_wr EArrived u)). split; [done|]. by split.
Qed.

Lemma wp_unblock_reader s v c al Q : good s v c al -> wb v = false ->
  (forall s', good s' (View (ro v) (wo v) (rb v) (wb v) (rb v) (ww v)) c al -> same s s' -> same_sets s s' -> Q tt s') -> wp pipe_unblock_reader Q s.
Proof.
  destruct v as [r w br bw rw' ww']. cbn [rb ro wo wb rw ww]. intros (o & Hc & Hl) -> HQ. unfold pipe_unblock_reader. apply wp_bind. eapply wp_pipe_state; [done|]. intros st Hst Hf Hb Hh. rewrite Hf. autorewrite with pflags. cbn [rb wb rw ww]. destruct br; cbn [negb].
  2:{ apply wp_ret, HQ; [|done|by apply same_sets_log]. exists o. destruct rw'; [|done]. by pose proof (lk_rd _ _ Hl eq_refl). }
  destruct o as [u|]; [|by destruct Hl as [[Hx _] _ _]]. destruct Hh as (Er & Ew & Hr0 & Hw0 & Hne). rewrite Er. apply wp_bind, wp_assert; [by rewrite (proj2 (Z.eqb_neq _ _))|].
  destruct rw'; [apply wp_ret, HQ; [|done|by apply same_sets_log]; by exists (Some u)|].
  apply wp_bind. eapply wp_raise; [done|apply raise_rw|]. intros s1 Hc1 Hs1 Hm1 Hl1. destruct Hl as [[Hrd Hwr] Hlr Hlw]. cbn [estate rb rw wb ww] in Hrd, Hwr.
  rewrite Ew. destruct (core_asked (stream_write_unit (u_w u) 1) s1 _ c al _ eq_refl Hc1) as [Ha Hc2]; [exists u; rewrite (c_stream _ _ _ _ _ Hc1), Hrd, Hwr; done|].
  ask. cbn [uanswer_ok] in Ha. rewrite (Ha u (c_stream _ _ _ _ _ Hc1)), Hrd, decide_True by done. unfold assert_transferred. apply wp_bind, wp_assert; [done|]. apply wp_assert; [done|].
  apply HQ; [|by eapply same_trans; [|apply same_asked]|by eapply same_sets_trans; [|apply same_sets_asked]]. cbn [uadvance fmap option_fmap option_map] in Hc2. rewrite on_w_self in Hc2. unfold meet_wr in Hc2. rewrite Hrd, decide_True in Hc2 by done.
  exists (Some (set_rd EArrived u)). split; [done|]. by split.
Qed.

(** ** Starting to wait *)

Lemma wp_ensure_stream s v c al o Q : core s v c al o ->
  (forall s' u, core s' v c al (Some u) -> o = Some u \/ o = None /\ u_rd u = EIdle /\ u_wr u = EIdle -> same s s' -> same_sets s s' -> Q tt s') -> wp pipe_ensure_stream Q s.
Proof.
  intros Hc HQ. unfold pipe_ensure_stream. apply wp_bind. eapply wp_pipe_state; [done|]. intros st Hst Hf Hb Hh. destruct o as [u|].
  - destruct Hh as (Er & _ & Hr & _). rewrite Er, (proj2 (Z.eqb_neq _ _)) by done. apply wp_ret, (HQ s u); auto using same_refl, same_sets_log.
  - destruct Hh as [Er Ew]. rewrite Er. cbn [negb Z.eqb]. ask. pose proof (hostu_ok (plog s) stream_new_unit (c_legal _ _ _ _ _ Hc) I) as (H1 & H2 & H3). set (a := hostu (plog s) stream_new_unit) in *.
    set (u := Ustream (u32 a) (u32 (Z.shiftr a 32)) EIdle EIdle). unfold update_pipe. apply wp_bind, wp_bind. unfold pipe_state at 1. apply wp_bind, wp_gets. cbn [asked pstate]. rewrite Hst. apply wp_ret, wp_modify.
    assert (core (set_pstate (Some (set_streams (u32 a) (u32 (Z.shiftr a 32)) st)) (asked stream_new_unit s)) v c al (Some u)) as Hc'.
    { split; [|cbn [set_pstate asked plog]; by rewrite ustream_of_snoc|cbn [set_pstate asked plog]; apply ulegal_snoc; split; [apply Hc|done]]. eexists. split; [done|]. split; [done|]. split; [done|]. done. }
    apply wp_bind. eapply wp_pipe_state; [done|]. intros st' _ _ _ (Er' & Ew' & _). rewrite Er', Ew'. apply wp_bind, wp_assert; [by rewrite (proj2 (Z.eqb_neq _ _))|]. apply wp_assert; [by rewrite (proj2 (Z.eqb_neq _ _))|].
    apply (HQ _ u Hc'); [by right|done|]. split; [intros set; cbn [set_pstate asked plog]; by rewrite umembers_snoc|]. intros u' Hu'. by rewrite (c_stream _ _ _ _ _ Hc) in Hu'.
Qed.

Lemma wp_reader_enter s v c al Q : good s v c al -> rb v = false -> (wb v = true -> ww v = true) ->
  (forall s', good s' (View (ro v) (wo v) true (wb v) false (ww v)) c al -> same s s' -> same_sets s s' -> Q 0 s') -> wp pipe_block_reader_enter Q s.
Proof.
  destruct v as [r w br bw rw' ww']. cbn [rb ro wo wb rw ww]. intros (o & Hc & Hl) -> Hww HQ. assert (rw' = false) as -> by (destruct rw'; [|done]; by pose proof (lk_rd _ _ Hl eq_refl)).
  unfold pipe_block_reader_enter, pipe_block_enter. apply wp_bind, wp_bind. eapply wp_flagged; [done|]. autorewrite with pflags. cbn [rb]. apply wp_bind. eapply wp_flagged; [done|]. autorewrite with pflags. cbn [rw]. apply wp_bind, wp_assert; [done|].
  apply wp_bind. eapply wp_raise; [done|apply raise_rb|]. intros s1 Hc1 Hs1 Hm1 _. apply wp_ret. cbn [Z.ltb Z.compare]. apply wp_bind. eapply wp_ensure_stream; [done|]. intros s2 u Hc2 Hu Hs2 Hm2.
  assert (u_rd u = EIdle /\ u_wr u = estate bw ww') as [Hrd Hwr].
  { destruct Hl as [Hl _ _]. destruct Hu as [->|(-> & Hrd & Hwr)]; cbn [rb wb] in Hl; [exact Hl|]. destruct Hl as [_ ->]. done. }
  apply wp_bind. eapply wp_pipe_state; [done|]. intros st _ _ _ (Er & Ew & _). rewrite Er. assert (u_wr u <> EPending /\ u_wr u <> EGone) as [Hnp Hng] by (rewrite Hwr; destruct bw, ww'; cbn; try done; by specialize (Hww eq_refl)).
  destruct (core_asked (stream_read_unit (u_r u) 1) s2 _ c al _ eq_refl Hc2) as [Ha Hc3]; [exists u; by rewrite (c_stream _ _ _ _ _ Hc2)|]. ask. cbn [uanswer_ok] in Ha. rewrite (Ha u (c_stream _ _ _ _ _ Hc2)), decide_False by done. apply wp_bind, wp_assert; [done|]. apply wp_ret.
  apply HQ; [|eapply same_trans; [exact Hs1|]; by eapply same_trans; [|apply same_asked]|eapply same_sets_trans; [exact Hm1|]; by eapply same_sets_trans; [|apply same_sets_asked]].
  cbn [uadvance fmap option_fmap option_map] in Hc3. rewrite on_r_self in Hc3. unfold meet_rd in Hc3. rewrite decide_False in Hc3 by done. exists (Some (set_rd EPending u)). split; [done|]. split; [by split| |apply Hl]. done.
Qed.

Lemma wp_writer_enter s v c al Q : good s v c al -> wb v = false -> (rb v = true -> rw v = true) ->
  (forall s', good s' (View (ro v) (wo v) (rb v) true (rw v) false) c al -> same s s' -> same_sets s s' -> Q 0 s') -> wp pipe_block_writer_enter Q s.
Proof.
  destruct v as [r w br bw rw' ww']. cbn [rb ro wo wb rw ww]. intros (o & Hc & Hl) -> Hrw HQ. assert (ww' = false) as -> by (destruct ww'; [|done]; by pose proof (lk_wr _ _ Hl eq_refl)).
  unfold pipe_block_writer_enter, pipe_block_enter. apply wp_bind, wp_bind. eapply wp_flagged; [done|]. autorewrite with pflags. cbn [wb]. apply wp_bind. eapply wp_flagged; [done|]. autorewrite with pflags. cbn [ww]. apply wp_bind, wp_assert; [done|].
  apply wp_bind. eapply wp_raise; [done|apply raise_wb|]. intros s1 Hc1 Hs1 Hm1 _. apply wp_ret. cbn [Z.ltb Z.compare]. apply wp_bind. eapply wp_ensure_stream; [done|]. intros s2 u Hc2 Hu Hs2 Hm2.
  assert (u_wr u = EIdle /\ u_rd u = estate br rw') as [Hwr Hrd].
  { destruct Hl as [Hl _ _]. destruct Hu as [->|(-> & Hrd & Hwr)]; cbn [rb wb] in Hl; [destruct Hl; done|]. destruct Hl as [-> _]. done. }
  apply wp_bind. eapply wp_pipe_state; [done|]. intros st _ _ _ (Er & Ew & _). rewrite Ew. assert (u_rd u <> EPending /\ u_rd u <> EGone) as [Hnp Hng] by (rewrite Hrd; destruct br, rw'; cbn; try done; by specialize (Hrw eq_refl)).
  destruct (core_asked (stream_write_unit (u_w u) 1) s2 _ c al _ eq_refl Hc2) as [Ha Hc3]; [exists u; by rewrite (c_stream _ _ _ _ _ Hc2)|]. ask. cbn [uanswer_ok] in Ha. rewrite (Ha u (c_stream _ _ _ _ _ Hc2)), decide_False by done. apply wp_bind, wp_assert; [done|]. apply wp_ret.
  apply HQ; [|eapply same_trans; [exact Hs1|]; by eapply same_trans; [|apply same_asked]|eapply same_sets_trans; [exact Hm1|]; by eapply same_sets_trans; [|apply same_sets_asked]].
  cbn [uadvance fmap option_fmap option_map] in Hc3. rewrite on_w_self in Hc3. unfold meet_wr in Hc3. rewrite decide_False in Hc3 by done. exists (Some (set_wr EPending u)). split; [done|]. split; [by split|apply Hl|]. done.
Qed.

(** ** Threads that wait *)

(** A thread waits on the stream [h], alone in a set of its own. *)
Record parked_on (s : pctx) (p : parked) (h : Z) : Prop := ParkedOn {
  pk_stream : p_stream p = h;
  pk_set : p_set p <> 0;
  pk_members : umembers (plog s) (p_set p) = [h];
}.
(** The reader, or the writer, waits with [p]. *)
Definition reader_parked (s : pctx) (p : parked) : Prop := exists u, ustream_of (plog s) = Some u /\ parked_on s p (u_r u).
Definition writer_parked (s : pctx) (p : parked) : Prop := exists u, ustream_of (plog s) = Some u /\ parked_on s p (u_w u).

Lemma reader_parked_same s s' p : same_sets s s' -> reader_parked s p -> reader_parked s' p.
Proof. intros [Hm Hu] (u & E & [Hs Hn Hp]). destruct (Hu u E) as (u' & E' & Er & Ew). exists u'. split; [done|]. rewrite Er. split; [done..|]. by rewrite Hm. Qed.
Lemma writer_parked_same s s' p : same_sets s s' -> writer_parked s p -> writer_parked s' p.
Proof. intros [Hm Hu] (u & E & [Hs Hn Hp]). destruct (Hu u E) as (u' & E' & Er & Ew). exists u'. split; [done|]. rewrite Ew. split; [done..|]. by rewrite Hm. Qed.

(** A join of another stream to another set. *)
Lemma parked_join s p h w set : parked_on s p h -> h <> w -> set <> p_set p -> parked_on (asked (join w set) s) p h.
Proof.
  intros [Hs Hn Hm] Hne Hset. split; [done..|]. cbn [asked plog]. rewrite umembers_snoc. cbn [uenrol]. rewrite Hm, (proj2 (Z.eqb_neq _ _)) by done. rewrite filter_cons_True by done. done.
Qed.

Lemma wp_block_thread s v c al h Q : core s v c al h -> forall w,
  (forall s' p, core s' v c al h -> same s s' -> parked_on s' p w -> (forall p' h', h' <> w -> parked_on s p' h' -> parked_on s' p' h') -> Q p s') -> wp (pipe_block_thread w) Q s.
Proof.
  intros Hc w HQ. unfold pipe_block_thread. ask. pose proof (hostu_ok (plog s) set_new (c_legal _ _ _ _ _ Hc) I) as [Hn0 Hmem]. set (set := hostu (plog s) set_new) in *.
  destruct (core_asked set_new s _ _ _ _ eq_refl Hc I) as [_ Hc1]. ask. destruct (core_asked (join w set) _ _ _ _ _ eq_refl Hc1 I) as [_ Hc2]. apply wp_ret. apply HQ; [exact Hc2|done| |].
  - split; [done..|]. cbn [asked plog p_set]. rewrite !umembers_snoc. cbn [uenrol]. by rewrite Hmem, Z.eqb_refl.
  - intros p' h' Hne [Hs' Hn' Hm']. assert (set <> p_set p') as Hsp by (intros E; by rewrite <- E, Hmem in Hm'). apply parked_join; [|done..]. split; [done..|]. cbn [asked plog]. by rewrite umembers_snoc.
Qed.

(** Waking up: the event is taken. [is_r]: the stream is that of the reader. *)
Lemma wp_thread_woken s v c al u p (is_r : bool) Q : core s v c al (Some u) -> parked_on s p (if is_r then u_r u else u_w u) -> (if is_r then u_rd u else u_wr u) = EArrived ->
  (forall s', core s' v c al (Some (if is_r then set_rd EIdle u else set_wr EIdle u)) -> same s s' ->
     (forall p' h', h' <> (if is_r then u_r u else u_w u) -> parked_on s p' h' -> parked_on s' p' h') -> Q tt s') -> wp (pipe_block_thread_woken p) Q s.
Proof.
  intros Hc [Hps Hpn Hpm] He HQ. pose proof Hc as [(st & _ & _ & _ & (_ & _ & _ & _ & Hne)) Hst Hleg]. set (h := if is_r then u_r u else u_w u) in *. assert (end_of u h = Some EArrived) as Hend by (unfold end_of, h; destruct is_r; [by rewrite Z.eqb_refl, He|]; rewrite (proj2 (Z.eqb_neq _ _)), Z.eqb_refl, He by done; done).
  assert (h ∈ umembers (plog s) (p_set p)) as Hin by (rewrite Hpm; by left). unfold pipe_block_thread_woken. ask.
  destruct (core_asked (set_wait (p_set p)) s _ _ _ _ eq_refl Hc) as [Ha Hc1]; [exists u, h; auto|]. cbn [uanswer_ok] in Ha. destruct (Ha u Hst ltac:(by exists h)) as (Hw & _ & Hcode & Hev). set (e := hostu (plog s) (set_wait (p_set p))) in *.
  rewrite Hpm in Hw. apply list_elem_of_singleton in Hw. ask. destruct (core_asked (join (p_stream p) 0) _ _ _ _ _ eq_refl Hc1 I) as [_ Hc2].
  assert (umembers (plog (asked (join (p_stream p) 0) (asked (set_wait (p_set p)) s))) (p_set p) = []) as Hmt.
  { cbn [asked plog]. rewrite !umembers_snoc. cbn [uenrol]. rewrite Hpm, Hps, (proj2 (Z.eqb_neq _ _)) by done. rewrite filter_cons_False by (intros Hx; by apply Hx). done. }
  ask. destruct (core_asked (set_drop (p_set p)) _ _ _ _ _ eq_refl Hc2 Hmt) as [_ Hc3].
  apply wp_bind, wp_assert; [rewrite Hev; by destruct (_ =? _)|]. apply wp_bind, wp_assert; [rewrite Hw, Hps; apply Z.eqb_refl|]. rewrite Hcode. cbv zeta. apply wp_bind, wp_assert; [done|]. apply wp_bind, wp_assert; [done|]. apply wp_assert; [done|].
  apply HQ; [|done|].
  - cbn [uadvance fmap option_fmap option_map] in Hc3. fold e in Hc3. rewrite Hw in Hc3. unfold h in Hc3. destruct is_r.
    + rewrite on_r_self in Hc3. unfold on_w in Hc3. cbn [set_rd u_w] in Hc3. by rewrite (proj2 (Z.eqb_neq _ _)) in Hc3.
    + unfold on_r in Hc3. rewrite (proj2 (Z.eqb_neq _ _)) in Hc3 by done. by rewrite on_w_self in Hc3.
  - intros p' h' Hh' [Hs' Hn' Hm']. split; [done..|]. cbn [asked plog]. rewrite !umembers_snoc. cbn [uenrol]. rewrite Hm', Hps, (proj2 (Z.eqb_neq _ _)) by done. rewrite filter_cons_True by done. done.
Qed.


(** A thread goes on after its wait: it is woken, and no longer blocked. *)
Lemma wp_reader_resume {B} (k : M pctx B) s v c al p Q : good s v c al -> rb v = true -> rw v = true -> reader_parked s p ->
  (forall s', good s' (View (ro v) (wo v) false (wb v) false (ww v)) c al -> same s s' -> (forall p', writer_parked s p' -> writer_parked s' p') -> wp k Q s') ->
  wp (pipe_block_thread_woken p ;; pipe_block_reader_exit ;; k) Q s.
Proof.
  destruct v as [r w br bw rw' ww']. cbn [rb ro wo wb rw ww]. intros (o & Hc & Hl) -> -> (u & Hu & Hp) HQ. rewrite (c_stream _ _ _ _ _ Hc) in Hu. subst o. pose proof Hl as [[Hrd Hwr] Hlr Hlw]. pose proof Hc as [(st & _ & _ & _ & (_ & _ & _ & _ & Hne)) _ _].
  apply wp_bind. eapply (wp_thread_woken s _ c al u p true); [done..|]. intros s1 Hc1 Hs1 Hk1. apply wp_bind. unfold pipe_block_reader_exit, pipe_block_exit. apply wp_bind, wp_bind. eapply wp_flagged; [done|]. autorewrite with pflags. cbn [rw].
  apply wp_bind. eapply wp_lower; [done|apply lower_rw|]. intros s2 Hc2 Hs2 Hm2 El2. apply wp_bind. eapply wp_lower; [done|apply lower_rb|]. intros s3 Hc3 Hs3 Hm3 El3. apply wp_ret. cbn [negb]. apply wp_bind, wp_ret, wp_ret.
  apply HQ; [|eapply same_trans; [done|]; by eapply same_trans|].
  - eexists. split; [exact Hc3|]. split; [by split|done|exact Hlw].
  - intros p' (u' & Hu' & Hp'). rewrite (c_stream _ _ _ _ _ Hc) in Hu'. injection Hu' as <-. apply (writer_parked_same s1); [by apply (same_sets_trans s1 s2 s3)|]. exists (set_rd EIdle u). split; [apply Hc1|]. by apply Hk1.
Qed.

Lemma wp_writer_resume {B} (k : M pctx B) s v c al p Q : good s v c al -> wb v = true -> ww v = true -> writer_parked s p ->
  (forall s', good s' (View (ro v) (wo v) (rb v) false (rw v) false) c al -> same s s' -> (forall p', reader_parked s p' -> reader_parked s' p') -> wp k Q s') ->
  wp (pipe_block_thread_woken p ;; pipe_block_writer_exit ;; k) Q s.
Proof.
  destruct v as [r w br bw rw' ww']. cbn [rb ro wo wb rw ww]. intros (o & Hc & Hl) -> -> (u & Hu & Hp) HQ. rewrite (c_stream _ _ _ _ _ Hc) in Hu. subst o. pose proof Hl as [[Hrd Hwr] Hlr Hlw]. pose proof Hc as [(st & _ & _ & _ & (_ & _ & _ & _ & Hne)) _ _].
  apply wp_bind. eapply (wp_thread_woken s _ c al u p false); [done..|]. intros s1 Hc1 Hs1 Hk1. apply wp_bind. unfold pipe_block_writer_exit, pipe_block_exit. apply wp_bind, wp_bind. eapply wp_flagged; [done|]. autorewrite with pflags. cbn [ww].
  apply wp_bind. eapply wp_lower; [done|apply lower_ww|]. intros s2 Hc2 Hs2 Hm2 El2. apply wp_bind. eapply wp_lower; [done|apply lower_wb|]. intros s3 Hc3 Hs3 Hm3 El3. apply wp_ret. cbn [negb]. apply wp_bind, wp_ret, wp_ret.
  apply HQ; [|eapply same_trans; [done|]; by eapply same_trans|].
  - eexists. split; [exact Hc3|]. split; [by split|exact Hlr|done].
  - intros p' (u' & Hu' & Hp'). rewrite (c_stream _ _ _ _ _ Hc) in Hu'. injection Hu' as <-. apply (reader_parked_same s1); [by apply (same_sets_trans s1 s2 s3)|]. exists (set_wr EIdle u). split; [apply Hc1|]. by apply Hk1.
Qed.

(** ** The buffer *)

(** A change of the buffer. *)
Lemma wp_buffer f s v c al c' al' Q : good s v c al -> (forall st, buffer_is st c al -> pflags (f st) = pflags st /\ stream_reader (f st) = stream_reader st /\ stream_writer (f st) = stream_writer st /\ buffer_is (f st) c' al') ->
  (forall s', good s' v c' al' -> same s s' -> same_sets s s' -> Q tt s') -> wp (update_pipe f) Q s.
Proof.
  intros (o & Hc & Hl) Hf HQ. unfold update_pipe. apply wp_bind. eapply wp_pipe_state; [done|]. intros st Hs Hfl Hb Hh. apply wp_modify. destruct (Hf st Hb) as (E1 & E2 & E3 & Hb'). apply HQ; [|done|by apply same_sets_log]. exists o. split; [|done]. destruct Hc as [_ Ho Hleg]. split; [|done..]. exists (f st). split; [done|]. split; [congruence|]. split; [done|]. unfold handles_are in *. rewrite E2, E3. done.
Qed.

Lemma buffer_len_is st c al : buffer_is st c al -> buffer_len st = Z.of_nat (length c) /\ (length c <= Z.to_nat PIPE_BUF)%nat.
Proof.
  unfold buffer_is, PIPE_BUF. destruct (buffer st) as [b|]; [|intros (_ & -> & ->); split; [done|cbn [length]; lia]]. intros (_ & Hb & _ & Hl & ->). rewrite length_take. lia.
Qed.

Lemma wp_take_bytes s v c al amt Q : good s v c al -> 0 < amt <= Z.of_nat (length c) ->
  (forall s', good s' v (drop (Z.to_nat amt) c) al -> same s s' -> same_sets s s' -> Q (take (Z.to_nat amt) c) s') -> wp (take_bytes amt) Q s.
Proof.
  intros Hg Hamt HQ. unfold take_bytes. apply wp_bind. pose proof Hg as (o & Hc & _). eapply wp_pipe_state; [done|]. intros st Hs Hfl Hb Hh. pose proof (buffer_len_is _ _ _ Hb) as [El Hlen]. pose proof Hb as Hb0. unfold buffer_is in Hb. destruct (buffer st) as [b|] eqn:Eb; [|destruct Hb as (_ & -> & _); cbn in Hamt; lia].
  destruct Hb as (-> & Hbl & Hcap & Hr & Ec). apply wp_bind, wp_ret. rewrite (proj2 (Z.leb_le amt _)), (proj2 (Z.leb_le (buffer_len st) _)) by (unfold PIPE_BUF in *; lia). cbn [andb]. cbv zeta.
  apply wp_bind. eapply (wp_buffer _ s v c true (drop (Z.to_nat amt) c) true); [done| |].
  - intros st' Hb'. split; [done|]. split; [done|]. split; [done|]. unfold buffer_is, set_buffer, PIPE_BUF in *. cbn [buffer buffer_len buffer_cap]. rewrite length_app, !length_drop, length_take. split; [done|]. split; [lia|]. split; [done|]. split; [lia|]. rewrite <- Ec. rewrite take_app_le by (rewrite length_drop; lia). rewrite take_ge; [done|]. rewrite length_drop. lia.
  - intros s' Hg' Hs' Hm'. apply wp_ret. replace (take (Z.to_nat amt) b) with (take (Z.to_nat amt) c) by (rewrite Ec, take_take; f_equal; lia). by apply HQ.
Qed.

Lemma wp_put_bytes s v c bs Q : good s v c true -> Z.of_nat (length c + length bs) <= PIPE_BUF ->
  (forall s', good s' v (c ++ bs) true -> same s s' -> same_sets s s' -> Q tt s') -> wp (put_bytes bs) Q s.
Proof.
  intros Hg Hfit HQ. unfold put_bytes. apply wp_bind. pose proof Hg as (o & Hc & _). eapply wp_pipe_state; [done|]. intros st Hs Hfl Hb Hh. pose proof (buffer_len_is _ _ _ Hb) as [El Hlen]. pose proof Hb as Hb0. unfold buffer_is in Hb. destruct (buffer st) as [b|] eqn:Eb; [|by destruct Hb].
  destruct Hb as (_ & Hbl & Hcap & Hr & Ec). apply wp_bind, wp_ret. cbv zeta. rewrite (proj2 (Z.leb_le _ _)) by (unfold PIPE_BUF in *; lia). eapply (wp_buffer _ s v c true (c ++ bs) true); [done| |exact HQ].
  intros st' Hb'. split; [done|]. split; [done|]. split; [done|]. unfold buffer_is, set_buffer, PIPE_BUF in *. cbn [buffer buffer_len buffer_cap]. rewrite !length_app, length_drop, length_take. split; [done|]. split; [lia|]. split; [done|]. split; [lia|].
  rewrite <- Ec, (assoc_L (++)). rewrite take_app_le by (rewrite length_app; lia). rewrite take_ge; [done|]. rewrite length_app. lia.
Qed.

Lemma good_env s s' v c al : pstate s' = pstate s -> plog s' = plog s -> good s v c al -> good s' v c al.
Proof. intros Es El (o & [Hs Ho Hl] & Hk). exists o. split; [|done]. split; rewrite ?Es, ?El; done. Qed.

Lemma update_pipe_done f s st : pstate s = Some st -> update_pipe f s = Done tt (set_pstate (Some (f st)) s).
Proof. intros Hs. unfold update_pipe, pipe_state, mbind, M_bind, gets, get. cbn. by rewrite Hs. Qed.

(** A state with another buffer. *)
Lemma good_buffer s s' v c al c' al' st st' : good s v c al -> pstate s = Some st -> pstate s' = Some st' -> plog s' = plog s ->
  pflags st' = pflags st -> stream_reader st' = stream_reader st -> stream_writer st' = stream_writer st -> buffer_is st' c' al' -> good s' v c' al'.
Proof.
  intros (o & [(st0 & Hs0 & Hf & _ & Hh) Ho Hl] & Hk) Hs Hs' El Ef Er Ew Hb. rewrite Hs in Hs0. injection Hs0 as <-. exists o. split; [|done]. split; rewrite ?El; [|done..]. exists st'. split; [done|]. split; [congruence|]. split; [done|]. unfold handles_are in *. by rewrite Er, Ew.
Qed.

Lemma take_alloc_pipe s : exists ok e, take_alloc s = (ok, Pctx (pstate s) (rd_blocking s) (wr_blocking s) e (plog s)).
Proof. cbn [take_alloc pctx_libc]. destruct (take_alloc (penv s)) as [ok e]. by exists ok, e. Qed.

Lemma wp_lazy_buffer s v c al Q : good s v c al ->
  (forall s', good s' v c true -> same s s' -> same_sets s s' -> Q true s') ->
  (forall s', al = false -> good s' v c false -> same s s' -> same_sets s s' -> errno s' = ENOMEM -> Q false s') -> wp lazy_buffer Q s.
Proof.
  intros Hg Hok Hno. unfold lazy_buffer. apply wp_bind. pose proof Hg as (o & Hc & _). eapply wp_pipe_state; [done|]. intros st Hs Hfl Hb Hh. unfold buffer_is in Hb. destruct (buffer st) as [b|] eqn:Eb.
  - destruct Hb as [-> _]. apply wp_ret, Hok; [done..|by apply same_sets_log].
  - destruct Hb as (-> & -> & El). apply wp_bind. unfold wp at 1. rewrite (update_pipe_done _ s st Hs). set (s1 := set_pstate _ s). apply wp_bind. unfold alloc_ok, wp at 1. destruct (take_alloc_pipe s1) as (ok & e & ->). destruct ok.
    + apply wp_bind. unfold wp at 1. erewrite update_pipe_done by done. apply wp_ret, Hok; [|done|by apply same_sets_log]. eapply good_buffer; [exact Hg|exact Hs|done..|]. unfold buffer_is. cbn [set_buffer buffer buffer_len buffer_cap]. rewrite length_replicate, El. unfold PIPE_BUF. split; [done|]. split; [done|]. split; [done|]. split; [lia|done].
    + unfold fail_with. apply wp_bind, wp_set_errno, wp_ret, Hno; [done| |done|by apply same_sets_log|done]. eapply good_buffer; [exact Hg|exact Hs|done..|]. unfold buffer_is. cbn [set_buffer buffer buffer_len]. done.
Qed.
End inv.
