(* ===== verification/PipeProps.v ===== *)
(** * Pipes are queues

    Threads that use a pipe, one at each end, see a queue of bytes; no wake-up
    is lost, and the component model's rules are kept. *)

From S2P Require Import Prelude Errno Wasip3 Pipe PipeHost PipeSpec PipeInv.

Section props.
Context `{HostU} `{!HostULaws}.

Definition is_some {A} (o : option A) : bool := match o with Some _ => true | None => false end.

(** A pipe in use stands for a queue. *)
Record in_use (t : threads) (q : queue) (v : view) : Prop := InUse {
  iu_good : good (pipe_ctx t) v (content q) (allocated q);
  iu_ro : ro v = r_open q;
  iu_wo : wo v = w_open q;
  iu_rb : rb v = is_some (reading t);
  iu_wb : wb v = is_some (writing t);
  iu_rblock : rd_blocking (pipe_ctx t) = r_block q;
  iu_wblock : wr_blocking (pipe_ctx t) = w_block q;
  iu_rwait : r_wait q = snd <$> reading t;
  iu_wwait : w_wait q = snd <$> writing t;
  iu_reader p len : reading t = Some (p, len) -> reader_parked (pipe_ctx t) p /\ 0 < len /\ r_open q = true;
  iu_writer p data : writing t = Some (p, data) -> writer_parked (pipe_ctx t) p /\ data <> [] /\ Z.of_nat (length data) < 2 ^ 32 /\ w_open q = true /\ allocated q = true;
  iu_rstuck : rb v = true -> rw v = false -> content q = [] /\ w_open q = true;
  iu_wstuck p data : writing t = Some (p, data) -> ww v = false -> fits q data = false /\ r_open q = true;
}.

(** A pipe both ends of which were closed. *)
Record closed_pipe (t : threads) (q : queue) : Prop := ClosedPipe {
  cl_state : pstate (pipe_ctx t) = None;
  cl_legal : ulegal (plog (pipe_ctx t));
  cl_r : reading t = None;
  cl_w : writing t = None;
}.

Definition rel (t : threads) (q : queue) : Prop := (exists v, in_use t q v) \/ closed_pipe t q.

(** A write that does not fit finds bytes in the buffer. *)
Lemma stuck_content q data : data <> [] -> fits q data = false -> content q <> [].
Proof.
  intros Hd Hf E. unfold fits, room in Hf. rewrite E in Hf. cbn [length] in Hf. unfold PIPE_BUF in Hf. destruct (Z.ltb_spec 4096 (Z.of_nat (length data))) as [Hl|Hl]; [done|]. cbn [orb] in Hf. rewrite (proj2 (Z.leb_le _ _)) in Hf by lia. done.
Qed.

(** What a part of a read leaves. *)
Definition read_done (len : Z) (wr : option (parked * list Z)) (r : out * queue) (pr : progress) (s : pctx) : Prop :=
  match pr with
  | Returned n bytes => of_progress n bytes s = r.1 /\ exists v, in_use (Threads s None wr) r.2 v
  | Waiting p => r.1 = Waits /\ exists v, in_use (Threads s (Some (p, len)) wr) r.2 v
  end.

(** A step of the reader, the writer being elsewhere. *)
Lemma reader_next s s' rd wr q v v' c' rd' : in_use (Threads s rd wr) q v -> good s' v' c' (allocated q) -> ro v' = ro v -> wo v' = wo v -> rb v' = is_some rd' -> wb v' = wb v -> same s s' ->
  (forall p, writer_parked s p -> writer_parked s' p) -> (forall p len, rd' = Some (p, len) -> reader_parked s' p /\ 0 < len /\ r_open q = true) -> (rb v' = true -> rw v' = false -> c' = [] /\ w_open q = true) ->
  (forall p data, wr = Some (p, data) -> ww v' = false -> ww v = false /\ c' = content q) ->
  in_use (Threads s' rd' wr) (Queue c' (allocated q) (r_open q) (w_open q) (r_block q) (w_block q) (snd <$> rd') (w_wait q)) v'.
Proof.
  intros [Hg Hro Hwo Hrb Hwb Hrbl Hwbl Hrw Hww Hr Hwr Hrs Hws] Hg' Ero Ewo Erb Ewb [Esr Esw] Hwp Hrp Hrst Hwst. cbn [pipe_ctx reading writing] in *. split; cbn [pipe_ctx reading writing content allocated r_open w_open r_block w_block r_wait w_wait]; try done; try congruence.
  - intros p data E. destruct (Hwr p data E) as (Hp & ? & ? & ? & ?). auto.
  - intros p data E Eww. destruct (Hwst p data E Eww) as [E1 ->]. destruct (Hws p data E E1) as [Hf Ho]. split; [|done]. unfold fits, room in *. done.
Qed.

(** A step of the writer. *)
Lemma writer_next s s' rd wr q v v' c' wr' : in_use (Threads s rd wr) q v -> good s' v' c' true -> ro v' = ro v -> wo v' = wo v -> rb v' = rb v -> wb v' = is_some wr' -> same s s' ->
  (forall p, reader_parked s p -> reader_parked s' p) -> (forall p data, wr' = Some (p, data) -> writer_parked s' p /\ data <> [] /\ Z.of_nat (length data) < 2 ^ 32 /\ w_open q = true) -> (rb v' = true -> rw v' = false -> rw v = false /\ c' = content q) ->
  (forall p data, wr' = Some (p, data) -> ww v' = false -> c' = content q /\ fits q data = false /\ r_open q = true) ->
  in_use (Threads s' rd wr') (Queue c' true (r_open q) (w_open q) (r_block q) (w_block q) (r_wait q) (snd <$> wr')) v'.
Proof.
  intros [Hg Hro Hwo Hrb Hwb Hrbl Hwbl Hrw Hww Hr Hwr Hrs Hws] Hg' Ero Ewo Erb Ewb [Esr Esw] Hrp Hwp Hrst Hwst. cbn [pipe_ctx reading writing] in *. split; cbn [pipe_ctx reading writing content allocated r_open w_open r_block w_block r_wait w_wait]; try done; try congruence.
  - intros p len E. destruct (Hr p len E) as (Hp & ? & ?). auto.
  - intros p data E. destruct (Hwp p data E) as (? & ? & ? & ?). auto.
  - intros Eb Ew. destruct (Hrst Eb Ew) as [E1 ->]. apply Hrs; [by rewrite <- Erb|done].
  - intros p data E Eww. destruct (Hwst p data E Eww) as (-> & Hf & Ho). done.
Qed.

Lemma same_refl_ctx s : same s s.
Proof. done. Qed.

Lemma recv_turn_ok s wr q v len : in_use (Threads s None wr) q v -> r_open q = true -> 0 < len ->
  wp (recv_turn len) (read_done len wr (q_read q len)) s.
Proof.
  intros Hiu Hopen Hlen. pose proof Hiu as [Hg Hro Hwo Hrb Hwb Hrbl Hwbl Hrw Hww _ Hwr _ Hst]. cbn [pipe_ctx reading writing is_some] in *. unfold recv_turn. apply wp_bind. pose proof Hg as (o & Hc & Hlk). eapply wp_pipe_state; [done|]. intros st Hs Hfl Hb Hh. pose proof (buffer_len_is _ _ _ Hb) as [El Hle]. rewrite El, Hfl, has_wo. unfold q_read.
  assert (rw v = false) as Erw by (destruct (rw v) eqn:E; [|done]; by rewrite (lk_rd _ _ Hlk E) in Hrb).
  destruct (decide (content q = [])) as [Ec|Ec].
  - rewrite bool_decide_eq_true_2 by done. rewrite Ec. cbn [length negb Z.of_nat Z.eqb]. rewrite Hwo.
    assert (forall s', pstate s' = pstate s -> plog s' = plog s -> same s s' -> exists v, in_use (Threads s' None wr) (Queue [] (allocated q) (r_open q) (w_open q) (r_block q) (w_block q) None (w_wait q)) v) as Hstay.
    { intros s' E1 E2 Hsm. exists v. rewrite <- Ec. apply (reader_next s s' None wr q v v (content q) None); try done; [by eapply good_env|intros p; by apply writer_parked_same, same_sets_log|by rewrite Hrb]. }
    destruct (w_open q) eqn:Ewo; cbn [negb]; [|apply wp_ret; split; [done|]; by apply Hstay]. apply wp_bind. unfold blocking_of. apply wp_gets. rewrite Hrbl. destruct (r_block q) eqn:Erbl; cbn [negb].
    2:{ unfold fail_with. apply wp_bind, wp_set_errno, wp_ret. split; [done|]. by apply Hstay. }
    apply wp_bind. eapply wp_reader_enter; [done|done| |].
    { intros Ew. destruct (ww v) eqn:E; [done|]. rewrite Hwb in Ew. destruct wr as [[p data]|]; [|done]. destruct (Hst p data eq_refl eq_refl) as [Hf _]. destruct (Hwr p data eq_refl) as (_ & Hd & _). by destruct (stuck_content q data Hd Hf). }
    intros s1 Hg1 Hs1 Hm1. cbn [Z.ltb Z.compare]. apply wp_bind. pose proof Hg1 as (o1 & Hc1 & Hlk1). eapply wp_pipe_state; [done|]. intros st1 _ _ _ Hh1. destruct o1 as [u1|]; [|by destruct Hlk1 as [[Hx _] _ _]]. destruct Hh1 as (Er1 & Ew1 & _ & _ & Hne1). rewrite Er1.
    apply wp_bind. eapply wp_block_thread; [done|]. intros s2 p Hc2 Hs2 Hp2 Hk2. apply wp_ret. split; [done|]. exists (View (ro v) (wo v) true (wb v) false (ww v)). cbn [snd].
    replace (Queue [] _ _ _ _ _ _ _) with (Queue [] (allocated q) (r_open q) (w_open q) (r_block q) (w_block q) (snd <$> Some (p, len)) (w_wait q)) by (by rewrite Ewo, Erbl). apply (reader_next s s2 None wr q v _ [] (Some (p, len))); try done; [exists (Some u1); by rewrite <- Ec|by eapply same_trans| |].
    + intros p' Hp'. apply (writer_parked_same s s1 _ Hm1) in Hp' as (u' & Hu' & Hp'). rewrite (c_stream _ _ _ _ _ Hc1) in Hu'. injection Hu' as <-. exists u1. split; [apply Hc2|]. by apply Hk2.
    + intros p' len' [= <- <-]. split; [|done]. exists u1. split; [apply Hc2|done].
  - rewrite bool_decide_eq_false_2 by done. cbn [negb]. assert (0 < length (content q))%nat as Hpos by (destruct (content q); [done|cbn; lia]). rewrite (proj2 (Z.eqb_neq _ _)) by lia. cbn [negb]. set (amt := if len <? Z.of_nat (length (content q)) then len else Z.of_nat (length (content q))).
    assert (amt = Z.min len (Z.of_nat (length (content q)))) as Ea by (unfold amt; destruct (Z.ltb_spec len (Z.of_nat (length (content q)))); lia). apply wp_bind. eapply wp_take_bytes; [done|lia|]. intros s1 Hg1 Hs1 Hm1. apply wp_bind. eapply wp_unblock_writer; [done|done|]. intros s2 Hg2 Hs2 Hm2. apply wp_ret.
    assert (take (Z.to_nat amt) (content q) = take (Z.to_nat len) (content q) /\ drop (Z.to_nat amt) (content q) = drop (Z.to_nat len) (content q)) as [Et Ed].
    { destruct (Z.leb_spec len (Z.of_nat (length (content q)))); [replace amt with len by lia; done|]. rewrite !take_ge, !drop_ge by lia. done. }
    rewrite Et. split; [unfold of_progress; rewrite (proj2 (Z.eqb_neq _ _)) by lia; by rewrite Ea|]. rewrite Ed in *. eexists. apply (reader_next s s2 None wr q v _ _ None); try done; [by eapply same_trans|intros p Hp; eapply writer_parked_same; [done|]; by eapply writer_parked_same|cbn; by rewrite Hrb|].
    intros p data E Ew. cbn in Ew. rewrite Hwb, E in Ew. done.
Qed.

(** What a part of a write leaves. *)
Definition write_done (data : list Z) (rd : option (parked * Z)) (r : out * queue) (pr : progress) (s : pctx) : Prop :=
  match pr with
  | Returned n _ => of_progress n (take (Z.to_nat n) data) s = r.1 /\ exists v, in_use (Threads s rd None) r.2 v
  | Waiting p => r.1 = Waits /\ exists v, in_use (Threads s rd (Some (p, data))) r.2 v
  end.

(** The test of [pipe_sendto], on what the buffer holds. *)
Lemma fits_test q st data : buffer_is st (content q) true -> Z.of_nat (length data) < 2 ^ 32 ->
  u32 (buffer_cap st - buffer_len st) = room q /\ (0 <? room q) && (negb (Z.of_nat (length data) <=? PIPE_BUF) || (Z.of_nat (length data) <=? room q)) = fits q data /\ 0 <= room q.
Proof.
  intros Hb Hl. pose proof (buffer_len_is _ _ _ Hb) as [El Hle]. unfold buffer_is in Hb. destruct (buffer st) as [b|]; [|by destruct Hb]. destruct Hb as (_ & _ & Ecap & _ & _). unfold room, fits, u32, PIPE_BUF in *. rewrite Ecap, El, Z.mod_small by lia. split; [done|]. split; [|lia]. f_equal. f_equal. apply eq_true_iff_eq. rewrite negb_true_iff, Z.leb_gt, Z.ltb_lt. lia.
Qed.

Lemma send_turn_ok s rd q v data : in_use (Threads s rd None) q v -> w_open q = true -> allocated q = true -> data <> [] -> Z.of_nat (length data) < 2 ^ 32 ->
  wp (send_turn data) (write_done data rd (q_write q data)) s.
Proof.
  intros Hiu Hopen Hal Hd Hdl. pose proof Hiu as [Hg Hro Hwo Hrb Hwb Hrbl Hwbl Hrw Hww Hr _ Hst _]. cbn [pipe_ctx reading writing is_some] in *. rewrite Hal in Hg. unfold send_turn. cbv zeta. apply wp_bind. pose proof Hg as (o & Hc & Hlk). eapply wp_pipe_state; [done|]. intros st Hs Hfl Hb Hh. destruct (fits_test q st data Hb Hdl) as (-> & Hfit & Hroom). rewrite Hfit, Hfl, has_ro, Hro. unfold q_write.
  assert (ww v = false) as Eww by (destruct (ww v) eqn:E; [|done]; by rewrite (lk_wr _ _ Hlk E) in Hwb).
  assert (forall s', pstate s' = pstate s -> plog s' = plog s -> same s s' -> exists v, in_use (Threads s' rd None) (Queue (content q) true (r_open q) (w_open q) (r_block q) (w_block q) (r_wait q) None) v) as Hstay.
  { intros s' E1 E2 Hsm. exists v. apply (writer_next s s' rd None q v v (content q) None); try done; [by eapply good_env|intros p; by apply reader_parked_same, same_sets_log]. }
  destruct (r_open q) eqn:Ero; cbn [negb]; [|unfold fail_with; apply wp_bind, wp_set_errno, wp_ret; split; [done|]; by apply Hstay]. destruct (fits q data) eqn:Ef.
  - set (amt := if Z.of_nat (length data) <? room q then Z.of_nat (length data) else room q). assert (amt = Z.min (Z.of_nat (length data)) (room q)) as Ea by (unfold amt; destruct (Z.ltb_spec (Z.of_nat (length data)) (room q)); lia). rewrite <- Ea.
    apply wp_bind. eapply wp_put_bytes; [done|rewrite length_take; unfold room in *; lia|]. intros s1 Hg1 Hs1 Hm1. apply wp_bind. eapply wp_unblock_reader; [done|done|]. intros s2 Hg2 Hs2 Hm2. apply wp_ret. split; [unfold of_progress; by rewrite (proj2 (Z.eqb_neq _ _)) by lia|]. eexists.
    replace (Queue _ true true (w_open q) (r_block q) (w_block q) (r_wait q) None) with (Queue (content q ++ take (Z.to_nat amt) data) true (r_open q) (w_open q) (r_block q) (w_block q) (r_wait q) (snd <$> (None : option (parked * list Z)))) by (by rewrite Ero).
    apply (writer_next s s2 rd None q v _ _ None); try done; [by eapply same_trans|intros p Hp; eapply reader_parked_same; [done|]; by eapply reader_parked_same|]. cbn [rb rw]. intros E1 E2. congruence.
  - apply wp_bind. unfold blocking_of. apply wp_gets. rewrite Hwbl. destruct (w_block q) eqn:Ewbl; cbn [negb]; [|unfold fail_with; apply wp_bind, wp_set_errno, wp_ret; split; [done|]; by apply Hstay].
    apply wp_bind. eapply wp_writer_enter; [done|done| |].
    { intros Eb. destruct (rw v) eqn:E; [done|]. destruct (Hst Eb eq_refl) as [Ec _]. by destruct (stuck_content q data Hd Ef). }
    intros s1 Hg1 Hs1 Hm1. cbn [Z.ltb Z.compare]. apply wp_bind. pose proof Hg1 as (o1 & Hc1 & Hlk1). eapply wp_pipe_state; [done|]. intros st1 _ _ _ Hh1. destruct o1 as [u1|]; [|by destruct Hlk1 as [[_ Hx] _ _]]. destruct Hh1 as (Er1 & Ew1 & _ & _ & Hne1). rewrite Ew1.
    apply wp_bind. eapply wp_block_thread; [done|]. intros s2 p Hc2 Hs2 Hp2 Hk2. apply wp_ret. split; [done|]. exists (View (ro v) (wo v) (rb v) true (rw v) false). cbn [snd].
    replace (Queue _ _ _ _ _ _ _ _) with (Queue (content q) true (r_open q) (w_open q) (r_block q) (w_block q) (r_wait q) (snd <$> Some (p, data))) by (by rewrite Ero, Ewbl). apply (writer_next s s2 rd None q v _ (content q) (Some (p, data))); try done; [by exists (Some u1)|by eapply same_trans| | |].
    + intros p' Hp'. apply (reader_parked_same s s1 _ Hm1) in Hp' as (u' & Hu' & Hp'). rewrite (c_stream _ _ _ _ _ Hc1) in Hu'. injection Hu' as <-. exists u1. split; [apply Hc2|]. by apply Hk2.
    + intros p' data' [= <- <-]. split; [|done]. exists u1. split; [apply Hc2|done].
    + intros p' data' [= <- <-] _. done.
Qed.

(** ** Closing *)

Lemma state_free_ok s v c al : good s v c al -> ro v = false -> wo v = false -> rb v = false -> wb v = false -> wp pipe_state_free (fun _ s' => pstate s' = None /\ ulegal (plog s')) s.
Proof.
  destruct v as [r w br bw rw' ww']. cbn [ro wo rb wb]. intros (o & Hc & Hl) -> -> -> ->. unfold pipe_state_free. apply wp_bind. eapply wp_pipe_state; [done|]. intros st Hs Hf Hb Hh. rewrite Hf. autorewrite with pflags. cbn [ro wo]. apply wp_bind, wp_assert; [done|]. apply wp_bind, wp_assert; [done|].
  destruct o as [u|]; [|destruct Hh as [-> ->]; cbn [negb Z.eqb]; apply wp_bind, wp_ret, wp_bind, wp_ret, wp_modify; split; [done|apply Hc]]. destruct Hh as (Er & Ew & Hr & Hw & Hne). destruct Hl as [[Hrd Hwr] _ _]. cbn [estate rb rw wb ww] in Hrd, Hwr. rewrite Er, Ew, !(proj2 (Z.eqb_neq _ _)) by done. cbn [negb].
  destruct (core_asked (stream_drop_readable_unit (u_r u)) s _ _ _ _ eq_refl Hc) as [_ Hc1]; [exists u; by rewrite (c_stream _ _ _ _ _ Hc)|]. apply wp_bind, (wp_asku (stream_drop_readable_unit (u_r u)) s). cbn [uadvance fmap option_fmap option_map] in Hc1. rewrite on_r_self in Hc1.
  destruct (core_asked (stream_drop_writable_unit (u_w u)) _ _ _ _ _ eq_refl Hc1) as [_ Hc2]; [exists (set_rd EGone u); by rewrite (c_stream _ _ _ _ _ Hc1)|]. apply wp_bind, (wp_asku (stream_drop_writable_unit (u_w u))). apply wp_modify. split; [done|apply Hc2].
Qed.

Lemma close_reader_ok t q v : in_use t q v -> reading t = None -> r_open q = true -> wp (pipe_free true) (fun _ s => rel (Threads s None (writing t)) (q_step true q (AClose true)).2) (pipe_ctx t).
Proof.
  intros [Hg Hro Hwo Hrb Hwb Hrbl Hwbl Hrw Hww Hr Hwr Hrs Hws] Hrd Hopen. rewrite Hrd in *. destruct t as [s rd wr]. cbn [pipe_ctx reading writing is_some] in *. unfold pipe_free. pose proof Hg as (o & Hc & Hl). apply wp_bind. eapply wp_lower; [done|apply lower_ro|]. intros s1 Hc1 Hs1 Hm1 _.
  assert (good s1 (View false (wo v) (rb v) (wb v) (rw v) (ww v)) (content q) (allocated q)) as Hg1 by (exists o; split; [done|]; by destruct Hl). apply wp_bind. eapply wp_flagged; [done|]. autorewrite with pflags. cbn [ro wo orb]. destruct (wo v) eqn:Ewo; cbn [negb].
  - apply wp_bind, wp_bind. eapply wp_unblock_writer; [done|done|]. cbn [ro wo rb wb rw ww]. intros s2 Hg2 Hs2 Hm2. apply wp_ret, wp_ret. left. eexists. assert (same s s2) as [E1 E2] by (by eapply same_trans). cbn [q_step snd]. rewrite <- Hwo. split; cbn [pipe_ctx reading writing content allocated r_open w_open r_block w_block r_wait w_wait rb wb rw ww ro wo is_some andb]; try done; try congruence; [by rewrite Hopen| |by rewrite Hrb|].
    + intros p data E. destruct (Hwr p data E) as (Hp & ? & ? & ? & ?). split; [|done]. eapply writer_parked_same; [done|]. by eapply writer_parked_same.
    + intros p data E Ew. rewrite Hwb, E in Ew. done.
  - apply wp_bind, wp_ret. assert (wb v = false) as Ewb by (rewrite Hwb; destruct wr as [[p data]|]; [|done]; destruct (Hwr p data eq_refl) as (_ & _ & _ & ? & _); congruence). eapply wp_mono; [by eapply state_free_ok|]. intros _ s' [E El]. right. split; try done. cbn [writing]. destruct wr; [by rewrite Ewb in Hwb|done].
Qed.

Lemma close_writer_ok t q v : in_use t q v -> writing t = None -> w_open q = true -> wp (pipe_free false) (fun _ s => rel (Threads s (reading t) None) (q_step true q (AClose false)).2) (pipe_ctx t).
Proof.
  intros [Hg Hro Hwo Hrb Hwb Hrbl Hwbl Hrw Hww Hr Hwr Hrs Hws] Hwd Hopen. rewrite Hwd in *. destruct t as [s rd wr]. cbn [pipe_ctx reading writing is_some] in *. unfold pipe_free. pose proof Hg as (o & Hc & Hl). apply wp_bind. eapply wp_lower; [done|apply lower_wo|]. intros s1 Hc1 Hs1 Hm1 _.
  assert (good s1 (View (ro v) false (rb v) (wb v) (rw v) (ww v)) (content q) (allocated q)) as Hg1 by (exists o; split; [done|]; by destruct Hl). apply wp_bind. eapply wp_flagged; [done|]. autorewrite with pflags. cbn [ro wo orb]. rewrite orb_false_r. destruct (ro v) eqn:Ero; cbn [negb].
  - apply wp_bind, wp_bind. eapply wp_unblock_reader; [done|done|]. cbn [ro wo rb wb rw ww]. intros s2 Hg2 Hs2 Hm2. apply wp_ret, wp_ret. left. eexists. assert (same s s2) as [E1 E2] by (by eapply same_trans). cbn [q_step snd]. rewrite <- Hro. split; cbn [pipe_ctx reading writing content allocated r_open w_open r_block w_block r_wait w_wait rb wb rw ww ro wo is_some andb negb]; try done; try congruence; [by rewrite Hopen| |].
    2:{ intros Eb Ew. cbn [rb rw] in Eb, Ew. congruence. }
    intros p len E. destruct (Hr p len E) as (Hp & ? & ?). split; [|done]. eapply reader_parked_same; [done|]. by eapply reader_parked_same.
  - apply wp_bind, wp_ret. assert (rb v = false) as Erb by (rewrite Hrb; destruct rd as [[p len]|]; [|done]; destruct (Hr p len eq_refl) as (_ & _ & ?); congruence). eapply wp_mono; [by eapply state_free_ok|]. intros _ s' [E El]. right. split; try done. cbn [reading]. destruct rd; [by rewrite Erb in Hrb|done].
Qed.

(** ** Every action *)

Lemma alive_open t q v reader : in_use t q v -> alive reader t -> (if reader then r_open q else w_open q) = true.
Proof.
  intros Hiu (st & Hs & Hf). pose proof Hiu as [(o & [(st' & Hs' & Hfl & _) _ _] & _) Hro Hwo _ _ _ _ _ _ _ _ _ _]. rewrite Hs in Hs'. injection Hs' as <-. rewrite Hfl in Hf. destruct reader; [by rewrite has_ro, Hro in Hf|by rewrite has_wo, Hwo in Hf].
Qed.

Lemma estate_arrived b w : estate b w = EArrived <-> b = true /\ w = true.
Proof. destruct b, w; cbn; split; (done || intros [? ?]; done). Qed.

(** The event of a thread has arrived exactly when it was woken. *)
Lemma reader_arrived t q v p len : in_use t q v -> reading t = Some (p, len) -> arrived p t <-> rw v = true.
Proof.
  intros Hiu Hrd. pose proof Hiu as [(o & Hc & Hl) _ _ Hrb _ _ _ _ _ Hr _ _ _]. destruct (Hr p len Hrd) as ((u & Hu & [Hps _ _]) & _). rewrite (c_stream _ _ _ _ _ Hc) in Hu. subst o. destruct Hl as [[Erd _] _ _]. unfold arrived. rewrite (c_stream _ _ _ _ _ Hc), Hps. rewrite Hrd in Hrb. cbn in Hrb. split.
  - intros (u' & [= <-] & He). unfold end_of in He. rewrite Z.eqb_refl, Erd in He. injection He as He. by apply estate_arrived in He as [_ ?].
  - intros E. exists u. split; [done|]. unfold end_of. rewrite Z.eqb_refl, Erd. f_equal. by apply estate_arrived.
Qed.

Lemma writer_arrived t q v p data : in_use t q v -> writing t = Some (p, data) -> arrived p t <-> ww v = true.
Proof.
  intros Hiu Hwd. pose proof Hiu as [(o & Hc & Hl) _ _ _ Hwb _ _ _ _ _ Hw _ _]. destruct (Hw p data Hwd) as ((u & Hu & [Hps _ _]) & _). rewrite (c_stream _ _ _ _ _ Hc) in Hu. subst o. pose proof Hc as [(st & _ & _ & _ & (_ & _ & _ & _ & Hne)) _ _]. destruct Hl as [[_ Ewr] _ _]. unfold arrived. rewrite (c_stream _ _ _ _ _ Hc), Hps. rewrite Hwd in Hwb. cbn in Hwb.
  assert (end_of u (u_w u) = Some (u_wr u)) as He by (unfold end_of; rewrite (proj2 (Z.eqb_neq _ _)), Z.eqb_refl by done; done). rewrite Ewr in He. split.
  - intros (u' & [= <-] & He'). rewrite He in He'. injection He' as He'. by apply estate_arrived in He' as [_ ?].
  - intros E. exists u. split; [done|]. rewrite He. f_equal. by apply estate_arrived.
Qed.

(** The answer [ok] of the allocator with which the queue does the same. *)
Definition simulates (t : threads) (q : queue) (a : action) : Prop :=
  exists ok o t', act a t = Done o t' /\ (q_step ok q a).1 = o /\ rel t' (q_step ok q a).2.

Lemma read_part_ok t q a len m ok : q_step ok q a = q_read q len -> act a t = read_part len m t -> wp m (read_done len (writing t) (q_read q len)) (pipe_ctx t) -> simulates t q a.
Proof.
  intros Eq Ea Hwp. exists ok. rewrite Eq, Ea. unfold read_part. apply wp_done in Hwp as (pr & s & -> & Hd). destruct pr as [n bs|p]; cbn [read_done] in Hd; destruct Hd as (E & v & Hv); eexists _, _; (split; [done|]); (split; [by rewrite ?E|]); left; eauto.
Qed.

Lemma write_part_ok t q a data m ok : q_step ok q a = q_write q data -> act a t = write_part data m t -> wp m (write_done data (reading t) (q_write q data)) (pipe_ctx t) -> simulates t q a.
Proof.
  intros Eq Ea Hwp. exists ok. rewrite Eq, Ea. unfold write_part. apply wp_done in Hwp as (pr & s & -> & Hd). destruct pr as [n bs|p]; cbn [write_done] in Hd; destruct Hd as (E & v & Hv); eexists _, _; (split; [done|]); (split; [by rewrite ?E|]); left; eauto.
Qed.

Lemma read_ok t q v len : in_use t q v -> reading t = None -> r_open q = true -> 0 <= len -> simulates t q (ARead len).
Proof.
  intros Hiu Hrd Hro Hlen. destruct t as [s rd wr]. cbn [reading] in Hrd. subst rd. pose proof Hiu as [(o & [(st & Hs & _) _ _] & _) _ _ _ _ _ _ _ _ _ _ _ _]. cbn [pipe_ctx] in Hs. assert (forall (k : M pctx progress), (pipe_state ;; k) s = k s) as Est by (intros k; apply (bind_done pipe_state (fun _ => k) s st s); unfold pipe_state, mbind, M_bind, gets, get; cbn; by rewrite Hs). destruct (Z.eqb_spec len 0) as [->|Hne].
  - exists true. eexists _, _. split; [|split; [done|left; exists v; exact Hiu]]. cbn [act]. unfold read_part, pipe_recvfrom. cbn [negb orb Z.eqb pipe_ctx]. rewrite Est. done.
  - eapply (read_part_ok _ _ _ len _ true); [cbn [q_step]; by rewrite (proj2 (Z.eqb_neq _ _))|done|]. unfold pipe_recvfrom, wp. cbn [negb orb Z.eqb pipe_ctx]. rewrite Est, (proj2 (Z.eqb_neq _ _)) by done. by apply (recv_turn_ok s wr q v len); [..|lia].
Qed.

Lemma allocate_in_use s s' rd q v : in_use (Threads s rd None) q v -> good s' v (content q) true -> same s s' -> same_sets s s' ->
  in_use (Threads s' rd None) (Queue (content q) true (r_open q) (w_open q) (r_block q) (w_block q) (r_wait q) (w_wait q)) v.
Proof.
  intros Hiu Hg Hs Hm. pose proof Hiu as [_ _ _ _ Hwb _ _ _ Hww _ _ _ _]. cbn [writing] in *. rewrite Hww. apply (writer_next s s' rd None q v v (content q) None); try done. intros p. by apply reader_parked_same.
Qed.

Lemma write_ok t q v data : in_use t q v -> writing t = None -> w_open q = true -> Z.of_nat (length data) < 2 ^ 32 -> simulates t q (AWrite data).
Proof.
  intros Hiu Hwd Hwo Hlen. destruct t as [s rd wr]. cbn [writing] in Hwd. subst wr. pose proof Hiu as [Hg _ _ _ _ _ _ _ _ _ _ _ _]. cbn [pipe_ctx] in Hg. pose proof Hg as (o & [(st & Hs & _) _ _] & _). assert (forall (k : M pctx progress), (pipe_state ;; k) s = k s) as Est by (intros k; apply (bind_done pipe_state (fun _ => k) s st s); unfold pipe_state, mbind, M_bind, gets, get; cbn; by rewrite Hs). destruct (decide (data = [])) as [->|Hne].
  - exists true. eexists _, _. split; [|split; [done|left; exists v; exact Hiu]]. cbn [act]. unfold write_part, pipe_sendto. cbn [negb orb Z.eqb pipe_ctx]. rewrite Est. done.
  - assert (wp lazy_buffer (fun b s' => if b : bool then exists v, in_use (Threads s' rd None) (Queue (content q) true (r_open q) (w_open q) (r_block q) (w_block q) (r_wait q) (w_wait q)) v else allocated q = false /\ errno s' = ENOMEM /\ exists v, in_use (Threads s' rd None) q v) s) as Hlb.
    { eapply wp_lazy_buffer; [exact Hg| |].
      - intros s' Hg' Hs' Hm'. exists v. by apply (allocate_in_use s).
      - intros s' Eal Hg' Hs' Hm' Ee. split; [done|]. split; [done|]. exists v. destruct Hs' as [E1 E2]. rewrite <- Eal in Hg'. destruct Hiu as [_ Hro' Hwo' Hrb Hwb Hrbl Hwbl Hrw Hww Hr Hwr Hrs Hws]. cbn [pipe_ctx reading writing] in *. split; cbn [pipe_ctx reading writing]; try done; try congruence. intros p len E. destruct (Hr p len E) as (Hp & ? & ?). split; [|done]. by eapply reader_parked_same. }
    apply wp_done in Hlb as (b & s' & Hrun & Hb). assert ((pipe_sendto false data 0 false 0) s = (if negb b then mret (Returned (-1) []) else send_turn data) s') as Hsend.
    { unfold pipe_sendto. cbn [negb orb Z.eqb]. rewrite Est. rewrite (proj2 (Z.eqb_neq _ _)) by (destruct data; [done|cbn [length]; lia]). by rewrite (bind_done _ _ _ _ _ Hrun). }
    destruct b; cbn [negb] in Hsend.
    + destruct Hb as [v' Hv']. eapply (write_part_ok _ _ _ data _ true); [cbn [q_step]; rewrite bool_decide_eq_false_2 by done; cbn [negb]; by rewrite andb_false_r|done|]. unfold wp. cbn [pipe_ctx reading]. rewrite Hsend. pose proof (send_turn_ok s' rd _ v' data Hv' Hwo eq_refl Hne Hlen) as Hst. unfold wp in Hst. unfold q_write, fits, room in *. cbn in *. exact Hst.
    + destruct Hb as (Eal & Ee & v' & Hv'). exists false. eexists _, _. split; [cbn [act]; unfold write_part; cbn [pipe_ctx]; by rewrite Hsend|]. cbn [q_step]. rewrite bool_decide_eq_false_2 by done. rewrite Eal. cbn [negb andb fst snd]. split; [unfold of_progress; cbn; by rewrite <- Ee|]. left. by exists v'.
Qed.

Lemma reader_goes_on t q v p len : in_use t q v -> reading t = Some (p, len) -> rw v = true -> simulates t q AReaderWoken.
Proof.
  intros Hiu Hrd Erw. destruct t as [s rd wr]. cbn [reading] in Hrd. subst rd. pose proof Hiu as [Hg Hro Hwo Hrb Hwb Hrbl Hwbl Hrw Hww Hr Hwr Hrs Hws]. cbn [pipe_ctx reading writing is_some fmap option_fmap option_map snd] in *. destruct (Hr p len eq_refl) as (Hp & Hlen & Hopen).
  eapply (read_part_ok _ _ _ len _ true); [cbn [q_step]; by rewrite Hrw|done|]. cbn [pipe_ctx writing]. unfold recv_woken. eapply wp_reader_resume; [done..|]. intros s' Hg' Hs' Hk'.
  set (q0 := Queue (content q) (allocated q) (r_open q) (w_open q) (r_block q) (w_block q) None (w_wait q)). assert (in_use (Threads s' None wr) q0 (View (ro v) (wo v) false (wb v) false (ww v))) as Hiu' by (by apply (reader_next s s' (Some (p, len)) wr q v _ (content q) None)).
  exact (recv_turn_ok s' wr q0 _ len Hiu' Hopen Hlen).
Qed.

Lemma writer_goes_on t q v p data : in_use t q v -> writing t = Some (p, data) -> ww v = true -> simulates t q AWriterWoken.
Proof.
  intros Hiu Hwd Eww. destruct t as [s rd wr]. cbn [writing] in Hwd. subst wr. pose proof Hiu as [Hg Hro Hwo Hrb Hwb Hrbl Hwbl Hrw Hww Hr Hwr Hrs Hws]. cbn [pipe_ctx reading writing is_some fmap option_fmap option_map snd] in *. destruct (Hwr p data eq_refl) as (Hp & Hd & Hlen & Hopen & Hal).
  eapply (write_part_ok _ _ _ data _ true); [cbn [q_step]; by rewrite Hww|done|]. cbn [pipe_ctx reading]. unfold send_woken. rewrite Hal in Hg. eapply wp_writer_resume; [done..|]. intros s' Hg' Hs' Hk'.
  set (q0 := Queue (content q) true (r_open q) (w_open q) (r_block q) (w_block q) (r_wait q) None). assert (in_use (Threads s' rd None) q0 (View (ro v) (wo v) (rb v) false (rw v) false)) as Hiu' by (by apply (writer_next s s' rd (Some (p, data)) q v _ (content q) None)).
  exact (send_turn_ok s' rd q0 _ data Hiu' Hopen eq_refl Hd Hlen).
Qed.

Lemma set_blocking_ok t q v reader b : in_use t q v -> simulates t q (ASetBlocking reader b).
Proof.
  intros Hiu. destruct t as [s rd wr]. pose proof Hiu as [(o & [(st & Hs & _) _ _] & _) _ _ _ _ _ _ _ _ _ _ _ _]. exists true. eexists _, _. cbn [act q_step fst snd]. split; [unfold on_pipe, pipe_set_blocking, pipe_state, mbind, M_bind, gets, get; cbn in *; by rewrite Hs|]. split; [done|]. left. exists v. destruct Hiu as [Hg Hro Hwo Hrb Hwb Hrbl Hwbl Hrw Hww Hr Hwr Hrs Hws]. cbn [pipe_ctx reading writing] in *.
  split; try done; cbn [pipe_ctx content allocated r_block w_block]; [by eapply good_env; [..|exact Hg]; destruct reader|by destruct reader..|intros p len E; destruct (Hr p len E) as [Hp ?]; split; [|done]; eapply reader_parked_same; [|exact Hp]; apply same_sets_log; by destruct reader|].
  intros p data E. destruct (Hwr p data E) as [Hp ?]. split; [|done]. eapply writer_parked_same; [|exact Hp]. apply same_sets_log. by destruct reader.
Qed.

Lemma close_ok t q v reader : in_use t q v -> alive reader t -> (if reader then reading t = None else writing t = None) -> simulates t q (AClose reader).
Proof.
  intros Hiu Hal Hidle. pose proof (alive_open _ _ _ _ Hiu Hal) as Hopen. exists true. destruct reader; cbn [act]; unfold on_pipe.
  - pose proof (close_reader_ok _ _ _ Hiu Hidle Hopen) as Hwp. apply wp_done in Hwp as ([] & s & -> & Hrel). rewrite Hidle. eexists _, _. done.
  - pose proof (close_writer_ok _ _ _ Hiu Hidle Hopen) as Hwp. apply wp_done in Hwp as ([] & s & -> & Hrel). rewrite Hidle. eexists _, _. done.
Qed.

Lemma act_ok t q a : rel t q -> enabled t a -> simulates t q a.
Proof.
  intros [[v Hiu]|[Hs _ Hr Hw]] Hen.
  - destruct a as [len|data| | |reader|reader b]; cbn [enabled] in Hen.
    + destruct Hen as (Hrd & Hal & Hlen). exact (read_ok t q v len Hiu Hrd (alive_open _ _ _ _ Hiu Hal) Hlen).
    + destruct Hen as (Hwd & Hal & Hlen). exact (write_ok t q v data Hiu Hwd (alive_open _ _ _ _ Hiu Hal) Hlen).
    + destruct Hen as (p & len & Hrd & Harr). apply (reader_goes_on t q v p len); [done..|]. by apply (reader_arrived t q v p len).
    + destruct Hen as (p & data & Hwd & Harr). apply (writer_goes_on t q v p data); [done..|]. by apply (writer_arrived t q v p data).
    + destruct Hen as [Hal Hidle]. by apply (close_ok t q v).
    + by apply (set_blocking_ok t q v).
  - destruct a; cbn [enabled] in Hen; [destruct Hen as (_ & (st & E & _) & _)|destruct Hen as (_ & (st & E & _) & _)|destruct Hen as (p & l & E & _)|destruct Hen as (p & l & E & _)|destruct Hen as [(st & E & _) _]|destruct Hen as (st & E & _)]; congruence.
Qed.

Lemma new_pipe_rel b e : rel (new_pipe b e) (empty_queue b).
Proof.
  left. exists (View true true false false false false). split; try done. exists None. split; [|done]. split; [|done..]. eexists. split; [done|]. split; [done|]. split; done.
Qed.

Lemma runs_rel b e tr t : runs (new_pipe b e) tr t -> exists q, q_runs (empty_queue b) tr q /\ rel t q.
Proof.
  remember (new_pipe b e) as t0 eqn:E0. induction 1 as [t|t tr t1 a o t2 Hr IH Hen Hact]; subst; [exists (empty_queue b); split; [constructor|apply new_pipe_rel]|].
  destruct (IH eq_refl) as (q & Hq & Hrel). destruct (act_ok t1 q a Hrel Hen) as (ok & o' & t' & Hact' & Eo & Hrel'). rewrite Hact in Hact'. injection Hact' as <- <-. exists (q_step ok q a).2. split; [|done]. rewrite <- Eo. by constructor.
Qed.

Lemma rel_legal t q : rel t q -> ulegal (plog (pipe_ctx t)).
Proof. intros [[v [(o & Hc & _) _ _ _ _ _ _ _ _ _ _ _ _]]|Hcl]; [apply Hc|apply Hcl]. Qed.
End props.

(** C14: a pipe is a queue. Whatever the threads of a program do with a pipe,
    one at each end, and in whatever order they are scheduled, every call goes
    on to return or to wait, no assertion fails, the rules of the component
    model are kept, and what the calls give is what a queue of [PIPE_BUF] bytes
    gives: writes of at most [PIPE_BUF] bytes are not split, a read of an empty
    queue ends when the writer is gone, a write fails with EPIPE when the
    reader is, and the bytes read are the bytes written, in order. *)
Theorem pipe_refines_queue `{HostU} `{!HostULaws} b e tr t a :
  runs (new_pipe b e) tr t -> enabled t a ->
  exists q ok o t', q_runs (empty_queue b) tr q /\ act a t = Done o t' /\ ulegal (plog (pipe_ctx t')) /\ o = (q_step ok q a).1 /\
    bytes_written tr = bytes_read tr ++ content q.
Proof.
  intros Hr Hen. destruct (runs_rel b e tr t Hr) as (q & Hq & Hrel). destruct (act_ok t q a Hrel Hen) as (ok & o & t' & Hact & Eo & Hrel'). exists q, ok, o, t'. split; [done|]. split; [done|]. split; [by eapply rel_legal|]. split; [done|]. apply (q_runs_order _ _ _ Hq).
Qed.

(** C15: no wake-up of a pipe is lost. A thread that waits to read can go on
    as soon as there is a byte to read or the writer is gone, one that waits to
    write as soon as its bytes fit or the reader is gone; so two threads never
    both wait for each other. *)
Theorem pipe_wakes `{HostU} `{!HostULaws} b e tr t :
  runs (new_pipe b e) tr t ->
  exists q, q_runs (empty_queue b) tr q /\
    (forall p len, reading t = Some (p, len) -> content q <> [] \/ w_open q = false -> enabled t AReaderWoken) /\
    (forall p data, writing t = Some (p, data) -> fits q data = true \/ r_open q = false -> enabled t AWriterWoken) /\
    (reading t <> None -> writing t <> None -> enabled t AReaderWoken \/ enabled t AWriterWoken).
Proof.
  intros Hr. destruct (runs_rel b e tr t Hr) as (q & Hq & [[v Hiu]|[_ _ Hcr Hcw]]); exists q; (split; [done|]); [|by rewrite Hcr, Hcw].
  pose proof Hiu as [_ _ _ Hrb _ _ _ _ _ _ Hwr Hrs Hws].
  assert (forall p len, reading t = Some (p, len) -> rw v = true -> enabled t AReaderWoken) as Hgr by (intros p len E Ew; exists p, len; split; [done|]; by apply (reader_arrived t q v p len)).
  assert (forall p data, writing t = Some (p, data) -> ww v = true -> enabled t AWriterWoken) as Hgw by (intros p data E Ew; exists p, data; split; [done|]; by apply (writer_arrived t q v p data)).
  split; [|split].
  - intros p len E Hor. apply (Hgr p len E). destruct (rw v) eqn:Ew; [done|]. rewrite E in Hrb. destruct (Hrs Hrb eq_refl) as [Ec Eo]. destruct Hor; congruence.
  - intros p data E Hor. apply (Hgw p data E). destruct (ww v) eqn:Ew; [done|]. destruct (Hws p data E eq_refl) as [Ef Eo]. destruct Hor; congruence.
  - intros Hrd Hwd. destruct (reading t) as [[p len]|] eqn:Er; [|done]. destruct (writing t) as [[p' data]|] eqn:Ew; [|done]. destruct (rw v) eqn:Erw; [left; by eapply Hgr|]. right. eapply Hgw; [done|]. destruct (ww v) eqn:Eww; [done|]. destruct (Hrs Hrb eq_refl) as [Ec _]. destruct (Hws p' data eq_refl eq_refl) as [Ef _]. destruct (Hwr p' data eq_refl) as (_ & Hd & _). by destruct (stuck_content q data Hd Ef).
Qed.

(** ** A second reader *)

Section second.
Context `{HostU} `{!HostULaws}.

(** The state a call leads to, however it ends. *)
Definition final {A} (o : outcome pctx A) : pctx := match o with Done _ s | Stop _ s => s end.

Lemma take_bytes_done (s : pctx) st b amt :
  pstate s = Some st -> buffer st = Some b -> amt <= buffer_len st <= Z.of_nat (length b) ->
  exists bs st', take_bytes amt s = Done bs (set_pstate (Some st') s) /\ pflags st' = pflags st /\
    stream_reader st' = stream_reader st /\ stream_writer st' = stream_writer st.
Proof.
  intros Hs Hb Ha. unfold take_bytes, pipe_state. rewrite (bind_done (gets pstate ≫= _) _ s st s) by (unfold mbind, M_bind, gets; cbn; by rewrite Hs).
  rewrite Hb. rewrite (bind_done (deref (Some b)) _ s b s) by done. rewrite (proj2 (Z.leb_le amt _)), (proj2 (Z.leb_le _ (Z.of_nat _))) by lia. cbn [andb]. cbv zeta.
  rewrite (bind_done _ _ _ _ _ (update_pipe_done _ s st Hs)). eexists _, _. done.
Qed.

(** The log is that of [m]: [f] asks nothing. *)
Lemma final_bind {A B} (m : M pctx A) (f : A -> M pctx B) s :
  (forall a s', plog (final (f a s')) = plog s') -> plog (final ((m ≫= f) s)) = plog (final (m s)).
Proof. intros Hf. unfold mbind, M_bind. destruct (m s) as [a s'|r s']; [apply Hf|done]. Qed.

(** The wake of a writer by a thread other than the reader that waits: the
    reader's end of the stream is busy. *)
Lemma unblock_writer_busy (s : pctx) st u :
  pstate s = Some st -> has (pflags st) PIPE_WRITER_BLOCKED = true -> has (pflags st) PIPE_WRITER_WOKEN = false ->
  stream_reader st = u_r u -> stream_writer st <> 0 -> ustream_of (plog s) = Some u -> u_rd u <> EIdle ->
  exists c a, plog (final (pipe_unblock_writer s)) = plog s ++ [EvU c a] /\ ~ uallowed (plog s) c.
Proof.
  intros Hs Hb Hw Hr Hn Hu Hi. exists (stream_read_unit (u_r u) 1), (hostu (plog s) (stream_read_unit (u_r u) 1)). split.
  - unfold pipe_unblock_writer, pipe_state. rewrite (bind_done (gets pstate ≫= _) _ s st s) by (unfold mbind, M_bind, gets; cbn; by rewrite Hs).
    rewrite Hb, Hw, Hr, (proj2 (Z.eqb_neq _ _) Hn). cbn [negb]. rewrite (bind_done (assert_ true) _ s tt s) by done.
    unfold raise. rewrite (bind_done _ _ _ _ _ (update_pipe_done _ s st Hs)).
    rewrite final_bind; [done|]. intros status s'. unfold assert_transferred. rewrite final_bind; [|intros []]; unfold assert_; by case_match.
  - intros (u' & Hu' & _ & Hi' & _). rewrite Hu in Hu'. by injection Hu' as <-.
Qed.
End second.

(** C39: two readers can break the rules of the host. In every state that
    threads, one at each end, can reach in which a reader and a writer wait and
    the writer was not woken yet, the call of another reader of the same pipe
    takes its bytes and then asks the host, to wake the writer, for a read on
    the end of the stream whose operation the first reader has not taken the
    event of, which the host does not allow: the call of the second reader is
    not refused before it traps. *)
Theorem second_reader_traps `{HostU} `{!HostULaws} b e tr t p n p' data len :
  runs (new_pipe b e) tr t -> reading t = Some (p, n) -> writing t = Some (p', data) -> ~ arrived p' t -> 0 < len ->
  exists c a, plog (final (pipe_recvfrom true len 0 false false (pipe_ctx t))) = plog (pipe_ctx t) ++ [EvU c a] /\
    ~ uallowed (plog (pipe_ctx t)) c.
Proof.
  intros Hr Hrd Hwd Hna Hlen. destruct (runs_rel b e tr t Hr) as (q & _ & [[v Hiu]|[_ _ ? _]]); [|congruence].
  pose proof (writer_arrived t q v p' data Hiu Hwd) as Hww. assert (ww v = false) as Eww by (destruct (ww v); [by destruct Hna; apply Hww|done]).
  pose proof Hiu as [(o & Hc & [Hends _ _]) _ _ Hrb Hwb _ _ _ _ _ Hw _ Hws].
  destruct (Hws p' data Hwd Eww) as [Hfit _]. destruct (Hw p' data Hwd) as (_ & Hd & _). pose proof (stuck_content q data Hd Hfit) as Hne.
  rewrite Hrd in Hrb. rewrite Hwd in Hwb. cbn [is_some] in Hrb, Hwb.
  destruct o as [u|]; [|destruct Hends; congruence]. destruct Hends as [Eu _]. rewrite Hrb in Eu.
  pose proof Hc as [(st & Hs & Hf & Hb & Er & Ew & _ & Hw0 & _) Hu _]. set (s := pipe_ctx t) in *.
  pose proof (buffer_len_is _ _ _ Hb) as [El Hcap].
  assert (length (content q) <> 0%nat) by (by destruct (content q)).
  unfold pipe_recvfrom. cbn [Z.eqb negb orb]. assert (pipe_state s = Done st s) as Hps by (unfold pipe_state, mbind, M_bind, gets; cbn; by rewrite Hs).
  rewrite (bind_done _ _ _ _ _ Hps), (proj2 (Z.eqb_neq len 0)) by lia. unfold recv_turn. rewrite (bind_done _ _ _ _ _ Hps).
  rewrite (proj2 (Z.eqb_neq (buffer_len st) 0)) by lia. cbn [negb]. set (amt := if len <? buffer_len st then len else buffer_len st).
  assert (amt <= buffer_len st) as Hamt by (unfold amt; destruct (Z.ltb_spec len (buffer_len st)); lia).
  unfold buffer_is in Hb. destruct (buffer st) as [bf|] eqn:Ebf; [|by destruct Hb as (_ & ? & _)].
  destruct (take_bytes_done s st bf amt Hs Ebf) as (bs & st' & Ht & F1 & F2 & F3); [unfold PIPE_BUF in *; lia|].
  rewrite (bind_done _ _ _ _ _ Ht). rewrite final_bind by done.
  apply (unblock_writer_busy (set_pstate (Some st') s) st' u); rewrite ?F1, ?F2, ?F3, ?Hf; autorewrite with pflags; try congruence; try done.
  rewrite Eu. by destruct (rw v).
Qed.

(** ** Runs *)

Section demo.
#[local] Existing Instance simple_host.

Definition env0 : env := Env 0 [].
Definition pipe0 : threads := new_pipe true env0.
Definition after (a : action) (t : threads) : threads := match act a t with Done _ t' | Stop _ t' => t' end.
Definition given (a : action) (t : threads) : out := match act a t with Done o _ => o | Stop _ _ => Silent end.

(** A reader waits, a writer writes. *)
Definition pipe1 : threads := after (ARead 5) pipe0.
Definition pipe_2 : threads := after (AWrite [1; 2; 3]) pipe1.

Lemma demo_alive (reader : bool) t st : pstate (pipe_ctx t) = Some st -> has (pflags st) (if reader then PIPE_READER_ALIVE else PIPE_WRITER_ALIVE) = true -> alive reader t.
Proof. intros Hs Hf. by exists st. Defined.

Lemma demo_runs : runs pipe0 [(ARead 5, Waits); (AWrite [1; 2; 3], Got 3 [1; 2; 3])] pipe_2.
Proof.
  apply (runs_cons pipe0 [(ARead 5, Waits)] pipe1).
  - apply (runs_cons pipe0 [] pipe0); [constructor|split; [done|]; split; [by eapply demo_alive|lia]|by vm_compute].
  - split; [by vm_compute|]. split; [by eapply demo_alive; [vm_compute|]|by vm_compute].
  - by vm_compute.
Qed.

Lemma demo_enabled : enabled pipe_2 AReaderWoken.
Proof. eexists _, _. split; [by vm_compute|]. eexists. split; [by vm_compute|]. by vm_compute. Qed.

Lemma pipe_refines_queue_witness : exists q ok o t', q_runs (empty_queue true) [(ARead 5, Waits); (AWrite [1; 2; 3], Got 3 [1; 2; 3])] q /\ act AReaderWoken pipe_2 = Done o t' /\ ulegal (plog (pipe_ctx t')) /\ o = (q_step ok q AReaderWoken).1 /\ [1; 2; 3] = content q.
Proof. exact (pipe_refines_queue true env0 _ pipe_2 AReaderWoken demo_runs demo_enabled). Defined.

Lemma pipe_wakes_witness : exists q, q_runs (empty_queue true) [(ARead 5, Waits); (AWrite [1; 2; 3], Got 3 [1; 2; 3])] q /\
    (forall p len, reading pipe_2 = Some (p, len) -> content q <> [] \/ w_open q = false -> enabled pipe_2 AReaderWoken) /\
    (forall p data, writing pipe_2 = Some (p, data) -> fits q data = true \/ r_open q = false -> enabled pipe_2 AWriterWoken) /\
    (reading pipe_2 <> None -> writing pipe_2 <> None -> enabled pipe_2 AReaderWoken \/ enabled pipe_2 AWriterWoken).
Proof. exact (pipe_wakes true env0 _ pipe_2 demo_runs). Defined.

(** A reader waits and is woken by a write that fills the pipe, and a second
    write waits. *)
Definition full : list Z := replicate 4096 7.
Definition pipe_3 : threads := after (AWrite full) pipe1.
Definition pipe_4 : threads := after (AWrite [8]) pipe_3.

Lemma demo_runs_full : runs pipe0 [(ARead 5, Waits); (AWrite full, Got 4096 full); (AWrite [8], Waits)] pipe_4.
Proof.
  apply (runs_cons pipe0 [(ARead 5, Waits); (AWrite full, Got 4096 full)] pipe_3).
  - apply (runs_cons pipe0 [(ARead 5, Waits)] pipe1).
    + apply (runs_cons pipe0 [] pipe0); [constructor|split; [done|]; split; [by eapply demo_alive|lia]|by vm_compute].
    + split; [by vm_compute|]. split; [by eapply demo_alive; [vm_compute|]|by vm_compute].
    + by vm_compute.
  - split; [by vm_compute|]. split; [by eapply demo_alive; [vm_compute|]|by vm_compute].
  - by vm_compute.
Qed.

Lemma second_reader_traps_witness : exists c a,
  plog (final (pipe_recvfrom true 1 0 false false (pipe_ctx pipe_4))) = plog (pipe_ctx pipe_4) ++ [EvU c a] /\
  ~ uallowed (plog (pipe_ctx pipe_4)) c.
Proof.
  eapply (second_reader_traps true env0 _ pipe_4 _ _ _ _ 1 demo_runs_full); [by vm_compute|by vm_compute| |lia].
  intros (u & Hu & He). vm_compute in Hu. injection Hu as <-. by vm_compute in He.
Defined.
End demo.
