(* ===== verification/PipeFd.v ===== *)
(** * The descriptors of a pipe

    [pipe2] of sources/pipe.c over the descriptor table: two descriptors for
    the two halves of a new pipe, or none. *)

From S2P Require Import Prelude Errno DescTable DescTableInv DescTableSpec DescTableProps File.

Section code.
Context {O E : Type} `{Vtable O E}.
(** The object of a half: whether it is the reader's, and [blocking]. *)
Variable pipe_half : bool -> bool -> O.
Abbreviation MT := (M (dtable O E)).

Definition insert_new (o : O) : MT Z := e ← new_object o; descriptor_table_insert e.

(** The descriptors stored in [fd], when 0 is returned. *)
Definition pipe2 (flags : Z) : MT (Z * option (Z * Z)) :=
  if negb (Z.ldiff flags (Z.lor O_CLOEXEC O_NONBLOCK) =? 0) then fail_with EINVAL (-1, None) else
  reader ← alloc_ok;
  writer ← alloc_ok;
  state ← alloc_ok;
  if negb reader || negb writer || negb state then fail_with ENOMEM (-1, None) else
  let blocking := negb (has flags O_NONBLOCK) in
  rd ← insert_new (pipe_half true blocking);
  wr ← insert_new (pipe_half false blocking);
  if (rd <? 0) || (wr <? 0) then
    (if 0 <=? rd then descriptor_table_remove rd ;; mret tt else mret tt) ;;
    (if 0 <=? wr then descriptor_table_remove wr ;; mret tt else mret tt) ;;
    mret (-1, None)
  else mret (0, Some (rd, wr)).

Definition pipe : MT (Z * option (Z * Z)) := pipe2 0.
End code.

(** [pipe2] of wasip1 and wasip2. *)
Definition pipe2_unsupported {St} `{Libc St} (flags : Z) : M St Z :=
  if negb (Z.ldiff flags (Z.lor O_CLOEXEC O_NONBLOCK) =? 0) then fail_with EINVAL (-1) else fail_with ENOTSUP (-1).

Section props.
Context {O E : Type} `{Vtable O E}.
Implicit Types s : dtable O E.

(** The table is in order and small enough for another insertion. *)
Definition roomy (held : list loc) (n : Z) s : Prop := wf held s /\ stdio_initialized s = true /\ len s <= n /\ Z.of_nat (length held) <= 2 ^ 30.

Lemma insert_new_spec held s o n : roomy held n s -> 0 <= n <= 2 ^ 26 ->
  exists r s', insert_new o s = Done r s' /\ roomy held (2 * n + 10) s' /\
    (0 <= r /\ open_fds s !! r = None /\ (forall j, 0 <= j < r -> is_Some (open_fds s !! j)) /\ open_fds s' = <[r := brk s]> (open_fds s) /\ heap s !! brk s = None /\
       heap s' = <[brk s := Object 1 o]> (heap s) /\ errno s' = errno s /\ calls s' = calls s
     \/ r = -1 /\ errno s' = ENOMEM /\ open_fds s' = open_fds s /\ heap s' = heap s /\ exists v, calls s' = calls s ++ (vtable_free o v).1).
Proof.
  intros (W & Hst & Hlen & Hheld) Hn. destruct (pending_new held s o W) as [Hnew Hp]. pose proof (wf_brk _ _ _ _ _ _ _ W (brk s) (Nat.le_refl _)) as Hfresh. edestruct (insert_spec held init_stdio) as (r & s' & Hins & W' & _ & Hst' & Hl' & Hc); [exact Hp|done|cbn; lia|unfold fits; cbn [len set_brk set_heap length]; lia|].
  exists r, s'. unfold insert_new. rewrite (bind_done _ _ _ _ _ Hnew). split; [done|]. split; [split; [done|]; split; [done|]; cbn [len set_brk set_heap] in Hl'; lia|].
  destruct Hc as [(? & ? & ? & Ho & He & Hh & Hcl)|(? & He & Ho & Hh & Hcl)]; [left|right]; cbn in Hh; rewrite Hh.
  - rewrite insert_insert_eq. done.
  - rewrite delete_insert_id by done. done.
Qed.

(** Closing a descriptor that has the only reference to its object. *)
Lemma remove_only held s fd e o n : roomy held n s -> n <= 2 ^ 27 -> open_fds s !! fd = Some e -> heap s !! e = Some (Object 1 o) ->
  exists s', descriptor_table_remove fd s = Done 0 s' /\ roomy held n s' /\ errno s' = errno s /\ open_fds s' = delete fd (open_fds s) /\ bodies s' = delete e (bodies s) /\ exists v, calls s' = calls s ++ (vtable_free o v).1.
Proof.
  intros (W & Hst & Hlen & Hheld) Hn Hfd Hh. pose proof (remove_spec held s fd W ltac:(split; lia) Hst) as Hr. rewrite Hfd in Hr. destruct Hr as (s' & o' & Ho' & Hrm & W' & Hst' & He & Hop & Hl & Hc). rewrite Hh in Ho'. injection Ho' as <-. cbn [cnt body] in Hc. cbn [Z.eqb Pos.eqb] in Hc. destruct Hc as [Hb Hcl].
  exists s'. split; [done|]. split; [split; [done|]; split; [done|]; lia|]. split; [done|]. split; [done|]. split; [done|]. by eexists.
Qed.

(** The two halves freed, in one order or the other. *)
Definition freed_both (x y : O) (l : list E) : Prop :=
  exists v w, l = (vtable_free x v).1 ++ (vtable_free y w).1 \/ l = (vtable_free y v).1 ++ (vtable_free x w).1.

(** What [pipe2] promises. *)
Definition pipe2_result (x y : O) s (r : Z * option (Z * Z)) s' : Prop :=
  match r with
  | (0, Some (rd, wr)) =>
      exists lx ly, open_fds s !! rd = None /\ open_fds s !! wr = None /\ rd < wr /\ (forall j, 0 <= j < wr -> j = rd \/ is_Some (open_fds s !! j)) /\
        open_fds s' = <[wr := ly]> (<[rd := lx]> (open_fds s)) /\ bodies s' = <[ly := y]> (<[lx := x]> (bodies s)) /\ lx <> ly /\ errno s' = errno s /\ calls s' = calls s
  | (-1, None) => open_fds s' = open_fds s /\ bodies s' = bodies s /\ errno s' = ENOMEM /\ (calls s' = calls s \/ exists l, calls s' = calls s ++ l /\ freed_both x y l)
  | _ => False
  end.

Lemma bodies_new s s' l o : heap s !! l = None -> heap s' = <[l := Object 1 o]> (heap s) -> bodies s' = <[l := o]> (bodies s) /\ delete l (bodies s') = bodies s.
Proof.
  intros Hf Hh. assert (bodies s' = <[l := o]> (bodies s)) as Eb by (unfold bodies; by rewrite Hh, fmap_insert). split; [done|]. rewrite Eb, delete_insert_id; [done|]. unfold bodies. by rewrite lookup_fmap, Hf.
Qed.

(** The part after the allocations. *)
Lemma insert_both held s x y : roomy held (2 ^ 22) s ->
  exists r s', (rd ← insert_new x; wr ← insert_new y;
    if (rd <? 0) || (wr <? 0) then
      (if 0 <=? rd then descriptor_table_remove rd ;; mret tt else mret tt) ;;
      (if 0 <=? wr then descriptor_table_remove wr ;; mret tt else mret tt) ;;
      mret (-1, None)
    else mret (0, Some (rd, wr))) s = Done r s' /\ wf held s' /\ pipe2_result x y s r s'.
Proof.
  intros Hr0. destruct (insert_new_spec held s x _ Hr0 ltac:(lia)) as (rd & s1 & H1 & Hr1 & Hc1). destruct (insert_new_spec held s1 y _ Hr1 ltac:(lia)) as (wr & s2 & H2 & Hr2 & Hc2). rewrite (bind_done _ _ _ _ _ H1), (bind_done _ _ _ _ _ H2).
  destruct Hc1 as [(Hrd & Hn1 & Hlow1 & Ho1 & Hf1 & Hh1 & He1 & Hk1)|(-> & He1 & Ho1 & Hh1 & v1 & Hk1)]; destruct Hc2 as [(Hwr & Hn2 & Hlow2 & Ho2 & Hf2 & Hh2 & He2 & Hk2)|(-> & He2 & Ho2 & Hh2 & v2 & Hk2)].
  - rewrite !(proj2 (Z.ltb_ge _ _)) by lia. cbn [orb]. eexists _, _. split; [done|]. split; [apply Hr2|]. exists (brk s), (brk s1). destruct (bodies_new _ _ _ _ Hf1 Hh1) as [Eb1 _]. destruct (bodies_new _ _ _ _ Hf2 Hh2) as [Eb2 _]. rewrite Ho1 in Hn2, Hlow2.
    assert (rd <> wr) as Hne by (intros ->; by rewrite lookup_insert_eq in Hn2). rewrite lookup_insert_ne in Hn2 by done. assert (rd < wr) as Hlt by (destruct (Z.lt_trichotomy rd wr) as [?|[?|Hgt]]; [done|done|]; destruct (Hlow1 wr ltac:(lia)) as [z Hz]; congruence).
    split; [done|]. split; [done|]. split; [done|]. split; [intros j Hj; destruct (decide (j = rd)) as [->|Hj']; [by left|right]; specialize (Hlow2 j Hj); by rewrite lookup_insert_ne in Hlow2|]. split; [by rewrite Ho2, Ho1|]. split; [by rewrite Eb2, Eb1|]. split; [intros Ee; by rewrite Hh1, <- Ee, lookup_insert_eq in Hf2|]. split; [by rewrite He2|by rewrite Hk2].
  - destruct (bodies_new _ _ _ _ Hf1 Hh1) as [Eb1 Ed1]. rewrite (proj2 (Z.ltb_ge rd 0)), (proj2 (Z.leb_le 0 rd)) by lia. cbn [orb Z.ltb Z.leb Z.compare]. destruct (remove_only held s2 rd (brk s) x _ Hr2 ltac:(lia)) as (s3 & H3 & Hr3 & He3 & Ho3 & Hb3 & v3 & Hk3); [by rewrite Ho2, Ho1, lookup_insert_eq|by rewrite Hh2, Hh1, lookup_insert_eq|].
    eexists _, _. split; [by unfold mbind, M_bind; rewrite H3|]. split; [apply Hr3|]. assert (bodies s2 = bodies s1) as Eb by (unfold bodies; by rewrite Hh2). split; [by rewrite Ho3, Ho2, Ho1, delete_insert_id|]. split; [by rewrite Hb3, Eb|]. split; [by rewrite He3|]. right. eexists. split; [rewrite Hk3, Hk2, Hk1; by rewrite <- (assoc_L (++))|]. exists v2, v3. by right.
  - destruct (bodies_new _ _ _ _ Hf2 Hh2) as [Eb2 Ed2]. rewrite (proj2 (Z.leb_le 0 wr)) by lia. cbn [orb Z.ltb Z.leb Z.compare]. destruct (remove_only held s2 wr (brk s1) y _ Hr2 ltac:(lia)) as (s3 & H3 & Hr3 & He3 & Ho3 & Hb3 & v3 & Hk3); [by rewrite Ho2, lookup_insert_eq|by rewrite Hh2, lookup_insert_eq|].
    eexists _, _. split; [by unfold mbind, M_bind, mret, M_ret; rewrite H3|]. split; [apply Hr3|]. assert (bodies s1 = bodies s) as Eb by (unfold bodies; by rewrite Hh1). split; [by rewrite Ho3, Ho2, delete_insert_id|]. split; [by rewrite Hb3, Ed2, Eb|]. split; [by rewrite He3, He2|]. right. eexists. split; [rewrite Hk3, Hk2, Hk1; by rewrite <- (assoc_L (++))|]. exists v1, v3. by left.
  - cbn [orb Z.ltb Z.leb Z.compare]. eexists _, _. split; [done|]. split; [apply Hr2|]. split; [by rewrite Ho2|]. split; [unfold bodies; by rewrite Hh2, Hh1|]. split; [done|]. right. eexists. split; [rewrite Hk2, Hk1; by rewrite <- (assoc_L (++))|]. exists v1, v2. by left.
Qed.
End props.

Section correct.
Context {O E : Type} `{Vtable O E} (pipe_half : bool -> bool -> O).
Implicit Types s : dtable O E.

(** An answer of the allocator changes nothing else. *)
Lemma alloc_frame s held n : roomy held n s -> exists b v, alloc_ok s = Done b (set_env v s) /\ roomy held n (set_env v s) /\ errno (set_env v s) = errno s.
Proof.
  intros Hr. unfold alloc_ok. cbn [take_alloc dtable_libc]. pose proof (errno_take_alloc (dt_env s)) as He. destruct (take_alloc (dt_env s)) as [b v]. exists b, v. done.
Qed.

Lemma pipe2_env x y v s r s' : errno (set_env v s) = errno s -> pipe2_result x y (set_env v s) r s' -> pipe2_result x y s r s'.
Proof. unfold pipe2_result. destruct r as [[| |[]] [[rd wr]|]]; try done. cbn [open_fds bodies entries heap calls set_env]. intros -> ?. done. Qed.

Lemma pipe2_run held s fl : roomy held (2 ^ 22) s -> Z.ldiff fl (Z.lor O_CLOEXEC O_NONBLOCK) = 0 ->
  exists r s', pipe2 pipe_half fl s = Done r s' /\ pipe2_result (pipe_half true (negb (has fl O_NONBLOCK))) (pipe_half false (negb (has fl O_NONBLOCK))) s r s'.
Proof.
  intros Hr Hfl. unfold pipe2. rewrite Hfl. cbn [Z.eqb negb]. destruct (alloc_frame s held _ Hr) as (b1 & v1 & E1 & Hr1 & He1). destruct (alloc_frame _ held _ Hr1) as (b2 & v2 & E2 & Hr2 & He2). destruct (alloc_frame _ held _ Hr2) as (b3 & v3 & E3 & Hr3 & He3). cbn [set_env] in *.
  rewrite (bind_done _ _ _ _ _ E1), (bind_done _ _ _ _ _ E2), (bind_done _ _ _ _ _ E3). destruct (negb b1 || negb b2 || negb b3).
  - eexists _, _. split; [done|]. split; [done|]. split; [done|]. split; [done|]. by left.
  - cbv zeta. destruct (insert_both held _ (pipe_half true (negb (has fl O_NONBLOCK))) (pipe_half false (negb (has fl O_NONBLOCK))) Hr3) as (r & s' & Hrun & _ & Hres). exists r, s'. split; [done|]. apply (pipe2_env _ _ v1); [done|]. apply (pipe2_env _ _ v2); [done|]. apply (pipe2_env _ _ v3); done.
Qed.

(** C16: [pipe2] opens both descriptors or none. With flags it does not know it
    fails with EINVAL and changes nothing else; otherwise it returns the two
    lowest descriptors that were free, the first for the reader and the second
    for the writer of a new pipe, or fails with ENOMEM with the table as it
    was: either nothing had been handed to the table yet, or both halves are
    freed exactly once. *)
Theorem pipe2_correct v held s fl :
  reachable v held s -> stdio_initialized s = true -> len s <= 2 ^ 22 -> Z.of_nat (length held) <= 2 ^ 30 ->
  exists r s', pipe2 pipe_half fl s = Done r s' /\
    if Z.ldiff fl (Z.lor O_CLOEXEC O_NONBLOCK) =? 0
    then pipe2_result (pipe_half true (negb (has fl O_NONBLOCK))) (pipe_half false (negb (has fl O_NONBLOCK))) s r s'
    else r = (-1, None) /\ s' = with_errno EINVAL s.
Proof.
  intros [W _]%reachable_inv Hst Hlen Hheld. destruct (Z.eqb_spec (Z.ldiff fl (Z.lor O_CLOEXEC O_NONBLOCK)) 0) as [Efl|Efl]; [by apply (pipe2_run held)|].
  eexists _, _. split; [unfold pipe2; by rewrite (proj2 (Z.eqb_neq _ _))|]. done.
Qed.
End correct.

#[local] Existing Instance demo_vtable.
Definition demo_half (reader blocking : bool) : Z := 100 + 2 * Z.b2z reader + Z.b2z blocking.

Lemma pipe2_correct_witness : exists r s', pipe2 demo_half O_NONBLOCK (demo demo_acts).2 = Done r s' /\
  pipe2_result (demo_half true false) (demo_half false false) (demo demo_acts).2 r s'.
Proof. apply (pipe2_correct demo_half demo_env (demo demo_acts).1 (demo demo_acts).2 O_NONBLOCK); [run_demo|by vm_compute..]. Defined.
